(* ===== verification/_CoqProject ===== *)
-Q . S2P
Prelude.v
Text.v
Ordered.v
Constants.v
Path.v
Yaml.v
Json.v
Domain.v
Rule.v
Scheduler.v
ProxyView.v
Mihomo.v
Telemetry.v
Profile.v
ConfigData.v
ConfigPolicy.v
Config.v
Compiler.v
Configuration.v
Filesystem.v
Journal.v
Persistence.v
State.v
Frame.v
Request.v
Subscriber.v
Program.v
Ports.v
Transaction.v
Discipline.v
Coordinator.v
System.v
SupervisorTransactions.v
Diagnostics.v
Application.v
SupervisorOutcomes.v
Projections.v
Supervisor.v
SupervisorInvariant.v
SupervisorThreads.v
SupervisorSystem.v
Activation.v
Service.v
ServiceLogs.v
ServiceInvariant.v
ServiceSystem.v
TuiState.v
TuiReducer.v
TuiInvariant.v
WireStatus.v
WireOutput.v
WirePrintable.v
ClientError.v
IpcClient.v
IpcSystem.v
MergePatch.v
StatusDelta.v
StatusStream.v
LogBroker.v
LogFollow.v
FrontendLogs.v
LogSystem.v
