(* ===== verification/Prelude.v ===== *)
(** * Ratash: a verification of the program's decision logic

    Ratash supervises a Mihomo core.  A Supervisor keeps subscription profiles and
    a local rule set, compiles them to a configuration, and moves the running core
    and the state on disk from one configuration to the next in transactions.  A
    privileged service owns the core process.  Clients (the command line and the
    Status Interface, a terminal interface) talk to the Supervisor over a socket.
    The development models, file by file, the parts of the program that decide.

    ** Foundations
    - [Prelude] (here): machine integers, [result], lists, tactics, hints.
    - [Text], [Path], [Ordered]: strings, Unix paths, [BTreeMap] and [BTreeSet].
    - [Yaml], [Json]: documents of the two crates and derived encodings.
    - [Program]: trees of calls, for code that acts through other components.
    - [Constants] (src/constants.rs): every limit at its value.

    ** Data and its rules
    - [Domain] (src/domain.rs, src/digest.rs, src/error.rs): identifiers,
      subscription URLs and their redaction, digests, error codes.
    - [Rule] (src/rule.rs): routing rules, their parser, the local rule set.
    - [Scheduler] (src/scheduler.rs): profile refreshes and delay probes.
    - [Profile] (src/profile.rs): snapshots, derived names, the catalog.
    - [Telemetry] (src/telemetry.rs), [Diagnostics] (src/diagnostics.rs): the log
      buffer, the telemetry store, the ring of diagnostics.
    - [ProxyView] and [Mihomo] (src/core.rs): the proxies as the core reports
      them, selection and node rows; the JSON codec of the core's controller.

    ** Configuration (src/config.rs)
    - [ConfigData] and [ConfigPolicy]: the compiled configuration, the bundled
      schema and its walks.  [Config]: the compiler and both checks of compiled
      files.  [Compiler] and [Configuration]: their lemmas and properties.

    ** State on disk and transactions
    - [Filesystem], [Persistence] (src/persistence.rs): the content-addressed
      store, the journal and the manifest, pruning.  [State] (src/state.rs): the
      supervisor state document over that store.
    - [Journal]: the trait TransactionStore as an interface, with its calls
      ([StoreCall]), what each may do to the committed manifest and the journal
      ([store_spec]), and the class [TransactionStore].
    - [Ports], [Transaction] (src/transaction.rs): the transaction coordinator as
      programs.  [Discipline] and [Coordinator]: proved against [Journal].
      [System]: composed with [Persistence], which implements the interface.

    ** The Supervisor
    - [SupervisorTransactions] (src/supervisor/transactions.rs): its transaction
      port, over the coordinator.
    - [Application] (src/application.rs), [SupervisorOutcomes]
      (src/supervisor/errors.rs, outcomes.rs), [Projections]
      (src/supervisor/projections.rs): what it answers and shows.
    - [Supervisor] (src/supervisor.rs): every public method as a program over its
      ports and the mutex of its state.  [SupervisorInvariant]: what one method
      keeps true, given what [SupervisorTransactions] shows of the port.
      [SupervisorThreads] and [SupervisorSystem]: all interleavings, from startup.
    - [Activation]: the queue of profile activations of [profile_use].

    ** The core service
    - [Service] (src/service.rs, src/service/platform.rs, error.rs): owner
      sessions, the owned core process, restarts, log forwarding.  [ServiceLogs],
      [ServiceInvariant] and [ServiceSystem]: its guarantees, the last for any
      sequence of requests.

    ** Between Supervisor and client
    - [Frame], [Request], [Subscriber] (src/ipc.rs): frames, the request contract,
      the bounded queues of subscribers.
    - [WireStatus], [WireOutput] (src/ipc_runtime/wire.rs, wire/status.rs): the
      wire types and conversions of outputs; [WirePrintable]: that [serde_json]
      prints them.  [ClientError] (src/contract.rs, src/ipc_runtime/client_error.rs):
      errors in both directions.
    - [IpcClient] (src/ipc_runtime/client.rs) and [IpcSystem]
      (src/ipc_runtime/server.rs): the client, the server's answer to a request,
      and the two joined by a connection.
    - [MergePatch], [StatusDelta], [StatusStream] (src/ipc_runtime/stream.rs):
      status streams, sent as merge patches, and the client that follows one.
    - [LogBroker], [LogFollow] (src/ipc_runtime/stream.rs, the observer of
      src/production.rs), [FrontendLogs] (src/frontend_ipc.rs), [LogSystem]: the
      way of a log line from the Supervisor's buffer to the interface.

    ** The Status Interface
    - [TuiState], [TuiReducer] (src/tui/state.rs, reducer.rs, input.rs): its state
      and every transition.  [TuiInvariant]: what they keep true.

    ** How code becomes definitions
    A struct is a Record, an enum an Inductive, a function or method a Definition
    of the same name (with a prefix where two types have a method of that name),
    [Result] is [result] with [let?] for the question mark, a loop is a Fixpoint
    over its list or over fuel.  Machine integers are [Z] with the checked,
    saturating and wrapping operations written out below.  The functions of the
    store run in the I/O monad of [Filesystem], where a list of faults decides
    which file operations fail and how much a failing write leaves behind; all
    theorems hold for every such list.  The coordinator, the Supervisor, the
    service and the client are trees of calls ([tree]): what a theorem knows of the
    answers is the contract it names ([store_spec], [port_step], [svc_post],
    [client_post]); where the contract says nothing, a call answers anything.
    Threads are interleavings of steps, a lock is a call like the others.

    ** What the theorems show
    - Transactions ([Coordinator], [System]): a transaction commits the journaled,
      validated, current, newer candidate that was seen running, or leaves what was
      committed, and its answer says which; this holds at every point a crash can
      hit; the runtime is changed only under both locks and a journal on disk;
      startup recovery converges without changing what is committed.  [System]
      states it of the manifest file itself, under arbitrary I/O failures.
    - Store and state ([Persistence], [State]): the files implement the interface;
      commit is atomic; pruning never removes anything reachable; a committed state
      loads as it was staged, and what loads is well formed.
    - Configuration ([ConfigPolicy], [Configuration]): validation is conformance to
      the schema; managed fields are stripped; what compiles is accepted by both
      checks; local providers stay below the staging root; nothing panics.
    - Supervisor ([SupervisorTransactions], [SupervisorSystem], [Activation]): its
      memory and the committed state agree in every reachable state of every
      interleaving; a command does all of its change or nothing; all commands end;
      one activation runs at a time, and every caller gets the outcome of its own
      request or learns that it was superseded.
    - Core service ([ServiceSystem], [ServiceLogs]): at most one core, started only
      with a generation written before and never used; a live owner keeps its
      session; maintenance reports how things are; log batches account for every
      line.
    - Client and server ([IpcClient], [IpcSystem], [WireOutput]): over a connection
      the client is the application itself, with URLs redacted; a request that may
      have committed is reported as one to retry only if nothing was sent or the
      server says so; lists end and are complete,
      in order and of one revision; what a client accepts is in order.
    - Streams ([StatusStream], [LogSystem]): a client sees the published statuses one
      after the other until it is told to resynchronise; no log line is lost without
      a gap being reported, whatever is evicted or disconnected on the way.
    - Status Interface ([TuiInvariant]): selections, limits and pending requests stay
      in order; answers to cancelled requests change nothing; nothing is destroyed
      without a confirmation.
    - Core documents, diagnostics and rules ([ProxyView], [Mihomo], [Diagnostics],
      [Rule]): the view is closed, selection agrees with the raw documents, records
      are bounded, a tail tells exactly what it misses, rules print and parse back.
      [Scheduler], [Profile], [Telemetry], [Domain] and [Frame] hold the invariants
      of those components, which the systems above use.

    ** Fuel
    Recursion is structural wherever the code recurses on data.  Fuel is used by the
    regex parameter loop ([strip_rule_parameters], the length of its text), the
    reading loops ([copy_loop] and [read_exact_loop], a bound on the reads proved to
    be enough), the reference collector ([collect_references], the size of the
    document, enough by its completeness lemma) and the list operations of the client
    ([rule_requests], [profile_requests] and [proxy_requests] bound the requests, and
    [client_lists] shows that they are enough whatever the server answers).

    ** Parameters
    Crates and services the sources only call are arguments: SHA-256, the YAML and
    JSON readers and printers, URL parsing and printing, percent decoding, UUIDs,
    lower-casing of strings, [DefaultHasher], the order of directory listings, the
    process id, the chunks in which a socket delivers.  What is assumed of them
    (digests of 32 bytes, documents, URLs and UUIDs that print and parse back) are
    hypotheses of the theorems, each shown satisfiable by a concrete instance in its
    witness.

    ** Not modelled
    Background workers and cancellation tokens; the command line and its JSON views,
    except those of errors; the guardian and process control; the sockets and messages
    of the core service; start-up, lock files and wiring of the daemon, except the
    observer's forwarding of logs; sockets and threads of the frontend IPC, the opening
    of streams and [log_tail] of the client; geodata, downloads and the HTTP client of
    the core; the materialising of runtime bundles; the adapters of ports; drawing,
    terminal and runtime of the Status Interface.  All of these are I/O around the
    modelled parts or renderings without state.  The service's generation files and
    the verification of its bundles appear as the contract [svc_post]. *)

From Stdlib Require Export ZArith Lia ZifyBool.
From stdpp Require Export base tactics numbers list gmap sets fin_maps sorting.

#[global] Set Default Goal Selector "!".

(** ** Results

    Rust's [Result<T, E>], with the [?] operator as a bind. *)

Inductive result (A E : Type) : Type :=
| Ok (value : A)
| Err (error : E).
Arguments Ok {A E} value.
Arguments Err {A E} error.

Definition result_bind {A B E} (r : result A E) (k : A → result B E) : result B E :=
  match r with
  | Ok x => k x
  | Err e => Err e
  end.

Definition map_err {A E F} (f : E → F) (r : result A E) : result A F :=
  match r with
  | Ok x => Ok x
  | Err e => Err (f e)
  end.

Definition ok_or {A E} (o : option A) (e : E) : result A E :=
  match o with
  | Some x => Ok x
  | None => Err e
  end.

(** [Result::ok]. *)
Definition result_ok {A E} (r : result A E) : option A :=
  match r with
  | Ok x => Some x
  | Err _ => None
  end.

Definition is_ok {A E} (r : result A E) : bool :=
  match r with
  | Ok _ => true
  | Err _ => false
  end.

Declare Scope rust_scope.
Delimit Scope rust_scope with rust.
Notation "'let?' x ':=' r 'in' k" := (result_bind r (λ x, k))
  (at level 10, x name, r at level 100, k at level 200,
   format "'[v' 'let?'  x  ':='  r  'in' '/' k ']'") : rust_scope.
Notation "'guard?' r 'in' k" := (result_bind r (λ _, k))
  (at level 10, r at level 100, k at level 200) : rust_scope.
Open Scope rust_scope.

(** [iter().enumerate().map(f).collect::<Result<Vec<_>, _>>()]: the first
    failing element, in order, decides the error. *)
Fixpoint collect_from {A B E} (f : Z → A → result B E) (index : Z) (l : list A)
  : result (list B) E :=
  match l with
  | [] => Ok []
  | x :: l' =>
      let? y := f index x in
      let? ys := collect_from f (index + 1)%Z l' in
      Ok (y :: ys)
  end.

Definition collect {A B E} (f : Z → A → result B E) (l : list A) : result (list B) E :=
  collect_from f 0 l.

(** ** Machine integers

    [u64] and (on the 64-bit targets the program is built for) [usize] values
    are integers of [Z] in [0, u64_max]. *)

Abbreviation u64_max := 18446744073709551615%Z.
Abbreviation usize_max := 18446744073709551615%Z.

Definition in_u64 (z : Z) : Prop := (0 ≤ z ≤ u64_max)%Z.

Definition checked_add (a b : Z) : option Z :=
  if (a + b <=? u64_max)%Z then Some (a + b)%Z else None.

Definition saturating_add (a b : Z) : Z := Z.min (a + b) u64_max.
Definition saturating_sub (a b : Z) : Z := Z.max (a - b) 0.
Definition saturating_mul (a b : Z) : Z := Z.min (a * b) u64_max.
Definition wrapping_add (a b : Z) : Z := ((a + b) mod 18446744073709551616)%Z.

(** [Vec::len], [BTreeMap::len] and so on. *)
Definition zlen {A} (l : list A) : Z := Z.of_nat (length l).
Definition zsize {C} `{Size C} (c : C) : Z := Z.of_nat (size c).

(** [v.get(start..end).unwrap_or_default()] *)
Definition get_range {A} (l : list A) (start stop : Z) : list A :=
  if (start <=? stop)%Z && (stop <=? zlen l)%Z
  then take (Z.to_nat (stop - start)) (drop (Z.to_nat start) l)
  else [].

(** ** Automation *)

Create HintDb ratash.

Ltac destruct_match :=
  match goal with
  | |- context [ match ?x with _ => _ end ] => destruct x eqn:?
  | H : context [ match ?x with _ => _ end ] |- _ => destruct x eqn:?
  end.

(** Unfold the machine-integer helpers and hand the goal to [lia]. *)
Ltac u64_lia :=
  unfold saturating_add, saturating_sub, saturating_mul, in_u64, zlen, zsize in *; lia.

(** Inverts [Ok]/[Err] equations and destructs the binds they came from. *)
Ltac invert_result :=
  repeat match goal with
  | H : Ok _ = Ok _ |- _ => injection H as H; subst
  | H : Err _ = Err _ |- _ => injection H as H; subst
  | H : Ok _ = Err _ |- _ => discriminate H
  | H : Err _ = Ok _ |- _ => discriminate H
  | H : result_bind ?r _ = _ |- _ => destruct r eqn:?; simpl in H
  | H : map_err _ ?r = _ |- _ => destruct r eqn:?; simpl in H
  | H : ok_or ?o _ = _ |- _ => destruct o eqn:?; simpl in H
  end.

(** Applies an inversion lemma to the hypothesis it fits. *)
Tactic Notation "invert_with" uconstr(lem) "as" simple_intropattern(pat) :=
  match goal with H : _ |- _ => apply lem in H; revert H; intros pat end.

(** ** Generic lemmas *)

Section generic.
Context {A B E : Type}.

Lemma result_bind_Ok (r : result A E) (k : A → result B E) y :
  result_bind r k = Ok y ↔ ∃ x, r = Ok x ∧ k x = Ok y.
Proof. destruct r; simpl; naive_solver. Qed.

Lemma checked_add_Some a b c :
  checked_add a b = Some c ↔ c = (a + b)%Z ∧ (a + b ≤ u64_max)%Z.
Proof. unfold checked_add. destruct (Z.leb_spec (a + b) u64_max); naive_solver lia. Qed.

Lemma checked_add_None a b : checked_add a b = None ↔ (u64_max < a + b)%Z.
Proof. unfold checked_add. destruct (Z.leb_spec (a + b) u64_max); naive_solver lia. Qed.

Lemma collect_from_Ok (f : Z → A → result B E) index l ys :
  collect_from f index l = Ok ys ↔
  length ys = length l ∧
  ∀ i x, l !! i = Some x → ∃ y, ys !! i = Some y ∧ f (index + Z.of_nat i)%Z x = Ok y.
Proof.
  revert index ys; induction l as [|x l IH]; intros index ys; simpl.
  - split; [intros; simplify_eq; done|].
    intros [Hlen _]. destruct ys; [done|discriminate].
  - split.
    + intros H; invert_result.
      apply IH in Heqr0 as [Hlen Hall].
      split; [simpl; congruence|].
      intros [|i] z Hz; simplify_eq/=.
      * exists value. by rewrite Z.add_0_r.
      * destruct (Hall i z Hz) as (y & ? & Hy). exists y; split; [done|].
        by replace (index + Z.of_nat (S i))%Z with (index + 1 + Z.of_nat i)%Z by lia.
    + intros [Hlen Hall]. destruct ys as [|y ys]; [discriminate|].
      destruct (Hall 0 x eq_refl) as (y' & ? & Hy); simplify_eq/=.
      rewrite Z.add_0_r in Hy. rewrite Hy; simpl.
      rewrite (proj2 (IH (index + 1)%Z ys)); [done|].
      split; [congruence|]. intros i z Hz.
      destruct (Hall (S i) z Hz) as (y & ? & Hyi). exists y; split; [done|].
      by replace (index + 1 + Z.of_nat i)%Z with (index + Z.of_nat (S i))%Z by lia.
Qed.

Lemma zlen_app (l k : list A) : zlen (l ++ k) = (zlen l + zlen k)%Z.
Proof. unfold zlen. rewrite length_app. lia. Qed.

Lemma zlen_nonneg (l : list A) : (0 ≤ zlen l)%Z.
Proof. unfold zlen. lia. Qed.

(** The page of a list at an offset. *)
Lemma get_range_page (l : list A) offset limit :
  (0 ≤ offset → 0 ≤ limit → zlen l ≤ u64_max →
   get_range l offset (Z.min (saturating_add offset limit) (zlen l)) =
   take (Z.to_nat limit) (drop (Z.to_nat offset) l))%Z.
Proof.
  intros Ho Hk Hl. unfold get_range. rewrite (proj2 (Z.leb_le (Z.min _ _) _)) by lia. rewrite andb_true_r.
  unfold zlen in *. destruct (Z.leb_spec offset (Z.min (saturating_add offset limit) (Z.of_nat (length l)))).
  - destruct (decide (Z.of_nat (length l) ≤ offset + limit)%Z).
    + rewrite !take_ge; [done|rewrite length_drop; u64_lia..].
    + f_equal. u64_lia.
  - rewrite drop_ge by u64_lia. by rewrite take_nil.
Qed.

Lemma filter_none (P : A → Prop) `{!∀ x, Decision (P x)} (l : list A) :
  (∀ x, x ∈ l → ¬ P x) → filter P l = [].
Proof.
  induction l as [|x l IH]; intros Hall; [done|].
  rewrite filter_cons_False by (apply Hall; set_solver). apply IH. set_solver.
Qed.

Lemma NoDup_fmap_filter (f : A → B) (P : A → Prop) `{!∀ x, Decision (P x)} (l : list A) :
  NoDup (f <$> l) → NoDup (f <$> filter P l).
Proof.
  induction l as [|x l IH]; csimpl; [done|]. rewrite NoDup_cons. intros [Hx Hnd].
  rewrite filter_cons. case_decide; csimpl; [|by apply IH]. apply NoDup_cons. split; [|by apply IH].
  intros (y & Hy & Hin)%list_elem_of_fmap. apply Hx. rewrite Hy.
  apply list_elem_of_filter in Hin as [_ Hin]. apply list_elem_of_fmap. eauto.
Qed.

End generic.

#[export] Hint Resolve zlen_nonneg : ratash.

(** The values of a map under [f], as a multiset. *)
Section map_ids.
Context {K V : Type} `{Countable K} (f : V → Z).

Definition map_ids (m : gmap K V) : list Z := (λ p, f p.2) <$> map_to_list m.

Lemma map_ids_empty : map_ids ∅ = [].
Proof. unfold map_ids. by rewrite map_to_list_empty. Qed.

Lemma map_ids_insert m k v : m !! k = None → map_ids (<[k := v]> m) ≡ₚ f v :: map_ids m.
Proof. intros Hk. unfold map_ids. by rewrite map_to_list_insert. Qed.

Lemma map_ids_delete m k v : m !! k = Some v → map_ids m ≡ₚ f v :: map_ids (delete k m).
Proof. intros Hk. unfold map_ids. by rewrite <-(map_to_list_delete m k v). Qed.

End map_ids.
