(* ===== verification/Text.v ===== *)
(** * Text: Rust strings

    A [String] (or [&str]) is the list of its Unicode scalar values, so that
    [chars], [char_indices], [trim] and [is_control] are the functions Rust has;
    [str_len] is [str::len], the number of UTF-8 bytes, and [utf8] is
    [as_bytes].  The lexicographic order of the scalar values is the order of
    the UTF-8 bytes, so [Ord] on strings is the order of [Ordered]. *)

From stdpp Require Export strings.
From S2P Require Import Prelude.
Local Open Scope N_scope.

Abbreviation char := N.
Abbreviation str := (list N).
Abbreviation byte := N.
Abbreviation bytes := (list N).

(** A string literal of the source (all of them are ASCII). *)
Definition lit (s : string) : str := Ascii.N_of_ascii <$> String.list_ascii_of_string s.
Arguments lit s%_string.

(** ** Characters *)

(** [char::is_whitespace]: the Unicode property White_Space. *)
Definition is_whitespace (c : char) : bool :=
  ((9 <=? c) && (c <=? 13)) || (c =? 32) || (c =? 133) || (c =? 160) || (c =? 5760)
  || ((8192 <=? c) && (c <=? 8202)) || (c =? 8232) || (c =? 8233) || (c =? 8239)
  || (c =? 8287) || (c =? 12288).

(** [char::is_control]: the general category Cc. *)
Definition is_control (c : char) : bool :=
  (c <=? 31) || ((127 <=? c) && (c <=? 159)).

Definition is_ascii_digit (c : N) : bool := (48 <=? c) && (c <=? 57).
Definition is_ascii_upper (c : N) : bool := (65 <=? c) && (c <=? 90).
Definition is_ascii_lower (c : N) : bool := (97 <=? c) && (c <=? 122).
Definition is_ascii_alpha (c : N) : bool := is_ascii_upper c || is_ascii_lower c.
Definition is_ascii_alnum (c : N) : bool := is_ascii_alpha c || is_ascii_digit c.

Definition to_ascii_lower_char (c : N) : N := if is_ascii_upper c then c + 32 else c.
Definition to_ascii_lowercase (s : str) : str := to_ascii_lower_char <$> s.

Definition char_len_utf8 (c : char) : Z :=
  if c <? 128 then 1 else if c <? 2048 then 2 else if c <? 65536 then 3 else 4.

Fixpoint str_len (s : str) : Z :=
  match s with
  | [] => 0
  | c :: s' => char_len_utf8 c + str_len s'
  end.

(** ** Slices *)

Fixpoint trim_start (s : str) : str :=
  match s with
  | [] => []
  | c :: s' => if is_whitespace c then trim_start s' else s
  end.

Definition trim_end (s : str) : str := reverse (trim_start (reverse s)).
Definition trim (s : str) : str := trim_end (trim_start s).

(** [split_once(sep)] and [rsplit_once(sep)] for a one-character separator. *)
Fixpoint split_once (sep : char) (s : str) : option (str * str) :=
  match s with
  | [] => None
  | c :: s' =>
      if c =? sep then Some ([], s')
      else match split_once sep s' with
           | Some (a, b) => Some (c :: a, b)
           | None => None
           end
  end.

Definition rsplit_once (sep : char) (s : str) : option (str * str) :=
  match split_once sep (reverse s) with
  | Some (b, a) => Some (reverse a, reverse b)
  | None => None
  end.

(** [split(sep)]: never empty, one field more than there are separators. *)
Fixpoint split (sep : char) (s : str) : list str :=
  match s with
  | [] => [[]]
  | c :: s' =>
      if c =? sep then [] :: split sep s'
      else match split sep s' with
           | [] => [[c]]
           | field :: fields => (c :: field) :: fields
           end
  end.

Definition contains_char (sep : char) (s : str) : bool := existsb (N.eqb sep) s.

Fixpoint strip_prefix (p s : str) : option str :=
  match p, s with
  | [], _ => Some s
  | c :: p', d :: s' => if c =? d then strip_prefix p' s' else None
  | _ :: _, [] => None
  end.

Definition strip_suffix (p s : str) : option str :=
  reverse <$> strip_prefix (reverse p) (reverse s).

Definition starts_with (p s : str) : bool :=
  match strip_prefix p s with Some _ => true | None => false end.

(** [str::contains] for a string pattern. *)
Fixpoint contains_str (p s : str) : bool :=
  starts_with p s ||
  match s with
  | [] => false
  | _ :: s' => contains_str p s'
  end.

Definition comma : char := 44.
Definition join (sep : char) (fields : list str) : str :=
  match fields with
  | [] => []
  | f :: fs => f ++ concat ((λ g, sep :: g) <$> fs)
  end.

(** [Display] of an unsigned integer; the fuel is the number of its bits. *)
Fixpoint decimal_from (fuel : nat) (n : N) (acc : str) : str :=
  match fuel with
  | O => acc
  | S fuel' =>
      let acc := (48 + n mod 10) :: acc in
      if n <? 10 then acc else decimal_from fuel' (n / 10) acc
  end.
Definition decimal (n : N) : str := decimal_from (S (N.size_nat n)) n [].

(** [str::parse::<u64>]: an optional plus sign and digits. *)
Fixpoint parse_digits (acc : Z) (s : str) : option Z :=
  match s with
  | [] => Some acc
  | c :: rest =>
      if is_ascii_digit c
      then let v := (acc * 10 + (Z.of_N c - 48))%Z in
           if (v <=? u64_max)%Z then parse_digits v rest else None
      else None
  end.
Definition parse_u64 (s : str) : option Z :=
  match s with
  | [] => None
  | c :: rest => if c =? 43 then (if bool_decide (rest = []) then None else parse_digits 0 rest) else parse_digits 0 s
  end.

(** ** UTF-8 *)

Definition scalar (c : char) : Prop := c < 55296 ∨ (57344 ≤ c ∧ c < 1114112).

Definition utf8_char (c : char) : bytes :=
  if c <? 128 then [c]
  else if c <? 2048 then [192 + c / 64; 128 + c mod 64]
  else if c <? 65536 then [224 + c / 4096; 128 + (c / 64) mod 64; 128 + c mod 64]
  else [240 + c / 262144; 128 + (c / 4096) mod 64; 128 + (c / 64) mod 64; 128 + c mod 64].

Definition utf8 (s : str) : bytes := concat (utf8_char <$> s).

(** ** Lemmas *)

Lemma char_len_utf8_bounds c : (1 ≤ char_len_utf8 c ≤ 4)%Z.
Proof. unfold char_len_utf8. repeat case_match; lia. Qed.

Lemma str_len_nonneg s : (0 ≤ str_len s)%Z.
Proof. induction s as [|c s IH]; simpl; [lia|]. pose proof (char_len_utf8_bounds c). lia. Qed.

Lemma str_len_app s t : str_len (s ++ t) = (str_len s + str_len t)%Z.
Proof. induction s as [|c s IH]; simpl; [done|]. rewrite IH. lia. Qed.

Lemma utf8_length s : zlen (utf8 s) = str_len s.
Proof.
  unfold utf8. induction s as [|c s IH]; [done|]. csimpl. rewrite zlen_app, IH.
  unfold utf8_char, char_len_utf8. repeat case_match; done.
Qed.

Lemma str_len_zero s : str_len s = 0%Z ↔ s = [].
Proof.
  destruct s as [|c s]; simpl; [done|].
  pose proof (char_len_utf8_bounds c); pose proof (str_len_nonneg s). split; [lia|done].
Qed.

Lemma trim_start_cons c s :
  trim_start (c :: s) = if is_whitespace c then trim_start s else c :: s.
Proof. done. Qed.

(** What [trim_start] cuts is a whitespace prefix. *)
Lemma trim_start_spec s :
  ∃ w, s = w ++ trim_start s ∧ Forall (λ c, is_whitespace c = true) w
       ∧ (∀ c t, trim_start s = c :: t → is_whitespace c = false).
Proof.
  induction s as [|c s (w & Hs & Hw & Hh)]; simpl.
  - exists []; naive_solver.
  - destruct (is_whitespace c) eqn:Hc.
    + exists (c :: w). rewrite Hs at 1. split; [done|]. split; [by constructor|done].
    + exists []. naive_solver.
Qed.

Lemma split_once_Some sep s a b :
  split_once sep s = Some (a, b) ↔ s = a ++ sep :: b ∧ sep ∉ a.
Proof.
  revert a b; induction s as [|c s IH]; intros a b; simpl.
  { split; [done|]. intros [Hs _]. by destruct a. }
  destruct (N.eqb_spec c sep) as [->|Hne].
  - split.
    + intros; simplify_eq. split; [done|]. apply not_elem_of_nil.
    + intros [Hs Ha]. destruct a as [|d a]; simplify_eq/=; [done|].
      exfalso. apply Ha. apply elem_of_cons; by left.
  - destruct (split_once sep s) as [[a' b']|] eqn:Hsp.
    + destruct (proj1 (IH a' b') eq_refl) as [-> Ha']. split.
      * intros; simplify_eq. split; [done|]. rewrite elem_of_cons. naive_solver.
      * intros [Hs Ha]. destruct a as [|d a]; simplify_eq/=.
        rewrite elem_of_cons in Ha.
        assert (Some (a', b') = Some (a, b)) as Heq by (apply IH; naive_solver).
        by simplify_eq.
    + split; [done|]. intros [Hs Ha]. destruct a as [|d a]; simplify_eq/=.
      rewrite elem_of_cons in Ha.
      assert (None = Some (a, b)) by (apply IH; naive_solver). done.
Qed.

Lemma split_once_None sep s : split_once sep s = None ↔ sep ∉ s.
Proof.
  split.
  - intros Hn Hin. apply list_elem_of_split in Hin as (a & b & ->).
    revert Hn. induction a as [|c a IH]; simpl; [by rewrite N.eqb_refl|].
    destruct (c =? sep); [done|]. destruct (split_once sep (a ++ sep :: b)) as [[]|]; naive_solver.
  - intros Hn. destruct (split_once sep s) as [[a b]|] eqn:H; [|done].
    apply split_once_Some in H as [-> _]. exfalso. apply Hn. set_solver.
Qed.

Lemma rsplit_once_Some sep s a b :
  rsplit_once sep s = Some (a, b) ↔ s = a ++ sep :: b ∧ sep ∉ b.
Proof.
  unfold rsplit_once.
  destruct (split_once sep (reverse s)) as [[b' a']|] eqn:H.
  - apply split_once_Some in H as [Hs Hb].
    apply (f_equal reverse) in Hs. rewrite reverse_involutive, reverse_app, reverse_cons in Hs.
    rewrite <-app_assoc in Hs. simpl in Hs.
    split.
    + intros; simplify_eq. split; [done|]. by rewrite elem_of_reverse.
    + intros [Hs' Hb'].
      assert (split_once sep (reverse s) = Some (reverse b, reverse a)) as H2.
      { apply split_once_Some. rewrite Hs', reverse_app, reverse_cons, <-app_assoc.
        split; [done|]. by rewrite elem_of_reverse. }
      assert (split_once sep (reverse s) = Some (b', a')) as H3.
      { apply split_once_Some. split; [|done].
        rewrite Hs, reverse_app, reverse_cons, <-app_assoc, !reverse_involutive. done. }
      rewrite H2 in H3. simplify_eq. by rewrite !reverse_involutive.
  - apply split_once_None in H. split; [done|]. intros [-> _].
    rewrite elem_of_reverse in H. exfalso. apply H. set_solver.
Qed.

Lemma split_not_nil sep s : split sep s ≠ [].
Proof. induction s as [|c s IH]; simpl; [done|]. repeat case_match; done. Qed.

(** [split] loses nothing: joining the fields gives the string back. *)
Lemma join_split sep s : join sep (split sep s) = s.
Proof.
  induction s as [|c s IH]; simpl; [done|].
  destruct (split sep s) as [|f fs] eqn:Hs; [by apply split_not_nil in Hs|].
  destruct (N.eqb_spec c sep) as [->|Hne]; unfold join in *; csimpl; by rewrite <-IH.
Qed.

Lemma split_app_sep sep a s : sep ∉ a → split sep (a ++ sep :: s) = a :: split sep s.
Proof.
  induction a as [|c a IH]; simpl; intros Ha.
  - by rewrite N.eqb_refl.
  - rewrite elem_of_cons in Ha. destruct (N.eqb_spec c sep); [naive_solver|].
    rewrite IH; naive_solver.
Qed.

Lemma split_no_sep sep a : sep ∉ a → split sep a = [a].
Proof.
  induction a as [|c a IH]; simpl; intros Ha; [done|].
  rewrite elem_of_cons in Ha. destruct (N.eqb_spec c sep); [naive_solver|].
  rewrite IH; naive_solver.
Qed.

Lemma split_join sep (fields : list str) :
  fields ≠ [] → Forall (λ f, sep ∉ f) fields → split sep (join sep fields) = fields.
Proof.
  destruct fields as [|f fields]; [done|]. intros _ Hall. revert f Hall.
  induction fields as [|g fields IH]; intros f Hall; inversion_clear Hall as [|? ? Hf Hfs].
  - unfold join. csimpl. rewrite app_nil_r. by apply split_no_sep.
  - unfold join. csimpl. rewrite split_app_sep by done. f_equal. by apply (IH g).
Qed.

Lemma strip_prefix_Some p s t : strip_prefix p s = Some t ↔ s = p ++ t.
Proof.
  revert s; induction p as [|c p IH]; intros s; simpl; [naive_solver|].
  destruct s as [|d s]; [done|]. destruct (N.eqb_spec c d) as [->|]; [|naive_solver].
  rewrite IH. naive_solver.
Qed.

(** The first byte of an encoded character gives the length of its encoding,
    and the bytes give the character back: [utf8] is a prefix code. *)
Lemma utf8_lead2 c : c < 2048 → c / 64 < 32.
Proof. intros. by apply N.Div0.div_lt_upper_bound. Qed.

Lemma utf8_lead3 c : c < 65536 → c / 64 / 64 < 16.
Proof. intros. rewrite N.Div0.div_div. by apply N.Div0.div_lt_upper_bound. Qed.

Lemma div_mod_inj64 a b : a / 64 = b / 64 → 128 + a mod 64 = 128 + b mod 64 → a = b.
Proof. intros Hd Hm. rewrite (N.div_mod' a 64), (N.div_mod' b 64). lia. Qed.

(** [lia] knows no sign for a quotient of [N]: replace quotients by variables. *)
Ltac atomise_div :=
  repeat match goal with
  | H : context [N.div ?a 64] |- _ =>
      let q := fresh "q" in set (q := N.div a 64) in *; clearbody q
  end.

Lemma utf8_char_inj c d t u : utf8_char c ++ t = utf8_char d ++ u → c = d ∧ t = u.
Proof.
  pose proof (utf8_lead2 c); pose proof (utf8_lead2 d).
  pose proof (utf8_lead3 c); pose proof (utf8_lead3 d).
  assert (∀ e, e / 262144 = e / 64 / 64 / 64) as Hdiv3 by (intros; by rewrite !N.Div0.div_div).
  assert (∀ e, e / 4096 = e / 64 / 64) as Hdiv2 by (intros; by rewrite !N.Div0.div_div).
  unfold utf8_char. rewrite !Hdiv3, !Hdiv2. clear Hdiv3 Hdiv2.
  repeat case_match; rewrite ?N.ltb_lt, ?N.ltb_ge in *; cbn [app]; intros [=]; split; try done.
  all: try (exfalso; atomise_div; lia).
  all: repeat (apply div_mod_inj64; [|assumption]); atomise_div; lia.
Qed.

Lemma utf8_inj s t : utf8 s = utf8 t → s = t.
Proof.
  revert t; induction s as [|c s IH]; intros [|d t]; unfold utf8; csimpl; [done|..].
  - unfold utf8_char. repeat case_match; done.
  - unfold utf8_char. repeat case_match; done.
  - intros [-> H]%utf8_char_inj. f_equal. by apply IH.
Qed.

Lemma utf8_app s t : utf8 (s ++ t) = utf8 s ++ utf8 t.
Proof. unfold utf8. by rewrite fmap_app, concat_app. Qed.

(** ASCII text is its own encoding. *)
Lemma utf8_ascii s : Forall (λ c, c < 128) s → utf8 s = s.
Proof.
  induction 1 as [|c s Hc _ IH]; [done|]. unfold utf8 in *; csimpl. rewrite IH.
  unfold utf8_char. by apply N.ltb_lt in Hc as ->.
Qed.

Lemma utf8_no_nul s : (0 ∉ s) → (0 ∉ utf8 s).
Proof.
  unfold utf8. induction s as [|c s IH]; csimpl; [done|].
  rewrite not_elem_of_cons, not_elem_of_app. intros [Hc Hs]. split; [|by apply IH].
  assert (∀ p q, 0 ≠ N.pos p + q) as Hpos by (intros p []; done).
  unfold utf8_char. repeat case_match; rewrite ?not_elem_of_cons;
    repeat split; first [done | apply Hpos | apply not_elem_of_nil].
Qed.

(** ** Numbers in text *)

Definition digits_value (v : Z) (ds : str) : Z := foldl (λ v c, v * 10 + (Z.of_N c - 48))%Z v ds.

Lemma decimal_from_app fuel n acc : decimal_from fuel n acc = decimal_from fuel n [] ++ acc.
Proof.
  revert n acc; induction fuel as [|fuel IH]; intros n acc; simpl; [done|]. destruct (n <? 10); [done|].
  rewrite IH, (IH _ [_]). by rewrite <-(assoc_L (++)).
Qed.

Lemma decimal_digits fuel n :
  n < 10 ^ N.of_nat fuel → (0 < fuel)%nat →
  decimal_from fuel n [] ≠ [] ∧ Forall (λ c, is_ascii_digit c = true) (decimal_from fuel n []) ∧
  digits_value 0 (decimal_from fuel n []) = Z.of_N n.
Proof.
  revert n; induction fuel as [|fuel IH]; intros n Hn Hf; [lia|]. cbn [decimal_from].
  assert (is_ascii_digit (48 + n mod 10) = true) as Hd.
  { pose proof (N.mod_lt n 10 ltac:(done)) as Hm. unfold is_ascii_digit. rewrite andb_true_iff, !N.leb_le.
    revert Hm. generalize (n mod 10). intros m Hm. lia. }
  destruct (N.ltb_spec n 10) as [Hs|Hs].
  - rewrite (N.mod_small n 10) in * by done. split_and!; [done|by repeat constructor|]. unfold digits_value; simpl foldl. lia.
  - rewrite decimal_from_app.
    assert (n / 10 < 10 ^ N.of_nat fuel) as Hlt.
    { apply N.Div0.div_lt_upper_bound. rewrite Nat2N.inj_succ, N.pow_succ_r' in Hn. done. }
    destruct fuel as [|fuel]; [simpl in Hn; lia|].
    destruct (IH _ Hlt ltac:(lia)) as (Hne & Hall & Hv). split_and!.
    + by destruct (decimal_from (S fuel) (n / 10) []).
    + apply Forall_app. split; [done|by repeat constructor].
    + unfold digits_value in *. rewrite foldl_app, Hv. simpl foldl. pose proof (N.div_mod n 10 ltac:(done)). lia.
Qed.

Lemma digits_value_le v ds : (0 ≤ v)%Z → Forall (λ c, is_ascii_digit c = true) ds → (v ≤ digits_value v ds)%Z.
Proof.
  revert v; induction ds as [|c ds IH]; intros v Hv Hds; [reflexivity|]. apply Forall_cons in Hds as [Hc Hds].
  unfold is_ascii_digit in Hc. rewrite andb_true_iff, !N.leb_le in Hc. unfold digits_value in *. simpl foldl. etrans; [|apply IH]; [|lia|done]. lia.
Qed.

Lemma parse_digits_value v ds :
  (0 ≤ v)%Z → Forall (λ c, is_ascii_digit c = true) ds → (digits_value v ds ≤ u64_max)%Z →
  parse_digits v ds = Some (digits_value v ds).
Proof.
  revert v; induction ds as [|c ds IH]; intros v Hv Hds Hm; [done|]. apply Forall_cons in Hds as [Hc Hds]. simpl.
  rewrite Hc. assert (0 ≤ v * 10 + (Z.of_N c - 48))%Z as H0 by (unfold is_ascii_digit in Hc; rewrite andb_true_iff, !N.leb_le in Hc; lia).
  pose proof (digits_value_le _ _ H0 Hds) as Hle. unfold digits_value in *. simpl foldl in *.
  rewrite (proj2 (Z.leb_le _ _)) by lia. by apply IH.
Qed.

(** A number parses back from its digits. *)
Lemma parse_decimal n : (Z.of_N n ≤ u64_max)%Z → parse_u64 (decimal n) = Some (Z.of_N n).
Proof.
  intros Hn. unfold decimal.
  destruct (decimal_digits (S (N.size_nat n)) n) as (Hne & Hall & Hv); [|lia|].
  { pose proof (N.size_gt n). rewrite Nat2N.inj_succ.
    assert (N.of_nat (N.size_nat n) = N.size n) as -> by (clear; destruct n as [|p]; [done|]; cbn [N.size_nat N.size]; induction p; cbn [Pos.size_nat Pos.size]; lia). 
    etrans; [eassumption|]. rewrite N.pow_succ_r'. pose proof (N.pow_le_mono_l 2 10 (N.size n) ltac:(done)). lia. }
  rewrite <-Hv. revert Hne Hall Hv. destruct (decimal_from (S (N.size_nat n)) n []) as [|c ds] eqn:He; [done|].
  intros _ Hall Hv. unfold parse_u64. pose proof (Forall_inv Hall) as Hc. unfold is_ascii_digit in Hc. rewrite andb_true_iff, !N.leb_le in Hc.
  rewrite (proj2 (N.eqb_neq c 43)) by lia. apply parse_digits_value; [done..|]. by rewrite Hv.
Qed.
