(* ===== verification/Ordered.v ===== *)
(** * Ordered: [Ord], [BTreeMap] and [BTreeSet]

    A [BTreeMap<K, V>] is a [gmap K V] and a [BTreeSet<K>] a [gset K]; what the
    B-tree adds is the order of iteration, which is the sorted list of the
    entries: [btree_iter], [btree_keys], [btree_values], [bset_iter] and
    [bset_first]. *)

From S2P Require Import Prelude.
Local Open Scope Z_scope.

(** ** Total orders ([#[derive(Ord)]]) *)

Class Ord (A : Type) := ord_leb : A → A → bool.

Class OrdLaws (A : Type) `{Ord A} := {
  ord_leb_total : ∀ x y : A, ord_leb x y = true ∨ ord_leb y x = true;
  ord_leb_trans : ∀ x y z : A, ord_leb x y = true → ord_leb y z = true → ord_leb x z = true;
  ord_leb_antisym : ∀ x y : A, ord_leb x y = true → ord_leb y x = true → x = y;
}.

Definition ord_le {A} `{Ord A} (x y : A) : Prop := ord_leb x y = true.

#[global] Instance ord_le_dec {A} `{Ord A} : RelDecision (@ord_le A _).
Proof. intros x y. unfold ord_le. apply _. Defined.

#[global] Instance ord_Z : Ord Z := Z.leb.
#[global] Instance ord_N : Ord N := N.leb.

(** Tuples and derived structs: lexicographic, the first field first. *)
#[global] Instance ord_prod {A B} `{Ord A, Ord B} : Ord (A * B) := λ p q,
  if ord_leb p.1 q.1 then (if ord_leb q.1 p.1 then ord_leb p.2 q.2 else true) else false.

(** Slices and strings: lexicographic, a proper prefix first. *)
Fixpoint lex_leb {A} `{Ord A} (l k : list A) : bool :=
  match l, k with
  | [], _ => true
  | _ :: _, [] => false
  | x :: l', y :: k' =>
      if ord_leb x y then (if ord_leb y x then lex_leb l' k' else true) else false
  end.
#[global] Instance ord_list {A} `{Ord A} : Ord (list A) := lex_leb.

#[global] Instance ord_laws_Z : OrdLaws Z.
Proof. split; unfold ord_leb, ord_Z; intros *; rewrite ?Z.leb_le; lia. Qed.

#[global] Instance ord_laws_N : OrdLaws N.
Proof. split; unfold ord_leb, ord_N; intros *; rewrite ?N.leb_le; lia. Qed.

#[global] Instance ord_laws_prod {A B} `{OrdLaws A, OrdLaws B} : OrdLaws (A * B).
Proof.
  split; unfold ord_leb, ord_prod.
  - intros [x1 x2] [y1 y2]; simpl.
    destruct (ord_leb x1 y1) eqn:Hxy, (ord_leb y1 x1) eqn:Hyx; auto.
    + apply ord_leb_total.
    + destruct (ord_leb_total x1 y1); congruence.
  - intros [x1 x2] [y1 y2] [z1 z2]; simpl.
    destruct (ord_leb x1 y1) eqn:Hxy; [|done]. destruct (ord_leb y1 z1) eqn:Hyz; [|done].
    rewrite (ord_leb_trans _ _ _ Hxy Hyz). destruct (ord_leb z1 x1) eqn:Hzx; [|done].
    rewrite (ord_leb_trans _ _ _ Hyz Hzx), (ord_leb_trans _ _ _ Hzx Hxy).
    apply ord_leb_trans.
  - intros [x1 x2] [y1 y2]; simpl.
    destruct (ord_leb x1 y1) eqn:Hxy, (ord_leb y1 x1) eqn:Hyx; try done.
    intros. rewrite (ord_leb_antisym x1 y1) by done. f_equal. by apply ord_leb_antisym.
Qed.

#[global] Instance ord_laws_list {A} `{OrdLaws A} : OrdLaws (list A).
Proof.
  split; unfold ord_leb, ord_list.
  - intros l; induction l as [|x l IH]; intros [|y k]; simpl; auto.
    destruct (ord_leb x y) eqn:Hxy, (ord_leb y x) eqn:Hyx; auto.
    destruct (ord_leb_total x y); congruence.
  - intros l; induction l as [|x l IH]; intros [|y k] [|z m]; simpl; try done.
    destruct (ord_leb x y) eqn:Hxy; [|done]. destruct (ord_leb y z) eqn:Hyz; [|done].
    rewrite (ord_leb_trans _ _ _ Hxy Hyz). destruct (ord_leb z x) eqn:Hzx; [|done].
    rewrite (ord_leb_trans _ _ _ Hyz Hzx), (ord_leb_trans _ _ _ Hzx Hxy).
    apply IH.
  - intros l; induction l as [|x l IH]; intros [|y k]; simpl; try done.
    destruct (ord_leb x y) eqn:Hxy, (ord_leb y x) eqn:Hyx; try done.
    intros. rewrite (ord_leb_antisym x y) by done. f_equal. by apply IH.
Qed.

Section ord.
Context {A : Type} `{OrdLaws A}.

#[global] Instance ord_le_total : Total (@ord_le A _).
Proof. intros x y. apply ord_leb_total. Qed.
#[global] Instance ord_le_trans : Transitive (@ord_le A _).
Proof. intros x y z. apply ord_leb_trans. Qed.
#[global] Instance ord_le_antisym : AntiSymm (=) (@ord_le A _).
Proof. intros x y. apply ord_leb_antisym. Qed.
#[global] Instance ord_le_refl : Reflexive (@ord_le A _).
Proof. intros x. destruct (ord_leb_total x x); done. Qed.

(** [sort_unstable] (equal elements cannot be told apart). *)
Definition sort (l : list A) : list A := merge_sort ord_le l.

Lemma sort_Permutation l : sort l ≡ₚ l.
Proof. apply merge_sort_Permutation. Qed.

Lemma sort_StronglySorted l : StronglySorted ord_le (sort l).
Proof. apply (StronglySorted_merge_sort ord_le). Qed.

Lemma StronglySorted_cons_le x l :
  StronglySorted ord_le (x :: l) → ∀ y, y ∈ l → ord_le x y.
Proof.
  intros Hs y Hy. apply StronglySorted_inv in Hs as [_ Hall].
  rewrite Forall_forall in Hall. by apply Hall.
Qed.

End ord.

(** ** Sets *)

Section bset.
Context {K : Type} `{Countable K, OrdLaws K}.

Definition bset_iter (s : gset K) : list K := sort (elements s).
Definition bset_first (s : gset K) : option K := head (bset_iter s).

Lemma elem_of_bset_iter s x : x ∈ bset_iter s ↔ x ∈ s.
Proof. unfold bset_iter. rewrite sort_Permutation. by rewrite elem_of_elements. Qed.

Lemma NoDup_bset_iter s : NoDup (bset_iter s).
Proof. unfold bset_iter. rewrite sort_Permutation. apply NoDup_elements. Qed.

Lemma bset_iter_sorted s : StronglySorted ord_le (bset_iter s).
Proof. apply sort_StronglySorted. Qed.

Lemma bset_iter_length s : length (bset_iter s) = size s.
Proof. unfold bset_iter. by rewrite sort_Permutation. Qed.

Lemma bset_first_Some s x :
  bset_first s = Some x → x ∈ s ∧ ∀ y, y ∈ s → ord_le x y.
Proof.
  unfold bset_first. destruct (bset_iter s) as [|z l] eqn:Hit; [done|].
  intros; simplify_eq/=.
  assert (StronglySorted ord_le (x :: l)) as Hs
    by (rewrite <-Hit; apply sort_StronglySorted).
  split; [apply elem_of_bset_iter; rewrite Hit; set_solver|].
  intros y Hy. apply elem_of_bset_iter in Hy. rewrite Hit in Hy.
  apply elem_of_cons in Hy as [->|Hy]; [reflexivity|]. by eapply StronglySorted_cons_le.
Qed.

Lemma bset_first_None s : bset_first s = None ↔ s = ∅.
Proof.
  unfold bset_first. destruct (bset_iter s) as [|z l] eqn:Hit; simpl.
  - split; [|done]. intros _. apply set_eq. intros x.
    rewrite <-elem_of_bset_iter, Hit. set_solver.
  - split; [done|]. intros ->. assert (z ∈ (∅ : gset K)); [|set_solver].
    apply elem_of_bset_iter. rewrite Hit. set_solver.
Qed.

Lemma bset_iter_remove_first s x l :
  bset_iter s = x :: l → bset_iter (s ∖ {[x]}) = l.
Proof.
  intros Hit. assert (StronglySorted ord_le (x :: l)) as Hs
    by (rewrite <-Hit; apply sort_StronglySorted).
  assert (NoDup (x :: l)) as Hnd by (rewrite <-Hit; apply NoDup_bset_iter).
  apply StronglySorted_inv in Hs as [Hs _]. apply NoDup_cons in Hnd as [Hx Hnd].
  apply (StronglySorted_unique ord_le); [apply sort_StronglySorted|done|].
  apply NoDup_Permutation; [apply NoDup_bset_iter|done|].
  intros y. rewrite elem_of_bset_iter, elem_of_difference, <-elem_of_bset_iter, Hit. set_solver.
Qed.

End bset.

(** ** Maps *)

Section bmap.
Context {K : Type} `{Countable K, OrdLaws K} {V : Type}.

Definition key_le (p q : K * V) : Prop := ord_le p.1 q.1.
#[global] Instance key_le_dec : RelDecision key_le.
Proof. intros p q. unfold key_le. apply _. Defined.
#[global] Instance key_le_total : Total key_le.
Proof. intros p q. unfold key_le. apply ord_leb_total. Qed.
#[global] Instance key_le_trans : Transitive key_le.
Proof. intros p q r. unfold key_le. apply ord_leb_trans. Qed.

Definition btree_iter (m : gmap K V) : list (K * V) := merge_sort key_le (map_to_list m).
Definition btree_keys (m : gmap K V) : list K := (btree_iter m).*1.
Definition btree_values (m : gmap K V) : list V := (btree_iter m).*2.

Lemma btree_iter_Permutation m : btree_iter m ≡ₚ map_to_list m.
Proof. apply merge_sort_Permutation. Qed.

Lemma elem_of_btree_iter m k v : (k, v) ∈ btree_iter m ↔ m !! k = Some v.
Proof. rewrite btree_iter_Permutation. apply elem_of_map_to_list. Qed.

Lemma elem_of_btree_keys m k : k ∈ btree_keys m ↔ is_Some (m !! k).
Proof.
  unfold btree_keys. rewrite list_elem_of_fmap. split.
  - intros ([k' v] & -> & Hin). apply elem_of_btree_iter in Hin. eauto.
  - intros [v Hv]. exists (k, v). split; [done|]. by apply elem_of_btree_iter.
Qed.

Lemma elem_of_btree_values m v : v ∈ btree_values m ↔ ∃ k, m !! k = Some v.
Proof.
  unfold btree_values. rewrite list_elem_of_fmap. split.
  - intros ([k v'] & -> & Hin). apply elem_of_btree_iter in Hin. eauto.
  - intros [k Hk]. exists (k, v). split; [done|]. by apply elem_of_btree_iter.
Qed.

Lemma NoDup_btree_keys m : NoDup (btree_keys m).
Proof. unfold btree_keys. rewrite btree_iter_Permutation. apply NoDup_fst_map_to_list. Qed.

Lemma btree_iter_length m : length (btree_iter m) = size m.
Proof. rewrite btree_iter_Permutation. apply length_map_to_list. Qed.

Lemma btree_iter_sorted m : StronglySorted key_le (btree_iter m).
Proof. apply (StronglySorted_merge_sort key_le). Qed.

End bmap.

(** ** Stable sorting by a key ([sort_by_key], [sort_by]) *)

Section sort_by.
Context {A K : Type} `{OrdLaws K} (k : A → K).

Fixpoint insert_by (x : A) (l : list A) : list A :=
  match l with
  | [] => [x]
  | y :: l' => if ord_leb (k x) (k y) then x :: l else y :: insert_by x l'
  end.

Definition sort_by (l : list A) : list A := foldr insert_by [] l.

Definition by_key (x y : A) : Prop := ord_le (k x) (k y).

Lemma insert_by_Permutation x l : insert_by x l ≡ₚ x :: l.
Proof.
  induction l as [|y l IH]; simpl; [done|]. destruct (ord_leb (k x) (k y)); [done|].
  rewrite IH. apply perm_swap.
Qed.

Lemma sort_by_Permutation l : sort_by l ≡ₚ l.
Proof.
  induction l as [|x l IH]; [done|]. cbn [sort_by foldr]. by rewrite insert_by_Permutation, IH.
Qed.

Lemma insert_by_sorted x l : StronglySorted by_key l → StronglySorted by_key (insert_by x l).
Proof.
  induction l as [|y l IH]; intros Hl; simpl; [repeat constructor|].
  apply StronglySorted_inv in Hl as [Hl Hy]. destruct (ord_leb (k x) (k y)) eqn:Hxy.
  - constructor; [by constructor|]. constructor; [done|].
    eapply Forall_impl; [exact Hy|]. intros z Hz. unfold by_key in *. by etrans.
  - constructor; [by apply IH|]. rewrite insert_by_Permutation. constructor; [|done].
    unfold by_key, ord_le. destruct (ord_leb_total (k x) (k y)); congruence.
Qed.

Lemma sort_by_sorted l : StronglySorted by_key (sort_by l).
Proof. induction l as [|x l IH]; [constructor|]. by apply insert_by_sorted. Qed.

(** A sorted list is left as it is. *)
Lemma sort_by_id l : StronglySorted by_key l → sort_by l = l.
Proof.
  induction l as [|x l IH]; intros Hl; [done|]. apply StronglySorted_inv in Hl as [Hl Hx].
  cbn [sort_by foldr]. change (foldr insert_by [] l) with (sort_by l). rewrite IH by done.
  destruct l as [|y l]; [done|]. inversion_clear Hx as [|? ? Hxy]. simpl.
  unfold by_key, ord_le in Hxy. by rewrite Hxy.
Qed.

(** With distinct keys the result depends only on the set of elements. *)
Lemma sort_by_unique l l' : NoDup (k <$> l) → l ≡ₚ l' → sort_by l = sort_by l'.
Proof.
  intros Hnd Hp.
  assert (∀ a b, StronglySorted by_key a → StronglySorted by_key b → NoDup (k <$> a) → a ≡ₚ b →
    a = b) as Hu.
  { induction a as [|x a IH]; intros [|y b] Ha Hb Hn Hab; [done|..].
    - by apply Permutation_nil_cons in Hab.
    - by apply symmetry, Permutation_nil_cons in Hab.
    - apply StronglySorted_inv in Ha as [Ha Hxa], Hb as [Hb Hyb].
      rewrite Forall_forall in Hxa, Hyb. csimpl in Hn. apply NoDup_cons in Hn as [Hx Hn].
      assert (x = y) as ->.
      { assert (x ∈ y :: b) as [->|Hxb]%elem_of_cons by (rewrite <-Hab; by left); [done|].
        assert (y ∈ x :: a) as [->|Hya]%elem_of_cons by (rewrite Hab; by left); [done|].
        destruct Hx. rewrite (ord_leb_antisym (k x) (k y)); [|by apply Hxa|by apply Hyb].
        apply list_elem_of_fmap. by exists y. }
      f_equal. apply IH; [done..|]. by eapply Permutation_cons_inv. }
  apply Hu; [apply sort_by_sorted..| |by rewrite !sort_by_Permutation].
  by rewrite sort_by_Permutation.
Qed.

End sort_by.
