(* ===== verification/Constants.v ===== *)
(** * Constants: the product limits of src/constants.rs

    Byte and entry limits are plain integers, [Duration] constants are in
    milliseconds ([Duration::as_millis]). *)

From S2P Require Import Prelude Text.
Local Open Scope Z_scope.

Definition PROFILE_REFRESH_INTERVAL : Z := 6 * 60 * 60 * 1000.
Definition PROFILE_REFRESH_CONCURRENCY : Z := 2.
Definition PROFILE_CONNECT_TIMEOUT : Z := 15 * 1000.
Definition PROFILE_REQUEST_TIMEOUT : Z := 30 * 1000.
Definition PROFILE_TOTAL_TIMEOUT : Z := 120 * 1000.
Definition PROFILE_REDIRECT_LIMIT : Z := 5.
Definition PROFILE_METADATA_NAME_MAX_BYTES : Z := 80.
Definition PROFILE_COUNT_MAX : Z := 1000.
Definition SUBSCRIPTION_URL_MAX_BYTES : Z := 8 * 1024.
Definition SUPERVISOR_STATE_MAX_BYTES : Z := 16 * 1024 * 1024.
Definition EFFECTIVE_CONFIGURATION_MAX_BYTES : Z := 64 * 1024 * 1024.
Definition CORE_READINESS_TIMEOUT : Z := 10 * 1000.
Definition CORE_HEALTH_TIMEOUT : Z := 5 * 1000.
Definition CORE_PROCESS_STOP_TIMEOUT : Z := 5 * 1000.
Definition CORE_RESTART_LIMIT : Z := 3.
Definition CORE_RESTART_INITIAL_BACKOFF : Z := 1 * 1000.
Definition CORE_RESTART_MAX_BACKOFF : Z := 30 * 1000.
Definition CORE_SERVICE_LIVENESS_INTERVAL : Z := 5 * 1000.
Definition MIHOMO_VALIDATION_TIMEOUT : Z := 10 * 1000.
Definition MIHOMO_BINARY_MAX_BYTES : Z := 128 * 1024 * 1024.
Definition MIHOMO_VALIDATION_OUTPUT_MAX_BYTES : Z := 256 * 1024.
Definition PROBE_WORKER_COUNT : Z := 16.
Definition PROBE_INTERVAL : Z := 5 * 60 * 1000.
Definition PROBE_TIMEOUT : Z := 5 * 1000.
Definition LATENCY_FRESHNESS : Z := 10 * 60 * 1000.
Definition PROBE_URL : str := lit "https://www.gstatic.com/generate_204".
Definition MAX_ACTIVE_NODES : Z := 10000.
Definition SELECTION_RESTORE_ATTEMPT_LIMIT : Z := 10.
Definition STATUS_SAMPLE_INTERVAL : Z := 1 * 1000.
Definition STREAM_STALE_TIMEOUT : Z := 10 * 1000.
Definition RECONNECT_INITIAL_BACKOFF : Z := 250.
Definition RECONNECT_MAX_BACKOFF : Z := 10 * 1000.
Definition CORE_SERVICE_REQUEST_TIMEOUT : Z := 10 * 1000.
Definition CORE_SERVICE_MUTATION_TIMEOUT : Z := 40 * 1000.
Definition IPC_DEADLINE_LAYER_MARGIN : Z := 5 * 1000.
Definition IPC_REQUEST_TIMEOUT : Z := 15 * 1000.
Definition IPC_RUNTIME_MUTATION_TIMEOUT : Z := 55 * 1000.
Definition IPC_PROFILE_ADD_TIMEOUT : Z := 180 * 1000.
Definition DAEMON_STARTUP_TIMEOUT : Z := 90 * 1000.
Definition DAEMON_SHUTDOWN_TIMEOUT : Z := 10 * 1000.
Definition DAEMON_POLL_INTERVAL : Z := 25.
Definition LOG_CAPACITY : Z := 10000.
Definition LOG_RETENTION_MAX_BYTES : Z := 32 * 1024 * 1024.
Definition CORE_LOG_FORWARD_CAPACITY : Z := 256.
Definition CORE_LOG_FORWARD_MAX_BYTES : Z := 4 * 1024 * 1024.
Definition CORE_LOG_FORWARD_BATCH_MAX_BYTES : Z := 512 * 1024.
Definition LOG_BROKER_RECOVERY_CAPACITY : Z := 256.
Definition LOG_BROKER_RECOVERY_MAX_BYTES : Z := 4 * 1024 * 1024.
Definition LOG_TAIL_MAX_RECORDS : Z := 256.
Definition LOG_SUBSCRIBER_CAPACITY : Z := 256.
Definition LOG_SUBSCRIBER_MAX_BYTES : Z := 4 * 1024 * 1024.
Definition WRAPPER_DIAGNOSTIC_CAPACITY : Z := 256.
Definition STATUS_SUBSCRIBER_CAPACITY : Z := 64.
Definition IPC_STREAM_CAPACITY : Z := 3.
Definition TRAFFIC_SERIES_CAPACITY : Z := 300.
Definition CONNECTION_RECORD_CAPACITY : Z := 256.
Definition CONNECTION_CHAIN_CAPACITY : Z := 16.
Definition CONNECTION_FIELD_MAX_BYTES : Z := 512.
Definition PROFILE_RESPONSE_MAX_BYTES : Z := 16 * 1024 * 1024.
Definition YAML_MAX_DEPTH : Z := 64.
Definition RULE_STRING_MAX_BYTES : Z := 16 * 1024.
Definition LOCAL_RULE_SET_MAX_BYTES : Z := 32 * 1024 * 1024.
Definition LOCAL_RULE_COUNT_MAX : Z := 20000.
Definition CORE_LOG_LINE_MAX_BYTES : Z := 64 * 1024.
Definition LOG_TAIL_MAX_BYTES : Z := 4 * 1024 * 1024.
Definition JSON_OUTPUT_MAX_BYTES : Z := 128 * 1024 * 1024.
Definition IPC_FRAME_MAX_BYTES : Z := JSON_OUTPUT_MAX_BYTES + 4 * 1024 * 1024.
Definition IPC_REQUEST_FRAME_MAX_BYTES : Z := 256 * 1024.
Definition IPC_LIST_PAGE_SIZE : Z := 128.
Definition RUNTIME_CORE_EXECUTABLE_NAME : str := lit "ratash-mihomo".
Definition MINIMUM_TERMINAL_WIDTH : Z := 80.
Definition MINIMUM_TERMINAL_HEIGHT : Z := 24.
Definition TUI_SEARCH_MAX_BYTES : Z := 256.
Definition TUI_SEARCH_MAX_CHARACTERS : Z := 128.
