(* ===== verification/Path.v ===== *)
(** * Path: [std::path] on Unix

    A [Path] or [PathBuf] is its byte string.  [components], [is_absolute],
    [join], [strip_prefix] and the conversions from and to strings are the
    standard library's for Unix, where the only separator is the slash and there
    are no prefixes. *)

From S2P Require Import Prelude Text.
Local Open Scope N_scope.

Abbreviation path := bytes.

(** ** UTF-8 decoding *)

Definition is_cont (b : byte) : bool := (128 <=? b) && (b <=? 191).

(** What the second byte of a three- or four-byte sequence may be. *)
Definition second3 (b0 b1 : byte) : bool :=
  if b0 =? 224 then (160 <=? b1) && (b1 <=? 191)
  else if b0 =? 237 then (128 <=? b1) && (b1 <=? 159)
  else is_cont b1.
Definition second4 (b0 b1 : byte) : bool :=
  if b0 =? 240 then (144 <=? b1) && (b1 <=? 191)
  else if b0 =? 244 then (128 <=? b1) && (b1 <=? 143)
  else is_cont b1.

(** The characters of a byte string; [None] stands for a maximal prefix of an
    ill-formed sequence, which [from_utf8_lossy] replaces by U+FFFD. *)
Fixpoint utf8_decode (l : bytes) : list (option char) :=
  match l with
  | [] => []
  | b0 :: r0 =>
      if b0 <? 128 then Some b0 :: utf8_decode r0
      else if (194 <=? b0) && (b0 <=? 223) then
        match r0 with
        | b1 :: r1 =>
            if is_cont b1 then Some ((b0 - 192) * 64 + (b1 - 128)) :: utf8_decode r1
            else None :: utf8_decode r0
        | [] => [None]
        end
      else if (224 <=? b0) && (b0 <=? 239) then
        match r0 with
        | b1 :: r1 =>
            if second3 b0 b1 then
              match r1 with
              | b2 :: r2 =>
                  if is_cont b2
                  then Some ((b0 - 224) * 4096 + (b1 - 128) * 64 + (b2 - 128)) :: utf8_decode r2
                  else None :: utf8_decode r1
              | [] => [None]
              end
            else None :: utf8_decode r0
        | [] => [None]
        end
      else if (240 <=? b0) && (b0 <=? 244) then
        match r0 with
        | b1 :: r1 =>
            if second4 b0 b1 then
              match r1 with
              | b2 :: r2 =>
                  if is_cont b2 then
                    match r2 with
                    | b3 :: r3 =>
                        if is_cont b3
                        then Some ((b0 - 240) * 262144 + (b1 - 128) * 4096
                                   + (b2 - 128) * 64 + (b3 - 128)) :: utf8_decode r3
                        else None :: utf8_decode r2
                    | [] => [None]
                    end
                  else None :: utf8_decode r1
              | [] => [None]
              end
            else None :: utf8_decode r0
        | [] => [None]
        end
      else None :: utf8_decode r0
  end.

(** [Path::to_str] and [Path::to_string_lossy]. *)
Definition from_utf8 (l : bytes) : option str := mapM id (utf8_decode l).
Definition from_utf8_lossy (l : bytes) : str := default 65533 <$> utf8_decode l.

(** ** Components *)

Definition slash : byte := 47.
Definition dot : byte := 46.

Inductive Component :=
| RootDir
| CurDir
| ParentDir
| Normal (name : bytes).

#[global] Instance Component_eq_dec : EqDecision Component.
Proof. solve_decision. Defined.

Definition is_absolute (p : path) : bool :=
  match p with
  | b :: _ => b =? slash
  | [] => false
  end.

(** The segments between slashes, a leading slash (the root) set apart. *)
Definition segments (p : path) : list bytes :=
  match p with
  | b :: p' => if b =? slash then split slash p' else split slash p
  | [] => []
  end.

(** Empty segments and dots after the first disappear. *)
Definition body_component (s : bytes) : option Component :=
  if bool_decide (s = []) || bool_decide (s = [dot]) then None
  else if bool_decide (s = [dot; dot]) then Some ParentDir
  else Some (Normal s).

Definition leading_component (s : bytes) : option Component :=
  if bool_decide (s = [dot]) then Some CurDir else body_component s.

Definition components (p : path) : list Component :=
  if is_absolute p then RootDir :: omap body_component (segments p)
  else match segments p with
       | [] => []
       | s :: ss => option_list (leading_component s) ++ omap body_component ss
       end.

Definition is_normal (c : Component) : bool :=
  match c with
  | Normal _ => true
  | _ => false
  end.

Definition is_parent_dir (c : Component) : bool :=
  match c with
  | ParentDir => true
  | _ => false
  end.

(** [Path::join]. *)
Definition path_join (p q : path) : path :=
  if is_absolute q then q
  else p ++ (match last p with
             | Some b => if b =? slash then [] else [slash]
             | None => []
             end) ++ q.

(** [strip_prefix]: what is left of [components] after those of the base, as
    the slice of the path they span ([Components::as_path]): once the root or a
    first segment is consumed, segments that are no component are trimmed on
    both sides. *)
Fixpoint trim_segments (ss : list bytes) : list bytes :=
  match ss with
  | [] => []
  | s :: ss' => if body_component s is Some _ then ss else trim_segments ss'
  end.

Fixpoint drop_segments (cs : list Component) (ss : list bytes) : option (list bytes) :=
  match cs, ss with
  | [], _ => Some ss
  | _ :: _, [] => None
  | c :: cs', s :: ss' =>
      match body_component s with
      | None => drop_segments cs ss'
      | Some d => if decide (c = d) then drop_segments cs' ss' else None
      end
  end.

Definition as_path (ss : list bytes) : path :=
  join slash (reverse (trim_segments (reverse (trim_segments ss)))).

(** [Path::strip_prefix] of an absolute base. *)
Definition path_strip_prefix (p base : path) : option path :=
  match components base with
  | RootDir :: cs =>
      if is_absolute p then as_path <$> drop_segments cs (segments p) else None
  | _ => None
  end.

(** [to_string_lossy().replace('\\', "/")] *)
Definition replace_backslash (s : str) : str := (λ c, if c =? 92 then slash else c) <$> s.

(** ** Decoding inverts encoding *)

Lemma div64 a b : b < 64 → (a * 64 + b) / 64 = a.
Proof. intros. rewrite N.div_add_l by done. rewrite N.div_small by done. lia. Qed.
Lemma mod64 a b : b < 64 → (a * 64 + b) mod 64 = b.
Proof. intros. rewrite N.add_comm, N.Div0.mod_add. by apply N.mod_small. Qed.

(** The encoder, its quotients written with 64 only. *)
Lemma utf8_char_64 c :
  utf8_char c =
  if c <? 128 then [c]
  else if c <? 2048 then [192 + c / 64; 128 + c mod 64]
  else if c <? 65536 then [224 + c / 64 / 64; 128 + (c / 64) mod 64; 128 + c mod 64]
  else [240 + c / 64 / 64 / 64; 128 + (c / 64 / 64) mod 64; 128 + (c / 64) mod 64; 128 + c mod 64].
Proof. unfold utf8_char. by rewrite !N.Div0.div_div. Qed.

Ltac utf8_bounds :=
  unfold second3, second4, is_cont in *; repeat case_match;
  repeat match goal with
  | H : _ && _ = true |- _ => apply andb_true_iff in H as [? ?]
  | H : (_ <=? _) = true |- _ => apply N.leb_le in H
  | H : (_ =? _) = true |- _ => apply N.eqb_eq in H
  | H : (_ =? _) = false |- _ => apply N.eqb_neq in H
  end.

Lemma utf8_char2 b0 b1 :
  (194 <=? b0) && (b0 <=? 223) = true → is_cont b1 = true →
  utf8_char ((b0 - 192) * 64 + (b1 - 128)) = [b0; b1].
Proof.
  intros H0 H1. utf8_bounds. rewrite utf8_char_64, div64, mod64 by lia.
  repeat (case_match; rewrite ?N.ltb_lt, ?N.ltb_ge in *; try lia).
  by replace (192 + (b0 - 192)) with b0 by lia; replace (128 + (b1 - 128)) with b1 by lia.
Qed.

Lemma utf8_char3 b0 b1 b2 :
  (224 <=? b0) && (b0 <=? 239) = true → second3 b0 b1 = true → is_cont b2 = true →
  utf8_char ((b0 - 224) * 4096 + (b1 - 128) * 64 + (b2 - 128)) = [b0; b1; b2].
Proof.
  intros H0 H1 H2.
  replace ((b0 - 224) * 4096 + (b1 - 128) * 64 + (b2 - 128))
    with (((b0 - 224) * 64 + (b1 - 128)) * 64 + (b2 - 128)) by lia.
  assert (b1 - 128 < 64 ∧ b2 - 128 < 64 ∧ 128 ≤ b1 ∧ 128 ≤ b2 ∧ 224 ≤ b0 ≤ 239 ∧
          (b0 = 224 → 160 ≤ b1)) as (?&?&?&?&?&?) by (utf8_bounds; repeat split; intros; lia).
  rewrite utf8_char_64, !div64, !mod64 by lia.
  repeat (case_match; rewrite ?N.ltb_lt, ?N.ltb_ge in *; try lia).
  by replace (224 + (b0 - 224)) with b0 by lia; replace (128 + (b1 - 128)) with b1 by lia;
     replace (128 + (b2 - 128)) with b2 by lia.
Qed.

Lemma utf8_char4 b0 b1 b2 b3 :
  (240 <=? b0) && (b0 <=? 244) = true → second4 b0 b1 = true → is_cont b2 = true →
  is_cont b3 = true →
  utf8_char ((b0 - 240) * 262144 + (b1 - 128) * 4096 + (b2 - 128) * 64 + (b3 - 128))
  = [b0; b1; b2; b3].
Proof.
  intros H0 H1 H2 H3.
  replace ((b0 - 240) * 262144 + (b1 - 128) * 4096 + (b2 - 128) * 64 + (b3 - 128))
    with ((((b0 - 240) * 64 + (b1 - 128)) * 64 + (b2 - 128)) * 64 + (b3 - 128)) by lia.
  assert (b1 - 128 < 64 ∧ b2 - 128 < 64 ∧ b3 - 128 < 64 ∧ 128 ≤ b1 ∧ 128 ≤ b2 ∧ 128 ≤ b3
          ∧ 240 ≤ b0 ≤ 244 ∧ (b0 = 240 → 144 ≤ b1)) as (?&?&?&?&?&?&?&?) by (utf8_bounds; repeat split; intros; lia).
  rewrite utf8_char_64, !div64, !mod64 by lia.
  repeat (case_match; rewrite ?N.ltb_lt, ?N.ltb_ge in *; try lia).
  by replace (240 + (b0 - 240)) with b0 by lia; replace (128 + (b1 - 128)) with b1 by lia;
     replace (128 + (b2 - 128)) with b2 by lia; replace (128 + (b3 - 128)) with b3 by lia.
Qed.

Lemma utf8_decode_Some l cs : utf8_decode l = Some <$> cs → utf8 cs = l.
Proof.
  remember (length l) as n eqn:Hn. revert l cs Hn.
  induction (lt_wf n) as [n _ IH]; intros l cs -> H.
  destruct l as [|b0 r0]; [by destruct cs|].
  cbn [utf8_decode] in H.
  destruct (b0 <? 128) eqn:Hb.
  { destruct cs as [|c cs]; [done|]. injection H as <- H. unfold utf8; csimpl.
    unfold utf8_char. rewrite Hb. simpl. f_equal. by apply (IH (length r0)); simpl; [lia|..]. }
  repeat case_match; simplify_eq; destruct cs as [|c cs]; try discriminate;
    csimpl in H; injection H as <- H; unfold utf8; csimpl.
  - rewrite utf8_char2 by done. simpl. do 2 f_equal. by eapply IH; [|done|]; simpl; [lia|..].
  - rewrite utf8_char3 by done. simpl. do 3 f_equal. by eapply IH; [|done|]; simpl; [lia|..].
  - rewrite utf8_char4 by done. simpl. do 4 f_equal. by eapply IH; [|done|]; simpl; [lia|..].
Qed.

Lemma from_utf8_Some l s : from_utf8 l = Some s → utf8 s = l ∧ from_utf8_lossy l = s.
Proof.
  unfold from_utf8, from_utf8_lossy. intros H%mapM_Some.
  assert (utf8_decode l = Some <$> s) as Hd.
  { induction H as [|o c l' s' Ho _ IH]; csimpl; [done|]. by rewrite IH, <-Ho. }
  split; [by apply utf8_decode_Some|]. rewrite Hd, <-list_fmap_compose.
  by rewrite list_fmap_id.
Qed.

Lemma from_utf8_ascii s : Forall (λ c, c < 128) s → from_utf8 s = Some s.
Proof.
  unfold from_utf8. intros Hs. apply mapM_Some. induction Hs as [|c s Hc _ IH]; [done|].
  cbn [utf8_decode]. apply N.ltb_lt in Hc as ->. by constructor.
Qed.

(** Decoding what [utf8] encodes. *)

Lemma split64 c : ∃ q r, c = q * 64 + r ∧ r < 64.
Proof. exists (c / 64), (c mod 64). split; [rewrite (N.div_mod' c 64) at 1; lia|by apply N.mod_lt]. Qed.

Lemma utf8_decode2 b0 b1 r0 t :
  r0 = b1 :: t → (b0 <? 128) = false → (194 <=? b0) && (b0 <=? 223) = true → is_cont b1 = true →
  utf8_decode (b0 :: r0) = Some ((b0 - 192) * 64 + (b1 - 128)) :: utf8_decode t.
Proof. intros Hr H0 H1 H2. cbn [utf8_decode]. by rewrite H0, H1, Hr, H2. Qed.

Lemma utf8_decode3 b0 b1 b2 r0 t :
  r0 = b1 :: b2 :: t → (b0 <? 128) = false → (194 <=? b0) && (b0 <=? 223) = false →
  (224 <=? b0) && (b0 <=? 239) = true → second3 b0 b1 = true → is_cont b2 = true →
  utf8_decode (b0 :: r0) =
    Some ((b0 - 224) * 4096 + (b1 - 128) * 64 + (b2 - 128)) :: utf8_decode t.
Proof. intros Hr H0 H1 H2 H3 H4. cbn [utf8_decode]. by rewrite H0, H1, H2, Hr, H3, H4. Qed.

Lemma utf8_decode4 b0 b1 b2 b3 r0 t :
  r0 = b1 :: b2 :: b3 :: t → (b0 <? 128) = false → (194 <=? b0) && (b0 <=? 223) = false →
  (224 <=? b0) && (b0 <=? 239) = false → (240 <=? b0) && (b0 <=? 244) = true →
  second4 b0 b1 = true → is_cont b2 = true → is_cont b3 = true →
  utf8_decode (b0 :: r0) =
    Some ((b0 - 240) * 262144 + (b1 - 128) * 4096 + (b2 - 128) * 64 + (b3 - 128)) :: utf8_decode t.
Proof. intros Hr H0 H1 H2 H3 H4 H5 H6. cbn [utf8_decode]. by rewrite H0, H1, H2, H3, Hr, H4, H5, H6. Qed.

(** Comparisons of numbers as propositions, for [lia]. *)
Ltac cmp :=
  unfold second3, second4, is_cont; repeat case_match;
  rewrite ?andb_true_iff, ?andb_false_iff, ?N.leb_le, ?N.leb_gt, ?N.ltb_ge, ?N.eqb_eq, ?N.eqb_neq in *; lia.

Lemma utf8_decode_char c t : scalar c → utf8_decode (utf8_char c ++ t) = Some c :: utf8_decode t.
Proof.
  unfold scalar. intros Hs. rewrite utf8_char_64.
  destruct (N.ltb_spec c 128) as [Hc|H0];
    [cbn [app utf8_decode]; by rewrite (proj2 (N.ltb_lt _ _) Hc)|].
  destruct (split64 c) as (q & r & -> & Hr). rewrite !div64, mod64 by done.
  destruct (N.ltb_spec (q * 64 + r) 2048).
  { cbn [app]. erewrite utf8_decode2; [|done|cmp..]. do 2 f_equal. lia. }
  destruct (split64 q) as (q1 & r1 & -> & Hr1). rewrite !div64, mod64 by done.
  destruct (N.ltb_spec ((q1 * 64 + r1) * 64 + r) 65536).
  { cbn [app]. erewrite utf8_decode3; [|done|cmp..]. do 2 f_equal. lia. }
  destruct (split64 q1) as (q2 & r2 & -> & Hr2). rewrite !div64, mod64 by done.
  cbn [app]. erewrite utf8_decode4; [|done|cmp..]. do 2 f_equal. lia.
Qed.

Lemma from_utf8_utf8 s : Forall scalar s → from_utf8 (utf8 s) = Some s.
Proof.
  unfold from_utf8, utf8. intros Hs. apply mapM_Some. induction Hs as [|c s Hc _ IH]; [constructor|].
  csimpl. rewrite utf8_decode_char by done. by constructor.
Qed.

(** ** Canonical paths

    What [std::fs::canonicalize] returns: absolute, every component the name of
    a directory entry. *)

Definition entry_name (name : bytes) : Prop :=
  (slash ∉ name) ∧ name ≠ [] ∧ name ≠ [dot] ∧ name ≠ [dot; dot].

Definition canonical_path (p : path) : Prop :=
  ∃ names, p = slash :: join slash names ∧ Forall entry_name names.

Lemma body_component_entry name : entry_name name → body_component name = Some (Normal name).
Proof. intros (?&?&?&?). unfold body_component. by rewrite !bool_decide_eq_false_2. Qed.

Lemma body_components_entries names :
  Forall entry_name names → omap body_component names = Normal <$> names.
Proof. induction 1 as [|n ns Hn _ IH]; csimpl; [done|]. by rewrite body_component_entry, IH. Qed.

Lemma entry_names_no_slash names : Forall entry_name names → Forall (λ n, slash ∉ n) names.
Proof. intros Hall. eapply Forall_impl; [exact Hall|]. by intros ? [? _]. Qed.

Lemma segments_canonical names :
  Forall entry_name names → names ≠ [] → segments (slash :: join slash names) = names.
Proof. intros Hall Hne. simpl. apply split_join; [done|]. by apply entry_names_no_slash. Qed.

Lemma components_canonical names :
  Forall entry_name names → components (slash :: join slash names) = RootDir :: (Normal <$> names).
Proof.
  intros Hall. unfold components. cbn [is_absolute]. rewrite N.eqb_refl. f_equal.
  destruct (decide (names = [])) as [->|Hne]; [done|].
  rewrite segments_canonical by done. by apply body_components_entries.
Qed.

(** A nonempty relative path made of entry names. *)
Lemma relative_entries names :
  Forall entry_name names → names ≠ [] →
  join slash names ≠ [] ∧ is_absolute (join slash names) = false
  ∧ components (join slash names) = Normal <$> names.
Proof.
  intros Hall Hne. destruct names as [|n ns]; [done|]. clear Hne.
  inversion_clear Hall as [|? ? Hn Hns]. pose proof Hn as (Hs & Hn0 & Hn1 & Hn2).
  destruct n as [|b n]; [done|].
  assert (b ≠ slash) as Hb by (intros ->; apply Hs, elem_of_cons; by left).
  assert (segments (join slash ((b :: n) :: ns)) = (b :: n) :: ns) as Hseg.
  { unfold segments. cbn [join app]. apply N.eqb_neq in Hb. rewrite Hb.
    apply (split_join slash ((b :: n) :: ns)); [done|].
    constructor; [done|]. by apply entry_names_no_slash. }
  assert (is_absolute (join slash ((b :: n) :: ns)) = false) as Habs
    by (simpl; by apply N.eqb_neq).
  split; [done|]. split; [done|]. unfold components. rewrite Habs, Hseg.
  unfold leading_component. rewrite bool_decide_eq_false_2 by done.
  rewrite body_component_entry, body_components_entries by done. done.
Qed.

Lemma drop_segments_entries cs names rest :
  Forall entry_name names → drop_segments cs names = Some rest →
  ∃ taken, names = taken ++ rest ∧ cs = Normal <$> taken.
Proof.
  revert cs. induction names as [|n ns IH]; intros cs Hall.
  - destruct cs; simpl; intros; simplify_eq. by exists [].
  - inversion_clear Hall. destruct cs as [|c cs]; simpl.
    + intros; simplify_eq. by exists [].
    + rewrite body_component_entry by done. case_decide as Hc; [|done].
      intros (taken & -> & ->)%IH; [|done]. exists (n :: taken). by rewrite Hc.
Qed.

Lemma trim_segments_entries names : Forall entry_name names → trim_segments names = names.
Proof. destruct 1 as [|n ns Hn _]; simpl; [done|]. by rewrite body_component_entry. Qed.

Lemma as_path_entries names : Forall entry_name names → as_path names = join slash names.
Proof.
  intros Hall. unfold as_path. rewrite (trim_segments_entries names) by done.
  rewrite trim_segments_entries by (by apply Forall_reverse). by rewrite reverse_involutive.
Qed.

(** Stripping a canonical directory off a canonical path leaves the names below it. *)
Lemma strip_prefix_canonical p base rel :
  canonical_path p → canonical_path base → path_strip_prefix p base = Some rel →
  ∃ names, Forall entry_name names ∧ rel = join slash names
           ∧ components p = components base ++ (Normal <$> names).
Proof.
  intros (ps & -> & Hps) (bs & -> & Hbs). unfold path_strip_prefix.
  rewrite !components_canonical by done. cbn [is_absolute]. rewrite N.eqb_refl.
  destruct (decide (ps = [])) as [->|Hne].
  - simpl. destruct bs as [|b bs]; simpl; intros; simplify_eq. by exists [].
  - rewrite segments_canonical by done. intros (rest & Hd & ->)%fmap_Some.
    apply drop_segments_entries in Hd as (taken & -> & Heq); [|done].
    apply Forall_app in Hps as [_ Hrest]. exists rest. split; [done|].
    split; [by apply as_path_entries|]. rewrite Heq, fmap_app. done.
Qed.
