(* ===== verification/Yaml.v ===== *)
(** * Yaml: the document values of [serde_yaml_ng]

    The [Value] enum of the [serde_yaml_ng] crate as its documentation gives it;
    a [Mapping] keeps its entries in the order of the document and has no two
    entries with the same key.  The crate's parser and printer are parameters
    of the definitions that call them. *)

From S2P Require Import Prelude Text.
Local Open Scope Z_scope.

(** A number is an integer or a float, the latter kept as its bits. *)
Inductive Number :=
| NumberInt (value : Z)
| NumberFloat (bits : Z).

Inductive Value :=
| VNull
| VBool (value : bool)
| VNumber (value : Number)
| VString (value : str)
| VSequence (values : list Value)
| VMapping (entries : list (Value * Value))
| VTagged (tag : str) (value : Value).

#[global] Instance VString_inj : Inj (=) (=) VString.
Proof. by intros ?? [=]. Qed.

Abbreviation Mapping := (list (Value * Value)).

(** [Mapping::get] of a string key. *)
Fixpoint mapping_get (m : Mapping) (key : str) : option Value :=
  match m with
  | [] => None
  | (VString k, v) :: m' => if bool_decide (k = key) then Some v else mapping_get m' key
  | _ :: m' => mapping_get m' key
  end.

(** ** The crate

    What the sources call of [serde_yaml_ng] beyond the shape of its values:
    printing and parsing, the equality of floats and of tags, and what the
    accessors [as_str], [as_bool], [as_sequence], [as_mapping] and
    [as_mapping_mut] return for a tagged value. *)
Class YamlCrate := {
  yaml_to_string : Value → option str;
  yaml_from_str : str → option Value;
  yaml_from_slice : bytes → option Value;
  yaml_debug : Value → str;
  float_eqb : Z → Z → bool;
  tag_eqb : str → str → bool;
  tagged_as_str : str → Value → option str;
  tagged_as_bool : str → Value → option bool;
  tagged_as_sequence : str → Value → option (list Value);
  tagged_as_mapping : str → Value → option Mapping;
  tagged_as_mapping_mut : str → Value → option (Mapping * (Mapping → Value));
}.

(** Documents that print parse back. *)
Class YamlLaws `{YamlCrate} := {
  yaml_print_parse v s : yaml_to_string v = Some s → yaml_from_str s = Some v;
  yaml_print_parse_slice v s : yaml_to_string v = Some s → yaml_from_slice (utf8 s) = Some v;
}.

(** An induction principle that reaches into sequences and mappings. *)
Section value_ind.
Context (P : Value → Prop).
Context (Hnull : P VNull) (Hbool : ∀ b, P (VBool b)) (Hnum : ∀ n, P (VNumber n))
  (Hstr : ∀ s, P (VString s)) (Hseq : ∀ vs, Forall P vs → P (VSequence vs))
  (Hmap : ∀ m, Forall (λ p, P p.1 ∧ P p.2) m → P (VMapping m))
  (Htag : ∀ t v, P v → P (VTagged t v)).

Fixpoint Value_nested_ind (v : Value) : P v :=
  match v with
  | VNull => Hnull
  | VBool b => Hbool b
  | VNumber n => Hnum n
  | VString s => Hstr s
  | VSequence vs =>
      Hseq vs ((fix go l : Forall P l :=
        match l with
        | [] => Forall_nil_2 _
        | x :: l' => Forall_cons_2 _ _ _ (Value_nested_ind x) (go l')
        end) vs)
  | VMapping m =>
      Hmap m ((fix go l : Forall (λ p, P p.1 ∧ P p.2) l :=
        match l with
        | [] => Forall_nil_2 _
        | (k, x) :: l' =>
            Forall_cons_2 (λ p, P p.1 ∧ P p.2) (k, x) l'
              (conj (Value_nested_ind k) (Value_nested_ind x)) (go l')
        end) m)
  | VTagged t x => Htag t x (Value_nested_ind x)
  end.
End value_ind.

Section accessors.
Context `{YamlCrate}.

Definition as_str (v : Value) : option str :=
  match v with
  | VString s => Some s
  | VTagged t x => tagged_as_str t x
  | _ => None
  end.

(** [is_string] holds exactly when [as_str] returns the string. *)
Definition is_string (v : Value) : bool := bool_decide (is_Some (as_str v)).

Definition as_bool (v : Value) : option bool :=
  match v with
  | VBool b => Some b
  | VTagged t x => tagged_as_bool t x
  | _ => None
  end.

Definition as_sequence (v : Value) : option (list Value) :=
  match v with
  | VSequence vs => Some vs
  | VTagged t x => tagged_as_sequence t x
  | _ => None
  end.

Definition as_mapping (v : Value) : option Mapping :=
  match v with
  | VMapping m => Some m
  | VTagged t x => tagged_as_mapping t x
  | _ => None
  end.

(** The mapping behind the reference and the value after it is replaced. *)
Definition as_mapping_mut (v : Value) : option (Mapping * (Mapping → Value)) :=
  match v with
  | VMapping m => Some (m, VMapping)
  | VTagged t x => tagged_as_mapping_mut t x
  | _ => None
  end.

Definition number_eqb (a b : Number) : bool :=
  match a, b with
  | NumberInt x, NumberInt y => x =? y
  | NumberFloat x, NumberFloat y => float_eqb x y
  | _, _ => false
  end.

(** [PartialEq] of values; mappings are equal when they have the same entries
    in any order. *)
Fixpoint value_eqb (v w : Value) {struct v} : bool :=
  match v, w with
  | VNull, VNull => true
  | VBool a, VBool b => Bool.eqb a b
  | VNumber a, VNumber b => number_eqb a b
  | VString a, VString b => bool_decide (a = b)
  | VSequence vs, VSequence ws =>
      (fix go l k :=
         match l, k with
         | [], [] => true
         | x :: l', y :: k' => value_eqb x y && go l' k'
         | _, _ => false
         end) vs ws
  | VMapping m, VMapping n =>
      Nat.eqb (length m) (length n) &&
      (fix go l :=
         match l with
         | [] => true
         | (k, x) :: l' =>
             match List.find (λ p, value_eqb k p.1) n with
             | Some p => value_eqb x p.2
             | None => false
             end && go l'
         end) m
  | VTagged t x, VTagged u y => tag_eqb t u && value_eqb x y
  | _, _ => false
  end.

(** [Mapping::insert]: an existing key keeps its place. *)
Fixpoint mapping_insert (m : Mapping) (key v : Value) : Mapping :=
  match m with
  | [] => [(key, v)]
  | p :: m' => if value_eqb key p.1 then (p.1, v) :: m' else p :: mapping_insert m' key v
  end.

(** No two entries have equal keys. *)
Definition keys_differ (k l : Value) : Prop := value_eqb k l = false ∧ value_eqb l k = false.

Fixpoint distinct_keys (ks : list Value) : Prop :=
  match ks with
  | [] => True
  | k :: ks' => Forall (keys_differ k) ks' ∧ distinct_keys ks'
  end.

(** Every mapping inside a value is one the crate can build. *)
Fixpoint value_wf (v : Value) : Prop :=
  match v with
  | VSequence vs => (fix go l := match l with [] => True | x :: l' => value_wf x ∧ go l' end) vs
  | VMapping m =>
      distinct_keys m.*1 ∧
      (fix go l := match l with [] => True | p :: l' => value_wf p.2 ∧ go l' end) m
  | _ => True
  end.

End accessors.

(** The operations of a [Mapping] on a string key. *)

Definition is_key (key : str) (v : Value) : bool :=
  match v with
  | VString k => bool_decide (k = key)
  | _ => false
  end.

(** [Mapping::insert] of a string key. *)
Fixpoint mapping_set (m : Mapping) (key : str) (v : Value) : Mapping :=
  match m with
  | [] => [(VString key, v)]
  | p :: m' => if is_key key p.1 then (p.1, v) :: m' else p :: mapping_set m' key v
  end.

(** [get_mut] and an assignment through the reference. *)
Fixpoint mapping_update (f : Value → Value) (m : Mapping) (key : str) : Mapping :=
  match m with
  | [] => []
  | p :: m' => if is_key key p.1 then (p.1, f p.2) :: m' else p :: mapping_update f m' key
  end.

(** [Mapping::remove] is a [swap_remove]: the last entry takes the place of the
    removed one. *)
Definition swap_remove {A} (i : nat) (l : list A) : list A :=
  match last l with
  | Some x => take (length l - 1) (<[i := x]> l)
  | None => l
  end.

Fixpoint mapping_position (m : Mapping) (key : str) : option nat :=
  match m with
  | [] => None
  | p :: m' => if is_key key p.1 then Some 0%nat else S <$> mapping_position m' key
  end.

Definition mapping_remove (m : Mapping) (key : str) : Mapping :=
  match mapping_position m key with
  | Some i => swap_remove i m
  | None => m
  end.

Definition contains_key (m : Mapping) (key : str) : bool :=
  bool_decide (is_Some (mapping_get m key)).

(** [entry(key).or_insert(default)] *)
Definition mapping_or_insert (m : Mapping) (key : str) (v : Value) : Mapping :=
  if contains_key m key then m else mapping_set m key v.

(** ** Lemmas *)

Lemma is_key_true key v : is_key key v = true ↔ v = VString key.
Proof.
  destruct v; simpl; try (split; discriminate).
  rewrite bool_decide_eq_true. split; [by intros ->|by intros [=]].
Qed.

Lemma is_key_false key v : is_key key v = false ↔ v ≠ VString key.
Proof. rewrite <-not_true_iff_false, is_key_true. done. Qed.

Lemma mapping_get_cons p m key :
  mapping_get (p :: m) key = if is_key key p.1 then Some p.2 else mapping_get m key.
Proof. by destruct p as [[] w]. Qed.

Lemma mapping_get_in m key v : mapping_get m key = Some v → (VString key, v) ∈ m.
Proof.
  induction m as [|p m IH]; [done|]. rewrite mapping_get_cons.
  destruct (is_key key p.1) eqn:Hk.
  - intros [= <-]. apply is_key_true in Hk. destruct p; simplify_eq/=. by left.
  - intros H. right. by apply IH.
Qed.

Lemma mapping_get_None m key : mapping_get m key = None ↔ ∀ v, (VString key, v) ∉ m.
Proof.
  induction m as [|p m IH]; [by split; [intros _ v; apply not_elem_of_nil|]|].
  rewrite mapping_get_cons. destruct (is_key key p.1) eqn:Hk.
  - split; [done|]. intros H. apply is_key_true in Hk. destruct p as [k v]; simplify_eq/=.
    exfalso. apply (H v). by left.
  - apply is_key_false in Hk. rewrite IH. split; intros H v Hin; apply (H v).
    + apply elem_of_cons in Hin as [Heq|]; [|done]. by rewrite <-Heq in Hk.
    + by right.
Qed.

(** *** [insert] and [get_mut] *)

Lemma mapping_get_set m key v key' :
  mapping_get (mapping_set m key v) key' =
  if decide (key = key') then Some v else mapping_get m key'.
Proof.
  induction m as [|p m IH]; cbn [mapping_set].
  - rewrite mapping_get_cons. simpl. by case_bool_decide; case_decide.
  - destruct (is_key key p.1) eqn:Hk; rewrite !mapping_get_cons; simpl.
    + apply is_key_true in Hk as ->. simpl.
      repeat case_bool_decide; repeat case_decide; first [done | congruence].
    + rewrite IH. destruct (is_key key' p.1) eqn:Hk'; [|done].
      case_decide; [|done]. subst. congruence.
Qed.

Lemma mapping_get_update f m key key' :
  mapping_get (mapping_update f m key) key' =
  if decide (key = key') then f <$> mapping_get m key' else mapping_get m key'.
Proof.
  induction m as [|p m IH]; cbn [mapping_update].
  - by case_decide.
  - destruct (is_key key p.1) eqn:Hk; rewrite !mapping_get_cons; simpl.
    + apply is_key_true in Hk as ->. simpl.
      repeat case_bool_decide; repeat case_decide; first [done | congruence].
    + rewrite IH. destruct (is_key key' p.1) eqn:Hk'; [|done].
      case_decide; [|done]. subst. congruence.
Qed.

Lemma mapping_update_id f m key :
  (∀ v, mapping_get m key = Some v → f v = v) → mapping_update f m key = m.
Proof.
  induction m as [|p m IH]; [done|]. rewrite mapping_get_cons. cbn [mapping_update].
  destruct (is_key key p.1); intros Hf.
  - rewrite Hf by done. by destruct p.
  - by rewrite IH.
Qed.

Lemma mapping_set_elem m key v p : p ∈ mapping_set m key v → p = (VString key, v) ∨ p ∈ m.
Proof.
  induction m as [|q m IH]; cbn [mapping_set].
  - intros ->%list_elem_of_singleton. by left.
  - destruct (is_key key q.1) eqn:Hk; intros [->|Hin]%elem_of_cons.
    + apply is_key_true in Hk as ->. by left.
    + right. by right.
    + right. by left.
    + destruct (IH Hin); [by left|]. right. by right.
Qed.

Lemma mapping_update_elem f m key p :
  p ∈ mapping_update f m key → p ∈ m ∨ ∃ v, (VString key, v) ∈ m ∧ p = (VString key, f v).
Proof.
  induction m as [|q m IH]; cbn [mapping_update]; [by intros ?%not_elem_of_nil|].
  destruct (is_key key q.1) eqn:Hk; intros [->|Hin]%elem_of_cons.
  - apply is_key_true in Hk. right. exists q.2. rewrite <-Hk. split; [|done].
    destruct q. by left.
  - left. by right.
  - left. by left.
  - destruct (IH Hin) as [|(v & ? & ?)]; [left; by right|]. right. exists v. split; [by right|done].
Qed.

Lemma mapping_update_keys f m key : (mapping_update f m key).*1 = m.*1.
Proof.
  induction m as [|q m IH]; cbn [mapping_update]; [done|].
  destruct (is_key key q.1); csimpl; [done|by rewrite IH].
Qed.

Lemma mapping_set_keys m key v :
  (mapping_set m key v).*1 = m.*1 ++ (if contains_key m key then [] else [VString key]).
Proof.
  unfold contains_key. induction m as [|q m IH]; cbn [mapping_set]; [done|].
  rewrite mapping_get_cons. destruct (is_key key q.1); csimpl.
  - by rewrite app_nil_r.
  - by rewrite IH.
Qed.

(** *** [remove] *)

Lemma swap_remove_Permutation {A} (l : list A) i x :
  l !! i = Some x → l ≡ₚ x :: swap_remove i l.
Proof.
  intros Hi. unfold swap_remove. destruct (last l) as [y|] eqn:Hl.
  - apply last_Some in Hl as [l' ->]. rewrite length_app; simpl.
    replace (length l' + 1 - 1)%nat with (length l') by lia.
    destruct (decide (i < length l')%nat) as [Hlt|Hge].
    + rewrite insert_app_l, take_app_length' by (done || by rewrite length_insert).
      rewrite lookup_app_l in Hi by done.
      apply list_elem_of_split_length in Hi as (l1 & l2 & -> & ->).
      rewrite insert_app_r_alt, Nat.sub_diag by done. simpl.
      rewrite <-!Permutation_middle, Permutation_app_comm. simpl. by rewrite perm_swap.
    + assert (i = length l') as ->.
      { apply lookup_lt_Some in Hi. rewrite length_app in Hi. simpl in Hi. lia. }
      rewrite list_lookup_middle in Hi by done. simplify_eq.
      rewrite insert_app_r_alt by done. rewrite take_app_length.
      by rewrite Permutation_app_comm.
  - apply last_None in Hl as ->. done.
Qed.

Lemma mapping_position_Some m key i :
  mapping_position m key = Some i → ∃ v, m !! i = Some (VString key, v).
Proof.
  revert i. induction m as [|q m IH]; intros i; simpl; [done|].
  destruct (is_key key q.1) eqn:Hk.
  - intros [= <-]. apply is_key_true in Hk. exists q.2. simpl. by rewrite <-Hk; destruct q.
  - intros (j & Hj & ->)%fmap_Some. by apply IH.
Qed.

Lemma mapping_position_None m key : mapping_position m key = None → mapping_get m key = None.
Proof.
  induction m as [|q m IH]; [done|]. rewrite mapping_get_cons. simpl.
  destruct (is_key key q.1); [done|]. intros ?%fmap_None. by apply IH.
Qed.

Lemma mapping_remove_cases m key :
  (∃ v, m ≡ₚ (VString key, v) :: mapping_remove m key) ∨
  (mapping_remove m key = m ∧ mapping_get m key = None).
Proof.
  unfold mapping_remove. destruct (mapping_position m key) as [i|] eqn:Hp.
  - left. apply mapping_position_Some in Hp as [v Hv]. exists v.
    by apply swap_remove_Permutation.
  - right. split; [done|]. by apply mapping_position_None.
Qed.

Lemma mapping_remove_elem m key p : p ∈ mapping_remove m key → p ∈ m.
Proof.
  destruct (mapping_remove_cases m key) as [[v Hv]|[-> _]]; [|done].
  intros Hp. rewrite Hv. by right.
Qed.

(** *** Well-formed mappings *)

Section wf.
Context `{YamlCrate}.

Lemma value_eqb_string key v : value_eqb (VString key) v = is_key key v.
Proof.
  destruct v as [| | |s| | |]; try done. simpl.
  apply bool_decide_ext. split; by intros ->.
Qed.

Lemma value_eqb_string_r key v : value_eqb v (VString key) = is_key key v.
Proof. by destruct v. Qed.

Lemma keys_differ_sym k l : keys_differ k l → keys_differ l k.
Proof. intros [? ?]. by split. Qed.

Lemma keys_differ_string key v : keys_differ (VString key) v ↔ v ≠ VString key.
Proof.
  unfold keys_differ. rewrite value_eqb_string, value_eqb_string_r, is_key_false. naive_solver.
Qed.

#[global] Instance distinct_keys_Permutation : Proper ((≡ₚ) ==> iff) distinct_keys.
Proof.
  assert (∀ ks ls, ks ≡ₚ ls → distinct_keys ks → distinct_keys ls) as Hgo.
  { induction 1 as [|k ks ls Hp IH|k l ks|ks ls ms _ IH1 _ IH2]; simpl; [done|..].
    - intros [Hk Hks]. split; [by rewrite <-Hp|by apply IH].
    - rewrite !Forall_cons. intros [[Hkl Hk] [Hl Hd]]. split; [|by split]. split; [|done].
      by apply keys_differ_sym.
    - intros Hd. by apply IH2, IH1. }
  intros ks ls Hp. split; apply Hgo; by rewrite Hp.
Qed.

Lemma distinct_keys_app_string ks key :
  distinct_keys ks → VString key ∉ ks → distinct_keys (ks ++ [VString key]).
Proof.
  intros Hd Hk. rewrite Permutation_app_comm. simpl. split; [|done].
  apply Forall_forall. intros l Hl. apply keys_differ_string. by intros ->.
Qed.

(** With distinct keys, [get] does not depend on the order of the entries. *)
Lemma mapping_get_elem m key v :
  distinct_keys m.*1 → mapping_get m key = Some v ↔ (VString key, v) ∈ m.
Proof.
  intros Hd. split; [apply mapping_get_in|].
  induction m as [|p m IH]; [by intros ?%not_elem_of_nil|].
  destruct Hd as [Hp Hd]. rewrite mapping_get_cons. intros [<-|Hin]%elem_of_cons; simpl.
  - by rewrite bool_decide_eq_true_2.
  - destruct (is_key key p.1) eqn:Hk; [|by apply IH].
    apply is_key_true in Hk. rewrite Hk in Hp.
    rewrite Forall_forall in Hp. destruct (proj1 (keys_differ_string key (VString key))); [|done].
    apply Hp. apply list_elem_of_fmap. by exists (VString key, v).
Qed.

Lemma mapping_get_Permutation m n key :
  distinct_keys m.*1 → m ≡ₚ n → mapping_get m key = mapping_get n key.
Proof.
  intros Hd Hp. assert (distinct_keys n.*1) by (by rewrite <-Hp).
  apply option_eq. intros v. rewrite !mapping_get_elem by done. by rewrite Hp.
Qed.

Lemma mapping_get_remove m key key' :
  distinct_keys m.*1 →
  mapping_get (mapping_remove m key) key' =
  if decide (key = key') then None else mapping_get m key'.
Proof.
  intros Hd. destruct (mapping_remove_cases m key) as [[v Hv]|[-> Hn]]; [|by case_decide; subst].
  pose proof Hd as Hd'. rewrite Hv in Hd'. destruct Hd' as [Hk Hd'].
  rewrite (mapping_get_Permutation m _ key' Hd Hv), mapping_get_cons. simpl.
  case_decide as He; [subst|]; [|by rewrite bool_decide_eq_false_2].
  apply mapping_get_None. intros w Hin. rewrite Forall_forall in Hk.
  destruct (proj1 (keys_differ_string key' (VString key'))); [|done].
  apply Hk. apply list_elem_of_fmap. by exists (VString key', w).
Qed.

Lemma mapping_remove_distinct m key : distinct_keys m.*1 → distinct_keys (mapping_remove m key).*1.
Proof.
  intros Hd. destruct (mapping_remove_cases m key) as [[v Hv]|[-> _]]; [|done].
  rewrite Hv in Hd. by destruct Hd.
Qed.

Lemma mapping_update_distinct f m key :
  distinct_keys m.*1 → distinct_keys (mapping_update f m key).*1.
Proof. by rewrite mapping_update_keys. Qed.

Lemma mapping_set_distinct m key v : distinct_keys m.*1 → distinct_keys (mapping_set m key v).*1.
Proof.
  intros Hd. rewrite mapping_set_keys. unfold contains_key.
  case_bool_decide as Hs; [by rewrite app_nil_r|]. apply distinct_keys_app_string; [done|].
  intros ([k w] & Hk & Hin)%list_elem_of_fmap. simplify_eq/=. apply Hs.
  destruct (mapping_get m key) eqn:Hg; [eauto|]. rewrite mapping_get_None in Hg. by destruct (Hg w).
Qed.

Lemma value_wf_sequence vs : value_wf (VSequence vs) ↔ Forall value_wf vs.
Proof.
  simpl. induction vs as [|v vs IH]; [done|]. by rewrite Forall_cons, IH.
Qed.

Lemma value_wf_mapping m :
  value_wf (VMapping m) ↔ distinct_keys m.*1 ∧ Forall (λ p, value_wf p.2) m.
Proof.
  simpl. apply and_iff_compat_l. induction m as [|p m IH]; [done|]. by rewrite Forall_cons, IH.
Qed.

Lemma value_wf_get m key v :
  value_wf (VMapping m) → mapping_get m key = Some v → value_wf v.
Proof.
  rewrite value_wf_mapping, Forall_forall. intros [_ Hall] Hg%mapping_get_in. by apply Hall in Hg.
Qed.

Lemma value_wf_set m key v :
  value_wf (VMapping m) → value_wf v → value_wf (VMapping (mapping_set m key v)).
Proof.
  rewrite !value_wf_mapping, !Forall_forall. intros [Hd Hall] Hv.
  split; [by apply mapping_set_distinct|].
  intros p [->|Hp]%mapping_set_elem; [done|by apply Hall].
Qed.

Lemma value_wf_remove m key :
  value_wf (VMapping m) → value_wf (VMapping (mapping_remove m key)).
Proof.
  rewrite !value_wf_mapping, !Forall_forall. intros [Hd Hall].
  split; [by apply mapping_remove_distinct|]. intros p Hp%mapping_remove_elem. by apply Hall.
Qed.

Lemma value_wf_update f m key :
  value_wf (VMapping m) → (∀ v, (VString key, v) ∈ m → value_wf v → value_wf (f v)) →
  value_wf (VMapping (mapping_update f m key)).
Proof.
  rewrite !value_wf_mapping, !Forall_forall. intros [Hd Hall] Hf.
  split; [by apply mapping_update_distinct|].
  intros p [Hp|(v & Hv & ->)]%mapping_update_elem; [by apply Hall|]. simpl.
  apply Hf; [done|]. by apply (Hall (VString key, v)).
Qed.

End wf.

#[export] Hint Resolve mapping_set_distinct mapping_remove_distinct mapping_update_distinct
  value_wf_set value_wf_remove : ratash.

(** ** An instance of the crate

    A printer and a parser for which the laws hold: a document prints as the
    binary digits of its encoding; the accessors look through tags. *)

Fixpoint value_tree (v : Value) : gen_tree (bool + Z + str) :=
  match v with
  | VNull => GenNode 0 []
  | VBool b => GenLeaf (inl (inl b))
  | VNumber (NumberInt z) => GenLeaf (inl (inr z))
  | VNumber (NumberFloat z) => GenNode 1 [GenLeaf (inl (inr z))]
  | VString s => GenLeaf (inr s)
  | VSequence vs => GenNode 2 (value_tree <$> vs)
  | VMapping m => GenNode 3 ((λ p, GenNode 4 [value_tree p.1; value_tree p.2]) <$> m)
  | VTagged t x => GenNode 5 [GenLeaf (inr t); value_tree x]
  end.

Fixpoint tree_value (t : gen_tree (bool + Z + str)) : Value :=
  match t with
  | GenLeaf (inl (inl b)) => VBool b
  | GenLeaf (inl (inr z)) => VNumber (NumberInt z)
  | GenLeaf (inr s) => VString s
  | GenNode 1 [GenLeaf (inl (inr z))] => VNumber (NumberFloat z)
  | GenNode 2 ts => VSequence (tree_value <$> ts)
  | GenNode 3 ts => VMapping ((λ t, match t with
                                    | GenNode 4 [k; x] => (tree_value k, tree_value x)
                                    | _ => (VNull, VNull)
                                    end) <$> ts)
  | GenNode 5 [GenLeaf (inr t); x] => VTagged t (tree_value x)
  | _ => VNull
  end.

Lemma tree_value_tree v : tree_value (value_tree v) = v.
Proof.
  induction v as [| |[]| |vs IH|m IH|t v IH] using Value_nested_ind; simpl; try done.
  - f_equal. induction IH as [|v vs Hv _ IHvs]; csimpl; [done|]. by rewrite Hv, IHvs.
  - f_equal. induction IH as [|[k v] m [Hk Hv] _ IHm]; csimpl in *; [done|].
    by rewrite Hk, Hv, IHm.
  - by rewrite IH.
Qed.

Fixpoint binary (p : positive) : str :=
  match p with
  | xH => [49%N]
  | xO p' => 48%N :: binary p'
  | xI p' => 50%N :: binary p'
  end.

Fixpoint of_binary (s : str) : option positive :=
  match s with
  | [49%N] => Some xH
  | 48%N :: s' => xO <$> of_binary s'
  | 50%N :: s' => xI <$> of_binary s'
  | _ => None
  end.

Lemma of_binary_binary p : of_binary (binary p) = Some p.
Proof. induction p as [p IH|p IH|]; simpl; by rewrite ?IH. Qed.

Lemma utf8_binary p : utf8 (binary p) = binary p.
Proof. unfold utf8. induction p as [p IH|p IH|]; csimpl; by rewrite ?IH. Qed.

#[local] Instance sample_yaml : YamlCrate := {|
  yaml_to_string v := Some (binary (encode (value_tree v)));
  yaml_from_str s := p ← of_binary s; tree_value <$> decode p;
  yaml_from_slice s := p ← of_binary s; tree_value <$> decode p;
  yaml_debug v := binary (encode (value_tree v));
  float_eqb := Z.eqb;
  tag_eqb t u := bool_decide (t = u);
  tagged_as_str _ x := match x with VString s => Some s | _ => None end;
  tagged_as_bool _ x := match x with VBool b => Some b | _ => None end;
  tagged_as_sequence _ x := match x with VSequence vs => Some vs | _ => None end;
  tagged_as_mapping _ x := match x with VMapping m => Some m | _ => None end;
  tagged_as_mapping_mut t x :=
    match x with VMapping m => Some (m, λ n, VTagged t (VMapping n)) | _ => None end;
|}.

#[local] Instance sample_yaml_laws : YamlLaws.
Proof.
  split; simpl; intros v s [= <-]; rewrite ?utf8_binary, of_binary_binary; simpl;
    rewrite decode_encode; simpl; by rewrite tree_value_tree.
Qed.
