(* ===== verification/Json.v ===== *)
(** * Json: documents of [serde_json] and the derived encodings

    [Json] is a parsed document ([JFloat] is a number that is no integer, by its
    text); [json_to_vec] and [json_from_slice] of the
    [serde_json] crate are parameters of the definitions that call them.  What
    [derive(Serialize, Deserialize)] generates for the source's structs is
    written with the field helpers below. *)

From S2P Require Import Prelude Text.
Local Open Scope Z_scope.

Inductive Json :=
| JNull
| JBool (value : bool)
| JNumber (value : Z)
| JFloat (repr : str)
| JString (value : str)
| JArray (values : list Json)
| JObject (fields : list (str * Json)).

(** The value of a field; a field that occurs twice is an error. *)
Definition json_field (fields : list (str * Json)) (name : str) : option (option Json) :=
  match filter (λ f, f.1 = name) fields with
  | [] => Some None
  | [f] => Some (Some f.2)
  | _ => None
  end.

Definition json_str (j : Json) : option str := match j with JString s => Some s | _ => None end.

(** An unsigned integer of at most [max]. *)
Definition json_uint (max : Z) (j : Json) : option Z :=
  match j with
  | JNumber n => if (0 <=? n) && (n <=? max) then Some n else None
  | _ => None
  end.

(** What the derived [Deserialize] of a struct reads: an object, or an array of
    exactly the fields in their order of declaration. *)
Definition json_struct (names : list str) (j : Json) : option (list (str * Json)) :=
  match j with
  | JObject fields => Some fields
  | JArray values =>
      if bool_decide (length values = length names) then Some (zip names values) else None
  | _ => None
  end.

(** The same for a struct whose last fields have [#[serde(default)]]: an array
    may stop before them. *)
Definition json_struct_default (names : list str) (j : Json) : option (list (str * Json)) :=
  match j with
  | JObject fields => Some fields
  | JArray values =>
      if bool_decide (length values ≤ length names)%nat then Some (zip names values) else None
  | _ => None
  end.

(** A required field. *)
Definition json_required {A} (fields : list (str * Json)) (name : str) (decode : Json → option A)
  : option A :=
  value ← json_field fields name; value ≫= decode.

(** A field of type [Option<T>]: absent and [null] are [None]. *)
Definition json_optional {A} (fields : list (str * Json)) (name : str) (decode : Json → option A)
  : option (option A) :=
  value ← json_field fields name;
  match value with
  | None | Some JNull => Some None
  | Some j => Some <$> decode j
  end.

(** A field with [#[serde(default)]]: an absent field is [d]. *)
Definition json_default {A} (fields : list (str * Json)) (name : str) (decode : Json → option A)
  (d : A) : option A :=
  value ← json_field fields name;
  match value with None => Some d | Some j => decode j end.

Definition json_bool (j : Json) : option bool := match j with JBool b => Some b | _ => None end.

(** [Option<T>] of a value. *)
Definition json_nullable {A} (decode : Json → option A) (j : Json) : option (option A) :=
  match j with JNull => Some None | _ => Some <$> decode j end.

(** [BTreeMap<String, T>]: the entries in their order, the last of equal keys
    stays. *)
Fixpoint json_map_from {A} (decode : Json → option A) (fields : list (str * Json))
  (acc : gmap str A) : option (gmap str A) :=
  match fields with
  | [] => Some acc
  | (k, j) :: fields' => v ← decode j; json_map_from decode fields' (<[k := v]> acc)
  end.
Definition json_map {A} (decode : Json → option A) (j : Json) : option (gmap str A) :=
  match j with JObject fields => json_map_from decode fields ∅ | _ => None end.

Definition json_option {A} (encode : A → Json) (o : option A) : Json :=
  match o with Some x => encode x | None => JNull end.

(** [#[serde(deny_unknown_fields)]] *)
Definition json_known_fields (names : list str) (fields : list (str * Json)) : bool :=
  forallb (λ f, bool_decide (f.1 ∈ names)) fields.

Definition json_strict_struct (names : list str) (j : Json) : option (list (str * Json)) :=
  fields ← json_struct names j;
  if json_known_fields names fields then Some fields else None.

(** A [Vec] field. *)
Definition json_vec {A} (decode : Json → option A) (j : Json) : option (list A) :=
  match j with JArray values => mapM decode values | _ => None end.

(** [serde_json::Map::values]: of equal keys the last one stays. *)
Fixpoint json_values (fields : list (str * Json)) : list Json :=
  match fields with
  | [] => []
  | (k, v) :: fields' =>
      if bool_decide (k ∈ fields'.*1) then json_values fields' else v :: json_values fields'
  end.

Fixpoint json_size (j : Json) : nat :=
  match j with
  | JArray vs => S (foldr (λ v n, json_size v + n)%nat 0%nat vs)
  | JObject fs => S (foldr (λ f n, json_size f.2 + n)%nat 0%nat fs)
  | _ => 1%nat
  end.

(** Integers a [serde_json::Number] holds, everywhere in the document; floats
    are not written by the program. *)
Fixpoint json_printable (j : Json) : bool :=
  match j with
  | JNumber n => (-9223372036854775808 <=? n) && (n <=? u64_max)
  | JFloat _ => false
  | JArray vs => forallb json_printable vs
  | JObject fs => forallb (λ f, json_printable f.2) fs
  | _ => true
  end.

(** The strings of a document, through arrays and object values. *)
Inductive json_string : Json → str → Prop :=
| json_string_here s : json_string (JString s) s
| json_string_array vs v s : v ∈ vs → json_string v s → json_string (JArray vs) s
| json_string_object fs v s : v ∈ json_values fs → json_string v s → json_string (JObject fs) s.

(** ** Round trips of the parts of a document *)

Lemma json_uint_ok max n : 0 ≤ n ≤ max → json_uint max (JNumber n) = Some n.
Proof. intros [? ?]. simpl. destruct (Z.leb_spec 0 n), (Z.leb_spec n max); [done|lia..]. Qed.

Lemma json_vec_ok {A} (encode : A → Json) decode (l : list A) :
  Forall (λ x, decode (encode x) = Some x) l → json_vec decode (JArray (encode <$> l)) = Some l.
Proof.
  intros Hl. simpl. apply mapM_Some. induction Hl as [|x l Hx _ IH]; csimpl; by constructor.
Qed.

Lemma printable_number n : in_u64 n → json_printable (JNumber n) = true.
Proof. intros [? ?]. simpl. apply andb_true_iff. split; apply Z.leb_le; lia. Qed.

Lemma printable_array {A} (encode : A → Json) l :
  Forall (λ x, json_printable (encode x) = true) l → json_printable (JArray (encode <$> l)) = true.
Proof. induction 1 as [|x l Hx _ IH]; simpl in *; [done|]. by rewrite Hx. Qed.
