(* ===== verification/Domain.v ===== *)
(** * Domain: shared data, identifiers and digests
    (src/domain.rs, src/error.rs, src/digest.rs)

    The status enumerations, the error codes and their exit codes, the digest
    helpers, node and group identifiers, and the redaction of subscription
    URLs.  The [sha2], [url] and [percent_encoding] crates are parameters:
    [sha256] is [Sha256::digest], a [Url] is the record of what its accessors
    return, [percent_decode] is [percent_decode_str(_).decode_utf8_lossy()]. *)

From S2P Require Import Prelude Text Ordered Constants.
Local Open Scope Z_scope.

(** ** Status data *)

Inductive SupervisorLifecycle := SupStarting | SupReady | SupStopping | SupStopped | SupDegraded.

Inductive CoreLifecycle :=
| CoreUnconfigured | CoreStopped | CoreStarting | CoreReady | CoreReloading | CoreStopping
| CoreDegraded.

Inductive ApplyState := ApplyIdle | ApplyApplying | ApplyRecovering | ApplyFailed.

Inductive RuntimeApplyPhase :=
| PhaseIdle | PhaseApplying | PhaseSucceeded | PhaseRecovering | PhaseFailed.

#[global] Instance RuntimeApplyPhase_eq_dec : EqDecision RuntimeApplyPhase.
Proof. solve_decision. Defined.

Definition compatibility_state (p : RuntimeApplyPhase) : ApplyState :=
  match p with
  | PhaseIdle | PhaseSucceeded => ApplyIdle
  | PhaseApplying => ApplyApplying
  | PhaseRecovering => ApplyRecovering
  | PhaseFailed => ApplyFailed
  end.

Inductive RuntimeRecoveryStatus :=
| RecoveryNotRequired | RecoverySucceeded | RecoveryPending | RecoveryFailed.

#[global] Instance RuntimeRecoveryStatus_eq_dec : EqDecision RuntimeRecoveryStatus.
Proof. solve_decision. Defined.

Record RuntimeRecoverySnapshot := MkRuntimeRecoverySnapshot {
  rrs_status : RuntimeRecoveryStatus;
  rrs_restored_generation : option Z;
  rrs_message : option str;
}.

Record RuntimeApplySnapshot := MkRuntimeApplySnapshot {
  ras_candidate_generation : option Z;
  ras_committed_generation : option Z;
  ras_phase : RuntimeApplyPhase;
  ras_recovery : RuntimeRecoverySnapshot;
}.

Inductive SampleState := SampleFresh | SampleStale | SampleUnavailable.

#[global] Instance SampleState_eq_dec : EqDecision SampleState.
Proof. solve_decision. Defined.

Record LatencySample := MkLatencySample {
  ls_node_id : str;
  ls_delay_ms : option Z;
  ls_sampled_at : option Z;
  ls_state : SampleState;
  ls_probe_generation : Z;
}.

Record TrafficSample := MkTrafficSample {
  ts_upload_bytes_per_second : Z;
  ts_download_bytes_per_second : Z;
  ts_sampled_at : option Z;
  ts_state : SampleState;
}.

Record ConnectionRecord := MkConnectionRecord {
  cr_id : str;
  cr_network : str;
  cr_host : option str;
  cr_destination_ip : option str;
  cr_destination_port : option str;
  cr_chains : list str;
  cr_rule : str;
  cr_rule_payload : option str;
  cr_upload_bytes : Z;
  cr_download_bytes : Z;
}.

(** ** Error codes *)

Inductive ErrorCode :=
| EUsage | ESupervisorUnavailable | EProtocolMismatch | EProfileAmbiguous | EProfileActive
| EProfileNotFound | EProxyGroupNotFound | ENodeNotFound | ENodeAmbiguous
| EInvalidSubscriptionUrl | ERulesUninitialized | ERuleBusy | ERuleNotFound | ERuleAmbiguous
| ERuleAlreadyExists | EPolicyTargetNotFound | EProfileFieldUnsupported | ETunPermissionDenied
| ETunUnsupported | ECoreUnavailable | EExternalOperationFailed | EInternal
| EOperationUnavailable.

Inductive ProcessExitCode :=
| ExitSuccess | ExitUsage | ExitSupervisorUnavailable | ExitDomainConflict
| ExitExternalOperationFailure | ExitInternalFailure | ExitInterrupted.

Definition process_exit_code (e : ErrorCode) : ProcessExitCode :=
  match e with
  | EUsage | EInvalidSubscriptionUrl => ExitUsage
  | ESupervisorUnavailable | EProtocolMismatch => ExitSupervisorUnavailable
  | EProfileAmbiguous | EProfileActive | EProfileNotFound | EProxyGroupNotFound | ENodeNotFound
  | ENodeAmbiguous | ERulesUninitialized | ERuleBusy | ERuleNotFound | ERuleAmbiguous
  | ERuleAlreadyExists | EPolicyTargetNotFound | EProfileFieldUnsupported => ExitDomainConflict
  | ETunPermissionDenied | ETunUnsupported | ECoreUnavailable | EExternalOperationFailed
  | EOperationUnavailable => ExitExternalOperationFailure
  | EInternal => ExitInternalFailure
  end.

Definition as_u8 (c : ProcessExitCode) : Z :=
  match c with
  | ExitSuccess => 0
  | ExitUsage => 2
  | ExitSupervisorUnavailable => 3
  | ExitDomainConflict => 4
  | ExitExternalOperationFailure => 5
  | ExitInternalFailure => 70
  | ExitInterrupted => 130
  end.

(** ** Digests *)

(** One digit of [{byte:02x}]. *)
Definition hex_digit (n : N) : char := (if n <? 10 then 48 + n else 87 + n)%N.

Definition encode_sha256 (digest : bytes) : str :=
  concat ((λ byte : N, [hex_digit (byte / 16); hex_digit (byte mod 16)]%N) <$> digest).

Definition is_lower_sha256_hex (value : str) : bool :=
  (str_len value =? 64)
  && forallb (λ byte : N, is_ascii_digit byte || ((97 <=? byte) && (byte <=? 102))%N) (utf8 value).

Definition STREAM_BUFFER_BYTES : Z := 8 * 1024.

(** A [Read] implementation: the bytes it still has, and what its next calls
    do; [Chunk n] delivers at most [n] bytes (and at least one, while there are
    any), after the listed calls every call fills the buffer. *)
Inductive ReadEvent :=
| Chunk (n : nat)
| Interrupted
| ReadFailed.

Inductive StreamError :=
| ReadError
| WriteError
| StreamTooLarge.

Record Reader := MkReader {
  rd_content : bytes;
  rd_events : list ReadEvent;
}.

(** [Take::read] of a reader with [limit] bytes left: no call is made on the
    reader once the limit is reached. *)
Definition take_read (limit : nat) (r : Reader) : result bytes ReadEvent * Reader :=
  if bool_decide (limit = 0%nat) then (Ok [], r)
  else
    let room := Nat.min (Z.to_nat STREAM_BUFFER_BYTES) limit in
    match rd_events r with
    | Interrupted :: events => (Err Interrupted, MkReader (rd_content r) events)
    | ReadFailed :: events => (Err ReadFailed, MkReader (rd_content r) events)
    | Chunk n :: events =>
        let room := Nat.min (Nat.max 1 n) room in
        (Ok (take room (rd_content r)), MkReader (drop room (rd_content r)) events)
    | [] => (Ok (take room (rd_content r)), MkReader (drop room (rd_content r)) [])
    end.

Section digest.
Context (sha256 : bytes → bytes).

Definition sha256_hex (content : bytes) : str := encode_sha256 (sha256 content).

(** The loop: [hashed] is what went to [writer] and to the hasher.  [writer]
    says whether it accepts one more chunk after what it already has.  Every
    turn uses an event or a byte of the reader, or ends the loop. *)
Fixpoint copy_loop (fuel : nat) (writer : bytes → bytes → bool) (limit : nat) (r : Reader)
    (max_bytes copied : Z) (hashed : bytes) : result str StreamError * bytes :=
  match fuel with
  | O => (Err ReadError, hashed)
  | S fuel' =>
      match take_read limit r with
      | (Err Interrupted, r) => copy_loop fuel' writer limit r max_bytes copied hashed
      | (Err _, _) => (Err ReadError, hashed)
      | (Ok chunk, r) =>
          if bool_decide (chunk = []) then (Ok (encode_sha256 (sha256 hashed)), hashed)
          else if saturating_sub max_bytes copied <? zlen chunk then (Err StreamTooLarge, hashed)
          else if writer hashed chunk then
            copy_loop fuel' writer (limit - length chunk) r max_bytes (copied + zlen chunk)
              (hashed ++ chunk)
          else (Err WriteError, hashed)
      end
  end.

(** Returns also what was written. *)
Definition copy_and_sha256_hex_bounded (r : Reader) (writer : bytes → bytes → bool) (max_bytes : Z)
  : result str StreamError * bytes :=
  copy_loop (S (length (rd_events r) + length (rd_content r))) writer
    (Z.to_nat (saturating_add max_bytes 1)) r max_bytes 0 [].

Definition sha256_reader_hex_bounded (r : Reader) (max_bytes : Z) : result str StreamError :=
  (copy_and_sha256_hex_bounded r (λ _ _, true) max_bytes).1.

(** ** Identifiers of nodes and groups *)

(** [(n as u64).to_be_bytes()] *)
Definition to_be_bytes (n : Z) : bytes :=
  (λ i, Z.to_N ((n / 256 ^ i) mod 256)) <$> [7; 6; 5; 4; 3; 2; 1; 0].

Definition source_aware_canonical (source : str) (components : list str) : bytes :=
  utf8 (lit "ratash-node-v1") ++ [0%N] ++ utf8 source ++ [0%N] ++
  concat ((λ component, to_be_bytes (str_len component) ++ utf8 component) <$> components).

Definition source_aware_node_id (source : str) (components : list str) : str :=
  lit "node_v1_" ++ sha256_hex (source_aware_canonical source components).

Definition for_core (proxy_name : str) : str := source_aware_node_id (lit "core") [proxy_name].
Definition for_provider (provider_name proxy_name : str) : str :=
  source_aware_node_id (lit "provider") [provider_name; proxy_name].

Definition for_name (name : str) : str :=
  lit "group_v1_" ++ sha256_hex (utf8 (lit "ratash-proxy-group-v1") ++ [0%N] ++ utf8 name).

End digest.

(** [NodeRecordId::parse] and [ProxyGroupId::parse]. *)
Definition node_record_id_parse (value : str) : result str unit :=
  let? digest := ok_or (strip_prefix (lit "node_v1_") value) tt in
  if is_lower_sha256_hex digest then Ok value else Err tt.

Definition proxy_group_id_parse (value : str) : result str unit :=
  let? digest := ok_or (strip_prefix (lit "group_v1_") value) tt in
  if is_lower_sha256_hex digest then Ok value else Err tt.

(** ** Subscription URLs *)

Record Url := MkUrl {
  url_scheme : str;
  url_host_str : option str;
  url_origin : str;
  url_path_segments : option (list str);
  url_query : option str;
}.

Definition subscription_url_parse (url_parse : str → option Url) (value : str) : result Url unit :=
  if SUBSCRIPTION_URL_MAX_BYTES <? str_len value then Err tt
  else
    let? parsed := ok_or (url_parse value) tt in
    if (bool_decide (url_scheme parsed = lit "http") || bool_decide (url_scheme parsed = lit "https"))
       && bool_decide (is_Some (url_host_str parsed))
    then Ok parsed else Err tt.

(** [find_map] over the suffixes. *)
Definition strip_first_suffix (suffixes : list str) (value : str) : str :=
  default value (head (omap (λ suffix, strip_suffix suffix value) suffixes)).

Definition looks_like_encoded_secret (value : str) : bool :=
  let value := strip_first_suffix [lit ".yaml"; lit ".yml"; lit ".txt"] value in
  let jwt_parts := split 46%N value in
  if (zlen jwt_parts =? 3)
     && forallb (λ part, (8 <=? str_len part)
                         && forallb (λ b : N, is_ascii_alnum b || (b =? 45)%N || (b =? 95)%N) (utf8 part))
                jwt_parts
  then true
  else if (str_len value <? 24)
          || negb (forallb (λ b : N, is_ascii_alnum b || (b =? 45)%N || (b =? 95)%N || (b =? 43)%N
                                     || (b =? 61)%N || (b =? 46)%N) (utf8 value))
  then false
  else
    let has_alpha := existsb is_ascii_alpha (utf8 value) in
    let has_digit := existsb is_ascii_digit (utf8 value) in
    let has_upper := existsb is_ascii_upper (utf8 value) in
    let has_lower := existsb is_ascii_lower (utf8 value) in
    (has_alpha && has_digit) || (has_upper && has_lower) || contains_char 61%N value.

Section redaction.
Context (percent_decode : str → str).

Definition secret_markers : list str :=
  [lit "token"; lit "secret"; lit "credential"; lit "auth"; lit "api-key"; lit "apikey"].

Definition is_token_like_path_segment (segment : str) : bool :=
  let decoded := percent_decode segment in
  let normalized := to_ascii_lowercase decoded in
  existsb (λ marker, contains_str marker normalized) secret_markers
  || looks_like_encoded_secret decoded.

Definition redacted_segment (segment : str) : str :=
  47%N :: (if is_token_like_path_segment segment then lit "[redacted]" else segment).

(** One query pair; the first has no leading [&]. *)
Definition redacted_pair (index : nat) (pair : str) : str :=
  (if bool_decide (index = 0%nat) then [] else [38%N]) ++
  (let '(key, has_value) := match split_once 61%N pair with
                            | Some (key, _) => (key, true)
                            | None => (pair, false)
                            end in
   if has_value && negb (is_token_like_path_segment key) then key else lit "[redacted]") ++
  lit "=[redacted]".

Definition redacted (u : Url) : str :=
  url_origin u ++
  match url_path_segments u with
  | Some segments => concat (redacted_segment <$> segments)
  | None => []
  end ++
  match url_query u with
  | Some query => 63%N :: concat (imap redacted_pair (split 38%N query))
  | None => []
  end.

End redaction.

(** ** Digests: lemmas *)

Definition byte_list (l : bytes) : Prop := Forall (λ b, (b < 256)%N) l.

Lemma hex_digit_lower n :
  (n < 16)%N → is_ascii_digit (hex_digit n) || ((97 <=? hex_digit n) && (hex_digit n <=? 102))%N = true.
Proof.
  intros Hn. unfold hex_digit, is_ascii_digit. destruct (N.ltb_spec n 10); [|]; lia.
Qed.

Lemma hex_digit_ascii n : (n < 16)%N → (hex_digit n < 128)%N.
Proof. intros Hn. unfold hex_digit. destruct (N.ltb_spec n 10); lia. Qed.

Lemma hex_digit_inj n m : (n < 16)%N → (m < 16)%N → hex_digit n = hex_digit m → n = m.
Proof. unfold hex_digit. destruct (N.ltb_spec n 10), (N.ltb_spec m 10); lia. Qed.

Lemma byte_nibbles b : (b < 256)%N → (b / 16 < 16)%N ∧ (b mod 16 < 16)%N.
Proof. intros Hb. split; [by apply N.Div0.div_lt_upper_bound|by apply N.mod_lt]. Qed.

Lemma encode_sha256_ascii d : byte_list d → Forall (λ c, (c < 128)%N) (encode_sha256 d).
Proof.
  unfold encode_sha256. induction 1 as [|b d Hb Hd IH]; csimpl; [constructor|].
  apply byte_nibbles in Hb as [? ?]. repeat constructor; [by apply hex_digit_ascii..|done].
Qed.

Lemma encode_sha256_length d : zlen (encode_sha256 d) = 2 * zlen d.
Proof. unfold encode_sha256. induction d as [|b d IH]; csimpl; [done|]. unfold zlen in *; simpl in *; lia. Qed.

Lemma encode_sha256_inj d e : byte_list d → byte_list e → encode_sha256 d = encode_sha256 e → d = e.
Proof.
  unfold encode_sha256. intros Hd; revert e; induction Hd as [|b d Hb Hd IH]; intros e He.
  - by destruct He.
  - destruct He as [|c e Hc He]; [done|]. csimpl. intros [= Hhi Hlo Heq].
    apply byte_nibbles in Hb as [? ?], Hc as [? ?]. apply hex_digit_inj in Hhi, Hlo; try done.
    f_equal; [|by apply IH]. rewrite (N.div_mod' b 16), (N.div_mod' c 16). lia.
Qed.

Lemma encode_sha256_valid d :
  byte_list d → length d = 32%nat → is_lower_sha256_hex (encode_sha256 d) = true.
Proof.
  intros Hd Hlen. unfold is_lower_sha256_hex. rewrite <-utf8_length, utf8_ascii by by apply encode_sha256_ascii.
  rewrite encode_sha256_length. unfold zlen. rewrite Hlen. simpl. apply forallb_forall.
  unfold encode_sha256. clear Hlen. induction Hd as [|b d Hb Hd IH]; csimpl; [done|].
  apply byte_nibbles in Hb as [? ?]. intros x [<-|[<-|Hx]]; [by apply hex_digit_lower..|by apply IH].
Qed.

(** ** The bounded copy *)

Definition reliable (r : Reader) : Prop := ReadFailed ∉ rd_events r.

Lemma take_read_inv limit r res r' :
  take_read limit r = (res, r') → limit ≠ 0%nat →
  match res with
  | Ok [] => rd_content r = [] ∧ rd_content r' = []
  | Ok chunk => rd_content r = chunk ++ rd_content r' ∧ (length chunk ≤ limit)%nat ∧
                suffix (rd_events r') (rd_events r)
  | Err Interrupted => rd_content r' = rd_content r ∧ rd_events r = Interrupted :: rd_events r'
  | Err _ => ¬ reliable r
  end.
Proof.
  unfold take_read, reliable. intros H Hl. rewrite bool_decide_eq_false_2 in H by done. revert H.
  assert (Z.to_nat STREAM_BUFFER_BYTES ≠ 0%nat) as Hbuf by (unfold STREAM_BUFFER_BYTES; lia).
  revert Hbuf. generalize (Z.to_nat STREAM_BUFFER_BYTES) as buf. intros buf Hbuf H.
  assert (∀ room (content : bytes), room ≠ 0%nat → (room ≤ limit)%nat →
    match take room content with
    | [] => content = [] ∧ drop room content = []
    | chunk => content = chunk ++ drop room content ∧ (length chunk ≤ limit)%nat
    end) as Hroom.
  { intros room content Hr Hle. destruct content as [|b content]; [by rewrite take_nil, drop_nil|].
    destruct room as [|room]; [done|]. simpl. rewrite take_drop. split; [done|].
    rewrite length_take. lia. }
  destruct (rd_events r) as [|[n| |] events] eqn:Hev; simplify_eq/=; [..|set_solver].
  - specialize (Hroom (Nat.min buf limit) (rd_content r) ltac:(lia) ltac:(lia)).
    destruct (take _ _); [done|]. destruct Hroom. split_and!; [done|done|]. apply suffix_nil.
  - specialize (Hroom (Nat.min (Nat.max 1 n) (Nat.min buf limit)) (rd_content r) ltac:(lia) ltac:(lia)).
    destruct (take _ _); [done|]. destruct Hroom. split_and!; [done|done|]. by apply suffix_cons_r.
  - done.
Qed.

Section copy.
Context (sha256 : bytes → bytes) (writer : bytes → bytes → bool) (max_bytes : Z).

(** What [copy_loop] returns, whatever the reader and the writer do: what was
    written is a prefix of the content within the limit; [Ok] means all of it;
    too large means the content exceeds the limit; other errors come from the
    reader or the writer. *)
Lemma copy_loop_spec fuel limit r hashed :
  (length (rd_events r) + length (rd_content r) < fuel)%nat →
  0 ≤ max_bytes → zlen hashed ≤ max_bytes → Z.of_nat limit = max_bytes + 1 - zlen hashed →
  let '(res, written) := copy_loop sha256 fuel writer limit r max_bytes (zlen hashed) hashed in
  prefix written (hashed ++ rd_content r) ∧ zlen written ≤ max_bytes ∧
  match res with
  | Ok digest => written = hashed ++ rd_content r ∧ digest = sha256_hex sha256 written
  | Err StreamTooLarge => max_bytes < zlen (hashed ++ rd_content r)
  | Err ReadError => ¬ reliable r
  | Err WriteError => ∃ w c, writer w c = false
  end.
Proof.
  intros Hfuel Hmax. revert limit r hashed Hfuel.
  induction fuel as [|fuel IH]; intros limit r hashed Hfuel Hcop Hlim; [lia|]. simpl.
  destruct (take_read limit r) as [res r'] eqn:Hread.
  apply take_read_inv in Hread; [|lia].
  assert (prefix hashed (hashed ++ rd_content r)) as Hpre by by apply prefix_app_r.
  destruct res as [[|b chunk]|[n| |]].
  - destruct Hread as [Hc _]. rewrite bool_decide_eq_true_2 by done.
    rewrite Hc, app_nil_r. split_and!; done.
  - rewrite bool_decide_eq_false_2 by done. destruct Hread as (Hc & Hlen & Hsuf).
    pose proof (suffix_length _ _ Hsuf). assert (zlen (b :: chunk) > 0) by (unfold zlen; simpl; lia).
    destruct (Z.ltb_spec (saturating_sub max_bytes (zlen hashed)) (zlen (b :: chunk))) as [Hbig|Hfit].
    { split_and!; [done|done|]. rewrite Hc, !zlen_app. pose proof (zlen_nonneg (rd_content r')).
      unfold saturating_sub in Hbig. lia. }
    destruct (writer hashed (b :: chunk)) eqn:Hw; [|split_and!; eauto].
    rewrite <-zlen_app, Hc, app_assoc.
    specialize (IH (limit - length (b :: chunk))%nat r' (hashed ++ b :: chunk)).
    destruct (copy_loop _ _ _ _ _ _ _ _) as [res written].
    destruct IH as (Hp & Hle & Hres).
    + rewrite Hc, length_app in Hfuel. simpl in Hfuel. lia.
    + rewrite zlen_app. unfold saturating_sub in Hfit. lia.
    + rewrite zlen_app. unfold zlen in *. lia.
    + split_and!; [done|done|]. destruct res as [|[]]; try done.
      intros Hrel. apply Hres. unfold reliable in *. destruct Hsuf as [k Hk].
      rewrite Hk in Hrel. set_solver.
  - split_and!; done.
  - destruct Hread as [Hc Hev]. specialize (IH limit r' hashed).
    rewrite <-Hc in *. rewrite Hev in Hfuel. simpl in Hfuel.
    destruct (copy_loop _ _ _ _ _ _ _ _) as [res written].
    destruct IH as (Hp & Hle & Hres); [lia|done|done|]. split_and!; [done|done|].
    destruct res as [|[]]; try done. unfold reliable in *. rewrite Hev. set_solver.
  - split_and!; done.
Qed.

End copy.

(** ** Canonical encodings *)

Lemma to_be_bytes_length n : length (to_be_bytes n) = 8%nat.
Proof. done. Qed.

(** The value of big-endian bytes. *)
Definition from_be_bytes (l : bytes) : Z := foldl (λ acc b, acc * 256 + Z.of_N b) 0 l.

Lemma from_to_be_bytes n : in_u64 n → from_be_bytes (to_be_bytes n) = n.
Proof.
  intros Hn. unfold from_be_bytes, to_be_bytes. cbn [fmap list_fmap foldl].
  rewrite !Z2N.id by (apply Z.mod_pos_bound; lia).
  assert (∀ i, 0 ≤ i → (n / 256 ^ i) mod 256 = n / 256 ^ i - 256 * (n / 256 ^ (i + 1))) as Hd.
  { intros i Hi. rewrite Z.pow_add_r, <-Z.div_div by lia. rewrite Z.mod_eq by lia. done. }
  rewrite !Hd by lia. change (7 + 1) with 8. assert (n / 256 ^ 8 = 0) as ->
    by (apply Z.div_small; unfold in_u64 in Hn; lia).
  change (6 + 1) with 7. change (5 + 1) with 6. change (4 + 1) with 5. change (3 + 1) with 4.
  change (2 + 1) with 3. change (1 + 1) with 2. change (0 + 1) with 1.
  change (256 ^ 0) with 1. rewrite Z.div_1_r. clear Hd Hn.
  repeat match goal with |- context [n / ?d] => generalize (n / d); intro end. lia.
Qed.

Lemma to_be_bytes_inj n m : in_u64 n → in_u64 m → to_be_bytes n = to_be_bytes m → n = m.
Proof. intros Hn Hm Heq. rewrite <-(from_to_be_bytes n), <-(from_to_be_bytes m), Heq by done. done. Qed.

(** A component is written with its length first, so it can be cut off again. *)
Lemma component_inj c d t u :
  in_u64 (str_len c) → in_u64 (str_len d) →
  (to_be_bytes (str_len c) ++ utf8 c) ++ t = (to_be_bytes (str_len d) ++ utf8 d) ++ u →
  c = d ∧ t = u.
Proof.
  intros Hc Hd. rewrite <-!app_assoc. intros Heq.
  apply app_inj_1 in Heq as [Hl Heq]; [|by rewrite !to_be_bytes_length].
  apply to_be_bytes_inj in Hl; [|done..].
  apply app_inj_1 in Heq as [Hu Ht]; [|pose proof (utf8_length c); pose proof (utf8_length d); u64_lia].
  split; [by apply utf8_inj|done].
Qed.

Lemma components_inj cs ds :
  length cs = length ds → Forall (λ c, in_u64 (str_len c)) cs → Forall (λ c, in_u64 (str_len c)) ds →
  concat ((λ c, to_be_bytes (str_len c) ++ utf8 c) <$> cs) =
  concat ((λ c, to_be_bytes (str_len c) ++ utf8 c) <$> ds) → cs = ds.
Proof.
  intros Hlen Hcs; revert ds Hlen; induction Hcs as [|c cs Hc Hcs IH]; intros [|d ds] Hlen Hds;
    simplify_eq/=; [done|]. inversion_clear Hds.
  intros [-> Heq]%component_inj; [|done..]. f_equal. by apply IH.
Qed.

(** ** Properties *)

(** [copy_and_sha256_hex_bounded] terminates on every reader and writer,
    never writes more than the limit nor anything but a prefix of the content,
    succeeds exactly when it copied the whole content, then with the digest of
    that content, and on a reader and a writer that do not fail it succeeds
    exactly when the content fits. *)
Theorem copy_and_sha256_bounded sha256 r writer max_bytes :
  0 ≤ max_bytes < u64_max →
  let '(res, written) := copy_and_sha256_hex_bounded sha256 r writer max_bytes in
  prefix written (rd_content r) ∧ zlen written ≤ max_bytes ∧
  match res with
  | Ok digest => written = rd_content r ∧ digest = sha256_hex sha256 (rd_content r)
  | Err StreamTooLarge => max_bytes < zlen (rd_content r)
  | Err ReadError => ¬ reliable r
  | Err WriteError => ∃ w c, writer w c = false
  end ∧
  (reliable r → (∀ w c, writer w c = true) → is_ok res = bool_decide (zlen (rd_content r) ≤ max_bytes)).
Proof.
  intros Hmax. unfold copy_and_sha256_hex_bounded.
  pose proof (copy_loop_spec sha256 writer max_bytes
    (S (length (rd_events r) + length (rd_content r)))
    (Z.to_nat (saturating_add max_bytes 1)) r []) as H.
  destruct (copy_loop _ _ _ _ _ _ _ _) as [res written].
  destruct H as (Hp & Hle & Hres); [lia|lia|unfold zlen; simpl; lia|unfold zlen; simpl; u64_lia|].
  simpl in *. split; [done|]. split; [done|]. split.
  { destruct res as [d|[]]; try done. by destruct Hres as [<- ->]. }
  intros Hrel Hw. destruct res as [d|[]]; simpl.
  - destruct Hres as [<- _]. by rewrite bool_decide_eq_true_2.
  - done.
  - destruct Hres as (w & c & Hf). by rewrite Hw in Hf.
  - rewrite bool_decide_eq_false_2; [done|lia].
Qed.

Lemma copy_and_sha256_bounded_witness :
  let r := MkReader [1; 2; 3]%N [Interrupted; Chunk 2] in
  is_ok (copy_and_sha256_hex_bounded (λ _, [7%N]) r (λ _ _, true) 3).1 = true ∧
  is_ok (copy_and_sha256_hex_bounded (λ _, [7%N]) r (λ _ _, true) 2).1 = false.
Proof.
  cbv zeta. split.
  - pose proof (copy_and_sha256_bounded (λ _, [7%N]) (MkReader [1; 2; 3]%N [Interrupted; Chunk 2])
      (λ _ _, true) 3 ltac:(lia)) as H.
    destruct (copy_and_sha256_hex_bounded _ _ _ 3) as [res w]. simpl.
    rewrite (proj2 (proj2 (proj2 H))); [by vm_compute|unfold reliable; simpl; set_solver|done].
  - by vm_compute.
Defined.

(** Node and group identifiers the program makes are accepted by its own
    parsers, for every digest function with 32-byte digests. *)
Theorem ids_parse sha256 provider name :
  (∀ content, byte_list (sha256 content) ∧ length (sha256 content) = 32%nat) →
  node_record_id_parse (for_core sha256 name) = Ok (for_core sha256 name) ∧
  node_record_id_parse (for_provider sha256 provider name) = Ok (for_provider sha256 provider name) ∧
  proxy_group_id_parse (for_name sha256 name) = Ok (for_name sha256 name).
Proof.
  intros Hsha. assert (∀ c, is_lower_sha256_hex (sha256_hex sha256 c) = true) as Hhex
    by (intros c; destruct (Hsha c); by apply encode_sha256_valid).
  unfold node_record_id_parse, proxy_group_id_parse, for_core, for_provider, for_name,
    source_aware_node_id.
  split_and!; rewrite (proj2 (strip_prefix_Some _ _ _) eq_refl); simpl; by rewrite Hhex.
Qed.

(** A function with 32-byte values, to instantiate [sha256]. *)
Definition sample_sha256 (content : bytes) : bytes :=
  (λ i, (foldr N.add 0 content + N.of_nat i) mod 256)%N <$> seq 0 32.

Lemma sample_sha256_digest content :
  byte_list (sample_sha256 content) ∧ length (sample_sha256 content) = 32%nat.
Proof.
  split; [|done]. unfold sample_sha256, byte_list. rewrite Forall_fmap. apply Forall_true.
  intros i. by apply N.mod_lt.
Qed.

Lemma ids_parse_witness :
  node_record_id_parse (for_core sample_sha256 (lit "HK 01")) = Ok (for_core sample_sha256 (lit "HK 01")).
Proof. exact (proj1 (ids_parse sample_sha256 (lit "p") (lit "HK 01") sample_sha256_digest)). Defined.

(** A node, by where it is defined. *)
Inductive NodeSource :=
| FromCore (proxy_name : str)
| FromProvider (provider_name proxy_name : str).

Definition node_canonical (n : NodeSource) : bytes :=
  match n with
  | FromCore proxy => source_aware_canonical (lit "core") [proxy]
  | FromProvider provider proxy => source_aware_canonical (lit "provider") [provider; proxy]
  end.

Definition node_id (sha256 : bytes → bytes) (n : NodeSource) : str :=
  match n with
  | FromCore proxy => for_core sha256 proxy
  | FromProvider provider proxy => for_provider sha256 provider proxy
  end.

(** Names are strings in memory: their byte lengths are [u64]s. *)
Definition node_in_memory (n : NodeSource) : Prop :=
  match n with
  | FromCore proxy => in_u64 (str_len proxy)
  | FromProvider provider proxy => in_u64 (str_len provider) ∧ in_u64 (str_len proxy)
  end.

Lemma core_bytes : utf8 (lit "core") = [99; 111; 114; 101]%N.
Proof. done. Qed.
Lemma provider_bytes : utf8 (lit "provider") = [112; 114; 111; 118; 105; 100; 101; 114]%N.
Proof. done. Qed.

Lemma node_canonical_inj n m :
  node_in_memory n → node_in_memory m → node_canonical n = node_canonical m → n = m.
Proof.
  destruct n as [a|p a], m as [b|q b]; simpl; intros Hn Hm Heq; unfold source_aware_canonical in Heq.
  - rewrite !(app_inv_head_iff) in Heq. apply components_inj in Heq; [by simplify_eq|done|..];
      by constructor.
  - do 2 apply app_inv_head in Heq. by rewrite core_bytes, provider_bytes in Heq.
  - do 2 apply app_inv_head in Heq. by rewrite core_bytes, provider_bytes in Heq.
  - rewrite !(app_inv_head_iff) in Heq. destruct Hn, Hm.
    apply components_inj in Heq; [by simplify_eq|done|..];
      by rewrite !Forall_cons, Forall_nil.
Qed.

(** Two different nodes (core or provider proxies) get different node
    identifiers unless SHA-256 collides on their two canonical encodings. *)
Theorem node_id_injective sha256 n m :
  (∀ content, byte_list (sha256 content)) →
  node_in_memory n → node_in_memory m →
  (sha256 (node_canonical n) = sha256 (node_canonical m) → node_canonical n = node_canonical m) →
  node_id sha256 n = node_id sha256 m ↔ n = m.
Proof.
  intros Hbytes Hn Hm Hcoll. split; [intros Heq|by intros ->]. apply node_canonical_inj; [done..|]. apply Hcoll.
  destruct n, m; simpl in *; unfold for_core, for_provider, source_aware_node_id, sha256_hex in Heq;
    apply app_inv_head in Heq; by apply encode_sha256_inj in Heq.
Qed.

Lemma node_id_injective_witness :
  node_id sample_sha256 (FromCore (lit "a")) = node_id sample_sha256 (FromCore (lit "b")) ↔
  FromCore (lit "a") = FromCore (lit "b").
Proof.
  apply (node_id_injective sample_sha256 (FromCore (lit "a")) (FromCore (lit "b"))).
  - intros c. apply sample_sha256_digest.
  - by vm_compute.
  - by vm_compute.
  - by vm_compute.
Defined.

(** A query string with the given keys and values. *)
Definition print_query (pairs : list (str * str)) : str :=
  join 38%N ((λ p, p.1 ++ 61%N :: p.2) <$> pairs).

Definition plain_pair (p : str * str) : Prop := 38%N ∉ p.1 ∧ 61%N ∉ p.1 ∧ 38%N ∉ p.2.

#[global] Instance plain_pair_dec p : Decision (plain_pair p).
Proof. unfold plain_pair. apply _. Defined.

Lemma split_print_query pairs :
  pairs ≠ [] → Forall plain_pair pairs →
  split 38%N (print_query pairs) = (λ p, p.1 ++ 61%N :: p.2) <$> pairs.
Proof.
  intros Hne Hall. apply split_join; [by destruct pairs|]. rewrite Forall_fmap.
  eapply Forall_impl; [done|]. intros [k v] (? & ? & ?). simpl in *. set_solver.
Qed.

Lemma redacted_pair_key percent_decode index k v v' :
  61%N ∉ k → redacted_pair percent_decode index (k ++ 61%N :: v) =
             redacted_pair percent_decode index (k ++ 61%N :: v').
Proof.
  intros Hk. unfold redacted_pair.
  by rewrite !(proj2 (split_once_Some 61%N _ k _) (conj eq_refl Hk)).
Qed.

Lemma redacted_segment_secret percent_decode s s' :
  is_token_like_path_segment percent_decode s = true →
  is_token_like_path_segment percent_decode s' = true →
  redacted_segment percent_decode s = redacted_segment percent_decode s'.
Proof. intros Hs Hs'. unfold redacted_segment. by rewrite Hs, Hs'. Qed.

Lemma plain_zip pairs values :
  Forall plain_pair pairs → length values = length pairs → Forall (λ v, 38%N ∉ v) values →
  Forall plain_pair (zip pairs.*1 values).
Proof.
  intros Hall; revert values; induction Hall as [|[k v] pairs (? & ? & ?) Hall IH];
    intros [|w values] Hlen Hvals; simplify_eq/=; [constructor|].
  inversion_clear Hvals. constructor; [done|]. by apply IH.
Qed.

Lemma redacted_pairs_values percent_decode (f : nat → nat) pairs values :
  Forall plain_pair pairs → length values = length pairs →
  imap (redacted_pair percent_decode ∘ f) ((λ p, p.1 ++ 61%N :: p.2) <$> pairs) =
  imap (redacted_pair percent_decode ∘ f) ((λ p, p.1 ++ 61%N :: p.2) <$> zip pairs.*1 values).
Proof.
  intros Hall; revert f values; induction Hall as [|[k v] pairs (? & ? & ?) Hall IH];
    intros f [|w values] Hlen; simplify_eq/=; [done|]. f_equal.
  - by apply redacted_pair_key.
  - by apply (IH (f ∘ S)).
Qed.

(** What [SubscriptionUrl::redacted] shows does not depend on the values of
    the query parameters: two URLs that differ only in them are shown alike.  A
    path segment that looks like a secret is replaced as well. *)
Theorem redacted_hides_secrets percent_decode u pairs values before secret secret' after :
  pairs ≠ [] → Forall plain_pair pairs →
  length values = length pairs → Forall (λ v, 38%N ∉ v) values →
  is_token_like_path_segment percent_decode secret = true →
  is_token_like_path_segment percent_decode secret' = true →
  let show segment query :=
    redacted percent_decode
      (MkUrl (url_scheme u) (url_host_str u) (url_origin u) (Some (before ++ segment :: after))
         (Some query)) in
  show secret (print_query pairs) = show secret' (print_query (zip pairs.*1 values)).
Proof.
  intros Hne Hall Hlen Hvals Hs Hs'. simpl. unfold redacted; cbn [url_origin url_path_segments url_query].
  rewrite !(fmap_app (redacted_segment _)), !fmap_cons, (redacted_segment_secret _ _ _ Hs Hs').
  do 3 f_equal. rewrite !split_print_query; [| |by apply plain_zip|done..].
  - f_equal. exact (redacted_pairs_values _ id _ _ Hall Hlen).
  - destruct pairs as [|[]]; [done|]. by destruct values.
Qed.

Lemma redacted_hides_secrets_witness :
  let show v := redacted id (MkUrl (lit "https") (Some (lit "h.example")) (lit "https://h.example")
                  (Some [lit "sub"; v]) (Some (lit "user=" ++ v))) in
  show (lit "my-token-1") = show (lit "my-token-2") ∧
  show (lit "my-token-1") = lit "https://h.example/sub/[redacted]?user=[redacted]".
Proof.
  cbv zeta. split; [|by vm_compute].
  refine (redacted_hides_secrets id (MkUrl (lit "https") (Some (lit "h.example")) (lit "https://h.example") None None)
    [(lit "user", lit "my-token-1")] [lit "my-token-2"] [lit "sub"] (lit "my-token-1")
    (lit "my-token-2") [] _ _ _ _ _ _); [done| |done| |by vm_compute..].
  - rewrite Forall_singleton. apply (bool_decide_unpack _). by vm_compute.
  - rewrite Forall_singleton. apply (bool_decide_unpack _). by vm_compute.
Defined.
