(* ===== verification/Rule.v ===== *)
(** * Rule: Routing Rules and the Local Rule Set (src/rule.rs)

    [parse_rule] reads one Routing Rule string, [LocalRuleSet] is the ordered,
    revisioned list of rules the user edits.  Methods that take [&mut self]
    return the result and the rule set after the call, also when they fail.
    [serde_yaml_ng] is a parameter of the two document functions. *)

From S2P Require Import Prelude Text Ordered Constants.
Local Open Scope Z_scope.

(** ** Rule strings

    [RuleString] is a newtype of [String]. *)

Abbreviation RuleString := str.

Inductive RuleStringError :=
| TooLarge (actual_bytes max_bytes : Z).

Definition RuleString_new (value : str) (max_bytes : Z) : result RuleString RuleStringError :=
  let actual_bytes := str_len value in
  if max_bytes <? actual_bytes then Err (TooLarge actual_bytes max_bytes) else Ok value.

(** ** Rule types *)

Inductive RuleType :=
| And | Domain | DomainKeyword | DomainRegex | DomainSuffix | DomainWildcard | Dscp | DstPort
| GeoIp | Geosite | InName | InPort | InType | InUser | IpAsn | IpCidr | IpCidr6 | IpSuffix
| Match | Network | Not | Or | ProcessName | ProcessNameRegex | ProcessNameWildcard
| ProcessPath | ProcessPathRegex | ProcessPathWildcard | RematchName | RuleSet | SrcGeoIp
| SrcIpAsn | SrcIpCidr | SrcIpSuffix | SrcPort | SubRule | Uid.

#[global] Instance RuleType_eq_dec : EqDecision RuleType.
Proof. solve_decision. Defined.

Inductive RuleParseError :=
| MissingRuleType
| UnsupportedRuleType (rule_type : str)
| MissingPayload (rule_type : RuleType)
| MissingPolicyTarget (rule_type : RuleType)
| InvalidLogicalPayload (rule_type : RuleType).

(** The arms of [RuleType::parse], in the order of the source. *)
Definition rule_type_arms : list (str * RuleType) :=
  [ (lit "AND", And); (lit "DOMAIN", Domain); (lit "DOMAIN-KEYWORD", DomainKeyword);
    (lit "DOMAIN-REGEX", DomainRegex); (lit "DOMAIN-SUFFIX", DomainSuffix);
    (lit "DOMAIN-WILDCARD", DomainWildcard); (lit "DSCP", Dscp); (lit "DST-PORT", DstPort);
    (lit "GEOIP", GeoIp); (lit "GEOSITE", Geosite); (lit "IN-NAME", InName);
    (lit "IN-PORT", InPort); (lit "IN-TYPE", InType); (lit "IN-USER", InUser);
    (lit "IP-ASN", IpAsn); (lit "IP-CIDR", IpCidr); (lit "IP-CIDR6", IpCidr6);
    (lit "IP-SUFFIX", IpSuffix); (lit "MATCH", Match); (lit "NETWORK", Network);
    (lit "NOT", Not); (lit "OR", Or); (lit "PROCESS-NAME", ProcessName);
    (lit "PROCESS-NAME-REGEX", ProcessNameRegex);
    (lit "PROCESS-NAME-WILDCARD", ProcessNameWildcard); (lit "PROCESS-PATH", ProcessPath);
    (lit "PROCESS-PATH-REGEX", ProcessPathRegex);
    (lit "PROCESS-PATH-WILDCARD", ProcessPathWildcard); (lit "REMATCH-NAME", RematchName);
    (lit "RULE-SET", RuleSet); (lit "SRC-GEOIP", SrcGeoIp); (lit "SRC-IP-ASN", SrcIpAsn);
    (lit "SRC-IP-CIDR", SrcIpCidr); (lit "SRC-IP-SUFFIX", SrcIpSuffix);
    (lit "SRC-PORT", SrcPort); (lit "SUB-RULE", SubRule); (lit "UID", Uid) ].

Fixpoint match_str {A} (arms : list (str * A)) (value : str) : option A :=
  match arms with
  | [] => None
  | (pattern, a) :: arms' => if bool_decide (value = pattern) then Some a else match_str arms' value
  end.

Definition RuleType_parse (value : str) : result RuleType RuleParseError :=
  match match_str rule_type_arms value with
  | Some t => Ok t
  | None => if bool_decide (value = []) then Err MissingRuleType
            else Err (UnsupportedRuleType value)
  end.

Definition RuleType_as_str (t : RuleType) : str :=
  match t with
  | And => lit "AND" | Domain => lit "DOMAIN" | DomainKeyword => lit "DOMAIN-KEYWORD"
  | DomainRegex => lit "DOMAIN-REGEX" | DomainSuffix => lit "DOMAIN-SUFFIX"
  | DomainWildcard => lit "DOMAIN-WILDCARD" | Dscp => lit "DSCP" | DstPort => lit "DST-PORT"
  | GeoIp => lit "GEOIP" | Geosite => lit "GEOSITE" | InName => lit "IN-NAME"
  | InPort => lit "IN-PORT" | InType => lit "IN-TYPE" | InUser => lit "IN-USER"
  | IpAsn => lit "IP-ASN" | IpCidr => lit "IP-CIDR" | IpCidr6 => lit "IP-CIDR6"
  | IpSuffix => lit "IP-SUFFIX" | Match => lit "MATCH" | Network => lit "NETWORK"
  | Not => lit "NOT" | Or => lit "OR" | ProcessName => lit "PROCESS-NAME"
  | ProcessNameRegex => lit "PROCESS-NAME-REGEX"
  | ProcessNameWildcard => lit "PROCESS-NAME-WILDCARD" | ProcessPath => lit "PROCESS-PATH"
  | ProcessPathRegex => lit "PROCESS-PATH-REGEX"
  | ProcessPathWildcard => lit "PROCESS-PATH-WILDCARD" | RematchName => lit "REMATCH-NAME"
  | RuleSet => lit "RULE-SET" | SrcGeoIp => lit "SRC-GEOIP" | SrcIpAsn => lit "SRC-IP-ASN"
  | SrcIpCidr => lit "SRC-IP-CIDR" | SrcIpSuffix => lit "SRC-IP-SUFFIX"
  | SrcPort => lit "SRC-PORT" | SubRule => lit "SUB-RULE" | Uid => lit "UID"
  end.

(** ** The rule parser *)

Record ParsedRule := MkParsedRule {
  original : RuleString;
  rule_type : RuleType;
  payload : option str;
  policy_target : str;
  params : list str;
}.

Definition required_field (value : option str) (error : RuleParseError) : result str RuleParseError :=
  match value with
  | Some value => if bool_decide (value = []) then Err error else Ok value
  | None => Err error
  end.

Definition is_rule_parameter (value : str) : bool :=
  bool_decide (value = lit "no-resolve") || bool_decide (value = lit "src").

(** [remainder.split(',').map(str::trim)] *)
Definition trimmed_fields (s : str) : list str := trim <$> split comma s.

Definition parse_rule_without_payload (rule : RuleString) (t : RuleType) (remainder : str)
  : result ParsedRule RuleParseError :=
  let fields := trimmed_fields remainder in
  let? target := required_field (head fields) (MissingPolicyTarget t) in
  Ok (MkParsedRule rule t None target (tail fields)).

Definition parse_standard_rule (rule : RuleString) (t : RuleType) (remainder : str)
  : result ParsedRule RuleParseError :=
  let fields := trimmed_fields remainder in
  let? pay := required_field (head fields) (MissingPayload t) in
  let? target := required_field (head (tail fields)) (MissingPolicyTarget t) in
  Ok (MkParsedRule rule t (Some pay) target (tail (tail fields))).

(** The [while let] loop of [parse_regex_rule]: it strips trailing parameters,
    at least one character per turn, so [fuel] is the length of the string.
    The parameters are collected from the last to the first. *)
Fixpoint strip_rule_parameters (fuel : nat) (rule_and_target : str) (acc : list str)
  : str * list str :=
  match fuel with
  | O => (rule_and_target, acc)
  | S fuel' =>
      match rsplit_once comma rule_and_target with
      | None => (rule_and_target, acc)
      | Some (head, tail) =>
          let parameter := trim tail in
          if negb (is_rule_parameter parameter) || negb (contains_char comma head)
          then (rule_and_target, acc)
          else strip_rule_parameters fuel' head (acc ++ [parameter])
      end
  end.

Definition parse_regex_rule (rule : RuleString) (t : RuleType) (remainder : str)
  : result ParsedRule RuleParseError :=
  let '(rule_and_target, collected) := strip_rule_parameters (length remainder) remainder [] in
  let ps := reverse collected in
  let? halves := ok_or (rsplit_once comma rule_and_target) (MissingPolicyTarget t) in
  let? pay := required_field (Some (trim halves.1)) (MissingPayload t) in
  let? target := required_field (Some (trim halves.2)) (MissingPolicyTarget t) in
  Ok (MkParsedRule rule t (Some pay) target ps).

Definition backslash : char := 92%N.
Definition bracket_open : char := 91%N.
Definition bracket_close : char := 93%N.
Definition paren_open : char := 40%N.
Definition paren_close : char := 41%N.

(** The [char_indices] loop of [logical_payload_end]; [index] is the byte
    offset of the head of [s]. *)
Fixpoint logical_scan (s : str) (index depth : Z) (escaped in_class : bool) : option Z :=
  match s with
  | [] => None
  | c :: s' =>
      let next := index + char_len_utf8 c in
      if escaped then logical_scan s' next depth false in_class
      else if (c =? backslash)%N then logical_scan s' next depth true in_class
      else if (c =? bracket_open)%N then logical_scan s' next depth false true
      else if (c =? bracket_close)%N then logical_scan s' next depth false false
      else if in_class then logical_scan s' next depth false in_class
      else if (c =? paren_open)%N then logical_scan s' next (depth + 1) false in_class
      else if (c =? paren_close)%N then
        if depth =? 0 then None
        else if depth - 1 =? 0 then Some next
        else logical_scan s' next (depth - 1) false in_class
      else if (depth =? 0) && negb (is_whitespace c) then None
      else logical_scan s' next depth false in_class
  end.

Definition logical_payload_end (value : str) : option Z := logical_scan value 0 0 false false.

(** [s[..n]] and [s[n..]] at a character boundary [n]. *)
Fixpoint split_at_byte (n : Z) (s : str) : str * str :=
  match s with
  | [] => ([], [])
  | c :: s' =>
      if n <=? 0 then ([], s)
      else let '(a, b) := split_at_byte (n - char_len_utf8 c) s' in (c :: a, b)
  end.

Definition parse_logical_rule (rule : RuleString) (t : RuleType) (remainder : str)
  : result ParsedRule RuleParseError :=
  let remainder := trim_start remainder in
  let? payload_end := ok_or (logical_payload_end remainder) (InvalidLogicalPayload t) in
  let '(before, after) := split_at_byte payload_end remainder in
  let pay := trim before in
  let? rest := ok_or (strip_prefix [comma] (trim_start after)) (MissingPolicyTarget t) in
  let fields := trimmed_fields rest in
  let? target := required_field (head fields) (MissingPolicyTarget t) in
  Ok (MkParsedRule rule t (Some pay) target (tail fields)).

Definition parse_rule (rule : RuleString) : result ParsedRule RuleParseError :=
  let? head := match split_once comma rule with
               | Some (t, remainder) =>
                   let? t := RuleType_parse (trim t) in Ok (t, remainder)
               | None => let? t := RuleType_parse (trim rule) in Ok (t, [])
               end in
  let '(t, remainder) := head in
  match t with
  | Match => parse_rule_without_payload rule t remainder
  | And | Not | Or | SubRule => parse_logical_rule rule t remainder
  | DomainRegex | ProcessNameRegex | ProcessPathRegex => parse_regex_rule rule t remainder
  | _ => parse_standard_rule rule t remainder
  end.

(** The [Display] implementations of the two errors. *)
Definition RuleStringError_display (e : RuleStringError) : str :=
  match e with
  | TooLarge actual_bytes max_bytes =>
      lit "rule string is " ++ decimal (Z.to_N actual_bytes) ++ lit " bytes and exceeds the "
      ++ decimal (Z.to_N max_bytes) ++ lit "-byte limit"
  end.

Definition RuleParseError_display (e : RuleParseError) : str :=
  match e with
  | MissingRuleType => lit "rule type is required"
  | UnsupportedRuleType t => lit "unsupported rule type: " ++ t
  | MissingPayload t => RuleType_as_str t ++ lit " rule payload is required"
  | MissingPolicyTarget t => RuleType_as_str t ++ lit " rule policy target is required"
  | InvalidLogicalPayload t =>
      RuleType_as_str t ++ lit " rule payload must be a balanced logical expression"
  end.

(** ** The Local Rule Set *)

Record LocalRuleSet := MkLocalRuleSet {
  revision : Z;
  rules : option (list RuleString);
}.

Definition uninitialized : LocalRuleSet := MkLocalRuleSet 0 None.
Definition initialized_at (rs : list RuleString) (rev : Z) : LocalRuleSet :=
  MkLocalRuleSet rev (Some rs).
Definition initialized (rs : list RuleString) : LocalRuleSet := initialized_at rs 1.
Definition is_initialized (s : LocalRuleSet) : bool :=
  match rules s with Some _ => true | None => false end.

Record RuleListEntry := MkRuleListEntry {
  entry_index : Z;
  entry_rule : RuleString;
  entry_parsed : ParsedRule;
}.

Record RuleListPage := MkRuleListPage {
  page_initialized : bool;
  page_total : Z;
  page_offset : Z;
  page_entries : list RuleListEntry;
}.

Record RuleList := MkRuleList {
  list_initialized : bool;
  list_entries : list RuleListEntry;
}.

Definition list_page (s : LocalRuleSet) (offset limit : Z) : result RuleListPage RuleParseError :=
  match rules s with
  | None => Ok (MkRuleListPage false 0 offset [])
  | Some rs =>
      let stop := Z.min (saturating_add offset limit) (zlen rs) in
      let? entries :=
        collect (λ relative_index rule,
                   let? parsed := parse_rule rule in
                   Ok (MkRuleListEntry (offset + relative_index) rule parsed))
                (get_range rs offset stop) in
      Ok (MkRuleListPage true (zlen rs) offset entries)
  end.

Definition list_rules (s : LocalRuleSet) : result RuleList RuleParseError :=
  let? page := list_page s 0 usize_max in
  Ok (MkRuleList (page_initialized page) (page_entries page)).

Inductive RulePlacement :=
| Prepend
| Append
| Before (anchor : RuleString)
| After (anchor : RuleString).

Inductive RuleSetError :=
| RulesUninitialized
| RevisionExhausted
| RuleNotFound
| RuleAmbiguous (matching_indexes : list Z)
| RuleAlreadyExists (matching_indexes : list Z)
| InvalidRule (error : RuleParseError).

Definition next_revision (rev : Z) : result Z RuleSetError :=
  ok_or (checked_add rev 1) RevisionExhausted.

Fixpoint matching_from (index : Z) (rs : list RuleString) (target : RuleString) : list Z :=
  match rs with
  | [] => []
  | r :: rs' =>
      if bool_decide (r = target) then index :: matching_from (index + 1) rs' target
      else matching_from (index + 1) rs' target
  end.

Definition matching_rule_indexes (rs : list RuleString) (target : RuleString) : list Z :=
  matching_from 0 rs target.

Definition exact_rule_index (rs : list RuleString) (target : RuleString) : result Z RuleSetError :=
  match matching_rule_indexes rs target with
  | [] => Err RuleNotFound
  | [index] => Ok index
  | matching_indexes => Err (RuleAmbiguous matching_indexes)
  end.

(** [Vec::insert], [Vec::remove] and [v[i] = x] at an index in range. *)
Definition vec_insert {A} (l : list A) (index : Z) (x : A) : list A :=
  take (Z.to_nat index) l ++ x :: drop (Z.to_nat index) l.
Definition vec_remove {A} (l : list A) (index : Z) : list A :=
  take (Z.to_nat index) l ++ drop (S (Z.to_nat index)) l.

Definition placement_index (rs : list RuleString) (placement : RulePlacement)
  : result Z RuleSetError :=
  match placement with
  | Prepend => Ok 0
  | Append => Ok (zlen rs)
  | Before anchor => exact_rule_index rs anchor
  | After anchor => let? index := exact_rule_index rs anchor in Ok (index + 1)
  end.

Definition add (s : LocalRuleSet) (rule : RuleString) (placement : RulePlacement)
  : result Z RuleSetError * LocalRuleSet :=
  match rules s with
  | None => (Err RulesUninitialized, s)
  | Some rs =>
      let outcome :=
        guard? map_err InvalidRule (parse_rule rule) in
        let? index := placement_index rs placement in
        let matching := matching_rule_indexes rs rule in
        guard? (if bool_decide (matching = []) then Ok tt else Err (RuleAlreadyExists matching)) in
        let? next := next_revision (revision s) in
        Ok (index, next) in
      match outcome with
      | Ok (index, next) => (Ok index, MkLocalRuleSet next (Some (vec_insert rs index rule)))
      | Err e => (Err e, s)
      end
  end.

Definition replace (s : LocalRuleSet) (old_rule new_rule : RuleString)
  : result Z RuleSetError * LocalRuleSet :=
  match rules s with
  | None => (Err RulesUninitialized, s)
  | Some rs =>
      let outcome :=
        guard? map_err InvalidRule (parse_rule new_rule) in
        let? index := exact_rule_index rs old_rule in
        let matching := filter (λ m, m ≠ index) (matching_rule_indexes rs new_rule) in
        guard? (if bool_decide (matching = []) then Ok tt else Err (RuleAlreadyExists matching)) in
        if bool_decide (rs !! Z.to_nat index = Some new_rule) then Ok (index, s)
        else
          let? next := next_revision (revision s) in
          Ok (index, MkLocalRuleSet next (Some (<[Z.to_nat index := new_rule]> rs))) in
      match outcome with
      | Ok (index, s') => (Ok index, s')
      | Err e => (Err e, s)
      end
  end.

Definition remove (s : LocalRuleSet) (rule : RuleString)
  : result RuleString RuleSetError * LocalRuleSet :=
  match rules s with
  | None => (Err RulesUninitialized, s)
  | Some rs =>
      let outcome :=
        let? index := exact_rule_index rs rule in
        let? next := next_revision (revision s) in
        let? removed := ok_or (rs !! Z.to_nat index) RuleNotFound in
        Ok (removed, MkLocalRuleSet next (Some (vec_remove rs index))) in
      match outcome with
      | Ok (removed, s') => (Ok removed, s')
      | Err e => (Err e, s)
      end
  end.

(** ** Rule documents *)

Record RuleSetLimits := MkRuleSetLimits {
  max_document_bytes : Z;
  max_rule_bytes : Z;
  max_rule_count : Z;
}.

Definition product_limits : RuleSetLimits :=
  MkRuleSetLimits LOCAL_RULE_SET_MAX_BYTES RULE_STRING_MAX_BYTES LOCAL_RULE_COUNT_MAX.

Inductive RuleDocumentError :=
| DocRulesUninitialized
| DocumentTooLarge (actual_bytes max_bytes : Z)
| TooManyRules (actual_rules max_rules : Z)
| InvalidYaml (error : str)
| DocInvalidRuleString (index : Z) (source : RuleStringError)
| DocInvalidRule (index : Z) (source : RuleParseError)
| SerializationFailed (error : str).

(** [yaml_from_str] and [yaml_to_string] are [serde_yaml_ng::from_str] into
    [RuleDocument] and [serde_yaml_ng::to_string] of [RuleDocumentRef]. *)
Definition from_yaml (yaml_from_str : str → result (list str) str)
    (document : str) (rev : Z) (limits : RuleSetLimits)
  : result LocalRuleSet RuleDocumentError :=
  if max_document_bytes limits <? str_len document
  then Err (DocumentTooLarge (str_len document) (max_document_bytes limits))
  else
    let? values := map_err InvalidYaml (yaml_from_str document) in
    if max_rule_count limits <? zlen values
    then Err (TooManyRules (zlen values) (max_rule_count limits))
    else
      let? rs :=
        collect (λ index value,
                   let? rule := map_err (DocInvalidRuleString index)
                                  (RuleString_new value (max_rule_bytes limits)) in
                   guard? map_err (DocInvalidRule index) (parse_rule rule) in
                   Ok rule) values in
      Ok (initialized_at rs rev).

Definition to_yaml (yaml_to_string : list str → result str str) (s : LocalRuleSet)
  : result str RuleDocumentError :=
  let? rs := ok_or (rules s) DocRulesUninitialized in
  map_err SerializationFailed (yaml_to_string rs).

(** ** Rule types: the two tables agree *)

Lemma match_str_Some {A} (arms : list (str * A)) value a :
  match_str arms value = Some a → (value, a) ∈ arms.
Proof.
  induction arms as [|[p b] arms IH]; simpl; [done|].
  case_bool_decide as Hp; intros H; simplify_eq; rewrite elem_of_cons; auto.
Qed.

Lemma RuleType_as_str_arm t : match_str rule_type_arms (RuleType_as_str t) = Some t.
Proof. destruct t; vm_compute; reflexivity. Qed.

Lemma rule_type_arms_as_str : Forall (λ arm, RuleType_as_str arm.2 = arm.1) rule_type_arms.
Proof. repeat (apply Forall_cons; split; [reflexivity|]). apply Forall_nil. exact I. Qed.

Lemma RuleType_parse_as_str t : RuleType_parse (RuleType_as_str t) = Ok t.
Proof. unfold RuleType_parse. by rewrite RuleType_as_str_arm. Qed.

Lemma RuleType_parse_Ok v t : RuleType_parse v = Ok t → RuleType_as_str t = v.
Proof.
  unfold RuleType_parse. destruct (match_str rule_type_arms v) as [t'|] eqn:Hm.
  - intros; simplify_eq. apply match_str_Some in Hm.
    pose proof (proj1 (Forall_forall _ _) rule_type_arms_as_str _ Hm) as Harm. done.
  - case_bool_decide; done.
Qed.

Lemma RuleType_as_str_clean t : comma ∉ RuleType_as_str t ∧ trim (RuleType_as_str t) = RuleType_as_str t.
Proof.
  split; [|by destruct t].
  assert (forallb (λ c, negb (c =? comma)%N) (RuleType_as_str t) = true) as Hall by by destruct t.
  rewrite forallb_forall in Hall. intros Hin%list_elem_of_In. by apply Hall in Hin.
Qed.

(** ** Fields: printing and splitting *)

(** A field that [split(',').map(trim)] returns unchanged. *)
Definition clean (f : str) : Prop := comma ∉ f ∧ trim f = f.

Lemma trimmed_fields_join fields :
  fields ≠ [] → Forall clean fields → trimmed_fields (join comma fields) = fields.
Proof.
  intros Hne Hall. unfold trimmed_fields. rewrite split_join; [|done|].
  - clear Hne. induction Hall as [|f fs [_ Hf] _ IH]; csimpl; congruence.
  - eapply Forall_impl; [done|]. by intros f [? _].
Qed.

Lemma required_field_Ok f e : f ≠ [] → required_field (Some f) e = Ok f.
Proof. intros. unfold required_field. by rewrite bool_decide_eq_false_2. Qed.

(** The text of a rule: its type, a comma, and the rest. *)
Definition print_rule (t : RuleType) (rest : str) : RuleString := RuleType_as_str t ++ comma :: rest.

Lemma split_once_print t rest : split_once comma (print_rule t rest) = Some (RuleType_as_str t, rest).
Proof. apply split_once_Some. split; [done|]. apply RuleType_as_str_clean. Qed.

Lemma parse_rule_print t rest :
  parse_rule (print_rule t rest) =
  match t with
  | Match => parse_rule_without_payload (print_rule t rest) t rest
  | And | Not | Or | SubRule => parse_logical_rule (print_rule t rest) t rest
  | DomainRegex | ProcessNameRegex | ProcessPathRegex => parse_regex_rule (print_rule t rest) t rest
  | _ => parse_standard_rule (print_rule t rest) t rest
  end.
Proof.
  unfold parse_rule at 1. rewrite split_once_print.
  rewrite (proj2 (RuleType_as_str_clean t)), RuleType_parse_as_str. reflexivity.
Qed.

Definition logical_type (t : RuleType) : bool :=
  match t with And | Not | Or | SubRule => true | _ => false end.
Definition regex_type (t : RuleType) : bool :=
  match t with DomainRegex | ProcessNameRegex | ProcessPathRegex => true | _ => false end.
Definition standard_type (t : RuleType) : bool :=
  negb (logical_type t) && negb (regex_type t) && negb (bool_decide (t = Match)).

Lemma parse_standard_fields t pay target ps :
  standard_type t = true → pay ≠ [] → target ≠ [] → Forall clean (pay :: target :: ps) →
  let rule := print_rule t (join comma (pay :: target :: ps)) in
  parse_rule rule = Ok (MkParsedRule rule t (Some pay) target ps).
Proof.
  intros Ht Hpay Htarget Hclean rule. subst rule. rewrite parse_rule_print.
  assert (parse_standard_rule (print_rule t (join comma (pay :: target :: ps))) t
            (join comma (pay :: target :: ps)) =
          Ok (MkParsedRule (print_rule t (join comma (pay :: target :: ps))) t (Some pay) target ps))
    as Hstd.
  { unfold parse_standard_rule. rewrite trimmed_fields_join by done. cbn [head tail].
    by rewrite !required_field_Ok. }
  destruct t; done.
Qed.

(** ** Logical payloads *)

(** Text the scanner reads without changing its depth: plain characters,
    escaped characters, character classes and balanced parentheses. *)
Definition plain (c : char) : Prop :=
  c ≠ backslash ∧ c ≠ bracket_open ∧ c ≠ bracket_close ∧ c ≠ paren_open ∧ c ≠ paren_close.

Inductive balanced : str → Prop :=
| balanced_nil : balanced []
| balanced_char c s : plain c → balanced s → balanced (c :: s)
| balanced_escape c s : balanced s → balanced (backslash :: c :: s)
| balanced_class cls s :
    Forall (λ c, c ≠ backslash ∧ c ≠ bracket_close) cls →
    balanced s → balanced (bracket_open :: cls ++ bracket_close :: s)
| balanced_group e s :
    balanced e → balanced s → balanced (paren_open :: e ++ paren_close :: s).

(** Closes [c = d] tests of characters that are known to differ or to agree. *)
Ltac decide_chars :=
  repeat match goal with
  | |- context [(?c =? ?d)%N] =>
      first [ rewrite (proj2 (N.eqb_neq c d)) by (first [done | unfold backslash, bracket_open,
                bracket_close, paren_open, paren_close in *; lia])
            | rewrite (N.eqb_refl c) ]
  end.

Lemma logical_scan_class cls s index depth :
  Forall (λ c, c ≠ backslash ∧ c ≠ bracket_close) cls →
  logical_scan (cls ++ bracket_close :: s) index depth false true =
  logical_scan s (index + str_len (cls ++ [bracket_close])) depth false false.
Proof.
  intros Hall. revert index. induction Hall as [|c cls [Hb Hc] _ IH]; intros index; simpl.
  - f_equal; lia.
  - decide_chars. destruct (c =? bracket_open)%N; rewrite IH; simpl; f_equal; lia.
Qed.

Lemma logical_scan_balanced e rest index depth :
  balanced e → 1 ≤ depth →
  logical_scan (e ++ rest) index depth false false =
  logical_scan rest (index + str_len e) depth false false.
Proof.
  intros He. revert rest index depth.
  induction He as [|c s (?&?&?&?&?) _ IH|c s _ IH|cls s Hcls _ IH|e s _ IHe _ IHs];
    intros rest index depth Hdepth.
  - simpl. f_equal; lia.
  - simpl. decide_chars. replace (depth =? 0) with false by lia. simpl.
    rewrite IH by done. f_equal; lia.
  - simpl. rewrite IH by done. f_equal; lia.
  - cbn [app logical_scan]. rewrite <-app_assoc. simpl.
    rewrite logical_scan_class by done. rewrite IH by done. f_equal.
    simpl. rewrite !str_len_app. simpl. lia.
  - cbn [app logical_scan]. rewrite <-app_assoc. simpl.
    rewrite IHe by lia. simpl. replace (depth + 1 =? 0) with false by lia.
    replace (depth + 1 - 1 =? 0) with false by lia.
    rewrite IHs by lia. f_equal; [|lia]. rewrite str_len_app. simpl. lia.
Qed.

Lemma logical_payload_end_group e rest :
  balanced e →
  logical_payload_end (paren_open :: e ++ paren_close :: rest) =
  Some (str_len (paren_open :: e ++ [paren_close])).
Proof.
  intros He. unfold logical_payload_end. cbn [logical_scan]. simpl.
  rewrite logical_scan_balanced by (done || lia). simpl. f_equal.
  rewrite str_len_app. simpl. lia.
Qed.

Lemma split_at_byte_app p q : split_at_byte (str_len p) (p ++ q) = (p, q).
Proof.
  induction p as [|c p IH]; simpl.
  - by destruct q.
  - pose proof (char_len_utf8_bounds c); pose proof (str_len_nonneg p).
    replace (char_len_utf8 c + str_len p <=? 0) with false by lia.
    replace (char_len_utf8 c + str_len p - char_len_utf8 c) with (str_len p) by lia.
    by rewrite IH.
Qed.

(** Whatever it reads, the scanner stops just after a closing parenthesis. *)
Lemma logical_scan_boundary s index depth escaped in_class n :
  logical_scan s index depth escaped in_class = Some n →
  ∃ p q, s = p ++ paren_close :: q ∧ n = index + str_len (p ++ [paren_close]).
Proof.
  revert index depth escaped in_class.
  induction s as [|c s IH]; intros index depth escaped in_class; [done|].
  assert (∀ d e k, logical_scan s (index + char_len_utf8 c) d e k = Some n →
            ∃ p q, c :: s = p ++ paren_close :: q ∧ n = index + str_len (p ++ [paren_close]))
    as Hstep.
  { intros d e k (p & q & -> & ->)%IH. exists (c :: p), q. split; [done|].
    simpl. rewrite !str_len_app. lia. }
  cbn [logical_scan].
  repeat match goal with
  | |- (if ?b then _ else _) = _ → _ => destruct b eqn:?
  | |- logical_scan _ _ _ _ _ = _ → _ => apply Hstep
  | |- None = _ → _ => done
  end.
  intros; simplify_eq.
  match goal with H : (c =? paren_close)%N = true |- _ => apply N.eqb_eq in H as -> end.
  exists [], s. split; [done|]. simpl. lia.
Qed.

Lemma logical_payload_split s n :
  logical_payload_end s = Some n →
  ∃ p q, s = p ++ paren_close :: q ∧ split_at_byte n s = (p ++ [paren_close], q).
Proof.
  intros (p & q & -> & ->)%logical_scan_boundary. exists p, q. split; [done|].
  replace (p ++ paren_close :: q) with ((p ++ [paren_close]) ++ q) by by rewrite <-app_assoc.
  apply split_at_byte_app.
Qed.

Lemma trim_ends c m d :
  is_whitespace c = false → is_whitespace d = false → trim (c :: m ++ [d]) = c :: m ++ [d].
Proof.
  intros Hc Hd. unfold trim, trim_end. cbn [trim_start]. rewrite Hc.
  replace (reverse (c :: m ++ [d])) with (d :: reverse m ++ [c])
    by by rewrite reverse_cons, reverse_app.
  cbn [trim_start]. rewrite Hd. by rewrite reverse_cons, reverse_app, reverse_involutive.
Qed.

Lemma parse_logical_fields t e target ps :
  logical_type t = true → balanced e → target ≠ [] → Forall clean (target :: ps) →
  let rule := print_rule t (paren_open :: e ++ paren_close :: comma :: join comma (target :: ps)) in
  parse_rule rule =
  Ok (MkParsedRule rule t (Some (paren_open :: e ++ [paren_close])) target ps).
Proof.
  intros Ht He Htarget Hclean rule. subst rule. rewrite parse_rule_print.
  set (rest := paren_open :: e ++ paren_close :: comma :: join comma (target :: ps)).
  assert (parse_logical_rule (print_rule t rest) t rest =
          Ok (MkParsedRule (print_rule t rest) t (Some (paren_open :: e ++ [paren_close])) target ps))
    as Hlog.
  { unfold parse_logical_rule.
    replace (trim_start rest) with rest by done.
    unfold rest at 1. rewrite logical_payload_end_group by done. cbn [ok_or result_bind].
    replace rest with ((paren_open :: e ++ [paren_close]) ++ comma :: join comma (target :: ps))
      by by (unfold rest; simpl; rewrite <-app_assoc).
    rewrite split_at_byte_app. rewrite trim_ends by done.
    replace (trim_start (comma :: join comma (target :: ps)))
      with (comma :: join comma (target :: ps)) by done.
    cbn [strip_prefix]. rewrite N.eqb_refl. cbn [ok_or result_bind].
    rewrite trimmed_fields_join by done. cbn [head tail]. by rewrite required_field_Ok. }
  destruct t; done.
Qed.

(** ** Regular-expression rules: the payload may hold commas *)

(** The text of the fields after the payload: the target and its parameters. *)
Fixpoint print_params (body : str) (ps : list str) : str :=
  match ps with
  | [] => body
  | p :: ps' => print_params (body ++ comma :: p) ps'
  end.

Lemma print_params_snoc body ps p :
  print_params body (ps ++ [p]) = print_params body ps ++ comma :: p.
Proof. revert body; induction ps as [|q ps IH]; intros body; simpl; [done|]. apply IH. Qed.

Lemma rule_parameter_clean p : is_rule_parameter p = true → comma ∉ p ∧ trim p = p.
Proof.
  unfold is_rule_parameter. rewrite orb_true_iff, !bool_decide_eq_true.
  intros [-> | ->]; (split; [|reflexivity]); intros Hin;
    repeat (apply elem_of_cons in Hin as [Hin|Hin]; [done|]); by apply elem_of_nil in Hin.
Qed.

Lemma contains_char_true c s : contains_char c s = true ↔ c ∈ s.
Proof.
  unfold contains_char. rewrite existsb_exists. setoid_rewrite N.eqb_eq.
  rewrite list_elem_of_In. naive_solver.
Qed.

Lemma print_params_comma body ps : comma ∈ body → comma ∈ print_params body ps.
Proof. revert body; induction ps as [|p ps IH]; intros body Hc; simpl; [done|]. apply IH. set_solver. Qed.

Lemma strip_rule_parameters_print fuel body ps acc :
  comma ∈ body →
  (∀ h t, rsplit_once comma body = Some (h, t) → is_rule_parameter (trim t) = false) →
  Forall (λ p, is_rule_parameter p = true) ps → (length ps < fuel)%nat →
  strip_rule_parameters fuel (print_params body ps) acc = (body, acc ++ reverse ps).
Proof.
  intros Hbody Hstop. revert fuel acc.
  induction ps as [|p ps IH] using rev_ind; intros fuel acc Hps Hfuel.
  - destruct fuel as [|fuel]; [simpl in Hfuel; lia|]. cbn [print_params strip_rule_parameters].
    destruct (rsplit_once comma body) as [[h t]|] eqn:Hr.
    + rewrite (Hstop h t) by done. simpl. by rewrite app_nil_r.
    + by rewrite app_nil_r.
  - apply Forall_app in Hps as [Hps Hp]. rewrite Forall_singleton in Hp.
    destruct fuel as [|fuel]; [lia|].
    destruct (rule_parameter_clean p Hp) as [Hnc Htrim].
    cbn [strip_rule_parameters]. rewrite print_params_snoc.
    rewrite (proj2 (rsplit_once_Some comma _ (print_params body ps) p)) by done.
    rewrite Htrim, Hp. rewrite (proj2 (contains_char_true comma _)) by by apply print_params_comma.
    simpl. rewrite IH; [|done|rewrite length_app in Hfuel; simpl in Hfuel; lia].
    rewrite reverse_snoc, <-app_assoc. done.
Qed.

Lemma print_params_length body ps : (length ps + length body ≤ length (print_params body ps))%nat.
Proof.
  revert body; induction ps as [|p ps IH]; intros body; simpl; [lia|].
  specialize (IH (body ++ comma :: p)). rewrite length_app in IH. simpl in IH. lia.
Qed.

Lemma parse_regex_fields t pay target ps :
  regex_type t = true → pay ≠ [] → trim pay = pay → target ≠ [] → clean target →
  is_rule_parameter target = false → Forall (λ p, is_rule_parameter p = true) ps →
  let rule := print_rule t (print_params (pay ++ comma :: target) ps) in
  parse_rule rule = Ok (MkParsedRule rule t (Some pay) target ps).
Proof.
  intros Ht Hpay Htrim Htarget [Hnc Htt] Hnp Hps rule. subst rule. rewrite parse_rule_print.
  set (rest := print_params (pay ++ comma :: target) ps).
  assert (rsplit_once comma (pay ++ comma :: target) = Some (pay, target)) as Hr
    by by apply rsplit_once_Some.
  assert (parse_regex_rule (print_rule t rest) t rest =
          Ok (MkParsedRule (print_rule t rest) t (Some pay) target ps)) as Hreg.
  { unfold parse_regex_rule. unfold rest at 1 2.
    rewrite strip_rule_parameters_print; [| |intros h u Hh; rewrite Hr in Hh; injection Hh as <- <-; by rewrite Htt|done|].
    - rewrite Hr. cbn [ok_or result_bind fst snd app]. rewrite reverse_involutive, Htrim, Htt.
      by rewrite !required_field_Ok.
    - set_solver.
    - pose proof (print_params_length (pay ++ comma :: target) ps) as Hlen.
      rewrite length_app in Hlen. simpl in Hlen. lia. }
  destruct t; done.
Qed.

(** ** Positions of a rule *)

Lemma elem_of_matching_from index rs target i :
  i ∈ matching_from index rs target ↔
  ∃ n : nat, i = index + Z.of_nat n ∧ rs !! n = Some target.
Proof.
  revert index; induction rs as [|r rs IH]; intros index; simpl.
  - rewrite elem_of_nil. split; [done|]. by intros (n & _ & ?).
  - assert ((∃ n : nat, i = index + 1 + Z.of_nat n ∧ rs !! n = Some target) ↔
            (∃ n : nat, i = index + Z.of_nat (S n) ∧ (r :: rs) !! (S n) = Some target)) as Hshift.
    { split; intros (n & ? & ?); exists n; (split; [lia|done]). }
    case_bool_decide as Hr.
    + rewrite elem_of_cons, IH, Hshift. split.
      * intros [->|(n & ?)]; [exists O; split; [lia|by subst]|eauto].
      * intros ([|n] & Hi & Hn); [left; lia|right; eauto].
    + rewrite IH, Hshift. split; [intros (n & ?); eauto|].
      intros ([|n] & Hi & Hn); [by simplify_eq/=|eauto].
Qed.

Lemma elem_of_matching rs target i :
  i ∈ matching_rule_indexes rs target ↔ ∃ n : nat, i = Z.of_nat n ∧ rs !! n = Some target.
Proof. unfold matching_rule_indexes. rewrite elem_of_matching_from. by setoid_rewrite Z.add_0_l. Qed.

Lemma matching_nil rs target : matching_rule_indexes rs target = [] ↔ target ∉ rs.
Proof.
  rewrite list_elem_of_lookup. split.
  - intros Hnil [n Hn]. assert (Z.of_nat n ∈ matching_rule_indexes rs target) as Hin
      by (apply elem_of_matching; eauto).
    rewrite Hnil in Hin. by apply elem_of_nil in Hin.
  - intros Hno. destruct (matching_rule_indexes rs target) as [|i l] eqn:Hm; [done|].
    exfalso. apply Hno. assert (i ∈ matching_rule_indexes rs target) as Hin
      by (rewrite Hm; apply elem_of_cons; by left).
    apply elem_of_matching in Hin as (n & _ & Hn). eauto.
Qed.

Lemma exact_rule_index_Ok rs target i :
  exact_rule_index rs target = Ok i → ∃ n : nat, i = Z.of_nat n ∧ rs !! n = Some target.
Proof.
  unfold exact_rule_index. destruct (matching_rule_indexes rs target) as [|j [|k l]] eqn:Hm; try done.
  intros; simplify_eq. apply elem_of_matching. rewrite Hm. apply elem_of_cons; by left.
Qed.

Lemma NoDup_matching_from index rs target : NoDup (matching_from index rs target).
Proof.
  revert index; induction rs as [|r rs IH]; intros index; simpl; [constructor|].
  case_bool_decide; [|apply IH]. constructor; [|apply IH].
  rewrite elem_of_matching_from. intros (n & ? & _). lia.
Qed.

(** A rule that occurs once is found at its position. *)
Lemma exact_rule_index_unique rs target n :
  NoDup rs → rs !! n = Some target → exact_rule_index rs target = Ok (Z.of_nat n).
Proof.
  intros Hnd Hn. unfold exact_rule_index.
  assert (∀ i, i ∈ matching_rule_indexes rs target ↔ i = Z.of_nat n) as Hall.
  { intros i. rewrite elem_of_matching. split; [|naive_solver].
    intros (m & -> & Hm). by rewrite (NoDup_lookup rs m n target). }
  destruct (matching_rule_indexes rs target) as [|j [|k l]] eqn:Hm.
  - assert (Z.of_nat n ∈ @nil Z) as Hin by by apply Hall. by apply elem_of_nil in Hin.
  - f_equal. apply Hall. set_solver.
  - pose proof (NoDup_matching_from 0 rs target) as Hnd2.
    unfold matching_rule_indexes in Hm. rewrite Hm in Hnd2.
    apply NoDup_cons in Hnd2 as [Hj _]. exfalso. apply Hj.
    rewrite (proj1 (Hall j)) by set_solver. rewrite <-(proj1 (Hall k)) by set_solver. set_solver.
Qed.

Lemma placement_index_bounds rs placement i :
  placement_index rs placement = Ok i → 0 ≤ i ≤ zlen rs.
Proof.
  unfold placement_index, zlen.
  destruct placement as [| |anchor|anchor]; intros H; invert_result; try lia;
    match goal with H : exact_rule_index _ _ = Ok _ |- _ =>
      apply exact_rule_index_Ok in H as (n & -> & Hn) end;
    apply lookup_lt_Some in Hn; lia.
Qed.

(** ** The rule set after an edit *)

Inductive RuleEdit :=
| EditAdd (rule : RuleString) (placement : RulePlacement)
| EditReplace (old_rule new_rule : RuleString)
| EditRemove (rule : RuleString).

Definition apply_edit (s : LocalRuleSet) (e : RuleEdit) : LocalRuleSet :=
  match e with
  | EditAdd rule placement => (add s rule placement).2
  | EditReplace old_rule new_rule => (replace s old_rule new_rule).2
  | EditRemove rule => (remove s rule).2
  end.

(** Rules parse, no rule occurs twice, and the revision is a [u64]. *)
Definition rule_set_wf (s : LocalRuleSet) : Prop :=
  in_u64 (revision s) ∧
  match rules s with
  | None => True
  | Some rs => NoDup rs ∧ Forall (λ r, is_ok (parse_rule r) = true) rs
  end.

(** Inversion of the three operations: on success what they did, otherwise the
    set is untouched. *)
Lemma add_inv s rule placement r s' :
  add s rule placement = (r, s') →
  match r with
  | Err _ => s' = s
  | Ok i => ∃ rs, rules s = Some rs ∧ rule ∉ rs ∧ is_ok (parse_rule rule) = true ∧
                  placement_index rs placement = Ok i ∧ revision s + 1 ≤ u64_max ∧
                  s' = MkLocalRuleSet (revision s + 1) (Some (vec_insert rs i rule))
  end.
Proof.
  unfold add. destruct (rules s) as [rs|] eqn:Hrs; [|intros; by simplify_eq].
  case_match eqn:Hout; intros H; simplify_eq; [|done].
  destruct value as [i next]. simplify_eq. invert_result.
  case_bool_decide as Hm; [|discriminate]. apply matching_nil in Hm. simplify_eq/=.
  unfold next_revision in *. destruct (checked_add (revision s) 1) eqn:Hadd; simplify_eq/=.
  apply checked_add_Some in Hadd as [-> ?]. exists rs. split; [done|].
  done.
Qed.

Lemma replace_inv s old_rule new_rule r s' :
  replace s old_rule new_rule = (r, s') →
  match r with
  | Err _ => s' = s
  | Ok i => ∃ rs n, rules s = Some rs ∧ i = Z.of_nat n ∧ rs !! n = Some old_rule ∧
                  is_ok (parse_rule new_rule) = true ∧
                  (∀ m, rs !! m = Some new_rule → m = n) ∧
                  ((old_rule = new_rule ∧ s' = s) ∨
                   (old_rule ≠ new_rule ∧ revision s + 1 ≤ u64_max ∧
                    s' = MkLocalRuleSet (revision s + 1) (Some (<[n := new_rule]> rs))))
  end.
Proof.
  unfold replace. destruct (rules s) as [rs|] eqn:Hrs; [|intros; by simplify_eq].
  case_match eqn:Hout; intros H; simplify_eq; [|done].
  destruct value as [i s2]. simplify_eq. invert_result.
  match goal with H : exact_rule_index _ _ = Ok _ |- _ =>
    apply exact_rule_index_Ok in H as (n & -> & Hn) end.
  case_bool_decide as Hm; [|discriminate]. simplify_eq/=.
  assert (∀ m, rs !! m = Some new_rule → m = n) as Huniq.
  { intros m Hmm. destruct (decide (m = n)) as [|Hne]; [done|]. exfalso.
    assert (Z.of_nat m ∈ filter (λ k, k ≠ Z.of_nat n) (matching_rule_indexes rs new_rule)) as Hin.
    { apply list_elem_of_filter. split; [lia|]. apply elem_of_matching. eauto. }
    rewrite Hm in Hin. by apply elem_of_nil in Hin. }
  rewrite Nat2Z.id in *. case_bool_decide as Hsame.
  - simplify_eq. exists rs, n. repeat (split; [done|]). left. by simplify_eq.
  - unfold next_revision in *. destruct (checked_add (revision s) 1) eqn:Hadd; simplify_eq/=.
    apply checked_add_Some in Hadd as [-> ?]. exists rs, n. repeat (split; [done|]).
    right. split; [congruence|done].
Qed.

Lemma remove_inv s rule r s' :
  remove s rule = (r, s') →
  match r with
  | Err _ => s' = s
  | Ok removed => ∃ rs n, rules s = Some rs ∧ rs !! n = Some rule ∧ removed = rule ∧
                  revision s + 1 ≤ u64_max ∧
                  s' = MkLocalRuleSet (revision s + 1) (Some (vec_remove rs (Z.of_nat n)))
  end.
Proof.
  unfold remove. destruct (rules s) as [rs|] eqn:Hrs; [|intros; by simplify_eq].
  case_match eqn:Hout; intros H; simplify_eq; [|done].
  destruct value as [rem s2]. simplify_eq. invert_result.
  match goal with H : exact_rule_index _ _ = Ok _ |- _ =>
    apply exact_rule_index_Ok in H as (n & -> & Hn) end.
  unfold next_revision in *. destruct (checked_add (revision s) 1) eqn:Hadd; simplify_eq/=.
  apply checked_add_Some in Hadd as [-> ?]. rewrite Nat2Z.id in *. simplify_eq.
  exists rs, n. done.
Qed.

Lemma vec_insert_Permutation {A} (l : list A) i x : vec_insert l i x ≡ₚ x :: l.
Proof. unfold vec_insert. by rewrite <-Permutation_middle, take_drop. Qed.

Lemma vec_remove_Permutation {A} (l : list A) (n : nat) x :
  l !! n = Some x → x :: vec_remove l (Z.of_nat n) ≡ₚ l.
Proof.
  intros Hn. unfold vec_remove. rewrite Nat2Z.id.
  rewrite <-(take_drop_middle l n x Hn) at 3. apply Permutation_middle.
Qed.

Lemma vec_insert_lookup {A} (l : list A) (n : nat) x :
  (n ≤ length l)%nat → vec_insert l (Z.of_nat n) x !! n = Some x.
Proof.
  intros. unfold vec_insert. rewrite Nat2Z.id.
  rewrite lookup_app_r by (rewrite length_take; lia).
  rewrite length_take. by replace (n - n `min` length l)%nat with O by lia.
Qed.

Lemma vec_remove_insert {A} (l : list A) (n : nat) x :
  (n ≤ length l)%nat → vec_remove (vec_insert l (Z.of_nat n) x) (Z.of_nat n) = l.
Proof.
  intros Hn. unfold vec_remove, vec_insert. rewrite !Nat2Z.id.
  rewrite take_app_le by (rewrite length_take; lia). rewrite take_take, Nat.min_id.
  rewrite drop_app_ge by (rewrite length_take; lia). rewrite length_take.
  replace (S n - n `min` length l)%nat with 1%nat by lia. simpl. rewrite drop_0.
  apply take_drop.
Qed.

Lemma NoDup_insert {A} (l : list A) n x :
  NoDup l → (∀ m, l !! m = Some x → m = n) → NoDup (<[n := x]> l).
Proof.
  intros Hnd Huniq. destruct (decide (n < length l)%nat) as [Hlt|Hge];
    [|by rewrite list_insert_ge by lia].
  apply NoDup_alt. intros i j y Hi Hj.
  apply list_lookup_insert_Some in Hi as [(-> & -> & _)|[Hni Hi]];
    apply list_lookup_insert_Some in Hj as [(-> & ? & _)|[Hnj Hj]]; simplify_eq; try done.
  - symmetry. by apply Huniq.
  - by apply Huniq.
  - by eapply NoDup_lookup.
Qed.

(** An edit that replaced the rules by other well-formed ones. *)
Lemma edit_changed s rs rs' :
  in_u64 (revision s) → rules s = Some rs → revision s + 1 ≤ u64_max → rs' ≠ rs →
  NoDup rs' → Forall (λ r, is_ok (parse_rule r) = true) rs' →
  let s' := MkLocalRuleSet (revision s + 1) (Some rs') in
  rule_set_wf s' ∧ (rules s' = rules s → s' = s) ∧
  (rules s' ≠ rules s → revision s' = revision s + 1).
Proof.
  intros [? ?] Hrs Hmax Hne Hnd Hall. unfold rule_set_wf, in_u64; simpl. rewrite Hrs.
  split; [by split; [lia|]|]. split; [congruence|done].
Qed.

(** ** Properties *)

(** [RuleType::parse] and [RuleType::as_str] are inverse: a text parses to a
    rule type exactly when it is the name of that type. *)
Theorem rule_type_round_trip v t : RuleType_parse v = Ok t ↔ RuleType_as_str t = v.
Proof. split; [apply RuleType_parse_Ok|]. intros <-. apply RuleType_parse_as_str. Qed.



(** The byte offset [logical_payload_end] returns is a character boundary
    just after a closing parenthesis, so the two slices [parse_logical_rule]
    takes of the remainder are in range and together are the remainder. *)
Theorem logical_payload_end_boundary s n :
  logical_payload_end s = Some n →
  ∃ p q, split_at_byte n s = (p ++ [paren_close], q) ∧ s = (p ++ [paren_close]) ++ q ∧
         n = str_len (p ++ [paren_close]) ∧ 0 < n ≤ str_len s.
Proof.
  intros Hend. destruct (logical_payload_split s n Hend) as (p & q & Hs & Hsp).
  apply logical_scan_boundary in Hend as (p' & q' & Hs' & Hn).
  assert (split_at_byte n s = (p' ++ [paren_close], q')) as Hsp'.
  { rewrite Hn, Hs', Z.add_0_l.
    replace (p' ++ paren_close :: q') with ((p' ++ [paren_close]) ++ q') by by rewrite <-app_assoc.
    apply split_at_byte_app. }
  exists p', q'. split; [done|]. split; [by rewrite <-app_assoc|]. split; [lia|].
  rewrite Hn, Hs', !str_len_app. cbn [str_len]. pose proof (char_len_utf8_bounds paren_close).
  pose proof (str_len_nonneg p'); pose proof (str_len_nonneg q'). lia.
Qed.

Lemma logical_payload_end_boundary_witness :
  logical_payload_end (lit "(a[)]b),X") = Some 7 ∧
  ∃ p q, split_at_byte 7 (lit "(a[)]b),X") = (p ++ [paren_close], q) ∧
         lit "(a[)]b),X" = (p ++ [paren_close]) ++ q ∧
         7 = str_len (p ++ [paren_close]) ∧ 0 < 7 ≤ str_len (lit "(a[)]b),X").
Proof.
  split; [reflexivity|]. apply (logical_payload_end_boundary (lit "(a[)]b),X") 7). reflexivity.
Defined.

(** every edit (add, replace or remove, whether it succeeds or fails) keeps
    the Local Rule Set well formed (all rules parse, no rule occurs twice, the
    revision is a [u64]), and the revision moves by exactly one when the rules
    change and stays when they do not. *)
Theorem rule_edit_preserves_wf s e :
  rule_set_wf s →
  rule_set_wf (apply_edit s e) ∧
  (rules (apply_edit s e) = rules s → apply_edit s e = s) ∧
  (rules (apply_edit s e) ≠ rules s → revision (apply_edit s e) = revision s + 1).
Proof.
  intros [Hrev Hwf].
  destruct e as [rule placement|old_rule new_rule|rule]; simpl.
  - destruct (add s rule placement) as [[i|e] s'] eqn:Hadd; apply add_inv in Hadd; simpl; [|by subst].
    destruct Hadd as (rs & Hrs & Hnotin & Hparse & _ & Hmax & ->). rewrite Hrs in Hwf.
    destruct Hwf as [Hnd Hall]. apply (edit_changed s rs); try done.
    + intros Heq. apply (f_equal length) in Heq. rewrite vec_insert_Permutation in Heq. simpl in Heq. lia.
    + rewrite vec_insert_Permutation. by constructor.
    + rewrite vec_insert_Permutation. by constructor.
  - destruct (replace s old_rule new_rule) as [[i|e] s'] eqn:Hrep; apply replace_inv in Hrep; simpl;
      [|by subst].
    destruct Hrep as (rs & n & Hrs & -> & Hn & Hparse & Huniq & [[_ ->]|(Hne & Hmax & ->)]); [done|].
    rewrite Hrs in Hwf. destruct Hwf as [Hnd Hall]. apply (edit_changed s rs); try done.
    + intros Heq. apply (f_equal (λ l, l !! n)) in Heq.
      rewrite list_lookup_insert_eq in Heq by by eapply lookup_lt_Some. congruence.
    + by apply NoDup_insert.
    + by apply Forall_insert.
  - destruct (remove s rule) as [[r|e] s'] eqn:Hrem; apply remove_inv in Hrem; simpl; [|by subst].
    destruct Hrem as (rs & n & Hrs & Hn & -> & Hmax & ->). rewrite Hrs in Hwf.
    pose proof (vec_remove_Permutation rs n rule Hn) as Hperm.
    destruct Hwf as [Hnd Hall]. rewrite <-Hperm in Hnd, Hall. apply (edit_changed s rs); try done.
    + intros Heq. apply (f_equal length) in Heq. apply Permutation_length in Hperm. simpl in Hperm. lia.
    + by inversion_clear Hnd.
    + by inversion_clear Hall.
Qed.

(** Two valid rules, and a set that holds them. *)
Definition sample_rules : list RuleString := [lit "DOMAIN,a.example,DIRECT"; lit "MATCH,PROXY"].
Definition sample_set : LocalRuleSet := initialized_at sample_rules 7.

Lemma sample_set_wf : rule_set_wf sample_set.
Proof.
  split; [done|]. split; [by apply (bool_decide_unpack _)|].
  repeat constructor; reflexivity.
Qed.

Lemma rule_edit_preserves_wf_witness :
  let e := EditAdd (lit "DST-PORT,22,DIRECT") (Before (lit "MATCH,PROXY")) in
  rules (apply_edit sample_set e) =
    Some [lit "DOMAIN,a.example,DIRECT"; lit "DST-PORT,22,DIRECT"; lit "MATCH,PROXY"] ∧
  rule_set_wf (apply_edit sample_set e) ∧
  (rules (apply_edit sample_set e) = rules sample_set → apply_edit sample_set e = sample_set) ∧
  (rules (apply_edit sample_set e) ≠ rules sample_set →
   revision (apply_edit sample_set e) = revision sample_set + 1).
Proof. split; [reflexivity|]. apply rule_edit_preserves_wf, sample_set_wf. Defined.

(** a successful [add] puts the rule at the index it returns and nowhere
    else, keeps the order of the other rules, and the index is the one the
    placement asks for: first, last, just before or just after the anchor. *)
Theorem add_places_rule s rs rule placement i s' :
  rules s = Some rs → add s rule placement = (Ok i, s') →
  ∃ (n : nat) rs',
    i = Z.of_nat n ∧ rules s' = Some rs' ∧ rs' !! n = Some rule ∧ vec_remove rs' i = rs ∧
    match placement with
    | Prepend => n = O
    | Append => n = length rs
    | Before anchor => rs' !! S n = Some anchor
    | After anchor => ∃ m, n = S m ∧ rs' !! m = Some anchor
    end.
Proof.
  intros Hrs Hadd. apply add_inv in Hadd as (rs0 & Hrs0 & _ & _ & Hplace & _ & ->).
  simplify_eq. pose proof (placement_index_bounds _ _ _ Hplace) as Hb. unfold zlen in Hb.
  exists (Z.to_nat i), (vec_insert rs i rule). rewrite Z2Nat.id by lia. split; [done|]. split; [done|].
  rewrite <-(Z2Nat.id i) by lia. rewrite Nat2Z.id.
  split; [apply vec_insert_lookup; lia|]. split; [apply vec_remove_insert; lia|].
  destruct placement as [| |anchor|anchor]; simpl in Hplace; unfold zlen in *;
    invert_result; try lia;
    match goal with H : exact_rule_index _ _ = Ok _ |- _ =>
      apply exact_rule_index_Ok in H as (n & -> & Hn) end;
    pose proof (lookup_lt_Some _ _ _ Hn); unfold vec_insert; rewrite !Nat2Z.id.
  - rewrite lookup_app_r by (rewrite length_take; lia). rewrite length_take.
    replace (S n - n `min` length rs)%nat with 1%nat by lia. simpl. rewrite lookup_drop.
    by rewrite Nat.add_0_r.
  - replace (Z.to_nat (Z.of_nat n + 1)) with (S n) by lia. exists n. split; [done|].
    rewrite lookup_app_l by (rewrite length_take; lia). by rewrite lookup_take_lt by lia.
Qed.

Lemma add_places_rule_witness :
  (add sample_set (lit "DST-PORT,22,DIRECT") (After (lit "DOMAIN,a.example,DIRECT"))).1 = Ok 1 ∧
  ∃ (n : nat) rs',
    1 = Z.of_nat n ∧
    rules (apply_edit sample_set (EditAdd (lit "DST-PORT,22,DIRECT")
                                    (After (lit "DOMAIN,a.example,DIRECT")))) = Some rs' ∧
    rs' !! n = Some (lit "DST-PORT,22,DIRECT") ∧ vec_remove rs' 1 = sample_rules ∧
    ∃ m, n = S m ∧ rs' !! m = Some (lit "DOMAIN,a.example,DIRECT").
Proof.
  split; [reflexivity|].
  apply (add_places_rule sample_set sample_rules (lit "DST-PORT,22,DIRECT")
           (After (lit "DOMAIN,a.example,DIRECT")) 1
           (apply_edit sample_set (EditAdd (lit "DST-PORT,22,DIRECT")
                                     (After (lit "DOMAIN,a.example,DIRECT"))))).
  - reflexivity.
  - vm_compute. reflexivity.
Defined.

(** [remove] undoes [add]: after a successful [add], removing the same rule
    succeeds, returns it, and leaves the rules as they were. *)
Theorem remove_undoes_add s rule placement i s' :
  rule_set_wf s → add s rule placement = (Ok i, s') → revision s' < u64_max →
  ∃ s'', remove s' rule = (Ok rule, s'') ∧ rules s'' = rules s ∧ revision s'' = revision s' + 1.
Proof.
  intros [Hrev Hwf] Hadd Hmax. apply add_inv in Hadd as (rs & Hrs & Hnotin & _ & Hplace & _ & ->).
  rewrite Hrs in Hwf. destruct Hwf as [Hnd _].
  pose proof (placement_index_bounds _ _ _ Hplace) as Hb. unfold zlen in Hb.
  rewrite <-(Z2Nat.id i) by lia. set (n := Z.to_nat i). simpl in Hmax.
  unfold remove. simpl.
  rewrite (exact_rule_index_unique _ _ n).
  - simpl. unfold next_revision. rewrite (proj2 (checked_add_Some _ 1 _)) by (split; [done|lia]).
    simpl. rewrite Nat2Z.id, vec_insert_lookup by (subst n; lia). simpl. eexists. split; [done|].
    simpl. rewrite vec_remove_insert by (subst n; lia). by rewrite Hrs.
  - rewrite vec_insert_Permutation. by constructor.
  - apply vec_insert_lookup. subst n. lia.
Qed.

Lemma remove_undoes_add_witness :
  ∃ s'', remove (apply_edit sample_set (EditAdd (lit "MATCH,DIRECT") Append)) (lit "MATCH,DIRECT")
         = (Ok (lit "MATCH,DIRECT"), s'') ∧ rules s'' = rules sample_set ∧
         revision s'' = revision (apply_edit sample_set (EditAdd (lit "MATCH,DIRECT") Append)) + 1.
Proof.
  apply (remove_undoes_add sample_set (lit "MATCH,DIRECT") Append 2).
  - apply sample_set_wf.
  - vm_compute. reflexivity.
  - vm_compute. reflexivity.
Defined.

(** Pages are slices of the full listing: whatever the offset and the
    limit, [list_page] succeeds when [list] does and returns the entries
    [offset .. offset + limit) of it, with their absolute indexes. *)
Theorem list_page_slice s full offset limit :
  list_rules s = Ok full → in_u64 offset → in_u64 limit →
  zlen (default [] (rules s)) ≤ usize_max →
  ∃ page, list_page s offset limit = Ok page ∧ page_offset page = offset ∧
    page_initialized page = list_initialized full ∧
    page_total page = zlen (list_entries full) ∧
    page_entries page = take (Z.to_nat limit) (drop (Z.to_nat offset) (list_entries full)).
Proof.
  unfold list_rules, list_page. destruct (rules s) as [rs|] eqn:Hrs; simpl.
  2: { intros ? _ _ _. simplify_eq/=. eexists. split; [done|].
       repeat (split; [done|]). simpl. by rewrite drop_nil, take_nil. }
  intros Hfull [Ho1 Ho2] [Hl1 Hl2] Hlen. invert_result. simpl.
  assert (get_range rs 0 (Z.min (saturating_add 0 usize_max) (zlen rs)) = rs) as Hall.
  { rewrite get_range_page by u64_lia. rewrite drop_0. apply take_ge. u64_lia. }
  match goal with H : collect _ _ = Ok _ |- _ => rewrite Hall in H; unfold collect in H;
    apply collect_from_Ok in H as [Hlen' Hentries] end.
  set (stop := Z.min (saturating_add offset limit) (zlen rs)).
  assert (get_range rs offset stop = take (Z.to_nat limit) (drop (Z.to_nat offset) rs)) as Hslice.
  { apply get_range_page; u64_lia. }
  rewrite Hslice. unfold collect.
  eexists. split.
  - rewrite (proj2 (collect_from_Ok _ _ _ (take (Z.to_nat limit) (drop (Z.to_nat offset) value0)))).
    + reflexivity.
    + rewrite !length_take, !length_drop, Hlen'. split; [done|].
      intros i x Hx. apply lookup_take_Some in Hx as [Hx Hi]. rewrite lookup_drop in Hx.
      destruct (Hentries _ _ Hx) as (y & Hy & Hf). exists y.
      rewrite lookup_take_lt, lookup_drop by lia. split; [done|].
      rewrite <-Hf. replace (offset + (0 + Z.of_nat i)) with (0 + (0 + Z.of_nat (Z.to_nat offset + i))) by lia.
      done.
  - simpl. unfold zlen. rewrite Hlen'. done.
Qed.

Lemma list_page_slice_witness :
  match list_rules sample_set with
  | Ok full =>
      length (list_entries full) = 2%nat ∧
      ∃ page, list_page sample_set 1 128 = Ok page ∧ page_offset page = 1 ∧
        page_initialized page = list_initialized full ∧
        page_total page = zlen (list_entries full) ∧
        page_entries page = take (Z.to_nat 128) (drop (Z.to_nat 1) (list_entries full))
  | Err _ => False
  end.
Proof.
  destruct (list_rules sample_set) as [full|] eqn:Hfull; [|vm_compute in Hfull; discriminate].
  split; [vm_compute in Hfull; injection Hfull as <-; reflexivity|].
  apply (list_page_slice sample_set full 1 128); done.
Defined.

Section document.
Context (yaml_from_str : str → result (list str) str)
        (yaml_to_string : list str → result str str).

(** What a document must satisfy, and what it yields. *)
Lemma from_yaml_Ok document rev limits s :
  from_yaml yaml_from_str document rev limits = Ok s ↔
  ∃ rs, yaml_from_str document = Ok rs ∧ s = initialized_at rs rev ∧
    str_len document ≤ max_document_bytes limits ∧ zlen rs ≤ max_rule_count limits ∧
    Forall (λ r, str_len r ≤ max_rule_bytes limits ∧ is_ok (parse_rule r) = true) rs.
Proof.
  unfold from_yaml, collect.
  assert (∀ i r, (let? rule := map_err (DocInvalidRuleString i)
                                 (RuleString_new r (max_rule_bytes limits)) in
                  guard? map_err (DocInvalidRule i) (parse_rule rule) in Ok rule)
                 = Ok r ↔ str_len r ≤ max_rule_bytes limits ∧ is_ok (parse_rule r) = true) as Hf.
  { intros i r. unfold RuleString_new. destruct (Z.ltb_spec (max_rule_bytes limits) (str_len r)); simpl.
    - split; [done|lia].
    - destruct (parse_rule r); simpl; naive_solver. }
  split.
  - destruct (Z.ltb_spec (max_document_bytes limits) (str_len document)); [done|].
    intros Hok. invert_result.
    destruct (Z.ltb_spec (max_rule_count limits) (zlen value)); [done|]. invert_result.
    match goal with H : collect_from _ _ _ = Ok ?l |- _ =>
      apply collect_from_Ok in H as [Hlen Hall]; assert (l = value) as -> end.
    { apply (list_eq_same_length _ _ (length value)); [done|done|].
      intros i y x Hi Hy Hx. destruct (Hall _ _ Hx) as (z & Hz & Hfz).
      rewrite Hz in Hy. injection Hy as ->. invert_result.
      unfold RuleString_new in *. by case_match; simplify_eq. }
    exists value. repeat (split; [done|]). apply Forall_lookup. intros i x Hx.
    destruct (Hall _ _ Hx) as (z & Hz & Hfz). rewrite Hx in Hz. injection Hz as <-. by eapply Hf.
  - intros (rs & Hy & -> & Hd & Hc & Hall).
    destruct (Z.ltb_spec (max_document_bytes limits) (str_len document)); [lia|].
    rewrite Hy. simpl. destruct (Z.ltb_spec (max_rule_count limits) (zlen rs)); [lia|].
    rewrite (proj2 (collect_from_Ok _ _ _ rs)); [done|]. split; [done|].
    intros i x Hx. exists x. split; [done|]. apply Hf. rewrite Forall_lookup in Hall. eauto.
Qed.

(** a rule document round-trips: what [to_yaml] writes for a Local Rule Set
    within the limits, [from_yaml] reads back as the same set, given that the
    YAML library reads back the sequences of strings it writes. *)
Theorem rule_document_round_trip s rs document limits :
  (∀ values text, yaml_to_string values = Ok text → yaml_from_str text = Ok values) →
  rules s = Some rs → rule_set_wf s →
  Forall (λ r, str_len r ≤ max_rule_bytes limits) rs → zlen rs ≤ max_rule_count limits →
  to_yaml yaml_to_string s = Ok document → str_len document ≤ max_document_bytes limits →
  from_yaml yaml_from_str document (revision s) limits = Ok s.
Proof.
  intros Hyaml Hrs [_ Hwf] Hbytes Hcount Hto Hdoc. rewrite Hrs in Hwf. destruct Hwf as [_ Hparse].
  unfold to_yaml in Hto. rewrite Hrs in Hto. simpl in Hto.
  destruct (yaml_to_string rs) as [text|] eqn:Htext; simplify_eq/=.
  apply from_yaml_Ok. exists rs. split; [by apply Hyaml|].
  split; [destruct s; simpl in *; by subst|]. repeat (split; [done|]).
  rewrite Forall_forall in *. intros r Hr. split; [by apply Hbytes|by apply Hparse].
Qed.

End document.

(** A YAML library that knows one document. *)
Definition sample_yaml_to_string (values : list str) : result str str :=
  if bool_decide (values = sample_rules) then Ok (lit "rules: sample") else Err (lit "unsupported").
Definition sample_yaml_from_str (text : str) : result (list str) str :=
  if bool_decide (text = lit "rules: sample") then Ok sample_rules else Err (lit "unsupported").

Lemma rule_document_round_trip_witness :
  to_yaml sample_yaml_to_string sample_set = Ok (lit "rules: sample") ∧
  from_yaml sample_yaml_from_str (lit "rules: sample") 7 product_limits = Ok sample_set.
Proof.
  split; [reflexivity|].
  apply (rule_document_round_trip sample_yaml_from_str sample_yaml_to_string sample_set sample_rules).
  - intros values text. unfold sample_yaml_to_string. case_bool_decide; [|done].
    intros; simplify_eq. reflexivity.
  - reflexivity.
  - apply sample_set_wf.
  - by apply (bool_decide_unpack _).
  - done.
  - reflexivity.
  - done.
Defined.
