(* ===== verification/Scheduler.v ===== *)
(** * Scheduler: profile refreshes and delay probes (src/scheduler.rs)

    [ProfileRefreshScheduler] decides which profiles are refreshed and
    [ProbeScheduler] which nodes of the active profile are probed.  Operations
    that take [&mut self] return their value and the scheduler after the call;
    times are [u64] milliseconds.  A [ProfileId] is its 128-bit integer, a
    [NodeRecordId] its string. *)

From Stdlib Require Import SpecFloat.
From S2P Require Import Prelude Text Ordered Constants Domain.
Local Open Scope Z_scope.

Definition duration_ms (duration : Z) : Z := Z.min duration u64_max.

Definition next_nonzero (value : Z) : Z :=
  let next := wrapping_add value 1 in
  if next =? 0 then 1 else next.

(** ** Profile refresh scheduling *)

Record RefreshTask := MkRefreshTask {
  rt_attempt_id : Z;
  rt_profile_id : Z;
  rt_profile_revision : Z;
  rt_due_at : Z;
  rt_registration_id : Z;
}.

Record RefreshCompletion := MkRefreshCompletion {
  rc_task : RefreshTask;
  rc_profile_revision : Z;
  rc_completed_at : Z;
}.

Inductive RefreshCompletionStatus :=
| RefreshRescheduled (next_refresh_at : Z)
| StaleRevision
| ProfileRemoved
| RefreshUnknownTask.

Record RefreshEntry := MkRefreshEntry {
  re_profile_revision : Z;
  re_due_at : Z;
  re_registration_id : Z;
}.

Record InFlightRefresh := MkInFlightRefresh {
  ifr_attempt_id : Z;
  ifr_registration_id : Z;
}.

Record ProfileRefreshScheduler := MkRefreshScheduler {
  rs_entries : gmap Z RefreshEntry;
  rs_in_flight : gmap Z InFlightRefresh;
  rs_next_attempt_id : Z;
  rs_next_registration_id : Z;
}.

Definition refresh_new : ProfileRefreshScheduler := MkRefreshScheduler ∅ ∅ 1 1.

Definition take_registration_id (s : ProfileRefreshScheduler) : Z * ProfileRefreshScheduler :=
  (rs_next_registration_id s,
   MkRefreshScheduler (rs_entries s) (rs_in_flight s) (rs_next_attempt_id s)
     (next_nonzero (rs_next_registration_id s))).

Definition refresh_take_attempt_id (s : ProfileRefreshScheduler) : Z * ProfileRefreshScheduler :=
  (rs_next_attempt_id s,
   MkRefreshScheduler (rs_entries s) (rs_in_flight s) (next_nonzero (rs_next_attempt_id s))
     (rs_next_registration_id s)).

Definition upsert (s : ProfileRefreshScheduler) (profile_id profile_revision next_refresh_at : Z)
  : ProfileRefreshScheduler :=
  let '(registration_id, s) :=
    match rs_entries s !! profile_id with
    | Some entry => (re_registration_id entry, s)
    | None => take_registration_id s
    end in
  MkRefreshScheduler
    (<[profile_id := MkRefreshEntry profile_revision next_refresh_at registration_id]> (rs_entries s))
    (rs_in_flight s) (rs_next_attempt_id s) (rs_next_registration_id s).

Definition refresh_remove (s : ProfileRefreshScheduler) (profile_id : Z)
  : bool * ProfileRefreshScheduler :=
  (bool_decide (is_Some (rs_entries s !! profile_id)),
   MkRefreshScheduler (delete profile_id (rs_entries s)) (rs_in_flight s)
     (rs_next_attempt_id s) (rs_next_registration_id s)).

(** [Iterator::min] *)
Fixpoint iter_min (l : list Z) : option Z :=
  match l with
  | [] => None
  | x :: l' => Some (match iter_min l' with Some y => Z.min x y | None => x end)
  end.

Definition next_deadline (s : ProfileRefreshScheduler) : option Z :=
  iter_min ((λ p, re_due_at p.2) <$>
            filter (λ p, rs_in_flight s !! p.1 = None) (btree_iter (rs_entries s))).

(** The tuple [take_due] sorts. *)
Definition due_key (p : Z * RefreshEntry) : Z * (Z * (Z * Z)) :=
  (re_due_at p.2, (p.1, (re_profile_revision p.2, re_registration_id p.2))).

Definition due_refreshes (s : ProfileRefreshScheduler) (now : Z) : list (Z * (Z * (Z * Z))) :=
  due_key <$> filter (λ p, re_due_at p.2 ≤ now ∧ rs_in_flight s !! p.1 = None)
                     (btree_iter (rs_entries s)).

(** The closure [take_due] maps over the due profiles, with its mutations. *)
Fixpoint start_refreshes (due : list (Z * (Z * (Z * Z)))) (s : ProfileRefreshScheduler)
  : list RefreshTask * ProfileRefreshScheduler :=
  match due with
  | [] => ([], s)
  | (due_at, (profile_id, (profile_revision, registration_id))) :: due' =>
      let '(attempt_id, s) := refresh_take_attempt_id s in
      let s := MkRefreshScheduler (rs_entries s)
                 (<[profile_id := MkInFlightRefresh attempt_id registration_id]> (rs_in_flight s))
                 (rs_next_attempt_id s) (rs_next_registration_id s) in
      let '(tasks, s) := start_refreshes due' s in
      (MkRefreshTask attempt_id profile_id profile_revision due_at registration_id :: tasks, s)
  end.

Definition refresh_available (s : ProfileRefreshScheduler) : Z :=
  saturating_sub PROFILE_REFRESH_CONCURRENCY (zsize (rs_in_flight s)).

Definition refresh_take_due (s : ProfileRefreshScheduler) (now : Z)
  : list RefreshTask * ProfileRefreshScheduler :=
  start_refreshes (take (Z.to_nat (refresh_available s)) (sort (due_refreshes s now))) s.

Definition refresh_complete (s : ProfileRefreshScheduler) (completion : RefreshCompletion)
  : RefreshCompletionStatus * ProfileRefreshScheduler :=
  let task := rc_task completion in
  match rs_in_flight s !! rt_profile_id task with
  | None => (RefreshUnknownTask, s)
  | Some in_flight =>
      if negb (ifr_attempt_id in_flight =? rt_attempt_id task)
         || negb (ifr_registration_id in_flight =? rt_registration_id task)
      then (RefreshUnknownTask, s)
      else
        let in_flight' := delete (rt_profile_id task) (rs_in_flight s) in
        let s := MkRefreshScheduler (rs_entries s) in_flight' (rs_next_attempt_id s)
                   (rs_next_registration_id s) in
        match rs_entries s !! rt_profile_id task with
        | None => (ProfileRemoved, s)
        | Some entry =>
            if negb (re_registration_id entry =? rt_registration_id task)
               || negb (re_profile_revision entry =? rt_profile_revision task)
            then (StaleRevision, s)
            else
              let next_refresh_at :=
                saturating_add (rc_completed_at completion) (duration_ms PROFILE_REFRESH_INTERVAL) in
              (RefreshRescheduled next_refresh_at,
               MkRefreshScheduler
                 (<[rt_profile_id task :=
                      MkRefreshEntry (rc_profile_revision completion) next_refresh_at
                        (re_registration_id entry)]> (rs_entries s))
                 (rs_in_flight s) (rs_next_attempt_id s) (rs_next_registration_id s))
        end
  end.

(** ** Delay probe scheduling *)

Inductive ProbeOutcome :=
| Success (delay_ms : Z)
| TimedOut
| Unavailable.

Record InFlightProbe := MkInFlightProbe {
  ifp_attempt_id : Z;
  ifp_generation : Z;
}.

Record StoredProbeSample := MkStoredProbeSample {
  sps_outcome : ProbeOutcome;
  sps_sampled_at : Z;
  sps_generation : Z;
}.

Record ProbeTask := MkProbeTask {
  pt_attempt_id : Z;
  pt_generation : Z;
  pt_node_id : str;
  pt_due_at : Z;
}.

Record ProbeCompletion := MkProbeCompletion {
  pc_task : ProbeTask;
  pc_outcome : ProbeOutcome;
  pc_completed_at : Z;
}.

Inductive ProbeCompletionStatus :=
| ProbeRescheduled (next_probe_at : Z)
| LateGeneration
| ProbeUnknownTask.

Inductive ProbeStatus :=
| NotSampled | Queued | InFlight | StatusAvailable | StatusTimedOut | StatusUnavailable.

Record ProbeNodeSnapshot := MkProbeNodeSnapshot {
  pns_node_id : str;
  pns_sample : option LatencySample;
  pns_status : ProbeStatus;
}.

(** [pm_stale_ratio] is an IEEE double. *)
Record ProbeMetrics := MkProbeMetrics {
  pm_generation : option Z;
  pm_active_node_count : Z;
  pm_queue_depth : Z;
  pm_in_flight_count : Z;
  pm_overloaded : bool;
  pm_oldest_due_age_ms : option Z;
  pm_estimated_full_pass_duration_ms : Z;
  pm_stale_node_count : Z;
  pm_stale_ratio : spec_float;
}.

Inductive ProbeResetError :=
| NonIncreasingGeneration
| NodeLimitExceeded (limit actual : Z).

(** A [DueProbe] is the pair of its fields, whose order is the derived one. *)
Record ProbeScheduler := MkProbeScheduler {
  ps_generation : option Z;
  ps_last_generation : option Z;
  ps_active_nodes : gset str;
  ps_queue : gset (Z * str);
  ps_queued_deadlines : gmap str Z;
  ps_in_flight : gmap str InFlightProbe;
  ps_samples : gmap str StoredProbeSample;
  ps_next_attempt_id : Z;
}.

Definition probe_new : ProbeScheduler := MkProbeScheduler None None ∅ ∅ ∅ ∅ ∅ 1.

(** The loop of [reset] that collects the active nodes. *)
Fixpoint collect_nodes (nodes : list str) (active : gset str) : result (gset str) ProbeResetError :=
  match nodes with
  | [] => Ok active
  | node_id :: nodes' =>
      let active := {[node_id]} ∪ active in
      if MAX_ACTIVE_NODES <? zsize active
      then Err (NodeLimitExceeded MAX_ACTIVE_NODES (zsize active))
      else collect_nodes nodes' active
  end.

Definition reset (s : ProbeScheduler) (generation : Z) (nodes : list str) (now : Z)
  : result unit ProbeResetError * ProbeScheduler :=
  if match ps_last_generation s with Some current => generation <=? current | None => false end
  then (Err NonIncreasingGeneration, s)
  else
    match collect_nodes nodes ∅ with
    | Err e => (Err e, s)
    | Ok active =>
        let '(queue, queued_deadlines) :=
          foldl (λ acc node_id, ({[(now, node_id)]} ∪ acc.1, <[node_id := now]> acc.2))
                (∅ : gset (Z * str), ∅ : gmap str Z) (bset_iter active) in
        (Ok tt,
         MkProbeScheduler (Some generation) (Some generation) active queue queued_deadlines ∅ ∅
           (ps_next_attempt_id s))
    end.

Definition deactivate (s : ProbeScheduler) : ProbeScheduler :=
  MkProbeScheduler None (ps_last_generation s) ∅ ∅ ∅ ∅ ∅ (ps_next_attempt_id s).

Definition probe_take_attempt_id (s : ProbeScheduler) : Z * ProbeScheduler :=
  (ps_next_attempt_id s,
   MkProbeScheduler (ps_generation s) (ps_last_generation s) (ps_active_nodes s) (ps_queue s)
     (ps_queued_deadlines s) (ps_in_flight s) (ps_samples s) (next_nonzero (ps_next_attempt_id s))).

(** The body of the loop of [take_due]: [None] is its [break]. *)
Definition take_one (generation now : Z) (s : ProbeScheduler) : option (ProbeTask * ProbeScheduler) :=
  match bset_first (ps_queue s) with
  | Some (due_at, node_id) =>
      if due_at <=? now then
        let s := MkProbeScheduler (ps_generation s) (ps_last_generation s) (ps_active_nodes s)
                   (ps_queue s ∖ {[(due_at, node_id)]}) (delete node_id (ps_queued_deadlines s))
                   (ps_in_flight s) (ps_samples s) (ps_next_attempt_id s) in
        let '(attempt_id, s) := probe_take_attempt_id s in
        let s := MkProbeScheduler (ps_generation s) (ps_last_generation s) (ps_active_nodes s)
                   (ps_queue s) (ps_queued_deadlines s)
                   (<[node_id := MkInFlightProbe attempt_id generation]> (ps_in_flight s))
                   (ps_samples s) (ps_next_attempt_id s) in
        Some (MkProbeTask attempt_id generation node_id due_at, s)
      else None
  | None => None
  end.

(** Each turn of the loop pushes one task or breaks, so [available] turns are
    all the turns there are. *)
Fixpoint take_up_to (available : nat) (generation now : Z) (s : ProbeScheduler)
  : list ProbeTask * ProbeScheduler :=
  match available with
  | O => ([], s)
  | S available' =>
      match take_one generation now s with
      | None => ([], s)
      | Some (task, s) =>
          let '(tasks, s) := take_up_to available' generation now s in
          (task :: tasks, s)
      end
  end.

Definition probe_available (s : ProbeScheduler) : Z :=
  saturating_sub PROBE_WORKER_COUNT (zsize (ps_in_flight s)).

Definition probe_take_due (s : ProbeScheduler) (now : Z) : list ProbeTask * ProbeScheduler :=
  match ps_generation s with
  | None => ([], s)
  | Some generation => take_up_to (Z.to_nat (probe_available s)) generation now s
  end.

Definition schedule (s : ProbeScheduler) (node_id : str) (due_at : Z) : ProbeScheduler :=
  MkProbeScheduler (ps_generation s) (ps_last_generation s) (ps_active_nodes s)
    ({[(due_at, node_id)]} ∪ ps_queue s) (<[node_id := due_at]> (ps_queued_deadlines s))
    (ps_in_flight s) (ps_samples s) (ps_next_attempt_id s).

Definition probe_complete (s : ProbeScheduler) (completion : ProbeCompletion)
  : ProbeCompletionStatus * ProbeScheduler :=
  let task := pc_task completion in
  if negb (bool_decide (ps_generation s = Some (pt_generation task))) then (LateGeneration, s)
  else
    match ps_in_flight s !! pt_node_id task with
    | None => (ProbeUnknownTask, s)
    | Some in_flight =>
        if negb (ifp_attempt_id in_flight =? pt_attempt_id task)
           || negb (ifp_generation in_flight =? pt_generation task)
        then (ProbeUnknownTask, s)
        else
          let s :=
            MkProbeScheduler (ps_generation s) (ps_last_generation s) (ps_active_nodes s)
              (ps_queue s) (ps_queued_deadlines s) (delete (pt_node_id task) (ps_in_flight s))
              (<[pt_node_id task :=
                   MkStoredProbeSample (pc_outcome completion) (pc_completed_at completion)
                     (pt_generation task)]> (ps_samples s))
              (ps_next_attempt_id s) in
          let next_probe_at :=
            saturating_add (pc_completed_at completion) (duration_ms PROBE_INTERVAL) in
          (ProbeRescheduled next_probe_at, schedule s (pt_node_id task) next_probe_at)
    end.

Definition sample_state (sample : StoredProbeSample) (now : Z) : SampleState :=
  match sps_outcome sample with
  | Success _ =>
      let age := saturating_sub now (sps_sampled_at sample) in
      if age <=? duration_ms LATENCY_FRESHNESS then SampleFresh else SampleStale
  | TimedOut | Unavailable => SampleUnavailable
  end.

Definition latency_sample (s : ProbeScheduler) (node_id : str) (now : Z) : option LatencySample :=
  stored ← ps_samples s !! node_id;
  let delay_ms := match sps_outcome stored with
                  | Success delay_ms => Some delay_ms
                  | TimedOut | Unavailable => None
                  end in
  Some (MkLatencySample node_id delay_ms (Some (sps_sampled_at stored)) (sample_state stored now)
          (sps_generation stored)).

Definition probe_status (s : ProbeScheduler) (node_id : str) : ProbeStatus :=
  match ps_in_flight s !! node_id with
  | Some _ => InFlight
  | None =>
      match sps_outcome <$> ps_samples s !! node_id with
      | Some (Success _) => StatusAvailable
      | Some TimedOut => StatusTimedOut
      | Some Unavailable => StatusUnavailable
      | None => match ps_queued_deadlines s !! node_id with
                | Some _ => Queued
                | None => NotSampled
                end
      end
  end.

Definition node_snapshot (s : ProbeScheduler) (node_id : str) (now : Z) : option ProbeNodeSnapshot :=
  if bool_decide (node_id ∈ ps_active_nodes s)
  then Some (MkProbeNodeSnapshot node_id (latency_sample s node_id now) (probe_status s node_id))
  else None.

(** [usize::div_ceil] *)
Definition div_ceil (a b : Z) : Z := (a + b - 1) / b.
Definition batches (item_count worker_count : Z) : Z := Z.min (div_ceil item_count worker_count) u64_max.

Definition is_stale (s : ProbeScheduler) (now : Z) (node_id : str) : bool :=
  match ps_samples s !! node_id with
  | None => true
  | Some sample => negb (bool_decide (sample_state sample now = SampleFresh))
  end.

(** [n as f64] *)
Definition as_f64 (n : Z) : spec_float := binary_normalize 53 1024 n 0 false.

Definition metrics (s : ProbeScheduler) (now : Z) : ProbeMetrics :=
  let active_node_count := zsize (ps_active_nodes s) in
  let oldest_due_age_ms :=
    (λ entry : Z * str, saturating_sub now entry.1) <$> bset_first (ps_queue s) in
  let estimated_full_pass_duration_ms :=
    saturating_mul (batches active_node_count PROBE_WORKER_COUNT) (duration_ms PROBE_TIMEOUT) in
  let stale_count := zlen (filter (λ n, is_stale s now n = true) (bset_iter (ps_active_nodes s))) in
  let stale_ratio := if active_node_count =? 0 then S754_zero false
                     else SFdiv 53 1024 (as_f64 stale_count) (as_f64 active_node_count) in
  let freshness_ms := duration_ms LATENCY_FRESHNESS in
  let overloaded :=
    (0 <? active_node_count)
    && ((freshness_ms <? estimated_full_pass_duration_ms)
        || match oldest_due_age_ms with Some age => freshness_ms <? age | None => false end) in
  MkProbeMetrics (ps_generation s) active_node_count (zsize (ps_queue s)) (zsize (ps_in_flight s))
    overloaded oldest_due_age_ms estimated_full_pass_duration_ms stale_count stale_ratio.

(** ** The probe scheduler: invariant *)

(** Every active node is either queued exactly once or in flight, never both;
    at most [PROBE_WORKER_COUNT] probes run; in-flight probes and stored samples
    belong to the current generation, which is the last one started. *)
Record probe_wf (s : ProbeScheduler) : Prop := {
  wf_queue : ∀ due node, (due, node) ∈ ps_queue s ↔ ps_queued_deadlines s !! node = Some due;
  wf_partition : ps_active_nodes s = dom (ps_queued_deadlines s) ∪ dom (ps_in_flight s);
  wf_disjoint : dom (ps_queued_deadlines s) ## dom (ps_in_flight s);
  wf_workers : zsize (ps_in_flight s) ≤ PROBE_WORKER_COUNT;
  wf_limit : zsize (ps_active_nodes s) ≤ MAX_ACTIVE_NODES;
  wf_in_flight : ∀ node p, ps_in_flight s !! node = Some p → ps_generation s = Some (ifp_generation p);
  wf_samples : ∀ node p, ps_samples s !! node = Some p →
    node ∈ ps_active_nodes s ∧ ps_generation s = Some (sps_generation p);
  wf_generation : ps_generation s = None ∨ ps_generation s = ps_last_generation s;
  wf_inactive : ps_generation s = None → ps_active_nodes s = ∅;
}.

Lemma collect_nodes_Ok nodes active r :
  collect_nodes nodes active = Ok r →
  r = active ∪ list_to_set nodes ∧ (nodes = [] ∨ zsize r ≤ MAX_ACTIVE_NODES).
Proof.
  revert active; induction nodes as [|n nodes IH]; intros active; simpl; intros H.
  - simplify_eq. split; [set_solver|by left].
  - destruct (Z.ltb_spec MAX_ACTIVE_NODES (zsize ({[n]} ∪ active))) as [|Hle]; [done|].
    apply IH in H as [-> Hsize]. split; [set_solver|]. right.
    destruct Hsize as [->|]; [|done]. by replace ({[n]} ∪ active ∪ list_to_set []) with ({[n]} ∪ active) by set_solver.
Qed.

Lemma reset_queue (now : Z) (l : list str) (q : gset (Z * str)) (d : gmap str Z) :
  foldl (λ acc node_id, ({[(now, node_id)]} ∪ acc.1, <[node_id := now]> acc.2)) (q, d) l =
  (q ∪ list_to_set (pair now <$> l), foldl (λ acc node_id, <[node_id := now]> acc) d l).
Proof.
  revert q d; induction l as [|n l IH]; intros q d; csimpl.
  - f_equal; set_solver.
  - rewrite IH. f_equal; set_solver.
Qed.

Lemma reset_deadlines (now : Z) (l : list str) (d : gmap str Z) node :
  foldl (λ acc node_id, <[node_id := now]> acc) d l !! node =
  if decide (node ∈ l) then Some now else d !! node.
Proof.
  revert d; induction l as [|n l IH]; intros d; cbn [foldl].
  - by rewrite decide_False by apply not_elem_of_nil.
  - rewrite IH. destruct (decide (node ∈ l)) as [Hin|Hin].
    + rewrite decide_True; [done|set_solver].
    + destruct (decide (node = n)) as [->|Hne].
      * rewrite decide_True by set_solver. by rewrite lookup_insert_eq.
      * rewrite decide_False by set_solver. by rewrite lookup_insert_ne.
Qed.

Lemma reset_inv s generation nodes now r s' :
  reset s generation nodes now = (r, s') →
  match r with
  | Err _ => s' = s
  | Ok _ =>
      (∀ current, ps_last_generation s = Some current → current < generation) ∧
      ∃ active queue deadlines,
        collect_nodes nodes ∅ = Ok active ∧
        (∀ due node, (due, node) ∈ queue ↔ due = now ∧ node ∈ active) ∧
        (∀ node, deadlines !! node = if decide (node ∈ active) then Some now else None) ∧
        s' = MkProbeScheduler (Some generation) (Some generation) active queue deadlines ∅ ∅
               (ps_next_attempt_id s)
  end.
Proof.
  unfold reset. intros H.
  destruct (match ps_last_generation s with Some current => _ | None => _ end) eqn:Hg;
    [by simplify_eq|].
  destruct (collect_nodes nodes ∅) as [active|e] eqn:Hc; [|by simplify_eq].
  rewrite reset_queue in H. simplify_eq. split.
  { intros current Hl. rewrite Hl in Hg. lia. }
  eexists active, _, _. split; [done|]. split; [|split; [|reflexivity]].
  - intros due node. rewrite elem_of_union, elem_of_list_to_set, list_elem_of_fmap.
    setoid_rewrite elem_of_bset_iter. set_solver.
  - intros node. rewrite reset_deadlines, lookup_empty.
    by apply decide_ext, elem_of_bset_iter.
Qed.

Lemma probe_wf_new : probe_wf probe_new.
Proof. split; simpl; try set_solver; by vm_compute. Qed.

Lemma probe_wf_deactivate s : probe_wf (deactivate s).
Proof. split; simpl; try set_solver; by vm_compute. Qed.

Lemma probe_wf_reset s generation nodes now :
  probe_wf s → probe_wf (reset s generation nodes now).2.
Proof.
  intros Hwf. destruct (reset s generation nodes now) as [r s'] eqn:Hr; simpl.
  apply reset_inv in Hr. destruct r; [|by subst].
  destruct Hr as (_ & active & queue & deadlines & Hc & Hq & Hd & ->).
  apply collect_nodes_Ok in Hc as [Ha Hsize].
  split; simpl; [| | | | | | |by right|done].
  - intros due node. rewrite Hq, Hd. case_decide; naive_solver.
  - apply set_eq. intros node. rewrite dom_empty_L, union_empty_r_L, elem_of_dom, Hd.
    case_decide; [naive_solver|]. split; [done|]. by intros [? ?].
  - set_solver.
  - by vm_compute.
  - destruct Hsize as [->|]; [|done]. rewrite Ha. by vm_compute.
  - intros node p Hp. by rewrite lookup_empty in Hp.
  - intros node p Hp. by rewrite lookup_empty in Hp.
Qed.

Lemma take_one_inv generation now s task s' :
  take_one generation now s = Some (task, s') →
  ∃ due node l, bset_iter (ps_queue s) = (due, node) :: l ∧ due ≤ now ∧
    task = MkProbeTask (ps_next_attempt_id s) generation node due ∧
    s' = MkProbeScheduler (ps_generation s) (ps_last_generation s) (ps_active_nodes s)
           (ps_queue s ∖ {[(due, node)]}) (delete node (ps_queued_deadlines s))
           (<[node := MkInFlightProbe (ps_next_attempt_id s) generation]> (ps_in_flight s))
           (ps_samples s) (next_nonzero (ps_next_attempt_id s)).
Proof.
  unfold take_one, bset_first. destruct (bset_iter (ps_queue s)) as [|[due node] l]; [done|]; simpl.
  destruct (Z.leb_spec due now); [|done]. intros; simplify_eq. by exists due, node, l.
Qed.

Lemma bset_iter_head {K} `{Countable K} `{!Ord K} `{!OrdLaws K} (q : gset K) x l :
  bset_iter q = x :: l → x ∈ q.
Proof. intros Hit. apply elem_of_bset_iter. rewrite Hit. set_solver. Qed.

Lemma probe_wf_take_one generation now s task s' :
  probe_wf s → ps_generation s = Some generation →
  zsize (ps_in_flight s) < PROBE_WORKER_COUNT →
  take_one generation now s = Some (task, s') → probe_wf s'.
Proof.
  intros Hwf Hg Hsize (due & node & l & Hit & Hdue & -> & ->)%take_one_inv.
  apply bset_iter_head in Hit. destruct Hwf as [Hq Hp Hdis Hw Hlim Hif Hsm Hlg Hin].
  pose proof (proj1 (Hq _ _) Hit) as Hn.
  split; simpl; try done.
  - intros d n. rewrite elem_of_difference, Hq, elem_of_singleton.
    destruct (decide (n = node)) as [->|Hne].
    + rewrite lookup_delete_eq, Hn. naive_solver.
    + rewrite lookup_delete_ne by done. naive_solver.
  - rewrite Hp, dom_delete_L, dom_insert_L. apply elem_of_dom_2 in Hn.
    apply set_eq. intros n. destruct (decide (n = node)); set_solver.
  - rewrite dom_delete_L, dom_insert_L. set_solver.
  - unfold zsize in *. rewrite map_size_insert. case_match; simpl; lia.
  - intros n p. rewrite lookup_insert_Some. naive_solver.
Qed.

Lemma take_one_in_flight generation now s task s' :
  probe_wf s → take_one generation now s = Some (task, s') →
  ps_in_flight s !! pt_node_id task = None ∧
  zsize (ps_in_flight s') = zsize (ps_in_flight s) + 1.
Proof.
  intros Hwf (due & node & l & Hit & _ & -> & ->)%take_one_inv; simpl.
  apply bset_iter_head, (wf_queue _ Hwf), elem_of_dom_2 in Hit.
  assert (ps_in_flight s !! node = None) as Hn
    by (apply not_elem_of_dom; pose proof (wf_disjoint _ Hwf); set_solver).
  split; [done|]. unfold zsize. rewrite map_size_insert_None by done. lia.
Qed.

Lemma probe_available_spec s :
  probe_wf s → Z.to_nat (probe_available s) = (16 - size (ps_in_flight s))%nat.
Proof. intros Hwf. pose proof (wf_workers _ Hwf). unfold probe_available, PROBE_WORKER_COUNT in *. u64_lia. Qed.

Lemma take_up_to_wf n generation now s :
  probe_wf s → ps_generation s = Some generation →
  zsize (ps_in_flight s) + Z.of_nat n ≤ PROBE_WORKER_COUNT →
  probe_wf (take_up_to n generation now s).2.
Proof.
  revert s; induction n as [|n IH]; intros s Hwf Hg Hn; simpl; [done|].
  destruct (take_one generation now s) as [[task s1]|] eqn:Hone; [|done].
  specialize (IH s1). destruct (take_up_to n generation now s1) as [tasks s2]; simpl in *.
  pose proof (take_one_in_flight _ _ _ _ _ Hwf Hone) as [_ Hsize].
  apply IH; [eapply probe_wf_take_one; eauto; lia| |lia].
  apply take_one_inv in Hone as (? & ? & ? & _ & _ & _ & ->). done.
Qed.

Lemma probe_wf_take_due s now : probe_wf s → probe_wf (probe_take_due s now).2.
Proof.
  intros Hwf. unfold probe_take_due. destruct (ps_generation s) as [g|] eqn:Hg; [|done].
  apply take_up_to_wf; [done..|]. pose proof (wf_workers _ Hwf).
  rewrite probe_available_spec by done. unfold PROBE_WORKER_COUNT, zsize in *. lia.
Qed.

(** What a completion does, by cases. *)
Lemma probe_complete_inv s c r s' :
  probe_complete s c = (r, s') →
  match r with
  | LateGeneration => s' = s ∧ ps_generation s ≠ Some (pt_generation (pc_task c))
  | ProbeUnknownTask => s' = s
  | ProbeRescheduled next =>
      next = saturating_add (pc_completed_at c) PROBE_INTERVAL ∧
      ps_generation s = Some (pt_generation (pc_task c)) ∧
      ps_in_flight s !! pt_node_id (pc_task c) =
        Some (MkInFlightProbe (pt_attempt_id (pc_task c)) (pt_generation (pc_task c))) ∧
      s' = MkProbeScheduler (ps_generation s) (ps_last_generation s) (ps_active_nodes s)
             ({[(next, pt_node_id (pc_task c))]} ∪ ps_queue s)
             (<[pt_node_id (pc_task c) := next]> (ps_queued_deadlines s))
             (delete (pt_node_id (pc_task c)) (ps_in_flight s))
             (<[pt_node_id (pc_task c) :=
                  MkStoredProbeSample (pc_outcome c) (pc_completed_at c)
                    (pt_generation (pc_task c))]> (ps_samples s))
             (ps_next_attempt_id s)
  end.
Proof.
  unfold probe_complete. case_bool_decide as Hg; simpl; [|intros; by simplify_eq].
  destruct (ps_in_flight s !! _) as [p|] eqn:Hp; [|intros; by simplify_eq].
  destruct (Z.eqb_spec (ifp_attempt_id p) (pt_attempt_id (pc_task c))) as [Ha|]; simpl;
    [|intros; by simplify_eq].
  destruct (Z.eqb_spec (ifp_generation p) (pt_generation (pc_task c))) as [Hgen|]; simpl;
    [|intros; by simplify_eq].
  intros; simplify_eq. split; [done|]. split; [done|]. split; [|done].
  destruct p; simpl in *; congruence.
Qed.

Lemma probe_wf_complete s c : probe_wf s → probe_wf (probe_complete s c).2.
Proof.
  intros Hwf. destruct (probe_complete s c) as [r s'] eqn:Hc; simpl.
  apply probe_complete_inv in Hc. destruct r as [next| |]; [|by destruct Hc as [-> _]|by subst].
  destruct Hc as (_ & Hg & Hn & ->). set (node := pt_node_id (pc_task c)) in *.
  destruct Hwf as [Hq Hp Hdis Hw Hlim Hif Hsm Hlg Hin].
  assert (node ∈ dom (ps_in_flight s)) as Hnode by (by apply elem_of_dom_2 in Hn).
  assert (ps_queued_deadlines s !! node = None) as Hnq
    by (apply not_elem_of_dom; set_solver).
  split; simpl; try done.
  - intros d n. rewrite elem_of_union, elem_of_singleton, Hq, lookup_insert_Some.
    destruct (decide (n = node)) as [->|]; naive_solver.
  - rewrite Hp, dom_insert_L, dom_delete_L. apply set_eq; intros n.
    destruct (decide (n = node)); set_solver.
  - rewrite dom_insert_L, dom_delete_L. set_solver.
  - unfold zsize in *. rewrite map_size_delete. destruct (ps_in_flight s !! node); simpl; lia.
  - intros n p. rewrite lookup_delete_Some. naive_solver.
  - intros n p. rewrite lookup_insert_Some. intros [[<- <-]|[_ H]]; [|eauto].
    split; [set_solver|done].
Qed.

(** ** Executions of the probe scheduler

    [probe_reachable s issued accepted]: [s] is the state after some sequence of
    calls, [issued] the tasks handed out so far and [accepted] the tasks whose
    completion was accepted, in order. *)
Definition probe_accepts (r : ProbeCompletionStatus) : bool :=
  match r with ProbeRescheduled _ => true | _ => false end.

Inductive probe_reachable : ProbeScheduler → list ProbeTask → list ProbeTask → Prop :=
| probe_start : probe_reachable probe_new [] []
| probe_reset s issued accepted generation nodes now :
    probe_reachable s issued accepted →
    probe_reachable (reset s generation nodes now).2 issued accepted
| probe_deactivate s issued accepted :
    probe_reachable s issued accepted → probe_reachable (deactivate s) issued accepted
| probe_take s issued accepted now :
    probe_reachable s issued accepted →
    probe_reachable (probe_take_due s now).2 (issued ++ (probe_take_due s now).1) accepted
| probe_finish s issued accepted c :
    probe_reachable s issued accepted →
    probe_reachable (probe_complete s c).2 issued
      (accepted ++ if probe_accepts (probe_complete s c).1 then [pc_task c] else []).

Lemma probe_reachable_wf s issued accepted : probe_reachable s issued accepted → probe_wf s.
Proof.
  induction 1; auto using probe_wf_new, probe_wf_reset, probe_wf_deactivate, probe_wf_take_due,
    probe_wf_complete.
Qed.

(** ** Attempt identifiers

    [ledger next running accepted dropped issued]: the identifiers handed out
    are 1, 2, ... up to [next - 1], and each is running, accepted or dropped. *)
Definition ledger (next : Z) (running accepted dropped issued : list Z) : Prop :=
  next = 1 + zlen issued ∧ issued = seqZ 1 (zlen issued) ∧ running ++ accepted ++ dropped ≡ₚ issued.

Lemma next_nonzero_succ v : 0 ≤ v < u64_max → next_nonzero v = v + 1.
Proof.
  intros Hv. unfold next_nonzero, wrapping_add. rewrite Z.mod_small by lia.
  destruct (Z.eqb_spec (v + 1) 0); lia.
Qed.

Lemma ledger_issue next running accepted dropped issued running' :
  ledger next running accepted dropped issued → next < u64_max →
  running' ≡ₚ next :: running →
  ledger (next_nonzero next) running' accepted dropped (issued ++ [next]).
Proof.
  intros (Hnext & Hseq & Hperm) Hmax Hrun. pose proof (zlen_nonneg issued).
  split; [|split].
  - rewrite next_nonzero_succ by lia. rewrite zlen_app. unfold zlen at 2; simpl. lia.
  - rewrite zlen_app. unfold zlen at 2. simpl. rewrite seqZ_app by lia. rewrite <-Hseq.
    rewrite Hnext. done.
  - rewrite Hrun. simpl. rewrite Hperm. by rewrite Permutation_app_comm.
Qed.

Lemma ledger_accept next running accepted dropped issued id running' :
  ledger next running accepted dropped issued → running ≡ₚ id :: running' →
  ledger next running' (accepted ++ [id]) dropped issued.
Proof.
  intros (Hnext & Hseq & Hperm) Hrun. split; [done|]. split; [done|].
  rewrite <-Hperm, Hrun. solve_Permutation.
Qed.

Lemma ledger_drop next running accepted dropped issued :
  ledger next running accepted dropped issued →
  ledger next [] accepted (running ++ dropped) issued.
Proof.
  intros (Hnext & Hseq & Hperm). split; [done|]. split; [done|]. rewrite <-Hperm.
  simpl. solve_Permutation.
Qed.

Lemma ledger_NoDup next running accepted dropped issued :
  ledger next running accepted dropped issued → NoDup issued ∧ NoDup (running ++ accepted).
Proof.
  intros (_ & Hseq & Hperm). assert (NoDup issued) as Hnd by (rewrite Hseq; apply NoDup_seqZ).
  split; [done|]. rewrite <-Hperm, app_assoc in Hnd. by apply NoDup_app in Hnd as (? & _).
Qed.

Definition probe_ids (s : ProbeScheduler) : list Z := map_ids ifp_attempt_id (ps_in_flight s).

Lemma take_up_to_ledger n generation now s accepted dropped issued :
  probe_wf s → ps_generation s = Some generation →
  zsize (ps_in_flight s) + Z.of_nat n ≤ PROBE_WORKER_COUNT →
  ledger (ps_next_attempt_id s) (probe_ids s) accepted dropped issued →
  let '(tasks, s') := take_up_to n generation now s in
  zlen (issued ++ (pt_attempt_id <$> tasks)) < u64_max →
  ledger (ps_next_attempt_id s') (probe_ids s') accepted dropped
    (issued ++ (pt_attempt_id <$> tasks)).
Proof.
  revert s issued; induction n as [|n IH]; intros s issued Hwf Hg Hn Hled; simpl.
  { intros _. by rewrite app_nil_r. }
  destruct (take_one generation now s) as [[task s1]|] eqn:Hone;
    [|intros _; csimpl; by rewrite app_nil_r].
  specialize (IH s1 (issued ++ [pt_attempt_id task])).
  pose proof (take_one_in_flight _ _ _ _ _ Hwf Hone) as [Hfree Hsize].
  assert (probe_wf s1) as Hwf1 by (eapply probe_wf_take_one; eauto; lia).
  apply take_one_inv in Hone as (due & node & l & _ & _ & -> & ->); csimpl.
  destruct (take_up_to n generation now _) as [tasks s2] eqn:Htake; csimpl.
  rewrite cons_middle, app_assoc. intros Hmax.
  apply IH; [done..|simpl in *; lia| |done].
  destruct Hled as (Hnext & Hled). simpl in *. eapply ledger_issue; [by split| |].
  - rewrite !zlen_app in Hmax. unfold zlen at 2 in Hmax. simpl in Hmax.
    pose proof (zlen_nonneg (pt_attempt_id <$> tasks)). lia.
  - by apply (map_ids_insert ifp_attempt_id).
Qed.

Definition task_key (t : ProbeTask) : Z * str := (pt_due_at t, pt_node_id t).

Lemma due_filter_nil (now due : Z) (node : str) l :
  StronglySorted ord_le ((due, node) :: l) → now < due →
  filter (λ e : Z * str, e.1 ≤ now) ((due, node) :: l) = [].
Proof.
  intros Hs Hlt. rewrite filter_cons_False by (simpl; lia).
  apply filter_none. intros [d n] Hin.
  pose proof (StronglySorted_cons_le _ _ Hs _ Hin) as Hle. simpl.
  unfold ord_le, ord_leb, ord_prod in Hle. simpl in Hle.
  unfold ord_leb, ord_Z in Hle. destruct (Z.leb_spec due d); [lia|done].
Qed.

Lemma take_up_to_keys n generation now s :
  task_key <$> (take_up_to n generation now s).1 =
    take n (filter (λ e, e.1 ≤ now) (bset_iter (ps_queue s))).
Proof.
  revert s; induction n as [|n IH]; intros s; simpl; [done|].
  destruct (take_one generation now s) as [[task s1]|] eqn:Hone.
  - specialize (IH s1). destruct (take_up_to n generation now s1) as [tasks s2]; csimpl in *.
    apply take_one_inv in Hone as (due & node & l & Hit & Hle & -> & ->).
    rewrite Hit, filter_cons_True by done. simpl. rewrite IH. simpl.
    by rewrite (bset_iter_remove_first _ _ _ Hit).
  - unfold take_one, bset_first in Hone. csimpl.
    pose proof (bset_iter_sorted (ps_queue s)) as Hs.
    destruct (bset_iter (ps_queue s)) as [|[due node] l]; [by destruct n|]. simpl in Hone.
    destruct (Z.leb_spec due now); [done|]. by rewrite due_filter_nil.
Qed.

(** What the tasks and the state after [take_up_to] have to do with each other. *)
Lemma take_up_to_state n generation now s :
  probe_wf s →
  let '(tasks, s') := take_up_to n generation now s in
  ps_queue s' = ps_queue s ∖ list_to_set (task_key <$> tasks) ∧
  ps_samples s' = ps_samples s ∧ ps_active_nodes s' = ps_active_nodes s ∧
  ps_last_generation s' = ps_last_generation s ∧ ps_generation s' = ps_generation s ∧
  Forall (λ t, pt_generation t = generation) tasks.
Proof.
  intros _. revert s; induction n as [|n IH]; intros s; simpl; [set_solver|].
  destruct (take_one generation now s) as [[task s1]|] eqn:Hone; [|set_solver].
  specialize (IH s1). destruct (take_up_to n generation now s1) as [tasks s2].
  apply take_one_inv in Hone as (due & node & l & Hit & Hle & -> & ->). simpl in *.
  destruct IH as (-> & -> & -> & -> & -> & Hall).
  repeat split; [set_solver|]. by constructor.
Qed.

Lemma probe_reachable_ledger s issued accepted :
  probe_reachable s issued accepted → zlen issued < u64_max →
  ∃ dropped, ledger (ps_next_attempt_id s) (probe_ids s) (pt_attempt_id <$> accepted) dropped
               (pt_attempt_id <$> issued).
Proof.
  induction 1 as [|s issued accepted g nodes now Hr IH|s issued accepted Hr IH
                  |s issued accepted now Hr IH|s issued accepted c Hr IH]; intros Hmax.
  - exists []. split; [done|]. split; [done|]. unfold probe_ids. simpl. by rewrite map_ids_empty.
  - destruct IH as [dropped IH]; [done|]. destruct (reset s g nodes now) as [r s'] eqn:Hreset.
    apply reset_inv in Hreset. destruct r; [|subst; by exists dropped].
    destruct Hreset as (_ & ? & ? & ? & _ & _ & _ & ->). apply ledger_drop in IH.
    unfold probe_ids. simpl. rewrite map_ids_empty. eauto.
  - destruct IH as [dropped IH]; [done|]. apply ledger_drop in IH.
    unfold probe_ids. simpl. rewrite map_ids_empty. eauto.
  - pose proof (probe_reachable_wf _ _ _ Hr) as Hwf.
    destruct IH as [dropped IH]; [rewrite zlen_app in Hmax; pose proof (zlen_nonneg (probe_take_due s now).1); lia|].
    exists dropped. revert Hmax. unfold probe_take_due.
    destruct (ps_generation s) as [g|] eqn:Hg; [|intros _; simpl; by rewrite app_nil_r].
    assert (zsize (ps_in_flight s) + Z.of_nat (Z.to_nat (probe_available s)) ≤ PROBE_WORKER_COUNT)
      as Hfit by (rewrite probe_available_spec by done; pose proof (wf_workers _ Hwf);
                  unfold PROBE_WORKER_COUNT, zsize in *; lia).
    pose proof (take_up_to_ledger _ g now s _ _ _ Hwf Hg Hfit IH) as Hled.
    destruct (take_up_to _ _ _ _) as [tasks s']; simpl. intros Hmax.
    rewrite fmap_app. apply Hled. rewrite <-fmap_app. unfold zlen in *. by rewrite length_fmap.
  - destruct IH as [dropped IH]; [done|]. exists dropped.
    destruct (probe_complete s c) as [r s'] eqn:Hc; simpl. apply probe_complete_inv in Hc.
    destruct r; simpl; rewrite ?app_nil_r; [|by destruct Hc as [-> _]|by subst].
    destruct Hc as (_ & _ & Hin & ->). rewrite fmap_app. simpl.
    eapply ledger_accept; [done|]. by apply (map_ids_delete ifp_attempt_id) in Hin.
Qed.

(** Tasks that were handed out belong to a generation that was started. *)
Lemma probe_reachable_generations s issued accepted t :
  probe_reachable s issued accepted → t ∈ issued →
  ∃ last, ps_last_generation s = Some last ∧ pt_generation t ≤ last.
Proof.
  induction 1 as [|s issued accepted g nodes now Hr IH|s issued accepted Hr IH
                  |s issued accepted now Hr IH|s issued accepted c Hr IH]; intros Ht.
  - by apply elem_of_nil in Ht.
  - destruct (IH Ht) as (last & Hlast & Hle).
    destruct (reset s g nodes now) as [r s'] eqn:Hreset.
    apply reset_inv in Hreset. destruct r; [|subst; by exists last].
    destruct Hreset as (Hlt & ? & ? & ? & _ & _ & _ & ->). simpl.
    exists g. split; [done|]. specialize (Hlt _ Hlast). lia.
  - by apply IH.
  - pose proof (probe_reachable_wf _ _ _ Hr) as Hwf. revert Ht.
    unfold probe_take_due. destruct (ps_generation s) as [g|] eqn:Hg;
      [|simpl; rewrite app_nil_r; apply IH].
    pose proof (take_up_to_state (Z.to_nat (probe_available s)) g now s Hwf) as Hst.
    destruct (take_up_to _ _ _ _) as [tasks s']; simpl in *.
    destruct Hst as (_ & _ & _ & -> & _ & Hall). rewrite elem_of_app. intros [Ht|Ht]; [auto|].
    rewrite Forall_forall in Hall. rewrite (Hall t Ht).
    destruct (wf_generation _ Hwf) as [|Heq]; [congruence|].
    exists g. split; [congruence|lia].
  - destruct (IH Ht) as (last & Hlast & Hle). exists last. split; [|done].
    destruct (probe_complete s c) as [r s'] eqn:Hc; simpl. apply probe_complete_inv in Hc.
    destruct r; [by destruct Hc as (_ & _ & _ & ->)|by destruct Hc as [-> _]|by subst].
Qed.

Lemma probe_exactly_once_aux s issued accepted c :
  probe_reachable s issued accepted → probe_accepts (probe_complete s c).1 = true →
  ∃ t, t ∈ issued ∧ pt_attempt_id t = pt_attempt_id (pc_task c) ∧
       pt_generation t = pt_generation (pc_task c) ∧ pt_node_id t = pt_node_id (pc_task c).
Proof.
  intros Hr Hacc. destruct (probe_complete s c) as [r s'] eqn:Hc.
  apply probe_complete_inv in Hc. destruct r; try done. simpl in Hacc.
  destruct Hc as (_ & _ & Hin & _). clear Hacc s' next_probe_at. revert Hin.
  generalize (pt_node_id (pc_task c)) as node, (pt_attempt_id (pc_task c)) as attempt,
    (pt_generation (pc_task c)) as generation.
  clear c. induction Hr as [|s issued accepted g nodes now Hr IH|s issued accepted Hr IH
                  |s issued accepted now Hr IH|s issued accepted c Hr IH]; intros node attempt generation Hin.
  - simpl in Hin; by rewrite lookup_empty in Hin.
  - destruct (reset s g nodes now) as [r s'] eqn:Hreset.
    apply reset_inv in Hreset. destruct r; [|subst; by apply IH].
    destruct Hreset as (_ & ? & ? & ? & _ & _ & _ & ->). simpl in Hin; by rewrite lookup_empty in Hin.
  - simpl in Hin; by rewrite lookup_empty in Hin.
  - revert Hin. unfold probe_take_due. destruct (ps_generation s) as [g|];
      [|simpl; rewrite app_nil_r; apply IH].
    generalize (Z.to_nat (probe_available s)) as n. intros n. clear Hr. revert s issued IH.
    induction n as [|n IHn]; intros s issued IH; simpl; [rewrite app_nil_r; apply IH|].
    destruct (take_one g now s) as [[task s1]|] eqn:Hone; [|simpl; rewrite app_nil_r; apply IH].
    specialize (IHn s1 (issued ++ [task])).
    destruct (take_up_to n g now s1) as [tasks s2]; simpl in *.
    rewrite cons_middle, app_assoc. apply IHn. intros node' attempt' gen'.
    apply take_one_inv in Hone as (due & nd & l & _ & _ & -> & ->). simpl.
    rewrite lookup_insert_Some. intros [[<- Heq]|[_ Hin]].
    + injection Heq as <- <-. eexists. rewrite elem_of_app, list_elem_of_singleton. eauto.
    + destruct (IH _ _ _ Hin) as (t & Ht & ?). exists t. set_solver.
  - destruct (probe_complete s c) as [r s'] eqn:Hc; simpl in *. apply probe_complete_inv in Hc.
    destruct r; [|by destruct Hc as [-> _]; apply IH|by subst; apply IH].
    destruct Hc as (_ & _ & _ & ->). simpl in Hin. apply lookup_delete_Some in Hin as [_ Hin].
    by apply IH.
Qed.

Lemma estimated_pass n :
  0 ≤ n ≤ MAX_ACTIVE_NODES →
  LATENCY_FRESHNESS < saturating_mul (batches n PROBE_WORKER_COUNT) (duration_ms PROBE_TIMEOUT) ↔
  1920 < n.
Proof.
  unfold MAX_ACTIVE_NODES, LATENCY_FRESHNESS, PROBE_WORKER_COUNT, PROBE_TIMEOUT, duration_ms,
    batches, div_ceil, saturating_mul. intros Hn.
  pose proof (Z.div_mod (n + 16 - 1) 16 ltac:(lia)). pose proof (Z.mod_pos_bound (n + 16 - 1) 16 ltac:(lia)).
  lia.
Qed.

Lemma is_stale_false s now node :
  is_stale s now node = false ↔
  ∃ delay at_ms g, ps_samples s !! node = Some (MkStoredProbeSample (Success delay) at_ms g) ∧
                   now ≤ at_ms + LATENCY_FRESHNESS.
Proof.
  unfold is_stale. destruct (ps_samples s !! node) as [[o t g]|]; [|naive_solver].
  rewrite negb_false_iff, bool_decide_eq_true. unfold sample_state; simpl.
  destruct o as [delay| |]; [|naive_solver..].
  unfold LATENCY_FRESHNESS, duration_ms, saturating_sub.
  match goal with |- context [Z.leb ?a ?b] => destruct (Z.leb_spec a b) end;
    split; try done; intros; naive_solver lia.
Qed.

Lemma metrics_overloaded_iff s now :
  probe_wf s →
  pm_overloaded (metrics s now) = true ↔
    1920 < zsize (ps_active_nodes s) ∨
    ∃ node due, ps_queued_deadlines s !! node = Some due ∧ due + LATENCY_FRESHNESS < now.
Proof.
  intros Hwf. simpl.
  assert (0 ≤ zsize (ps_active_nodes s) ≤ MAX_ACTIVE_NODES) as Hlim
    by (split; [unfold zsize; lia|apply (wf_limit _ Hwf)]).
  pose proof (estimated_pass _ Hlim) as Hest.
  rewrite andb_true_iff, orb_true_iff, Z.ltb_lt.
  change (duration_ms LATENCY_FRESHNESS) with LATENCY_FRESHNESS. rewrite Z.ltb_lt, Hest.
  assert (∀ node due, ps_queued_deadlines s !! node = Some due → 0 < zsize (ps_active_nodes s)) as Hpos.
  { intros node due Hd%elem_of_dom_2. unfold zsize.
    assert (size (ps_active_nodes s) ≠ 0%nat); [|lia]. intros Hz%size_empty_inv.
    rewrite (wf_partition _ Hwf) in Hz. set_solver. }
  destruct (bset_first (ps_queue s)) as [[due node]|] eqn:Hf; simpl.
  - apply bset_first_Some in Hf as [Hin Hmin]. pose proof (proj1 (wf_queue _ Hwf _ _) Hin) as Hnode.
    rewrite Z.ltb_lt. split.
    + intros [_ [?|Hage]]; [by left|right]. exists node, due. split; [done|].
      unfold LATENCY_FRESHNESS, saturating_sub in *. lia.
    + intros [?|(n & d & Hd & Hlt)]; [split; [lia|by left]|].
      split; [by eapply Hpos|]. right. specialize (Hmin (d, n) (proj2 (wf_queue _ Hwf _ _) Hd)).
      unfold ord_le, ord_leb, ord_prod in Hmin. simpl in Hmin. unfold ord_leb, ord_Z in Hmin.
      unfold LATENCY_FRESHNESS, saturating_sub in *. destruct (Z.leb_spec due d); [lia|done].
  - apply bset_first_None in Hf. split; [intros [_ [?|?]]; [by left|done]|].
    intros [?|(n & d & Hd & _)]; [split; [lia|by left]|].
    apply (wf_queue _ Hwf) in Hd. set_solver.
Qed.

(** ** Properties of the probe scheduler *)

(** Whatever sequence of calls is made on a new [ProbeScheduler], every
    active node is queued exactly once (the queue and the deadline index agree)
    or in flight and never both, at most [PROBE_WORKER_COUNT] probes run, and
    running probes and stored samples belong to the current generation. *)
Theorem probe_reachable_invariant s issued accepted :
  probe_reachable s issued accepted → probe_wf s.
Proof. apply probe_reachable_wf. Qed.

Definition sample_probe_ops : ProbeScheduler :=
  (probe_take_due (reset probe_new 4 [lit "node-b"; lit "node-a"] 1000).2 2000).2.

Lemma sample_probe_reachable :
  probe_reachable sample_probe_ops
    [MkProbeTask 1 4 (lit "node-a") 1000; MkProbeTask 2 4 (lit "node-b") 1000] [].
Proof.
  pose proof (probe_take _ _ _ 2000 (probe_reset _ _ _ 4 [lit "node-b"; lit "node-a"] 1000 probe_start)) as H.
  unfold sample_probe_ops. revert H.
  replace ([] ++ (probe_take_due (reset probe_new 4 [lit "node-b"; lit "node-a"] 1000).2 2000).1)
    with [MkProbeTask 1 4 (lit "node-a") 1000; MkProbeTask 2 4 (lit "node-b") 1000]; [done|].
  by vm_compute.
Qed.

Lemma probe_reachable_invariant_witness :
  ps_generation sample_probe_ops = Some 4 ∧ probe_wf sample_probe_ops.
Proof.
  split; [by vm_compute|]. exact (probe_reachable_invariant _ _ _ sample_probe_reachable).
Defined.

(** [ProbeScheduler::take_due] starts the probes that are due, the earliest
    deadline (then the smallest node id) first, as many as there are free
    workers, and moves exactly these from the queue to the in-flight table. *)
Theorem probe_take_due_earliest s generation now :
  probe_wf s → ps_generation s = Some generation →
  let '(tasks, s') := probe_take_due s now in
  task_key <$> tasks =
    take (16 - size (ps_in_flight s)) (filter (λ e, e.1 ≤ now) (bset_iter (ps_queue s))) ∧
  ps_queue s' = ps_queue s ∖ list_to_set (task_key <$> tasks) ∧
  ps_active_nodes s' = ps_active_nodes s ∧ ps_samples s' = ps_samples s ∧
  Forall (λ t, pt_generation t = generation) tasks ∧ probe_wf s'.
Proof.
  intros Hwf Hg. pose proof (probe_wf_take_due s now Hwf) as Hwf'. revert Hwf'.
  unfold probe_take_due. rewrite Hg. rewrite probe_available_spec by done.
  pose proof (take_up_to_keys (16 - size (ps_in_flight s)) generation now s) as Hkeys.
  pose proof (take_up_to_state (16 - size (ps_in_flight s)) generation now s Hwf) as Hst.
  destruct (take_up_to _ _ _ _) as [tasks s']. simpl in *.
  destruct Hst as (? & ? & ? & _ & _ & ?). done.
Qed.

Lemma probe_take_due_earliest_witness :
  let '(tasks, s') :=
    probe_take_due (reset probe_new 4 [lit "node-b"; lit "node-a"] 1000).2 1000 in
  task_key <$> tasks = [(1000, lit "node-a"); (1000, lit "node-b")] ∧ probe_wf s'.
Proof.
  pose proof (probe_take_due_earliest (reset probe_new 4 [lit "node-b"; lit "node-a"] 1000).2 4 1000
    (probe_wf_reset _ _ _ _ probe_wf_new) eq_refl) as H.
  destruct (probe_take_due _ _) as [tasks s'] eqn:Htake.
  destruct H as (_ & _ & _ & _ & _ & Hwf). split; [|done].
  assert (tasks = (tasks, s').1) as -> by done. rewrite <-Htake. by vm_compute.
Defined.

(** Every probe is completed at most once, and only if it was handed out:
    in an execution that hands out fewer than 2^64 - 1 tasks, no two tasks share
    an attempt id, no two accepted completions do, and no accepted task is
    still running; a completion accepted next has the attempt id, generation
    and node of a task that was handed out. *)
Theorem probe_completes_once s issued accepted :
  probe_reachable s issued accepted → zlen issued < u64_max →
  NoDup (pt_attempt_id <$> issued) ∧
  NoDup (probe_ids s ++ (pt_attempt_id <$> accepted)) ∧
  ∀ c, probe_accepts (probe_complete s c).1 = true →
    pt_attempt_id (pc_task c) ∉ pt_attempt_id <$> accepted ∧
    ∃ t, t ∈ issued ∧ pt_attempt_id t = pt_attempt_id (pc_task c) ∧
         pt_generation t = pt_generation (pc_task c) ∧ pt_node_id t = pt_node_id (pc_task c).
Proof.
  intros Hr Hmax. destruct (probe_reachable_ledger _ _ _ Hr Hmax) as [dropped Hled].
  apply ledger_NoDup in Hled as [Hissued Hrun]. split; [done|]. split; [done|].
  intros c Hacc. split; [|by eapply probe_exactly_once_aux].
  destruct (probe_complete s c) as [r s'] eqn:Hc. apply probe_complete_inv in Hc.
  destruct r; try done. destruct Hc as (_ & _ & Hin & _).
  apply NoDup_app in Hrun as (_ & Hdis & _). apply Hdis. unfold probe_ids.
  rewrite (map_ids_delete ifp_attempt_id _ _ _ Hin). set_solver.
Qed.

Lemma probe_completes_once_witness :
  NoDup (probe_ids sample_probe_ops) ∧
  probe_accepts (probe_complete sample_probe_ops
    (MkProbeCompletion (MkProbeTask 1 4 (lit "node-a") 1000) (Success 25) 2500)).1 = true.
Proof.
  split; [|by vm_compute].
  destruct (probe_completes_once _ _ _ sample_probe_reachable ltac:(by vm_compute)) as (_ & H & _).
  by apply NoDup_app in H as (H & _ & _).
Defined.

(** After a successful [reset] every task handed out before is late: its
    completion is answered [LateGeneration] and changes nothing. *)
Theorem reset_makes_tasks_late s issued accepted generation nodes now s' c :
  probe_reachable s issued accepted →
  reset s generation nodes now = (Ok tt, s') →
  pc_task c ∈ issued →
  probe_complete s' c = (LateGeneration, s').
Proof.
  intros Hr Hreset Hin. apply (probe_reachable_generations _ _ _ _ Hr) in Hin as (last & Hlast & Hle).
  apply reset_inv in Hreset as (Hlt & ? & ? & ? & _ & _ & _ & ->). specialize (Hlt _ Hlast).
  unfold probe_complete. simpl. rewrite bool_decide_eq_false_2; [done|]. intros [=]. lia.
Qed.

Lemma reset_makes_tasks_late_witness :
  let s' := (reset sample_probe_ops 5 [lit "node-a"] 3000).2 in
  probe_complete s' (MkProbeCompletion (MkProbeTask 1 4 (lit "node-a") 1000) TimedOut 3100)
    = (LateGeneration, s').
Proof.
  refine (reset_makes_tasks_late _ _ _ 5 [lit "node-a"] 3000 _ _ sample_probe_reachable _ _).
  - destruct (reset sample_probe_ops 5 [lit "node-a"] 3000) as [r s'] eqn:Hr. simpl.
    replace r with (Ok tt : result unit ProbeResetError); [done|].
    assert (r = (r, s').1) as -> by done. rewrite <-Hr. by vm_compute.
  - simpl. set_solver.
Defined.

(** [ProbeScheduler::metrics] reports overload exactly when there are more
    active nodes than 16 workers can probe within the freshness window, or some
    queued probe is overdue by more than that window; and it counts no stale
    node exactly when every active node has a successful sample within it. *)
Theorem metrics_overload s now :
  probe_wf s →
  (pm_overloaded (metrics s now) = true ↔
     1920 < zsize (ps_active_nodes s) ∨
     ∃ node due, ps_queued_deadlines s !! node = Some due ∧ due + LATENCY_FRESHNESS < now) ∧
  (pm_stale_node_count (metrics s now) = 0 ↔
     ∀ node, node ∈ ps_active_nodes s →
       ∃ delay at_ms g, ps_samples s !! node = Some (MkStoredProbeSample (Success delay) at_ms g) ∧
                        now ≤ at_ms + LATENCY_FRESHNESS).
Proof.
  intros Hwf. split; [by apply metrics_overloaded_iff|]. simpl. split.
  - intros Hz node Hin. apply is_stale_false.
    destruct (is_stale s now node) eqn:Hst; [|done]. exfalso.
    assert (node ∈ filter (λ n, is_stale s now n = true) (bset_iter (ps_active_nodes s))) as Hf
      by (apply list_elem_of_filter; by rewrite elem_of_bset_iter).
    rewrite (nil_length_inv (filter _ _)) in Hf; [by apply elem_of_nil in Hf|].
    unfold zlen in Hz. lia.
  - intros Hall. rewrite filter_none; [done|]. intros n Hn%elem_of_bset_iter.
    apply Hall, is_stale_false in Hn. congruence.
Qed.

Lemma metrics_overload_witness :
  pm_overloaded (metrics sample_probe_ops 2000) = false ∧
  pm_stale_node_count (metrics sample_probe_ops 2000) = 2 ∧
  (pm_overloaded (metrics sample_probe_ops 2000) = true ↔
     1920 < zsize (ps_active_nodes sample_probe_ops) ∨
     ∃ node due, ps_queued_deadlines sample_probe_ops !! node = Some due ∧
                 due + LATENCY_FRESHNESS < 2000).
Proof.
  split; [by vm_compute|]. split; [by vm_compute|].
  apply (metrics_overload sample_probe_ops 2000).
  exact (probe_reachable_wf _ _ _ sample_probe_reachable).
Defined.

(** ** The refresh scheduler *)

Definition refresh_key (t : RefreshTask) : Z * (Z * (Z * Z)) :=
  (rt_due_at t, (rt_profile_id t, (rt_profile_revision t, rt_registration_id t))).

Definition refresh_ids (s : ProfileRefreshScheduler) : list Z := map_ids ifr_attempt_id (rs_in_flight s).

Definition idle_due (s : ProfileRefreshScheduler) (now profile : Z) (e : RefreshEntry) : Prop :=
  rs_entries s !! profile = Some e ∧ re_due_at e ≤ now ∧ rs_in_flight s !! profile = None.

Lemma elem_of_due_refreshes s now k :
  k ∈ due_refreshes s now ↔ ∃ profile e, k = due_key (profile, e) ∧ idle_due s now profile e.
Proof.
  unfold due_refreshes, idle_due. rewrite list_elem_of_fmap. split.
  - intros ([p e] & -> & Hin). apply list_elem_of_filter in Hin as [[? ?] Hin].
    apply elem_of_btree_iter in Hin. exists p, e. done.
  - intros (p & e & -> & He & ? & ?). exists (p, e). split; [done|].
    apply list_elem_of_filter. by rewrite elem_of_btree_iter.
Qed.

Lemma NoDup_due_profiles s now : NoDup ((λ k, k.2.1) <$> due_refreshes s now).
Proof.
  unfold due_refreshes. rewrite <-list_fmap_compose.
  apply (NoDup_fmap_filter (λ p : Z * RefreshEntry, p.1)). apply NoDup_btree_keys.
Qed.

Definition started (s : ProfileRefreshScheduler) (now : Z) : list (Z * (Z * (Z * Z))) :=
  take (Z.to_nat (refresh_available s)) (sort (due_refreshes s now)).

Lemma NoDup_started s now : NoDup ((λ k, k.2.1) <$> started s now).
Proof.
  unfold started. rewrite fmap_take. eapply sublist_NoDup; [|apply sublist_take].
  rewrite sort_Permutation. apply NoDup_due_profiles.
Qed.

Lemma elem_of_started s now k : k ∈ started s now → k ∈ due_refreshes s now.
Proof. intros Hk%elem_of_take. destruct Hk as (i & Hk & _). apply list_elem_of_lookup_2 in Hk.
  by rewrite sort_Permutation in Hk. Qed.

Lemma start_refreshes_spec due s accepted dropped issued :
  NoDup ((λ k, k.2.1) <$> due) → (∀ k, k ∈ due → rs_in_flight s !! k.2.1 = None) →
  let '(tasks, s') := start_refreshes due s in
  refresh_key <$> tasks = due ∧ rs_entries s' = rs_entries s ∧
  size (rs_in_flight s') = (size (rs_in_flight s) + length due)%nat ∧
  (ledger (rs_next_attempt_id s) (refresh_ids s) accepted dropped issued →
   zlen (issued ++ (rt_attempt_id <$> tasks)) < u64_max →
   ledger (rs_next_attempt_id s') (refresh_ids s') accepted dropped
     (issued ++ (rt_attempt_id <$> tasks))).
Proof.
  revert s issued; induction due as [|[d [p [rev reg]]] due IH]; intros s issued Hnd Hfree; csimpl.
  { rewrite app_nil_r, Nat.add_0_r. done. }
  csimpl in Hnd. apply NoDup_cons in Hnd as [Hp Hnd].
  assert (rs_in_flight s !! p = None) as Hpf by (apply (Hfree (d, (p, (rev, reg)))); set_solver).
  match goal with |- context [start_refreshes due ?s1] =>
    specialize (IH s1 (issued ++ [rs_next_attempt_id s]) Hnd);
    destruct (start_refreshes due s1) as [tasks s'] end.
  destruct IH as (<- & Hent & Hsize & Hled).
  { intros k Hk. simpl. rewrite lookup_insert_ne; [apply Hfree; set_solver|].
    intros ->. apply Hp. apply list_elem_of_fmap. eauto. }
  csimpl in *. split; [done|]. split; [done|]. split.
  { rewrite Hsize, map_size_insert_None by done. lia. }
  rewrite cons_middle, app_assoc. intros Hl Hmax. apply Hled; [|done].
  destruct Hl as (Hnext & Hl). eapply ledger_issue; [by split| |].
  - rewrite !zlen_app in Hmax. unfold zlen at 2 in Hmax. simpl in Hmax.
    pose proof (zlen_nonneg (rt_attempt_id <$> tasks)). lia.
  - by apply (map_ids_insert ifr_attempt_id).
Qed.

Lemma refresh_take_due_spec s now accepted dropped issued :
  let '(tasks, s') := refresh_take_due s now in
  refresh_key <$> tasks = started s now ∧ rs_entries s' = rs_entries s ∧
  size (rs_in_flight s') = (size (rs_in_flight s) + length tasks)%nat ∧
  (ledger (rs_next_attempt_id s) (refresh_ids s) accepted dropped issued →
   zlen (issued ++ (rt_attempt_id <$> tasks)) < u64_max →
   ledger (rs_next_attempt_id s') (refresh_ids s') accepted dropped
     (issued ++ (rt_attempt_id <$> tasks))).
Proof.
  unfold refresh_take_due. fold (started s now).
  pose proof (start_refreshes_spec (started s now) s accepted dropped issued) as H.
  destruct (start_refreshes (started s now) s) as [tasks s'].
  destruct H as (Hkeys & Hent & Hsize & Hled).
  - apply NoDup_started.
  - intros k (p & e & -> & _ & _ & ?)%elem_of_started%elem_of_due_refreshes. done.
  - rewrite <-Hkeys, length_fmap in Hsize. done.
Qed.

Definition refresh_accepts (r : RefreshCompletionStatus) : bool :=
  match r with RefreshUnknownTask => false | _ => true end.

(** States of the refresh scheduler, with the tasks handed out and the tasks
    whose completion was accepted. *)
Inductive refresh_reachable : ProfileRefreshScheduler → list RefreshTask → list RefreshTask → Prop :=
| refresh_start : refresh_reachable refresh_new [] []
| refresh_upsert s issued accepted profile revision due :
    refresh_reachable s issued accepted →
    refresh_reachable (upsert s profile revision due) issued accepted
| refresh_removed s issued accepted profile :
    refresh_reachable s issued accepted →
    refresh_reachable (refresh_remove s profile).2 issued accepted
| refresh_take s issued accepted now :
    refresh_reachable s issued accepted →
    refresh_reachable (refresh_take_due s now).2 (issued ++ (refresh_take_due s now).1) accepted
| refresh_finish s issued accepted c :
    refresh_reachable s issued accepted →
    refresh_reachable (refresh_complete s c).2 issued
      (accepted ++ if refresh_accepts (refresh_complete s c).1 then [rc_task c] else []).

Lemma upsert_inv s profile revision due :
  rs_in_flight (upsert s profile revision due) = rs_in_flight s ∧
  rs_next_attempt_id (upsert s profile revision due) = rs_next_attempt_id s.
Proof. unfold upsert, take_registration_id. by destruct (rs_entries s !! profile). Qed.

Lemma refresh_complete_inv s c r s' :
  refresh_complete s c = (r, s') →
  if refresh_accepts r then
    rs_in_flight s !! rt_profile_id (rc_task c) =
      Some (MkInFlightRefresh (rt_attempt_id (rc_task c)) (rt_registration_id (rc_task c))) ∧
    rs_in_flight s' = delete (rt_profile_id (rc_task c)) (rs_in_flight s) ∧
    rs_next_attempt_id s' = rs_next_attempt_id s
  else s' = s.
Proof.
  unfold refresh_complete.
  destruct (rs_in_flight s !! _) as [[a g]|] eqn:Hp; simpl; [|intros; by simplify_eq].
  destruct (Z.eqb_spec a (rt_attempt_id (rc_task c))) as [->|]; simpl; [|intros; by simplify_eq].
  destruct (Z.eqb_spec g (rt_registration_id (rc_task c))) as [->|]; simpl; [|intros; by simplify_eq].
  destruct (rs_entries s !! _) as [e|]; [|intros; by simplify_eq].
  destruct (_ || _); intros; by simplify_eq.
Qed.

Lemma refresh_reachable_slots s issued accepted :
  refresh_reachable s issued accepted → zsize (rs_in_flight s) ≤ PROFILE_REFRESH_CONCURRENCY.
Proof.
  induction 1 as [|s ?? p rev due Hr IH|s ?? p Hr IH|s issued accepted now Hr IH|s ?? c Hr IH].
  - by vm_compute.
  - by rewrite (proj1 (upsert_inv s p rev due)).
  - done.
  - pose proof (refresh_take_due_spec s now [] [] []) as H.
    destruct (refresh_take_due s now) as [tasks s']. destruct H as (Hkeys & _ & Hsize & _).
    apply (f_equal length) in Hkeys. rewrite length_fmap in Hkeys. unfold started in Hkeys.
    rewrite length_take in Hkeys. simpl. unfold refresh_available, PROFILE_REFRESH_CONCURRENCY in *.
    u64_lia.
  - destruct (refresh_complete s c) as [r s'] eqn:Hc. apply refresh_complete_inv in Hc. simpl.
    destruct (refresh_accepts r); [|by subst]. destruct Hc as (_ & -> & _).
    unfold zsize in *. rewrite map_size_delete. destruct (_ !! _); simpl; lia.
Qed.

Lemma refresh_reachable_ledger s issued accepted :
  refresh_reachable s issued accepted → zlen issued < u64_max →
  ledger (rs_next_attempt_id s) (refresh_ids s) (rt_attempt_id <$> accepted) []
    (rt_attempt_id <$> issued).
Proof.
  induction 1 as [|s ?? p rev due Hr IH|s ?? p Hr IH|s issued accepted now Hr IH|s ?? c Hr IH];
    intros Hmax.
  - split; [done|]. split; [done|]. unfold refresh_ids. simpl. by rewrite map_ids_empty.
  - unfold refresh_ids. destruct (upsert_inv s p rev due) as [-> ->]. by apply IH.
  - by apply IH.
  - pose proof (refresh_take_due_spec s now (rt_attempt_id <$> accepted) []
                  (rt_attempt_id <$> issued)) as H.
    destruct (refresh_take_due s now) as [tasks s']. destruct H as (_ & _ & _ & Hled).
    simpl in *. rewrite fmap_app. rewrite zlen_app in Hmax. pose proof (zlen_nonneg tasks).
    apply Hled; [apply IH; lia|]. rewrite <-fmap_app. unfold zlen in *. rewrite length_fmap, length_app. lia.
  - destruct (refresh_complete s c) as [r s'] eqn:Hc. apply refresh_complete_inv in Hc. simpl.
    destruct (refresh_accepts r); [|subst; rewrite app_nil_r; by apply IH].
    destruct Hc as (Hin & Hifl & ->). unfold refresh_ids. rewrite Hifl, fmap_app. simpl.
    eapply ledger_accept; [by apply IH|]. by apply (map_ids_delete ifr_attempt_id) in Hin.
Qed.

Lemma sorted_take {A} `{OrdLaws A} (l : list A) n x :
  StronglySorted ord_le l → x ∈ l →
  x ∈ take n l ∨ length (take n l) = n ∧ ∀ y, y ∈ take n l → ord_le y x.
Proof.
  revert n; induction l as [|a l IH]; intros n Hs Hx; [by apply elem_of_nil in Hx|].
  destruct n as [|n]; [right; split; [done|]; intros y Hy; by apply elem_of_nil in Hy|].
  pose proof (StronglySorted_inv Hs) as [Hs' _]. simpl.
  apply elem_of_cons in Hx as [->|Hx]; [left; set_solver|].
  destruct (IH n Hs' Hx) as [?|[Hlen Hle]]; [left; set_solver|].
  right. split; [lia|]. intros y [->|Hy]%elem_of_cons; [|auto].
  by eapply StronglySorted_cons_le.
Qed.

Lemma iter_min_spec l :
  match iter_min l with
  | None => l = []
  | Some m => m ∈ l ∧ ∀ x, x ∈ l → m ≤ x
  end.
Proof.
  induction l as [|x l IH]; simpl; [done|]. destruct (iter_min l) as [m|].
  - destruct IH as [Hin Hle]. split.
    + destruct (Z.min_spec x m) as [[_ ->]|[_ ->]]; set_solver.
    + intros y [->|Hy]%elem_of_cons; [lia|]. specialize (Hle y Hy). lia.
  - subst. split; [set_solver|]. intros y Hy%list_elem_of_singleton. lia.
Qed.

Lemma take_due_nonempty s now :
  zsize (rs_in_flight s) < PROFILE_REFRESH_CONCURRENCY →
  (refresh_take_due s now).1 ≠ [] ↔ ∃ p e, idle_due s now p e.
Proof.
  intros Hfree. pose proof (refresh_take_due_spec s now [] [] []) as H.
  destruct (refresh_take_due s now) as [tasks s']. destruct H as (Hkeys & _). simpl.
  pose proof (elem_of_due_refreshes s now) as Hdue.
  pose proof (sort_Permutation (due_refreshes s now)) as Hp. unfold started in Hkeys.
  assert (Z.to_nat (refresh_available s) ≠ 0%nat) as Hav
    by (unfold refresh_available, PROFILE_REFRESH_CONCURRENCY in *; u64_lia).
  destruct (Z.to_nat (refresh_available s)) as [|n]; [done|]. split.
  - intros Hne. destruct (sort (due_refreshes s now)) as [|k l]; [by destruct tasks|].
    destruct (proj1 (Hdue k)) as (p & e & _ & ?); [rewrite <-Hp; set_solver|eauto].
  - intros (p & e & Hidle) ->. assert (due_key (p, e) ∈ due_refreshes s now) as Hin by (apply Hdue; eauto).
    rewrite <-Hp in Hin. destruct (sort (due_refreshes s now)); [by apply elem_of_nil in Hin|done].
Qed.

Lemma next_deadline_spec s :
  let idle p e := rs_entries s !! p = Some e ∧ rs_in_flight s !! p = None in
  match next_deadline s with
  | None => ∀ p e, ¬ idle p e
  | Some d => (∃ p e, d = re_due_at e ∧ idle p e) ∧ ∀ p e, idle p e → d ≤ re_due_at e
  end.
Proof.
  simpl. unfold next_deadline.
  assert (∀ d, d ∈ (λ p, re_due_at p.2) <$> filter (λ p, rs_in_flight s !! p.1 = None)
    (btree_iter (rs_entries s)) ↔ ∃ p e, d = re_due_at e ∧ rs_entries s !! p = Some e ∧
      rs_in_flight s !! p = None) as Hin.
  { intros d. rewrite list_elem_of_fmap. setoid_rewrite list_elem_of_filter. split.
    - intros ([p e] & -> & ? & Hpe%elem_of_btree_iter). eauto.
    - intros (p & e & -> & ? & ?). exists (p, e). by rewrite elem_of_btree_iter. }
  revert Hin. generalize ((λ p, re_due_at p.2) <$> filter (λ p, rs_in_flight s !! p.1 = None)
    (btree_iter (rs_entries s))) as l. intros l Hin.
  pose proof (iter_min_spec l) as Hmin. destruct (iter_min l) as [m|].
  - destruct Hmin as [Hm Hle]. split; [by apply Hin|].
    intros p e [? ?]. apply Hle, Hin. eauto.
  - subst. intros p e [? ?]. apply (not_elem_of_nil (re_due_at e)), Hin. eauto.
Qed.

(** ** Properties of the refresh scheduler *)

(** [ProfileRefreshScheduler::take_due] starts only profiles that are due
    and idle, each once, never exceeds [PROFILE_REFRESH_CONCURRENCY], and leaves
    a due and idle profile waiting only when all slots are taken by refreshes
    that were due before it. *)
Theorem refresh_take_due_earliest s issued accepted now :
  refresh_reachable s issued accepted →
  let '(tasks, s') := refresh_take_due s now in
  rs_entries s' = rs_entries s ∧ NoDup (rt_profile_id <$> tasks) ∧
  zsize (rs_in_flight s') = zsize (rs_in_flight s) + zlen tasks ∧
  zsize (rs_in_flight s') ≤ PROFILE_REFRESH_CONCURRENCY ∧
  (∀ t, t ∈ tasks → idle_due s now (rt_profile_id t)
     (MkRefreshEntry (rt_profile_revision t) (rt_due_at t) (rt_registration_id t))) ∧
  (∀ profile e, idle_due s now profile e →
     profile ∈ rt_profile_id <$> tasks ∨
     zsize (rs_in_flight s') = PROFILE_REFRESH_CONCURRENCY ∧
     ∀ t, t ∈ tasks → rt_due_at t ≤ re_due_at e).
Proof.
  intros Hr. pose proof (refresh_reachable_slots _ _ _ (refresh_take _ _ _ now Hr)) as Hslots'.
  pose proof (refresh_reachable_slots _ _ _ Hr) as Hslots.
  pose proof (refresh_take_due_spec s now [] [] []) as H.
  destruct (refresh_take_due s now) as [tasks s']. destruct H as (Hkeys & Hent & Hsize & _).
  simpl in Hslots'. split; [done|].
  assert (rt_profile_id <$> tasks = (λ k, k.2.1) <$> started s now) as Hids
    by (rewrite <-Hkeys, <-list_fmap_compose; done).
  split; [rewrite Hids; apply NoDup_started|].
  split; [u64_lia|]. split; [done|]. split.
  - intros t Ht. assert (refresh_key t ∈ started s now) as Hin
      by (rewrite <-Hkeys; apply list_elem_of_fmap; eauto).
    apply elem_of_started, elem_of_due_refreshes in Hin as (p & [] & Heq & Hidle).
    unfold refresh_key, due_key in Heq. simpl in *. destruct t. simpl in *. by simplify_eq.
  - intros p e Hidle.
    destruct (sorted_take (sort (due_refreshes s now)) (Z.to_nat (refresh_available s)) (due_key (p, e)))
      as [Hin|[Hlen Hle]]; [apply sort_StronglySorted| | |].
    + rewrite sort_Permutation. apply elem_of_due_refreshes. eauto.
    + left. rewrite Hids. apply list_elem_of_fmap. exists (due_key (p, e)). done.
    + right. change (take _ _) with (started s now) in *.
      rewrite <-Hkeys, length_fmap in Hlen.
      split; [unfold refresh_available, PROFILE_REFRESH_CONCURRENCY in *; u64_lia|].
      intros t Ht. assert (refresh_key t ∈ started s now) as Hin
        by (rewrite <-Hkeys; apply list_elem_of_fmap; eauto).
      specialize (Hle _ Hin). unfold ord_le, ord_leb, ord_prod in Hle. simpl in Hle.
      unfold ord_leb at 1, ord_Z in Hle. destruct (Z.leb_spec (rt_due_at t) (re_due_at e)); done.
Qed.

Definition sample_refresh : ProfileRefreshScheduler :=
  upsert (upsert (upsert refresh_new 7 1 300) 8 1 100) 9 1 200.

Lemma sample_refresh_reachable : refresh_reachable sample_refresh [] [].
Proof. unfold sample_refresh. repeat constructor. Qed.

Lemma refresh_take_due_earliest_witness :
  let '(tasks, s') := refresh_take_due sample_refresh 1000 in
  rt_profile_id <$> tasks = [8; 9] ∧ zsize (rs_in_flight s') ≤ PROFILE_REFRESH_CONCURRENCY.
Proof.
  pose proof (refresh_take_due_earliest _ _ _ 1000 sample_refresh_reachable) as H.
  destruct (refresh_take_due sample_refresh 1000) as [tasks s'] eqn:Ht.
  destruct H as (_ & _ & _ & Hle & _). split; [|done].
  assert (tasks = (tasks, s').1) as -> by done. rewrite <-Ht. by vm_compute.
Defined.

(** In an execution that starts fewer than 2^64 - 1 refreshes every refresh
    has its own attempt id, and each one is either still in flight or its
    completion was accepted exactly once: none is lost and none is accepted
    twice, whatever profiles were added or removed meanwhile. *)
Theorem refresh_completes_once s issued accepted :
  refresh_reachable s issued accepted → zlen issued < u64_max →
  NoDup (rt_attempt_id <$> issued) ∧
  refresh_ids s ++ (rt_attempt_id <$> accepted) ≡ₚ rt_attempt_id <$> issued ∧
  ∀ c, refresh_accepts (refresh_complete s c).1 = true →
    rt_attempt_id (rc_task c) ∈ rt_attempt_id <$> issued ∧
    rt_attempt_id (rc_task c) ∉ rt_attempt_id <$> accepted.
Proof.
  intros Hr Hmax. pose proof (refresh_reachable_ledger _ _ _ Hr Hmax) as Hled.
  pose proof (ledger_NoDup _ _ _ _ _ Hled) as [Hnd Hrun]. destruct Hled as (_ & _ & Hperm).
  rewrite app_nil_r in Hperm. split; [done|]. split; [done|]. intros c Hacc.
  destruct (refresh_complete s c) as [r s'] eqn:Hc. apply refresh_complete_inv in Hc.
  simpl in Hacc. rewrite Hacc in Hc. destruct Hc as (Hin & _).
  assert (rt_attempt_id (rc_task c) ∈ refresh_ids s) as Hid
    by (unfold refresh_ids; rewrite (map_ids_delete ifr_attempt_id _ _ _ Hin); set_solver).
  split; [rewrite <-Hperm; set_solver|].
  apply NoDup_app in Hrun as (_ & Hdis & _). by apply Hdis.
Qed.

Lemma refresh_completes_once_witness :
  NoDup (rt_attempt_id <$> (refresh_take_due sample_refresh 1000).1).
Proof.
  apply (refresh_completes_once _ _ _ (refresh_take _ _ _ 1000 sample_refresh_reachable)).
  by vm_compute.
Defined.

(** While a refresh slot is free, [take_due] finds work at [now] exactly
    when [next_deadline] has passed, so waiting for [next_deadline] neither
    misses a refresh nor wakes up for nothing. *)
Theorem next_deadline_wakes s now :
  zsize (rs_in_flight s) < PROFILE_REFRESH_CONCURRENCY →
  (refresh_take_due s now).1 ≠ [] ↔ ∃ deadline, next_deadline s = Some deadline ∧ deadline ≤ now.
Proof.
  intros Hfree. rewrite take_due_nonempty by done. unfold idle_due.
  pose proof (next_deadline_spec s) as Hmin. destruct (next_deadline s) as [m|].
  - destruct Hmin as [(p & e & -> & ? & ?) Hle]. split; [|naive_solver].
    intros (q & e' & ? & ? & ?). exists (re_due_at e). split; [done|].
    etrans; [by eapply Hle|done].
  - split; [|naive_solver]. intros (p & e & ? & ? & ?). by destruct (Hmin p e).
Qed.

Lemma next_deadline_wakes_witness :
  next_deadline sample_refresh = Some 100 ∧ (refresh_take_due sample_refresh 100).1 ≠ [].
Proof.
  split; [by vm_compute|].
  apply (next_deadline_wakes sample_refresh 100); [by vm_compute|].
  exists 100. split; [by vm_compute|done].
Defined.
