(* ===== verification/ProxyView.v ===== *)
(** * ProxyView: the projection of the core's proxies (src/core.rs)

    The documents of Mihomo's [/proxies] and [/providers/proxies] endpoints, the
    [ProxyView] built from them, and the two questions asked of it: which node a
    name selects in a group ([resolve_exact_selection]) and the rows of a group
    ([node_rows_page]).

    [raw_proxies_of_json] and [raw_providers_of_json] are the derived readers of
    the raw documents.  The loops of [build_proxy_view] are folds over the
    ordered entries of the maps; the maps they fill are their states
    ([ProviderScan], [ProxyScan]).  Theorems: the order of the groups, the nodes
    and where they come from, selection against a definition that reads the raw
    documents, and pages as slices. *)

From S2P Require Import Prelude Text Ordered Json Domain.
Local Open Scope Z_scope.

(** ** Data *)

Inductive Availability := ProxyAvailable | ProxyUnavailable.
Inductive ProxyViewOrderSource := EffectiveConfiguration | StableFallback.
Inductive ProviderState := ProviderReady | ProviderStateUnavailable.
Inductive UnresolvedMemberReason := MemberMissing | MemberAmbiguous | MemberProviderUnavailable.

#[global] Instance Availability_eq_dec : EqDecision Availability.
Proof. solve_decision. Defined.
#[global] Instance ProviderState_eq_dec : EqDecision ProviderState.
Proof. solve_decision. Defined.
#[global] Instance UnresolvedMemberReason_eq_dec : EqDecision UnresolvedMemberReason.
Proof. solve_decision. Defined.

Inductive ProxyMember :=
| MemberGroup (name : str)
| MemberNode (name record_id : str) (availability : Availability)
| MemberUnresolved (name : str) (reason : UnresolvedMemberReason) (candidate_ids : list str).

Definition member_name (m : ProxyMember) : str :=
  match m with
  | MemberGroup name | MemberNode name _ _ | MemberUnresolved name _ _ => name
  end.

Record ProxyGroup := MkProxyGroup {
  pg_id : str;
  pg_name : str;
  pg_proxy_type : str;
  pg_availability : Availability;
  pg_selectable : bool;
  pg_core_internal : bool;
  pg_selected_name : option str;
  pg_members : list ProxyMember;
}.

Record ProxyNode := MkProxyNode {
  pn_record_id : str;
  pn_name : str;
  pn_proxy_type : str;
  pn_availability : Availability;
  pn_core_internal : bool;
  pn_source : NodeSource;
}.

Inductive ProviderVehicle := VehicleHttp | VehicleFile | VehicleInline | VehicleCompatible | VehicleUnknown.

Record ProxyProvider := MkProxyProvider {
  pp_name : str;
  pp_vehicle : ProviderVehicle;
  pp_node_ids : list str;
}.

Record ProxyView := MkProxyView {
  pv_schema_version : Z;
  pv_order_source : ProxyViewOrderSource;
  pv_provider_state : ProviderState;
  pv_groups : list ProxyGroup;
  pv_nodes : gmap str ProxyNode;
  pv_providers : list ProxyProvider;
}.

Definition PROXY_VIEW_SCHEMA_VERSION : Z := 1.

Record NodeSelection := MkNodeSelection {
  nsel_group_name : str;
  nsel_node_name : str;
  nsel_record_id : str;
}.

Inductive SelectionError :=
| GroupMissing (name : str)
| GroupNotSelectable (name : str)
| NodeMissing (name : str)
| NodeAmbiguous (name : str) (candidate_ids : list str)
| NodeUnavailable (name : str)
| ProviderUnavailable (name : str)
| TargetIsGroup (name : str).

(** [Display] *)
Definition selection_error_display (e : SelectionError) : str :=
  match e with
  | GroupMissing name => lit "Proxy Group '" ++ name ++ lit "' was not found"
  | GroupNotSelectable name => lit "Proxy Group '" ++ name ++ lit "' is not selectable"
  | NodeMissing name => lit "Node '" ++ name ++ lit "' was not found"
  | NodeAmbiguous name _ => lit "Node '" ++ name ++ lit "' is ambiguous"
  | NodeUnavailable name => lit "Node '" ++ name ++ lit "' is unavailable"
  | ProviderUnavailable name => lit "provider data for Node '" ++ name ++ lit "' is unavailable"
  | TargetIsGroup name => lit "'" ++ name ++ lit "' identifies a Proxy Group"
  end.

Inductive LatencyFreshness := FreshnessNotSampled | FreshnessFresh | FreshnessStale | FreshnessUnavailable.
Inductive ProbeStatus := ProbeNotSampled | ProbeQueued | ProbeInFlight | ProbeSucceeded | ProbeFailed.

Record ProbeObservation := MkProbeObservation {
  po_sample : option LatencySample;
  po_status : ProbeStatus;
}.

Inductive NodeRowMemberV1 :=
| RowGroup
| RowNode (record_id : str) (source : NodeSource)
| RowUnresolved (reason : UnresolvedMemberReason) (candidate_ids : list str).

Record NodeRowV1 := MkNodeRowV1 {
  nr_schema_version : Z;
  nr_name : str;
  nr_member : NodeRowMemberV1;
  nr_proxy_type : option str;
  nr_availability : Availability;
  nr_selected : bool;
  nr_delay_ms : option Z;
  nr_sampled_at_unix_ms : option Z;
  nr_freshness : LatencyFreshness;
  nr_probe_status : ProbeStatus;
}.

(** ** The raw documents *)

Record RawProxy := MkRawProxy {
  rp_proxy_type : str;
  rp_alive : bool;
  rp_all : option (list str);
  rp_now : option str;
  rp_provider : option str;
}.

Record RawProviderProxy := MkRawProviderProxy {
  rpp_name : str;
  rpp_proxy_type : str;
  rpp_alive : bool;
}.

Record RawProvider := MkRawProvider {
  rpv_vehicle_type : str;
  rpv_proxies : list RawProviderProxy;
}.

Record RawProxies := MkRawProxies { rps_proxies : gmap str RawProxy }.
Record RawProviders := MkRawProviders { rpvs_providers : gmap str RawProvider }.

Definition raw_proxy_of_json (j : Json) : option RawProxy :=
  fields ← json_struct_default
             [lit "type"; lit "alive"; lit "all"; lit "now"; lit "provider"] j;
  proxy_type ← json_required fields (lit "type") json_str;
  alive ← json_default fields (lit "alive") json_bool false;
  all ← json_default fields (lit "all") (json_nullable (json_vec json_str)) None;
  now ← json_default fields (lit "now") (json_nullable json_str) None;
  provider ← json_default fields (lit "provider") (json_nullable json_str) None;
  Some (MkRawProxy proxy_type alive all now provider).

Definition raw_proxies_of_json (j : Json) : option RawProxies :=
  fields ← json_struct [lit "proxies"] j;
  MkRawProxies <$> json_required fields (lit "proxies") (json_map raw_proxy_of_json).

Definition raw_provider_proxy_of_json (j : Json) : option RawProviderProxy :=
  fields ← json_struct_default [lit "name"; lit "type"; lit "alive"] j;
  name ← json_required fields (lit "name") json_str;
  proxy_type ← json_required fields (lit "type") json_str;
  alive ← json_default fields (lit "alive") json_bool false;
  Some (MkRawProviderProxy name proxy_type alive).

Definition raw_provider_of_json (j : Json) : option RawProvider :=
  fields ← json_struct_default [lit "vehicleType"; lit "proxies"] j;
  vehicle_type ← json_required fields (lit "vehicleType") json_str;
  proxies ← json_default fields (lit "proxies") (json_vec raw_provider_proxy_of_json) [];
  Some (MkRawProvider vehicle_type proxies).

Definition raw_providers_of_json (j : Json) : option RawProviders :=
  fields ← json_struct [lit "providers"] j;
  MkRawProviders <$> json_required fields (lit "providers") (json_map raw_provider_of_json).

(** ** Building the view *)

Definition availability (alive : bool) : Availability :=
  if alive then ProxyAvailable else ProxyUnavailable.

Definition is_core_internal (name : str) : bool :=
  bool_decide (name ∈ [lit "GLOBAL"; lit "DIRECT"; lit "REJECT"; lit "REJECT-DROP"; lit "PASS";
                       lit "COMPATIBLE"]).

Definition provider_vehicle (value : str) : ProviderVehicle :=
  let value := to_ascii_lowercase value in
  if bool_decide (value = lit "http") then VehicleHttp
  else if bool_decide (value = lit "file") then VehicleFile
  else if bool_decide (value = lit "inline") then VehicleInline
  else if bool_decide (value = lit "compatible") then VehicleCompatible
  else VehicleUnknown.

(** [str::eq_ignore_ascii_case] *)
Definition eq_ignore_ascii_case (a b : str) : bool :=
  bool_decide (to_ascii_lowercase a = to_ascii_lowercase b).

(** [map.entry(name).or_default().insert(id)] *)
Definition add_candidate (candidates : gmap str (gset str)) (name record_id : str)
  : gmap str (gset str) :=
  <[name := {[record_id]} ∪ default ∅ (candidates !! name)]> candidates.

(** [nodes.entry(id).or_insert(node)] *)
Definition or_insert_node (nodes : gmap str ProxyNode) (record_id : str) (node : ProxyNode)
  : gmap str ProxyNode :=
  match nodes !! record_id with
  | Some _ => nodes
  | None => <[record_id := node]> nodes
  end.

Record ProviderScan := MkProviderScan {
  pvs_nodes : gmap str ProxyNode;
  pvs_candidates : gmap str (gset str);
  pvs_views : list ProxyProvider;
}.

Record ProxyScan := MkProxyScan {
  pxs_nodes : gmap str ProxyNode;
  pxs_candidates : gmap str (gset str);
  pxs_groups : gmap str RawProxy;
  pxs_core_ids : gmap str str;
}.

Section build.
Context (sha256 : bytes → bytes).

Definition provider_proxy_step (provider_name : str)
  (acc : gmap str ProxyNode * gmap str (gset str) * list str) (proxy : RawProviderProxy)
  : gmap str ProxyNode * gmap str (gset str) * list str :=
  let '(nodes, candidates, node_ids) := acc in
  let record_id := for_provider sha256 provider_name (rpp_name proxy) in
  (or_insert_node nodes record_id
     (MkProxyNode record_id (rpp_name proxy) (rpp_proxy_type proxy) (availability (rpp_alive proxy))
        false (FromProvider provider_name (rpp_name proxy))),
   add_candidate candidates (rpp_name proxy) record_id,
   if bool_decide (record_id ∈ node_ids) then node_ids else node_ids ++ [record_id]).

Definition provider_step (acc : ProviderScan) (entry : str * RawProvider) : ProviderScan :=
  let '(provider_name, provider) := entry in
  let '(nodes, candidates, node_ids) :=
    foldl (provider_proxy_step provider_name) (pvs_nodes acc, pvs_candidates acc, [])
      (rpv_proxies provider) in
  MkProviderScan nodes candidates
    (pvs_views acc ++ [MkProxyProvider provider_name (provider_vehicle (rpv_vehicle_type provider))
                         node_ids]).

Definition proxy_step (acc : ProxyScan) (entry : str * RawProxy) : ProxyScan :=
  let '(name, proxy) := entry in
  if bool_decide (is_Some (rp_all proxy)) then
    MkProxyScan (pxs_nodes acc) (pxs_candidates acc) (<[name := proxy]> (pxs_groups acc))
      (pxs_core_ids acc)
  else
    let '(record_id, source) :=
      match rp_provider proxy with
      | None => (for_core sha256 name, FromCore name)
      | Some provider_name =>
          (for_provider sha256 provider_name name, FromProvider provider_name name)
      end in
    let '(core_ids, candidates) :=
      match source with
      | FromCore _ => (<[name := record_id]> (pxs_core_ids acc), pxs_candidates acc)
      | FromProvider _ _ => (pxs_core_ids acc, add_candidate (pxs_candidates acc) name record_id)
      end in
    MkProxyScan
      (or_insert_node (pxs_nodes acc) record_id
         (MkProxyNode record_id name (rp_proxy_type proxy) (availability (rp_alive proxy))
            (is_core_internal name) source))
      candidates (pxs_groups acc) core_ids.

(** The loop over [effective_group_order]: the names pushed and the set of them. *)
Fixpoint select_ordered (raw_groups : gmap str RawProxy) (order : list str) (selected : gset str)
  : list str * gset str :=
  match order with
  | [] => ([], selected)
  | name :: order' =>
      if bool_decide (is_Some (raw_groups !! name)) && bool_decide (name ∉ selected)
      then let '(names, selected) := select_ordered raw_groups order' ({[name]} ∪ selected) in
           (name :: names, selected)
      else select_ordered raw_groups order' selected
  end.

Definition resolve_member (name : str) (group_names : gset str) (core_node_ids : gmap str str)
  (provider_candidates : gmap str (gset str)) (nodes : gmap str ProxyNode)
  (provider_state : ProviderState) : ProxyMember :=
  let node_availability record_id :=
    match nodes !! record_id with Some node => pn_availability node | None => ProxyUnavailable end in
  if bool_decide (name ∈ group_names) then MemberGroup name
  else
    match core_node_ids !! name with
    | Some record_id => MemberNode name record_id (node_availability record_id)
    | None =>
        if bool_decide (provider_state = ProviderStateUnavailable)
        then MemberUnresolved name MemberProviderUnavailable []
        else
          match provider_candidates !! name with
          | None => MemberUnresolved name MemberMissing []
          | Some candidates =>
              match bset_iter candidates with
              | [record_id] => MemberNode name record_id (node_availability record_id)
              | candidate_ids => MemberUnresolved name MemberAmbiguous candidate_ids
              end
          end
    end.

Definition build_group (resolve : str → ProxyMember) (name : str) (proxy : RawProxy) : ProxyGroup :=
  MkProxyGroup (for_name sha256 name) name (rp_proxy_type proxy) (availability (rp_alive proxy))
    (eq_ignore_ascii_case (rp_proxy_type proxy) (lit "selector")) (is_core_internal name)
    (rp_now proxy) (resolve <$> default [] (rp_all proxy)).

(** [ordered_names.into_iter().filter_map(...)]: each group is removed from
    [raw_groups] as it is built. *)
Fixpoint build_groups (resolve : str → ProxyMember) (names : list str)
  (raw_groups : gmap str RawProxy) : list ProxyGroup :=
  match names with
  | [] => []
  | name :: names' =>
      match raw_groups !! name with
      | Some proxy => build_group resolve name proxy
                        :: build_groups resolve names' (delete name raw_groups)
      | None => build_groups resolve names' raw_groups
      end
  end.

Definition scan_providers (providers : option RawProviders) : ProviderScan :=
  foldl provider_step (MkProviderScan ∅ ∅ [])
    (btree_iter (default ∅ (rpvs_providers <$> providers))).

Definition scan_proxies (proxies : RawProxies) (scanned : ProviderScan) : ProxyScan :=
  foldl proxy_step (MkProxyScan (pvs_nodes scanned) (pvs_candidates scanned) ∅ ∅)
    (btree_iter (rps_proxies proxies)).

Definition build_proxy_view (proxies : RawProxies) (providers : option RawProviders)
  (effective_group_order : list str) : ProxyView :=
  let provider_state :=
    match providers with Some _ => ProviderReady | None => ProviderStateUnavailable end in
  let scanned := scan_providers providers in
  let s := scan_proxies proxies scanned in
  let group_names := dom (pxs_groups s) in
  let '(ordered_names, selected) := select_ordered (pxs_groups s) effective_group_order ∅ in
  let order_source := match ordered_names with [] => StableFallback | _ => EffectiveConfiguration end in
  let ordered_names := ordered_names ++ filter (λ name, name ∉ selected) (btree_keys (pxs_groups s)) in
  let groups :=
    build_groups
      (λ member, resolve_member member group_names (pxs_core_ids s) (pxs_candidates s) (pxs_nodes s)
                   provider_state)
      ordered_names (pxs_groups s) in
  MkProxyView PROXY_VIEW_SCHEMA_VERSION order_source provider_state groups (pxs_nodes s)
    (pvs_views scanned).

End build.

(** ** Questions *)

Definition primary_group (v : ProxyView) : option ProxyGroup :=
  list_find (λ g, pg_selectable g = true ∧ pg_name g ≠ lit "GLOBAL") (pv_groups v) ≫= λ p, Some p.2.

Definition find_group (v : ProxyView) (group_name : str) : option ProxyGroup :=
  list_find (λ g, pg_name g = group_name) (pv_groups v) ≫= λ p, Some p.2.

(** The loop over the members of that name: [candidates], [unresolved] and
    [saw_nested_group], or its early return. *)
Fixpoint selection_loop (node_name : str) (members : list ProxyMember) (candidates : gset str)
  (unresolved : option UnresolvedMemberReason) (saw_nested_group : bool)
  : result (gset str * option UnresolvedMemberReason * bool) SelectionError :=
  match members with
  | [] => Ok (candidates, unresolved, saw_nested_group)
  | MemberNode _ record_id availability :: members' =>
      if bool_decide (availability = ProxyUnavailable) then Err (NodeUnavailable node_name)
      else selection_loop node_name members' ({[record_id]} ∪ candidates) unresolved saw_nested_group
  | MemberUnresolved _ reason candidate_ids :: members' =>
      selection_loop node_name members' (list_to_set candidate_ids ∪ candidates) (Some reason)
        saw_nested_group
  | MemberGroup _ :: members' => selection_loop node_name members' candidates unresolved true
  end.

Definition resolve_exact_selection (v : ProxyView) (group_name node_name : str)
  : result NodeSelection SelectionError :=
  let? group := ok_or (find_group v group_name) (GroupMissing group_name) in
  if negb (pg_selectable group) then Err (GroupNotSelectable group_name)
  else
    let? found := selection_loop node_name
                    (filter (λ m, member_name m = node_name) (pg_members group)) ∅ None false in
    let '(candidates, unresolved, saw_nested_group) := found in
    if (1 <? zsize candidates) || bool_decide (unresolved = Some MemberAmbiguous)
    then Err (NodeAmbiguous node_name (bset_iter candidates))
    else
      match bset_first candidates with
      | Some record_id => Ok (MkNodeSelection group_name node_name record_id)
      | None =>
          if bool_decide (unresolved = Some MemberProviderUnavailable)
          then Err (ProviderUnavailable node_name)
          else if saw_nested_group then Err (TargetIsGroup node_name)
          else Err (NodeMissing node_name)
      end.

Definition freshness (state : SampleState) : LatencyFreshness :=
  match state with
  | SampleFresh => FreshnessFresh
  | SampleStale => FreshnessStale
  | SampleUnavailable => FreshnessUnavailable
  end.

Definition node_row (v : ProxyView) (parent : ProxyGroup) (member : ProxyMember)
  (probe_views : gmap str ProbeObservation) : NodeRowV1 :=
  let selected := bool_decide (pg_selected_name parent = Some (member_name member)) in
  match member with
  | MemberNode name record_id availability =>
      let node := pv_nodes v !! record_id in
      let observation := probe_views !! record_id in
      let sample := observation ≫= po_sample in
      MkNodeRowV1 1 name
        (match node with
         | None => RowUnresolved MemberMissing []
         | Some node => RowNode record_id (pn_source node)
         end)
        (pn_proxy_type <$> node)
        (match node with None => ProxyUnavailable | Some _ => availability end)
        selected
        (sample ≫= ls_delay_ms)
        (sample ≫= ls_sampled_at)
        (match sample with None => FreshnessNotSampled | Some sample => freshness (ls_state sample) end)
        (match observation with None => ProbeNotSampled | Some view => po_status view end)
  | MemberGroup name =>
      let nested := find_group v name in
      MkNodeRowV1 1 name RowGroup (pg_proxy_type <$> nested)
        (match nested with None => ProxyUnavailable | Some group => pg_availability group end)
        selected None None FreshnessNotSampled ProbeNotSampled
  | MemberUnresolved name reason candidate_ids =>
      MkNodeRowV1 1 name (RowUnresolved reason candidate_ids) None ProxyUnavailable selected None None
        FreshnessUnavailable ProbeNotSampled
  end.

Definition node_rows_page (v : ProxyView) (group_name : str) (probe_views : gmap str ProbeObservation)
  (offset limit : Z) : result (Z * list NodeRowV1) SelectionError :=
  let? group := ok_or (find_group v group_name) (GroupMissing group_name) in
  let stop := Z.min (saturating_add offset limit) (zlen (pg_members group)) in
  let rows := (λ member, node_row v group member probe_views)
                <$> get_range (pg_members group) offset stop in
  Ok (zlen (pg_members group), rows).

(** [usize::MAX] of a 64-bit target. *)
Definition node_rows (v : ProxyView) (group_name : str) (probe_views : gmap str ProbeObservation)
  : result (list NodeRowV1) SelectionError :=
  let? page := node_rows_page v group_name probe_views 0 u64_max in
  Ok page.2.

(** ** Reading the two responses *)

Inductive ProjectionErrorKind :=
| ProjectionProxies | ProjectionProviders | ProjectionVersion | ProjectionDelay | ProjectionTraffic
| ProjectionConnections | ProjectionLog.

(** [Display]; the diagnostic behind it is serde's text and is shown nowhere. *)
Definition projection_error_display (kind : ProjectionErrorKind) : str :=
  lit "invalid Mihomo " ++
  match kind with
  | ProjectionProxies => lit "proxies"
  | ProjectionProviders => lit "providers"
  | ProjectionVersion => lit "version"
  | ProjectionDelay => lit "delay"
  | ProjectionTraffic => lit "traffic"
  | ProjectionConnections => lit "connections"
  | ProjectionLog => lit "log"
  end ++ lit " response".

Definition project_proxy_view (sha256 : bytes → bytes) (json_from_slice : bytes → option Json)
  (proxies_json : bytes) (providers_json : option bytes) (effective_group_order : list str)
  : result ProxyView ProjectionErrorKind :=
  let? proxies := ok_or (json_from_slice proxies_json ≫= raw_proxies_of_json) ProjectionProxies in
  let? providers :=
    match providers_json with
    | None => Ok None
    | Some json =>
        let? providers := ok_or (json_from_slice json ≫= raw_providers_of_json) ProjectionProviders in
        Ok (Some providers)
    end in
  Ok (build_proxy_view sha256 proxies providers effective_group_order).

(** ** What the documents say

    The definitions below read the raw documents directly; the theorems relate
    the view to them. *)

Section documents.
Context (sha256 : bytes → bytes) (proxies : RawProxies) (providers : option RawProviders).

Definition is_group_entry (name : str) : Prop :=
  ∃ proxy, rps_proxies proxies !! name = Some proxy ∧ is_Some (rp_all proxy).

(** The provider [p] lists a proxy [name], with this type and liveness. *)
Definition provider_lists (p name type : str) (alive : bool) : Prop :=
  ∃ ps provider, providers = Some ps ∧ rpvs_providers ps !! p = Some provider ∧
    MkRawProviderProxy name type alive ∈ rpv_proxies provider.

(** The proxies document has an entry for a node of this source. *)
Definition proxy_entry (source : NodeSource) (type : str) (alive : bool) : Prop :=
  match source with
  | FromCore name => ∃ now, rps_proxies proxies !! name = Some (MkRawProxy type alive None now None)
  | FromProvider p name =>
      ∃ now, rps_proxies proxies !! name = Some (MkRawProxy type alive None now (Some p))
  end.

(** The documents define a node of this source. *)
Definition defines (source : NodeSource) (type : str) (alive : bool) : Prop :=
  proxy_entry source type alive ∨
  match source with
  | FromCore _ => False
  | FromProvider p name => provider_lists p name type alive
  end.

Definition defined (source : NodeSource) : Prop := ∃ type alive, defines source type alive.

End documents.

(** ** The scans

    [nodes_ok D nodes candidates]: the nodes and candidate sets hold exactly what
    the definitions [D] seen so far call for. *)

Definition source_name (source : NodeSource) : str :=
  match source with FromCore name | FromProvider _ name => name end.

(** Induction over a loop, with the part of the list already done. *)
Lemma foldl_prefix_ind {A B} (f : A → B → A) (P : list B → A → Prop) (init : A) (l : list B) :
  P [] init → (∀ done x acc, P done acc → P (done ++ [x]) (f acc x)) → P l (foldl f init l).
Proof.
  intros Hnil Hstep. induction l as [|x l IH] using rev_ind; [done|].
  rewrite foldl_app. by apply Hstep.
Qed.

Section scans.
Context (sha256 : bytes → bytes).

Record nodes_ok (D : NodeSource → str → bool → Prop) (nodes : gmap str ProxyNode)
  (candidates : gmap str (gset str)) : Prop := {
  nodes_sound : ∀ id n, nodes !! id = Some n →
    id = pn_record_id n ∧ id = node_id sha256 (pn_source n) ∧ pn_name n = source_name (pn_source n) ∧
    ∃ alive, pn_availability n = availability alive ∧ D (pn_source n) (pn_proxy_type n) alive;
  nodes_complete : ∀ source type alive, D source type alive → is_Some (nodes !! node_id sha256 source);
  candidates_exact : ∀ name id, id ∈ default ∅ (candidates !! name) ↔
    ∃ p type alive, D (FromProvider p name) type alive ∧ id = for_provider sha256 p name;
  candidates_nonempty : ∀ name ids, candidates !! name = Some ids → ids ≠ ∅;
}.

Lemma nodes_ok_proper D D' nodes candidates :
  (∀ s t a, D s t a ↔ D' s t a) → nodes_ok D nodes candidates → nodes_ok D' nodes candidates.
Proof.
  intros HD [Hs Hc Hx Hn]. split.
  - intros id n Hid. destruct (Hs id n Hid) as (? & ? & ? & alive & ? & ?%HD). eauto 10.
  - intros s t a ?%HD. eauto.
  - intros name id. rewrite Hx. by setoid_rewrite HD.
  - done.
Qed.

Definition also (D : NodeSource → str → bool → Prop) (source : NodeSource) (type : str) (alive : bool)
  : NodeSource → str → bool → Prop :=
  λ s t a, D s t a ∨ (s = source ∧ t = type ∧ a = alive).

Lemma or_insert_lookup nodes id node id' :
  or_insert_node nodes id node !! id' =
  match nodes !! id' with Some n => Some n | None => if decide (id = id') then Some node else None end.
Proof.
  unfold or_insert_node. destruct (nodes !! id) eqn:Hid, (nodes !! id') eqn:Hid'; try done.
  - case_decide; congruence.
  - rewrite lookup_insert_ne; congruence.
  - case_decide; subst; by rewrite ?lookup_insert_eq, ?lookup_insert_ne.
Qed.

Lemma add_candidate_lookup candidates name id name' :
  default ∅ (add_candidate candidates name id !! name') =
  (if decide (name = name') then {[id]} else ∅) ∪ default ∅ (candidates !! name').
Proof.
  unfold add_candidate. case_decide; subst.
  - by rewrite lookup_insert_eq.
  - rewrite lookup_insert_ne by done. set_solver.
Qed.

Section add.
Context (D : NodeSource → str → bool → Prop) (nodes : gmap str ProxyNode) (candidates : gmap str (gset str)).
Context (source : NodeSource) (type : str) (alive internal : bool).
Context (Hok : nodes_ok D nodes candidates).

Local Notation node := (MkProxyNode (node_id sha256 source) (source_name source) type
                          (availability alive) internal source).

Lemma add_sound id n :
  or_insert_node nodes (node_id sha256 source) node !! id = Some n →
  id = pn_record_id n ∧ id = node_id sha256 (pn_source n) ∧ pn_name n = source_name (pn_source n) ∧
  ∃ alive', pn_availability n = availability alive' ∧
            also D source type alive (pn_source n) (pn_proxy_type n) alive'.
Proof.
  rewrite or_insert_lookup. unfold also. destruct (nodes !! id) as [m|] eqn:Hm.
  - intros [= ->]. apply (nodes_sound _ _ _ Hok) in Hm as (? & ? & ? & a & ? & ?). eauto 10.
  - case_decide; [|done]. intros [= <-]. simpl. eauto 10.
Qed.

Lemma add_complete s t a :
  also D source type alive s t a →
  is_Some (or_insert_node nodes (node_id sha256 source) node !! node_id sha256 s).
Proof.
  rewrite or_insert_lookup. intros [Hd|(-> & _ & _)].
  - destruct (nodes_complete _ _ _ Hok _ _ _ Hd) as [? ->]. eauto.
  - destruct (nodes !! _); [eauto|]. rewrite decide_True by done. eauto.
Qed.

End add.

Lemma nodes_ok_core D nodes candidates name type alive internal :
  nodes_ok D nodes candidates →
  nodes_ok (also D (FromCore name) type alive)
    (or_insert_node nodes (for_core sha256 name)
       (MkProxyNode (for_core sha256 name) name type (availability alive) internal (FromCore name)))
    candidates.
Proof.
  intros Hok. split.
  - by apply (add_sound D nodes candidates (FromCore name)).
  - by apply (add_complete D nodes candidates (FromCore name)).
  - intros n id. rewrite (candidates_exact _ _ _ Hok). unfold also. naive_solver.
  - apply (candidates_nonempty _ _ _ Hok).
Qed.

Lemma nodes_ok_provider D nodes candidates p name type alive internal :
  nodes_ok D nodes candidates →
  nodes_ok (also D (FromProvider p name) type alive)
    (or_insert_node nodes (for_provider sha256 p name)
       (MkProxyNode (for_provider sha256 p name) name type (availability alive) internal
          (FromProvider p name)))
    (add_candidate candidates name (for_provider sha256 p name)).
Proof.
  intros Hok. split.
  - by apply (add_sound D nodes candidates (FromProvider p name)).
  - by apply (add_complete D nodes candidates (FromProvider p name)).
  - intros n id. rewrite add_candidate_lookup, elem_of_union, (candidates_exact _ _ _ Hok). unfold also.
    case_decide as Hn; [subst n|]; rewrite ?elem_of_singleton, ?elem_of_empty; split; naive_solver.
  - intros n ids. unfold add_candidate. destruct (decide (name = n)) as [<-|Hne].
    + rewrite lookup_insert_eq. intros [= <-]. set_solver.
    + rewrite lookup_insert_ne by done. apply (candidates_nonempty _ _ _ Hok).
Qed.

(** The loop over the proxies of one provider. *)
Lemma provider_loop_ok p l D nodes candidates node_ids :
  nodes_ok D nodes candidates →
  let r := foldl (provider_proxy_step sha256 p) (nodes, candidates, node_ids) l in
  nodes_ok (λ s t a, D s t a ∨ match s with
                               | FromProvider q name => q = p ∧ MkRawProviderProxy name t a ∈ l
                               | FromCore _ => False
                               end) r.1.1 r.1.2.
Proof.
  intros Hok. cbv zeta.
  apply (foldl_prefix_ind _ (λ l acc,
    nodes_ok (λ s t a, D s t a ∨ match s with
                                 | FromProvider q name => q = p ∧ MkRawProviderProxy name t a ∈ l
                                 | FromCore _ => False
                                 end) acc.1.1 acc.1.2)).
  - eapply nodes_ok_proper; [|done]. intros [?|? ?] ? ?; set_solver.
  - intros done [n t a] [[ns cs] ids] IH. simpl in *.
    eapply nodes_ok_proper; [|apply nodes_ok_provider; exact IH].
    intros [?|q m] t' a'; unfold also; [naive_solver|].
    rewrite elem_of_app, list_elem_of_singleton. naive_solver.
Qed.

Lemma scan_providers_ok providers :
  nodes_ok (λ s t a, match s with
                     | FromProvider p name => provider_lists providers p name t a
                     | FromCore _ => False
                     end) (pvs_nodes (scan_providers sha256 providers))
    (pvs_candidates (scan_providers sha256 providers)).
Proof.
  unfold scan_providers.
  set (P (l : list (str * RawProvider)) (acc : ProviderScan) :=
    nodes_ok (λ s t a, match s with
                       | FromProvider p name =>
                           ∃ provider, (p, provider) ∈ l ∧ MkRawProviderProxy name t a ∈ rpv_proxies provider
                       | FromCore _ => False
                       end) (pvs_nodes acc) (pvs_candidates acc)).
  assert (P (btree_iter (default ∅ (rpvs_providers <$> providers)))
    (foldl (provider_step sha256) (MkProviderScan ∅ ∅ [])
       (btree_iter (default ∅ (rpvs_providers <$> providers))))) as HP.
  { apply foldl_prefix_ind; unfold P.
    - simpl. split.
      + intros id n. by rewrite lookup_empty.
      + intros [?|? ?] t a; [done|]. intros (? & []%not_elem_of_nil & _).
      + intros name id. rewrite lookup_empty. simpl. split; [set_solver|].
        intros (? & ? & ? & (? & []%not_elem_of_nil & _) & _).
      + intros name ids. by rewrite lookup_empty.
    - intros done [p provider] acc IH. simpl.
      pose proof (provider_loop_ok p (rpv_proxies provider) _ _ _ [] IH) as Hl. cbv zeta in Hl.
      destruct (foldl _ _ _) as [[ns cs] ids]. simpl in *.
      eapply nodes_ok_proper; [|exact Hl]. intros [?|q n] t a; [naive_solver|].
      setoid_rewrite elem_of_app. setoid_rewrite list_elem_of_singleton. naive_solver. }
  unfold P in HP. eapply nodes_ok_proper; [|exact HP].
  intros [?|p n] t a; [done|]. unfold provider_lists. setoid_rewrite elem_of_btree_iter.
  destruct providers as [ps|]; simpl; [naive_solver|]. setoid_rewrite lookup_empty. naive_solver.
Qed.

(** What the second loop has done with the entries [l] of the proxies document. *)
Record proxies_ok (providers : option RawProviders) (l : list (str * RawProxy)) (acc : ProxyScan) : Prop := {
  scan_nodes : nodes_ok (λ s t a,
      (∃ now, (source_name s, MkRawProxy t a None now
                 (match s with FromCore _ => None | FromProvider p _ => Some p end)) ∈ l) ∨
      match s with FromProvider p name => provider_lists providers p name t a | FromCore _ => False end)
    (pxs_nodes acc) (pxs_candidates acc);
  scan_groups : NoDup l.*1 → ∀ name proxy, pxs_groups acc !! name = Some proxy ↔ (name, proxy) ∈ l ∧ is_Some (rp_all proxy);
  scan_core : ∀ name id, pxs_core_ids acc !! name = Some id ↔
    id = for_core sha256 name ∧ ∃ t a now, (name, MkRawProxy t a None now None) ∈ l;
}.

Lemma groups_after (l : list (str * RawProxy)) (groups : gmap str RawProxy) name (proxy : RawProxy) :
  (∀ n q, groups !! n = Some q ↔ (n, q) ∈ l ∧ is_Some (rp_all q)) → NoDup (l ++ [(name, proxy)]).*1 →
  ∀ n q, (if bool_decide (is_Some (rp_all proxy)) then <[name := proxy]> groups else groups) !! n = Some q ↔
         (n, q) ∈ l ++ [(name, proxy)] ∧ is_Some (rp_all q).
Proof.
  intros Hg Hnd n q. rewrite elem_of_app, list_elem_of_singleton.
  rewrite fmap_app, NoDup_app in Hnd. destruct Hnd as (_ & Hdis & _).
  assert (∀ q', (name, q') ∉ l) as Hnew.
  { intros q' Hin. apply (Hdis name); [by apply (list_elem_of_fmap_2 fst _ (name, q'))|]. csimpl. set_solver. }
  case_bool_decide as Hall.
  - destruct (decide (name = n)) as [<-|Hne].
    + rewrite lookup_insert_eq. naive_solver.
    + rewrite lookup_insert_ne, Hg by done. naive_solver.
  - rewrite Hg. naive_solver.
Qed.

Lemma nodup_prefix {A} (l k : list A) : NoDup (l ++ k) → NoDup l.
Proof. by intros (? & _)%NoDup_app. Qed.

Lemma proxy_step_ok providers l name proxy acc :
  proxies_ok providers l acc → proxies_ok providers (l ++ [(name, proxy)]) (proxy_step sha256 acc (name, proxy)).
Proof.
  intros [Hn Hg Hc]. assert (NoDup (l ++ [(name, proxy)]).*1 → NoDup l.*1) as Hpre.
  { rewrite fmap_app. apply nodup_prefix. }
  assert (NoDup (l ++ [(name, proxy)]).*1 → ∀ n q, (if bool_decide (is_Some (rp_all proxy)) then <[name := proxy]> (pxs_groups acc) else pxs_groups acc) !! n = Some q ↔
         (n, q) ∈ l ++ [(name, proxy)] ∧ is_Some (rp_all q)) as Hg'.
  { intros Hnd. by apply groups_after; [apply Hg, Hpre|]. }
  destruct proxy as [t a [all|] now [p|]]; unfold proxy_step; cbn [rp_all rp_provider rp_proxy_type rp_alive] in *.
  1, 2: rewrite bool_decide_eq_true_2 in * by eauto; split; cbn; [|done|].
  1, 3: eapply nodes_ok_proper; [|exact Hn]; intros s t' a'; cbn;
    setoid_rewrite elem_of_app; setoid_rewrite list_elem_of_singleton; naive_solver.
  1, 2: intros n id; rewrite Hc; setoid_rewrite elem_of_app; setoid_rewrite list_elem_of_singleton; naive_solver.
  all: rewrite (bool_decide_eq_false_2 (is_Some None)) in * by (by intros []); split; cbn; [|done|].
  - eapply nodes_ok_proper; [|apply nodes_ok_provider; exact Hn]. intros [n|q n] t' a'; unfold also; cbn;
      setoid_rewrite elem_of_app; setoid_rewrite list_elem_of_singleton; naive_solver.
  - intros n id; rewrite Hc; setoid_rewrite elem_of_app; setoid_rewrite list_elem_of_singleton; naive_solver.
  - eapply nodes_ok_proper; [|apply nodes_ok_core; exact Hn]. intros [n|q n] t' a'; unfold also; cbn;
      setoid_rewrite elem_of_app; setoid_rewrite list_elem_of_singleton; naive_solver.
  - intros n id. setoid_rewrite elem_of_app; setoid_rewrite list_elem_of_singleton.
    destruct (decide (name = n)) as [<-|Hne].
    + rewrite lookup_insert_eq. naive_solver.
    + rewrite lookup_insert_ne, Hc by done. naive_solver.
Qed.

(** Both scans, against the documents. *)
Lemma scans_ok proxies providers :
  let s := scan_proxies sha256 proxies (scan_providers sha256 providers) in
  nodes_ok (defines proxies providers) (pxs_nodes s) (pxs_candidates s) ∧
  (∀ name proxy, pxs_groups s !! name = Some proxy ↔
     rps_proxies proxies !! name = Some proxy ∧ is_Some (rp_all proxy)) ∧
  (∀ name id, pxs_core_ids s !! name = Some id ↔
     id = for_core sha256 name ∧ ∃ t a, proxy_entry proxies (FromCore name) t a).
Proof.
  cbv zeta. assert (proxies_ok providers (btree_iter (rps_proxies proxies))
    (scan_proxies sha256 proxies (scan_providers sha256 providers))) as [Hn Hg Hc].
  { apply (foldl_prefix_ind _ (proxies_ok providers)).
    - split; cbn.
      + eapply nodes_ok_proper; [|apply scan_providers_ok]. intros [n|p n] t a; cbn;
          setoid_rewrite elem_of_nil; naive_solver.
      + intros _ n q. rewrite lookup_empty, elem_of_nil. naive_solver.
      + intros n id. rewrite lookup_empty. setoid_rewrite elem_of_nil. naive_solver.
    - intros l [name proxy] acc. apply proxy_step_ok. }
  split_and!.
  - eapply nodes_ok_proper; [|exact Hn]. intros [n|p n] t a; unfold defines, proxy_entry; cbn;
      by setoid_rewrite elem_of_btree_iter.
  - intros n q. rewrite Hg by apply NoDup_btree_keys. by rewrite elem_of_btree_iter.
  - intros n id. rewrite Hc. unfold proxy_entry. by setoid_rewrite elem_of_btree_iter.
Qed.

End scans.

(** ** The groups *)

(** The first occurrences of a list's elements, in their order. *)
Fixpoint first_occurrences (l : list str) : list str :=
  match l with
  | [] => []
  | x :: l' => x :: filter (λ y, y ≠ x) (first_occurrences l')
  end.

Lemma elem_of_first_occurrences l x : x ∈ first_occurrences l ↔ x ∈ l.
Proof.
  induction l as [|y l IH]; simpl; [done|]. rewrite !elem_of_cons, list_elem_of_filter, IH.
  destruct (decide (x = y)); naive_solver.
Qed.

Lemma NoDup_first_occurrences l : NoDup (first_occurrences l).
Proof.
  induction l as [|y l IH]; simpl; [constructor|]. apply NoDup_cons. split.
  - rewrite list_elem_of_filter. naive_solver.
  - by apply NoDup_filter.
Qed.

Lemma filter_and {A} (P Q : A → Prop) `{!∀ x, Decision (P x), !∀ x, Decision (Q x)} (l : list A) :
  filter P (filter Q l) = filter (λ x, P x ∧ Q x) l.
Proof.
  induction l as [|x l IH]; [done|]. rewrite !filter_cons.
  destruct (decide (Q x)), (decide (P x)), (decide (P x ∧ Q x)); rewrite ?filter_cons, ?IH; try tauto;
    case_decide; naive_solver.
Qed.

Lemma filter_in_ext {A} (P Q : A → Prop) `{!∀ x, Decision (P x), !∀ x, Decision (Q x)} (l : list A) :
  (∀ x, x ∈ l → P x ↔ Q x) → filter P l = filter Q l.
Proof.
  induction l as [|x l IH]; intros Heq; [done|]. rewrite !filter_cons, IH by set_solver.
  specialize (Heq x ltac:(set_solver)). repeat case_decide; tauto.
Qed.

Lemma StronglySorted_filter {A} (R : A → A → Prop) (P : A → Prop) `{!∀ x, Decision (P x)} l :
  StronglySorted R l → StronglySorted R (filter P l).
Proof.
  induction 1 as [|x l Hl IH Hx]; [constructor|]. rewrite filter_cons. case_decide; [|done].
  constructor; [done|]. apply Forall_forall. intros y [_ Hy]%list_elem_of_filter.
  by eapply Forall_forall in Hx.
Qed.

(** The keys of the entries of a map that satisfy [P]. *)
Lemma btree_keys_filter {V} (m m' : gmap str V) (P : V → Prop) `{!∀ x, Decision (P x)} :
  (∀ k v, m' !! k = Some v ↔ m !! k = Some v ∧ P v) →
  btree_keys m' = (filter (λ e : str * V, P e.2) (btree_iter m)).*1.
Proof.
  intros Hm. apply (StronglySorted_unique ord_le).
  - apply (StronglySorted_fmap fst key_le); [done|]. apply btree_iter_sorted.
  - apply (StronglySorted_fmap fst key_le); [done|]. apply StronglySorted_filter, btree_iter_sorted.
  - apply NoDup_Permutation; [apply NoDup_btree_keys|apply NoDup_fmap_filter, NoDup_btree_keys|].
    intros k. rewrite elem_of_btree_keys, list_elem_of_fmap. setoid_rewrite list_elem_of_filter. split.
    + intros [v [Hv HP]%Hm]. exists (k, v). by rewrite elem_of_btree_iter.
    + intros ([k' v] & -> & HP & Hv%elem_of_btree_iter). exists v. by apply Hm.
Qed.

Lemma filter_first_occurrences (P : str → Prop) `{!∀ x, Decision (P x)} l :
  filter P (first_occurrences l) = first_occurrences (filter P l).
Proof.
  induction l as [|x l IH]; [done|]. cbn [first_occurrences]. rewrite !filter_cons.
  rewrite filter_and. case_decide as Hx.
  - cbn [first_occurrences]. f_equal. rewrite <-IH, filter_and. apply list_filter_iff. tauto.
  - rewrite <-IH. apply list_filter_iff. intros y. split; [tauto|]. intros Hy. split; [done|congruence].
Qed.

Lemma select_ordered_spec (raw_groups : gmap str RawProxy) order selected :
  let r := select_ordered raw_groups order selected in
  r.1 = first_occurrences (filter (λ n, n ∈ dom raw_groups ∧ n ∉ selected) order) ∧
  ∀ n, n ∈ r.2 ↔ n ∈ selected ∨ (n ∈ order ∧ n ∈ dom raw_groups).
Proof.
  cbv zeta. revert selected. induction order as [|x order IH]; intros selected; cbn [select_ordered].
  { cbn. split; [done|]. set_solver. }
  rewrite filter_cons. destruct (IH selected) as [IH1 IH2], (IH ({[x]} ∪ selected)) as [IH3 IH4].
  case_decide as Hx.
  - rewrite !bool_decide_eq_true_2 by (rewrite <-?elem_of_dom; tauto). cbn [andb].
    destruct (select_ordered raw_groups order ({[x]} ∪ selected)) as [names sel]. cbn [fst snd] in *. split.
    + rewrite IH3. cbn [first_occurrences]. rewrite filter_first_occurrences, filter_and. do 2 f_equal.
      apply list_filter_iff. set_solver.
    + intros n. rewrite IH4. destruct Hx. destruct (decide (n = x)); set_solver.
  - assert (bool_decide (is_Some (raw_groups !! x)) && bool_decide (x ∉ selected) = false) as ->.
    { destruct (bool_decide_reflect (is_Some (raw_groups !! x))) as [Hd%elem_of_dom|],
        (bool_decide_reflect (x ∉ selected)); [tauto|done..]. }
    split; [done|]. intros n. rewrite IH2.
    destruct (decide (n = x)) as [->|]; [|set_solver]. destruct (decide (x ∈ selected)); set_solver.
Qed.

Lemma build_groups_omap sha256 resolve names raw_groups :
  NoDup names → build_groups sha256 resolve names raw_groups =
  omap (λ name, build_group sha256 resolve name <$> raw_groups !! name) names.
Proof.
  intros Hnd. revert raw_groups. induction Hnd as [|x names Hx Hnd IH]; intros raw_groups; csimpl; [done|].
  destruct (raw_groups !! x) as [q|] eqn:Hq; csimpl; [|done]. f_equal. rewrite IH.
  apply list_omap_ext, Forall2_same_length_lookup.
  split; [done|]. intros i a b Ha Hb. simplify_eq.
  rewrite lookup_delete_ne; [done|]. intros ->. destruct Hx. by eapply list_elem_of_lookup_2.
Qed.

(** The names [build_proxy_view] walks. *)
Definition group_order (raw_groups : gmap str RawProxy) (order : list str) : list str :=
  let '(ordered_names, selected) := select_ordered raw_groups order ∅ in
  ordered_names ++ filter (λ name, name ∉ selected) (btree_keys raw_groups).

Lemma group_order_spec raw_groups order :
  group_order raw_groups order =
  first_occurrences (filter (λ n, n ∈ dom raw_groups) order) ++
  filter (λ n, n ∉ order) (btree_keys raw_groups).
Proof.
  unfold group_order. pose proof (select_ordered_spec raw_groups order ∅) as [H1 H2].
  destruct (select_ordered raw_groups order ∅) as [names selected]. cbn [fst snd] in *. f_equal.
  - rewrite H1. f_equal. apply list_filter_iff. set_solver.
  - apply filter_in_ext. intros n Hn%elem_of_btree_keys%elem_of_dom.
    rewrite H2. set_solver.
Qed.

Lemma NoDup_group_order raw_groups order : NoDup (group_order raw_groups order).
Proof.
  rewrite group_order_spec. apply NoDup_app. split_and!.
  - apply NoDup_first_occurrences.
  - intros n. rewrite elem_of_first_occurrences, !list_elem_of_filter. tauto.
  - apply NoDup_filter, NoDup_btree_keys.
Qed.

Lemma elem_of_group_order raw_groups order n : n ∈ group_order raw_groups order ↔ is_Some (raw_groups !! n).
Proof.
  rewrite group_order_spec, elem_of_app, elem_of_first_occurrences, !list_elem_of_filter, elem_of_btree_keys,
    elem_of_dom. destruct (decide (n ∈ order)); tauto.
Qed.

Lemma view_groups sha256 proxies providers order :
  let v := build_proxy_view sha256 proxies providers order in
  let s := scan_proxies sha256 proxies (scan_providers sha256 providers) in
  pv_groups v =
  omap (λ name, build_group sha256
          (λ member, resolve_member member (dom (pxs_groups s)) (pxs_core_ids s) (pxs_candidates s)
                       (pxs_nodes s) (pv_provider_state v)) name <$> pxs_groups s !! name)
       (group_order (pxs_groups s) order).
Proof.
  cbv zeta. unfold build_proxy_view. pose proof (NoDup_group_order (pxs_groups
    (scan_proxies sha256 proxies (scan_providers sha256 providers))) order) as Hnd. unfold group_order in *.
  destruct (select_ordered _ _ _) as [names selected]. by apply build_groups_omap.
Qed.

Lemma view_fields sha256 proxies providers order :
  let v := build_proxy_view sha256 proxies providers order in
  pv_nodes v = pxs_nodes (scan_proxies sha256 proxies (scan_providers sha256 providers)) ∧
  pv_providers v = pvs_views (scan_providers sha256 providers) ∧
  pv_provider_state v = match providers with Some _ => ProviderReady | None => ProviderStateUnavailable end.
Proof. cbv zeta. unfold build_proxy_view. by destruct (select_ordered _ _ _). Qed.

Lemma omap_names (f : str → option ProxyGroup) (l : list str) :
  (∀ n, n ∈ l → ∃ g, f n = Some g ∧ pg_name g = n) → pg_name <$> omap f l = l.
Proof.
  induction l as [|x l IH]; intros Hf; csimpl; [done|].
  destruct (Hf x) as (g & -> & Hg); [set_solver|]. csimpl. rewrite Hg, IH; [done|]. set_solver.
Qed.

(** The groups of a view are the entries of the proxies document that have
    members, each once: first those named by the effective configuration, in its
    order, then the others in the order of their names; the view says whether the
    configuration ordered anything. *)
Theorem groups_in_configured_order sha256 proxies providers order :
  let v := build_proxy_view sha256 proxies providers order in
  let present := filter (λ e : str * RawProxy, is_Some (rp_all e.2)) (btree_iter (rps_proxies proxies)) in
  let configured := first_occurrences (filter (λ n, n ∈ present.*1) order) in
  pg_name <$> pv_groups v = configured ++ filter (λ n, n ∉ order) present.*1 ∧
  NoDup (pg_name <$> pv_groups v) ∧
  (∀ n, n ∈ pg_name <$> pv_groups v ↔ is_group_entry proxies n) ∧
  (pv_order_source v = StableFallback ↔ configured = []).
Proof.
  intros v present configured.
  destruct (scans_ok sha256 proxies providers) as (_ & Hg & _).
  pose proof (view_groups sha256 proxies providers order) as Hv. cbv zeta in Hv. fold v in Hv.
  set (s := scan_proxies sha256 proxies (scan_providers sha256 providers)) in *.
  pose proof (btree_keys_filter _ _ (λ q, is_Some (rp_all q)) Hg) as Hkeys. fold present in Hkeys.
  assert (∀ n, n ∈ dom (pxs_groups s) ↔ n ∈ present.*1) as Hdom.
  { intros n. by rewrite elem_of_dom, <-elem_of_btree_keys, Hkeys. }
  assert (pg_name <$> pv_groups v = group_order (pxs_groups s) order) as Hnames.
  { rewrite Hv. apply omap_names. intros n [q Hq]%elem_of_group_order. rewrite Hq. eauto. }
  assert (filter (λ n, n ∈ dom (pxs_groups s)) order = filter (λ n, n ∈ present.*1) order) as Hconf.
  { apply list_filter_iff, Hdom. }
  rewrite Hnames. split_and!.
  - by rewrite group_order_spec, Hconf, Hkeys.
  - apply NoDup_group_order.
  - intros n. rewrite elem_of_group_order. unfold is_group_entry, is_Some at 1. by setoid_rewrite Hg.
  - unfold v, build_proxy_view. fold s. pose proof (select_ordered_spec (pxs_groups s) order ∅) as [H1 _].
    destruct (select_ordered _ _ _) as [names sel]. cbn in *. unfold configured. rewrite <-Hconf.
    assert (names = first_occurrences (filter (λ n, n ∈ dom (pxs_groups s)) order)) as <-.
    { rewrite H1. f_equal. apply list_filter_iff. set_solver. }
    by destruct names.
Qed.

(** ** Selection *)

(** A node that is up is selected. *)
Definition select_if_up (nodes : gmap str ProxyNode) (group_name node_name record_id : str)
  : result NodeSelection SelectionError :=
  if bool_decide (pn_availability <$> nodes !! record_id = Some ProxyAvailable)
  then Ok (MkNodeSelection group_name node_name record_id)
  else Err (NodeUnavailable node_name).

Section reference.
Context (sha256 : bytes → bytes) (proxies : RawProxies) (providers : option RawProviders).

(** The providers that have a node [name], by either document. *)
Definition listing_providers (name : str) : gset str :=
  list_to_set (filter (λ e : str * RawProvider, name ∈ rpp_name <$> rpv_proxies e.2)
                 (btree_iter (default ∅ (rpvs_providers <$> providers)))).*1.
Definition entry_provider (name : str) : gset str :=
  match rps_proxies proxies !! name with
  | Some (MkRawProxy _ _ None _ (Some p)) => {[p]}
  | _ => ∅
  end.
Definition provider_node_ids (name : str) : gset str :=
  set_map (λ p, for_provider sha256 p name) (listing_providers name ∪ entry_provider name).

(** The answer to a selection, read off the documents: [nodes] only says which
    nodes are up. *)
Definition reference_selection (nodes : gmap str ProxyNode) (group_name node_name : str)
  : result NodeSelection SelectionError :=
  match rps_proxies proxies !! group_name with
  | Some (MkRawProxy type _ (Some all) _ _) =>
      if negb (eq_ignore_ascii_case type (lit "selector")) then Err (GroupNotSelectable group_name)
      else if bool_decide (node_name ∉ all) then Err (NodeMissing node_name)
      else
        match rps_proxies proxies !! node_name with
        | Some (MkRawProxy _ _ (Some _) _ _) => Err (TargetIsGroup node_name)
        | Some (MkRawProxy _ _ None _ None) => select_if_up nodes group_name node_name (for_core sha256 node_name)
        | _ =>
            match providers, bset_iter (provider_node_ids node_name) with
            | None, _ => Err (ProviderUnavailable node_name)
            | Some _, [] => Err (NodeMissing node_name)
            | Some _, [record_id] => select_if_up nodes group_name node_name record_id
            | Some _, candidate_ids => Err (NodeAmbiguous node_name candidate_ids)
            end
        end
  | _ => Err (GroupMissing group_name)
  end.

Lemma elem_of_provider_node_ids name id :
  id ∈ provider_node_ids name ↔
  ∃ p type alive, defines proxies providers (FromProvider p name) type alive ∧ id = for_provider sha256 p name.
Proof.
  unfold provider_node_ids. rewrite elem_of_map. setoid_rewrite elem_of_union.
  assert (∀ p, p ∈ listing_providers name ↔ ∃ t a, provider_lists providers p name t a) as Hl.
  { intros p. unfold listing_providers. rewrite elem_of_list_to_set, list_elem_of_fmap.
    setoid_rewrite list_elem_of_filter. unfold provider_lists. split.
    - intros ([q r] & -> & (proxy & -> & Hin)%list_elem_of_fmap & Hq%elem_of_btree_iter).
      destruct proxy as [n t a], providers as [ps|]; simpl in *; [eauto 10|by rewrite lookup_empty in Hq].
    - intros (t & a & ps & r & -> & Hr & Hin). exists (p, r). split_and!; [done| |by apply elem_of_btree_iter].
      by apply (list_elem_of_fmap_2 rpp_name) in Hin. }
  assert (∀ p, p ∈ entry_provider name ↔ ∃ t a, proxy_entry proxies (FromProvider p name) t a) as He.
  { intros p. unfold entry_provider, proxy_entry. destruct (rps_proxies proxies !! name) as [[t a [?|] now [q|]]|];
      rewrite ?elem_of_singleton, ?elem_of_empty; naive_solver. }
  setoid_rewrite Hl. setoid_rewrite He. unfold defines. naive_solver.
Qed.

End reference.

Lemma resolve_member_name name group_names core_ids candidates nodes state :
  member_name (resolve_member name group_names core_ids candidates nodes state) = name.
Proof. unfold resolve_member. by repeat case_match. Qed.

Lemma filter_resolved (resolve : str → ProxyMember) n l :
  (∀ m, member_name (resolve m) = m) →
  ∃ k, filter (λ m, member_name m = n) (resolve <$> l) = replicate k (resolve n) ∧ (k = 0%nat ↔ n ∉ l).
Proof.
  intros Hr. induction l as [|x l (k & IH & Hk)]; csimpl; [exists 0%nat; split; [done|set_solver]|].
  rewrite filter_cons, Hr. case_decide as Hx; [subst x|].
  - exists (S k). rewrite IH. split; [done|]. set_solver.
  - exists k. rewrite IH. split; [done|]. rewrite Hk. set_solver.
Qed.

(** The loop sees copies of one member: the first decides. *)
Lemma selection_loop_replicate node_name k m :
  selection_loop node_name (replicate (S k) m) ∅ None false =
  match m with
  | MemberNode _ record_id ProxyUnavailable => Err (NodeUnavailable node_name)
  | MemberNode _ record_id ProxyAvailable => Ok ({[record_id]}, None, false)
  | MemberUnresolved _ reason ids => Ok (list_to_set ids, Some reason, false)
  | MemberGroup _ => Ok (∅, None, true)
  end.
Proof.
  destruct m as [n|n id [|]|n r ids]; cbn; rewrite ?(right_id_L ∅ (∪)).
  - by induction k.
  - induction k as [|k IH]; cbn; [done|]. by rewrite union_idemp_L.
  - done.
  - induction k as [|k IH]; cbn; [done|]. by rewrite union_idemp_L.
Qed.

Lemma bset_iter_of_iter (s : gset str) : bset_iter (list_to_set (bset_iter s) : gset str) = bset_iter s.
Proof. f_equal. apply set_eq. intros x. by rewrite elem_of_list_to_set, elem_of_bset_iter. Qed.

(** The groups of a view by name. *)
Lemma find_group_view sha256 proxies providers order g :
  let v := build_proxy_view sha256 proxies providers order in
  let s := scan_proxies sha256 proxies (scan_providers sha256 providers) in
  find_group v g =
  build_group sha256
    (λ member, resolve_member member (dom (pxs_groups s)) (pxs_core_ids s) (pxs_candidates s)
                 (pxs_nodes s) (pv_provider_state v)) g <$> pxs_groups s !! g.
Proof.
  intros v s. unfold find_group. pose proof (view_groups sha256 proxies providers order) as Hv.
  cbv zeta in Hv. fold v s in Hv. rewrite Hv. clear Hv.
  set (f := λ name, _ <$> pxs_groups s !! name). change (_ <$> pxs_groups s !! g) with (f g).
  assert (∀ n x, f n = Some x → pg_name x = n) as Hname.
  { intros n x. unfold f. by intros (q & _ & ->)%fmap_Some. }
  assert (is_Some (f g) → g ∈ group_order (pxs_groups s) order) as Hin.
  { unfold f. rewrite fmap_is_Some. apply elem_of_group_order. }
  revert Hin. induction (group_order (pxs_groups s) order) as [|n l IH]; csimpl.
  - intros Hin. destruct (f g); [|done]. by destruct (not_elem_of_nil g); apply Hin.
  - destruct (f n) as [x|] eqn:Hn; csimpl.
    + intros Hin. pose proof (Hname _ _ Hn). case_decide; [by simplify_eq/=|].
      rewrite <-IH; [by destruct (list_find _ _) as [[]|]|].
      intros Hg. apply Hin in Hg as [->|]%elem_of_cons; congruence.
    + intros Hin. apply IH. intros Hg. apply Hin in Hg as Hg'. apply elem_of_cons in Hg' as [->|]; [|done].
      destruct Hg. congruence.
Qed.

(** What a member of a group resolves to, read off the documents. *)
Definition reference_member (sha256 : bytes → bytes) (proxies : RawProxies)
  (providers : option RawProviders) (nodes : gmap str ProxyNode) (name : str) : ProxyMember :=
  let node record_id :=
    MemberNode name record_id (default ProxyUnavailable (pn_availability <$> nodes !! record_id)) in
  match rps_proxies proxies !! name with
  | Some (MkRawProxy _ _ (Some _) _ _) => MemberGroup name
  | Some (MkRawProxy _ _ None _ None) => node (for_core sha256 name)
  | _ =>
      match providers, bset_iter (provider_node_ids sha256 proxies providers name) with
      | None, _ => MemberUnresolved name MemberProviderUnavailable []
      | Some _, [] => MemberUnresolved name MemberMissing []
      | Some _, [record_id] => node record_id
      | Some _, candidate_ids => MemberUnresolved name MemberAmbiguous candidate_ids
      end
  end.

Lemma resolve_by_provider sha256 proxies ps s name :
  nodes_ok sha256 (defines proxies (Some ps)) (pxs_nodes s) (pxs_candidates s) →
  name ∉ dom (pxs_groups s) → pxs_core_ids s !! name = None →
  resolve_member name (dom (pxs_groups s)) (pxs_core_ids s) (pxs_candidates s) (pxs_nodes s) ProviderReady =
  match bset_iter (provider_node_ids sha256 proxies (Some ps) name) with
  | [] => MemberUnresolved name MemberMissing []
  | [id] => MemberNode name id (default ProxyUnavailable (pn_availability <$> pxs_nodes s !! id))
  | ids => MemberUnresolved name MemberAmbiguous ids
  end.
Proof.
  intros Hok Hng Hnc. unfold resolve_member. rewrite bool_decide_eq_false_2, Hnc by done. cbn.
  assert (default ∅ (pxs_candidates s !! name) = provider_node_ids sha256 proxies (Some ps) name) as <-.
  { apply set_eq. intros id. by rewrite (candidates_exact _ _ _ _ Hok), elem_of_provider_node_ids. }
  destruct (pxs_candidates s !! name) as [ids|] eqn:Hids; [|done]. cbn.
  apply (candidates_nonempty _ _ _ _ Hok) in Hids.
  destruct (bset_iter ids) as [|id [|id' rest]] eqn:Hit; [|by destruct (pxs_nodes s !! id)|done].
  destruct Hids. apply bset_first_None. unfold bset_first. by rewrite Hit.
Qed.

Lemma resolve_reference sha256 proxies providers name :
  let s := scan_proxies sha256 proxies (scan_providers sha256 providers) in
  resolve_member name (dom (pxs_groups s)) (pxs_core_ids s) (pxs_candidates s) (pxs_nodes s)
    (match providers with Some _ => ProviderReady | None => ProviderStateUnavailable end) =
  reference_member sha256 proxies providers (pxs_nodes s) name.
Proof.
  intros s. destruct (scans_ok sha256 proxies providers) as (Hok & Hg & Hc). fold s in Hok, Hg, Hc.
  assert (name ∈ dom (pxs_groups s) ↔ is_group_entry proxies name) as Hdom.
  { rewrite elem_of_dom. unfold is_group_entry, is_Some at 1. by setoid_rewrite Hg. }
  unfold reference_member, is_group_entry, proxy_entry in *.
  destruct (decide (name ∈ dom (pxs_groups s))) as [Hin|Hout].
  { unfold resolve_member. rewrite bool_decide_eq_true_2 by done.
    apply Hdom in Hin as ([t a [all|] now p] & -> & Hall); [done|by destruct Hall]. }
  destruct (pxs_core_ids s !! name) as [id|] eqn:Hid.
  { unfold resolve_member. rewrite bool_decide_eq_false_2, Hid by done.
    apply Hc in Hid as (-> & t & a & now & ->). by destruct (pxs_nodes s !! _). }
  assert (match providers with
          | Some _ => match bset_iter (provider_node_ids sha256 proxies providers name) with
                      | [] => MemberUnresolved name MemberMissing []
                      | [id] => MemberNode name id (default ProxyUnavailable (pn_availability <$> pxs_nodes s !! id))
                      | ids => MemberUnresolved name MemberAmbiguous ids
                      end
          | None => MemberUnresolved name MemberProviderUnavailable []
          end = resolve_member name (dom (pxs_groups s)) (pxs_core_ids s) (pxs_candidates s) (pxs_nodes s)
                  (match providers with Some _ => ProviderReady | None => ProviderStateUnavailable end)) as <-.
  { destruct providers as [ps|]; [by rewrite (resolve_by_provider sha256 proxies ps)|].
    unfold resolve_member. by rewrite bool_decide_eq_false_2, Hid by done. }
  destruct (rps_proxies proxies !! name) as [[t a [all|] now [p|]]|] eqn:Hraw.
  1, 2: destruct Hout; apply Hdom; eauto 10.
  1, 3: by destruct providers as [ps|]; [destruct (bset_iter _) as [|? []]|].
  assert (pxs_core_ids s !! name = Some (for_core sha256 name)) by (apply Hc; eauto 10). congruence.
Qed.

(** The answer for a member that occurs. *)
Definition member_answer (group_name node_name : str) (m : ProxyMember) : result NodeSelection SelectionError :=
  match m with
  | MemberGroup _ => Err (TargetIsGroup node_name)
  | MemberNode _ record_id ProxyAvailable => Ok (MkNodeSelection group_name node_name record_id)
  | MemberNode _ _ ProxyUnavailable => Err (NodeUnavailable node_name)
  | MemberUnresolved _ MemberMissing _ => Err (NodeMissing node_name)
  | MemberUnresolved _ MemberAmbiguous ids => Err (NodeAmbiguous node_name ids)
  | MemberUnresolved _ MemberProviderUnavailable _ => Err (ProviderUnavailable node_name)
  end.

Lemma resolve_selection_members sha256 v g n resolve proxy :
  find_group v g = Some (build_group sha256 resolve g proxy) →
  (∀ m, member_name (resolve m) = m) →
  (∀ r ids, resolve n = MemberUnresolved n r ids → if decide (r = MemberAmbiguous)
      then ∃ s : gset str, ids = bset_iter s else ids = []) →
  resolve_exact_selection v g n =
  if negb (eq_ignore_ascii_case (rp_proxy_type proxy) (lit "selector")) then Err (GroupNotSelectable g)
  else if bool_decide (n ∉ default [] (rp_all proxy)) then Err (NodeMissing n)
  else member_answer g n (resolve n).
Proof.
  intros Hf Hname Hun. unfold resolve_exact_selection. rewrite Hf. cbn.
  destruct (eq_ignore_ascii_case _ _); cbn; [|done].
  destruct (filter_resolved resolve n (default [] (rp_all proxy)) Hname) as (k & -> & Hk).
  case_bool_decide as Hin; [by apply Hk in Hin as ->|].
  destruct k as [|k]; [by apply (proj1 Hk) in Hin|]. rewrite selection_loop_replicate.
  specialize (Hname n). destruct (resolve n) as [m|m id [|]|m r ids]; cbn in *; subst; try done.
  - unfold zsize. rewrite size_singleton. cbn. unfold bset_first, bset_iter. by rewrite elements_singleton.
  - specialize (Hun r ids eq_refl). case_decide as Hr; subst.
    + destruct Hun as [s ->]. rewrite orb_true_r. by rewrite bset_iter_of_iter.
    + destruct r; by cbn.
Qed.

Lemma reference_unresolved sha256 proxies providers nodes n r ids :
  reference_member sha256 proxies providers nodes n = MemberUnresolved n r ids →
  if decide (r = MemberAmbiguous) then ∃ s : gset str, ids = bset_iter s else ids = [].
Proof.
  unfold reference_member. set (s := provider_node_ids sha256 proxies providers n).
  destruct (bset_iter s) as [|id [|id' rest]] eqn:Hs; repeat case_match; intros; simplify_eq; eauto.
Qed.

Lemma member_node_answer nodes g n id :
  member_answer g n (MemberNode n id (default ProxyUnavailable (pn_availability <$> nodes !! id))) =
  select_if_up nodes g n id.
Proof. unfold select_if_up. by destruct (nodes !! id) as [[? ? ? [|] ? ?]|]. Qed.

Lemma reference_answer sha256 proxies providers nodes g n :
  member_answer g n (reference_member sha256 proxies providers nodes n) =
  match rps_proxies proxies !! n with
  | Some (MkRawProxy _ _ (Some _) _ _) => Err (TargetIsGroup n)
  | Some (MkRawProxy _ _ None _ None) => select_if_up nodes g n (for_core sha256 n)
  | _ => match providers, bset_iter (provider_node_ids sha256 proxies providers n) with
         | None, _ => Err (ProviderUnavailable n)
         | Some _, [] => Err (NodeMissing n)
         | Some _, [record_id] => select_if_up nodes g n record_id
         | Some _, candidate_ids => Err (NodeAmbiguous n candidate_ids)
         end
  end.
Proof. unfold reference_member. repeat case_match; try done; apply member_node_answer. Qed.

Lemma selection_reference sha256 proxies providers order group_name node_name :
  let v := build_proxy_view sha256 proxies providers order in
  resolve_exact_selection v group_name node_name =
  reference_selection sha256 proxies providers (pv_nodes v) group_name node_name.
Proof.
  intros v. pose proof (find_group_view sha256 proxies providers order group_name) as Hfind. cbv zeta in Hfind.
  destruct (view_fields sha256 proxies providers order) as (Hnodes & _ & Hstate).
  destruct (scans_ok sha256 proxies providers) as (_ & Hg & _). fold v in Hfind, Hnodes, Hstate.
  rewrite Hstate, <-Hnodes in Hfind. unfold reference_selection.
  pose proof (resolve_reference sha256 proxies providers) as Hres. cbv zeta in Hres. rewrite <-Hnodes in Hres.
  set (s := scan_proxies sha256 proxies (scan_providers sha256 providers)) in *.
  destruct (pxs_groups s !! group_name) as [proxy|] eqn:Hproxy; cbn in Hfind.
  - apply Hg in Hproxy as [-> [all Hall]].
    rewrite (resolve_selection_members _ _ _ _ _ _ Hfind);
      [|intros; apply resolve_member_name|rewrite Hres; apply reference_unresolved].
    rewrite Hres. destruct proxy as [t a all' now p]. cbn [rp_all rp_proxy_type] in *. subst all'.
    cbn [default from_option id].
    destruct (eq_ignore_ascii_case _ _); [|done]. cbn [negb]. case_bool_decide; [done|]. rewrite reference_answer. by destruct providers.
  - unfold resolve_exact_selection. rewrite Hfind. cbn. destruct (rps_proxies proxies !! group_name) as [[t a [all|] now p]|] eqn:Hraw; try done.
    assert (pxs_groups s !! group_name = Some (MkRawProxy t a (Some all) now p)) by (apply Hg; eauto). congruence.
Qed.


(** ** Nodes *)

(** No two nodes the documents define have the same identifier. *)
Definition distinct_ids (sha256 : bytes → bytes) (proxies : RawProxies) (providers : option RawProviders)
  : Prop :=
  ∀ a b, defined proxies providers a → defined proxies providers b →
    node_id sha256 a = node_id sha256 b → a = b.

Lemma view_node sha256 proxies providers order source type alive :
  let v := build_proxy_view sha256 proxies providers order in
  distinct_ids sha256 proxies providers → defines proxies providers source type alive →
  ∃ n type' alive', pv_nodes v !! node_id sha256 source = Some n ∧ pn_source n = source ∧
    pn_name n = source_name source ∧ pn_proxy_type n = type' ∧ pn_availability n = availability alive' ∧
    defines proxies providers source type' alive'.
Proof.
  intros v Hd Hdef. destruct (view_fields sha256 proxies providers order) as (Hnodes & _ & _).
  fold v in Hnodes. destruct (scans_ok sha256 proxies providers) as (Hok & _ & _). cbv zeta in Hok.
  rewrite <-Hnodes in Hok. destruct (nodes_complete _ _ _ _ Hok _ _ _ Hdef) as [n Hn].
  destruct (nodes_sound _ _ _ _ Hok _ _ Hn) as (_ & Hid & Hname & a & Ha & Hdef').
  assert (source = pn_source n) as -> by (apply Hd; unfold defined; eauto). eauto 10.
Qed.

Lemma selected_up sha256 proxies providers order source type alive g n selection :
  distinct_ids sha256 proxies providers → defines proxies providers source type alive →
  select_if_up (pv_nodes (build_proxy_view sha256 proxies providers order)) g n (node_id sha256 source)
    = Ok selection →
  selection = MkNodeSelection g n (node_id sha256 source) ∧
  ∃ type, defines proxies providers source type true.
Proof.
  intros Hd Hdef. destruct (view_node sha256 proxies providers order source type alive) as
    (m & ty & al & Hm & _ & _ & _ & Hav & Hdef'); [done..|]. unfold select_if_up. rewrite Hm. cbn.
  rewrite Hav. case_bool_decide; [|done]. intros [= <-]. destruct al; [eauto|done].
Qed.

(** The only candidate of a name that is no core proxy. *)
Lemma only_candidate sha256 proxies providers name id :
  distinct_ids sha256 proxies providers → (∀ t a now, rps_proxies proxies !! name ≠ Some (MkRawProxy t a None now None)) →
  bset_iter (provider_node_ids sha256 proxies providers name) = [id] →
  ∃ source, id = node_id sha256 source ∧ source_name source = name ∧ defined proxies providers source ∧
    ∀ other, defined proxies providers other → source_name other = name → other = source.
Proof.
  intros Hd Hcore Hit.
  assert (∀ i, i ∈ provider_node_ids sha256 proxies providers name ↔ i = id) as Hids
    by (intros i; by rewrite <-elem_of_bset_iter, Hit, list_elem_of_singleton).
  destruct (proj1 (elem_of_provider_node_ids _ _ _ _ _) (proj2 (Hids id) eq_refl)) as (r & ty & al & Hdef & ->).
  exists (FromProvider r name). split_and!; [done..|by eexists _, _|].
  intros [m|r' m] (ty2 & al2 & Hdef2) Hm; cbn in Hm; subst m.
  - destruct Hdef2 as [[? Hc]|[]]. by apply Hcore in Hc.
  - apply Hd; [unfold defined; eauto..|]. apply Hids, elem_of_provider_node_ids. eauto.
Qed.

(** When no two nodes of the documents share an identifier, a selection that
    is accepted names a selector group of the document, a member of it, and the
    identifier of a node of that name that is defined and up; that node is a core
    proxy or the only node of that name. *)
Theorem selection_unambiguous sha256 proxies providers order group_name node_name selection :
  let v := build_proxy_view sha256 proxies providers order in
  distinct_ids sha256 proxies providers →
  resolve_exact_selection v group_name node_name = Ok selection →
  ∃ group all source type,
    rps_proxies proxies !! group_name = Some group ∧ rp_all group = Some all ∧
    eq_ignore_ascii_case (rp_proxy_type group) (lit "selector") = true ∧ node_name ∈ all ∧
    selection = MkNodeSelection group_name node_name (node_id sha256 source) ∧
    source_name source = node_name ∧ defines proxies providers source type true ∧
    (source = FromCore node_name ∨
     ∀ other, defined proxies providers other → source_name other = node_name → other = source).
Proof.
  intros v Hd. unfold v. rewrite selection_reference. fold v. unfold reference_selection.
  destruct (rps_proxies proxies !! group_name) as [[t a [all|] now p]|] eqn:Hg; try done.
  destruct (eq_ignore_ascii_case t _) eqn:Hsel; [|done]. cbn [negb]. case_bool_decide as Hin; [done|].
  intros Hok.
  enough (∃ source type, selection = MkNodeSelection group_name node_name (node_id sha256 source) ∧
    source_name source = node_name ∧ defines proxies providers source type true ∧
    (source = FromCore node_name ∨
     ∀ other, defined proxies providers other → source_name other = node_name → other = source))
    as (source & type & ?) by (by exists (MkRawProxy t a (Some all) now p), all, source, type).
  destruct (rps_proxies proxies !! node_name) as [[t' a' [?|] now' [q|]]|] eqn:Hn; try done.
  2: { destruct (selected_up sha256 proxies providers order (FromCore node_name) t' a' group_name node_name
         selection Hd) as [-> [ty Hdef]]; [by left; eexists|done|].
       exists (FromCore node_name), ty. auto. }
  all: destruct providers as [ps|]; [|done].
  all: destruct (bset_iter _) as [|id [|? ?]] eqn:Hit; try done.
  all: apply only_candidate in Hit as (source & -> & Hname & (ty & al & Hdef) & Honly); [|done|congruence].
  all: destruct (selected_up _ _ _ _ _ _ _ _ _ _ Hd Hdef Hok) as [-> [ty' Hdef']].
  all: exists source, ty'; auto.
Qed.

Lemma provider_loop_ids sha256 p l nodes candidates node_ids :
  (foldl (provider_proxy_step sha256 p) (nodes, candidates, node_ids) l).2 =
  node_ids ++ filter (λ id, id ∉ node_ids) (first_occurrences ((λ q, for_provider sha256 p (rpp_name q)) <$> l)).
Proof.
  revert nodes candidates node_ids. induction l as [|q l IH]; intros nodes candidates node_ids.
  { cbn. by rewrite app_nil_r. }
  cbn [foldl provider_proxy_step]. rewrite IH. csimpl. set (id := for_provider sha256 p (rpp_name q)).
  rewrite filter_cons, filter_and. case_bool_decide as Hin.
  - rewrite decide_False by tauto. f_equal. apply list_filter_iff. intros x. split; [|tauto].
    intros Hx. split; [done|congruence].
  - rewrite decide_True, <-app_assoc by done. cbn. do 2 f_equal. apply list_filter_iff. intros x.
    rewrite elem_of_app, list_elem_of_singleton. tauto.
Qed.

Lemma filter_all {A} (P : A → Prop) `{!∀ x, Decision (P x)} (l : list A) :
  (∀ x, x ∈ l → P x) → filter P l = l.
Proof.
  induction l as [|x l IH]; intros Hall; [done|]. rewrite filter_cons_True by (apply Hall; set_solver).
  f_equal. apply IH. set_solver.
Qed.

Lemma scan_views sha256 providers :
  pvs_views (scan_providers sha256 providers) =
  (λ e : str * RawProvider,
     MkProxyProvider e.1 (provider_vehicle (rpv_vehicle_type e.2))
       (first_occurrences ((λ q, for_provider sha256 e.1 (rpp_name q)) <$> rpv_proxies e.2)))
    <$> btree_iter (default ∅ (rpvs_providers <$> providers)).
Proof.
  unfold scan_providers. apply (foldl_prefix_ind _ (λ l acc, pvs_views acc = _ <$> l)); [done|].
  intros l [p provider] acc IH. rewrite fmap_app, <-IH. cbn.
  pose proof (provider_loop_ids sha256 p (rpv_proxies provider) (pvs_nodes acc) (pvs_candidates acc) []) as Hids.
  destruct (foldl _ _ _) as [[ns cs] ids]. cbn in *. rewrite Hids. do 3 f_equal.
  apply filter_all. intros x _. apply not_elem_of_nil.
Qed.

(** A member that is a node is a node of the view. *)
Lemma member_in_view sha256 proxies providers order g name id av :
  let v := build_proxy_view sha256 proxies providers order in
  distinct_ids sha256 proxies providers → g ∈ pv_groups v → MemberNode name id av ∈ pg_members g →
  ∃ n, pv_nodes v !! id = Some n ∧ pn_name n = name ∧ pn_availability n = av.
Proof.
  intros v Hd Hg Hm. pose proof (view_groups sha256 proxies providers order) as Hv. cbv zeta in Hv.
  fold v in Hv. rewrite Hv in Hg. apply list_elem_of_omap in Hg as (x & _ & (q & _ & ->)%fmap_Some).
  cbn in Hm. apply list_elem_of_fmap in Hm as (y & Hm & _).
  destruct (view_fields sha256 proxies providers order) as (Hnodes & _ & Hst). fold v in Hnodes, Hst.
  rewrite Hst, resolve_reference, <-Hnodes in Hm. unfold reference_member in Hm.
  assert (∀ source, defined proxies providers source → source_name source = y →
    MemberNode name id av = MemberNode y (node_id sha256 source)
      (default ProxyUnavailable (pn_availability <$> pv_nodes v !! node_id sha256 source)) →
    ∃ n, pv_nodes v !! id = Some n ∧ pn_name n = name ∧ pn_availability n = av) as Hnode.
  { intros source (ty & al & Hdef) <- [= -> -> ->].
    destruct (view_node sha256 proxies providers order source ty al) as (n & ? & ? & Hn & _ & Hname & _); [done..|].
    fold v in Hn. rewrite Hn. eauto. }
  destruct (rps_proxies proxies !! y) as [[t a [?|] now [r|]]|] eqn:Hy; try done.
  2: { apply (Hnode (FromCore y)); [|done..]. eexists _, _. left. by eexists. }
  all: destruct providers as [ps|]; [|done].
  all: destruct (bset_iter _) as [|i [|? ?]] eqn:Hit; try done.
  all: apply only_candidate in Hit as (source & -> & Hname & Hdef & _); [|done|congruence].
  all: by apply (Hnode source).
Qed.


(** ** Pages of a group *)

(** A page of a group's rows is the slice of all its rows at that offset,
    with their number; every member has its row, in order. *)
Theorem node_rows_page_slice v group_name probe_views offset limit :
  0 ≤ offset → 0 ≤ limit →
  (∀ g, g ∈ pv_groups v → zlen (pg_members g) ≤ u64_max) →
  node_rows_page v group_name probe_views offset limit =
  (let? rows := node_rows v group_name probe_views in
   Ok (zlen rows, take (Z.to_nat limit) (drop (Z.to_nat offset) rows))) ∧
  (∀ g rows, find_group v group_name = Some g → node_rows v group_name probe_views = Ok rows →
     nr_name <$> rows = member_name <$> pg_members g).
Proof.
  intros Ho Hl Hmem. unfold node_rows, node_rows_page. destruct (find_group v group_name) as [g|] eqn:Hg; [|done].
  assert (zlen (pg_members g) ≤ u64_max) as Hlen.
  { apply Hmem. unfold find_group in Hg. destruct (list_find _ _) as [[i x]|] eqn:Hf; simplify_eq/=.
    apply list_find_Some in Hf as [Hf _]. by eapply list_elem_of_lookup_2. }
  pose proof (zlen_nonneg (pg_members g)). cbn. set (row := λ m, node_row v g m probe_views).
  rewrite !get_range_page by u64_lia. cbn. rewrite drop_0.
  assert (take (Z.to_nat u64_max) (pg_members g) = pg_members g) as -> by (apply take_ge; u64_lia).
  split.
  - unfold zlen. by rewrite fmap_take, fmap_drop, length_fmap.
  - intros ? rows [= <-] [= <-]. rewrite <-list_fmap_compose. apply list_fmap_ext. intros i m _. by destruct m.
Qed.

(** ** Examples *)

#[global] Instance NodeSource_eq_dec : EqDecision NodeSource.
Proof. solve_decision. Defined.

(** The sources the documents define, listed. *)
Definition sources (proxies : RawProxies) (providers : option RawProviders) : list NodeSource :=
  ((λ e : str * RawProxy, match rp_provider e.2 with
                          | None => FromCore e.1
                          | Some p => FromProvider p e.1
                          end) <$> filter (λ e : str * RawProxy, rp_all e.2 = None)
                                     (btree_iter (rps_proxies proxies))) ++
  (btree_iter (default ∅ (rpvs_providers <$> providers)) ≫= λ e : str * RawProvider,
     (λ q, FromProvider e.1 (rpp_name q)) <$> rpv_proxies e.2).

Lemma defined_sources proxies providers source :
  defined proxies providers source → source ∈ sources proxies providers.
Proof.
  intros (t & a & [He|Hl]); unfold sources; rewrite elem_of_app; [left|right].
  - rewrite list_elem_of_fmap. destruct source as [n|p n]; destruct He as [now He%elem_of_btree_iter];
      eexists; (split; [|by apply list_elem_of_filter; split; [|exact He]]); done.
  - destruct source as [|p n]; [done|]. destruct Hl as (ps & r & -> & Hr & Hin).
    apply list_elem_of_bind. exists (p, r). split; [|by apply elem_of_btree_iter].
    by apply (list_elem_of_fmap_2 (λ q, FromProvider p (rpp_name q))) in Hin.
Qed.

Lemma distinct_ids_of_sources sha256 proxies providers :
  Forall (λ a, Forall (λ b, node_id sha256 a = node_id sha256 b → a = b) (sources proxies providers))
    (sources proxies providers) →
  distinct_ids sha256 proxies providers.
Proof.
  intros Hall a b Ha%defined_sources Hb%defined_sources. rewrite Forall_forall in Hall.
  specialize (Hall a Ha). rewrite Forall_forall in Hall. by apply Hall.
Qed.

(** Two groups, a core proxy, a proxy of one provider and one of two. *)
Definition sample_proxies_json : Json :=
  JObject [(lit "proxies", JObject
    [(lit "Auto", JObject [(lit "type", JString (lit "Selector")); (lit "alive", JBool true);
                           (lit "all", JArray (JString <$> [lit "HK"; lit "US"; lit "DIRECT"; lit "Fast"]));
                           (lit "now", JString (lit "HK")); (lit "load", JFloat (lit "0.5"))]);
     (lit "Fast", JObject [(lit "type", JString (lit "URLTest")); (lit "all", JArray [JString (lit "HK")])]);
     (lit "DIRECT", JArray [JString (lit "Direct"); JBool true])])].

Definition sample_providers_json : Json :=
  JObject [(lit "providers", JObject
    [(lit "one", JObject [(lit "vehicleType", JString (lit "HTTP"));
       (lit "proxies", JArray [JObject [(lit "name", JString (lit "HK")); (lit "type", JString (lit "Ss")); (lit "alive", JBool true)];
                               JObject [(lit "name", JString (lit "US")); (lit "type", JString (lit "Ss"))]])]);
     (lit "two", JObject [(lit "vehicleType", JString (lit "File"));
       (lit "proxies", JArray [JArray [JString (lit "US"); JString (lit "Vmess"); JBool true]])])])].

Definition sample_proxies : RawProxies :=
  default (MkRawProxies ∅) (raw_proxies_of_json sample_proxies_json).
Definition sample_providers : option RawProviders := raw_providers_of_json sample_providers_json.
Definition sample_view : ProxyView :=
  build_proxy_view sample_sha256 sample_proxies sample_providers [lit "Fast"; lit "Gone"; lit "Fast"].

Lemma sample_distinct : distinct_ids sample_sha256 sample_proxies sample_providers.
Proof. apply distinct_ids_of_sources, (bool_decide_unpack _). by vm_compute. Qed.

Example sample_answers :
  resolve_exact_selection sample_view (lit "Auto") (lit "HK")
    = Ok (MkNodeSelection (lit "Auto") (lit "HK") (for_provider sample_sha256 (lit "one") (lit "HK"))) ∧
  resolve_exact_selection sample_view (lit "Auto") (lit "Fast") = Err (TargetIsGroup (lit "Fast")) ∧
  resolve_exact_selection sample_view (lit "Fast") (lit "HK") = Err (GroupNotSelectable (lit "Fast")) ∧
  (pg_name <$> pv_groups sample_view) = [lit "Fast"; lit "Auto"].
Proof. by vm_compute. Qed.

Lemma selection_unambiguous_witness :
  ∃ group all source type,
    rps_proxies sample_proxies !! lit "Auto" = Some group ∧ rp_all group = Some all ∧
    eq_ignore_ascii_case (rp_proxy_type group) (lit "selector") = true ∧ lit "HK" ∈ all ∧
    MkNodeSelection (lit "Auto") (lit "HK") (for_provider sample_sha256 (lit "one") (lit "HK")) =
      MkNodeSelection (lit "Auto") (lit "HK") (node_id sample_sha256 source) ∧
    source_name source = lit "HK" ∧ defines sample_proxies sample_providers source type true ∧
    (source = FromCore (lit "HK") ∨
     ∀ other, defined sample_proxies sample_providers other → source_name other = lit "HK" → other = source).
Proof.
  apply (selection_unambiguous sample_sha256 sample_proxies sample_providers [lit "Fast"; lit "Gone"; lit "Fast"]).
  - apply sample_distinct.
  - by vm_compute.
Defined.


Lemma node_rows_page_slice_witness :
  node_rows_page sample_view (lit "Auto") ∅ 1 2 =
  (let? rows := node_rows sample_view (lit "Auto") ∅ in
   Ok (zlen rows, take 2 (drop 1 rows))).
Proof.
  apply (node_rows_page_slice sample_view (lit "Auto") ∅ 1 2); [lia..|].
  intros g Hg. assert (Forall (λ g, zlen (pg_members g) ≤ u64_max) (pv_groups sample_view)) as Hall
    by (apply (bool_decide_unpack _); by vm_compute).
  rewrite Forall_forall in Hall. by apply Hall.
Defined.
