(* ===== verification/Mihomo.v ===== *)
(** * Mihomo: the JSON responses of the core's controller (the second half of
    src/core.rs)

    [MihomoJsonCodec] reads the version, delay, traffic, connections and log
    documents; connection records are cut to the product's limits.
    [json_from_slice] is a parameter.  Theorem: whatever the core sends, the
    records kept are bounded, and a cut field is the longest prefix of whole
    characters that fits. *)

From S2P Require Import Prelude Text Ordered Constants Json Domain ProxyView.
Local Open Scope Z_scope.

(** ** Data *)

Record MihomoVersion := MkMihomoVersion {
  mv_version : str;
  mv_meta : bool;
}.

Inductive DelayTarget :=
| TargetCoreProxy (proxy_name : str)
| TargetProviderProxy (provider_name proxy_name : str).

Record DelayProbeRequest := MkDelayProbeRequest {
  dpr_record_id : str;
  dpr_target : DelayTarget;
  dpr_test_url : str;
  dpr_timeout_ms : Z;
}.

Definition target_from_node (n : ProxyNode) : DelayTarget :=
  match pn_source n with
  | FromCore proxy_name => TargetCoreProxy proxy_name
  | FromProvider provider_name proxy_name => TargetProviderProxy provider_name proxy_name
  end.

Record TrafficFrame := MkTrafficFrame {
  tf_upload_bytes_per_second : Z;
  tf_download_bytes_per_second : Z;
}.

Record ConnectionSummary := MkConnectionSummary {
  cs_active_connections : Z;
  cs_upload_total_bytes : Z;
  cs_download_total_bytes : Z;
  cs_memory_bytes : option Z;
  cs_connections : list ConnectionRecord;
}.

Inductive MihomoLogLevel := MihomoDebug | MihomoInfo | MihomoWarn | MihomoError.

Record MihomoLogFrame := MkMihomoLogFrame {
  mlf_level : MihomoLogLevel;
  mlf_message : str;
}.

(** ** Raw documents *)

Record RawConnectionMetadata := MkRawConnectionMetadata {
  rcm_network : str;
  rcm_host : str;
  rcm_sniff_host : str;
  rcm_destination_ip : str;
  rcm_destination_port : str;
}.

Record RawConnection := MkRawConnection {
  rcn_id : str;
  rcn_metadata : RawConnectionMetadata;
  rcn_chains : list str;
  rcn_rule : str;
  rcn_rule_payload : str;
  rcn_upload : Z;
  rcn_download : Z;
}.

Record RawConnections := MkRawConnections {
  rcs_upload_total : Z;
  rcs_download_total : Z;
  rcs_memory : option Z;
  rcs_connections : list RawConnection;
}.

(** [deny_unknown_fields] with defaults. *)
Definition json_strict_default (names : list str) (j : Json) : option (list (str * Json)) :=
  fields ← json_struct_default names j;
  if json_known_fields names fields then Some fields else None.

Definition json_u64 : Json → option Z := json_uint u64_max.

Definition raw_version_of_json (j : Json) : option (str * bool) :=
  fields ← json_strict_default [lit "version"; lit "meta"; lit "premium"] j;
  version ← json_required fields (lit "version") json_str;
  meta ← json_default fields (lit "meta") json_bool false;
  _ ← json_default fields (lit "premium") json_bool false;
  Some (version, meta).

Definition raw_delay_of_json (j : Json) : option Z :=
  fields ← json_strict_struct [lit "delay"] j;
  json_required fields (lit "delay") json_u64.

Definition raw_traffic_of_json (j : Json) : option (Z * Z) :=
  fields ← json_strict_default [lit "up"; lit "down"; lit "upTotal"; lit "downTotal"] j;
  up ← json_required fields (lit "up") json_u64;
  down ← json_required fields (lit "down") json_u64;
  _ ← json_default fields (lit "upTotal") json_u64 0;
  _ ← json_default fields (lit "downTotal") json_u64 0;
  Some (up, down).

Definition raw_metadata_of_json (j : Json) : option RawConnectionMetadata :=
  fields ← json_struct_default
             [lit "network"; lit "host"; lit "sniffHost"; lit "destinationIP"; lit "destinationPort"] j;
  network ← json_default fields (lit "network") json_str [];
  host ← json_default fields (lit "host") json_str [];
  sniff_host ← json_default fields (lit "sniffHost") json_str [];
  destination_ip ← json_default fields (lit "destinationIP") json_str [];
  destination_port ← json_default fields (lit "destinationPort") json_str [];
  Some (MkRawConnectionMetadata network host sniff_host destination_ip destination_port).

Definition raw_connection_of_json (j : Json) : option RawConnection :=
  fields ← json_struct_default
             [lit "id"; lit "metadata"; lit "chains"; lit "rule"; lit "rulePayload"; lit "upload";
              lit "download"] j;
  id ← json_default fields (lit "id") json_str [];
  metadata ← json_default fields (lit "metadata") raw_metadata_of_json
               (MkRawConnectionMetadata [] [] [] [] []);
  chains ← json_default fields (lit "chains") (json_vec json_str) [];
  rule ← json_default fields (lit "rule") json_str [];
  rule_payload ← json_default fields (lit "rulePayload") json_str [];
  upload ← json_default fields (lit "upload") json_u64 0;
  download ← json_default fields (lit "download") json_u64 0;
  Some (MkRawConnection id metadata chains rule rule_payload upload download).

Definition raw_connections_of_json (j : Json) : option RawConnections :=
  fields ← json_strict_default [lit "uploadTotal"; lit "downloadTotal"; lit "memory"; lit "connections"] j;
  upload_total ← json_required fields (lit "uploadTotal") json_u64;
  download_total ← json_required fields (lit "downloadTotal") json_u64;
  memory ← json_default fields (lit "memory") (json_nullable json_u64) None;
  connections ← json_required fields (lit "connections") (json_vec raw_connection_of_json);
  Some (MkRawConnections upload_total download_total memory connections).

Definition raw_log_of_json (j : Json) : option (str * str) :=
  fields ← json_strict_struct [lit "type"; lit "payload"] j;
  kind ← json_required fields (lit "type") json_str;
  payload ← json_required fields (lit "payload") json_str;
  Some (kind, payload).

(** ** Bounded fields *)

(** [str::is_char_boundary] *)
Fixpoint is_char_boundary (s : str) (index : Z) : bool :=
  if index =? 0 then true
  else match s with
       | [] => false
       | c :: s' => if index <? char_len_utf8 c then false
                    else is_char_boundary s' (index - char_len_utf8 c)
       end.

(** [while !value.is_char_boundary(boundary) { boundary -= 1 }]: it ends at 0 at
    the latest. *)
Fixpoint floor_boundary (s : str) (boundary : nat) : Z :=
  if is_char_boundary s (Z.of_nat boundary) then Z.of_nat boundary
  else match boundary with
       | O => 0
       | S boundary' => floor_boundary s boundary'
       end.

(** [String::truncate] at a character boundary. *)
Fixpoint truncate (s : str) (len : Z) : str :=
  match s with
  | [] => []
  | c :: s' => if len <=? 0 then [] else c :: truncate s' (len - char_len_utf8 c)
  end.

Definition bounded_connection_field (value : str) : str :=
  if CONNECTION_FIELD_MAX_BYTES <? str_len value
  then truncate value (floor_boundary value (Z.to_nat CONNECTION_FIELD_MAX_BYTES))
  else value.

Definition bounded_optional_connection_field (value : str) : option str :=
  let value := bounded_connection_field value in
  if bool_decide (value = []) then None else Some value.

Definition project_connection (c : RawConnection) : ConnectionRecord :=
  let m := rcn_metadata c in
  MkConnectionRecord (bounded_connection_field (rcn_id c))
    (bounded_connection_field (rcm_network m))
    (match bounded_optional_connection_field (rcm_host m) with
     | Some host => Some host
     | None => bounded_optional_connection_field (rcm_sniff_host m)
     end)
    (bounded_optional_connection_field (rcm_destination_ip m))
    (bounded_optional_connection_field (rcm_destination_port m))
    (bounded_connection_field <$> take (Z.to_nat CONNECTION_CHAIN_CAPACITY) (rcn_chains c))
    (bounded_connection_field (rcn_rule c))
    (bounded_optional_connection_field (rcn_rule_payload c))
    (rcn_upload c) (rcn_download c).

(** ** The codec *)

Section codec.
Context (json_from_slice : bytes → option Json).

Definition parse_response {A} (of_json : Json → option A) (json : bytes) (kind : ProjectionErrorKind)
  : result A ProjectionErrorKind :=
  ok_or (json_from_slice json ≫= of_json) kind.

Definition codec_version (json : bytes) : result MihomoVersion ProjectionErrorKind :=
  let? raw := parse_response raw_version_of_json json ProjectionVersion in
  Ok (MkMihomoVersion raw.1 raw.2).

(** [u16::try_from] *)
Definition codec_delay (json : bytes) : result Z ProjectionErrorKind :=
  let? delay := parse_response raw_delay_of_json json ProjectionDelay in
  if delay <=? 65535 then Ok delay else Err ProjectionDelay.

Definition codec_traffic (json : bytes) : result TrafficFrame ProjectionErrorKind :=
  let? raw := parse_response raw_traffic_of_json json ProjectionTraffic in
  Ok (MkTrafficFrame raw.1 raw.2).

Definition codec_connections (json : bytes) : result ConnectionSummary ProjectionErrorKind :=
  let? raw := parse_response raw_connections_of_json json ProjectionConnections in
  if zlen (rcs_connections raw) <=? u64_max then
    Ok (MkConnectionSummary (zlen (rcs_connections raw)) (rcs_upload_total raw) (rcs_download_total raw)
          (rcs_memory raw)
          (project_connection <$> take (Z.to_nat CONNECTION_RECORD_CAPACITY) (rcs_connections raw)))
  else Err ProjectionConnections.

Definition log_level (kind : str) : option MihomoLogLevel :=
  let kind := to_ascii_lowercase kind in
  if bool_decide (kind = lit "debug") then Some MihomoDebug
  else if bool_decide (kind = lit "info") then Some MihomoInfo
  else if bool_decide (kind = lit "warning") || bool_decide (kind = lit "warn") then Some MihomoWarn
  else if bool_decide (kind = lit "error") then Some MihomoError
  else None.

Definition codec_log (json : bytes) : result MihomoLogFrame ProjectionErrorKind :=
  let? raw := parse_response raw_log_of_json json ProjectionLog in
  let? level := ok_or (log_level raw.1) ProjectionLog in
  Ok (MkMihomoLogFrame level raw.2).

End codec.

(** ** Bounds *)

Lemma char_len_bounds c : 1 ≤ char_len_utf8 c ≤ 4.
Proof. unfold char_len_utf8. repeat case_match; lia. Qed.

Lemma boundary_prefix s n :
  0 ≤ n → is_char_boundary s n = true →
  str_len (truncate s n) = n ∧ ∃ rest, s = truncate s n ++ rest.
Proof.
  revert n. induction s as [|c s IH]; intros n Hn; cbn [is_char_boundary truncate].
  - destruct (Z.eqb_spec n 0) as [->|]; [|done]. eauto.
  - destruct (Z.eqb_spec n 0) as [->|Hne]; [intros _; split; [done|by exists (c :: s)]|].
    destruct (Z.ltb_spec n (char_len_utf8 c)); [done|]. intros Hb.
    destruct (IH (n - char_len_utf8 c)) as (Hl & rest & Hs); [lia|done|].
    destruct (Z.leb_spec n 0); [lia|]. split; [simpl; rewrite Hl; lia|]. exists rest. simpl. by f_equal.
Qed.

(** A prefix that ends between characters ends at a boundary. *)
Lemma prefix_boundary p rest : is_char_boundary (p ++ rest) (str_len p) = true.
Proof.
  induction p as [|c p IH]; [by destruct rest|]. cbn [app is_char_boundary str_len].
  pose proof (char_len_bounds c). pose proof (str_len_nonneg p).
  destruct (Z.eqb_spec (char_len_utf8 c + str_len p) 0); [done|].
  destruct (Z.ltb_spec (char_len_utf8 c + str_len p) (char_len_utf8 c)); [lia|].
  by replace (char_len_utf8 c + str_len p - char_len_utf8 c) with (str_len p) by lia.
Qed.

Lemma floor_boundary_spec s n :
  0 ≤ floor_boundary s n ≤ Z.of_nat n ∧ is_char_boundary s (floor_boundary s n) = true ∧
  ∀ m, floor_boundary s n < m ≤ Z.of_nat n → is_char_boundary s m = false.
Proof.
  induction n as [|n (Hb & Hf & Hm)]; cbn [floor_boundary].
  - assert (is_char_boundary s (Z.of_nat 0) = true) as -> by (by destruct s). split_and!; [lia..|by destruct s|].
    intros m Hm. lia.
  - destruct (is_char_boundary s (Z.of_nat (S n))) eqn:Hs; [split_and!; [lia..|done|intros; lia]|].
    split_and!; [lia..|done|]. intros m Hmm. destruct (decide (m = Z.of_nat (S n))) as [->|]; [done|].
    apply Hm. lia.
Qed.

(** A bounded field is the longest prefix of whole characters within the limit. *)
Lemma bounded_field_spec s :
  let b := bounded_connection_field s in
  (∃ rest, s = b ++ rest) ∧ str_len b ≤ CONNECTION_FIELD_MAX_BYTES ∧
  ∀ p rest, s = p ++ rest → str_len p ≤ CONNECTION_FIELD_MAX_BYTES → str_len p ≤ str_len b.
Proof.
  intros b. unfold b, bounded_connection_field.
  assert (0 ≤ CONNECTION_FIELD_MAX_BYTES) as Hmax by done. set (max := CONNECTION_FIELD_MAX_BYTES) in *. clearbody max.
  destruct (Z.ltb_spec max (str_len s)) as [Hlt|Hge].
  - destruct (floor_boundary_spec s (Z.to_nat max)) as (Hb & Hf & Hm).
    set (n := floor_boundary s _) in *. destruct (boundary_prefix s n) as (Hl & rest & Hs); [lia|done|].
    split_and!; [eauto|rewrite Hl; lia|]. intros p rest' -> Hp. rewrite Hl.
    destruct (decide (str_len p ≤ n)); [done|]. specialize (Hm (str_len p)).
    rewrite prefix_boundary in Hm. discriminate Hm. lia.
  - split_and!; [exists []; by rewrite app_nil_r|lia|]. intros p rest -> _. rewrite str_len_app.
    pose proof (str_len_nonneg rest). lia.
Qed.

(** A field within the limit. *)
Definition field_ok (s : str) : Prop := str_len s ≤ CONNECTION_FIELD_MAX_BYTES.
Definition optional_field_ok (o : option str) : Prop := ∀ s, o = Some s → s ≠ [] ∧ field_ok s.

Definition connection_ok (c : ConnectionRecord) : Prop :=
  field_ok (cr_id c) ∧ field_ok (cr_network c) ∧ optional_field_ok (cr_host c) ∧
  optional_field_ok (cr_destination_ip c) ∧ optional_field_ok (cr_destination_port c) ∧
  zlen (cr_chains c) ≤ CONNECTION_CHAIN_CAPACITY ∧ Forall field_ok (cr_chains c) ∧
  field_ok (cr_rule c) ∧ optional_field_ok (cr_rule_payload c).

Lemma bounded_field_ok s : field_ok (bounded_connection_field s).
Proof. by destruct (bounded_field_spec s) as (_ & ? & _). Qed.

Lemma bounded_optional_ok s : optional_field_ok (bounded_optional_connection_field s).
Proof.
  intros t. unfold bounded_optional_connection_field. case_bool_decide; [done|]. intros [= <-].
  split; [done|apply bounded_field_ok].
Qed.

Lemma zlen_take {A} (l : list A) n : 0 ≤ n → zlen (take (Z.to_nat n) l) ≤ n.
Proof. intros. unfold zlen. rewrite length_take. lia. Qed.

Lemma project_connection_ok c : connection_ok (project_connection c).
Proof.
  unfold connection_ok, project_connection. cbn. split_and!;
    try apply bounded_field_ok; try apply bounded_optional_ok.
  - destruct (bounded_optional_connection_field (rcm_host (rcn_metadata c))) eqn:Hh; [|apply bounded_optional_ok].
    rewrite <-Hh. apply bounded_optional_ok.
  - unfold zlen. rewrite length_fmap. by apply zlen_take.
  - apply Forall_fmap, Forall_true. intros s. apply bounded_field_ok.
Qed.

Lemma required_u64 fields name n : json_required fields name json_u64 = Some n → in_u64 n.
Proof.
  unfold json_required, json_u64, json_uint. intros (o & _ & (j & _ & Hj)%bind_Some)%bind_Some.
  destruct j; try done. destruct (Z.leb_spec 0 value), (Z.leb_spec value u64_max); by simplify_eq/=.
Qed.

Lemma raw_connections_u64 j raw :
  raw_connections_of_json j = Some raw → in_u64 (rcs_upload_total raw) ∧ in_u64 (rcs_download_total raw).
Proof.
  unfold raw_connections_of_json. intros (fields & _ & H)%bind_Some.
  apply bind_Some in H as (up & Hup & H). apply bind_Some in H as (down & Hdown & H).
  apply bind_Some in H as (mem & _ & H). apply bind_Some in H as (cs & _ & H). simplify_eq/=.
  split; by eapply required_u64.
Qed.

(** C36: Whatever bytes the core answers, a decoded connections document keeps at
    most the product's number of records, every field and chain of them within
    its byte and count limit and no optional field empty, while the counters are
    64-bit and count all connections; a decoded delay is a 16-bit number. *)
Theorem codec_bounded json_from_slice json summary delay :
  (codec_connections json_from_slice json = Ok summary →
   zlen (cs_connections summary) ≤ CONNECTION_RECORD_CAPACITY ∧
   Forall connection_ok (cs_connections summary) ∧
   in_u64 (cs_active_connections summary) ∧ in_u64 (cs_upload_total_bytes summary) ∧
   in_u64 (cs_download_total_bytes summary) ∧
   zlen (cs_connections summary) = Z.min (cs_active_connections summary) CONNECTION_RECORD_CAPACITY) ∧
  (codec_delay json_from_slice json = Ok delay → 0 ≤ delay ≤ 65535).
Proof.
  split.
  - unfold codec_connections, parse_response. intros H.
    destruct (json_from_slice json ≫= raw_connections_of_json) as [raw|] eqn:Hraw; [|done]. cbn in H.
    destruct (Z.leb_spec (zlen (rcs_connections raw)) u64_max) as [Hlen|]; [|done]. injection H as <-. cbn.
    assert (in_u64 (rcs_upload_total raw) ∧ in_u64 (rcs_download_total raw)) as [? ?].
    { apply bind_Some in Hraw as (j & _ & Hj). eapply raw_connections_u64, Hj. }
    split_and!; [..|done|done|].
    + unfold zlen. rewrite length_fmap. by apply zlen_take.
    + apply Forall_fmap, Forall_true, project_connection_ok.
    + split; [apply zlen_nonneg|done].
    + unfold zlen. rewrite length_fmap, length_take. unfold CONNECTION_RECORD_CAPACITY. lia.
  - unfold codec_delay, parse_response. intros H.
    destruct (json_from_slice json ≫= raw_delay_of_json) as [d|] eqn:Hraw; [|done]. cbn in H.
    destruct (Z.leb_spec d 65535); [|done]. injection H as <-. split; [|done].
    apply bind_Some in Hraw as (j & _ & Hj). unfold raw_delay_of_json in Hj.
    apply bind_Some in Hj as (fields & _ & Hj). by apply required_u64 in Hj as [? _].
Qed.

Definition sample_connections : Json :=
  JObject [(lit "uploadTotal", JNumber 7); (lit "downloadTotal", JNumber 9); (lit "memory", JNull);
           (lit "connections",
             JArray [JObject [(lit "id", JString (replicate 600 8364%N)); (lit "chains", JArray [JString (lit "A")])]])].

(** 170 characters of three bytes fit into 512. *)
Example long_field_cut : bounded_connection_field (replicate 600 8364%N) = replicate 170 8364%N.
Proof. by vm_compute. Qed.

Lemma codec_bounded_witness :
  ∃ summary, codec_connections (λ _, Some sample_connections) [] = Ok summary ∧
    Forall connection_ok (cs_connections summary) ∧ cs_active_connections summary = 1.
Proof.
  destruct (codec_connections (λ _, Some sample_connections) []) as [summary|e] eqn:H; [|by vm_compute in H].
  exists summary. split; [done|].
  destruct (proj1 (codec_bounded (λ _, Some sample_connections) [] summary 0) H) as (_ & ? & _). split; [done|].
  vm_compute in H. by injection H as <-.
Defined.
