(* ===== verification/Telemetry.v ===== *)
(** * Telemetry: the core log buffer and the telemetry store (src/telemetry.rs)

    [LogBuffer] keeps the newest log lines within a count and a byte limit and
    numbers every line, also the ones it drops; [TelemetryStore] keeps what the
    current core instance published.  Operations that take [&mut self] return
    the result and the state after the call.  [str::to_lowercase] is a
    parameter of [query]. *)

From S2P Require Import Prelude Text Ordered Constants Domain.
Local Open Scope Z_scope.

Definition LOG_TAIL_ENVELOPE_MAX_BYTES : Z := 512.
Definition LOG_RECORD_FIXED_MAX_BYTES : Z := 256.

Inductive LogLevel := Debug | Info | Warn | Error.
Inductive LogSource := CoreApi | Stdout | Stderr.

#[global] Instance LogLevel_eq_dec : EqDecision LogLevel.
Proof. solve_decision. Defined.

Record CoreLogRecord := MkCoreLogRecord {
  sequence : Z;
  timestamp_unix_ms : Z;
  level : LogLevel;
  source : LogSource;
  message : str;
}.

Record LogFilter := MkLogFilter {
  lf_level : option LogLevel;
  lf_contains : option str;
  lf_since_unix_ms : option Z;
  lf_until_unix_ms : option Z;
}.

Record LogTail := MkLogTail {
  lt_records : list CoreLogRecord;
  lt_dropped_total : Z;
  lt_gap : bool;
  lt_earliest_sequence : option Z;
  lt_latest_sequence : option Z;
  lt_sequence_horizon : option Z;
}.

Inductive TelemetryError :=
| InvalidLimit
| LogLineTooLarge (limit : Z)
| SequenceExhausted.

Record LogBuffer := MkLogBuffer {
  capacity : Z;
  max_line_bytes : Z;
  next_sequence : Z;
  dropped_total : Z;
  retained_bytes : Z;
  records : list CoreLogRecord;
}.

Definition log_buffer_new (cap max_line : Z) : result LogBuffer TelemetryError :=
  if (cap =? 0) || (max_line =? 0) then Err InvalidLimit
  else Ok (MkLogBuffer cap max_line 1 0 0 []).

(** The eviction loop of [push]: it ends when the condition fails or the queue
    is empty. *)
Fixpoint evict (cap incoming : Z) (records : list CoreLogRecord) (retained dropped : Z)
  : list CoreLogRecord * (Z * Z) :=
  if (zlen records =? cap) || (LOG_RETENTION_MAX_BYTES <? saturating_add retained incoming)
  then match records with
       | [] => (records, (retained, dropped))
       | r :: records' =>
           evict cap incoming records' (saturating_sub retained (str_len (message r)))
             (saturating_add dropped 1)
       end
  else (records, (retained, dropped)).

Definition push (b : LogBuffer) (timestamp : Z) (lvl : LogLevel) (src : LogSource) (msg : str)
  : result Z TelemetryError * LogBuffer :=
  if max_line_bytes b <? str_len msg then (Err (LogLineTooLarge (max_line_bytes b)), b)
  else if LOG_RETENTION_MAX_BYTES <? str_len msg
  then (Err (LogLineTooLarge LOG_RETENTION_MAX_BYTES), b)
  else
    let seq := next_sequence b in
    match checked_add (next_sequence b) 1 with
    | None => (Err SequenceExhausted, b)
    | Some next =>
        let '(kept, (retained, dropped)) :=
          evict (capacity b) (str_len msg) (records b) (retained_bytes b) (dropped_total b) in
        (Ok seq,
         MkLogBuffer (capacity b) (max_line_bytes b) next dropped
           (saturating_add retained (str_len msg))
           (kept ++ [MkCoreLogRecord seq timestamp lvl src msg]))
    end.

Definition record_external_drop (b : LogBuffer) (count : Z)
  : result unit TelemetryError * LogBuffer :=
  if count =? 0 then (Ok tt, b)
  else
    match checked_add (next_sequence b) count with
    | None => (Err SequenceExhausted, b)
    | Some next =>
        (Ok tt,
         MkLogBuffer (capacity b) (max_line_bytes b) next (saturating_add (dropped_total b) count)
           (retained_bytes b) (records b))
    end.

(** ** Reading the buffer *)

Definition encoded_byte (b : byte) : Z :=
  if ((b =? 34) || (b =? 92) || (b =? 8) || (b =? 9) || (b =? 10) || (b =? 12) || (b =? 13))%N
  then 2
  else if (b <=? 31)%N then 6
  else 1.

Definition encoded_json_string_bytes (value : str) : Z :=
  foldl (λ encoded b, saturating_add encoded (encoded_byte b)) 2 (utf8 value).

Definition encoded_record_upper_bound (r : CoreLogRecord) : Z :=
  saturating_add LOG_RECORD_FIXED_MAX_BYTES (encoded_json_string_bytes (message r)).

Fixpoint records_have_gap (records : list CoreLogRecord) : bool :=
  match records with
  | a :: ((b :: _) as rest) =>
      match checked_add (sequence a) 1 with
      | None => true
      | Some expected => negb (sequence b =? expected)
      end || records_have_gap rest
  | _ => false
  end.

Fixpoint gap_loop (expected : Z) (records : list CoreLogRecord) (next : Z) : bool :=
  match records with
  | [] => expected <? next
  | r :: records' =>
      if expected <? sequence r then true
      else gap_loop (saturating_add (sequence r) 1) records' next
  end.

Definition sequence_has_gap (after : Z) (records : list CoreLogRecord) (next : Z) : bool :=
  match checked_add after 1 with
  | None => false
  | Some expected => gap_loop expected records next
  end.

(** The loop of [tail_after] over the newest records first; the accumulator is
    in the order of the buffer, and the flag is [truncated]. *)
Fixpoint tail_loop (newest_first acc : list CoreLogRecord) (delivery_bytes : Z)
  : list CoreLogRecord * bool :=
  match newest_first with
  | [] => (acc, false)
  | r :: rest =>
      let record_bytes := encoded_record_upper_bound r in
      if (zlen acc =? LOG_TAIL_MAX_RECORDS)
         || (LOG_TAIL_MAX_BYTES <? saturating_add delivery_bytes record_bytes)
      then (acc, true)
      else tail_loop rest (r :: acc) (saturating_add delivery_bytes record_bytes)
  end.

Definition newer (after : option Z) (r : CoreLogRecord) : Prop :=
  match after with Some a => a < sequence r | None => True end.
#[global] Instance newer_dec after r : Decision (newer after r).
Proof. unfold newer. destruct after; apply _. Defined.

Definition tail_after (b : LogBuffer) (after : option Z) : LogTail :=
  let retained_earliest := sequence <$> head (records b) in
  let latest := sequence <$> last (records b) in
  let horizon := if 1 <? next_sequence b then Some (next_sequence b - 1) else None in
  let '(tail_records, truncated) :=
    tail_loop (filter (newer after) (reverse (records b))) [] LOG_TAIL_ENVELOPE_MAX_BYTES in
  let gap := truncated || match after with
                          | None => (0 <? dropped_total b) || records_have_gap tail_records
                          | Some a => sequence_has_gap a tail_records (next_sequence b)
                          end in
  let earliest := if truncated
                  then match sequence <$> head tail_records with
                       | Some s => Some s
                       | None => retained_earliest
                       end
                  else retained_earliest in
  MkLogTail tail_records (dropped_total b) gap earliest latest horizon.

(** [Option::is_none_or] *)
Definition is_none_or {A} (o : option A) (p : A → bool) : bool :=
  match o with Some x => p x | None => true end.

Definition log_matches (to_lowercase : str → str) (filter : LogFilter) (r : CoreLogRecord) : bool :=
  is_none_or (lf_level filter) (λ l, bool_decide (level r = l))
  && is_none_or (lf_since_unix_ms filter) (λ since, since <=? timestamp_unix_ms r)
  && is_none_or (lf_until_unix_ms filter) (λ until, timestamp_unix_ms r <=? until)
  && is_none_or (to_lowercase <$> lf_contains filter)
       (λ needle, contains_str needle (to_lowercase (message r))).

Definition query (to_lowercase : str → str) (b : LogBuffer) (f : LogFilter) : list CoreLogRecord :=
  filter (λ r, log_matches to_lowercase f r = true) (records b).

(** ** The telemetry store *)

Record TelemetryStore := MkTelemetryStore {
  core_generation : Z;
  logs : LogBuffer;
  traffic_capacity : Z;
  traffic_history : list TrafficSample;
  latest_traffic : option TrafficSample;
  connection_count : option Z;
  upload_total_bytes : option Z;
  download_total_bytes : option Z;
  memory_bytes : option Z;
  connections : list ConnectionRecord;
}.

Definition telemetry_new (generation log_capacity max_log_line_bytes traffic_cap : Z)
  : result TelemetryStore TelemetryError :=
  if traffic_cap =? 0 then Err InvalidLimit
  else
    let? logs := log_buffer_new log_capacity max_log_line_bytes in
    Ok (MkTelemetryStore generation logs traffic_cap [] None None None None None []).

Definition replace_core (s : TelemetryStore) (generation : Z) : TelemetryStore :=
  MkTelemetryStore generation (logs s) (traffic_capacity s) [] None None None None None [].

(** [VecDeque::pop_front], result unused, is [tail]. *)
Definition publish_traffic (s : TelemetryStore) (generation : Z) (sample : TrafficSample)
  : bool * TelemetryStore :=
  if negb (generation =? core_generation s) then (false, s)
  else
    let history := if zlen (traffic_history s) =? traffic_capacity s
                   then tail (traffic_history s) else traffic_history s in
    (true,
     MkTelemetryStore (core_generation s) (logs s) (traffic_capacity s) (history ++ [sample])
       (Some sample) (connection_count s) (upload_total_bytes s) (download_total_bytes s)
       (memory_bytes s) (connections s)).

Definition publish_connections (s : TelemetryStore) (generation count upload download : Z)
    (memory : option Z) (conns : list ConnectionRecord) : bool * TelemetryStore :=
  if negb (generation =? core_generation s) then (false, s)
  else
    (true,
     MkTelemetryStore (core_generation s) (logs s) (traffic_capacity s) (traffic_history s)
       (latest_traffic s) (Some count) (Some upload) (Some download) memory
       (take (Z.to_nat CONNECTION_RECORD_CAPACITY) conns)).

Definition with_logs (s : TelemetryStore) (b : LogBuffer) : TelemetryStore :=
  MkTelemetryStore (core_generation s) b (traffic_capacity s) (traffic_history s)
    (latest_traffic s) (connection_count s) (upload_total_bytes s) (download_total_bytes s)
    (memory_bytes s) (connections s).

Definition publish_log (s : TelemetryStore) (generation timestamp : Z) (lvl : LogLevel)
    (src : LogSource) (msg : str) : result bool TelemetryError * TelemetryStore :=
  if negb (generation =? core_generation s) then (Ok false, s)
  else
    let '(r, b) := push (logs s) timestamp lvl src msg in
    (let? _u := r in Ok true, with_logs s b).

Definition record_log_drop (s : TelemetryStore) (generation count : Z)
  : result bool TelemetryError * TelemetryStore :=
  if negb (generation =? core_generation s) then (Ok false, s)
  else
    let '(r, b) := record_external_drop (logs s) count in
    (let? _u := r in Ok true, with_logs s b).

(** ** The log buffer: invariant *)

Definition message_bytes (l : list CoreLogRecord) : Z :=
  foldr (λ r total, str_len (message r) + total) 0 l.

Definition sequences (l : list CoreLogRecord) : list Z := sequence <$> l.

(** Limits are kept; the retained bytes are counted right; sequence numbers
    grow and are below the next one; every number handed out so far belongs to a
    retained or to a dropped record. *)
Record log_wf (b : LogBuffer) : Prop := {
  log_capacity_pos : 0 < capacity b;
  log_count : zlen (records b) ≤ capacity b;
  log_bytes : retained_bytes b = message_bytes (records b);
  log_bytes_max : retained_bytes b ≤ LOG_RETENTION_MAX_BYTES;
  log_lines : Forall (λ r, str_len (message r) ≤ max_line_bytes b) (records b);
  log_sorted : StronglySorted Z.lt (sequences (records b));
  log_range : Forall (λ s, 1 ≤ s < next_sequence b) (sequences (records b));
  log_next : 1 ≤ next_sequence b ≤ u64_max;
  log_dropped : 0 ≤ dropped_total b;
  log_accounted : dropped_total b + zlen (records b) = next_sequence b - 1;
}.

Lemma message_bytes_app l k : message_bytes (l ++ k) = message_bytes l + message_bytes k.
Proof. induction l as [|r l IH]; simpl; [done|]. unfold message_bytes in *. simpl. lia. Qed.

Lemma message_bytes_nonneg l : 0 ≤ message_bytes l.
Proof.
  induction l as [|r l IH]; simpl; [done|]. pose proof (str_len_nonneg (message r)).
  unfold message_bytes in *. simpl. lia.
Qed.

Lemma evict_spec cap incoming l retained dropped :
  0 < cap → zlen l ≤ cap → retained = message_bytes l → retained ≤ LOG_RETENTION_MAX_BYTES →
  0 ≤ dropped → dropped + zlen l < u64_max → 0 ≤ incoming ≤ LOG_RETENTION_MAX_BYTES →
  ∃ gone kept, l = gone ++ kept ∧
    evict cap incoming l retained dropped = (kept, (message_bytes kept, dropped + zlen gone)) ∧
    zlen kept < cap ∧ message_bytes kept + incoming ≤ LOG_RETENTION_MAX_BYTES.
Proof.
  intros Hcap. revert retained dropped.
  induction l as [|r l IH]; intros retained dropped Hlen -> Hmax Hd Hsum Hin.
  { exists [], []. simpl. unfold zlen; simpl. rewrite Z.add_0_r.
    split; [done|]. split; [|lia]. by destruct (_ || _). }
  pose proof (str_len_nonneg (message r)). pose proof (message_bytes_nonneg l).
  assert (zlen (r :: l) = 1 + zlen l) as Hcons by (unfold zlen; simpl; lia).
  assert (message_bytes (r :: l) = str_len (message r) + message_bytes l) as Hmsg by done.
  cbn [evict]. destruct (_ || _) eqn:Hcond.
  - pose proof (zlen_nonneg l).
    assert (saturating_sub (message_bytes (r :: l)) (str_len (message r)) = message_bytes l) as ->
      by (unfold saturating_sub; lia).
    assert (saturating_add dropped 1 = dropped + 1) as -> by (unfold saturating_add; lia).
    destruct (IH (message_bytes l) (dropped + 1)) as (gone & kept & -> & Hev & ? & ?);
      [lia|done|lia..|].
    exists (r :: gone), kept. split; [done|]. rewrite Hev. split; [|done].
    replace (dropped + zlen (r :: gone)) with (dropped + 1 + zlen gone); [done|].
    unfold zlen. simpl. lia.
  - exists [], (r :: l). split; [done|]. apply orb_false_iff in Hcond as [Hc Hb].
    rewrite Z.add_0_r. split; [done|].
    unfold LOG_RETENTION_MAX_BYTES, saturating_add in *. lia.
Qed.

Lemma push_inv b timestamp lvl src msg r b' :
  log_wf b → push b timestamp lvl src msg = (r, b') →
  match r with
  | Ok seq =>
      seq = next_sequence b ∧ str_len msg ≤ max_line_bytes b ∧ next_sequence b < u64_max ∧
      ∃ gone kept, records b = gone ++ kept ∧
        zlen kept < capacity b ∧ message_bytes kept + str_len msg ≤ LOG_RETENTION_MAX_BYTES ∧
        b' = MkLogBuffer (capacity b) (max_line_bytes b) (next_sequence b + 1)
               (dropped_total b + zlen gone) (message_bytes kept + str_len msg)
               (kept ++ [MkCoreLogRecord seq timestamp lvl src msg])
  | Err _ => b' = b
  end.
Proof.
  intros Hwf. unfold push.
  destruct (Z.ltb_spec (max_line_bytes b) (str_len msg)); [intros; by simplify_eq|].
  destruct (Z.ltb_spec LOG_RETENTION_MAX_BYTES (str_len msg)); [intros; by simplify_eq|].
  destruct (checked_add (next_sequence b) 1) as [next|] eqn:Hadd; [|intros; by simplify_eq].
  apply checked_add_Some in Hadd as [-> Hle]. destruct Hwf.
  destruct (evict_spec (capacity b) (str_len msg) (records b) (retained_bytes b) (dropped_total b))
    as (gone & kept & Hrec & -> & Hk & Hb); try done; try lia.
  { split; [apply str_len_nonneg|done]. }
  intros; simplify_eq. split; [done|]. split; [done|]. split; [lia|].
  exists gone, kept. split; [done|]. split; [done|]. split; [done|]. f_equal.
  pose proof (message_bytes_nonneg kept). pose proof (str_len_nonneg msg).
  unfold saturating_add, LOG_RETENTION_MAX_BYTES in *. lia.
Qed.

Lemma log_wf_push b timestamp lvl src msg : log_wf b → log_wf (push b timestamp lvl src msg).2.
Proof.
  intros Hwf. destruct (push b timestamp lvl src msg) as [r b'] eqn:Hp. simpl.
  apply push_inv in Hp; [|done]. destruct r; [|by subst].
  destruct Hp as (-> & Hmsg & Hlt & gone & kept & Hrec & Hk & Hb & ->). destruct Hwf as
    [Hcap Hcount Hbytes Hbmax Hlines Hsorted Hrange Hnext Hdrop Hacc].
  unfold sequences in *. rewrite Hrec in *. rewrite ?fmap_app, ?zlen_app, ?message_bytes_app in *.
  apply StronglySorted_app_1_r in Hsorted.
  apply Forall_app in Hrange as [_ Hrange], Hlines as [_ Hlines].
  pose proof (zlen_nonneg gone).
  split; simpl; unfold sequences; rewrite ?fmap_app, ?zlen_app, ?message_bytes_app; simpl;
    try (unfold zlen at 2; simpl); try (lia || done).
  - apply Forall_app. split; [done|]. by constructor.
  - apply StronglySorted_app_2; [|done|repeat constructor]. rewrite Forall_forall in Hrange.
    intros x1 x2 Hx1 Hx2%list_elem_of_singleton. specialize (Hrange x1 Hx1). lia.
  - apply Forall_app. split; [eapply Forall_impl; [done|]; simpl; lia|]. repeat constructor; lia.
  - unfold zlen in *. simpl. lia.
Qed.

Lemma log_wf_drop b count : 0 ≤ count → log_wf b → log_wf (record_external_drop b count).2.
Proof.
  intros Hc Hwf. unfold record_external_drop. destruct (Z.eqb_spec count 0); [done|].
  destruct (checked_add (next_sequence b) count) as [next|] eqn:Hadd; [|done].
  apply checked_add_Some in Hadd as [-> Hle]. destruct Hwf as
    [Hcap Hcount Hbytes Hbmax Hlines Hsorted Hrange Hnext Hdrop Hacc].
  pose proof (zlen_nonneg (records b)).
  split; simpl; try done; try (unfold saturating_add; lia).
  eapply Forall_impl; [done|]. simpl. lia.
Qed.

Lemma log_wf_new cap max_line b :
  0 ≤ cap → 0 ≤ max_line → log_buffer_new cap max_line = Ok b → log_wf b.
Proof.
  unfold log_buffer_new. intros Hc Hm. destruct (_ || _) eqn:Hcond; [done|].
  apply orb_false_iff in Hcond as [? ?]. intros; simplify_eq. split; simpl; try done;
    try constructor; unfold zlen; simpl; lia.
Qed.

(** Everything that can happen to a log buffer. *)
Inductive log_reachable : LogBuffer → Prop :=
| log_created cap max_line b :
    0 ≤ cap → 0 ≤ max_line → log_buffer_new cap max_line = Ok b → log_reachable b
| log_pushed b timestamp lvl src msg :
    log_reachable b → log_reachable (push b timestamp lvl src msg).2
| log_dropped_outside b count :
    0 ≤ count → log_reachable b → log_reachable (record_external_drop b count).2.

Lemma log_reachable_wf b : log_reachable b → log_wf b.
Proof. induction 1; eauto using log_wf_new, log_wf_push, log_wf_drop. Qed.

(** ** Tails *)

Definition delivered_bytes (l : list CoreLogRecord) : Z :=
  foldr (λ r total, encoded_record_upper_bound r + total) 0 l.

Lemma delivered_bytes_app l k : delivered_bytes (l ++ k) = delivered_bytes l + delivered_bytes k.
Proof. induction l as [|r l IH]; simpl; [done|]. unfold delivered_bytes in *. simpl. lia. Qed.

Lemma encoded_record_nonneg r : 0 ≤ encoded_record_upper_bound r.
Proof.
  unfold encoded_record_upper_bound, encoded_json_string_bytes.
  assert (∀ l n, 0 ≤ n → 0 ≤ foldl (λ encoded b, saturating_add encoded (encoded_byte b)) n l) as H.
  { induction l as [|c l IH]; intros n Hn; simpl; [done|]. apply IH.
    unfold saturating_add, encoded_byte. repeat case_match; lia. }
  specialize (H (utf8 (message r)) 2 ltac:(lia)). unfold LOG_RECORD_FIXED_MAX_BYTES, saturating_add at 1. lia.
Qed.

(** The loop takes a prefix of its input, as long as the limits allow. *)
Lemma tail_loop_spec l acc bytes recs truncated :
  zlen acc ≤ LOG_TAIL_MAX_RECORDS → 0 ≤ bytes ≤ LOG_TAIL_MAX_BYTES →
  tail_loop l acc bytes = (recs, truncated) →
  ∃ taken rest, l = taken ++ rest ∧ recs = reverse taken ++ acc ∧
    zlen recs ≤ LOG_TAIL_MAX_RECORDS ∧ bytes + delivered_bytes taken ≤ LOG_TAIL_MAX_BYTES ∧
    match rest with
    | [] => truncated = false
    | r :: _ => truncated = true ∧
                (zlen recs = LOG_TAIL_MAX_RECORDS ∨
                 LOG_TAIL_MAX_BYTES < bytes + delivered_bytes taken + encoded_record_upper_bound r)
    end.
Proof.
  revert acc bytes; induction l as [|r l IH]; intros acc bytes Hacc Hb; simpl.
  { intros; simplify_eq. exists [], []. simpl. split_and!; [done..|lia|done]. }
  pose proof (encoded_record_nonneg r) as Hr.
  destruct (_ || _) eqn:Hcond.
  - intros; simplify_eq. exists [], (r :: l). simpl. split_and!; [done..|lia|done|].
    apply orb_true_iff in Hcond as [Hcond|Hcond]; [left; lia|right].
    unfold saturating_add in Hcond. lia.
  - apply orb_false_iff in Hcond as [Hlen Hfit]. unfold saturating_add, LOG_TAIL_MAX_BYTES in *.
    intros (taken & rest & -> & -> & Hn & Hbytes & Hrest)%IH.
    + exists (r :: taken), rest. rewrite reverse_cons, <-app_assoc. simpl in *.
      unfold delivered_bytes in *. simpl. split_and!; [done..|lia|].
      destruct rest; [done|]. destruct Hrest as [-> Hwhy]. split; [done|]. destruct Hwhy as [Hwhy|Hwhy]; [by left|right; lia].
    + unfold zlen, LOG_TAIL_MAX_RECORDS in *. simpl. lia.
    + lia.
Qed.

Lemma tail_after_spec b after :
  let t := tail_after b after in
  let wanted := filter (newer after) (records b) in
  ∃ skipped truncated, wanted = skipped ++ lt_records t ∧
    zlen (lt_records t) ≤ LOG_TAIL_MAX_RECORDS ∧
    LOG_TAIL_ENVELOPE_MAX_BYTES + delivered_bytes (lt_records t) ≤ LOG_TAIL_MAX_BYTES ∧
    (truncated = false ↔ skipped = []) ∧
    lt_gap t = truncated || match after with
                 | None => (0 <? dropped_total b) || records_have_gap (lt_records t)
                 | Some a => sequence_has_gap a (lt_records t) (next_sequence b)
                 end ∧
    (∀ r, last skipped = Some r →
       zlen (lt_records t) = LOG_TAIL_MAX_RECORDS ∨
       LOG_TAIL_MAX_BYTES <
         LOG_TAIL_ENVELOPE_MAX_BYTES + delivered_bytes (lt_records t) + encoded_record_upper_bound r).
Proof.
  unfold tail_after. simpl.
  destruct (tail_loop _ _ _) as [recs truncated] eqn:Hloop. simpl.
  apply tail_loop_spec in Hloop as (taken & rest & Hf & -> & Hn & Hb & Hrest); [|done|done].
  exists (reverse rest), truncated. rewrite app_nil_r in *.
  assert (∀ l, delivered_bytes (reverse l) = delivered_bytes l) as Hrev.
  { induction l as [|r l IH]; [done|]. rewrite reverse_cons, delivered_bytes_app, IH.
    unfold delivered_bytes. simpl. lia. }
  rewrite Hrev. split_and!; [|done..| |done|].
  - by rewrite <-reverse_app, <-Hf, filter_reverse, reverse_involutive.
  - destruct rest as [|r rest]; [done|]. destruct Hrest as [-> _]. split; [done|].
    rewrite reverse_cons. by destruct (reverse rest).
  - intros r Hr. destruct rest as [|r' rest]; [done|].
    rewrite reverse_cons, last_snoc in Hr. simplify_eq. by destruct Hrest as [_ ?].
Qed.

Lemma StronglySorted_lt_le l : StronglySorted Z.lt l → StronglySorted Z.le l.
Proof. induction 1; constructor; [done|]. eapply Forall_impl; [done|]. simpl. lia. Qed.

Lemma StronglySorted_lt_NoDup l : StronglySorted Z.lt l → NoDup l.
Proof.
  induction 1 as [|x l _ IH Hx]; constructor; [|done]. intros Hin.
  rewrite Forall_forall in Hx. specialize (Hx x Hin). lia.
Qed.

Lemma StronglySorted_seqZ m n : StronglySorted Z.le (seqZ m n).
Proof.
  destruct (Z_le_gt_dec 0 n) as [Hn|Hn]; [|rewrite seqZ_nil by lia; constructor].
  revert m. pattern n. apply natlike_ind; [intros m; constructor| |done].
  clear. intros n Hn IH m. rewrite seqZ_cons by lia. replace (Z.pred (Z.succ n)) with n by lia.
  constructor; [done|]. apply Forall_seqZ. lia.
Qed.

(** A strictly increasing list inside an interval is as long as the interval
    only if it is the whole interval. *)
Lemma sorted_interval m n l :
  0 ≤ n → StronglySorted Z.lt l → Forall (λ s, m ≤ s < m + n) l →
  zlen l ≤ n ∧ (zlen l = n ↔ l = seqZ m n).
Proof.
  intros Hn Hs Hr. assert (l ⊆+ seqZ m n) as Hsub.
  { apply NoDup_submseteq; [by apply StronglySorted_lt_NoDup|]. intros x Hx.
    rewrite Forall_forall in Hr. apply elem_of_seqZ. apply Hr in Hx. lia. }
  pose proof (submseteq_length _ _ Hsub) as Hlen. rewrite length_seqZ in Hlen.
  split; [unfold zlen; lia|]. split.
  - intros Heq. apply (StronglySorted_unique Z.le); [by apply StronglySorted_lt_le|apply StronglySorted_seqZ|].
    apply submseteq_length_Permutation; [done|]. rewrite length_seqZ. unfold zlen in Heq. lia.
  - intros ->. unfold zlen. rewrite length_seqZ. lia.
Qed.

Lemma gap_loop_false l expected next :
  StronglySorted Z.lt (sequences l) → Forall (λ s, expected ≤ s < next) (sequences l) →
  expected ≤ next ≤ u64_max →
  gap_loop expected l next = false ↔ sequences l = seqZ expected (next - expected).
Proof.
  unfold sequences. revert expected; induction l as [|r l IH]; intros expected; csimpl; intros Hs Hr Hle.
  - split.
    + intros ?. rewrite seqZ_nil; [done|lia].
    + intros Heq. destruct (Z.ltb_spec expected next); [|done].
      rewrite seqZ_cons in Heq by lia. done.
  - apply StronglySorted_inv in Hs as [Hs Hhd]. inversion_clear Hr as [|? ? Hr1 Hr2].
    rewrite seqZ_cons by lia.
    destruct (Z.ltb_spec expected (sequence r)) as [Hlt|Hge].
    + split; [done|]. intros [= ?]. lia.
    + assert (sequence r = expected) as -> by lia.
      replace (saturating_add expected 1) with (Z.succ expected) by (unfold saturating_add; lia).
      rewrite IH; [|done| |lia].
      * replace (next - Z.succ expected) with (Z.pred (next - expected)) by lia.
        split; [by intros ->|by intros [= ->]].
      * rewrite Forall_forall in *. intros s Hin. specialize (Hr2 s Hin). specialize (Hhd s Hin). lia.
Qed.

Lemma records_have_gap_seqZ l m n :
  sequences l = seqZ m n → m + n ≤ u64_max + 1 → 0 ≤ n → records_have_gap l = false.
Proof.
  revert m n; induction l as [|a l IH]; intros m n; [done|]. unfold sequences in *; csimpl.
  intros Hseq Hmax Hn. destruct (Z.eq_dec n 0) as [->|Hne]; [done|].
  rewrite seqZ_cons in Hseq by lia. injection Hseq as Ha Hl.
  destruct l as [|b l]; [done|]. specialize (IH (Z.succ m) (Z.pred n) Hl ltac:(lia) ltac:(lia)).
  destruct (Z.eq_dec (Z.pred n) 0) as [Hz|?]; [rewrite Hz in Hl; done|].
  rewrite seqZ_cons in Hl by lia. csimpl in Hl. injection Hl as Hb Hl.
  rewrite IH, orb_false_r. unfold checked_add. rewrite Ha, Hb.
  destruct (Z.leb_spec (m + 1) u64_max); [|lia]. apply negb_false_iff, Z.eqb_eq. lia.
Qed.

Lemma filter_sorted (P : CoreLogRecord → Prop) `{!∀ r, Decision (P r)} l :
  StronglySorted Z.lt (sequences l) → StronglySorted Z.lt (sequences (filter P l)).
Proof.
  unfold sequences. induction l as [|r l IH]; csimpl; [done|]. intros [Hs Hhd]%StronglySorted_inv.
  rewrite filter_cons. case_decide; csimpl; [|by apply IH]. constructor; [by apply IH|].
  rewrite Forall_forall in *. intros s (r' & -> & Hin)%list_elem_of_fmap.
  apply Hhd, list_elem_of_fmap. apply list_elem_of_filter in Hin as [_ Hin]. eauto.
Qed.

(** The sequence numbers after [after], in the buffer. *)
Lemma wanted_range b after :
  log_wf b →
  let wanted := sequences (filter (newer after) (records b)) in
  StronglySorted Z.lt wanted ∧ Forall (λ s, default 0 after + 1 ≤ s < next_sequence b) wanted.
Proof.
  intros Hwf. simpl. split; [apply filter_sorted, (log_sorted _ Hwf)|].
  pose proof (log_range _ Hwf) as Hr. rewrite Forall_forall in *.
  intros s (r & -> & Hin)%list_elem_of_fmap. apply list_elem_of_filter in Hin as [Hn Hin].
  assert (1 ≤ sequence r < next_sequence b) by (apply Hr, list_elem_of_fmap; eauto).
  unfold newer in Hn. destruct after; simpl; lia.
Qed.

Lemma sequences_zlen l : zlen (sequences l) = zlen l.
Proof. unfold sequences, zlen. by rewrite length_fmap. Qed.

Lemma gap_after_some recs a next :
  StronglySorted Z.lt (sequences recs) → Forall (λ s, a + 1 ≤ s < next) (sequences recs) →
  in_u64 a → next ≤ u64_max →
  sequence_has_gap a recs next = false ↔ sequences recs = seqZ (a + 1) (next - 1 - a).
Proof.
  intros Hs Hr Ha Hnext. replace (next - 1 - a) with (next - (a + 1)) by lia.
  destruct (Z_le_gt_dec (a + 1) next) as [Hle|Hgt].
  - unfold sequence_has_gap. destruct (checked_add a 1) as [expected|] eqn:Hadd.
    + apply checked_add_Some in Hadd as [-> _]. by apply gap_loop_false.
    + apply checked_add_None in Hadd. lia.
  - assert (recs = []) as -> by (destruct recs; [done|]; inversion_clear Hr; lia).
    rewrite seqZ_nil by lia. split; [done|]. intros _.
    unfold sequence_has_gap. destruct (checked_add a 1) as [expected|] eqn:Hadd; [|done].
    apply checked_add_Some in Hadd as [-> _]. simpl. lia.
Qed.

Lemma gap_from_start recs dropped next :
  StronglySorted Z.lt (sequences recs) → Forall (λ s, 1 ≤ s < next) (sequences recs) →
  0 ≤ dropped → dropped + zlen recs = next - 1 → 1 ≤ next ≤ u64_max →
  (0 <? dropped) || records_have_gap recs = false ↔ sequences recs = seqZ 1 (next - 1).
Proof.
  intros Hs Hr Hd Hacc Hnext.
  destruct (sorted_interval 1 (next - 1) (sequences recs)) as [_ Hiff];
    [lia|done|eapply Forall_impl; [done|]; simpl; lia|].
  rewrite sequences_zlen in Hiff. split.
  - intros [? _]%orb_false_iff. apply Hiff. lia.
  - intros Heq. pose proof (proj2 Hiff Heq). apply orb_false_iff. split; [lia|].
    eapply records_have_gap_seqZ; [done|lia..].
Qed.

Lemma truncated_incomplete skipped recs m next :
  skipped ≠ [] → StronglySorted Z.lt (sequences (skipped ++ recs)) →
  Forall (λ s, m ≤ s < next) (sequences (skipped ++ recs)) → sequences recs ≠ seqZ m (next - m).
Proof.
  intros Hne Hs Hr Heq. destruct skipped as [|r skipped]; [done|].
  assert (m < next) by (inversion_clear Hr; lia).
  destruct (sorted_interval m (next - m) (sequences ((r :: skipped) ++ recs))) as [Hmax _];
    [lia|done|eapply Forall_impl; [done|]; simpl; lia|].
  rewrite sequences_zlen, zlen_app, <-(sequences_zlen recs), Heq in Hmax.
  unfold zlen in Hmax. rewrite length_seqZ in Hmax. simpl in Hmax. lia.
Qed.

Lemma newer_none (l : list CoreLogRecord) : filter (newer None) l = l.
Proof. induction l as [|r l IH]; [done|]. rewrite filter_cons_True by done. by rewrite IH. Qed.

(** ** Properties *)

(** Whatever is pushed or reported as dropped, a log buffer keeps its line
    and byte limits, counts its bytes right, numbers its records upwards, and
    accounts for every sequence number: retained or dropped. *)
Theorem log_reachable_invariant b : log_reachable b → log_wf b.
Proof. apply log_reachable_wf. Qed.

Definition sample_log : LogBuffer :=
  let b := MkLogBuffer 2 100 1 0 0 [] in
  let b := (push b 10 Info Stdout (lit "one")).2 in
  let b := (push b 11 Warn Stdout (lit "two")).2 in
  (push b 12 Info Stderr (lit "three")).2.

Lemma sample_log_reachable : log_reachable sample_log.
Proof. unfold sample_log. do 3 apply log_pushed. by apply (log_created 2 100). Qed.

Lemma log_reachable_invariant_witness :
  log_wf sample_log ∧ dropped_total sample_log = 1 ∧ sequences (records sample_log) = [2; 3].
Proof.
  split; [exact (log_reachable_invariant _ sample_log_reachable)|]. split; by vm_compute.
Defined.

(** A log tail is told to be without gap exactly when it holds every
    sequence number after the requested one (or from the first, when none is
    given) up to the last number handed out: a reader that continues from its
    last sequence number is told about every line it missed, and is never told
    about one it did not miss. *)
Theorem tail_after_gap_exact b after :
  log_wf b → in_u64 (default 0 after) →
  lt_gap (tail_after b after) = false ↔
  sequences (lt_records (tail_after b after)) =
    seqZ (default 0 after + 1) (next_sequence b - 1 - default 0 after).
Proof.
  intros Hwf Ha. destruct (tail_after_spec b after) as (skipped & truncated & Hw & _ & _ & Htr & -> & _).
  destruct (wanted_range b after Hwf) as [Hs Hr]. pose proof (log_next _ Hwf) as Hnext.
  revert Hw. generalize (lt_records (tail_after b after)) as recs. intros recs Hw.
  rewrite Hw in Hs, Hr. destruct truncated; simpl.
  - split; [done|]. intros Heq. exfalso.
    apply (truncated_incomplete skipped recs (default 0 after + 1) (next_sequence b)); [|done|done|].
    + intros Hnil. by apply Htr in Hnil.
    + rewrite Heq. f_equal; lia.
  - rewrite (proj1 Htr eq_refl) in *. simpl in Hs, Hr. destruct after as [a|]; simpl in *.
    + apply gap_after_some; [done..|lia].
    + rewrite newer_none in Hw. pose proof (log_accounted _ Hwf) as Hacc. rewrite Hw in Hacc.
      replace (next_sequence b - 1 - 0) with (next_sequence b - 1) by lia.
      apply gap_from_start; [done..|apply (log_dropped _ Hwf)|done|done].
Qed.

Lemma tail_after_gap_exact_witness :
  lt_gap (tail_after sample_log (Some 1)) = false ∧ lt_gap (tail_after sample_log (Some 0)) = true ∧
  (lt_gap (tail_after sample_log (Some 1)) = false ↔
   sequences (lt_records (tail_after sample_log (Some 1))) = seqZ 2 2).
Proof.
  split; [by vm_compute|]. split; [by vm_compute|].
  exact (tail_after_gap_exact sample_log (Some 1) (log_reachable_wf _ sample_log_reachable)
    ltac:(unfold in_u64; simpl; lia)).
Defined.

(** A log tail is the newest part of what was asked for: a suffix of the
    retained records after the given sequence number, with at most
    [LOG_TAIL_MAX_RECORDS] records whose encoded size stays within
    [LOG_TAIL_MAX_BYTES]; the next older record is left out only when one of
    the two limits forbids it. *)
Theorem tail_after_bounded b after :
  let t := tail_after b after in
  ∃ skipped, filter (newer after) (records b) = skipped ++ lt_records t ∧
    zlen (lt_records t) ≤ LOG_TAIL_MAX_RECORDS ∧
    LOG_TAIL_ENVELOPE_MAX_BYTES + delivered_bytes (lt_records t) ≤ LOG_TAIL_MAX_BYTES ∧
    ∀ r, last skipped = Some r →
      zlen (lt_records t) = LOG_TAIL_MAX_RECORDS ∨
      LOG_TAIL_MAX_BYTES <
        LOG_TAIL_ENVELOPE_MAX_BYTES + delivered_bytes (lt_records t) + encoded_record_upper_bound r.
Proof.
  destruct (tail_after_spec b after) as (skipped & truncated & ? & ? & ? & _ & _ & ?). by exists skipped.
Qed.

(** ** The telemetry store *)

Inductive StoreOp :=
| OpReplaceCore (generation : Z)
| OpTraffic (generation : Z) (sample : TrafficSample)
| OpConnections (generation count upload download : Z) (memory : option Z) (conns : list ConnectionRecord)
| OpLog (generation timestamp : Z) (lvl : LogLevel) (src : LogSource) (msg : str)
| OpLogDrop (generation count : Z).

Definition store_apply (s : TelemetryStore) (op : StoreOp) : TelemetryStore :=
  match op with
  | OpReplaceCore g => replace_core s g
  | OpTraffic g sample => (publish_traffic s g sample).2
  | OpConnections g count up down memory conns => (publish_connections s g count up down memory conns).2
  | OpLog g timestamp lvl src msg => (publish_log s g timestamp lvl src msg).2
  | OpLogDrop g count => (record_log_drop s g count).2
  end.

(** The core generation an operation speaks for, if it is a publication. *)
Definition op_generation (op : StoreOp) : option Z :=
  match op with
  | OpReplaceCore _ => None
  | OpTraffic g _ | OpConnections g _ _ _ _ _ | OpLog g _ _ _ _ | OpLogDrop g _ => Some g
  end.

Definition op_valid (op : StoreOp) : Prop :=
  match op with OpLogDrop _ count => 0 ≤ count | _ => True end.

Record store_wf (s : TelemetryStore) : Prop := {
  store_logs : log_wf (logs s);
  store_traffic_capacity : 0 < traffic_capacity s;
  store_traffic : zlen (traffic_history s) ≤ traffic_capacity s;
  store_latest : latest_traffic s = last (traffic_history s);
  store_connections : zlen (connections s) ≤ CONNECTION_RECORD_CAPACITY;
}.

Lemma store_wf_apply s op : op_valid op → store_wf s → store_wf (store_apply s op).
Proof.
  intros Hv [Hl Hc Ht Hla Hco]. destruct op; simpl in *.
  - split; simpl; try done. unfold zlen; simpl; lia.
  - unfold publish_traffic. destruct (negb _); [done|]. split; simpl; try done.
    + rewrite zlen_app. change (zlen [sample]) with 1.
      destruct (Z.eqb_spec (zlen (traffic_history s)) (traffic_capacity s)); [|lia].
      unfold zlen in *. destruct (traffic_history s); simpl in *; lia.
    + by rewrite last_snoc.
  - unfold publish_connections. destruct (negb _); [done|]. split; simpl; try done.
    unfold zlen. rewrite length_take. unfold CONNECTION_RECORD_CAPACITY. lia.
  - unfold publish_log. destruct (negb _); [done|].
    pose proof (log_wf_push (logs s) timestamp lvl src msg Hl). by destruct (push _ _ _ _ _).
  - unfold record_log_drop. destruct (negb _); [done|].
    pose proof (log_wf_drop (logs s) count Hv Hl). by destruct (record_external_drop _ _).
Qed.

Lemma store_stale_op s op g :
  op_generation op = Some g → g ≠ core_generation s → store_apply s op = s.
Proof.
  intros Hg Hne. destruct op; simplify_eq/=;
    unfold publish_traffic, publish_connections, publish_log, record_log_drop;
    by rewrite (proj2 (Z.eqb_neq _ _) Hne).
Qed.

(** The telemetry store keeps its bounds under every publication, its latest
    traffic sample is the newest of the history, and after the core was
    replaced nothing an older instance still publishes has any effect. *)
Theorem telemetry_store_isolated s ops generation late :
  store_wf s → Forall op_valid ops → Forall (λ op, ∃ g, op_generation op = Some g ∧ g ≠ generation) late →
  let s1 := foldl store_apply s ops in
  let s2 := replace_core s1 generation in
  store_wf s1 ∧ store_wf s2 ∧ foldl store_apply s2 late = s2 ∧
  logs s2 = logs s1 ∧ traffic_history s2 = [] ∧ connections s2 = [].
Proof.
  intros Hwf Hops Hlate. simpl.
  assert (store_wf (foldl store_apply s ops)) as Hwf1.
  { revert s Hwf. induction Hops as [|op ops Hop _ IH]; intros s Hwf; simpl; [done|].
    apply IH. by apply store_wf_apply. }
  split; [done|]. split; [exact (store_wf_apply _ (OpReplaceCore generation) I Hwf1)|].
  split; [|done]. generalize (foldl store_apply s ops) as s1. intros s1.
  induction Hlate as [|op late (g & Hg & Hne) _ IH]; simpl; [done|].
  rewrite (store_stale_op _ op g); done.
Qed.

Definition sample_store : TelemetryStore :=
  MkTelemetryStore 3 (MkLogBuffer 4 64 1 0 0 []) 2 [] None None None None None [].

Lemma sample_store_wf : store_wf sample_store.
Proof.
  split; try by vm_compute. apply (log_wf_new 4 64); [lia|lia|done].
Qed.

Lemma telemetry_store_isolated_witness :
  let s1 := foldl store_apply sample_store [OpLog 3 5 Info Stdout (lit "up")] in
  foldl store_apply (replace_core s1 4) [OpLog 3 6 Info Stdout (lit "late")] = replace_core s1 4.
Proof.
  apply (telemetry_store_isolated sample_store [OpLog 3 5 Info Stdout (lit "up")] 4
    [OpLog 3 6 Info Stdout (lit "late")] sample_store_wf).
  - by repeat constructor.
  - rewrite Forall_singleton. by exists 3.
Defined.
