(* ===== verification/Profile.v ===== *)
(** * Profile: snapshots, names and the profile catalog
    (src/profile.rs, and [validate_name] of src/state.rs)

    [ProfileSnapshot::parse] checks a downloaded document, [derive_profile_name]
    names a new profile and [ProfileCatalog] keeps the profiles and the active
    one.  [serde_yaml_ng::from_slice], [Sha256::digest], [Uuid::parse_str] and
    the printing of UUIDs are parameters. *)

From S2P Require Import Prelude Text Ordered Constants Yaml Domain.
Local Open Scope Z_scope.

(** ** Snapshots *)

Record SnapshotLimits := MkSnapshotLimits {
  max_bytes : Z;
  max_depth : Z;
}.

Inductive SnapshotError :=
| BodyTooLarge (limit : Z)
| SnapshotInvalidYaml
| TopLevelMappingRequired
| DepthExceeded (limit : Z)
| RulesSequenceRequired
| RuleStringRequired (index : Z).

Record ProfileSnapshot := MkProfileSnapshot {
  snap_raw : bytes;
  snap_document : Mapping;
  snap_rule_strings : list str;
  snap_content_sha256 : str;
}.

(** [iter().map(f).max().unwrap_or_default()] *)
Definition max_or_zero {A} (f : A → Z) (l : list A) : Z := foldr (λ x n, Z.max (f x) n) 0 l.

Fixpoint yaml_depth (v : Value) : Z :=
  match v with
  | VSequence vs => 1 + max_or_zero yaml_depth vs
  | VMapping es => 1 + max_or_zero (λ e, Z.max (yaml_depth e.1) (yaml_depth e.2)) es
  | VTagged _ w => 1 + yaml_depth w
  | _ => 1
  end.

Definition extract_rules (document : Mapping) : result (list str) SnapshotError :=
  match mapping_get document (lit "rules") with
  | None => Ok []
  | Some (VSequence rules) =>
      collect (λ index rule, match rule with
                             | VString rule => Ok rule
                             | _ => Err (RuleStringRequired index)
                             end) rules
  | Some _ => Err RulesSequenceRequired
  end.

Definition strip_bom (raw : bytes) : bytes := default raw (strip_prefix [239; 187; 191]%N raw).

Definition snapshot_parse (yaml_from_slice : bytes → option Value) (sha256 : bytes → bytes)
    (raw : bytes) (limits : SnapshotLimits) : result ProfileSnapshot SnapshotError :=
  if max_bytes limits <? zlen raw then Err (BodyTooLarge (max_bytes limits))
  else
    let? value := ok_or (yaml_from_slice (strip_bom raw)) SnapshotInvalidYaml in
    if max_depth limits <? yaml_depth value then Err (DepthExceeded (max_depth limits))
    else
      match value with
      | VMapping document =>
          let? rule_strings := extract_rules document in
          Ok (MkProfileSnapshot raw document rule_strings (sha256_hex sha256 raw))
      | _ => Err TopLevelMappingRequired
      end.

(** ** Names *)

Inductive ProfileNameSource := Metadata | Filename | HostAndShortId.

Record DerivedProfileName := MkDerivedProfileName {
  dpn_value : str;
  dpn_source : ProfileNameSource;
}.

Definition normalize_name (value : str) : option str :=
  let value := trim value in
  if bool_decide (value = []) || existsb is_control value then None
  else Some (take 80 value).

Definition filename_name (percent_decode : str → str) (u : Url) : option str :=
  segments ← url_path_segments u;
  filename ← last segments;
  if is_token_like_path_segment percent_decode filename then None
  else
    let stem := match strip_suffix (lit ".yaml") filename with
                | Some stem => stem
                | None => default filename (strip_suffix (lit ".yml") filename)
                end in
    normalize_name stem.

(** [id_string] is [profile_id.to_string()], the hyphenated form of the UUID:
    36 ASCII characters, so [[..8]] takes characters. *)
Definition derive_profile_name (percent_decode : str → str) (metadata_name : option str) (u : Url)
    (id_string : str) : DerivedProfileName :=
  match metadata_name ≫= normalize_name with
  | Some value => MkDerivedProfileName value Metadata
  | None =>
      match filename_name percent_decode u with
      | Some value => MkDerivedProfileName value Filename
      | None =>
          let host := default (lit "profile") (url_host_str u) in
          MkDerivedProfileName (host ++ [45%N] ++ take 8 id_string) HostAndShortId
      end
  end.

(** [validate_name] of the state store. *)
Definition validate_name (name : str) : bool :=
  negb (bool_decide (name = []) || (PROFILE_METADATA_NAME_MAX_BYTES <? str_len name)
        || existsb is_control name).

(** ** The catalog *)

Inductive RefreshStage := Download | Parse | Validate | Apply.

Record RefreshFailure := MkRefreshFailure {
  rf_stage : RefreshStage;
  rf_safe_message : str;
}.

Record RefreshContext := MkRefreshContext {
  rctx_profile_revision : Z;
  rctx_active_revision : option Z;
}.

Record Profile := MkProfile {
  p_id : Z;
  p_name : str;
  p_subscription_url : Url;
  p_snapshot : ProfileSnapshot;
  p_revision : Z;
  p_last_success_at : Z;
  p_last_error : option RefreshFailure;
  p_next_refresh_at : Z;
  p_selections : gmap str str;
}.

Definition profile_new (id : Z) (name : str) (url : Url) (snapshot : ProfileSnapshot)
    (last_success_at next_refresh_at : Z) : Profile :=
  MkProfile id name url snapshot 1 last_success_at None next_refresh_at ∅.

Record ProfileCatalog := MkProfileCatalog {
  cat_profiles : gmap Z Profile;
  cat_active_profile_id : option Z;
  cat_active_revision : Z;
}.

Inductive ProfileSelectorError :=
| SelectorNotFound
| SelectorAmbiguous (candidate_ids : list Z)
| SelectorActive
| ActiveRevisionExhausted.

Inductive ProfileInsertError := DuplicateId (id : Z).

Inductive ProfileRestoreError :=
| InvalidProfileCount
| DuplicateProfileId
| ActiveProfileMissing
| InvalidActiveRevision.

Inductive RefreshCommitError :=
| CommitProfileRemoved
| CommitStaleRevision (expected actual : Z)
| ActiveRevisionChanged (expected : option Z) (actual : Z)
| ProfileRevisionExhausted.

Definition catalog_new : ProfileCatalog := MkProfileCatalog ∅ None 0.

Definition catalog_insert (c : ProfileCatalog) (p : Profile)
  : result unit ProfileInsertError * ProfileCatalog :=
  match cat_profiles c !! p_id p with
  | Some _ => (Err (DuplicateId (p_id p)), c)
  | None => (Ok tt, MkProfileCatalog (<[p_id p := p]> (cat_profiles c)) (cat_active_profile_id c)
                      (cat_active_revision c))
  end.

Fixpoint insert_all (profiles : list Profile) (c : ProfileCatalog)
  : result ProfileCatalog ProfileRestoreError :=
  match profiles with
  | [] => Ok c
  | p :: profiles' =>
      match catalog_insert c p with
      | (Ok _, c) => insert_all profiles' c
      | (Err _, _) => Err DuplicateProfileId
      end
  end.

Definition catalog_restore (profiles : list Profile) (active_profile_id active_revision : Z)
  : result ProfileCatalog ProfileRestoreError :=
  if bool_decide (profiles = []) || (PROFILE_COUNT_MAX <? zlen profiles) then Err InvalidProfileCount
  else if active_revision =? 0 then Err InvalidActiveRevision
  else
    let? c := insert_all profiles catalog_new in
    match cat_profiles c !! active_profile_id with
    | None => Err ActiveProfileMissing
    | Some _ => Ok (MkProfileCatalog (cat_profiles c) (Some active_profile_id) active_revision)
    end.

Section selectors.
Context (uuid_parse : str → option Z).

Definition resolve (c : ProfileCatalog) (selector : str) : result Z ProfileSelectorError :=
  match uuid_parse selector with
  | Some id => match cat_profiles c !! id with
               | Some _ => Ok id
               | None => Err SelectorNotFound
               end
  | None =>
      let candidate_ids :=
        p_id <$> filter (λ p, p_name p = selector) (btree_values (cat_profiles c)) in
      match candidate_ids with
      | [] => Err SelectorNotFound
      | [id] => Ok id
      | _ => Err (SelectorAmbiguous candidate_ids)
      end
  end.

Definition activate (c : ProfileCatalog) (selector : str)
  : result Z ProfileSelectorError * ProfileCatalog :=
  match resolve c selector with
  | Err e => (Err e, c)
  | Ok id =>
      if bool_decide (cat_active_profile_id c = Some id) then (Ok id, c)
      else match checked_add (cat_active_revision c) 1 with
           | None => (Err ActiveRevisionExhausted, c)
           | Some revision => (Ok id, MkProfileCatalog (cat_profiles c) (Some id) revision)
           end
  end.

Definition catalog_remove (c : ProfileCatalog) (selector : str)
  : result Profile ProfileSelectorError * ProfileCatalog :=
  match resolve c selector with
  | Err e => (Err e, c)
  | Ok id =>
      if bool_decide (cat_active_profile_id c = Some id) then (Err SelectorActive, c)
      else match cat_profiles c !! id with
           | None => (Err SelectorNotFound, c)
           | Some p => (Ok p, MkProfileCatalog (delete id (cat_profiles c)) (cat_active_profile_id c)
                                (cat_active_revision c))
           end
  end.

End selectors.

Definition refresh_context (c : ProfileCatalog) (id : Z) : result RefreshContext RefreshCommitError :=
  let? p := ok_or (cat_profiles c !! id) CommitProfileRemoved in
  Ok (MkRefreshContext (p_revision p)
        (if bool_decide (cat_active_profile_id c = Some id) then Some (cat_active_revision c) else None)).

Definition refreshed (p : Profile) (snapshot : ProfileSnapshot) (revision success_at next_at : Z)
  : Profile :=
  MkProfile (p_id p) (p_name p) (p_subscription_url p) snapshot revision success_at None next_at
    (p_selections p).

Definition commit_refresh (c : ProfileCatalog) (id : Z) (context : RefreshContext)
    (snapshot : ProfileSnapshot) (success_at next_at : Z)
  : result Z RefreshCommitError * ProfileCatalog :=
  match cat_profiles c !! id with
  | None => (Err CommitProfileRemoved, c)
  | Some p =>
      if negb (p_revision p =? rctx_profile_revision context)
      then (Err (CommitStaleRevision (rctx_profile_revision context) (p_revision p)), c)
      else if bool_decide (cat_active_profile_id c = Some id)
              && negb (bool_decide (rctx_active_revision context = Some (cat_active_revision c)))
      then (Err (ActiveRevisionChanged (rctx_active_revision context) (cat_active_revision c)), c)
      else match checked_add (p_revision p) 1 with
           | None => (Err ProfileRevisionExhausted, c)
           | Some revision =>
               (Ok revision,
                MkProfileCatalog
                  (<[id := refreshed p snapshot revision success_at next_at]> (cat_profiles c))
                  (cat_active_profile_id c) (cat_active_revision c))
           end
  end.

(** ** Depth and snapshots *)

(** [nested v n w]: [w] occurs in [v], [n] levels down. *)
Inductive nested : Value → Z → Value → Prop :=
| nested_here v : nested v 1 v
| nested_seq vs v n w : v ∈ vs → nested v n w → nested (VSequence vs) (1 + n) w
| nested_key es e n w : e ∈ es → nested e.1 n w → nested (VMapping es) (1 + n) w
| nested_value es e n w : e ∈ es → nested e.2 n w → nested (VMapping es) (1 + n) w
| nested_tagged tag v n w : nested v n w → nested (VTagged tag v) (1 + n) w.

Lemma max_or_zero_ge {A} (f : A → Z) l x : x ∈ l → f x ≤ max_or_zero f l.
Proof. induction 1; simpl; unfold max_or_zero in *; simpl; lia. Qed.

Lemma max_or_zero_nonneg {A} (f : A → Z) l : 0 ≤ max_or_zero f l.
Proof. induction l; unfold max_or_zero in *; simpl; lia. Qed.

Lemma yaml_depth_pos v : 1 ≤ yaml_depth v.
Proof.
  induction v; simpl; try lia;
    match goal with |- context [max_or_zero ?f ?l] => pose proof (max_or_zero_nonneg f l) end; lia.
Qed.

Lemma nested_depth v n w : nested v n w → n ≤ yaml_depth v.
Proof.
  induction 1 as [v|vs v n w Hin _ IH|es e n w Hin _ IH|es e n w Hin _ IH|]; simpl;
    [apply yaml_depth_pos| | | |lia].
  - pose proof (max_or_zero_ge yaml_depth _ _ Hin). lia.
  - pose proof (max_or_zero_ge (λ e, Z.max (yaml_depth e.1) (yaml_depth e.2)) _ _ Hin). simpl in *. lia.
  - pose proof (max_or_zero_ge (λ e, Z.max (yaml_depth e.1) (yaml_depth e.2)) _ _ Hin). simpl in *. lia.
Qed.

Fixpoint depth_attained (v : Value) : ∃ w, nested v (yaml_depth v) w.
Proof.
  destruct v as [| | | |vs|es|tag v]; simpl; try (eexists; apply nested_here).
  - assert (max_or_zero yaml_depth vs = 0 ∨ ∃ x w, x ∈ vs ∧ nested x (max_or_zero yaml_depth vs) w) as H.
    { induction vs as [|x vs IH]; unfold max_or_zero in *; simpl; [by left|right].
      destruct (Z.max_spec (yaml_depth x) (foldr (λ x n, Z.max (yaml_depth x) n) 0 vs)) as [[Hlt ->]|[_ ->]].
      - destruct IH as [IH|(y & w & Hy & Hn)]; [pose proof (yaml_depth_pos x); lia|].
        exists y, w. set_solver.
      - destruct (depth_attained x) as [w Hw]. exists x, w. set_solver. }
    destruct H as [->|(x & w & Hx & Hn)]; [eexists; apply nested_here|].
    exists w. by eapply nested_seq.
  - set (f := λ e : Value * Value, Z.max (yaml_depth e.1) (yaml_depth e.2)).
    assert (max_or_zero f es = 0 ∨ ∃ e w, e ∈ es ∧
              (nested e.1 (max_or_zero f es) w ∨ nested e.2 (max_or_zero f es) w)) as H.
    { induction es as [|[k x] es IH]; unfold max_or_zero in *; simpl; [by left|right].
      destruct (Z.max_spec (f (k, x)) (foldr (λ x n, Z.max (f x) n) 0 es)) as [[Hlt ->]|[_ ->]].
      - destruct IH as [IH|(y & w & Hy & Hn)].
        + unfold f in Hlt at 1. simpl in Hlt. pose proof (yaml_depth_pos k). lia.
        + exists y, w. set_solver.
      - change (f (k, x)) with (Z.max (yaml_depth k) (yaml_depth x)). destruct (depth_attained k) as [w Hw]. destruct (depth_attained x) as [w' Hw'].
        destruct (Z.max_spec (yaml_depth k) (yaml_depth x)) as [[_ ->]|[_ ->]].
        + exists (k, x), w'. set_solver.
        + exists (k, x), w. set_solver. }
    destruct H as [->|(e & w & He & [Hn|Hn])]; [eexists; apply nested_here|..].
    + exists w. by eapply nested_key.
    + exists w. by eapply nested_value.
  - destruct (depth_attained v) as [w Hw]. exists w. by constructor.
Qed.

Lemma extract_rules_Ok document rs :
  extract_rules document = Ok rs ↔
  match mapping_get document (lit "rules") with
  | None => rs = []
  | Some (VSequence vs) => vs = VString <$> rs
  | Some _ => False
  end.
Proof.
  unfold extract_rules. destruct (mapping_get document (lit "rules")) as [[]|];
    try (split; [intros [=]|intros []]; fail); [|naive_solver].
  unfold collect. generalize 0 as index. revert rs.
  induction values as [|v vs IH]; intros rs index; simpl.
  - split; [intros; by simplify_eq|]. intros H. by destruct rs.
  - destruct v; simpl;
      try (split; [done|]; intros H; destruct rs; [done|]; csimpl in H; by simplify_eq; fail).
    destruct (collect_from _ (index + 1) vs) as [ys|e] eqn:Hc; simpl.
    + apply IH in Hc as ->. split.
      * intros; by simplify_eq.
      * intros H. destruct rs as [|r rs]; [done|]. csimpl in H. injection H as -> Heq.
        by apply (inj _) in Heq as ->.
    + split; [done|]. intros H. destruct rs as [|r rs]; [done|]. csimpl in H. simplify_eq.
      exfalso. assert (Err e = Ok rs); [|done]. rewrite <-Hc. by apply IH.
Qed.

Lemma strip_bom_spec raw : raw = strip_bom raw ∨ raw = [239; 187; 191]%N ++ strip_bom raw.
Proof.
  unfold strip_bom. destruct (strip_prefix _ raw) as [rest|] eqn:H; simpl; [right|by left].
  by apply strip_prefix_Some in H.
Qed.

(** ** Names *)

Lemma str_len_reverse s : str_len (reverse s) = str_len s.
Proof.
  induction s as [|c s IH]; [done|]. rewrite reverse_cons, str_len_app, IH. simpl. lia.
Qed.

Lemma trim_sublist s : ∃ a b, s = a ++ trim s ++ b.
Proof.
  unfold trim, trim_end. destruct (trim_start_spec s) as (w & Hw & _).
  destruct (trim_start_spec (reverse (trim_start s))) as (w' & Hw' & _).
  apply (f_equal reverse) in Hw'. rewrite reverse_involutive, reverse_app in Hw'.
  exists w, (reverse w'). rewrite <-Hw'. done.
Qed.

Lemma str_len_take n s : str_len (take n s) ≤ str_len s.
Proof.
  rewrite <-(take_drop n s) at 2. rewrite str_len_app. pose proof (str_len_nonneg (drop n s)). lia.
Qed.

Lemma str_len_ascii s : Forall (λ c, (c < 128)%N) s → str_len s = zlen s.
Proof.
  induction 1 as [|c s Hc _ IH]; [done|]. simpl. rewrite IH. unfold char_len_utf8.
  rewrite (proj2 (N.ltb_lt _ _) Hc). unfold zlen; simpl; lia.
Qed.

Lemma existsb_take {A} (p : A → bool) n l : existsb p l = false → existsb p (take n l) = false.
Proof.
  rewrite <-(take_drop n l) at 1. rewrite existsb_app. by intros [? _]%orb_false_iff.
Qed.

Lemma normalize_name_valid value name :
  normalize_name value = Some name →
  str_len value ≤ PROFILE_METADATA_NAME_MAX_BYTES ∨ Forall (λ c, (c < 128)%N) value →
  validate_name name = true.
Proof.
  unfold normalize_name, validate_name. destruct (trim_sublist value) as (a & b & Hv).
  destruct (_ || _) eqn:Hc; [done|]. apply orb_false_iff in Hc as [Hne Hctl].
  apply bool_decide_eq_false in Hne. intros [= <-] Hlen.
  apply negb_true_iff, orb_false_iff. split; [apply orb_false_iff; split|].
  - apply bool_decide_eq_false. by destruct (trim value).
  - apply Z.ltb_ge. unfold PROFILE_METADATA_NAME_MAX_BYTES in *. destruct Hlen as [Hlen|Hascii].
    + etrans; [apply str_len_take|]. rewrite Hv, !str_len_app in Hlen.
      pose proof (str_len_nonneg a). pose proof (str_len_nonneg b). lia.
    + rewrite Hv in Hascii. apply Forall_app in Hascii as [_ [Hascii _]%Forall_app].
      rewrite str_len_ascii by by apply Forall_take. unfold zlen. rewrite length_take. lia.
  - by apply existsb_take.
Qed.

Lemma strip_suffix_Some p s t : strip_suffix p s = Some t ↔ s = t ++ p.
Proof.
  unfold strip_suffix. rewrite fmap_Some. setoid_rewrite strip_prefix_Some. split.
  - intros (r & Hs & ->). apply (f_equal reverse) in Hs. rewrite reverse_involutive, reverse_app in Hs.
    by rewrite reverse_involutive in Hs.
  - intros ->. exists (reverse t). by rewrite reverse_app, reverse_involutive.
Qed.

Lemma filename_stem_ascii filename :
  Forall (λ c, (c < 128)%N) filename →
  Forall (λ c, (c < 128)%N)
    match strip_suffix (lit ".yaml") filename with
    | Some stem => stem
    | None => default filename (strip_suffix (lit ".yml") filename)
    end.
Proof.
  intros Hf. destruct (strip_suffix (lit ".yaml") filename) as [s|] eqn:H1.
  - apply strip_suffix_Some in H1 as ->. by apply Forall_app in Hf as [? _].
  - destruct (strip_suffix (lit ".yml") filename) as [s|] eqn:H2; [|done].
    apply strip_suffix_Some in H2 as ->. by apply Forall_app in Hf as [? _].
Qed.

(** ** Catalog: invariant *)

Definition profile_wf (id : Z) (p : Profile) : Prop := p_id p = id ∧ 1 ≤ p_revision p ≤ u64_max.

Record catalog_wf (c : ProfileCatalog) : Prop := {
  catalog_keys : map_Forall profile_wf (cat_profiles c);
  catalog_active : ∀ id, cat_active_profile_id c = Some id → is_Some (cat_profiles c !! id);
  catalog_revision : in_u64 (cat_active_revision c);
}.

(** A change of a profile through [get_mut] that leaves identity, revision and
    snapshot alone, as all callers do. *)
Definition keeps_identity (f : Profile → Profile) : Prop :=
  ∀ p, p_id (f p) = p_id p ∧ p_revision (f p) = p_revision p ∧ p_snapshot (f p) = p_snapshot p.

Inductive CatalogOp :=
| OpInsert (p : Profile)
| OpActivate (selector : str)
| OpRemove (selector : str)
| OpCommit (id : Z) (context : RefreshContext) (snapshot : ProfileSnapshot) (success_at next_at : Z)
| OpUpdate (id : Z) (f : Profile → Profile).

Section catalog.
Context (uuid_parse : str → option Z).

Definition catalog_apply (c : ProfileCatalog) (op : CatalogOp) : ProfileCatalog :=
  match op with
  | OpInsert p => (catalog_insert c p).2
  | OpActivate selector => (activate uuid_parse c selector).2
  | OpRemove selector => (catalog_remove uuid_parse c selector).2
  | OpCommit id context snapshot success_at next_at =>
      (commit_refresh c id context snapshot success_at next_at).2
  | OpUpdate id f => MkProfileCatalog (alter f id (cat_profiles c)) (cat_active_profile_id c)
                       (cat_active_revision c)
  end.

(** New profiles are at a valid revision (1, for [Profile::new]). *)
Definition op_wf (op : CatalogOp) : Prop :=
  match op with
  | OpInsert p => 1 ≤ p_revision p ≤ u64_max
  | OpUpdate _ f => keeps_identity f
  | _ => True
  end.

Lemma elem_of_candidates c selector id :
  catalog_wf c →
  id ∈ p_id <$> filter (λ p, p_name p = selector) (btree_values (cat_profiles c)) ↔
  ∃ p, cat_profiles c !! id = Some p ∧ p_name p = selector.
Proof.
  intros Hwf. rewrite list_elem_of_fmap. setoid_rewrite list_elem_of_filter.
  setoid_rewrite elem_of_btree_values. split.
  - intros (p & -> & Hn & k & Hk). exists p.
    destruct (catalog_keys _ Hwf k p Hk) as [-> _]. done.
  - intros (p & Hp & Hn). exists p. destruct (catalog_keys _ Hwf id p Hp) as [<- _]. eauto.
Qed.

Lemma resolve_present c selector id :
  catalog_wf c → resolve uuid_parse c selector = Ok id → is_Some (cat_profiles c !! id).
Proof.
  intros Hwf. unfold resolve. destruct (uuid_parse selector) as [i|].
  - destruct (cat_profiles c !! i) eqn:Hi; [|done]. intros; simplify_eq. eauto.
  - pose proof (elem_of_candidates c selector id Hwf) as Hin. revert Hin.
    generalize (p_id <$> filter (λ p, p_name p = selector) (btree_values (cat_profiles c))) as l.
    intros [|x [|y l]] Hin; try done. intros [= ->].
    destruct (proj1 Hin) as (p & Hp & _); [set_solver|eauto].
Qed.

Lemma catalog_wf_apply c op : op_wf op → catalog_wf c → catalog_wf (catalog_apply c op).
Proof.
  intros Hop Hwf. pose proof Hwf as [Hk Ha Hr]. destruct op as [p|sel|sel|id ctx snap s n|id f]; simpl in *.
  - unfold catalog_insert. destruct (cat_profiles c !! p_id p) eqn:Hp; [done|]. split; simpl; [|..|done].
    + by apply map_Forall_insert_2.
    + intros id Hid. apply lookup_insert_is_Some. destruct (decide (p_id p = id)); [by left|right]. auto.
  - unfold activate. destruct (resolve uuid_parse c sel) as [id|] eqn:Hres; [|done].
    case_bool_decide; [done|]. destruct (checked_add _ 1) eqn:Hadd; [|done].
    apply checked_add_Some in Hadd as [-> ?]. split; simpl; [done| |unfold in_u64 in *; lia].
    intros ? [= <-]. by eapply resolve_present.
  - unfold catalog_remove. destruct (resolve uuid_parse c sel) as [id|]; [|done].
    case_bool_decide as Hact; [done|]. destruct (cat_profiles c !! id) as [p|]; [|done].
    split; simpl; [by apply map_Forall_delete| |done]. intros i Hi.
    rewrite lookup_delete_ne by congruence. auto.
  - unfold commit_refresh. destruct (cat_profiles c !! id) as [p|] eqn:Hp; [|done].
    destruct (negb _); [done|]. destruct (_ && _); [done|].
    destruct (checked_add (p_revision p) 1) eqn:Hadd; [|done]. apply checked_add_Some in Hadd as [-> ?].
    destruct (Hk id p Hp) as [Hid Hrev]. split; simpl; [|..|done].
    + apply map_Forall_insert_2; [|done]. split; simpl; [done|lia].
    + intros i Hi. apply lookup_insert_is_Some. destruct (decide (id = i)); [by left|right]. auto.
  - split; simpl; [|..|done].
    + intros i p Hp. rewrite lookup_alter_Some in Hp. destruct Hp as [(<- & q & Hq & ->)|[_ Hq]].
      * destruct (Hk id q Hq) as [Hi Hrev]. destruct (Hop q) as (Hidq & Hrevq & _). unfold profile_wf.
        by rewrite Hidq, Hrevq.
      * by apply Hk.
    + intros i Hi. apply Ha in Hi as [p Hp]. destruct (decide (id = i)) as [->|Hne].
      * rewrite lookup_alter_eq, Hp. eauto.
      * rewrite lookup_alter_ne by done. eauto.
Qed.

Lemma catalog_wf_run c ops : Forall op_wf ops → catalog_wf c → catalog_wf (foldl catalog_apply c ops).
Proof.
  intros Hops. revert c. induction Hops as [|op ops Hop _ IH]; intros c Hwf; simpl; [done|].
  apply IH. by apply catalog_wf_apply.
Qed.

(** What one operation can do to a profile and to the active profile. *)
Lemma profile_step c op id :
  catalog_wf c → op_wf op → (∀ p, op = OpInsert p → p_id p ≠ id) →
  match cat_profiles c !! id, cat_profiles (catalog_apply c op) !! id with
  | Some p, Some q => (p_revision q = p_revision p ∧ p_snapshot q = p_snapshot p) ∨
                      p_revision p < p_revision q
  | None, Some _ => False
  | _, None => True
  end.
Proof.
  intros Hwf Hop Hins. destruct op as [p|sel|sel|id' ctx snap s n|id' f]; simpl in *.
  - unfold catalog_insert. destruct (cat_profiles c !! p_id p); simpl.
    + destruct (cat_profiles c !! id); auto.
    + rewrite lookup_insert_ne by (by apply Hins). destruct (cat_profiles c !! id); auto.
  - unfold activate. destruct (resolve uuid_parse c sel); [case_bool_decide; [|destruct (checked_add _ _)]|];
      simpl; destruct (cat_profiles c !! id); auto.
  - unfold catalog_remove. destruct (resolve uuid_parse c sel) as [i|]; [|simpl; destruct (cat_profiles c !! id); auto].
    case_bool_decide; [simpl; destruct (cat_profiles c !! id); auto|].
    destruct (cat_profiles c !! i) eqn:Hi; simpl; [|destruct (cat_profiles c !! id); auto].
    destruct (decide (i = id)) as [->|]; [rewrite lookup_delete_eq, Hi; done|].
    rewrite lookup_delete_ne by done. destruct (cat_profiles c !! id); auto.
  - unfold commit_refresh. destruct (cat_profiles c !! id') as [p|] eqn:Hp;
      [|simpl; destruct (cat_profiles c !! id); auto].
    destruct (negb _); [simpl; destruct (cat_profiles c !! id); auto|].
    destruct (_ && _); [simpl; destruct (cat_profiles c !! id); auto|].
    destruct (checked_add (p_revision p) 1) eqn:Hadd; simpl; [|destruct (cat_profiles c !! id); auto].
    apply checked_add_Some in Hadd as [-> _]. destruct (decide (id' = id)) as [->|].
    + rewrite Hp, lookup_insert_eq. right. simpl. lia.
    + rewrite lookup_insert_ne by done. destruct (cat_profiles c !! id); auto.
  - destruct (decide (id' = id)) as [->|].
    + rewrite lookup_alter_eq. destruct (cat_profiles c !! id) as [p|]; simpl; [|done].
      left. by destruct (Hop p) as (_ & ? & ?).
    + rewrite lookup_alter_ne by done. destruct (cat_profiles c !! id); auto.
Qed.

Lemma active_step c op :
  cat_active_profile_id (catalog_apply c op) = cat_active_profile_id c ∧
    cat_active_revision (catalog_apply c op) = cat_active_revision c ∨
  cat_active_revision c < cat_active_revision (catalog_apply c op).
Proof.
  destruct op as [p|sel|sel|id' ctx snap s n|id' f]; simpl; [|..|by left].
  - unfold catalog_insert. destruct (_ !! _); by left.
  - unfold activate. destruct (resolve uuid_parse c sel); [|by left]. case_bool_decide; [by left|].
    destruct (checked_add _ 1) eqn:Hadd; [|by left]. apply checked_add_Some in Hadd as [-> _]. right. simpl. lia.
  - unfold catalog_remove. destruct (resolve uuid_parse c sel); [|by left]. case_bool_decide; [by left|].
    destruct (_ !! _); by left.
  - unfold commit_refresh. destruct (_ !! _); [|by left]. destruct (negb _); [by left|].
    destruct (_ && _); [by left|]. destruct (checked_add _ _); by left.
Qed.

Lemma profile_run c ops id :
  catalog_wf c → Forall op_wf ops → Forall (λ op, ∀ p, op = OpInsert p → p_id p ≠ id) ops →
  match cat_profiles c !! id, cat_profiles (foldl catalog_apply c ops) !! id with
  | Some p, Some q => (p_revision q = p_revision p ∧ p_snapshot q = p_snapshot p) ∨
                      p_revision p < p_revision q
  | None, Some _ => False
  | _, None => True
  end.
Proof.
  intros Hwf Hops. revert c Hwf. induction Hops as [|op ops Hop _ IH]; intros c Hwf Hins; simpl.
  { destruct (cat_profiles c !! id); auto. }
  inversion_clear Hins as [|? ? Hi His].
  pose proof (profile_step c op id Hwf Hop Hi) as Hstep.
  specialize (IH (catalog_apply c op) (catalog_wf_apply _ _ Hop Hwf) His).
  destruct (cat_profiles c !! id) as [p|], (cat_profiles (catalog_apply c op) !! id) as [q|],
    (cat_profiles (foldl catalog_apply (catalog_apply c op) ops) !! id) as [r|]; try done.
  destruct Hstep as [[Hr Hs]|Hlt], IH as [[Hr' Hs']|Hlt'];
    [left; split; congruence|right; lia..].
Qed.

Lemma active_run c ops :
  cat_active_profile_id (foldl catalog_apply c ops) = cat_active_profile_id c ∧
    cat_active_revision (foldl catalog_apply c ops) = cat_active_revision c ∨
  cat_active_revision c < cat_active_revision (foldl catalog_apply c ops).
Proof.
  revert c. induction ops as [|op ops IH]; intros c; simpl; [by left|].
  destruct (active_step c op) as [[Ha Hr]|Hlt], (IH (catalog_apply c op)) as [[Ha' Hr']|Hlt'];
    [left; split; congruence|right; lia..].
Qed.

End catalog.

Lemma candidate_keys c : catalog_wf c → p_id <$> btree_values (cat_profiles c) = btree_keys (cat_profiles c).
Proof.
  intros Hwf. unfold btree_values, btree_keys. rewrite <-list_fmap_compose.
  apply list_fmap_ext. intros i [k p] Hi. apply list_elem_of_lookup_2, elem_of_btree_iter in Hi.
  by destruct (catalog_keys _ Hwf k p Hi).
Qed.

(** Inserting profiles of distinct ids one by one. *)
Lemma insert_all_Ok profiles c :
  NoDup (p_id <$> profiles) → (∀ p, p ∈ profiles → cat_profiles c !! p_id p = None) →
  insert_all profiles c =
    Ok (MkProfileCatalog (list_to_map ((λ p, (p_id p, p)) <$> profiles) ∪ cat_profiles c)
          (cat_active_profile_id c) (cat_active_revision c)).
Proof.
  revert c; induction profiles as [|p profiles IH]; intros c Hnd Hfree; csimpl in *.
  { rewrite map_empty_union. by destruct c. }
  apply NoDup_cons in Hnd as [Hp Hnd]. unfold catalog_insert.
  rewrite Hfree by set_solver. rewrite IH; [|done|].
  - do 2 f_equal. simpl. rewrite <-insert_union_l, insert_union_r; [done|].
    apply not_elem_of_list_to_map_1. by rewrite <-list_fmap_compose.
  - intros q Hq. simpl. rewrite lookup_insert_ne; [apply Hfree; set_solver|].
    intros Heq. apply Hp. rewrite Heq. apply list_elem_of_fmap. eauto.
Qed.

Lemma candidate_map c :
  catalog_wf c → list_to_map ((λ p, (p_id p, p)) <$> btree_values (cat_profiles c)) = cat_profiles c.
Proof.
  intros Hwf. unfold btree_values. rewrite <-list_fmap_compose.
  trans (list_to_map (btree_iter (cat_profiles c)) : gmap Z Profile).
  2: { etrans; [|apply list_to_map_to_list]. apply list_to_map_proper;
         [apply NoDup_btree_keys|apply btree_iter_Permutation]. }
  f_equal. rewrite <-(list_fmap_id (btree_iter (cat_profiles c))) at 2.
  apply list_fmap_ext. intros i [k p] Hi. apply list_elem_of_lookup_2, elem_of_btree_iter in Hi.
  simpl. by destruct (catalog_keys _ Hwf k p Hi) as [-> _].
Qed.

(** ** Properties *)

(** A snapshot that parses is within its limits: its size, the nesting of
    every value in it, and its rules are exactly the string sequence under
    [rules] (none when the key is absent); the digest is the one of the raw
    bytes, byte order mark included. *)
Theorem snapshot_parse_sound yaml_from_slice sha256 raw limits snapshot :
  snapshot_parse yaml_from_slice sha256 raw limits = Ok snapshot →
  zlen raw ≤ max_bytes limits ∧
  yaml_from_slice (strip_bom raw) = Some (VMapping (snap_document snapshot)) ∧
  (∀ n w, nested (VMapping (snap_document snapshot)) n w → n ≤ max_depth limits) ∧
  match mapping_get (snap_document snapshot) (lit "rules") with
  | None => snap_rule_strings snapshot = []
  | Some rules => rules = VSequence (VString <$> snap_rule_strings snapshot)
  end ∧
  snap_raw snapshot = raw ∧ snap_content_sha256 snapshot = sha256_hex sha256 raw.
Proof.
  unfold snapshot_parse. destruct (Z.ltb_spec (max_bytes limits) (zlen raw)); [done|].
  destruct (yaml_from_slice (strip_bom raw)) as [v|] eqn:Hy; [|done]. cbn [ok_or result_bind].
  destruct (Z.ltb_spec (max_depth limits) (yaml_depth v)) as [|Hd]; [done|].
  destruct v; try done. destruct (extract_rules entries) as [rs|] eqn:Hr; [|done].
  simpl. intros [= <-]. apply extract_rules_Ok in Hr. cbn [snap_document snap_rule_strings snap_raw snap_content_sha256].
  split; [lia|]. split; [done|]. split; [|split; [|done]].
  - intros n w Hn%nested_depth. lia.
  - destruct (mapping_get entries (lit "rules")) as [[]|]; try done. by subst.
Qed.

Definition sample_document : Mapping :=
  [(VString (lit "rules"), VSequence [VString (lit "MATCH,DIRECT")])].

Lemma snapshot_parse_sound_witness :
  zlen [1; 2]%N ≤ 16 ∧
  is_ok (snapshot_parse (λ _, Some (VMapping sample_document)) sample_sha256 [1; 2]%N (MkSnapshotLimits 16 8)) = true.
Proof.
  split; [|by vm_compute].
  exact (proj1 (snapshot_parse_sound (λ _, Some (VMapping sample_document)) sample_sha256 [1; 2]%N
    (MkSnapshotLimits 16 8) _ eq_refl)).
Defined.

(** A derived profile name passes the name check of the state store, except
    that a name made of the host and the short id does so only if the host has
    at most 71 bytes: metadata names come with at most 80 bytes and URL path
    segments are ASCII, but the length of the host is not looked at. *)
Theorem derived_name_storable percent_decode metadata_name u id_string :
  (∀ name, metadata_name = Some name → str_len name ≤ PROFILE_METADATA_NAME_MAX_BYTES) →
  (∀ segments, url_path_segments u = Some segments → Forall (Forall (λ c, (c < 128)%N)) segments) →
  (∀ host, url_host_str u = Some host → existsb is_control host = false) →
  str_len (take 8 id_string) = 8 → existsb is_control id_string = false →
  let d := derive_profile_name percent_decode metadata_name u id_string in
  validate_name (dpn_value d) = true ↔
  (dpn_source d = HostAndShortId → str_len (default (lit "profile") (url_host_str u)) ≤ 71).
Proof.
  intros Hmeta Hseg Hhost Hid Hctl. simpl. unfold derive_profile_name.
  destruct (metadata_name ≫= normalize_name) as [value|] eqn:Hm; simpl.
  { apply bind_Some in Hm as (name & Hn & Hv). split; [done|]. intros _.
    eapply normalize_name_valid; [done|left; auto]. }
  destruct (filename_name percent_decode u) as [value|] eqn:Hf; simpl.
  { unfold filename_name in Hf. apply bind_Some in Hf as (segments & Hs & Hf).
    apply bind_Some in Hf as (filename & Hl & Hf). destruct (is_token_like_path_segment _ _); [done|].
    split; [done|]. intros _. eapply normalize_name_valid; [done|right].
    apply filename_stem_ascii. specialize (Hseg _ Hs). rewrite Forall_forall in Hseg.
    apply Hseg, last_Some_elem_of. done. }
  set (host := default (lit "profile") (url_host_str u)).
  assert (existsb is_control host = false) as Hh
    by (subst host; destruct (url_host_str u); simpl; [by apply Hhost|by vm_compute]).
  unfold validate_name. rewrite negb_true_iff, !orb_false_iff, bool_decide_eq_false, Z.ltb_ge.
  rewrite existsb_app, Hh. cbn [existsb orb app]. rewrite (existsb_take _ 8 _ Hctl).
  rewrite str_len_app. cbn [str_len]. rewrite Hid. change (char_len_utf8 45) with 1.
  unfold PROFILE_METADATA_NAME_MAX_BYTES. split.
  - intros [[_ ?] _] _. lia.
  - intros H. specialize (H eq_refl). split; [split; [by destruct host|lia]|done].
Qed.

Definition long_host_url : Url :=
  MkUrl (lit "https") (Some (replicate 72 97%N)) (lit "https://a") (Some [lit "sub-token"]) None.

(** The hypotheses hold, and the name is refused, for a 72-byte host. *)
Lemma derived_name_storable_witness :
  let d := derive_profile_name id None long_host_url (lit "0123456789") in
  dpn_source d = HostAndShortId ∧ validate_name (dpn_value d) = false ∧
  (validate_name (dpn_value d) = true ↔
     (dpn_source d = HostAndShortId →
      str_len (default (lit "profile") (url_host_str long_host_url)) ≤ 71)).
Proof.
  cbv zeta. split; [by vm_compute|]. split; [by vm_compute|].
  apply (derived_name_storable id None long_host_url (lit "0123456789")).
  - done.
  - intros segments [= <-]. rewrite Forall_singleton. apply (bool_decide_unpack _). by vm_compute.
  - intros host [= <-]. by vm_compute.
  - by vm_compute.
  - by vm_compute.
Defined.

(** Every operation of the profile catalog keeps it consistent: profiles are
    stored under their own id at a valid revision, and the active profile is
    always one of them; in particular it is never removed. *)
Theorem catalog_invariant uuid_parse ops :
  Forall op_wf ops → catalog_wf (foldl (catalog_apply uuid_parse) catalog_new ops).
Proof.
  intros Hops. apply catalog_wf_run; [done|]. split; simpl; [|done|by vm_compute].
  apply map_Forall_empty.
Qed.

Definition sample_snapshot : ProfileSnapshot := MkProfileSnapshot [] [] [] [].
Definition sample_profile (id : Z) (name : str) : Profile :=
  profile_new id name long_host_url sample_snapshot 0 100.
Definition no_uuid (_ : str) : option Z := None.
Definition sample_ops : list CatalogOp :=
  [OpInsert (sample_profile 5 (lit "a")); OpInsert (sample_profile 6 (lit "b"));
   OpActivate (lit "a"); OpRemove (lit "a"); OpRemove (lit "b")].

Lemma sample_ops_wf : Forall op_wf sample_ops.
Proof. repeat constructor; simpl; lia. Qed.

Lemma catalog_invariant_witness :
  let c := foldl (catalog_apply no_uuid) catalog_new sample_ops in
  catalog_wf c ∧ cat_active_profile_id c = Some 5 ∧ btree_keys (cat_profiles c) = [5].
Proof.
  cbv zeta. split; [exact (catalog_invariant no_uuid sample_ops sample_ops_wf)|]. split; by vm_compute.
Defined.

(** Optimistic concurrency of refreshes: when a refresh that started with
    the context of catalog [c0] commits after any other operations, the profile
    still is at the revision and snapshot it had in [c0], the new revision is
    the next one, and if it is active now then it was active in [c0] and no
    other profile was activated in between. *)
Theorem commit_refresh_optimistic uuid_parse c0 ops id context snapshot success_at next_at revision c2 :
  catalog_wf c0 → Forall op_wf ops → Forall (λ op, ∀ p, op = OpInsert p → p_id p ≠ id) ops →
  refresh_context c0 id = Ok context →
  let c1 := foldl (catalog_apply uuid_parse) c0 ops in
  commit_refresh c1 id context snapshot success_at next_at = (Ok revision, c2) →
  ∃ p0 p1, cat_profiles c0 !! id = Some p0 ∧ cat_profiles c1 !! id = Some p1 ∧
    p_revision p1 = p_revision p0 ∧ p_snapshot p1 = p_snapshot p0 ∧
    revision = p_revision p0 + 1 ∧
    cat_profiles c2 = <[id := refreshed p1 snapshot revision success_at next_at]> (cat_profiles c1) ∧
    (cat_active_profile_id c1 = Some id →
     cat_active_profile_id c0 = Some id ∧ cat_active_revision c1 = cat_active_revision c0).
Proof.
  intros Hwf Hops Hins Hctx c1 Hcommit.
  pose proof (profile_run uuid_parse c0 ops id Hwf Hops Hins) as Hrun. fold c1 in Hrun.
  pose proof (active_run uuid_parse c0 ops) as Hact. fold c1 in Hact.
  unfold refresh_context in Hctx. destruct (cat_profiles c0 !! id) as [p0|] eqn:Hp0; [|done].
  simpl in Hctx. injection Hctx as <-. unfold commit_refresh in Hcommit.
  destruct (cat_profiles c1 !! id) as [p1|] eqn:Hp1; [|done]. simpl in Hcommit.
  destruct (Z.eqb_spec (p_revision p1) (p_revision p0)) as [Hrev|]; [|done]. simpl in Hcommit.
  destruct (_ && _) eqn:Hguard; [done|].
  destruct (checked_add (p_revision p1) 1) eqn:Hadd; [|done].
  apply checked_add_Some in Hadd as [-> _]. injection Hcommit as <- <-.
  exists p0, p1. destruct Hrun as [[_ Hsnap]|]; [|lia].
  split_and!; [done..|by rewrite Hrev|done|]. intros Ha. rewrite Ha, bool_decide_eq_true_2 in Hguard by done.
  simpl in Hguard. apply negb_false_iff, bool_decide_eq_true in Hguard.
  case_bool_decide as Ha0; [|done]. injection Hguard as Hrev0. done.
Qed.

Lemma commit_refresh_optimistic_witness :
  let c0 := foldl (catalog_apply no_uuid) catalog_new [OpInsert (sample_profile 5 (lit "a"))] in
  ∃ p0, cat_profiles c0 !! 5 = Some p0 ∧ 2 = p_revision p0 + 1.
Proof.
  cbv zeta. set (c0 := foldl (catalog_apply no_uuid) catalog_new [OpInsert (sample_profile 5 (lit "a"))]).
  assert (catalog_wf c0) as Hwf.
  { apply catalog_wf_run; [repeat constructor; simpl; lia|]. split; simpl; [|done|by vm_compute].
    apply map_Forall_empty. }
  destruct (commit_refresh_optimistic no_uuid c0 [OpActivate (lit "zzz")] 5 (MkRefreshContext 1 None)
    sample_snapshot 10 20 2 (commit_refresh c0 5 (MkRefreshContext 1 None) sample_snapshot 10 20).2 Hwf)
    as (p0 & p1 & Hp0 & _ & _ & _ & Hrev & _).
  - by repeat constructor.
  - by repeat constructor.
  - by vm_compute.
  - by vm_compute.
  - by exists p0.
Defined.

(** [resolve] finds the profile with the given id, or else the only one with
    the given name; it answers ambiguous with exactly the ids of the profiles of
    that name when there are several. *)
Theorem resolve_correct uuid_parse c selector :
  catalog_wf c →
  let named id := ∃ p, cat_profiles c !! id = Some p ∧ p_name p = selector in
  match resolve uuid_parse c selector with
  | Ok id => is_Some (cat_profiles c !! id) ∧
             match uuid_parse selector with
             | Some id' => id' = id
             | None => ∀ id', named id' ↔ id' = id
             end
  | Err SelectorNotFound =>
      match uuid_parse selector with
      | Some id' => cat_profiles c !! id' = None
      | None => ∀ id', ¬ named id'
      end
  | Err (SelectorAmbiguous ids) =>
      uuid_parse selector = None ∧ (2 ≤ length ids)%nat ∧ NoDup ids ∧ ∀ id', named id' ↔ id' ∈ ids
  | Err _ => False
  end.
Proof.
  intros Hwf. simpl. pose proof (resolve_present uuid_parse c selector) as Hpres. revert Hpres.
  unfold resolve. destruct (uuid_parse selector) as [id|].
  { destruct (cat_profiles c !! id) eqn:Hid; [|done]. rewrite Hid. eauto. }
  pose proof (elem_of_candidates c selector) as Hcand.
  assert (NoDup (p_id <$> filter (λ p, p_name p = selector) (btree_values (cat_profiles c)))) as Hnd.
  { apply NoDup_fmap_filter. rewrite candidate_keys by done. apply NoDup_btree_keys. }
  revert Hcand Hnd.
  generalize (p_id <$> filter (λ p, p_name p = selector) (btree_values (cat_profiles c))) as l.
  intros l Hcand Hnd Hpres.
  assert (∀ id, (∃ p, cat_profiles c !! id = Some p ∧ p_name p = selector) ↔ id ∈ l) as Hn
    by (intros id; by rewrite Hcand).
  destruct l as [|x [|y l]].
  - intros id. rewrite Hn. apply not_elem_of_nil.
  - split; [by apply Hpres|]. intros id. rewrite Hn. apply list_elem_of_singleton.
  - split_and!; [done|simpl; lia|done|done].
Qed.

Definition two_alike : ProfileCatalog :=
  foldl (catalog_apply no_uuid) catalog_new
    [OpInsert (sample_profile 5 (lit "a")); OpInsert (sample_profile 6 (lit "a"))].

Lemma resolve_correct_witness :
  resolve no_uuid two_alike (lit "a") = Err (SelectorAmbiguous [5; 6]) ∧
  match resolve no_uuid two_alike (lit "a") with
  | Err (SelectorAmbiguous ids) => NoDup ids
  | _ => False
  end.
Proof.
  assert (catalog_wf two_alike) as Hwf.
  { apply catalog_wf_run; [repeat constructor; simpl; lia|]. split; simpl; [|done|by vm_compute].
    apply map_Forall_empty. }
  pose proof (resolve_correct no_uuid two_alike (lit "a") Hwf) as H. cbv zeta in H.
  assert (resolve no_uuid two_alike (lit "a") = Err (SelectorAmbiguous [5; 6])) as Hr by by vm_compute.
  split; [done|]. rewrite Hr in *. apply H.
Defined.

(** Restoring a catalog from the list of its profiles, its active profile
    and revision gives the same catalog back. *)
Theorem catalog_restore_round_trip c id :
  catalog_wf c → cat_active_profile_id c = Some id → cat_active_revision c ≠ 0 →
  zsize (cat_profiles c) ≤ PROFILE_COUNT_MAX →
  catalog_restore (btree_values (cat_profiles c)) id (cat_active_revision c) = Ok c.
Proof.
  intros Hwf Hid Hrev Hsize. unfold catalog_restore.
  destruct (catalog_active _ Hwf id Hid) as [p Hp].
  assert (zlen (btree_values (cat_profiles c)) = zsize (cat_profiles c)) as Hlen
    by (unfold zlen, zsize, btree_values; by rewrite length_fmap, btree_iter_length).
  rewrite bool_decide_eq_false_2.
  2: { intros Hnil. apply (not_elem_of_nil p). rewrite <-Hnil. apply elem_of_btree_values. eauto. }
  rewrite Hlen, (proj2 (Z.ltb_ge _ _) Hsize), (proj2 (Z.eqb_neq _ _) Hrev). cbn [orb].
  rewrite insert_all_Ok; [|rewrite candidate_keys by done; apply NoDup_btree_keys|].
  2: { intros q Hq. apply lookup_empty. }
  cbn [result_bind cat_profiles catalog_new]. rewrite candidate_map by done.
  rewrite !map_union_empty, Hp, <-Hid. by destruct c.
Qed.

Lemma catalog_restore_round_trip_witness :
  let c := foldl (catalog_apply no_uuid) catalog_new sample_ops in
  catalog_restore (btree_values (cat_profiles c)) 5 1 = Ok c.
Proof.
  cbv zeta. set (c := foldl (catalog_apply no_uuid) catalog_new sample_ops).
  assert (catalog_wf c) as Hwf.
  { apply catalog_wf_run; [exact sample_ops_wf|]. split; simpl; [|done|by vm_compute].
    apply map_Forall_empty. }
  assert (cat_active_revision c = 1) as Hrev by by vm_compute. rewrite <-Hrev.
  apply (catalog_restore_round_trip c 5 Hwf); [by vm_compute..|].
  by vm_compute.
Defined.
