(* ===== verification/ConfigData.v ===== *)
(** * ConfigData: the compiled configuration of src/config.rs as data

    What the compiler returns and the transaction coordinator, the runtime
    bundles and the validator receive. *)

From S2P Require Import Prelude Text Path.

Inductive ProviderSection := ProxySection | RuleSection.

Inductive ProviderKind :=
| RemoteProvider (url : str)
| LocalProvider (source : path).

Record ProviderRecord := MkProviderRecord {
  provider_section : ProviderSection;
  provider_name : str;
  provider_relative_path : path;
  provider_kind : ProviderKind;
}.

Record EffectiveConfiguration := MkEffectiveConfiguration {
  cfg_yaml : str;
  cfg_core_version : str;
  cfg_compiler_policy_sha256 : str;
  cfg_providers : list ProviderRecord;
}.
