(* ===== verification/ConfigPolicy.v ===== *)
(** * ConfigPolicy: the configuration policy of src/config.rs

    The schema the compiler bundles for the Core's configuration file
    ([SchemaNode], [bundled_policy]), the walk that validates a document against
    it, the walk that strips the managed fields and the walk that checks they
    are gone.  [conforms] says what it means to satisfy a schema; the theorems
    relate the three walks to it and to each other. *)

From S2P Require Import Prelude Text Yaml Path.
Local Open Scope Z_scope.

(** ** Errors *)

Inductive ConfigError :=
| PolicyInvalid
| PolicyVersionMismatch
| UnsupportedField (path : str)
| UnsupportedVariant (path value : str)
| InvalidShape (path expected : str)
| MissingDiscriminator (path field : str)
| MissingField (path : str)
| EmptyName (path : str)
| DuplicateName (path name : str)
| InvalidRoutingRule (path reason : str)
| UnavailableReference (path reference_kind name : str)
| InvalidAuthoritativeValue (field : str)
| StagingRootUnavailable (at_path : Path.path)
| ProviderPathRequired (path : str)
| ProviderUrlRequired (path : str)
| ProviderUrlInvalid (path : str)
| ProviderPathTraversal (at_path : Path.path)
| ProviderPathOutsideStagingRoot (at_path : Path.path)
| ProviderFileUnavailable (at_path : Path.path)
| CoreValidationFailed
| PersistedConfigurationInvalid
| SerializationFailed.

(** [Display]. *)
Definition ConfigError_display (e : ConfigError) : str :=
  match e with
  | PolicyInvalid => lit "the bundled configuration policy is invalid"
  | PolicyVersionMismatch =>
      lit "the bundled configuration policy version does not match the Core"
  | UnsupportedField _ => lit "the Profile Snapshot violates the configuration policy"
  | UnsupportedVariant _ _ => lit "the Profile Snapshot uses an unsupported provider source"
  | InvalidShape _ _ => lit "the Profile Snapshot contains an invalid field shape"
  | MissingDiscriminator _ _ =>
      lit "a Profile Snapshot record is missing its type discriminator"
  | MissingField _ => lit "the Profile Snapshot is missing a required field"
  | EmptyName _ => lit "the Profile Snapshot contains an empty record name"
  | DuplicateName _ _ => lit "the Profile Snapshot contains a duplicate record name"
  | InvalidRoutingRule _ _ => lit "the Local Rule Set contains an invalid Routing Rule"
  | UnavailableReference _ _ _ =>
      lit "the configuration contains an unavailable named reference"
  | InvalidAuthoritativeValue field =>
      lit "authoritative configuration field " ++ field ++ lit " is invalid"
  | StagingRootUnavailable _ => lit "the Profile staging root is unavailable"
  | ProviderPathRequired _ => lit "a local provider requires a path"
  | ProviderUrlRequired _ => lit "a remote provider requires a URL"
  | ProviderUrlInvalid _ => lit "a remote provider requires an HTTP(S) URL"
  | ProviderPathTraversal _ => lit "a provider path traverses outside its staging root"
  | ProviderPathOutsideStagingRoot _ =>
      lit "a provider path resolves outside its staging root"
  | ProviderFileUnavailable _ => lit "a local provider file is unavailable"
  | CoreValidationFailed =>
      lit "Mihomo rejected the effective configuration: Mihomo configuration validation failed"
  | PersistedConfigurationInvalid => lit "the persisted Effective Configuration is invalid"
  | SerializationFailed => lit "effective configuration serialization failed"
  end.

(** ** Schemas *)

Inductive AdditionalFields := Reject | CorePassthrough.

Definition are_core_passthrough (a : AdditionalFields) : bool :=
  match a with
  | CorePassthrough => true
  | Reject => false
  end.

(** A [BTreeMap<String, _>] of the policy is the list of its entries in the
    order of the keys. *)
Inductive SchemaNode :=
| SchemaString
| ManagedDrop
| ManagedReplace
| SchemaSequence (item : SchemaNode)
| SchemaMapping (fields : list (str * SchemaNode)) (required : list str)
    (additional_fields : AdditionalFields)
| SchemaNamedMap (value : SchemaNode)
| SchemaDiscriminated (discriminator : str) (common : list (str * SchemaNode))
    (variants : list (str * list (str * SchemaNode))) (required : list str)
    (variant_required : list (str * list str)) (additional_fields : AdditionalFields).

Abbreviation Fields := (list (str * SchemaNode)).

Record ConfigPolicy := MkConfigPolicy {
  policy_version : Z;
  policy_core_version : str;
  policy_additional_fields : AdditionalFields;
  top_level : Fields;
}.

Definition is_managed (s : SchemaNode) : bool :=
  match s with
  | ManagedDrop | ManagedReplace => true
  | _ => false
  end.

(** [BTreeMap::get], with what is done with the result. *)
Section find.
Context {A R : Type} (f : A → R) (absent : R).

Fixpoint find_key (l : list (str * A)) (key : str) : R :=
  match l with
  | [] => absent
  | p :: l' => if decide (p.1 = key) then f p.2 else find_key l' key
  end.

(** Iteration in key order over a state. *)
Context {S : Type} (step : str → A → S → S).

Fixpoint each_key (l : list (str * A)) (s : S) : S :=
  match l with
  | [] => s
  | p :: l' => each_key l' (step p.1 p.2 s)
  end.
End find.

Definition get {A} (l : list (str * A)) (key : str) : option A := find_key Some None l key.

(** [for x in xs { f(x)?; }], with the index of [enumerate]. *)
Section each.
Context {A E : Type} (f : N → A → result unit E).

Fixpoint each_from (index : N) (xs : list A) : result unit E :=
  match xs with
  | [] => Ok tt
  | x :: xs' => guard? f index x in each_from (index + 1)%N xs'
  end.
Definition each (xs : list A) : result unit E := each_from 0 xs.
End each.

(** ** Paths in messages *)

Definition child_path (parent child : str) : str :=
  match parent with
  | [] => child
  | _ => parent ++ lit "." ++ child
  end.

Definition index_path (parent : str) (index : N) : str :=
  parent ++ lit "[" ++ decimal index ++ lit "]".

Definition invalid_shape (path expected : str) : ConfigError := InvalidShape path expected.

Definition validate_required_fields (m : Mapping) (required : list str) (path : str)
  : result unit ConfigError :=
  each (λ _ field,
    if contains_key m field then Ok tt else Err (MissingField (child_path path field))) required.

(** ** The bundled policy

    fixtures/mihomo/v1.19.28/config-policy.yaml, its text and its content, the
    anchors expanded. *)

Definition policy_dns : SchemaNode :=
  SchemaMapping
  [ (lit "enable", ManagedReplace); (lit "enhanced-mode", ManagedReplace);
    (lit "fake-ip-filter", ManagedReplace); (lit "fake-ip-filter-mode", ManagedReplace);
    (lit "fake-ip-range", ManagedReplace); (lit "fake-ip-range6", ManagedReplace);
    (lit "fallback", ManagedReplace); (lit "ipv6", ManagedReplace);
    (lit "listen", ManagedDrop); (lit "listen-routing-mark", ManagedDrop) ]
    [] CorePassthrough.

Definition policy_ntp : SchemaNode :=
  SchemaMapping [(lit "write-to-system", ManagedDrop)] [] CorePassthrough.

Definition string_sequence : SchemaNode := SchemaSequence SchemaString.

Definition policy_proxy : SchemaNode :=
  SchemaMapping [(lit "name", SchemaString); (lit "type", SchemaString)]
    [lit "name"; lit "type"] CorePassthrough.

Definition policy_group : SchemaNode :=
  SchemaMapping
    [ (lit "name", SchemaString); (lit "proxies", string_sequence);
      (lit "type", SchemaString); (lit "use", string_sequence) ]
    [lit "name"; lit "type"] CorePassthrough.

(** The two provider sections differ in the schema of the inline payload. *)
Definition policy_provider (payload : SchemaNode) : SchemaNode :=
  SchemaDiscriminated (lit "type")
    [(lit "payload", payload); (lit "type", SchemaString)]
    [ (lit "file", [(lit "path", SchemaString)]);
      (lit "http", [(lit "path", SchemaString); (lit "url", SchemaString)]);
      (lit "inline", []) ]
    [lit "type"]
    [ (lit "file", [lit "path"]); (lit "http", [lit "url"]); (lit "inline", [lit "payload"]) ]
    CorePassthrough.

Definition policy_top_level : Fields :=
  [ (lit "allow-lan", ManagedReplace); (lit "authentication", ManagedDrop);
    (lit "bind-address", ManagedDrop); (lit "dns", policy_dns);
    (lit "external-controller", ManagedDrop); (lit "external-controller-cors", ManagedDrop);
    (lit "external-controller-pipe", ManagedDrop);
    (lit "external-controller-routing-mark", ManagedDrop);
    (lit "external-controller-tls", ManagedDrop);
    (lit "external-controller-unix", ManagedReplace); (lit "external-doh-server", ManagedDrop);
    (lit "external-ui", ManagedDrop); (lit "external-ui-name", ManagedDrop);
    (lit "external-ui-url", ManagedDrop); (lit "geo-auto-update", ManagedReplace);
    (lit "inbound-mptcp", ManagedDrop); (lit "inbound-tfo", ManagedDrop);
    (lit "interface-name", ManagedDrop); (lit "iptables", ManagedDrop);
    (lit "ipv6", ManagedReplace); (lit "lan-allowed-ips", ManagedDrop);
    (lit "lan-disallowed-ips", ManagedDrop); (lit "listeners", ManagedDrop);
    (lit "mixed-port", ManagedDrop); (lit "mode", ManagedReplace); (lit "ntp", policy_ntp);
    (lit "port", ManagedDrop); (lit "proxies", SchemaSequence policy_proxy);
    (lit "proxy-groups", SchemaSequence policy_group);
    (lit "proxy-providers", SchemaNamedMap (policy_provider (SchemaSequence policy_proxy)));
    (lit "redir-port", ManagedDrop);
    (lit "rule-providers", SchemaNamedMap (policy_provider string_sequence));
    (lit "rules", ManagedReplace); (lit "secret", ManagedReplace);
    (lit "skip-auth-prefixes", ManagedDrop); (lit "sniffer", ManagedReplace);
    (lit "socks-port", ManagedDrop); (lit "ss-config", ManagedDrop);
    (lit "sub-rules", SchemaNamedMap string_sequence); (lit "tproxy-port", ManagedDrop);
    (lit "tuic-server", ManagedDrop); (lit "tun", ManagedReplace);
    (lit "tunnels", ManagedDrop); (lit "vmess-config", ManagedDrop) ].

Definition bundled_policy : ConfigPolicy :=
  MkConfigPolicy 1 (lit "v1.19.28") CorePassthrough policy_top_level.

Section walks.
Context `{YamlCrate}.

(** The loop of [validate_known_mapping] over the entries; [check] is what is
    done with a value whose key is a field. *)
Definition each_entry (m : Mapping) (path : str)
    (check : str → Value → str → result unit ConfigError) : result unit ConfigError :=
  each (λ _ p,
    match as_str p.1 with
    | None => Err (invalid_shape path (lit "a string-keyed mapping"))
    | Some key => check key p.2 (child_path path key)
    end) m.

Definition variant_of (m : Mapping) (discriminator : str) : option str :=
  v ← mapping_get m discriminator; as_str v.

(** *** [validate_node] *)

Fixpoint validate_node (schema : SchemaNode) (value : Value) (path : str)
  : result unit ConfigError :=
  match schema with
  | ManagedDrop | ManagedReplace => Ok tt
  | SchemaString =>
      if is_string value then Ok tt else Err (invalid_shape path (lit "a string"))
  | SchemaSequence item =>
      match value with
      | VSequence values => each (λ index v, validate_node item v (index_path path index)) values
      | _ => Err (invalid_shape path (lit "a sequence"))
      end
  | SchemaMapping fields required additional_fields =>
      match value with
      | VMapping m =>
          guard? validate_required_fields m required path in
          each_entry m path (λ key v field_path,
            find_key (λ s, validate_node s v field_path)
              (if are_core_passthrough additional_fields then Ok tt
               else Err (UnsupportedField field_path)) fields key)
      | _ => Err (invalid_shape path (lit "a mapping"))
      end
  | SchemaNamedMap value_schema =>
      match value with
      | VMapping m =>
          each (λ _ p,
            match as_str p.1 with
            | None => Err (invalid_shape path (lit "a string-keyed mapping"))
            | Some name =>
                if bool_decide (name = []) then Err (EmptyName path)
                else validate_node value_schema p.2 (child_path path name)
            end) m
      | _ => Err (invalid_shape path (lit "a mapping"))
      end
  | SchemaDiscriminated discriminator common variants required variant_required
      additional_fields =>
      match value with
      | VMapping m =>
          let? variant := ok_or (variant_of m discriminator)
                            (MissingDiscriminator path discriminator) in
          find_key (λ variant_fields,
            guard? validate_required_fields m required path in
            guard? match get variant_required variant with
                   | Some required => validate_required_fields m required path
                   | None => Ok tt
                   end in
            each_entry m path (λ key v field_path,
              find_key (λ s, validate_node s v field_path)
                (find_key (λ s, validate_node s v field_path)
                   (if existsb (λ p, bool_decide (is_Some (get p.2 key))) variants
                       || negb (are_core_passthrough additional_fields)
                    then Err (UnsupportedField field_path) else Ok tt)
                   variant_fields key)
                common key))
            (Err (UnsupportedVariant (child_path path discriminator) variant))
            variants variant
      | _ => Err (invalid_shape path (lit "a mapping"))
      end
  end.

Definition validate_known_mapping (m : Mapping) (fields : Fields) (path : str)
    (additional_fields : AdditionalFields) : result unit ConfigError :=
  each_entry m path (λ key v field_path,
    find_key (λ s, validate_node s v field_path)
      (if are_core_passthrough additional_fields then Ok tt
       else Err (UnsupportedField field_path)) fields key).

Definition policy_validate (policy : ConfigPolicy) (document : Mapping) : result unit ConfigError :=
  validate_known_mapping document (top_level policy) [] (policy_additional_fields policy).

(** *** [strip_managed_node] *)

(** One turn of the loops over the fields. *)
Definition strip_field (strip : SchemaNode → Value → Value) (field : str) (schema : SchemaNode)
    (m : Mapping) : Mapping :=
  if is_managed schema then mapping_remove m field
  else mapping_update (strip schema) m field.

Fixpoint strip_managed_node (schema : SchemaNode) (value : Value) : Value :=
  match schema, value with
  | SchemaSequence item, VSequence values => VSequence (strip_managed_node item <$> values)
  | SchemaMapping fields _ _, VMapping m =>
      VMapping (each_key (strip_field strip_managed_node) fields m)
  | SchemaNamedMap value_schema, VMapping m =>
      VMapping ((λ p, (p.1, strip_managed_node value_schema p.2)) <$> m)
  | SchemaDiscriminated discriminator common variants _ _ _, VMapping m =>
      match variant_of m discriminator with
      | None => value
      | Some variant =>
          find_key (λ variant_fields,
            VMapping (each_key (strip_field strip_managed_node) variant_fields
              (each_key (strip_field strip_managed_node) common m))) value variants variant
      end
  | _, _ => value
  end.

Definition strip_managed_mapping (m : Mapping) (fields : Fields) : Mapping :=
  each_key (strip_field strip_managed_node) fields m.

(** *** [validate_managed_node_absent] *)

(** One turn of the loop of [validate_managed_fields_absent]. *)
Definition absent_field (absent : SchemaNode → Value → str → result unit ConfigError)
    (m : Mapping) (path field : str) (schema : SchemaNode) : result unit ConfigError :=
  match mapping_get m field with
  | None => Ok tt
  | Some value =>
      match schema with
      | ManagedDrop => Err PersistedConfigurationInvalid
      | ManagedReplace => Ok tt
      | _ => absent schema value (child_path path field)
      end
  end.

Fixpoint validate_managed_node_absent (schema : SchemaNode) (value : Value) (path : str)
  : result unit ConfigError :=
  match schema, value with
  | ManagedDrop, _ => Err PersistedConfigurationInvalid
  | ManagedReplace, _ => Ok tt
  | SchemaSequence item, VSequence values =>
      each (λ index v, validate_managed_node_absent item v (index_path path index)) values
  | SchemaMapping fields _ _, VMapping m =>
      each_key (λ field schema r,
        guard? r in absent_field validate_managed_node_absent m path field schema) fields (Ok tt)
  | SchemaNamedMap value_schema, VMapping m =>
      each (λ _ p,
        let? name := ok_or (as_str p.1) PersistedConfigurationInvalid in
        validate_managed_node_absent value_schema p.2 (child_path path name)) m
  | SchemaDiscriminated discriminator common variants _ _ _, VMapping m =>
      match variant_of m discriminator with
      | None => Err PersistedConfigurationInvalid
      | Some variant =>
          find_key (λ variant_fields,
            each (λ _ p,
              let? field := ok_or (as_str p.1) PersistedConfigurationInvalid in
              let check s :=
                match s with
                | ManagedDrop => Err PersistedConfigurationInvalid
                | _ => validate_managed_node_absent s p.2 (child_path path field)
                end in
              find_key check (find_key check (Ok tt) variant_fields field) common field) m)
            (Err PersistedConfigurationInvalid) variants variant
      end
  | _, _ => Ok tt
  end.

Definition validate_managed_fields_absent (m : Mapping) (fields : Fields) (path : str)
  : result unit ConfigError :=
  each_key (λ field schema r,
    guard? r in absent_field validate_managed_node_absent m path field schema) fields (Ok tt).

End walks.

(** ** Lemmas on the loops *)

Lemma find_key_get {A R} (f : A → R) (d : R) (l : list (str * A)) key :
  find_key f d l key = match get l key with Some a => f a | None => d end.
Proof.
  unfold get. induction l as [|p l IH]; simpl; [done|]. by case_decide.
Qed.

Lemma get_elem {A} (l : list (str * A)) key a : get l key = Some a → (key, a) ∈ l.
Proof.
  unfold get. induction l as [|p l IH]; simpl; [done|]. case_decide as Hk.
  - intros [= <-]. rewrite <-Hk. destruct p. by left.
  - intros Hg. right. by apply IH.
Qed.

Lemma get_None {A} (l : list (str * A)) key : get l key = None ↔ key ∉ l.*1.
Proof.
  unfold get. induction l as [|p l IH]; csimpl; [by split; [intros _; apply not_elem_of_nil|]|].
  rewrite elem_of_cons. case_decide as Hk; [naive_solver|]. rewrite IH. naive_solver.
Qed.

Lemma each_from_Ok {A E} (f : N → A → result unit E) i xs :
  each_from f i xs = Ok tt ↔ ∀ j x, xs !! j = Some x → f (i + N.of_nat j)%N x = Ok tt.
Proof.
  revert i. induction xs as [|x xs IH]; intros i; simpl; [done|]. split.
  - intros H. destruct (f i x) as [[]|] eqn:Hf; [|done]. simpl in H.
    intros [|j] y Hy; simplify_eq/=; [by rewrite N.add_0_r|].
    replace (i + N.of_nat (S j))%N with (i + 1 + N.of_nat j)%N by lia. by apply IH.
  - intros Hall. pose proof (Hall 0%nat x eq_refl) as Hx. rewrite N.add_0_r in Hx.
    rewrite Hx. simpl. apply IH. intros j y Hy.
    replace (i + 1 + N.of_nat j)%N with (i + N.of_nat (S j))%N by lia. by apply (Hall (S j)).
Qed.

(** A loop succeeds when each of its turns does; where the index serves only
    for messages, that is a condition on the elements. *)
Lemma each_Ok {A E} (f : N → A → result unit E) (P : A → Prop) xs :
  (∀ i x, x ∈ xs → f i x = Ok tt ↔ P x) → each f xs = Ok tt ↔ ∀ x, x ∈ xs → P x.
Proof.
  intros Hf. unfold each. rewrite each_from_Ok. split.
  - intros Hall x Hx. pose proof Hx as Hx'. apply list_elem_of_lookup in Hx' as [j Hj].
    eapply Hf; [done|]. by apply Hall.
  - intros Hall j x Hj. apply list_elem_of_lookup_2 in Hj. apply Hf; [done|]. by apply Hall.
Qed.

Lemma each_key_result {A E} (f : str → A → result unit E) (l : list (str * A)) r :
  each_key (λ k a r, guard? r in f k a) l r = Ok tt ↔
  r = Ok tt ∧ ∀ k a, (k, a) ∈ l → f k a = Ok tt.
Proof.
  revert r. induction l as [|[k a] l IH]; intros r; simpl.
  - split; [intros ->; split; [done|]; by intros ? ? ?%not_elem_of_nil|by intros [-> _]].
  - rewrite IH. destruct r as [[]|]; simpl; [|naive_solver]. split.
    + intros [Hk Hall]. split; [done|]. intros k' a' [[= -> ->]|Hin]%elem_of_cons; [done|].
      by apply Hall.
    + intros [_ Hall]. split; [apply Hall; by left|]. intros k' a' Hin. apply Hall. by right.
Qed.

Lemma guard_Ok {E} (r k : result unit E) : (guard? r in k) = Ok tt ↔ r = Ok tt ∧ k = Ok tt.
Proof. destruct r as [[]|]; simpl; naive_solver. Qed.

(** An induction principle that reaches into the fields. *)
Section schema_ind.
Context (P : SchemaNode → Prop).
Context (Hstr : P SchemaString) (Hdrop : P ManagedDrop) (Hrep : P ManagedReplace)
  (Hseq : ∀ item, P item → P (SchemaSequence item))
  (Hmap : ∀ fields required af, Forall (λ p, P p.2) fields → P (SchemaMapping fields required af))
  (Hnamed : ∀ value, P value → P (SchemaNamedMap value))
  (Hdisc : ∀ d common variants required vr af,
     Forall (λ p, P p.2) common → Forall (λ q, Forall (λ p, P p.2) q.2) variants →
     P (SchemaDiscriminated d common variants required vr af)).

Fixpoint SchemaNode_nested_ind (s : SchemaNode) : P s :=
  let fix fields_ind (l : Fields) : Forall (λ p, P p.2) l :=
    match l with
    | [] => Forall_nil_2 _
    | (k, x) :: l' => Forall_cons_2 (λ p, P p.2) (k, x) l' (SchemaNode_nested_ind x) (fields_ind l')
    end in
  let fix variants_ind (l : list (str * Fields)) : Forall (λ q, Forall (λ p, P p.2) q.2) l :=
    match l with
    | [] => Forall_nil_2 _
    | (k, x) :: l' =>
        Forall_cons_2 (λ q, Forall (λ p, P p.2) q.2) (k, x) l' (fields_ind x) (variants_ind l')
    end in
  match s with
  | SchemaString => Hstr
  | ManagedDrop => Hdrop
  | ManagedReplace => Hrep
  | SchemaSequence item => Hseq item (SchemaNode_nested_ind item)
  | SchemaMapping fields required af => Hmap fields required af (fields_ind fields)
  | SchemaNamedMap value => Hnamed value (SchemaNode_nested_ind value)
  | SchemaDiscriminated d common variants required vr af =>
      Hdisc d common variants required vr af (fields_ind common) (variants_ind variants)
  end.
End schema_ind.

(** ** What it means to satisfy a schema *)

Section conforms.
Context `{YamlCrate}.

(** The entries whose key is, as a string, [key]. *)
Definition entry (m : Mapping) (key : str) (v : Value) : Prop :=
  ∃ k, (k, v) ∈ m ∧ as_str k = Some key.
Definition string_keyed (m : Mapping) : Prop := ∀ p, p ∈ m → is_Some (as_str p.1).
Definition has_fields (m : Mapping) (required : list str) : Prop :=
  ∀ field, field ∈ required → is_Some (mapping_get m field).

Inductive conforms : SchemaNode → Value → Prop :=
| conforms_drop v : conforms ManagedDrop v
| conforms_replace v : conforms ManagedReplace v
| conforms_string v : is_Some (as_str v) → conforms SchemaString v
| conforms_sequence item vs :
    (∀ v, v ∈ vs → conforms item v) → conforms (SchemaSequence item) (VSequence vs)
| conforms_mapping fields required af m :
    has_fields m required → string_keyed m →
    (∀ key v s, entry m key v → get fields key = Some s → conforms s v) →
    (∀ key v, entry m key v → get fields key = None → af = CorePassthrough) →
    conforms (SchemaMapping fields required af) (VMapping m)
| conforms_named value m :
    string_keyed m → (∀ v, ¬ entry m [] v) → (∀ p, p ∈ m → conforms value p.2) →
    conforms (SchemaNamedMap value) (VMapping m)
| conforms_discriminated d common variants required vr af m variant fields :
    variant_of m d = Some variant → get variants variant = Some fields →
    has_fields m required → has_fields m (default [] (get vr variant)) → string_keyed m →
    (∀ key v s, entry m key v → get (common ++ fields) key = Some s → conforms s v) →
    (∀ key v, entry m key v → get (common ++ fields) key = None →
      af = CorePassthrough ∧ ∀ name others, (name, others) ∈ variants → get others key = None) →
    conforms (SchemaDiscriminated d common variants required vr af) (VMapping m).

(** What [validate_known_mapping] checks of a whole document. *)
Definition document_conforms (fields : Fields) (af : AdditionalFields) (m : Mapping) : Prop :=
  conforms (SchemaMapping fields [] af) (VMapping m).

Lemma entry_get m key v : mapping_get m key = Some v → entry m key v.
Proof. intros Hg%mapping_get_in. by exists (VString key). Qed.

Lemma entry_keyed m p : string_keyed m → p ∈ m → ∃ key, as_str p.1 = Some key ∧ entry m key p.2.
Proof.
  intros Hk Hp. destruct (Hk p Hp) as [key Hkey]. exists key. split; [done|].
  exists p.1. by destruct p.
Qed.

Lemma get_app {A} (l k : list (str * A)) key :
  get (l ++ k) key = match get l key with Some a => Some a | None => get k key end.
Proof. unfold get. induction l as [|p l IH]; simpl; [done|]. by case_decide. Qed.

Lemma validate_required_fields_Ok m required path :
  validate_required_fields m required path = Ok tt ↔ has_fields m required.
Proof.
  apply each_Ok. intros _ field _. unfold contains_key. case_bool_decide; naive_solver.
Qed.

Lemma each_entry_Ok m path check :
  each_entry m path check = Ok tt ↔
  string_keyed m ∧ ∀ key v, entry m key v → check key v (child_path path key) = Ok tt.
Proof.
  unfold each_entry. rewrite (each_Ok _ (λ p, ∃ key, as_str p.1 = Some key ∧
    check key p.2 (child_path path key) = Ok tt)).
  - split.
    + intros Hall. split.
      * intros p (key & Hk & _)%Hall. by exists key.
      * intros key v (k & Hin & Hk). destruct (Hall _ Hin) as (key' & Hk' & Hc). by simplify_eq/=.
    + intros [Hk Hall] p Hp. destruct (entry_keyed m p Hk Hp) as (key & Hkey & He). eauto.
  - intros _ p _. destruct (as_str p.1); naive_solver.
Qed.

Lemma existsb_variants (variants : list (str * Fields)) key :
  existsb (λ p, bool_decide (is_Some (get p.2 key))) variants = false ↔
  ∀ name others, (name, others) ∈ variants → get others key = None.
Proof.
  rewrite <-not_true_iff_false, existsb_exists. split.
  - intros Hn name others Hin. destruct (get others key) as [s|] eqn:Hg; [|done].
    destruct Hn. exists (name, others). split; [by apply list_elem_of_In|].
    apply bool_decide_eq_true. simpl. rewrite Hg. eauto.
  - intros Hall ([name others] & Hin%list_elem_of_In & Hb%bool_decide_eq_true).
    apply Hall in Hin. simpl in Hb. rewrite Hin in Hb. by destruct Hb.
Qed.

End conforms.

(** ** Validation decides conformance *)

Section validate.
Context `{YamlCrate}.

(** The schemas whose validation is known to be right, by induction. *)
Definition decided (s : SchemaNode) : Prop :=
  ∀ v path, validate_node s v path = Ok tt ↔ conforms s v.

Lemma decided_get fields key s :
  Forall (λ p, decided p.2) fields → get fields key = Some s → decided s.
Proof. rewrite Forall_forall. intros Hall Hg%get_elem. by apply Hall in Hg. Qed.

Lemma validate_fields_Ok fields extra v path key :
  Forall (λ p, decided p.2) fields →
  find_key (λ s, validate_node s v path) extra fields key = Ok tt ↔
  (∀ s, get fields key = Some s → conforms s v) ∧ (get fields key = None → extra = Ok tt).
Proof.
  intros Hall. rewrite find_key_get. destruct (get fields key) as [s|] eqn:Hg; [|naive_solver].
  rewrite (decided_get _ _ _ Hall Hg v path). naive_solver.
Qed.

Lemma decided_mapping fields required af :
  Forall (λ p, decided p.2) fields → decided (SchemaMapping fields required af).
Proof.
  intros Hall v path. destruct v; simpl; try (split; [done|by inversion 1]).
  rewrite guard_Ok, validate_required_fields_Ok, each_entry_Ok.
  setoid_rewrite validate_fields_Ok; [|done]. split.
  - intros (Hr & Hk & Hc). constructor; [done|done|naive_solver|].
    intros key v He Hn. destruct (Hc key v He) as [_ Hx]. apply Hx in Hn. by destruct af.
  - inversion_clear 1 as [| | | |? ? ? ? Hr Hk Hc Hx| |]. split; [done|]. split; [done|].
    intros key v He. split; [eauto|]. intros Hn. by rewrite (Hx key v He Hn).
Qed.

Lemma decided_named value : decided value → decided (SchemaNamedMap value).
Proof.
  intros Hv v path. destruct v as [| | | | |m|]; simpl; try (split; [done|by inversion 1]).
  rewrite (each_Ok _ (λ p, ∃ name, as_str p.1 = Some name ∧ name ≠ [] ∧ conforms value p.2)).
  - split.
    + intros Hall. constructor.
      * intros p (name & Hn & _)%Hall. by exists name.
      * intros w (k & Hin & Hk). destruct (Hall _ Hin) as (name & Hn & He & _). by simplify_eq/=.
      * by intros p (name & _ & _ & ?)%Hall.
    + inversion_clear 1 as [| | | | |? ? Hk He Hc|]. intros p Hp.
      destruct (entry_keyed m p Hk Hp) as (name & Hn & Hen). exists name.
      split; [done|]. split; [|by apply Hc]. intros ->. by apply (He p.2).
  - intros _ p _. destruct (as_str p.1) as [name|]; [|naive_solver].
    case_bool_decide; [naive_solver|]. rewrite (Hv p.2). naive_solver.
Qed.

Lemma decided_discriminated d common variants required vr af :
  Forall (λ p, decided p.2) common → Forall (λ q, Forall (λ p, decided p.2) q.2) variants →
  decided (SchemaDiscriminated d common variants required vr af).
Proof.
  intros Hcommon Hvariants v path.
  destruct v as [| | | | |m|]; simpl; try (split; [done|by inversion 1]).
  destruct (variant_of m d) as [variant|] eqn:Hv; simpl; [|split; [done|]].
  2: { inversion_clear 1. congruence. }
  rewrite find_key_get. destruct (get variants variant) as [fields|] eqn:Hg; [|split; [done|]].
  2: { inversion_clear 1. congruence. }
  assert (Forall (λ p, decided p.2) (common ++ fields)) as Hall.
  { apply Forall_app. split; [done|]. apply get_elem in Hg.
    rewrite Forall_forall in Hvariants. by apply Hvariants in Hg. }
  assert (∀ key v q (extra : result unit ConfigError),
    find_key (λ s, validate_node s v q) (find_key (λ s, validate_node s v q) extra fields key)
      common key = find_key (λ s, validate_node s v q) extra (common ++ fields) key) as Happ.
  { intros key w q extra. rewrite !find_key_get, get_app. by destruct (get common key). }
  rewrite !guard_Ok, validate_required_fields_Ok, each_entry_Ok.
  setoid_rewrite Happ. setoid_rewrite validate_fields_Ok; [|done].
  assert ((match get vr variant with
           | Some required => validate_required_fields m required path
           | None => Ok tt
           end) = Ok tt ↔ has_fields m (default [] (get vr variant))) as Hvr.
  { destruct (get vr variant); simpl; [apply validate_required_fields_Ok|].
    split; [|done]. by intros _ f ?%not_elem_of_nil. }
  rewrite Hvr. split.
  - intros (Hr & Hr' & Hk & Hc). econstructor; [done..|naive_solver|].
    intros key v He Hn. destruct (Hc key v He) as [_ Hx]. specialize (Hx Hn).
    destruct (existsb _ variants) eqn:Hb; [done|]. rewrite existsb_variants in Hb.
    by destruct af.
  - inversion_clear 1 as [| | | | | |? ? ? ? ? ? ? ? ? Hv' Hg' Hr Hr' Hk Hc Hx]. simplify_eq.
    do 3 (split; [done|]). intros key v He. split; [eauto|]. intros Hn.
    destruct (Hx key v He Hn) as [-> Hnone]. apply existsb_variants in Hnone as ->. done.
Qed.

Lemma validate_node_decides s : decided s.
Proof.
  induction s as [| | |item IH|fields required af IH|value IH|d common variants required vr af IHc IHv]
    using SchemaNode_nested_ind.
  - intros v path. simpl. unfold is_string. case_bool_decide; split; try done.
    + by constructor.
    + by inversion 1.
  - intros v path. split; [constructor|done].
  - intros v path. split; [constructor|done].
  - intros v path. destruct v as [| | | |vs| |]; simpl; try (split; [done|by inversion 1]).
    rewrite (each_Ok _ (conforms item)); [|by intros; apply IH].
    split; [by constructor|by inversion 1].
  - by apply decided_mapping.
  - by apply decided_named.
  - by apply decided_discriminated.
Qed.

Lemma validate_known_mapping_Ok m fields af path :
  validate_known_mapping m fields path af = Ok tt ↔ document_conforms fields af m.
Proof.
  unfold document_conforms. rewrite <-(validate_node_decides (SchemaMapping fields [] af) _ path).
  done.
Qed.

(** C38: the policy check accepts a document exactly when the document conforms
    to the policy's schema: every key is a string, every known field satisfies
    its node, required fields are present, provider variants are supported and
    use only their own fields, and unknown fields pass only where the policy
    passes them through to the Core.  The order of the entries plays no role. *)
Theorem policy_validate_conforms policy document :
  policy_validate policy document = Ok tt ↔
  document_conforms (top_level policy) (policy_additional_fields policy) document.
Proof. apply validate_known_mapping_Ok. Qed.

End validate.

(** ** Stripping *)

(** No managed node anywhere (and distinct field names, as in any map). *)
Fixpoint no_managed (s : SchemaNode) : bool :=
  match s with
  | SchemaString => true
  | ManagedDrop | ManagedReplace => false
  | SchemaSequence item => no_managed item
  | SchemaMapping fields _ _ =>
      bool_decide (NoDup fields.*1) && forallb (λ p, no_managed p.2) fields
  | SchemaNamedMap value => no_managed value
  | SchemaDiscriminated _ common variants _ _ _ =>
      forallb (λ p, no_managed p.2) common
      && forallb (λ q, forallb (λ p, no_managed p.2) q.2) variants
  end.

(** Managed nodes occur only as fields of mappings with distinct field names. *)
Fixpoint strippable (s : SchemaNode) : bool :=
  match s with
  | SchemaString | ManagedDrop | ManagedReplace => true
  | SchemaSequence item => negb (is_managed item) && strippable item
  | SchemaMapping fields _ _ =>
      bool_decide (NoDup fields.*1) && forallb (λ p, strippable p.2) fields
  | SchemaNamedMap value => negb (is_managed value) && strippable value
  | SchemaDiscriminated _ _ _ _ _ _ => no_managed s
  end.

Section strip.
Context `{YamlCrate}.

Lemma no_managed_not_managed s : no_managed s = true → is_managed s = false.
Proof. by destruct s. Qed.

Lemma forallb_get (P : SchemaNode → bool) (fields : Fields) key s :
  forallb (λ p, P p.2) fields = true → get fields key = Some s → P s = true.
Proof.
  intros Hall Hg%get_elem. rewrite forallb_forall in Hall.
  apply list_elem_of_In in Hg. by apply Hall in Hg.
Qed.

Lemma forallb_Forall {A} (P : A → bool) l : forallb P l = true ↔ Forall (λ x, P x = true) l.
Proof. rewrite forallb_forall, Forall_forall. by setoid_rewrite list_elem_of_In. Qed.

(** *** Nothing to strip *)

Lemma strip_fields_id (fields : Fields) m :
  Forall (λ p, no_managed p.2 = true → ∀ v, strip_managed_node p.2 v = v) fields →
  forallb (λ p, no_managed p.2) fields = true →
  each_key (strip_field strip_managed_node) fields m = m.
Proof.
  intros Hall. induction Hall as [|[k s] fields Hs _ IH]; simpl; [done|].
  intros [Hn Hrest]%andb_true_iff. unfold strip_field at 2.
  rewrite no_managed_not_managed by done. rewrite mapping_update_id; [by apply IH|].
  intros v _. by apply Hs.
Qed.

Lemma strip_no_managed s : no_managed s = true → ∀ v, strip_managed_node s v = v.
Proof.
  induction s as [| | |item IH|fields required af IH|value IH|d common variants required vr af IHc IHv]
    using SchemaNode_nested_ind; try done; intros Hn v; destruct v; try done; simpl in *.
  - f_equal. rewrite <-(list_fmap_id values) at 2. apply list_fmap_ext. intros i x _. by apply IH.
  - apply andb_true_iff in Hn as [_ Hn]. by rewrite strip_fields_id.
  - f_equal. rewrite <-(list_fmap_id entries) at 2. apply list_fmap_ext. intros i [k x] _.
    simpl. by rewrite IH.
  - apply andb_true_iff in Hn as [Hc Hv]. destruct (variant_of entries d) as [variant|]; [|done].
    rewrite find_key_get. destruct (get variants variant) as [fields|] eqn:Hg; [|done].
    apply get_elem in Hg. rewrite Forall_forall in IHv. pose proof (IHv _ Hg) as IHf.
    rewrite forallb_forall in Hv. apply list_elem_of_In in Hg. apply Hv in Hg.
    by rewrite !strip_fields_id.
Qed.

(** *** What a loop over the fields does to each key *)

Lemma strip_field_distinct F field s m :
  distinct_keys m.*1 → distinct_keys (strip_field F field s m).*1.
Proof. unfold strip_field. destruct (is_managed s); eauto with ratash. Qed.

Lemma strip_field_get F field s m key :
  distinct_keys m.*1 →
  mapping_get (strip_field F field s m) key =
  if decide (field = key)
  then (if is_managed s then None else F s <$> mapping_get m key)
  else mapping_get m key.
Proof.
  intros Hd. unfold strip_field. destruct (is_managed s).
  - by apply mapping_get_remove.
  - apply mapping_get_update.
Qed.

Lemma strip_fields_get F (fields : Fields) m key :
  NoDup fields.*1 → distinct_keys m.*1 →
  mapping_get (each_key (strip_field F) fields m) key =
  match get fields key with
  | None => mapping_get m key
  | Some s => if is_managed s then None else F s <$> mapping_get m key
  end.
Proof.
  revert m. induction fields as [|[k s] fields IH]; intros m Hnd Hd; simpl; [done|].
  csimpl in Hnd. apply NoDup_cons in Hnd as [Hk Hnd].
  rewrite IH by (done || by apply strip_field_distinct).
  rewrite strip_field_get by done. unfold get at 2. simpl. case_decide as He; [|done].
  subst. by rewrite (proj2 (get_None fields key)).
Qed.

Lemma strip_fields_distinct F (fields : Fields) m :
  distinct_keys m.*1 → distinct_keys (each_key (strip_field F) fields m).*1.
Proof.
  revert m. induction fields as [|p fields IH]; intros m Hd; simpl; [done|].
  by apply IH, strip_field_distinct.
Qed.

Lemma strip_fields_wf (fields : Fields) m :
  Forall (λ p, ∀ v, value_wf v → value_wf (strip_managed_node p.2 v)) fields →
  value_wf (VMapping m) → value_wf (VMapping (each_key (strip_field strip_managed_node) fields m)).
Proof.
  intros Hall. revert m. induction Hall as [|p fields Hp _ IH]; intros m Hm; [done|].
  cbn [each_key]. apply IH. unfold strip_field. destruct (is_managed p.2); [by apply value_wf_remove|].
  apply value_wf_update; [done|]. intros v _. apply Hp.
Qed.

Lemma strip_wf s v : value_wf v → value_wf (strip_managed_node s v).
Proof.
  revert v.
  induction s as [| | |item IH|fields required af IH|value IH|d common variants required vr af IHc IHv]
    using SchemaNode_nested_ind; try done; intros v; destruct v; try done; cbn [strip_managed_node].
  - rewrite !value_wf_sequence, Forall_fmap. intros Hall. eapply Forall_impl; [exact Hall|]. intros x. apply IH.
  - by apply strip_fields_wf.
  - rewrite !value_wf_mapping, Forall_fmap, <-list_fmap_compose. intros [Hd Hall].
    split; [done|]. eapply Forall_impl; [exact Hall|]. intros x. apply IH.
  - destruct (variant_of entries d) as [variant|]; [|done].
    rewrite find_key_get. destruct (get variants variant) as [fields|] eqn:Hg; [|done].
    intros Hwf. apply get_elem in Hg. rewrite Forall_forall in IHv. pose proof (IHv _ Hg) as IHf.
    by apply strip_fields_wf, strip_fields_wf.
Qed.

(** *** Absence *)

Lemma each_intro {A E} (f : N → A → result unit E) xs :
  (∀ i x, x ∈ xs → f i x = Ok tt) → each f xs = Ok tt.
Proof. intros Hall. apply (each_Ok f (λ _, True)); [|done]. intros i x Hx. by rewrite Hall. Qed.

Lemma get_NoDup {A} (l : list (str * A)) key a :
  NoDup l.*1 → (key, a) ∈ l → get l key = Some a.
Proof.
  unfold get. induction l as [|[k b] l IH]; csimpl; [by intros _ ?%not_elem_of_nil|].
  rewrite NoDup_cons. intros [Hk Hnd] [[= -> ->]|Hin]%elem_of_cons; [by rewrite decide_True|].
  rewrite decide_False; [by apply IH|]. intros ->. apply Hk, list_elem_of_fmap.
  by exists (key, a).
Qed.

(** A field that may stay. *)
Lemma absent_field_Ok m path field s :
  (s = ManagedDrop → mapping_get m field = None) →
  (is_managed s = false → ∀ v, mapping_get m field = Some v →
     ∀ q, validate_managed_node_absent s v q = Ok tt) →
  absent_field validate_managed_node_absent m path field s = Ok tt.
Proof.
  intros Hdrop Hv. unfold absent_field. destruct (mapping_get m field) as [v|]; [|done].
  destruct s; try done; try (by apply Hv). by specialize (Hdrop eq_refl).
Qed.

Lemma no_managed_absent s v :
  no_managed s = true → conforms s v → ∀ path, validate_managed_node_absent s v path = Ok tt.
Proof.
  revert v.
  induction s as [| | |item IH|fields required af IH|value IH|d common variants required vr af IHc IHv]
    using SchemaNode_nested_ind; try done; intros v Hn Hc path; inversion Hc; subst; simpl in Hn |- *.
  - apply each_intro. intros i x Hx. apply IH; [done|]. eauto.
  - apply andb_true_iff in Hn as [Hnd%bool_decide_eq_true Hn].
    apply each_key_result. split; [done|]. intros k s Hin.
    pose proof (get_NoDup _ _ _ Hnd Hin) as Hg.
    pose proof (forallb_get no_managed _ _ _ Hn Hg) as Hs. rewrite Forall_forall in IH.
    apply absent_field_Ok; [by intros ->|]. intros _ v Hv q.
    apply (IH _ Hin); [done|]. eauto using entry_get.
  - apply each_intro. intros i p Hp. destruct (entry_keyed _ _ ltac:(eassumption) Hp) as (name & -> & _).
    simpl. apply IH; [done|]. eauto.
  - apply andb_true_iff in Hn as [Hnc Hnv].
    match goal with H : variant_of _ _ = _ |- _ => rewrite H end.
    rewrite find_key_get. match goal with H : get variants _ = _ |- _ => rewrite H; rename H into Hg end.
    apply get_elem in Hg. rewrite Forall_forall in IHv. pose proof (IHv _ Hg) as IHf.
    rewrite forallb_forall in Hnv. apply list_elem_of_In in Hg. apply Hnv in Hg. simpl in Hg, IHf.
    apply each_intro. intros i p Hp. destruct (entry_keyed _ _ ltac:(eassumption) Hp) as (key & -> & He).
    simpl. rewrite !find_key_get.
    assert (∀ s, get (common ++ fields) key = Some s →
      match s with
      | ManagedDrop => Err PersistedConfigurationInvalid
      | _ => validate_managed_node_absent s p.2 (child_path path key)
      end = Ok tt) as Hall.
    { intros s Hs. pose proof (get_elem _ _ _ Hs) as Hin.
      assert (conforms s p.2) by eauto.
      assert (no_managed s = true ∧ (no_managed s = true → ∀ v, conforms s v →
        ∀ q, validate_managed_node_absent s v q = Ok tt)) as [Hns IH].
      { apply elem_of_app in Hin as [Hin|Hin]; rewrite ?Forall_forall in *.
        - split; [|intros Hns w Hw; by apply (IHc _ Hin)].
          rewrite forallb_forall in Hnc. apply list_elem_of_In in Hin. by apply Hnc in Hin.
        - split; [|intros Hns w Hw; by apply (IHf _ Hin)].
          rewrite forallb_forall in Hg. apply list_elem_of_In in Hin. by apply Hg in Hin. }
      destruct s; try done; by apply IH. }
    rewrite get_app in Hall. destruct (get common key) as [s|]; [by apply Hall|].
    destruct (get fields key) as [s|]; [by apply Hall|done].
Qed.

Lemma strip_absent s v :
  strippable s = true → is_managed s = false → value_wf v → conforms s v →
  ∀ path, validate_managed_node_absent s (strip_managed_node s v) path = Ok tt.
Proof.
  revert v.
  induction s as [| | |item IH|fields required af IH|value IH|d common variants required vr af IHc IHv]
    using SchemaNode_nested_ind; try done; intros v Hs Hm Hwf Hc path.
  - inversion Hc as [| | |? vs Hvs| | |]; subst. simpl in Hs |- *.
    apply andb_true_iff in Hs as [Hi%negb_true_iff Hs].
    rewrite value_wf_sequence, Forall_forall in Hwf.
    apply each_intro. intros i x (y & -> & Hy)%list_elem_of_fmap. by apply IH; auto.
  - inversion Hc as [| | | |? ? ? m _ _ Hf _| |]; subst. simpl in Hs |- *.
    apply andb_true_iff in Hs as [Hnd%bool_decide_eq_true Hs].
    pose proof Hwf as [Hd _]%value_wf_mapping. apply each_key_result. split; [done|].
    intros k s Hin. pose proof (get_NoDup _ _ _ Hnd Hin) as Hg.
    pose proof (strip_fields_get strip_managed_node fields m k Hnd Hd) as Hget. rewrite Hg in Hget.
    apply absent_field_Ok; [by intros ->|]. intros Hm' v Hv q. rewrite Hget, Hm' in Hv.
    apply fmap_Some in Hv as (w & Hw & ->). rewrite Forall_forall in IH. apply (IH _ Hin); simpl.
    + by apply (forallb_get strippable fields k).
    + done.
    + by eapply value_wf_get.
    + eauto using entry_get.
  - inversion Hc as [| | | | |? m Hk _ Hf|]; subst. simpl in Hs |- *.
    apply andb_true_iff in Hs as [Hi%negb_true_iff Hs].
    rewrite value_wf_mapping, Forall_forall in Hwf. destruct Hwf as [_ Hwf].
    apply each_intro. intros i x (p & -> & Hp)%list_elem_of_fmap. simpl.
    destruct (Hk p Hp) as [name ->]. simpl. by apply IH; auto.
  - change (no_managed (SchemaDiscriminated d common variants required vr af) = true) in Hs.
    rewrite strip_no_managed by done. by apply no_managed_absent.
Qed.


End strip.

Section examples.
#[local] Existing Instance sample_yaml.

(** A profile that binds an external controller and asks the DNS server to
    listen. *)
Definition sample_document : Mapping :=
  [ (VString (lit "mode"), VString (lit "global"));
    (VString (lit "external-controller"), VString (lit "0.0.0.0:9090"));
    (VString (lit "dns"), VMapping [ (VString (lit "listen"), VString (lit "0.0.0.0:53"));
                                     (VString (lit "nameserver"), VSequence []) ]);
    (VString (lit "proxies"), VSequence
       [ VMapping [ (VString (lit "name"), VString (lit "p"));
                    (VString (lit "type"), VString (lit "ss")) ] ]) ].


End examples.
