(* ===== verification/Config.v ===== *)
(** * Config: the configuration compiler of src/config.rs

    [compile] turns a profile and the local rules into the file the Core runs
    with: it checks the profile against the policy, checks its references,
    strips what the program manages, writes its own values, and confines the
    providers' files.  [validate_persisted] and [validate_privileged_candidate]
    check such a file on the other side.

    A panic ([expect], [unreachable!]) is the outcome [Panicked]. *)

From S2P Require Import Prelude Text Ordered Constants Yaml Path Domain Rule Profile ConfigData ConfigPolicy.
Local Open Scope Z_scope.

(** ** Constants *)

Definition BUNDLED_CORE_VERSION : str := lit "v1.19.28".
Definition COMPILER_POLICY_REVISION : str := lit "ratash-config-policy-v6".
Definition AUTHORITATIVE_DNS_MODE : str := lit "fake-ip".
Definition AUTHORITATIVE_FAKE_IP_RANGE : str := lit "198.18.0.1/16".
Definition AUTHORITATIVE_FAKE_IP_RANGE6 : str := lit "fdfe:dcba:9876::1/64".
Definition AUTHORITATIVE_FAKE_IP_FILTER_MODE : str := lit "blacklist".

(** ** Data *)

Record AuthoritativeConfig := MkAuthoritativeConfig {
  controller_unix : str;
  secret : str;
}.

Definition directory (s : ProviderSection) : str :=
  match s with
  | ProxySection => lit "proxy"
  | RuleSection => lit "rule"
  end.

Record ConfigCompiler := MkConfigCompiler {
  compiler_policy : ConfigPolicy;
  cc_policy_sha256 : str;
}.

(** What a function that may panic ends with. *)
Inductive Fault :=
| Raised (error : ConfigError)
| Panicked.

Definition raise {A} (r : result A ConfigError) : result A Fault := map_err Raised r.
(** [Option::expect] *)
Definition expect {A} (o : option A) : result A Fault := ok_or o Panicked.

(** ** Baselines *)

Abbreviation key := VString.

Definition authoritative_tun_baseline : Value :=
  VMapping
    [ (key (lit "enable"), VBool true); (key (lit "stack"), VString (lit "gvisor"));
      (key (lit "auto-route"), VBool true); (key (lit "strict-route"), VBool false);
      (key (lit "auto-detect-interface"), VBool true);
      (key (lit "dns-hijack"), VSequence [VString (lit "any:53")]) ].

Definition authoritative_dns_fields : list (str * Value) :=
  [ (lit "enable", VBool true); (lit "ipv6", VBool true); (lit "fallback", VSequence []);
    (lit "enhanced-mode", VString AUTHORITATIVE_DNS_MODE);
    (lit "fake-ip-range", VString AUTHORITATIVE_FAKE_IP_RANGE);
    (lit "fake-ip-range6", VString AUTHORITATIVE_FAKE_IP_RANGE6);
    (lit "fake-ip-filter-mode", VString AUTHORITATIVE_FAKE_IP_FILTER_MODE);
    (lit "fake-ip-filter", VSequence (VString <$>
      [ lit "*.lan"; lit "*.local"; lit "*.arpa"; lit "time.*.com"; lit "ntp.*.com";
        lit "+.market.xiaomi.com"; lit "localhost.ptlogin2.qq.com"; lit "*.msftncsi.com";
        lit "www.msftconnecttest.com" ])) ].

(** The same, as the [Mapping] the function returns. *)
Definition authoritative_dns_mapping : Mapping :=
  (λ p, (VString p.1, p.2)) <$> authoritative_dns_fields.

Definition port (n : Z) : Value := VNumber (NumberInt n).

Definition authoritative_sniffer_baseline : Value :=
  VMapping
    [ (key (lit "enable"), VBool true); (key (lit "force-dns-mapping"), VBool true);
      (key (lit "parse-pure-ip"), VBool true); (key (lit "override-destination"), VBool true);
      (key (lit "sniff"), VMapping
        [ (key (lit "HTTP"), VMapping
             [ (key (lit "ports"), VSequence [port 80; VString (lit "8080-8880")]);
               (key (lit "override-destination"), VBool true) ]);
          (key (lit "TLS"), VMapping [(key (lit "ports"), VSequence [port 443; port 8443])]);
          (key (lit "QUIC"), VMapping [(key (lit "ports"), VSequence [port 443; port 8443])]) ]) ].

Definition reserved_proxy_names : gset str :=
  list_to_set [ lit "COMPATIBLE"; lit "DIRECT"; lit "PASS"; lit "PASS-RULE"; lit "REJECT";
                lit "REJECT-DROP" ].

Definition builtin_policy_targets : gset str := reserved_proxy_names ∪ {[lit "GLOBAL"]}.

(** ** Checks of the input *)

Definition validate_authoritative (a : AuthoritativeConfig) : result unit ConfigError :=
  if negb (is_absolute (utf8 (controller_unix a))) || bool_decide (controller_unix a = [])
  then Err (InvalidAuthoritativeValue (lit "external-controller-unix"))
  else if bool_decide (secret a = []) then Err (InvalidAuthoritativeValue (lit "secret"))
  else Ok tt.

Definition validate_reference (path kind name : str) (available : gset str)
  : result unit ConfigError :=
  if bool_decide (name ∈ available) then Ok tt else Err (UnavailableReference path kind name).

(** One turn of the loop of [validate_rule_strings]. *)
Definition validate_rule_string (path : str) (policy_targets rule_providers sub_rules : gset str)
    (index : N) (rule : str) : result unit Fault :=
  let rule_path := index_path path index in
  let? rule := raise (map_err (λ e, InvalidRoutingRule rule_path (RuleStringError_display e))
                        (RuleString_new rule RULE_STRING_MAX_BYTES)) in
  let? parsed := raise (map_err (λ e, InvalidRoutingRule rule_path (RuleParseError_display e))
                          (parse_rule rule)) in
  if existsb (λ p, bool_decide (p = [])) (params parsed)
  then Err (Raised (InvalidRoutingRule rule_path (lit "empty rule parameters are unsupported")))
  else
    guard? raise (match rule_type parsed with
                  | SubRule =>
                      validate_reference rule_path (lit "sub-rule") (policy_target parsed) sub_rules
                  | _ =>
                      validate_reference rule_path (lit "Policy Target") (policy_target parsed)
                        policy_targets
                  end) in
    if decide (rule_type parsed = RuleSet) then
      let? provider := expect (payload parsed) in
      raise (validate_reference rule_path (lit "rule provider") provider rule_providers)
    else Ok tt.

Definition validate_rule_strings (rules : list str) (path : str)
    (policy_targets rule_providers sub_rules : gset str) : result unit Fault :=
  each (validate_rule_string path policy_targets rule_providers sub_rules) rules.

(** Names taken so far and the records still to check; [refused] is the extra
    condition on proxies. *)
Fixpoint validate_names (section : str) (refused : str → bool) (records : list (N * str))
    (names : gset str) : result (gset str) ConfigError :=
  match records with
  | [] => Ok names
  | (index, name) :: records' =>
      if refused name || bool_decide (name ∈ names)
      then Err (DuplicateName (index_path section index ++ lit ".name") name)
      else validate_names section refused records' ({[name]} ∪ names)
  end.

Definition validate_unique_names (proxies groups : list (N * str)) : result unit ConfigError :=
  let? names := validate_names (lit "proxies") (λ n, bool_decide (n = lit "GLOBAL")) proxies
                  reserved_proxy_names in
  guard? validate_names (lit "proxy-groups") (λ _, false) groups names in
  Ok tt.

(** ** The compiler

    The crates and the host the compiler calls: YAML, SHA-256, URL parsing, and
    what [canonicalize], [is_dir] and [is_file] say of the files at the time. *)

Class Host := {
  sha256 : bytes → bytes;
  url_parse : str → option Url;
  fs_canonicalize : path → option path;
  fs_is_dir : path → bool;
  fs_is_file : path → bool;
}.

(** What the compiler relies on: digests have 32 bytes, and a path the system
    canonicalizes is absolute, made of directory entries. *)
Class HostLaws `{Host} := {
  sha256_bytes content : Forall (λ b, b < 256)%N (sha256 content) ∧ length (sha256 content) = 32%nat;
  fs_canonical p q : fs_canonicalize p = Some q → canonical_path q;
}.

Section compiler.
Context `{YamlCrate, Host}.

(** *** References *)

Definition collect_record_names (document : Mapping) (section : str)
  : result (list (N * str)) Fault :=
  match mapping_get document section with
  | Some (VSequence records) =>
      collect (λ index record,
        let? name := expect (m ← as_mapping record; n ← mapping_get m (lit "name"); as_str n) in
        if bool_decide (name = [])
        then Err (Raised (EmptyName (index_path section (Z.to_N index) ++ lit ".name")))
        else Ok (Z.to_N index, name)) records
  | _ => Ok []
  end.

Definition collect_map_names (document : Mapping) (section : str) : result (gset str) Fault :=
  match mapping_get document section with
  | Some (VMapping records) =>
      let? names := collect (λ _ p,
        let? name := expect (as_str p.1) in
        if bool_decide (name = []) then Err (Raised (EmptyName section)) else Ok name) records in
      Ok (list_to_set names)
  | _ => Ok ∅
  end.

(** The inner loops of [validate_group_references]: the references of one field
    of one group. *)
Definition validate_group_field (group : Mapping) (index : N) (field : str)
    (available : gset str) (kind : str) : result unit Fault :=
  match mapping_get group field with
  | Some (VSequence references) =>
      each (λ reference_index reference,
        let? name := expect (as_str reference) in
        raise (validate_reference
          (index_path (index_path (lit "proxy-groups") index ++ lit "." ++ field) reference_index)
          kind name available)) references
  | _ => Ok tt
  end.

Definition validate_group_references (document : Mapping)
    (policy_targets proxy_provider_names : gset str) : result unit Fault :=
  match mapping_get document (lit "proxy-groups") with
  | Some (VSequence groups) =>
      each (λ index group,
        let? group := expect (as_mapping group) in
        guard? validate_group_field group index (lit "proxies") policy_targets
                 (lit "proxy or Proxy Group") in
        validate_group_field group index (lit "use") proxy_provider_names (lit "proxy provider"))
        groups
  | _ => Ok tt
  end.

Definition validate_sub_rules (document : Mapping)
    (policy_targets rule_provider_names sub_rule_names : gset str) : result unit Fault :=
  match mapping_get document (lit "sub-rules") with
  | Some (VMapping sub_rules) =>
      each (λ _ p,
        let? name := expect (as_str p.1) in
        let? rules := expect (as_sequence p.2) in
        each (λ index rule,
          let? rule := expect (as_str rule) in
          validate_rule_string (child_path (lit "sub-rules") name) policy_targets
            rule_provider_names sub_rule_names index rule) rules) sub_rules
  | _ => Ok tt
  end.

Definition validate_references (document : Mapping) (rules : list str) : result unit Fault :=
  let? proxy_names := collect_record_names document (lit "proxies") in
  let? group_names := collect_record_names document (lit "proxy-groups") in
  guard? raise (validate_unique_names proxy_names group_names) in
  let? proxy_provider_names := collect_map_names document (lit "proxy-providers") in
  let? rule_provider_names := collect_map_names document (lit "rule-providers") in
  let? sub_rule_names := collect_map_names document (lit "sub-rules") in
  let policy_targets :=
    builtin_policy_targets ∪ list_to_set proxy_names.*2 ∪ list_to_set group_names.*2 in
  guard? validate_group_references document policy_targets proxy_provider_names in
  guard? validate_rule_strings rules (lit "rules") policy_targets rule_provider_names
           sub_rule_names in
  validate_sub_rules document policy_targets rule_provider_names sub_rule_names.

(** *** Providers *)

Definition canonical_staging_root (staging_root : path) : result path ConfigError :=
  let? canonical_root := ok_or (fs_canonicalize staging_root) (StagingRootUnavailable staging_root) in
  if fs_is_dir canonical_root then Ok canonical_root
  else Err (StagingRootUnavailable staging_root).

Definition resolve_local_provider (staging_root : path) (raw_path : str)
  : result (path * path) ConfigError :=
  let path := utf8 raw_path in
  if existsb is_parent_dir (components path) then Err (ProviderPathTraversal path)
  else
    let candidate := if is_absolute path then path else path_join staging_root path in
    let? source := ok_or (fs_canonicalize candidate) (ProviderFileUnavailable candidate) in
    let? relative_path := ok_or (path_strip_prefix source staging_root)
                            (ProviderPathOutsideStagingRoot source) in
    if bool_decide (relative_path = []) then Err (ProviderPathOutsideStagingRoot source)
    else if negb (fs_is_file source) then Err (ProviderFileUnavailable source)
    else Ok (source, relative_path).

Definition controlled_identity (section : ProviderSection) (name url : str) : bytes :=
  utf8 (directory section) ++ [0%N] ++ utf8 name ++ [0%N] ++ utf8 url.

Definition controlled_remote_path (section : ProviderSection) (name url : str) : path :=
  let digest := sha256_hex sha256 (controlled_identity section name url) in
  path_join (path_join (utf8 (lit "providers")) (utf8 (directory section)))
    (utf8 (digest ++ lit ".yaml")).

Definition path_string (p : path) : str := replace_backslash (from_utf8_lossy p).

(** One turn of the loop of [classify_provider_section]: the provider's new
    value and its record. *)
Definition classify_provider (section_name : str) (section : ProviderSection) (staging_root : path)
    (p : Value * Value) : result (Value * option ProviderRecord) Fault :=
  let? name := expect (as_str p.1) in
  let provider_path := child_path section_name name in
  match p.2 with
  | VMapping provider =>
      match variant_of provider (lit "type") with
      | Some kind =>
          if decide (kind = lit "http") then
            let? url := raise (ok_or (v ← mapping_get provider (lit "url"); as_str v)
                                 (ProviderUrlRequired provider_path)) in
            let? parsed_url := raise (ok_or (url_parse url) (ProviderUrlInvalid provider_path)) in
            if negb (bool_decide (url_scheme parsed_url = lit "http")
                     || bool_decide (url_scheme parsed_url = lit "https"))
               || bool_decide (url_host_str parsed_url = None)
            then Err (Raised (ProviderUrlInvalid provider_path))
            else
              let relative_path := controlled_remote_path section name url in
              Ok (VMapping (mapping_set provider (lit "path") (VString (path_string relative_path))),
                  Some (MkProviderRecord section name relative_path (RemoteProvider url)))
          else if decide (kind = lit "file") then
            let? raw_path := raise (ok_or (v ← mapping_get provider (lit "path"); as_str v)
                                      (ProviderPathRequired provider_path)) in
            let? resolved := raise (resolve_local_provider staging_root raw_path) in
            Ok (VMapping (mapping_set provider (lit "path") (VString (path_string resolved.2))),
                Some (MkProviderRecord section name resolved.2 (LocalProvider resolved.1)))
          else if decide (kind = lit "inline") then
            Ok (VMapping (mapping_remove provider (lit "path")), None)
          else Err Panicked
      | None => Err Panicked
      end
  | _ => Err (Raised (invalid_shape provider_path (lit "a mapping")))
  end.

Fixpoint classify_providers (section_name : str) (section : ProviderSection) (staging_root : path)
    (providers : Mapping) : result (Mapping * list ProviderRecord) Fault :=
  match providers with
  | [] => Ok ([], [])
  | p :: providers' =>
      let? head := classify_provider section_name section staging_root p in
      let? rest := classify_providers section_name section staging_root providers' in
      Ok ((p.1, head.1) :: rest.1, option_list head.2 ++ rest.2)
  end.

Definition classify_provider_section (document : Mapping) (section_name : str)
    (section : ProviderSection) (staging_root : path)
  : result (Mapping * list ProviderRecord) Fault :=
  match mapping_get document section_name with
  | Some (VMapping providers) =>
      let? classified := classify_providers section_name section staging_root providers in
      Ok (mapping_update (λ _, VMapping classified.1) document section_name, classified.2)
  | _ => Ok (document, [])
  end.

(** *** Canonical form *)

Definition yaml_key (v : Value) : str :=
  match as_str v with
  | Some s => s
  | None => default (yaml_debug v) (yaml_to_string v)
  end.

(** The loop that fills the sorted mapping. *)
Definition collect_entries (entries : list (Value * Value)) : Mapping :=
  foldl (λ m p, mapping_insert m p.1 p.2) [] entries.

(** The keys are sorted as they are, so the values may be put in canonical form
    first. *)
Fixpoint canonicalize (v : Value) : Value :=
  match v with
  | VSequence values => VSequence (canonicalize <$> values)
  | VMapping m =>
      VMapping (collect_entries
        (sort_by (λ p, yaml_key p.1) ((λ p, (p.1, canonicalize p.2)) <$> m)))
  | other => other
  end.

(** *** [ConfigCompiler] *)

(** [managed] of [policy_sha256]. *)
Definition managed_text : str :=
  lit "rules=local" ++ [10%N] ++ lit "mode=rule" ++ [10%N] ++ lit "allow-lan=false" ++ [10%N]
  ++ lit "ipv6=true" ++ [10%N] ++ lit "geo-auto-update=false" ++ [10%N]
  ++ lit "tun=" ++ yaml_debug authoritative_tun_baseline ++ [10%N]
  ++ lit "dns=" ++ yaml_debug (canonicalize (VMapping authoritative_dns_mapping)) ++ [10%N]
  ++ lit "sniffer=" ++ yaml_debug (canonicalize authoritative_sniffer_baseline).

(** [bundled_text] is the text of the policy file the build includes. *)
Definition policy_sha256 (bundled_text : str) : str :=
  sha256_hex sha256 (utf8 COMPILER_POLICY_REVISION ++ [0%N] ++ utf8 bundled_text ++ [0%N]
                     ++ utf8 managed_text).

(** [policy_from_str] is the derived [Deserialize] of the policy. *)
Definition bundled (policy_from_str : str → option ConfigPolicy) (bundled_text : str)
  : result ConfigCompiler ConfigError :=
  let? policy := ok_or (policy_from_str bundled_text) PolicyInvalid in
  if negb (policy_version policy =? 1)
     || negb (bool_decide (policy_core_version policy = BUNDLED_CORE_VERSION))
  then Err PolicyVersionMismatch
  else Ok (MkConfigCompiler policy (policy_sha256 bundled_text)).

(** The scalar fields and baselines [compile] writes before the DNS section. *)
Definition managed_fields (rules : list str) (a : AuthoritativeConfig) : list (str * Value) :=
  [ (lit "rules", VSequence (VString <$> rules)); (lit "mode", VString (lit "rule"));
    (lit "allow-lan", VBool false); (lit "ipv6", VBool true);
    (lit "geo-auto-update", VBool false);
    (lit "external-controller-unix", VString (controller_unix a));
    (lit "secret", VString (secret a)); (lit "tun", authoritative_tun_baseline) ].

Definition set_all (m : Mapping) (fields : list (str * Value)) : Mapping :=
  foldl (λ m p, mapping_set m p.1 p.2) m fields.

(** The document between the stripping and the providers. *)
Definition apply_managed (document : Mapping) (rules : list str) (a : AuthoritativeConfig)
  : result Mapping ConfigError :=
  let document := set_all document (managed_fields rules a) in
  let document := mapping_or_insert document (lit "dns") (VMapping []) in
  match mapping_get document (lit "dns") with
  | Some (VMapping dns) =>
      let document :=
        mapping_update (λ _, VMapping (set_all dns authoritative_dns_fields)) document (lit "dns") in
      Ok (mapping_set document (lit "sniffer") authoritative_sniffer_baseline)
  | _ => Err (InvalidShape (lit "dns") (lit "a mapping"))
  end.

Definition section_rank (s : ProviderSection) : Z :=
  match s with
  | ProxySection => 0
  | RuleSection => 1
  end.

Definition sort_providers (providers : list ProviderRecord) : list ProviderRecord :=
  sort_by (λ r, (section_rank (provider_section r), provider_name r)) providers.

Definition compile (c : ConfigCompiler) (snapshot : ProfileSnapshot) (rules : list str)
    (a : AuthoritativeConfig) (staging_root : path) : result EffectiveConfiguration Fault :=
  guard? raise (validate_authoritative a) in
  guard? raise (policy_validate (compiler_policy c) (snap_document snapshot)) in
  guard? validate_references (snap_document snapshot) rules in
  let? canonical_root := raise (canonical_staging_root staging_root) in
  let document := strip_managed_mapping (snap_document snapshot) (top_level (compiler_policy c)) in
  let? document := raise (apply_managed document rules a) in
  let? proxies := classify_provider_section document (lit "proxy-providers") ProxySection
                    canonical_root in
  let? both := classify_provider_section proxies.1 (lit "rule-providers") RuleSection
                 canonical_root in
  let document := both.1 in
  let providers := sort_providers (proxies.2 ++ both.2) in
  guard? raise (policy_validate (compiler_policy c) document) in
  let? yaml := raise (ok_or (yaml_to_string (canonicalize (VMapping document))) SerializationFailed) in
  Ok (MkEffectiveConfiguration yaml (policy_core_version (compiler_policy c)) (cc_policy_sha256 c)
        providers).

(** [validator] is the trait's [validate]; its error carries nothing. *)
Definition compile_validated (c : ConfigCompiler) (snapshot : ProfileSnapshot) (rules : list str)
    (a : AuthoritativeConfig) (staging_root : path)
    (validator : EffectiveConfiguration → path → bool) : result EffectiveConfiguration Fault :=
  let? configuration := compile c snapshot rules a staging_root in
  let? root := raise (canonical_staging_root staging_root) in
  if validator configuration root then Ok configuration else Err (Raised CoreValidationFailed).

(** *** Persisted configurations *)

Definition restore_v5_sniffer_destination_policy (document : Mapping) : result Mapping ConfigError :=
  let? reference := ok_or (v ← mapping_get document (lit "sniffer"); as_mapping_mut v)
                      PersistedConfigurationInvalid in
  let sniffer := mapping_set reference.1 (lit "override-destination") (VBool false) in
  Ok (mapping_update (λ _, reference.2 sniffer) document (lit "sniffer")).

(** [insert] of what the profile has, or [remove]. *)
Definition restore_field (m : Mapping) (field : str) (value : option Value) : Mapping :=
  match value with
  | Some v => mapping_set m field v
  | None => mapping_remove m field
  end.

Definition recovery_fields : list str :=
  [ lit "ipv6"; lit "enhanced-mode"; lit "fake-ip-range"; lit "fake-ip-range6";
    lit "fake-ip-filter-mode"; lit "fake-ip-filter" ].

Definition restore_profile_domain_recovery_fields (document profile : Mapping)
  : result Mapping ConfigError :=
  let document := restore_field document (lit "ipv6") (mapping_get profile (lit "ipv6")) in
  let profile_dns := v ← mapping_get profile (lit "dns"); as_mapping v in
  let? reference := ok_or (v ← mapping_get document (lit "dns"); as_mapping_mut v)
                      PersistedConfigurationInvalid in
  let dns := foldl (λ m field, restore_field m field (p ← profile_dns; mapping_get p field))
               reference.1 recovery_fields in
  let document := mapping_update (λ _, reference.2 dns) document (lit "dns") in
  Ok (restore_field document (lit "sniffer") (mapping_get profile (lit "sniffer"))).

Definition print_canonical (m : Mapping) : result bytes Fault :=
  raise (let? yaml := ok_or (yaml_to_string (canonicalize (VMapping m))) SerializationFailed in
         Ok (utf8 yaml)).

Definition validate_persisted (c : ConfigCompiler) (snapshot : ProfileSnapshot) (rules : list str)
    (persisted : bytes) (staging_root : path) : result unit Fault :=
  let? document := raise (ok_or (v ← yaml_from_slice persisted; as_mapping v)
                            PersistedConfigurationInvalid) in
  let? controller := raise (ok_or (variant_of document (lit "external-controller-unix"))
                              PersistedConfigurationInvalid) in
  let? token := raise (ok_or (variant_of document (lit "secret")) PersistedConfigurationInvalid) in
  let? expected := compile c snapshot rules (MkAuthoritativeConfig controller token) staging_root in
  if bool_decide (utf8 (cfg_yaml expected) = persisted) then Ok tt
  else
    match yaml_from_str (cfg_yaml expected) with
    | Some (VMapping legacy_v5) =>
        let? legacy_v5 := raise (restore_v5_sniffer_destination_policy legacy_v5) in
        let? legacy_v5_yaml := print_canonical legacy_v5 in
        if bool_decide (legacy_v5_yaml = persisted) then Ok tt
        else
          let? legacy_v4 := raise (restore_profile_domain_recovery_fields legacy_v5
                                     (snap_document snapshot)) in
          let? legacy_v4_yaml := print_canonical legacy_v4 in
          if bool_decide (legacy_v4_yaml = persisted) then Ok tt
          else if negb match mapping_get legacy_v4 (lit "geo-auto-update") with
                       | Some v => value_eqb v (VBool false)
                       | None => false
                       end
          then Err (Raised PersistedConfigurationInvalid)
          else
            let legacy_v4 := mapping_remove legacy_v4 (lit "geo-auto-update") in
            let? legacy_v3 := match mapping_get (snap_document snapshot) (lit "geo-auto-update") with
                              | Some (VBool b) =>
                                  Ok (mapping_set legacy_v4 (lit "geo-auto-update") (VBool b))
                              | Some _ => Err (Raised PersistedConfigurationInvalid)
                              | None => Ok legacy_v4
                              end in
            let? legacy_v3_yaml := print_canonical legacy_v3 in
            if bool_decide (legacy_v3_yaml = persisted) then Ok tt
            else Err (Raised PersistedConfigurationInvalid)
    | _ => Err (Raised PersistedConfigurationInvalid)
    end.

(** *** The privileged service's check *)

(** The condition on one provider. *)
Definition provider_path_ok (provider_files : gset str) (provider : Mapping) : bool :=
  match variant_of provider (lit "type") with
  | None => false
  | Some kind =>
      let path := variant_of provider (lit "path") in
      let normal :=
        match path with
        | Some p =>
            negb (bool_decide (utf8 p = []) || is_absolute (utf8 p)
                  || negb (forallb is_normal (components (utf8 p))))
        | None => true
        end in
      let allowed :=
        if decide (kind = lit "file") then
          match path with Some p => bool_decide (p ∈ provider_files) | None => false end
        else if decide (kind = lit "http") then bool_decide (is_Some path)
        else if decide (kind = lit "inline") then bool_decide (path = None)
        else true in
      normal && allowed
  end.

Definition validate_provider_section (document : Mapping) (provider_files : gset str)
    (section : str) : result unit ConfigError :=
  match mapping_get document section with
  | Some (VMapping providers) =>
      each (λ _ p,
        let? provider := ok_or (as_mapping p.2) PersistedConfigurationInvalid in
        if provider_path_ok provider_files provider then Ok tt
        else Err PersistedConfigurationInvalid) providers
  | _ => Ok tt
  end.

Definition validate_provider_paths (document : Mapping) (provider_files : gset str)
  : result unit ConfigError :=
  guard? validate_provider_section document provider_files (lit "proxy-providers") in
  validate_provider_section document provider_files (lit "rule-providers").

Definition field_is_str (document : Mapping) (field value : str) : bool :=
  bool_decide (variant_of document field = Some value).
Definition field_is_bool (document : Mapping) (field : str) (value : bool) : bool :=
  bool_decide ((v ← mapping_get document field; as_bool v) = Some value).
Definition field_is (document : Mapping) (field : str) (value : Value) : bool :=
  match mapping_get document field with
  | Some v => value_eqb v value
  | None => false
  end.

Definition validate_privileged_candidate (c : ConfigCompiler) (candidate : bytes)
    (a : AuthoritativeConfig) (provider_files : gset str) : result unit ConfigError :=
  guard? validate_authoritative a in
  let? document := ok_or (v ← yaml_from_slice candidate; as_mapping v)
                     PersistedConfigurationInvalid in
  guard? policy_validate (compiler_policy c) document in
  guard? validate_managed_fields_absent document (top_level (compiler_policy c)) [] in
  if negb (field_is_str document (lit "mode") (lit "rule"))
     || negb (field_is_bool document (lit "allow-lan") false)
     || negb (field_is_bool document (lit "ipv6") true)
     || negb (field_is_bool document (lit "geo-auto-update") false)
     || negb (field_is_str document (lit "external-controller-unix") (controller_unix a))
     || negb (field_is_str document (lit "secret") (secret a))
     || negb (field_is document (lit "tun") authoritative_tun_baseline)
     || negb match mapping_get document (lit "rules") with Some (VSequence _) => true | _ => false end
  then Err PersistedConfigurationInvalid
  else
    let? dns := ok_or (v ← mapping_get document (lit "dns"); as_mapping v)
                  PersistedConfigurationInvalid in
    if existsb (λ p, negb (field_is dns p.1 p.2)) authoritative_dns_fields
       || negb (field_is document (lit "sniffer") authoritative_sniffer_baseline)
    then Err PersistedConfigurationInvalid
    else validate_provider_paths document provider_files.

End compiler.
