(* ===== verification/Compiler.v ===== *)
(** * Compiler: what the configuration compiler guarantees

    The canonical form, the references, the providers and the two checks of
    compiled configurations: theorems about the definitions of [Config]. *)

From S2P Require Import Prelude Text Ordered Constants Yaml Path Domain Rule Profile ConfigData ConfigPolicy Config.
Local Open Scope Z_scope.

(** ** The canonical form *)

Section canonical.
Context `{YamlCrate}.

Abbreviation entry_key := (λ p : Value * Value, yaml_key p.1).
Abbreviation canonical_values := (fmap (M := list) (λ p : Value * Value, (p.1, canonicalize p.2))).

Lemma mapping_insert_fresh m k v :
  Forall (λ l, value_eqb k l = false) m.*1 → mapping_insert m k v = m ++ [(k, v)].
Proof.
  induction m as [|p m IH]; csimpl; [done|]. rewrite Forall_cons. intros [Hp Hm].
  rewrite Hp. by rewrite IH.
Qed.

Lemma collect_entries_distinct m : distinct_keys m.*1 → collect_entries m = m.
Proof.
  unfold collect_entries.
  assert (∀ acc, distinct_keys (acc ++ m).*1 →
    foldl (λ m p, mapping_insert m p.1 p.2) acc m = acc ++ m) as Hgo; [|by apply (Hgo [])].
  induction m as [|[k v] m IH]; intros acc Hd; simpl; [by rewrite app_nil_r|].
  rewrite mapping_insert_fresh.
  - rewrite IH; rewrite <-app_assoc; done.
  - rewrite fmap_app in Hd. csimpl in Hd. rewrite Permutation_app_comm in Hd. simpl in Hd.
    destruct Hd as [Hk _]. rewrite Forall_app in Hk. destruct Hk as [_ Hk].
    eapply Forall_impl; [exact Hk|]. by intros l [? _].
Qed.

(** The canonical entries of a mapping. *)
Definition canonical_entries (m : Mapping) : Mapping := sort_by entry_key (canonical_values m).

Lemma canonical_entries_Permutation m : canonical_entries m ≡ₚ canonical_values m.
Proof. apply sort_by_Permutation. Qed.

Lemma canonical_entries_keys m : (canonical_entries m).*1 ≡ₚ m.*1.
Proof. rewrite canonical_entries_Permutation, <-list_fmap_compose. done. Qed.

Lemma canonicalize_mapping m :
  distinct_keys m.*1 → canonicalize (VMapping m) = VMapping (canonical_entries m).
Proof.
  intros Hd. simpl. f_equal. apply collect_entries_distinct.
  change (distinct_keys (canonical_entries m).*1). by rewrite canonical_entries_keys.
Qed.

Lemma canonical_entries_get m key :
  distinct_keys m.*1 →
  mapping_get (canonical_entries m) key = canonicalize <$> mapping_get m key.
Proof.
  intros Hd. rewrite (mapping_get_Permutation _ (canonical_values m));
    [|by rewrite canonical_entries_keys|apply canonical_entries_Permutation].
  clear Hd. induction m as [|p m IH]; [done|]. rewrite fmap_cons, !mapping_get_cons. simpl.
  by destruct (is_key key p.1).
Qed.

Lemma canonicalize_wf v : value_wf v → value_wf (canonicalize v).
Proof.
  induction v as [| | | |vs IH|m IH|t v IH] using Value_nested_ind; try done.
  - cbn [canonicalize]. rewrite !value_wf_sequence, Forall_fmap. intros Hall.
    rewrite Forall_forall in IH, Hall. apply Forall_forall. intros x Hx. simpl. auto.
  - intros Hwf. pose proof Hwf as [Hd Hall]%value_wf_mapping.
    rewrite canonicalize_mapping by done. apply value_wf_mapping.
    rewrite canonical_entries_keys, canonical_entries_Permutation, Forall_fmap.
    split; [done|]. rewrite Forall_forall in IH, Hall. apply Forall_forall. intros p Hp.
    apply IH; auto.
Qed.

(** Canonical values are left as they are. *)
Lemma canonicalize_idemp v : value_wf v → canonicalize (canonicalize v) = canonicalize v.
Proof.
  induction v as [| | | |vs IH|m IH|t v IH] using Value_nested_ind; try done.
  - cbn [canonicalize]. rewrite value_wf_sequence. intros Hall. f_equal.
    rewrite <-list_fmap_compose. apply list_fmap_ext. intros i x Hx%list_elem_of_lookup_2.
    rewrite Forall_forall in IH, Hall. apply IH; auto.
  - intros Hwf. pose proof Hwf as [Hd Hall]%value_wf_mapping.
    rewrite canonicalize_mapping by done.
    rewrite canonicalize_mapping by (by rewrite canonical_entries_keys). f_equal.
    unfold canonical_entries at 1.
    assert (canonical_values (canonical_entries m) = canonical_entries m) as ->.
    { rewrite <-(list_fmap_id (canonical_entries m)) at 2. apply list_fmap_ext.
      intros i p Hp%list_elem_of_lookup_2. rewrite canonical_entries_Permutation in Hp.
      apply list_elem_of_fmap in Hp as (q & -> & Hq). simpl. f_equal.
      rewrite Forall_forall in IH, Hall. apply IH; auto. }
    apply sort_by_id, sort_by_sorted.
Qed.

(** *** The order of the entries does not matter *)

(** Values that differ only in the order of mapping entries. *)
Inductive same_value : Value → Value → Prop :=
| same_refl v : same_value v v
| same_sequence vs ws : Forall2 same_value vs ws → same_value (VSequence vs) (VSequence ws)
| same_mapping m n n' :
    Forall2 (λ p q, p.1 = q.1 ∧ same_value p.2 q.2) m n → n ≡ₚ n' →
    same_value (VMapping m) (VMapping n').

(** Keys whose sort keys differ, at every level; string keys always do. *)
Fixpoint sortable (v : Value) : Prop :=
  match v with
  | VSequence vs => (fix go l := match l with [] => True | x :: l' => sortable x ∧ go l' end) vs
  | VMapping m =>
      NoDup (entry_key <$> m)
      ∧ (fix go l := match l with [] => True | p :: l' => sortable p.2 ∧ go l' end) m
  | _ => True
  end.

Lemma sortable_sequence vs : sortable (VSequence vs) ↔ Forall sortable vs.
Proof. simpl. induction vs as [|v vs IH]; [done|]. by rewrite Forall_cons, IH. Qed.

Lemma sortable_mapping m :
  sortable (VMapping m) ↔ NoDup (entry_key <$> m) ∧ Forall (λ p, sortable p.2) m.
Proof.
  simpl. apply and_iff_compat_l. induction m as [|p m IH]; [done|]. by rewrite Forall_cons, IH.
Qed.

Lemma canonicalize_same v w : same_value v w → sortable v → canonicalize v = canonicalize w.
Proof.
  revert w. induction v as [| | | |vs IH|m IH|t v IH] using Value_nested_ind; intros w Hs Hv;
    inversion Hs as [|? ws Hvs|? mb mc Hm Hp]; subst; try done; cbn [canonicalize]; f_equal.
  - rewrite sortable_sequence in Hv. clear Hs. induction Hvs as [|x y vs1 ws1 Hxy _ IHvs]; csimpl; [done|].
    rewrite Forall_cons in IH, Hv. destruct IH as [IH1 IH2], Hv as [Hv1 Hv2].
    f_equal; [by apply IH1|by apply IHvs].
  - rewrite sortable_mapping in Hv. destruct Hv as [Hnd Hv]. f_equal.
    assert (canonical_values m = canonical_values mb) as Heq.
    { clear Hs Hnd Hp. induction Hm as [|p q m1 n1 [Hk Hs] _ IHm]; csimpl; [done|].
      rewrite Forall_cons in IH, Hv. destruct IH as [[_ IH1] IH2], Hv as [Hv1 Hv2].
      rewrite Hk. f_equal; [f_equal; by apply IH1|by apply IHm]. }
    rewrite Heq. apply sort_by_unique; [|by rewrite Hp].
    rewrite <-Heq, <-list_fmap_compose. done.
Qed.

End canonical.

(** ** Outcomes

    [outcome r P x]: the computation does not panic; it returns [x] exactly when
    [P] holds and raises an error otherwise. *)

Definition outcome {A} (r : result A Fault) (P : Prop) (x : A) : Prop :=
  (P ∧ r = Ok x) ∨ (¬ P ∧ ∃ e, r = Err (Raised e)).

Section outcome.
Context {A B : Type}.
Implicit Types (r : result A Fault) (x : A) (P Q : Prop).

Lemma outcome_ok x : outcome (Ok x) True x.
Proof. by left. Qed.

Lemma outcome_err e P x : ¬ P → outcome (Err (Raised e)) P x.
Proof. intros Hn. right. eauto. Qed.

Lemma outcome_iff r P Q x : outcome r P x → P ↔ Q → outcome r Q x.
Proof. unfold outcome. intros Ho HPQ. by rewrite <-HPQ. Qed.

Lemma outcome_bind r P x (k : A → result B Fault) Q y :
  outcome r P x → (P → outcome (k x) Q y) → outcome (result_bind r k) (P ∧ Q) y.
Proof.
  intros [[HP ->]|[HP [e ->]]] Hk; simpl.
  - destruct (Hk HP) as [[HQ ->]|[HQ [e ->]]]; [by left|]. right. split; [tauto|eauto].
  - right. split; [tauto|eauto].
Qed.

Lemma outcome_expect (o : option A) x : o = Some x → outcome (expect o) True x.
Proof. intros ->. by left. Qed.

Lemma outcome_if (b : bool) e P r x Q :
  (b = true ↔ P) → (¬ P → outcome r Q x) →
  outcome (if b then Err (Raised e) else r) (¬ P ∧ Q) x.
Proof.
  intros Hb Hr. destruct b.
  - apply outcome_err. naive_solver.
  - assert (¬ P) as HP by naive_solver. destruct (Hr HP) as [[HQ ->]|[HQ [f ->]]]; [by left|].
    right. split; [tauto|eauto].
Qed.

Lemma outcome_Ok r P x y : outcome r P x → r = Ok y → P ∧ x = y.
Proof. intros [[HP ->]|[HP [e ->]]] [=]. by subst. Qed.

Lemma outcome_no_panic r P x : outcome r P x → r ≠ Err Panicked.
Proof. by intros [[_ ->]|[_ [e ->]]]. Qed.

End outcome.

Lemma outcome_each {A} (f : N → A → result unit Fault) (P : A → Prop) xs :
  (∀ i x, x ∈ xs → outcome (f i x) (P x) tt) → outcome (each f xs) (∀ x, x ∈ xs → P x) tt.
Proof.
  unfold each. generalize 0%N. induction xs as [|x xs IH]; intros i Hf; simpl.
  - left. split; [by intros ? ?%not_elem_of_nil|done].
  - eapply outcome_iff; [eapply outcome_bind; [apply Hf; by left|]|].
    + intros _. apply IH. intros j y Hy. apply Hf. by right.
    + split; [intros [Hx Hxs] y [->|Hy]%elem_of_cons; [done|by apply Hxs]|].
      intros Hall. split; [apply Hall; by left|]. intros y Hy. apply Hall. by right.
Qed.

Lemma outcome_collect {A B} (f : Z → A → result B Fault) (P : A → Prop) (g : Z → A → B) i xs :
  (∀ j x, x ∈ xs → outcome (f j x) (P x) (g j x)) →
  outcome (collect_from f i xs) (∀ x, x ∈ xs → P x) (imap (λ n, g (i + Z.of_nat n)) xs).
Proof.
  revert i. induction xs as [|x xs IH]; intros i Hf; simpl.
  - left. split; [by intros ? ?%not_elem_of_nil|done].
  - rewrite (imap_ext _ (λ n, g (i + 1 + Z.of_nat n)) xs)
      by (intros n y _; simpl; f_equal; lia).
    rewrite Z.add_0_r.
    eapply outcome_iff; [eapply outcome_bind; [apply Hf; by left|]; intros _;
      eapply outcome_bind; [apply IH; intros j y Hy; apply Hf; by right|]; intros _|].
    + apply outcome_ok.
    + split; [intros (Hx & Hxs & _) y [->|Hy]%elem_of_cons; [done|by apply Hxs]|].
      intros Hall. split; [apply Hall; by left|]. split; [|done]. intros y Hy. apply Hall. by right.
Qed.

Lemma outcome_raise (r : result unit ConfigError) P :
  (r = Ok tt ↔ P) → outcome (raise r) P tt.
Proof.
  intros Hr. destruct r as [[]|e]; simpl; [left; naive_solver|]. right. split; [naive_solver|eauto].
Qed.

Lemma raise_Ok {A} (r : result A ConfigError) x : raise r = Ok x → r = Ok x.
Proof. destruct r; simpl; congruence. Qed.

Lemma raise_no_panic {A} (r : result A ConfigError) : raise r ≠ Err Panicked.
Proof. by destruct r. Qed.

Lemma bind_no_panic {A B} (r : result A Fault) (k : A → result B Fault) :
  r ≠ Err Panicked → (∀ x, k x ≠ Err Panicked) → result_bind r k ≠ Err Panicked.
Proof. destruct r as [x|[e|]]; simpl; auto. Qed.

(** One step through a computation that should not panic. *)
Ltac no_panic_step :=
  match goal with
  | |- result_bind _ _ ≠ Err Panicked => apply bind_no_panic; [|intros ?]
  | |- raise _ ≠ Err Panicked => apply raise_no_panic
  end.

Lemma raise_ok_or {A} (o : option A) e x : raise (ok_or o e) = Ok x → o = Some x.
Proof. destruct o; simpl; congruence. Qed.

(** ** References *)

Section references.
Context `{YamlCrate}.

Lemma conforms_field fields af d key s v :
  document_conforms fields af d → get fields key = Some s → mapping_get d key = Some v →
  conforms s v.
Proof.
  intros Hd Hs Hv. inversion Hd; subst. eauto using entry_get.
Qed.

(** The records, names and references of a document. *)
Definition section_records (d : Mapping) (section : str) : list Value :=
  match mapping_get d section with
  | Some (VSequence records) => records
  | _ => []
  end.
Definition record_name (r : Value) : option str :=
  m ← as_mapping r; n ← mapping_get m (lit "name"); as_str n.
Definition record_names (d : Mapping) (section : str) : list str :=
  default [] ∘ record_name <$> section_records d section.
Definition section_entries (d : Mapping) (section : str) : Mapping :=
  match mapping_get d section with
  | Some (VMapping m) => m
  | _ => []
  end.
Definition entry_names (d : Mapping) (section : str) : list str :=
  default [] ∘ as_str <$> (section_entries d section).*1.
Definition value_strings (v : option Value) : list str :=
  match v with
  | Some (VSequence vs) => default [] ∘ as_str <$> vs
  | _ => []
  end.
(** The strings of one field of every proxy group. *)
Definition group_strings (d : Mapping) (field : str) : list str :=
  section_records d (lit "proxy-groups")
    ≫= λ g, value_strings (m ← as_mapping g; mapping_get m field).
Definition policy_targets_of (d : Mapping) : gset str :=
  builtin_policy_targets ∪ list_to_set (record_names d (lit "proxies"))
  ∪ list_to_set (record_names d (lit "proxy-groups")).

(** A rule that can be resolved. *)
Definition rule_resolves (targets rule_providers sub_rules : gset str) (rule : str) : Prop :=
  str_len rule ≤ RULE_STRING_MAX_BYTES ∧
  ∃ parsed, parse_rule rule = Ok parsed ∧ ([] ∉ params parsed)
    ∧ policy_target parsed ∈ (if decide (rule_type parsed = SubRule) then sub_rules else targets)
    ∧ (rule_type parsed = RuleSet → ∃ provider, payload parsed = Some provider
                                                ∧ provider ∈ rule_providers).

Definition names_unique (proxies groups : list str) : Prop :=
  NoDup (proxies ++ groups) ∧ (∀ n, n ∈ proxies ++ groups → n ∉ reserved_proxy_names)
  ∧ (lit "GLOBAL" ∉ proxies).

(** Every name is usable and every reference has something to refer to. *)
Definition references_resolve (d : Mapping) (rules : list str) : Prop :=
  let proxies := record_names d (lit "proxies") in
  let groups := record_names d (lit "proxy-groups") in
  let proxy_providers := entry_names d (lit "proxy-providers") in
  let rule_providers := entry_names d (lit "rule-providers") in
  let sub_rules := entry_names d (lit "sub-rules") in
  let resolves := rule_resolves (policy_targets_of d) (list_to_set rule_providers)
                    (list_to_set sub_rules) in
  ([] ∉ proxies ++ groups ++ proxy_providers ++ rule_providers ++ sub_rules)
  ∧ names_unique proxies groups
  ∧ (∀ n, n ∈ group_strings d (lit "proxies") → n ∈ policy_targets_of d)
  ∧ (∀ n, n ∈ group_strings d (lit "use") → n ∈ proxy_providers)
  ∧ (∀ rule, rule ∈ rules → resolves rule)
  ∧ (∀ p, p ∈ section_entries d (lit "sub-rules") →
       ∀ rule, rule ∈ value_strings (Some p.2) → resolves rule).

Lemma validate_reference_Ok path kind name available :
  validate_reference path kind name available = Ok tt ↔ name ∈ available.
Proof. unfold validate_reference. case_bool_decide; naive_solver. Qed.

(** A parsed RULE-SET rule has a payload. *)
Lemma parsed_rule_payload rule t remainder parsed :
  parse_standard_rule rule t remainder = Ok parsed ∨ parse_regex_rule rule t remainder = Ok parsed
  ∨ parse_logical_rule rule t remainder = Ok parsed →
  rule_type parsed = t ∧ is_Some (payload parsed).
Proof.
  unfold parse_standard_rule, parse_regex_rule, parse_logical_rule.
  intros [Hp|[Hp|Hp]].
  - invert_result. eauto.
  - destruct (strip_rule_parameters _ _ _). invert_result. eauto.
  - invert_result. destruct (split_at_byte _ _). invert_result. eauto.
Qed.

Lemma rule_set_payload rule parsed :
  parse_rule rule = Ok parsed → rule_type parsed = RuleSet → is_Some (payload parsed).
Proof.
  unfold parse_rule. intros Hp Ht. apply result_bind_Ok in Hp as ([t remainder] & _ & Hp).
  assert (parse_rule_without_payload rule Match remainder = Ok parsed ∨
          rule_type parsed = t ∧ is_Some (payload parsed)) as [Hm|[_ ?]]; [|clear Hp|done].
  - destruct t; first [by left|right; eapply parsed_rule_payload; eauto].
  - unfold parse_rule_without_payload in Hm. invert_result. done.
Qed.

(** *** One rule *)

Lemma validate_rule_string_outcome path targets rule_providers sub_rules index rule :
  outcome (validate_rule_string path targets rule_providers sub_rules index rule)
    (rule_resolves targets rule_providers sub_rules rule) tt.
Proof.
  unfold validate_rule_string, RuleString_new, rule_resolves.
  destruct (Z.ltb_spec RULE_STRING_MAX_BYTES (str_len rule)) as [Hlen|Hlen]; simpl.
  { apply outcome_err. lia. }
  destruct (parse_rule rule) as [parsed|e] eqn:Hp; simpl; [|apply outcome_err; naive_solver].
  assert (existsb (λ p, bool_decide (p = [])) (params parsed) = true ↔ [] ∈ params parsed) as Hex.
  { rewrite existsb_exists. setoid_rewrite bool_decide_eq_true.
    setoid_rewrite <-list_elem_of_In. naive_solver. }
  assert (outcome (raise (match rule_type parsed with
    | SubRule => validate_reference (index_path path index) (lit "sub-rule") (policy_target parsed)
                   sub_rules
    | _ => validate_reference (index_path path index) (lit "Policy Target") (policy_target parsed)
             targets
    end)) (policy_target parsed ∈
      (if decide (rule_type parsed = SubRule) then sub_rules else targets)) tt) as Htarget.
  { apply outcome_raise. destruct (rule_type parsed); apply validate_reference_Ok. }
  assert (outcome (if decide (rule_type parsed = RuleSet) then
      let? provider := expect (payload parsed) in
      raise (validate_reference (index_path path index) (lit "rule provider") provider rule_providers)
    else Ok tt) (rule_type parsed = RuleSet →
      ∃ provider, payload parsed = Some provider ∧ provider ∈ rule_providers) tt) as Hprovider.
  { destruct (decide (rule_type parsed = RuleSet)) as [Ht|Ht]; [|left; split; [by intros ?|done]].
    destruct (rule_set_payload rule parsed Hp Ht) as [provider Hpay]. rewrite Hpay. simpl.
    apply outcome_raise. rewrite validate_reference_Ok. naive_solver. }
  eapply outcome_iff; [exact (outcome_if _ _ _ _ _ _ Hex
    (λ _, outcome_bind _ _ _ _ _ _ Htarget (λ _, Hprovider)))|].
  split; [intros (Hn & Ht & Hs); split; [done|]; by exists parsed|].
  intros (_ & parsed' & Hp' & ?). simplify_eq. tauto.
Qed.

(** *** Unique names *)

Lemma validate_names_outcome section refused records names :
  let r := validate_names section refused records names in
  (NoDup records.*2 ∧ (∀ n, n ∈ records.*2 → n ∉ names ∧ refused n = false)
     ∧ r = Ok (list_to_set (reverse records.*2) ∪ names)) ∨
  (¬ (NoDup records.*2 ∧ ∀ n, n ∈ records.*2 → n ∉ names ∧ refused n = false)
     ∧ ∃ e, r = Err e).
Proof.
  revert names. induction records as [|[index name] records IH]; intros names; csimpl.
  - left. split; [constructor|]. split; [by intros ? ?%not_elem_of_nil|]. f_equal. set_solver.
  - destruct (refused name || bool_decide (name ∈ names)) eqn:Hr.
    + right. split; [|eauto]. intros [_ Hall]. destruct (Hall name) as [Hn Href]; [by left|].
      rewrite Href in Hr. simpl in Hr. by apply bool_decide_eq_true in Hr.
    + apply orb_false_iff in Hr as [Hr Hn%bool_decide_eq_false].
      destruct (IH ({[name]} ∪ names)) as [(Hnd & Hall & ->)|[Hno [e ->]]].
      * left. rewrite NoDup_cons. split; [split; [|done]|split].
        -- intros Hin. apply Hall in Hin. set_solver.
        -- intros n [->|Hin]%elem_of_cons; [done|]. apply Hall in Hin. set_solver.
        -- f_equal. rewrite reverse_cons, list_to_set_app_L. set_solver.
      * right. split; [|eauto]. rewrite NoDup_cons. intros [[Hx Hnd] Hall]. apply Hno.
        split; [done|]. intros n Hin. destruct (Hall n) as [? ?]; [by right|].
        split; [|done]. rewrite not_elem_of_union, elem_of_singleton. split; [|done].
        by intros ->.
Qed.

Lemma validate_unique_names_Ok proxies groups :
  validate_unique_names proxies groups = Ok tt ↔ names_unique proxies.*2 groups.*2.
Proof.
  unfold validate_unique_names, names_unique. rewrite NoDup_app.
  destruct (validate_names_outcome (lit "proxies") (λ n, bool_decide (n = lit "GLOBAL")) proxies
    reserved_proxy_names) as [(Hnd & Hall & ->)|[Hno [e ->]]]; simpl.
  - destruct (validate_names_outcome (lit "proxy-groups") (λ _, false) groups
      (list_to_set (reverse proxies.*2) ∪ reserved_proxy_names)) as [(Hnd' & Hall' & ->)|[Hno [e ->]]];
      simpl; (split; [intros [=]|]).
    + split; [|split].
      * split; [done|]. split; [|done]. intros n Hp Hg. apply Hall' in Hg as [Hg _].
        apply Hg. rewrite elem_of_union, elem_of_list_to_set, elem_of_reverse. by left.
      * intros n [Hp|Hg]%elem_of_app; [apply Hall in Hp; tauto|].
        apply Hall' in Hg as [Hg _]. rewrite not_elem_of_union in Hg. tauto.
      * intros Hg%Hall. rewrite bool_decide_eq_false in Hg. tauto.
    + done.
    + intros ((_ & Hdis & Hnd') & Hres & _). destruct Hno. split; [done|]. intros n Hn.
      split; [|done]. rewrite not_elem_of_union, elem_of_list_to_set, elem_of_reverse.
      split; [intros Hp; by apply (Hdis n)|]. apply Hres. set_solver.
  - split; [done|]. intros ((Hnd & _ & _) & Hres & Hglob). destruct Hno. split; [done|].
    intros n Hn. split; [apply Hres; set_solver|]. rewrite bool_decide_eq_false. by intros ->.
Qed.

End references.

(** *** The references of a document the policy accepts *)

Section accepted.
Context `{YamlCrate} (d : Mapping).
Hypothesis Hd : document_conforms policy_top_level CorePassthrough d.

Lemma conforms_sequence_inv item v :
  conforms (SchemaSequence item) v → ∃ vs, v = VSequence vs ∧ ∀ x, x ∈ vs → conforms item x.
Proof. inversion 1; subst; eauto. Qed.

Lemma conforms_named_inv value v :
  conforms (SchemaNamedMap value) v →
  ∃ m, v = VMapping m ∧ string_keyed m ∧ (∀ p, p ∈ m → conforms value p.2).
Proof. inversion 1; subst; eauto. Qed.

Lemma conforms_string_inv v : conforms SchemaString v → ∃ s, as_str v = Some s.
Proof. inversion 1; subst. done. Qed.

Lemma conforms_mapping_inv fields required af v :
  conforms (SchemaMapping fields required af) v →
  ∃ m, v = VMapping m ∧ has_fields m required
       ∧ ∀ key s w, get fields key = Some s → mapping_get m key = Some w → conforms s w.
Proof. inversion 1; subst. eexists. split; [done|]. eauto 10 using entry_get. Qed.

Lemma record_name_Some fields required af v :
  conforms (SchemaMapping fields required af) v →
  get fields (lit "name") = Some SchemaString → lit "name" ∈ required →
  ∃ name, record_name v = Some name.
Proof.
  intros (m & -> & Hr & Hf)%conforms_mapping_inv Hs Hreq. destruct (Hr _ Hreq) as [w Hw].
  destruct (conforms_string_inv w) as [s Hws]; [by eapply Hf|]. exists s.
  unfold record_name. simpl. by rewrite Hw.
Qed.

Lemma section_records_conform section item :
  get policy_top_level section = Some (SchemaSequence item) →
  ∀ x, x ∈ section_records d section → conforms item x.
Proof.
  intros Hs x. unfold section_records. destruct (mapping_get d section) as [v|] eqn:Hv;
    [|by intros ?%not_elem_of_nil].
  destruct (conforms_sequence_inv item v) as (vs & -> & Hvs); [by eapply conforms_field|].
  apply Hvs.
Qed.

Lemma section_entries_conform section value :
  get policy_top_level section = Some (SchemaNamedMap value) →
  string_keyed (section_entries d section)
  ∧ ∀ p, p ∈ section_entries d section → conforms value p.2.
Proof.
  intros Hs. unfold section_entries.
  destruct (mapping_get d section) as [v|] eqn:Hv;
    [|split; [intros ? ?%not_elem_of_nil|by intros ? ?%not_elem_of_nil]; done].
  destruct (conforms_named_inv value v) as (m & -> & Hk & Hm); [by eapply conforms_field|]. done.
Qed.

Lemma collect_record_names_outcome section fields required af :
  get policy_top_level section = Some (SchemaSequence (SchemaMapping fields required af)) →
  get fields (lit "name") = Some SchemaString → lit "name" ∈ required →
  ∃ names, names.*2 = record_names d section
    ∧ outcome (collect_record_names d section) ([] ∉ record_names d section) names.
Proof.
  intros Hs Hn Hreq. pose proof (section_records_conform _ _ Hs) as Hrec.
  unfold collect_record_names, record_names, section_records in *.
  destruct (mapping_get d section) as [v|] eqn:Hv.
  2: { exists []. split; [done|]. left. split; [apply not_elem_of_nil|done]. }
  destruct (conforms_sequence_inv (SchemaMapping fields required af) v) as (vs & -> & _);
    [by eapply conforms_field|].
  exists (imap (λ n r, (Z.to_N (0 + Z.of_nat n), default [] (record_name r))) vs). split.
  { rewrite fmap_imap. rewrite <-(imap_const _ vs). by apply imap_ext. }
  eapply outcome_iff; [apply (outcome_collect _ (λ r, default [] (record_name r) ≠ [])
    (λ j r, (Z.to_N j, default [] (record_name r))))|].
  - intros j r Hr. destruct (record_name_Some _ _ _ _ (Hrec r Hr) Hn Hreq) as [name Hname].
    unfold record_name in Hname. unfold expect, record_name. rewrite Hname. simpl.
    case_bool_decide; [by apply outcome_err; intros []|]. by left.
  - split.
    + intros Hall (r & Hr & Hin)%list_elem_of_fmap. by apply (Hall r).
    + intros Hnot r Hr He. apply Hnot, list_elem_of_fmap. by exists r.
Qed.

Lemma collect_map_names_outcome section value :
  get policy_top_level section = Some (SchemaNamedMap value) →
  outcome (collect_map_names d section) ([] ∉ entry_names d section)
    (list_to_set (entry_names d section)).
Proof.
  intros Hs. destruct (section_entries_conform _ _ Hs) as [Hk _].
  unfold collect_map_names, entry_names, section_entries in *.
  destruct (mapping_get d section) as [v|] eqn:Hv.
  2: { left. split; [apply not_elem_of_nil|done]. }
  destruct (conforms_named_inv value v) as (m & -> & _); [by eapply conforms_field|].
  replace (default [] ∘ as_str <$> m.*1) with (imap (λ (n : nat) p, default [] (as_str p.1)) m).
  2: { rewrite <-list_fmap_compose, <-(imap_const _ m). by apply imap_ext. }
  eapply outcome_iff; [eapply outcome_bind|].
  - apply (outcome_collect _ (λ p : Value * Value, default [] (as_str p.1) ≠ [])
      (λ _ p, default [] (as_str p.1))).
    intros j p Hp. destruct (Hk p Hp) as [name Hname]. rewrite Hname. simpl.
    case_bool_decide; [by apply outcome_err; intros []|]. by left.
  - intros _. apply outcome_ok.
  - split.
    + intros [Hall _] (i & p & Hp & Hin)%elem_of_lookup_imap. apply (Hall p); [|done].
      by eapply list_elem_of_lookup_2.
    + intros Hnot. split; [|done]. intros p (i & Hi)%list_elem_of_lookup He.
      apply Hnot, elem_of_lookup_imap. eauto.
Qed.

Lemma validate_group_field_outcome group index field available kind :
  (∀ v, mapping_get group field = Some v → conforms string_sequence v) →
  outcome (validate_group_field group index field available kind)
    (∀ n, n ∈ value_strings (mapping_get group field) → n ∈ available) tt.
Proof.
  intros Hv. unfold validate_group_field. destruct (mapping_get group field) as [v|].
  2: { left. split; [by intros ? ?%not_elem_of_nil|done]. }
  destruct (conforms_sequence_inv _ v (Hv v eq_refl)) as (vs & -> & Hvs). cbn [value_strings].
  eapply outcome_iff; [apply (outcome_each _ (λ r, default [] (as_str r) ∈ available))|].
  - intros i r Hr. destruct (conforms_string_inv r) as [s Hs]; [by apply Hvs|]. rewrite Hs. simpl.
    apply outcome_raise, validate_reference_Ok.
  - split.
    + intros Hall n (r & -> & Hr)%list_elem_of_fmap. by apply Hall.
    + intros Hall r Hr. apply Hall, list_elem_of_fmap. by exists r.
Qed.

Lemma validate_group_references_outcome targets providers :
  outcome (validate_group_references d targets providers)
    ((∀ n, n ∈ group_strings d (lit "proxies") → n ∈ targets)
     ∧ (∀ n, n ∈ group_strings d (lit "use") → n ∈ providers)) tt.
Proof.
  pose proof (section_records_conform (lit "proxy-groups") policy_group eq_refl) as Hg.
  unfold validate_group_references, group_strings, section_records in *.
  destruct (mapping_get d (lit "proxy-groups")) as [v|] eqn:Hv.
  2: { left. csimpl. split; [split; intros n Hn; by apply not_elem_of_nil in Hn|done]. }
  destruct (conforms_sequence_inv policy_group v) as (vs & -> & _); 
    [by apply (conforms_field _ _ _ _ _ _ Hd) with (2 := Hv)|].
  eapply outcome_iff; [apply (outcome_each _ (λ g,
    (∀ n, n ∈ value_strings (m ← as_mapping g; mapping_get m (lit "proxies")) → n ∈ targets)
    ∧ (∀ n, n ∈ value_strings (m ← as_mapping g; mapping_get m (lit "use")) → n ∈ providers)))|].
  - intros i g Hin. destruct (conforms_mapping_inv _ _ _ g (Hg g Hin)) as (m & -> & _ & Hf). simpl.
    eapply outcome_bind; [|intros _]; apply validate_group_field_outcome; intros w Hw;
      by apply (Hf _ _ _) with (2 := Hw).
  - assert (∀ field (available : gset str),
      (∀ n, n ∈ (vs ≫= λ g, value_strings (m ← as_mapping g; mapping_get m field)) →
        n ∈ available) ↔
      ∀ g, g ∈ vs → ∀ n, n ∈ value_strings (m ← as_mapping g; mapping_get m field) → n ∈ available)
      as Hconcat.
    { intros field available. setoid_rewrite list_elem_of_bind. naive_solver. }
    rewrite !Hconcat. naive_solver.
Qed.

Lemma validate_sub_rules_outcome targets providers sub_rules :
  outcome (validate_sub_rules d targets providers sub_rules)
    (∀ p, p ∈ section_entries d (lit "sub-rules") →
     ∀ rule, rule ∈ value_strings (Some p.2) → rule_resolves targets providers sub_rules rule) tt.
Proof.
  destruct (section_entries_conform (lit "sub-rules") string_sequence eq_refl) as [Hk Hc].
  unfold validate_sub_rules, section_entries in *.
  destruct (mapping_get d (lit "sub-rules")) as [v|] eqn:Hv.
  2: { left. split; [by intros ? ?%not_elem_of_nil|done]. }
  destruct (conforms_named_inv string_sequence v) as (m & -> & _); 
    [by apply (conforms_field _ _ _ _ _ _ Hd) with (2 := Hv)|].
  apply outcome_each. intros _ p Hp. destruct (Hk p Hp) as [name Hname]. rewrite Hname.
  destruct (conforms_sequence_inv _ _ (Hc p Hp)) as (vs & Hvs & Hstr). rewrite Hvs.
  cbn [expect ok_or as_sequence result_bind value_strings].
  eapply outcome_iff; [apply (outcome_each _ (λ r,
    rule_resolves targets providers sub_rules (default [] (as_str r))))|].
  - intros i r Hr. destruct (conforms_string_inv r) as [s Hs]; [by apply Hstr|]. rewrite Hs.
    apply validate_rule_string_outcome.
  - split.
    + intros Hall rule (r & -> & Hr)%list_elem_of_fmap. by apply Hall.
    + intros Hall r Hr. apply Hall, list_elem_of_fmap. by exists r.
Qed.

Lemma validate_references_outcome rules :
  outcome (validate_references d rules) (references_resolve d rules) tt.
Proof.
  destruct (collect_record_names_outcome (lit "proxies") _ _ _ eq_refl eq_refl)
    as (proxies & Hp & Hpo); [by left|].
  destruct (collect_record_names_outcome (lit "proxy-groups") _ _ _ eq_refl eq_refl)
    as (groups & Hg & Hgo); [by left|].
  pose proof (collect_map_names_outcome (lit "proxy-providers") _ eq_refl) as Hppo.
  pose proof (collect_map_names_outcome (lit "rule-providers") _ eq_refl) as Hrpo.
  pose proof (collect_map_names_outcome (lit "sub-rules") _ eq_refl) as Hso.
  unfold validate_references. eapply outcome_iff.
  - eapply outcome_bind; [exact Hpo|intros _]. eapply outcome_bind; [exact Hgo|intros _].
    eapply outcome_bind; [apply outcome_raise, validate_unique_names_Ok|intros _].
    eapply outcome_bind; [exact Hppo|intros _]. eapply outcome_bind; [exact Hrpo|intros _].
    eapply outcome_bind; [exact Hso|intros _].
    eapply outcome_bind; [apply validate_group_references_outcome|intros _].
    eapply outcome_bind; [apply outcome_each; intros i r _; apply validate_rule_string_outcome|].
    intros _. apply validate_sub_rules_outcome.
  - unfold references_resolve, policy_targets_of. rewrite Hp, Hg, !not_elem_of_app.
    setoid_rewrite (elem_of_list_to_set (C := gset str)). tauto.
Qed.

End accepted.

(** ** The document the compiler writes *)

Section document.
Context `{YamlCrate}.

Lemma set_all_get m fields key :
  NoDup fields.*1 →
  mapping_get (set_all m fields) key =
  match get fields key with Some v => Some v | None => mapping_get m key end.
Proof.
  unfold set_all. revert m. induction fields as [|[k v] fields IH]; intros m Hnd; [done|].
  csimpl in Hnd. apply NoDup_cons in Hnd as [Hk Hnd]. simpl. rewrite IH by done.
  rewrite mapping_get_set. unfold get at 2. simpl. case_decide as He; [subst|done].
  by rewrite (proj2 (get_None fields key)).
Qed.

Lemma set_all_wf m fields :
  value_wf (VMapping m) → Forall (λ p, value_wf p.2) fields → value_wf (VMapping (set_all m fields)).
Proof.
  unfold set_all. intros Hm Hall. revert m Hm. induction Hall as [|p fields Hp _ IH]; intros m Hm;
    [done|]. cbn [foldl]. apply IH. by apply value_wf_set.
Qed.

Lemma strings_wf ss : value_wf (VSequence (VString <$> ss)).
Proof. apply value_wf_sequence, Forall_fmap, Forall_forall. done. Qed.

Lemma mapping_or_insert_get m key v key' :
  mapping_get (mapping_or_insert m key v) key' =
  if decide (key = key') then Some (default v (mapping_get m key)) else mapping_get m key'.
Proof.
  unfold mapping_or_insert, contains_key. case_bool_decide as Hs.
  - destruct Hs as [w Hw]. rewrite Hw. simpl. case_decide; congruence.
  - rewrite mapping_get_set. case_decide; [|done]. destruct (mapping_get m key) eqn:Hg; [|done].
    destruct Hs. eauto.
Qed.

(** What [apply_managed] leaves under each key. *)
Definition written_keys : list str :=
  [ lit "rules"; lit "mode"; lit "allow-lan"; lit "ipv6"; lit "geo-auto-update";
    lit "external-controller-unix"; lit "secret"; lit "tun"; lit "dns"; lit "sniffer" ].

Lemma apply_managed_get d rules a d' :
  apply_managed d rules a = Ok d' →
  (∀ key v, (key, v) ∈ managed_fields rules a → mapping_get d' key = Some v)
  ∧ mapping_get d' (lit "sniffer") = Some authoritative_sniffer_baseline
  ∧ (∃ dns, mapping_get d' (lit "dns") = Some (VMapping (set_all dns authoritative_dns_fields))
            ∧ default (VMapping []) (mapping_get d (lit "dns")) = VMapping dns)
  ∧ (∀ key, key ∉ written_keys → mapping_get d' key = mapping_get d key)
  ∧ (value_wf (VMapping d) → value_wf (VMapping d')).
Proof.
  unfold apply_managed.
  assert (NoDup (managed_fields rules a).*1) as Hnd
    by (apply (bool_decide_unpack _); by vm_compute).
  set (d1 := set_all d (managed_fields rules a)).
  assert (∀ key, mapping_get d1 key = match get (managed_fields rules a) key with
    Some v => Some v | None => mapping_get d key end) as Hd1 by (intros; by apply set_all_get).
  rewrite mapping_or_insert_get, decide_True by done.
  assert (mapping_get d1 (lit "dns") = mapping_get d (lit "dns")) as -> by (rewrite Hd1; done).
  destruct (default (VMapping []) (mapping_get d (lit "dns"))) as [| | | | |dns|] eqn:Hdns; try done.
  intros [= <-]. split; [|split; [|split; [|split]]].
  - intros key v Hin. assert (key ≠ lit "dns" ∧ key ≠ lit "sniffer") as [Hk1 Hk2].
    { assert (key ∈ (managed_fields rules a).*1) as Hk by (apply list_elem_of_fmap; by exists (key, v)).
      revert Hk. cbn [managed_fields fmap list_fmap fst].
      rewrite !elem_of_cons. by intros [->|[->|[->|[->|[->|[->|[->|[->|[]%not_elem_of_nil]]]]]]]]. }
    rewrite mapping_get_set, decide_False, mapping_get_update, decide_False by done.
    rewrite mapping_or_insert_get, decide_False, Hd1 by done. by rewrite (get_NoDup _ _ v).
  - by rewrite mapping_get_set, decide_True.
  - exists dns. split; [|done].
    rewrite mapping_get_set, decide_False, mapping_get_update, decide_True by done.
    by rewrite mapping_or_insert_get, decide_True.
  - intros key Hk. unfold written_keys in Hk. rewrite !not_elem_of_cons in Hk.
    rewrite mapping_get_set, decide_False, mapping_get_update, decide_False by naive_solver.
    rewrite mapping_or_insert_get, decide_False, Hd1 by naive_solver.
    rewrite (proj2 (get_None _ key)); [done|].
    cbn [managed_fields fmap list_fmap fst]. rewrite !not_elem_of_cons.
    pose proof (not_elem_of_nil key). naive_solver.
  - intros Hwf. apply value_wf_set; [|vm_compute; repeat constructor].
    assert (value_wf (VMapping d1)) as Hwf1.
    { apply set_all_wf; [done|]. constructor; [apply strings_wf|].
      repeat constructor; vm_compute; repeat constructor. }
    apply value_wf_update.
    + unfold mapping_or_insert. destruct (contains_key d1 (lit "dns")); [done|].
      by apply value_wf_set.
    + intros v0 _ _. apply (set_all_wf dns authoritative_dns_fields); [|repeat constructor; by vm_compute].
      destruct (mapping_get d (lit "dns")) as [v|] eqn:Hv; cbn [default id] in Hdns; simplify_eq;
        [|done].
      exact (value_wf_get d (lit "dns") _ Hwf Hv).
Qed.

End document.

(** ** Providers *)

Section providers.
Context `{YamlCrate, HostLaws}.

(** A path below a directory, by entry names. *)
Definition relative_below (p : path) : Prop :=
  ∃ names, Forall entry_name names ∧ names ≠ [] ∧ p = join slash names.

Lemma canonical_staging_root_Ok staging_root root :
  canonical_staging_root staging_root = Ok root →
  fs_canonicalize staging_root = Some root ∧ fs_is_dir root = true ∧ canonical_path root.
Proof.
  unfold canonical_staging_root. intros Hr. invert_result. destruct (fs_is_dir value) eqn:Hdir; [|done].
  invert_result. eauto using fs_canonical.
Qed.

Lemma resolve_local_provider_Ok root raw source relative :
  canonical_path root → resolve_local_provider root raw = Ok (source, relative) →
  fs_is_file source = true ∧ relative_below relative
  ∧ fs_canonicalize (if is_absolute (utf8 raw) then utf8 raw else path_join root (utf8 raw))
    = Some source
  ∧ components source = components root ++ components relative
  ∧ ParentDir ∉ components (utf8 raw).
Proof.
  intros Hroot. unfold resolve_local_provider.
  destruct (existsb is_parent_dir _) eqn:Hpar; [done|].
  destruct (fs_canonicalize _) as [src|] eqn:Hsrc; [|done]. simpl.
  destruct (path_strip_prefix src root) as [rel|] eqn:Hrel; [|done]. simpl.
  case_bool_decide as Hne; [done|]. destruct (fs_is_file src) eqn:Hfile; [|done].
  intros [= <- <-].
  destruct (strip_prefix_canonical src root rel) as (names & Hn & -> & Hc);
    [by eapply fs_canonical|done|done|].
  assert (names ≠ []) as Hne' by (by intros ->).
  destruct (relative_entries names Hn Hne') as (_ & _ & Hcr).
  split; [done|]. split; [by exists names|]. split; [done|]. split; [by rewrite Hc, Hcr|].
  intros Hin. apply not_true_iff_false in Hpar. apply Hpar, existsb_exists.
  exists ParentDir. by split; [apply list_elem_of_In|].
Qed.

(** *** Remote providers *)

Definition remote_names (section : ProviderSection) (name url : str) : list bytes :=
  [ lit "providers"; directory section;
    sha256_hex sha256 (controlled_identity section name url) ++ lit ".yaml" ].

Lemma sha256_hex_chars content :
  Forall (λ c, c < 128 ∧ c ≠ slash ∧ c ≠ 92)%N (sha256_hex sha256 content)
  ∧ sha256_hex sha256 content ≠ [].
Proof.
  destruct (sha256_bytes content) as [Hb Hlen]. unfold sha256_hex, encode_sha256. split.
  - clear Hlen. induction Hb as [|b bs Hb _ IH]; csimpl; [constructor|].
    assert (∀ n, n < 16 → hex_digit n < 128 ∧ hex_digit n ≠ slash ∧ hex_digit n ≠ 92)%N as Hhex.
    { intros n Hn. unfold hex_digit, slash. case_match eqn:Hc; [apply N.ltb_lt in Hc|]; lia. }
    constructor; [|constructor; [|done]]; apply Hhex.
    + by apply N.Div0.div_lt_upper_bound.
    + by apply N.mod_lt.
  - destruct (sha256 content); [done|]. csimpl. done.
Qed.

Lemma digest_file_entry content :
  let n := sha256_hex sha256 content ++ lit ".yaml" in
  Forall (λ c, c < 128 ∧ c ≠ slash ∧ c ≠ 92)%N n ∧ entry_name n.
Proof.
  intros n. destruct (sha256_hex_chars content) as [Hc Hne].
  assert (Forall (λ c, c < 128 ∧ c ≠ slash ∧ c ≠ 92)%N n) as Hn.
  { apply Forall_app. split; [done|]. vm_compute. repeat constructor; done. }
  split; [done|]. split.
  - intros Hin. rewrite Forall_forall in Hn. by apply Hn in Hin as (_ & ? & _).
  - assert (5 < length n)%nat as Hlen.
    { unfold n. rewrite length_app. destruct (sha256_hex sha256 content); [done|]. simpl. lia. }
    repeat split; intros ->; simpl in Hlen; lia.
Qed.

Lemma remote_names_entries section name url : Forall entry_name (remote_names section name url).
Proof.
  repeat constructor; try apply digest_file_entry; try (by destruct section).
  all: apply (bool_decide_unpack _); by destruct section; vm_compute.
Qed.

Lemma controlled_remote_path_join section name url :
  controlled_remote_path section name url = join slash (remote_names section name url).
Proof.
  unfold controlled_remote_path, remote_names.
  set (d := sha256_hex sha256 (controlled_identity section name url) ++ lit ".yaml").
  assert (Forall (λ c, c < 128 ∧ c ≠ slash ∧ c ≠ 92)%N d ∧ entry_name d) as [Hd He]
    by apply digest_file_entry.
  assert (utf8 d = d) as ->
    by (apply utf8_ascii; eapply Forall_impl; [exact Hd|]; by intros ? [? _]).
  unfold path_join at 1. assert (is_absolute d = false) as ->.
  { destruct d as [|b d']; [done|]. simpl. apply N.eqb_neq. inversion Hd as [|? ? (_ & ? & _)]. done. }
  clearbody d. unfold join. rewrite !fmap_cons, fmap_nil. cbn [concat]. rewrite app_nil_r.
  by destruct section.
Qed.

(** *** The paths written into the configuration *)

Lemma replace_backslash_id s : (92%N ∉ s) → replace_backslash s = s.
Proof.
  unfold replace_backslash. induction s as [|c s IH]; csimpl; [done|].
  rewrite not_elem_of_cons. intros [Hc Hs]. rewrite IH by done.
  destruct (N.eqb_spec c 92); [by subst|done].
Qed.

(** The condition [validate_provider_paths] puts on a path. *)
Lemma relative_below_normal p s :
  relative_below p → utf8 s = p →
  negb (bool_decide (utf8 s = []) || is_absolute (utf8 s)
        || negb (forallb is_normal (components (utf8 s)))) = true.
Proof.
  intros (names & Hn & Hne & ->) Hs. rewrite Hs.
  destruct (relative_entries names Hn Hne) as (Hj & Habs & Hc).
  rewrite bool_decide_eq_false_2, Habs, Hc by done. simpl.
  rewrite negb_involutive. apply forallb_forall. intros c Hin%list_elem_of_In.
  apply list_elem_of_fmap in Hin as (n & -> & _). done.
Qed.

Lemma remote_path_below section name url :
  relative_below (controlled_remote_path section name url)
  ∧ ∃ s, from_utf8 (controlled_remote_path section name url) = Some s ∧ (92%N ∉ s).
Proof.
  split.
  - exists (remote_names section name url). split; [apply remote_names_entries|].
    split; [done|]. apply controlled_remote_path_join.
  - exists (controlled_remote_path section name url).
    assert (Forall (λ c, c < 128 ∧ c ≠ 92)%N (controlled_remote_path section name url)) as Hc.
    { rewrite controlled_remote_path_join. unfold join, remote_names.
      rewrite !fmap_cons, fmap_nil. cbn [concat]. rewrite app_nil_r.
      destruct (digest_file_entry (controlled_identity section name url)) as [Hd _].
      apply Forall_app. split; [vm_compute; repeat constructor; done|].
      apply Forall_app. split; [destruct section; vm_compute; repeat constructor; done|].
      constructor; [done|]. eapply Forall_impl; [exact Hd|]. naive_solver. }
    split.
    + apply from_utf8_ascii. eapply Forall_impl; [exact Hc|]. naive_solver.
    + intros Hin. rewrite Forall_forall in Hc. by apply Hc in Hin as [_ ?].
Qed.

(** *** Classification *)

(** What the compiler does with one provider of a section the policy accepts. *)
Inductive classified (section : ProviderSection) (root : path) (name : str) (m : Mapping)
  : Mapping → option ProviderRecord → Prop :=
| classified_remote url :
    variant_of m (lit "type") = Some (lit "http") → variant_of m (lit "url") = Some url →
    classified section root name m
      (mapping_set m (lit "path") (VString (path_string (controlled_remote_path section name url))))
      (Some (MkProviderRecord section name (controlled_remote_path section name url)
               (RemoteProvider url)))
| classified_local raw source relative :
    variant_of m (lit "type") = Some (lit "file") → variant_of m (lit "path") = Some raw →
    resolve_local_provider root raw = Ok (source, relative) →
    classified section root name m
      (mapping_set m (lit "path") (VString (path_string relative)))
      (Some (MkProviderRecord section name relative (LocalProvider source)))
| classified_inline :
    variant_of m (lit "type") = Some (lit "inline") →
    classified section root name m (mapping_remove m (lit "path")) None.

Lemma classify_provider_Ok section_name section root p v record :
  classify_provider section_name section root p = Ok (v, record) →
  ∃ name m m', as_str p.1 = Some name ∧ p.2 = VMapping m ∧ v = VMapping m'
               ∧ classified section root name m m' record.
Proof.
  unfold classify_provider. destruct (as_str p.1) as [name|]; [|done]. simpl.
  destruct (p.2) as [| | | | |m|]; try done.
  destruct (variant_of m (lit "type")) as [kind|] eqn:Hk; [|done].
  case_decide as Hh; [subst|case_decide as Hf; [subst|case_decide as Hi; [subst|done]]].
  - intros (url & Hu%raise_ok_or & (parsed & _ & Hr)%result_bind_Ok)%result_bind_Ok.
    case_match; [done|]. simplify_eq. eexists name, m, _.
    split; [done|]. split; [done|]. split; [done|]. by constructor.
  - intros (raw & Hu%raise_ok_or & ([source relative] & Hl%raise_Ok & Hr)%result_bind_Ok)%result_bind_Ok.
    simplify_eq. eexists name, m, _. split; [done|]. split; [done|]. split; [done|]. by econstructor.
  - intros [= <- <-]. eexists name, m, _. split; [done|]. split; [done|]. split; [done|].
    by constructor.
Qed.

Lemma classify_provider_no_panic section_name section root payload p :
  is_Some (as_str p.1) → conforms (policy_provider payload) p.2 →
  classify_provider section_name section root p ≠ Err Panicked.
Proof.
  intros [name Hname] Hc. unfold classify_provider. rewrite Hname. simpl.
  inversion Hc as [| | | | | |? ? ? ? ? ? m variant fields Hv Hg]; subst. simplify_eq.
  rewrite Hv. apply get_elem in Hg.
  assert (variant = lit "file" ∨ variant = lit "http" ∨ variant = lit "inline") as Hvar.
  { revert Hg. rewrite !elem_of_cons. intros [[= -> _]|[[= -> _]|[[= -> _]|[]%not_elem_of_nil]]]; eauto. }
  destruct Hvar as [->|[->| ->]].
  - rewrite decide_False, decide_True by done.
    destruct (mapping_get m (lit "path") ≫= λ v, as_str v) as [raw|]; simpl; [|done].
    by destruct (resolve_local_provider root raw).
  - rewrite decide_True by done.
    destruct (mapping_get m (lit "url") ≫= λ v, as_str v) as [url|]; simpl; [|done].
    destruct (url_parse url); simpl; [|done]. by case_match.
  - do 2 rewrite decide_False by done. by rewrite decide_True by done.
Qed.

Lemma classify_providers_Ok section_name section root m m' records :
  classify_providers section_name section root m = Ok (m', records) →
  m'.*1 = m.*1 ∧
  ∀ q, q ∈ m' → ∃ p record, p ∈ m ∧ q.1 = p.1
    ∧ classify_provider section_name section root p = Ok (q.2, record)
    ∧ ∀ r, record = Some r → r ∈ records.
Proof.
  revert m' records. induction m as [|p m IH]; intros m' records; simpl.
  - intros [= <- <-]. split; [done|]. by intros q ?%not_elem_of_nil.
  - intros ([v record] & Hp & ([n rs] & Hm & Hr)%result_bind_Ok)%result_bind_Ok.
    simplify_eq/=. destruct (IH _ _ Hm) as [Hk Hall]. csimpl. split; [by rewrite Hk|].
    intros q [->|Hq]%elem_of_cons.
    + exists p, record. split; [by left|]. split; [done|]. split; [done|].
      intros r ->. by left.
    + destruct (Hall q Hq) as (p' & rec' & Hin & Hk' & Hc & Hrec). exists p', rec'.
      split; [by right|]. split; [done|]. split; [done|]. intros r Hr. apply elem_of_app. right. eauto.
Qed.

Lemma classify_providers_no_panic section_name section root payload m :
  string_keyed m → (∀ p, p ∈ m → conforms (policy_provider payload) p.2) →
  classify_providers section_name section root m ≠ Err Panicked.
Proof.
  induction m as [|p m IH]; intros Hk Hc; simpl; [done|].
  pose proof (classify_provider_no_panic section_name section root payload p) as Hp.
  destruct (classify_provider section_name section root p) as [hd|[e|]] eqn:Heq; simpl; [|done|].
  - destruct (classify_providers section_name section root m) as [rest|[e|]]; simpl; [done..|].
    apply IH; [intros q Hq; apply Hk; by right|]. intros q Hq. apply Hc. by right.
  - exfalso. apply Hp; [apply Hk; by left|apply Hc; by left|done].
Qed.

(** The result of classifying a section. *)
Record section_classified (section : ProviderSection) (root : path) (section_name : str)
    (d d' : Mapping) (records : list ProviderRecord) : Prop := {
  sc_others key : key ≠ section_name → mapping_get d' key = mapping_get d key;
  sc_wf : value_wf (VMapping d) → value_wf (VMapping d');
  sc_providers q : q ∈ section_entries d' section_name →
    ∃ p name m m' record, p ∈ section_entries d section_name ∧ p.2 = VMapping m
      ∧ q.2 = VMapping m' ∧ classified section root name m m' record
      ∧ ∀ r, record = Some r → r ∈ records;
}.

Lemma classified_wf section root name m m' record :
  classified section root name m m' record → value_wf (VMapping m) → value_wf (VMapping m').
Proof. destruct 1; intros Hm; first [by apply value_wf_set|by apply value_wf_remove]. Qed.

Lemma classify_provider_section_Ok d section_name section root d' records :
  classify_provider_section d section_name section root = Ok (d', records) →
  section_classified section root section_name d d' records.
Proof.
  unfold classify_provider_section.
  destruct (mapping_get d section_name) as [[| | | | |m|]|] eqn:Hg;
    try (intros [= <- <-]; split; [done|done|]; unfold section_entries; rewrite Hg;
         by intros q ?%not_elem_of_nil).
  intros ([n rs] & Hm & Hr)%result_bind_Ok. simplify_eq/=.
  destruct (classify_providers_Ok _ _ _ _ _ _ Hm) as [Hk Hall].
  split.
  - intros key Hne. by rewrite mapping_get_update, decide_False.
  - intros Hwf. apply value_wf_update; [done|]. intros v0 _ _.
    pose proof (value_wf_get _ _ _ Hwf Hg) as [Hd Hvs]%value_wf_mapping.
    apply value_wf_mapping. rewrite Hk. split; [done|]. rewrite Forall_forall in Hvs.
    apply Forall_forall. intros q Hq. destruct (Hall q Hq) as (p & record & Hp & _ & Hc & _).
    destruct (classify_provider_Ok _ _ _ _ _ _ Hc) as (name & m1 & m2 & _ & Hp2 & -> & Hcl).
    apply (classified_wf _ _ _ _ _ _ Hcl). rewrite <-Hp2. by apply Hvs.
  - intros q. unfold section_entries. rewrite mapping_get_update, decide_True, Hg by done. simpl.
    intros Hq. destruct (Hall q Hq) as (p & record & Hp & _ & Hc & Hrec).
    destruct (classify_provider_Ok _ _ _ _ _ _ Hc) as (name & m1 & m2 & _ & Hp2 & Hq2 & Hcl).
    exists p, name, m1, m2, record. done.
Qed.

Lemma classify_provider_section_no_panic d section_name section root payload :
  (∀ v, mapping_get d section_name = Some v → conforms (SchemaNamedMap (policy_provider payload)) v) →
  classify_provider_section d section_name section root ≠ Err Panicked.
Proof.
  intros Hc. unfold classify_provider_section.
  destruct (mapping_get d section_name) as [v|]; [|done].
  destruct (conforms_named_inv (policy_provider payload) v) as (m & -> & Hk & Hm); [by apply Hc|].
  pose proof (classify_providers_no_panic section_name section root payload m Hk Hm) as Hnp.
  by destruct (classify_providers section_name section root m) as [|[|]].
Qed.

(** *** A classified provider passes the service's path check *)

Lemma variant_of_set m key v key' :
  variant_of (mapping_set m key v) key' = if decide (key = key') then as_str v else variant_of m key'.
Proof. unfold variant_of. rewrite mapping_get_set. by case_decide. Qed.

Lemma classified_path_ok section root name m m' record provider_files :
  canonical_path root → distinct_keys m.*1 → classified section root name m m' record →
  (∀ r source, record = Some r → provider_kind r = LocalProvider source →
     ∃ s, from_utf8 (provider_relative_path r) = Some s ∧ (92%N ∉ s) ∧ s ∈ provider_files) →
  provider_path_ok provider_files m' = true.
Proof.
  intros Hroot Hd Hc Hfiles. unfold provider_path_ok.
  assert (∀ p s, relative_below p → from_utf8 p = Some s → (92%N ∉ s) →
    path_string p = s ∧ utf8 s = p) as Htext.
  { intros p s _ Hs Hb. destruct (from_utf8_Some p s Hs) as [Hu Hl]. split; [|done].
    unfold path_string. rewrite Hl. by apply replace_backslash_id. }
  destruct Hc as [url Ht Hu|raw source relative Ht Hp Hres|Ht].
  - rewrite !variant_of_set, decide_False, decide_True, Ht by done. cbn [as_str].
    destruct (remote_path_below section name url) as [Hbelow (s & Hs & Hb)].
    destruct (Htext _ _ Hbelow Hs Hb) as [Hps Hus].
    rewrite Hps, (relative_below_normal _ _ Hbelow Hus). done.
  - rewrite !variant_of_set, decide_False, decide_True, Ht by done. cbn [as_str].
    destruct (resolve_local_provider_Ok _ _ _ _ Hroot Hres) as (_ & Hbelow & _).
    destruct (Hfiles _ source eq_refl eq_refl) as (s & Hs & Hb & Hin). simpl in Hs.
    destruct (Htext _ _ Hbelow Hs Hb) as [Hps Hus].
    rewrite Hps, (relative_below_normal _ _ Hbelow Hus). simpl. by apply bool_decide_eq_true.
  - unfold variant_of. rewrite !mapping_get_remove, decide_False, decide_True by done.
    unfold variant_of in Ht. by rewrite Ht.
Qed.

End providers.

(** ** Canonical documents conform *)

Section canonical_conforms.
Context `{YamlCrate}.

Lemma as_str_canonicalize v : as_str (canonicalize v) = as_str v.
Proof. by destruct v. Qed.

Lemma variant_of_canonical m key :
  distinct_keys m.*1 → variant_of (canonical_entries m) key = variant_of m key.
Proof.
  intros Hd. unfold variant_of. rewrite canonical_entries_get by done.
  destruct (mapping_get m key); simpl; [apply as_str_canonicalize|done].
Qed.

Lemma canonical_entries_elem m q :
  q ∈ canonical_entries m → ∃ p, p ∈ m ∧ q = (p.1, canonicalize p.2).
Proof.
  rewrite canonical_entries_Permutation. intros (p & -> & Hp)%list_elem_of_fmap. eauto.
Qed.

Lemma canonical_string_keyed m : string_keyed m → string_keyed (canonical_entries m).
Proof. intros Hk q (p & Hp & ->)%canonical_entries_elem. exact (Hk p Hp). Qed.

Lemma canonical_entry m key w :
  entry (canonical_entries m) key w → ∃ v, entry m key v ∧ w = canonicalize v ∧ ∃ k, (k, v) ∈ m.
Proof.
  intros (k & ([k' v] & Hp & [= -> ->])%canonical_entries_elem & Hk). exists v.
  split; [by exists k'|]. split; [done|]. by exists k'.
Qed.

Lemma canonical_has_fields m required :
  distinct_keys m.*1 → has_fields m required → has_fields (canonical_entries m) required.
Proof.
  intros Hd Hr field Hin. rewrite canonical_entries_get by done.
  destruct (Hr field Hin) as [v ->]. simpl. eauto.
Qed.

Lemma conforms_canonicalize s v : conforms s v → value_wf v → conforms s (canonicalize v).
Proof.
  induction 1 as [v|v|v Hs|item vs Hvs IH|fields required af m Hr Hk Hf IH Hx
                 |value m Hk He Hv IH|d common variants required vr af m variant fields
                    Hd Hg Hr Hr' Hk Hf IH Hx]; intros Hwf.
  - constructor.
  - constructor.
  - constructor. by rewrite as_str_canonicalize.
  - rewrite value_wf_sequence, Forall_forall in Hwf. cbn [canonicalize]. constructor.
    intros w (v & -> & Hv)%list_elem_of_fmap. auto.
  - pose proof Hwf as [Hd Hall]%value_wf_mapping. rewrite Forall_forall in Hall.
    rewrite canonicalize_mapping by done. constructor.
    + by apply canonical_has_fields.
    + by apply canonical_string_keyed.
    + intros key w s (v & Hen & -> & k & Hin)%canonical_entry Hg.
      eapply IH; [done..|]. by apply (Hall (k, v)).
    + intros key w (v & Hen & -> & _)%canonical_entry Hg. eauto.
  - pose proof Hwf as [Hd Hall]%value_wf_mapping. rewrite Forall_forall in Hall.
    rewrite canonicalize_mapping by done. constructor.
    + by apply canonical_string_keyed.
    + intros w (v & Hen & -> & _)%canonical_entry. by apply (He v).
    + intros q (p & Hp & ->)%canonical_entries_elem. simpl. auto.
  - pose proof Hwf as [Hdk Hall]%value_wf_mapping. rewrite Forall_forall in Hall.
    rewrite canonicalize_mapping by done. econstructor.
    + by rewrite variant_of_canonical.
    + done.
    + by apply canonical_has_fields.
    + by apply canonical_has_fields.
    + by apply canonical_string_keyed.
    + intros key w s (v & Hen & -> & k & Hin)%canonical_entry Hgs.
      eapply IH; [done..|]. by apply (Hall (k, v)).
    + intros key w (v & Hen & -> & _)%canonical_entry Hgs. eauto.
Qed.

Lemma provider_path_ok_canonical files m :
  distinct_keys m.*1 → provider_path_ok files (canonical_entries m) = provider_path_ok files m.
Proof. intros Hd. unfold provider_path_ok. by rewrite !variant_of_canonical. Qed.

(** A mapping all of whose fields are managed. *)
Lemma flat_managed_absent fields required af m path :
  forallb (λ p, is_managed p.2) fields = true →
  (∀ f, (f, ManagedDrop) ∈ fields → mapping_get m f = None) →
  validate_managed_node_absent (SchemaMapping fields required af) (VMapping m) path = Ok tt.
Proof.
  intros Hall Hdrop. simpl. apply each_key_result. split; [done|]. intros k s Hin.
  apply absent_field_Ok; [intros ->; by apply Hdrop|]. intros Hm.
  rewrite forallb_forall in Hall. apply list_elem_of_In, Hall in Hin. simpl in Hin. congruence.
Qed.

End canonical_conforms.

(** ** Compiled configurations *)

Section compiled.
Context `{YamlCrate, HostLaws} (c : ConfigCompiler).
Hypothesis Hpolicy : compiler_policy c = bundled_policy.

Lemma policy_top_level_strippable : strippable (SchemaMapping policy_top_level [] CorePassthrough) = true.
Proof. by vm_compute. Qed.

Lemma policy_top_level_NoDup : NoDup policy_top_level.*1.
Proof. apply (bool_decide_unpack _). by vm_compute. Qed.

(** The stages of a successful compilation of [d] to the document [e]. *)
Record compiled (d : Mapping) (rules : list str) (a : AuthoritativeConfig) (root : path)
    (e : Mapping) (records : list ProviderRecord) : Prop := {
  cd_authoritative : validate_authoritative a = Ok tt;
  cd_source : document_conforms policy_top_level CorePassthrough d;
  cd_references : references_resolve d rules;
  cd_root : canonical_path root;
  cd_stages : ∃ d2 d3 rs1 rs2,
    apply_managed (strip_managed_mapping d policy_top_level) rules a = Ok d2
    ∧ section_classified ProxySection root (lit "proxy-providers") d2 d3 rs1
    ∧ section_classified RuleSection root (lit "rule-providers") d3 e rs2
    ∧ records ≡ₚ rs1 ++ rs2;
  cd_result : document_conforms policy_top_level CorePassthrough e;
}.

Lemma compile_Ok snapshot rules a staging_root conf :
  compile c snapshot rules a staging_root = Ok conf →
  ∃ root e, canonical_staging_root staging_root = Ok root
    ∧ compiled (snap_document snapshot) rules a root e (cfg_providers conf)
    ∧ yaml_to_string (canonicalize (VMapping e)) = Some (cfg_yaml conf)
    ∧ cfg_compiler_policy_sha256 conf = cc_policy_sha256 c
    ∧ cfg_core_version conf = BUNDLED_CORE_VERSION.
Proof.
  unfold compile. rewrite Hpolicy.
  intros ([] & Ha%raise_Ok & ([] & Hv%raise_Ok & ([] & Hrefs & (root & Hroot%raise_Ok &
    (d2 & Hd2%raise_Ok & ([d3 rs1] & H3 & ([e rs2] & H4 & ([] & He%raise_Ok &
    (yaml & Hy%raise_ok_or & Hconf)%result_bind_Ok)%result_bind_Ok)%result_bind_Ok)%result_bind_Ok)
    %result_bind_Ok)%result_bind_Ok)%result_bind_Ok)%result_bind_Ok)%result_bind_Ok.
  simplify_eq. apply validate_known_mapping_Ok in Hv, He.
  exists root, e. split; [done|]. split; [|done]. split; [done|done| | | |done].
  - by destruct (outcome_Ok _ _ _ tt (validate_references_outcome _ Hv rules) Hrefs).
  - by apply canonical_staging_root_Ok in Hroot as (_ & _ & ?).
  - exists d2, d3, rs1, rs2. split; [done|]. split; [by apply classify_provider_section_Ok in H3|].
    split; [by apply classify_provider_section_Ok in H4|]. apply sort_by_Permutation.
Qed.

(** Sections with nothing managed in them reach the providers as they were. *)
Lemma apply_managed_kept d rules a d2 key s :
  value_wf (VMapping d) →
  apply_managed (strip_managed_mapping d policy_top_level) rules a = Ok d2 →
  get policy_top_level key = Some s → (key ∉ written_keys) → no_managed s = true →
  mapping_get d2 key = mapping_get d key.
Proof.
  intros Hwf Hd2 Hs Hk Hn. pose proof Hwf as [Hd _]%value_wf_mapping.
  destruct (apply_managed_get _ _ _ _ Hd2) as (_ & _ & _ & Hother & _). rewrite Hother by done.
  unfold strip_managed_mapping. rewrite strip_fields_get by (done || apply policy_top_level_NoDup).
  rewrite Hs, no_managed_not_managed by done. destruct (mapping_get d key); [|done]. simpl.
  by rewrite strip_no_managed.
Qed.

Lemma compile_no_panic snapshot rules a staging_root :
  value_wf (VMapping (snap_document snapshot)) →
  compile c snapshot rules a staging_root ≠ Err Panicked.
Proof.
  intros Hwf. unfold compile. rewrite Hpolicy.
  destruct (validate_authoritative a) as [[]|]; cbn [raise map_err result_bind]; [|done].
  destruct (policy_validate bundled_policy (snap_document snapshot)) as [[]|] eqn:Hv;
    cbn [raise map_err result_bind]; [|done].
  apply validate_known_mapping_Ok in Hv.
  pose proof (outcome_no_panic _ _ _ (validate_references_outcome _ Hv rules)) as Hrefs.
  destruct (validate_references _ rules) as [[]|[e|]]; cbn [result_bind]; [|done|done].
  destruct (canonical_staging_root staging_root) as [root|]; cbn [raise map_err result_bind]; [|done].
  destruct (apply_managed _ rules a) as [d2|] eqn:Hd2; cbn [raise map_err result_bind]; [|done].
  assert (∀ key payload, get policy_top_level key = Some (SchemaNamedMap (policy_provider payload)) →
    (key ∉ written_keys) → no_managed (SchemaNamedMap (policy_provider payload)) = true →
    ∀ v, mapping_get d2 key = Some v → conforms (SchemaNamedMap (policy_provider payload)) v) as Hsec.
  { intros key payload Hg Hk Hn v. rewrite (apply_managed_kept _ _ _ _ _ _ Hwf Hd2 Hg Hk Hn).
    by apply conforms_field with (1 := Hv). }
  pose proof (classify_provider_section_no_panic d2 (lit "proxy-providers") ProxySection root
    (SchemaSequence policy_proxy)) as Hp.
  destruct (classify_provider_section d2 _ _ root) as [[d3 rs1]|[e|]] eqn:H3; cbn [result_bind];
    [|done|]; last first.
  { exfalso. apply Hp; [|done]. apply Hsec; [done| |by vm_compute].
    apply (bool_decide_unpack _). by vm_compute. }
  apply classify_provider_section_Ok in H3. cbn [fst snd].
  pose proof (classify_provider_section_no_panic d3 (lit "rule-providers") RuleSection root
    string_sequence) as Hq.
  destruct (classify_provider_section d3 _ _ root) as [[e rs2]|[e|]]; cbn [result_bind fst];
    [|done|]; last first.
  { exfalso. apply Hq; [|done]. intros v. rewrite (sc_others _ _ _ _ _ _ H3) by done.
    apply Hsec; [done| |by vm_compute]. apply (bool_decide_unpack _). by vm_compute. }
  destruct (policy_validate bundled_policy e) as [[]|]; cbn [raise map_err result_bind]; [|done].
  by destruct (yaml_to_string _).
Qed.

(** *** What a compiled document holds *)

Section fields.
Context (d : Mapping) (rules : list str) (a : AuthoritativeConfig) (root : path).
Context (e : Mapping) (records : list ProviderRecord).
Hypothesis Hwf : value_wf (VMapping d).
Hypothesis Hc : compiled d rules a root e records.

Definition provider_sections : list str := [lit "proxy-providers"; lit "rule-providers"].

Definition schema_fields (s : SchemaNode) : Fields :=
  match s with
  | SchemaMapping fields _ _ => fields
  | _ => []
  end.

Lemma strip_get key :
  mapping_get (strip_managed_mapping d policy_top_level) key =
  match get policy_top_level key with
  | None => mapping_get d key
  | Some s => if is_managed s then None else strip_managed_node s <$> mapping_get d key
  end.
Proof.
  pose proof Hwf as [Hd _]%value_wf_mapping.
  apply strip_fields_get; [apply policy_top_level_NoDup|done].
Qed.

(** A stripped mapping all of whose fields are managed. *)
Lemma strip_flat_get key fields required af v :
  get policy_top_level key = Some (SchemaMapping fields required af) →
  NoDup fields.*1 → forallb (λ p, is_managed p.2) fields = true →
  mapping_get (strip_managed_mapping d policy_top_level) key = Some v →
  ∃ m, v = VMapping m ∧ value_wf v ∧ ∀ f s, (f, s) ∈ fields → mapping_get m f = None.
Proof.
  intros Hg Hnd Hm Hv. pose proof Hv as Hv'. rewrite strip_get, Hg in Hv. cbn [is_managed] in Hv.
  apply fmap_Some in Hv as (w & Hw & ->).
  destruct (conforms_mapping_inv fields required af w) as (m & -> & _ & _).
  { by apply (conforms_field _ _ _ _ _ _ (cd_source _ _ _ _ _ _ Hc)) with (2 := Hw). }
  pose proof (value_wf_get _ _ _ Hwf Hw) as Hwm. eexists. split; [done|].
  split; [by apply (strip_wf (SchemaMapping fields required af))|].
  intros f s Hin. pose proof Hwm as [Hd _]%value_wf_mapping.
  rewrite strip_fields_get by done. rewrite (get_NoDup _ _ _ Hnd Hin).
  rewrite forallb_forall in Hm. apply list_elem_of_In, Hm in Hin. simpl in Hin. by rewrite Hin.
Qed.

Lemma compiled_get :
  (∀ key v, (key, v) ∈ managed_fields rules a → mapping_get e key = Some v)
  ∧ mapping_get e (lit "sniffer") = Some authoritative_sniffer_baseline
  ∧ (∃ dns, mapping_get e (lit "dns") = Some (VMapping (set_all dns authoritative_dns_fields))
            ∧ ∀ f s, (f, s) ∈ schema_fields policy_dns → mapping_get dns f = None)
  ∧ (∀ key, key ∉ written_keys ++ provider_sections →
       mapping_get e key = mapping_get (strip_managed_mapping d policy_top_level) key)
  ∧ value_wf (VMapping e).
Proof.
  destruct (cd_stages _ _ _ _ _ _ Hc) as (d2 & d3 & rs1 & rs2 & Hd2 & H3 & H4 & _).
  destruct (apply_managed_get _ _ _ _ Hd2) as (Hm & Hs & (dns & Hdns & Hdef) & Ho & Hw).
  assert (∀ key, key ∉ provider_sections → mapping_get e key = mapping_get d2 key) as Heq.
  { intros key Hk. unfold provider_sections in Hk. rewrite !not_elem_of_cons in Hk.
    rewrite (sc_others _ _ _ _ _ _ H4), (sc_others _ _ _ _ _ _ H3) by naive_solver. done. }
  assert (∀ key, bool_decide (key ∈ written_keys) = true → key ∉ provider_sections) as Hdisj.
  { assert (Forall (λ k, k ∉ provider_sections) written_keys) as Hall
      by (apply (bool_decide_unpack _); by vm_compute).
    rewrite Forall_forall in Hall. intros key Hk%bool_decide_eq_true. by apply Hall. }
  split; [|split; [|split; [|split]]].
  - intros key v Hin. rewrite Heq; [by apply Hm|]. apply Hdisj, bool_decide_eq_true.
    assert (key ∈ (managed_fields rules a).*1) as Hk by (apply list_elem_of_fmap; by exists (key, v)).
    change (key ∈ take 8 written_keys) in Hk. by apply elem_of_take in Hk as (i & Hi%list_elem_of_lookup_2 & _).
  - rewrite Heq; [done|]. by apply Hdisj.
  - exists dns. split; [rewrite Heq; [done|by apply Hdisj]|]. intros f s Hin.
    destruct (mapping_get (strip_managed_mapping d policy_top_level) (lit "dns")) as [v|] eqn:Hv;
      cbn [default id] in Hdef; [|by simplify_eq].
    destruct (strip_flat_get (lit "dns") (schema_fields policy_dns) [] CorePassthrough v)
      as (m & -> & _ & Hnone); [done| |by vm_compute|done|].
    + apply (bool_decide_unpack _). by vm_compute.
    + simplify_eq. by eapply Hnone.
  - intros key Hk. rewrite not_elem_of_app in Hk. destruct Hk as [Hk Hp]. rewrite Heq by done. auto.
  - apply (sc_wf _ _ _ _ _ _ H4), (sc_wf _ _ _ _ _ _ H3), Hw.
    exact (strip_wf (SchemaMapping policy_top_level [] CorePassthrough) (VMapping d) Hwf).
Qed.

(** *** The service accepts it *)

Lemma compiled_distinct : distinct_keys e.*1.
Proof. destruct compiled_get as (_ & _ & _ & _ & Hwe). by apply value_wf_mapping in Hwe as [? _]. Qed.

Lemma compiled_canonical_get key :
  mapping_get (canonical_entries e) key = canonicalize <$> mapping_get e key.
Proof. apply canonical_entries_get, compiled_distinct. Qed.

Lemma compiled_canonical_conforms :
  document_conforms policy_top_level CorePassthrough (canonical_entries e).
Proof.
  unfold document_conforms. rewrite <-canonicalize_mapping by apply compiled_distinct.
  apply conforms_canonicalize; [apply (cd_result _ _ _ _ _ _ Hc)|].
  by destruct compiled_get as (_ & _ & _ & _ & Hwe).
Qed.

(** Under the bundled policy a top-level node is managed, holds nothing managed,
    or is a mapping of managed fields. *)
Lemma policy_top_level_cases :
  Forall (λ p, is_managed p.2 = true ∨ no_managed p.2 = true ∨ p.1 = lit "dns" ∨ p.1 = lit "ntp")
    policy_top_level.
Proof. apply (bool_decide_unpack _). by vm_compute. Qed.

Definition dropped_names (fields : Fields) : list str :=
  omap (λ p, match p.2 with ManagedDrop => Some p.1 | _ => None end) fields.

Lemma elem_of_dropped_names (fields : Fields) f : (f, ManagedDrop) ∈ fields → f ∈ dropped_names fields.
Proof. intros Hin. apply list_elem_of_omap. by exists (f, ManagedDrop). Qed.

Lemma compiled_flat_absent key fields required af m v path :
  get policy_top_level key = Some (SchemaMapping fields required af) →
  forallb (λ p, is_managed p.2) fields = true →
  (∀ f, f ∈ dropped_names fields → mapping_get m f = None) →
  mapping_get e key = Some (VMapping m) → mapping_get (canonical_entries e) key = Some v →
  validate_managed_node_absent (SchemaMapping fields required af) v path = Ok tt.
Proof.
  intros Hg Hm Hdrop He Hv. destruct compiled_get as (_ & _ & _ & _ & Hwe).
  pose proof (value_wf_get _ _ _ Hwe He) as [Hd _]%value_wf_mapping.
  rewrite compiled_canonical_get, He in Hv.
  assert (v = canonicalize (VMapping m)) as -> by (by injection Hv).
  rewrite canonicalize_mapping by done. apply flat_managed_absent; [done|].
  intros f Hf%elem_of_dropped_names. by rewrite canonical_entries_get, Hdrop.
Qed.

Lemma compiled_absent :
  validate_managed_fields_absent (canonical_entries e) policy_top_level [] = Ok tt.
Proof.
  destruct compiled_get as (_ & _ & (dns & Hdns & Hdrop) & Hother & Hwe).
  apply each_key_result. split; [done|]. intros k s Hin.
  pose proof (get_NoDup _ _ _ policy_top_level_NoDup Hin) as Hg.
  apply absent_field_Ok.
  - intros ->. rewrite compiled_canonical_get, Hother, strip_get, Hg; [done|].
    assert (Forall (λ f, f ∉ written_keys ++ provider_sections) (dropped_names policy_top_level)) as Hall
      by (apply (bool_decide_unpack _); by vm_compute).
    rewrite Forall_forall in Hall. by apply Hall, elem_of_dropped_names.
  - intros Hm v Hv q. pose proof policy_top_level_cases as Hall. rewrite Forall_forall in Hall.
    destruct (Hall _ Hin) as [Hm'|[Hn|[Hk|Hk]]]; cbn [fst snd] in *; [congruence|..].
    + apply no_managed_absent; [done|]. by eapply conforms_field; [apply compiled_canonical_conforms|..].
    + subst k. assert (s = policy_dns) as -> by (by injection Hg).
      eapply (compiled_flat_absent (lit "dns")); [done|by vm_compute| |exact Hdns|done].
      intros f Hf. rewrite set_all_get by (apply (bool_decide_unpack _); by vm_compute).
      assert (Forall (λ f, f ∉ authoritative_dns_fields.*1 ∧ f ∈ (schema_fields policy_dns).*1)
        (dropped_names (schema_fields policy_dns))) as Hd
        by (apply (bool_decide_unpack _); by vm_compute).
      rewrite Forall_forall in Hd. destruct (Hd f Hf) as [Hn Hs].
      rewrite (proj2 (get_None _ f)) by done.
      apply list_elem_of_fmap in Hs as ([f' s] & -> & Hs). by eapply Hdrop.
    + subst k. assert (s = policy_ntp) as -> by (by injection Hg).
      rewrite compiled_canonical_get in Hv. pose proof Hv as (w & Hw & _)%fmap_Some.
      pose proof Hw as Hw'. rewrite Hother in Hw' by (apply (bool_decide_unpack _); by vm_compute).
      destruct (strip_flat_get (lit "ntp") (schema_fields policy_ntp) [] CorePassthrough w)
        as (m & -> & _ & Hnone); [done| |by vm_compute|done|].
      { apply (bool_decide_unpack _). by vm_compute. }
      eapply (compiled_flat_absent (lit "ntp")); [done|by vm_compute| |exact Hw|].
      * intros f Hf. apply (Hnone f ManagedDrop). apply list_elem_of_singleton in Hf as ->. by left.
      * by rewrite compiled_canonical_get.
Qed.

Lemma compiled_section_paths section_name section provider_files :
  (∀ q, q ∈ section_entries e section_name → ∃ name m m' record,
     value_wf (VMapping m) ∧ q.2 = VMapping m'
     ∧ classified section root name m m' record ∧ ∀ r, record = Some r → r ∈ records) →
  (∀ r source, r ∈ records → provider_kind r = LocalProvider source →
     ∃ s, from_utf8 (provider_relative_path r) = Some s ∧ (92%N ∉ s) ∧ s ∈ provider_files) →
  validate_provider_section (canonical_entries e) provider_files section_name = Ok tt.
Proof.
  intros Hq Hfiles. unfold validate_provider_section, section_entries in *.
  destruct compiled_get as (_ & _ & _ & _ & Hwe).
  rewrite compiled_canonical_get. destruct (mapping_get e section_name) as [v|] eqn:Hv; [|done].
  cbn [fmap option_fmap option_map]. destruct v as [| | | | |ps|]; try done.
  pose proof (value_wf_get _ _ _ Hwe Hv) as Hwps. pose proof Hwps as [Hd Hvs]%value_wf_mapping.
  rewrite canonicalize_mapping by done. apply each_intro.
  intros i q (p & Hp & ->)%canonical_entries_elem. cbn [snd].
  destruct (Hq p Hp) as (name & m & m' & record & Hwm & -> & Hcl & Hrec).
  pose proof (classified_wf _ _ _ _ _ _ Hcl Hwm) as [Hd' _]%value_wf_mapping.
  rewrite canonicalize_mapping by done. cbn [as_mapping ok_or result_bind].
  rewrite provider_path_ok_canonical by done.
  apply value_wf_mapping in Hwm as [Hdm _].
  rewrite (classified_path_ok _ _ _ _ _ _ provider_files (cd_root _ _ _ _ _ _ Hc) Hdm Hcl); [done|].
  intros r source Hr Hkind. eauto.
Qed.

Lemma section_entries_wf (m : Mapping) section p n :
  value_wf (VMapping m) → p ∈ section_entries m section → p.2 = VMapping n → value_wf (VMapping n).
Proof.
  unfold section_entries. intros Hm. destruct (mapping_get m section) as [[| | | | |ps|]|] eqn:Hg;
    try (by intros ?%not_elem_of_nil).
  intros Hp <-. pose proof (value_wf_get _ _ _ Hm Hg) as [_ Hvs]%value_wf_mapping.
  rewrite Forall_forall in Hvs. by apply Hvs.
Qed.

Lemma compiled_provider_paths provider_files :
  (∀ r source, r ∈ records → provider_kind r = LocalProvider source →
     ∃ s, from_utf8 (provider_relative_path r) = Some s ∧ (92%N ∉ s) ∧ s ∈ provider_files) →
  validate_provider_paths (canonical_entries e) provider_files = Ok tt.
Proof.
  intros Hfiles. destruct (cd_stages _ _ _ _ _ _ Hc) as (d2 & d3 & rs1 & rs2 & Hd2 & H3 & H4 & Hrs).
  assert (value_wf (VMapping d2)) as Hw2.
  { destruct (apply_managed_get _ _ _ _ Hd2) as (_ & _ & _ & _ & Hw). apply Hw.
    exact (strip_wf (SchemaMapping policy_top_level [] CorePassthrough) (VMapping d) Hwf). }
  pose proof (sc_wf _ _ _ _ _ _ H3 Hw2) as Hw3. unfold validate_provider_paths. apply guard_Ok. split.
  - apply (compiled_section_paths _ ProxySection); [|done]. intros q.
    unfold section_entries at 1. rewrite (sc_others _ _ _ _ _ _ H4) by done.
    change (q ∈ section_entries d3 (lit "proxy-providers") → ∃ name m m' record,
      value_wf (VMapping m) ∧ q.2 = VMapping m' ∧ classified ProxySection root name m m' record
      ∧ ∀ r, record = Some r → r ∈ records).
    intros (p & name & m & m' & record & Hp & Hp2 & Hq2 & Hcl & Hrec)%(sc_providers _ _ _ _ _ _ H3).
    exists name, m, m', record. split; [exact (section_entries_wf _ _ _ _ Hw2 Hp Hp2)|]. split; [done|].
    split; [done|]. intros r Hr. rewrite Hrs. apply elem_of_app. left. eauto.
  - apply (compiled_section_paths _ RuleSection); [|done].
    intros q (p & name & m & m' & record & Hp & Hp2 & Hq2 & Hcl & Hrec)%(sc_providers _ _ _ _ _ _ H4).
    exists name, m, m', record. split; [exact (section_entries_wf _ _ _ _ Hw3 Hp Hp2)|]. split; [done|].
    split; [done|]. intros r Hr. rewrite Hrs. apply elem_of_app. right. eauto.
Qed.

(** The values the compiler writes survive the canonical form, up to the order
    of their entries. *)
Lemma compiled_field_is key v :
  (key, v) ∈ managed_fields rules a → value_eqb (canonicalize v) v = true →
  field_is (canonical_entries e) key v = true.
Proof.
  intros Hin Heq. destruct compiled_get as (Hm & _). unfold field_is.
  by rewrite compiled_canonical_get, (Hm key v).
Qed.

Lemma compiled_variant key s :
  (key, VString s) ∈ managed_fields rules a → variant_of (canonical_entries e) key = Some s.
Proof.
  intros Hin. destruct compiled_get as (Hm & _). unfold variant_of.
  by rewrite compiled_canonical_get, (Hm _ _ Hin).
Qed.

Lemma compiled_bool key b :
  (key, VBool b) ∈ managed_fields rules a → field_is_bool (canonical_entries e) key b = true.
Proof.
  intros Hin. destruct compiled_get as (Hm & _). unfold field_is_bool.
  apply bool_decide_eq_true_2. by rewrite compiled_canonical_get, (Hm _ _ Hin).
Qed.

Lemma compiled_dns :
  ∃ dns, mapping_get (canonical_entries e) (lit "dns") = Some (VMapping dns)
    ∧ existsb (λ p, negb (field_is dns p.1 p.2)) authoritative_dns_fields = false.
Proof.
  destruct compiled_get as (_ & _ & (dns & Hdns & _) & _ & Hwe).
  pose proof (value_wf_get _ _ _ Hwe Hdns) as [Hd _]%value_wf_mapping.
  exists (canonical_entries (set_all dns authoritative_dns_fields)). split.
  - rewrite compiled_canonical_get, Hdns. cbn [fmap option_fmap option_map].
    by rewrite canonicalize_mapping.
  - apply not_true_iff_false. rewrite existsb_exists. intros ([f v] & Hin%list_elem_of_In & Hn).
    assert (NoDup authoritative_dns_fields.*1) as Hnd by (apply (bool_decide_unpack _); by vm_compute).
    revert Hn. unfold field_is. cbn [fst snd]. rewrite canonical_entries_get, set_all_get by done.
    rewrite (get_NoDup _ _ _ Hnd Hin). cbn [fmap option_fmap option_map].
    assert (Forall (λ p, value_eqb (canonicalize p.2) p.2 = true) authoritative_dns_fields) as Hall
      by (repeat constructor; by vm_compute).
    rewrite Forall_forall in Hall. apply Hall in Hin. cbn [snd] in Hin. by rewrite Hin.
Qed.

Lemma compiled_sniffer :
  field_is (canonical_entries e) (lit "sniffer") authoritative_sniffer_baseline = true.
Proof.
  destruct compiled_get as (_ & Hs & _). unfold field_is. rewrite compiled_canonical_get, Hs.
  by vm_compute.
Qed.

Lemma compiled_rules :
  match mapping_get (canonical_entries e) (lit "rules") with
  | Some (VSequence _) => true
  | _ => false
  end = true.
Proof.
  destruct compiled_get as (Hm & _). by rewrite compiled_canonical_get, (Hm (lit "rules") _ ltac:(by left)).
Qed.

End fields.

End compiled.
