(* ===== verification/Configuration.v ===== *)
(** * Configuration: the compiler's guarantees

    The properties of src/config.rs, with their examples: what the compiler
    accepts, what it writes, that both checks accept what it writes, that
    providers stay below the staging root, that the canonical form is canonical
    and that nothing panics. *)

From S2P Require Import Prelude Text Ordered Constants Yaml Path Domain Rule Profile ConfigData ConfigPolicy Config Compiler.
Local Open Scope Z_scope.

(** ** Guarantees *)

Section guarantees.
Context `{YamlCrate, HostLaws} (c : ConfigCompiler).


(** C31: under the bundled policy neither compiling nor checking a persisted
    configuration panics, whatever the profile, the rules, the files and the
    bytes are: every [expect] and [unreachable!] of the compiler is backed by
    the policy check before it. *)
Theorem compile_never_panics snapshot rules a staging_root persisted :
  compiler_policy c = bundled_policy →
  value_wf (VMapping (snap_document snapshot)) →
  compile c snapshot rules a staging_root ≠ Err Panicked
  ∧ validate_persisted c snapshot rules persisted staging_root ≠ Err Panicked.
Proof.
  intros Hpolicy Hwf. split; [by apply compile_no_panic|].
  unfold validate_persisted, print_canonical. repeat no_panic_step; [|case_bool_decide; [done|]].
  - by apply compile_no_panic.
  - repeat (case_match; repeat no_panic_step; try done).
Qed.

(** for a profile the policy accepts, the reference check succeeds exactly
    when every name is nonempty, proxy and group names are unique and none is
    reserved, every group member is a proxy, a group or a built-in target, every
    provider a group uses exists, and every rule, local or in a sub-rule set, is
    short enough, parses, has no empty parameter and names an existing target
    (a sub-rule set for SUB-RULE), and an existing rule provider for RULE-SET. *)
Theorem validate_references_resolve document rules :
  policy_validate bundled_policy document = Ok tt →
  validate_references document rules = Ok tt ↔ references_resolve document rules.
Proof.
  intros Hv%validate_known_mapping_Ok.
  pose proof (validate_references_outcome document Hv rules) as Ho. split.
  - intros Hr. by destruct (outcome_Ok _ _ _ tt Ho Hr).
  - intros Hr. by destruct Ho as [[_ ->]|[Hn _]].
Qed.

(** C40: a local provider that resolves is a regular file strictly below the
    staging root: its canonical path, symbolic links resolved, is the root's
    components followed by those of the relative path, which are all plain
    names; and the path the profile wrote had no parent component. *)
Theorem resolve_local_provider_confined staging_root root raw source relative :
  canonical_staging_root staging_root = Ok root →
  resolve_local_provider root raw = Ok (source, relative) →
  fs_is_file source = true
  ∧ components source = components root ++ components relative
  ∧ relative ≠ [] ∧ forallb is_normal (components relative) = true
  ∧ (ParentDir ∉ components (utf8 raw)).
Proof.
  intros (_ & _ & Hroot)%canonical_staging_root_Ok Hres.
  destruct (resolve_local_provider_Ok _ _ _ _ Hroot Hres) as (Hf & (names & Hn & Hne & ->) & _ & Hc & Hp).
  destruct (relative_entries names Hn Hne) as (Hj & _ & Hcn). do 3 (split; [done|]).
  split; [|done]. rewrite Hcn. apply forallb_forall. intros x Hx%list_elem_of_In.
  by apply list_elem_of_fmap in Hx as (n & -> & _).
Qed.

(** Remote providers do not share a cache file: where SHA-256 does not
    collide on the two identities and provider names contain no NUL, equal paths mean the same
    section, name and URL. *)
Theorem controlled_remote_path_injective section section' name name' url url' :
  (sha256 (controlled_identity section name url) = sha256 (controlled_identity section' name' url') →
   controlled_identity section name url = controlled_identity section' name' url') →
  (0%N ∉ name) → (0%N ∉ name') →
  controlled_remote_path section name url = controlled_remote_path section' name' url' ↔
  section = section' ∧ name = name' ∧ url = url'.
Proof.
  intros Hcoll Hn Hn'. split; [intros Heq|by intros (-> & -> & ->)]. rewrite !controlled_remote_path_join in Heq.
  assert (remote_names section name url = remote_names section' name' url') as Hnames.
  { rewrite <-(split_join slash (remote_names section name url)),
      <-(split_join slash (remote_names section' name' url')), Heq; try done;
      apply entry_names_no_slash, remote_names_entries. }
  unfold remote_names in Hnames. injection Hnames as Hdir Hdig. apply app_inv_tail in Hdig.
  assert (section = section') as <- by (by destruct section, section').
  apply encode_sha256_inj in Hdig; [|apply sha256_bytes..]. apply Hcoll in Hdig.
  unfold controlled_identity in Hdig. apply app_inv_head in Hdig. simpl in Hdig.
  injection Hdig as Hid. split; [done|].
  assert (∀ n u : str, (0%N ∉ n) →
    split_once 0 (utf8 n ++ 0%N :: utf8 u) = Some (utf8 n, utf8 u)) as Hs.
  { intros n u Hn0. apply split_once_Some. split; [done|]. by apply utf8_no_nul. }
  pose proof (Hs name url Hn) as Hsplit. rewrite Hid, Hs in Hsplit by done.
  injection Hsplit as Hnm Hurl. by split; apply utf8_inj.
Qed.

(** the canonical form is canonical: putting it in canonical form again
    changes nothing, the entries of a mapping come out sorted by key with the
    same keys, and documents that differ only in the order of mapping entries,
    at any depth, have the same canonical form, so the printed configuration
    does not depend on the order of a profile's fields. *)
Theorem canonicalize_canonical v :
  value_wf v → sortable v →
  canonicalize (canonicalize v) = canonicalize v
  ∧ (∀ w, same_value v w → canonicalize w = canonicalize v)
  ∧ (∀ m, v = VMapping m → ∃ n, canonicalize v = VMapping n ∧ n.*1 ≡ₚ m.*1
       ∧ StronglySorted (by_key (λ p, yaml_key p.1)) n).
Proof.
  intros Hwf Hs. split; [by apply canonicalize_idemp|]. split.
  - intros w Hw. symmetry. by apply canonicalize_same.
  - intros m ->. pose proof Hwf as [Hd _]%value_wf_mapping. exists (canonical_entries m).
    split; [by apply canonicalize_mapping|]. split; [apply canonical_entries_keys|].
    apply sort_by_sorted.
Qed.

End guarantees.


(** ** Examples *)

Section sample.
#[local] Existing Instance sample_yaml.
#[local] Existing Instance sample_yaml_laws.

(** A staging directory with one provider file; every URL parses. *)
Definition sample_canonicalize (p : path) : option path :=
  if bool_decide (p = lit "/staging") || bool_decide (p = lit "/staging/list.yaml")
     || bool_decide (p = lit "/staging/a\b.yaml")
  then Some p else None.

#[local] Instance sample_host : Host := {|
  sha256 _ := replicate 32 7%N;
  url_parse _ := Some (MkUrl (lit "https") (Some (lit "h.example")) (lit "https://h.example") None None);
  fs_canonicalize := sample_canonicalize;
  fs_is_dir p := bool_decide (p = lit "/staging");
  fs_is_file p := negb (bool_decide (p = lit "/staging"));
|}.

Lemma canonical_path_intro names :
  Forall entry_name names → canonical_path (slash :: join slash names).
Proof. intros Hn. by exists names. Qed.

#[local] Instance sample_host_laws : HostLaws.
Proof.
  split.
  - intros content. split; [|done]. simpl. repeat constructor.
  - intros p q. simpl. unfold sample_canonicalize.
    repeat case_bool_decide; simpl; intros; simplify_eq.
    + apply (canonical_path_intro [lit "staging"]).
      repeat constructor; apply (bool_decide_unpack _); by vm_compute.
    + apply (canonical_path_intro [lit "staging"; lit "list.yaml"]).
      repeat constructor; apply (bool_decide_unpack _); by vm_compute.
    + apply (canonical_path_intro [lit "staging"; lit "a\b.yaml"]).
      repeat constructor; apply (bool_decide_unpack _); by vm_compute.
Qed.

(** The compiler of the bundled policy; the digest of the policy plays no role. *)
Definition sample_compiler : ConfigCompiler := MkConfigCompiler bundled_policy (lit "policy").
Definition sample_authoritative : AuthoritativeConfig :=
  MkAuthoritativeConfig (lit "/run/core.sock") (lit "token").

(** A profile with a proxy, a group, one remote and one local provider, and
    fields the compiler removes; [file] is the local provider's path. *)
Definition sample_profile (file : str) : Mapping :=
  [ (key (lit "mixed-port"), VNumber (NumberInt 7890));
    (key (lit "dns"), VMapping [ (key (lit "listen"), VString (lit "0.0.0.0:53"));
                                 (key (lit "nameserver"), VSequence [VString (lit "1.1.1.1")]) ]);
    (key (lit "ntp"), VMapping [(key (lit "write-to-system"), VBool true)]);
    (key (lit "proxies"), VSequence
       [ VMapping [(key (lit "name"), VString (lit "p")); (key (lit "type"), VString (lit "ss"))] ]);
    (key (lit "proxy-groups"), VSequence
       [ VMapping [ (key (lit "name"), VString (lit "g")); (key (lit "type"), VString (lit "select"));
                    (key (lit "proxies"), VSequence [VString (lit "p"); VString (lit "DIRECT")]);
                    (key (lit "use"), VSequence [VString (lit "remote")]) ] ]);
    (key (lit "proxy-providers"), VMapping
       [ (key (lit "remote"), VMapping [ (key (lit "type"), VString (lit "http"));
                                         (key (lit "url"), VString (lit "https://h.example/s")) ]) ]);
    (key (lit "rule-providers"), VMapping
       [ (key (lit "local"), VMapping [ (key (lit "type"), VString (lit "file"));
                                        (key (lit "path"), VString file) ]) ]) ].

Definition sample_config_snapshot (file : str) : ProfileSnapshot :=
  MkProfileSnapshot [] (sample_profile file) [] [].

Definition sample_local_rules : list str := [lit "RULE-SET,local,g"; lit "MATCH,DIRECT"].

Lemma sample_profile_wf file : value_wf (VMapping (sample_profile file)).
Proof. apply value_wf_mapping. vm_compute. repeat constructor. Qed.

Definition sample_compile (file : str) : result EffectiveConfiguration Fault :=
  compile sample_compiler (sample_config_snapshot file) sample_local_rules sample_authoritative
    (lit "/staging").

Definition sample_compiled (file : str) : EffectiveConfiguration :=
  default (MkEffectiveConfiguration [] [] [] []) (result_ok (sample_compile file)).

Definition sample_compiles (file : str) : bool := is_ok (sample_compile file).

Lemma sample_compile_ok file :
  sample_compiles file = true →
  compile sample_compiler (sample_config_snapshot file) sample_local_rules sample_authoritative
    (lit "/staging") = Ok (sample_compiled file).
Proof.
  unfold sample_compiles, sample_compiled. change (compile _ _ _ _ _) with (sample_compile file).
  by destruct (sample_compile file).
Qed.

Lemma sample_backslash_compiles : sample_compiles (lit "a\b.yaml") = true.
Proof. by vm_compute. Qed.

Lemma sample_list_compiles : sample_compiles (lit "list.yaml") = true.
Proof. by vm_compute. Qed.


Lemma compile_never_panics_witness :
  compile sample_compiler (sample_config_snapshot (lit "missing.yaml")) sample_local_rules
    sample_authoritative (lit "/staging") ≠ Err Panicked
  ∧ validate_persisted sample_compiler (sample_config_snapshot (lit "missing.yaml"))
      sample_local_rules [1%N] (lit "/staging") ≠ Err Panicked.
Proof.
  apply (compile_never_panics sample_compiler (sample_config_snapshot (lit "missing.yaml"))
    sample_local_rules sample_authoritative (lit "/staging")).
  - reflexivity.
  - apply sample_profile_wf.
Defined.

Lemma validate_references_resolve_witness :
  validate_references (sample_profile (lit "list.yaml")) sample_local_rules = Ok tt ↔
  references_resolve (sample_profile (lit "list.yaml")) sample_local_rules.
Proof. apply (validate_references_resolve (sample_profile (lit "list.yaml"))). by vm_compute. Defined.

Lemma resolve_local_provider_confined_witness :
  fs_is_file (lit "/staging/list.yaml") = true
  ∧ components (lit "/staging/list.yaml") = components (lit "/staging") ++ components (lit "list.yaml")
  ∧ lit "list.yaml" ≠ [] ∧ forallb is_normal (components (lit "list.yaml")) = true
  ∧ (ParentDir ∉ components (utf8 (lit "list.yaml"))).
Proof.
  apply (resolve_local_provider_confined (lit "/staging") (lit "/staging") (lit "list.yaml")
    (lit "/staging/list.yaml") (lit "list.yaml")); by vm_compute.
Defined.

Lemma controlled_remote_path_injective_witness :
  controlled_remote_path ProxySection (lit "a") (lit "u") =
  controlled_remote_path ProxySection (lit "a") (lit "u") ↔
  ProxySection = ProxySection ∧ lit "a" = lit "a" ∧ lit "u" = lit "u".
Proof.
  apply (controlled_remote_path_injective ProxySection ProxySection (lit "a") (lit "a") (lit "u") (lit "u")).
  - done.
  - apply (bool_decide_unpack _). by vm_compute.
  - apply (bool_decide_unpack _). by vm_compute.
Defined.

(** Two orders of the same entries. *)
Definition sample_ab : Value := VMapping [(key (lit "a"), VNull); (key (lit "b"), VBool true)].
Definition sample_ba : Value := VMapping [(key (lit "b"), VBool true); (key (lit "a"), VNull)].

Lemma canonicalize_canonical_witness :
  sample_ba ≠ sample_ab ∧ canonicalize sample_ab = canonicalize sample_ba.
Proof.
  split; [done|].
  destruct (canonicalize_canonical sample_ba) as (_ & Hsame & _).
  - apply value_wf_mapping. vm_compute. repeat constructor.
  - apply sortable_mapping. split; [|repeat constructor].
    apply (bool_decide_unpack _). by vm_compute.
  - apply Hsame. eapply (same_mapping _ [_; _]); [|apply perm_swap].
    repeat constructor.
Defined.

(** a provider file whose name contains a backslash (an ordinary character
    on Unix) compiles, but the configuration then names a different path: the
    service, given the file list of the bundle, rejects it. *)
Theorem backslash_provider_rejected :
  let conf := sample_compiled (lit "a\b.yaml") in
  compile sample_compiler (sample_config_snapshot (lit "a\b.yaml")) sample_local_rules
    sample_authoritative (lit "/staging") = Ok conf
  ∧ (provider_relative_path <$> cfg_providers conf) !! 1%nat = Some (lit "a\b.yaml")
  ∧ validate_privileged_candidate sample_compiler (utf8 (cfg_yaml conf)) sample_authoritative
      {[lit "a\b.yaml"]} = Err PersistedConfigurationInvalid.
Proof.
  split; [exact (sample_compile_ok (lit "a\b.yaml") sample_backslash_compiles)|].
  split; by vm_compute.
Qed.

End sample.
