(* ===== verification/Filesystem.v ===== *)
(** * Filesystem: the file operations the persistence layer uses (std::fs)

    The store's three directories as one map from paths to entries.  Every
    primitive may fail: [faults] lists, for the primitives to come, whether
    they fail ([Broken n], where a failing write leaves [n] bytes) or not; a
    list that has run out means no further failures, so that every finite
    execution with any faults is covered. *)

From S2P Require Import Prelude Text Ordered.
Local Open Scope Z_scope.

Inductive IoError := NotFound | AlreadyExists | InvalidInput | InvalidData | OtherIo.

#[global] Instance IoError_eq_dec : EqDecision IoError.
Proof. solve_decision. Defined.

Inductive Dir := Root | Objects | Transactions.

#[global] Instance Dir_eq_dec : EqDecision Dir.
Proof. solve_decision. Defined.
#[global] Instance Dir_countable : Countable Dir.
Proof.
  refine (inj_countable' (λ d, match d with Root => 0 | Objects => 1 | Transactions => 2 end)%nat
            (λ n, match n with 0 => Root | 1 => Objects | _ => Transactions end)%nat _).
  by intros [].
Defined.

Abbreviation path := (Dir * str)%type.

(** [NotRegular target]: not a regular file; [target] is what reading through
    it gives (a symbolic link), [None] for a directory. *)
Inductive Entry :=
| Regular (content : bytes)
| NotRegular (target : option bytes).

(** What reading an entry gives, links followed. *)
Definition entry_content (e : Entry) : option bytes :=
  match e with
  | Regular content => Some content
  | NotRegular target => target
  end.

(** Writing an open file: through a link the link stays. *)
Definition entry_write (e : option Entry) (content : bytes) : Entry :=
  match e with
  | Some (NotRegular (Some _)) => NotRegular (Some content)
  | _ => Regular content
  end.

Inductive Fault := Fine | Broken (written : nat).

Record Fs := MkFs {
  files : gmap path Entry;
  faults : list Fault;
}.

(** ** The I/O monad *)

Definition io (A : Type) : Type := Fs → result A IoError * Fs.

Definition io_ret {A} (x : A) : io A := λ w, (Ok x, w).
Definition io_err {A} (e : IoError) : io A := λ w, (Err e, w).
Definition io_bind {A B} (m : io A) (k : A → io B) : io B := λ w,
  match m w with
  | (Ok x, w) => k x w
  | (Err e, w) => (Err e, w)
  end.
(** The result of [m] as a value: for [match] on a [Result] and [let _ =]. *)
Definition io_try {A} (m : io A) : io (result A IoError) := λ w, let '(r, w) := m w in (Ok r, w).
Definition io_lift {A} (r : result A IoError) : io A := λ w, (r, w).

Notation "'let!' x ':=' m 'in' k" := (io_bind m (λ x, k))
  (at level 10, x name, m at level 100, k at level 200,
   format "'[v' 'let!'  x  ':='  m  'in' '/' k ']'") : rust_scope.
Notation "'run!' m 'in' k" := (io_bind m (λ _, k))
  (at level 10, m at level 100, k at level 200) : rust_scope.

(** ** Primitives *)

(** Draws the fault of one primitive. *)
Definition draw : io Fault := λ w,
  match faults w with
  | [] => (Ok Fine, w)
  | f :: fs => (Ok f, MkFs (files w) fs)
  end.

Definition io_get {A} (f : gmap path Entry → result A IoError) : io A := λ w, (f (files w), w).

(** A primitive that does not change files. *)
Definition prim_read {A} (f : gmap path Entry → result A IoError) : io A :=
  let! fault := draw in
  match fault with
  | Broken _ => io_err OtherIo
  | Fine => io_get f
  end.

Definition set_files (files : gmap path Entry) : io unit := λ w, (Ok tt, MkFs files (faults w)).

(** [fs::read], following links. *)
Definition fs_read (p : path) : io bytes :=
  prim_read (λ files, match files !! p with
                      | Some e => ok_or (entry_content e) OtherIo
                      | None => Err NotFound
                      end).

(** [fs::symlink_metadata(p)?.file_type().is_file()] *)
Definition symlink_is_file (p : path) : io bool :=
  prim_read (λ files, match files !! p with
                      | Some (Regular _) => Ok true
                      | Some (NotRegular _) => Ok false
                      | None => Err NotFound
                      end).

(** [OpenOptions::read] with [O_NOFOLLOW]. *)
Definition open_nofollow (p : path) : io bytes :=
  prim_read (λ files, match files !! p with
                      | Some (Regular content) => Ok content
                      | Some (NotRegular _) => Err OtherIo
                      | None => Err NotFound
                      end).

(** Any call that only succeeds or fails: [sync_all], [set_permissions],
    [metadata] of an open file. *)
Definition fs_call : io unit := prim_read (λ _, Ok tt).

(** [create_new(true)] *)
Definition create_new (p : path) : io unit :=
  let! exists_ := prim_read (λ files, Ok (bool_decide (is_Some (files !! p)))) in
  if exists_ then io_err AlreadyExists
  else let! files := io_get Ok in set_files (<[p := Regular []]> files).

(** [create(true).truncate(true)] *)
Definition create_truncate (p : path) : io unit :=
  let! entry := prim_read (λ files, Ok (files !! p)) in
  match entry with
  | Some (NotRegular None) => io_err OtherIo
  | _ => let! files := io_get Ok in set_files (<[p := entry_write entry []]> files)
  end.

(** [write_all] to an open file. *)
Definition write_all (p : path) (content : bytes) : io unit :=
  let! fault := draw in
  let! files := io_get Ok in
  match fault with
  | Fine => set_files (<[p := entry_write (files !! p) content]> files)
  | Broken n => run! set_files (<[p := entry_write (files !! p) (take n content)]> files) in io_err OtherIo
  end.

(** [fs::remove_file] *)
Definition remove_file (p : path) : io unit :=
  let! entry := prim_read (λ files, match files !! p with
                                    | Some (NotRegular None) => Err OtherIo
                                    | Some e => Ok e
                                    | None => Err NotFound
                                    end) in
  let! files := io_get Ok in
  set_files (delete p files).

(** [fs::rename], within the file system: replaces a file or link, not a
    directory. *)
Definition rename (from to : path) : io unit :=
  let! entry := prim_read (λ files, match files !! from, files !! to with
                                    | None, _ => Err NotFound
                                    | Some _, Some (NotRegular None) => Err OtherIo
                                    | Some e, _ => Ok e
                                    end) in
  let! files := io_get Ok in
  set_files (<[to := entry]> (delete from files)).

(** ** Inversion of the primitives *)

(** Inverts hypotheses about runs in the monad, bind by bind. *)
Ltac io_inv :=
  repeat match goal with
  | H : io_bind ?m ?k ?w = _ |- _ =>
      let x := fresh "x" in let e := fresh "e" in let w1 := fresh "w" in let E := fresh "E" in
      unfold io_bind at 1 in H; destruct (m w) as [[x|e] w1] eqn:E; simplify_eq
  | H : io_ret _ _ = _ |- _ => unfold io_ret in H; simplify_eq
  | H : io_err _ _ = _ |- _ => unfold io_err in H; simplify_eq
  | H : io_lift _ _ = _ |- _ => unfold io_lift in H; simplify_eq
  | H : io_get _ _ = _ |- _ => unfold io_get in H; simplify_eq
  | H : set_files _ _ = _ |- _ => unfold set_files in H; simplify_eq
  | H : io_try ?m ?w = _ |- _ =>
      let x := fresh "r" in let w1 := fresh "w" in let E := fresh "E" in
      unfold io_try in H; destruct (m w) as [x w1] eqn:E; simplify_eq
  end.

(** The content read at [p], links followed. *)
Definition content_at (w : Fs) (p : path) (content : bytes) : Prop :=
  ∃ e, files w !! p = Some e ∧ entry_content e = Some content.

(** Only the given paths may differ. *)
Definition unchanged_but (ps : list path) (w w' : Fs) : Prop :=
  ∀ q, q ∉ ps → files w' !! q = files w !! q.

Lemma draw_inv w r w' : draw w = (r, w') → files w' = files w ∧ ∃ f, r = Ok f.
Proof. unfold draw. destruct (faults w); intros; simplify_eq/=; eauto. Qed.

Lemma prim_read_inv {A} (f : gmap path Entry → result A IoError) w r w' :
  prim_read f w = (r, w') → files w' = files w ∧ (r = f (files w) ∨ r = Err OtherIo).
Proof.
  unfold prim_read. intros H. io_inv.
  - apply draw_inv in E as [Hf _]. destruct x; io_inv; [|auto].
    split; [done|]. left. by rewrite Hf.
  - apply draw_inv in E as [_ [? ?]]. done.
Qed.

Lemma fs_call_inv w r w' : fs_call w = (r, w') → files w' = files w.
Proof. by intros [? _]%prim_read_inv. Qed.

Lemma fs_call_err w e w' : fs_call w = (Err e, w') → e = OtherIo.
Proof. by intros [_ [?|[= ->]]]%prim_read_inv. Qed.

Lemma fs_read_inv p w r w' :
  fs_read p w = (r, w') →
  files w' = files w ∧
  match r with
  | Ok content => content_at w p content
  | Err NotFound => files w !! p = None
  | Err _ => True
  end.
Proof.
  intros [Hf Hr]%prim_read_inv. split; [done|].
  destruct Hr as [->| ->]; [|done]. unfold content_at. destruct (files w !! p) as [e|]; [|done].
  destruct (entry_content e) eqn:He; simpl; eauto.
Qed.

Lemma symlink_is_file_inv p w r w' :
  symlink_is_file p w = (r, w') →
  files w' = files w ∧ (r = Ok true → ∃ content, files w !! p = Some (Regular content)) ∧
  (r = Err NotFound → files w !! p = None).
Proof.
  intros [Hf Hr]%prim_read_inv. split; [done|].
  destruct Hr as [->| ->]; [|done]. destruct (files w !! p) as [[]|]; naive_solver.
Qed.

Lemma open_nofollow_inv p w r w' :
  open_nofollow p w = (r, w') →
  files w' = files w ∧ (∀ content, r = Ok content → files w !! p = Some (Regular content)) ∧
  (r = Err NotFound → files w !! p = None).
Proof.
  intros [Hf Hr]%prim_read_inv. split; [done|].
  destruct Hr as [->| ->]; [|done]. destruct (files w !! p) as [[]|]; naive_solver.
Qed.

Lemma create_new_inv p w r w' :
  create_new p w = (r, w') →
  (∃ e, r = Err e) ∧ files w' = files w ∨
  r = Ok tt ∧ files w !! p = None ∧ files w' = <[p := Regular []]> (files w).
Proof.
  unfold create_new. intros H. io_inv.
  - apply prim_read_inv in E as [Hf [[= Hx]|]]; [|done]. subst x.
    case_bool_decide as Hp; io_inv; [left; eauto|right]. simpl. rewrite Hf.
    split; [done|]. split; [|done]. destruct (files w !! p); [|done]. by destruct Hp.
  - apply prim_read_inv in E as [Hf _]. left. eauto.
Qed.

Lemma create_truncate_inv p w r w' :
  create_truncate p w = (r, w') →
  (∃ e, r = Err e) ∧ files w' = files w ∨
  r = Ok tt ∧ files w' = <[p := entry_write (files w !! p) []]> (files w).
Proof.
  unfold create_truncate. intros H. io_inv.
  - apply prim_read_inv in E as [Hf [[= Hx]|]]; [|done]. subst x.
    destruct (files w !! p) as [[|[]]|] eqn:Hp; io_inv; simpl; rewrite ?Hf; eauto.
  - apply prim_read_inv in E as [Hf _]. left. eauto.
Qed.

Lemma write_all_inv p content w r w' :
  write_all p content w = (r, w') →
  ∃ written, files w' = <[p := entry_write (files w !! p) written]> (files w) ∧
             (r = Ok tt → written = content).
Proof.
  unfold write_all. intros H. io_inv.
  - apply draw_inv in E as [Hf _].
    destruct x; io_inv; simpl; rewrite Hf; eauto.
    by exists (take written content).
  - apply draw_inv in E as [_ [? ?]]. done.
Qed.

Lemma remove_file_inv p w r w' :
  remove_file p w = (r, w') →
  (∃ e, r = Err e) ∧ files w' = files w ∨ r = Ok tt ∧ files w' = delete p (files w).
Proof.
  unfold remove_file. intros H. io_inv.
  - apply prim_read_inv in E as [Hf _]. simpl. rewrite Hf. by right.
  - apply prim_read_inv in E as [Hf _]. left. eauto.
Qed.

Lemma rename_inv from to w r w' :
  rename from to w = (r, w') →
  (∃ e, r = Err e) ∧ files w' = files w ∨
  r = Ok tt ∧ ∃ e, files w !! from = Some e ∧ files w' = <[to := e]> (delete from (files w)).
Proof.
  unfold rename. intros H. io_inv.
  - apply prim_read_inv in E as [Hf [Hx|]]; [|done]. simpl. rewrite Hf. right. split; [done|].
    exists x. split; [|done]. destruct (files w !! from) as [e|]; [|done].
    destruct (files w !! to) as [[|[]]|]; by simplify_eq.
  - apply prim_read_inv in E as [Hf _]. left. eauto.
Qed.
