(* ===== verification/Journal.v ===== *)
(** * Journal: the interface between the coordinator and the store
    (the data of src/persistence.rs and trait TransactionStore of
    src/transaction.rs)

    What the configuration transactions rely on: a committed manifest and a
    prepared journal ([View]), and what each call of the store may do to them,
    whether it succeeds or fails.  [Persistence] discharges these laws,
    [Transaction] is proved against them. *)

From S2P Require Import Prelude Text Filesystem.
Local Open Scope Z_scope.

Record TransactionBundle := MkTransactionBundle {
  supervisor_state : str;
  profile_snapshot : str;
  local_rule_set : str;
  effective_configuration : str;
  profile_revision : Z;
  local_rule_set_revision : Z;
  active_profile_id : Z;
  runtime_generation : Z;
}.

Record PreparedTransaction := MkPreparedTransaction {
  candidate : str;
  prepared_previous : option str;
}.

Record CommittedManifest := MkCommittedManifest {
  current : str;
  manifest_previous : option str;
}.

#[global] Instance PreparedTransaction_eq_dec : EqDecision PreparedTransaction.
Proof. solve_decision. Defined.
#[global] Instance CommittedManifest_eq_dec : EqDecision CommittedManifest.
Proof. solve_decision. Defined.

Record RecoveryState := MkRecoveryState {
  committed : option CommittedManifest;
  prepared : option PreparedTransaction;
}.

Record PersistencePruneResult := MkPruneResult {
  scanned_entries : Z;
  removed_objects : Z;
  removed_transactions : Z;
  has_more : bool;
}.

(** ** The abstract store *)

(** What [recover] would read; [None] when it cannot be read. *)
Record View := MkView {
  v_committed : option (option CommittedManifest);
  v_prepared : option (option PreparedTransaction);
}.

(** The calls of trait [TransactionStore], with the type of their results. *)
Inductive StoreCall : Type → Type :=
| SReadObjectLimited (id : str) (limit : Z) : StoreCall (result bytes IoError)
| SPrepare (bundle : TransactionBundle) : StoreCall (result PreparedTransaction IoError)
| SRecover : StoreCall (result RecoveryState IoError)
| SCommitPrepared (p : PreparedTransaction) : StoreCall (result unit IoError)
| SClearPrepared (p : PreparedTransaction) : StoreCall (result unit IoError)
| SLoadTransaction (id : str) : StoreCall (result TransactionBundle IoError)
| SPruneUnreachable : StoreCall (result PersistencePruneResult IoError).

(** The manifest a commit of [p] writes. *)
Definition committed_by (p : PreparedTransaction) : CommittedManifest :=
  MkCommittedManifest (candidate p) (prepared_previous p).

(** [store_spec c v x v']: call [c] may answer [x] and take the view from [v]
    to [v'].  A failing call may or may not have had its effect: the file may
    be in place although syncing its directory failed. *)
Definition store_spec {A} (c : StoreCall A) (v : View) : A → View → Prop :=
  match c in StoreCall A return A → View → Prop with
  | SReadObjectLimited _ _ => λ _ v', v' = v
  | SLoadTransaction _ => λ _ v', v' = v
  | SPruneUnreachable => λ _ v', v' = v
  | SRecover => λ x v', v' = v ∧
      match x with
      | Ok s => v = MkView (Some (committed s)) (Some (prepared s))
      | Err _ => True
      end
  | SPrepare _ => λ x v', v_committed v' = v_committed v ∧
      match x with
      | Ok p => v_prepared v = Some None ∧ v_prepared v' = Some (Some p) ∧
                ∃ m, v_committed v = Some m ∧ prepared_previous p = current <$> m
      | Err _ => v_prepared v' = v_prepared v ∨
                 v_prepared v = Some None ∧ ∃ p, v_prepared v' = Some (Some p)
      end
  | SCommitPrepared p => λ x v', v_prepared v' = v_prepared v ∧
      let done := v_prepared v = Some (Some p) ∧
                  (∃ m, v_committed v = Some m ∧ current <$> m = prepared_previous p) ∧
                  v_committed v' = Some (Some (committed_by p)) in
      match x with
      | Ok _ => done
      | Err _ => v_committed v' = v_committed v ∨ done
      end
  | SClearPrepared p => λ x v', v_committed v' = v_committed v ∧
      let done := v_prepared v = Some (Some p) ∧ v_prepared v' = Some None in
      match x with
      | Ok _ => done
      | Err _ => v_prepared v' = v_prepared v ∨ done
      end
  end.

(** An implementation of the store over worlds [W]. *)
Class TransactionStore (W : Type) := {
  store_call : ∀ {A}, StoreCall A → W → A * W;
  store_view : W → View;
  store_call_spec : ∀ A (c : StoreCall A) w,
    store_spec c (store_view w) (store_call c w).1 (store_view (store_call c w).2);
}.
