(* ===== verification/Persistence.v ===== *)
(** * Persistence: the content-addressed store and its journal
    (src/persistence.rs)

    Objects and transactions are files named by the SHA-256 of their content;
    [prepared.json] is the journal and [manifest.json] names the committed
    transaction.  Every function runs in the I/O monad of [Filesystem], where
    any file operation may fail.  Parameters: [sha256], the JSON reader and
    printer, UUID printing and parsing, the process id in the name of the
    temporary file, and the order in which [read_dir] lists a directory. *)

From S2P Require Import Prelude Text Ordered Constants Domain Json Filesystem Journal.
Local Open Scope Z_scope.

Definition PERSISTENCE_PRUNE_ENTRY_LIMIT : Z := 4096.
Definition PERSISTENCE_PRUNE_REMOVAL_LIMIT : Z := 256.
Definition PERSISTENCE_PRUNE_REFERENCE_LIMIT : Z := 1024.
Definition TRANSACTION_BUNDLE_MAX_BYTES : Z := 4096.
Definition TRANSACTION_METADATA_MAX_BYTES : Z := 1024.

(** [ObjectId::parse], [TransactionId::parse] and [validate_digest]; the
    identifiers are their strings. *)
Definition object_id_parse (value : str) : result str IoError :=
  if is_lower_sha256_hex value then Ok value else Err InvalidInput.
Definition validate_digest (value : str) : result unit IoError :=
  if is_lower_sha256_hex value then Ok tt else Err InvalidInput.
Definition transaction_id_parse (value : str) : result str IoError :=
  let? _u := validate_digest value in Ok value.

Inductive PruneEntryKind := PruneObject | PruneTransaction.

Record PruneCandidate := MkPruneCandidate {
  candidate_path : path;
  candidate_kind : PruneEntryKind;
}.

(** ** Encodings *)

(** [Deserialize] for [ObjectId] and [TransactionId]: a string that parses. *)
Definition json_digest (j : Json) : option str :=
  s ← json_str j; if is_lower_sha256_hex s then Some s else None.

Definition prepared_to_json (p : PreparedTransaction) : Json :=
  JObject [(lit "candidate", JString (candidate p));
           (lit "previous", json_option JString (prepared_previous p))].
Definition prepared_of_json (j : Json) : option PreparedTransaction :=
  fields ← json_struct [lit "candidate"; lit "previous"] j;
  c ← json_required fields (lit "candidate") json_digest;
  p ← json_optional fields (lit "previous") json_digest;
  Some (MkPreparedTransaction c p).

Definition manifest_to_json (m : CommittedManifest) : Json :=
  JObject [(lit "current", JString (current m));
           (lit "previous", json_option JString (manifest_previous m))].
Definition manifest_of_json (j : Json) : option CommittedManifest :=
  fields ← json_struct [lit "current"; lit "previous"] j;
  c ← json_required fields (lit "current") json_digest;
  p ← json_optional fields (lit "previous") json_digest;
  Some (MkCommittedManifest c p).

Section store.
Context (sha256 : bytes → bytes).
Context (json_to_vec : Json → bytes) (json_from_slice : bytes → option Json).
Context (uuid_to_string : Z → str) (uuid_parse : str → option Z).
Context (process_id : str) (dir_order : list str → list str).

Definition bundle_fields : list str :=
  [lit "schema_version"; lit "supervisor_state"; lit "profile_snapshot"; lit "local_rule_set";
   lit "effective_configuration"; lit "profile_revision"; lit "local_rule_set_revision";
   lit "active_profile_id"; lit "runtime_generation"].

(** [TransactionBundleDto::from] and its derived [Serialize]. *)
Definition bundle_to_json (b : TransactionBundle) : Json :=
  JObject [(lit "schema_version", JNumber 1);
           (lit "supervisor_state", JString (supervisor_state b));
           (lit "profile_snapshot", JString (profile_snapshot b));
           (lit "local_rule_set", JString (local_rule_set b));
           (lit "effective_configuration", JString (effective_configuration b));
           (lit "profile_revision", JNumber (profile_revision b));
           (lit "local_rule_set_revision", JNumber (local_rule_set_revision b));
           (lit "active_profile_id", JString (uuid_to_string (active_profile_id b)));
           (lit "runtime_generation", JNumber (runtime_generation b))].

(** The derived [Deserialize] of the DTO and [TransactionBundle::try_from]. *)
Definition bundle_of_json (j : Json) : option TransactionBundle :=
  fields ← json_strict_struct bundle_fields j;
  schema_version ← json_required fields (lit "schema_version") (json_uint 65535);
  state ← json_required fields (lit "supervisor_state") json_digest;
  snapshot ← json_required fields (lit "profile_snapshot") json_digest;
  rules ← json_required fields (lit "local_rule_set") json_digest;
  configuration ← json_required fields (lit "effective_configuration") json_digest;
  p_rev ← json_required fields (lit "profile_revision") (json_uint u64_max);
  r_rev ← json_required fields (lit "local_rule_set_revision") (json_uint u64_max);
  profile ← json_required fields (lit "active_profile_id") json_str;
  generation ← json_required fields (lit "runtime_generation") (json_uint u64_max);
  if schema_version =? 1 then
    id ← uuid_parse profile;
    Some (MkTransactionBundle state snapshot rules configuration p_rev r_rev id generation)
  else None.

Definition deserialize {A} (decode : Json → option A) (content : bytes) : result A IoError :=
  ok_or (json_from_slice content ≫= decode) InvalidData.

Definition object_path (id : str) : path := (Objects, id).
Definition transaction_path (id : str) : path := (Transactions, id).
Definition prepared_path : path := (Root, lit "prepared.json").
Definition manifest_path : path := (Root, lit "manifest.json").

(** ** Files *)

Definition write_and_sync (p : path) (content : bytes) : io unit :=
  run! write_all p content in fs_call.

(** [File::open(path)?.sync_all()] *)
Definition sync_directory : io unit := run! fs_call in fs_call.

(** [fs::create_dir_all] and [fs::set_permissions]. *)
Definition create_private_directory : io unit := run! fs_call in fs_call.

(** [PersistenceStore::open]: the root and its two directories, which the paths
    of the model name; creating them adds no entry, it only may fail. *)
Definition open_store : io unit :=
  run! create_private_directory in
  run! create_private_directory in
  create_private_directory.

(** [".{file_name}.{suffix}.tmp"] beside [p]. *)
Definition temporary_path (p : path) (suffix : str) : path :=
  (p.1, lit "." ++ p.2 ++ lit "." ++ suffix ++ lit ".tmp").

(** The part of [put_immutable] that writes the file. *)
Definition write_immutable (uuid : str) (p : path) (content : bytes) : io unit :=
  let temporary := temporary_path p uuid in
  run! create_new temporary in
  let! written := io_try (write_and_sync temporary content) in
  match written with
  | Err e => run! io_try (remove_file temporary) in io_err e
  | Ok _ =>
      let! renamed := io_try (rename temporary p) in
      match renamed with
      | Err e => run! io_try (remove_file temporary) in io_err e
      | Ok _ => sync_directory
      end
  end.

Definition put_immutable (uuid : str) (p : path) (content : bytes) : io unit :=
  let! stored := io_try (fs_read p) in
  match stored with
  | Ok stored' => if bool_decide (stored' = content) then io_ret tt else write_immutable uuid p content
  | Err NotFound => write_immutable uuid p content
  | Err e => io_err e
  end.

Definition replace_private_file (p : path) (content : bytes) : io unit :=
  let temporary := temporary_path p process_id in
  run! create_truncate temporary in
  run! fs_call in
  let! written := io_try (write_and_sync temporary content) in
  match written with
  | Err e => run! io_try (remove_file temporary) in io_err e
  | Ok _ => run! rename temporary p in sync_directory
  end.

Definition read_optional_json {A} (decode : Json → option A) (p : path) : io (option A) :=
  let! content := io_try (fs_read p) in
  match content with
  | Ok content => let! value := io_lift (deserialize decode content) in io_ret (Some value)
  | Err NotFound => io_ret None
  | Err e => io_err e
  end.

Definition read_hashed_file (p : path) (expected : str) : io bytes :=
  let! content := fs_read p in
  if bool_decide (sha256_hex sha256 content = expected) then io_ret content else io_err InvalidData.

Definition read_regular_file_limited (p : path) (limit : Z) : io bytes :=
  let! is_file := symlink_is_file p in
  if negb is_file then io_err InvalidData
  else
    let! content := open_nofollow p in
    run! fs_call in
    if limit <? zlen content then io_err InvalidData
    else run! fs_call in io_ret content.

Definition read_regular_hashed_file_limited (p : path) (expected : str) (limit : Z) : io bytes :=
  let! content := read_regular_file_limited p limit in
  if bool_decide (sha256_hex sha256 content = expected) then io_ret content else io_err InvalidData.

Definition read_optional_regular_json {A} (decode : Json → option A) (p : path) (limit : Z)
  : io (option A) :=
  let! content := io_try (read_regular_file_limited p limit) in
  match content with
  | Ok content => let! value := io_lift (deserialize decode content) in io_ret (Some value)
  | Err NotFound => io_ret None
  | Err e => io_err e
  end.

(** ** Objects *)

Definition put_object (uuid : str) (content : bytes) : io str :=
  let id := sha256_hex sha256 content in
  run! put_immutable uuid (object_path id) content in
  io_ret id.

Definition read_object_limited (id : str) (limit : Z) : io bytes :=
  let! content := fs_read (object_path id) in
  run! fs_call in
  if limit <? zlen content then io_err InvalidData
  else
    run! fs_call in
    if bool_decide (sha256_hex sha256 content = id) then io_ret content else io_err InvalidData.

Definition read_object (id : str) : io bytes := read_object_limited id usize_max.

Definition verify_bundle_objects (b : TransactionBundle) : io unit :=
  run! read_object (supervisor_state b) in
  run! read_object (profile_snapshot b) in
  run! read_object (local_rule_set b) in
  run! read_object (effective_configuration b) in
  io_ret tt.

(** ** Transactions *)

Definition read_manifest : io (option CommittedManifest) :=
  read_optional_json manifest_of_json manifest_path.
Definition read_prepared : io (option PreparedTransaction) :=
  read_optional_json prepared_of_json prepared_path.

Definition prepare (uuid : str) (b : TransactionBundle) : io PreparedTransaction :=
  let! journal := read_prepared in
  match journal with
  | Some _ => io_err AlreadyExists
  | None =>
      run! verify_bundle_objects b in
      let serialized := json_to_vec (bundle_to_json b) in
      let id := sha256_hex sha256 serialized in
      run! put_immutable uuid (transaction_path id) serialized in
      let! manifest := read_manifest in
      let p := MkPreparedTransaction id (current <$> manifest) in
      run! replace_private_file prepared_path (json_to_vec (prepared_to_json p)) in
      io_ret p
  end.

Definition recover : io RecoveryState :=
  let! manifest := read_manifest in
  let! journal := read_prepared in
  io_ret (MkRecoveryState manifest journal).

Definition load_transaction (id : str) : io TransactionBundle :=
  let! content := read_hashed_file (transaction_path id) id in
  io_lift (deserialize bundle_of_json content).

Definition commit_prepared (p : PreparedTransaction) : io unit :=
  let! journal := read_prepared in
  if negb (bool_decide (journal = Some p)) then io_err InvalidData
  else
    let! manifest := read_manifest in
    if negb (bool_decide (current <$> manifest = prepared_previous p)) then io_err InvalidData
    else
      let! b := load_transaction (candidate p) in
      run! verify_bundle_objects b in
      replace_private_file manifest_path
        (json_to_vec (manifest_to_json (MkCommittedManifest (candidate p) (prepared_previous p)))).

Definition clear_prepared (p : PreparedTransaction) : io unit :=
  let! journal := read_prepared in
  if negb (bool_decide (journal = Some p)) then io_err InvalidData
  else
    run! remove_file prepared_path in
    sync_directory.

(** ** Pruning *)

Definition is_ascii_whitespace (b : byte) : bool :=
  ((b =? 32) || (b =? 9) || (b =? 10) || (b =? 12) || (b =? 13))%N.

(** The [while let] loop: [pending] has its top first.  Every turn takes one
    node of the document, so its size is enough fuel. *)
Fixpoint collect_references (fuel : nat) (pending : list Json) (retained : gset str)
  : result (gset str) IoError :=
  match fuel, pending with
  | _, [] => Ok retained
  | O, _ => Ok retained
  | S fuel', value :: pending' =>
      match value with
      | JArray values => collect_references fuel' (reverse values ++ pending') retained
      | JObject fields => collect_references fuel' (reverse (json_values fields) ++ pending') retained
      | JString s =>
          if is_ok (object_id_parse s) then
            let retained := {[s]} ∪ retained in
            if PERSISTENCE_PRUNE_REFERENCE_LIMIT <? zsize retained then Err InvalidData
            else collect_references fuel' pending' retained
          else collect_references fuel' pending' retained
      | _ => collect_references fuel' pending' retained
      end
  end.

Definition collect_json_object_references (content : bytes) (retained : gset str)
  : result (gset str) IoError :=
  match head (filter (λ b, is_ascii_whitespace b = false) content) with
  | None => Ok retained
  | Some first =>
      if negb ((first =? 123) || (first =? 91))%N then Ok retained
      else
        let? value := deserialize Some content in
        collect_references (json_size value) [value] retained
  end.

Definition retain_option (retained : gset str) (id : option str) : gset str :=
  match id with Some id => {[id]} ∪ retained | None => retained end.

Definition bundle_objects (b : TransactionBundle) : gset str :=
  {[supervisor_state b; profile_snapshot b; local_rule_set b; effective_configuration b]}.

(** One turn of the loop over the retained transactions. *)
Definition retain_transaction_objects (id : str) (retained : gset str) : io (gset str) :=
  let! transaction := io_lift (transaction_id_parse id) in
  let! content := read_regular_hashed_file_limited (transaction_path transaction) transaction
                    TRANSACTION_BUNDLE_MAX_BYTES in
  let! b := io_lift (deserialize bundle_of_json content) in
  let retained := bundle_objects b ∪ retained in
  let! state := read_regular_hashed_file_limited (object_path (supervisor_state b))
                  (supervisor_state b) SUPERVISOR_STATE_MAX_BYTES in
  io_lift (collect_json_object_references state retained).

Fixpoint retain_objects (transactions : list str) (retained : gset str) : io (gset str) :=
  match transactions with
  | [] => io_ret retained
  | id :: transactions' =>
      let! retained := retain_transaction_objects id retained in
      retain_objects transactions' retained
  end.

Definition retained_content : io (gset str * gset str) :=
  let! manifest := read_optional_regular_json manifest_of_json manifest_path
                     TRANSACTION_METADATA_MAX_BYTES in
  let! journal := read_optional_regular_json prepared_of_json prepared_path
                    TRANSACTION_METADATA_MAX_BYTES in
  let transactions : gset str := ∅ in
  let transactions := match manifest with
                      | Some m => retain_option ({[current m]} ∪ transactions) (manifest_previous m)
                      | None => transactions
                      end in
  let transactions := match journal with
                      | Some p => retain_option ({[candidate p]} ∪ transactions) (prepared_previous p)
                      | None => transactions
                      end in
  let! objects := retain_objects (bset_iter transactions) ∅ in
  io_ret (transactions, objects).

(** The names in a directory, as [read_dir] lists them. *)
Definition directory_names (d : Dir) (files : gmap path Entry) : list str :=
  dir_order ((λ e : path * Entry, e.1.2) <$> filter (λ e, e.1.1 = d) (map_to_list files)).

(** The loop over the entries of one directory. *)
Fixpoint scan_entries (d : Dir) (retained : gset str) (kind : PruneEntryKind) (names : list str)
    (res : PersistencePruneResult) (candidates : list PruneCandidate)
  : io (PersistencePruneResult * list PruneCandidate) :=
  match names with
  | [] => io_ret (res, candidates)
  | name :: names' =>
      if scanned_entries res =? PERSISTENCE_PRUNE_ENTRY_LIMIT
      then io_ret (MkPruneResult (scanned_entries res) (removed_objects res)
                     (removed_transactions res) true, candidates)
      else
        run! fs_call in
        let res := MkPruneResult (scanned_entries res + 1) (removed_objects res)
                     (removed_transactions res) (has_more res) in
        if negb (is_ok (validate_digest name)) || bool_decide (name ∈ retained)
        then scan_entries d retained kind names' res candidates
        else
          let! is_file := symlink_is_file (d, name) in
          if negb is_file then scan_entries d retained kind names' res candidates
          else if zlen candidates =? PERSISTENCE_PRUNE_REMOVAL_LIMIT
          then scan_entries d retained kind names'
                 (MkPruneResult (scanned_entries res) (removed_objects res)
                    (removed_transactions res) true) candidates
          else scan_entries d retained kind names' res
                 (candidates ++ [MkPruneCandidate (d, name) kind])
  end.

Definition collect_prune_candidates (d : Dir) (retained : gset str) (kind : PruneEntryKind)
    (res : PersistencePruneResult) (candidates : list PruneCandidate)
  : io (PersistencePruneResult * list PruneCandidate) :=
  let! names := prim_read (λ files, Ok (directory_names d files)) in
  scan_entries d retained kind names res candidates.

Definition count_removed (res : PersistencePruneResult) (kind : PruneEntryKind)
  : PersistencePruneResult :=
  match kind with
  | PruneObject => MkPruneResult (scanned_entries res) (removed_objects res + 1)
                     (removed_transactions res) (has_more res)
  | PruneTransaction => MkPruneResult (scanned_entries res) (removed_objects res)
                          (removed_transactions res + 1) (has_more res)
  end.

(** The removal loop. *)
Fixpoint remove_candidates (candidates : list PruneCandidate) (res : PersistencePruneResult)
  : io PersistencePruneResult :=
  match candidates with
  | [] => io_ret res
  | c :: candidates' =>
      let! metadata := io_try (symlink_is_file (candidate_path c)) in
      match metadata with
      | Err NotFound => remove_candidates candidates' res
      | Err e => io_err e
      | Ok false => remove_candidates candidates' res
      | Ok true =>
          run! remove_file (candidate_path c) in
          remove_candidates candidates' (count_removed res (candidate_kind c))
      end
  end.

Definition prune_unreachable : io PersistencePruneResult :=
  let! retained := retained_content in
  let! objects := collect_prune_candidates Objects retained.2 PruneObject
                    (MkPruneResult 0 0 0 false) [] in
  let! scanned := collect_prune_candidates Transactions retained.1 PruneTransaction
                    objects.1 objects.2 in
  let! res := remove_candidates scanned.2 scanned.1 in
  run! (if 0 <? removed_objects res then sync_directory else io_ret tt) in
  run! (if 0 <? removed_transactions res then sync_directory else io_ret tt) in
  io_ret res.

End store.

(** ** Files: lemmas *)

Lemma temporary_path_ne p suffix : temporary_path p suffix ≠ p.
Proof.
  destruct p as [d n]. unfold temporary_path. simpl. intros [= H].
  apply (f_equal length) in H. revert H. cbn [length app]. rewrite !length_app. simpl. lia.
Qed.

Lemma content_at_files w w' p c : files w' = files w → content_at w' p c ↔ content_at w p c.
Proof. intros Hf. unfold content_at. by rewrite Hf. Qed.

Lemma entry_write_content e c : entry_content (entry_write e c) = Some c.
Proof. by destruct e as [[|[]]|]. Qed.

Lemma entry_write_twice e c d : entry_write (Some (entry_write e c)) d = entry_write e d.
Proof. by destruct e as [[|[]]|]. Qed.

Lemma write_and_sync_inv p content w r w' :
  write_and_sync p content w = (r, w') →
  ∃ written, files w' = <[p := entry_write (files w !! p) written]> (files w) ∧
             (r = Ok tt → written = content).
Proof.
  unfold write_and_sync. intros H. io_inv.
  - invert_with write_all_inv as (c & Hf & Hc). invert_with fs_call_inv as Hf'. exists c.
    rewrite Hf'. split; [done|]. intros _. apply Hc. by destruct x.
  - invert_with write_all_inv as (c & Hf & _). exists c. done.
Qed.

Lemma sync_directory_inv w r w' : sync_directory w = (r, w') → files w' = files w.
Proof.
  unfold sync_directory. intros H. io_inv; invert_with fs_call_inv as Hf; [|done].
  invert_with fs_call_inv as Hf'. congruence.
Qed.

(** The outcomes of writing a file through a temporary one: nothing but the two
    paths changes; the file is the old one or has the new content, the latter
    whenever the call succeeds. *)
Definition replaced (p tmp : path) (content : bytes) (r : result unit IoError) (w w' : Fs) : Prop :=
  unchanged_but [p; tmp] w w' ∧
  (files w' !! p = files w !! p ∨ content_at w' p content) ∧
  (r = Ok tt → content_at w' p content).

(** How the file system looks when only the temporary file was touched. *)
Lemma replaced_tmp_only p tmp content e w w' :
  tmp ≠ p → (∀ q, q ≠ tmp → files w' !! q = files w !! q) → replaced p tmp content (Err e) w w'.
Proof.
  intros Hne Hq. split; [|split; [left; by apply Hq|done]].
  intros q Hin. apply Hq. set_solver.
Qed.

Lemma replaced_renamed p tmp content r en w w' :
  entry_content en = Some content →
  (∀ q, q ≠ tmp → q ≠ p → files w' !! q = files w !! q) → files w' !! p = Some en →
  replaced p tmp content r w w'.
Proof.
  intros Hen Hq Hp. assert (content_at w' p content) by (by exists en).
  split; [|split; auto]. intros q Hin. apply Hq; set_solver.
Qed.

(** Cleaning up the temporary file changes nothing else. *)
Lemma remove_tmp tmp w r w' q :
  remove_file tmp w = (r, w') → q ≠ tmp → files w' !! q = files w !! q.
Proof.
  intros [[_ ->]|[_ ->]]%remove_file_inv Hq; [done|]. by rewrite lookup_delete_ne.
Qed.

Lemma write_immutable_inv uuid p content w r w' :
  write_immutable uuid p content w = (r, w') →
  replaced p (temporary_path p uuid) content r w w'.
Proof.
  pose proof (temporary_path_ne p uuid) as Hne. set (tmp := temporary_path p uuid) in *.
  unfold write_immutable. fold tmp. intros H. io_inv.
  2: { invert_with create_new_inv as [[_ Hf]|[? _]]; [|done].
       apply replaced_tmp_only; [done|]. intros q _. by rewrite Hf. }
  invert_with create_new_inv as [[[? ?] _]|(_ & _ & Hf)]; [done|].
  invert_with write_and_sync_inv as (c & Hf1 & Hc). rewrite Hf, lookup_insert_eq in Hf1.
  rewrite (insert_insert_eq (files w)) in Hf1. destruct x0 as [[]|e0]; io_inv.
  - invert_with rename_inv as [[[? ->] Hf2]|(-> & en & Hen & Hf2)]; io_inv.
    + apply replaced_tmp_only; [done|]. intros q Hq.
      rewrite (remove_tmp _ _ _ _ q ltac:(eassumption)), Hf2, Hf1, lookup_insert_ne by done. done.
    + invert_with sync_directory_inv as Hf3. rewrite Hf1, lookup_insert_eq in Hen. injection Hen as <-.
      rewrite Hc in * by done.
      apply replaced_renamed with (Regular content); [done| |].
      * intros q Hq Hqp. rewrite Hf3, Hf2, lookup_insert_ne, lookup_delete_ne, Hf1, lookup_insert_ne by done. done.
      * by rewrite Hf3, Hf2, lookup_insert_eq.
  - apply replaced_tmp_only; [done|]. intros q Hq.
    rewrite (remove_tmp _ _ _ _ q ltac:(eassumption)), Hf1, lookup_insert_ne by done. done.
Qed.

Lemma put_immutable_inv uuid p content w r w' :
  put_immutable uuid p content w = (r, w') →
  replaced p (temporary_path p uuid) content r w w'.
Proof.
  unfold put_immutable. intros H. io_inv. invert_with fs_read_inv as [Hf Hread].
  assert (∀ r w', write_immutable uuid p content w0 = (r, w') →
    replaced p (temporary_path p uuid) content r w w') as Hwrite.
  { intros r1 w1 Hw%write_immutable_inv. unfold replaced, unchanged_but in *. by rewrite Hf in Hw. }
  assert (∀ e, replaced p (temporary_path p uuid) content (Err e) w w0) as Herr.
  { intros e. apply replaced_tmp_only; [apply temporary_path_ne|]. intros q _. by rewrite Hf. }
  destruct x as [stored|[]]; io_inv; auto. case_bool_decide as Hc; [|auto]. io_inv.
  split; [intros q _; by rewrite Hf|]. rewrite (content_at_files w) by done. auto.
Qed.

Lemma replace_private_file_inv process_id p content w r w' :
  replace_private_file process_id p content w = (r, w') →
  replaced p (temporary_path p process_id) content r w w'.
Proof.
  pose proof (temporary_path_ne p process_id) as Hne. set (tmp := temporary_path p process_id) in *.
  unfold replace_private_file. fold tmp. intros H. io_inv.
  3: { invert_with create_truncate_inv as [[_ Hf]|[? _]]; [|done].
       apply replaced_tmp_only; [done|]. intros q _. by rewrite Hf. }
  2: { invert_with create_truncate_inv as [[[? ?] _]|(_ & Hf)]; [done|]. invert_with fs_call_inv as Hf0.
       apply replaced_tmp_only; [done|]. intros q Hq. by rewrite Hf0, Hf, lookup_insert_ne by done. }
  invert_with create_truncate_inv as [[[? ?] _]|(_ & Hf)]; [done|]. invert_with fs_call_inv as Hf0.
  invert_with write_and_sync_inv as (c & Hf1 & Hc).
  rewrite Hf0, Hf, lookup_insert_eq, entry_write_twice, insert_insert_eq in Hf1.
  match goal with y : result () IoError |- _ => destruct y as [[]|e0] end; io_inv.
  - invert_with rename_inv as [[[? ?] _]|(_ & en & Hen & Hf2)]; [done|].
    invert_with sync_directory_inv as Hf3. rewrite Hf1, lookup_insert_eq in Hen. injection Hen as <-.
    rewrite Hc in * by done.
    eapply replaced_renamed; [apply entry_write_content| |by rewrite Hf3, Hf2, lookup_insert_eq].
    intros q Hq Hqp. by rewrite Hf3, Hf2, lookup_insert_ne, lookup_delete_ne, Hf1, lookup_insert_ne by done.
  - invert_with rename_inv as [[_ Hf2]|[? _]]; [|done].
    apply replaced_tmp_only; [done|]. intros q Hq. by rewrite Hf2, Hf1, lookup_insert_ne by done.
  - apply replaced_tmp_only; [done|]. intros q Hq.
    rewrite (remove_tmp _ _ _ _ q ltac:(eassumption)), Hf1, lookup_insert_ne by done. done.
Qed.

(** ** Encodings: round trips *)

Definition digest_id (id : str) : Prop := is_lower_sha256_hex id = true.

Lemma json_digest_Some j id : json_digest j = Some id ↔ j = JString id ∧ digest_id id.
Proof.
  unfold json_digest, digest_id. destruct j; simpl; try (split; [done|by intros [[=] _]]; fail).
  destruct (is_lower_sha256_hex value) eqn:Hv.
  - split; [by intros [= <-]|by intros [[= ->] _]].
  - split; [done|]. intros [[= ->] ?]. congruence.
Qed.

Lemma json_optional_digest fields name o :
  json_optional fields name json_digest = Some o → ∀ id, o = Some id → digest_id id.
Proof.
  unfold json_optional. intros H id ->. apply bind_Some in H as (value & _ & H).
  destruct value as [[]|]; try done; apply fmap_Some in H as (d & Hd & [= ->]);
    by apply json_digest_Some in Hd as [_ ?].
Qed.

Lemma json_required_digest fields name id :
  json_required fields name json_digest = Some id → digest_id id.
Proof.
  unfold json_required. intros H. apply bind_Some in H as (value & _ & H).
  apply bind_Some in H as (j & _ & Hd). by apply json_digest_Some in Hd as [_ ?].
Qed.

Lemma prepared_of_json_valid j p :
  prepared_of_json j = Some p →
  digest_id (candidate p) ∧ ∀ id, prepared_previous p = Some id → digest_id id.
Proof.
  unfold prepared_of_json. intros (fields & _ & H)%bind_Some.
  apply bind_Some in H as (c & Hc & H). apply bind_Some in H as (o & Ho & [= <-]). simpl.
  split; [by eapply json_required_digest|by eapply json_optional_digest].
Qed.

Lemma manifest_of_json_valid j m :
  manifest_of_json j = Some m →
  digest_id (current m) ∧ ∀ id, manifest_previous m = Some id → digest_id id.
Proof.
  unfold manifest_of_json. intros (fields & _ & H)%bind_Some.
  apply bind_Some in H as (c & Hc & H). apply bind_Some in H as (o & Ho & [= <-]). simpl.
  split; [by eapply json_required_digest|by eapply json_optional_digest].
Qed.

Lemma json_digest_string id : digest_id id → json_digest (JString id) = Some id.
Proof. intros. by apply json_digest_Some. Qed.

Lemma json_required_eq {A} fields name (decode : Json → option A) j :
  json_field fields name = Some (Some j) → json_required fields name decode = decode j.
Proof. intros H. unfold json_required. by rewrite H. Qed.

Lemma json_optional_eq fields name o :
  json_field fields name = Some (Some (json_option JString o)) →
  (∀ id, o = Some id → digest_id id) → json_optional fields name json_digest = Some o.
Proof.
  intros H Ho. unfold json_optional. rewrite H. destruct o as [id|]; [|done]. simpl.
  unfold json_digest; simpl. by rewrite Ho.
Qed.

Lemma prepared_round_trip p :
  digest_id (candidate p) → (∀ id, prepared_previous p = Some id → digest_id id) →
  prepared_of_json (prepared_to_json p) = Some p.
Proof.
  intros Hc Hp. unfold prepared_of_json, prepared_to_json. cbn [json_struct mbind option_bind].
  rewrite (json_required_eq _ _ _ (JString (candidate p))), json_digest_string by done. simpl.
  rewrite (json_optional_eq _ _ (prepared_previous p)) by done. by destruct p.
Qed.

Lemma manifest_round_trip m :
  digest_id (current m) → (∀ id, manifest_previous m = Some id → digest_id id) →
  manifest_of_json (manifest_to_json m) = Some m.
Proof.
  intros Hc Hp. unfold manifest_of_json, manifest_to_json. cbn [json_struct mbind option_bind].
  rewrite (json_required_eq _ _ _ (JString (current m))), json_digest_string by done. simpl.
  rewrite (json_optional_eq _ _ (manifest_previous m)) by done. by destruct m.
Qed.

(** ** The store: lemmas *)

Section laws.
Context (sha256 : bytes → bytes).
Context (json_from_slice : bytes → option Json) (uuid_parse : str → option Z).
Context (dir_order : list str → list str).

(** What reading a JSON file gives, in a file system without faults. *)
Definition view_at {A} (decode : Json → option A) (p : path) (w : Fs) : option (option A) :=
  match files w !! p with
  | None => Some None
  | Some e => content ← entry_content e; value ← (json_from_slice content ≫= decode); Some (Some value)
  end.

Definition persistence_view (w : Fs) : View :=
  MkView (view_at manifest_of_json manifest_path w) (view_at prepared_of_json prepared_path w).

Lemma view_at_files {A} (decode : Json → option A) p w w' :
  files w' !! p = files w !! p → view_at decode p w' = view_at decode p w.
Proof. intros Hf. unfold view_at. by rewrite Hf. Qed.

Lemma view_at_content {A} (decode : Json → option A) p w content x :
  content_at w p content → json_from_slice content ≫= decode = Some x →
  view_at decode p w = Some (Some x).
Proof. intros (e & He & Hc) Hd. unfold view_at. by rewrite He, Hc; simpl; rewrite Hd. Qed.

Lemma read_optional_json_inv {A} (decode : Json → option A) p w r w' :
  read_optional_json json_from_slice decode p w = (r, w') →
  files w' = files w ∧ ∀ x, r = Ok x → view_at decode p w = Some x.
Proof.
  unfold read_optional_json. intros H. io_inv. invert_with fs_read_inv as [Hf Hr].
  destruct x as [content|[]]; io_inv; try done.
  - unfold deserialize in *. destruct (json_from_slice content ≫= decode) eqn:Hd; simplify_eq/=.
    split; [done|]. intros ? [= <-]. by eapply view_at_content.
  - split; [done|]. intros ? [= <-]. unfold view_at. by rewrite Hr.
Qed.

Lemma view_prepared_valid w p :
  view_at prepared_of_json prepared_path w = Some (Some p) →
  digest_id (candidate p) ∧ ∀ id, prepared_previous p = Some id → digest_id id.
Proof.
  unfold view_at. destruct (files w !! prepared_path) as [e|]; [|done]. intros H.
  apply bind_Some in H as (c & _ & H). apply bind_Some in H as (v & H & [= <-]).
  apply bind_Some in H as (j & _ & H). by eapply prepared_of_json_valid.
Qed.

Lemma view_manifest_valid w m :
  view_at manifest_of_json manifest_path w = Some (Some m) →
  digest_id (current m) ∧ ∀ id, manifest_previous m = Some id → digest_id id.
Proof.
  unfold view_at. destruct (files w !! manifest_path) as [e|]; [|done]. intros H.
  apply bind_Some in H as (c & _ & H). apply bind_Some in H as (v & H & [= <-]).
  apply bind_Some in H as (j & _ & H). by eapply manifest_of_json_valid.
Qed.

Lemma recover_inv w r w' :
  recover json_from_slice w = (r, w') →
  files w' = files w ∧ ∀ s, r = Ok s →
    persistence_view w = MkView (Some (committed s)) (Some (prepared s)).
Proof.
  unfold recover, read_manifest, read_prepared. intros H. io_inv;
    repeat invert_with (read_optional_json_inv _ _ _ _ _) as [? ?]; [|split; [congruence|done]..].
  split; [congruence|]. intros s [= <-]. unfold persistence_view. simpl. f_equal; [auto|].
  rewrite <-(view_at_files _ _ w w0) by congruence. auto.
Qed.

Lemma read_object_limited_inv id limit w r w' :
  read_object_limited sha256 id limit w = (r, w') →
  files w' = files w ∧ ∀ c, r = Ok c →
    content_at w (object_path id) c ∧ zlen c ≤ limit ∧ sha256_hex sha256 c = id.
Proof.
  unfold read_object_limited. intros H. io_inv; repeat invert_with fs_read_inv as [? ?];
    repeat invert_with fs_call_inv as ?; [|split; [congruence|done]..].
  destruct (Z.ltb_spec limit (zlen x)); io_inv; repeat invert_with fs_call_inv as ?; try (split; [congruence|done]).
  case_bool_decide; io_inv; (split; [congruence|]); [|done]. by intros ? [= <-].
Qed.

Lemma verify_bundle_objects_inv b w r w' :
  verify_bundle_objects sha256 b w = (r, w') →
  files w' = files w ∧
  (r = Ok tt → ∀ id, id ∈ bundle_objects b → ∃ c, content_at w (object_path id) c ∧ sha256_hex sha256 c = id).
Proof.
  unfold verify_bundle_objects, read_object. intros H. io_inv;
    repeat invert_with read_object_limited_inv as [? ?]; (split; [congruence|]); try done.
  intros _ id. unfold bundle_objects. rewrite !elem_of_union, !elem_of_singleton.
  intros Hid. repeat match goal with Hx : ∀ c, Ok _ = Ok c → _ |- _ => specialize (Hx _ eq_refl) as (? & ? & ?) end.
  destruct Hid as [[[->| ->]| ->]| ->]; eexists; (split; [|eassumption]);
    (eapply content_at_files; [|eassumption]); congruence.
Qed.

Lemma load_transaction_inv id w r w' :
  load_transaction sha256 json_from_slice uuid_parse id w = (r, w') →
  files w' = files w ∧ ∀ b, r = Ok b → ∃ c, content_at w (transaction_path id) c ∧
    sha256_hex sha256 c = id ∧ json_from_slice c ≫= bundle_of_json uuid_parse = Some b.
Proof.
  unfold load_transaction, read_hashed_file. intros H. io_inv; invert_with fs_read_inv as [Hf Hc]; try done.
  - case_bool_decide; io_inv; (split; [done|]); try done.
    unfold deserialize. intros b. destruct (_ ≫= _) eqn:Hd; [|done]. intros [= <-]. eauto.
  - case_bool_decide; io_inv. done.
Qed.

(** ** Pruning: what is reachable *)

Lemma read_regular_file_limited_inv p limit w r w' :
  read_regular_file_limited p limit w = (r, w') →
  files w' = files w ∧ (∀ c, r = Ok c → files w !! p = Some (Regular c)) ∧
  (r = Err NotFound → files w !! p = None).
Proof.
  unfold read_regular_file_limited. intros H.
  unfold io_bind at 1 in H. destruct (symlink_is_file p w) as [[is_file|e] w0] eqn:E0;
    apply symlink_is_file_inv in E0 as (Hf0 & Hreg & Hnf); [|simplify_eq; naive_solver].
  destruct is_file; simpl in H; [|unfold io_err in H; simplify_eq; naive_solver].
  destruct (Hreg eq_refl) as [c0 Hc0].
  unfold io_bind at 1 in H. destruct (open_nofollow p w0) as [[c|e] w1] eqn:E1;
    apply open_nofollow_inv in E1 as (Hf1 & Hop & Hnf1);
    [|simplify_eq; rewrite Hf0 in *; split; [congruence|naive_solver]].
  specialize (Hop _ eq_refl). rewrite Hf0 in Hop.
  unfold io_bind at 1 in H. destruct (fs_call w1) as [[[]|e] w2] eqn:E2;
    [|simplify_eq; pose proof (fs_call_err _ _ _ E2); apply fs_call_inv in E2;
      split; [congruence|naive_solver]].
  apply fs_call_inv in E2.
  destruct (Z.ltb_spec limit (zlen c)); [unfold io_err in H; simplify_eq; split; [congruence|naive_solver]|].
  unfold io_bind at 1 in H. destruct (fs_call w2) as [[[]|e] w3] eqn:E3.
  - apply fs_call_inv in E3. unfold io_ret in H. simplify_eq. split; [congruence|naive_solver].
  - pose proof (fs_call_err _ _ _ E3). apply fs_call_inv in E3. simplify_eq. split; [congruence|naive_solver].
Qed.

Lemma is_ok_parse s : is_ok (object_id_parse s) = true ↔ digest_id s.
Proof. unfold object_id_parse, digest_id. by destruct (is_lower_sha256_hex s). Qed.

Lemma collect_references_mono fuel pending retained retained' :
  collect_references fuel pending retained = Ok retained' → retained ⊆ retained'.
Proof.
  revert pending retained; induction fuel as [|fuel IH]; intros [|v pending] retained; simpl;
    try (by intros [= <-]).
  destruct v; try apply IH. destruct (is_ok (object_id_parse value)); [|apply IH].
  destruct (_ <? _); [done|]. intros H%IH. set_solver.
Qed.

Lemma json_values_size fields :
  (foldr (λ v n, json_size v + n) 0 (json_values fields) ≤ foldr (λ f n, json_size f.2 + n) 0 fields)%nat.
Proof.
  induction fields as [|[k v] fields IH]; simpl; [done|]. case_bool_decide; simpl; lia.
Qed.

Definition pending_size (pending : list Json) : nat := foldr (λ v n, json_size v + n)%nat 0%nat pending.

Lemma pending_size_app l k : pending_size (l ++ k) = (pending_size l + pending_size k)%nat.
Proof. induction l as [|v l IH]; simpl; [done|]. unfold pending_size in *. simpl. lia. Qed.

Lemma pending_size_reverse l : pending_size (reverse l) = pending_size l.
Proof. induction l as [|v l IH]; [done|]. rewrite reverse_cons, pending_size_app, IH. unfold pending_size; simpl; lia. Qed.

(** With enough fuel the collection finds every identifier in the document. *)
Lemma collect_references_complete fuel pending retained retained' v s :
  (pending_size pending ≤ fuel)%nat → collect_references fuel pending retained = Ok retained' →
  v ∈ pending → json_string v s → digest_id s → s ∈ retained'.
Proof.
  revert pending retained v; induction fuel as [|fuel IH]; intros [|u pending] retained v Hfuel H Hv Hs Hid;
    try (by apply elem_of_nil in Hv).
  { unfold pending_size in Hfuel. destruct u; simpl in Hfuel; lia. }
  change (pending_size (u :: pending)) with (json_size u + pending_size pending)%nat in Hfuel.
  apply elem_of_cons in Hv as [->|Hv].
  - destruct Hs as [s|vs v s Hin Hs|fields v s Hin Hs]; simpl in H, Hfuel.
    + rewrite (proj2 (is_ok_parse s) Hid) in H. destruct (_ <? _); [done|].
      apply collect_references_mono in H. set_solver.
    + refine (IH _ _ v _ H _ Hs Hid); [|set_solver].
      rewrite pending_size_app, pending_size_reverse. unfold pending_size in *. lia.
    + refine (IH _ _ v _ H _ Hs Hid); [|set_solver].
      rewrite pending_size_app, pending_size_reverse. pose proof (json_values_size fields).
      unfold pending_size in *. lia.
  - assert (v ∈ pending → pending_size pending ≤ fuel)%nat as Hsz by (destruct u; simpl in Hfuel; lia).
    destruct u; simpl in H, Hfuel.
    1-4: by apply (IH _ _ v (Hsz Hv) H).
    + destruct (is_ok _); [destruct (_ <? _); [done|]|]; by apply (IH _ _ v (Hsz Hv) H).
    + refine (IH _ _ v _ H _ Hs Hid); [|set_solver].
      rewrite pending_size_app, pending_size_reverse. unfold pending_size in *. lia.
    + refine (IH _ _ v _ H _ Hs Hid); [|set_solver].
      rewrite pending_size_app, pending_size_reverse. pose proof (json_values_size fields).
      unfold pending_size in *. lia.
Qed.

(** The transactions the manifest and the journal name, and the objects those
    need: the four of the bundle and, when the supervisor state is a JSON
    document, every identifier in it. *)
Inductive reachable_transaction (w : Fs) : str → Prop :=
| reachable_current m :
    view_at manifest_of_json manifest_path w = Some (Some m) → reachable_transaction w (current m)
| reachable_manifest_previous m id :
    view_at manifest_of_json manifest_path w = Some (Some m) →
    manifest_previous m = Some id → reachable_transaction w id
| reachable_candidate p :
    view_at prepared_of_json prepared_path w = Some (Some p) → reachable_transaction w (candidate p)
| reachable_prepared_previous p id :
    view_at prepared_of_json prepared_path w = Some (Some p) →
    prepared_previous p = Some id → reachable_transaction w id.

Definition is_document (content : bytes) : bool :=
  match head (filter (λ b, is_ascii_whitespace b = false) content) with
  | Some first => ((first =? 123) || (first =? 91))%N
  | None => false
  end.

Definition bundle_at (w : Fs) (id : str) (b : TransactionBundle) : Prop :=
  ∃ c, content_at w (transaction_path id) c ∧ json_from_slice c ≫= bundle_of_json uuid_parse = Some b.

Inductive reachable_object (w : Fs) : str → Prop :=
| reachable_bundle t b id :
    reachable_transaction w t → bundle_at w t b → id ∈ bundle_objects b → reachable_object w id
| reachable_state t b state document id :
    reachable_transaction w t → bundle_at w t b →
    content_at w (object_path (supervisor_state b)) state → is_document state = true →
    json_from_slice state = Some document → json_string document id → digest_id id →
    reachable_object w id.

Lemma content_at_fun w p c c' : content_at w p c → content_at w p c' → c = c'.
Proof. intros (e & ? & ?) (e' & ? & ?). by simplify_eq. Qed.

Lemma regular_content w p c : files w !! p = Some (Regular c) → content_at w p c.
Proof. intros H. by exists (Regular c). Qed.

Lemma collect_json_object_references_spec content retained retained' :
  collect_json_object_references json_from_slice content retained = Ok retained' →
  retained ⊆ retained' ∧
  (is_document content = true → ∀ document id, json_from_slice content = Some document →
     json_string document id → digest_id id → id ∈ retained').
Proof.
  unfold collect_json_object_references, is_document. destruct (head _) as [first|]; [|by intros [= <-]].
  destruct ((first =? 123) || (first =? 91))%N; simpl; [|by intros [= <-]].
  unfold deserialize. destruct (json_from_slice content) as [v|] eqn:Hv; simpl; [|done].
  intros H. split; [by eapply collect_references_mono|]. intros _ ? id [= <-] Hs Hid.
  eapply (collect_references_complete _ [v] _ _ v); [|done|set_solver|done|done].
  unfold pending_size. simpl. lia.
Qed.

Lemma read_regular_hashed_inv p expected limit w r w' :
  read_regular_hashed_file_limited sha256 p expected limit w = (r, w') →
  files w' = files w ∧ ∀ c, r = Ok c → content_at w p c.
Proof.
  unfold read_regular_hashed_file_limited. intros H. io_inv.
  - invert_with read_regular_file_limited_inv as (Hf & Hc & _).
    case_bool_decide; io_inv; (split; [done|]); [|done]. intros c [= <-]. by apply regular_content, Hc.
  - invert_with read_regular_file_limited_inv as (Hf & _). done.
Qed.

Lemma read_optional_regular_json_inv {A} (decode : Json → option A) p limit w r w' :
  read_optional_regular_json json_from_slice decode p limit w = (r, w') →
  files w' = files w ∧ ∀ x, r = Ok x → view_at decode p w = Some x.
Proof.
  unfold read_optional_regular_json. intros H. io_inv.
  invert_with read_regular_file_limited_inv as (Hf & Hc & Hn).
  destruct x as [content|[]]; io_inv; try done.
  - unfold deserialize in *. destruct (json_from_slice content ≫= decode) eqn:Hd; simplify_eq/=.
    split; [done|]. intros ? [= <-]. eapply view_at_content; [|done]. by apply regular_content, Hc.
  - split; [done|]. intros ? [= <-]. unfold view_at. by rewrite Hn.
Qed.

(** What one retained transaction contributes. *)
Lemma retain_transaction_objects_inv id retained w r w' :
  retain_transaction_objects sha256 json_from_slice uuid_parse id retained w = (r, w') →
  files w' = files w ∧ ∀ retained', r = Ok retained' → retained ⊆ retained' ∧
    ∀ b, bundle_at w id b → bundle_objects b ⊆ retained' ∧
      ∀ state document o, content_at w (object_path (supervisor_state b)) state →
        is_document state = true → json_from_slice state = Some document →
        json_string document o → digest_id o → o ∈ retained'.
Proof.
  unfold retain_transaction_objects, transaction_id_parse, validate_digest. intros H.
  unfold io_bind at 1, io_lift at 1 in H. destruct (is_lower_sha256_hex id); simpl in H; [|by simplify_eq].
  unfold io_bind at 1 in H. destruct (read_regular_hashed_file_limited _ _ _ _ w) as [[c|] w0] eqn:E0;
    apply read_regular_hashed_inv in E0 as [Hf0 Hc]; [|by simplify_eq]. specialize (Hc _ eq_refl).
  unfold io_bind at 1, io_lift at 1, deserialize at 1 in H.
  destruct (json_from_slice c ≫= bundle_of_json uuid_parse) as [b|] eqn:Hb; simpl in H; [|by simplify_eq].
  unfold io_bind at 1 in H. destruct (read_regular_hashed_file_limited _ _ _ _ w0) as [[s|] w1] eqn:E1;
    apply read_regular_hashed_inv in E1 as [Hf1 Hs]; [|simplify_eq; split; [congruence|done]].
  specialize (Hs _ eq_refl). unfold io_lift in H. simplify_eq. split; [congruence|].
  intros retained' (Hsub & Href)%collect_json_object_references_spec. split; [set_solver|].
  intros b' (c' & Hc' & Hb'). rewrite (content_at_fun _ _ _ _ Hc' Hc) in Hb'. simplify_eq.
  split; [set_solver|]. intros state document o Hstate. rewrite (content_at_files w) in Hs by done.
  rewrite (content_at_fun _ _ _ _ Hstate Hs). eauto.
Qed.

Lemma content_at_same w w' : files w' = files w →
  (∀ p c, content_at w' p c ↔ content_at w p c) ∧ (∀ id b, bundle_at w' id b ↔ bundle_at w id b).
Proof.
  intros Hf. assert (∀ p c, content_at w' p c ↔ content_at w p c) as Hc
    by (intros; by apply content_at_files).
  split; [done|]. intros id b. unfold bundle_at. by setoid_rewrite Hc.
Qed.

(** The identifiers [retain_objects] must keep for transaction [id]. *)
Definition needs (w : Fs) (id o : str) : Prop :=
  ∃ b, bundle_at w id b ∧
    (o ∈ bundle_objects b ∨
     ∃ state document, content_at w (object_path (supervisor_state b)) state ∧
       is_document state = true ∧ json_from_slice state = Some document ∧
       json_string document o ∧ digest_id o).

Lemma needs_same w w' id o : files w' = files w → needs w' id o → needs w id o.
Proof.
  intros [Hc Hb]%content_at_same. unfold needs. setoid_rewrite Hb. setoid_rewrite Hc. done.
Qed.

Lemma retain_objects_inv ts retained w r w' :
  retain_objects sha256 json_from_slice uuid_parse ts retained w = (r, w') →
  files w' = files w ∧ ∀ retained', r = Ok retained' → retained ⊆ retained' ∧
    ∀ id o, id ∈ ts → needs w id o → o ∈ retained'.
Proof.
  revert retained w; induction ts as [|t ts IH]; intros retained w; cbn [retain_objects]; intros H; io_inv.
  - split; [done|]. intros ? [= <-]. split; [done|]. intros ? ? []%elem_of_nil.
  - invert_with retain_transaction_objects_inv as [Hf0 Hr].
    invert_with IH as [Hf1 Hrest]. split; [congruence|]. intros retained' ->.
    destruct (Hrest _ eq_refl) as [Hsub Hall]. destruct (Hr _ eq_refl) as [Hsub0 Hone].
    split; [set_solver|]. intros id o [->|Hin]%elem_of_cons Hneeds.
    + apply Hsub. destruct Hneeds as (b & Hb & [Ho|(state & d & ? & ? & ? & ? & ?)]);
        destruct (Hone b Hb) as [Hbo Hst]; [by apply Hbo|eauto].
    + apply (Hall id o Hin). eapply needs_same; [|done]. by symmetry.
  - invert_with retain_transaction_objects_inv as [Hf0 _]. done.
Qed.

(** [retained_content] keeps everything reachable. *)
Lemma retained_content_inv w r w' :
  retained_content sha256 json_from_slice uuid_parse w = (r, w') →
  files w' = files w ∧ ∀ ts os, r = Ok (ts, os) →
    (∀ id, reachable_transaction w id → id ∈ ts) ∧ (∀ id, reachable_object w id → id ∈ os).
Proof.
  unfold retained_content. intros H. io_inv;
    repeat invert_with (read_optional_regular_json_inv _ _ _ _ _) as [? ?]; try done;
    [|invert_with retain_objects_inv as [? _]; split; [congruence|done]|split; [congruence|done]].
  invert_with retain_objects_inv as [Hf Hr]. split; [congruence|]. intros ts os [= <- <-].
  specialize (Hr _ eq_refl) as [_ Hr].
  repeat match goal with Hx : ∀ x, Ok _ = Ok x → _ |- _ => specialize (Hx _ eq_refl) end.
  match goal with Hx : view_at prepared_of_json _ _ = Some ?j |- _ =>
    rewrite (view_at_files _ _ w) in Hx by congruence; rename Hx into Hj; rename j into journal end.
  match goal with Hx : view_at manifest_of_json _ _ = Some ?m |- _ =>
    rename Hx into Hm; rename m into manifest end.
  match goal with Hx : context [bset_iter ?ts] |- _ => set (transactions := ts) in * end.
  assert (∀ id, reachable_transaction w id → id ∈ transactions) as Hts.
  { intros id Hid. unfold transactions, retain_option. destruct Hid; simplify_eq; 
      repeat case_match; simplify_eq; set_solver. }
  split; [done|]. intros id Hid.
  assert (∃ t, reachable_transaction w t ∧ needs w t id) as (t & Ht & Hneeds).
  { destruct Hid as [t b id|t b state document id]; exists t; (split; [done|]); exists b; eauto 10. }
  apply (Hr t id); [by apply elem_of_bset_iter, Hts|]. eapply needs_same; [|done]. congruence.
Qed.

(** A candidate for removal: a regular file with an unretained identifier. *)
Definition prunable (w : Fs) (ts os : gset str) (c : PruneCandidate) : Prop :=
  ∃ id content, files w !! candidate_path c = Some (Regular content) ∧ digest_id id ∧
    match candidate_kind c with
    | PruneObject => candidate_path c = (Objects, id) ∧ id ∉ os
    | PruneTransaction => candidate_path c = (Transactions, id) ∧ id ∉ ts
    end.

Lemma validate_digest_ok name : is_ok (validate_digest name) = true → digest_id name.
Proof. unfold validate_digest, digest_id. by destruct (is_lower_sha256_hex name). Qed.

Lemma scan_entries_inv d retained kind (P : PruneCandidate → Prop) names res cs w r w' :
  scan_entries d retained kind names res cs w = (r, w') →
  Forall P cs →
  (∀ id content, files w !! (d, id) = Some (Regular content) → digest_id id → id ∉ retained →
     P (MkPruneCandidate (d, id) kind)) →
  scanned_entries res ≤ PERSISTENCE_PRUNE_ENTRY_LIMIT → zlen cs ≤ PERSISTENCE_PRUNE_REMOVAL_LIMIT →
  files w' = files w ∧ ∀ res' cs', r = Ok (res', cs') →
    Forall P cs' ∧ scanned_entries res' ≤ PERSISTENCE_PRUNE_ENTRY_LIMIT ∧
    zlen cs' ≤ PERSISTENCE_PRUNE_REMOVAL_LIMIT ∧
    removed_objects res' = removed_objects res ∧ removed_transactions res' = removed_transactions res.
Proof.
  revert res cs w; induction names as [|name names IH]; intros res cs w H Hcs HP Hs Hl;
    cbn [scan_entries] in H; [io_inv; split; [done|]; by intros ? ? [= <- <-]|].
  destruct (Z.eqb_spec (scanned_entries res) PERSISTENCE_PRUNE_ENTRY_LIMIT);
    [io_inv; split; [done|]; by intros ? ? [= <- <-]|].
  unfold io_bind at 1 in H. destruct (fs_call w) as [[[]|] w0] eqn:E0; apply fs_call_inv in E0 as Hf0;
    [|by simplify_eq]. clear E0. rewrite <-Hf0 in HP.
  destruct (negb _ || _) eqn:Hname.
  { apply IH in H; simpl in *; [|done|done|lia|done]. rewrite <-Hf0. done. }
  apply orb_false_iff in Hname as [Hd%negb_false_iff%validate_digest_ok Hret%bool_decide_eq_false].
  unfold io_bind at 1 in H. destruct (symlink_is_file _ w0) as [[is_file|] w1] eqn:E1;
    apply symlink_is_file_inv in E1 as (Hf1 & Hreg & _); [|simplify_eq; split; [congruence|done]].
  rewrite <-Hf0, <-Hf1. rewrite <-Hf1 in HP, Hreg. destruct is_file; simpl in H.
  - destruct (Z.eqb_spec (zlen cs) PERSISTENCE_PRUNE_REMOVAL_LIMIT).
    { apply IH in H; simpl in *; [done|done|done|lia|done]. }
    destruct (Hreg eq_refl) as [content Hc].
    apply IH in H; simpl in *; [done| |done|lia|rewrite zlen_app; unfold zlen in *; simpl; lia].
    apply Forall_app. split; [done|]. apply Forall_singleton. eauto.
  - apply IH in H; simpl in *; [done|done|done|lia|done].
Qed.

(** Only the candidates that are still regular files go. *)
Lemma remove_candidates_inv cs res w r w' :
  remove_candidates cs res w = (r, w') →
  (∀ q, files w' !! q = files w !! q ∨
        files w' !! q = None ∧ ∃ c, c ∈ cs ∧ candidate_path c = q) ∧
  ∀ res', r = Ok res' →
    removed_objects res + removed_transactions res ≤ removed_objects res' + removed_transactions res' ∧
    removed_objects res' + removed_transactions res' ≤
      removed_objects res + removed_transactions res + zlen cs ∧
    scanned_entries res' = scanned_entries res.
Proof.
  revert res w r w'; induction cs as [|c cs IH]; intros res w r w' H; cbn [remove_candidates] in H.
  { io_inv. split; [by left|]. intros ? [= <-]. unfold zlen. simpl. lia. }
  assert (zlen (c :: cs) = 1 + zlen cs) as Hlen by (unfold zlen; simpl; lia).
  unfold io_bind at 1, io_try in H. destruct (symlink_is_file _ w) as [m w0] eqn:E0.
  apply symlink_is_file_inv in E0 as (Hf0 & _ & _).
  assert (∀ r w', remove_candidates cs res w0 = (r, w') →
    (∀ q, files w' !! q = files w !! q ∨ files w' !! q = None ∧ ∃ c', c' ∈ c :: cs ∧ candidate_path c' = q) ∧
    ∀ res', r = Ok res' →
      removed_objects res + removed_transactions res ≤ removed_objects res' + removed_transactions res' ∧
      removed_objects res' + removed_transactions res' ≤
        removed_objects res + removed_transactions res + zlen (c :: cs) ∧
      scanned_entries res' = scanned_entries res) as Hskip.
  { intros r1 w1 [Hq Hres]%IH. split.
    - intros q. rewrite <-Hf0. destruct (Hq q) as [|(? & c' & ? & ?)]; [by left|right; set_solver].
    - intros res' Hr. specialize (Hres _ Hr). lia. }
  destruct m as [[]|[]]; try (unfold io_err in H; simplify_eq; split; [left; by rewrite Hf0|done]); auto.
  unfold io_bind at 1 in H. destruct (remove_file _ w0) as [[[]|] w1] eqn:E1;
    apply remove_file_inv in E1 as [[[? ?] Hf1]|[? Hf1]]; try done;
    [|simplify_eq; split; [left; by rewrite Hf1, Hf0|done]].
  apply IH in H as [Hq Hres]. split.
  - intros q. destruct (Hq q) as [Heq|(? & c' & ? & ?)]; [|right; set_solver].
    rewrite Heq, Hf1, Hf0. destruct (decide (q = candidate_path c)) as [->|Hne].
    + right. rewrite lookup_delete_eq. set_solver.
    + left. by rewrite lookup_delete_ne.
  - intros res' Hr. specialize (Hres _ Hr). destruct (candidate_kind c); simpl in *; lia.
Qed.

(** Both scans yield only candidates that are not retained. *)
Lemma collect_prune_candidates_inv d retained kind (P : PruneCandidate → Prop) res cs w r w' :
  collect_prune_candidates dir_order d retained kind res cs w = (r, w') →
  Forall P cs →
  (∀ id content, files w !! (d, id) = Some (Regular content) → digest_id id → id ∉ retained →
     P (MkPruneCandidate (d, id) kind)) →
  scanned_entries res ≤ PERSISTENCE_PRUNE_ENTRY_LIMIT → zlen cs ≤ PERSISTENCE_PRUNE_REMOVAL_LIMIT →
  files w' = files w ∧ ∀ res' cs', r = Ok (res', cs') →
    Forall P cs' ∧ scanned_entries res' ≤ PERSISTENCE_PRUNE_ENTRY_LIMIT ∧
    zlen cs' ≤ PERSISTENCE_PRUNE_REMOVAL_LIMIT ∧
    removed_objects res' = removed_objects res ∧ removed_transactions res' = removed_transactions res.
Proof.
  unfold collect_prune_candidates. intros H Hcs HP Hs Hl.
  unfold io_bind at 1 in H. destruct (prim_read _ w) as [[names|] w0] eqn:E0;
    apply prim_read_inv in E0 as [Hf0 _]; [|by simplify_eq].
  rewrite <-Hf0 in HP |- *. by eapply scan_entries_inv.
Qed.

Lemma prunable_scan d kind ts os retained res cs w0 r w' w :
  collect_prune_candidates dir_order d retained kind res cs w0 = (r, w') → files w0 = files w →
  (kind = PruneObject ∧ d = Objects ∧ retained = os ∨
   kind = PruneTransaction ∧ d = Transactions ∧ retained = ts) →
  Forall (prunable w ts os) cs →
  scanned_entries res ≤ PERSISTENCE_PRUNE_ENTRY_LIMIT → zlen cs ≤ PERSISTENCE_PRUNE_REMOVAL_LIMIT →
  files w' = files w ∧ ∀ res' cs', r = Ok (res', cs') →
    Forall (prunable w ts os) cs' ∧ scanned_entries res' ≤ PERSISTENCE_PRUNE_ENTRY_LIMIT ∧
    zlen cs' ≤ PERSISTENCE_PRUNE_REMOVAL_LIMIT ∧
    removed_objects res' = removed_objects res ∧ removed_transactions res' = removed_transactions res.
Proof.
  intros H Hf Hkind Hcs Hs Hl. rewrite <-Hf.
  eapply collect_prune_candidates_inv; [exact H|exact Hcs| |exact Hs|exact Hl].
  intros id content Hfile Hid Hret. exists id, content. rewrite <-Hf. split; [exact Hfile|].
  split; [exact Hid|]. destruct Hkind as [(-> & -> & ->)|(-> & -> & ->)]; split; [done|exact Hret|done|exact Hret].
Qed.

Lemma sync_if_inv (b : bool) w r w' :
  (if b then sync_directory else io_ret tt) w = (r, w') → files w' = files w.
Proof. destruct b; [apply sync_directory_inv|]. unfold io_ret. by intros [= _ <-]. Qed.

Definition prune_post (r : result PersistencePruneResult IoError) (w w' : Fs) : Prop :=
  (∀ q, files w' !! q = files w !! q ∨
        files w' !! q = None ∧ ∃ id content, files w !! q = Some (Regular content) ∧ digest_id id ∧
          (q = object_path id ∧ ¬ reachable_object w id ∨
           q = transaction_path id ∧ ¬ reachable_transaction w id)) ∧
  ∀ res, r = Ok res →
    scanned_entries res ≤ PERSISTENCE_PRUNE_ENTRY_LIMIT ∧
    removed_objects res + removed_transactions res ≤ PERSISTENCE_PRUNE_REMOVAL_LIMIT.

Lemma prune_unreachable_inv w r w' :
  prune_unreachable sha256 json_from_slice uuid_parse dir_order w = (r, w') → prune_post r w w'.
Proof.
  unfold prune_unreachable. intros H.
  assert (∀ e w1, files w1 = files w → prune_post (Err e) w w1) as Hsame
    by (intros e w1 Hf; split; [left; by rewrite Hf|done]).
  unfold io_bind at 1 in H. destruct (retained_content _ _ _ w) as [[[ts os]|] w0] eqn:E0;
    apply retained_content_inv in E0 as [Hf0 Hret]; [|simplify_eq; auto].
  destruct (Hret _ _ eq_refl) as [Hts Hos]. clear Hret. cbn [fst snd] in H.
  unfold io_bind at 1 in H. destruct (collect_prune_candidates _ _ _ _ _ _ w0) as [[[res0 cs0]|] w1] eqn:E1;
    (destruct (prunable_scan _ _ ts os _ _ _ _ _ _ w E1 Hf0) as [Hf1 Hc1];
     [by left|by apply Forall_nil|done|done|]); [|simplify_eq; apply Hsame; congruence].
  destruct (Hc1 _ _ eq_refl) as (HP & Hs & Hl & Ho & Ht). clear Hc1. cbn [fst snd] in H.
  unfold io_bind at 1 in H. destruct (collect_prune_candidates _ _ _ _ _ _ w1) as [[[res1 cs1]|] w2] eqn:E2;
    (destruct (prunable_scan _ _ ts os _ _ _ _ _ _ w E2) as [Hf2 Hc2];
     [congruence|by right|done|done|done|]); [|simplify_eq; apply Hsame; congruence].
  destruct (Hc2 _ _ eq_refl) as (HP1 & Hs1 & Hl1 & Ho1 & Ht1). clear Hc2. cbn [fst snd] in H.
  assert (files w2 = files w) as Hf by congruence.
  assert (∀ q c, c ∈ cs1 → candidate_path c = q →
    ∃ id content, files w !! q = Some (Regular content) ∧ digest_id id ∧
      (q = object_path id ∧ ¬ reachable_object w id ∨
       q = transaction_path id ∧ ¬ reachable_transaction w id)) as Hgone.
  { intros q c Hin <-. rewrite Forall_forall in HP1. destruct (HP1 c Hin) as (id & content & ? & ? & Hk).
    exists id, content. split; [done|]. split; [done|].
    destruct (candidate_kind c), Hk as [-> Hn]; [left|right]; (split; [done|]); intros Hr; apply Hn; auto. }
  unfold io_bind at 1 in H. destruct (remove_candidates cs1 res1 w2) as [res2 w3] eqn:E3.
  apply remove_candidates_inv in E3 as [Hq Hcount]. rewrite Hf in Hq.
  assert (∀ r w', (∀ x, r = Ok x → res2 = Ok x) → files w' = files w3 → prune_post r w w') as Hend.
  { intros r1 w1' Hr Hfw. split; [intros q; rewrite Hfw; naive_solver|]. intros res ->.
    destruct (Hcount _ (Hr _ eq_refl)). simpl in *. lia. }
  destruct res2 as [res2|]; [|simplify_eq; by apply Hend].
  io_inv; repeat invert_with sync_if_inv as ?; (apply Hend; [by intros ? [= <-]|congruence]).
Qed.

(** ** Preparing and committing *)

Context (json_to_vec : Json → bytes) (uuid_to_string : Z → str) (process_id : str).

(** What is assumed of the hash and of [serde_json]. *)
Context (sha256_digest : ∀ c, byte_list (sha256 c) ∧ length (sha256 c) = 32%nat).
Context (json_round_trip : ∀ j, json_printable j = true → json_from_slice (json_to_vec j) = Some j).

Lemma sha256_hex_digest c : digest_id (sha256_hex sha256 c).
Proof. destruct (sha256_digest c). by apply encode_sha256_valid. Qed.

(** Temporary files are none of the named files. *)
Lemma temporary_ne_manifest p suffix : manifest_path ≠ temporary_path p suffix.
Proof. unfold temporary_path, manifest_path. by intros [=]. Qed.
Lemma temporary_ne_prepared p suffix : prepared_path ≠ temporary_path p suffix.
Proof. unfold temporary_path, prepared_path. by intros [=]. Qed.
Lemma temporary_ne_digest p suffix d id : digest_id id → (d, id) ≠ temporary_path p suffix.
Proof. intros Hid [= _ ->]. unfold digest_id, is_lower_sha256_hex in Hid. by apply andb_true_iff in Hid as [_ Hid]. Qed.
Lemma manifest_ne_prepared : manifest_path ≠ prepared_path.
Proof. unfold manifest_path, prepared_path. by intros [=]. Qed.

(** The files of a transaction under preparation. *)
Definition transaction_files (uuid id : str) : list path :=
  [transaction_path id; temporary_path (transaction_path id) uuid].
Definition journal_files : list path := [prepared_path; temporary_path prepared_path process_id].
Definition manifest_files : list path := [manifest_path; temporary_path manifest_path process_id].

Lemma unchanged_lookup ps w w' q : unchanged_but ps w w' → q ∉ ps → files w' !! q = files w !! q.
Proof. auto. Qed.

Lemma prepared_not_transaction uuid id : prepared_path ∉ transaction_files uuid id.
Proof.
  unfold transaction_files. rewrite !not_elem_of_cons. split; [by intros [=]|].
  split; [apply temporary_ne_prepared|apply not_elem_of_nil].
Qed.
Lemma manifest_not_transaction uuid id : manifest_path ∉ transaction_files uuid id.
Proof.
  unfold transaction_files. rewrite !not_elem_of_cons. split; [by intros [=]|].
  split; [apply temporary_ne_manifest|apply not_elem_of_nil].
Qed.
Lemma manifest_not_journal : manifest_path ∉ journal_files.
Proof.
  unfold journal_files. rewrite !not_elem_of_cons. split; [apply manifest_ne_prepared|].
  split; [apply temporary_ne_manifest|apply not_elem_of_nil].
Qed.
Lemma prepared_not_manifest : prepared_path ∉ manifest_files.
Proof.
  unfold manifest_files. rewrite !not_elem_of_cons. split; [apply not_eq_sym, manifest_ne_prepared|].
  split; [apply temporary_ne_prepared|apply not_elem_of_nil].
Qed.

Definition prepare_post (uuid : str) (b : TransactionBundle) (r : result PreparedTransaction IoError)
    (w w' : Fs) : Prop :=
  let content := json_to_vec (bundle_to_json uuid_to_string b) in
  let id := sha256_hex sha256 content in
  unchanged_but (transaction_files uuid id ++ journal_files) w w' ∧
  (files w' !! prepared_path = files w !! prepared_path ∨
   view_at prepared_of_json prepared_path w = Some None ∧
   ∃ p, view_at prepared_of_json prepared_path w' = Some (Some p)) ∧
  (∀ p, r = Ok p →
   view_at prepared_of_json prepared_path w = Some None ∧
   content_at w' (transaction_path id) content ∧
   view_at prepared_of_json prepared_path w' = Some (Some p) ∧
   ∃ m, view_at manifest_of_json manifest_path w = Some m ∧ p = MkPreparedTransaction id (current <$> m)).

(** Before the journal is written only files of the transaction changed. *)
Lemma prepare_post_early uuid b e w w' :
  unchanged_but (transaction_files uuid (sha256_hex sha256 (json_to_vec (bundle_to_json uuid_to_string b)))) w w' →
  prepare_post uuid b (Err e) w w'.
Proof.
  intros Hu. split; [intros q Hq; apply Hu; set_solver|]. split; [|done].
  left. eapply unchanged_lookup; [done|apply prepared_not_transaction].
Qed.

Lemma transaction_not_journal id : digest_id id → transaction_path id ∉ journal_files.
Proof.
  intros Hid. unfold journal_files. rewrite !not_elem_of_cons. split; [by intros [=]|].
  split; [by apply temporary_ne_digest|apply not_elem_of_nil].
Qed.

(** Writing the journal. *)
Lemma prepare_post_journal uuid b m w w2 r w' :
  let content := json_to_vec (bundle_to_json uuid_to_string b) in
  let id := sha256_hex sha256 content in
  let p := MkPreparedTransaction id (current <$> m) in
  unchanged_but (transaction_files uuid id) w w2 → content_at w2 (transaction_path id) content →
  view_at prepared_of_json prepared_path w = Some None →
  view_at manifest_of_json manifest_path w = Some m →
  replace_private_file process_id prepared_path (json_to_vec (prepared_to_json p)) w2 = (r, w') →
  prepare_post uuid b (guard? r in Ok p) w w'.
Proof.
  intros content id p Hu Hc Hj Hm (Hu' & Hp & Hok)%replace_private_file_inv.
  assert (∀ w1, content_at w1 prepared_path (json_to_vec (prepared_to_json p)) →
    view_at prepared_of_json prepared_path w1 = Some (Some p)) as Hview.
  { intros w1 Hw1. eapply view_at_content; [done|]. rewrite json_round_trip by (by destruct m). cbn [mbind option_bind].
    apply prepared_round_trip; [apply sha256_hex_digest|]. intros i Hi. simpl in Hi.
    apply fmap_Some in Hi as (m0 & -> & ->). by destruct (view_manifest_valid w m0 Hm). }
  split; [|split].
  - intros q Hq. apply not_elem_of_app in Hq as [Hq1 Hq2]. by rewrite Hu', Hu.
  - destruct Hp as [Hp|Hp].
    + left. rewrite Hp. eapply unchanged_lookup; [done|apply prepared_not_transaction].
    + right. eauto.
  - intros p' Hp'. destruct r as [[]|]; [|done]. injection Hp' as <-. split_and!; [done| |auto|eauto].
    destruct Hc as (e & He & Hec). exists e. split; [|done].
    rewrite (unchanged_lookup _ _ _ _ Hu'); [done|]. apply transaction_not_journal, sha256_hex_digest.
Qed.

Lemma prepare_inv uuid b w r w' :
  prepare sha256 json_to_vec json_from_slice uuid_to_string process_id uuid b w = (r, w') →
  prepare_post uuid b r w w'.
Proof.
  unfold prepare, read_prepared, read_manifest. intros H.
  assert (∀ e w1, files w1 = files w → prepare_post uuid b (Err e) w w1) as Hsame
    by (intros e w1 Hf; apply prepare_post_early; intros q _; by rewrite Hf).
  unfold io_bind at 1 in H. destruct (read_optional_json _ _ _ w) as [[j|] w0] eqn:E0;
    apply read_optional_json_inv in E0 as [Hf0 Hj]; [|simplify_eq; auto].
  specialize (Hj _ eq_refl). destruct j as [j|]; [unfold io_err in H; simplify_eq; auto|].
  unfold io_bind at 1 in H. destruct (verify_bundle_objects _ _ _) as [[[]|] w1] eqn:E1;
    apply verify_bundle_objects_inv in E1 as [Hf1 _]; [|simplify_eq; apply Hsame; congruence].
  unfold io_bind at 1 in H. destruct (put_immutable _ _ _ _) as [[[]|] w2] eqn:E2;
    apply put_immutable_inv in E2 as (Hu & _ & Hput);
    (assert (unchanged_but (transaction_files uuid (sha256_hex sha256
       (json_to_vec (bundle_to_json uuid_to_string b)))) w w2) as Hu2
      by (intros q Hq; by rewrite Hu, Hf1, Hf0)); [|simplify_eq; by apply prepare_post_early].
  unfold io_bind at 1 in H. destruct (read_optional_json _ _ _ w2) as [[m|] w3] eqn:E3;
    apply read_optional_json_inv in E3 as [Hf3 Hm];
    [|simplify_eq; apply prepare_post_early; intros q Hq; by rewrite Hf3, Hu2].
  specialize (Hm _ eq_refl). rewrite (view_at_files _ _ w) in Hm
    by (eapply unchanged_lookup; [done|apply manifest_not_transaction]).
  unfold io_bind at 1 in H. destruct (replace_private_file _ _ _ w3) as [res w4] eqn:E4.
  apply (prepare_post_journal uuid b m w) in E4; [|intros q Hq; by rewrite Hf3, Hu2| |done|done].
  - destruct res as [[]|]; unfold io_ret in H; by simplify_eq.
  - eapply content_at_files; [done|]. by apply Hput.
Qed.

Definition commit_post (p : PreparedTransaction) (r : result unit IoError) (w w' : Fs) : Prop :=
  let done := view_at prepared_of_json prepared_path w = Some (Some p) ∧
    (∃ m, view_at manifest_of_json manifest_path w = Some m ∧ current <$> m = prepared_previous p) ∧
    (∃ b c, content_at w (transaction_path (candidate p)) c ∧
       json_from_slice c ≫= bundle_of_json uuid_parse = Some b ∧
       ∀ id, id ∈ bundle_objects b → ∃ c, content_at w (object_path id) c ∧ sha256_hex sha256 c = id) ∧
    view_at manifest_of_json manifest_path w' = Some (Some (committed_by p)) in
  unchanged_but manifest_files w w' ∧
  match r with
  | Ok _ => done
  | Err _ => files w' !! manifest_path = files w !! manifest_path ∨ done
  end.

Lemma commit_prepared_inv p w r w' :
  commit_prepared sha256 json_to_vec json_from_slice uuid_parse process_id p w = (r, w') →
  commit_post p r w w'.
Proof.
  unfold commit_prepared, read_prepared, read_manifest. intros H.
  assert (∀ e w1, files w1 = files w → commit_post p (Err e) w w1) as Hsame
    by (intros e w1 Hf; split; [intros q _|left]; by rewrite Hf).
  unfold io_bind at 1 in H. destruct (read_optional_json _ _ _ w) as [[j|] w0] eqn:E0;
    apply read_optional_json_inv in E0 as [Hf0 Hj]; [|simplify_eq; auto].
  specialize (Hj _ eq_refl). case_bool_decide as Hjp; simpl in H; [|unfold io_err in H; simplify_eq; auto].
  unfold io_bind at 1 in H. destruct (read_optional_json _ _ _ w0) as [[m|] w1] eqn:E1;
    apply read_optional_json_inv in E1 as [Hf1 Hm]; [|simplify_eq; apply Hsame; congruence].
  specialize (Hm _ eq_refl). rewrite (view_at_files _ _ w) in Hm by (by rewrite Hf0).
  case_bool_decide as Hprev; simpl in H; [|unfold io_err in H; simplify_eq; apply Hsame; congruence].
  unfold io_bind at 1 in H. destruct (load_transaction _ _ _ _ _) as [[b|] w2] eqn:E2;
    apply load_transaction_inv in E2 as [Hf2 Hb]; [|simplify_eq; apply Hsame; congruence].
  destruct (Hb _ eq_refl) as (c & Hc & _ & Hdec).
  unfold io_bind at 1 in H. destruct (verify_bundle_objects _ _ _) as [[[]|] w3] eqn:E3;
    apply verify_bundle_objects_inv in E3 as [Hf3 Hobj]; [|simplify_eq; apply Hsame; congruence].
  assert (files w3 = files w) as Hf by congruence. clear Hsame. subst j.
  apply replace_private_file_inv in H as (Hu & Hman & Hok).
  assert (content_at w' manifest_path (json_to_vec (manifest_to_json (committed_by p))) →
    view_at manifest_of_json manifest_path w' = Some (Some (committed_by p))) as Hview.
  { intros Hat. eapply view_at_content; [done|]. rewrite json_round_trip by (by destruct p as [? []]). cbn [mbind option_bind].
    destruct (view_prepared_valid w p Hj). by apply manifest_round_trip. }
  assert (∃ b c, content_at w (transaction_path (candidate p)) c ∧
       json_from_slice c ≫= bundle_of_json uuid_parse = Some b ∧
       ∀ id, id ∈ bundle_objects b → ∃ c, content_at w (object_path id) c ∧ sha256_hex sha256 c = id) as Hbc.
  { exists b, c. split; [eapply content_at_files; [|done]; congruence|]. split; [done|].
    intros id Hid. destruct (Hobj eq_refl id Hid) as (c' & Hc' & ?). exists c'.
    split; [eapply content_at_files; [|done]; congruence|done]. }
  split; [intros q Hq; by rewrite Hu, Hf|].
  destruct r as [[]|e]; [specialize (Hok eq_refl); split_and!; eauto|].
  destruct Hman as [Hman|Hman]; [left; by rewrite Hman, Hf|right; split_and!; eauto].
Qed.

Lemma clear_prepared_inv p w r w' :
  clear_prepared json_from_slice p w = (r, w') →
  unchanged_but [prepared_path] w w' ∧
  let done := view_at prepared_of_json prepared_path w = Some (Some p) ∧ files w' !! prepared_path = None in
  match r with
  | Ok _ => done
  | Err _ => files w' !! prepared_path = files w !! prepared_path ∨ done
  end.
Proof.
  unfold clear_prepared, read_prepared. intros H. simpl.
  unfold io_bind at 1 in H. destruct (read_optional_json _ _ _ w) as [[j|] w0] eqn:E0;
    apply read_optional_json_inv in E0 as [Hf0 Hj];
    [|simplify_eq; split; [intros q _|left]; by rewrite Hf0].
  specialize (Hj _ eq_refl). case_bool_decide as Hjp; simpl in H;
    [|unfold io_err in H; simplify_eq; split; [intros q _|left]; by rewrite Hf0].
  subst j. unfold io_bind at 1 in H. destruct (remove_file prepared_path w0) as [[[]|] w1] eqn:E1;
    apply remove_file_inv in E1 as [[[? ?] Hf1]|[? Hf1]]; try done.
  - apply sync_directory_inv in H.
    assert (files w' !! prepared_path = None) as Hnone by (by rewrite H, Hf1, lookup_delete_eq).
    split; [|by destruct r; [|right]]. intros q Hq. rewrite H, Hf1, lookup_delete_ne by set_solver. by rewrite Hf0.
  - simplify_eq. split; [intros q _|left]; by rewrite Hf1, Hf0.
Qed.

(** Pruning removes no file of the root directory. *)
Lemma prune_root r w w' name : prune_post r w w' → files w' !! (Root, name) = files w !! (Root, name).
Proof. intros [Hq _]. destruct (Hq (Root, name)) as [|(_ & ? & ? & _ & _ & [[[=] _]|[[=] _]])]; done. Qed.

(** ** The store implements its contract *)

(** How each call of trait [TransactionStore] runs on [PersistenceStore];
    [fresh_uuid] is [Uuid::new_v4] in the state of the call. *)
Definition persistence_call (fresh_uuid : Fs → str) {A} (c : StoreCall A) (w : Fs) : A * Fs :=
  match c in StoreCall A return A * Fs with
  | SReadObjectLimited id limit => read_object_limited sha256 id limit w
  | SPrepare b => prepare sha256 json_to_vec json_from_slice uuid_to_string process_id (fresh_uuid w) b w
  | SRecover => recover json_from_slice w
  | SCommitPrepared p => commit_prepared sha256 json_to_vec json_from_slice uuid_parse process_id p w
  | SClearPrepared p => clear_prepared json_from_slice p w
  | SLoadTransaction id => load_transaction sha256 json_from_slice uuid_parse id w
  | SPruneUnreachable => prune_unreachable sha256 json_from_slice uuid_parse dir_order w
  end.

Lemma persistence_view_files w w' :
  files w' !! manifest_path = files w !! manifest_path →
  files w' !! prepared_path = files w !! prepared_path → persistence_view w' = persistence_view w.
Proof. intros Hm Hp. unfold persistence_view. by rewrite !(view_at_files _ _ w w'). Qed.

Lemma persistence_call_spec fresh_uuid A (c : StoreCall A) w :
  store_spec c (persistence_view w) (persistence_call fresh_uuid c w).1
    (persistence_view (persistence_call fresh_uuid c w).2).
Proof.
  destruct (persistence_call fresh_uuid c w) as [r w'] eqn:E. simpl.
  destruct c; simpl in E |- *.
  - apply read_object_limited_inv in E as [Hf _]. apply persistence_view_files; by rewrite Hf.
  - apply prepare_inv in E as (Hu & Hj & Hok). split.
    { apply view_at_files, Hu. apply not_elem_of_app.
      split; [apply manifest_not_transaction|apply manifest_not_journal]. }
    destruct r as [p|e].
    + destruct (Hok _ eq_refl) as (Hnone & _ & Hp & m & Hm & ->). eauto 10.
    + destruct Hj as [Hj|Hj]; [left; by apply view_at_files|by right].
  - apply recover_inv in E as [Hf Hr]. split; [apply persistence_view_files; by rewrite Hf|].
    destruct r; auto.
  - apply commit_prepared_inv in E as [Hu Hr]. split; [apply view_at_files, Hu, prepared_not_manifest|].
    destruct r as [[]|e]; [naive_solver|]. destruct Hr as [Hr|Hr]; [left; by apply view_at_files|naive_solver].
  - apply clear_prepared_inv in E as [Hu Hr].
    assert (files w' !! prepared_path = None → view_at prepared_of_json prepared_path w' = Some None) as Hnone
      by (intros Hn; unfold view_at; by rewrite Hn).
    split.
    { apply view_at_files, Hu. rewrite list_elem_of_singleton. apply manifest_ne_prepared. }
    destruct r as [[]|e]; [naive_solver|]. destruct Hr as [Hr|Hr]; [left; by apply view_at_files|naive_solver].
  - apply load_transaction_inv in E as [Hf _]. apply persistence_view_files; by rewrite Hf.
  - apply prune_unreachable_inv in E. apply persistence_view_files; by eapply prune_root.
Qed.

(** The instance the coordinator runs on. *)
Definition persistence_store (fresh_uuid : Fs → str) : TransactionStore Fs :=
  {| store_call := @persistence_call fresh_uuid;
     store_view := persistence_view;
     store_call_spec := persistence_call_spec fresh_uuid |}.

(** Writing an object: the file has the content or is as it was. *)
Lemma put_object_inv uuid content w r w' :
  put_object sha256 uuid content w = (r, w') →
  let id := sha256_hex sha256 content in
  unchanged_but [object_path id; temporary_path (object_path id) uuid] w w' ∧
  ∀ id', r = Ok id' → id' = id ∧ content_at w' (object_path id) content.
Proof.
  unfold put_object. intros H. io_inv; invert_with put_immutable_inv as (Hu & _ & Hc); (split; [done|]).
  - intros ? [= <-]. split; [done|]. apply Hc. by destruct x.
  - done.
Qed.

(** Without further faults reading an intact object succeeds. *)
Lemma read_object_limited_ok id limit content w :
  faults w = [] → content_at w (object_path id) content → sha256_hex sha256 content = id →
  zlen content ≤ limit → read_object_limited sha256 id limit w = (Ok content, w).
Proof.
  destruct w as [fs []]; [|done]. intros _ (e & He & Hc) Hid Hl. simpl in He.
  unfold read_object_limited, io_bind, fs_read, prim_read, io_bind, draw, io_get; simpl.
  rewrite He, Hc; simpl. destruct (Z.ltb_spec limit (zlen content)); [lia|]; simpl.
  by rewrite bool_decide_true.
Qed.

(** Reading a readable file succeeds when nothing fails. *)
Lemma read_optional_json_ok {A} (decode : Json → option A) p w x :
  faults w = [] → view_at decode p w = Some x →
  read_optional_json json_from_slice decode p w = (Ok x, w).
Proof.
  intros Hf. unfold view_at, read_optional_json, io_bind, io_try, fs_read, prim_read, draw, io_bind, io_get.
  rewrite Hf. simpl. destruct (files w !! p) as [e|]; [|by intros [= <-]].
  intros (c & Hc & H)%bind_Some. apply bind_Some in H as (v & Hv & [= <-]).
  rewrite Hc. simpl. unfold io_lift, deserialize. by rewrite Hv.
Qed.

Lemma load_transaction_ok id content b w :
  faults w = [] → content_at w (transaction_path id) content → sha256_hex sha256 content = id →
  json_from_slice content ≫= bundle_of_json uuid_parse = Some b →
  load_transaction sha256 json_from_slice uuid_parse id w = (Ok b, w).
Proof.
  intros Hf (e & He & Hc) Hid Hd.
  unfold load_transaction, read_hashed_file, io_bind, fs_read, prim_read, draw, io_bind, io_get.
  rewrite Hf. simpl. rewrite He, Hc. simpl. rewrite bool_decide_true by done.
  unfold io_ret, io_lift, deserialize. by rewrite Hd.
Qed.

Lemma recover_ok m j w :
  faults w = [] → view_at manifest_of_json manifest_path w = Some m →
  view_at prepared_of_json prepared_path w = Some j →
  recover json_from_slice w = (Ok (MkRecoveryState m j), w).
Proof.
  intros Hf Hm Hj. unfold recover, read_manifest, read_prepared. unfold io_bind at 1.
  rewrite (read_optional_json_ok _ _ _ _ Hf Hm). unfold io_bind.
  by rewrite (read_optional_json_ok _ _ _ _ Hf Hj).
Qed.

(** ** Properties *)

(** C8: The store meets the contract of trait TransactionStore for every call,
    in every state of the file system and under any I/O failures: a call that
    reports success has had its effect, a call that fails has had it either
    completely or not at all, and no other call touches the committed manifest
    or the journal. *)
Theorem persistence_refines_store fresh_uuid A (c : StoreCall A) w :
  store_spec c (persistence_view w) (persistence_call fresh_uuid c w).1
    (persistence_view (persistence_call fresh_uuid c w).2).
Proof. apply persistence_call_spec. Qed.

(** C28: commit_prepared is atomic: whatever fails, the manifest is the old one or
    the candidate's, nothing but the manifest and its temporary file changes, and
    the candidate's manifest appears only when the journal is the given one, its
    previous transaction is the committed one, and the bundle and its four
    objects are stored with the content their identifiers name. *)
Theorem commit_prepared_atomic p w r w' :
  commit_prepared sha256 json_to_vec json_from_slice uuid_parse process_id p w = (r, w') →
  unchanged_but manifest_files w w' ∧
  let done := view_at prepared_of_json prepared_path w = Some (Some p) ∧
    (∃ m, view_at manifest_of_json manifest_path w = Some m ∧ current <$> m = prepared_previous p) ∧
    (∃ b c, content_at w (transaction_path (candidate p)) c ∧
       json_from_slice c ≫= bundle_of_json uuid_parse = Some b ∧
       ∀ id, id ∈ bundle_objects b → ∃ c, content_at w (object_path id) c ∧ sha256_hex sha256 c = id) ∧
    view_at manifest_of_json manifest_path w' = Some (Some (MkCommittedManifest (candidate p) (prepared_previous p))) in
  match r with
  | Ok _ => done
  | Err _ => files w' !! manifest_path = files w !! manifest_path ∨ done
  end.
Proof. apply commit_prepared_inv. Qed.

(** C27: Pruning removes only regular files whose name is an identifier that is
    not reachable: no transaction the manifest or the journal names, none of the
    objects of their bundles, and no identifier inside their supervisor states;
    whatever fails on the way.  One pass scans and removes at most the limits. *)
Theorem prune_keeps_reachable w r w' :
  prune_unreachable sha256 json_from_slice uuid_parse dir_order w = (r, w') →
  (∀ id, reachable_transaction w id → files w' !! transaction_path id = files w !! transaction_path id) ∧
  (∀ id, reachable_object w id → files w' !! object_path id = files w !! object_path id) ∧
  (∀ name, files w' !! (Root, name) = files w !! (Root, name)) ∧
  (∀ q, files w' !! q = files w !! q ∨
        files w' !! q = None ∧ ∃ content, files w !! q = Some (Regular content)) ∧
  (∀ res, r = Ok res →
    scanned_entries res ≤ PERSISTENCE_PRUNE_ENTRY_LIMIT ∧
    removed_objects res + removed_transactions res ≤ PERSISTENCE_PRUNE_REMOVAL_LIMIT).
Proof.
  intros Hpost%prune_unreachable_inv. destruct (Hpost) as [Hq Hb]. split_and!; [| | | |done].
  - intros id Hid. destruct (Hq (transaction_path id)) as [|(_ & ? & ? & _ & _ & [[[=] _]|[[= ->] []]])]; done.
  - intros id Hid. destruct (Hq (object_path id)) as [|(_ & ? & ? & _ & _ & [[[= ->] []]|[[=] _]])]; done.
  - intros name. by eapply prune_root.
  - intros q. destruct (Hq q) as [|(? & ? & content & ? & _)]; [by left|right]. split; [done|]. by exists content.
Qed.

(** Objects are content addressed: an object that was stored is read back
    under the identifier put_object answered, by any bounded read that admits its
    length; storing it changes no other file but its temporary one. *)
Theorem put_read_object uuid content id limit w w' :
  put_object sha256 uuid content w = (Ok id, w') → faults w' = [] → zlen content ≤ limit →
  id = sha256_hex sha256 content ∧ digest_id id ∧
  read_object_limited sha256 id limit w' = (Ok content, w') ∧
  unchanged_but [object_path id; temporary_path (object_path id) uuid] w w'.
Proof.
  intros [Hu Hok]%put_object_inv Hf Hl. destruct (Hok _ eq_refl) as [-> Hc].
  split_and!; [done|apply sha256_hex_digest| |done]. by apply read_object_limited_ok.
Qed.

Lemma bundle_round_trip b :
  (∀ id, id ∈ bundle_objects b → digest_id id) →
  in_u64 (profile_revision b) → in_u64 (local_rule_set_revision b) → in_u64 (runtime_generation b) →
  uuid_parse (uuid_to_string (active_profile_id b)) = Some (active_profile_id b) →
  bundle_of_json uuid_parse (bundle_to_json uuid_to_string b) = Some b.
Proof.
  intros Hids Hp Hr Hg Hu. destruct b as [s1 s2 s3 s4 n1 n2 i n3].
  assert (∀ n, in_u64 n → json_uint u64_max (JNumber n) = Some n) as Huint.
  { intros n [? ?]. simpl. destruct (Z.leb_spec 0 n), (Z.leb_spec n u64_max); [done|lia..]. }
  unfold bundle_objects in Hids. simpl in *.
  unfold bundle_of_json, bundle_to_json, json_required, json_field; simpl.
  rewrite !json_digest_string by (apply Hids; set_solver). simpl in Huint. rewrite !Huint by done. simpl.
  by rewrite Hu.
Qed.

Lemma bundle_printable b :
  in_u64 (profile_revision b) → in_u64 (local_rule_set_revision b) → in_u64 (runtime_generation b) →
  json_printable (bundle_to_json uuid_to_string b) = true.
Proof. intros. simpl. unfold in_u64 in *. repeat (apply andb_true_iff; split); try done; lia. Qed.

(** A prepared transaction loads back: after prepare succeeded, reading the
    candidate of the journal returns the bundle that was prepared, so recovery
    works with the data the transaction was built from. *)
Theorem prepare_load uuid b p w w' :
  (∀ id, id ∈ bundle_objects b → digest_id id) →
  in_u64 (profile_revision b) → in_u64 (local_rule_set_revision b) → in_u64 (runtime_generation b) →
  uuid_parse (uuid_to_string (active_profile_id b)) = Some (active_profile_id b) →
  prepare sha256 json_to_vec json_from_slice uuid_to_string process_id uuid b w = (Ok p, w') →
  faults w' = [] →
  load_transaction sha256 json_from_slice uuid_parse (candidate p) w' = (Ok b, w') ∧
  recover json_from_slice w' =
    (Ok (MkRecoveryState (default None (view_at manifest_of_json manifest_path w)) (Some p)), w').
Proof.
  intros Hids Hp Hr Hg Hu H Hf. pose proof H as H0. apply prepare_inv in H as (Hun & _ & Hok).
  destruct (Hok _ eq_refl) as (_ & Hc & Hj & m & Hm & ->). clear Hok.
  assert (files w' !! manifest_path = files w !! manifest_path) as Hman.
  { apply Hun. apply not_elem_of_app. split; [apply manifest_not_transaction|apply manifest_not_journal]. }
  pose proof (bundle_printable b Hp Hr Hg) as Hprint.
  split.
  - eapply load_transaction_ok; [done|done|done|]. rewrite json_round_trip by done. cbn [mbind option_bind].
    by rewrite bundle_round_trip.
  - rewrite Hm. simpl. apply recover_ok; [done| |done]. by rewrite (view_at_files _ _ w w').
Qed.

End laws.

(** ** A concrete instance

    A reader and printer of documents, so that the laws assumed of [serde_json]
    are seen to hold of something: the bits of stdpp's encoding of trees. *)

Fixpoint json_tree (j : Json) : gen_tree (bool + Z + str) :=
  match j with
  | JNull => GenNode 0 []
  | JBool b => GenLeaf (inl (inl b))
  | JNumber n => GenLeaf (inl (inr n))
  | JFloat s => GenNode 4 [GenLeaf (inr s)]
  | JString s => GenLeaf (inr s)
  | JArray vs => GenNode 1 (json_tree <$> vs)
  | JObject fs => GenNode 2 ((λ f, GenNode 3 [GenLeaf (inr f.1); json_tree f.2]) <$> fs)
  end.

Fixpoint tree_json (t : gen_tree (bool + Z + str)) : Json :=
  match t with
  | GenNode 1 ts => JArray (tree_json <$> ts)
  | GenNode 2 ts => JObject ((λ t, match t with
                                   | GenNode 3 [GenLeaf (inr k); v] => (k, tree_json v)
                                   | _ => ([], JNull)
                                   end) <$> ts)
  | GenNode 4 [GenLeaf (inr s)] => JFloat s
  | GenLeaf (inl (inl b)) => JBool b
  | GenLeaf (inl (inr n)) => JNumber n
  | GenLeaf (inr s) => JString s
  | _ => JNull
  end.

Lemma tree_json_tree j : tree_json (json_tree j) = j.
Proof.
  remember (json_size j) as n eqn:Hn. revert j Hn.
  induction n as [n IH] using lt_wf_ind. intros j ->. destruct j as [| | | | |vs|fs]; simpl; try done; f_equal.
  - simpl in IH. induction vs as [|v vs IHvs]; csimpl; [done|]. simpl in IH. f_equal.
    + eapply IH; [|done]. lia.
    + apply IHvs. intros m Hm. apply IH. lia.
  - simpl in IH. induction fs as [|[k v] fs IHfs]; csimpl; [done|]. simpl in IH. f_equal.
    + f_equal. eapply IH; [|done]. lia.
    + apply IHfs. intros m Hm. apply IH. lia.
Qed.

(** Numbers in base 256, least digit first. *)
Fixpoint digits_from (fuel : nat) (n : N) : bytes :=
  match fuel with
  | O => []
  | S fuel' => if (n =? 0)%N then [] else N.land n 255 :: digits_from fuel' (N.shiftr n 8)
  end.
Definition digits (n : N) : bytes := digits_from (N.to_nat (N.size n)) n.
Definition of_digits (bs : bytes) : N := foldr (λ b n, b + 256 * n)%N 0%N bs.

Lemma of_digits_from fuel n : (n < 2 ^ N.of_nat fuel)%N → of_digits (digits_from fuel n) = n.
Proof.
  revert n; induction fuel as [|fuel IH]; intros n Hn; simpl; [simpl in Hn; lia|].
  destruct (N.eqb_spec n 0) as [->|Hn0]; [done|]. cbn [of_digits foldr]. unfold of_digits in IH.
  change 255%N with (N.ones 8). rewrite N.land_ones, N.shiftr_div_pow2. change (2 ^ 8)%N with 256%N. rewrite IH.
  - pose proof (N.div_mod n 256 ltac:(done)). lia.
  - apply N.Div0.div_lt_upper_bound. rewrite Nat2N.inj_succ, N.pow_succ_r' in Hn. lia.
Qed.

Lemma of_digits_digits n : of_digits (digits n) = n.
Proof. apply of_digits_from. rewrite N2Nat.id. apply N.size_gt. Qed.

Definition sample_json_to_vec (j : Json) : bytes := digits (Npos (encode (json_tree j))).
Definition sample_json_from_slice (bs : bytes) : option Json :=
  match of_digits bs with
  | N0 => None
  | Npos p => tree_json <$> decode p
  end.

Lemma sample_json_round_trip j :
  json_printable j = true → sample_json_from_slice (sample_json_to_vec j) = Some j.
Proof.
  intros _. unfold sample_json_from_slice, sample_json_to_vec.
  rewrite of_digits_digits, decode_encode. simpl. by rewrite tree_json_tree.
Qed.

Definition sample_uuid_to_string (u : Z) : str := digits (Z.to_N u).
Definition sample_uuid_parse (s : str) : option Z := Some (Z.of_N (of_digits s)).

(** A store with one object, which all four references of the bundle name. *)
Definition sample_object : str := sha256_hex sample_sha256 [7]%N.
Definition sample_bundle : TransactionBundle :=
  MkTransactionBundle sample_object sample_object sample_object sample_object 3 4 5 6.
Definition sample_fs : Fs := (put_object sample_sha256 (lit "u") [7]%N (MkFs ∅ [])).2.

Definition sample_prepare : result PreparedTransaction IoError * Fs :=
  prepare sample_sha256 sample_json_to_vec sample_json_from_slice sample_uuid_to_string (lit "42")
    (lit "v") sample_bundle sample_fs.

Definition sample_prepared : PreparedTransaction :=
  default (MkPreparedTransaction [] None) (result_ok sample_prepare.1).

Definition sample_commit : result unit IoError * Fs :=
  commit_prepared sample_sha256 sample_json_to_vec sample_json_from_slice sample_uuid_parse (lit "42")
    sample_prepared sample_prepare.2.

Lemma sample_commit_ok : sample_commit.1 = Ok tt.
Proof. by vm_compute. Qed.

Lemma run_eq {A} (run : result A IoError * Fs) r : run.1 = r → run = (r, run.2).
Proof. intros <-. by destruct run. Qed.

Lemma persistence_refines_store_witness :
  v_committed (persistence_view sample_json_from_slice sample_commit.2) =
    Some (Some (committed_by sample_prepared)).
Proof.
  pose proof (persistence_refines_store sample_sha256 sample_json_from_slice sample_uuid_parse
    (λ names, names) sample_json_to_vec sample_uuid_to_string (lit "42") sample_sha256_digest
    sample_json_round_trip (λ _, lit "v") _ (SCommitPrepared sample_prepared) sample_prepare.2) as [_ H].
  change (persistence_call _ _ _ _ _ _ _ _ _ _) with sample_commit in H.
  rewrite sample_commit_ok in H. exact (proj2 (proj2 H)).
Defined.

Lemma commit_prepared_atomic_witness :
  view_at sample_json_from_slice manifest_of_json manifest_path sample_commit.2 =
    Some (Some (MkCommittedManifest (candidate sample_prepared) (prepared_previous sample_prepared))).
Proof.
  destruct (commit_prepared_atomic sample_sha256 sample_json_from_slice
    sample_uuid_parse sample_json_to_vec (lit "42") sample_json_round_trip sample_prepared sample_prepare.2
    (Ok tt) sample_commit.2) as [_ (_ & _ & _ & H)]; [|exact H].
  exact (run_eq sample_commit (Ok tt) sample_commit_ok).
Defined.

(** An object nobody names, stored beside the committed transaction. *)
Definition sample_garbage : Fs := (put_object sample_sha256 (lit "u") [9]%N sample_commit.2).2.
Definition sample_prune : result PersistencePruneResult IoError * Fs :=
  prune_unreachable sample_sha256 sample_json_from_slice sample_uuid_parse (λ names, names) sample_garbage.

Lemma prune_keeps_reachable_witness :
  files sample_prune.2 !! transaction_path (candidate sample_prepared) =
    files sample_garbage !! transaction_path (candidate sample_prepared) ∧
  sample_prune.1 = Ok (MkPruneResult 3 1 0 false).
Proof.
  split; [|by vm_compute].
  destruct (prune_keeps_reachable sample_sha256 sample_json_from_slice sample_uuid_parse (λ names, names)
    sample_garbage sample_prune.1 sample_prune.2 (run_eq sample_prune sample_prune.1 eq_refl)) as [H _].
  apply H. apply (reachable_current _ _ (MkCommittedManifest (candidate sample_prepared) None)).
  by vm_compute.
Defined.

Lemma put_read_object_witness :
  read_object_limited sample_sha256 sample_object 1 sample_fs = (Ok [7]%N, sample_fs).
Proof.
  destruct (put_read_object sample_sha256 sample_sha256_digest (lit "u") [7]%N sample_object 1
    (MkFs ∅ []) sample_fs) as (_ & _ & H & _); [| | |exact H].
  - by apply run_eq.
  - by vm_compute.
  - by vm_compute.
Defined.

Lemma prepare_load_witness :
  load_transaction sample_sha256 sample_json_from_slice sample_uuid_parse (candidate sample_prepared)
    sample_prepare.2 = (Ok sample_bundle, sample_prepare.2).
Proof.
  destruct (prepare_load sample_sha256 sample_json_from_slice sample_uuid_parse sample_json_to_vec
    sample_uuid_to_string (lit "42") sample_sha256_digest sample_json_round_trip (lit "v") sample_bundle
    sample_prepared sample_fs sample_prepare.2) as [H _]; [| | | | | | |exact H].
  - intros id Hid. assert (id = sample_object) as -> by (unfold bundle_objects in Hid; simpl in Hid; set_solver).
    by vm_compute.
  - by vm_compute.
  - by vm_compute.
  - by vm_compute.
  - by vm_compute.
  - apply (run_eq sample_prepare). by vm_compute.
  - by vm_compute.
Defined.
