(* ===== verification/State.v ===== *)
(** * State: the supervisor state document (src/state.rs)

    [stage_candidate] writes a candidate state to the object store: the rule
    document, the configuration, one snapshot per profile, and a JSON document
    that names them.  [load_committed] reads the state of the committed
    transaction back and checks it.  Both run in the store's I/O, with the
    errors of the state store.

    Parameters, besides those of [Persistence]: URL parsing and printing, the
    YAML reader of profiles, the YAML reader and printer of rule documents, and
    [fresh_uuid], the UUIDs that [put_object] draws. *)

From S2P Require Import Prelude Text Ordered Constants Path Yaml Json Domain Rule Profile Filesystem Journal Persistence.
Local Open Scope Z_scope.

Definition STATE_SCHEMA_VERSION : Z := 1.
Definition REFRESH_ERROR_MAX_BYTES : Z := 1024.

(** ** Errors *)

Inductive StateStoreErrorKind := Io | StateTooLarge | InvalidState.

Record StateStoreError := MkStateStoreError {
  sse_kind : StateStoreErrorKind;
  sse_source : option IoError;
}.

Definition state_io (source : IoError) : StateStoreError := MkStateStoreError Io (Some source).
Definition state_invalid : StateStoreError := MkStateStoreError InvalidState None.
Definition state_too_large : StateStoreError := MkStateStoreError StateTooLarge None.

Definition StateStoreError_display (e : StateStoreError) : str :=
  match sse_kind e with
  | Io => lit "authoritative state storage failed"
  | StateTooLarge => lit "authoritative state exceeds its size limit"
  | InvalidState => lit "authoritative state is invalid"
  end.

(** ** I/O with the errors of the state store *)

Definition st (A : Type) : Type := Fs → result A StateStoreError * Fs.

Definition st_ret {A} (x : A) : st A := λ w, (Ok x, w).
Definition st_err {A} (e : StateStoreError) : st A := λ w, (Err e, w).
Definition st_bind {A B} (m : st A) (k : A → st B) : st B := λ w,
  match m w with
  | (Ok x, w) => k x w
  | (Err e, w) => (Err e, w)
  end.
(** [map_err(StateStoreError::io)] *)
Definition st_io {A} (m : io A) : st A := λ w, let '(r, w) := m w in (map_err state_io r, w).
Definition st_lift {A} (r : result A StateStoreError) : st A := λ w, (r, w).
(** [map_err(|_| StateStoreError::invalid())] *)
Definition or_invalid {A E} (r : result A E) : result A StateStoreError :=
  map_err (λ _, state_invalid) r.

Notation "'let^' x ':=' m 'in' k" := (st_bind m (λ x, k))
  (at level 10, x name, m at level 100, k at level 200,
   format "'[v' 'let^'  x  ':='  m  'in' '/' k ']'") : rust_scope.
Notation "'do^' m 'in' k" := (st_bind m (λ _, k))
  (at level 10, m at level 100, k at level 200) : rust_scope.

(** ** Data *)

Record AuthoritativeState := MkAuthoritativeState {
  as_profiles : ProfileCatalog;
  as_local_rules : LocalRuleSet;
  as_effective_configuration : bytes;
  as_runtime_generation : Z;
}.

Record HydratedState := MkHydratedState {
  hs_profiles : ProfileCatalog;
  hs_local_rules : LocalRuleSet;
  hs_effective_configuration : bytes;
  hs_runtime_generation : Z;
}.

Record PersistedRefreshFailure := MkPersistedRefreshFailure {
  prf_stage : str;
  prf_safe_message : str;
}.

Record PersistedSelection := MkPersistedSelection {
  psel_group : str;
  psel_node_id : str;
}.

Record PersistedProfile := MkPersistedProfile {
  pp_id : str;
  pp_name : str;
  pp_subscription_url : str;
  pp_snapshot : str;
  pp_revision : Z;
  pp_last_success_at : Z;
  pp_last_error : option PersistedRefreshFailure;
  pp_next_refresh_at : Z;
  pp_selections : list PersistedSelection;
}.

Record PersistedSupervisorState := MkPersistedSupervisorState {
  ps_schema_version : Z;
  ps_active_profile_id : str;
  ps_active_revision : Z;
  ps_local_rule_set : str;
  ps_local_rule_set_revision : Z;
  ps_effective_configuration : str;
  ps_runtime_generation : Z;
  ps_profiles : list PersistedProfile;
}.

(** ** Encodings: what [derive(Serialize, Deserialize)] generates *)

Definition failure_fields : list str := [lit "stage"; lit "safe_message"].
Definition failure_to_json (f : PersistedRefreshFailure) : Json :=
  JObject [(lit "stage", JString (prf_stage f)); (lit "safe_message", JString (prf_safe_message f))].
Definition failure_of_json (j : Json) : option PersistedRefreshFailure :=
  fields ← json_strict_struct failure_fields j;
  stage ← json_required fields (lit "stage") json_str;
  safe_message ← json_required fields (lit "safe_message") json_str;
  Some (MkPersistedRefreshFailure stage safe_message).

Definition selection_fields : list str := [lit "group"; lit "node_id"].
Definition selection_to_json (s : PersistedSelection) : Json :=
  JObject [(lit "group", JString (psel_group s)); (lit "node_id", JString (psel_node_id s))].
Definition selection_of_json (j : Json) : option PersistedSelection :=
  fields ← json_strict_struct selection_fields j;
  group ← json_required fields (lit "group") json_str;
  node_id ← json_required fields (lit "node_id") json_str;
  Some (MkPersistedSelection group node_id).

Definition profile_fields : list str :=
  [lit "id"; lit "name"; lit "subscription_url"; lit "snapshot"; lit "revision";
   lit "last_success_at_unix_ms"; lit "last_error"; lit "next_refresh_at_unix_ms"; lit "selections"].
Definition profile_to_json (p : PersistedProfile) : Json :=
  JObject [(lit "id", JString (pp_id p));
           (lit "name", JString (pp_name p));
           (lit "subscription_url", JString (pp_subscription_url p));
           (lit "snapshot", JString (pp_snapshot p));
           (lit "revision", JNumber (pp_revision p));
           (lit "last_success_at_unix_ms", JNumber (pp_last_success_at p));
           (lit "last_error", json_option failure_to_json (pp_last_error p));
           (lit "next_refresh_at_unix_ms", JNumber (pp_next_refresh_at p));
           (lit "selections", JArray (selection_to_json <$> pp_selections p))].
Definition profile_of_json (j : Json) : option PersistedProfile :=
  fields ← json_strict_struct profile_fields j;
  id ← json_required fields (lit "id") json_str;
  name ← json_required fields (lit "name") json_str;
  url ← json_required fields (lit "subscription_url") json_str;
  snapshot ← json_required fields (lit "snapshot") json_digest;
  revision ← json_required fields (lit "revision") (json_uint u64_max);
  last_success ← json_required fields (lit "last_success_at_unix_ms") (json_uint u64_max);
  last_error ← json_optional fields (lit "last_error") failure_of_json;
  next_refresh ← json_required fields (lit "next_refresh_at_unix_ms") (json_uint u64_max);
  selections ← json_required fields (lit "selections") (json_vec selection_of_json);
  Some (MkPersistedProfile id name url snapshot revision last_success last_error next_refresh
          selections).

Definition state_fields : list str :=
  [lit "schema_version"; lit "active_profile_id"; lit "active_revision"; lit "local_rule_set";
   lit "local_rule_set_revision"; lit "effective_configuration"; lit "runtime_generation";
   lit "profiles"].
Definition state_to_json (s : PersistedSupervisorState) : Json :=
  JObject [(lit "schema_version", JNumber (ps_schema_version s));
           (lit "active_profile_id", JString (ps_active_profile_id s));
           (lit "active_revision", JNumber (ps_active_revision s));
           (lit "local_rule_set", JString (ps_local_rule_set s));
           (lit "local_rule_set_revision", JNumber (ps_local_rule_set_revision s));
           (lit "effective_configuration", JString (ps_effective_configuration s));
           (lit "runtime_generation", JNumber (ps_runtime_generation s));
           (lit "profiles", JArray (profile_to_json <$> ps_profiles s))].
Definition state_of_json (j : Json) : option PersistedSupervisorState :=
  fields ← json_strict_struct state_fields j;
  schema_version ← json_required fields (lit "schema_version") (json_uint 65535);
  active_profile_id ← json_required fields (lit "active_profile_id") json_str;
  active_revision ← json_required fields (lit "active_revision") (json_uint u64_max);
  rules ← json_required fields (lit "local_rule_set") json_digest;
  rules_revision ← json_required fields (lit "local_rule_set_revision") (json_uint u64_max);
  configuration ← json_required fields (lit "effective_configuration") json_digest;
  generation ← json_required fields (lit "runtime_generation") (json_uint u64_max);
  profiles ← json_required fields (lit "profiles") (json_vec profile_of_json);
  Some (MkPersistedSupervisorState schema_version active_profile_id active_revision rules
          rules_revision configuration generation profiles).

(** ** Checks *)

Definition refresh_stage_name (stage : RefreshStage) : str :=
  match stage with
  | Download => lit "download"
  | Parse => lit "parse"
  | Validate => lit "validate"
  | Apply => lit "apply"
  end.

Definition parse_refresh_stage (value : str) : result RefreshStage StateStoreError :=
  if bool_decide (value = lit "download") then Ok Download
  else if bool_decide (value = lit "parse") then Ok Parse
  else if bool_decide (value = lit "validate") then Ok Validate
  else if bool_decide (value = lit "apply") then Ok Apply
  else Err state_invalid.

(** The condition on messages that [validate_profile] and [hydrate] share. *)
Definition unsafe_message (message : str) : bool :=
  (REFRESH_ERROR_MAX_BYTES <? str_len message) || existsb is_control message.

Definition failure_hydrate (f : PersistedRefreshFailure) : result RefreshFailure StateStoreError :=
  if unsafe_message (prf_safe_message f) then Err state_invalid
  else
    let? stage := parse_refresh_stage (prf_stage f) in
    Ok (MkRefreshFailure stage (prf_safe_message f)).

Definition failure_from (f : RefreshFailure) : PersistedRefreshFailure :=
  MkPersistedRefreshFailure (refresh_stage_name (rf_stage f)) (rf_safe_message f).

Definition check_name (name : str) : result unit StateStoreError :=
  if validate_name name then Ok tt else Err state_invalid.

Definition validate_candidate (c : AuthoritativeState) : result unit StateStoreError :=
  if bool_decide (cat_profiles (as_profiles c) = ∅)
     || (PROFILE_COUNT_MAX <? zsize (cat_profiles (as_profiles c)))
     || bool_decide (cat_active_profile_id (as_profiles c) = None)
     || (cat_active_revision (as_profiles c) =? 0)
     || negb (is_initialized (as_local_rules c))
     || (revision (as_local_rules c) =? 0)
     || (as_runtime_generation c =? 0)
  then Err state_invalid
  else Ok tt.

Definition validate_profile (p : Profile) : result unit StateStoreError :=
  guard? check_name (p_name p) in
  if (p_revision p =? 0)
     || (MAX_ACTIVE_NODES <? zsize (p_selections p))
     || match p_last_error p with
        | Some error => unsafe_message (rf_safe_message error)
        | None => false
        end
  then Err state_invalid
  else Ok tt.

Section store.
Context (sha256 : bytes → bytes).
Context (json_to_vec : Json → bytes) (json_from_slice : bytes → option Json).
Context (uuid_to_string : Z → str) (uuid_parse : str → option Z).
Context (url_parse : str → option Url) (url_as_str : Url → str).
Context (yaml_from_slice : bytes → option Value).
Context (rules_from_str : str → result (list str) str) (rules_to_string : list str → result str str).
Context (fresh_uuid : Fs → str).

Definition validate_state_header (s : PersistedSupervisorState) (b : TransactionBundle)
  : result unit StateStoreError :=
  if negb (ps_schema_version s =? STATE_SCHEMA_VERSION)
     || bool_decide (ps_profiles s = [])
     || (PROFILE_COUNT_MAX <? zlen (ps_profiles s))
     || negb (bool_decide (ps_active_profile_id s = uuid_to_string (active_profile_id b)))
     || negb (bool_decide (ps_local_rule_set s = local_rule_set b))
     || negb (ps_local_rule_set_revision s =? local_rule_set_revision b)
     || negb (bool_decide (ps_effective_configuration s = effective_configuration b))
     || negb (ps_runtime_generation s =? runtime_generation b)
     || (ps_runtime_generation s =? 0)
  then Err state_invalid
  else Ok tt.

(** [AuthoritativeStateStore::open] *)
Definition state_open : st unit := st_io open_store.

(** ** Staging *)

Definition from_profile (p : Profile) (snapshot : str) : PersistedProfile :=
  MkPersistedProfile (uuid_to_string (p_id p)) (p_name p) (url_as_str (p_subscription_url p))
    snapshot (p_revision p) (p_last_success_at p) (failure_from <$> p_last_error p)
    (p_next_refresh_at p)
    ((λ s : str * str, MkPersistedSelection s.1 s.2) <$> btree_iter (p_selections p)).

(** [self.persistence.put_object(content).map_err(StateStoreError::io)] *)
Definition st_put (content : bytes) : st str :=
  λ w, st_io (put_object sha256 (fresh_uuid w) content) w.

(** The variables of the loop over the profiles. *)
Record StagedProfiles := MkStagedProfiles {
  sp_records : list PersistedProfile;
  sp_active_snapshot : option str;
  sp_active_revision : option Z;
}.

Fixpoint stage_profiles (active : Z) (profiles : list Profile) (s : StagedProfiles)
  : st StagedProfiles :=
  match profiles with
  | [] => st_ret s
  | profile :: profiles' =>
      do^ st_lift (validate_profile profile) in
      let^ snapshot := st_put (snap_raw (p_snapshot profile)) in
      let is_active := bool_decide (p_id profile = active) in
      stage_profiles active profiles'
        (MkStagedProfiles (sp_records s ++ [from_profile profile snapshot])
           (if is_active then Some snapshot else sp_active_snapshot s)
           (if is_active then Some (p_revision profile) else sp_active_revision s))
  end.

(** [serde_json::to_vec] does not fail on the types of the state. *)
Definition stage_candidate (c : AuthoritativeState) : st TransactionBundle :=
  do^ st_lift (validate_candidate c) in
  if EFFECTIVE_CONFIGURATION_MAX_BYTES <? zlen (as_effective_configuration c)
  then st_err state_too_large
  else
    let^ document := st_lift (or_invalid (to_yaml rules_to_string (as_local_rules c))) in
    let^ rules := st_put (utf8 document) in
    let^ configuration := st_put (as_effective_configuration c) in
    let^ active := st_lift (ok_or (cat_active_profile_id (as_profiles c)) state_invalid) in
    let^ staged := stage_profiles active (btree_values (cat_profiles (as_profiles c)))
                     (MkStagedProfiles [] None None) in
    let state :=
      json_to_vec (state_to_json
        (MkPersistedSupervisorState STATE_SCHEMA_VERSION (uuid_to_string active)
           (cat_active_revision (as_profiles c)) rules (revision (as_local_rules c)) configuration
           (as_runtime_generation c) (sp_records staged))) in
    if SUPERVISOR_STATE_MAX_BYTES <? zlen state then st_err state_too_large
    else
      let^ supervisor := st_put state in
      let^ snapshot := st_lift (ok_or (sp_active_snapshot staged) state_invalid) in
      let^ profile_rev := st_lift (ok_or (sp_active_revision staged) state_invalid) in
      st_ret (MkTransactionBundle supervisor snapshot rules configuration profile_rev
                (revision (as_local_rules c)) active (as_runtime_generation c)).

(** ** Loading *)

Definition st_read (id : str) (limit : Z) : st bytes := st_io (read_object_limited sha256 id limit).

(** [selections.insert(group, node).is_some()] is an error. *)
Fixpoint hydrate_selections (selections : list PersistedSelection) (m : gmap str str)
  : result (gmap str str) StateStoreError :=
  match selections with
  | [] => Ok m
  | s :: selections' =>
      let? node := or_invalid (node_record_id_parse (psel_node_id s)) in
      match m !! psel_group s with
      | Some _ => Err state_invalid
      | None => hydrate_selections selections' (<[psel_group s := node]> m)
      end
  end.

(** [map(PersistedRefreshFailure::hydrate).transpose()?] *)
Definition hydrate_error (e : option PersistedRefreshFailure)
  : result (option RefreshFailure) StateStoreError :=
  match e with
  | None => Ok None
  | Some f => let? f := failure_hydrate f in Ok (Some f)
  end.

Definition profile_hydrate (limits : SnapshotLimits) (r : PersistedProfile) : st Profile :=
  let^ id := st_lift (ok_or (uuid_parse (pp_id r)) state_invalid) in
  do^ st_lift (check_name (pp_name r)) in
  if (pp_revision r =? 0) || (MAX_ACTIVE_NODES <? zlen (pp_selections r)) then st_err state_invalid
  else
    let^ url := st_lift (or_invalid (subscription_url_parse url_parse (pp_subscription_url r))) in
    let^ raw := st_read (pp_snapshot r) (max_bytes limits) in
    let^ snapshot := st_lift (or_invalid (snapshot_parse yaml_from_slice sha256 raw limits)) in
    let^ selections := st_lift (hydrate_selections (pp_selections r) ∅) in
    let^ last_error := st_lift (hydrate_error (pp_last_error r)) in
    st_ret (MkProfile id (pp_name r) url snapshot (pp_revision r) (pp_last_success_at r) last_error
              (pp_next_refresh_at r) selections).

Record LoadedProfiles := MkLoadedProfiles {
  lp_profiles : list Profile;
  lp_active_snapshot : option str;
  lp_active_revision : option Z;
}.

Fixpoint hydrate_profiles (limits : SnapshotLimits) (active : Z) (records : list PersistedProfile)
    (seen : gset Z) (l : LoadedProfiles) : st LoadedProfiles :=
  match records with
  | [] => st_ret l
  | record :: records' =>
      let^ id := st_lift (ok_or (uuid_parse (pp_id record)) state_invalid) in
      if bool_decide (id ∈ seen) then st_err state_invalid
      else
        let is_active := bool_decide (id = active) in
        let^ profile := profile_hydrate limits record in
        hydrate_profiles limits active records' ({[id]} ∪ seen)
          (MkLoadedProfiles (lp_profiles l ++ [profile])
             (if is_active then Some (pp_snapshot record) else lp_active_snapshot l)
             (if is_active then Some (pp_revision record) else lp_active_revision l))
  end.

(** The part of [load_committed] after the state document is decoded. *)
Definition hydrate_state (limits : SnapshotLimits) (rule_limits : RuleSetLimits)
    (b : TransactionBundle) (s : PersistedSupervisorState) : st HydratedState :=
  do^ st_lift (validate_state_header s b) in
  let^ active := st_lift (ok_or (uuid_parse (ps_active_profile_id s)) state_invalid) in
  let^ loaded := hydrate_profiles limits active (ps_profiles s) ∅ (MkLoadedProfiles [] None None) in
  if negb (bool_decide (lp_active_snapshot loaded = Some (profile_snapshot b)))
     || negb (bool_decide (lp_active_revision loaded = Some (profile_revision b)))
  then st_err state_invalid
  else
    let^ profiles := st_lift (or_invalid
                       (catalog_restore (lp_profiles loaded) active (ps_active_revision s))) in
    let^ rules := st_read (ps_local_rule_set s) (max_document_bytes rule_limits) in
    let^ text := st_lift (ok_or (from_utf8 rules) state_invalid) in
    let^ local_rules := st_lift (or_invalid
                          (from_yaml rules_from_str text (ps_local_rule_set_revision s) rule_limits)) in
    let^ configuration := st_read (ps_effective_configuration s) EFFECTIVE_CONFIGURATION_MAX_BYTES in
    st_ret (MkHydratedState profiles local_rules configuration (ps_runtime_generation s)).

Definition load_committed (limits : SnapshotLimits) (rule_limits : RuleSetLimits)
  : st (option HydratedState) :=
  let^ recovery := st_io (recover json_from_slice) in
  match committed recovery with
  | None => st_ret None
  | Some manifest =>
      let^ b := st_io (load_transaction sha256 json_from_slice uuid_parse (current manifest)) in
      let^ raw_state := st_read (supervisor_state b) SUPERVISOR_STATE_MAX_BYTES in
      if SUPERVISOR_STATE_MAX_BYTES <? zlen raw_state then st_err state_too_large
      else
        let^ s := st_lift (ok_or (json_from_slice raw_state ≫= state_of_json) state_invalid) in
        let^ h := hydrate_state limits rule_limits b s in
        st_ret (Some h)
  end.

End store.

(** ** Encodings: round trips *)

Lemma failure_round_trip f : failure_of_json (failure_to_json f) = Some f.
Proof. by destruct f. Qed.

Lemma selection_round_trip s : selection_of_json (selection_to_json s) = Some s.
Proof. by destruct s. Qed.

Definition record_wf (p : PersistedProfile) : Prop :=
  digest_id (pp_snapshot p) ∧ in_u64 (pp_revision p) ∧ in_u64 (pp_last_success_at p) ∧
  in_u64 (pp_next_refresh_at p).

Lemma profile_round_trip p : record_wf p → profile_of_json (profile_to_json p) = Some p.
Proof.
  intros (Hd & Hr & Hs & Hn). destruct p as [id name url snapshot rev success error next selections].
  simpl in *. unfold profile_of_json, profile_to_json, json_required, json_optional, json_field; simpl.
  rewrite json_digest_string by done. cbn [mbind option_bind].
  pose proof (json_vec_ok _ _ selections (Forall_true _ _ selection_round_trip)) as Hsel.
  pose proof (json_uint_ok u64_max) as Hu. simpl in Hu, Hsel. rewrite !Hu by done. simpl. rewrite Hsel.
  by destruct error as [[]|].
Qed.

Record state_wf (s : PersistedSupervisorState) : Prop := {
  state_schema : 0 ≤ ps_schema_version s ≤ 65535;
  state_active_revision : in_u64 (ps_active_revision s);
  state_rules : digest_id (ps_local_rule_set s);
  state_rules_revision : in_u64 (ps_local_rule_set_revision s);
  state_configuration : digest_id (ps_effective_configuration s);
  state_generation : in_u64 (ps_runtime_generation s);
  state_profiles : Forall record_wf (ps_profiles s);
}.

Lemma state_document_round_trip s : state_wf s → state_of_json (state_to_json s) = Some s.
Proof.
  intros [Hv Ha Hr Hrr Hc Hg Hp]. destruct s as [version active arev rules rrev conf gen profiles].
  simpl in *. unfold state_of_json, state_to_json, json_required, json_field; simpl.
  rewrite !json_digest_string by done. cbn [mbind option_bind].
  pose proof (json_uint_ok 65535 version Hv) as Hu16. pose proof (json_uint_ok u64_max) as Hu.
  assert (json_vec profile_of_json (JArray (profile_to_json <$> profiles)) = Some profiles) as Hvec.
  { apply json_vec_ok. eapply Forall_impl; [exact Hp|]. intros. by apply profile_round_trip. }
  simpl in Hu16, Hu, Hvec. rewrite Hu16, !Hu by done. simpl. by rewrite Hvec.
Qed.

Lemma profile_printable p : record_wf p → json_printable (profile_to_json p) = true.
Proof.
  intros (_ & Hr & Hs & Hn). pose proof (printable_number _ Hr) as Hr'.
  pose proof (printable_number _ Hs) as Hs'. pose proof (printable_number _ Hn) as Hn'.
  pose proof (printable_array selection_to_json (pp_selections p) (Forall_true _ _ (λ _, eq_refl))) as Hsel.
  simpl in *. rewrite Hr', Hs', Hn', Hsel. by destruct (pp_last_error p).
Qed.

Lemma state_printable s : state_wf s → json_printable (state_to_json s) = true.
Proof.
  intros [Hv Ha _ Hrr _ Hg Hp]. assert (in_u64 (ps_schema_version s)) as Hv' by (unfold in_u64; lia).
  pose proof (printable_number _ Hv') as H1. pose proof (printable_number _ Ha) as H2.
  pose proof (printable_number _ Hrr) as H3. pose proof (printable_number _ Hg) as H4.
  assert (json_printable (JArray (profile_to_json <$> ps_profiles s)) = true) as H5.
  { apply printable_array. eapply Forall_impl; [exact Hp|]. apply profile_printable. }
  simpl in *. by rewrite H1, H2, H3, H4, H5.
Qed.

(** ** Hydration undoes what staging writes *)

Lemma refresh_stage_round_trip stage : parse_refresh_stage (refresh_stage_name stage) = Ok stage.
Proof. by destruct stage. Qed.

Lemma validate_profile_Ok p :
  validate_profile p = Ok tt →
  validate_name (p_name p) = true ∧ p_revision p ≠ 0 ∧ zsize (p_selections p) ≤ MAX_ACTIVE_NODES ∧
  ∀ e, p_last_error p = Some e → unsafe_message (rf_safe_message e) = false.
Proof.
  unfold validate_profile, check_name. destruct (validate_name (p_name p)); [|done]. cbn [result_bind].
  destruct (Z.eqb_spec (p_revision p) 0); [done|]. cbn [orb].
  destruct (Z.ltb_spec MAX_ACTIVE_NODES (zsize (p_selections p))); [done|]. cbn [orb].
  destruct (p_last_error p) as [e|]; [destruct (unsafe_message _) eqn:He; [done|]|]; naive_solver.
Qed.

Lemma hydrate_selections_Ok l m :
  NoDup l.*1 → (∀ g, g ∈ l.*1 → m !! g = None) →
  Forall (λ s : str * str, node_record_id_parse s.2 = Ok s.2) l →
  hydrate_selections ((λ s : str * str, MkPersistedSelection s.1 s.2) <$> l) m
  = Ok (list_to_map l ∪ m).
Proof.
  revert m; induction l as [|[g n] l IH]; intros m Hnd Hm Hn; csimpl; [by rewrite (left_id_L ∅ (∪))|].
  csimpl in Hnd. apply NoDup_cons in Hnd as [Hg Hnd]. apply Forall_cons in Hn as [Hn Hns]. simpl in Hn.
  rewrite Hn. cbn [or_invalid map_err result_bind]. rewrite Hm by (csimpl; left).
  rewrite IH; [|done| |done].
  - f_equal. rewrite <-insert_union_l, insert_union_r; [done|]. by apply not_elem_of_list_to_map_1.
  - intros g' Hg'. rewrite lookup_insert_ne; [apply Hm; csimpl; by right|]. by intros ->.
Qed.

Lemma hydrate_selections_btree (m : gmap str str) :
  map_Forall (λ _ n, node_record_id_parse n = Ok n) m →
  hydrate_selections ((λ s : str * str, MkPersistedSelection s.1 s.2) <$> btree_iter m) ∅ = Ok m.
Proof.
  intros Hn. rewrite hydrate_selections_Ok.
  - f_equal. rewrite (right_id_L ∅ (∪)). etrans; [|apply list_to_map_to_list].
    apply list_to_map_proper; [apply NoDup_btree_keys|apply btree_iter_Permutation].
  - apply NoDup_btree_keys.
  - intros. apply lookup_empty.
  - apply Forall_forall. intros [g n] Hin. apply elem_of_btree_iter in Hin. by apply (Hn g).
Qed.

Lemma hydrate_error_Ok o :
  (∀ e, o = Some e → unsafe_message (rf_safe_message e) = false) →
  hydrate_error (failure_from <$> o) = Ok o.
Proof.
  intros Ho. destruct o as [[stage message]|]; [|done]. simpl. unfold failure_hydrate; simpl.
  rewrite (Ho _ eq_refl : unsafe_message message = false), refresh_stage_round_trip. done.
Qed.

(** ** Runs of the state store *)

(** Inverts hypotheses about runs in the monad, bind by bind. *)
Ltac st_inv :=
  repeat match goal with
  | H : st_bind ?m ?k ?w = _ |- _ =>
      let x := fresh "x" in let e := fresh "e" in let w1 := fresh "w" in let E := fresh "E" in
      unfold st_bind at 1 in H; destruct (m w) as [[x|e] w1] eqn:E; simplify_eq
  | H : st_ret _ _ = _ |- _ => unfold st_ret in H; simplify_eq
  | H : st_err _ _ = _ |- _ => unfold st_err in H; simplify_eq
  | H : st_lift _ _ = _ |- _ => unfold st_lift in H; simplify_eq
  | H : st_io ?m ?w = _ |- _ =>
      let x := fresh "r" in let w1 := fresh "w" in let E := fresh "E" in
      unfold st_io in H; destruct (m w) as [x w1] eqn:E; simplify_eq
  end.

Lemma st_io_Ok {A} (m : io A) x w w' : m w = (Ok x, w') → st_io m w = (Ok x, w').
Proof. intros H. unfold st_io. by rewrite H. Qed.

Lemma st_bind_Ok {A B} (m : st A) (k : A → st B) x w w' : m w = (Ok x, w') → st_bind m k w = k x w'.
Proof. intros H. unfold st_bind. by rewrite H. Qed.

Lemma or_invalid_Ok {A E} (r : result A E) x : or_invalid r = Ok x → r = Ok x.
Proof. destruct r; naive_solver. Qed.

Lemma ok_or_Ok {A E} (o : option A) (e : E) x : ok_or o e = Ok x → o = Some x.
Proof. destruct o; naive_solver. Qed.

Lemma st_lift_inv {A} (x r : result A StateStoreError) w w' : st_lift x w = (r, w') → x = r ∧ w = w'.
Proof. by intros [= -> ->]. Qed.

Lemma st_bind_inv {A B} (m : st A) (k : A → st B) w r w' :
  st_bind m k w = (r, w') →
  (∃ x w1, m w = (Ok x, w1) ∧ k x w1 = (r, w')) ∨ (∃ e, m w = (Err e, w') ∧ r = Err e).
Proof. unfold st_bind. destruct (m w) as [[x|e] w1]; naive_solver. Qed.

Section laws.
Context (sha256 : bytes → bytes).
Context (json_to_vec : Json → bytes) (json_from_slice : bytes → option Json).
Context (uuid_to_string : Z → str) (uuid_parse : str → option Z).
Context (url_parse : str → option Url) (url_as_str : Url → str).
Context (yaml_from_slice : bytes → option Value).
Context (rules_from_str : str → result (list str) str) (rules_to_string : list str → result str str).
Context (fresh_uuid : Fs → str) (process_id : str).

(** What is assumed of the crates. *)
Context (sha256_digest : ∀ c, byte_list (sha256 c) ∧ length (sha256 c) = 32%nat).
Context (json_round_trip : ∀ j, json_printable j = true → json_from_slice (json_to_vec j) = Some j).

#[local] Abbreviation hex := (sha256_hex sha256).
#[local] Abbreviation put := (st_put sha256 fresh_uuid).
#[local] Abbreviation stage := (stage_candidate sha256 json_to_vec uuid_to_string url_as_str rules_to_string fresh_uuid).
#[local] Abbreviation load := (load_committed sha256 json_from_slice uuid_to_string uuid_parse url_parse yaml_from_slice rules_from_str).

(** Different contents have different digests, among the given ones. *)
Definition collision_free (contents : list bytes) : Prop :=
  ∀ c d, c ∈ contents → d ∈ contents → hex c = hex d → c = d.

Definition stored (w : Fs) (contents : list bytes) : Prop :=
  ∀ c, c ∈ contents → content_at w (object_path (hex c)) c.

Lemma put_Ok all contents content id w w' :
  collision_free all → content ∈ all → contents ⊆ all → stored w contents →
  put content w = (Ok id, w') → id = hex content ∧ stored w' (content :: contents).
Proof.
  intros Hfree Hin Hsub Hst Hput. unfold st_put in Hput. st_inv.
  destruct r as [id'|]; simplify_eq/=. apply put_object_inv in E as [Hu Hok].
  destruct (Hok _ eq_refl) as [-> Hc]. split; [done|]. intros d [->|Hd]%elem_of_cons; [done|].
  destruct (decide (hex d = hex content)) as [Heq|Hne].
  { by rewrite (Hfree d content (Hsub _ Hd) Hin Heq). }
  destruct (Hst d Hd) as (e & He & Hed). exists e. split; [|done]. rewrite Hu; [done|].
  rewrite !not_elem_of_cons. split; [intros [=]; done|]. split; [|apply not_elem_of_nil].
  apply temporary_ne_digest. by apply sha256_hex_digest.
Qed.

(** Only files of the object directory may differ. *)
Definition only_objects (w w' : Fs) : Prop :=
  ∀ q, q.1 ≠ Objects → files w' !! q = files w !! q.

Lemma only_objects_refl w : only_objects w w.
Proof. by intros q _. Qed.

Lemma only_objects_trans w1 w2 w3 : only_objects w1 w2 → only_objects w2 w3 → only_objects w1 w3.
Proof. intros H1 H2 q Hq. by rewrite H2, H1. Qed.

Lemma put_only_objects content w r w' : put content w = (r, w') → only_objects w w'.
Proof.
  unfold st_put. intros H. st_inv. apply put_object_inv in E as [Hu _]. intros [d n] Hq. apply Hu.
  rewrite !not_elem_of_cons. simpl in Hq.
  split; [by intros [= -> _]|]. split; [by intros [= -> _]|apply not_elem_of_nil].
Qed.

(** The record of a profile, with its snapshot stored under its digest. *)
Definition profile_record (p : Profile) : PersistedProfile :=
  from_profile uuid_to_string url_as_str p (hex (snap_raw (p_snapshot p))).

(** The profile the loops remember as the active one. *)
Definition active_of (active : Z) (ps : list Profile) : option Profile :=
  last (filter (λ p, p_id p = active) ps).

Lemma active_of_cons active p ps {A} (f : Profile → A) o :
  match active_of active (p :: ps) with Some q => Some (f q) | None => o end =
  match active_of active ps with
  | Some q => Some (f q)
  | None => if bool_decide (p_id p = active) then Some (f p) else o
  end.
Proof.
  unfold active_of. rewrite filter_cons. destruct (decide (p_id p = active)) as [Hp|Hp].
  - rewrite bool_decide_true, last_cons by done. by destruct (last _).
  - by rewrite bool_decide_false by done.
Qed.

Abbreviation raws ps := ((λ p, snap_raw (p_snapshot p)) <$> ps).

Lemma stage_profiles_inv active ps s w r w' :
  stage_profiles sha256 uuid_to_string url_as_str fresh_uuid active ps s w = (r, w') →
  only_objects w w' ∧
  ∀ s', r = Ok s' →
    s' = MkStagedProfiles (sp_records s ++ (profile_record <$> ps))
           (match active_of active ps with
            | Some p => Some (hex (snap_raw (p_snapshot p)))
            | None => sp_active_snapshot s
            end)
           (match active_of active ps with
            | Some p => Some (p_revision p)
            | None => sp_active_revision s
            end) ∧
    Forall (λ p, validate_profile p = Ok tt) ps ∧
    ∀ all contents, collision_free all → raws ps ⊆ all → contents ⊆ all → stored w contents →
      stored w' (raws ps ++ contents).
Proof.
  revert s w; induction ps as [|p ps IH]; intros s w H; simpl in H.
  { st_inv. split; [done|]. intros s' [= <-]. csimpl. rewrite app_nil_r. by destruct s. }
  st_inv.
  2: { split; [by eapply put_only_objects|done]. }
  2: { done. }
  destruct x. pose proof (put_only_objects _ _ _ _ E0) as Ho. apply IH in H as [Ho' H].
  split; [by eapply only_objects_trans|]. intros s' ->. destruct (H _ eq_refl) as (-> & Hv & Hst).
  assert (x0 = hex (snap_raw (p_snapshot p))) as ->.
  { clear -E0. unfold st_put in E0. st_inv. destruct r as [id'|]; simplify_eq/=.
    apply put_object_inv in E as [_ Hok]. by destruct (Hok _ eq_refl) as [-> _]. }
  cbn [sp_records sp_active_snapshot sp_active_revision].
  split; [|split; [by constructor|]].
  - rewrite (active_of_cons _ _ _ (λ p, hex (snap_raw (p_snapshot p)))), (active_of_cons _ _ _ p_revision).
    csimpl. by rewrite <-(assoc_L (++)).
  - intros all contents Hfree Hps Hcs Hw. csimpl in Hps.
    assert (stored w1 (snap_raw (p_snapshot p) :: contents)) as Hw1.
    { eapply (put_Ok all); [done| |done|done|done]. set_solver. }
    csimpl. intros c Hc.
    apply (Hst all (snap_raw (p_snapshot p) :: contents)); [done|set_solver..|done|].
    clear -Hc. set_solver.
Qed.

(** The document of a candidate whose rules print as [document]. *)
Definition candidate_document (c : AuthoritativeState) (active : Z) (document : str)
  : PersistedSupervisorState :=
  MkPersistedSupervisorState STATE_SCHEMA_VERSION (uuid_to_string active)
    (cat_active_revision (as_profiles c)) (hex (utf8 document)) (revision (as_local_rules c))
    (hex (as_effective_configuration c)) (as_runtime_generation c)
    (profile_record <$> btree_values (cat_profiles (as_profiles c))).

Definition candidate_json (c : AuthoritativeState) (active : Z) (document : str) : bytes :=
  json_to_vec (state_to_json (candidate_document c active document)).

(** Everything [stage_candidate] stores. *)
Definition staged_contents (c : AuthoritativeState) (active : Z) (document : str) : list bytes :=
  [candidate_json c active document; utf8 document; as_effective_configuration c]
  ++ raws (btree_values (cat_profiles (as_profiles c))).

Definition candidate_bundle (c : AuthoritativeState) (active : Z) (document : str) (p : Profile)
  : TransactionBundle :=
  MkTransactionBundle (hex (candidate_json c active document)) (hex (snap_raw (p_snapshot p)))
    (hex (utf8 document)) (hex (as_effective_configuration c)) (p_revision p)
    (revision (as_local_rules c)) active (as_runtime_generation c).

Record staged (c : AuthoritativeState) (b : TransactionBundle) (w' : Fs) active document p : Prop := {
  staged_candidate : validate_candidate c = Ok tt;
  staged_active : cat_active_profile_id (as_profiles c) = Some active;
  staged_document : to_yaml rules_to_string (as_local_rules c) = Ok document;
  staged_configuration : zlen (as_effective_configuration c) ≤ EFFECTIVE_CONFIGURATION_MAX_BYTES;
  staged_state : zlen (candidate_json c active document) ≤ SUPERVISOR_STATE_MAX_BYTES;
  staged_profiles : Forall (λ p, validate_profile p = Ok tt)
                      (btree_values (cat_profiles (as_profiles c)));
  staged_profile : active_of active (btree_values (cat_profiles (as_profiles c))) = Some p;
  staged_bundle : b = candidate_bundle c active document p;
  staged_state_stored : content_at w' (object_path (supervisor_state b)) (candidate_json c active document);
  staged_stored : collision_free (staged_contents c active document) →
                  stored w' (staged_contents c active document);
}.

Lemma put_stored content id w w' :
  put content w = (Ok id, w') → id = hex content ∧ content_at w' (object_path (hex content)) content.
Proof.
  unfold st_put. intros H. st_inv. destruct r as [id'|]; simplify_eq/=.
  apply put_object_inv in E as [_ Hok]. by destruct (Hok _ eq_refl) as [-> ?].
Qed.

(** A run that fails here changed only objects. *)
Ltac failed := split; [first [assumption | apply only_objects_refl]|intros ? [=]].

Lemma stage_candidate_inv c r w w' :
  stage c w = (r, w') →
  only_objects w w' ∧ ∀ b, r = Ok b → ∃ active document p, staged c b w' active document p.
Proof.
  unfold stage_candidate. intros [([] & w0 & E0 & H)|(e & E0 & ->)]%st_bind_inv; apply st_lift_inv in E0 as [E0 <-]; [|failed].
  destruct (Z.ltb_spec EFFECTIVE_CONFIGURATION_MAX_BYTES (zlen (as_effective_configuration c))); [st_inv; failed|].
  apply st_bind_inv in H as [(document & w1 & E1 & H)|(e & E1 & ->)]; apply st_lift_inv in E1 as [E1 <-]; [|failed].
  apply st_bind_inv in H as [(rules & w2 & E2 & H)|(e & E2 & ->)]; pose proof (put_only_objects _ _ _ _ E2) as O2; [|failed].
  apply st_bind_inv in H as [(conf & w3 & E3 & H)|(e & E3 & ->)]; pose proof (put_only_objects _ _ _ _ E3) as O3;
    pose proof (only_objects_trans _ _ _ O2 O3) as O; [|failed].
  apply st_bind_inv in H as [(active & w4 & E4 & H)|(e & E4 & ->)]; apply st_lift_inv in E4 as [E4 <-]; [|failed].
  apply st_bind_inv in H as [(sp & w5 & E5 & H)|(e & E5 & ->)]; apply stage_profiles_inv in E5 as [O5 Hsp];
    pose proof (only_objects_trans _ _ _ O O5) as O'; [|failed].
  destruct (Hsp _ eq_refl) as (-> & Hvp & Hst). clear Hsp. cbn [sp_records sp_active_snapshot sp_active_revision] in H.
  destruct (put_stored _ _ _ _ E2) as [-> _], (put_stored _ _ _ _ E3) as [-> _]. rewrite app_nil_l in H.
  fold (candidate_document c active document) in H. fold (candidate_json c active document) in H.
  destruct (Z.ltb_spec SUPERVISOR_STATE_MAX_BYTES (zlen (candidate_json c active document))); [st_inv; failed|].
  apply st_bind_inv in H as [(id & w6 & E6 & H)|(e & E6 & ->)]; pose proof (put_only_objects _ _ _ _ E6) as O6;
    pose proof (only_objects_trans _ _ _ O' O6) as O''; [|failed].
  destruct (put_stored _ _ _ _ E6) as [-> Hc6].
  destruct (active_of active (btree_values (cat_profiles (as_profiles c)))) as [p|] eqn:Hp;
    cbn [ok_or] in H; st_inv; [|failed].
  split; [done|]. intros b [= <-]. exists active, document, p. split; try done.
  - by apply ok_or_Ok in E4.
  - by apply or_invalid_Ok in E1.
  - intros Hfree. unfold staged_contents in *. cbn [app] in *.
    set (cs := raws (btree_values (cat_profiles (as_profiles c)))) in *.
    set (state := candidate_json c active document) in *. set (conf := as_effective_configuration c) in *.
    clearbody cs state conf. set (all := state :: utf8 document :: conf :: cs) in *.
    assert (stored w2 [utf8 document]) as S2.
    { eapply (put_Ok all _ _ _ _ _ Hfree); [by right; left| | |exact E2]; [by intros ? ?%not_elem_of_nil..]. }
    assert (stored w3 [conf; utf8 document]) as S3.
    { eapply (put_Ok all _ _ _ _ _ Hfree); [by do 2 right; left| |exact S2|exact E3].
      intros d ->%list_elem_of_singleton. by right; left. }
    assert (cs ⊆ all ∧ [conf; utf8 document] ⊆ all) as [Hcs Hdoc].
    { split; intros d Hd; [by do 3 right|]. apply elem_of_cons in Hd as [->|Hd]; [|apply list_elem_of_singleton in Hd as ->];
        [by do 2 right; left|by right; left]. }
    apply (Hst all _ Hfree Hcs Hdoc) in S3.
    eapply (put_Ok all) in E6 as [_ S6]; [|exact Hfree|left| |exact S3].
    + intros d Hd. apply S6. unfold all in Hd. rewrite !elem_of_cons in Hd.
      rewrite elem_of_cons, elem_of_app, !elem_of_cons. clear -Hd. tauto.
    + intros d [?|?]%elem_of_app; auto.
Qed.

(** ** Loading what was staged *)

(** What the values of a profile satisfy by their types: ids print and parse
    back, times are of 64 bits. *)
Record profile_typed (p : Profile) : Prop := {
  typed_id : uuid_parse (uuid_to_string (p_id p)) = Some (p_id p);
  typed_times : in_u64 (p_last_success_at p) ∧ in_u64 (p_next_refresh_at p);
}.

(** The URL parses from its printed form, the snapshot is the parse of its
    bytes, and selected nodes are node identifiers. *)
Record profile_loadable (limits : SnapshotLimits) (p : Profile) : Prop := {
  loadable_profile_typed : profile_typed p;
  loadable_url : subscription_url_parse url_parse (url_as_str (p_subscription_url p))
                 = Ok (p_subscription_url p);
  loadable_snapshot : snapshot_parse yaml_from_slice sha256 (snap_raw (p_snapshot p)) limits
                      = Ok (p_snapshot p);
  loadable_selections : map_Forall (λ _ n, node_record_id_parse n = Ok n) (p_selections p);
}.

Lemma read_Ok content limit w :
  faults w = [] → content_at w (object_path (hex content)) content → zlen content ≤ limit →
  st_read sha256 (hex content) limit w = (Ok content, w).
Proof. intros Hf Hc Hl. apply st_io_Ok. by apply read_object_limited_ok. Qed.

Lemma snapshot_parse_bytes raw limits s :
  snapshot_parse yaml_from_slice sha256 raw limits = Ok s → zlen raw ≤ max_bytes limits.
Proof. unfold snapshot_parse. destruct (Z.ltb_spec (max_bytes limits) (zlen raw)); [done|lia]. Qed.

Lemma snapshot_parse_raw raw limits s :
  snapshot_parse yaml_from_slice sha256 raw limits = Ok s → snap_raw s = raw.
Proof.
  unfold snapshot_parse. case_match; [done|]. destruct (yaml_from_slice _) as [v|]; [|done]. cbn [ok_or result_bind].
  case_match; [done|]. destruct v; try done. destruct (extract_rules _); [|done]. by intros [= <-].
Qed.

Lemma zlen_selections (m : gmap str str) :
  zlen ((λ s : str * str, MkPersistedSelection s.1 s.2) <$> btree_iter m) = zsize m.
Proof. unfold zlen, zsize. by rewrite length_fmap, btree_iter_length. Qed.

Abbreviation hydrate_one := (profile_hydrate sha256 uuid_parse url_parse yaml_from_slice).
Abbreviation hydrate_all := (hydrate_profiles sha256 uuid_parse url_parse yaml_from_slice).

Lemma profile_hydrate_Ok limits p w :
  faults w = [] → profile_loadable limits p → validate_profile p = Ok tt →
  content_at w (object_path (hex (snap_raw (p_snapshot p)))) (snap_raw (p_snapshot p)) →
  hydrate_one limits (profile_record p) w = (Ok p, w).
Proof.
  intros Hf [[Hid _] Hurl Hsnap Hsel] Hv Hc. destruct (validate_profile_Ok _ Hv) as (Hname & Hrev & Hsize & Herr).
  unfold profile_hydrate, profile_record, from_profile.
  cbn [pp_id pp_name pp_subscription_url pp_snapshot pp_revision pp_last_success_at pp_last_error
       pp_next_refresh_at pp_selections].
  rewrite Hid, Hurl. unfold check_name. rewrite Hname. unfold st_bind at 1 2, st_lift; cbn [ok_or].
  rewrite (proj2 (Z.eqb_neq _ _) Hrev), zlen_selections, (proj2 (Z.ltb_ge _ _) Hsize). cbn [orb].
  unfold st_bind at 1. cbn [or_invalid map_err].
  erewrite st_bind_Ok by (apply read_Ok; [done..|by eapply snapshot_parse_bytes]).
  unfold st_bind. rewrite Hsnap, hydrate_selections_btree, hydrate_error_Ok by done. cbn [or_invalid map_err].
  unfold st_ret. by destruct p.
Qed.

Lemma hydrate_profiles_Ok limits active ps seen l w :
  faults w = [] → Forall (profile_loadable limits) ps → Forall (λ p, validate_profile p = Ok tt) ps →
  stored w (raws ps) → NoDup (p_id <$> ps) → (∀ p, p ∈ ps → p_id p ∉ seen) →
  hydrate_all limits active (profile_record <$> ps) seen l w =
  (Ok (MkLoadedProfiles (lp_profiles l ++ ps)
         (match active_of active ps with
          | Some p => Some (hex (snap_raw (p_snapshot p)))
          | None => lp_active_snapshot l
          end)
         (match active_of active ps with
          | Some p => Some (p_revision p)
          | None => lp_active_revision l
          end)), w).
Proof.
  intros Hf. revert seen l; induction ps as [|p ps IH]; intros seen l Hl Hv Hst Hnd Hseen.
  { csimpl. rewrite app_nil_r. by destruct l. }
  apply Forall_cons in Hl as [Hl Hls], Hv as [Hv Hvs]. csimpl in *. apply NoDup_cons in Hnd as [Hp Hnd].
  rewrite (typed_id _ (loadable_profile_typed _ _ Hl)). unfold st_bind at 1, st_lift; cbn [ok_or].
  rewrite bool_decide_false by (apply Hseen; left).
  erewrite st_bind_Ok by (apply profile_hydrate_Ok; [done..|apply Hst; left]).
  rewrite IH; [|done|done| |done|].
  - rewrite (active_of_cons _ _ _ (λ p, hex (snap_raw (p_snapshot p)))), (active_of_cons _ _ _ p_revision).
    cbn [lp_profiles lp_active_snapshot lp_active_revision]. by rewrite <-(assoc_L (++)).
  - intros c Hc. apply Hst. by right.
  - intros q Hq [Heq%elem_of_singleton|Hs]%elem_of_union; [|by eapply Hseen; [right|]].
    apply Hp. rewrite <-Heq. apply list_elem_of_fmap. eauto.
Qed.

(** What a candidate satisfies by the types and invariants of its parts. *)
Record candidate_typed (c : AuthoritativeState) : Prop := {
  typed_catalog : catalog_wf (as_profiles c);
  typed_profiles : map_Forall (λ _ p, profile_typed p) (cat_profiles (as_profiles c));
  typed_rules : rule_set_wf (as_local_rules c);
  typed_generation : in_u64 (as_runtime_generation c);
}.

(** A candidate whose parts are within the limits of loading. *)
Record loadable (limits : SnapshotLimits) (rule_limits : RuleSetLimits) (c : AuthoritativeState) : Prop := {
  loadable_typed : candidate_typed c;
  loadable_profiles : map_Forall (λ _ p, profile_loadable limits p) (cat_profiles (as_profiles c));
  loadable_rule_limits : ∀ rs, rules (as_local_rules c) = Some rs →
    zlen rs ≤ max_rule_count rule_limits ∧ Forall (λ r, str_len r ≤ max_rule_bytes rule_limits) rs;
  loadable_document : ∀ document, to_yaml rules_to_string (as_local_rules c) = Ok document →
    Forall scalar document ∧ str_len document ≤ max_document_bytes rule_limits ∧
    ∀ rs, rules (as_local_rules c) = Some rs → rules_from_str document = Ok rs;
}.

Lemma typed_values c p :
  candidate_typed c → p ∈ btree_values (cat_profiles (as_profiles c)) →
  profile_typed p ∧ in_u64 (p_revision p).
Proof.
  intros Hc [id Hid]%elem_of_btree_values. split; [by apply (typed_profiles _ Hc id)|].
  destruct (catalog_keys _ (typed_catalog _ Hc) id p Hid) as [_ ?]. unfold in_u64. lia.
Qed.

Lemma candidate_document_wf c active document :
  candidate_typed c → state_wf (candidate_document c active document).
Proof.
  intros Hc. pose proof (sha256_hex_digest _ sha256_digest) as Hd. pose proof Hc as [Hcat _ [Hr _] Hg].
  split; simpl; try done; [apply (catalog_revision _ Hcat)|].
  apply Forall_fmap, Forall_forall. intros p Hp.
  destruct (typed_values _ p Hc Hp) as [[_ [Hs Hn]] ?]. by split; simpl; [apply Hd|].
Qed.

(** Files that no step of a transaction touches. *)
Lemma object_not_journal uuid id o : digest_id o → object_path o ∉ transaction_files uuid id ++ journal_files process_id.
Proof.
  intros Ho. rewrite elem_of_app. unfold transaction_files, journal_files. rewrite !elem_of_cons, !elem_of_nil.
  intros [[[=]|[H|[]]]|[[=]|[H|[]]]]; by apply temporary_ne_digest in H.
Qed.

Lemma object_not_manifest o : digest_id o → object_path o ∉ manifest_files process_id.
Proof.
  intros Ho. unfold manifest_files. rewrite !elem_of_cons, !elem_of_nil.
  intros [[=]|[H|[]]]; by apply temporary_ne_digest in H.
Qed.

Lemma transaction_not_manifest id : digest_id id → transaction_path id ∉ manifest_files process_id.
Proof.
  intros Ho. unfold manifest_files. rewrite !elem_of_cons, !elem_of_nil.
  intros [[=]|[H|[]]]; by apply temporary_ne_digest in H.
Qed.

(** The state on disk after a staged candidate was prepared and committed. *)
Record committed_state (c : AuthoritativeState) (w : Fs) active document p txn : Prop := {
  on_disk : staged c (candidate_bundle c active document p) w active document p;
  on_manifest : ∃ m, view_at json_from_slice manifest_of_json manifest_path w = Some (Some m) ∧ current m = txn;
  on_journal : is_Some (view_at json_from_slice prepared_of_json prepared_path w);
  on_transaction : content_at w (transaction_path txn)
                     (json_to_vec (bundle_to_json uuid_to_string (candidate_bundle c active document p)));
  on_transaction_id : txn = hex (json_to_vec (bundle_to_json uuid_to_string (candidate_bundle c active document p)));
}.

Lemma staged_unchanged c b w w' active document p :
  (∀ id, digest_id id → files w' !! object_path id = files w !! object_path id) →
  staged c b w active document p → staged c b w' active document p.
Proof.
  intros Hf [H1 H2 H3 H4 H5 H6 H7 H8 H9 H10]. pose proof (sha256_hex_digest _ sha256_digest) as Hd.
  split; try done.
  - subst b. destruct H9 as (e & He & Hc). exists e. split; [|done]. by rewrite Hf by apply Hd.
  - intros Hfree d Hin. destruct (H10 Hfree d Hin) as (e & He & Hc). exists e. split; [|done].
    by rewrite Hf by apply Hd.
Qed.

Lemma commit_staged c uuid p b w w1 w2 w3 :
  stage c w = (Ok b, w1) →
  prepare sha256 json_to_vec json_from_slice uuid_to_string process_id uuid b w1 = (Ok p, w2) →
  commit_prepared sha256 json_to_vec json_from_slice uuid_parse process_id p w2 = (Ok tt, w3) →
  ∃ active document profile, b = candidate_bundle c active document profile ∧
    committed_state c w3 active document profile (candidate p).
Proof.
  intros [_ Hs]%stage_candidate_inv Hp Hcm. destruct (Hs _ eq_refl) as (active & document & profile & Hst).
  exists active, document, profile. pose proof (staged_bundle _ _ _ _ _ _ Hst) as ->. split; [done|].
  apply prepare_inv in Hp as (Hu & _ & Hok); [|done..].
  destruct (Hok _ eq_refl) as (_ & Hct & Hj & m & _ & ->). clear Hok.
  apply commit_prepared_inv in Hcm as [Hu' (_ & _ & _ & Hm)]; [|done..].
  pose proof (sha256_hex_digest _ sha256_digest) as Hd.
  split; simpl; try done.
  - eapply staged_unchanged; [|exact Hst]. intros id Hid.
    rewrite (Hu' (object_path id)) by (by apply object_not_manifest).
    apply Hu. by apply object_not_journal.
  - by eexists.
  - rewrite (view_at_files _ _ _ w2); [by eexists|]. apply Hu', prepared_not_manifest.
  - destruct Hct as (e & He & Hc). exists e. split; [|done].
    rewrite Hu'; [done|]. by apply transaction_not_manifest.
Qed.

Definition hydrated (c : AuthoritativeState) : HydratedState :=
  MkHydratedState (as_profiles c) (as_local_rules c) (as_effective_configuration c)
    (as_runtime_generation c).

Lemma validate_candidate_Ok c :
  validate_candidate c = Ok tt →
  cat_profiles (as_profiles c) ≠ ∅ ∧ zsize (cat_profiles (as_profiles c)) ≤ PROFILE_COUNT_MAX ∧
  cat_active_revision (as_profiles c) ≠ 0 ∧ is_initialized (as_local_rules c) = true ∧
  as_runtime_generation c ≠ 0.
Proof.
  unfold validate_candidate. case_bool_decide as H1; [done|]. cbn [orb].
  destruct (Z.ltb_spec PROFILE_COUNT_MAX (zsize (cat_profiles (as_profiles c)))); [done|]. cbn [orb].
  case_bool_decide; [done|]. cbn [orb].
  destruct (Z.eqb_spec (cat_active_revision (as_profiles c)) 0); [done|]. cbn [orb].
  destruct (is_initialized (as_local_rules c)); [|done]. cbn [orb negb].
  destruct (Z.eqb_spec (revision (as_local_rules c)) 0); [done|]. cbn [orb].
  destruct (Z.eqb_spec (as_runtime_generation c) 0); [done|]. auto.
Qed.

Lemma zlen_values (c : ProfileCatalog) : zlen (btree_values (cat_profiles c)) = zsize (cat_profiles c).
Proof. unfold zlen, zsize, btree_values. by rewrite length_fmap, btree_iter_length. Qed.

Lemma header_Ok c active document p :
  validate_candidate c = Ok tt →
  validate_state_header uuid_to_string (candidate_document c active document)
    (candidate_bundle c active document p) = Ok tt.
Proof.
  intros (Hne & Hsize & _ & _ & Hg)%validate_candidate_Ok. unfold validate_state_header; simpl.
  assert (profile_record <$> btree_values (cat_profiles (as_profiles c)) ≠ []) as Hnil.
  { intros Hnil%fmap_nil_inv. apply Hne. apply map_eq. intros i. rewrite lookup_empty.
    destruct (cat_profiles (as_profiles c) !! i) as [q|] eqn:Hq; [|done].
    destruct (not_elem_of_nil q). rewrite <-Hnil. apply elem_of_btree_values. eauto. }
  rewrite (bool_decide_false _ Hnil), !bool_decide_true, !Z.eqb_refl by done.
  rewrite (proj2 (Z.eqb_neq _ _) Hg). unfold zlen. rewrite length_fmap.
  fold (zlen (btree_values (cat_profiles (as_profiles c)))). rewrite zlen_values.
  by rewrite (proj2 (Z.ltb_ge _ _) Hsize).
Qed.

(** The bundle of a committed candidate is read back. *)
Lemma candidate_bundle_round_trip c active document p :
  candidate_typed c → active_of active (btree_values (cat_profiles (as_profiles c))) = Some p →
  json_from_slice (json_to_vec (bundle_to_json uuid_to_string (candidate_bundle c active document p)))
    ≫= bundle_of_json uuid_parse = Some (candidate_bundle c active document p).
Proof.
  intros Hc Hp. pose proof (sha256_hex_digest _ sha256_digest) as Hd.
  assert (p ∈ btree_values (cat_profiles (as_profiles c)) ∧ p_id p = active) as [Hin <-].
  { apply last_Some_elem_of, list_elem_of_filter in Hp as [??]. done. }
  destruct (typed_values _ p Hc Hin) as [[Hid _] Hrev]. destruct Hc as [_ _ [Hr _] Hg].
  rewrite json_round_trip by (by apply bundle_printable). cbn [mbind option_bind].
  apply (bundle_round_trip sha256 json_from_slice uuid_parse json_to_vec); try done.
  intros id. unfold bundle_objects; simpl.
  rewrite !elem_of_union, !elem_of_singleton. intros [[[->| ->]| ->]| ->]; apply Hd.
Qed.

Lemma hydrate_state_Ok limits rule_limits c w active document p :
  faults w = [] → loadable limits rule_limits c →
  staged c (candidate_bundle c active document p) w active document p →
  collision_free (staged_contents c active document) →
  hydrate_state sha256 uuid_to_string uuid_parse url_parse yaml_from_slice rules_from_str limits rule_limits
    (candidate_bundle c active document p) (candidate_document c active document) w = (Ok (hydrated c), w).
Proof.
  intros Hf Hc [Hcand Hact Hdoc Hconf _ Hv Hp _ _ Hst] Hfree. specialize (Hst Hfree).
  destruct (validate_candidate_Ok _ Hcand) as (_ & Hsize & Harev & Hinit & _).
  pose proof (typed_catalog _ (loadable_typed _ _ _ Hc)) as Hcat.
  unfold hydrate_state. rewrite header_Ok by done. unfold st_bind at 1, st_lift. cbn [candidate_document ps_active_profile_id].
  assert (uuid_parse (uuid_to_string active) = Some active) as ->.
  { destruct (catalog_active _ Hcat _ Hact) as [q Hq]. destruct (catalog_keys _ Hcat _ _ Hq) as [<- _].
    apply (typed_profiles _ (loadable_typed _ _ _ Hc) _ _ Hq). }
  unfold st_bind at 1. cbn [ok_or ps_profiles].
  erewrite st_bind_Ok by (apply hydrate_profiles_Ok; [done| |done| |rewrite candidate_keys by done; apply NoDup_btree_keys|set_solver];
    [apply Forall_forall; intros q [? Hq]%elem_of_btree_values; by eapply (loadable_profiles _ _ _ Hc)|intros d Hd; apply Hst; by apply elem_of_app; right]).
  cbn [lp_active_snapshot lp_active_revision lp_profiles]. rewrite Hp, app_nil_l.
  rewrite !bool_decide_true by done. cbn [orb negb ps_active_revision].
  rewrite catalog_restore_round_trip by done. unfold st_bind at 1. cbn [or_invalid map_err].
  destruct (loadable_document _ _ _ Hc _ Hdoc) as (Hscalar & Hbytes & Hfrom).
  cbn [candidate_document ps_local_rule_set ps_local_rule_set_revision ps_effective_configuration ps_runtime_generation].
  erewrite st_bind_Ok by (apply read_Ok; [done|apply Hst; set_solver|by rewrite utf8_length]).
  rewrite from_utf8_utf8 by done. unfold st_bind at 1. cbn [ok_or].
  assert (from_yaml rules_from_str document (revision (as_local_rules c)) rule_limits = Ok (as_local_rules c)) as ->.
  { destruct (rules (as_local_rules c)) as [rs|] eqn:Hrs; [|unfold is_initialized in Hinit; by rewrite Hrs in Hinit].
    destruct (loadable_rule_limits _ _ _ Hc _ Hrs) as [Hcount Hlens].
    pose proof (typed_rules _ (loadable_typed _ _ _ Hc)) as [_ Hwf]. rewrite Hrs in Hwf. destruct Hwf as [_ Hparse].
    apply from_yaml_Ok. exists rs. split_and!; [by apply Hfrom| |done|done|by apply Forall_and].
    destruct (as_local_rules c); simpl in *; by subst. }
  unfold st_bind at 1. cbn [or_invalid map_err].
  by erewrite st_bind_Ok by (apply read_Ok; [done|apply Hst; set_solver|done]).
Qed.

(** Loading a committed candidate decodes the document that was staged. *)
Lemma load_committed_state limits rule_limits c w active document p txn :
  faults w = [] → candidate_typed c → committed_state c w active document p txn →
  load limits rule_limits w =
  st_bind (hydrate_state sha256 uuid_to_string uuid_parse url_parse yaml_from_slice rules_from_str limits
             rule_limits (candidate_bundle c active document p) (candidate_document c active document))
    (λ h, st_ret (Some h)) w.
Proof.
  intros Hf Hc [Hst (m & Hm & <-) [j Hj] Ht Htid]. unfold load_committed.
  erewrite st_bind_Ok by (apply st_io_Ok; by apply recover_ok). cbn [committed].
  erewrite st_bind_Ok.
  2: { apply st_io_Ok. eapply load_transaction_ok; [done|done|by symmetry|].
       eapply candidate_bundle_round_trip; [done|apply Hst]. }
  pose proof (staged_state _ _ _ _ _ _ Hst) as Hsize.
  erewrite st_bind_Ok by (apply read_Ok; [done|apply Hst|done]). rewrite (proj2 (Z.ltb_ge _ _) Hsize).
  unfold candidate_json. pose proof (candidate_document_wf c active document Hc) as Hwf.
  rewrite json_round_trip by (by apply state_printable). cbn [mbind option_bind].
  rewrite state_document_round_trip by done. by unfold st_bind at 1, st_lift.
Qed.

(** A URL whose printed form is too long cannot be read back. *)
Lemma hydrate_profiles_urls limits active records seen l w r w' :
  hydrate_all limits active records seen l w = (Ok r, w') →
  Forall (λ p, str_len (pp_subscription_url p) ≤ SUBSCRIPTION_URL_MAX_BYTES) records.
Proof.
  revert seen l w; induction records as [|p records IH]; intros seen l w H; [constructor|]. simpl in H.
  apply st_bind_inv in H as [(id & w1 & E1 & H)|(e & E1 & ?)]; [|done].
  case_bool_decide; [by st_inv|].
  apply st_bind_inv in H as [(q & w2 & E2 & H)|(e & E2 & ?)]; [|done].
  constructor; [|by eapply IH]. clear IH H. unfold profile_hydrate in E2.
  apply st_bind_inv in E2 as [(? & ? & _ & E2)|(? & _ & ?)]; [|done].
  apply st_bind_inv in E2 as [(? & ? & _ & E2)|(? & _ & ?)]; [|done].
  destruct (_ || _); [by st_inv|].
  apply st_bind_inv in E2 as [(? & ? & E & _)|(? & _ & ?)]; [|done].
  apply st_lift_inv in E as [E%or_invalid_Ok _]. unfold subscription_url_parse in E.
  destruct (Z.ltb_spec SUBSCRIPTION_URL_MAX_BYTES (str_len (pp_subscription_url p))); [done|lia].
Qed.

Lemma collision_free_NoDup contents : NoDup (hex <$> contents) → collision_free contents.
Proof.
  intros Hnd c d Hc Hd Heq. apply list_elem_of_lookup in Hc as [i Hi], Hd as [j Hj].
  assert (i = j) as <-; [|congruence].
  apply (NoDup_lookup _ _ _ (hex c) Hnd); rewrite list_lookup_fmap; [by rewrite Hi|].
  by rewrite Hj, Heq.
Qed.

(** ** What loading guarantees *)

Lemma state_of_json_wf j s : state_of_json j = Some s → state_wf s.
Proof.
  assert (∀ max k n, json_uint max k = Some n → 0 ≤ n ≤ max) as Huint.
  { intros max [| |n| | | |] k; simpl; try done. destruct (Z.leb_spec 0 n), (Z.leb_spec n max); intros [= <-]; lia. }
  assert (∀ fields name max n, json_required fields name (json_uint max) = Some n → 0 ≤ n ≤ max) as Hreq.
  { intros fields name max n. unfold json_required. intros (? & _ & H)%bind_Some.
    apply bind_Some in H as (? & _ & H). eauto. }
  assert (∀ k p, profile_of_json k = Some p → record_wf p) as Hprofile.
  { unfold profile_of_json. intros k p H.
    repeat (apply bind_Some in H as (? & ? & H)). injection H as <-.
    split; simpl; [by eapply json_required_digest|]. split_and!; by eapply Hreq. }
  unfold state_of_json. intros H. repeat (apply bind_Some in H as (? & ? & H)). injection H as <-.
  split; simpl; try (by eapply json_required_digest); try (by eapply Hreq).
  match goal with Hv : json_required _ (lit "profiles") _ = Some _ |- _ => rename Hv into Hvec end.
  unfold json_required in Hvec. apply bind_Some in Hvec as (? & _ & Hvec). apply bind_Some in Hvec as (k & _ & Hvec).
  destruct k; try done. simpl in Hvec. apply mapM_Some in Hvec.
  induction Hvec; constructor; eauto.
Qed.

Lemma hydrate_selections_size l m m' :
  hydrate_selections l m = Ok m' → zsize m' = zsize m + zlen l.
Proof.
  revert m; induction l as [|s l IH]; intros m; simpl.
  { intros [= <-]. unfold zlen; simpl. lia. }
  destruct (node_record_id_parse (psel_node_id s)) as [n|]; [|done]. cbn [or_invalid map_err result_bind].
  destruct (m !! psel_group s) eqn:Hg; [done|]. intros ->%IH. unfold zsize, zlen. rewrite map_size_insert_None by done.
  simpl. lia.
Qed.

(** A profile that was hydrated could be staged again. *)
Lemma profile_hydrate_inv limits r p w w' :
  hydrate_one limits r w = (Ok p, w') → record_wf r →
  files w' = files w ∧ uuid_parse (pp_id r) = Some (p_id p) ∧
  validate_profile p = Ok tt ∧ 1 ≤ p_revision p ≤ u64_max ∧
  snapshot_parse yaml_from_slice sha256 (snap_raw (p_snapshot p)) limits = Ok (p_snapshot p).
Proof.
  intros H (_ & Hrev & _). unfold profile_hydrate in H.
  apply st_bind_inv in H as [(id & w1 & E1 & H)|(e & _ & ?)]; [|done]. apply st_lift_inv in E1 as [E1%ok_or_Ok <-].
  apply st_bind_inv in H as [([] & w1 & E2 & H)|(e & _ & ?)]; [|done]. apply st_lift_inv in E2 as [E2 <-].
  destruct (Z.eqb_spec (pp_revision r) 0) as [|Hne]; [by st_inv|]. cbn [orb] in H.
  destruct (Z.ltb_spec MAX_ACTIVE_NODES (zlen (pp_selections r))) as [|Hsel]; [by st_inv|].
  apply st_bind_inv in H as [(url & w1 & E3 & H)|(e & _ & ?)]; [|done]. apply st_lift_inv in E3 as [_ <-].
  apply st_bind_inv in H as [(raw & w1 & E4 & H)|(e & _ & ?)]; [|done].
  unfold st_read, st_io in E4. destruct (read_object_limited _ _ _ w) as [r4 w4] eqn:E4'.
  injection E4 as _ <-. apply read_object_limited_inv in E4' as [Hf _].
  apply st_bind_inv in H as [(snapshot & w1 & E5 & H)|(e & _ & ?)]; [|done]. apply st_lift_inv in E5 as [E5%or_invalid_Ok <-].
  apply st_bind_inv in H as [(selections & w1 & E6 & H)|(e & _ & ?)]; [|done]. apply st_lift_inv in E6 as [E6 <-].
  apply st_bind_inv in H as [(error & w1 & E7 & H)|(e & _ & ?)]; [|done]. apply st_lift_inv in E7 as [E7 <-].
  unfold st_ret in H. injection H as <- <-. simpl. split_and!; try done; [|unfold in_u64 in Hrev; lia..|].
  - unfold validate_profile; simpl. rewrite E2. cbn [result_bind]. rewrite (proj2 (Z.eqb_neq _ _) Hne). cbn [orb].
    apply hydrate_selections_size in E6. change (zsize ∅) with 0 in E6. rewrite E6, (proj2 (Z.ltb_ge _ _)) by lia.
    cbn [orb]. destruct (pp_last_error r) as [f|]; simpl in E7; [|by injection E7 as <-].
    unfold failure_hydrate in E7. destruct (unsafe_message _) eqn:Hm; [done|].
    destruct (parse_refresh_stage _); [|done]. injection E7 as <-. simpl. by rewrite Hm.
  - by rewrite (snapshot_parse_raw _ _ _ E5).
Qed.

Lemma hydrate_profiles_inv limits active records seen l w r w' :
  hydrate_all limits active records seen l w = (Ok r, w') → Forall record_wf records →
  files w' = files w ∧ ∃ ps, lp_profiles r = lp_profiles l ++ ps ∧
    Forall (λ p, validate_profile p = Ok tt ∧ 1 ≤ p_revision p ≤ u64_max ∧
      snapshot_parse yaml_from_slice sha256 (snap_raw (p_snapshot p)) limits = Ok (p_snapshot p)) ps.
Proof.
  revert seen l w; induction records as [|p records IH]; intros seen l w H Hwf; simpl in H.
  { unfold st_ret in H. injection H as <- <-. split; [done|]. exists []. by rewrite app_nil_r. }
  apply Forall_cons in Hwf as [Hp Hwf].
  apply st_bind_inv in H as [(id & w1 & E1 & H)|(e & E1 & ?)]; [|done]. apply st_lift_inv in E1 as [_ <-].
  case_bool_decide; [by st_inv|].
  apply st_bind_inv in H as [(q & w2 & E2 & H)|(e & E2 & ?)]; [|done].
  destruct (profile_hydrate_inv _ _ _ _ _ E2 Hp) as (Hf & _ & Hq).
  destruct (IH _ _ _ H Hwf) as (Hf' & ps & Hps & Hall). split; [congruence|]. exists (q :: ps).
  rewrite Hps. simpl. split; [by rewrite <-(assoc_L (++))|by constructor].
Qed.

(** The converse of [insert_all_Ok]. *)
Lemma insert_all_inv ps c c' (P : Z → Profile → Prop) :
  insert_all ps c = Ok c' → map_Forall P (cat_profiles c) → (∀ p, p ∈ ps → P (p_id p) p) →
  map_Forall P (cat_profiles c') ∧ zsize (cat_profiles c') = zsize (cat_profiles c) + zlen ps.
Proof.
  revert c; induction ps as [|p ps IH]; intros c; simpl.
  { intros [= <-] Hc _. unfold zlen; simpl. split; [done|lia]. }
  unfold catalog_insert. destruct (cat_profiles c !! p_id p) eqn:Hp; [done|]. intros H Hc Hps.
  apply IH in H as [H Hsize]; simpl.
  - split; [done|]. rewrite Hsize. simpl. unfold zsize, zlen. rewrite map_size_insert_None by done. simpl. lia.
  - apply map_Forall_insert_2; [apply Hps; left|done].
  - intros q Hq. apply Hps. by right.
Qed.

(** What [catalog_restore] builds. *)
Lemma catalog_restore_inv ps active rev c (P : Profile → Prop) :
  catalog_restore ps active rev = Ok c → in_u64 rev → Forall (λ p, P p ∧ 1 ≤ p_revision p ≤ u64_max) ps →
  catalog_wf c ∧ cat_profiles c ≠ ∅ ∧ zsize (cat_profiles c) ≤ PROFILE_COUNT_MAX ∧
  cat_active_profile_id c = Some active ∧ cat_active_revision c ≠ 0 ∧
  map_Forall (λ _, P) (cat_profiles c).
Proof.
  unfold catalog_restore. intros H Hrev Hps. case_bool_decide; [done|]. cbn [orb] in H.
  destruct (Z.ltb_spec PROFILE_COUNT_MAX (zlen ps)); [done|]. destruct (Z.eqb_spec rev 0); [done|].
  destruct (insert_all ps catalog_new) as [c0|] eqn:Hi; [|done]. cbn [result_bind] in H.
  apply (insert_all_inv _ _ _ (λ k p, p_id p = k ∧ P p ∧ 1 ≤ p_revision p ≤ u64_max)) in Hi as [Hall Hsize];
    [|apply map_Forall_empty|intros p Hp; split; [done|]; by apply (proj1 (Forall_forall _ _) Hps)].
  change (zsize (cat_profiles catalog_new)) with 0 in Hsize.
  destruct (cat_profiles c0 !! active) as [p|] eqn:Hp; [|done]. injection H as <-. simpl.
  split_and!; try done; [split; simpl| |lia|].
  - intros k q Hq. destruct (Hall k q Hq) as (<- & _ & ?). done.
  - intros id [= <-]. eauto.
  - done.
  - intros Hempty. by rewrite Hempty, lookup_empty in Hp.
  - intros k q Hq. by destruct (Hall k q Hq) as (_ & ? & _).
Qed.

Lemma read_files id limit w r w' :
  st_read sha256 id limit w = (r, w') → files w' = files w ∧ ∀ c, r = Ok c → zlen c ≤ limit.
Proof.
  unfold st_read, st_io. destruct (read_object_limited _ _ _ w) as [r0 w0] eqn:E. intros [= <- <-].
  apply read_object_limited_inv in E as [Hf Hc]. split; [done|]. intros c Hr.
  destruct r0; simplify_eq/=. by destruct (Hc _ eq_refl) as (_ & ? & _).
Qed.

(** What holds of every state that loads. *)
Definition load_guarantee (limits : SnapshotLimits) (rule_limits : RuleSetLimits) (h : HydratedState) : Prop :=
  catalog_wf (hs_profiles h) ∧
  cat_profiles (hs_profiles h) ≠ ∅ ∧ zsize (cat_profiles (hs_profiles h)) ≤ PROFILE_COUNT_MAX ∧
  is_Some (cat_active_profile_id (hs_profiles h)) ∧ cat_active_revision (hs_profiles h) ≠ 0 ∧
  map_Forall (λ _ p, validate_profile p = Ok tt ∧
    snapshot_parse yaml_from_slice sha256 (snap_raw (p_snapshot p)) limits = Ok (p_snapshot p))
    (cat_profiles (hs_profiles h)) ∧
  (∃ rs, rules (hs_local_rules h) = Some rs ∧ zlen rs ≤ max_rule_count rule_limits ∧
     Forall (λ r, str_len r ≤ max_rule_bytes rule_limits ∧ is_ok (parse_rule r) = true) rs) ∧
  zlen (hs_effective_configuration h) ≤ EFFECTIVE_CONFIGURATION_MAX_BYTES ∧
  1 ≤ hs_runtime_generation h ≤ u64_max.

Lemma hydrate_state_inv limits rule_limits b s w h w' :
  hydrate_state sha256 uuid_to_string uuid_parse url_parse yaml_from_slice rules_from_str limits rule_limits
    b s w = (Ok h, w') → state_wf s →
  files w' = files w ∧ load_guarantee limits rule_limits h.
Proof.
  intros H [_ Harev _ _ _ Hgen Hrec]. unfold hydrate_state in H.
  apply st_bind_inv in H as [([] & w1 & E1 & H)|(e & _ & ?)]; [|done]. apply st_lift_inv in E1 as [E1 <-].
  apply st_bind_inv in H as [(active & w1 & E2 & H)|(e & _ & ?)]; [|done]. apply st_lift_inv in E2 as [_ <-].
  apply st_bind_inv in H as [(l & w1 & E3 & H)|(e & _ & ?)]; [|done].
  destruct (hydrate_profiles_inv _ _ _ _ _ _ _ _ E3 Hrec) as (Hf1 & ps & Hps & Hall). simpl in Hps.
  destruct (_ || _); [by st_inv|]. rewrite Hps in H.
  apply st_bind_inv in H as [(cat & w2 & E4 & H)|(e & _ & ?)]; [|done]. apply st_lift_inv in E4 as [E4%or_invalid_Ok <-].
  apply st_bind_inv in H as [(raw & w2 & E5 & H)|(e & _ & ?)]; [|done]. apply read_files in E5 as [Hf2 _].
  apply st_bind_inv in H as [(text & w3 & E6 & H)|(e & _ & ?)]; [|done]. apply st_lift_inv in E6 as [_ <-].
  apply st_bind_inv in H as [(local & w3 & E7 & H)|(e & _ & ?)]; [|done]. apply st_lift_inv in E7 as [E7%or_invalid_Ok <-].
  apply st_bind_inv in H as [(conf & w3 & E8 & H)|(e & _ & ?)]; [|done]. apply read_files in E8 as [Hf3 Hconf].
  unfold st_ret in H. injection H as <- <-. split; [congruence|].
  apply (catalog_restore_inv _ _ _ _ (λ p, validate_profile p = Ok tt ∧
    snapshot_parse yaml_from_slice sha256 (snap_raw (p_snapshot p)) limits = Ok (p_snapshot p))) in E4
    as (Hcat & Hne & Hsize & Hact & Harev' & Hpall); [|done|eapply Forall_impl; [exact Hall|naive_solver]].
  apply from_yaml_Ok in E7 as (rs & _ & -> & _ & Hcount & Hrules).
  assert (ps_runtime_generation s ≠ 0) as Hg0.
  { unfold validate_state_header in E1. intros Hz. rewrite (proj2 (Z.eqb_eq _ 0) Hz), orb_true_r in E1. done. }
  split; [done|]. do 2 (split; [done|]). split; [by exists active|]. do 2 (split; [done|]).
  split; [by exists rs|]. split; [by apply Hconf|]. simpl. unfold in_u64 in Hgen. lia.
Qed.

(** ** Properties *)


(** Staging a candidate writes to the object directory only, whatever it
    returns and whatever fails: the committed manifest, the journal and the
    transactions stay as they are. *)
Theorem stage_candidate_confined c w r w' :
  stage c w = (r, w') →
  (∀ q, q.1 ≠ Objects → files w' !! q = files w !! q) ∧
  persistence_view json_from_slice w' = persistence_view json_from_slice w.
Proof.
  intros [Ho _]%stage_candidate_inv. split; [done|].
  apply persistence_view_files; by apply Ho.
Qed.

(** C32: Whatever is on disk, a state that loads is sound, and loading changes no
    file: the catalog is consistent, non-empty and within its limit, its active
    profile exists at a non-zero revision, every profile passes the checks of
    staging and carries a snapshot that parses from its own bytes within the
    limits, every rule parses, and the configuration and the generation are in
    range. *)
Theorem load_committed_sound limits rule_limits w h w' :
  load limits rule_limits w = (Ok (Some h), w') →
  files w' = files w ∧ load_guarantee limits rule_limits h.
Proof.
  unfold load_committed. intros H.
  apply st_bind_inv in H as [(rec & w1 & E1 & H)|(e & _ & ?)]; [|done].
  unfold st_io in E1. destruct (recover _ w) as [r0 w0] eqn:E0. injection E1 as Hr <-.
  apply recover_inv in E0 as [Hf0 _].
  destruct (committed rec) as [m|]; [|unfold st_ret in H; by simplify_eq].
  apply st_bind_inv in H as [(b & w1 & E2 & H)|(e & _ & ?)]; [|done].
  unfold st_io in E2. destruct (load_transaction _ _ _ _ w0) as [r2 w2] eqn:E2'. injection E2 as _ <-.
  apply load_transaction_inv in E2' as [Hf2 _].
  apply st_bind_inv in H as [(raw & w3 & E3 & H)|(e & _ & ?)]; [|done]. apply read_files in E3 as [Hf3 _].
  destruct (_ <? _); [by st_inv|].
  apply st_bind_inv in H as [(s & w4 & E4 & H)|(e & _ & ?)]; [|done]. apply st_lift_inv in E4 as [E4%ok_or_Ok <-].
  apply bind_Some in E4 as (j & _ & Hs%state_of_json_wf).
  apply st_bind_inv in H as [(h' & w5 & E5 & H)|(e & _ & ?)]; [|done]. unfold st_ret in H. injection H as -> <-.
  destruct (hydrate_state_inv _ _ _ _ _ _ _ E5 Hs) as [Hf5 Hg]. split; [congruence|done].
Qed.

(** A subscription URL that is accepted can make the committed state
    unreadable: [SubscriptionUrl::parse] limits the length of its input, but what
    is stored is the URL as the parser prints it, with its percent-encoding; when
    that is longer than the limit, the state is staged and committed all the
    same and then no longer loads. *)
Theorem long_url_unreadable c uuid b p w w1 w2 w3 limits rule_limits profile value :
  stage c w = (Ok b, w1) →
  prepare sha256 json_to_vec json_from_slice uuid_to_string process_id uuid b w1 = (Ok p, w2) →
  commit_prepared sha256 json_to_vec json_from_slice uuid_parse process_id p w2 = (Ok tt, w3) →
  faults w3 = [] → candidate_typed c →
  profile ∈ btree_values (cat_profiles (as_profiles c)) →
  subscription_url_parse url_parse value = Ok (p_subscription_url profile) →
  SUBSCRIPTION_URL_MAX_BYTES < str_len (url_as_str (p_subscription_url profile)) →
  is_ok (load limits rule_limits w3).1 = false.
Proof.
  intros Hs Hp Hcm Hf Hc Hin _ Hlong.
  destruct (commit_staged _ _ _ _ _ _ _ _ Hs Hp Hcm) as (active & document & profile' & _ & Hst).
  rewrite (load_committed_state _ _ c w3 _ _ _ _ Hf Hc Hst). clear -Hin Hlong.
  destruct (st_bind _ _ w3) as [[h|e] w4] eqn:E; [|done]. exfalso.
  apply st_bind_inv in E as [(h' & w5 & E & _)|(e & _ & ?)]; [|done]. unfold hydrate_state in E.
  apply st_bind_inv in E as [(? & ? & _ & E)|(e & _ & ?)]; [|done].
  apply st_bind_inv in E as [(? & ? & _ & E)|(e & _ & ?)]; [|done].
  apply st_bind_inv in E as [(? & ? & E & _)|(e & _ & ?)]; [|done].
  apply hydrate_profiles_urls in E. rewrite Forall_forall in E.
  assert (str_len (pp_subscription_url (profile_record profile)) ≤ SUBSCRIPTION_URL_MAX_BYTES) as Hle.
  { apply E. simpl. apply list_elem_of_fmap. eauto. }
  simpl in Hle. lia.
Qed.

End laws.

(** ** A concrete instance *)

Definition sample_url_parse (s : str) : option Url :=
  Some (MkUrl (lit "https") (Some (lit "a.example")) s None None).

Definition sample_state_profile (id : Z) (raw : bytes) (error : option RefreshFailure)
    (selections : gmap str str) : Profile :=
  MkProfile id (lit "home") (MkUrl (lit "https") (Some (lit "a.example")) (lit "https://a.example/s") None None)
    (MkProfileSnapshot raw sample_document [lit "MATCH,DIRECT"] (sha256_hex sample_sha256 raw))
    3 1000 error 2000 selections.

Definition sample_catalog : ProfileCatalog :=
  MkProfileCatalog
    {[5 := sample_state_profile 5 [1; 2]%N (Some (MkRefreshFailure Download (lit "timeout"))) ∅;
      6 := sample_state_profile 6 [9]%N None {[lit "Auto" := for_core sample_sha256 (lit "HK 01")]}]}
    (Some 6) 2.

Definition sample_authoritative : AuthoritativeState :=
  MkAuthoritativeState sample_catalog sample_set [7; 7; 7]%N 4.

Abbreviation sample_stage c :=
  (stage_candidate sample_sha256 sample_json_to_vec sample_uuid_to_string url_origin
     sample_yaml_to_string (λ _, lit "u") c (MkFs ∅ [])).

Definition staged_sample : result TransactionBundle StateStoreError * Fs := sample_stage sample_authoritative.
Definition staged_sample_bundle : TransactionBundle :=
  default sample_bundle (result_ok staged_sample.1).
Definition prepared_sample : result PreparedTransaction IoError * Fs :=
  prepare sample_sha256 sample_json_to_vec sample_json_from_slice sample_uuid_to_string (lit "42")
    (lit "v") staged_sample_bundle staged_sample.2.
Definition prepared_sample_transaction : PreparedTransaction :=
  default (MkPreparedTransaction [] None) (result_ok prepared_sample.1).
Definition committed_sample : result unit IoError * Fs :=
  commit_prepared sample_sha256 sample_json_to_vec sample_json_from_slice sample_uuid_parse (lit "42")
    prepared_sample_transaction prepared_sample.2.

Lemma sample_catalog_wf : catalog_wf sample_catalog.
Proof.
  split; [|intros id [= <-]; by eexists|by split].
  intros k p. unfold sample_catalog; simpl. rewrite lookup_insert_Some, lookup_singleton_Some. intros [[<- <-]|(_ & <- & <-)]; by split.
Qed.

Abbreviation sample_profile_typed := (profile_typed sample_uuid_to_string sample_uuid_parse).
Abbreviation sample_profile_loadable :=
  (profile_loadable sample_sha256 sample_uuid_to_string sample_uuid_parse sample_url_parse url_origin
     (λ _, Some (VMapping sample_document)) (MkSnapshotLimits 16 8)).

Lemma sample_authoritative_typed : candidate_typed sample_uuid_to_string sample_uuid_parse sample_authoritative.
Proof.
  split; [apply sample_catalog_wf| |apply sample_set_wf|done].
  intros k p. simpl. rewrite lookup_insert_Some, lookup_singleton_Some. intros [[_ <-]|(_ & _ & <-)]; by split.
Qed.

Lemma sample_authoritative_loadable :
  loadable sample_sha256 sample_uuid_to_string sample_uuid_parse sample_url_parse url_origin
    (λ _, Some (VMapping sample_document)) sample_yaml_from_str sample_yaml_to_string
    (MkSnapshotLimits 16 8) product_limits sample_authoritative.
Proof.
  split; [apply sample_authoritative_typed| | |].
  - assert (map_Forall (λ _ n, node_record_id_parse n = Ok n)
      ({[lit "Auto" := for_core sample_sha256 (lit "HK 01")]} : gmap str str)) as Hsel.
    { intros g n [_ <-]%lookup_singleton_Some. by vm_compute. }
    intros k p. simpl. rewrite lookup_insert_Some, lookup_singleton_Some.
    intros [[_ <-]|(_ & _ & <-)]; (split; [by split|by vm_compute|by vm_compute|]); simpl;
      [apply map_Forall_empty|done].
  - intros rs [= <-]. split; [by vm_compute|]. by apply (bool_decide_unpack _).
  - intros document [= <-]. split; [|split; [by vm_compute|by intros rs [= <-]]].
    eapply Forall_impl; [apply (bool_decide_unpack (Forall (λ c, (c < 128)%N) _)); by vm_compute|].
    intros c Hc. left. simpl in Hc. lia.
Qed.

Lemma pair_eq {A B} (run : A * B) r : run.1 = r → run = (r, run.2).
Proof. intros <-. by destruct run. Qed.


(** A write that fails midway leaves everything but objects alone. *)
Definition failing_stage : result TransactionBundle StateStoreError * Fs :=
  stage_candidate sample_sha256 sample_json_to_vec sample_uuid_to_string url_origin sample_yaml_to_string
    (λ _, lit "w") sample_authoritative (MkFs (files committed_sample.2) [Fine; Fine; Broken 3]).

Lemma stage_candidate_confined_witness :
  persistence_view sample_json_from_slice failing_stage.2 =
    persistence_view sample_json_from_slice (MkFs (files committed_sample.2) [Fine; Fine; Broken 3]).
Proof.
  exact (proj2 (stage_candidate_confined sample_sha256 sample_json_to_vec sample_json_from_slice
    sample_uuid_to_string sample_uuid_parse sample_url_parse url_origin (λ _, None) sample_yaml_from_str
    sample_yaml_to_string (λ _, lit "w") (lit "42") sample_sha256_digest sample_json_round_trip sample_authoritative
    (MkFs (files committed_sample.2) [Fine; Fine; Broken 3]) failing_stage.1 failing_stage.2
    (pair_eq failing_stage _ eq_refl))).
Defined.

Definition loaded_sample : result (option HydratedState) StateStoreError * Fs :=
  load_committed sample_sha256 sample_json_from_slice sample_uuid_to_string sample_uuid_parse sample_url_parse
    (λ _, Some (VMapping sample_document)) sample_yaml_from_str (MkSnapshotLimits 16 8) product_limits
    committed_sample.2.

Lemma load_committed_sound_witness :
  match loaded_sample.1 with
  | Ok (Some h) => hs_runtime_generation h = 4 ∧ cat_profiles (hs_profiles h) ≠ ∅
  | _ => False
  end.
Proof.
  assert (match loaded_sample.1 with Ok (Some h) => (hs_runtime_generation h =? 4) = true | _ => False end) as Hc
    by by vm_compute.
  destruct loaded_sample as [[[h|]|] w'] eqn:Hl; [|destruct Hc..]. simpl in Hc. split; [by apply Z.eqb_eq|].
  apply (load_committed_sound sample_sha256 sample_json_from_slice sample_uuid_to_string sample_uuid_parse
    sample_url_parse (λ _, Some (VMapping sample_document)) sample_yaml_from_str (λ _, lit "u")
    sample_sha256_digest (MkSnapshotLimits 16 8) product_limits committed_sample.2 h w' Hl).
Defined.

(** A URL parser that prints a longer text than it read. *)
Definition long_text : str := replicate (Z.to_nat (SUBSCRIPTION_URL_MAX_BYTES + 1)) 97%N.
Definition growing_url_parse (s : str) : option Url :=
  Some (MkUrl (lit "https") (Some (lit "a.example")) long_text None None).
Definition long_url_state : AuthoritativeState :=
  MkAuthoritativeState
    (MkProfileCatalog
       {[5 := MkProfile 5 (lit "home") (MkUrl (lit "https") (Some (lit "a.example")) long_text None None)
                (MkProfileSnapshot [1]%N sample_document [lit "MATCH,DIRECT"] (sha256_hex sample_sha256 [1]%N))
                1 0 None 0 ∅]} (Some 5) 1)
    sample_set [7; 7; 7]%N 4.

Definition long_staged : result TransactionBundle StateStoreError * Fs := sample_stage long_url_state.
Definition long_bundle : TransactionBundle := default sample_bundle (result_ok long_staged.1).
Definition long_prepared : result PreparedTransaction IoError * Fs :=
  prepare sample_sha256 sample_json_to_vec sample_json_from_slice sample_uuid_to_string (lit "42")
    (lit "v") long_bundle long_staged.2.
Definition long_transaction : PreparedTransaction :=
  default (MkPreparedTransaction [] None) (result_ok long_prepared.1).
Definition long_committed : result unit IoError * Fs :=
  commit_prepared sample_sha256 sample_json_to_vec sample_json_from_slice sample_uuid_parse (lit "42")
    long_transaction long_prepared.2.

Lemma long_url_state_typed : candidate_typed sample_uuid_to_string sample_uuid_parse long_url_state.
Proof.
  split; [split; [|intros id [= <-]; by eexists|by split]| |apply sample_set_wf|done].
  - intros k p. unfold long_url_state; simpl. intros [<- <-]%lookup_singleton_Some. by split.
  - intros k p. unfold long_url_state; simpl. intros [_ <-]%lookup_singleton_Some. by split.
Qed.

Lemma long_url_unreadable_witness :
  is_ok (load_committed sample_sha256 sample_json_from_slice sample_uuid_to_string sample_uuid_parse
           growing_url_parse (λ _, Some (VMapping sample_document)) sample_yaml_from_str
           (MkSnapshotLimits 16 8) product_limits long_committed.2).1 = false.
Proof.
  apply (long_url_unreadable sample_sha256 sample_json_to_vec sample_json_from_slice sample_uuid_to_string
    sample_uuid_parse growing_url_parse url_origin (λ _, Some (VMapping sample_document)) sample_yaml_from_str
    sample_yaml_to_string (λ _, lit "u") (lit "42") sample_sha256_digest sample_json_round_trip long_url_state
    (lit "v") long_bundle long_transaction (MkFs ∅ []) long_staged.2 long_prepared.2
    long_committed.2 (MkSnapshotLimits 16 8) product_limits
    (default (sample_state_profile 0 [] None ∅) (cat_profiles (as_profiles long_url_state) !! 5)) (lit "short")).
  - apply (pair_eq long_staged). by vm_compute.
  - apply (pair_eq long_prepared). by vm_compute.
  - apply (pair_eq long_committed). by vm_compute.
  - by vm_compute.
  - apply long_url_state_typed.
  - apply elem_of_btree_values. by exists 5.
  - by vm_compute.
  - by vm_compute.
Defined.
