(* ===== verification/Frame.v ===== *)
(** * Frame: length-delimited JSON frames (src/ipc.rs)

    [write_frame] sends the length of the JSON text as four bytes, big-endian,
    and the text; [read_frame_with_limit] reads one frame back and refuses a
    length over its limit before it reads the text.  [Wire] stands for the
    traits Serialize and Deserialize: the encodings of a type as documents, and
    [WireLaws] for the types whose values read back.  The [serde_json] printer
    and parser are parameters. *)

From S2P Require Import Prelude Text Ordered Constants Json Domain Filesystem Journal Persistence.
Local Open Scope Z_scope.

Class Wire (A : Type) := {
  wire_encode : A → Json;
  wire_decode : Json → option A;
}.

(** The values that survive the wire. *)
Class WireLaws (A : Type) `{Wire A} := {
  wire_valid : A → Prop;
  wire_round_trip x : wire_valid x → wire_decode (wire_encode x) = Some x;
  wire_printable x : wire_valid x → json_printable (wire_encode x) = true;
}.

(** [RequestId], [#[serde(transparent)]] over [u64]. *)
Record RequestId := MkRequestId { request_id_value : Z }.

#[global] Instance RequestId_eq_dec : EqDecision RequestId.
Proof. solve_decision. Defined.

#[global] Instance request_id_wire : Wire RequestId := {|
  wire_encode id := JNumber (request_id_value id);
  wire_decode j := MkRequestId <$> json_uint u64_max j;
|}.

(** ** Reading and writing *)

Inductive FrameError :=
| FrameIo
| FrameJson
| FrameTooLarge (limit actual : Z).

(** [Read::read] into a buffer of [room] bytes. *)
Definition read_once (room : nat) (r : Reader) : result bytes ReadEvent * Reader :=
  match rd_events r with
  | Interrupted :: events => (Err Interrupted, MkReader (rd_content r) events)
  | ReadFailed :: events => (Err ReadFailed, MkReader (rd_content r) events)
  | Chunk n :: events =>
      let room := Nat.min (Nat.max 1 n) room in
      (Ok (take room (rd_content r)), MkReader (drop room (rd_content r)) events)
  | [] => (Ok (take room (rd_content r)), MkReader (drop room (rd_content r)) [])
  end.

(** [Read::read_exact]: reads until [room] bytes are there; an end of the stream
    before that is an error, an interruption is not.  Every turn uses an event
    or a byte of the reader, or ends the loop. *)
Fixpoint read_exact_loop (fuel room : nat) (r : Reader) (got : bytes)
  : result bytes FrameError * Reader :=
  match room, fuel with
  | O, _ => (Ok got, r)
  | _, O => (Err FrameIo, r)
  | _, S fuel' =>
      match read_once room r with
      | (Ok [], r) => (Err FrameIo, r)
      | (Ok chunk, r) => read_exact_loop fuel' (room - length chunk) r (got ++ chunk)
      | (Err Interrupted, r) => read_exact_loop fuel' room r got
      | (Err _, r) => (Err FrameIo, r)
      end
  end.

Definition read_exact (room : nat) (r : Reader) : result bytes FrameError * Reader :=
  read_exact_loop (S (length (rd_events r) + length (rd_content r))) room r [].

(** A [Write] implementation: [None] if it takes all of the next bytes after
    what it has, [Some n] if it fails after [n] of them. *)
Definition Writer : Type := bytes → bytes → option nat.

Definition write_all (writer : Writer) (written content : bytes) : result unit FrameError * bytes :=
  match writer written content with
  | None => (Ok tt, written ++ content)
  | Some n => (Err FrameIo, written ++ take n content)
  end.

(** [u32::to_be_bytes] and [u32::from_be_bytes] *)
Definition u32_to_be_bytes (n : Z) : bytes :=
  (λ i, Z.to_N ((n / 256 ^ i) mod 256)) <$> [3; 2; 1; 0].
Definition u32_from_be_bytes (bs : bytes) : Z := foldl (λ n b, 256 * n + Z.of_N b) 0 bs.

(** [u32::MAX] *)
Abbreviation u32_max := 4294967295.

Section frames.
Context (json_to_vec : Json → bytes) (json_from_slice : bytes → option Json).

(** Returns what the writer has got afterwards. *)
Definition write_frame `{Wire A} (writer : Writer) (written : bytes) (value : A)
  : result unit FrameError * bytes :=
  let payload := json_to_vec (wire_encode value) in
  if IPC_FRAME_MAX_BYTES <? zlen payload
  then (Err (FrameTooLarge IPC_FRAME_MAX_BYTES (zlen payload)), written)
  else if u32_max <? zlen payload
  then (Err (FrameTooLarge IPC_FRAME_MAX_BYTES (zlen payload)), written)
  else
    match write_all writer written (u32_to_be_bytes (zlen payload)) with
    | (Ok _, written) => write_all writer written payload
    | (Err e, written) => (Err e, written)
    end.

Definition read_frame_with_limit `{Wire A} (r : Reader) (limit : Z) : result A FrameError * Reader :=
  match read_exact 4 r with
  | (Err e, r) => (Err e, r)
  | (Ok header, r) =>
      let length := u32_from_be_bytes header in
      if limit <? length then (Err (FrameTooLarge limit length), r)
      else
        match read_exact (Z.to_nat length) r with
        | (Err e, r) => (Err e, r)
        | (Ok payload, r) => (ok_or (json_from_slice payload ≫= wire_decode) FrameJson, r)
        end
  end.

Definition read_frame `{Wire A} (r : Reader) : result A FrameError * Reader :=
  read_frame_with_limit r IPC_FRAME_MAX_BYTES.

End frames.

#[global] Program Instance request_id_wire_laws : WireLaws RequestId := {|
  wire_valid id := in_u64 (request_id_value id);
|}.
Next Obligation. intros [n] Hn. cbn [wire_decode wire_encode request_id_wire]. by rewrite json_uint_ok. Qed.
Next Obligation. intros [n] Hn. by apply printable_number. Qed.

#[global] Instance ReadEvent_eq_dec : EqDecision ReadEvent.
Proof. solve_decision. Defined.

(** ** Reading exactly *)

(** The reader reports no failure. *)
Definition calm (r : Reader) : Prop := ReadFailed ∉ rd_events r.

Lemma read_once_inv room r res r' :
  read_once room r = (res, r') →
  match res with
  | Ok chunk => rd_content r = chunk ++ rd_content r' ∧ (length chunk ≤ room)%nat ∧
                (length (rd_events r') ≤ length (rd_events r))%nat ∧
                (room ≠ 0%nat → rd_content r ≠ [] → chunk ≠ [])
  | Err e => rd_content r' = rd_content r ∧ rd_events r = e :: rd_events r' ∧ (∀ n, e ≠ Chunk n)
  end ∧ (calm r → calm r' ∧ res ≠ Err ReadFailed).
Proof.
  assert (∀ room (content : bytes) n, (n ≤ room)%nat → (room ≠ 0 → n ≠ 0)%nat →
    content = take n content ++ drop n content ∧ (length (take n content) ≤ room)%nat ∧
    (room ≠ 0%nat → content ≠ [] → take n content ≠ [])) as Htake.
  { intros room' content n Hn Hn0. rewrite take_drop, length_take. split_and!; [done|lia|].
    intros Hr Hc. destruct n, content; try done. by destruct (Hn0 Hr). }
  unfold read_once, calm. destruct r as [content [|[n| |] events]]; simpl; intros [= <- <-]; simpl.
  - destruct (Htake room content room) as (? & ? & ?); [lia|done|]. split_and!; auto.
  - destruct (Htake room content (Nat.min (Nat.max 1 n) room)) as (? & ? & ?); [lia|lia|].
    split_and!; try done; [lia|]. intros Hc. split; [|done]. intros Hin. apply Hc. by right.
  - split; [done|]. intros Hc. split; [|done]. intros Hin. apply Hc. by right.
  - split; [done|]. intros Hc. destruct Hc. left.
Qed.

(** What a reading loop does, whatever the reader does: it takes a prefix of the
    stream of at most [room] bytes, exactly [room] when it succeeds, and it
    succeeds when the reader does not fail and has enough bytes. *)
Lemma read_exact_loop_spec fuel room r got res r' :
  (length (rd_events r) + length (rd_content r) < fuel)%nat →
  read_exact_loop fuel room r got = (res, r') →
  ∃ taken, rd_content r = taken ++ rd_content r' ∧ (length taken ≤ room)%nat ∧
    (∀ bs, res = Ok bs → bs = got ++ taken ∧ length taken = room) ∧
    (calm r → calm r' ∧ ((room ≤ length (rd_content r))%nat → is_ok res = true)).
Proof.
  revert room r got; induction fuel as [|fuel IH]; intros room r got Hfuel H; [lia|]. simpl in H.
  destruct room as [|room].
  { injection H as <- <-. exists []. split_and!; [done|simpl; lia| |done].
    intros bs [= <-]. by rewrite app_nil_r. }
  destruct (read_once (S room) r) as [res0 r0] eqn:E. apply read_once_inv in E as [E Hcalm].
  destruct res0 as [chunk|e].
  - destruct E as (Hc & Hlen & Hev & Hne). destruct chunk as [|b chunk].
    { injection H as <- <-. exists []. split_and!; [done|simpl; lia|done|].
      intros Hr. destruct (Hcalm Hr) as [? _]. split; [done|]. intros Hroom. exfalso.
      apply Hne; [done| |done]. intros Hnil. rewrite Hnil in Hroom. simpl in Hroom. lia. }
    apply IH in H as (taken & Ht & Hl & Hok & Hcalm').
    2: { rewrite Hc in Hfuel. simpl in Hfuel. rewrite length_app in Hfuel. lia. }
    exists ((b :: chunk) ++ taken). rewrite Hc, Ht, (assoc_L (++)). split_and!; [done| | |].
    + rewrite length_app. simpl in *. lia.
    + intros bs ->. destruct (Hok _ eq_refl) as [-> Hlt]. rewrite (assoc_L (++)), length_app. split; [done|].
      simpl in *. lia.
    + intros Hr. destruct (Hcalm Hr) as [Hr0 _], (Hcalm' Hr0) as [? Hdone]. split; [done|]. intros Hroom.
      apply Hdone. rewrite Ht, !length_app in *. simpl in *. lia.
  - destruct E as (Hc & Hev & He). destruct e as [n| |]; cbn iota in H; [by destruct (He n)|..].
    + apply IH in H as (taken & Ht & Hl & Hok & Hcalm'); [|rewrite Hc, Hev in *; simpl in *; lia].
      exists taken. rewrite <-Hc. split_and!; [done..|]. intros Hr. apply Hcalm'. by apply Hcalm.
    + injection H as <- <-. exists []. rewrite Hc. split_and!; [done|simpl; lia|done|].
      intros Hr. by destruct (Hcalm Hr) as [_ []].
Qed.

Lemma read_exact_spec room r res r' :
  read_exact room r = (res, r') →
  ∃ taken, rd_content r = taken ++ rd_content r' ∧ (length taken ≤ room)%nat ∧
    (∀ bs, res = Ok bs → bs = taken ∧ length taken = room) ∧
    (calm r → calm r' ∧ ((room ≤ length (rd_content r))%nat → is_ok res = true)).
Proof. intros H. eapply read_exact_loop_spec in H as (taken & ?); [exists taken; exact H|lia]. Qed.

Lemma read_exact_loop_err fuel room r got e r' :
  read_exact_loop fuel room r got = (Err e, r') → e = FrameIo.
Proof.
  revert room r got; induction fuel as [|fuel IH]; intros [|room] r got; simpl; try naive_solver.
  destruct (read_once (S room) r) as [[[|b chunk]|[n| |]] r0]; naive_solver.
Qed.

(** From a stream that starts with [front] exactly [front] is read. *)
Lemma read_exact_front front rest r :
  calm r → rd_content r = front ++ rest →
  ∃ r', read_exact (length front) r = (Ok front, r') ∧ rd_content r' = rest ∧ calm r'.
Proof.
  intros Hr Hc. destruct (read_exact (length front) r) as [res r'] eqn:E. exists r'.
  apply read_exact_spec in E as (taken & Ht & Hl & Hok & Hcalm). destruct (Hcalm Hr) as [Hr' Hdone].
  destruct res as [bs|e]; [|rewrite Hc, length_app in Hdone; by specialize (Hdone ltac:(lia))].
  destruct (Hok _ eq_refl) as [-> Hlen]. rewrite Hc in Ht.
  apply app_inj_1 in Ht as [-> ->]; [|done]. done.
Qed.

(** ** Lengths *)

Lemma u32_length n : length (u32_to_be_bytes n) = 4%nat.
Proof. done. Qed.

Lemma u32_round_trip n : 0 ≤ n ≤ u32_max → u32_from_be_bytes (u32_to_be_bytes n) = n.
Proof.
  intros Hn. unfold u32_from_be_bytes, u32_to_be_bytes. cbn [fmap list_fmap foldl].
  rewrite !Z2N.id by (apply Z.mod_pos_bound; lia).
  change (256 ^ 3) with (256 * 256 * 256). change (256 ^ 2) with (256 * 256). change (256 ^ 1) with 256.
  change (256 ^ 0) with 1. rewrite Z.div_1_r. rewrite <-!Z.div_div by lia.
  pose proof (Z.div_mod n 256 ltac:(lia)). pose proof (Z.div_mod (n / 256) 256 ltac:(lia)).
  pose proof (Z.div_mod (n / 256 / 256) 256 ltac:(lia)).
  assert (0 ≤ n / 256 / 256 / 256 < 256).
  { rewrite !Z.div_div by lia. split; [apply Z.div_pos; lia|apply Z.div_lt_upper_bound; lia]. }
  rewrite (Z.mod_small (n / 256 / 256 / 256)) by lia. lia.
Qed.

Lemma u32_nonneg bs : 0 ≤ u32_from_be_bytes bs.
Proof.
  unfold u32_from_be_bytes. assert (∀ n, 0 ≤ n → 0 ≤ foldl (λ n b, 256 * n + Z.of_N b) n bs) as H; [|by apply H].
  induction bs as [|b bs IH]; intros n Hn; simpl; [done|]. apply IH. lia.
Qed.

Lemma u32_bounds bs : length bs = 4%nat → byte_list bs → 0 ≤ u32_from_be_bytes bs ≤ u32_max.
Proof.
  intros Hl Hb. destruct bs as [|a [|b [|c [|d [|]]]]]; try done.
  unfold byte_list in Hb. rewrite !Forall_cons in Hb. destruct Hb as (? & ? & ? & ? & _).
  unfold u32_from_be_bytes. cbn [foldl]. lia.
Qed.

Section laws.
Context (json_to_vec : Json → bytes) (json_from_slice : bytes → option Json).
Context (json_round_trip : ∀ j, json_printable j = true → json_from_slice (json_to_vec j) = Some j).

(** The bytes of one frame. *)
Definition frame_bytes `{Wire A} (value : A) : bytes :=
  u32_to_be_bytes (zlen (json_to_vec (wire_encode value))) ++ json_to_vec (wire_encode value).

Lemma write_frame_Ok `{Wire A} writer written (value : A) written' :
  write_frame json_to_vec writer written value = (Ok tt, written') →
  written' = written ++ frame_bytes value ∧ zlen (json_to_vec (wire_encode value)) ≤ IPC_FRAME_MAX_BYTES.
Proof.
  unfold write_frame, frame_bytes, write_all.
  destruct (Z.ltb_spec IPC_FRAME_MAX_BYTES (zlen (json_to_vec (wire_encode value)))); [done|].
  destruct (_ <? _); [done|]. destruct (writer written _); [done|]. destruct (writer _ _); [done|].
  intros [= <-]. rewrite (assoc_L (++)). split; [done|lia].
Qed.

(** One frame at the front of a stream is read as the value it was written
    from, and nothing more is taken. *)
Lemma read_frame_front `{WireLaws A} (value : A) rest r limit :
  wire_valid value → calm r → rd_content r = frame_bytes value ++ rest →
  zlen (json_to_vec (wire_encode value)) ≤ limit ≤ IPC_FRAME_MAX_BYTES →
  ∃ r', read_frame_with_limit json_from_slice r limit = (Ok value, r') ∧ rd_content r' = rest ∧ calm r'.
Proof.
  intros Hv Hr Hc [Hlen Hmax]. unfold frame_bytes in Hc. rewrite <-(assoc_L (++)) in Hc.
  destruct (read_exact_front _ _ _ Hr Hc) as (r1 & E1 & Hc1 & Hr1). rewrite u32_length in E1.
  destruct (read_exact_front _ _ _ Hr1 Hc1) as (r2 & E2 & Hc2 & Hr2).
  exists r2. split; [|done]. unfold read_frame_with_limit. rewrite E1. cbn zeta.
  rewrite u32_round_trip.
  2: { split; [unfold zlen; lia|]. etrans; [apply Hlen|]. etrans; [apply Hmax|]. by vm_compute. }
  rewrite (proj2 (Z.ltb_ge _ _) Hlen). unfold zlen. rewrite Nat2Z.id, E2.
  rewrite json_round_trip by (by apply wire_printable). cbn [mbind option_bind]. by rewrite wire_round_trip.
Qed.

(** Writing several values one after the other. *)
Fixpoint write_frames `{Wire A} (writer : Writer) (written : bytes) (values : list A)
  : result unit FrameError * bytes :=
  match values with
  | [] => (Ok tt, written)
  | value :: values' =>
      match write_frame json_to_vec writer written value with
      | (Ok _, written) => write_frames writer written values'
      | (Err e, written) => (Err e, written)
      end
  end.

(** Reading [n] frames. *)
Fixpoint read_frames `{Wire A} (n : nat) (r : Reader) : result (list A) FrameError * Reader :=
  match n with
  | O => (Ok [], r)
  | S n' =>
      match read_frame json_from_slice r with
      | (Err e, r) => (Err e, r)
      | (Ok value, r) =>
          match read_frames n' r with
          | (Err e, r) => (Err e, r)
          | (Ok values, r) => (Ok (value :: values), r)
          end
      end
  end.

Lemma write_frames_Ok `{Wire A} writer written (values : list A) written' :
  write_frames writer written values = (Ok tt, written') →
  written' = written ++ concat (frame_bytes <$> values) ∧
  Forall (λ value, zlen (json_to_vec (wire_encode value)) ≤ IPC_FRAME_MAX_BYTES) values.
Proof.
  revert written; induction values as [|v values IH]; intros written Hw; simpl in Hw.
  { injection Hw as <-. split; [by rewrite app_nil_r|constructor]. }
  destruct (write_frame _ _ _ _) as [[[]|] written1] eqn:E; [|done].
  apply write_frame_Ok in E as [-> Hv]. apply IH in Hw as [-> Hvs].
  csimpl. rewrite <-(assoc_L (++) written). split; [done|by constructor].
Qed.

(** Values sent over a connection arrive as they were sent: reading as many
    frames as were written gives the same values in the same order, however the
    transport cuts the stream into chunks and interrupts the reads, and takes
    exactly the bytes of those frames. *)
Theorem frames_round_trip `{WireLaws A} writer (values : list A) written r rest :
  Forall wire_valid values →
  write_frames writer [] values = (Ok tt, written) →
  rd_content r = written ++ rest → ReadFailed ∉ rd_events r →
  ∃ r', read_frames (length values) r = (Ok values, r') ∧ rd_content r' = rest.
Proof.
  intros Hv [-> Hlen]%write_frames_Ok Hc Hr. revert r Hc Hr. rewrite app_nil_l.
  induction values as [|v values IH]; intros r Hc Hr; csimpl in *; [by exists r|].
  apply Forall_cons in Hv as [Hv Hvs]. apply Forall_cons in Hlen as [Hl Hls]. rewrite <-(assoc_L (++)) in Hc.
  destruct (read_frame_front v _ r IPC_FRAME_MAX_BYTES Hv Hr Hc) as (r1 & E1 & Hc1 & Hr1); [lia|].
  destruct (IH Hvs Hls r1 Hc1 Hr1) as (r2 & E2 & Hc2). exists r2. split; [|done].
  unfold read_frame. by rewrite E1, E2.
Qed.

End laws.

(** A peer cannot make the reader take or allocate more than its limit:
    whatever the stream holds and whatever the reads do, one frame takes a prefix
    of the stream of at most four bytes and the limit; a frame that announces
    more is refused after the four bytes of its length. *)
Theorem read_frame_bounded json_from_slice `{Wire A} r limit (res : result A FrameError) r' :
  read_frame_with_limit json_from_slice r limit = (res, r') → 0 ≤ limit →
  ∃ taken, rd_content r = taken ++ rd_content r' ∧ zlen taken ≤ 4 + limit ∧
    (∀ l n, res = Err (FrameTooLarge l n) → l = limit ∧ limit < n ∧ zlen taken = 4) ∧
    (∀ value, res = Ok value → 4 ≤ zlen taken ∧
       zlen taken = 4 + u32_from_be_bytes (take 4 taken)).
Proof.
  unfold read_frame_with_limit. intros Hread Hlim. destruct (read_exact 4 r) as [res0 r0] eqn:E0.
  pose proof E0 as Espec0. apply read_exact_spec in Espec0 as (t0 & Ht0 & Hl0 & Hok0 & _).
  destruct res0 as [header|e].
  2: { injection Hread as <- <-. exists t0. split_and!; [done|unfold zlen; lia| |done].
       intros l n [= ->]. by eapply read_exact_loop_err in E0. }
  destruct (Hok0 _ eq_refl) as [-> Hlen0]. cbn zeta in Hread.
  destruct (Z.ltb_spec limit (u32_from_be_bytes t0)) as [Hbig|Hfit].
  { injection Hread as <- <-. exists t0. split_and!; [done|unfold zlen; lia| |done].
    intros l n [= <- <-]. unfold zlen. split_and!; [done|done|lia]. }
  destruct (read_exact (Z.to_nat (u32_from_be_bytes t0)) r0) as [res1 r1] eqn:E1.
  pose proof E1 as Espec. apply read_exact_spec in Espec as (t1 & Ht1 & Hl1 & Hok1 & _).
  pose proof (u32_nonneg t0) as Hpos.
  assert (rd_content r = (t0 ++ t1) ++ rd_content r1 ∧ zlen (t0 ++ t1) ≤ 4 + limit) as [Hc Hlen].
  { rewrite Ht0, Ht1, (assoc_L (++)). split; [done|]. unfold zlen. rewrite length_app. lia. }
  exists (t0 ++ t1). destruct res1 as [payload|e].
  - injection Hread as <- <-. split_and!; [done..| |].
    + destruct (json_from_slice payload ≫= wire_decode); naive_solver.
    + intros value _. destruct (Hok1 _ eq_refl) as [_ Hlen1]. rewrite take_app_length' by done.
      unfold zlen. rewrite length_app. lia.
  - injection Hread as <- <-. split_and!; [done..| |done]. intros l n [= ->]. by eapply read_exact_loop_err in E1.
Qed.

(** ** A concrete connection: two frames in small, interrupted chunks. *)

Definition sample_ids : list RequestId := [MkRequestId 7; MkRequestId 300].
Definition sample_written : bytes := (write_frames sample_json_to_vec (λ _ _, None) [] sample_ids).2.
Definition sample_reader : Reader :=
  MkReader (sample_written ++ [1; 2]%N) [Chunk 1; Interrupted; Chunk 2; Interrupted; Chunk 1].

Lemma frames_round_trip_witness :
  ∃ r', read_frames sample_json_from_slice 2 sample_reader = (Ok sample_ids, r') ∧
        rd_content r' = [1; 2]%N.
Proof.
  apply (frames_round_trip sample_json_to_vec sample_json_from_slice sample_json_round_trip (λ _ _, None)
    sample_ids sample_written sample_reader [1; 2]%N).
  - repeat constructor; done.
  - by vm_compute.
  - done.
  - apply (bool_decide_unpack _). by vm_compute.
Defined.

(** A frame that announces 16909060 bytes. *)
Definition greedy_reader : Reader := MkReader [1; 2; 3; 4; 5; 6]%N [].

Lemma read_frame_bounded_witness :
  ∃ taken, rd_content greedy_reader = taken ++ [5; 6]%N ∧ zlen taken = 4.
Proof.
  destruct (read_frame_bounded sample_json_from_slice greedy_reader 1000
    (Err (FrameTooLarge 1000 16909060) : result RequestId FrameError) (MkReader [5; 6]%N []))
    as (taken & Hc & _ & Hbig & _); [by vm_compute|done|].
  exists taken. split; [exact Hc|]. exact (proj2 (proj2 (Hbig 1000 16909060 eq_refl))).
Defined.
