(* ===== verification/Request.v ===== *)
(** * Request: the request and response contract of the IPC (src/ipc.rs), and the
    operations it turns into (src/application.rs)

    The documents are what [derive(Serialize, Deserialize)] generates:
    [RequestOperation] is adjacently tagged ([operation] and [payload]) and
    flattened into the request.  Parsing and printing of URLs are parameters. *)

From S2P Require Import Prelude Text Ordered Constants Json Domain Filesystem Journal Persistence Frame.
Local Open Scope Z_scope.

Definition IPC_PROTOCOL_VERSION : Z := 1.

(** ** Operations *)

Inductive RulePlacement :=
| Prepend
| Append
| Before (anchor : str)
| After (anchor : str).

Inductive RequestOperation :=
| Start
| Stop
| Restart
| GetStatus
| SubscribeStatus (after_sequence : option Z)
| ProfileAdd (subscription_url : str)
| ProfileList
| ProfileListPage (offset : Z)
| ProfileUse (profile : str)
| ProfileRemove (profile : str)
| ProxyList (group : str)
| ProxyListPage (group : str) (groups_offset nodes_offset : Z)
| ProxySelect (group node : str)
| LatencyList
| LatencyShow (node : str)
| RuleList
| RuleListPage (offset : Z)
| RuleAdd (rule : str) (placement : RulePlacement)
| RuleReplace (old_rule new_rule : str)
| RuleRemove (rule : str)
| FollowLogs (after_sequence : option Z)
| LogTail (after_sequence : option Z).

Record IpcRequest := MkIpcRequest {
  req_protocol_version : Z;
  req_request_id : RequestId;
  req_operation : RequestOperation;
}.

Definition ipc_request_new (id : RequestId) (op : RequestOperation) : IpcRequest :=
  MkIpcRequest IPC_PROTOCOL_VERSION id op.

(** [ApplicationOperation]; its [RulePlacement] has the same variants. *)
Inductive ApplicationOperation :=
| AppStart
| AppStop
| AppRestart
| AppGetStatus
| AppProfileAdd (subscription_url : Url)
| AppProfileList
| AppProfileListPage (offset : Z)
| AppProfileUse (profile : str)
| AppProfileRemove (profile : str)
| AppProxyList (group : str)
| AppProxyListPage (group : str) (groups_offset nodes_offset : Z)
| AppProxySelect (group node : str)
| AppLatencyList
| AppLatencyShow (node : str)
| AppRuleList
| AppRuleListPage (offset : Z)
| AppRuleAdd (rule : str) (placement : RulePlacement)
| AppRuleReplace (old_rule new_rule : str)
| AppRuleRemove (rule : str).

Inductive OperationConversionError :=
| ConvInvalidSubscriptionUrl
| InvalidListPageOffset
| StreamingOperation.

Definition bounded_page_offset (offset maximum : Z) : result Z OperationConversionError :=
  if offset <=? maximum then Ok offset else Err InvalidListPageOffset.

(** [ProxyListPagePayload::into_application_operation] *)
Definition proxy_page_operation (group : str) (groups_offset nodes_offset : Z)
  : result ApplicationOperation OperationConversionError :=
  let? groups_offset := bounded_page_offset groups_offset MAX_ACTIVE_NODES in
  let? nodes_offset := bounded_page_offset nodes_offset MAX_ACTIVE_NODES in
  Ok (AppProxyListPage group groups_offset nodes_offset).

Definition into_application_operation (url_parse : str → option Url) (op : RequestOperation)
  : result ApplicationOperation OperationConversionError :=
  match op with
  | Start => Ok AppStart
  | Stop => Ok AppStop
  | Restart => Ok AppRestart
  | GetStatus => Ok AppGetStatus
  | ProfileAdd url =>
      let? url := map_err (λ _, ConvInvalidSubscriptionUrl) (subscription_url_parse url_parse url) in
      Ok (AppProfileAdd url)
  | ProfileList => Ok (AppProfileListPage 0)
  | ProfileListPage offset =>
      let? offset := bounded_page_offset offset PROFILE_COUNT_MAX in
      Ok (AppProfileListPage offset)
  | ProfileUse profile => Ok (AppProfileUse profile)
  | ProfileRemove profile => Ok (AppProfileRemove profile)
  | ProxyList group => Ok (AppProxyListPage group 0 0)
  | ProxyListPage group groups_offset nodes_offset =>
      proxy_page_operation group groups_offset nodes_offset
  | ProxySelect group node => Ok (AppProxySelect group node)
  | LatencyList => Ok AppLatencyList
  | LatencyShow node => Ok (AppLatencyShow node)
  | RuleList => Ok (AppRuleListPage 0)
  | RuleListPage offset =>
      let? offset := bounded_page_offset offset LOCAL_RULE_COUNT_MAX in
      Ok (AppRuleListPage offset)
  | RuleAdd rule placement => Ok (AppRuleAdd rule placement)
  | RuleReplace old_rule new_rule => Ok (AppRuleReplace old_rule new_rule)
  | RuleRemove rule => Ok (AppRuleRemove rule)
  | SubscribeStatus _ | FollowLogs _ | LogTail _ => Err StreamingOperation
  end.

(** ** Errors and responses *)

Definition error_code_name (code : ErrorCode) : str :=
  match code with
  | EUsage => lit "usage"
  | ESupervisorUnavailable => lit "supervisor_unavailable"
  | EProtocolMismatch => lit "protocol_mismatch"
  | EProfileAmbiguous => lit "profile_ambiguous"
  | EProfileActive => lit "profile_active"
  | EProfileNotFound => lit "profile_not_found"
  | EProxyGroupNotFound => lit "proxy_group_not_found"
  | ENodeNotFound => lit "node_not_found"
  | ENodeAmbiguous => lit "node_ambiguous"
  | EInvalidSubscriptionUrl => lit "invalid_subscription_url"
  | ERulesUninitialized => lit "rules_uninitialized"
  | ERuleBusy => lit "rule_busy"
  | ERuleNotFound => lit "rule_not_found"
  | ERuleAmbiguous => lit "rule_ambiguous"
  | ERuleAlreadyExists => lit "rule_already_exists"
  | EPolicyTargetNotFound => lit "policy_target_not_found"
  | EProfileFieldUnsupported => lit "profile_field_unsupported"
  | ETunPermissionDenied => lit "tun_permission_denied"
  | ETunUnsupported => lit "tun_unsupported"
  | ECoreUnavailable => lit "core_unavailable"
  | EExternalOperationFailed => lit "external_operation_failed"
  | EInternal => lit "internal"
  | EOperationUnavailable => lit "operation_unavailable"
  end.

Record IpcError := MkIpcError {
  err_code : str;
  err_message : str;
  err_retryable : bool;
  err_details : option Json;
}.

Definition ipc_error_new (code : ErrorCode) (message : str) (retryable : bool) : IpcError :=
  MkIpcError (error_code_name code) message retryable None.
Definition with_details (e : IpcError) (details : Json) : IpcError :=
  MkIpcError (err_code e) (err_message e) (err_retryable e) (Some details).

Inductive ResponseOutcome :=
| Success (data : Json)
| Failure (error : IpcError).

Record IpcResponse := MkIpcResponse {
  resp_protocol_version : Z;
  resp_request_id : RequestId;
  resp_outcome : ResponseOutcome;
}.

Definition response_success (id : RequestId) (data : Json) : IpcResponse :=
  MkIpcResponse IPC_PROTOCOL_VERSION id (Success data).
Definition response_failure (id : RequestId) (error : IpcError) : IpcResponse :=
  MkIpcResponse IPC_PROTOCOL_VERSION id (Failure error).

Definition response_data (r : IpcResponse) : option Json :=
  match resp_outcome r with Success data => Some data | Failure _ => None end.
Definition response_error (r : IpcResponse) : option IpcError :=
  match resp_outcome r with Success _ => None | Failure error => Some error end.

Inductive CorrelationError :=
| ProtocolMismatch (expected actual : Z)
| RequestIdMismatch (expected actual : RequestId).

(** [IpcResponse::ensure_correlated] and [IpcStreamFrame::ensure_correlated],
    which have the same text. *)
Definition ensure_correlated (protocol_version : Z) (request_id expected : RequestId)
  : result unit CorrelationError :=
  if negb (protocol_version =? IPC_PROTOCOL_VERSION)
  then Err (ProtocolMismatch IPC_PROTOCOL_VERSION protocol_version)
  else if negb (bool_decide (request_id = expected))
  then Err (RequestIdMismatch expected request_id)
  else Ok tt.

Definition validate_protocol (r : IpcRequest) : result unit IpcResponse :=
  if req_protocol_version r =? IPC_PROTOCOL_VERSION then Ok tt
  else
    Err (response_failure (req_request_id r)
           (with_details
              (ipc_error_new EProtocolMismatch (lit "The IPC protocol version is incompatible") false)
              (JObject [(lit "actual", JNumber (req_protocol_version r));
                        (lit "expected", JNumber IPC_PROTOCOL_VERSION)]))).

(** ** Encodings *)

Definition placement_encode (p : RulePlacement) : Json :=
  match p with
  | Prepend => JObject [(lit "position", JString (lit "prepend"))]
  | Append => JObject [(lit "position", JString (lit "append"))]
  | Before anchor => JObject [(lit "position", JString (lit "before")); (lit "anchor", JString anchor)]
  | After anchor => JObject [(lit "position", JString (lit "after")); (lit "anchor", JString anchor)]
  end.

(** A unit variant of an adjacently tagged enum takes no content but [null]. *)
Definition json_unit (j : option Json) : option unit :=
  match j with None | Some JNull => Some tt | Some _ => None end.

(** [RulePlacement] does not deny unknown fields. *)
Definition placement_decode (j : Json) : option RulePlacement :=
  fields ← json_struct [lit "position"; lit "anchor"] j;
  position ← json_required fields (lit "position") json_str;
  anchor ← json_field fields (lit "anchor");
  if bool_decide (position = lit "prepend") then _ ← json_unit anchor; Some Prepend
  else if bool_decide (position = lit "append") then _ ← json_unit anchor; Some Append
  else if bool_decide (position = lit "before") then Before <$> (anchor ≫= json_str)
  else if bool_decide (position = lit "after") then After <$> (anchor ≫= json_str)
  else None.

Definition operation_tag (op : RequestOperation) : str :=
  match op with
  | Start => lit "start"
  | Stop => lit "stop"
  | Restart => lit "restart"
  | GetStatus => lit "get_status"
  | SubscribeStatus _ => lit "subscribe_status"
  | ProfileAdd _ => lit "profile_add"
  | ProfileList => lit "profile_list"
  | ProfileListPage _ => lit "profile_list_page"
  | ProfileUse _ => lit "profile_use"
  | ProfileRemove _ => lit "profile_remove"
  | ProxyList _ => lit "proxy_list"
  | ProxyListPage _ _ _ => lit "proxy_list_page"
  | ProxySelect _ _ => lit "proxy_select"
  | LatencyList => lit "latency_list"
  | LatencyShow _ => lit "latency_show"
  | RuleList => lit "rule_list"
  | RuleListPage _ => lit "rule_list_page"
  | RuleAdd _ _ => lit "rule_add"
  | RuleReplace _ _ => lit "rule_replace"
  | RuleRemove _ => lit "rule_remove"
  | FollowLogs _ => lit "follow_logs"
  | LogTail _ => lit "log_tail"
  end.

Definition after_payload (after_sequence : option Z) : Json :=
  JObject [(lit "after_sequence", json_option JNumber after_sequence)].

Definition operation_payload (op : RequestOperation) : Json :=
  match op with
  | Start | Stop | Restart | GetStatus | ProfileList | LatencyList | RuleList => JObject []
  | SubscribeStatus after | FollowLogs after | LogTail after => after_payload after
  | ProfileAdd url => JObject [(lit "subscription_url", JString url)]
  | ProfileListPage offset | RuleListPage offset => JObject [(lit "offset", JNumber offset)]
  | ProfileUse profile | ProfileRemove profile => JObject [(lit "profile", JString profile)]
  | ProxyList group => JObject [(lit "group", JString group)]
  | ProxyListPage group groups_offset nodes_offset =>
      JObject [(lit "group", JString group); (lit "groups_offset", JNumber groups_offset);
               (lit "nodes_offset", JNumber nodes_offset)]
  | ProxySelect group node => JObject [(lit "group", JString group); (lit "node", JString node)]
  | LatencyShow node => JObject [(lit "node", JString node)]
  | RuleAdd rule placement =>
      JObject [(lit "rule", JString rule); (lit "placement", placement_encode placement)]
  | RuleReplace old_rule new_rule =>
      JObject [(lit "old_rule", JString old_rule); (lit "new_rule", JString new_rule)]
  | RuleRemove rule => JObject [(lit "rule", JString rule)]
  end.

(** The payload structs, all with [deny_unknown_fields]. *)
Definition empty_decode (j : Json) : option unit :=
  _ ← json_strict_struct [] j; Some tt.
Definition after_decode (j : Json) : option (option Z) :=
  fields ← json_strict_struct [lit "after_sequence"] j;
  json_optional fields (lit "after_sequence") (json_uint u64_max).
Definition string_decode (name : str) (j : Json) : option str :=
  fields ← json_strict_struct [name] j; json_required fields name json_str.
Definition offset_decode (j : Json) : option Z :=
  fields ← json_strict_struct [lit "offset"] j; json_required fields (lit "offset") (json_uint usize_max).
Definition strings_decode (first second : str) (j : Json) : option (str * str) :=
  fields ← json_strict_struct [first; second] j;
  a ← json_required fields first json_str;
  b ← json_required fields second json_str;
  Some (a, b).
Definition proxy_page_decode (j : Json) : option RequestOperation :=
  fields ← json_strict_struct [lit "group"; lit "groups_offset"; lit "nodes_offset"] j;
  group ← json_required fields (lit "group") json_str;
  groups_offset ← json_required fields (lit "groups_offset") (json_uint usize_max);
  nodes_offset ← json_required fields (lit "nodes_offset") (json_uint usize_max);
  Some (ProxyListPage group groups_offset nodes_offset).
Definition rule_add_decode (j : Json) : option RequestOperation :=
  fields ← json_strict_struct [lit "rule"; lit "placement"] j;
  rule ← json_required fields (lit "rule") json_str;
  placement ← json_required fields (lit "placement") placement_decode;
  Some (RuleAdd rule placement).

(** The variants by their tags. *)
Definition operation_arms : list (str * (Json → option RequestOperation)) :=
  [(lit "start", λ j, (λ _, Start) <$> empty_decode j);
   (lit "stop", λ j, (λ _, Stop) <$> empty_decode j);
   (lit "restart", λ j, (λ _, Restart) <$> empty_decode j);
   (lit "get_status", λ j, (λ _, GetStatus) <$> empty_decode j);
   (lit "subscribe_status", λ j, SubscribeStatus <$> after_decode j);
   (lit "profile_add", λ j, ProfileAdd <$> string_decode (lit "subscription_url") j);
   (lit "profile_list", λ j, (λ _, ProfileList) <$> empty_decode j);
   (lit "profile_list_page", λ j, ProfileListPage <$> offset_decode j);
   (lit "profile_use", λ j, ProfileUse <$> string_decode (lit "profile") j);
   (lit "profile_remove", λ j, ProfileRemove <$> string_decode (lit "profile") j);
   (lit "proxy_list", λ j, ProxyList <$> string_decode (lit "group") j);
   (lit "proxy_list_page", proxy_page_decode);
   (lit "proxy_select", λ j, (λ p, ProxySelect p.1 p.2) <$> strings_decode (lit "group") (lit "node") j);
   (lit "latency_list", λ j, (λ _, LatencyList) <$> empty_decode j);
   (lit "latency_show", λ j, LatencyShow <$> string_decode (lit "node") j);
   (lit "rule_list", λ j, (λ _, RuleList) <$> empty_decode j);
   (lit "rule_list_page", λ j, RuleListPage <$> offset_decode j);
   (lit "rule_add", rule_add_decode);
   (lit "rule_replace",
    λ j, (λ p, RuleReplace p.1 p.2) <$> strings_decode (lit "old_rule") (lit "new_rule") j);
   (lit "rule_remove", λ j, RuleRemove <$> string_decode (lit "rule") j);
   (lit "follow_logs", λ j, FollowLogs <$> after_decode j);
   (lit "log_tail", λ j, LogTail <$> after_decode j)].

Definition operation_decode (tag : str) (payload : Json) : option RequestOperation :=
  arm ← head (filter (λ a : str * (Json → option RequestOperation), a.1 = tag) operation_arms);
  arm.2 payload.

(** A struct with a flattened field is read from objects only, and its other
    unknown fields are ignored. *)
Definition request_encode (r : IpcRequest) : Json :=
  JObject [(lit "protocol_version", JNumber (req_protocol_version r));
           (lit "request_id", wire_encode (req_request_id r));
           (lit "operation", JString (operation_tag (req_operation r)));
           (lit "payload", operation_payload (req_operation r))].

Definition request_decode (j : Json) : option IpcRequest :=
  match j with
  | JObject fields =>
      version ← json_required fields (lit "protocol_version") (json_uint 65535);
      id ← json_required fields (lit "request_id") wire_decode;
      tag ← json_required fields (lit "operation") json_str;
      payload ← json_required fields (lit "payload") Some;
      op ← operation_decode tag payload;
      Some (MkIpcRequest version id op)
  | _ => None
  end.

#[global] Instance request_wire : Wire IpcRequest := {|
  wire_encode := request_encode;
  wire_decode := request_decode;
|}.

(** [skip_serializing_if = "Option::is_none"] on the details. *)
Definition error_encode (e : IpcError) : Json :=
  JObject ([(lit "code", JString (err_code e)); (lit "message", JString (err_message e));
            (lit "retryable", JBool (err_retryable e))]
           ++ match err_details e with Some details => [(lit "details", details)] | None => [] end).

Definition response_encode (r : IpcResponse) : Json :=
  JObject ([(lit "protocol_version", JNumber (resp_protocol_version r));
            (lit "request_id", wire_encode (resp_request_id r))]
           ++ match resp_outcome r with
              | Success data => [(lit "data", data)]
              | Failure error => [(lit "error", error_encode error)]
              end).

(** ** Requests survive the wire *)

(** Machine integers within their widths. *)
Definition operation_valid (op : RequestOperation) : Prop :=
  match op with
  | SubscribeStatus after | FollowLogs after | LogTail after => ∀ n, after = Some n → in_u64 n
  | ProfileListPage offset | RuleListPage offset => in_u64 offset
  | ProxyListPage _ groups_offset nodes_offset => in_u64 groups_offset ∧ in_u64 nodes_offset
  | _ => True
  end.

Definition request_valid (r : IpcRequest) : Prop :=
  0 ≤ req_protocol_version r ≤ 65535 ∧ in_u64 (request_id_value (req_request_id r)) ∧
  operation_valid (req_operation r).

Lemma after_round_trip after :
  (∀ n, after = Some n → in_u64 n) → after_decode (after_payload after) = Some after.
Proof.
  intros Ha. destruct after as [n|]; [|done]. pose proof (json_uint_ok u64_max n (Ha _ eq_refl)) as Hn.
  unfold after_decode, after_payload, json_optional, json_field; simpl in *. by rewrite Hn.
Qed.

Lemma offset_round_trip offset : in_u64 offset → offset_decode (JObject [(lit "offset", JNumber offset)]) = Some offset.
Proof.
  intros Hn%(json_uint_ok u64_max). unfold offset_decode, json_required, json_field; simpl in *. by rewrite Hn.
Qed.

Lemma placement_round_trip p : placement_decode (placement_encode p) = Some p.
Proof. by destruct p. Qed.

Lemma operation_round_trip op :
  operation_valid op → operation_decode (operation_tag op) (operation_payload op) = Some op.
Proof.
  destruct op; intros Hv; unfold operation_decode; simpl in Hv |- *; try done;
    try (by rewrite after_round_trip); try (by rewrite offset_round_trip).
  - destruct Hv as [Hg%(json_uint_ok u64_max) Hn%(json_uint_ok u64_max)].
    unfold proxy_page_decode, json_required, json_field; simpl in *. by rewrite Hg, Hn.
  - unfold rule_add_decode, json_required, json_field; simpl. by rewrite placement_round_trip.
Qed.

Lemma request_decode_encode r : request_valid r → request_decode (request_encode r) = Some r.
Proof.
  intros (Hv%(json_uint_ok 65535) & Hid & Hop). destruct r as [version id op]; simpl in *.
  pose proof (wire_round_trip id Hid) as Hw. unfold request_decode, request_encode, json_required, json_field.
  simpl in *. rewrite Hv. simpl. rewrite Hw. simpl. by rewrite operation_round_trip.
Qed.

Lemma operation_payload_printable op : operation_valid op → json_printable (operation_payload op) = true.
Proof.
  assert (∀ after, (∀ n, after = Some n → in_u64 n) → json_printable (after_payload after) = true) as Hafter.
  { intros [n|] Ha; [|done]. pose proof (printable_number n (Ha _ eq_refl)) as Hn. simpl in *. by rewrite Hn. }
  destruct op; intros Hv; simpl in Hv; try done; try (by apply Hafter);
    try (pose proof (printable_number _ Hv) as Hn; simpl in *; by rewrite Hn).
  - destruct Hv as [Hg%printable_number Hn%printable_number]. simpl in *. by rewrite Hg, Hn.
  - by destruct placement.
Qed.

Lemma request_printable r : request_valid r → json_printable (request_encode r) = true.
Proof.
  intros (Hv & Hid%printable_number & Hop%operation_payload_printable).
  assert (in_u64 (req_protocol_version r)) as Hv'%printable_number by (unfold in_u64; lia).
  cbn [request_encode json_printable forallb]. simpl in Hv', Hid. simpl.
  by rewrite Hv', Hid, Hop.
Qed.

#[global] Instance request_wire_laws : WireLaws IpcRequest := {|
  wire_valid := request_valid;
  wire_round_trip := request_decode_encode;
  wire_printable := request_printable;
|}.

(** ** Properties *)

Section delivery.
Context (json_to_vec : Json → bytes) (json_from_slice : bytes → option Json).
Context (json_round_trip : ∀ j, json_printable j = true → json_from_slice (json_to_vec j) = Some j).

(** A request reaches the server as the client made it: after a client wrote a
    request whose text is within the server's limit for request frames, the
    server reads that request, with every field of every operation, and passes
    the version check exactly when the client has the server's version. *)
Theorem request_delivered writer request written r rest :
  request_valid request →
  write_frame json_to_vec writer [] request = (Ok tt, written) →
  zlen written ≤ 4 + IPC_REQUEST_FRAME_MAX_BYTES →
  rd_content r = written ++ rest → ReadFailed ∉ rd_events r →
  ∃ r', read_frame_with_limit json_from_slice r IPC_REQUEST_FRAME_MAX_BYTES = (Ok request, r') ∧
    rd_content r' = rest ∧
    (is_ok (validate_protocol request) = true ↔ req_protocol_version request = IPC_PROTOCOL_VERSION).
Proof.
  intros Hv [Hw Hlen]%write_frame_Ok Hsize Hc Hr. rewrite app_nil_l in Hw. subst written.
  destruct (read_frame_front json_to_vec json_from_slice json_round_trip request rest r IPC_REQUEST_FRAME_MAX_BYTES)
    as (r' & Hread & Hrest & _); [done..| |].
  - split; [|by vm_compute]. unfold frame_bytes in Hsize. rewrite zlen_app in Hsize.
    change (zlen (u32_to_be_bytes _)) with 4 in Hsize. lia.
  - exists r'. split_and!; [done..|]. unfold validate_protocol.
    destruct (Z.eqb_spec (req_protocol_version request) IPC_PROTOCOL_VERSION); simpl; naive_solver.
Qed.

End delivery.

Definition sample_request : IpcRequest :=
  ipc_request_new (MkRequestId 9) (RuleAdd (lit "MATCH,DIRECT") (Before (lit "DOMAIN,a,PROXY"))).
Definition sample_request_bytes : bytes :=
  (write_frame sample_json_to_vec (λ _ _, None) [] sample_request).2.

Lemma request_delivered_witness :
  ∃ r', read_frame_with_limit sample_json_from_slice
          (MkReader (sample_request_bytes ++ [1]%N) [Chunk 3; Interrupted]) IPC_REQUEST_FRAME_MAX_BYTES
        = (Ok sample_request, r') ∧ rd_content r' = [1]%N.
Proof.
  destruct (request_delivered sample_json_to_vec sample_json_from_slice sample_json_round_trip (λ _ _, None)
    sample_request sample_request_bytes (MkReader (sample_request_bytes ++ [1]%N) [Chunk 3; Interrupted]) [1]%N)
    as (r' & Hread & Hrest & _).
  - split_and!; [by vm_compute..|done].
  - by vm_compute.
  - by vm_compute.
  - done.
  - apply (bool_decide_unpack _). by vm_compute.
  - exists r'. split; [exact Hread|exact Hrest].
Defined.
