(* ===== verification/Subscriber.v ===== *)
(** * Subscriber: the bounded subscriber queues of the IPC (src/ipc.rs)

    A [StatusSubscriber] holds the status items a client has yet to read, a
    [LogSubscriber] the log records.  When a queue is full or a sequence number
    is skipped, the queue is replaced by a marker and the client has to fetch a
    snapshot or a tail.  Methods that take [&mut self] return the state after
    the call. *)

From S2P Require Import Prelude Text Ordered Constants Json Domain Telemetry.
Local Open Scope Z_scope.

Inductive SubscriberPublishStatus := Queued | PublishResyncRequired | AwaitingResync.

Inductive SubscriberError := InvalidCapacity.

(** ** Status *)

Inductive StatusStreamItem :=
| Snapshot (sequence timestamp : Z) (snapshot : Json)
| Event (sequence timestamp : Z) (event : Json)
| ResyncRequired (expected_sequence observed_sequence : Z).

Record StatusSubscriber := MkStatusSubscriber {
  ss_capacity : Z;
  ss_last_sequence : Z;
  ss_requires_resync : bool;
  ss_queue : list StatusStreamItem;
}.

Definition status_new (cap seq timestamp : Z) (snapshot : Json)
  : result StatusSubscriber SubscriberError :=
  if cap =? 0 then Err InvalidCapacity
  else Ok (MkStatusSubscriber cap seq false [Snapshot seq timestamp snapshot]).

Definition require_resync (s : StatusSubscriber) (expected observed : Z) : StatusSubscriber :=
  MkStatusSubscriber (ss_capacity s) observed true [ResyncRequired expected observed].

Definition update_resync_marker (s : StatusSubscriber) (observed : Z) : StatusSubscriber :=
  MkStatusSubscriber (ss_capacity s) (Z.max (ss_last_sequence s) observed) (ss_requires_resync s)
    match ss_queue s with
    | ResyncRequired expected marker :: queue => ResyncRequired expected (Z.max marker observed) :: queue
    | queue => queue
    end.

Definition status_publish (s : StatusSubscriber) (seq timestamp : Z) (event : Json)
  : SubscriberPublishStatus * StatusSubscriber :=
  if ss_requires_resync s then (AwaitingResync, update_resync_marker s seq)
  else
    match checked_add (ss_last_sequence s) 1 with
    | None => (PublishResyncRequired, require_resync s u64_max seq)
    | Some expected =>
        if negb (seq =? expected) || (zlen (ss_queue s) =? ss_capacity s)
        then (PublishResyncRequired, require_resync s expected seq)
        else (Queued, MkStatusSubscriber (ss_capacity s) seq (ss_requires_resync s)
                        (ss_queue s ++ [Event seq timestamp event]))
    end.

Definition status_resync (s : StatusSubscriber) (seq timestamp : Z) (snapshot : Json)
  : StatusSubscriber :=
  MkStatusSubscriber (ss_capacity s) seq false [Snapshot seq timestamp snapshot].

Definition status_pop_front (s : StatusSubscriber) : option StatusStreamItem * StatusSubscriber :=
  match ss_queue s with
  | [] => (None, s)
  | item :: queue =>
      (Some item, MkStatusSubscriber (ss_capacity s) (ss_last_sequence s) (ss_requires_resync s) queue)
  end.

Definition status_len (s : StatusSubscriber) : Z := zlen (ss_queue s).
Definition status_is_empty (s : StatusSubscriber) : bool := bool_decide (ss_queue s = []).

(** ** Logs *)

Definition log_level_name (l : LogLevel) : str :=
  match l with
  | Debug => lit "debug"
  | Info => lit "info"
  | Warn => lit "warn"
  | Error => lit "error"
  end.

Definition log_source_name (s : LogSource) : str :=
  match s with
  | CoreApi => lit "core_api"
  | Stdout => lit "stdout"
  | Stderr => lit "stderr"
  end.

Record LogRecordV1 := MkLogRecordV1 {
  lr_sequence : Z;
  lr_timestamp : Z;
  lr_level : str;
  lr_source : str;
  lr_message : str;
}.

Definition log_record_from (r : CoreLogRecord) : LogRecordV1 :=
  MkLogRecordV1 (sequence r) (timestamp_unix_ms r) (log_level_name (level r))
    (log_source_name (source r)) (message r).

Inductive LogStreamItem :=
| LogRecord (record : LogRecordV1)
| LogGap (after_sequence : option Z) (latest_sequence : Z).

Record LogTailV1 := MkLogTailV1 {
  tail_records : list LogRecordV1;
  tail_dropped_total : Z;
  tail_gap : bool;
  tail_earliest_sequence : option Z;
  tail_latest_sequence : option Z;
  tail_sequence_horizon : option Z;
}.

Definition log_tail_from (t : LogTail) : LogTailV1 :=
  MkLogTailV1 (log_record_from <$> lt_records t) (lt_dropped_total t) (lt_gap t)
    (lt_earliest_sequence t) (lt_latest_sequence t) (lt_sequence_horizon t).

Record LogSubscriber := MkLogSubscriber {
  ls_capacity : Z;
  ls_last_observed : option Z;
  ls_last_delivered : option Z;
  ls_awaiting_tail : bool;
  ls_gap_count : Z;
  ls_queued_bytes : Z;
  ls_queue : list LogStreamItem;
}.

Definition log_subscriber_new (cap : Z) (after_sequence : option Z)
  : result LogSubscriber SubscriberError :=
  if cap =? 0 then Err InvalidCapacity
  else Ok (MkLogSubscriber cap after_sequence after_sequence false 0 0 []).

Definition require_tail (s : LogSubscriber) (latest : Z) : LogSubscriber :=
  MkLogSubscriber (ls_capacity s) (Some latest) (ls_last_delivered s) true
    (saturating_add (ls_gap_count s) 1) 0 [LogGap (ls_last_delivered s) latest].

Definition marked_gap (queue : list LogStreamItem) (latest : Z) : list LogStreamItem :=
  match queue with
  | LogGap after marker :: queue => LogGap after (Z.max marker latest) :: queue
  | queue => queue
  end.

Definition update_gap_marker (s : LogSubscriber) (latest : Z) : LogSubscriber :=
  MkLogSubscriber (ls_capacity s) (ls_last_observed s) (ls_last_delivered s) (ls_awaiting_tail s)
    (ls_gap_count s) (ls_queued_bytes s) (marked_gap (ls_queue s) latest).

(** [is_some_and(|current| current.checked_add(1).is_none_or(|e| e != seq))] *)
Definition sequence_gap (observed : option Z) (seq : Z) : bool :=
  match observed with
  | None => false
  | Some current =>
      match checked_add current 1 with
      | None => true
      | Some expected => negb (expected =? seq)
      end
  end.

Definition log_publish (s : LogSubscriber) (record : CoreLogRecord)
  : SubscriberPublishStatus * LogSubscriber :=
  let seq := sequence record in
  if ls_awaiting_tail s then
    let observed := match ls_last_observed s with Some current => Z.max current seq | None => seq end in
    (AwaitingResync,
     update_gap_marker
       (MkLogSubscriber (ls_capacity s) (Some observed) (ls_last_delivered s) (ls_awaiting_tail s)
          (ls_gap_count s) (ls_queued_bytes s) (ls_queue s)) seq)
  else
    if sequence_gap (ls_last_observed s) seq
       || (zlen (ls_queue s) =? ls_capacity s)
       || (LOG_SUBSCRIBER_MAX_BYTES <? saturating_add (ls_queued_bytes s) (str_len (message record)))
    then (PublishResyncRequired, require_tail s seq)
    else
      (Queued,
       MkLogSubscriber (ls_capacity s) (Some seq) (ls_last_delivered s) (ls_awaiting_tail s)
         (ls_gap_count s) (saturating_add (ls_queued_bytes s) (str_len (message record)))
         (ls_queue s ++ [LogRecord (log_record_from record)])).

Definition log_pop_front (s : LogSubscriber) : option LogStreamItem * LogSubscriber :=
  match ls_queue s with
  | [] => (None, s)
  | item :: queue =>
      (Some item,
       match item with
       | LogRecord record =>
           MkLogSubscriber (ls_capacity s) (ls_last_observed s) (Some (lr_sequence record))
             (ls_awaiting_tail s) (ls_gap_count s)
             (saturating_sub (ls_queued_bytes s) (str_len (lr_message record))) queue
       | LogGap _ _ =>
           MkLogSubscriber (ls_capacity s) (ls_last_observed s) (ls_last_delivered s)
             (ls_awaiting_tail s) (ls_gap_count s) (ls_queued_bytes s) queue
       end)
  end.

Definition mark_tail_sent (s : LogSubscriber) (latest : option Z) : LogSubscriber :=
  MkLogSubscriber (ls_capacity s) latest latest false (ls_gap_count s) 0 [].

Definition mark_gap (s : LogSubscriber) (latest : Z) : LogSubscriber :=
  if ls_awaiting_tail s then update_gap_marker s latest else require_tail s latest.

Definition log_len (s : LogSubscriber) : Z := zlen (ls_queue s).
Definition log_is_empty (s : LogSubscriber) : bool := bool_decide (ls_queue s = []).

(** ** What a status client can rely on

    A client that applies the items it reads has a view: the last snapshot and
    the events since, at the sequence number it has reached; or it has none and
    waits for a snapshot.  An event that does not continue the view is an error
    for it. *)

Record StatusView := MkStatusView {
  view_sequence : Z;
  view_snapshot : Json;
  view_events : list Json;
}.

Definition status_client_step (v : option StatusView) (item : StatusStreamItem) : option (option StatusView) :=
  match item with
  | Snapshot seq _ snapshot => Some (Some (MkStatusView seq snapshot []))
  | Event seq _ event =>
      match v with
      | Some v =>
          if seq =? view_sequence v + 1
          then Some (Some (MkStatusView seq (view_snapshot v) (view_events v ++ [event])))
          else None
      | None => None
      end
  | ResyncRequired _ _ => Some None
  end.

Fixpoint status_client_run (v : option StatusView) (items : list StatusStreamItem) : option (option StatusView) :=
  match items with
  | [] => Some v
  | item :: items' => v' ← status_client_step v item; status_client_run v' items'
  end.

(** The calls of a server on the subscriber. *)
Inductive StatusOp :=
| OpPublish (seq timestamp : Z) (event : Json)
| OpResync (seq timestamp : Z) (snapshot : Json)
| OpPop.

(** A run: what was delivered, what was published since the last snapshot of
    the subscriber ([None] once the subscriber asked for a resynchronisation),
    and the subscriber. *)
Record StatusRun := MkStatusRun {
  run_delivered : list StatusStreamItem;
  run_published : option StatusView;
  run_subscriber : StatusSubscriber;
}.

Definition status_run_step (r : StatusRun) (op : StatusOp) : StatusRun :=
  match op with
  | OpPublish seq timestamp event =>
      match status_publish (run_subscriber r) seq timestamp event with
      | (Queued, s) =>
          MkStatusRun (run_delivered r)
            ((λ v, MkStatusView seq (view_snapshot v) (view_events v ++ [event])) <$> run_published r) s
      | (_, s) => MkStatusRun (run_delivered r) None s
      end
  | OpResync seq timestamp snapshot =>
      MkStatusRun (run_delivered r) (Some (MkStatusView seq snapshot []))
        (status_resync (run_subscriber r) seq timestamp snapshot)
  | OpPop =>
      match status_pop_front (run_subscriber r) with
      | (Some item, s) => MkStatusRun (run_delivered r ++ [item]) (run_published r) s
      | (None, s) => MkStatusRun (run_delivered r) (run_published r) s
      end
  end.

Record status_run_ok (r : StatusRun) : Prop := {
  status_client : status_client_run None (run_delivered r ++ ss_queue (run_subscriber r)) = Some (run_published r);
  status_bounded : zlen (ss_queue (run_subscriber r)) ≤ ss_capacity (run_subscriber r);
  status_capacity : 1 ≤ ss_capacity (run_subscriber r);
  status_synced : ss_requires_resync (run_subscriber r) = bool_decide (run_published r = None);
  status_sequence : ∀ v, run_published r = Some v → view_sequence v = ss_last_sequence (run_subscriber r);
  status_marker : ss_requires_resync (run_subscriber r) = true →
    ss_queue (run_subscriber r) = [] ∨ ∃ e o, ss_queue (run_subscriber r) = [ResyncRequired e o];
}.

Lemma status_client_run_app v l k :
  status_client_run v (l ++ k) = status_client_run v l ≫= λ v', status_client_run v' k.
Proof.
  revert v; induction l as [|i l IH]; intros v; simpl; [done|].
  destruct (status_client_step v i); simpl; auto.
Qed.

(** What was delivered is always acceptable to the client. *)
Lemma status_delivered r :
  status_run_ok r → ∃ v, status_client_run None (run_delivered r) = Some v ∧
    status_client_run v (ss_queue (run_subscriber r)) = Some (run_published r).
Proof.
  intros [Hc _ _ _ _ _]. rewrite status_client_run_app in Hc. by apply bind_Some in Hc.
Qed.

Lemma status_step_ok r op : status_run_ok r → status_run_ok (status_run_step r op).
Proof.
  intros Hr. destruct (status_delivered r Hr) as (v & Hd & Hq). destruct Hr as [Hc Hb Hcap Hsync Hseq Hmark].
  destruct r as [delivered published [cap last resync queue]]; simpl in *.
  assert (∀ e o, status_run_ok (MkStatusRun delivered None (MkStatusSubscriber cap o true [ResyncRequired e o]))) as Hres.
  { intros e o. split; simpl; try done; [|right; eauto]. by rewrite status_client_run_app, Hd. }
  destruct op as [seq ts ev|seq ts snap|]; unfold status_run_step; simpl.
  - unfold status_publish; simpl. destruct resync.
    { symmetry in Hsync. apply bool_decide_eq_true in Hsync. subst published.
      split; simpl; try done.
      - rewrite status_client_run_app, Hd. simpl. destruct (Hmark eq_refl) as [->|(e & o & ->)]; simpl in *; congruence.
      - by destruct (Hmark eq_refl) as [->|(e & o & ->)].
      - intros _. destruct (Hmark eq_refl) as [->|(e & o & ->)]; [by left|right; eauto]. }
    destruct (checked_add last 1) as [expected|] eqn:Ha; [|apply Hres]. apply checked_add_Some in Ha as [-> _].
    destruct (Z.eqb_spec seq (last + 1)) as [->|]; [|apply Hres]. cbn [negb orb].
    destruct (Z.eqb_spec (zlen queue) cap); [apply Hres|].
    symmetry in Hsync. apply bool_decide_eq_false in Hsync. destruct published as [p|]; [|done].
    split; simpl; try done.
    + rewrite (assoc_L (++)), !status_client_run_app, Hd. cbn [mbind option_bind]. rewrite Hq.
      simpl. by rewrite (Hseq p eq_refl), Z.eqb_refl.
    + rewrite zlen_app. change (zlen [Event (last + 1) ts ev]) with 1. lia.
    + by intros ? [= <-].
  - split; simpl; try done; [|by intros ? [= <-]]. by rewrite status_client_run_app, Hd.
  - unfold status_pop_front; simpl. destruct queue as [|item queue]; [done|]. split; simpl; try done.
    + by rewrite <-(assoc_L (++)).
    + unfold zlen in *. simpl in *. lia.
    + intros Hm. destruct (Hmark Hm) as [|(e & o & [= -> ->])]; [done|by left].
Qed.

(** ** What a log client can rely on

    The client is at the sequence number of the last record it has, [None]
    before the first; it expects the next number, unless it was told of a gap,
    which names where it is, and then waits for a tail. *)

Record LogClient := MkLogClient {
  lc_at : option Z;
  lc_waiting : bool;
}.

(** What the client receives: queue items, and tails it fetched. *)
Inductive LogDelivery :=
| Delivered (item : LogStreamItem)
| TailSent (latest : option Z).

Definition log_client_step (c : LogClient) (d : LogDelivery) : option LogClient :=
  match d with
  | Delivered (LogRecord record) =>
      if lc_waiting c || match lc_at c with Some n => negb (lr_sequence record =? n + 1) | None => false end
      then None
      else Some (MkLogClient (Some (lr_sequence record)) false)
  | Delivered (LogGap after _) =>
      if lc_waiting c || negb (bool_decide (after = lc_at c)) then None
      else Some (MkLogClient (lc_at c) true)
  | TailSent latest => Some (MkLogClient latest false)
  end.

Fixpoint log_client_run (c : LogClient) (ds : list LogDelivery) : option LogClient :=
  match ds with
  | [] => Some c
  | d :: ds' => c' ← log_client_step c d; log_client_run c' ds'
  end.

Inductive LogOp :=
| OpLogPublish (record : CoreLogRecord)
| OpMarkGap (latest : Z)
| OpTailSent (latest : option Z)
| OpLogPop.

Record LogRun := MkLogRun {
  log_delivered : list LogDelivery;
  log_subscriber : LogSubscriber;
}.

Definition log_run_step (r : LogRun) (op : LogOp) : LogRun :=
  match op with
  | OpLogPublish record => MkLogRun (log_delivered r) (log_publish (log_subscriber r) record).2
  | OpMarkGap latest => MkLogRun (log_delivered r) (mark_gap (log_subscriber r) latest)
  | OpTailSent latest =>
      MkLogRun (log_delivered r ++ [TailSent latest]) (mark_tail_sent (log_subscriber r) latest)
  | OpLogPop =>
      match log_pop_front (log_subscriber r) with
      | (Some item, s) => MkLogRun (log_delivered r ++ [Delivered item]) s
      | (None, s) => MkLogRun (log_delivered r) s
      end
  end.

(** The bytes the queue accounts for. *)
Definition item_bytes (item : LogStreamItem) : Z :=
  match item with LogRecord record => str_len (lr_message record) | LogGap _ _ => 0 end.
Definition queue_bytes (queue : list LogStreamItem) : Z := foldr (λ i n, item_bytes i + n) 0 queue.

(** Where the client is once it has read everything delivered and queued. *)
Record log_run_ok (start : option Z) (r : LogRun) : Prop := {
  log_client : log_client_run (MkLogClient start false)
                 (log_delivered r ++ (Delivered <$> ls_queue (log_subscriber r))) =
               Some (MkLogClient (if ls_awaiting_tail (log_subscriber r) then ls_last_delivered (log_subscriber r)
                                  else ls_last_observed (log_subscriber r))
                       (ls_awaiting_tail (log_subscriber r)));
  log_client_at : ∃ waiting, log_client_run (MkLogClient start false) (log_delivered r) =
                    Some (MkLogClient (ls_last_delivered (log_subscriber r)) waiting) ∧
                  (ls_awaiting_tail (log_subscriber r) = false → waiting = false);
  log_bounded : zlen (ls_queue (log_subscriber r)) ≤ ls_capacity (log_subscriber r);
  log_capacity : 1 ≤ ls_capacity (log_subscriber r);
  log_bytes : ls_queued_bytes (log_subscriber r) = queue_bytes (ls_queue (log_subscriber r));
  log_bytes_bounded : ls_queued_bytes (log_subscriber r) ≤ LOG_SUBSCRIBER_MAX_BYTES;
  log_marker : if ls_awaiting_tail (log_subscriber r)
               then ls_queue (log_subscriber r) = [] ∨
                    ∃ latest, ls_queue (log_subscriber r) = [LogGap (ls_last_delivered (log_subscriber r)) latest]
               else Forall (λ i, ∃ record, i = LogRecord record) (ls_queue (log_subscriber r));
}.

Lemma log_client_run_app c l k :
  log_client_run c (l ++ k) = log_client_run c l ≫= λ c', log_client_run c' k.
Proof.
  revert c; induction l as [|d l IH]; intros c; simpl; [done|]. destruct (log_client_step c d); simpl; auto.
Qed.

Lemma item_bytes_nonneg i : 0 ≤ item_bytes i.
Proof. destruct i; simpl; [apply str_len_nonneg|lia]. Qed.

Lemma queue_bytes_app l k : queue_bytes (l ++ k) = queue_bytes l + queue_bytes k.
Proof. induction l as [|i l IH]; simpl; [done|]. rewrite IH. lia. Qed.

Lemma queue_bytes_nonneg l : 0 ≤ queue_bytes l.
Proof. induction l as [|i l IH]; simpl; [done|]. pose proof (item_bytes_nonneg i). lia. Qed.

(** The subscriber after it gave up its queue. *)
Lemma require_tail_ok start r latest :
  log_run_ok start r → ls_awaiting_tail (log_subscriber r) = false →
  log_run_ok start (MkLogRun (log_delivered r) (require_tail (log_subscriber r) latest)).
Proof.
  intros [_ (waiting & Hd & Hw) _ Hcap _ _ _] Hawait. rewrite (Hw Hawait) in Hd.
  split; simpl; try done; [|exists false; split; [done|by intros]|right; eauto].
  rewrite log_client_run_app, Hd. cbn [mbind option_bind log_client_run log_client_step lc_waiting lc_at orb].
  by rewrite bool_decide_true.
Qed.

Lemma update_gap_marker_ok start r latest observed :
  log_run_ok start r → ls_awaiting_tail (log_subscriber r) = true →
  let s := log_subscriber r in
  log_run_ok start (MkLogRun (log_delivered r)
    (update_gap_marker (MkLogSubscriber (ls_capacity s) observed (ls_last_delivered s) (ls_awaiting_tail s)
       (ls_gap_count s) (ls_queued_bytes s) (ls_queue s)) latest)).
Proof.
  intros [Hc Hd Hb Hcap Hbytes Hmax Hmark] Hawait. rewrite Hawait in Hmark.
  destruct r as [delivered [cap obs del await gaps bytes queue]]; simpl in *. subst await.
  destruct Hmark as [->|(m & ->)]; split; simpl in *; try done; eauto.
  by rewrite log_client_run_app in *.
Qed.

Lemma log_publish_ok start r record :
  log_run_ok start r → log_run_ok start (log_run_step r (OpLogPublish record)).
Proof.
  intros Hr. unfold log_run_step, log_publish.
  destruct (ls_awaiting_tail (log_subscriber r)) eqn:Hawait.
  { cbn [snd]. rewrite <-Hawait. by apply update_gap_marker_ok. }
  destruct (sequence_gap _ _) eqn:Hgap; [by apply require_tail_ok|]. cbn [orb].
  destruct (Z.eqb_spec (zlen (ls_queue (log_subscriber r))) (ls_capacity (log_subscriber r))) as [|Hlen];
    [by apply require_tail_ok|]. cbn [orb].
  destruct (Z.ltb_spec LOG_SUBSCRIBER_MAX_BYTES
    (saturating_add (ls_queued_bytes (log_subscriber r)) (str_len (message record)))) as [|Hsize];
    [by apply require_tail_ok|].
  destruct Hr as [Hc Hd Hb Hcap Hbytes Hmax Hmark].
  destruct r as [delivered [cap obs del await gaps bytes queue]]; simpl in *. subst await.
  assert (saturating_add bytes (str_len (message record)) = bytes + str_len (message record)) as Hsat.
  { unfold saturating_add in *. unfold LOG_SUBSCRIBER_MAX_BYTES in Hsize. lia. }
  split; simpl; try done.
  - rewrite fmap_app, (assoc_L (++)), log_client_run_app, Hc.
    cbn [mbind option_bind fmap list_fmap log_client_run log_client_step lc_waiting lc_at orb log_record_from lr_sequence].
    destruct obs as [n|]; [|done]. unfold sequence_gap in Hgap.
    destruct (checked_add n 1) as [e|] eqn:Ha; [|done]. apply checked_add_Some in Ha as [-> _].
    apply negb_false_iff, Z.eqb_eq in Hgap. by rewrite <-Hgap, Z.eqb_refl.
  - rewrite zlen_app. change (zlen [LogRecord (log_record_from record)]) with 1. lia.
  - rewrite Hsat, queue_bytes_app, Hbytes. simpl. lia.
  - apply Forall_app. split; [done|]. rewrite Forall_singleton. eauto.
Qed.

Lemma log_pop_ok start r : log_run_ok start r → log_run_ok start (log_run_step r OpLogPop).
Proof.
  intros Hr. unfold log_run_step, log_pop_front.
  destruct (ls_queue (log_subscriber r)) as [|item queue'] eqn:Hq; [by destruct r|].
  destruct Hr as [Hc (waiting & Hd & Hw) Hb Hcap Hbytes Hmax Hmark].
  destruct r as [delivered [cap obs del await gaps bytes queue]]; simpl in *. subst queue.
  assert (log_client_run (MkLogClient start false)
    ((delivered ++ [Delivered item]) ++ (Delivered <$> queue')) =
    log_client_run (MkLogClient start false) (delivered ++ (Delivered <$> (item :: queue')))) as Hrun
    by (by rewrite <-(assoc_L (++))).
  pose proof (queue_bytes_nonneg queue') as Hpos. pose proof (item_bytes_nonneg item) as Hipos.
  assert (zlen queue' ≤ cap) as Hb' by (unfold zlen in *; simpl in *; lia).
  destruct item as [record|after latest]; simpl in *.
  - destruct await; [by destruct Hmark as [|(m & [=])]|]. apply Forall_cons in Hmark as [_ Hmark].
    rewrite (Hw eq_refl) in Hd. split; simpl; try done.
    + by rewrite Hrun.
    + exists false. split; [|done]. rewrite log_client_run_app, Hd. cbn [mbind option_bind].
      rewrite log_client_run_app, Hd in Hc. cbn [mbind option_bind fmap list_fmap log_client_run] in Hc |- *.
      apply bind_Some in Hc as (c' & Hstep & _). rewrite Hstep. cbn [mbind option_bind].
      simpl in Hstep. by destruct (match del with Some _ => _ | None => _ end); simplify_eq/=.
    + unfold saturating_sub. lia.
    + unfold saturating_sub. lia.
  - destruct await; [|by inversion_clear Hmark as [|? ? [? [=]]]].
    destruct Hmark as [|(m & [= -> <- ->])]; [done|]. split; simpl; try done; [by rewrite app_nil_r|by exists true|by left].
Qed.

Lemma log_step_ok start r op : log_run_ok start r → log_run_ok start (log_run_step r op).
Proof.
  intros Hr. destruct op as [record|latest|latest|]; [by apply log_publish_ok| | |by apply log_pop_ok].
  - unfold log_run_step, mark_gap. destruct (ls_awaiting_tail (log_subscriber r)) eqn:Hawait.
    + pose proof (update_gap_marker_ok start r latest (ls_last_observed (log_subscriber r)) Hr Hawait) as H.
      by destruct (log_subscriber r).
    + by apply require_tail_ok.
  - destruct Hr as [_ (waiting & Hd & _) _ Hcap _ _ _].
    assert (log_client_run (MkLogClient start false) (log_delivered r ++ [TailSent latest]) =
      Some (MkLogClient latest false)) as Hrun by (by rewrite log_client_run_app, Hd).
    split; simpl; try done; [by rewrite app_nil_r|by exists false|unfold zlen; simpl; lia].
Qed.

(** ** Properties *)

(** A status client never misses or misorders an event without being told:
    for any calls on a subscriber, a client that follows the items it was given
    and those still queued never meets an event that does not continue its view,
    and ends with exactly the last snapshot of the subscriber and all events
    published since, or knows that it has to resynchronise.  The queue never
    exceeds its capacity. *)
Theorem status_stream_faithful cap seq timestamp snapshot s ops :
  status_new cap seq timestamp snapshot = Ok s → 0 ≤ cap →
  let r := foldl status_run_step (MkStatusRun [] (Some (MkStatusView seq snapshot [])) s) ops in
  status_client_run None (run_delivered r ++ ss_queue (run_subscriber r)) = Some (run_published r) ∧
  zlen (ss_queue (run_subscriber r)) ≤ cap ∧
  (ss_requires_resync (run_subscriber r) = true ↔ run_published r = None) ∧
  ∀ v, run_published r = Some v → view_sequence v = ss_last_sequence (run_subscriber r).
Proof.
  intros Hnew Hcap r. unfold status_new in Hnew. destruct (Z.eqb_spec cap 0) as [|Hcap0]; [done|].
  injection Hnew as <-.
  assert (status_run_ok r ∧ ss_capacity (run_subscriber r) = cap) as [[Hc Hb _ Hsync Hseq _] Hcap'].
  { subst r. set (r0 := MkStatusRun [] (Some (MkStatusView seq snapshot []))
      (MkStatusSubscriber cap seq false [Snapshot seq timestamp snapshot])).
    assert (status_run_ok r0) as H0.
    { split; simpl; try done; try (unfold zlen; simpl; lia). by intros ? [= <-]. }
    assert (ss_capacity (run_subscriber r0) = cap) as H1 by done.
    revert H0 H1. generalize r0 as r. induction ops as [|op ops IH]; intros r Hr Hc; [done|]. simpl.
    apply IH; [by apply status_step_ok|]. rewrite <-Hc. clear.
    destruct op; unfold status_run_step, status_publish, status_pop_front; simpl;
      repeat case_match; simplify_eq/=; done. }
  rewrite Hcap' in Hb. split_and!; [done..| |done]. rewrite Hsync. apply bool_decide_eq_true.
Qed.

Lemma status_stream_faithful_witness :
  let s := MkStatusSubscriber 2 5 false [Snapshot 5 0 JNull] in
  let r := foldl status_run_step (MkStatusRun [] (Some (MkStatusView 5 JNull [])) s)
             [OpPublish 6 0 (JNumber 1); OpPop; OpPublish 7 0 (JNumber 2); OpPublish 8 0 (JNumber 3);
              OpPop; OpResync 8 0 JNull; OpPublish 9 0 (JNumber 4)] in
  run_published r = Some (MkStatusView 9 JNull [JNumber 4]) ∧
  status_client_run None (run_delivered r ++ ss_queue (run_subscriber r)) = Some (run_published r).
Proof.
  cbv zeta. split; [by vm_compute|].
  exact (proj1 (status_stream_faithful 2 5 0 JNull (MkStatusSubscriber 2 5 false [Snapshot 5 0 JNull])
    [OpPublish 6 0 (JNumber 1); OpPop; OpPublish 7 0 (JNumber 2); OpPublish 8 0 (JNumber 3);
     OpPop; OpResync 8 0 JNull; OpPublish 9 0 (JNumber 4)] eq_refl ltac:(lia))).
Defined.

(** A log client sees an unbroken sequence or is told of the gap: for any calls
    on a subscriber, the records delivered and queued continue each other's
    sequence numbers from where the client started; a gap marker names the last
    sequence number the client has, and after it comes nothing but a tail; a
    client that has read everything is at the last record published, unless it
    awaits a tail.  Queue length and queued bytes stay within their limits, and
    the byte count is exact. *)
Theorem log_stream_faithful cap start s ops :
  log_subscriber_new cap start = Ok s → 0 ≤ cap →
  let r := foldl log_run_step (MkLogRun [] s) ops in
  let s' := log_subscriber r in
  log_client_run (MkLogClient start false) (log_delivered r ++ (Delivered <$> ls_queue s')) =
    Some (MkLogClient (if ls_awaiting_tail s' then ls_last_delivered s' else ls_last_observed s')
            (ls_awaiting_tail s')) ∧
  zlen (ls_queue s') ≤ cap ∧
  ls_queued_bytes s' = queue_bytes (ls_queue s') ∧ ls_queued_bytes s' ≤ LOG_SUBSCRIBER_MAX_BYTES.
Proof.
  intros Hnew Hcap r s'. unfold log_subscriber_new in Hnew. destruct (Z.eqb_spec cap 0) as [|Hcap0]; [done|].
  injection Hnew as <-.
  assert (log_run_ok start r ∧ ls_capacity (log_subscriber r) = cap) as [[Hc _ Hb _ Hbytes Hmax _] Hcap'].
  { subst s' r. set (r0 := MkLogRun [] (MkLogSubscriber cap start start false 0 0 [])).
    assert (log_run_ok start r0) as H0.
    { split; simpl; try done; try (unfold zlen; simpl; lia). by exists false. }
    assert (ls_capacity (log_subscriber r0) = cap) as H1 by done.
    revert H0 H1. generalize r0 as r. induction ops as [|op ops IH]; intros r Hr Hc; [done|]. simpl.
    apply IH; [by apply log_step_ok|]. rewrite <-Hc. clear.
    destruct op; unfold log_run_step, log_publish, log_pop_front, mark_gap; simpl;
      repeat case_match; simplify_eq/=; done. }
  subst s'. rewrite Hcap' in Hb. done.
Qed.

Definition sample_record (n : Z) : CoreLogRecord := MkCoreLogRecord n 0 Info Stdout (lit "m").

Lemma log_stream_faithful_witness :
  let r := foldl log_run_step (MkLogRun [] (MkLogSubscriber 2 (Some 3) (Some 3) false 0 0 []))
             [OpLogPublish (sample_record 4); OpLogPop; OpLogPublish (sample_record 6); OpLogPop;
              OpTailSent (Some 6); OpLogPublish (sample_record 7)] in
  zlen (ls_queue (log_subscriber r)) = 1 ∧
  log_client_run (MkLogClient (Some 3) false)
    (log_delivered r ++ (Delivered <$> ls_queue (log_subscriber r))) = Some (MkLogClient (Some 7) false).
Proof.
  cbv zeta. split; [by vm_compute|].
  exact (proj1 (log_stream_faithful 2 (Some 3) (MkLogSubscriber 2 (Some 3) (Some 3) false 0 0 [])
    [OpLogPublish (sample_record 4); OpLogPop; OpLogPublish (sample_record 6); OpLogPop;
     OpTailSent (Some 6); OpLogPublish (sample_record 7)] eq_refl ltac:(lia))).
Defined.
