(* ===== verification/Program.v ===== *)
(** * Program: trees of calls

    Code that acts only through calls on other components is a [tree] of those
    calls: [Ret] is a finished computation, [Vis c k] makes the call [c] and goes
    on with its answer.  [C X] are the calls that answer an [X]. *)

From S2P Require Import Prelude.

Inductive tree (C : Type → Type) (A : Type) : Type :=
| Ret (a : A)
| Vis {X : Type} (c : C X) (k : X → tree C A).
Arguments Ret {C A} a.
Arguments Vis {C A X} c k.

Fixpoint prog_bind {C A B} (p : tree C A) (k : A → tree C B) : tree C B :=
  match p with
  | Ret a => k a
  | Vis c next => Vis c (λ x, prog_bind (next x) k)
  end.

Definition call {C : Type → Type} {X} (c : C X) : tree C X := Vis c Ret.

Notation "'let*' x ':=' p 'in' k" := (prog_bind p (λ x, k))
  (at level 10, x name, p at level 100, k at level 200,
   format "'[v' 'let*'  x  ':='  p  'in' '/' k ']'") : rust_scope.
(** The [?] operator on the result of a program. *)
Definition prog_try {C A B E} (p : tree C (result A E)) (k : A → tree C (result B E))
  : tree C (result B E) :=
  prog_bind p (λ r, match r with Ok x => k x | Err e => Ret (Err e) end).
Notation "'try*' x ':=' p 'in' k" := (prog_try p (λ x, k))
  (at level 10, x name, p at level 100, k at level 200,
   format "'[v' 'try*'  x  ':='  p  'in' '/' k ']'") : rust_scope.
Notation "'do*' p 'in' k" := (prog_try p (λ _, k))
  (at level 10, p at level 100, k at level 200,
   format "'[v' 'do*'  p  'in' '/' k ']'") : rust_scope.

Definition prog_map_err {C A E F} (f : E → F) (p : tree C (result A E)) : tree C (result A F) :=
  let* r := p in Ret (map_err f r).

(** ** Programs with a state

    A function that takes [&mut S] passes the state along. *)

Definition stp (C : Type → Type) (S A : Type) : Type := S → tree C (A * S).

Section stp.
Context {C : Type → Type} {S : Type}.

Definition st_ret {A} (x : A) : stp C S A := λ s, Ret (x, s).
Definition st_bind {A B} (m : stp C S A) (k : A → stp C S B) : stp C S B := λ s,
  prog_bind (m s) (λ p, k p.1 p.2).
Definition st_lift {A} (p : tree C A) : stp C S A := λ s, prog_bind p (λ x, Ret (x, s)).
Definition st_call {A} (c : C A) : stp C S A := st_lift (call c).
Definition st_get {A} (f : S → A) : stp C S A := λ s, Ret (f s, s).
Definition st_modify (f : S → S) : stp C S unit := λ s, Ret (tt, f s).
Definition st_try {A B E} (m : stp C S (result A E)) (k : A → stp C S (result B E)) : stp C S (result B E) :=
  st_bind m (λ r, match r with Ok x => k x | Err e => st_ret (Err e) end).
Definition st_map_err {A E F} (f : E → F) (m : stp C S (result A E)) : stp C S (result A F) :=
  st_bind m (λ r, st_ret (map_err f r)).
End stp.

Notation "'let&' x ':=' m 'in' k" := (st_bind m (λ x, k))
  (at level 10, x name, m at level 100, k at level 200,
   format "'[v' 'let&'  x  ':='  m  'in' '/' k ']'") : rust_scope.
Notation "'then&' m 'in' k" := (st_bind m (λ _, k))
  (at level 10, m at level 100, k at level 200,
   format "'[v' 'then&'  m  'in' '/' k ']'") : rust_scope.
Notation "'try&' x ':=' m 'in' k" := (st_try m (λ x, k))
  (at level 10, x name, m at level 100, k at level 200,
   format "'[v' 'try&'  x  ':='  m  'in' '/' k ']'") : rust_scope.
Notation "'do&' m 'in' k" := (st_try m (λ _, k))
  (at level 10, m at level 100, k at level 200,
   format "'[v' 'do&'  m  'in' '/' k ']'") : rust_scope.

(** ** Contracts

    What the environment promises of each call, in a world [W] that the program
    does not see, and what a call requires of it. *)

Section contract.
Context {C : Type → Type} {W : Type}.
Context (pre : ∀ X, C X → W → Prop) (post : ∀ X, C X → W → X → W → Prop).

(** Every call is made where it may be, and the program ends in [Q]. *)
Fixpoint wpc {A} (p : tree C A) (Q : A → W → Prop) (w : W) : Prop :=
  match p with
  | Ret a => Q a w
  | Vis c k => pre _ c w ∧ ∀ x w', post _ c w x w' → wpc (k x) Q w'
  end.

(** [p] run from [w] may end with [a] in [w']. *)
Fixpoint cruns {A} (p : tree C A) (w : W) (a : A) (w' : W) : Prop :=
  match p with
  | Ret b => b = a ∧ w' = w
  | Vis c k => ∃ x w1, post _ c w x w1 ∧ cruns (k x) w1 a w'
  end.

(** Every call that [p] makes from [w], also in a run that is cut off, satisfies [P]. *)
Fixpoint every_call (P : ∀ X, C X → W → Prop) {A} (p : tree C A) (w : W) : Prop :=
  match p with
  | Ret _ => True
  | Vis c k => P _ c w ∧ ∀ x w', post _ c w x w' → every_call P (k x) w'
  end.

Lemma wpc_mono {A} (p : tree C A) (Q Q' : A → W → Prop) w :
  (∀ a w', Q a w' → Q' a w') → wpc p Q w → wpc p Q' w.
Proof.
  intros HQ. revert w. induction p as [a|X c k IH]; intros w; cbn; [apply HQ|].
  intros [Hc Hk]. split; [done|]. intros x w' Hp. by apply IH, Hk.
Qed.

Lemma wpc_bind {A B} (p : tree C A) (k : A → tree C B) Q w :
  wpc p (λ a w', wpc (k a) Q w') w → wpc (prog_bind p k) Q w.
Proof.
  revert w. induction p as [a|X c next IH]; intros w; cbn; [done|].
  intros [Hc Hk]. split; [done|]. intros x w' Hp. by apply IH, Hk.
Qed.

Lemma wpc_sound {A} (p : tree C A) Q w a w' : wpc p Q w → cruns p w a w' → Q a w'.
Proof.
  revert w. induction p as [b|X c k IH]; intros w; cbn; [by intros HQ [<- ->]|].
  intros [_ Hk] (x & w1 & Hp & Hr). eapply IH; [|done]. by apply Hk.
Qed.

Lemma wpc_every_call (P : ∀ X, C X → W → Prop) {A} (p : tree C A) Q w :
  (∀ X (c : C X) w, pre X c w → P X c w) → wpc p Q w → every_call P p w.
Proof.
  intros HP. revert w. induction p as [a|X c k IH]; intros w; cbn; [done|].
  intros [Hc Hk]. split; [by apply HP|]. intros x w' Hp. by apply IH, Hk.
Qed.

Context {S : Type}.

Lemma wpc_st_bind {A B} (m : stp C S A) (k : A → stp C S B) s Q w :
  wpc (m s) (λ r w', wpc (k r.1 r.2) Q w') w → wpc (st_bind m k s) Q w.
Proof. apply wpc_bind. Qed.
Lemma wpc_st_try {A B E} (m : stp C S (result A E)) (k : A → stp C S (result B E)) s Q w :
  wpc (m s) (λ r w', match r.1 with Ok x => wpc (k x r.2) Q w' | Err e => Q (Err e, r.2) w' end) w →
  wpc (st_try m k s) Q w.
Proof. intros Hm. apply wpc_st_bind. eapply wpc_mono; [|exact Hm]. by intros [[x|e] s'] w'. Qed.
Lemma wpc_st_map_err {A E F} (f : E → F) (m : stp C S (result A E)) s Q w :
  wpc (m s) (λ r w', Q (map_err f r.1, r.2) w') w → wpc (st_map_err f m s) Q w.
Proof. intros Hm. apply wpc_st_bind. eapply wpc_mono; [|exact Hm]. by intros [r s'] w'. Qed.
Lemma wpc_st_call {A} (c : C A) (s : S) Q w :
  pre A c w → (∀ x w', post A c w x w' → Q (x, s) w') → wpc (st_call c s) Q w.
Proof. intros Hc HQ. cbn. auto. Qed.
Lemma wpc_st_ret {A} (x : A) (s : S) (Q : A * S → W → Prop) w : Q (x, s) w → wpc (st_ret x s) Q w.
Proof. done. Qed.
Lemma wpc_st_get {A} (f : S → A) (s : S) (Q : A * S → W → Prop) w : Q (f s, s) w → wpc (st_get f s) Q w.
Proof. done. Qed.
Lemma wpc_st_modify f (s : S) (Q : unit * S → W → Prop) w : Q (tt, f s) w → wpc (st_modify f s) Q w.
Proof. done. Qed.
Lemma wpc_st_lift {A} (p : tree C A) (s : S) Q w : wpc p (λ a w', Q (a, s) w') w → wpc (st_lift p s) Q w.
Proof. intros Hp. apply wpc_bind. eapply wpc_mono; [|exact Hp]. done. Qed.
Lemma wpc_try {A B E} (p : tree C (result A E)) (k : A → tree C (result B E)) Q w :
  wpc p (λ r w', match r with Ok x => wpc (k x) Q w' | Err e => Q (Err e) w' end) w → wpc (prog_try p k) Q w.
Proof. intros Hp. apply wpc_bind. eapply wpc_mono; [|exact Hp]. by intros []. Qed.
Lemma wpc_map_err {A E F} (f : E → F) (p : tree C (result A E)) Q w :
  wpc p (λ r w', Q (map_err f r) w') w → wpc (prog_map_err f p) Q w.
Proof. intros Hp. apply wpc_bind. eapply wpc_mono; [|exact Hp]. done. Qed.
Lemma wpc_call {A} (c : C A) (Q : A → W → Prop) w :
  pre A c w → (∀ x w', post A c w x w' → Q x w') → wpc (call c) Q w.
Proof. intros Hc HQ. cbn. auto. Qed.
End contract.
