(* ===== verification/Ports.v ===== *)
(** * Ports: programs of the transaction coordinator
    (the traits of src/transaction.rs and the data they exchange)

    The coordinator only acts through calls: on the store, the runtime, the
    validator, the health probe, the revision source, the bundle resolver, its
    two locks and the shutdown flag; the Supervisor's transaction port adds the
    staging of state and bundles, its own lock and the revision authority.  A
    function of either is a [prog], a tree of such calls.  [runs] says which executions it has when the store obeys
    [store_spec] and everything else answers anything at all; [reaches] adds
    executions cut off by a crash.  [wp] is the calculus in which the theorems of
    [Transaction] are proved: it checks a condition before every call and a
    postcondition at the end. *)

From S2P Require Import Prelude Text Profile Rule State ConfigData Filesystem Journal Program.
Local Open Scope Z_scope.

(** ** Data of src/core.rs and src/runtime_bundle.rs *)

Record RuntimeBundle := MkRuntimeBundle {
  rb_generation : Z;
  generation_root : str;
  manifest_sha256 : str;
  rb_compiler_policy_sha256 : str;
  mihomo_binary_sha256 : str;
}.

Record CoreControlEndpoint := MkCoreControlEndpoint {
  socket_path : str;
  secret : str;
}.

Record ManagedCoreHandle := MkManagedCoreHandle {
  pid : Z;
  process_start_identity : str;
  endpoint : CoreControlEndpoint;
  instance_generation : Z;
  handle_generation : Z;
}.

Inductive ApplyDisposition := Spawned | Reloaded.

Record ApplyCandidateResult := MkApplyCandidateResult {
  disposition : ApplyDisposition;
  applied_core : ManagedCoreHandle;
}.

Inductive CoreRuntimeLifecycle := Owned | Running | RestartPending | Degraded.
Inductive CoreRuntimeDiagnosticCategory := CoreRestartLimitReached.

(** The backoff in nanoseconds. *)
Record CoreRuntimeRestartStatus := MkRestartStatus {
  restart_pending : bool;
  restart_attempts : Z;
  restart_backoff : option Z;
  restart_diagnostic : option CoreRuntimeDiagnosticCategory;
}.

Inductive CoreRuntimeTunReason := TunReasonPermissionDenied | TunReasonUnsupported.

Record CoreRuntimeTunStatus := MkTunStatus {
  tun_capable : bool;
  tun_reason : option CoreRuntimeTunReason;
}.

Record CoreRuntimeStatus := MkCoreRuntimeStatus {
  managed_core : option ManagedCoreHandle;
  status_lifecycle : CoreRuntimeLifecycle;
  status_restart : CoreRuntimeRestartStatus;
  status_tun : CoreRuntimeTunStatus;
}.

Record RuntimeGenerationRetention := MkRetention {
  retain_current : option Z;
  retain_previous : option Z;
  retain_prepared : option Z;
}.

Record CandidateRevisions := MkCandidateRevisions {
  rev_profile : Z;
  rev_active_profile : Z;
  rev_local_rule_set : Z;
  rev_compiler_policy_sha256 : str;
  rev_core_version : str;
}.

Inductive RuntimeApplyFailure := Definite | Indeterminate | TunPermissionDenied | TunUnsupported.

Inductive TryLock := TryLocked | WouldBlock | Poisoned.

#[global] Instance CoreControlEndpoint_eq_dec : EqDecision CoreControlEndpoint.
Proof. solve_decision. Defined.
#[global] Instance CandidateRevisions_eq_dec : EqDecision CandidateRevisions.
Proof. solve_decision. Defined.

(** ** Calls *)

Inductive Call : Type → Type :=
| CStore {A} (c : StoreCall A) : Call A
| CShutdown : Call bool
| CRevisions : Call CandidateRevisions
| CValidate (configuration : EffectiveConfiguration) (root : str) : Call (result unit unit)
| CApply (bundle : RuntimeBundle) : Call (result ApplyCandidateResult RuntimeApplyFailure)
| CStatus : Call (result CoreRuntimeStatus unit)
| CStop : Call (result unit unit)
| CConfirmReady (core : ManagedCoreHandle) : Call (result unit unit)
| CResolve (transaction : TransactionBundle) : Call (result RuntimeBundle unit)
| CPruneGenerations (retention : RuntimeGenerationRetention) : Call (result unit unit)
| CLockCoordinator : Call (result unit unit)
| CTryLockCoordinator : Call TryLock
| CUnlockCoordinator : Call unit
| CLockLifecycle : Call (result unit unit)
| CUnlockLifecycle : Call unit
| CSetShutdown : Call unit
| CCancelValidation : Call unit
| CCancelApply : Call unit
| CStageState (candidate : AuthoritativeState) : Call (result TransactionBundle unit)
| CStageBundle (generation : Z) (configuration : EffectiveConfiguration) : Call (result RuntimeBundle unit)
| CSetRevisions (revisions : CandidateRevisions) : Call unit
| CLockTransactions : Call (result unit unit)
| CTryLockTransactions : Call TryLock
| CUnlockTransactions : Call unit.

(** A call and its answer. *)
Inductive Event :=
| Ev (X : Type) (c : Call X) (x : X).
Arguments Ev {X} c x.

(** ** Programs *)

Abbreviation prog := (tree Call).

Definition store {X} (c : StoreCall X) : prog X := call (CStore c).

(** ** Executions *)

(** What a call may answer, and what it does to the store: only store calls
    change it, and only as their contract says. *)
Definition call_spec {X} (c : Call X) (v : View) : X → View → Prop :=
  match c in Call X return X → View → Prop with
  | CStore sc => store_spec sc v
  | _ => λ _ v', v' = v
  end.

Inductive runs {A} : View → prog A → list Event → A → View → Prop :=
| runs_ret v a : runs v (Ret a) [] a v
| runs_vis X (c : Call X) k v x v1 t a v' :
    call_spec c v x v1 → runs v1 (k x) t a v' → runs v (Vis c k) (Ev c x :: t) a v'.

(** An execution that may stop anywhere, and the store it leaves. *)
Inductive reaches {A} : View → prog A → list Event → View → Prop :=
| reaches_here v p : reaches v p [] v
| reaches_vis X (c : Call X) k v x v1 t v' :
    call_spec c v x v1 → reaches v1 (k x) t v' → reaches v (Vis c k) (Ev c x :: t) v'.

(** ** The calculus *)

Section wp.
(** The condition every call must meet, given the events before it and the
    store; and a condition on every moment. *)
Context (ok : list Event → View → ∀ X, Call X → Prop) (inv : list Event → View → Prop).

Fixpoint wp {A} (p : prog A) (Q : list Event → View → A → Prop) (h : list Event) (v : View) : Prop :=
  inv h v ∧
  match p with
  | Ret a => Q h v a
  | @Vis _ _ X c k => ok h v X c ∧ ∀ x v', call_spec c v x v' → wp (k x) Q (h ++ [Ev c x]) v'
  end.

Lemma wp_mono {A} (p : prog A) (Q Q' : list Event → View → A → Prop) h v :
  (∀ h v a, inv h v → Q h v a → Q' h v a) → wp p Q h v → wp p Q' h v.
Proof.
  intros HQ. revert h v; induction p as [a|X c k IH]; intros h v; simpl; [naive_solver|].
  intros (Hi & Hok & Hk). split; [done|]. split; [done|]. intros x v' Hs. apply IH, Hk, Hs.
Qed.

Lemma wp_inv {A} (p : prog A) Q h v : wp p Q h v → inv h v.
Proof. by destruct p; intros [? _]. Qed.

Lemma wp_bind {A B} (p : prog A) (k : A → prog B) Q h v :
  wp p (λ h v a, wp (k a) Q h v) h v → wp (prog_bind p k) Q h v.
Proof.
  revert h v; induction p as [a|X c k' IH]; intros h v; simpl; [tauto|].
  intros (Hi & Hok & Hk). split; [done|]. split; [done|]. intros x v' Hs. apply IH, Hk, Hs.
Qed.

Lemma wp_ret {A} (a : A) (Q : list Event → View → A → Prop) h v : inv h v → Q h v a → wp (Ret a) Q h v.
Proof. done. Qed.

Lemma wp_try {A B E} (p : prog (result A E)) (k : A → prog (result B E)) Q h v :
  wp p (λ h v r, match r with Ok x => wp (k x) Q h v | Err e => Q h v (Err e) end) h v →
  wp (prog_try p k) Q h v.
Proof.
  intros Hp. apply wp_bind. eapply wp_mono; [|exact Hp]. intros h' v' [x|e] Hi HQ; [done|by apply wp_ret].
Qed.

Lemma wp_call {X} (c : Call X) (Q : list Event → View → X → Prop) h v :
  inv h v → ok h v X c →
  (∀ x v', call_spec c v x v' → inv (h ++ [Ev c x]) v' ∧ Q (h ++ [Ev c x]) v' x) → wp (call c) Q h v.
Proof. intros Hi Hok HQ. split; [done|]. split; [done|]. intros x v' Hs. by apply HQ. Qed.

(** Soundness: the postcondition holds at the end, every call met its
    condition and every moment the invariant. *)
Lemma wp_runs {A} (p : prog A) Q h v t a v' :
  wp p Q h v → runs v p t a v' → Q (h ++ t) v' a.
Proof.
  intros Hwp Hr. revert h Hwp. induction Hr as [v a|X c k v x v1 t a v' Hs Hr IH]; intros h Hwp.
  - rewrite app_nil_r. apply Hwp.
  - destruct Hwp as (_ & _ & Hk). replace (h ++ Ev c x :: t) with ((h ++ [Ev c x]) ++ t)
      by (by rewrite <-(assoc_L (++))). by apply IH, Hk.
Qed.

Lemma wp_reaches {A} (p : prog A) Q h v t v' :
  wp p Q h v → reaches v p t v' → inv (h ++ t) v'.
Proof.
  intros Hwp Hr. revert h Hwp. induction Hr as [v p|X c k v x v1 t v' Hs Hr IH]; intros h Hwp.
  - rewrite app_nil_r. by eapply wp_inv.
  - destruct Hwp as (_ & _ & Hk). replace (h ++ Ev c x :: t) with ((h ++ [Ev c x]) ++ t)
      by (by rewrite <-(assoc_L (++))). by apply IH, Hk.
Qed.

Lemma wp_reaches_ok {A} (p : prog A) Q h v t1 X (c : Call X) x t2 v' :
  wp p Q h v → reaches v p (t1 ++ Ev c x :: t2) v' → ∃ v1, reaches v p t1 v1 ∧ ok (h ++ t1) v1 X c.
Proof.
  intros Hwp Hr. remember (t1 ++ Ev c x :: t2) as t eqn:Ht. revert h t1 Hwp Ht.
  induction Hr as [v p|Y d k v y v1 t v' Hs Hr IH]; intros h t1 Hwp Ht; [by destruct t1|].
  destruct Hwp as (_ & Hok & Hk). destruct t1 as [|e t1]; apply (inj2 cons) in Ht as [He Ht].
  - rewrite app_nil_r. exists v. split; [constructor|].
    assert (∀ e e' : Event, e = e' → match e with @Ev Y d _ => ok h v Y d end →
      match e' with @Ev Y d _ => ok h v Y d end) as Hcast by (by intros ? ? <-).
    by apply (Hcast _ _ He).
  - destruct (IH (h ++ [Ev d y]) t1) as (v2 & Hr2 & Hv2); [by apply Hk|done|]. exists v2.
    subst e. rewrite <-(assoc_L (++)) in Hv2. split; [by econstructor|done].
Qed.

End wp.

#[global] Arguments wp : simpl never.

Lemma runs_reaches {A} v (p : prog A) t a v' : runs v p t a v' → reaches v p t v'.
Proof. induction 1; econstructor; eauto. Qed.

(** ** Running against an implementation of the store *)

Section exec.
Context {W : Type} `{!TransactionStore W}.
(** Answers of everything but the store, given the events so far. *)
Context (environment : list Event → ∀ X, Call X → X).

Definition exec_call {X} (c : Call X) (h : list Event) (w : W) : X * W :=
  match c in Call X return X * W with
  | CStore sc => store_call sc w
  | c => (environment h _ c, w)
  end.

Fixpoint exec {A} (p : prog A) (h : list Event) (w : W) : list Event * A * W :=
  match p with
  | Ret a => (h, a, w)
  | Vis c k => let '(x, w) := exec_call c h w in exec (k x) (h ++ [Ev c x]) w
  end.

Lemma exec_call_spec {X} (c : Call X) h w :
  call_spec c (store_view w) (exec_call c h w).1 (store_view (exec_call c h w).2).
Proof. destruct c; try done. apply store_call_spec. Qed.

Lemma exec_runs {A} (p : prog A) h w :
  let '(h', a, w') := exec p h w in
  ∃ t, h' = h ++ t ∧ runs (store_view w) p t a (store_view w').
Proof.
  revert h w; induction p as [a|X c k IH]; intros h w; simpl.
  - exists []. rewrite app_nil_r. split; [done|constructor].
  - pose proof (exec_call_spec c h w) as Hs. destruct (exec_call c h w) as [x w1]. simpl in Hs.
    specialize (IH x (h ++ [Ev c x]) w1). destruct (exec (k x) _ w1) as [[h' a] w'].
    destruct IH as (t & -> & Hr). exists (Ev c x :: t). rewrite <-(assoc_L (++)). split; [done|].
    by econstructor.
Qed.

(** A run from the beginning. *)
Lemma exec_runs_all {A} (p : prog A) w :
  runs (store_view w) p (exec p [] w).1.1 (exec p [] w).1.2 (store_view (exec p [] w).2).
Proof.
  pose proof (exec_runs p [] w) as H. destruct (exec p [] w) as [[h a] w'].
  destruct H as (t & -> & H). exact H.
Qed.

End exec.
