(* ===== verification/Transaction.v ===== *)
(** * Transaction: the configuration transaction coordinator
    (src/transaction.rs)

    Each function of [ConfigTransactionCoordinator] is a program over the calls
    of [Ports].  [execute_guarded] is written in its four phases; the guards it
    holds are explicit lock and unlock calls. *)

From S2P Require Import Prelude Text Constants ConfigData Filesystem Journal Program Ports.
Local Open Scope Z_scope.

(** ** Data *)

Record ConfigTransactionCandidate := MkCandidate {
  transaction : TransactionBundle;
  runtime : RuntimeBundle;
  configuration : EffectiveConfiguration;
  revisions : CandidateRevisions;
}.

Inductive ApplyPath := Direct | CandidateRestart.

#[global] Instance ApplyPath_eq_dec : EqDecision ApplyPath.
Proof. solve_decision. Defined.

Inductive RecoveryOutcome :=
| NotRequired
| Converged (generation : option Z)
| Pending (target : option Z)
| Failed (target : option Z).

Record ConfigTransactionSuccess := MkSuccess {
  success_candidate_generation : Z;
  success_committed_generation : Z;
  apply_path : ApplyPath;
  success_recovery : RecoveryOutcome;
}.

Inductive ConfigTransactionErrorKind :=
| Busy | LockPoisoned | RecoveryRequired | StaleCandidate | InvalidCandidate | Validation | Prepare
| ErrTunPermissionDenied | ErrTunUnsupported | Apply | IndeterminateApply | Health | Commit | Cleanup
| Recovery | Shutdown.

Record ConfigTransactionError := MkError {
  kind : ConfigTransactionErrorKind;
  error_candidate_generation : option Z;
  error_committed_generation : option Z;
  error_recovery : RecoveryOutcome;
}.

Definition simple (k : ConfigTransactionErrorKind) : ConfigTransactionError :=
  MkError k None None NotRequired.

Record StartupRecovery := MkStartupRecovery {
  recovered_generation : option Z;
  recovered_journal : bool;
}.

Record StartupReapply := MkStartupReapply {
  reapply_committed_generation : option Z;
  reapply_candidate_generation : Z;
  reapply_cleared_journal : bool;
}.

Inductive FailureRecoveryMode := ConvergeCommitted | StopStartupCandidate.

(** ** Queries and cleanup *)

Definition shutdown_is_requested : prog bool := call CShutdown.

(** Called from another thread: the flag first, so that whoever is cancelled
    finds it set. *)
Definition request_shutdown : prog unit :=
  let* _u := call CSetShutdown in
  let* _u := call CCancelValidation in
  call CCancelApply.

Definition shutdown_error (candidate_generation : Z) (committed_generation : option Z)
    (prepared : bool) : ConfigTransactionError :=
  MkError Shutdown (Some candidate_generation) committed_generation
    (if prepared then Pending committed_generation else NotRequired).

(** [if self.shutdown_is_requested() { return Err(e) }] *)
Definition check_shutdown (e : ConfigTransactionError) : prog (result unit ConfigTransactionError) :=
  let* requested := shutdown_is_requested in
  Ret (if requested then Err e else Ok tt).

Definition generation_from_transaction (id : str) : prog (result Z unit) :=
  let* loaded := store (SLoadTransaction id) in
  Ret (match loaded with Ok b => Ok (runtime_generation b) | Err _ => Err tt end).

(** [.map(..).transpose()] of an optional identifier. *)
Definition generation_of_option (id : option str) : prog (result (option Z) unit) :=
  match id with
  | None => Ret (Ok None)
  | Some id => try* g := generation_from_transaction id in Ret (Ok (Some g))
  end.

Definition generation_from_manifest (manifest : option CommittedManifest) : prog (result (option Z) unit) :=
  generation_of_option (current <$> manifest).

Definition runtime_retention (manifest : option CommittedManifest) (prepared : option Z)
  : prog (result RuntimeGenerationRetention unit) :=
  try* current := generation_of_option (current <$> manifest) in
  try* previous := generation_of_option (manifest ≫= manifest_previous) in
  Ret (Ok (MkRetention current previous prepared)).

Definition prune_runtime_state (state : RecoveryState) : prog (result unit unit) :=
  try* prepared := generation_of_option (candidate <$> prepared state) in
  try* retention := runtime_retention (committed state) prepared in
  call (CPruneGenerations retention).

Definition clear_prepared_and_prune (p : PreparedTransaction) : prog (result unit IoError) :=
  do* store (SClearPrepared p) in
  let* _u := store SPruneUnreachable in
  try* state := store SRecover in
  prog_map_err (λ _, OtherIo) (prune_runtime_state state).

(** ** Applying and confirming *)

Definition same_core (actual expected : ManagedCoreHandle) : bool :=
  (pid actual =? pid expected) &&
  bool_decide (process_start_identity actual = process_start_identity expected) &&
  bool_decide (endpoint actual = endpoint expected) &&
  (instance_generation actual =? instance_generation expected).

Definition confirm (applied : ApplyCandidateResult) (expected_generation : Z) : prog (result unit unit) :=
  try* status := call CStatus in
  match managed_core status with
  | None => Ret (Err tt)
  | Some actual =>
      let expected := applied_core applied in
      if negb (same_core actual expected)
         || negb (handle_generation actual =? expected_generation)
         || negb (handle_generation expected =? expected_generation)
      then Ret (Err tt)
      else call (CConfirmReady actual)
  end.

(** [self.runtime.apply_candidate(&self.owner, bundle).map_err(|_| ())] *)
Definition apply_or_fail (bundle : RuntimeBundle) : prog (result ApplyCandidateResult unit) :=
  prog_map_err (λ _, tt) (call (CApply bundle)).

Definition restart_candidate (bundle : RuntimeBundle) : prog (result ApplyCandidateResult unit) :=
  do* call CStop in
  try* applied := apply_or_fail bundle in
  do* confirm applied (rb_generation bundle) in
  Ret (Ok applied).

(** The check whether the runtime already is at [generation]. *)
Definition already_running (generation : Z) : prog bool :=
  let* status := call CStatus in
  match result_ok status ≫= managed_core with
  | None => Ret false
  | Some core =>
      if handle_generation core =? generation
      then let* ready := call (CConfirmReady core) in Ret (is_ok ready)
      else Ret false
  end.

Definition converge_to_transaction (id : option str) : prog (result unit unit) :=
  match id with
  | None => call CStop
  | Some id =>
      try* b := prog_map_err (λ _, tt) (store (SLoadTransaction id)) in
      try* bundle := call (CResolve b) in
      if negb (rb_generation bundle =? runtime_generation b) then Ret (Err tt)
      else
        let* running := already_running (rb_generation bundle) in
        if running then Ret (Ok tt)
        else
          do* call CStop in
          try* applied := apply_or_fail bundle in
          confirm applied (rb_generation bundle)
  end.

Definition converge_to_manifest (manifest : option CommittedManifest) : prog (result unit unit) :=
  converge_to_transaction (current <$> manifest).

(** ** Recovery from failures *)

Definition rollback (p : PreparedTransaction) (target : option Z) : prog RecoveryOutcome :=
  let* converged := converge_to_transaction (prepared_previous p) in
  if negb (is_ok converged) then Ret (Failed target)
  else
    let* cleared := clear_prepared_and_prune p in
    if negb (is_ok cleared) then Ret (Failed target) else Ret (Converged target).

Definition recover_failed_candidate (p : PreparedTransaction) (target : option Z)
    (mode : FailureRecoveryMode) : prog RecoveryOutcome :=
  match mode with
  | ConvergeCommitted => rollback p target
  | StopStartupCandidate =>
      let* _u := call CStop in
      let* _u := clear_prepared_and_prune p in
      Ret (Failed target)
  end.

Definition recover_commit_failure (p : PreparedTransaction) (candidate_generation : Z)
    (previous_generation : option Z) (mode : FailureRecoveryMode)
  : prog (result RecoveryOutcome ConfigTransactionError) :=
  let* recovered := store SRecover in
  match recovered with
  | Err _ => Ret (Err (MkError Commit (Some candidate_generation) previous_generation
                         (Failed previous_generation)))
  | Ok state =>
      if bool_decide (current <$> committed state = Some (candidate p)) then
        let* cleared := clear_prepared_and_prune p in
        Ret (Ok (if is_ok cleared then Converged (Some candidate_generation)
                 else Pending (Some candidate_generation)))
      else
        let* recovery := recover_failed_candidate p previous_generation mode in
        Ret (Err (MkError Commit (Some candidate_generation) previous_generation recovery))
  end.

Definition clear_prepared_unapplied (p : PreparedTransaction) (committed_generation : option Z)
  : prog RecoveryOutcome :=
  let* cleared := clear_prepared_and_prune p in
  Ret (if is_ok cleared then Converged committed_generation else Failed committed_generation).

Definition clear_unapplied_journal (committed_generation : option Z) : prog RecoveryOutcome :=
  let* recovered := store SRecover in
  match recovered with
  | Ok state =>
      match prepared state with
      | Some p => clear_prepared_unapplied p committed_generation
      | None => Ret NotRequired
      end
  | Err _ => Ret (Failed committed_generation)
  end.

(** ** The transaction *)

Definition is_absolute (path : str) : bool := bool_decide (head path = Some 47%N).

Definition structurally_valid (cand : ConfigTransactionCandidate) (committed_generation : option Z)
    (effective_object : option bytes) : bool :=
  let generation := rb_generation (runtime cand) in
  (match committed_generation with None => 0 <? generation | Some current => current <? generation end) &&
  (runtime_generation (transaction cand) =? generation) &&
  (profile_revision (transaction cand) =? rev_profile (revisions cand)) &&
  (local_rule_set_revision (transaction cand) =? rev_local_rule_set (revisions cand)) &&
  bool_decide (rb_compiler_policy_sha256 (runtime cand) = rev_compiler_policy_sha256 (revisions cand)) &&
  bool_decide (cfg_compiler_policy_sha256 (configuration cand) = rev_compiler_policy_sha256 (revisions cand)) &&
  bool_decide (cfg_core_version (configuration cand) = rev_core_version (revisions cand)) &&
  is_absolute (generation_root (runtime cand)) &&
  negb (bool_decide (manifest_sha256 (runtime cand) = [])) &&
  negb (bool_decide (mihomo_binary_sha256 (runtime cand) = [])) &&
  bool_decide (effective_object = Some (utf8 (cfg_yaml (configuration cand)))).

Definition validate_candidate (cand : ConfigTransactionCandidate) (committed_generation : option Z)
  : prog (result unit ConfigTransactionError) :=
  let generation := rb_generation (runtime cand) in
  let* now := call CRevisions in
  if negb (bool_decide (now = revisions cand))
  then Ret (Err (MkError StaleCandidate (Some generation) committed_generation NotRequired))
  else
    let* object := store (SReadObjectLimited (effective_configuration (transaction cand))
                            EFFECTIVE_CONFIGURATION_MAX_BYTES) in
    Ret (if structurally_valid cand committed_generation (result_ok object) then Ok tt
         else Err (MkError InvalidCandidate (Some generation) committed_generation NotRequired)).

(** First phase: the state to start from, its journal empty. *)
Definition begin_transaction (generation : Z)
  : prog (result (option Z * RecoveryState) ConfigTransactionError) :=
  do* check_shutdown (shutdown_error generation None false) in
  try* state := prog_map_err (λ _, MkError Recovery (Some generation) None (Failed None)) (store SRecover) in
  try* committed_generation :=
    prog_map_err (λ _, MkError Recovery (Some generation) None (Failed None))
      (generation_from_manifest (committed state)) in
  do* check_shutdown (shutdown_error generation committed_generation false) in
  try* state :=
    match prepared state with
    | Some p =>
        if bool_decide (current <$> committed state = Some (candidate p)) then
          do* prog_map_err (λ _, MkError RecoveryRequired (Some generation) committed_generation
                                   (Pending committed_generation)) (clear_prepared_and_prune p) in
          prog_map_err (λ _, MkError Recovery (Some generation) committed_generation
                               (Failed committed_generation)) (store SRecover)
        else Ret (Ok state)
    | None => Ret (Ok state)
    end in
  match prepared state with
  | Some _ => Ret (Err (MkError RecoveryRequired (Some generation) committed_generation
                          (Pending committed_generation)))
  | None => Ret (Ok (committed_generation, state))
  end.

(** Second phase: the journal is written, then the candidate validated. *)
Definition validate_prepared (cand : ConfigTransactionCandidate) (committed_generation : option Z)
    (p : PreparedTransaction) : prog (result PreparedTransaction ConfigTransactionError) :=
  let generation := rb_generation (runtime cand) in
  do* check_shutdown (shutdown_error generation committed_generation true) in
  let* validation := call (CValidate (configuration cand) (generation_root (runtime cand))) in
  do* check_shutdown (shutdown_error generation committed_generation true) in
  if negb (is_ok validation) then
    let* recovery := clear_prepared_unapplied p committed_generation in
    Ret (Err (MkError Validation (Some generation) committed_generation recovery))
  else
    let* now := call CRevisions in
    if negb (bool_decide (now = revisions cand)) then
      let* recovery := clear_prepared_unapplied p committed_generation in
      Ret (Err (MkError StaleCandidate (Some generation) committed_generation recovery))
    else Ret (Ok p).

Definition prepare_candidate (cand : ConfigTransactionCandidate) (committed_generation : option Z)
    (state : RecoveryState) : prog (result PreparedTransaction ConfigTransactionError) :=
  let generation := rb_generation (runtime cand) in
  do* validate_candidate cand committed_generation in
  try* retention :=
    prog_map_err (λ _, MkError Recovery (Some generation) committed_generation (Failed committed_generation))
      (runtime_retention (committed state) (Some generation)) in
  do* prog_map_err (λ _, MkError Cleanup (Some generation) committed_generation NotRequired)
        (call (CPruneGenerations retention)) in
  let* journal := store (SPrepare (transaction cand)) in
  match journal with
  | Err _ =>
      let* recovery := clear_unapplied_journal committed_generation in
      Ret (Err (MkError Prepare (Some generation) committed_generation recovery))
  | Ok p => validate_prepared cand committed_generation p
  end.

(** Third phase, under the lifecycle lock: the runtime runs the candidate. *)
Definition apply_phase (cand : ConfigTransactionCandidate) (committed_generation : option Z)
    (p : PreparedTransaction) (mode : FailureRecoveryMode) : prog (result ApplyPath ConfigTransactionError) :=
  let generation := rb_generation (runtime cand) in
  let fail_with k :=
    let* recovery := recover_failed_candidate p committed_generation mode in
    Ret (Err (MkError k (Some generation) committed_generation recovery)) in
  do* check_shutdown (shutdown_error generation committed_generation true) in
  let* applied := call (CApply (runtime cand)) in
  do* check_shutdown (shutdown_error generation committed_generation true) in
  match applied with
  | Ok applied =>
      let* confirmation := confirm applied generation in
      do* check_shutdown (shutdown_error generation committed_generation true) in
      if negb (is_ok confirmation) then fail_with Health else Ret (Ok Direct)
  | Err Definite => fail_with Apply
  | Err TunPermissionDenied => fail_with ErrTunPermissionDenied
  | Err TunUnsupported => fail_with ErrTunUnsupported
  | Err Indeterminate =>
      let* restarted := restart_candidate (runtime cand) in
      if is_ok restarted then Ret (Ok CandidateRestart) else fail_with IndeterminateApply
  end.

(** Fourth phase: the commit. *)
Definition commit_phase (cand : ConfigTransactionCandidate) (committed_generation : option Z)
    (p : PreparedTransaction) (mode : FailureRecoveryMode) (applied : ApplyPath)
  : prog (result ConfigTransactionSuccess ConfigTransactionError) :=
  let generation := rb_generation (runtime cand) in
  do* check_shutdown (shutdown_error generation committed_generation true) in
  let* commit := store (SCommitPrepared p) in
  try* recovery :=
    if negb (is_ok commit) then recover_commit_failure p generation committed_generation mode
    else
      let* cleared := clear_prepared_and_prune p in
      Ret (Ok (if is_ok cleared then NotRequired else Pending (Some generation))) in
  Ret (Ok (MkSuccess generation generation applied recovery)).

(** Holds the lifecycle lock around [body]. *)
Definition with_lifecycle {A} (poisoned : ConfigTransactionError)
    (body : prog (result A ConfigTransactionError)) : prog (result A ConfigTransactionError) :=
  let* guard := call CLockLifecycle in
  match guard with
  | Err _ => Ret (Err poisoned)
  | Ok _ => let* r := body in let* _u := call CUnlockLifecycle in Ret r
  end.

Definition execute_guarded (cand : ConfigTransactionCandidate) (mode : FailureRecoveryMode)
  : prog (result ConfigTransactionSuccess ConfigTransactionError) :=
  let generation := rb_generation (runtime cand) in
  try* start := begin_transaction generation in
  let '(committed_generation, state) := start in
  try* p := prepare_candidate cand committed_generation state in
  with_lifecycle
    (MkError LockPoisoned (Some generation) committed_generation (Pending committed_generation))
    (try* applied := apply_phase cand committed_generation p mode in
     commit_phase cand committed_generation p mode applied).

(** ** Entry points *)

(** Holds the coordinator lock around [body]. *)
Definition with_coordinator {A} (body : prog (result A ConfigTransactionError))
  : prog (result A ConfigTransactionError) :=
  let* guard := call CLockCoordinator in
  match guard with
  | Err _ => Ret (Err (simple LockPoisoned))
  | Ok _ => let* r := body in let* _u := call CUnlockCoordinator in Ret r
  end.

Definition execute (cand : ConfigTransactionCandidate) :=
  with_coordinator (execute_guarded cand ConvergeCommitted).

Definition execute_startup_reapply (cand : ConfigTransactionCandidate) :=
  with_coordinator (execute_guarded cand StopStartupCandidate).

(** [try_reserve_rule] followed by [RuleConfigTransactionReservation::execute]. *)
Definition try_execute_rule (cand : ConfigTransactionCandidate)
  : prog (result ConfigTransactionSuccess ConfigTransactionError) :=
  let* guard := call CTryLockCoordinator in
  match guard with
  | WouldBlock => Ret (Err (simple Busy))
  | Poisoned => Ret (Err (simple LockPoisoned))
  | TryLocked =>
      let* r := execute_guarded cand ConvergeCommitted in
      let* _u := call CUnlockCoordinator in
      Ret r
  end.

(** How both startup functions begin: the state, the generation it names, and
    the directories of other generations removed. *)
Definition read_committed : prog (result (RecoveryState * option Z) ConfigTransactionError) :=
  try* state := prog_map_err (λ _, simple Recovery) (store SRecover) in
  try* committed_generation :=
    prog_map_err (λ _, simple Recovery) (generation_from_manifest (committed state)) in
  do* prog_map_err (λ _, MkError Cleanup None committed_generation (Pending committed_generation))
        (prune_runtime_state state) in
  Ret (Ok (state, committed_generation)).

(** How both end: a journal left behind is removed. *)
Definition clear_startup_journal (state : RecoveryState) (committed_generation : option Z)
  : prog (result unit ConfigTransactionError) :=
  match prepared state with
  | Some p =>
      prog_map_err (λ _, MkError Cleanup None committed_generation (Pending committed_generation))
        (clear_prepared_and_prune p)
  | None => Ret (Ok tt)
  end.

Definition recover_startup : prog (result StartupRecovery ConfigTransactionError) :=
  with_coordinator (with_lifecycle (simple LockPoisoned) (
    try* start := read_committed in
    let '(state, committed_generation) := start in
    do* prog_map_err (λ _, MkError Recovery None committed_generation (Failed committed_generation))
          (converge_to_manifest (committed state)) in
    do* clear_startup_journal state committed_generation in
    Ret (Ok (MkStartupRecovery committed_generation (bool_decide (is_Some (prepared state))))))).

(** [committed.into_iter().chain(prepared).max().unwrap_or(0)] *)
Definition highest_generation (committed_generation prepared_generation : option Z) : Z :=
  match committed_generation, prepared_generation with
  | None, None => 0
  | Some a, None | None, Some a => a
  | Some a, Some b => a `max` b
  end.

(** [highest.checked_add(1).filter(|generation| *generation > 0)] *)
Definition next_generation (highest : Z) : option Z :=
  match checked_add highest 1 with
  | Some generation => if 0 <? generation then Some generation else None
  | None => None
  end.

(** The generation of the journaled candidate, if it can be read. *)
Definition journal_generation (state : RecoveryState) : prog (option Z) :=
  match prepared state with
  | Some p => let* g := generation_from_transaction (candidate p) in Ret (result_ok g)
  | None => Ret None
  end.

Definition prepare_startup_reapply (expected : option Z)
  : prog (result StartupReapply ConfigTransactionError) :=
  with_coordinator (
    try* start := read_committed in
    let '(state, committed_generation) := start in
    if negb (bool_decide (committed_generation = expected))
    then Ret (Err (MkError Recovery None committed_generation (Failed expected)))
    else
      let* prepared_generation := journal_generation state in
      match next_generation (highest_generation committed_generation prepared_generation) with
      | None => Ret (Err (MkError Recovery None committed_generation (Failed committed_generation)))
      | Some candidate_generation =>
          do* clear_startup_journal state committed_generation in
          Ret (Ok (MkStartupReapply committed_generation candidate_generation
                     (bool_decide (is_Some (prepared state)))))
      end).
