(* ===== verification/Discipline.v ===== *)
(** * Discipline: the rules the coordinator keeps, function by function

    What the events of an execution show ([same], [running_evidence],
    [converged], ...), and for each function of [Transaction] below
    [execute_guarded] what it guarantees in the calculus of [Ports], for any
    choice of when the runtime may be changed and a commit attempted. *)

From S2P Require Import Prelude Text Constants ConfigData Filesystem Journal Program Ports Transaction.
Local Open Scope Z_scope.

(** ** What an execution is checked against *)

(** The locks held and whether a shutdown was observed, from the events. *)
Record Ghost := MkGhost {
  g_coordinator : bool;
  g_lifecycle : bool;
  g_shutdown : bool;
}.

Definition observe {X} (c : Call X) : X → Ghost → Ghost :=
  match c in Call X return X → Ghost → Ghost with
  | CShutdown => λ b g, MkGhost (g_coordinator g) (g_lifecycle g) (b || g_shutdown g)
  | CLockCoordinator => λ r g, MkGhost (is_ok r || g_coordinator g) (g_lifecycle g) (g_shutdown g)
  | CTryLockCoordinator => λ r g,
      match r with TryLocked => MkGhost true (g_lifecycle g) (g_shutdown g) | _ => g end
  | CUnlockCoordinator => λ _ g, MkGhost false (g_lifecycle g) (g_shutdown g)
  | CLockLifecycle => λ r g, MkGhost (g_coordinator g) (is_ok r || g_lifecycle g) (g_shutdown g)
  | CUnlockLifecycle => λ _ g, MkGhost (g_coordinator g) false (g_shutdown g)
  | _ => λ _ g, g
  end.

Definition observe_event (g : Ghost) (e : Event) : Ghost := match e with Ev c x => observe c x g end.
Definition ghost (h : list Event) : Ghost := foldl observe_event (MkGhost false false false) h.

Lemma ghost_snoc {X} h (c : Call X) x : ghost (h ++ [Ev c x]) = observe c x (ghost h).
Proof. unfold ghost. by rewrite foldl_app. Qed.

(** Calls that neither change the store or the runtime nor concern locks and
    shutdown. *)
Definition quiet {X} (c : Call X) : bool :=
  match c with
  | CStore sc =>
      match sc with
      | SPrepare _ | SCommitPrepared _ | SClearPrepared _ => false
      | _ => true
      end
  | CRevisions | CValidate _ _ | CStatus | CConfirmReady _ | CResolve _ | CPruneGenerations _ => true
  | _ => false
  end.

Lemma quiet_spec {X} (c : Call X) v x v' :
  quiet c = true → call_spec c v x v' → v' = v.
Proof. destruct c; try done. destruct c; simpl; naive_solver. Qed.

Lemma quiet_observe {X} (c : Call X) x g : quiet c = true → observe c x g = g.
Proof. by destruct c. Qed.

(** Programs of quiet calls. *)
Fixpoint quiet_prog {A} (p : prog A) : Prop :=
  match p with
  | Ret _ => True
  | Vis c k => quiet c = true ∧ ∀ x, quiet_prog (k x)
  end.

Lemma quiet_bind {A B} (p : prog A) (k : A → prog B) :
  quiet_prog p → (∀ a, quiet_prog (k a)) → quiet_prog (prog_bind p k).
Proof. intros Hp Hk. induction p as [a|X c next IH]; simpl in *; [done|]. destruct Hp; auto. Qed.

Lemma quiet_try {A B E} (p : prog (result A E)) (k : A → prog (result B E)) :
  quiet_prog p → (∀ a, quiet_prog (k a)) → quiet_prog (prog_try p k).
Proof. intros Hp Hk. apply quiet_bind; [done|]. by intros []. Qed.

Lemma quiet_map_err {A E F} (f : E → F) (p : prog (result A E)) :
  quiet_prog p → quiet_prog (prog_map_err f p).
Proof. intros Hp. by apply quiet_bind. Qed.

Lemma quiet_call {X} (c : Call X) : quiet c = true → quiet_prog (call c).
Proof. done. Qed.

Ltac quiet_auto :=
  repeat first
    [ done
    | apply quiet_map_err
    | apply quiet_try; [|intros ?]
    | apply quiet_bind; [|intros ?]
    | apply quiet_call; done
    | match goal with |- quiet_prog (match ?x with _ => _ end) => destruct x end
    | match goal with |- quiet_prog (if ?x then _ else _) => destruct x end ].

Lemma quiet_generation_of_option id : quiet_prog (generation_of_option id).
Proof. unfold generation_of_option, generation_from_transaction. quiet_auto. Qed.

Lemma quiet_runtime_retention m g : quiet_prog (runtime_retention m g).
Proof. unfold runtime_retention. quiet_auto; apply quiet_generation_of_option. Qed.

Lemma quiet_prune_runtime_state s : quiet_prog (prune_runtime_state s).
Proof. unfold prune_runtime_state. quiet_auto; apply quiet_generation_of_option. Qed.

Lemma quiet_validate_candidate cand g : quiet_prog (validate_candidate cand g).
Proof. unfold validate_candidate. cbn zeta. quiet_auto. Qed.

(** ** Evidence: what the events of an execution show *)

(** More events, the same locks. *)
Definition same (h h' : list Event) : Prop := h ⊆ h' ∧ ghost h' = ghost h.

Lemma sub_snoc {X} h (c : Call X) x : h ⊆ h ++ [Ev c x].
Proof. set_solver. Qed.
Lemma same_refl h : same h h.
Proof. done. Qed.
Lemma same_trans h1 h2 h3 : same h1 h2 → same h2 h3 → same h1 h3.
Proof. intros [? ?] [? ?]. split; [by etrans|congruence]. Qed.
Lemma same_snoc {X} h (c : Call X) x : observe c x (ghost h) = ghost h → same h (h ++ [Ev c x]).
Proof. intros Ho. split; [apply sub_snoc|]. by rewrite ghost_snoc. Qed.

(** Removing the journal. *)
Definition cleared (v v' : View) (r : bool) : Prop :=
  v_committed v' = v_committed v ∧
  (v_prepared v' = v_prepared v ∨ v_prepared v' = Some None) ∧
  (r = true → v_prepared v' = Some None).

(** The runtime reported [core] as the one it manages. *)
Definition seen (core : ManagedCoreHandle) (h : list Event) : Prop :=
  ∃ status, managed_core status = Some core ∧ Ev CStatus (Ok status) ∈ h.

Lemma seen_mono core h h' : h ⊆ h' → seen core h → seen core h'.
Proof. intros Hs (status & ? & ?). exists status. auto. Qed.

(** The runtime was seen healthy at the generation of [bundle], in the core it
    had started from [bundle]. *)
Definition running_evidence (bundle : RuntimeBundle) (h : list Event) : Prop :=
  ∃ applied actual,
    Ev (CApply bundle) (Ok applied) ∈ h ∧
    seen actual h ∧
    Ev (CConfirmReady actual) (Ok tt) ∈ h ∧
    same_core actual (applied_core applied) = true ∧
    handle_generation actual = rb_generation bundle ∧
    handle_generation (applied_core applied) = rb_generation bundle.

Lemma running_evidence_mono b h h' : h ⊆ h' → running_evidence b h → running_evidence b h'.
Proof.
  intros Hs (applied & actual & ? & ? & ? & ?). exists applied, actual.
  split_and!; [auto|by eapply seen_mono|auto|tauto..].
Qed.

(** The runtime is where transaction [id] wants it: stopped when there is none;
    else a core at the generation of the stored bundle was seen healthy. *)
Definition converged (id : option str) (h : list Event) : Prop :=
  match id with
  | None => Ev CStop (Ok tt) ∈ h
  | Some id => ∃ b bundle actual,
      Ev (CStore (SLoadTransaction id)) (Ok b) ∈ h ∧ Ev (CResolve b) (Ok bundle) ∈ h ∧
      rb_generation bundle = runtime_generation b ∧
      seen actual h ∧
      Ev (CConfirmReady actual) (Ok tt) ∈ h ∧ handle_generation actual = runtime_generation b
  end.

Lemma converged_mono id h h' : h ⊆ h' → converged id h → converged id h'.
Proof.
  intros Hs. destruct id; simpl; [|set_solver]. intros (b & bundle & actual & ? & ? & ? & ? & ? & ?).
  exists b, bundle, actual. split_and!; [auto|auto|done|by eapply seen_mono|auto|done].
Qed.

(** The outcomes that promise an empty journal. *)
Definition settled (r : RecoveryOutcome) : bool :=
  match r with NotRequired | Converged _ => true | _ => false end.

Lemma cleared_refl v r : (r = true → v_prepared v = Some None) → cleared v v r.
Proof. intros Hr. split_and!; auto. Qed.

Lemma cleared_weaken v v' r : cleared v v' r → cleared v v' false.
Proof. intros (? & ? & _). by split_and!. Qed.

(** A shutdown was observed just now. *)
Definition stopped (h h' : list Event) : Prop :=
  h ⊆ h' ∧ ghost h' = MkGhost (g_coordinator (ghost h)) (g_lifecycle (ghost h)) true.

(** How a phase that fails with [e] leaves the events. *)
Definition ended (h h' : list Event) (e : ConfigTransactionError) : Prop :=
  kind e ≠ Shutdown ∧ same h h' ∨ kind e = Shutdown ∧ stopped h h'.

Lemma same_ended h1 h2 h3 e : same h1 h2 → ended h2 h3 e → ended h1 h3 e.
Proof.
  intros [Hsub Hg] [[Hk [Hs2 Hg2]]|[Hk [Hs2 Hg2]]]; [left|right]; (split; [done|]); split;
    try (by etrans); congruence.
Qed.

(** [g] is the generation the store gave for the committed transaction. *)
Definition generation_known (v : View) (g : option Z) (h : list Event) : Prop :=
  match v_committed v with
  | Some (Some m) => ∃ b, Ev (CStore (SLoadTransaction (current m))) (Ok b) ∈ h ∧
                          g = Some (runtime_generation b)
  | Some None => g = None
  | None => False
  end.

Lemma generation_known_mono v v' g h h' :
  h ⊆ h' → v_committed v' = v_committed v → generation_known v g h → generation_known v' g h'.
Proof.
  intros Hs Hv. unfold generation_known. rewrite Hv. destruct (v_committed v) as [[m|]|]; [|done..].
  intros (b & ? & ?). exists b. auto.
Qed.

(** What a failing call says of the journal. *)
Definition journal_after (v v' : View) (r : RecoveryOutcome) : Prop :=
  match r with
  | Converged _ => v_prepared v' = Some None
  | NotRequired => v_prepared v' = v_prepared v ∨ v_prepared v' = Some None
  | _ => True
  end.

(** ** The discipline of the coordinator

    The rules every function of the coordinator keeps, for a choice of when the
    runtime may be changed ([grant]), when a commit may be attempted
    ([commit_grant]), and an invariant of the store ([inv]). *)

Section discipline.
Context (grant : list Event → View → Prop).
Context (commit_grant : PreparedTransaction → list Event → View → Prop).
Context (inv : list Event → View → Prop).

(** Before every call: after a shutdown was observed only locks are released;
    everything happens under the coordinator lock; the runtime changes only
    under the lifecycle lock and with a grant; so does a commit. *)
Definition call_ok (h : list Event) (v : View) (X : Type) (c : Call X) : Prop :=
  match c with
  | CUnlockCoordinator => g_coordinator (ghost h) = true ∧ g_lifecycle (ghost h) = false
  | CUnlockLifecycle => g_lifecycle (ghost h) = true
  | CLockCoordinator | CTryLockCoordinator =>
      g_shutdown (ghost h) = false ∧ g_coordinator (ghost h) = false
  | _ => g_shutdown (ghost h) = false ∧ g_coordinator (ghost h) = true
  end ∧
  match c with
  | CLockLifecycle => g_lifecycle (ghost h) = false
  | CApply _ | CStop => g_lifecycle (ghost h) = true ∧ grant h v
  | CStore (SCommitPrepared p) => g_lifecycle (ghost h) = true ∧ commit_grant p h v
  | _ => True
  end.

Context (grant_mono : ∀ h h' v, h ⊆ h' → grant h v → grant h' v).
Context (inv_mono : ∀ h h' v v',
  h ⊆ h' → v_committed v' = v_committed v → inv h v → inv h' v').

Abbreviation wpc := (wp call_ok inv).

(** Working under the coordinator lock, no shutdown seen. *)
Definition calm (h : list Event) (v : View) : Prop :=
  g_shutdown (ghost h) = false ∧ g_coordinator (ghost h) = true ∧ inv h v.

(** Ready to change the runtime. *)
Definition armed (h : list Event) (v : View) : Prop :=
  calm h v ∧ g_lifecycle (ghost h) = true ∧ grant h v.

Lemma calm_same h h' v v' : same h h' → v_committed v' = v_committed v → calm h v → calm h' v'.
Proof.
  intros [Hs Hg] Hv (? & ? & ?). unfold calm. rewrite Hg. split_and!; [done..|]. by eapply inv_mono.
Qed.
Lemma armed_same h h' v : same h h' → armed h v → armed h' v.
Proof.
  intros Hs (Hc & Hl & Hp). destruct (Hs) as [Hsub Hg]. split; [by eapply calm_same|].
  rewrite Hg. split_and!; [done|]. by eapply grant_mono.
Qed.
Lemma calm_inv h v : calm h v → inv h v.
Proof. by intros (_ & _ & ?). Qed.
Lemma armed_calm h v : armed h v → calm h v.
Proof. by intros [? _]. Qed.

Lemma wp_quiet_call {X} (c : Call X) h v :
  quiet c = true → calm h v →
  wpc (call c) (λ h' v' x, v' = v ∧ h' = h ++ [Ev c x] ∧ same h h' ∧ call_spec c v x v) h v.
Proof.
  intros Hq Hc. destruct (Hc) as (Hsh & Hco & Hi). apply wp_call; [done| |].
  - split; [by destruct c|]. destruct c; try done. by destruct c.
  - intros x v' Hs. pose proof (quiet_spec c v x v' Hq Hs) as ->.
    assert (same h (h ++ [Ev c x])) as Hsame by (by apply same_snoc, quiet_observe).
    split; [by apply (calm_same _ _ _ _ Hsame eq_refl Hc)|done].
Qed.

Lemma wp_quiet {A} (p : prog A) h v :
  quiet_prog p → calm h v → wpc p (λ h' v' _, v' = v ∧ same h h') h v.
Proof.
  revert h; induction p as [a|X c k IH]; intros h Hq Hc; [by split; [apply calm_inv|]|].
  destruct Hq as [Hq Hk]. apply (wp_bind _ _ (call c) k).
  eapply wp_mono; [|by apply wp_quiet_call]. intros h1 v1 x _ (-> & _ & Hs & _).
  eapply wp_mono; [|apply IH; [apply Hk|by eapply calm_same]].
  intros h2 v2 _ _ [-> Hs2]. split; [done|by eapply same_trans].
Qed.

(** [apply_candidate] and [stop] *)
Definition runtime_call {X} (c : Call X) : bool :=
  match c with CApply _ | CStop => true | _ => false end.

Lemma wp_runtime_call {X} (c : Call X) h v :
  runtime_call c = true → armed h v →
  wpc (call c) (λ h' v' x, v' = v ∧ h' = h ++ [Ev c x] ∧ same h h') h v.
Proof.
  intros Hq (Hc & Hl & Hg). destruct (Hc) as (Hsh & Hco & Hi). apply wp_call; [done| |].
  - by destruct c.
  - intros x v' Hs. assert (v' = v) as -> by (by destruct c).
    assert (same h (h ++ [Ev c x])) as Hsame by (apply same_snoc; by destruct c).
    split; [by apply (calm_same _ _ _ _ Hsame eq_refl Hc)|done].
Qed.

Lemma wp_map_err {A E F} (f : E → F) (p : prog (result A E)) (Q : list Event → View → result A F → Prop) h v :
  wpc p (λ h v r, Q h v (map_err f r)) h v → wpc (prog_map_err f p) Q h v.
Proof.
  intros Hp. apply wp_bind. eapply wp_mono; [|exact Hp]. intros h' v' r Hi HQ. by apply wp_ret.
Qed.

Lemma wp_clear p h v :
  calm h v → wpc (clear_prepared_and_prune p) (λ h' v' r, same h h' ∧ cleared v v' (is_ok r)) h v.
Proof.
  intros Hc. destruct (Hc) as (Hsh & Hco & Hi). apply wp_try. apply wp_call; [done|done|].
  intros r v1 [Hcom Hr]. set (h1 := h ++ _).
  assert (same h h1) as Hs1 by (by apply same_snoc).
  assert (calm h1 v1) as Hc1 by (by eapply calm_same).
  split; [by apply calm_inv|]. destruct r as [[]|e].
  2: { split; [done|]. split; [done|]. split; [naive_solver|done]. }
  destruct Hr as [_ Hnone]. apply wp_bind.
  eapply wp_mono; [|by apply wp_quiet_call]. intros h2 v2 _ _ (-> & _ & Hs2 & _).
  eapply wp_mono; [|apply (wp_quiet (prog_try (store SRecover) _))].
  - intros h3 v3 r _ [-> Hs3]. split; [eauto using same_trans|]. split_and!; auto.
  - quiet_auto; apply quiet_generation_of_option.
  - exact (calm_same _ _ _ _ Hs2 eq_refl Hc1).
Qed.

(** A failed step: the view and the locks are as before. *)
Ltac err_end := split; [done|split; [eauto 10 using same_trans|done]].

Lemma wp_confirm bundle applied h v :
  calm h v → Ev (CApply bundle) (Ok applied) ∈ h →
  wpc (confirm applied (rb_generation bundle))
    (λ h' v' r, v' = v ∧ same h h' ∧ (is_ok r = true → running_evidence bundle h')) h v.
Proof.
  intros Hc Hap. apply wp_try. eapply wp_mono; [|by apply wp_quiet_call].
  intros h1 v1 [status|e] _ (-> & -> & Hs1 & _); [|done].
  assert (calm (h ++ [Ev CStatus (Ok status)]) v) as Hc1 by (by eapply calm_same).
  destruct (managed_core status) as [actual|] eqn:Hst; [cbn zeta|by apply wp_ret; [apply calm_inv|]].
  destruct (negb (same_core _ _) || _ || _) eqn:Hcheck; [by apply wp_ret; [apply calm_inv|]|].
  eapply wp_mono; [|by apply wp_quiet_call].
  intros h2 v2 r _ (-> & -> & Hs2 & _). split; [done|]. split; [by eapply same_trans|].
  intros Hok. destruct r as [[]|]; [|done]. exists applied, actual.
  rewrite !orb_false_iff, !negb_false_iff, !Z.eqb_eq in Hcheck. destruct Hcheck as [[? ?] ?].
  unfold seen. setoid_rewrite elem_of_app. setoid_rewrite elem_of_app. setoid_rewrite list_elem_of_singleton.
  split_and!; eauto 10.
Qed.

Lemma wp_apply_or_fail bundle h v :
  armed h v →
  wpc (apply_or_fail bundle) (λ h' v' r, v' = v ∧ same h h' ∧
    ∀ applied, r = Ok applied → Ev (CApply bundle) (Ok applied) ∈ h') h v.
Proof.
  intros Ha. apply wp_map_err. eapply wp_mono; [|by apply wp_runtime_call].
  intros h1 v1 r _ (-> & -> & Hs). split; [done|]. split; [done|].
  intros applied Hr. destruct r; simplify_eq/=. set_solver.
Qed.

Lemma wp_restart_candidate bundle h v :
  armed h v →
  wpc (restart_candidate bundle)
    (λ h' v' r, v' = v ∧ same h h' ∧ (is_ok r = true → running_evidence bundle h')) h v.
Proof.
  intros Ha. apply wp_try. eapply wp_mono; [|by apply wp_runtime_call].
  intros h1 v1 [[]|e] _ (-> & _ & Hs1); [|done]. apply wp_try.
  eapply wp_mono; [|apply wp_apply_or_fail; by eapply armed_same].
  intros h2 v2 [applied|e] _ (-> & Hs2 & Hev); [|err_end].
  assert (same h h2) as Hs by eauto using same_trans. apply wp_try.
  assert (calm h2 v) as Hc2 by (eapply armed_calm, armed_same; eauto).
  eapply wp_mono; [|apply wp_confirm; [exact Hc2|by apply Hev]].
  intros h3 v3 [[]|e] _ (-> & Hs3 & Hrun).
  - apply wp_ret; [eapply calm_inv, calm_same; eauto|]. split; [done|]. eauto using same_trans.
  - err_end.
Qed.

Lemma wp_already_running g h v :
  calm h v →
  wpc (already_running g) (λ h' v' r, v' = v ∧ same h h' ∧ (r = true → ∃ actual,
    seen actual h' ∧
    Ev (CConfirmReady actual) (Ok tt) ∈ h' ∧ handle_generation actual = g)) h v.
Proof.
  intros Hc. apply wp_bind. eapply wp_mono; [|by apply wp_quiet_call].
  intros h1 v1 status _ (-> & -> & Hs1 & _).
  assert (calm (h ++ [Ev CStatus status]) v) as Hc1 by (by eapply calm_same).
  destruct (result_ok status ≫= managed_core) as [actual|] eqn:Hst; [|by apply wp_ret; [apply calm_inv|]].
  destruct (Z.eqb_spec (handle_generation actual) g); [|by apply wp_ret; [apply calm_inv|]].
  apply wp_bind. eapply wp_mono; [|by apply wp_quiet_call].
  intros h2 v2 r Hi (-> & -> & Hs2 & _). apply wp_ret; [done|]. split; [done|].
  split; [by eapply same_trans|]. intros Hok. destruct r as [[]|]; [|done].
  destruct status as [status|]; simplify_eq/=. exists actual.
  unfold seen. setoid_rewrite elem_of_app. setoid_rewrite elem_of_app. setoid_rewrite list_elem_of_singleton.
  split_and!; eauto 10.
Qed.

Lemma wp_converge id h v :
  armed h v →
  wpc (converge_to_transaction id)
    (λ h' v' r, v' = v ∧ same h h' ∧ (is_ok r = true → converged id h')) h v.
Proof.
  intros Ha. destruct id as [id|]; cbn [converge_to_transaction].
  2: { eapply wp_mono; [|by apply wp_runtime_call]. intros h1 v1 [[]|] _ (-> & -> & Hs); [|done].
       split; [done|]. split; [done|]. set_solver. }
  apply wp_try, wp_map_err. eapply wp_mono; [|apply wp_quiet_call; [done|by apply armed_calm]].
  intros h1 v1 [b|e] _ (-> & Hh1 & Hs1 & _); [|done].
  assert (armed h1 v) as Ha1 by (by eapply armed_same). apply wp_try.
  eapply wp_mono; [|apply wp_quiet_call; [done|by apply armed_calm]].
  intros h2 v2 [bundle|e] _ (-> & Hh2 & Hs2 & _); [|err_end].
  assert (armed h2 v) as Ha2 by (by eapply armed_same).
  assert (same h h2) as Hs by eauto using same_trans.
  destruct (Z.eqb_spec (rb_generation bundle) (runtime_generation b)) as [Hgen|]; cbn [negb];
    [|by apply wp_ret; [apply calm_inv, armed_calm|]].
  assert (Ev (CStore (SLoadTransaction id)) (Ok b) ∈ h2 ∧ Ev (CResolve b) (Ok bundle) ∈ h2) as [Hl Hr]
    by (subst h2 h1; rewrite !elem_of_app, !list_elem_of_singleton; auto).
  apply wp_bind. eapply wp_mono; [|apply wp_already_running; by apply armed_calm].
  intros h3 v3 running Hi (-> & Hs3 & Hrun). destruct (Hs3) as [Hsub3 _]. destruct running.
  { apply wp_ret; [done|]. split; [done|]. split; [eauto using same_trans|]. intros _.
    destruct (Hrun eq_refl) as (actual & ? & ? & ?). exists b, bundle, actual. split_and!; auto. congruence. }
  assert (armed h3 v) as Ha3 by (by eapply armed_same). apply wp_try.
  eapply wp_mono; [|by apply wp_runtime_call]. intros h4 v4 [[]|e] _ (-> & _ & Hs4); [|err_end].
  apply wp_try. eapply wp_mono; [|apply wp_apply_or_fail; by eapply armed_same].
  intros h5 v5 [applied|e] _ (-> & Hs5 & Hev); [|err_end].
  assert (same h2 h5) as Hs25 by eauto using same_trans.
  eapply wp_mono; [|apply wp_confirm; [eapply armed_calm, armed_same; eauto|by apply Hev]].
  intros h6 v6 r _ (-> & Hs6 & Hconf). split; [done|]. split; [eauto using same_trans|].
  intros Hok. destruct (Hconf Hok) as (a & actual & _ & ? & ? & _ & ? & _).
  assert (h2 ⊆ h6) as Hsub by (destruct Hs25, Hs6; by etrans).
  exists b, bundle, actual. split_and!; auto. congruence.
Qed.

(** ** Recovery: what its outcomes mean *)

Lemma wp_rollback p target h v :
  armed h v →
  wpc (rollback p target)
    (λ h' v' r, same h h' ∧ cleared v v' (settled r) ∧
       (r = Failed target ∨ r = Converged target ∧ converged (prepared_previous p) h')) h v.
Proof.
  intros Ha. apply wp_bind. eapply wp_mono; [|by apply wp_converge].
  intros h1 v1 r Hi (-> & Hs1 & Hconv). destruct r as [[]|]; cbn [is_ok negb].
  2: { apply wp_ret; [done|]. split; [done|]. split; [by apply cleared_refl|by left]. }
  apply wp_bind. eapply wp_mono; [|apply wp_clear; eapply armed_calm, armed_same; eauto].
  intros h2 v2 r Hi2 (Hs2 & Hcl). assert (same h h2) as Hs by eauto using same_trans.
  destruct r as [[]|]; cbn [is_ok negb]; (apply wp_ret; [done|]); (split; [done|]); (split; [done|]);
    [right|by left]. split; [done|]. destruct Hs2. eapply converged_mono; eauto.
Qed.

Lemma wp_recover_failed p target mode h v :
  armed h v →
  wpc (recover_failed_candidate p target mode)
    (λ h' v' r, same h h' ∧ cleared v v' (settled r) ∧
       (r = Failed target ∨ r = Converged target ∧ converged (prepared_previous p) h')) h v.
Proof.
  intros Ha. destruct mode; [by apply wp_rollback|]. apply wp_bind.
  eapply wp_mono; [|by apply wp_runtime_call]. intros h1 v1 r _ (-> & _ & Hs1).
  apply wp_bind. eapply wp_mono; [|apply wp_clear; eapply armed_calm, armed_same; eauto].
  intros h2 v2 r2 Hi2 (Hs2 & Hcl). apply wp_ret; [done|]. split; [eauto using same_trans|].
  split; [by eapply cleared_weaken|by left].
Qed.

Lemma wp_recover_commit_failure p g previous mode h v :
  armed h v →
  wpc (recover_commit_failure p g previous mode)
    (λ h' v' r, same h h' ∧
       match r with
       | Ok recovery => cleared v v' (settled recovery) ∧
           ∃ m, v_committed v = Some (Some m) ∧ current m = candidate p
       | Err e => kind e = Commit ∧ cleared v v' (settled (error_recovery e)) ∧
           (∀ g, error_recovery e = Converged g → converged (prepared_previous p) h') ∧
           (error_recovery e = Failed previous ∨
            (∃ m, v_committed v = Some m ∧ current <$> m ≠ Some (candidate p)))
       end) h v.
Proof.
  intros Ha. apply wp_bind. eapply wp_mono; [|apply wp_quiet_call; [done|by apply armed_calm]].
  intros h1 v1 r Hi (-> & _ & Hs1 & [_ Hview]). destruct r as [state|e].
  2: { apply wp_ret; [done|]. split; [done|]. split; [done|]. split; [by apply cleared_refl|]. split; [done|by left]. }
  assert (armed h1 v) as Ha1 by (by eapply armed_same).
  case_bool_decide as Hcur.
  - apply wp_bind. eapply wp_mono; [|by apply wp_clear, armed_calm].
    intros h2 v2 r Hi2 (Hs2 & Hcl). apply wp_ret; [done|]. split; [eauto using same_trans|].
    split; [by destruct r|]. apply fmap_Some in Hcur as (m & Hm & Hc). exists m.
    by rewrite Hview, Hm, Hc.
  - apply wp_bind. eapply wp_mono; [|by apply wp_recover_failed].
    intros h2 v2 r Hi2 (Hs2 & Hcl & Hr). apply wp_ret; [done|]. split; [eauto using same_trans|].
    split; [done|]. split; [done|]. split; [intros g' Hg'; simpl in Hg'; by destruct Hr as [->|[-> ?]]|].
    right. exists (committed state). by rewrite Hview.
Qed.

Lemma wp_clear_prepared_unapplied p g h v :
  calm h v →
  wpc (clear_prepared_unapplied p g) (λ h' v' r, same h h' ∧ cleared v v' (settled r)) h v.
Proof.
  intros Hc. apply wp_bind. eapply wp_mono; [|by apply wp_clear].
  intros h1 v1 r Hi (Hs & Hcl). apply wp_ret; [done|]. split; [done|]. by destruct r.
Qed.

Lemma wp_clear_unapplied_journal g h v :
  calm h v →
  wpc (clear_unapplied_journal g) (λ h' v' r, same h h' ∧ cleared v v' (settled r)) h v.
Proof.
  intros Hc. apply wp_bind. eapply wp_mono; [|by apply wp_quiet_call].
  intros h1 v1 r Hi (-> & _ & Hs1 & [_ Hview]).
  assert (calm h1 v) as Hc1 by (by eapply calm_same).
  destruct r as [state|e]; [|by apply wp_ret; [|split; [|apply cleared_refl]]].
  destruct (prepared state) as [p|] eqn:Hp.
  - eapply wp_mono; [|by apply wp_clear_prepared_unapplied].
    intros h2 v2 r _ (Hs2 & Hcl). eauto using same_trans.
  - apply wp_ret; [done|]. split; [done|]. apply cleared_refl. intros _. by rewrite Hview, <-Hp.
Qed.

(** ** Shutdown *)

Lemma wp_check_shutdown e h v :
  calm h v → kind e = Shutdown →
  wpc (check_shutdown e) (λ h' v' r, v' = v ∧
    match r with Ok _ => same h h' | Err e' => e' = e ∧ ended h h' e end) h v.
Proof.
  intros (Hsh & Hco & Hi) He. apply wp_bind. apply wp_call; [done|done|].
  intros b v' ->. assert (inv (h ++ [Ev CShutdown b]) v) as Hi' by (apply (inv_mono h _ v v); [apply sub_snoc|done|done]).
  split; [done|]. apply wp_ret; [done|]. split; [done|].
  assert (h ⊆ h ++ [Ev CShutdown b]) as Hsub by apply sub_snoc. destruct b.
  - split; [done|]. right. split; [done|]. split; [done|]. by rewrite ghost_snoc.
  - split; [done|]. rewrite ghost_snoc. simpl. by destruct (ghost h).
Qed.

(** ** Beginning a transaction *)

Lemma wp_generation_from_manifest m h v :
  calm h v → v_committed v = Some m →
  wpc (generation_from_manifest m) (λ h' v' r, v' = v ∧ same h h' ∧
    ∀ g, r = Ok g → generation_known v g h') h v.
Proof.
  intros Hc Hm. unfold generation_from_manifest, generation_of_option, generation_known. rewrite Hm.
  destruct m as [m|]; simpl; [|apply wp_ret; [by apply calm_inv|]; by split_and!; [| |intros ? [= <-]]].
  apply wp_try, wp_bind. eapply wp_mono; [|by apply wp_quiet_call].
  intros h1 v1 r Hi (-> & -> & Hs1 & _). apply wp_ret; [done|]. destruct r as [b|]; [|done].
  apply wp_ret; [done|]. split_and!; [done..|]. intros g [= <-]. exists b.
  split; [|done]. apply elem_of_app. right. by apply list_elem_of_singleton.
Qed.

Definition begin_post (h : list Event) (v : View) (h' : list Event) (v' : View)
    (r : result (option Z * RecoveryState) ConfigTransactionError) : Prop :=
  v_committed v' = v_committed v ∧
  match r with
  | Ok (g, state) =>
      same h h' ∧ v' = MkView (Some (committed state)) (Some None) ∧ generation_known v' g h'
  | Err e => ended h h' e ∧ (∀ g, error_recovery e ≠ Converged g) ∧ journal_after v v' (error_recovery e)
  end.

Lemma begin_err h v h' v' e :
  kind e ≠ Shutdown → (∀ g, error_recovery e ≠ Converged g) → same h h' →
  cleared v v' false → begin_post h v h' v' (Err e).
Proof.
  intros Hk Hr Hs (Hc & Hp & _). split; [done|]. split; [by left|]. split; [done|].
  destruct (error_recovery e) eqn:He; try done. by destruct (Hr generation).
Qed.

(** The journal of a committed transaction is removed first. *)
Lemma wp_clear_committed (generation : Z) (g : option Z) (state : RecoveryState) h v :
  calm h v → v = MkView (Some (committed state)) (Some (prepared state)) →
  wpc (match prepared state with
       | Some p =>
           if bool_decide (current <$> committed state = Some (candidate p)) then
             do* prog_map_err (λ _, MkError RecoveryRequired (Some generation) g (Pending g))
                   (clear_prepared_and_prune p) in
             prog_map_err (λ _, MkError Recovery (Some generation) g (Failed g)) (store SRecover)
           else Ret (Ok state)
       | None => Ret (Ok state)
       end)
    (λ h' v' r, same h h' ∧ cleared v v' false ∧
       match r with
       | Ok state' => v' = MkView (Some (committed state')) (Some (prepared state'))
       | Err e => kind e ≠ Shutdown ∧ ∀ g, error_recovery e ≠ Converged g
       end) h v.
Proof.
  intros Hc Hv. assert (wpc (Ret (Ok state)) (λ h' v' (r : result RecoveryState ConfigTransactionError),
    same h h' ∧ cleared v v' false ∧
    match r with
    | Ok state' => v' = MkView (Some (committed state')) (Some (prepared state'))
    | Err e => kind e ≠ Shutdown ∧ ∀ g, error_recovery e ≠ Converged g
    end) h v) as Hret by (apply wp_ret; [by apply calm_inv|]; by split_and!; [|apply cleared_refl|]).
  destruct (prepared state) as [p|] eqn:Hp; [|done]. case_bool_decide; [|done].
  apply wp_try, wp_map_err. eapply wp_mono; [|by apply wp_clear].
  intros h1 v1 r Hi (Hs1 & Hcl). destruct r as [[]|]; simpl; [|by eauto using cleared_weaken].
  apply wp_map_err. eapply wp_mono; [|apply wp_quiet_call; [done|eapply calm_same; [done|by destruct Hcl|done]]].
  intros h2 v2 r _ (-> & _ & Hs2 & [_ Hview]). split; [eauto using same_trans|].
  split; [by eapply cleared_weaken|]. by destruct r.
Qed.

Lemma wp_begin generation h v : calm h v → wpc (begin_transaction generation) (begin_post h v) h v.
Proof.
  intros Hc. apply wp_try. eapply wp_mono; [|by apply wp_check_shutdown].
  intros h1 v1 [[]|e] Hi1 (-> & Hs1); [|destruct Hs1 as [-> ?]; split_and!; simpl; auto].
  assert (calm h1 v) as Hc1 by (by eapply calm_same). apply wp_try, wp_map_err.
  eapply wp_mono; [|by apply wp_quiet_call]. intros h2 v2 [state|e] Hi2 (-> & _ & Hs2 & [_ Hview]); simpl;
    [|apply begin_err; [done..|eauto using same_trans|by apply cleared_refl]].
  assert (calm h2 v) as Hc2 by (by eapply calm_same). apply wp_try, wp_map_err.
  eapply wp_mono; [|apply (wp_generation_from_manifest (committed state)); [done|by rewrite Hview]].
  intros h3 v3 [g|e] Hi3 (-> & Hs3 & Hg); simpl;
    [|apply begin_err; [done..|eauto using same_trans|by apply cleared_refl]].
  assert (calm h3 v) as Hc3 by (by eapply calm_same). specialize (Hg g eq_refl). apply wp_try.
  eapply wp_mono; [|by apply wp_check_shutdown]. intros h4 v4 [[]|e] Hi4 (-> & Hs4);
    [|destruct Hs4 as [-> ?]; split; [done|]; split_and!; simpl; eauto using same_ended, same_trans].
  assert (calm h4 v) as Hc4 by (by eapply calm_same). apply wp_try.
  eapply wp_mono; [|by apply wp_clear_committed]. intros h5 v5 [state'|e] Hi5 (Hs5 & Hcl & Hr);
    [|destruct Hr as (? & ?); apply begin_err; eauto 10 using same_trans].
  assert (same h h5) as Hs by eauto 10 using same_trans.
  destruct (prepared state') as [p|] eqn:Hp; (apply wp_ret; [done|]); [by apply begin_err|].
  destruct (Hcl) as (Hcom & _). split; [done|]. split; [done|]. split; [done|].
  eapply generation_known_mono; [|done|exact Hg]. destruct Hs4, Hs5. by etrans.
Qed.

(** ** Validating a candidate *)

Lemma wp_validate_candidate cand g h v :
  calm h v →
  wpc (validate_candidate cand g) (λ h' v' r, v' = v ∧ same h h' ∧
    match r with
    | Ok _ => Ev CRevisions (revisions cand) ∈ h' ∧ ∃ object, structurally_valid cand g object = true
    | Err e => kind e ≠ Shutdown ∧ kind e ≠ Commit ∧ error_recovery e = NotRequired
    end) h v.
Proof.
  intros Hc. apply wp_bind. eapply wp_mono; [|by apply wp_quiet_call].
  intros h1 v1 now Hi1 (-> & Hh1 & Hs1 & _). assert (calm h1 v) as Hc1 by (by eapply calm_same).
  case_bool_decide as Hnow; cbn [negb]; [|by apply wp_ret].
  apply wp_bind. eapply wp_mono; [|by apply wp_quiet_call].
  intros h2 v2 object Hi2 (-> & -> & Hs2 & _). apply wp_ret; [done|]. split; [done|].
  split; [eauto using same_trans|]. destruct (structurally_valid _ _ _) eqn:Hsv; [|done].
  split; [|eauto]. subst. set_solver.
Qed.

(** ** Locks *)

Lemma inv_snoc {X} (c : Call X) x h v : inv h v → inv (h ++ [Ev c x]) v.
Proof. intros Hi. apply (inv_mono h _ v v); [apply sub_snoc|done|done]. Qed.

Lemma wp_with_lifecycle {A} poisoned (body : prog (result A ConfigTransactionError)) Q h v :
  calm h v → g_lifecycle (ghost h) = false →
  (∀ h1, h ⊆ h1 → ghost h1 = MkGhost true true false → calm h1 v →
     wpc body (λ h' v' r, g_lifecycle (ghost h') = true ∧ Q (h' ++ [Ev CUnlockLifecycle tt]) v' r) h1 v) →
  (∀ h', same h h' → Q h' v (Err poisoned)) →
  wpc (with_lifecycle poisoned body) Q h v.
Proof.
  intros (Hsh & Hco & Hi) Hl Hbody Hpois. apply wp_bind. apply wp_call; [done|done|].
  intros guard v1 ->. split; [by apply inv_snoc|]. destruct guard as [[]|[]].
  - apply wp_bind. eapply wp_mono; [|apply Hbody].
    + intros h2 v2 r Hi2 [Hl2 HQ]. apply wp_bind. apply wp_call; [done|done|].
      intros [] v3 ->. split; [by apply inv_snoc|]. apply wp_ret; [by apply inv_snoc|done].
    + apply sub_snoc.
    + rewrite ghost_snoc. simpl. by rewrite Hco, Hsh.
    + split_and!; [..|by apply inv_snoc]; by rewrite ghost_snoc.
  - apply wp_ret; [by apply inv_snoc|]. apply Hpois, same_snoc. simpl. by destruct (ghost h).
Qed.

Lemma wp_with_coordinator {A} (body : prog (result A ConfigTransactionError)) Q h v :
  ghost h = MkGhost false false false → inv h v →
  (∀ h1, h ⊆ h1 → ghost h1 = MkGhost true false false → calm h1 v →
     wpc body (λ h' v' r, g_coordinator (ghost h') = true ∧ g_lifecycle (ghost h') = false ∧
                          Q (h' ++ [Ev CUnlockCoordinator tt]) v' r) h1 v) →
  (∀ h', same h h' → Q h' v (Err (simple LockPoisoned))) →
  wpc (with_coordinator body) Q h v.
Proof.
  intros Hg Hi Hbody Hpois. apply wp_bind. apply wp_call; [done|by split; [simpl; by rewrite Hg|]|].
  intros guard v1 ->. split; [by apply inv_snoc|]. destruct guard as [[]|[]].
  - apply wp_bind. eapply wp_mono; [|apply Hbody].
    + intros h2 v2 r Hi2 (Hc2 & Hl2 & HQ). apply wp_bind. apply wp_call; [done|done|].
      intros [] v3 ->. split; [by apply inv_snoc|]. apply wp_ret; [by apply inv_snoc|done].
    + apply sub_snoc.
    + by rewrite ghost_snoc, Hg.
    + split_and!; [..|by apply inv_snoc]; by rewrite ghost_snoc, Hg.
  - apply wp_ret; [by apply inv_snoc|]. apply Hpois, same_snoc. by rewrite Hg.
Qed.

End discipline.
