(* ===== verification/Coordinator.v ===== *)
(** * Coordinator: the guarantees of configuration transactions

    The phases of [execute_guarded] and the startup functions put together, and
    the properties of the entry points: atomicity, crash safety, the order of
    journal, apply and commit, shutdown, and startup recovery. *)

From S2P Require Import Prelude Text Constants ConfigData Filesystem Journal State Program Ports Transaction Discipline.
Local Open Scope Z_scope.

(** ** A transaction *)

Create HintDb tx.

Section transaction.
(** The candidate, and the store when its transaction begins. *)
Context (cand : ConfigTransactionCandidate) (v0 : View).

(** The candidate's generation is newer than the committed one. *)
Definition newer_evidence (h : list Event) : Prop :=
  ∃ g, generation_known v0 g h ∧
    match g with
    | None => 0 < rb_generation (runtime cand)
    | Some committed => committed < rb_generation (runtime cand)
    end.

(** The candidate was journaled, validated, and found current and newer. *)
Definition prepared_evidence (p : PreparedTransaction) (h : list Event) : Prop :=
  Ev (CStore (SPrepare (transaction cand))) (Ok p) ∈ h ∧
  Ev (CValidate (configuration cand) (generation_root (runtime cand))) (Ok tt) ∈ h ∧
  Ev CRevisions (revisions cand) ∈ h ∧
  newer_evidence h.

(** The runtime may change while the journal names the checked candidate. *)
Definition journaled (h : list Event) (v : View) : Prop :=
  ∃ p, prepared_evidence p h ∧ v_prepared v = Some (Some p).

(** The commit needs the candidate to have been seen running. *)
Definition commit_evidence (p : PreparedTransaction) (h : list Event) (v : View) : Prop :=
  prepared_evidence p h ∧ running_evidence (runtime cand) h.

(** At every moment the committed transaction is the one at the beginning or
    the candidate, and then the candidate was checked and seen running. *)
Definition commit_inv (h : list Event) (v : View) : Prop :=
  v_committed v = v_committed v0 ∨
  ∃ p, v_committed v = Some (Some (committed_by p)) ∧ commit_evidence p h v.

Lemma newer_evidence_mono h h' : h ⊆ h' → newer_evidence h → newer_evidence h'.
Proof.
  intros Hs (g & Hg & Hn). exists g. split; [|done]. by apply (generation_known_mono v0 v0 g h).
Qed.
Lemma prepared_evidence_mono p h h' : h ⊆ h' → prepared_evidence p h → prepared_evidence p h'.
Proof. intros Hs (? & ? & ? & ?). split_and!; [auto..|by eapply newer_evidence_mono]. Qed.
Lemma journaled_mono h h' v : h ⊆ h' → journaled h v → journaled h' v.
Proof. intros Hs (p & Hp & ?). exists p. split; [by eapply prepared_evidence_mono|done]. Qed.
Lemma commit_inv_mono h h' v v' :
  h ⊆ h' → v_committed v' = v_committed v → commit_inv h v → commit_inv h' v'.
Proof.
  intros Hs Hv [Hc|(p & Hc & Hp & Hr)]; [left; congruence|right]. exists p.
  split; [congruence|]. split; [by eapply prepared_evidence_mono|by eapply running_evidence_mono].
Qed.

Abbreviation wpt := (wp (call_ok journaled commit_evidence) commit_inv).
Abbreviation calmt := (calm commit_inv).

Lemma calmt_same h h' v v' :
  same h h' → v_committed v' = v_committed v → calmt h v → calmt h' v'.
Proof. apply (calm_same _ commit_inv_mono). Qed.

Ltac keep_calm :=
  match goal with
  | Hs : same ?h ?h', Hc : calm _ ?h ?v |- calm _ ?h' ?v => exact (calmt_same _ _ _ _ Hs eq_refl Hc)
  end.

#[local] Hint Resolve journaled_mono commit_inv_mono : tx.

Lemma structurally_valid_newer g object h :
  structurally_valid cand g object = true → generation_known v0 g h → newer_evidence h.
Proof.
  unfold structurally_valid. rewrite !andb_true_iff. intros Hv Hg. exists g. split; [done|].
  destruct g; lia.
Qed.

(** The kinds of errors reported before the runtime is touched, for which the
    journal alone had to be removed. *)
Definition before_apply (k : ConfigTransactionErrorKind) : bool :=
  match k with Prepare | Validation | StaleCandidate => true | _ => false end.

Definition prepare_candidate_post (h h' : list Event) (v' : View)
    (r : result PreparedTransaction ConfigTransactionError) : Prop :=
  v_committed v' = v_committed v0 ∧
  match r with
  | Ok p => same h h' ∧ v_prepared v' = Some (Some p) ∧ prepared_evidence p h' ∧
            prepared_previous p = current <$> default None (v_committed v0)
  | Err e => ended h h' e ∧ (settled (error_recovery e) = true → v_prepared v' = Some None) ∧
             (before_apply (kind e) = true ∨ ∀ g, error_recovery e ≠ Converged g)
  end.

(** Clearing the journal of a candidate that was not applied. *)
Lemma wp_unapplied p k generation g h1 h v :
  calmt h v → v_committed v = v_committed v0 → same h1 h → k ≠ Shutdown → before_apply k = true →
  wpt (let* recovery := clear_prepared_unapplied p g in
       Ret (Err (MkError k generation g recovery))) (prepare_candidate_post h1) h v.
Proof.
  intros Hc Hv Hs Hk Hk'. apply wp_bind.
  eapply wp_mono; [|apply wp_clear_prepared_unapplied; eauto with tx].
  intros h2 v2 r Hi (Hs2 & Hcl & _ & Hset). apply wp_ret; [done|]. split; [congruence|].
  split; [left; eauto using same_trans|]. split; [done|by left].
Qed.

Lemma wp_validate_prepared g p h v :
  calmt h v → v_committed v = v_committed v0 → v_prepared v = Some (Some p) →
  Ev (CStore (SPrepare (transaction cand))) (Ok p) ∈ h → newer_evidence h →
  prepared_previous p = current <$> default None (v_committed v0) →
  wpt (validate_prepared cand g p) (prepare_candidate_post h) h v.
Proof.
  intros Hc Hv Hp Hprep Hnew Hprev. unfold validate_prepared. cbn zeta.
  apply wp_try. eapply wp_mono; [|apply wp_check_shutdown; eauto with tx].
  intros h1 v1 [[]|e] Hi1 (-> & Hs1); [|destruct Hs1 as [-> ?]; by split_and!; [..|right]].
  assert (calmt h1 v) as Hc1 by keep_calm.
  apply wp_bind. eapply wp_mono; [|apply wp_quiet_call; eauto with tx].
  intros h2 v2 validation Hi2 (-> & Hh2 & Hs2 & _).
  assert (calmt h2 v) as Hc2 by keep_calm. assert (same h h2) as Hs02 by eauto using same_trans.
  apply wp_try. eapply wp_mono; [|apply wp_check_shutdown; eauto with tx].
  intros h3 v3 [[]|e] Hi3 (-> & Hs3);
    [|destruct Hs3 as [-> ?]; by split_and!; [|eapply same_ended| |right]].
  assert (calmt h3 v) as Hc3 by keep_calm. assert (same h h3) as Hs03 by eauto using same_trans.
  destruct validation as [[]|e]; cbn [is_ok negb]; [|by apply wp_unapplied].
  apply wp_bind. eapply wp_mono; [|apply wp_quiet_call; eauto with tx].
  intros h4 v4 now Hi4 (-> & Hh4 & Hs4 & _).
  assert (calmt h4 v) as Hc4 by keep_calm. assert (same h h4) as Hs04 by eauto using same_trans.
  case_bool_decide as Hnow; cbn [negb]; [|by apply wp_unapplied].
  apply wp_ret; [done|]. split; [done|]. split; [done|]. split; [done|].
  split; [|done]. destruct Hs3 as [Hs3 _], Hs4 as [Hs4 _], Hs04 as [Hs04 _]. split_and!.
  - by apply Hs04.
  - apply Hs4, Hs3. rewrite Hh2. set_solver.
  - rewrite Hh4, Hnow. set_solver.
  - by eapply newer_evidence_mono.
Qed.

Lemma wp_prepare_candidate g state h v :
  calmt h v → v = MkView (Some (committed state)) (Some None) → v_committed v = v_committed v0 →
  generation_known v0 g h →
  wpt (prepare_candidate cand g state) (prepare_candidate_post h) h v.
Proof.
  intros Hc Hv Hv0 Hg. assert (v_prepared v = Some None) as Hnone by (by rewrite Hv).
  unfold prepare_candidate. cbn zeta. apply wp_try.
  eapply wp_mono; [|apply wp_validate_candidate; eauto with tx].
  intros h1 v1 [[]|e] Hi1 (-> & Hs1 & Hr);
    [|destruct Hr as (? & ? & Hrec); split; [done|]; split; [by left|]; split; [done|right; by rewrite Hrec]].
  destruct Hr as (Hrev & object & Hvalid). assert (calmt h1 v) as Hc1 by keep_calm.
  apply wp_try, wp_map_err. eapply wp_mono; [|apply wp_quiet; eauto with tx; apply quiet_runtime_retention].
  intros h2 v2 [retention|e] Hi2 (-> & Hs2); cbn [map_err];
    [|by split_and!; [|left; eauto using same_trans| |right]].
  assert (calmt h2 v) as Hc2 by keep_calm.
  apply wp_try, wp_map_err. eapply wp_mono; [|apply wp_quiet_call; eauto with tx].
  intros h3 v3 [[]|e] Hi3 (-> & _ & Hs3 & _); cbn [map_err];
    [|by split_and!; [|left; eauto 10 using same_trans| |right]].
  assert (calmt h3 v) as Hc3 by keep_calm. destruct (Hc3) as (Hsh3 & Hco3 & _).
  assert (same h h3) as Hs by eauto 10 using same_trans.
  apply wp_bind, wp_call; [done|done|]. intros r v4 [Hcom Hj]. set (h4 := h3 ++ _).
  assert (same h3 h4) as Hs4 by (by apply same_snoc).
  assert (calmt h4 v4) as Hc4 by (by apply (calmt_same h3 h4 v v4)).
  assert (v_committed v4 = v_committed v0) as Hv4 by congruence.
  assert (same h h4) as Hs04 by eauto using same_trans.
  split; [by apply (calm_inv commit_inv)|]. destruct r as [p|e].
  - destruct Hj as (_ & Hj & m & Hm & Hprev).
    eapply wp_mono; [|apply wp_validate_prepared; [done..|unfold h4; set_solver| |by rewrite <-Hv0, Hm]].
    + intros h5 v5 r Hi5 [Hv5 Hr]. split; [done|]. destruct r; [naive_solver eauto using same_trans|].
      naive_solver eauto using same_ended.
    + eapply structurally_valid_newer; [done|]. destruct Hs04. by apply (generation_known_mono v0 v0 g h).
  - apply wp_bind. eapply wp_mono; [|apply wp_clear_unapplied_journal; eauto with tx].
    intros h5 v5 r5 Hi5 (Hs5 & Hcl & _ & Hset). apply wp_ret; [done|]. split; [congruence|].
    split; [left; eauto 10 using same_trans|]. split; [done|by left].
Qed.

(** The state in which the candidate is applied and committed. *)
Definition applying (p : PreparedTransaction) (h : list Event) (v : View) : Prop :=
  calmt h v ∧ g_lifecycle (ghost h) = true ∧ prepared_evidence p h ∧
  v_prepared v = Some (Some p) ∧ v_committed v = v_committed v0 ∧
  prepared_previous p = current <$> default None (v_committed v0).

Lemma applying_armed p h v : applying p h v → armed journaled commit_inv h v.
Proof. intros (? & ? & ? & ? & _). split_and!; [done..|]. by exists p. Qed.

Lemma applying_same p h h' v : same h h' → applying p h v → applying p h' v.
Proof.
  intros Hs (Hc & Hl & Hp & Hj & Hv & ?). split; [keep_calm|]. destruct Hs as [Hs Hg]. rewrite Hg.
  split_and!; [done| |done..]. by eapply prepared_evidence_mono.
Qed.

(** When recovery converged, the runtime is back at the committed transaction. *)
Definition back (e : ConfigTransactionError) (h : list Event) : Prop :=
  ∀ g, error_recovery e = Converged g →
  before_apply (kind e) = true ∨ converged (current <$> default None (v_committed v0)) h.

Definition apply_post (h : list Event) (v : View) (h' : list Event) (v' : View)
    (r : result ApplyPath ConfigTransactionError) : Prop :=
  match r with
  | Ok _ => v' = v ∧ same h h' ∧ running_evidence (runtime cand) h'
  | Err e => v_committed v' = v_committed v0 ∧ ended h h' e ∧
             (settled (error_recovery e) = true → v_prepared v' = Some None) ∧ back e h'
  end.

(** Undoing a failed candidate. *)
Lemma wp_fail_with p k generation g mode h0 v h :
  applying p h v → same h0 h → k ≠ Shutdown →
  wpt (let* recovery := recover_failed_candidate p g mode in
       Ret (Err (MkError k generation g recovery))) (apply_post h0 v) h v.
Proof.
  intros Ha Hs Hk. destruct (Ha) as (_ & _ & _ & _ & Hv & Hprev). apply wp_bind.
  eapply wp_mono; [|apply wp_recover_failed; [exact journaled_mono|exact commit_inv_mono|by eapply applying_armed]].
  intros h2 v2 r Hi (Hs2 & (Hcom & _ & Hset) & Hr). apply wp_ret; [done|]. split; [congruence|].
  split; [left; eauto using same_trans|]. split; [done|]. intros g' Hg'. right. rewrite <-Hprev. simpl in Hg'.
  by destruct Hr as [->|[-> ?]].
Qed.

Lemma apply_shutdown h0 h h' v g :
  v_committed v = v_committed v0 → same h0 h →
  ended h h' (shutdown_error (rb_generation (runtime cand)) g true) →
  apply_post h0 v h' v (Err (shutdown_error (rb_generation (runtime cand)) g true)).
Proof. intros Hv Hs He. split_and!; [done|by eapply same_ended|done|done]. Qed.

Lemma wp_apply_phase g p mode h v :
  applying p h v → wpt (apply_phase cand g p mode) (apply_post h v) h v.
Proof.
  intros Ha. assert (v_committed v = v_committed v0) as Hv by (by destruct Ha as (_ & _ & _ & _ & ? & _)).
  unfold apply_phase. cbn zeta. apply wp_try.
  eapply wp_mono; [|apply wp_check_shutdown; eauto with tx; by destruct Ha].
  intros h1 v1 [[]|e] Hi1 (-> & Hs1); [|destruct Hs1 as [-> ?]; by eapply apply_shutdown; [|apply same_refl|]].
  assert (applying p h1 v) as Ha1 by (by eapply applying_same). apply wp_bind.
  eapply wp_mono; [|apply wp_runtime_call; [exact commit_inv_mono|done|by eapply applying_armed]].
  intros h2 v2 applied Hi2 (-> & Hh2 & Hs2). assert (applying p h2 v) as Ha2 by (by eapply applying_same).
  apply wp_try. eapply wp_mono; [|apply wp_check_shutdown; eauto with tx; by destruct Ha2].
  intros h3 v3 [[]|e] Hi3 (-> & Hs3); [|destruct Hs3 as [-> ?]; eapply apply_shutdown; [done| |eassumption]; eauto 10 using same_trans].
  assert (same h h3) as Hs by eauto 10 using same_trans.
  assert (applying p h3 v) as Ha3 by (by eapply applying_same).
  destruct applied as [applied|[]]; [|by apply wp_fail_with| |by apply wp_fail_with..].
  - apply wp_bind. eapply wp_mono; [|apply wp_confirm; [exact commit_inv_mono|by destruct Ha3|]].
    2: { destruct Hs3 as [Hs3 _]. apply Hs3. rewrite Hh2. set_solver. }
    intros h4 v4 r Hi4 (-> & Hs4 & Hrun). assert (applying p h4 v) as Ha4 by (by eapply applying_same).
    apply wp_try. eapply wp_mono; [|apply wp_check_shutdown; eauto with tx; by destruct Ha4].
    intros h5 v5 [[]|e] Hi5 (-> & Hs5);
      [|destruct Hs5 as [-> ?]; eapply apply_shutdown; [done| |eassumption]; eauto 10 using same_trans].
    assert (same h h5) as Hs05 by eauto 10 using same_trans.
    destruct r as [[]|]; cbn [is_ok negb]; [|apply wp_fail_with; [by eapply applying_same|done..]].
    apply wp_ret; [done|]. split; [done|]. split; [done|]. destruct Hs5. by eapply running_evidence_mono, Hrun.
  - apply wp_bind.
    eapply wp_mono; [|apply wp_restart_candidate; [exact journaled_mono|exact commit_inv_mono|by eapply applying_armed]].
    intros h4 v4 r Hi4 (-> & Hs4 & Hrun). assert (same h h4) as Hs04 by eauto using same_trans.
    destruct r; cbn [is_ok]; [apply wp_ret; [done|]; by split_and!; [| |apply Hrun]|].
    apply wp_fail_with; [by eapply applying_same|done..].
Qed.

Definition commit_post (p : PreparedTransaction) (h h' : list Event) (v' : View)
    (r : result ConfigTransactionSuccess ConfigTransactionError) : Prop :=
  match r with
  | Ok s => same h h' ∧ success_committed_generation s = rb_generation (runtime cand) ∧
      (∃ m, v_committed v' = Some (Some m) ∧ current m = candidate p) ∧
      (settled (success_recovery s) = true → v_prepared v' = Some None)
  | Err e => ended h h' e ∧ (settled (error_recovery e) = true → v_prepared v' = Some None) ∧ back e h' ∧
      (v_committed v' = v_committed v0 ∨
       kind e = Commit ∧ (∃ t, error_recovery e = Failed t) ∧
       v_committed v' = Some (Some (committed_by p)))
  end.

Lemma wp_commit_failed g p mode path h h1 v1 :
  applying p h1 v1 ∨ armed journaled commit_inv h1 v1 ∧ v_committed v1 = Some (Some (committed_by p)) →
  same h h1 → prepared_previous p = current <$> default None (v_committed v0) →
  wpt (try* recovery := recover_commit_failure p (rb_generation (runtime cand)) g mode in
       Ret (Ok (MkSuccess (rb_generation (runtime cand)) (rb_generation (runtime cand)) path recovery)))
    (commit_post p h) h1 v1.
Proof.
  intros Hcase Hs Hprev. assert (armed journaled commit_inv h1 v1) as Ha
    by (destruct Hcase as [?|[? _]]; [by eapply applying_armed|done]).
  apply wp_try. eapply wp_mono; [|apply wp_recover_commit_failure; [exact journaled_mono|exact commit_inv_mono|done]].
  intros h2 v2 [recovery|e] Hi2 (Hs2 & Hr).
  - destruct Hr as ((Hcom & _ & Hset) & m & Hm & Hcur). apply wp_ret; [done|].
    split; [eauto using same_trans|]. split; [done|]. split; [|done]. exists m. by rewrite Hcom.
  - destruct Hr as (Hk & (Hcom & _ & Hset) & Hback & Hcases). split; [left; split; [by rewrite Hk|eauto using same_trans]|].
    split; [done|]. split; [intros g' Hg'; right; rewrite <-Hprev; eauto|].
    destruct Hcase as [(_ & _ & _ & _ & Hv & _)|[_ Hv]]; [left; congruence|right].
    split; [done|]. rewrite Hcom. split; [|done]. destruct Hcases as [Hf|(m & Hm & Hne)]; [eauto|].
    rewrite Hv in Hm. by simplify_eq.
Qed.

Lemma wp_commit_phase g p mode path h v :
  applying p h v → running_evidence (runtime cand) h →
  wpt (commit_phase cand g p mode path) (commit_post p h) h v.
Proof.
  intros Ha Hrun. assert (v_committed v = v_committed v0) as Hv by (by destruct Ha as (_ & _ & _ & _ & ? & _)).
  unfold commit_phase. cbn zeta. apply wp_try.
  eapply wp_mono; [|apply wp_check_shutdown; eauto with tx; by destruct Ha].
  intros h1 v1 [[]|e] Hi1 (-> & Hs1); [|destruct Hs1 as [-> ?]; split_and!; [done|done|done|by left]].
  assert (applying p h1 v) as Ha1 by (by eapply applying_same).
  destruct (Hs1) as [Hsub1 _]. apply (running_evidence_mono _ _ h1) in Hrun; [|done].
  destruct (Ha1) as ((Hsh & Hco & _) & Hl & Hp & Hj & _ & Hprev).
  apply wp_bind, wp_call; [done|by split_and!; [..|split]|]. intros r v2 [Hprep Hr]. set (h2 := h1 ++ _).
  assert (same h1 h2) as Hs2 by (by apply same_snoc). assert (same h h2) as Hs by eauto using same_trans.
  destruct (Hs2) as [Hsub2 Hg2].
  assert (prepared_evidence p h2) as Hp2 by (by eapply prepared_evidence_mono).
  assert (running_evidence (runtime cand) h2) as Hrun2 by (by eapply running_evidence_mono).
  assert (∀ v3, v_committed v3 = Some (Some (committed_by p)) → v_prepared v3 = Some (Some p) →
    armed journaled commit_inv h2 v3) as Harmed.
  { intros v3 Hc3 Hp3. unfold armed, calm. rewrite Hg2. split_and!; [done|done| |done|by exists p].
    right. exists p. by split. }
  destruct r as [[]|e]; cbn [is_ok negb].
  - destruct Hr as (_ & _ & Hc2). assert (armed journaled commit_inv h2 v2) as Ha2 by (apply Harmed; congruence).
    split; [by apply (calm_inv commit_inv), (armed_calm journaled)|]. apply wp_try, wp_bind.
    eapply wp_mono; [|apply wp_clear; [exact commit_inv_mono|by apply (armed_calm journaled)]].
    intros h3 v3 r Hi3 (Hs3 & (Hcom & _ & Hset)). apply wp_ret; [done|]. apply wp_ret; [done|].
    split; [eauto using same_trans|]. split; [done|]. split; [|by destruct r].
    exists (committed_by p). split; [by rewrite Hcom|done].
  - destruct Hr as [Hc2|(_ & _ & Hc2)].
    + assert (applying p h2 v2) as Ha2.
      { apply (applying_same _ _ _ _ Hs2) in Ha1 as (Hcalm & ? & ? & ? & ? & ?).
        split_and!; [by apply (calmt_same h2 h2 v v2)|done|done|congruence|congruence|done]. }
      split; [by destruct Ha2 as ((_ & _ & ?) & _)|]. apply wp_commit_failed; auto.
    + assert (armed journaled commit_inv h2 v2) as Ha2 by (apply Harmed; congruence).
      split; [by apply (calm_inv commit_inv), (armed_calm journaled)|]. apply wp_commit_failed; auto.
Qed.

(** What [execute_guarded] promises. *)
Definition outcome (h h' : list Event) (v' : View)
    (r : result ConfigTransactionSuccess ConfigTransactionError) : Prop :=
  match r with
  | Ok s =>
      same h h' ∧ success_committed_generation s = rb_generation (runtime cand) ∧
      (settled (success_recovery s) = true → v_prepared v' = Some None) ∧
      ∃ p m, commit_evidence p h' v' ∧ v_committed v' = Some (Some m) ∧ current m = candidate p
  | Err e =>
      ended h h' e ∧ journal_after v0 v' (error_recovery e) ∧ back e h' ∧
      (v_committed v' = v_committed v0 ∨
       kind e = Commit ∧ (∃ t, error_recovery e = Failed t) ∧
       ∃ p, commit_evidence p h' v' ∧ v_committed v' = Some (Some (committed_by p)))
  end.

Lemma settled_journal v v' r :
  (settled r = true → v_prepared v' = Some None) → journal_after v v' r.
Proof. destruct r; simpl; auto. Qed.

(** Releasing the lifecycle lock restores the locks of before. *)
Lemma unlock_lifecycle h h1 h2 :
  ghost h = MkGhost true false false → ghost h1 = MkGhost true true false → h ⊆ h1 →
  (same h1 h2 → same h (h2 ++ [Ev CUnlockLifecycle tt])) ∧
  (∀ e, ended h1 h2 e → ended h (h2 ++ [Ev CUnlockLifecycle tt]) e).
Proof.
  intros Hg Hg1 Hsub. assert (h1 ⊆ h2 → h ⊆ h2 ++ [Ev CUnlockLifecycle tt]) as Hs by set_solver.
  split; [|intros e; unfold ended, stopped]; unfold same; rewrite ghost_snoc.
  - intros [? Hg2]. split; [auto|]. by rewrite Hg2, Hg1, Hg.
  - intros [(? & ? & Hg2)|(? & ? & Hg2)]; [left|right]; (split; [done|]); (split; [auto|]);
      by rewrite Hg2, Hg1, Hg.
Qed.

Lemma back_mono e h h' : h ⊆ h' → back e h → back e h'.
Proof. intros Hs Hb g Hg. destruct (Hb g Hg); [by left|right]. by eapply converged_mono. Qed.

Lemma commit_evidence_snoc p h v {X} (c : Call X) x :
  commit_evidence p h v → commit_evidence p (h ++ [Ev c x]) v.
Proof.
  intros [? ?]. assert (h ⊆ h ++ [Ev c x]) by set_solver.
  split; [by eapply prepared_evidence_mono|by eapply running_evidence_mono].
Qed.

Lemma wp_under_lifecycle g p mode h h1 v :
  ghost h = MkGhost true false false → ghost h1 = MkGhost true true false → h ⊆ h1 →
  applying p h1 v →
  wpt (try* applied := apply_phase cand g p mode in commit_phase cand g p mode applied)
    (λ h' v' r, g_lifecycle (ghost h') = true ∧ outcome h (h' ++ [Ev CUnlockLifecycle tt]) v' r) h1 v.
Proof.
  intros Hg Hg1 Hsub Ha. apply wp_try. eapply wp_mono; [|by apply wp_apply_phase].
  intros h2 v2 [path|e] Hi2 Hr.
  - destruct Hr as (-> & Hs2 & Hrun). assert (applying p h2 v) as Ha2 by (by eapply applying_same).
    eapply wp_mono; [|by apply wp_commit_phase]. intros h3 v3 r Hi3 Hr.
    destruct (unlock_lifecycle h h1 h3 Hg Hg1 Hsub) as [Hsame Hended].
    assert (∀ h4, h2 ⊆ h4 → commit_evidence p h4 v3) as Hev.
    { intros h4 Hs4. destruct Ha2 as (_ & _ & Hp & _).
      split; [by eapply prepared_evidence_mono|by eapply running_evidence_mono]. }
    destruct r as [s|e].
    + destruct Hr as (Hs3 & Hgen & (m & Hm & Hcur) & Hset).
      assert (same h1 h3) as Hs13 by eauto using same_trans.
      split; [destruct Hs13 as [_ ->]; by rewrite Hg1|]. split; [auto|]. split; [done|]. split; [done|].
      exists p, m. split; [apply commit_evidence_snoc, Hev; by destruct Hs3|done].
    + destruct Hr as (He & Hset & Hback & Hcases). assert (ended h1 h3 e) as He13 by (by eapply same_ended).
      split; [destruct He13 as [[_ [_ ->]]|[_ [_ ->]]]; by rewrite Hg1|].
      split; [auto|]. split; [by apply settled_journal|]. split; [by eapply back_mono, Hback; apply sub_snoc|].
      destruct Hcases as [?|(? & ? & ?)]; [by left|right]. split; [done|]. split; [done|]. exists p.
      split; [|done]. apply commit_evidence_snoc, Hev. by destruct He as [[_ [? _]]|[_ [? _]]].
  - destruct Hr as (Hcom & He & Hset & Hback).
    destruct (unlock_lifecycle h h1 h2 Hg Hg1 Hsub) as [_ Hended].
    split; [destruct He as [[_ [_ ->]]|[_ [_ ->]]]; by rewrite Hg1|].
    split; [auto|]. split; [by apply settled_journal|]. split; [by eapply back_mono, Hback; apply sub_snoc|by left].
Qed.

Lemma wp_execute_guarded mode h :
  ghost h = MkGhost true false false → commit_inv h v0 →
  wpt (execute_guarded cand mode) (outcome h) h v0.
Proof.
  intros Hg Hi. assert (calmt h v0) as Hc by (by unfold calm; rewrite Hg).
  unfold execute_guarded. cbn zeta. apply wp_try.
  eapply wp_mono; [|apply wp_begin; eauto with tx].
  intros h1 v1 [[g state]|e] Hi1 [Hcom Hr].
  2: { destruct Hr as (He & Hk & Hj). split; [done|]. split; [done|]. split; [|by left].
       intros g Hg'. by destruct (Hk g). }
  destruct Hr as (Hs1 & Hv1 & Hgk).
  assert (calmt h1 v1) as Hc1 by (by eapply (calmt_same h h1 v0 v1)).
  apply wp_try. eapply wp_mono; [|apply wp_prepare_candidate; [done..|]].
  2: { by apply (generation_known_mono v1 v0 g h1). }
  intros h2 v2 [p|e] Hi2 [Hcom2 Hr].
  2: { destruct Hr as (He & Hset & Hk). split; [by eapply same_ended|].
       split; [by apply settled_journal|]. split; [|by left]. intros g' Hg'.
       destruct Hk as [Hk|Hk]; [by left|by destruct (Hk g')]. }
  destruct Hr as (Hs2 & Hj & Hp & Hprev). assert (same h h2) as Hs by eauto using same_trans.
  destruct (Hs) as [Hsub Hg2]. rewrite Hg in Hg2.
  assert (calmt h2 v2) as Hc2 by (by unfold calm; rewrite Hg2).
  apply wp_with_lifecycle; [exact commit_inv_mono|done|by rewrite Hg2| |].
  - intros h3 Hsub3 Hg3 Hc3. apply (wp_under_lifecycle g p mode h h3); [done|done|by etrans|].
    split_and!; [done|by rewrite Hg3| |done..]. by eapply prepared_evidence_mono.
  - intros h3 Hs3. split; [left; eauto using same_trans|]. split; [done|]. split; [done|by left].
Qed.

(** ** The entry points *)

(** The public ways to run a transaction. *)
Definition entry_point (p : prog (result ConfigTransactionSuccess ConfigTransactionError)) : Prop :=
  p = execute cand ∨ p = execute_startup_reapply cand ∨ p = try_execute_rule cand.

Definition entry_post (h' : list Event) (v' : View)
    (r : result ConfigTransactionSuccess ConfigTransactionError) : Prop :=
  g_coordinator (ghost h') = false ∧ g_lifecycle (ghost h') = false ∧
  match r with
  | Ok s =>
      g_shutdown (ghost h') = false ∧ success_committed_generation s = rb_generation (runtime cand) ∧
      (settled (success_recovery s) = true → v_prepared v' = Some None) ∧
      ∃ p m, commit_evidence p h' v' ∧ v_committed v' = Some (Some m) ∧ current m = candidate p
  | Err e =>
      (g_shutdown (ghost h') = true ↔ kind e = Shutdown) ∧ journal_after v0 v' (error_recovery e) ∧
      back e h' ∧
      (v_committed v' = v_committed v0 ∨
       kind e = Commit ∧ (∃ t, error_recovery e = Failed t) ∧
       ∃ p, commit_evidence p h' v' ∧ v_committed v' = Some (Some (committed_by p)))
  end.

Lemma outcome_entry h h' v' r :
  ghost h = MkGhost true false false → outcome h h' v' r →
  g_coordinator (ghost h') = true ∧ g_lifecycle (ghost h') = false ∧
  entry_post (h' ++ [Ev CUnlockCoordinator tt]) v' r.
Proof.
  intros Hg Ho. unfold entry_post. rewrite ghost_snoc. destruct r as [s|e].
  - destruct Ho as ([_ Hg'] & Hgen & Hset & p & m & Hev & Hm). rewrite Hg', Hg. simpl.
    split_and!; try done. exists p, m. split; [by apply commit_evidence_snoc|done].
  - destruct Ho as (He & Hj & Hback & Hcases).
    assert (g_coordinator (ghost h') = true ∧ g_lifecycle (ghost h') = false ∧
      (g_shutdown (ghost h') = true ↔ kind e = Shutdown)) as (Hco & Hl & Hsh).
    { destruct He as [[? [_ Hg']]|[? [_ Hg']]]; by rewrite Hg', Hg. }
    simpl. split_and!; try done; try (by apply Hsh); try (by eapply back_mono, Hback; apply sub_snoc).
    destruct Hcases as [?|(? & ? & p & ? & ?)]; [by left|right]. split_and!; [done..|].
    exists p. split; [by apply commit_evidence_snoc|done].
Qed.

Lemma entry_early k h : ghost h = MkGhost false false false → k ≠ Shutdown → k ≠ Commit → entry_post h v0 (Err (simple k)).
Proof.
  intros Hg Hk Hk'. unfold entry_post. rewrite Hg. split_and!; [done|done|by split|by left|done|by left].
Qed.

Lemma wp_entry_point p : entry_point p → wpt p entry_post [] v0.
Proof.
  assert (commit_inv [] v0) as Hi by (by left).
  assert (∀ h1 mode, ghost h1 = MkGhost true false false → calmt h1 v0 →
    wpt (execute_guarded cand mode) (λ h' v' r, g_coordinator (ghost h') = true ∧
      g_lifecycle (ghost h') = false ∧ entry_post (h' ++ [Ev CUnlockCoordinator tt]) v' r) h1 v0) as Hbody.
  { intros h1 mode Hg (_ & _ & Hi1). eapply wp_mono; [|by apply wp_execute_guarded].
    intros h2 v2 r _. by apply outcome_entry. }
  intros [->|[->| ->]].
  - apply wp_with_coordinator; [exact commit_inv_mono|done|done|by intros; apply Hbody|].
    intros h [_ Hg]. by apply entry_early.
  - apply wp_with_coordinator; [exact commit_inv_mono|done|done|by intros; apply Hbody|].
    intros h [_ Hg]. by apply entry_early.
  - apply wp_bind, wp_call; [done|done|]. intros guard v1 ->. split; [by left|].
    destruct guard; [|by apply wp_ret; [left|apply entry_early]..].
    apply wp_bind. eapply wp_mono; [|apply Hbody; [done|by split_and!; [..|left]]].
    intros h2 v2 r Hi2 (Hc2 & Hl2 & HQ). apply wp_bind, wp_call; [done|done|]. intros [] v3 ->.
    assert (commit_inv (h2 ++ [Ev CUnlockCoordinator tt]) v2) by (by apply (inv_snoc _ commit_inv_mono)).
    split; [done|]. by apply wp_ret.
Qed.

End transaction.

(** ** Startup *)

Section startup.
Context (v0 : View).

(** Startup commits nothing. *)
Definition unchanged_inv (h : list Event) (v : View) : Prop := v_committed v = v_committed v0.
Definition no_commit (p : PreparedTransaction) (h : list Event) (v : View) : Prop := False.

Lemma unchanged_inv_mono h h' v v' :
  h ⊆ h' → v_committed v' = v_committed v → unchanged_inv h v → unchanged_inv h' v'.
Proof. unfold unchanged_inv. congruence. Qed.

(** The same for either choice of when the runtime may be changed. *)
Section steps.
Context (grant : list Event → View → Prop).
Context (grant_mono : ∀ h h' v, h ⊆ h' → grant h v → grant h' v).
Abbreviation wps := (wp (call_ok grant no_commit) unchanged_inv).
Abbreviation calms := (calm unchanged_inv).

Lemma calms_same h h' v v' :
  same h h' → v_committed v' = v_committed v → calms h v → calms h' v'.
Proof. apply (calm_same _ unchanged_inv_mono). Qed.

Lemma wp_read_committed h v :
  calms h v →
  wps read_committed (λ h' v' r, v' = v ∧ same h h' ∧
    match r with
    | Ok (state, g) => v = MkView (Some (committed state)) (Some (prepared state)) ∧ generation_known v g h'
    | Err e => kind e ≠ Shutdown
    end) h v.
Proof.
  intros Hc. apply wp_try, wp_map_err.
  eapply wp_mono; [|apply wp_quiet_call; [exact unchanged_inv_mono|done|done]].
  intros h1 v1 [state|e] Hi1 (-> & _ & Hs1 & [_ Hview]); [|done].
  assert (calms h1 v) as Hc1 by (by apply (calms_same h h1 v v)). apply wp_try, wp_map_err.
  eapply wp_mono; [|apply (wp_generation_from_manifest grant no_commit unchanged_inv unchanged_inv_mono (committed state));
    [done|by rewrite Hview]].
  intros h2 v2 [g|e] Hi2 (-> & Hs2 & Hg); cbn [map_err]; [|split_and!; eauto using same_trans].
  assert (calms h2 v) as Hc2 by (by apply (calms_same h1 h2 v v)). specialize (Hg g eq_refl).
  apply wp_try, wp_map_err.
  eapply wp_mono; [|apply wp_quiet; [exact unchanged_inv_mono|apply quiet_prune_runtime_state|done]].
  intros h3 v3 [[]|e] Hi3 (-> & Hs3); cbn [map_err]; [|split_and!; eauto 10 using same_trans].
  apply wp_ret; [done|]. split; [done|]. split; [eauto 10 using same_trans|]. split; [done|].
  destruct Hs3. by apply (generation_known_mono v v g h2).
Qed.

Lemma wp_clear_startup_journal state g h v :
  calms h v → v = MkView (Some (committed state)) (Some (prepared state)) →
  wps (clear_startup_journal state g) (λ h' v' r, same h h' ∧
    match r with Ok _ => v_prepared v' = Some None | Err e => kind e ≠ Shutdown end) h v.
Proof.
  intros Hc Hv. unfold clear_startup_journal. destruct (prepared state) as [p|] eqn:Hp.
  - apply wp_map_err. eapply wp_mono; [|apply wp_clear; [exact unchanged_inv_mono|done]].
    intros h1 v1 r Hi (Hs & _ & _ & Hset). split; [done|]. destruct r; [by apply Hset|done].
  - apply wp_ret; [by apply (calm_inv unchanged_inv)|]. split; [done|]. by rewrite Hv.
Qed.

End steps.

Definition recovered (h' : list Event) (v' : View) (r : result StartupRecovery ConfigTransactionError) : Prop :=
  match r with
  | Ok s => v_prepared v' = Some None ∧ generation_known v0 (recovered_generation s) h' ∧
      ∃ m, v_committed v0 = Some m ∧ converged (current <$> m) h'
  | Err e => kind e ≠ Shutdown
  end.

Lemma recovered_snoc h v r {X} (c : Call X) x : recovered h v r → recovered (h ++ [Ev c x]) v r.
Proof.
  destruct r; [|done]. intros (? & ? & m & ? & ?). pose proof (sub_snoc h c x).
  split_and!; [done|by apply (generation_known_mono v0 v0 _ h)|]. exists m. split; [done|]. by eapply converged_mono.
Qed.

(** No condition on changing the runtime but the locks. *)
Definition always (h : list Event) (v : View) : Prop := True.
(** The runtime is not to be changed. *)
Definition never (h : list Event) (v : View) : Prop := False.

Lemma wp_recover_startup :
  wp (call_ok always no_commit) unchanged_inv recover_startup
    (λ h' v' r, g_coordinator (ghost h') = false ∧ g_lifecycle (ghost h') = false ∧ recovered h' v' r) [] v0.
Proof.
  apply wp_with_coordinator; [exact unchanged_inv_mono|done|done| |].
  2: { intros h [_ Hg]. by rewrite Hg. }
  intros h1 _ Hg1 Hc1. apply wp_with_lifecycle; [exact unchanged_inv_mono|done|by rewrite Hg1| |].
  2: { intros h2 [_ Hg2]. rewrite ghost_snoc. simpl. by rewrite Hg2, Hg1. }
  intros h2 _ Hg2 Hc2. apply wp_try. eapply wp_mono; [|by apply wp_read_committed].
  assert (∀ h' v' (r : result StartupRecovery ConfigTransactionError), same h2 h' → recovered h' v' r →
    g_lifecycle (ghost h') = true ∧ g_coordinator (ghost (h' ++ [Ev CUnlockLifecycle ()])) = true ∧
    g_lifecycle (ghost (h' ++ [Ev CUnlockLifecycle ()])) = false ∧
    g_coordinator (ghost ((h' ++ [Ev CUnlockLifecycle ()]) ++ [Ev CUnlockCoordinator ()])) = false ∧
    g_lifecycle (ghost ((h' ++ [Ev CUnlockLifecycle ()]) ++ [Ev CUnlockCoordinator ()])) = false ∧
    recovered ((h' ++ [Ev CUnlockLifecycle ()]) ++ [Ev CUnlockCoordinator ()]) v' r) as Hend.
  { intros h' v' r [_ Hg'] Hr. rewrite !ghost_snoc, Hg', Hg2. split_and!; try done.
    by apply recovered_snoc, recovered_snoc. }
  intros h3 v3 [[state g]|e] Hi3 (-> & Hs3 & Hr); [|by apply Hend]. destruct Hr as [Hview Hgk].
  assert (armed always unchanged_inv h3 v0) as Ha3.
  { destruct Hs3 as [_ Hg3]. unfold armed, calm. by rewrite Hg3, Hg2. }
  apply wp_try, wp_map_err. unfold converge_to_manifest.
  eapply wp_mono; [|apply wp_converge; [done|exact unchanged_inv_mono|done]].
  intros h4 v4 [[]|e] Hi4 (-> & Hs4 & Hconv); cbn [map_err]; [|apply Hend; [eauto using same_trans|done]].
  assert (calm unchanged_inv h4 v0) as Hc4 by (apply (calms_same h3 h4 v0 v0); [done|done|by destruct Ha3]).
  apply wp_try. eapply wp_mono; [|by apply wp_clear_startup_journal].
  intros h5 v5 [[]|e] Hi5 (Hs5 & Hr5); [|apply Hend; [eauto 10 using same_trans|done]].
  apply wp_ret; [done|]. apply Hend; [eauto 10 using same_trans|].
  destruct Hs4 as [Hsub4 _], Hs5 as [Hsub5 _]. split; [done|].
  split; [apply (generation_known_mono v0 v0 _ h3); [by etrans|done|done]|].
  exists (committed state). split; [by rewrite Hview|]. eapply converged_mono; [done|by apply Hconv].
Qed.

(** The reapplied candidate gets a new generation. *)
Definition fresh_generation (s : StartupReapply) (h : list Event) : Prop :=
  0 < reapply_candidate_generation s ≤ u64_max ∧
  (∀ g, reapply_committed_generation s = Some g → g < reapply_candidate_generation s) ∧
  (∀ p, v_prepared v0 = Some (Some p) → ∃ r, Ev (CStore (SLoadTransaction (candidate p))) r ∈ h ∧
     ∀ b, r = Ok b → runtime_generation b < reapply_candidate_generation s).

Definition reapply_ready (expected : option Z) (h' : list Event) (v' : View)
    (r : result StartupReapply ConfigTransactionError) : Prop :=
  match r with
  | Ok s => v_prepared v' = Some None ∧ reapply_committed_generation s = expected ∧
      generation_known v0 expected h' ∧ fresh_generation s h'
  | Err e => kind e ≠ Shutdown
  end.

Lemma reapply_ready_snoc expected h v r {X} (c : Call X) x :
  reapply_ready expected h v r → reapply_ready expected (h ++ [Ev c x]) v r.
Proof.
  destruct r; [|done]. intros (? & ? & ? & ? & ? & Hp). pose proof (sub_snoc h c x) as Hsub.
  split; [done|]. split; [done|]. split; [by apply (generation_known_mono v0 v0 _ h)|].
  split; [done|]. split; [done|]. intros p Hp0. destruct (Hp p Hp0) as (a & ? & ?). exists a. auto.
Qed.

Lemma next_generation_spec a b g :
  next_generation (highest_generation a b) = Some g →
  0 < g ≤ u64_max ∧ (∀ x, a = Some x → x < g) ∧ (∀ x, b = Some x → x < g).
Proof.
  unfold next_generation. destruct (checked_add _ 1) as [n|] eqn:Hn; [|done].
  apply checked_add_Some in Hn as [-> Hn]. destruct (Z.ltb_spec 0 (highest_generation a b + 1)); [|done].
  intros [= <-]. split; [lia|]. destruct a, b; simpl in *; split; intros ? [=]; subst; lia.
Qed.

Lemma wp_journal_generation state h v :
  calm unchanged_inv h v → 
  wp (call_ok never no_commit) unchanged_inv (journal_generation state) (λ h' v' g, v' = v ∧ same h h' ∧
    ∀ p, prepared state = Some p → ∃ r, Ev (CStore (SLoadTransaction (candidate p))) r ∈ h' ∧
      ∀ b, r = Ok b → g = Some (runtime_generation b)) h v.
Proof.
  intros Hc. unfold journal_generation. destruct (prepared state) as [p|];
    [|by apply wp_ret; [apply (calm_inv unchanged_inv)|]].
  apply wp_bind, wp_bind. eapply wp_mono; [|apply wp_quiet_call; [exact unchanged_inv_mono|done|done]].
  intros h1 v1 r Hi1 (-> & -> & Hs1 & _). apply wp_ret; [done|]. apply wp_ret; [done|].
  split; [done|]. split; [done|]. intros ? [= <-]. exists r. split; [set_solver|]. by intros b ->.
Qed.

Lemma wp_prepare_startup_reapply expected :
  wp (call_ok never no_commit) unchanged_inv (prepare_startup_reapply expected)
    (λ h' v' r, g_coordinator (ghost h') = false ∧ g_lifecycle (ghost h') = false ∧
       reapply_ready expected h' v' r) [] v0.
Proof.
  apply wp_with_coordinator; [exact unchanged_inv_mono|done|done| |].
  2: { intros h [_ Hg]. by rewrite Hg. }
  intros h1 _ Hg1 Hc1. apply wp_try. eapply wp_mono; [|by apply wp_read_committed].
  assert (∀ h' v' r, same h1 h' → reapply_ready expected h' v' r →
    g_coordinator (ghost h') = true ∧ g_lifecycle (ghost h') = false ∧
    g_coordinator (ghost (h' ++ [Ev CUnlockCoordinator ()])) = false ∧
    g_lifecycle (ghost (h' ++ [Ev CUnlockCoordinator ()])) = false ∧
    reapply_ready expected (h' ++ [Ev CUnlockCoordinator ()]) v' r) as Hend.
  { intros h' v' r [_ Hg'] Hr. rewrite !ghost_snoc, Hg', Hg1. split_and!; try done. by apply reapply_ready_snoc. }
  intros h2 v2 [[state g]|e] Hi2 (-> & Hs2 & Hr); [|by apply Hend]. destruct Hr as [Hview Hgk].
  assert (calm unchanged_inv h2 v0) as Hc2 by (by apply (calms_same h1 h2 v0 v0)).
  case_bool_decide as Hexp; cbn [negb]; [|apply wp_ret; [done|]; by apply Hend]. subst g.
  apply wp_bind. eapply wp_mono; [|by apply wp_journal_generation].
  intros h3 v3 pg Hi3 (-> & Hs3 & Hpg).
  destruct (next_generation _) as [cg|] eqn:Hnext; [|apply wp_ret; [done|]; apply Hend; [eauto using same_trans|done]].
  apply next_generation_spec in Hnext as (Hrange & Hcom & Hprep).
  assert (calm unchanged_inv h3 v0) as Hc3 by (by apply (calms_same h2 h3 v0 v0)).
  apply wp_try. eapply wp_mono; [|by apply wp_clear_startup_journal].
  intros h4 v4 [[]|e] Hi4 (Hs4 & Hr4); [|apply Hend; [eauto 10 using same_trans|done]].
  apply wp_ret; [done|]. apply Hend; [eauto 10 using same_trans|].
  destruct Hs3 as [Hsub3 _], Hs4 as [Hsub4 _]. split; [done|]. split; [done|].
  split; [apply (generation_known_mono v0 v0 _ h2); [by etrans|done|done]|].
  split; [done|]. split; [done|]. intros p Hp. rewrite Hview in Hp. simpl in Hp.
  destruct (Hpg p ltac:(congruence)) as (a & ? & Ha). exists a. split; [auto|]. intros b ->. simpl. auto.
Qed.

End startup.

(** ** Properties of the entry points *)

(** C1: A configuration transaction is all or nothing.  When it reports success,
    the committed transaction is the journaled candidate, which was validated,
    current, newer than what was committed, and seen running healthy in the core
    started from its bundle; and the journal is gone unless the answer says so.
    When it reports an error, the committed transaction is the one it started
    from, except for a failed commit whose recovery is reported as failed; a
    recovery reported as converged left no journal and, if the runtime had been
    touched, brought it back to the committed transaction. *)
Theorem execute_atomic cand v p t r v' :
  entry_point cand p → runs v p t r v' →
  match r with
  | Ok s =>
      success_committed_generation s = rb_generation (runtime cand) ∧
      (settled (success_recovery s) = true → v_prepared v' = Some None) ∧
      ∃ pt m, commit_evidence cand v pt t v' ∧ v_committed v' = Some (Some m) ∧ current m = candidate pt
  | Err e =>
      journal_after v v' (error_recovery e) ∧ back v e t ∧
      (v_committed v' = v_committed v ∨
       kind e = Commit ∧ (∃ target, error_recovery e = Failed target) ∧
       ∃ pt, commit_evidence cand v pt t v' ∧ v_committed v' = Some (Some (committed_by pt)))
  end.
Proof.
  intros Hp Hr. destruct (wp_runs _ _ _ _ [] _ _ _ _ (wp_entry_point cand v p Hp) Hr) as (_ & _ & H).
  simpl in H. destruct r; tauto.
Qed.

(** C2: A crash is safe at any point: whatever has been executed of a
    transaction, the committed transaction is the one it started from or the
    candidate, and the latter only after the candidate was journaled, validated
    and seen running. *)
Theorem execute_crash_safe cand v p t v' :
  entry_point cand p → reaches v p t v' →
  v_committed v' = v_committed v ∨
  ∃ pt, v_committed v' = Some (Some (committed_by pt)) ∧ prepared_evidence cand v pt t ∧
        running_evidence (runtime cand) t.
Proof. intros Hp Hr. exact (wp_reaches _ _ _ _ [] _ _ _ (wp_entry_point cand v p Hp) Hr). Qed.

(** C9: The runtime is changed only under both locks and while the journal on
    disk names the checked candidate; a commit is attempted only under both locks
    for the journaled candidate after it was seen running; the store is used only
    under the coordinator lock. *)
Theorem execute_ordered cand v p t1 X (c : Call X) x t2 v' :
  entry_point cand p → reaches v p (t1 ++ Ev c x :: t2) v' →
  ∃ v1, reaches v p t1 v1 ∧
    match c with
    | CApply _ | CStop =>
        g_coordinator (ghost t1) = true ∧ g_lifecycle (ghost t1) = true ∧
        ∃ pt, prepared_evidence cand v pt t1 ∧ v_prepared v1 = Some (Some pt)
    | CStore sc =>
        g_coordinator (ghost t1) = true ∧
        match sc with
        | SCommitPrepared pt =>
            g_lifecycle (ghost t1) = true ∧ prepared_evidence cand v pt t1 ∧
            running_evidence (runtime cand) t1
        | _ => True
        end
    | _ => True
    end.
Proof.
  intros Hp Hr.
  destruct (wp_reaches_ok _ _ _ _ [] _ _ _ _ _ _ _ (wp_entry_point cand v p Hp) Hr) as (v1 & Hr1 & Hok1 & Hok2).
  exists v1. split; [exact Hr1|]. unfold journaled, commit_evidence in *.
  destruct c; simpl in *; try done; [|tauto..]. destruct c; tauto.
Qed.

(** Once a shutdown has been observed nothing but the release of locks
    happens; the transaction ends with the Shutdown error, exactly then, without
    having committed; and both locks are always released at the end. *)
Theorem execute_shutdown cand v p t r v' :
  entry_point cand p → runs v p t r v' →
  g_coordinator (ghost t) = false ∧ g_lifecycle (ghost t) = false ∧
  (g_shutdown (ghost t) = true ↔ ∃ e, r = Err e ∧ kind e = Shutdown) ∧
  (g_shutdown (ghost t) = true → v_committed v' = v_committed v) ∧
  (∀ t1 X (c : Call X) x t2, t = t1 ++ Ev c x :: t2 → g_shutdown (ghost t1) = true →
     match c with CUnlockCoordinator | CUnlockLifecycle => True | _ => False end).
Proof.
  intros Hp Hr. pose proof (wp_entry_point cand v p Hp) as Hwp.
  destruct (wp_runs _ _ _ _ [] _ _ _ _ Hwp Hr) as (Hc & Hl & H). simpl in *. split; [done|]. split; [done|].
  split; [|split].
  - destruct r as [s|e]; [|destruct H as (Hs & _); rewrite Hs; naive_solver].
    destruct H as (Hs & _). rewrite Hs. split; [done|by intros (? & ? & _)].
  - intros Hs. destruct r as [s|e]; [destruct H; congruence|]. destruct H as (Hk & _ & _ & [?|(Hk' & _)]); [done|].
    apply Hk in Hs. congruence.
  - intros t1 X c x t2 -> Hs. apply runs_reaches in Hr.
    destruct (wp_reaches_ok _ _ _ _ [] _ _ _ _ _ _ _ Hwp Hr) as (v1 & Hr1 & Hok1 & _). simpl in Hok1.
    destruct c; try done; destruct Hok1; congruence.
Qed.

(** C29: Startup recovery never changes what is committed, not even when it is
    interrupted; when it succeeds the journal is empty, the runtime was brought to
    the committed transaction (or stopped when there is none), and the answer
    names the committed generation. *)
Theorem recover_startup_converges v t v' :
  reaches v recover_startup t v' →
  v_committed v' = v_committed v ∧
  ∀ s, runs v recover_startup t (Ok s) v' →
    v_prepared v' = Some None ∧ generation_known v (recovered_generation s) t ∧
    ∃ m, v_committed v = Some m ∧ converged (current <$> m) t.
Proof.
  intros Hr. split; [exact (wp_reaches _ _ _ _ [] _ _ _ (wp_recover_startup v) Hr)|].
  intros s Hs. by destruct (wp_runs _ _ _ _ [] _ _ _ _ (wp_recover_startup v) Hs) as (_ & _ & H).
Qed.

(** The generation handed out for reapplying at startup is fresh: positive,
    within 64 bits, above the committed generation and above the one in the
    journal when it can be read; the journal is then empty, nothing is committed,
    and the runtime is never touched. *)
Theorem prepare_startup_reapply_fresh expected v t s v' :
  runs v (prepare_startup_reapply expected) t (Ok s) v' →
  v_committed v' = v_committed v ∧ v_prepared v' = Some None ∧
  reapply_committed_generation s = expected ∧ generation_known v expected t ∧
  fresh_generation v s t ∧
  (∀ t1 X (c : Call X) x t2, t = t1 ++ Ev c x :: t2 → runtime_call c = false).
Proof.
  intros Hr. pose proof (wp_prepare_startup_reapply v expected) as Hwp.
  destruct (wp_runs _ _ _ _ [] _ _ _ _ Hwp Hr) as (_ & _ & Hj & He & Hg & Hf).
  split; [exact (wp_reaches _ _ _ _ [] _ _ _ Hwp (runs_reaches _ _ _ _ _ Hr))|].
  split_and!; [done..|]. intros t1 X c x t2 ->.
  destruct (wp_reaches_ok _ _ _ _ [] _ _ _ _ _ _ _ Hwp (runs_reaches _ _ _ _ _ Hr)) as (v1 & _ & _ & Hok).
  by destruct c; try done; destruct Hok.
Qed.

(** ** A concrete run

    A store that is nothing but its view, and an environment in which
    everything works. *)

Definition sample_transaction (generation : Z) : TransactionBundle :=
  MkTransactionBundle (lit "s") (lit "p") (lit "r") (lit "e") 3 4 5 generation.

Definition model_call {A} (c : StoreCall A) (v : View) : A * View :=
  match c in StoreCall A return A * View with
  | SReadObjectLimited _ _ => (Ok (lit "yaml"), v)
  | SPrepare _ =>
      match v with
      | MkView (Some m) (Some None) =>
          let p := MkPreparedTransaction (lit "new") (current <$> m) in
          (Ok p, MkView (Some m) (Some (Some p)))
      | _ => (Err OtherIo, v)
      end
  | SRecover =>
      match v with
      | MkView (Some m) (Some j) => (Ok (MkRecoveryState m j), v)
      | _ => (Err OtherIo, v)
      end
  | SCommitPrepared p =>
      match v with
      | MkView (Some m) (Some (Some j)) =>
          if bool_decide (j = p) && bool_decide (current <$> m = prepared_previous p)
          then (Ok tt, MkView (Some (Some (committed_by p))) (Some (Some j)))
          else (Err InvalidData, v)
      | _ => (Err OtherIo, v)
      end
  | SClearPrepared p =>
      match v with
      | MkView m (Some (Some j)) =>
          if bool_decide (j = p) then (Ok tt, MkView m (Some None)) else (Err InvalidData, v)
      | _ => (Err OtherIo, v)
      end
  | SLoadTransaction id => (Ok (sample_transaction (if bool_decide (id = lit "new") then 8 else 7)), v)
  | SPruneUnreachable => (Ok (MkPruneResult 0 0 0 false), v)
  end.

Lemma model_call_spec A (c : StoreCall A) v : store_spec c v (model_call c v).1 (model_call c v).2.
Proof.
  destruct c; simpl; try done; destruct v as [[m|] [[j|]|]]; simpl; auto.
  - split; [done|]. split; [done|]. split; [done|]. eauto.
  - case_bool_decide as Hj; simpl; [|by auto]. case_bool_decide as Hm; simpl; [|by auto].
    subst. split_and!; eauto.
  - case_bool_decide; simpl; subst; auto.
  - case_bool_decide; simpl; subst; auto.
Qed.

#[global] Instance model_store : TransactionStore View :=
  {| store_call := @model_call; store_view := λ v, v; store_call_spec := model_call_spec |}.

Definition sample_core (generation : Z) : ManagedCoreHandle :=
  MkManagedCoreHandle 100 (lit "start") (MkCoreControlEndpoint (lit "/s") (lit "k")) 1 generation.
Definition sample_runtime_bundle (generation : Z) : RuntimeBundle :=
  MkRuntimeBundle generation (lit "/g") (lit "m") (lit "policy") (lit "bin").
Definition sample_revisions : CandidateRevisions := MkCandidateRevisions 3 9 4 (lit "policy") (lit "v1").
Definition sample_candidate : ConfigTransactionCandidate :=
  MkCandidate (sample_transaction 8) (sample_runtime_bundle 8)
    (MkEffectiveConfiguration (lit "yaml") (lit "v1") (lit "policy") []) sample_revisions.

(** [generation] is where the runtime answers to be. *)
Definition sample_environment (generation : Z) (h : list Event) (X : Type) (c : Call X) : X :=
  match c in Call X return X with
  | CStore sc => (model_call sc (MkView None None)).1
  | CShutdown => false
  | CRevisions => sample_revisions
  | CValidate _ _ => Ok tt
  | CApply b => Ok (MkApplyCandidateResult Spawned (sample_core (rb_generation b)))
  | CStatus => Ok (MkCoreRuntimeStatus (Some (sample_core generation)) Running
                    (MkRestartStatus false 0 None None) (MkTunStatus true None))
  | CStop => Ok tt
  | CConfirmReady _ => Ok tt
  | CResolve b => Ok (sample_runtime_bundle (runtime_generation b))
  | CPruneGenerations _ => Ok tt
  | CLockCoordinator => Ok tt
  | CTryLockCoordinator => TryLocked
  | CUnlockCoordinator => tt
  | CLockLifecycle => Ok tt
  | CUnlockLifecycle => tt
  | CSetShutdown => tt
  | CCancelValidation => tt
  | CCancelApply => tt
  | CStageState c => Ok (sample_transaction (as_runtime_generation c))
  | CStageBundle generation _ => Ok (sample_runtime_bundle generation)
  | CSetRevisions _ => tt
  | CLockTransactions => Ok tt
  | CTryLockTransactions => TryLocked
  | CUnlockTransactions => tt
  end.

Definition sample_view : View := MkView (Some (Some (MkCommittedManifest (lit "old") None))) (Some None).
Definition sample_run : list Event * result ConfigTransactionSuccess ConfigTransactionError * View :=
  exec (sample_environment 8) (execute sample_candidate) [] sample_view.
Definition sample_new : PreparedTransaction := MkPreparedTransaction (lit "new") (Some (lit "old")).

Lemma sample_run_runs :
  runs sample_view (execute sample_candidate) sample_run.1.1 sample_run.1.2 sample_run.2.
Proof. exact (exec_runs_all (sample_environment 8) (execute sample_candidate) sample_view). Qed.

Lemma execute_atomic_witness :
  sample_run.1.2 = Ok (MkSuccess 8 8 Direct NotRequired) ∧ v_prepared sample_run.2 = Some None.
Proof.
  assert (sample_run.1.2 = Ok (MkSuccess 8 8 Direct NotRequired)) as Hr by (by vm_compute).
  split; [exact Hr|]. pose proof (execute_atomic sample_candidate sample_view (execute sample_candidate)
    sample_run.1.1 sample_run.1.2 sample_run.2 (or_introl eq_refl) sample_run_runs) as H.
  rewrite Hr in H. destruct H as (_ & Hj & _). exact (Hj eq_refl).
Defined.

Lemma execute_crash_safe_witness :
  v_committed sample_run.2 = v_committed sample_view ∨
  ∃ pt, v_committed sample_run.2 = Some (Some (committed_by pt)) ∧
    prepared_evidence sample_candidate sample_view pt sample_run.1.1 ∧
    running_evidence (runtime sample_candidate) sample_run.1.1.
Proof.
  exact (execute_crash_safe sample_candidate sample_view (execute sample_candidate) sample_run.1.1
    sample_run.2 (or_introl eq_refl) (runs_reaches _ _ _ _ _ sample_run_runs)).
Defined.

(** The events of the sample run before its commit. *)
Definition sample_before_commit : list Event := take 22 sample_run.1.1.

Lemma execute_ordered_witness :
  ∃ v1, reaches sample_view (execute sample_candidate) sample_before_commit v1 ∧
    g_coordinator (ghost sample_before_commit) = true ∧
    g_lifecycle (ghost sample_before_commit) = true ∧
    prepared_evidence sample_candidate sample_view sample_new sample_before_commit ∧
    running_evidence (runtime sample_candidate) sample_before_commit.
Proof.
  assert (sample_run.1.1 = sample_before_commit ++ Ev (CStore (SCommitPrepared sample_new)) (Ok tt) ::
    drop 23 sample_run.1.1) as Ht by (vm_compute; reflexivity).
  pose proof (runs_reaches _ _ _ _ _ sample_run_runs) as Hr. rewrite Ht in Hr.
  destruct (execute_ordered sample_candidate sample_view (execute sample_candidate) sample_before_commit
    _ (CStore (SCommitPrepared sample_new)) (Ok tt) (drop 23 sample_run.1.1) sample_run.2
    (or_introl eq_refl) Hr) as (v1 & Hr1 & Hc & Hl & Hp & Hrun).
  exists v1. exact (conj Hr1 (conj Hc (conj Hl (conj Hp Hrun)))).
Defined.

Lemma execute_shutdown_witness : g_coordinator (ghost sample_run.1.1) = false.
Proof.
  exact (proj1 (execute_shutdown sample_candidate sample_view (execute sample_candidate) sample_run.1.1
    sample_run.1.2 sample_run.2 (or_introl eq_refl) sample_run_runs)).
Defined.

(** A journal left behind by a crash. *)
Definition crashed_view : View := MkView (v_committed sample_view) (Some (Some sample_new)).
Definition sample_recovery : list Event * result StartupRecovery ConfigTransactionError * View :=
  exec (sample_environment 7) recover_startup [] crashed_view.

Lemma recover_startup_converges_witness :
  v_prepared sample_recovery.2 = Some None ∧ sample_recovery.1.2 = Ok (MkStartupRecovery (Some 7) true).
Proof.
  assert (sample_recovery.1.2 = Ok (MkStartupRecovery (Some 7) true)) as Hr by (by vm_compute).
  split; [|exact Hr]. pose proof (exec_runs_all (sample_environment 7) recover_startup crashed_view) as Hruns.
  change (exec _ _ _ _) with sample_recovery in Hruns. rewrite Hr in Hruns.
  exact (proj1 (proj2 (recover_startup_converges crashed_view sample_recovery.1.1 sample_recovery.2
    (runs_reaches _ _ _ _ _ Hruns)) _ Hruns)).
Defined.

Definition sample_reapply : list Event * result StartupReapply ConfigTransactionError * View :=
  exec (sample_environment 7) (prepare_startup_reapply (Some 7)) [] crashed_view.

Lemma prepare_startup_reapply_fresh_witness :
  sample_reapply.1.2 = Ok (MkStartupReapply (Some 7) 9 true) ∧ v_prepared sample_reapply.2 = Some None.
Proof.
  assert (sample_reapply.1.2 = Ok (MkStartupReapply (Some 7) 9 true)) as Hr by (by vm_compute).
  split; [exact Hr|].
  pose proof (exec_runs_all (sample_environment 7) (prepare_startup_reapply (Some 7)) crashed_view) as Hruns.
  change (exec _ _ _ _) with sample_reapply in Hruns. rewrite Hr in Hruns.
  exact (proj1 (proj2 (prepare_startup_reapply_fresh (Some 7) crashed_view sample_reapply.1.1 _
    sample_reapply.2 Hruns))).
Defined.
