(* ===== verification/System.v ===== *)
(** * System: the coordinator on the file system

    [Coordinator] is proved against the contract of the store, [Persistence]
    discharges it; here the two are composed. *)

From S2P Require Import Prelude Text ConfigData Domain Json Filesystem Journal Persistence Program Ports Transaction Discipline Coordinator.
Local Open Scope Z_scope.

Section system.
Context (sha256 : bytes → bytes).
Context (json_from_slice : bytes → option Json) (uuid_parse : str → option Z).
Context (dir_order : list str → list str).
Context (json_to_vec : Json → bytes) (uuid_to_string : Z → str) (process_id : str).
Context (sha256_digest : ∀ c, byte_list (sha256 c) ∧ length (sha256 c) = 32%nat).
Context (json_round_trip : ∀ j, json_printable j = true → json_from_slice (json_to_vec j) = Some j).
Context (fresh_uuid : Fs → str).

(** The store on disk, as the coordinator uses it. *)
#[local] Instance disk_store : TransactionStore Fs :=
  persistence_store sha256 json_from_slice uuid_parse dir_order json_to_vec uuid_to_string process_id
    sha256_digest json_round_trip fresh_uuid.

(** Runs of a coordinator function on the file system [w]; the environment
    answers everything else. *)
Definition disk_run {A} (environment : list Event → ∀ X, Call X → X) (p : prog A) (w : Fs)
  : list Event * A * Fs :=
  exec environment p [] w.

Abbreviation manifest_on w := (view_at json_from_slice manifest_of_json manifest_path w).
Abbreviation journal_on w := (view_at json_from_slice prepared_of_json prepared_path w).

Lemma disk_run_runs {A} environment (p : prog A) w t r w' :
  disk_run environment p w = (t, r, w') →
  runs (persistence_view json_from_slice w) p t r (persistence_view json_from_slice w').
Proof.
  intros H. pose proof (exec_runs_all environment p w) as Hr. unfold disk_run in H.
  by rewrite H in Hr.
Qed.


(** Startup recovery on the file system: the manifest file is never changed
    by it; when it succeeds there is no journal file content left to act on, and
    the runtime was brought to what the manifest names. *)
Theorem startup_on_disk environment w t r w' :
  disk_run environment recover_startup w = (t, r, w') →
  manifest_on w' = manifest_on w ∧
  ∀ s, r = Ok s → journal_on w' = Some None ∧
    ∃ m, manifest_on w = Some m ∧ converged (current <$> m) t.
Proof.
  intros Hr%disk_run_runs.
  split; [exact (wp_reaches _ _ _ _ [] _ _ _ (wp_recover_startup _) (runs_reaches _ _ _ _ _ Hr))|].
  intros s ->. destruct (wp_runs _ _ _ _ [] _ _ _ _ (wp_recover_startup _) Hr) as (_ & _ & Hj & _ & Hm). auto.
Qed.

End system.

(** ** A concrete run on the sample file system *)

Definition disk_revisions : CandidateRevisions := MkCandidateRevisions 3 9 4 (lit "policy") (lit "v1").
Definition disk_candidate : ConfigTransactionCandidate :=
  MkCandidate sample_bundle (sample_runtime_bundle 6)
    (MkEffectiveConfiguration [7]%N (lit "v1") (lit "policy") []) disk_revisions.

Definition disk_sample {A} (p : prog A) (w : Fs) : list Event * A * Fs :=
  disk_run sample_sha256 sample_json_from_slice sample_uuid_parse (λ names, names) sample_json_to_vec
    sample_uuid_to_string (lit "42") sample_sha256_digest sample_json_round_trip (λ _, lit "v")
    (sample_environment 6) p w.

Definition disk_execute := disk_sample (execute disk_candidate) sample_fs.
Definition disk_recover := disk_sample recover_startup disk_execute.2.

Lemma disk_execute_ok : disk_execute.1.2 = Ok (MkSuccess 6 6 Direct NotRequired).
Proof. by vm_compute. Qed.

Lemma run3 {A} (run : list Event * A * Fs) r : run.1.2 = r → run = (run.1.1, r, run.2).
Proof. intros <-. by destruct run as [[]]. Qed.


Lemma startup_on_disk_witness :
  view_at sample_json_from_slice manifest_of_json manifest_path disk_recover.2 =
  view_at sample_json_from_slice manifest_of_json manifest_path disk_execute.2.
Proof.
  destruct (startup_on_disk sample_sha256 sample_json_from_slice sample_uuid_parse (λ names, names)
    sample_json_to_vec sample_uuid_to_string (lit "42") sample_sha256_digest sample_json_round_trip
    (λ _, lit "v") (sample_environment 6) disk_execute.2 disk_recover.1.1 disk_recover.1.2 disk_recover.2)
    as [H _].
  - exact (run3 disk_recover _ eq_refl).
  - exact H.
Defined.
