(* ===== verification/SupervisorTransactions.v ===== *)
(** * SupervisorTransactions: the transaction port of the Supervisor
    (src/supervisor/transactions.rs)

    [CoordinatedSupervisorTransactions] stages a candidate state and its runtime
    bundle and hands them to the coordinator, or commits a new state without a
    runtime change ([persist_metadata]).  Its methods are programs over the calls
    of [Ports]; guards are explicit lock and unlock calls.

    The theorems are the contract the Supervisor is verified against: what is
    committed afterwards, by the answer, and the revisions the authority holds. *)

From S2P Require Import Prelude Text Profile Rule State ConfigData Filesystem Journal Program Ports Transaction Discipline Coordinator.
Local Open Scope Z_scope.

(** ** Data *)

Record SupervisorTransactionRequest := MkTransactionRequest {
  req_profiles : ProfileCatalog;
  req_local_rules : LocalRuleSet;
  req_configuration : EffectiveConfiguration;
  req_generation : Z;
  req_revisions : CandidateRevisions;
}.

Inductive SupervisorTransactionFailureKind :=
| FailureBusy
| FailureState
| FailureBundle
| FailureCoordinator (error : ConfigTransactionErrorKind).

Record SupervisorTransactionFailure := MkTransactionFailure {
  tf_kind : SupervisorTransactionFailureKind;
  tf_candidate_generation : option Z;
  tf_committed_generation : option Z;
  tf_recovery : RecoveryOutcome;
}.

Definition failure_new (k : SupervisorTransactionFailureKind) : SupervisorTransactionFailure :=
  MkTransactionFailure k None None NotRequired.

#[global] Instance ConfigTransactionErrorKind_eq_dec : EqDecision ConfigTransactionErrorKind.
Proof. solve_decision. Defined.

(** [From<ConfigTransactionError>] *)
Definition failure_from (e : ConfigTransactionError) : SupervisorTransactionFailure :=
  MkTransactionFailure
    (if bool_decide (kind e = Busy) then FailureBusy else FailureCoordinator (kind e))
    (error_candidate_generation e) (error_committed_generation e) (error_recovery e).

(** ** Operations *)

Definition request_state (r : SupervisorTransactionRequest) : AuthoritativeState :=
  MkAuthoritativeState (req_profiles r) (req_local_rules r) (utf8 (cfg_yaml (req_configuration r)))
    (req_generation r).

Definition stage_state (r : SupervisorTransactionRequest)
  : prog (result TransactionBundle SupervisorTransactionFailure) :=
  prog_map_err (λ _, failure_new FailureState) (call (CStageState (request_state r))).

Definition apply_staged_transaction (r : SupervisorTransactionRequest)
    (execute : ConfigTransactionCandidate → prog (result ConfigTransactionSuccess ConfigTransactionError))
  : prog (result ConfigTransactionSuccess SupervisorTransactionFailure) :=
  try* transaction := stage_state r in
  try* runtime :=
    prog_map_err (λ _, failure_new FailureBundle)
      (call (CStageBundle (req_generation r) (req_configuration r))) in
  let* previous := call CRevisions in
  let* _u := call (CSetRevisions (req_revisions r)) in
  let* result := execute (MkCandidate transaction runtime (req_configuration r) (req_revisions r)) in
  match result with
  | Ok success => Ret (Ok success)
  | Err error => let* _u := call (CSetRevisions previous) in Ret (Err (failure_from error))
  end.

(** Holds the transaction lock around [body]. *)
Definition with_transactions {A} (body : prog (result A SupervisorTransactionFailure))
  : prog (result A SupervisorTransactionFailure) :=
  let* guard := call CLockTransactions in
  match guard with
  | Err _ => Ret (Err (failure_new FailureState))
  | Ok _ => let* r := body in let* _u := call CUnlockTransactions in Ret r
  end.

(** On success both locks are held, until [release_rule]. *)
Definition try_reserve_rule : prog (result unit SupervisorTransactionFailure) :=
  let* guard := call CTryLockTransactions in
  match guard with
  | WouldBlock => Ret (Err (failure_new FailureBusy))
  | Poisoned => Ret (Err (failure_new FailureState))
  | TryLocked =>
      let* coordinator := call CTryLockCoordinator in
      match coordinator with
      | TryLocked => Ret (Ok tt)
      | WouldBlock => let* _u := call CUnlockTransactions in Ret (Err (failure_from (simple Busy)))
      | Poisoned => let* _u := call CUnlockTransactions in Ret (Err (failure_from (simple LockPoisoned)))
      end
  end.

(** [CoordinatedRuleTransactionReservation]: [apply], and its fields dropped in
    their order. *)
Definition reserved_apply (r : SupervisorTransactionRequest)
  : prog (result ConfigTransactionSuccess SupervisorTransactionFailure) :=
  apply_staged_transaction r (λ candidate, execute_guarded candidate ConvergeCommitted).

Definition release_rule : prog unit :=
  let* _u := call CUnlockCoordinator in
  call CUnlockTransactions.

Definition apply (r : SupervisorTransactionRequest) (fail_fast : bool)
  : prog (result ConfigTransactionSuccess SupervisorTransactionFailure) :=
  if fail_fast then
    do* try_reserve_rule in
    let* result := reserved_apply r in
    let* _u := release_rule in
    Ret result
  else with_transactions (apply_staged_transaction r execute).

Definition apply_startup (r : SupervisorTransactionRequest)
  : prog (result ConfigTransactionSuccess SupervisorTransactionFailure) :=
  with_transactions (apply_staged_transaction r execute_startup_reapply).

(** [if persistence.clear_prepared(&prepared).is_ok() { prune }] *)
Definition clear_and_prune (p : PreparedTransaction) : prog unit :=
  let* cleared := store (SClearPrepared p) in
  if is_ok cleared then let* _u := store SPruneUnreachable in Ret tt else Ret tt.

Definition recover_state : prog (result RecoveryState SupervisorTransactionFailure) :=
  prog_map_err (λ _, failure_new FailureState) (store SRecover).

(** After a failed commit: whether it took effect. *)
Definition settle_commit (p : PreparedTransaction) : prog (result unit SupervisorTransactionFailure) :=
  try* recovered := recover_state in
  if bool_decide (current <$> committed recovered = Some (candidate p)) then Ret (Ok tt)
  else let* _u := clear_and_prune p in Ret (Err (failure_new FailureState)).

Definition persist_metadata (r : SupervisorTransactionRequest)
  : prog (result unit SupervisorTransactionFailure) :=
  with_transactions (
    try* transaction := stage_state r in
    try* recovery := recover_state in
    match prepared recovery with
    | Some _ => Ret (Err (failure_new (FailureCoordinator RecoveryRequired)))
    | None =>
        try* p := prog_map_err (λ _, failure_new FailureState) (store (SPrepare transaction)) in
        let* commit := store (SCommitPrepared p) in
        do* if is_ok commit then Ret (Ok tt) else settle_commit p in
        let* _u := clear_and_prune p in
        let* _u := call (CSetRevisions (req_revisions r)) in
        Ret (Ok tt)
    end).

Definition prepare_startup (committed_generation : option Z)
  : prog (result Z SupervisorTransactionFailure) :=
  with_transactions (
    let* r := prepare_startup_reapply committed_generation in
    Ret (match r with
         | Ok recovery => Ok (reapply_candidate_generation recovery)
         | Err e => Err (failure_from e)
         end)).

Definition set_current_revisions (r : CandidateRevisions) : prog unit := call (CSetRevisions r).
Definition cancel_pending : prog unit := request_shutdown.

(** ** Executions of a sequence *)

(** The first step of an execution. *)
Definition runs_step {A} (v : View) (p : prog A) (t : list Event) (a : A) (v' : View) : Prop :=
  match p with
  | Ret b => t = [] ∧ a = b ∧ v' = v
  | Vis c k => ∃ x v1 t', call_spec c v x v1 ∧ runs v1 (k x) t' a v' ∧ t = Ev c x :: t'
  end.

Lemma runs_inv {A} v (p : prog A) t a v' : runs v p t a v' → runs_step v p t a v'.
Proof. destruct 1; cbn; eauto 10. Qed.

Lemma runs_bind {A B} v (p : prog A) (k : A → prog B) t b v' :
  runs v (prog_bind p k) t b v' → ∃ t1 a v1 t2, runs v p t1 a v1 ∧ runs v1 (k a) t2 b v' ∧ t = t1 ++ t2.
Proof.
  revert v t. induction p as [a|X c next IH]; intros v t; cbn.
  - intros Hr. exists [], a, v, t. split_and!; [constructor|done|done].
  - intros (x & v1 & t' & Hs & Hr & ->)%runs_inv. destruct (IH _ _ _ Hr) as (t1 & a & v2 & t2 & H1 & H2 & ->).
    exists (Ev c x :: t1), a, v2, t2. split_and!; [by econstructor|done|done].
Qed.

Lemma runs_call {X} v (c : Call X) t x v' : runs v (call c) t x v' → call_spec c v x v' ∧ t = [Ev c x].
Proof. intros (y & v1 & t' & Hs & (-> & -> & ->)%runs_inv & ->)%runs_inv. done. Qed.

Lemma runs_ret {A} v (a b : A) t v' : runs v (Ret a) t b v' → t = [] ∧ b = a ∧ v' = v.
Proof. by intros (-> & -> & ->)%runs_inv. Qed.

Lemma runs_map_err {A E F} v (f : E → F) (p : prog (result A E)) t r v' :
  runs v (prog_map_err f p) t r v' → ∃ r0, runs v p t r0 v' ∧ r = map_err f r0.
Proof.
  intros (t1 & r0 & v1 & t2 & H1 & (-> & -> & ->)%runs_ret & ->)%runs_bind. rewrite app_nil_r. eauto.
Qed.

Lemma runs_try {A B E} v (p : prog (result A E)) (k : A → prog (result B E)) t r v' :
  runs v (prog_try p k) t r v' →
  (∃ e, runs v p t (Err e) v' ∧ r = Err e) ∨
  ∃ t1 a v1 t2, runs v p t1 (Ok a) v1 ∧ runs v1 (k a) t2 r v' ∧ t = t1 ++ t2.
Proof.
  intros (t1 & [a|e] & v1 & t2 & H1 & H2 & ->)%runs_bind; [eauto 10|].
  apply runs_ret in H2 as (-> & -> & ->). left. rewrite app_nil_r. eauto.
Qed.

Lemma runs_locked {A} v (body : prog (result A SupervisorTransactionFailure)) t r v' :
  runs v (with_transactions body) t r v' →
  r = Err (failure_new FailureState) ∧ v' = v ∧ t = [Ev CLockTransactions (Err tt)] ∨
  ∃ t1, runs v body t1 r v' ∧ t = Ev CLockTransactions (Ok tt) :: t1 ++ [Ev CUnlockTransactions tt].
Proof.
  intros (t1 & g & v1 & t2 & [-> ->]%runs_call & Hb & ->)%runs_bind. destruct g as [[]|[]].
  - apply runs_bind in Hb as (t3 & r0 & v2 & t4 & H1 & Hb & ->).
    apply runs_bind in Hb as (t5 & [] & v3 & t6 & [Hs ->]%runs_call & (-> & -> & ->)%runs_ret & ->).
    cbn in Hs. subst v3. right. eauto.
  - apply runs_ret in Hb as (-> & -> & ->). by left.
Qed.

(** ** Metadata commits *)

Lemma runs_stage r v t x v' :
  runs v (stage_state r) t x v' →
  v' = v ∧ ((∃ b, x = Ok b ∧ t = [Ev (CStageState (request_state r)) (Ok b)]) ∨
            (x = Err (failure_new FailureState) ∧ t = [Ev (CStageState (request_state r)) (Err tt)])).
Proof.
  intros ([b|[]] & [-> ->]%runs_call & ->)%runs_map_err; (split; [done|]); [left; eauto|by right].
Qed.

Lemma runs_recover v t x v' :
  runs v recover_state t x v' →
  v' = v ∧ ((∃ s, x = Ok s ∧ t = [Ev (CStore SRecover) (Ok s)] ∧
                  v = MkView (Some (committed s)) (Some (prepared s))) ∨
            (∃ e, x = Err (failure_new FailureState) ∧ t = [Ev (CStore SRecover) (Err e)])).
Proof.
  intros ([s|e] & [[-> Hs] ->]%runs_call & ->)%runs_map_err; (split; [done|]); [left|right]; eauto.
Qed.

Lemma runs_prepare b v t x v' :
  runs v (prog_map_err (λ _, failure_new FailureState) (store (SPrepare b))) t x v' →
  v_committed v' = v_committed v ∧
  ((∃ p m, x = Ok p ∧ t = [Ev (CStore (SPrepare b)) (Ok p)] ∧ v_committed v = Some m ∧
           prepared_previous p = current <$> m) ∨
   (∃ e, x = Err (failure_new FailureState) ∧ t = [Ev (CStore (SPrepare b)) (Err e)])).
Proof.
  intros ([p|e] & [[Hc Hs] ->]%runs_call & ->)%runs_map_err; (split; [done|]); [left|right; eauto].
  destruct Hs as (_ & _ & m & ? & ?). eauto 10.
Qed.

(** Events that change the runtime, and that set the revisions. *)
Definition touches_runtime (e : Event) : bool :=
  match e with Ev c _ => match c with CApply _ | CStop => true | _ => false end end.
Definition sets_revisions (e : Event) : bool :=
  match e with Ev c _ => match c with CSetRevisions _ => true | _ => false end end.
Definition harmless (t : list Event) : Prop :=
  Forall (λ e, touches_runtime e = false ∧ sets_revisions e = false) t.

Lemma runs_clear p v t x v' :
  runs v (clear_and_prune p) t x v' → v_committed v' = v_committed v ∧ harmless t.
Proof.
  intros (t1 & r & v1 & t2 & [[Hc _] ->]%runs_call & Hb & ->)%runs_bind. destruct r as [[]|e]; cbn [is_ok] in Hb.
  - apply runs_bind in Hb as (t3 & ? & v2 & t4 & [Hs ->]%runs_call & (-> & -> & ->)%runs_ret & ->).
    cbn in Hs. subst v2. split; [done|]. by repeat constructor.
  - apply runs_ret in Hb as (-> & _ & ->). split; [done|]. by repeat constructor.
Qed.

(** A commit that failed: unchanged, done, or unknown. *)
Lemma runs_settle p v t x v' m :
  v_committed v = Some m ∧ current <$> m ≠ Some (candidate p) ∨ v_committed v = Some (Some (committed_by p)) →
  runs v (settle_commit p) t x v' →
  harmless t ∧ v_committed v' = v_committed v ∧
  match x with
  | Ok _ => v_committed v = Some (Some (committed_by p))
  | Err e => tf_kind e = FailureState ∧
             (v_committed v = Some (Some (committed_by p)) → ∃ error, Ev (CStore SRecover) (Err error) ∈ t)
  end.
Proof.
  intros Hv [(e & Hr & ->)|(t1 & s & v1 & t2 & Hr & Hb & ->)]%runs_try.
  - apply runs_recover in Hr as (-> & [(? & [=] & _)|(error & [= ->] & ->)]).
    split_and!; [by repeat constructor|done|done|set_solver].
  - apply runs_recover in Hr as (-> & [(? & [= <-] & -> & Hs)|(? & [=] & _)]).
    case_bool_decide as Hc.
    + apply runs_ret in Hb as (-> & -> & ->). split_and!; [by repeat constructor|done|].
      destruct Hv as [[Hm Hne]|]; [|done]. rewrite Hs in Hm. cbn in Hm. naive_solver.
    + apply runs_bind in Hb as (t3 & [] & v2 & t4 & [Hcl Hh]%runs_clear & (-> & -> & ->)%runs_ret & ->).
      split_and!; [|done|done|].
      * constructor; [done|]. by rewrite app_nil_r.
      * intros Hd. rewrite Hs in Hd. cbn in Hd. injection Hd as Hd. rewrite Hd in Hc. by destruct Hc.
Qed.

Lemma harmless_runtime t : harmless t → Forall (λ e, touches_runtime e = false) t.
Proof. intros H. eapply Forall_impl; [exact H|]. by intros e [? ?]. Qed.
Lemma harmless_revisions t : harmless t → Forall (λ e, sets_revisions e = false) t.
Proof. intros H. eapply Forall_impl; [exact H|]. by intros e [? ?]. Qed.
Lemma harmless_app t1 t2 : harmless t1 → harmless t2 → harmless (t1 ++ t2).
Proof. intros. by apply Forall_app. Qed.

(** From the journaled transaction on. *)
Definition commit_metadata (r : SupervisorTransactionRequest) (p : PreparedTransaction)
  : prog (result unit SupervisorTransactionFailure) :=
  let* commit := store (SCommitPrepared p) in
  do* if is_ok commit then Ret (Ok tt) else settle_commit p in
  let* _u := clear_and_prune p in
  let* _u := call (CSetRevisions (req_revisions r)) in
  Ret (Ok tt).

Lemma runs_commit_metadata r p v t x v' m :
  v_committed v = Some m → prepared_previous p = current <$> m → prepared_previous p ≠ Some (candidate p) →
  runs v (commit_metadata r p) t x v' →
  Forall (λ e, touches_runtime e = false) t ∧
  match x with
  | Ok _ => v_committed v' = Some (Some (committed_by p)) ∧ Ev (CSetRevisions (req_revisions r)) tt ∈ t
  | Err e => Forall (λ e, sets_revisions e = false) t ∧
             (v_committed v' = v_committed v ∨
              tf_kind e = FailureState ∧ (∃ error, Ev (CStore SRecover) (Err error) ∈ t) ∧
              v_committed v' = Some (Some (committed_by p)))
  end.
Proof.
  intros Hm Hprev Hfresh (t1 & c & v1 & t2 & [[_ Hc] ->]%runs_call & Hb & ->)%runs_bind.
  assert (match c with Ok _ => v_committed v1 = Some (Some (committed_by p))
                     | Err _ => v_committed v1 = v_committed v ∨ v_committed v1 = Some (Some (committed_by p)) end) as Hv1
    by (destruct c; naive_solver). clear Hc.
  apply runs_try in Hb as [(e & Hs & ->)|(t3 & [] & v2 & t4 & Hs & Hb & ->)].
  - destruct c as [[]|ioe]; cbn [is_ok] in Hs; [by apply runs_ret in Hs as (_ & [=] & _)|].
    apply (runs_settle _ _ _ _ _ m) in Hs as (Hh & Hc' & Hk & Hrec);
      [|destruct Hv1 as [->|]; [left; split; congruence|by right]].
    split; [constructor; [done|by apply harmless_runtime]|].
    split; [constructor; [done|by apply harmless_revisions]|]. rewrite Hc'.
    destruct Hv1 as [->|Hd]; [by left|right]. split; [done|]. destruct (Hrec Hd) as [error He].
    split; [exists error; by right|done].
  - assert (harmless t3 ∧ v_committed v2 = Some (Some (committed_by p))) as [Hh3 Hv2].
    { destruct c as [[]|ioe]; cbn [is_ok] in Hs; [by apply runs_ret in Hs as (-> & _ & ->); split; [constructor|]|].
      apply (runs_settle _ _ _ _ _ m) in Hs as (Hh & Hc' & Hd);
        [|destruct Hv1 as [->|]; [left; split; congruence|by right]]. by rewrite Hc'. }
    apply runs_bind in Hb as (t5 & [] & v3 & t6 & [Hcl Hh]%runs_clear & Hb & ->).
    apply runs_bind in Hb as (t7 & [] & v4 & t8 & [Hs4 ->]%runs_call & (-> & -> & ->)%runs_ret & ->).
    cbn in Hs4. subst v4. split; [|split; [congruence|set_solver]].
    constructor; [done|]. apply Forall_app. split; [by apply harmless_runtime|].
    apply Forall_app. split; [by apply harmless_runtime|]. by repeat constructor.
Qed.

(** Committing metadata is all or nothing and never touches the runtime.  On
    success the committed transaction is the journaled one that was staged from
    the request, and the revision authority has the request's revisions.  On
    failure the authority is left alone and the committed transaction is the
    one before, except when the commit failed and the state could not be read
    back.  (The journal names a fresh transaction.) *)
Theorem persist_metadata_atomic r v t x v' :
  runs v (persist_metadata r) t x v' →
  (∀ b p, Ev (CStore (SPrepare b)) (Ok p) ∈ t → prepared_previous p ≠ Some (candidate p)) →
  Forall (λ e, touches_runtime e = false) t ∧
  match x with
  | Ok _ => ∃ b p, Ev (CStageState (request_state r)) (Ok b) ∈ t ∧ Ev (CStore (SPrepare b)) (Ok p) ∈ t ∧
                   v_committed v' = Some (Some (committed_by p)) ∧
                   Ev (CSetRevisions (req_revisions r)) tt ∈ t
  | Err e =>
      Forall (λ e, sets_revisions e = false) t ∧
      (v_committed v' = v_committed v ∨
       tf_kind e = FailureState ∧ (∃ error, Ev (CStore SRecover) (Err error) ∈ t) ∧
       ∃ b p, Ev (CStageState (request_state r)) (Ok b) ∈ t ∧ Ev (CStore (SPrepare b)) (Ok p) ∈ t ∧
              v_committed v' = Some (Some (committed_by p)))
  end.
Proof.
  intros Hr Hfresh. apply runs_locked in Hr as [(-> & -> & ->)|(tb & Hr & ->)].
  { split; [by repeat constructor|]. split; [by repeat constructor|]. by left. }
  assert (∀ t0, Forall (λ e, touches_runtime e = false) t0 →
    Forall (λ e, touches_runtime e = false) (Ev CLockTransactions (Ok tt) :: t0 ++ [Ev CUnlockTransactions tt])) as Hwrap1
    by (intros t0 H0; constructor; [done|]; apply Forall_app; by repeat constructor).
  assert (∀ t0, Forall (λ e, sets_revisions e = false) t0 →
    Forall (λ e, sets_revisions e = false) (Ev CLockTransactions (Ok tt) :: t0 ++ [Ev CUnlockTransactions tt])) as Hwrap2
    by (intros t0 H0; constructor; [done|]; apply Forall_app; by repeat constructor).
  apply runs_try in Hr as [(e & (-> & [(? & [=] & _)|[[= ->] ->]])%runs_stage & ->)|
    (t1 & b & v1 & t2 & (-> & [(? & [= <-] & ->)|[[=] _]])%runs_stage & Hb & ->)].
  { split; [apply Hwrap1; by repeat constructor|]. split; [apply Hwrap2; by repeat constructor|]. by left. }
  apply runs_try in Hb as [(e & (-> & [(? & [=] & _)|(? & [= ->] & ->)])%runs_recover & ->)|
    (t3 & s & v1 & t4 & (-> & [(? & [= <-] & -> & Hs)|(? & [=] & _)])%runs_recover & Hb & ->)].
  { split; [apply Hwrap1; by repeat constructor|]. split; [apply Hwrap2; by repeat constructor|]. by left. }
  destruct (prepared s) as [q|] eqn:Hq.
  { apply runs_ret in Hb as (-> & -> & ->).
    split; [apply Hwrap1; by repeat constructor|]. split; [apply Hwrap2; by repeat constructor|]. by left. }
  apply runs_try in Hb as [(e & (Hp & [(? & ? & [=] & _)|(? & [= ->] & ->)])%runs_prepare & ->)|
    (t5 & p & v2 & t6 & (Hp & [(? & m & [= <-] & -> & Hm & Hprev)|(? & [=] & _)])%runs_prepare & Hb & ->)].
  { split; [apply Hwrap1; by repeat constructor|]. split; [apply Hwrap2; by repeat constructor|]. by left. }
  change (runs v2 (commit_metadata r p) t6 x v') in Hb.
  apply (runs_commit_metadata _ _ _ _ _ _ m) in Hb as [Ht Hx]; [|congruence|done|apply (Hfresh b); set_solver].
  split; [apply Hwrap1; by repeat constructor|]. destruct x as [[]|e].
  - destruct Hx as [Hc Hset]. exists b, p. split_and!; [set_solver..|done|set_solver].
  - destruct Hx as [Hset Hc]. split; [apply Hwrap2; by repeat constructor|].
    destruct Hc as [Hc|(Hk & (error & He) & Hc)]; [left; congruence|right].
    split_and!; [done|exists error; set_solver|]. exists b, p. split_and!; [set_solver..|done].
Qed.

(** ** Transactions *)

(** What one of the coordinator's functions guarantees, in an execution of it. *)
Definition coordinated (cand : ConfigTransactionCandidate) (v : View) (t : list Event)
    (x : result ConfigTransactionSuccess ConfigTransactionError) (v' : View) : Prop :=
  match x with
  | Ok s => success_committed_generation s = rb_generation (runtime cand) ∧
            ∃ p m, Ev (CStore (SPrepare (transaction cand))) (Ok p) ∈ t ∧
                   v_committed v' = Some (Some m) ∧ current m = candidate p
  | Err e => v_committed v' = v_committed v ∨
             kind e = Commit ∧ ∃ target, error_recovery e = Failed target
  end.

Lemma entry_coordinated cand p v t x v' :
  entry_point cand p → runs v p t x v' → coordinated cand v t x v'.
Proof.
  intros Hp Hr. destruct (wp_runs _ _ _ _ [] _ _ _ _ (wp_entry_point cand v p Hp) Hr) as (_ & _ & H).
  cbn in H. destruct x as [s|e]; cbn.
  - destruct H as (_ & Hg & _ & q & m & [[Hprep _] _] & Hc & Hm). eauto 10.
  - destruct H as (_ & _ & _ & [Hc|(Hk & Ht & _)]); [by left|right; eauto].
Qed.

Lemma reserved_coordinated cand v t x v' :
  runs v (execute_guarded cand ConvergeCommitted) t x v' → coordinated cand v t x v'.
Proof.
  intros Hr. assert (commit_inv cand v [Ev CTryLockCoordinator TryLocked] v) as Hi by (by left).
  pose proof (wp_runs _ _ _ _ _ _ _ _ _ (wp_execute_guarded cand v ConvergeCommitted
    [Ev CTryLockCoordinator TryLocked] eq_refl Hi) Hr) as H.
  destruct x as [s|e]; cbn in H |- *.
  - destruct H as (_ & Hg & _ & q & m & [[Hprep _] _] & Hc & Hm). split; [done|]. exists q, m.
    split_and!; [|done|done]. by apply elem_of_cons in Hprep as [[=]|].
  - destruct H as (_ & _ & _ & [Hc|(Hk & Ht & _)]); [by left|right; eauto].
Qed.

(** The staged part: refused before the coordinator is reached, or handed to it. *)
Lemma runs_staged r execute v t x v' :
  runs v (apply_staged_transaction r execute) t x v' →
  (v' = v ∧ harmless t ∧ ∃ e, x = Err e ∧ tf_recovery e = NotRequired) ∨
  ∃ b rb previous t1 y,
    Ev (CStageState (request_state r)) (Ok b) ∈ t ∧
    Ev (CStageBundle (req_generation r) (req_configuration r)) (Ok rb) ∈ t ∧
    runs v (execute (MkCandidate b rb (req_configuration r) (req_revisions r))) t1 y v' ∧ t1 ⊆ t ∧
    (∃ t0, t = t0 ++ [Ev CRevisions previous; Ev (CSetRevisions (req_revisions r)) tt] ++ t1 ++
               (if is_ok y then [] else [Ev (CSetRevisions previous) tt]) ∧ harmless t0) ∧
    match y with Ok s => x = Ok s | Err e => x = Err (failure_from e) end.
Proof.
  intros [(e & (-> & [(? & [=] & _)|[[= ->] ->]])%runs_stage & ->)|
    (t1 & b & v1 & t2 & (-> & [(? & [= <-] & ->)|[[=] _]])%runs_stage & Hb & ->)]%runs_try.
  { left. split_and!; [done|by repeat constructor|]. by eexists. }
  apply runs_try in Hb as [(e & ([?|[]] & [Hs ->]%runs_call & [= ->])%runs_map_err & ->)|
    (t3 & rb & v1 & t4 & ([rb0|[]] & [Hs ->]%runs_call & [= ->])%runs_map_err & Hb & ->)]; cbn in Hs; subst.
  { left. split_and!; [done|by repeat constructor|]. by eexists. }
  apply runs_bind in Hb as (t5 & previous & v1 & t6 & [Hs ->]%runs_call & Hb & ->). cbn in Hs. subst v1.
  apply runs_bind in Hb as (t7 & [] & v1 & t8 & [Hs ->]%runs_call & Hb & ->). cbn in Hs. subst v1.
  apply runs_bind in Hb as (t9 & y & v1 & t10 & Hrun & Hb & ->). right.
  exists b, rb0, previous, t9, y. destruct y as [s|e]; cbn [is_ok].
  - apply runs_ret in Hb as (-> & -> & ->). split_and!; [set_solver..|done|set_solver| |done].
    eexists [_; _]. split; [done|]. by repeat constructor.
  - apply runs_bind in Hb as (t11 & [] & v2 & t12 & [Hs ->]%runs_call & (-> & -> & ->)%runs_ret & ->).
    cbn in Hs. subst v2. split_and!; [set_solver..|done|set_solver| |done].
    eexists [_; _]. split; [done|]. by repeat constructor.
Qed.

(** ** The revision authority *)

(** What the authority holds after some events. *)
Definition authority (init : CandidateRevisions) (t : list Event) : CandidateRevisions :=
  foldl (λ r e, match e with Ev c _ => match c with CSetRevisions r' => r' | _ => r end end) init t.

Lemma authority_app init t1 t2 : authority init (t1 ++ t2) = authority (authority init t1) t2.
Proof. apply foldl_app. Qed.

Lemma authority_same init t : Forall (λ e, sets_revisions e = false) t → authority init t = init.
Proof.
  unfold authority. induction t as [|[X c x] t IH]; [done|]. intros [Hc Ht]%Forall_cons. cbn.
  etransitivity; [|exact (IH Ht)]. f_equal. by destruct c.
Qed.

(** Programs that never set the revisions. *)
Fixpoint keeps_revisions {A} (p : prog A) : Prop :=
  match p with
  | Ret _ => True
  | Vis c k => match c with CSetRevisions _ => False | _ => True end ∧ ∀ x, keeps_revisions (k x)
  end.

Lemma keeps_bind {A B} (p : prog A) (k : A → prog B) :
  keeps_revisions p → (∀ a, keeps_revisions (k a)) → keeps_revisions (prog_bind p k).
Proof. intros Hp Hk. induction p as [a|X c next IH]; cbn in *; [done|]. destruct Hp as [? ?]. auto. Qed.

Lemma keeps_try {A B E} (p : prog (result A E)) (k : A → prog (result B E)) :
  keeps_revisions p → (∀ a, keeps_revisions (k a)) → keeps_revisions (prog_try p k).
Proof. intros Hp Hk. apply keeps_bind; [done|]. by intros []. Qed.

Lemma keeps_runs {A} (p : prog A) v t a v' :
  keeps_revisions p → runs v p t a v' → Forall (λ e, sets_revisions e = false) t.
Proof.
  intros Hp Hr. induction Hr as [|X c k v x v1 t a v' Hs Hr IH]; [constructor|].
  destruct Hp as [Hc Hk]. constructor; [by destruct c|]. by apply IH.
Qed.

Create HintDb keeps.

Ltac keeps_auto :=
  repeat first
    [ done
    | solve [auto with keeps nocore]
    | apply keeps_try; [|intros ?]
    | apply keeps_bind; [|intros ?]
    | progress unfold prog_map_err, store, check_shutdown, shutdown_is_requested
    | match goal with |- keeps_revisions (match ?x with _ => _ end) => destruct x end
    | match goal with |- keeps_revisions (if ?x then _ else _) => destruct x end ].

Lemma keeps_generation_of_option id : keeps_revisions (generation_of_option id).
Proof. unfold generation_of_option, generation_from_transaction. keeps_auto. Qed.
#[local] Hint Resolve keeps_generation_of_option : keeps.
Lemma keeps_retention m g : keeps_revisions (runtime_retention m g).
Proof. unfold runtime_retention. keeps_auto. Qed.
#[local] Hint Resolve keeps_retention : keeps.
Lemma keeps_clear p : keeps_revisions (clear_prepared_and_prune p).
Proof.
  unfold clear_prepared_and_prune, prune_runtime_state.
  keeps_auto.
Qed.
#[local] Hint Resolve keeps_clear : keeps.
Lemma keeps_confirm a g : keeps_revisions (confirm a g).
Proof. unfold confirm. keeps_auto. Qed.
#[local] Hint Resolve keeps_confirm : keeps.
Lemma keeps_recover_failed p g mode : keeps_revisions (recover_failed_candidate p g mode).
Proof.
  unfold recover_failed_candidate, rollback, converge_to_transaction, already_running, apply_or_fail.
  keeps_auto.
Qed.
#[local] Hint Resolve keeps_recover_failed : keeps.
Lemma keeps_begin g : keeps_revisions (begin_transaction g).
Proof. unfold begin_transaction, generation_from_manifest. keeps_auto. Qed.
#[local] Hint Resolve keeps_begin : keeps.
Lemma keeps_prepare cand g s : keeps_revisions (prepare_candidate cand g s).
Proof.
  unfold prepare_candidate, Transaction.validate_candidate, validate_prepared, clear_prepared_unapplied, clear_unapplied_journal.
  keeps_auto.
Qed.
#[local] Hint Resolve keeps_prepare : keeps.
Lemma keeps_apply_phase cand g p mode : keeps_revisions (apply_phase cand g p mode).
Proof.
  unfold apply_phase, restart_candidate, apply_or_fail.
  keeps_auto.
Qed.
#[local] Hint Resolve keeps_apply_phase : keeps.
Lemma keeps_commit_phase cand g p mode a : keeps_revisions (commit_phase cand g p mode a).
Proof. unfold commit_phase, recover_commit_failure. keeps_auto. Qed.
#[local] Hint Resolve keeps_commit_phase : keeps.

Lemma keeps_execute_guarded cand mode : keeps_revisions (execute_guarded cand mode).
Proof.
  unfold execute_guarded, with_lifecycle. cbn zeta. apply keeps_try; [apply keeps_begin|]. intros [g s].
  keeps_auto.
Qed.

Lemma keeps_with_coordinator {A} (p : prog (result A ConfigTransactionError)) :
  keeps_revisions p → keeps_revisions (with_coordinator p).
Proof. intros Hp. unfold with_coordinator. by keeps_auto. Qed.

(** The part inside the locks, for a coordinator function. *)
Lemma staged_contract r execute v t x v' init :
  (∀ cand v t y v', runs v (execute cand) t y v' → coordinated cand v t y v') →
  (∀ cand, keeps_revisions (execute cand)) →
  runs v (apply_staged_transaction r execute) t x v' →
  (∀ t1 y t2, t = t1 ++ Ev CRevisions y :: t2 → y = authority init t1) →
  match x with
  | Ok s =>
      authority init t = req_revisions r ∧
      ∃ b rb p m, Ev (CStageState (request_state r)) (Ok b) ∈ t ∧
        Ev (CStageBundle (req_generation r) (req_configuration r)) (Ok rb) ∈ t ∧
        success_committed_generation s = rb_generation rb ∧
        Ev (CStore (SPrepare b)) (Ok p) ∈ t ∧ v_committed v' = Some (Some m) ∧ current m = candidate p
  | Err e =>
      authority init t = init ∧
      (v_committed v' = v_committed v ∨
       tf_kind e = FailureCoordinator Commit ∧ ∃ target, tf_recovery e = Failed target)
  end.
Proof.
  intros Hex Hkeep Hr Hread. apply runs_staged in Hr as [(-> & Hh & e & -> & _)|
    (b & rb & previous & t1 & y & Hb & Hrb & Hrun & Hsub & (t0 & Ht & Hh) & Hx)].
  { split; [|by left]. by apply authority_same, harmless_revisions. }
  assert (authority init t0 = init) as H0 by (by apply authority_same, harmless_revisions).
  assert (previous = init) as -> by (rewrite (Hread t0 previous _ Ht); done).
  assert (authority (req_revisions r) t1 = req_revisions r) as H1 by (eapply authority_same, keeps_runs; eauto).
  apply Hex in Hrun. destruct y as [s|e]; subst x; cbn [is_ok] in Ht; cbn in Hrun.
  - destruct Hrun as (Hg & p & m & Hp & Hc & Hm). split.
    + rewrite Ht, !authority_app, H0. cbn. by rewrite H1.
    + exists b, rb, p, m. split_and!; try done. by apply Hsub.
  - split.
    + rewrite Ht, !authority_app. done.
    + destruct Hrun as [Hc|[Hk Hrec]]; [by left|right]. unfold failure_from. cbn.
      rewrite Hk. by rewrite bool_decide_eq_false_2.
Qed.

Lemma runs_reserve v t x v' :
  runs v try_reserve_rule t x v' → v' = v ∧ Forall (λ e, sets_revisions e = false) t ∧
  ∀ e, x = Err e → tf_recovery e = NotRequired.
Proof.
  intros (t1 & g & v1 & t2 & [Hs ->]%runs_call & Hb & ->)%runs_bind. cbn in Hs. subst v1.
  destruct g; [|by apply runs_ret in Hb as (-> & -> & ->); split_and!; [|repeat constructor|intros ? [= <-]]..].
  apply runs_bind in Hb as (t3 & g & v1 & t4 & [Hs ->]%runs_call & Hb & ->). cbn in Hs. subst v1.
  destruct g; [by apply runs_ret in Hb as (-> & -> & ->); split_and!; [|repeat constructor|]|..].
  all: apply runs_bind in Hb as (t5 & [] & v1 & t6 & [Hs ->]%runs_call & (-> & -> & ->)%runs_ret & ->).
  all: cbn in Hs; subst v1; split_and!; [done|by repeat constructor|by intros ? [= <-]].
Qed.

Lemma runs_release v t x v' : runs v release_rule t x v' → v' = v ∧ Forall (λ e, sets_revisions e = false) t.
Proof.
  intros (t1 & g & v1 & t2 & [Hs ->]%runs_call & [Hs2 ->]%runs_call & ->)%runs_bind. cbn in Hs, Hs2. subst.
  split; [done|by repeat constructor].
Qed.

(** The three ways a candidate is applied. *)
Definition apply_entry (r : SupervisorTransactionRequest)
    (p : prog (result ConfigTransactionSuccess SupervisorTransactionFailure)) : Prop :=
  p = apply r false ∨ p = apply r true ∨ p = apply_startup r.

(** C26: Applying a configuration: on success the committed transaction is the
    journaled one that was staged from the request, at the request's generation,
    and the revision authority holds the request's revisions; on failure the
    committed transaction is the one before, except for a failed commit whose
    recovery is reported as failed, and the authority holds what it held before.
    (Reads of the authority give what it holds; the stager answers a bundle of
    the generation it was asked for.) *)
Theorem apply_contract r p v t x v' init :
  apply_entry r p → runs v p t x v' →
  (∀ t1 y t2, t = t1 ++ Ev CRevisions y :: t2 → y = authority init t1) →
  (∀ g c b, Ev (CStageBundle g c) (Ok b) ∈ t → rb_generation b = g) →
  match x with
  | Ok s =>
      success_committed_generation s = req_generation r ∧ authority init t = req_revisions r ∧
      ∃ b pt m, Ev (CStageState (request_state r)) (Ok b) ∈ t ∧ Ev (CStore (SPrepare b)) (Ok pt) ∈ t ∧
        v_committed v' = Some (Some m) ∧ current m = candidate pt
  | Err e =>
      authority init t = init ∧
      (v_committed v' = v_committed v ∨
       tf_kind e = FailureCoordinator Commit ∧ ∃ target, tf_recovery e = Failed target)
  end.
Proof.
  intros Hp Hr Hread Hstage.
  assert (∀ (execute : ConfigTransactionCandidate → _) t0 tb t2,
    (∀ cand v t y v', runs v (execute cand) t y v' → coordinated cand v t y v') →
    (∀ cand, keeps_revisions (execute cand)) →
    runs v (apply_staged_transaction r execute) tb x v' → t = t0 ++ tb ++ t2 →
    Forall (λ e, sets_revisions e = false) t0 → Forall (λ e, sets_revisions e = false) t2 →
    match x with
    | Ok s => success_committed_generation s = req_generation r ∧ authority init t = req_revisions r ∧
        ∃ b pt m, Ev (CStageState (request_state r)) (Ok b) ∈ t ∧ Ev (CStore (SPrepare b)) (Ok pt) ∈ t ∧
          v_committed v' = Some (Some m) ∧ current m = candidate pt
    | Err e => authority init t = init ∧ (v_committed v' = v_committed v ∨
        tf_kind e = FailureCoordinator Commit ∧ ∃ target, tf_recovery e = Failed target)
    end) as Hbody.
  { intros execute t0 tb t2 Hex Hkeep Hrun Ht H0 H2.
    apply (staged_contract r execute v tb x v' init) in Hrun; [|done|done|].
    2: { intros t1 y t3 ->. rewrite (Hread (t0 ++ t1) y (t3 ++ t2)) by (rewrite Ht; by rewrite <-!(assoc_L (++))).
         rewrite authority_app. by rewrite (authority_same init t0). }
    assert (authority init t = authority init tb) as Hauth.
    { rewrite Ht, !authority_app, (authority_same init t0) by done. by apply authority_same. }
    assert (tb ⊆ t) as Hsub by (rewrite Ht; set_solver).
    destruct x as [s|e]; rewrite Hauth; [|done].
    destruct Hrun as (? & b & rb & pt & m & Hb & Hrb & -> & Hp' & ? & ?). split; [by eapply Hstage, Hsub|].
    split; [done|]. exists b, pt, m. auto. }
  destruct Hp as [->|[->| ->]].
  - apply runs_locked in Hr as [(-> & -> & ->)|(tb & Hr & ->)]; [by split; [|left]|].
    eapply (Hbody _ [_] tb [_]); [|intros cand; apply keeps_with_coordinator, keeps_execute_guarded|exact Hr|done|by repeat constructor..].
    intros cand *. apply entry_coordinated. by left.
  - apply runs_try in Hr as [(e & Hr & ->)|(t1 & [] & v1 & t2 & Hr & Hb & ->)].
    { apply runs_reserve in Hr as (-> & Hh & _). split; [|by left]. by apply authority_same. }
    apply runs_reserve in Hr as (-> & Hh & _).
    apply runs_bind in Hb as (tb & y & v2 & t4 & Hb & Hrel & ->).
    apply runs_bind in Hrel as (t5 & [] & v3 & t6 & Hrel & (-> & -> & ->)%runs_ret & ->).
    apply runs_release in Hrel as [-> Hh'].
    eapply (Hbody _ t1 tb _); [|intros cand; apply keeps_execute_guarded|exact Hb|done|done|by rewrite app_nil_r].
    intros cand *. apply reserved_coordinated.
  - apply runs_locked in Hr as [(-> & -> & ->)|(tb & Hr & ->)]; [by split; [|left]|].
    eapply (Hbody _ [_] tb [_]); [|intros cand; apply keeps_with_coordinator, keeps_execute_guarded|exact Hr|done|by repeat constructor..].
    intros cand *. apply entry_coordinated. by right; left.
Qed.

(** ** A concrete run *)

Definition sample_request : SupervisorTransactionRequest :=
  MkTransactionRequest catalog_new (initialized [])
    (configuration sample_candidate) 8 sample_revisions.

#[global] Instance CandidateRevisions_eq_dec : EqDecision CandidateRevisions.
Proof. solve_decision. Defined.

(** Every event that reads or sets the revisions does so with [r]. *)
Definition reads_as (r : CandidateRevisions) (e : Event) : bool :=
  match e with
  | Ev c x =>
      match c in Call X return X → bool with
      | CRevisions => λ y, bool_decide (y = r)
      | CSetRevisions r' => λ _, bool_decide (r' = r)
      | _ => λ _, true
      end x
  end.
(** A staged bundle is of the generation asked for, a journaled transaction is new. *)
Definition stages_well (e : Event) : bool :=
  match e with
  | Ev c x =>
      match c in Call X return X → bool with
      | CStageBundle g _ => λ y, match y with Ok b => bool_decide (rb_generation b = g) | Err _ => true end
      | CStore sc =>
          match sc in StoreCall X return X → bool with
          | SPrepare _ => λ y, match y with
                               | Ok p => negb (bool_decide (prepared_previous p = Some (candidate p)))
                               | Err _ => true
                               end
          | _ => λ _, true
          end
      | _ => λ _, true
      end x
  end.

Lemma reads_authority r t : forallb (reads_as r) t = true → authority r t = r.
Proof.
  unfold authority. induction t as [|[X c x] t IH]; [done|]. cbn. intros [Hc Ht]%andb_true_iff.
  etransitivity; [|exact (IH Ht)]. f_equal. destruct c; try done. cbn in Hc. by apply bool_decide_eq_true in Hc.
Qed.

Lemma reads_all r t t1 y t2 :
  forallb (reads_as r) t = true → t = t1 ++ Ev CRevisions y :: t2 → y = authority r t1.
Proof.
  intros Hf ->. rewrite forallb_app in Hf. apply andb_true_iff in Hf as [H1 H2].
  cbn in H2. apply andb_true_iff in H2 as [H2 _]. apply bool_decide_eq_true in H2.
  by rewrite (reads_authority r t1).
Qed.

Lemma stages_all t :
  forallb stages_well t = true →
  (∀ g c b, Ev (CStageBundle g c) (Ok b) ∈ t → rb_generation b = g) ∧
  (∀ b p, Ev (CStore (SPrepare b)) (Ok p) ∈ t → prepared_previous p ≠ Some (candidate p)).
Proof.
  intros Hf. rewrite forallb_forall in Hf. split.
  - intros g c b Hb%list_elem_of_In%Hf. by apply bool_decide_eq_true in Hb.
  - intros b p Hb%list_elem_of_In%Hf. cbn in Hb. apply negb_true_iff in Hb. by apply bool_decide_eq_false in Hb.
Qed.

Definition sample_persist : list Event * result unit SupervisorTransactionFailure * View :=
  exec (sample_environment 8) (persist_metadata sample_request) [] sample_view.
Definition sample_apply : list Event * result ConfigTransactionSuccess SupervisorTransactionFailure * View :=
  exec (sample_environment 8) (apply sample_request true) [] sample_view.

Lemma persist_metadata_atomic_witness :
  sample_persist.1.2 = Ok tt ∧ Forall (λ e, touches_runtime e = false) sample_persist.1.1.
Proof.
  split; [by vm_compute|].
  refine (proj1 (persist_metadata_atomic sample_request sample_view sample_persist.1.1 sample_persist.1.2
    sample_persist.2 (exec_runs_all (sample_environment 8) _ sample_view) _)).
  apply stages_all. by vm_compute.
Defined.

Lemma apply_contract_witness :
  sample_apply.1.2 = Ok (MkSuccess 8 8 Direct NotRequired) ∧
  authority sample_revisions sample_apply.1.1 = sample_revisions.
Proof.
  assert (sample_apply.1.2 = Ok (MkSuccess 8 8 Direct NotRequired)) as Hr by (by vm_compute).
  split; [exact Hr|].
  pose proof (apply_contract sample_request (apply sample_request true) sample_view sample_apply.1.1
    sample_apply.1.2 sample_apply.2 sample_revisions (or_intror (or_introl eq_refl))
    (exec_runs_all (sample_environment 8) _ sample_view)) as H.
  rewrite Hr in H. apply H.
  - intros t1 y t2. apply reads_all. by vm_compute.
  - apply stages_all. by vm_compute.
Defined.
