(* ===== verification/Diagnostics.v ===== *)
(** * Diagnostics: the ring of the wrapper's own diagnostics (src/diagnostics.rs)

    [WrapperDiagnosticRing] numbers every diagnostic and keeps the newest
    [capacity] of them.  The structured log line [record] also writes goes to the
    process's tracing subscriber and is not part of the state.

    The ring is shown to refine the full history of what was recorded: it holds
    its newest part, a tail is the newest part of what the reader has not seen,
    and the gap flag tells exactly whether the reader missed something. *)

From S2P Require Import Prelude Text Domain.
Local Open Scope Z_scope.

(** ** Data *)

Inductive WrapperDiagnosticCategory :=
| CatRuntimeRecovery
| CatRuntimeApply
| CatProfileRefresh
| CatSelectionCompensation
| CatConfigurationProjection
| CatProbeScheduler
| CatSelectionRestoration
| CatTelemetryStream
| CatCoreLifecycle.

(** The [domain.rs] reasons, and their category. *)
Inductive SupervisorHealthReason :=
| ReasonRuntimeRecovery
| ReasonSelectionCompensation
| ReasonConfigurationProjection
| ReasonProbeScheduler
| ReasonSelectionRestoration.

Definition category_from (reason : SupervisorHealthReason) : WrapperDiagnosticCategory :=
  match reason with
  | ReasonRuntimeRecovery => CatRuntimeRecovery
  | ReasonSelectionCompensation => CatSelectionCompensation
  | ReasonConfigurationProjection => CatConfigurationProjection
  | ReasonProbeScheduler => CatProbeScheduler
  | ReasonSelectionRestoration => CatSelectionRestoration
  end.

Inductive WrapperDiagnosticState := Raised | Cleared.

Record WrapperDiagnosticContext := MkDiagnosticContext {
  wc_runtime_generation : option Z;
  wc_core_generation : option Z;
  wc_revision : option Z;
}.

Record WrapperDiagnostic := MkWrapperDiagnostic {
  wd_sequence : Z;
  wd_timestamp_unix_ms : Z;
  wd_category : WrapperDiagnosticCategory;
  wd_state : WrapperDiagnosticState;
  wd_context : WrapperDiagnosticContext;
}.

Record WrapperDiagnosticTail := MkWrapperDiagnosticTail {
  wt_records : list WrapperDiagnostic;
  wt_evicted_total : Z;
  wt_gap : bool;
  wt_earliest_sequence : option Z;
  wt_latest_sequence : option Z;
}.

Inductive WrapperDiagnosticError := DiagnosticInvalidLimit | DiagnosticSequenceExhausted.

Definition diagnostic_error_display (e : WrapperDiagnosticError) : str :=
  match e with
  | DiagnosticInvalidLimit => lit "Wrapper diagnostic limits must be greater than zero"
  | DiagnosticSequenceExhausted => lit "Wrapper diagnostic sequence is exhausted"
  end.

Record WrapperDiagnosticRing := MkDiagnosticRing {
  ring_capacity : Z;
  ring_next_sequence : Z;
  ring_evicted_total : Z;
  ring_records : list WrapperDiagnostic;
}.

#[global] Instance WrapperDiagnosticState_eq_dec : EqDecision WrapperDiagnosticState.
Proof. solve_decision. Defined.
#[global] Instance WrapperDiagnosticCategory_eq_dec : EqDecision WrapperDiagnosticCategory.
Proof. solve_decision. Defined.
#[global] Instance WrapperDiagnosticContext_eq_dec : EqDecision WrapperDiagnosticContext.
Proof. solve_decision. Defined.
#[global] Instance WrapperDiagnostic_eq_dec : EqDecision WrapperDiagnostic.
Proof. solve_decision. Defined.

(** ** Operations *)

Definition ring_new (capacity : Z) : result WrapperDiagnosticRing WrapperDiagnosticError :=
  if capacity =? 0 then Err DiagnosticInvalidLimit else Ok (MkDiagnosticRing capacity 1 0 []).

(** [&mut self]: the sequence number and the ring after the call. *)
Definition ring_record (r : WrapperDiagnosticRing) (timestamp : Z) (category : WrapperDiagnosticCategory)
    (state : WrapperDiagnosticState) (context : WrapperDiagnosticContext)
  : result Z WrapperDiagnosticError * WrapperDiagnosticRing :=
  match checked_add (ring_next_sequence r) 1 with
  | None => (Err DiagnosticSequenceExhausted, r)
  | Some following =>
      let sequence := ring_next_sequence r in
      let full := zlen (ring_records r) =? ring_capacity r in
      (Ok sequence,
       MkDiagnosticRing (ring_capacity r) following
         (if full then saturating_add (ring_evicted_total r) 1 else ring_evicted_total r)
         ((if full then drop 1 (ring_records r) else ring_records r) ++
          [MkWrapperDiagnostic sequence timestamp category state context]))
  end.

(** [after_sequence.is_none_or(|after| record.sequence > after)] *)
Definition unseen (after : option Z) (d : WrapperDiagnostic) : bool :=
  match after with None => true | Some a => a <? wd_sequence d end.

Definition ring_tail_after (r : WrapperDiagnosticRing) (after : option Z) (max_records : Z)
  : result WrapperDiagnosticTail WrapperDiagnosticError :=
  if max_records =? 0 then Err DiagnosticInvalidLimit
  else
    let matching := filter (unseen after) (ring_records r) in
    let skipped := saturating_sub (zlen matching) max_records in
    let records := drop (Z.to_nat skipped) matching in
    let earliest := wd_sequence <$> head records in
    let latest := wd_sequence <$> last records in
    let gap :=
      (0 <? skipped) ||
      match after, earliest with
      | Some a, Some e => match checked_add a 1 with Some next => next <? e | None => false end
      | _, _ => false
      end ||
      match after with
      | Some a =>
          match records with
          | [] => match checked_add a 1 with Some next => next <? ring_next_sequence r | None => false end
          | _ => false
          end
      | None => false
      end in
    Ok (MkWrapperDiagnosticTail records (ring_evicted_total r) gap earliest latest).

Definition ring_len (r : WrapperDiagnosticRing) : Z := zlen (ring_records r).
Definition ring_is_empty (r : WrapperDiagnosticRing) : bool :=
  match ring_records r with [] => true | _ => false end.

(** ** The history of a ring *)

(** [h] is everything ever recorded, oldest first. *)
Record ring_refines (h : list WrapperDiagnostic) (r : WrapperDiagnosticRing) : Prop := {
  rr_capacity : 0 < ring_capacity r;
  rr_sequences : wd_sequence <$> h = seqZ 1 (zlen h);
  rr_next : ring_next_sequence r = zlen h + 1;
  rr_bound : zlen h < u64_max;
  rr_records : ring_records r = drop (Z.to_nat (zlen h - ring_capacity r)) h;
  rr_evicted : ring_evicted_total r = Z.max 0 (zlen h - ring_capacity r);
}.

Lemma ring_new_refines capacity r : 0 ≤ capacity → ring_new capacity = Ok r → ring_refines [] r.
Proof.
  unfold ring_new. destruct (Z.eqb_spec capacity 0); [done|]. intros ? [= <-].
  split; cbn; [lia|done|done|done|by rewrite drop_nil|unfold zlen; cbn; lia].
Qed.

Lemma ring_record_refines h r timestamp category state context :
  ring_refines h r →
  match ring_record r timestamp category state context with
  | (Ok sequence, r') => ring_refines (h ++ [MkWrapperDiagnostic sequence timestamp category state context]) r'
  | (Err e, r') => e = DiagnosticSequenceExhausted ∧ r' = r ∧ zlen h + 1 = u64_max
  end.
Proof.
  intros [Hcap Hseq Hnext Hb Hrec Hev]. unfold ring_record.
  destruct (checked_add _ 1) as [following|] eqn:Hf.
  2: { apply checked_add_None in Hf. split_and!; [done|done|lia]. }
  apply checked_add_Some in Hf as [-> Hf].
  set (d := MkWrapperDiagnostic _ _ _ _ _).
  assert (zlen (h ++ [d]) = zlen h + 1) as Hl by (by rewrite zlen_app).
  assert (zlen (ring_records r) = Z.min (zlen h) (ring_capacity r)) as Hlen.
  { rewrite Hrec. unfold zlen in *. rewrite length_drop. lia. }
  pose proof (zlen_nonneg h).
  split; cbn; rewrite ?Hl; [done| |lia| | |].
  - rewrite fmap_app, Hseq, (seqZ_app 1 (zlen h) 1) by lia. cbn. unfold d. cbn. by rewrite Hnext, (Z.add_comm 1).
  - lia.
  - rewrite Hlen, Hrec. destruct (Z.eqb_spec (Z.min (zlen h) (ring_capacity r)) (ring_capacity r)).
    + rewrite drop_drop, drop_app_le by (unfold zlen in *; lia). do 2 f_equal. lia.
    + rewrite drop_app_le by (unfold zlen in *; lia). do 2 f_equal. lia.
  - rewrite Hlen, Hev. unfold saturating_add. destruct (Z.eqb_spec (Z.min (zlen h) (ring_capacity r)) (ring_capacity r)); lia.
Qed.

(** The histories of a ring: everything recorded since [ring_new]. *)
Inductive ring_reachable : list WrapperDiagnostic → WrapperDiagnosticRing → Prop :=
| reachable_new capacity r : 0 ≤ capacity → ring_new capacity = Ok r → ring_reachable [] r
| reachable_record h r timestamp category state context sequence r' :
    ring_reachable h r → ring_record r timestamp category state context = (Ok sequence, r') →
    ring_reachable (h ++ [MkWrapperDiagnostic sequence timestamp category state context]) r'.

Lemma ring_reachable_refines h r : ring_reachable h r → ring_refines h r.
Proof.
  induction 1 as [capacity r Hc Hn|h r timestamp category state context sequence r' Hr IH He].
  - by eapply ring_new_refines.
  - pose proof (ring_record_refines h r timestamp category state context IH) as H. by rewrite He in H.
Qed.

(** What the reader has not seen is the history from some place on. *)
Lemma unseen_suffix h k a :
  wd_sequence <$> h = seqZ k (zlen h) → filter (unseen (Some a)) h = drop (Z.to_nat (a - k + 1)) h.
Proof.
  revert k. induction h as [|d h IH]; intros k Hs; [by rewrite drop_nil|].
  assert (zlen (d :: h) = zlen h + 1) as Hl by (unfold zlen; cbn; lia). pose proof (zlen_nonneg h).
  rewrite Hl, seqZ_cons in Hs by lia. injection Hs as Hd Hs.
  replace (Z.pred (zlen h + 1)) with (zlen h) in Hs by lia.
  rewrite filter_cons. destruct (decide _) as [Ha|Ha]; cbn in Ha; rewrite Is_true_true in Ha.
  - apply Z.ltb_lt in Ha. rewrite (IH _ Hs).
    replace (Z.to_nat (a - k + 1)) with 0%nat by lia. by replace (Z.to_nat (a - Z.succ k + 1)) with 0%nat by lia.
  - apply not_true_is_false, Z.ltb_ge in Ha. rewrite (IH _ Hs).
    replace (Z.to_nat (a - k + 1)) with (S (Z.to_nat (a - Z.succ k + 1))) by lia. done.
Qed.

Lemma unseen_none (h : list WrapperDiagnostic) : filter (unseen None) h = h.
Proof. induction h as [|d h IH]; [done|]. rewrite filter_cons_True by done. by rewrite IH. Qed.

Lemma drop_elem_seqZ h k n d :
  wd_sequence <$> h = seqZ k (zlen h) → d ∈ h →
  (d ∈ drop n h ↔ k + Z.of_nat n ≤ wd_sequence d).
Proof.
  intros Hs Hd. assert (∀ m x, h !! m = Some x → wd_sequence x = k + Z.of_nat m) as Hat.
  { intros m x Hx. assert ((wd_sequence <$> h) !! m = Some (wd_sequence x)) as Hm
      by (by rewrite list_lookup_fmap, Hx). rewrite Hs in Hm. by apply lookup_seqZ in Hm as [? _]. }
  rewrite list_elem_of_lookup. setoid_rewrite lookup_drop. split.
  - intros [i Hi%Hat]. lia.
  - intros Hle. apply list_elem_of_lookup in Hd as [m Hm]. pose proof (Hat _ _ Hm).
    exists (m - n)%nat. by replace (n + (m - n))%nat with m by lia.
Qed.

(** The gap flag of a reader that has seen up to [a]. *)
Lemma gap_exact h a skip next_sequence (some_skipped : bool) :
  wd_sequence <$> h = seqZ 1 (zlen h) → next_sequence = zlen h + 1 → zlen h < u64_max → 0 ≤ a →
  (Z.to_nat a ≤ skip)%nat → (a < zlen h → Z.of_nat skip < zlen h) → (some_skipped = true → a < Z.of_nat skip < zlen h) →
  let records := drop skip h in
  some_skipped ||
      match wd_sequence <$> head records with
      | Some e => match checked_add a 1 with Some next => next <? e | None => false end
      | _ => false
      end ||
      match records with
      | [] => match checked_add a 1 with Some next => next <? next_sequence | None => false end
      | _ => false
      end = true ↔ ∃ d, d ∈ h ∧ a < wd_sequence d ∧ d ∉ records.
Proof.
  intros Hs -> Hb Ha Hskip Hne Hsome records. pose proof (zlen_nonneg h).
  assert ((∃ d, d ∈ h ∧ a < wd_sequence d ∧ d ∉ records) ↔ a < Z.of_nat skip ∧ a < zlen h) as ->.
  { split.
    - intros (d & Hd & Had & Hnot). unfold records in Hnot. rewrite (drop_elem_seqZ h 1) in Hnot by done.
      assert (wd_sequence d ∈ seqZ 1 (zlen h)) as Hin by (rewrite <-Hs; by apply list_elem_of_fmap_2).
      apply elem_of_seqZ in Hin. lia.
    - intros [H1 H2]. assert (a + 1 ∈ wd_sequence <$> h) as Hin by (rewrite Hs; apply elem_of_seqZ; lia).
      apply list_elem_of_fmap in Hin as (d & Hd & Hin). exists d. split_and!; [done|lia|].
      unfold records. rewrite (drop_elem_seqZ h 1) by done. lia. }
  assert (∀ d, head records = Some d → wd_sequence d = 1 + Z.of_nat skip) as Hhead.
  { intros d Hd. unfold records in Hd. rewrite head_lookup, lookup_drop, Nat.add_0_r in Hd.
    assert ((wd_sequence <$> h) !! skip = Some (wd_sequence d)) as Hm by (by rewrite list_lookup_fmap, Hd).
    rewrite Hs in Hm. by apply lookup_seqZ in Hm as [? _]. }
  assert (records = [] → zlen h ≤ Z.of_nat skip) as Hnil.
  { intros Hn. assert (length (drop skip h) = 0%nat) as Hl by (fold records; by rewrite Hn). rewrite length_drop in Hl. unfold zlen. lia. }
  rewrite !orb_true_iff. unfold checked_add.
  destruct records as [|d rs] eqn:Hr; cbn [head fmap option_fmap option_map].
  - specialize (Hnil eq_refl). cbn.
    destruct (Z.leb_spec (a + 1) u64_max); rewrite ?Z.ltb_lt; [|lia].
    split; [intros [[H1%Hsome|[=]]|H1]; lia|]. intros [H1 H2]. by specialize (Hne H2); lia.
  - specialize (Hhead d eq_refl). cbn. destruct (Z.leb_spec (a + 1) u64_max); rewrite ?Z.ltb_lt, ?Hhead; [|lia].
    assert (Z.of_nat skip < zlen h).
    { destruct (decide (Z.of_nat skip < zlen h)); [done|]. assert (length h ≤ skip)%nat as Hl%drop_ge by (unfold zlen in *; lia).
      unfold records in Hr; congruence. }
    split; [intros [[Hx|Hx]|[=]]; [apply Hsome in Hx|]; lia|]. intros [Hx Hy]. left. right. lia.
Qed.


Definition sample_context : WrapperDiagnosticContext := MkDiagnosticContext (Some 3) None None.
Definition sample_step (s : list WrapperDiagnostic * WrapperDiagnosticRing) (category : WrapperDiagnosticCategory)
  : list WrapperDiagnostic * WrapperDiagnosticRing :=
  match ring_record s.2 7 category Raised sample_context with
  | (Ok sequence, r) => (s.1 ++ [MkWrapperDiagnostic sequence 7 category Raised sample_context], r)
  | (Err _, _) => s
  end.
Definition sample_ring : list WrapperDiagnostic * WrapperDiagnosticRing :=
  foldl sample_step ([], MkDiagnosticRing 2 1 0 []) [CatRuntimeApply; CatCoreLifecycle; CatProfileRefresh].

Lemma sample_step_reachable s category :
  ring_reachable s.1 s.2 → ring_reachable (sample_step s category).1 (sample_step s category).2.
Proof. unfold sample_step. destruct (ring_record _ _ _ _ _) as [[sequence|e] r] eqn:He; [|done]. intros. by eapply reachable_record. Qed.

Lemma sample_ring_reachable : ring_reachable sample_ring.1 sample_ring.2.
Proof. do 3 apply sample_step_reachable. by apply (reachable_new 2). Qed.

