(* ===== verification/Application.v ===== *)
(** * Application: what the Supervisor answers (src/application.rs, and the status
    data of src/domain.rs)

    The outcomes of the operations of [Request], the application error with its
    details, the names of the runtime-apply stages, and [ApplicationService], the
    client that stands in while no Supervisor is connected. *)

From S2P Require Import Prelude Text Constants Domain Diagnostics Frame Request.
Local Open Scope Z_scope.

(** ** Status (src/domain.rs) *)

Inductive TunReason := AppTunNoActiveProfile | AppTunPermissionDenied | AppTunUnsupported | AppTunCoreUnavailable.
Inductive CoreDiagnosticCategory := RestartLimitReached.
Inductive StreamState :=
| StreamDisconnected | StreamConnecting | StreamHealthy | StreamStale | StreamDegraded.

Record SupervisorStatus := MkSupervisorStatus {
  sst_lifecycle : SupervisorLifecycle;
  sst_started_at_unix_ms : Z;
  sst_uptime_seconds : Z;
  sst_health_reasons : list SupervisorHealthReason;
}.

Record CoreRestartStatus := MkCoreRestartStatus {
  crs_pending : bool;
  crs_attempts : Z;
  crs_backoff_ms : option Z;
  crs_diagnostic : option CoreDiagnosticCategory;
}.

Record CoreStatus := MkCoreStatus {
  cs_lifecycle : CoreLifecycle;
  cs_pid : option Z;
  cs_instance_generation : option Z;
  cs_restart : CoreRestartStatus;
}.

Record TunStatus := MkAppTunStatus {
  tns_requested : bool;
  tns_capable : bool;
  tns_effective : bool;
  tns_reason : option TunReason;
}.

Record ActiveProfileSummary := MkActiveProfileSummary {
  aps_id : Z;
  aps_name : str;
}.

Record SelectedNodeSummary := MkSelectedNodeSummary {
  sns_id : str;
  sns_name : str;
}.

Record StreamHealthSet := MkStreamHealthSet {
  shs_traffic : StreamState;
  shs_connections : StreamState;
  shs_logs : StreamState;
}.

Record ProbeQueueStatus := MkProbeQueueStatus {
  pqs_active_node_count : Z;
  pqs_queue_depth : Z;
  pqs_in_flight_count : Z;
  pqs_overloaded : bool;
  pqs_oldest_due_age_ms : option Z;
  pqs_estimated_full_pass_duration_ms : Z;
  pqs_stale_node_count : Z;
}.

Record StatusSnapshot := MkStatusSnapshot {
  ss_supervisor : SupervisorStatus;
  ss_core : CoreStatus;
  ss_tun : TunStatus;
  ss_active_profile : option ActiveProfileSummary;
  ss_primary_proxy_group : option str;
  ss_selected_node : option SelectedNodeSummary;
  ss_latency : option LatencySample;
  ss_traffic : TrafficSample;
  ss_connection_count : Z;
  ss_upload_total_bytes : Z;
  ss_download_total_bytes : Z;
  ss_memory_bytes : option Z;
  ss_connections : list ConnectionRecord;
  ss_runtime_generation : option Z;
  ss_apply_state : ApplyState;
  ss_runtime_apply : RuntimeApplySnapshot;
  ss_selection_restore_pending : bool;
  ss_probe_queue : ProbeQueueStatus;
  ss_stream_health : StreamHealthSet;
}.

(** The [Default] instances. *)
Definition default_recovery_snapshot : RuntimeRecoverySnapshot :=
  MkRuntimeRecoverySnapshot RecoveryNotRequired None None.
Definition default_apply_snapshot : RuntimeApplySnapshot :=
  MkRuntimeApplySnapshot None None PhaseIdle default_recovery_snapshot.
Definition default_restart_status : CoreRestartStatus := MkCoreRestartStatus false 0 None None.
Definition default_probe_queue : ProbeQueueStatus := MkProbeQueueStatus 0 0 0 false None 0 0.

#[global] Instance CoreLifecycle_eq_dec : EqDecision CoreLifecycle.
Proof. solve_decision. Defined.
#[global] Instance StreamState_eq_dec : EqDecision StreamState.
Proof. solve_decision. Defined.

(** ** Outcomes *)

Inductive LifecycleAction := LifecycleStart | LifecycleStop | LifecycleRestart.

Record LifecycleOutcome := MkLifecycleOutcome {
  lo_action : LifecycleAction;
  lo_changed : bool;
  lo_status : StatusSnapshot;
}.

Inductive ProfileRefreshState := RefreshFresh | RefreshError.
Inductive ProfileRefreshStage := StageDownload | StageParse | StageValidate | StageApply.

Record ProfileRefreshFailure := MkProfileRefreshFailure {
  prf_app_stage : ProfileRefreshStage;
  prf_message : str;
}.

Record ProfileSummary := MkProfileSummary {
  psum_id : Z;
  psum_name : str;
  psum_subscription_url : Url;
  psum_active : bool;
  psum_refresh_state : ProfileRefreshState;
  psum_last_success_at : Z;
  psum_next_refresh_at : Z;
  psum_last_error : option ProfileRefreshFailure;
}.

Record ProfileListPageOutcome := MkProfileListPageOutcome {
  plp_snapshot_id : Z;
  plp_total : Z;
  plp_offset : Z;
  plp_profiles : list ProfileSummary;
}.

Inductive RuntimeApplyStatus := ApplyNotRequired | ApplyApplied | ApplyRecovered | ApplyStatusFailed.
Inductive RecoveryStatus :=
| RecoveryStatusNotRequired | RecoveryStatusSucceeded | RecoveryStatusPending | RecoveryStatusFailed.

(** [application::RecoveryOutcome] *)
Record AppRecoveryOutcome := MkAppRecoveryOutcome {
  aro_status : RecoveryStatus;
  aro_restored_generation : option Z;
  aro_message : option str;
}.

Record RuntimeApplyOutcome := MkRuntimeApplyOutcome {
  rao_status : RuntimeApplyStatus;
  rao_candidate_generation : option Z;
  rao_committed_generation : option Z;
  rao_recovery : AppRecoveryOutcome;
}.

Inductive ProfileMutationAction := ProfileAdded | ProfileActivated | ProfileRemovedAction.

Record ProfileMutationOutcome := MkProfileMutationOutcome {
  pmo_action : ProfileMutationAction;
  pmo_profile : ProfileSummary;
  pmo_runtime_apply : option RuntimeApplyOutcome;
}.

Inductive ProxyAvailability := RowAvailable | RowUnavailable.
Inductive ProxyMemberKind := KindNode | KindGroup | KindMissing | KindAmbiguous | KindProviderUnavailable.
Inductive ProxyNodeSource := SourceCore | SourceProvider (provider_name : str).
Inductive AppLatencyFreshness := AppNotSampled | AppFresh | AppStale | AppUnavailable.
Inductive LatencyProbeStatus := AppProbeNotSampled | AppProbeQueued | AppProbeInFlight | AppProbeSucceeded | AppProbeFailed.

Record ProxyNodeRow := MkProxyNodeRow {
  pnr_id : option str;
  pnr_name : str;
  pnr_member_kind : ProxyMemberKind;
  pnr_source : option ProxyNodeSource;
  pnr_candidate_ids : list str;
  pnr_proxy_type : option str;
  pnr_availability : ProxyAvailability;
  pnr_selected : bool;
  pnr_delay_ms : option Z;
  pnr_sampled_at : option Z;
  pnr_freshness : AppLatencyFreshness;
  pnr_probe_status : LatencyProbeStatus;
}.

Record SelectorIdentity := MkSelectorIdentity {
  si_id : str;
  si_name : str;
}.

Record ProxyGroupSummary := MkProxyGroupSummary {
  pgs_id : str;
  pgs_name : str;
  pgs_proxy_type : str;
  pgs_selectable : bool;
  pgs_selected_node : option SelectorIdentity;
}.

Record ProxyListOutcome := MkProxyListOutcome {
  plo_group : ProxyGroupSummary;
  plo_groups : list ProxyGroupSummary;
  plo_nodes : list ProxyNodeRow;
}.

Record ProxyListPageOutcome := MkProxyListPageOutcome {
  pxp_snapshot_id : Z;
  pxp_group : ProxyGroupSummary;
  pxp_groups_total : Z;
  pxp_groups_offset : Z;
  pxp_groups : list ProxyGroupSummary;
  pxp_nodes_total : Z;
  pxp_nodes_offset : Z;
  pxp_nodes : list ProxyNodeRow;
}.

Record ProxySelectionOutcome := MkProxySelectionOutcome {
  pso_group_id : str;
  pso_group : str;
  pso_previous_node : option SelectorIdentity;
  pso_selected_node : SelectorIdentity;
  pso_persisted : bool;
  pso_recovery : AppRecoveryOutcome;
}.

Record LatencySummary := MkLatencySummary {
  lsum_node_id : str;
  lsum_node_name : str;
  lsum_delay_ms : option Z;
  lsum_sampled_at : option Z;
  lsum_freshness : AppLatencyFreshness;
  lsum_probe_status : LatencyProbeStatus;
  lsum_probe_generation : Z;
}.

Inductive PolicyTargetValidation := TargetValid | TargetMissing | TargetUnavailable.

Record RuleSummary := MkRuleSummary {
  rsum_index : Z;
  rsum_rule_string : str;
  rsum_rule_type : str;
  rsum_payload : option str;
  rsum_policy_target : str;
  rsum_params : list str;
  rsum_policy_target_validation : PolicyTargetValidation;
}.

Record RuleListOutcome := MkRuleListOutcome {
  rlo_initialized : bool;
  rlo_revision : option Z;
  rlo_rules : list RuleSummary;
}.

Record RuleListPageOutcome := MkRuleListPageOutcome {
  rlp_initialized : bool;
  rlp_revision : option Z;
  rlp_total : Z;
  rlp_offset : Z;
  rlp_rules : list RuleSummary;
}.

Inductive RuleMutationAction := RuleAdded | RuleReplaced | RuleRemoved.

Record RuleMutationOutcome := MkRuleMutationOutcome {
  rmo_action : RuleMutationAction;
  rmo_changed_rule : str;
  rmo_previous_rule : option str;
  rmo_resulting_position : option Z;
  rmo_runtime_apply : RuntimeApplyOutcome;
}.

Record LogGap := MkLogGap {
  lg_requested_after_sequence : Z;
  lg_first_available_sequence : Z;
  lg_dropped_count : Z;
}.

Record LogMetadata := MkLogMetadata {
  lm_first_sequence : option Z;
  lm_last_sequence : option Z;
  lm_next_sequence : option Z;
  lm_dropped_total : Z;
  lm_gap : option LogGap;
}.

Inductive ApplicationOutput :=
| OutStatus (status : StatusSnapshot)
| OutLifecycle (outcome : LifecycleOutcome)
| OutProfiles (profiles : list ProfileSummary)
| OutProfilePage (page : ProfileListPageOutcome)
| OutProfileMutation (outcome : ProfileMutationOutcome)
| OutProxies (outcome : ProxyListOutcome)
| OutProxyPage (page : ProxyListPageOutcome)
| OutProxySelection (outcome : ProxySelectionOutcome)
| OutLatencies (samples : list LatencySummary)
| OutLatency (sample : LatencySummary)
| OutRules (outcome : RuleListOutcome)
| OutRulePage (page : RuleListPageOutcome)
| OutRuleMutation (outcome : RuleMutationOutcome)
| OutLogMetadata (metadata : LogMetadata).

(** ** Errors *)

Inductive RuntimeApplyFailureStage :=
| FailState | FailBundle | FailLock | FailRecoveryRequired | FailStaleCandidate | FailInvalidCandidate
| FailValidation | FailPrepare | FailApply | FailIndeterminateApply | FailHealth | FailCommit
| FailCleanup | FailRecovery.

#[global] Instance RuntimeApplyFailureStage_eq_dec : EqDecision RuntimeApplyFailureStage.
Proof. solve_decision. Defined.

Definition stage_as_str (s : RuntimeApplyFailureStage) : str :=
  match s with
  | FailState => lit "state"
  | FailBundle => lit "bundle"
  | FailLock => lit "lock"
  | FailRecoveryRequired => lit "recovery_required"
  | FailStaleCandidate => lit "stale_candidate"
  | FailInvalidCandidate => lit "invalid_candidate"
  | FailValidation => lit "validation"
  | FailPrepare => lit "prepare"
  | FailApply => lit "apply"
  | FailIndeterminateApply => lit "indeterminate_apply"
  | FailHealth => lit "health"
  | FailCommit => lit "commit"
  | FailCleanup => lit "cleanup"
  | FailRecovery => lit "recovery"
  end.

Definition stage_parse (value : str) : option RuntimeApplyFailureStage :=
  if bool_decide (value = lit "state") then Some FailState
  else if bool_decide (value = lit "bundle") then Some FailBundle
  else if bool_decide (value = lit "lock") then Some FailLock
  else if bool_decide (value = lit "recovery_required") then Some FailRecoveryRequired
  else if bool_decide (value = lit "stale_candidate") then Some FailStaleCandidate
  else if bool_decide (value = lit "invalid_candidate") then Some FailInvalidCandidate
  else if bool_decide (value = lit "validation") then Some FailValidation
  else if bool_decide (value = lit "prepare") then Some FailPrepare
  else if bool_decide (value = lit "apply") then Some FailApply
  else if bool_decide (value = lit "indeterminate_apply") then Some FailIndeterminateApply
  else if bool_decide (value = lit "health") then Some FailHealth
  else if bool_decide (value = lit "commit") then Some FailCommit
  else if bool_decide (value = lit "cleanup") then Some FailCleanup
  else if bool_decide (value = lit "recovery") then Some FailRecovery
  else None.

Record RuntimeApplyFailureDetails := MkRuntimeApplyFailureDetails {
  rafd_candidate_generation : option Z;
  rafd_committed_generation : option Z;
  rafd_stage : RuntimeApplyFailureStage;
  rafd_recovery : AppRecoveryOutcome;
}.

Record LifecycleFailureDetails := MkLifecycleFailureDetails {
  lfd_stage : str;
  lfd_category : str;
}.

Inductive ApplicationErrorDetails :=
| DetailCandidateIds (candidate_ids : list str)
| DetailRuntimeApplyFailure (details : RuntimeApplyFailureDetails)
| DetailLifecycleFailure (details : LifecycleFailureDetails).

Inductive SelectorKind := SelectProfile | SelectProxyGroup | SelectNode | SelectRule.

Record SelectorCandidate := MkSelectorCandidate {
  sc_id : str;
  sc_name : str;
}.

Record SelectorCandidateDetails := MkSelectorCandidateDetails {
  scd_selector : SelectorKind;
  scd_candidates : list SelectorCandidate;
}.

Record ApplicationError := MkApplicationError {
  ae_code : ErrorCode;
  ae_message : str;
  ae_retryable : bool;
  ae_details : option ApplicationErrorDetails;
  ae_selector_candidates : option SelectorCandidateDetails;
}.

Definition app_error (code : ErrorCode) (message : str) (retryable : bool) : ApplicationError :=
  MkApplicationError code message retryable None None.
Definition app_with_details (e : ApplicationError) (details : ApplicationErrorDetails) : ApplicationError :=
  MkApplicationError (ae_code e) (ae_message e) (ae_retryable e) (Some details) (ae_selector_candidates e).
Definition with_selector_candidates (e : ApplicationError) (selector : SelectorKind)
    (candidates : list SelectorCandidate) : ApplicationError :=
  MkApplicationError (ae_code e) (ae_message e) (ae_retryable e) (ae_details e)
    (Some (MkSelectorCandidateDetails selector candidates)).

(** ** The client without a Supervisor *)

Definition disconnected_streams : StreamHealthSet :=
  MkStreamHealthSet StreamDisconnected StreamDisconnected StreamDisconnected.

(** [now] is the answer of the clock, [started_at] its answer at construction. *)
Definition service_status (started_at now : Z) : StatusSnapshot :=
  {| ss_supervisor := MkSupervisorStatus SupReady started_at (saturating_sub now started_at / 1000) [];
     ss_core := MkCoreStatus CoreUnconfigured None None default_restart_status;
     ss_tun := MkAppTunStatus true false false (Some AppTunNoActiveProfile);
     ss_active_profile := None;
     ss_primary_proxy_group := None;
     ss_selected_node := None;
     ss_latency := None;
     ss_traffic := MkTrafficSample 0 0 None SampleUnavailable;
     ss_connection_count := 0;
     ss_upload_total_bytes := 0;
     ss_download_total_bytes := 0;
     ss_memory_bytes := None;
     ss_connections := [];
     ss_runtime_generation := None;
     ss_apply_state := ApplyIdle;
     ss_runtime_apply := default_apply_snapshot;
     ss_selection_restore_pending := false;
     ss_probe_queue := default_probe_queue;
     ss_stream_health := disconnected_streams |}.

Definition service_execute (started_at now : Z) (operation : ApplicationOperation)
  : result ApplicationOutput ApplicationError :=
  match operation with
  | AppGetStatus => Ok (OutStatus (service_status started_at now))
  | _ => Err (app_error EOperationUnavailable (lit "The lifecycle service is not connected") true)
  end.

(** [ApplicationClient::execute_cancellable], the trait's default. *)
Definition execute_cancellable
    (execute : ApplicationOperation → result ApplicationOutput ApplicationError)
    (operation : ApplicationOperation) (is_cancelled : bool) : result ApplicationOutput ApplicationError :=
  if is_cancelled
  then Err (app_error EOperationUnavailable (lit "The application operation was cancelled") true)
  else execute operation.

(** ** Stage names *)

(** The names of the stages are told apart, and no other text is one. *)
Lemma stage_names value s : stage_parse value = Some s ↔ value = stage_as_str s.
Proof.
  split.
  - unfold stage_parse. intros H.
    repeat (case_bool_decide as Hv; [by simplify_eq|clear Hv]). done.
  - intros ->. by destruct s.
Qed.
