(* ===== verification/SupervisorOutcomes.v ===== *)
(** * SupervisorOutcomes: application errors and runtime-apply outcomes
    (src/supervisor/errors.rs, src/supervisor/outcomes.rs)

    Failures of the catalog, the rule set, the proxy view, the compiler and the
    transaction port as application errors; the result of a transaction as the
    runtime-apply snapshot and outcome.  [uuid_to_string] prints an identifier. *)

From S2P Require Import Prelude Text Constants Domain Rule Profile ProxyView ConfigData ConfigPolicy State Ports Transaction Request SupervisorTransactions Application.
Local Open Scope Z_scope.

(** ** errors.rs *)

Definition invalid_rule_error : ApplicationError :=
  app_error EExternalOperationFailed (lit "The Rule String is invalid") false.
Definition rule_busy_error : ApplicationError :=
  app_error ERuleBusy (lit "The configuration transaction is busy") true.
Definition core_error (message : str) : ApplicationError := app_error ECoreUnavailable message true.
Definition no_active_profile : ApplicationError :=
  app_error EProfileNotFound (lit "No Active Profile is configured") false.
Definition internal_error : ApplicationError :=
  app_error EInternal (lit "The Supervisor state is unavailable") false.

Definition checked_rule (value : str) : result RuleString ApplicationError :=
  let? rule := map_err (λ _, invalid_rule_error) (RuleString_new value RULE_STRING_MAX_BYTES) in
  guard? map_err (λ _, invalid_rule_error) (parse_rule rule) in
  Ok rule.

Definition map_rule_placement (placement : Request.RulePlacement)
  : result Rule.RulePlacement ApplicationError :=
  match placement with
  | Request.Prepend => Ok Rule.Prepend
  | Request.Append => Ok Rule.Append
  | Request.Before rule => let? rule := checked_rule rule in Ok (Rule.Before rule)
  | Request.After rule => let? rule := checked_rule rule in Ok (Rule.After rule)
  end.

(** [index.to_string()] *)
Definition index_candidate (index : Z) : SelectorCandidate :=
  MkSelectorCandidate (decimal (Z.to_N index)) (decimal (Z.to_N index)).

Definition map_rule_error (error : RuleSetError) : ApplicationError :=
  match error with
  | RulesUninitialized => app_error ERulesUninitialized (lit "The Local Rule Set is uninitialized") false
  | RuleNotFound => app_error ERuleNotFound (lit "The Rule String was not found") false
  | RuleAmbiguous matching_indexes =>
      with_selector_candidates (app_error ERuleAmbiguous (lit "The Rule String is ambiguous") false)
        SelectRule (index_candidate <$> matching_indexes)
  | RuleAlreadyExists matching_indexes =>
      with_selector_candidates (app_error ERuleAlreadyExists (lit "The Rule String already exists") false)
        SelectRule (index_candidate <$> matching_indexes)
  | InvalidRule _ => invalid_rule_error
  | RevisionExhausted => internal_error
  end.

Definition selector_not_found (kind : SelectorKind) (label : str) : ApplicationError :=
  app_error
    (match kind with
     | SelectProfile => EProfileNotFound
     | SelectProxyGroup => EProxyGroupNotFound
     | SelectNode => ENodeNotFound
     | SelectRule => ERuleNotFound
     end)
    (lit "The " ++ label ++ lit " was not found") false.

Definition map_selection_error (error : SelectionError) : ApplicationError :=
  match error with
  | NodeAmbiguous name candidate_ids =>
      with_selector_candidates (app_error ENodeAmbiguous (lit "The Node selector is ambiguous") false)
        SelectNode ((λ id, MkSelectorCandidate id name) <$> candidate_ids)
  | GroupMissing _ => selector_not_found SelectProxyGroup (lit "Proxy Group")
  | NodeMissing _ => selector_not_found SelectNode (lit "Node")
  | GroupNotSelectable _ | NodeUnavailable _ | ProviderUnavailable _ | TargetIsGroup _ =>
      core_error (lit "The selected Node is unavailable")
  end.

Definition refresh_stage_for_transaction_failure (failure : SupervisorTransactionFailure) : RefreshStage :=
  match tf_kind failure with
  | FailureCoordinator Validation => Profile.Validate
  | _ => Profile.Apply
  end.

Definition map_config_error (error : ConfigError) : ApplicationError :=
  match error with
  | UnavailableReference _ _ _ =>
      app_error EPolicyTargetNotFound (lit "The configuration contains an unavailable Policy Target") false
  | _ => app_error EExternalOperationFailed (ConfigError_display error) false
  end.

Definition transaction_failure_stage (k : SupervisorTransactionFailureKind) : RuntimeApplyFailureStage :=
  match k with
  | FailureBusy => FailLock
  | FailureState => FailState
  | FailureBundle => FailBundle
  | FailureCoordinator kind =>
      match kind with
      | Busy | LockPoisoned => FailLock
      | RecoveryRequired => FailRecoveryRequired
      | StaleCandidate => FailStaleCandidate
      | InvalidCandidate => FailInvalidCandidate
      | Validation => FailValidation
      | Prepare => FailPrepare
      | ErrTunPermissionDenied | ErrTunUnsupported => FailApply
      | Transaction.Apply => FailApply
      | IndeterminateApply => FailIndeterminateApply
      | Health => FailHealth
      | Commit => FailCommit
      | Cleanup => FailCleanup
      | Recovery => FailRecovery
      | Shutdown => FailRecoveryRequired
      end
  end.

Definition bounded_message (message : str) : str := take 1024 message.

(** ** outcomes.rs *)

Definition runtime_recovery_snapshot (recovery : RecoveryOutcome) : RuntimeRecoverySnapshot :=
  match recovery with
  | NotRequired => default_recovery_snapshot
  | Converged generation =>
      MkRuntimeRecoverySnapshot RecoverySucceeded generation
        (Some (lit "Committed Runtime Generation recovery succeeded"))
  | Pending target =>
      MkRuntimeRecoverySnapshot RecoveryPending target
        (Some (lit "Committed Runtime Generation cleanup is pending"))
  | Failed target =>
      MkRuntimeRecoverySnapshot RecoveryFailed target
        (Some (lit "Committed Runtime Generation recovery failed"))
  end.

Definition successful_runtime_apply_snapshot (success : ConfigTransactionSuccess) : RuntimeApplySnapshot :=
  MkRuntimeApplySnapshot (Some (success_candidate_generation success))
    (Some (success_committed_generation success))
    (match success_recovery success with
     | NotRequired | Converged _ => PhaseSucceeded
     | Pending _ => PhaseRecovering
     | Failed _ => PhaseFailed
     end)
    (runtime_recovery_snapshot (success_recovery success)).

Definition failed_runtime_apply_snapshot (error : SupervisorTransactionFailure) : RuntimeApplySnapshot :=
  MkRuntimeApplySnapshot (tf_candidate_generation error) (tf_committed_generation error)
    (match tf_recovery error with Pending _ => PhaseRecovering | _ => PhaseFailed end)
    (runtime_recovery_snapshot (tf_recovery error)).

Definition recovery_requires_degraded (recovery : RecoveryOutcome) : bool :=
  match recovery with Pending _ | Failed _ => true | NotRequired | Converged _ => false end.

Definition application_recovery (recovery : RecoveryOutcome) : AppRecoveryOutcome :=
  match recovery with
  | NotRequired => MkAppRecoveryOutcome RecoveryStatusNotRequired None None
  | Converged generation =>
      MkAppRecoveryOutcome RecoveryStatusSucceeded generation
        (Some (lit "The committed Runtime Generation was confirmed"))
  | Pending target =>
      MkAppRecoveryOutcome RecoveryStatusPending target
        (Some (lit "Committed Runtime Generation cleanup is pending"))
  | Failed target =>
      MkAppRecoveryOutcome RecoveryStatusFailed target
        (Some (lit "Committed Runtime Generation recovery failed"))
  end.

Definition runtime_apply_success (success : ConfigTransactionSuccess) : RuntimeApplyOutcome :=
  MkRuntimeApplyOutcome
    (match success_recovery success with
     | NotRequired => ApplyApplied
     | Converged _ => ApplyRecovered
     | Pending _ | Failed _ => ApplyApplied
     end)
    (Some (success_candidate_generation success)) (Some (success_committed_generation success))
    (application_recovery (success_recovery success)).

Definition runtime_apply_not_required (generation : option Z) : RuntimeApplyOutcome :=
  MkRuntimeApplyOutcome ApplyNotRequired None generation
    (MkAppRecoveryOutcome RecoveryStatusNotRequired None None).

(** [map_transaction_error] of errors.rs *)
Definition failure_details (error : SupervisorTransactionFailure) (stage : RuntimeApplyFailureStage)
  : ApplicationErrorDetails :=
  DetailRuntimeApplyFailure
    (MkRuntimeApplyFailureDetails (tf_candidate_generation error) (tf_committed_generation error) stage
       (application_recovery (tf_recovery error))).

Definition map_transaction_error (error : SupervisorTransactionFailure) : ApplicationError :=
  match tf_kind error with
  | FailureBusy => rule_busy_error
  | FailureCoordinator ErrTunPermissionDenied =>
      app_with_details
        (app_error ETunPermissionDenied (lit "TUN capability is unavailable for the Managed Core") false)
        (failure_details error FailApply)
  | FailureCoordinator ErrTunUnsupported =>
      app_with_details (app_error ETunUnsupported (lit "TUN is unsupported on this platform") false)
        (failure_details error FailApply)
  | FailureCoordinator Shutdown =>
      app_with_details (app_error EOperationUnavailable (lit "The Supervisor is shutting down") true)
        (failure_details error FailRecoveryRequired)
  | kind =>
      app_with_details
        (app_error EExternalOperationFailed
           (lit "Runtime Apply failed and the committed configuration was retained") false)
        (failure_details error (transaction_failure_stage kind))
  end.

Section errors.
Context (uuid_to_string : Z → str) (uuid_parse : str → option Z).

Definition map_profile_error (profiles : ProfileCatalog) (error : ProfileSelectorError) : ApplicationError :=
  match error with
  | SelectorNotFound => app_error EProfileNotFound (lit "The Profile was not found") false
  | SelectorActive => app_error EProfileActive (lit "The Active Profile cannot be removed") false
  | SelectorAmbiguous candidate_ids =>
      with_selector_candidates (app_error EProfileAmbiguous (lit "The Profile selector is ambiguous") false)
        SelectProfile
        ((λ id, MkSelectorCandidate (uuid_to_string id)
                  (match cat_profiles profiles !! id with
                   | Some profile => p_name profile
                   | None => uuid_to_string id
                   end)) <$> candidate_ids)
  | ActiveRevisionExhausted => internal_error
  end.

Definition resolve_profile (profiles : ProfileCatalog) (selector : str) : result Z ApplicationError :=
  map_err (map_profile_error profiles) (resolve uuid_parse profiles selector).

End errors.
