(* ===== verification/Projections.v ===== *)
(** * Projections: the state of the Supervisor and what it shows of it
    ([SupervisorState] of src/supervisor.rs, src/supervisor/projections.rs)

    Summaries, pages, selector resolution, status fields and the telemetry
    store's replacement.  [DefaultHasher] is a parameter: a function of the
    sequence of values fed to it. *)

From stdpp Require Import finite.
From S2P Require Import Prelude Text Ordered Constants Yaml Domain Rule Profile Scheduler ProxyView Mihomo Telemetry Diagnostics ConfigData State Ports Transaction Request Application SupervisorTransactions SupervisorOutcomes.
Local Open Scope Z_scope.

(** ** State *)

(** [BTreeSet<SupervisorHealthReason>] iterates in the order of declaration. *)
#[global] Instance SupervisorHealthReason_eq_dec : EqDecision SupervisorHealthReason.
Proof. solve_decision. Defined.
#[global] Program Instance SupervisorHealthReason_finite : Finite SupervisorHealthReason := {|
  enum := [ReasonRuntimeRecovery; ReasonSelectionCompensation; ReasonConfigurationProjection;
           ReasonProbeScheduler; ReasonSelectionRestoration] |}.
Next Obligation. by apply (bool_decide_unpack _). Qed.
Next Obligation. intros []; by apply (bool_decide_unpack _). Qed.

Definition reasons_iter (s : gset SupervisorHealthReason) : list SupervisorHealthReason :=
  filter (λ r, r ∈ s) (enum SupervisorHealthReason).

Record SupervisorState := MkSupervisorState {
  sv_profiles : ProfileCatalog;
  sv_local_rules : LocalRuleSet;
  sv_effective_configuration : option EffectiveConfiguration;
  sv_runtime_generation : option Z;
  sv_refreshes : ProfileRefreshScheduler;
  sv_probes : ProbeScheduler;
  sv_next_probe_generation : Z;
  sv_telemetry : option TelemetryStore;
  sv_telemetry_generation : option Z;
  sv_stream_health : StreamHealthSet;
  sv_cached_proxy_view : option ProxyView;
  sv_observed_core_generation : option Z;
  sv_probe_core_generation : option Z;
  sv_selection_restore_pending : bool;
  sv_selection_restore_attempts_remaining : Z;
  sv_health_reasons : gset SupervisorHealthReason;
  sv_wrapper_diagnostics : WrapperDiagnosticRing;
}.

(** Assignments to one field. *)
Definition set_profiles (x : ProfileCatalog) (s : SupervisorState) : SupervisorState :=
  MkSupervisorState x (sv_local_rules s) (sv_effective_configuration s) (sv_runtime_generation s)
    (sv_refreshes s) (sv_probes s) (sv_next_probe_generation s) (sv_telemetry s)
    (sv_telemetry_generation s) (sv_stream_health s) (sv_cached_proxy_view s)
    (sv_observed_core_generation s) (sv_probe_core_generation s) (sv_selection_restore_pending s)
    (sv_selection_restore_attempts_remaining s) (sv_health_reasons s) (sv_wrapper_diagnostics s).
Definition set_local_rules (x : LocalRuleSet) (s : SupervisorState) : SupervisorState :=
  MkSupervisorState (sv_profiles s) x (sv_effective_configuration s) (sv_runtime_generation s)
    (sv_refreshes s) (sv_probes s) (sv_next_probe_generation s) (sv_telemetry s)
    (sv_telemetry_generation s) (sv_stream_health s) (sv_cached_proxy_view s)
    (sv_observed_core_generation s) (sv_probe_core_generation s) (sv_selection_restore_pending s)
    (sv_selection_restore_attempts_remaining s) (sv_health_reasons s) (sv_wrapper_diagnostics s).
Definition set_effective_configuration (x : option EffectiveConfiguration) (s : SupervisorState) : SupervisorState :=
  MkSupervisorState (sv_profiles s) (sv_local_rules s) x (sv_runtime_generation s) (sv_refreshes s)
    (sv_probes s) (sv_next_probe_generation s) (sv_telemetry s) (sv_telemetry_generation s)
    (sv_stream_health s) (sv_cached_proxy_view s) (sv_observed_core_generation s)
    (sv_probe_core_generation s) (sv_selection_restore_pending s)
    (sv_selection_restore_attempts_remaining s) (sv_health_reasons s) (sv_wrapper_diagnostics s).
Definition set_runtime_generation (x : option Z) (s : SupervisorState) : SupervisorState :=
  MkSupervisorState (sv_profiles s) (sv_local_rules s) (sv_effective_configuration s) x
    (sv_refreshes s) (sv_probes s) (sv_next_probe_generation s) (sv_telemetry s)
    (sv_telemetry_generation s) (sv_stream_health s) (sv_cached_proxy_view s)
    (sv_observed_core_generation s) (sv_probe_core_generation s) (sv_selection_restore_pending s)
    (sv_selection_restore_attempts_remaining s) (sv_health_reasons s) (sv_wrapper_diagnostics s).
Definition set_refreshes (x : ProfileRefreshScheduler) (s : SupervisorState) : SupervisorState :=
  MkSupervisorState (sv_profiles s) (sv_local_rules s) (sv_effective_configuration s)
    (sv_runtime_generation s) x (sv_probes s) (sv_next_probe_generation s) (sv_telemetry s)
    (sv_telemetry_generation s) (sv_stream_health s) (sv_cached_proxy_view s)
    (sv_observed_core_generation s) (sv_probe_core_generation s) (sv_selection_restore_pending s)
    (sv_selection_restore_attempts_remaining s) (sv_health_reasons s) (sv_wrapper_diagnostics s).
Definition set_probes (x : ProbeScheduler) (s : SupervisorState) : SupervisorState :=
  MkSupervisorState (sv_profiles s) (sv_local_rules s) (sv_effective_configuration s)
    (sv_runtime_generation s) (sv_refreshes s) x (sv_next_probe_generation s) (sv_telemetry s)
    (sv_telemetry_generation s) (sv_stream_health s) (sv_cached_proxy_view s)
    (sv_observed_core_generation s) (sv_probe_core_generation s) (sv_selection_restore_pending s)
    (sv_selection_restore_attempts_remaining s) (sv_health_reasons s) (sv_wrapper_diagnostics s).
Definition set_next_probe_generation (x : Z) (s : SupervisorState) : SupervisorState :=
  MkSupervisorState (sv_profiles s) (sv_local_rules s) (sv_effective_configuration s)
    (sv_runtime_generation s) (sv_refreshes s) (sv_probes s) x (sv_telemetry s)
    (sv_telemetry_generation s) (sv_stream_health s) (sv_cached_proxy_view s)
    (sv_observed_core_generation s) (sv_probe_core_generation s) (sv_selection_restore_pending s)
    (sv_selection_restore_attempts_remaining s) (sv_health_reasons s) (sv_wrapper_diagnostics s).
Definition set_telemetry (x : option TelemetryStore) (s : SupervisorState) : SupervisorState :=
  MkSupervisorState (sv_profiles s) (sv_local_rules s) (sv_effective_configuration s)
    (sv_runtime_generation s) (sv_refreshes s) (sv_probes s) (sv_next_probe_generation s) x
    (sv_telemetry_generation s) (sv_stream_health s) (sv_cached_proxy_view s)
    (sv_observed_core_generation s) (sv_probe_core_generation s) (sv_selection_restore_pending s)
    (sv_selection_restore_attempts_remaining s) (sv_health_reasons s) (sv_wrapper_diagnostics s).
Definition set_telemetry_generation (x : option Z) (s : SupervisorState) : SupervisorState :=
  MkSupervisorState (sv_profiles s) (sv_local_rules s) (sv_effective_configuration s)
    (sv_runtime_generation s) (sv_refreshes s) (sv_probes s) (sv_next_probe_generation s)
    (sv_telemetry s) x (sv_stream_health s) (sv_cached_proxy_view s) (sv_observed_core_generation s)
    (sv_probe_core_generation s) (sv_selection_restore_pending s)
    (sv_selection_restore_attempts_remaining s) (sv_health_reasons s) (sv_wrapper_diagnostics s).
Definition set_stream_health (x : StreamHealthSet) (s : SupervisorState) : SupervisorState :=
  MkSupervisorState (sv_profiles s) (sv_local_rules s) (sv_effective_configuration s)
    (sv_runtime_generation s) (sv_refreshes s) (sv_probes s) (sv_next_probe_generation s)
    (sv_telemetry s) (sv_telemetry_generation s) x (sv_cached_proxy_view s)
    (sv_observed_core_generation s) (sv_probe_core_generation s) (sv_selection_restore_pending s)
    (sv_selection_restore_attempts_remaining s) (sv_health_reasons s) (sv_wrapper_diagnostics s).
Definition set_cached_proxy_view (x : option ProxyView) (s : SupervisorState) : SupervisorState :=
  MkSupervisorState (sv_profiles s) (sv_local_rules s) (sv_effective_configuration s)
    (sv_runtime_generation s) (sv_refreshes s) (sv_probes s) (sv_next_probe_generation s)
    (sv_telemetry s) (sv_telemetry_generation s) (sv_stream_health s) x
    (sv_observed_core_generation s) (sv_probe_core_generation s) (sv_selection_restore_pending s)
    (sv_selection_restore_attempts_remaining s) (sv_health_reasons s) (sv_wrapper_diagnostics s).
Definition set_observed_core_generation (x : option Z) (s : SupervisorState) : SupervisorState :=
  MkSupervisorState (sv_profiles s) (sv_local_rules s) (sv_effective_configuration s)
    (sv_runtime_generation s) (sv_refreshes s) (sv_probes s) (sv_next_probe_generation s)
    (sv_telemetry s) (sv_telemetry_generation s) (sv_stream_health s) (sv_cached_proxy_view s) x
    (sv_probe_core_generation s) (sv_selection_restore_pending s)
    (sv_selection_restore_attempts_remaining s) (sv_health_reasons s) (sv_wrapper_diagnostics s).
Definition set_probe_core_generation (x : option Z) (s : SupervisorState) : SupervisorState :=
  MkSupervisorState (sv_profiles s) (sv_local_rules s) (sv_effective_configuration s)
    (sv_runtime_generation s) (sv_refreshes s) (sv_probes s) (sv_next_probe_generation s)
    (sv_telemetry s) (sv_telemetry_generation s) (sv_stream_health s) (sv_cached_proxy_view s)
    (sv_observed_core_generation s) x (sv_selection_restore_pending s)
    (sv_selection_restore_attempts_remaining s) (sv_health_reasons s) (sv_wrapper_diagnostics s).
Definition set_selection_restore_pending (x : bool) (s : SupervisorState) : SupervisorState :=
  MkSupervisorState (sv_profiles s) (sv_local_rules s) (sv_effective_configuration s)
    (sv_runtime_generation s) (sv_refreshes s) (sv_probes s) (sv_next_probe_generation s)
    (sv_telemetry s) (sv_telemetry_generation s) (sv_stream_health s) (sv_cached_proxy_view s)
    (sv_observed_core_generation s) (sv_probe_core_generation s) x
    (sv_selection_restore_attempts_remaining s) (sv_health_reasons s) (sv_wrapper_diagnostics s).
Definition set_selection_restore_attempts_remaining (x : Z) (s : SupervisorState) : SupervisorState :=
  MkSupervisorState (sv_profiles s) (sv_local_rules s) (sv_effective_configuration s)
    (sv_runtime_generation s) (sv_refreshes s) (sv_probes s) (sv_next_probe_generation s)
    (sv_telemetry s) (sv_telemetry_generation s) (sv_stream_health s) (sv_cached_proxy_view s)
    (sv_observed_core_generation s) (sv_probe_core_generation s) (sv_selection_restore_pending s) x
    (sv_health_reasons s) (sv_wrapper_diagnostics s).
Definition set_health_reasons (x : gset SupervisorHealthReason) (s : SupervisorState) : SupervisorState :=
  MkSupervisorState (sv_profiles s) (sv_local_rules s) (sv_effective_configuration s)
    (sv_runtime_generation s) (sv_refreshes s) (sv_probes s) (sv_next_probe_generation s)
    (sv_telemetry s) (sv_telemetry_generation s) (sv_stream_health s) (sv_cached_proxy_view s)
    (sv_observed_core_generation s) (sv_probe_core_generation s) (sv_selection_restore_pending s)
    (sv_selection_restore_attempts_remaining s) x (sv_wrapper_diagnostics s).
Definition set_wrapper_diagnostics (x : WrapperDiagnosticRing) (s : SupervisorState) : SupervisorState :=
  MkSupervisorState (sv_profiles s) (sv_local_rules s) (sv_effective_configuration s)
    (sv_runtime_generation s) (sv_refreshes s) (sv_probes s) (sv_next_probe_generation s)
    (sv_telemetry s) (sv_telemetry_generation s) (sv_stream_health s) (sv_cached_proxy_view s)
    (sv_observed_core_generation s) (sv_probe_core_generation s) (sv_selection_restore_pending s)
    (sv_selection_restore_attempts_remaining s) (sv_health_reasons s) x.

(** ** Profiles *)

Definition profile_refresh_stage (stage : RefreshStage) : ProfileRefreshStage :=
  match stage with
  | Profile.Download => StageDownload
  | Profile.Parse => StageParse
  | Profile.Validate => StageValidate
  | Profile.Apply => StageApply
  end.

Definition profile_summary (p : Profile) (active : option Z) : ProfileSummary :=
  MkProfileSummary (p_id p) (p_name p) (p_subscription_url p) (bool_decide (active = Some (p_id p)))
    (match p_last_error p with Some _ => RefreshError | None => RefreshFresh end)
    (p_last_success_at p) (p_next_refresh_at p)
    ((λ failure, MkProfileRefreshFailure (profile_refresh_stage (rf_stage failure)) (rf_safe_message failure))
       <$> p_last_error p).

Inductive HashItem :=
| HashUint (bits value : Z)
| HashBool (value : bool)
| HashStr (value : str)
| HashProfileId (value : Z)
| HashDiscriminant (variant : Z)
| HashOptionId (value : option Z)
| HashOptionStr (value : option str)
| HashStrs (values : list str).

Definition refresh_stage_discriminant (stage : RefreshStage) : Z :=
  match stage with Profile.Download => 0 | Profile.Parse => 1 | Profile.Validate => 2 | Profile.Apply => 3 end.

Definition profile_hash_items (url_as_str : Url → str) (p : Profile) : list HashItem :=
  [HashProfileId (p_id p); HashStr (p_name p); HashStr (url_as_str (p_subscription_url p));
   HashUint 64 (p_revision p); HashUint 64 (p_last_success_at p); HashUint 64 (p_next_refresh_at p)] ++
  match p_last_error p with
  | Some failure =>
      [HashUint 8 1; HashDiscriminant (refresh_stage_discriminant (rf_stage failure));
       HashStr (rf_safe_message failure)]
  | None => [HashUint 8 0]
  end.

Definition profile_list_snapshot_id (hasher : list HashItem → Z) (url_as_str : Url → str)
    (profiles : ProfileCatalog) : Z :=
  hasher ([HashUint 64 (zsize (cat_profiles profiles));
           HashOptionId (cat_active_profile_id profiles)] ++
          (btree_values (cat_profiles profiles) ≫= profile_hash_items url_as_str)).

Definition active_profile (profiles : ProfileCatalog) : option Profile :=
  cat_active_profile_id profiles ≫= λ id, cat_profiles profiles !! id.

Definition effective_group_order `{YamlCrate} (profiles : ProfileCatalog)
  : result (list str) ApplicationError :=
  let? active := ok_or (active_profile profiles) no_active_profile in
  match mapping_get (snap_document (p_snapshot active)) (lit "proxy-groups") with
  | Some (VSequence groups) =>
      Ok (omap (λ group, m ← as_mapping group; name ← mapping_get m (lit "name"); as_str name) groups)
  | _ => Ok []
  end.

(** ** Diagnostics *)

Definition wrapper_diagnostic_context (s : SupervisorState) (reason : SupervisorHealthReason)
  : WrapperDiagnosticContext :=
  match reason with
  | ReasonRuntimeRecovery | ReasonConfigurationProjection =>
      MkDiagnosticContext (sv_runtime_generation s) None None
  | ReasonSelectionCompensation | ReasonSelectionRestoration =>
      MkDiagnosticContext (sv_runtime_generation s)
        (match sv_observed_core_generation s with Some g => Some g | None => sv_probe_core_generation s end) None
  | ReasonProbeScheduler =>
      MkDiagnosticContext (sv_runtime_generation s)
        (match sv_probe_core_generation s with Some g => Some g | None => sv_observed_core_generation s end)
        (if 0 <? sv_next_probe_generation s then Some (sv_next_probe_generation s) else None)
  end.

(** ** Proxy groups and nodes *)

Definition group_not_found : ApplicationError := selector_not_found SelectProxyGroup (lit "Proxy Group").
Definition node_not_found : ApplicationError := selector_not_found SelectNode (lit "Node").

Definition resolve_proxy_group (v : ProxyView) (selector : str) : result ProxyGroup ApplicationError :=
  match proxy_group_id_parse selector with
  | Ok id => ok_or (list_find (λ g, pg_id g = id) (pv_groups v) ≫= λ p, Some p.2) group_not_found
  | Err _ => ok_or (find_group v selector) group_not_found
  end.

(** The closure of [find_map]. *)
Definition member_with_id (record_id : str) (m : ProxyMember) : option (str * Availability) :=
  match m with
  | MemberNode name candidate availability =>
      if bool_decide (candidate = record_id) then Some (name, availability) else None
  | _ => None
  end.

Definition selection_by_selector (v : ProxyView) (group_name selector : str)
  : result NodeSelection SelectionError :=
  let? group := ok_or (find_group v group_name) (GroupMissing group_name) in
  if negb (pg_selectable group) then Err (GroupNotSelectable group_name)
  else
    match node_record_id_parse selector with
    | Ok record_id =>
        match head (omap (member_with_id record_id) (pg_members group)) with
        | Some (name, ProxyAvailable) => Ok (MkNodeSelection group_name name record_id)
        | Some (name, ProxyUnavailable) => Err (NodeUnavailable name)
        | None => Err (NodeMissing selector)
        end
    | Err _ => resolve_exact_selection v group_name selector
    end.

Definition core_probe_status (status : Scheduler.ProbeStatus) : ProxyView.ProbeStatus :=
  match status with
  | Scheduler.NotSampled => ProbeNotSampled
  | Scheduler.Queued => ProbeQueued
  | Scheduler.InFlight => ProbeInFlight
  | Scheduler.StatusAvailable => ProbeSucceeded
  | Scheduler.StatusTimedOut | Scheduler.StatusUnavailable => ProbeFailed
  end.

(** The entry of one node; [BTreeMap::from_iter] keeps the last of equal keys. *)
Definition node_observation (s : SupervisorState) (now : Z) (node_id : str) : option (str * ProbeObservation) :=
  (λ snapshot, (node_id, MkProbeObservation (pns_sample snapshot) (core_probe_status (pns_status snapshot))))
    <$> node_snapshot (sv_probes s) node_id now.
Definition collect_map {A} (l : list (str * A)) : gmap str A := foldl (λ m e, <[e.1 := e.2]> m) ∅ l.

Definition probe_observations (s : SupervisorState) (v : ProxyView) (now : Z) : gmap str ProbeObservation :=
  collect_map (omap (node_observation s now) (btree_keys (pv_nodes v))).

Definition probe_observations_page (s : SupervisorState) (group : ProxyGroup) (offset limit now : Z)
  : gmap str ProbeObservation :=
  let stop := Z.min (saturating_add offset limit) (zlen (pg_members group)) in
  collect_map (omap (λ m, match m with
                          | MemberNode _ record_id _ => node_observation s now record_id
                          | _ => None
                          end) (get_range (pg_members group) offset stop)).

Definition availability_discriminant (a : Availability) : Z :=
  match a with ProxyAvailable => 0 | ProxyUnavailable => 1 end.

Definition member_hash_items (m : ProxyMember) : list HashItem :=
  match m with
  | MemberGroup name => [HashDiscriminant 0; HashStr name]
  | MemberNode name record_id availability =>
      [HashDiscriminant 1; HashStr name; HashStr record_id;
       HashDiscriminant (availability_discriminant availability)]
  | MemberUnresolved name reason candidate_ids =>
      [HashDiscriminant 2; HashStr name;
       HashDiscriminant (match reason with
                         | MemberMissing => 0 | MemberAmbiguous => 1 | MemberProviderUnavailable => 2
                         end);
       HashStrs candidate_ids]
  end.

Definition group_hash_items (g : ProxyGroup) : list HashItem :=
  [HashStr (pg_id g); HashStr (pg_name g); HashStr (pg_proxy_type g);
   HashDiscriminant (availability_discriminant (pg_availability g)); HashBool (pg_selectable g);
   HashBool (pg_core_internal g); HashOptionStr (pg_selected_name g)] ++
  (pg_members g ≫= member_hash_items).

Definition node_hash_items (e : str * ProxyNode) : list HashItem :=
  let n := e.2 in
  [HashStr e.1; HashStr (pn_name n); HashStr (pn_proxy_type n);
   HashDiscriminant (availability_discriminant (pn_availability n)); HashBool (pn_core_internal n)] ++
  match pn_source n with
  | FromCore proxy_name => [HashDiscriminant 0; HashStr proxy_name]
  | FromProvider provider_name proxy_name => [HashDiscriminant 1; HashStr provider_name; HashStr proxy_name]
  end.

Definition proxy_list_snapshot_id (hasher : list HashItem → Z) (v : ProxyView) (generation : Z) : Z :=
  hasher ([HashUint 64 generation; HashUint 8 (pv_schema_version v);
           HashDiscriminant (match pv_order_source v with
                             | ProxyView.EffectiveConfiguration => 0 | StableFallback => 1 end);
           HashDiscriminant (match pv_provider_state v with
                             | ProviderReady => 0 | ProviderStateUnavailable => 1 end)] ++
          (pv_groups v ≫= group_hash_items) ++ (btree_iter (pv_nodes v) ≫= node_hash_items)).

(** [.as_deref().and_then(|name| selection_by_selector(..).ok())] *)
Definition group_selection (v : ProxyView) (g : ProxyGroup) : option NodeSelection :=
  pg_selected_name g ≫= λ name, result_ok (selection_by_selector v (pg_name g) name).
Definition selection_identity (s : NodeSelection) : SelectorIdentity :=
  MkSelectorIdentity (nsel_record_id s) (nsel_node_name s).

Definition proxy_group_summary (v : ProxyView) (g : ProxyGroup) : ProxyGroupSummary :=
  MkProxyGroupSummary (pg_id g) (pg_name g) (pg_proxy_type g) (pg_selectable g)
    (selection_identity <$> group_selection v g).

Definition app_freshness (f : LatencyFreshness) : AppLatencyFreshness :=
  match f with
  | FreshnessNotSampled => AppNotSampled
  | FreshnessFresh => AppFresh
  | FreshnessStale => AppStale
  | FreshnessUnavailable => AppUnavailable
  end.

Definition app_probe_status (s : ProxyView.ProbeStatus) : LatencyProbeStatus :=
  match s with
  | ProbeNotSampled => AppProbeNotSampled
  | ProbeQueued => AppProbeQueued
  | ProbeInFlight => AppProbeInFlight
  | ProbeSucceeded => AppProbeSucceeded
  | ProbeFailed => AppProbeFailed
  end.

Definition proxy_row (row : NodeRowV1) : ProxyNodeRow :=
  let '(id, member_kind, source, candidate_ids) :=
    match nr_member row with
    | RowGroup => (None, KindGroup, None, [])
    | RowNode record_id source =>
        (Some record_id, KindNode,
         Some (match source with
               | FromCore _ => SourceCore
               | FromProvider provider_name _ => SourceProvider provider_name
               end), [])
    | RowUnresolved reason candidate_ids =>
        (None,
         match reason with
         | MemberMissing => KindMissing
         | MemberAmbiguous => KindAmbiguous
         | MemberProviderUnavailable => KindProviderUnavailable
         end, None, candidate_ids)
    end in
  MkProxyNodeRow id (nr_name row) member_kind source candidate_ids (nr_proxy_type row)
    (match nr_availability row with ProxyAvailable => RowAvailable | ProxyUnavailable => RowUnavailable end)
    (nr_selected row) (nr_delay_ms row) (nr_sampled_at_unix_ms row)
    (app_freshness (nr_freshness row)) (app_probe_status (nr_probe_status row)).

Definition latency_summary (s : SupervisorState) (node_id node_name : str) (generation now : Z)
  : LatencySummary :=
  let snapshot := node_snapshot (sv_probes s) node_id now in
  let sample := snapshot ≫= pns_sample in
  MkLatencySummary node_id node_name (sample ≫= ls_delay_ms) (sample ≫= ls_sampled_at)
    (match ls_state <$> sample with
     | None => AppNotSampled
     | Some SampleFresh => AppFresh
     | Some SampleStale => AppStale
     | Some SampleUnavailable => AppUnavailable
     end)
    (match pns_status <$> snapshot with
     | None | Some Scheduler.NotSampled => AppProbeNotSampled
     | Some Scheduler.Queued => AppProbeQueued
     | Some Scheduler.InFlight => AppProbeInFlight
     | Some Scheduler.StatusAvailable => AppProbeSucceeded
     | Some (Scheduler.StatusTimedOut | Scheduler.StatusUnavailable) => AppProbeFailed
     end)
    generation.

Definition rule_summary (entry : RuleListEntry) : RuleSummary :=
  MkRuleSummary (entry_index entry) (entry_rule entry) (RuleType_as_str (rule_type (entry_parsed entry)))
    (payload (entry_parsed entry)) (policy_target (entry_parsed entry)) (params (entry_parsed entry))
    TargetValid.

Definition probe_eligible_node (n : ProxyNode) : bool := negb (pn_core_internal n).

Definition resolve_latency_node (v : ProxyView) (selector : str) : result ProxyNode ApplicationError :=
  match node_record_id_parse selector with
  | Ok id =>
      match pv_nodes v !! id with
      | Some node => if probe_eligible_node node then Ok node else Err node_not_found
      | None => Err node_not_found
      end
  | Err _ =>
      let candidates :=
        filter (λ n, probe_eligible_node n = true ∧ pn_name n = selector) (btree_values (pv_nodes v)) in
      match candidates with
      | [] => Err node_not_found
      | [node] => Ok node
      | _ =>
          Err (with_selector_candidates
                 (app_error ENodeAmbiguous (lit "The Node selector is ambiguous") false) SelectNode
                 ((λ n, MkSelectorCandidate (pn_record_id n) (pn_name n)) <$> candidates))
      end
  end.

(** ** Core health *)

Record CoreHealthProjection := MkCoreHealth {
  ch_managed_core : option ManagedCoreHandle;
  ch_core : CoreStatus;
  ch_tun : TunStatus;
  ch_degraded : bool;
}.

Definition core_health_unconfigured : CoreHealthProjection :=
  MkCoreHealth None (MkCoreStatus CoreUnconfigured None None default_restart_status)
    (MkAppTunStatus true false false (Some AppTunNoActiveProfile)) false.

Definition core_health_unavailable : CoreHealthProjection :=
  MkCoreHealth None (MkCoreStatus CoreDegraded None None default_restart_status)
    (MkAppTunStatus true false false (Some AppTunCoreUnavailable)) true.

(** [backoff.as_millis()] of a backoff in nanoseconds *)
Definition core_health_from_runtime (status : CoreRuntimeStatus) : CoreHealthProjection :=
  let '(lifecycle, core, degraded) :=
    match status_lifecycle status, managed_core status with
    | Owned, None => (CoreStopped, None, false)
    | Running, Some core => (CoreReady, Some core, false)
    | RestartPending, _ => (CoreStarting, None, false)
    | Degraded, _ => (CoreDegraded, None, true)
    | Owned, _ | Running, _ => (CoreDegraded, None, true)
    end in
  let capable := tun_capable (status_tun status) in
  let effective := bool_decide (lifecycle = CoreReady) && capable in
  let runtime_tun_reason :=
    (λ reason, match reason with
               | TunReasonPermissionDenied => AppTunPermissionDenied
               | TunReasonUnsupported => AppTunUnsupported
               end) <$> tun_reason (status_tun status) in
  let reason := if effective then None
                else match runtime_tun_reason with Some r => Some r | None => Some AppTunCoreUnavailable end in
  let restart :=
    MkCoreRestartStatus (restart_pending (status_restart status))
      (Z.min (restart_attempts (status_restart status)) u64_max)
      ((λ backoff, Z.min (backoff / 1000000) u64_max) <$> restart_backoff (status_restart status))
      ((λ category, match category with CoreRestartLimitReached => RestartLimitReached end)
         <$> restart_diagnostic (status_restart status)) in
  MkCoreHealth core
    (MkCoreStatus lifecycle (pid <$> core) (instance_generation <$> core) restart)
    (MkAppTunStatus true capable effective reason) degraded.

(** ** Status fields *)

Definition status_proxy_fields (s : SupervisorState) (now : Z)
  : option str * option SelectedNodeSummary * option LatencySample :=
  match sv_cached_proxy_view s with
  | None => (None, None, None)
  | Some view =>
      match primary_group view with
      | None => (None, None, None)
      | Some group =>
          let selection := group_selection view group in
          (Some (pg_name group),
           (λ n, MkSelectedNodeSummary (nsel_record_id n) (nsel_node_name n)) <$> selection,
           selection ≫= λ n, node_snapshot (sv_probes s) (nsel_record_id n) now ≫= pns_sample)
      end
  end.

Definition disconnected_stream_health : StreamHealthSet := disconnected_streams.

Definition ensure_telemetry (s : SupervisorState) (generation : Z)
  : result unit ApplicationError * SupervisorState :=
  let replaced t :=
    (Ok tt, set_stream_health disconnected_stream_health
              (set_telemetry_generation (Some generation) (set_telemetry (Some t) s))) in
  match sv_telemetry s, sv_telemetry_generation s with
  | Some telemetry, Some current =>
      if negb (current =? generation) then replaced (replace_core telemetry generation) else (Ok tt, s)
  | Some telemetry, None => replaced (replace_core telemetry generation)
  | None, _ =>
      match telemetry_new generation LOG_CAPACITY CORE_LOG_LINE_MAX_BYTES TRAFFIC_SERIES_CAPACITY with
      | Ok telemetry => replaced telemetry
      | Err _ => (Err internal_error, s)
      end
  end.

Definition refresh_is_stale (profiles : ProfileCatalog) (profile_id : Z) (context : RefreshContext) : bool :=
  match refresh_context profiles profile_id with
  | Err _ => true
  | Ok current =>
      negb (rctx_profile_revision current =? rctx_profile_revision context)
      || bool_decide (cat_active_profile_id profiles = Some profile_id)
         && negb (bool_decide (rctx_active_revision current = rctx_active_revision context))
  end.

Definition unavailable_traffic : TrafficSample := MkTrafficSample 0 0 None SampleUnavailable.

Definition initial_status_snapshot (started_at : Z) (profiles : ProfileCatalog)
    (runtime_generation : option Z) (runtime_apply : RuntimeApplySnapshot)
    (health_reasons : list SupervisorHealthReason) : StatusSnapshot :=
  let active := (λ p, MkActiveProfileSummary (p_id p) (p_name p)) <$> active_profile profiles in
  let unconfigured := match active with None => true | Some _ => false end in
  {| ss_supervisor :=
       MkSupervisorStatus (match health_reasons with [] => SupReady | _ => SupDegraded end)
         started_at 0 health_reasons;
     ss_core := MkCoreStatus (if unconfigured then CoreUnconfigured else CoreStopped) None None
                  default_restart_status;
     ss_tun := MkAppTunStatus true false false
                 (Some (if unconfigured then AppTunNoActiveProfile else AppTunCoreUnavailable));
     ss_active_profile := active;
     ss_primary_proxy_group := None;
     ss_selected_node := None;
     ss_latency := None;
     ss_traffic := unavailable_traffic;
     ss_connection_count := 0;
     ss_upload_total_bytes := 0;
     ss_download_total_bytes := 0;
     ss_memory_bytes := None;
     ss_connections := [];
     ss_runtime_generation := runtime_generation;
     ss_apply_state := compatibility_state (ras_phase runtime_apply);
     ss_runtime_apply := runtime_apply;
     ss_selection_restore_pending := false;
     ss_probe_queue := default_probe_queue;
     ss_stream_health := disconnected_stream_health |}.

Definition probe_queue_status (m : ProbeMetrics) : ProbeQueueStatus :=
  MkProbeQueueStatus (Z.min (pm_active_node_count m) u64_max) (Z.min (pm_queue_depth m) u64_max)
    (Z.min (pm_in_flight_count m) u64_max) (pm_overloaded m) (pm_oldest_due_age_ms m)
    (pm_estimated_full_pass_duration_ms m) (Z.min (pm_stale_node_count m) u64_max).

Definition empty_log_tail : Telemetry.LogTail := MkLogTail [] 0 false None None None.
