(* ===== verification/Supervisor.v ===== *)
(** * Supervisor: the commands on profiles, rules, proxies and telemetry
    (src/supervisor.rs, src/supervisor/ports.rs)

    The methods of [Supervisor] are programs over [SupCall]: its ports (clock,
    download, compiler, validator, transactions, core) and its own cells (the
    state's mutex, [apply_in_progress], [last_runtime_apply], [last_status]).
    Locking the state returns it and unlocking stores it back, so a function that
    takes [&mut SupervisorState] is a [sup]: it passes the state along.  Dropped
    guards are explicit calls, where Rust drops them.

    [DefaultHasher], UUID and URL printing, percent decoding, YAML and SHA-256
    are parameters; [UCompile] stands for [ConfigCompiler::compile] (see
    [Config]), which reads the provider files. *)

From stdpp Require Import finite.
From S2P Require Import Prelude Text Ordered Constants Path Yaml Domain Rule Profile Scheduler ProxyView Mihomo Telemetry Diagnostics ConfigData ConfigPolicy State Program Ports Transaction Request Application SupervisorTransactions SupervisorOutcomes Projections.
Local Open Scope Z_scope.

(** ** Ports *)

Record FetchedProfile := MkFetchedProfile {
  fp_body : bytes;
  fp_metadata_name : option str;
}.

Record ProfileFetchError := MkProfileFetchError {
  pfe_message : str;
  pfe_retryable : bool;
}.

Definition fetch_error_new (message : str) (retryable : bool) : ProfileFetchError :=
  MkProfileFetchError (bounded_message message) retryable.

Inductive TryGuard := Guarded (s : SupervisorState) | GuardWouldBlock | GuardPoisoned.

Inductive SupCall : Type → Type :=
| UNow : SupCall Z
| UNewProfileId : SupCall Z
| UFetch (url : Url) : SupCall (result FetchedProfile ProfileFetchError)
| UWorkspace (profile_id : Z) : SupCall (result path unit)
| UCompile (snapshot : ProfileSnapshot) (rules : list str) (workspace : path)
  : SupCall (result EffectiveConfiguration ConfigError)
| UValidate (configuration : EffectiveConfiguration) (workspace : path) : SupCall (result unit unit)
| UApply (r : SupervisorTransactionRequest) (fail_fast : bool)
  : SupCall (result ConfigTransactionSuccess SupervisorTransactionFailure)
| UReserve : SupCall (result unit SupervisorTransactionFailure)
| UReservedApply (r : SupervisorTransactionRequest)
  : SupCall (result ConfigTransactionSuccess SupervisorTransactionFailure)
| URelease : SupCall unit
| UPersist (r : SupervisorTransactionRequest) : SupCall (result unit SupervisorTransactionFailure)
| UStagingRoot : SupCall (result unit unit)
| ULoadCommitted : SupCall (result (option HydratedState) unit)
| UValidatePersisted (snapshot : ProfileSnapshot) (rules : list str) (persisted : bytes) (workspace : path)
  : SupCall (result unit ConfigError)
| UPrepareStartup (committed_generation : option Z) : SupCall (result Z SupervisorTransactionFailure)
| UApplyStartup (r : SupervisorTransactionRequest)
  : SupCall (result ConfigTransactionSuccess SupervisorTransactionFailure)
| USetRevisions (revisions : CandidateRevisions) : SupCall unit
| URuntimeStatus : SupCall (result CoreRuntimeStatus unit)
| UProxyView (core : ManagedCoreHandle) (order : list str) : SupCall (result ProxyView unit)
| USelectNode (core : ManagedCoreHandle) (selection : NodeSelection) : SupCall (result unit unit)
| UCancelSource : SupCall unit
| UCancelValidator : SupCall unit
| UCancelTransactions : SupCall unit
| UCancelCore : SupCall unit
| ULock : SupCall (result SupervisorState unit)
| UTryLock : SupCall TryGuard
| UUnlock (s : SupervisorState) : SupCall unit
| USetApplying (in_progress : bool) : SupCall unit
| UApplying : SupCall bool
| USetLastApply (snapshot : RuntimeApplySnapshot) : SupCall unit
| ULastApply : SupCall RuntimeApplySnapshot
| USetLastStatus (status : StatusSnapshot) : SupCall (result unit unit)
| ULastStatus : SupCall (result StatusSnapshot unit).

Abbreviation sprog := (tree SupCall).

(** ** Programs with the state *)

Definition sup (A : Type) : Type := SupervisorState → sprog (A * SupervisorState).

Definition sup_ret {A} (x : A) : sup A := λ s, Ret (x, s).
Definition sup_bind {A B} (m : sup A) (k : A → sup B) : sup B := λ s,
  prog_bind (m s) (λ p, k p.1 p.2).
(** A program that leaves the state alone. *)
Definition sup_lift {A} (p : sprog A) : sup A := λ s, prog_bind p (λ x, Ret (x, s)).
Definition sup_call {A} (c : SupCall A) : sup A := sup_lift (call c).
Definition sup_get {A} (f : SupervisorState → A) : sup A := λ s, Ret (f s, s).
Definition sup_modify (f : SupervisorState → SupervisorState) : sup unit := λ s, Ret (tt, f s).
(** A pure [&mut self] method of a part of the state. *)
Definition sup_run {A} (f : SupervisorState → A * SupervisorState) : sup A := λ s, Ret (f s).

Notation "'let%' x ':=' m 'in' k" := (sup_bind m (λ x, k))
  (at level 10, x name, m at level 100, k at level 200,
   format "'[v' 'let%'  x  ':='  m  'in' '/' k ']'") : rust_scope.
Notation "'then%' m 'in' k" := (sup_bind m (λ _, k))
  (at level 10, m at level 100, k at level 200,
   format "'[v' 'then%'  m  'in' '/' k ']'") : rust_scope.
Definition sup_try {A B E} (m : sup (result A E)) (k : A → sup (result B E)) : sup (result B E) :=
  sup_bind m (λ r, match r with Ok x => k x | Err e => sup_ret (Err e) end).
Notation "'try%' x ':=' m 'in' k" := (sup_try m (λ x, k))
  (at level 10, x name, m at level 100, k at level 200,
   format "'[v' 'try%'  x  ':='  m  'in' '/' k ']'") : rust_scope.
Notation "'do%' m 'in' k" := (sup_try m (λ _, k))
  (at level 10, m at level 100, k at level 200,
   format "'[v' 'do%'  m  'in' '/' k ']'") : rust_scope.
Definition sup_map_err {A E F} (f : E → F) (m : sup (result A E)) : sup (result A F) :=
  sup_bind m (λ r, sup_ret (map_err f r)).
(** [o.ok_or_else(internal_error)?] *)
Definition sup_some {A} (o : option A) : sup (result A ApplicationError) :=
  sup_ret (ok_or o internal_error).

(** [self.state.lock().map_err(|_| internal_error())?], to the end of the scope. *)
Definition locked {A} (body : sup (result A ApplicationError)) : sprog (result A ApplicationError) :=
  let* guard := call ULock in
  match guard with
  | Err _ => Ret (Err internal_error)
  | Ok s =>
      let* r := body s in
      let* _u := call (UUnlock r.2) in
      Ret r.1
  end.

(** ** Helpers *)

Inductive ProfileRefreshDisposition := ActiveApplied | InactiveStored | Discarded.
Inductive TelemetryStream := StreamTraffic | StreamConnections | StreamLogs.

Record ScheduledProbe := MkScheduledProbe {
  sp_task : ProbeTask;
  sp_request : option DelayProbeRequest;
}.

Inductive RuleMutation :=
| MutationAdd (rule : str) (placement : Rule.RulePlacement)
| MutationReplace (old_rule new_rule : str)
| MutationRemove (rule : str).

Definition current_revisions (profiles : ProfileCatalog) (local_rules : LocalRuleSet)
    (configuration : option EffectiveConfiguration) : CandidateRevisions :=
  MkCandidateRevisions
    (match active_profile profiles with Some p => p_revision p | None => 0 end)
    (cat_active_revision profiles) (revision local_rules)
    (match configuration with Some c => cfg_compiler_policy_sha256 c | None => [] end)
    (match configuration with Some c => cfg_core_version c | None => [] end).

Definition rule_strings (local_rules : LocalRuleSet) : result (list str) ApplicationError :=
  let? list := map_err (λ _, invalid_rule_error) (list_rules local_rules) in
  if negb (list_initialized list)
  then Err (app_error ERulesUninitialized (lit "The Local Rule Set is uninitialized") false)
  else Ok (entry_rule <$> list_entries list).

Definition clone_rule_set (local_rules : LocalRuleSet) : result LocalRuleSet ApplicationError :=
  let? list := map_err (λ _, invalid_rule_error) (list_rules local_rules) in
  if negb (list_initialized list) then Ok uninitialized
  else Ok (initialized_at (entry_rule <$> list_entries list) (revision local_rules)).

Definition next_runtime_generation (current : option Z) : result Z ApplicationError :=
  ok_or (match current with None => Some 1 | Some generation => checked_add generation 1 end)
    internal_error.

Definition next_refresh_at (now : Z) : Z := saturating_add now (duration_ms PROFILE_REFRESH_INTERVAL).

Definition refresh_limits : SnapshotLimits := MkSnapshotLimits PROFILE_RESPONSE_MAX_BYTES YAML_MAX_DEPTH.

(** [profiles.get_mut(id)] and an assignment through it. *)
Definition update_profile (profiles : ProfileCatalog) (id : Z) (f : Profile → Profile) : option ProfileCatalog :=
  p ← cat_profiles profiles !! id;
  Some (MkProfileCatalog (<[id := f p]> (cat_profiles profiles)) (cat_active_profile_id profiles)
          (cat_active_revision profiles)).

Definition with_selection (group record_id : str) (p : Profile) : Profile :=
  MkProfile (p_id p) (p_name p) (p_subscription_url p) (p_snapshot p) (p_revision p)
    (p_last_success_at p) (p_last_error p) (p_next_refresh_at p) (<[group := record_id]> (p_selections p)).
Definition with_failure (stage : RefreshStage) (message : str) (next_at : Z) (p : Profile) : Profile :=
  MkProfile (p_id p) (p_name p) (p_subscription_url p) (p_snapshot p) (p_revision p)
    (p_last_success_at p) (Some (MkRefreshFailure stage message)) next_at (p_selections p).

Section supervisor.
Context `{YamlCrate} (sha256 : bytes → bytes).
Context (uuid_to_string : Z → str) (uuid_parse : str → option Z).
Context (url_as_str : Url → str) (percent_decode : str → str).
Context (hasher : list HashItem → Z).

(** *** Health *)

Definition set_health_reason (reason : SupervisorHealthReason) (active : bool) : sup unit :=
  let% reasons := sup_get sv_health_reasons in
  let changed := if active then bool_decide (reason ∉ reasons) else bool_decide (reason ∈ reasons) in
  then% sup_modify (set_health_reasons (if active then {[reason]} ∪ reasons else reasons ∖ {[reason]})) in
  if negb changed then sup_ret tt
  else
    let% context := sup_get (λ s, wrapper_diagnostic_context s reason) in
    let% now := sup_call UNow in
    sup_run (λ s,
      (tt, set_wrapper_diagnostics
             (ring_record (sv_wrapper_diagnostics s) now (category_from reason)
                (if active then Raised else Cleared) context).2 s)).

Definition effective_group_order_with_health : sup (result (list str) ApplicationError) :=
  let% order := sup_get (λ s, effective_group_order (sv_profiles s)) in
  match order with
  | Ok order => then% set_health_reason ReasonConfigurationProjection false in sup_ret (Ok order)
  | Err error => then% set_health_reason ReasonConfigurationProjection true in sup_ret (Err error)
  end.

(** *** Runtime reconciliation *)

Definition set_restore (pending : bool) (attempts : Z) : sup unit :=
  sup_modify (λ s, set_selection_restore_attempts_remaining attempts (set_selection_restore_pending pending s)).

Definition begin_selection_restore : sup unit :=
  let% profiles := sup_get sv_profiles in
  match cat_active_profile_id profiles with
  | None =>
      then% set_restore false 0 in
      set_health_reason ReasonSelectionRestoration false
  | Some active_id =>
      let has_selections := match cat_profiles profiles !! active_id with
                            | Some profile => negb (bool_decide (p_selections profile = ∅))
                            | None => false
                            end in
      then% set_restore has_selections (if has_selections then SELECTION_RESTORE_ATTEMPT_LIMIT else 0) in
      if negb has_selections then set_health_reason ReasonSelectionRestoration false else sup_ret tt
  end.

Definition consume_selection_restore_attempt : sup unit :=
  let% pending := sup_get sv_selection_restore_pending in
  if negb pending then sup_ret tt
  else
    then% sup_modify (λ s, set_selection_restore_attempts_remaining
                             (saturating_sub (sv_selection_restore_attempts_remaining s) 1) s) in
    let% remaining := sup_get sv_selection_restore_attempts_remaining in
    if remaining =? 0 then
      then% sup_modify (set_selection_restore_pending false) in
      set_health_reason ReasonSelectionRestoration true
    else sup_ret tt.

(** The loop over the selections: whether one is still pending. *)
Fixpoint restore_loop (core : ManagedCoreHandle) (view : ProxyView) (selections : list (str * str))
    (pending : bool) : sup bool :=
  match selections with
  | [] => sup_ret pending
  | (group, node_id) :: rest =>
      match selection_by_selector view group node_id with
      | Ok selection =>
          let% selected := sup_call (USelectNode core selection) in
          restore_loop core view rest (if is_ok selected then pending else true)
      | Err _ => restore_loop core view rest true
      end
  end.

Definition restore_active_selections (core : ManagedCoreHandle) (view : ProxyView) : sup unit :=
  let% profiles := sup_get sv_profiles in
  match cat_active_profile_id profiles with
  | None =>
      then% set_restore false 0 in
      set_health_reason ReasonSelectionRestoration false
  | Some active_id =>
      let selections := match cat_profiles profiles !! active_id with
                        | Some profile => p_selections profile
                        | None => ∅
                        end in
      let% pending := restore_loop core view (btree_iter selections) false in
      then% sup_modify (set_selection_restore_pending pending) in
      if pending then consume_selection_restore_attempt
      else
        then% sup_modify (set_selection_restore_attempts_remaining 0) in
        set_health_reason ReasonSelectionRestoration false
  end.

Definition seed_probes (core_generation : Z) (view : ProxyView) : sup unit :=
  then% sup_modify (λ s, set_next_probe_generation
                           (Z.max (saturating_add (sv_next_probe_generation s) 1) 1) s) in
  let% generation := sup_get sv_next_probe_generation in
  let nodes := pn_record_id <$> filter (λ n, probe_eligible_node n = true) (btree_values (pv_nodes view)) in
  let% now := sup_call UNow in
  let% outcome := sup_run (λ s, let '(r, probes) := reset (sv_probes s) generation nodes now in
                                (r, set_probes probes s)) in
  if is_ok outcome then
    then% sup_modify (set_probe_core_generation (Some core_generation)) in
    set_health_reason ReasonProbeScheduler false
  else
    then% sup_modify (λ s, set_probe_core_generation None (set_probes (deactivate (sv_probes s)) s)) in
    set_health_reason ReasonProbeScheduler true.

Definition forget_core (observed : option Z) : sup unit :=
  sup_modify (λ s,
    set_probes (deactivate (sv_probes s))
      (set_cached_proxy_view None (set_probe_core_generation None (set_observed_core_generation observed s)))).

Definition reconcile_with_core (core : ManagedCoreHandle) : sup unit :=
  let% observed := sup_get sv_observed_core_generation in
  then% (if bool_decide (observed = Some (instance_generation core)) then sup_ret tt
         else
           then% forget_core (Some (instance_generation core)) in
           begin_selection_restore) in
  let% settled := sup_get (λ s,
    bool_decide (sv_probe_core_generation s = Some (instance_generation core))
    && negb (sv_selection_restore_pending s)
    && bool_decide (is_Some (sv_cached_proxy_view s))) in
  if settled then sup_ret tt
  else
    let% order := effective_group_order_with_health in
    match order with
    | Err _ => sup_ret tt
    | Ok order =>
        let% view := sup_call (UProxyView core order) in
        match view with
        | Err _ => consume_selection_restore_attempt
        | Ok view =>
            then% sup_modify (set_cached_proxy_view (Some view)) in
            let% seeded := sup_get (λ s,
              bool_decide (sv_probe_core_generation s = Some (instance_generation core))) in
            then% (if seeded then sup_ret tt else seed_probes (instance_generation core) view) in
            let% pending := sup_get sv_selection_restore_pending in
            if pending then restore_active_selections core view else sup_ret tt
        end
    end.

Definition reconcile_runtime_state_locked : sup unit :=
  let% active := sup_get (λ s, cat_active_profile_id (sv_profiles s)) in
  match active with
  | None =>
      then% forget_core None in
      then% set_restore false 0 in
      then% set_health_reason ReasonConfigurationProjection false in
      then% set_health_reason ReasonProbeScheduler false in
      set_health_reason ReasonSelectionRestoration false
  | Some _ =>
      let% restart := sup_get (λ s,
        negb (sv_selection_restore_pending s)
        && bool_decide (ReasonSelectionRestoration ∈ sv_health_reasons s)) in
      then% (if restart then begin_selection_restore else sup_ret tt) in
      let% status := sup_call URuntimeStatus in
      match result_ok status ≫= managed_core with
      | None =>
          let% observed := sup_get sv_observed_core_generation in
          then% (match observed with
                 | Some _ => then% forget_core None in begin_selection_restore
                 | None => sup_ret tt
                 end) in
          consume_selection_restore_attempt
      | Some core => reconcile_with_core core
      end
  end.

Definition reset_runtime_state : sup unit :=
  then% sup_modify (λ s, set_cached_proxy_view None (set_probe_core_generation None
                           (set_observed_core_generation None s))) in
  then% begin_selection_restore in
  reconcile_runtime_state_locked.

Definition reconcile_runtime_state : sprog (result unit ApplicationError) :=
  locked (then% reconcile_runtime_state_locked in sup_ret (Ok tt)).

Definition retry_selection_restore : sprog (result bool ApplicationError) :=
  locked (
    let% restart := sup_get (λ s,
      negb (sv_selection_restore_pending s)
      && bool_decide (ReasonSelectionRestoration ∈ sv_health_reasons s)) in
    then% (if restart then begin_selection_restore else sup_ret tt) in
    then% reconcile_runtime_state_locked in
    sup_get (λ s, Ok (negb (sv_selection_restore_pending s)
                      && negb (bool_decide (ReasonSelectionRestoration ∈ sv_health_reasons s))))).

(** *** Transactions *)

Definition compile (profile : Profile) (rules : list str) : sup (result EffectiveConfiguration ApplicationError) :=
  try% workspace := sup_map_err (λ _, internal_error) (sup_call (UWorkspace (p_id profile))) in
  sup_map_err map_config_error (sup_call (UCompile (p_snapshot profile) rules workspace)).

Definition validate_configuration (configuration : EffectiveConfiguration) (profile_id : Z)
  : sup (result unit ApplicationError) :=
  try% workspace := sup_map_err (λ _, internal_error) (sup_call (UWorkspace profile_id)) in
  sup_map_err (λ _, app_error EExternalOperationFailed (lit "Mihomo rejected the Profile Snapshot") false)
    (sup_call (UValidate configuration workspace)).

Definition transaction_request (profiles : ProfileCatalog) (local_rules : LocalRuleSet)
    (configuration : EffectiveConfiguration) (generation : Z) : SupervisorTransactionRequest :=
  MkTransactionRequest profiles local_rules configuration generation
    (current_revisions profiles local_rules (Some configuration)).

Definition apply_candidate (profiles : ProfileCatalog) (local_rules : LocalRuleSet)
    (configuration : EffectiveConfiguration) (generation : Z) (fail_fast : bool)
  : sup (result ConfigTransactionSuccess SupervisorTransactionFailure) :=
  sup_call (UApply (transaction_request profiles local_rules configuration generation) fail_fast).

(** With the configuration and the generation of the state. *)
Definition persist_metadata (profiles : ProfileCatalog) (local_rules : LocalRuleSet)
  : sup (result unit ApplicationError) :=
  let% state := sup_get (λ s, (sv_effective_configuration s, sv_runtime_generation s)) in
  try% configuration := sup_some state.1 in
  try% generation := sup_some state.2 in
  sup_map_err map_transaction_error
    (sup_call (UPersist (transaction_request profiles local_rules configuration generation))).

Definition begin_apply (candidate_generation : Z) (committed_generation : option Z) : sup unit :=
  then% sup_call (USetLastApply (MkRuntimeApplySnapshot (Some candidate_generation) committed_generation
                                   PhaseApplying default_recovery_snapshot)) in
  sup_call (USetApplying true).

(** [ApplyActivity::drop] *)
Definition end_apply : sup unit := sup_call (USetApplying false).

Definition current_runtime_apply : sprog RuntimeApplySnapshot :=
  let* status := call ULastApply in
  let* in_progress := (call UApplying : sprog bool) in
  Ret (if in_progress
       then MkRuntimeApplySnapshot (ras_candidate_generation status) (ras_committed_generation status)
              PhaseApplying (ras_recovery status)
       else status).

Definition settle_transaction (result : result ConfigTransactionSuccess SupervisorTransactionFailure)
  : sup (Prelude.result ConfigTransactionSuccess ApplicationError) :=
  match result with
  | Ok success =>
      then% set_health_reason ReasonRuntimeRecovery (recovery_requires_degraded (success_recovery success)) in
      then% sup_call (USetLastApply (successful_runtime_apply_snapshot success)) in
      sup_ret (Ok success)
  | Err error =>
      then% set_health_reason ReasonRuntimeRecovery (recovery_requires_degraded (tf_recovery error)) in
      then% sup_call (USetLastApply (failed_runtime_apply_snapshot error)) in
      sup_ret (Err (map_transaction_error error))
  end.

(** [state.effective_configuration = ..; state.runtime_generation = ..] *)
Definition adopt (configuration : EffectiveConfiguration) (success : ConfigTransactionSuccess) : sup unit :=
  sup_modify (λ s,
    set_runtime_generation (Some (success_committed_generation success))
      (set_effective_configuration (Some configuration) s)).

Definition upsert_refresh (profile_id revision next_at : Z) : sup unit :=
  sup_modify (λ s, set_refreshes (upsert (sv_refreshes s) profile_id revision next_at) s).

(** *** Profile refresh *)

Definition record_failure_locked (profile_id : Z) (context : RefreshContext) (stage : RefreshStage)
    (message : str) : sup (result unit ApplicationError) :=
  let% profiles := sup_get sv_profiles in
  if refresh_is_stale profiles profile_id context then sup_ret (Ok tt)
  else
    do% sup_some (cat_profiles profiles !! profile_id) in
    let% now := sup_call UNow in
    try% updated := sup_some (update_profile profiles profile_id
                                (with_failure stage (bounded_message message) (next_refresh_at now))) in
    let% local_rules := sup_get sv_local_rules in
    do% persist_metadata updated local_rules in
    then% sup_modify (set_profiles updated) in
    try% profile := sup_some (cat_profiles updated !! profile_id) in
    then% upsert_refresh profile_id (p_revision profile) (p_next_refresh_at profile) in
    sup_ret (Ok tt).

Definition record_refresh_failure (profile_id : Z) (context : RefreshContext) (stage : RefreshStage)
    (message : str) : sprog (result unit ApplicationError) :=
  locked (record_failure_locked profile_id context stage message).

(** What the second locked section of [refresh_profile] leaves to do once the
    guard is dropped: return, or record a failure and then return; [applying]
    says that [_apply], which is dropped after that, exists. *)
Inductive RefreshStep :=
| StepDone (disposition : ProfileRefreshDisposition)
| StepFailed (stage : RefreshStage) (error : ApplicationError) (applying : bool).

Definition refresh_active (profile_id : Z) (context : RefreshContext) (snapshot : ProfileSnapshot)
    (now next_refresh : Z) : sup (result RefreshStep ApplicationError) :=
  let% state := sup_get (λ s, s) in
  let '(committed, profiles) := commit_refresh (sv_profiles state) profile_id context snapshot now next_refresh in
  do% sup_ret (map_err (λ _, internal_error) committed) in
  try% active := sup_some (cat_profiles profiles !! profile_id) in
  try% rules := sup_ret (rule_strings (sv_local_rules state)) in
  let% compiled := compile active rules in
  match compiled with
  | Err error => sup_ret (Ok (StepFailed Profile.Validate error false))
  | Ok configuration =>
      try% generation := sup_ret (next_runtime_generation (sv_runtime_generation state)) in
      then% begin_apply generation (sv_runtime_generation state) in
      let% result := apply_candidate profiles (sv_local_rules state) configuration generation false in
      let failure_stage := match result with
                           | Ok _ => Profile.Apply
                           | Err failure => refresh_stage_for_transaction_failure failure
                           end in
      let% settled := settle_transaction result in
      match settled with
      | Err error => sup_ret (Ok (StepFailed failure_stage error true))
      | Ok success =>
          then% sup_modify (set_profiles profiles) in
          then% adopt configuration success in
          let% profile := sup_some (cat_profiles profiles !! profile_id) in
          match profile with
          | Err error => then% end_apply in sup_ret (Err error)
          | Ok profile =>
              then% upsert_refresh profile_id (p_revision profile) next_refresh in
              then% reset_runtime_state in
              then% end_apply in
              sup_ret (Ok (StepDone ActiveApplied))
          end
      end
  end.

Definition refresh_inactive (profile_id : Z) (context : RefreshContext) (snapshot : ProfileSnapshot)
    (now next_refresh : Z) : sup (result RefreshStep ApplicationError) :=
  let rules := snap_rule_strings snapshot in
  let% profiles := sup_get sv_profiles in
  try% profile := sup_some (cat_profiles profiles !! profile_id) in
  let validation_profile :=
    profile_new profile_id (p_name profile) (p_subscription_url profile) snapshot now next_refresh in
  let% compiled := compile validation_profile rules in
  match compiled with
  | Err error => sup_ret (Ok (StepFailed Profile.Validate error false))
  | Ok configuration =>
      let% validated := validate_configuration configuration profile_id in
      match validated with
      | Err error => sup_ret (Ok (StepFailed Profile.Validate error false))
      | Ok _ =>
          let '(committed, updated) := commit_refresh profiles profile_id context snapshot now next_refresh in
          try% revision := sup_ret (map_err (λ _, internal_error) committed) in
          let% local_rules := sup_get sv_local_rules in
          do% persist_metadata updated local_rules in
          then% sup_modify (set_profiles updated) in
          then% upsert_refresh profile_id revision next_refresh in
          sup_ret (Ok (StepDone InactiveStored))
      end
  end.

Definition refresh_commit (profile_id : Z) (context : RefreshContext) (snapshot : ProfileSnapshot)
  : sup (result RefreshStep ApplicationError) :=
  let% profiles := sup_get sv_profiles in
  if refresh_is_stale profiles profile_id context then sup_ret (Ok (StepDone Discarded))
  else
    let% now := sup_call UNow in
    if bool_decide (cat_active_profile_id profiles = Some profile_id)
    then refresh_active profile_id context snapshot now (next_refresh_at now)
    else refresh_inactive profile_id context snapshot now (next_refresh_at now).

(** The first locked section: [None] is the early return of [Discarded]. *)
Definition refresh_begin (profile_id : Z) : sup (result (option (RefreshContext * Url)) ApplicationError) :=
  let% profiles := sup_get sv_profiles in
  match refresh_context profiles profile_id with
  | Err _ => sup_ret (Ok None)
  | Ok context =>
      try% profile := sup_some (cat_profiles profiles !! profile_id) in
      sup_ret (Ok (Some (context, p_subscription_url profile)))
  end.

Definition refresh_profile (profile_id : Z) : sprog (result ProfileRefreshDisposition ApplicationError) :=
  try* begun := locked (refresh_begin profile_id) in
  match begun with
  | None => Ret (Ok Discarded)
  | Some (context, url) =>
      let* fetched := call (UFetch url) in
      match fetched with
      | Err error =>
          do* record_refresh_failure profile_id context Profile.Download (pfe_message error) in
          Ret (Err (app_error EExternalOperationFailed (pfe_message error) (pfe_retryable error)))
      | Ok fetched =>
          match snapshot_parse yaml_from_slice sha256 (fp_body fetched) refresh_limits with
          | Err _ =>
              do* record_refresh_failure profile_id context Profile.Parse
                    (lit "The refreshed Profile Snapshot is invalid") in
              Ret (Err (app_error EExternalOperationFailed
                          (lit "The refreshed Profile Snapshot is invalid") false))
          | Ok snapshot =>
              try* step := locked (refresh_commit profile_id context snapshot) in
              match step with
              | StepDone disposition => Ret (Ok disposition)
              | StepFailed stage error applying =>
                  let* recorded := record_refresh_failure profile_id context stage (ae_message error) in
                  let* _u := if applying then call (USetApplying false) else Ret tt in
                  Ret (let? _u := recorded in Err error)
              end
          end
      end
  end.

Definition take_due_refreshes : sprog (result (list RefreshTask) ApplicationError) :=
  locked (
    let% now := sup_call UNow in
    sup_run (λ s, let '(tasks, refreshes) := refresh_take_due (sv_refreshes s) now in
                  (Ok tasks, set_refreshes refreshes s))).

Definition complete_refresh (task : RefreshTask) : sup (result bool ApplicationError) :=
  let% now := sup_call UNow in
  let% status := sup_run (λ s,
    let '(status, refreshes) :=
      refresh_complete (sv_refreshes s) (MkRefreshCompletion task (rt_profile_revision task) now) in
    (status, set_refreshes refreshes s)) in
  sup_ret (Ok (match status with RefreshRescheduled _ => true | _ => false end)).

Definition execute_refresh_task (task : RefreshTask)
  : sprog (result ProfileRefreshDisposition ApplicationError) :=
  try* rescheduled := locked (complete_refresh task) in
  if rescheduled then refresh_profile (rt_profile_id task) else Ret (Ok Discarded).

Definition cancel_pending_mutations : sprog unit :=
  let* _u := call UCancelSource in
  let* _u := call UCancelValidator in
  let* _u := call UCancelTransactions in
  call UCancelCore.

Definition cancel_pending_profile_downloads : sprog unit := call UCancelSource.

(** *** Probes and telemetry *)

Definition scheduled_probe (view : option ProxyView) (task : ProbeTask) : ScheduledProbe :=
  MkScheduledProbe task
    ((λ node, MkDelayProbeRequest (pn_record_id node) (target_from_node node) PROBE_URL
                (Z.min PROBE_TIMEOUT u64_max))
       <$> (view ≫= λ view, pv_nodes view !! pt_node_id task)).

Definition take_due_probes : sprog (result (list ScheduledProbe) ApplicationError) :=
  locked (
    let% now := sup_call UNow in
    let% tasks := sup_run (λ s, let '(tasks, probes) := probe_take_due (sv_probes s) now in
                                (tasks, set_probes probes s)) in
    let% view := sup_get sv_cached_proxy_view in
    sup_ret (Ok (scheduled_probe view <$> tasks))).

Definition complete_probe (completion : ProbeCompletion) : sprog (result ProbeCompletionStatus ApplicationError) :=
  locked (sup_run (λ s, let '(status, probes) := probe_complete (sv_probes s) completion in
                        (Ok status, set_probes probes s))).

Definition managed_core_handle : sprog (result (option ManagedCoreHandle) ApplicationError) :=
  locked (
    let% active := sup_get (λ s, cat_active_profile_id (sv_profiles s)) in
    match active with
    | None => sup_ret (Ok None)
    | Some _ =>
        try% status := sup_map_err (λ _, core_error (lit "The Managed Core is unavailable"))
                         (sup_call URuntimeStatus) in
        match managed_core status with
        | None => sup_ret (Ok None)
        | Some core =>
            do% sup_run (λ s, ensure_telemetry s (instance_generation core)) in
            sup_ret (Ok (Some core))
        end
    end).

Definition set_stream_state (generation : Z) (stream : TelemetryStream) (stream_state : StreamState)
  : sprog (result bool ApplicationError) :=
  locked (
    let% current := sup_get sv_telemetry_generation in
    if negb (bool_decide (current = Some generation)) then sup_ret (Ok false)
    else
      then% sup_modify (λ s,
        let h := sv_stream_health s in
        set_stream_health
          (match stream with
           | StreamTraffic => MkStreamHealthSet stream_state (shs_connections h) (shs_logs h)
           | StreamConnections => MkStreamHealthSet (shs_traffic h) stream_state (shs_logs h)
           | StreamLogs => MkStreamHealthSet (shs_traffic h) (shs_connections h) stream_state
           end) s) in
      sup_ret (Ok true)).

(** A method of the telemetry store, [missing] when there is none. *)
Definition with_telemetry {A} (missing : A) (f : TelemetryStore → A * TelemetryStore) : sup A :=
  sup_run (λ s,
    match sv_telemetry s with
    | Some telemetry => let '(r, telemetry) := f telemetry in (r, set_telemetry (Some telemetry) s)
    | None => (missing, s)
    end).

Definition publish_traffic (generation : Z) (sample : TrafficSample) : sprog (result bool ApplicationError) :=
  locked (
    let% published := with_telemetry false (λ t, Telemetry.publish_traffic t generation sample) in
    sup_ret (Ok published)).

Definition publish_connections (generation : Z) (summary : ConnectionSummary)
  : sprog (result bool ApplicationError) :=
  locked (
    let% published := with_telemetry false (λ t,
      Telemetry.publish_connections t generation (cs_active_connections summary)
        (cs_upload_total_bytes summary) (cs_download_total_bytes summary) (cs_memory_bytes summary)
        (cs_connections summary)) in
    sup_ret (Ok published)).

Definition publish_core_log (generation timestamp : Z) (level : LogLevel) (source : LogSource) (message : str)
  : sprog (result bool ApplicationError) :=
  locked (
    let% published := with_telemetry (Ok false) (λ t, publish_log t generation timestamp level source message) in
    sup_ret (map_err (λ _, internal_error) published)).

Definition record_core_log_drop (generation count : Z) : sprog (result bool ApplicationError) :=
  locked (
    let% recorded := with_telemetry (Ok false) (λ t, record_log_drop t generation count) in
    sup_ret (map_err (λ _, internal_error) recorded)).

Definition core_log_tail (after_sequence : option Z) : sprog (result Telemetry.LogTail ApplicationError) :=
  locked (sup_get (λ s, Ok (match sv_telemetry s with
                            | Some telemetry => tail_after (logs telemetry) after_sequence
                            | None => empty_log_tail
                            end))).

Definition wrapper_diagnostic_tail (after_sequence : option Z)
  : sprog (result WrapperDiagnosticTail ApplicationError) :=
  locked (sup_get (λ s,
    map_err (λ _, internal_error)
      (ring_tail_after (sv_wrapper_diagnostics s) after_sequence WRAPPER_DIAGNOSTIC_CAPACITY))).

(** *** Status *)

Definition uptime_seconds (started_at now : Z) : Z := saturating_sub now started_at / 1000.

Definition status_fresh (started_at : Z) : sup (result StatusSnapshot ApplicationError) :=
  let% active := sup_get (λ s, cat_active_profile_id (sv_profiles s)) in
  let% core_health :=
    (match active with
     | None => sup_ret core_health_unconfigured
     | Some _ =>
         let% status := sup_call URuntimeStatus in
         sup_ret (match status with
                  | Ok status => core_health_from_runtime status
                  | Err _ => core_health_unavailable
                  end)
     end) in
  let core := ch_managed_core core_health in
  do% (match core with
       | Some core => sup_run (λ s, ensure_telemetry s (instance_generation core))
       | None => sup_ret (Ok tt)
       end) in
  let% now := sup_call UNow in
  let uptime := uptime_seconds started_at now in
  then% (match core with
         | None => sup_ret tt
         | Some core =>
             let% order := effective_group_order_with_health in
             match order with
             | Err _ => sup_ret tt
             | Ok order =>
                 let% view := sup_call (UProxyView core order) in
                 match view with
                 | Ok view => sup_modify (set_cached_proxy_view (Some view))
                 | Err _ => sup_ret tt
                 end
             end
         end) in
  let% fields_now := sup_call UNow in
  let% fields := sup_get (λ s, status_proxy_fields s fields_now) in
  let% metrics_now := sup_call UNow in
  let% runtime_apply := sup_lift current_runtime_apply in
  let% status := sup_get (λ s,
    let telemetry := sv_telemetry s in
    {| ss_supervisor :=
         MkSupervisorStatus
           (if negb (bool_decide (sv_health_reasons s = ∅)) || ch_degraded core_health
            then SupDegraded else SupReady)
           started_at uptime (reasons_iter (sv_health_reasons s));
       ss_core := ch_core core_health;
       ss_tun := ch_tun core_health;
       ss_active_profile :=
         (λ p, MkActiveProfileSummary (p_id p) (p_name p))
           <$> (active ≫= λ id, cat_profiles (sv_profiles s) !! id);
       ss_primary_proxy_group := fields.1.1;
       ss_selected_node := fields.1.2;
       ss_latency := fields.2;
       ss_traffic := default unavailable_traffic (telemetry ≫= latest_traffic);
       ss_connection_count := default 0 (telemetry ≫= connection_count);
       ss_upload_total_bytes := default 0 (telemetry ≫= upload_total_bytes);
       ss_download_total_bytes := default 0 (telemetry ≫= download_total_bytes);
       ss_memory_bytes := telemetry ≫= memory_bytes;
       ss_connections := match telemetry with Some t => connections t | None => [] end;
       ss_runtime_generation := sv_runtime_generation s;
       ss_apply_state := compatibility_state (ras_phase runtime_apply);
       ss_runtime_apply := runtime_apply;
       ss_selection_restore_pending := sv_selection_restore_pending s;
       ss_probe_queue := probe_queue_status (metrics (sv_probes s) metrics_now);
       ss_stream_health := sv_stream_health s |}) in
  let% stored := sup_call (USetLastStatus status) in
  match stored with
  | Ok _ => sup_ret (Ok status)
  | Err _ => sup_ret (Err internal_error)
  end.

(** [status.clone()] with four fields assigned. *)
Definition status_refreshed (status : StatusSnapshot) (uptime : Z) (runtime_apply : RuntimeApplySnapshot)
  : StatusSnapshot :=
  let sup := ss_supervisor status in
  MkStatusSnapshot
    (MkSupervisorStatus (sst_lifecycle sup) (sst_started_at_unix_ms sup) uptime (sst_health_reasons sup))
    (ss_core status) (ss_tun status) (ss_active_profile status) (ss_primary_proxy_group status)
    (ss_selected_node status) (ss_latency status) (ss_traffic status) (ss_connection_count status)
    (ss_upload_total_bytes status) (ss_download_total_bytes status) (ss_memory_bytes status)
    (ss_connections status) (ss_runtime_generation status)
    (compatibility_state (ras_phase runtime_apply)) runtime_apply
    (ss_selection_restore_pending status) (ss_probe_queue status) (ss_stream_health status).

Definition status (started_at : Z) : sprog (result StatusSnapshot ApplicationError) :=
  let* guard := call UTryLock in
  match guard with
  | GuardWouldBlock =>
      let* last := call ULastStatus in
      match last with
      | Err _ => Ret (Err internal_error)
      | Ok status =>
          let* now := call UNow in
          let* runtime_apply := current_runtime_apply in
          Ret (Ok (status_refreshed status (uptime_seconds started_at now) runtime_apply))
      end
  | GuardPoisoned => Ret (Err internal_error)
  | Guarded s =>
      let* r := status_fresh started_at s in
      let* _u := call (UUnlock r.2) in
      Ret r.1
  end.

(** *** Profiles *)

Definition fetch_profile (url : Url) : sprog (result FetchedProfile ApplicationError) :=
  prog_map_err (λ error, app_error EExternalOperationFailed (pfe_message error) (pfe_retryable error))
    (call (UFetch url)).

Definition upsert_stored (profiles : ProfileCatalog) (profile_id : Z) : sup (result unit ApplicationError) :=
  try% profile := sup_some (cat_profiles profiles !! profile_id) in
  then% upsert_refresh profile_id (p_revision profile) (p_next_refresh_at profile) in
  sup_ret (Ok tt).

Definition add_first (profiles : ProfileCatalog) (profile_id : Z)
  : sup (result (option RuntimeApplyOutcome) ApplicationError) :=
  let '(activated, profiles) := activate uuid_parse profiles (uuid_to_string profile_id) in
  do% sup_ret (map_err (λ _, internal_error) activated) in
  try% profile := sup_some (cat_profiles profiles !! profile_id) in
  try% rules := sup_ret (map_err (λ _, invalid_rule_error)
                   (collect (λ _ rule, RuleString_new rule RULE_STRING_MAX_BYTES)
                      (snap_rule_strings (p_snapshot profile)))) in
  let local_rules := initialized rules in
  try% strings := sup_ret (rule_strings local_rules) in
  try% configuration := compile profile strings in
  let generation := 1 in
  let% committed := sup_get sv_runtime_generation in
  then% begin_apply generation committed in
  let% result := apply_candidate profiles local_rules configuration generation false in
  let% settled := settle_transaction result in
  match settled with
  | Err error => then% end_apply in sup_ret (Err error)
  | Ok success =>
      then% sup_modify (λ s, set_local_rules local_rules (set_profiles profiles s)) in
      then% adopt configuration success in
      let% upserted := upsert_stored profiles profile_id in
      match upserted with
      | Err error => then% end_apply in sup_ret (Err error)
      | Ok _ =>
          then% reset_runtime_state in
          then% end_apply in
          sup_ret (Ok (Some (runtime_apply_success success)))
      end
  end.

Definition add_another (profiles : ProfileCatalog) (profile_id : Z)
  : sup (result (option RuntimeApplyOutcome) ApplicationError) :=
  try% added := sup_some (cat_profiles profiles !! profile_id) in
  try% configuration := compile added (snap_rule_strings (p_snapshot added)) in
  do% validate_configuration configuration profile_id in
  let% local_rules := sup_get sv_local_rules in
  do% persist_metadata profiles local_rules in
  then% sup_modify (set_profiles profiles) in
  do% upsert_stored profiles profile_id in
  sup_ret (Ok None).

Definition add_commit (profile : Profile) : sup (result ApplicationOutput ApplicationError) :=
  let% current := sup_get sv_profiles in
  let first_profile := bool_decide (cat_profiles current = ∅) in
  let '(inserted, profiles) := catalog_insert current profile in
  do% sup_ret (map_err (λ _, internal_error) inserted) in
  try% runtime_apply := (if first_profile then add_first profiles (p_id profile)
                         else add_another profiles (p_id profile)) in
  let% stored := sup_get sv_profiles in
  try% profile := sup_some (cat_profiles stored !! p_id profile) in
  sup_ret (Ok (OutProfileMutation
    (MkProfileMutationOutcome ProfileAdded (profile_summary profile (cat_active_profile_id stored))
       runtime_apply))).

Definition profile_add (subscription_url : Url) : sprog (result ApplicationOutput ApplicationError) :=
  do* locked (sup_get (λ s,
        if PROFILE_COUNT_MAX <=? zsize (cat_profiles (sv_profiles s))
        then Err (app_error EExternalOperationFailed (lit "The Profile limit has been reached") false)
        else Ok tt)) in
  try* fetched := fetch_profile subscription_url in
  match snapshot_parse yaml_from_slice sha256 (fp_body fetched) refresh_limits with
  | Err _ => Ret (Err (app_error EExternalOperationFailed (lit "The Profile Snapshot is invalid") false))
  | Ok snapshot =>
      let* profile_id := call UNewProfileId in
      let name := dpn_value (derive_profile_name percent_decode (fp_metadata_name fetched) subscription_url
                               (uuid_to_string profile_id)) in
      let* now := call UNow in
      locked (add_commit (profile_new profile_id name subscription_url snapshot now (next_refresh_at now)))
  end.

Definition profile_list : sprog (result ApplicationOutput ApplicationError) :=
  locked (sup_get (λ s,
    Ok (OutProfiles ((λ p, profile_summary p (cat_active_profile_id (sv_profiles s)))
                       <$> btree_values (cat_profiles (sv_profiles s)))))).

Definition profile_list_page (offset : Z) : sprog (result ApplicationOutput ApplicationError) :=
  locked (sup_get (λ s,
    let profiles := sv_profiles s in
    Ok (OutProfilePage (MkProfileListPageOutcome
      (profile_list_snapshot_id hasher url_as_str profiles) (zsize (cat_profiles profiles)) offset
      ((λ p, profile_summary p (cat_active_profile_id profiles))
         <$> take (Z.to_nat IPC_LIST_PAGE_SIZE)
               (drop (Z.to_nat offset) (btree_values (cat_profiles profiles)))))))).

Definition activate_locked (selector : str) : sup (result ApplicationOutput ApplicationError) :=
  let% state := sup_get (λ s, s) in
  let current := sv_profiles state in
  try% profile_id := sup_ret (resolve_profile uuid_to_string uuid_parse current selector) in
  if bool_decide (cat_active_profile_id current = Some profile_id) then
    try% profile := sup_some (cat_profiles current !! profile_id) in
    sup_ret (Ok (OutProfileMutation
      (MkProfileMutationOutcome ProfileActivated (profile_summary profile (Some profile_id))
         (Some (runtime_apply_not_required (sv_runtime_generation state))))))
  else
    let '(activated, profiles) := activate uuid_parse current (uuid_to_string profile_id) in
    do% sup_ret (map_err (map_profile_error uuid_to_string current) activated) in
    try% profile := sup_some (cat_profiles profiles !! profile_id) in
    try% rules := sup_ret (rule_strings (sv_local_rules state)) in
    try% configuration := compile profile rules in
    try% generation := sup_ret (next_runtime_generation (sv_runtime_generation state)) in
    then% begin_apply generation (sv_runtime_generation state) in
    let% result := apply_candidate profiles (sv_local_rules state) configuration generation false in
    let% settled := settle_transaction result in
    match settled with
    | Err error => then% end_apply in sup_ret (Err error)
    | Ok success =>
        then% sup_modify (set_profiles profiles) in
        then% adopt configuration success in
        then% sup_modify (set_cached_proxy_view None) in
        then% reset_runtime_state in
        let% profile := sup_some (cat_profiles profiles !! profile_id) in
        then% end_apply in
        sup_ret (let? profile := profile in
                 Ok (OutProfileMutation
                       (MkProfileMutationOutcome ProfileActivated
                          (profile_summary profile (Some profile_id))
                          (Some (runtime_apply_success success)))))
    end.

Definition activate_profile_once (selector : str) : sprog (result ApplicationOutput ApplicationError) :=
  locked (activate_locked selector).

Definition remove_locked (selector : str) : sup (result ApplicationOutput ApplicationError) :=
  let% current := sup_get sv_profiles in
  let '(removed, profiles) := catalog_remove uuid_parse current selector in
  try% removed := sup_ret (map_err (map_profile_error uuid_to_string current) removed) in
  let% local_rules := sup_get sv_local_rules in
  do% persist_metadata profiles local_rules in
  then% sup_modify (set_profiles profiles) in
  then% sup_modify (λ s, set_refreshes (refresh_remove (sv_refreshes s) (p_id removed)).2 s) in
  sup_ret (Ok (OutProfileMutation
    (MkProfileMutationOutcome ProfileRemovedAction
       (profile_summary removed (cat_active_profile_id profiles)) None))).

Definition profile_remove (selector : str) : sprog (result ApplicationOutput ApplicationError) :=
  locked (remove_locked selector).

(** *** Proxies and latencies *)

Definition load_proxy_view : sup (result (ManagedCoreHandle * ProxyView) ApplicationError) :=
  let% active := sup_get (λ s, cat_active_profile_id (sv_profiles s)) in
  match active with
  | None => sup_ret (Err no_active_profile)
  | Some _ =>
      try% status := sup_map_err (λ _, core_error (lit "The Managed Core is unavailable"))
                       (sup_call URuntimeStatus) in
      try% core := sup_ret (ok_or (managed_core status) (core_error (lit "The Managed Core is unavailable"))) in
      try% order := effective_group_order_with_health in
      try% view := sup_map_err (λ _, core_error (lit "The Managed Core proxy view is unavailable"))
                     (sup_call (UProxyView core order)) in
      then% sup_modify (set_cached_proxy_view (Some view)) in
      sup_ret (Ok (core, view))
  end.

Definition proxy_list (group_selector : str) : sprog (result ApplicationOutput ApplicationError) :=
  locked (
    try% loaded := load_proxy_view in
    do% sup_run (λ s, ensure_telemetry s (instance_generation loaded.1)) in
    try% group := sup_ret (resolve_proxy_group loaded.2 group_selector) in
    let% now := sup_call UNow in
    let% observations := sup_get (λ s, probe_observations s loaded.2 now) in
    try% rows := sup_ret (map_err map_selection_error (node_rows loaded.2 (pg_name group) observations)) in
    sup_ret (Ok (OutProxies (MkProxyListOutcome (proxy_group_summary loaded.2 group)
                               (proxy_group_summary loaded.2 <$> pv_groups loaded.2)
                               (proxy_row <$> rows))))).

Definition proxy_list_page (group_selector : str) (groups_offset nodes_offset : Z)
  : sprog (result ApplicationOutput ApplicationError) :=
  locked (
    try% loaded := load_proxy_view in
    do% sup_run (λ s, ensure_telemetry s (instance_generation loaded.1)) in
    try% group := sup_ret (resolve_proxy_group loaded.2 group_selector) in
    let% now := sup_call UNow in
    let% observations := sup_get (λ s,
      probe_observations_page s group nodes_offset IPC_LIST_PAGE_SIZE now) in
    try% page := sup_ret (map_err map_selection_error
                   (node_rows_page loaded.2 (pg_name group) observations nodes_offset IPC_LIST_PAGE_SIZE)) in
    sup_ret (Ok (OutProxyPage (MkProxyListPageOutcome
      (proxy_list_snapshot_id hasher loaded.2 (instance_generation loaded.1))
      (proxy_group_summary loaded.2 group) (zlen (pv_groups loaded.2)) groups_offset
      (proxy_group_summary loaded.2
         <$> take (Z.to_nat IPC_LIST_PAGE_SIZE) (drop (Z.to_nat groups_offset) (pv_groups loaded.2)))
      page.1 nodes_offset (proxy_row <$> page.2))))).

Definition select_locked (group_selector node_selector : str) : sup (result ApplicationOutput ApplicationError) :=
  try% loaded := load_proxy_view in
  let core := loaded.1 in
  let view := loaded.2 in
  try% group := sup_ret (resolve_proxy_group view group_selector) in
  let group_name := pg_name group in
  try% selection := sup_ret (map_err map_selection_error
                      (selection_by_selector view group_name node_selector)) in
  let previous := pg_selected_name group ≫= λ name,
                    result_ok (selection_by_selector view group_name name) in
  do% sup_map_err (λ _, core_error (lit "Mihomo rejected the Node selection"))
        (sup_call (USelectNode core selection)) in
  let% current := sup_get sv_profiles in
  try% active_id := sup_ret (ok_or (cat_active_profile_id current) no_active_profile) in
  try% profiles := sup_some (update_profile current active_id
                               (with_selection group_name (nsel_record_id selection))) in
  let% local_rules := sup_get sv_local_rules in
  let% persisted := persist_metadata profiles local_rules in
  match persisted with
  | Err _ =>
      let% compensated :=
        (match previous with
         | Some previous => let% r := sup_call (USelectNode core previous) in sup_ret (is_ok r)
         | None => sup_ret false
         end) in
      then% (if compensated then sup_ret tt else set_health_reason ReasonSelectionCompensation true) in
      sup_ret (Err (app_error EExternalOperationFailed
        (if compensated then lit "The Node selection was restored after persistence failed"
         else lit "The Node selection could not be restored after persistence failed") false))
  | Ok _ =>
      then% sup_modify (λ s, set_cached_proxy_view None (set_profiles profiles s)) in
      then% set_restore false 0 in
      then% set_health_reason ReasonSelectionCompensation false in
      then% set_health_reason ReasonSelectionRestoration false in
      sup_ret (Ok (OutProxySelection (MkProxySelectionOutcome (pg_id group) group_name
        (selection_identity <$> previous) (selection_identity selection) true
        (MkAppRecoveryOutcome RecoveryStatusNotRequired None None))))
  end.

Definition proxy_select (group_selector node_selector : str)
  : sprog (result ApplicationOutput ApplicationError) :=
  locked (select_locked group_selector node_selector).

Definition probe_generation : sup (result Z ApplicationError) :=
  let% generation := sup_get (λ s, ps_generation (sv_probes s)) in
  sup_ret (ok_or generation (app_error ECoreUnavailable
                               (lit "The Active Profile Probe Generation is unavailable") true)).

Definition latency_list : sprog (result ApplicationOutput ApplicationError) :=
  locked (
    try% loaded := load_proxy_view in
    try% generation := probe_generation in
    let% now := sup_call UNow in
    sup_get (λ s, Ok (OutLatencies
      ((λ n, latency_summary s (pn_record_id n) (pn_name n) generation now)
         <$> filter (λ n, probe_eligible_node n = true) (btree_values (pv_nodes loaded.2)))))).

Definition latency_show (selector : str) : sprog (result ApplicationOutput ApplicationError) :=
  locked (
    try% loaded := load_proxy_view in
    try% node := sup_ret (resolve_latency_node loaded.2 selector) in
    try% generation := probe_generation in
    let% now := sup_call UNow in
    sup_get (λ s, Ok (OutLatency (latency_summary s (pn_record_id node) (pn_name node) generation now)))).

(** *** Rules *)

Definition rule_list : sprog (result ApplicationOutput ApplicationError) :=
  locked (sup_get (λ s,
    let? list := map_err (λ _, invalid_rule_error) (list_rules (sv_local_rules s)) in
    Ok (OutRules (MkRuleListOutcome (list_initialized list)
      (if list_initialized list then Some (revision (sv_local_rules s)) else None)
      (rule_summary <$> list_entries list))))).

Definition rule_list_page (offset : Z) : sprog (result ApplicationOutput ApplicationError) :=
  locked (sup_get (λ s,
    let? page := map_err (λ _, invalid_rule_error) (list_page (sv_local_rules s) offset IPC_LIST_PAGE_SIZE) in
    Ok (OutRulePage (MkRuleListPageOutcome (page_initialized page)
      (if page_initialized page then Some (revision (sv_local_rules s)) else None)
      (page_total page) (page_offset page) (rule_summary <$> page_entries page))))).

(** The edited rule set, and the [action], [changed_rule], [previous_rule] and
    [resulting_position] of the outcome. *)
Definition edit_rules (local_rules : LocalRuleSet) (mutation : RuleMutation)
  : result (LocalRuleSet * (RuleMutationAction * str * option str * option Z)) ApplicationError :=
  match mutation with
  | MutationAdd rule placement =>
      let? rule := checked_rule rule in
      let '(position, edited) := Rule.add local_rules rule placement in
      let? position := map_err map_rule_error position in
      Ok (edited, (RuleAdded, rule, None, Some position))
  | MutationReplace old_rule new_rule =>
      let? old_rule := checked_rule old_rule in
      let? new_rule := checked_rule new_rule in
      let '(position, edited) := Rule.replace local_rules old_rule new_rule in
      let? position := map_err map_rule_error position in
      Ok (edited, (RuleReplaced, new_rule, Some old_rule, Some position))
  | MutationRemove rule =>
      let? rule := checked_rule rule in
      let '(removed, edited) := Rule.remove local_rules rule in
      let? removed := map_err map_rule_error removed in
      Ok (edited, (RuleRemoved, removed, None, None))
  end.

Definition rule_mutation_locked (mutation : RuleMutation) : sup (result ApplicationOutput ApplicationError) :=
  let% state := sup_get (λ s, s) in
  try% local_rules := sup_ret (clone_rule_set (sv_local_rules state)) in
  try% edited := sup_ret (edit_rules local_rules mutation) in
  let local_rules := edited.1 in
  let '(action, changed_rule, previous_rule, resulting_position) := edited.2 in
  try% active_id := sup_ret (ok_or (cat_active_profile_id (sv_profiles state)) no_active_profile) in
  try% active := sup_some (cat_profiles (sv_profiles state) !! active_id) in
  try% rules := sup_ret (rule_strings local_rules) in
  try% configuration := compile active rules in
  try% generation := sup_ret (next_runtime_generation (sv_runtime_generation state)) in
  then% begin_apply generation (sv_runtime_generation state) in
  let% result := sup_call (UReservedApply
                   (transaction_request (sv_profiles state) local_rules configuration generation)) in
  let% settled := settle_transaction result in
  match settled with
  | Err error => then% end_apply in sup_ret (Err error)
  | Ok success =>
      then% sup_modify (set_local_rules local_rules) in
      then% adopt configuration success in
      then% end_apply in
      sup_ret (Ok (OutRuleMutation (MkRuleMutationOutcome action changed_rule previous_rule
                                      resulting_position (runtime_apply_success success))))
  end.

(** The guards are dropped in the reverse of the order in which they are taken. *)
Definition rule_mutation (mutation : RuleMutation) : sprog (result ApplicationOutput ApplicationError) :=
  do* prog_map_err map_transaction_error (call UReserve) in
  let* guard := call UTryLock in
  let* outcome :=
    (match guard with
     | GuardWouldBlock => Ret (Err rule_busy_error)
     | GuardPoisoned => Ret (Err internal_error)
     | Guarded s =>
         let* r := rule_mutation_locked mutation s in
         let* _u := call (UUnlock r.2) in
         Ret r.1
     end) in
  let* _u := call URelease in
  Ret outcome.

(** *** Startup *)

(** The fields of the new [Supervisor] that [open] computes. *)
Record OpenedSupervisor := MkOpened {
  op_started_at : Z;
  op_state : SupervisorState;
  op_last_runtime_apply : RuntimeApplySnapshot;
  op_last_status : StatusSnapshot;
}.

Definition open_hydrate (hydrated : option HydratedState)
  : sprog (result (ProfileCatalog * LocalRuleSet * option EffectiveConfiguration * option Z) ApplicationError) :=
  match hydrated with
  | None => Ret (Ok (catalog_new, uninitialized, None, None))
  | Some h =>
      try* active_id := Ret (ok_or (cat_active_profile_id (hs_profiles h)) internal_error) in
      try* active := Ret (ok_or (cat_profiles (hs_profiles h) !! active_id) internal_error) in
      try* rules := Ret (rule_strings (hs_local_rules h)) in
      try* workspace := prog_map_err (λ _, internal_error) (call (UWorkspace active_id)) in
      do* prog_map_err map_config_error
            (call (UValidatePersisted (p_snapshot active) rules (hs_effective_configuration h) workspace)) in
      try* configuration := prog_map_err map_config_error
                              (call (UCompile (p_snapshot active) rules workspace)) in
      Ret (Ok (hs_profiles h, hs_local_rules h, Some configuration, Some (hs_runtime_generation h)))
  end.

Definition initial_refreshes (profiles : ProfileCatalog) : ProfileRefreshScheduler :=
  foldl (λ r p, upsert r (p_id p) (p_revision p) (p_next_refresh_at p)) refresh_new
    (btree_values (cat_profiles profiles)).

(** The generation, the runtime-apply snapshot and the health reasons after the
    startup transaction. *)
Definition open_startup (profiles : ProfileCatalog) (local_rules : LocalRuleSet)
    (configuration : option EffectiveConfiguration) (committed_generation : option Z)
  : sprog (result (option Z * RuntimeApplySnapshot * gset SupervisorHealthReason) ApplicationError) :=
  match configuration with
  | Some configuration =>
      try* generation := prog_map_err map_transaction_error (call (UPrepareStartup committed_generation)) in
      try* success := prog_map_err map_transaction_error
                        (call (UApplyStartup (transaction_request profiles local_rules configuration generation))) in
      Ret (Ok (Some (success_committed_generation success), successful_runtime_apply_snapshot success,
               if recovery_requires_degraded (success_recovery success)
               then {[ReasonRuntimeRecovery]} else ∅))
  | None =>
      do* prog_map_err map_transaction_error (call (UPrepareStartup None)) in
      Ret (Ok (committed_generation,
               MkRuntimeApplySnapshot None committed_generation PhaseIdle default_recovery_snapshot, ∅))
  end.

Fixpoint raise_all (reasons : list SupervisorHealthReason) : sup unit :=
  match reasons with
  | [] => sup_ret tt
  | reason :: reasons' => then% set_health_reason reason true in raise_all reasons'
  end.

(** The new mutexes are not shared yet: the two locked sections at the end run
    on the state directly. *)
Definition open : sprog (result OpenedSupervisor ApplicationError) :=
  do* prog_map_err (λ _, internal_error) (call UStagingRoot) in
  try* hydrated := prog_map_err (λ _, internal_error) (call ULoadCommitted) in
  try* loaded := open_hydrate hydrated in
  let '(profiles, local_rules, effective_configuration, committed_generation) := loaded in
  let refreshes := initial_refreshes profiles in
  let* _u := call (USetRevisions (current_revisions profiles local_rules effective_configuration)) in
  try* started := open_startup profiles local_rules effective_configuration committed_generation in
  let '(runtime_generation, startup_runtime_apply, startup_health_reasons) := started in
  let* started_at := call UNow in
  let initial_status := initial_status_snapshot started_at profiles runtime_generation startup_runtime_apply
                          (reasons_iter startup_health_reasons) in
  try* diagnostics := Ret (map_err (λ _, internal_error) (ring_new WRAPPER_DIAGNOSTIC_CAPACITY)) in
  let state := MkSupervisorState profiles local_rules effective_configuration runtime_generation refreshes
                 probe_new 0 None None disconnected_stream_health None None None false 0 ∅ diagnostics in
  let* raised := raise_all (reasons_iter startup_health_reasons) state in
  let* reconciled := reconcile_runtime_state_locked raised.2 in
  Ret (Ok (MkOpened started_at reconciled.2 startup_runtime_apply initial_status)).

(** ** [ApplicationClient::execute]

    [profile_use] is the method of that name, which goes through the activation
    queue (see [Activation]). *)
Definition execute (profile_use : str → sprog (result ApplicationOutput ApplicationError)) (started_at : Z)
    (operation : ApplicationOperation)
  : sprog (result ApplicationOutput ApplicationError) :=
  match operation with
  | AppGetStatus => try* status := status started_at in Ret (Ok (OutStatus status))
  | AppProfileAdd subscription_url => profile_add subscription_url
  | AppProfileList => profile_list
  | AppProfileListPage offset => profile_list_page offset
  | AppProfileUse profile => profile_use profile
  | AppProfileRemove profile => profile_remove profile
  | AppProxyList group => proxy_list group
  | AppProxyListPage group groups_offset nodes_offset => proxy_list_page group groups_offset nodes_offset
  | AppProxySelect group node => proxy_select group node
  | AppLatencyList => latency_list
  | AppLatencyShow node => latency_show node
  | AppRuleList => rule_list
  | AppRuleListPage offset => rule_list_page offset
  | AppRuleAdd rule placement =>
      match map_rule_placement placement with
      | Ok placement => rule_mutation (MutationAdd rule placement)
      | Err error => Ret (Err error)
      end
  | AppRuleReplace old_rule new_rule => rule_mutation (MutationReplace old_rule new_rule)
  | AppRuleRemove rule => rule_mutation (MutationRemove rule)
  | AppStart | AppStop | AppRestart =>
      Ret (Err (app_error EOperationUnavailable
                  (lit "Lifecycle operations are handled by the foreground launcher") false))
  end.

End supervisor.
