(* ===== verification/SupervisorInvariant.v ===== *)
(** * SupervisorInvariant: what the Supervisor's commands keep true
    (src/supervisor.rs)

    [sup_inv] relates the state in memory to what the transaction port has
    committed.  [port_step] is the contract of the ports: the transaction port's
    part is what [SupervisorTransactions] shows of it, everything else may answer
    anything.  [SupervisorThreads] and [SupervisorSystem] run the commands as threads
    over the state's mutex. *)

From stdpp Require Import finite.
From S2P Require Import Prelude Text Ordered Constants Path Yaml Domain Rule Profile Scheduler ProxyView Mihomo Telemetry Diagnostics ConfigData ConfigPolicy State Program Ports Transaction Request Application SupervisorTransactions SupervisorOutcomes Projections Supervisor.
Local Open Scope Z_scope.

(** ** What is committed *)

Record Snapshot := MkSnapshot {
  d_profiles : ProfileCatalog;
  d_local_rules : LocalRuleSet;
  d_configuration : EffectiveConfiguration;
  d_generation : Z;
}.

(** [Unknown] after a commit whose outcome could not be read back. *)
Inductive Durable := Known (d : option Snapshot) | Unknown.

Definition request_snapshot (r : SupervisorTransactionRequest) : Snapshot :=
  MkSnapshot (req_profiles r) (req_local_rules r) (req_configuration r) (req_generation r).

(** A committed request was staged, so the state store accepted it. *)
Definition accepted (r : SupervisorTransactionRequest) : Prop :=
  State.validate_candidate (request_state r) = Ok tt.

Definition transacts {E} (r : SupervisorTransactionRequest) (D : Durable)
    (x : result ConfigTransactionSuccess E) (D' : Durable) : Prop :=
  match x with
  | Ok s => success_committed_generation s = req_generation r ∧ accepted r ∧
            D' = Known (Some (request_snapshot r))
  | Err _ => D' = D ∨ D' = Unknown
  end.

(** What holds of a state that loads; see [load_guarantee]. *)
Record loaded (h : HydratedState) : Prop := {
  loaded_catalog : catalog_wf (hs_profiles h);
  loaded_count : zsize (cat_profiles (hs_profiles h)) ≤ PROFILE_COUNT_MAX;
  loaded_active : is_Some (cat_active_profile_id (hs_profiles h));
}.

Definition port_step {X} (c : SupCall X) (D : Durable) : X → Durable → Prop :=
  match c in SupCall X return X → Durable → Prop with
  | UApply r _ => λ x D', transacts r D x D'
  | UReservedApply r => λ x D', transacts r D x D'
  | UApplyStartup r => λ x D', transacts r D x D'
  | UPersist r => λ x D',
      match x with
      | Ok _ => accepted r ∧ D' = Known (Some (request_snapshot r))
      | Err _ => D' = D ∨ D' = Unknown
      end
  | ULoadCommitted => λ x D',
      D' = D ∧ match x with
               | Ok None => D = Known None
               | Ok (Some h) => loaded h
               | Err _ => True
               end
  | _ => λ _ D', D' = D
  end.

(** ** The invariant *)

(** The part of the state that transactions are about. *)
Definition snapshot_of (s : SupervisorState) : option Snapshot :=
  configuration ← sv_effective_configuration s;
  generation ← sv_runtime_generation s;
  Some (MkSnapshot (sv_profiles s) (sv_local_rules s) configuration generation).

Definition refresh_revisions (r : ProfileRefreshScheduler) (id : Z) : option Z :=
  re_profile_revision <$> rs_entries r !! id.
Definition profile_revisions (c : ProfileCatalog) (id : Z) : option Z := p_revision <$> cat_profiles c !! id.

Record core_inv (s : SupervisorState) (D : Durable) : Prop := {
  ci_catalog : catalog_wf (sv_profiles s);
  ci_count : zsize (cat_profiles (sv_profiles s)) ≤ PROFILE_COUNT_MAX;
  ci_active : cat_active_profile_id (sv_profiles s) = None ↔ cat_profiles (sv_profiles s) = ∅;
  ci_configured : is_Some (cat_active_profile_id (sv_profiles s)) → is_Some (snapshot_of s);
  ci_unconfigured : cat_active_profile_id (sv_profiles s) = None →
    sv_effective_configuration s = None ∧ sv_runtime_generation s = None;
  ci_rules : is_Some (cat_active_profile_id (sv_profiles s)) → is_ok (rule_strings (sv_local_rules s)) = true;
  ci_durable : ∀ d, D = Known d → d = snapshot_of s;
  ci_refreshes : ∀ id, refresh_revisions (sv_refreshes s) id = profile_revisions (sv_profiles s) id;
}.

(** The health reasons a history of diagnostics leaves raised. *)
Definition replay_step (reasons : gset SupervisorHealthReason) (d : WrapperDiagnostic)
  : gset SupervisorHealthReason :=
  let named := filter (λ r, category_from r = wd_category d) (list_to_set (enum SupervisorHealthReason)) in
  match wd_state d with Raised => reasons ∪ named | Cleared => reasons ∖ named end.
Definition replay (h : list WrapperDiagnostic) : gset SupervisorHealthReason := foldl replay_step ∅ h.

Record aux_inv (s : SupervisorState) : Prop := {
  ai_probes : probe_wf (sv_probes s);
  ai_probe_last : ∀ g, ps_last_generation (sv_probes s) = Some g → g ≤ sv_next_probe_generation s;
  ai_probe_next : in_u64 (sv_next_probe_generation s);
  ai_telemetry : sv_telemetry_generation s = core_generation <$> sv_telemetry s;
  ai_cores : ∀ g, sv_probe_core_generation s = Some g → sv_observed_core_generation s = Some g;
  ai_attempts : 0 ≤ sv_selection_restore_attempts_remaining s ≤ SELECTION_RESTORE_ATTEMPT_LIMIT;
  ai_pending : sv_selection_restore_pending s = true ↔ 0 < sv_selection_restore_attempts_remaining s;
  ai_diagnostics : ∃ h, ring_refines h (sv_wrapper_diagnostics s) ∧
    ring_capacity (sv_wrapper_diagnostics s) = WRAPPER_DIAGNOSTIC_CAPACITY ∧
    (zlen h + 1 < u64_max → sv_health_reasons s = replay h);
}.

Definition sup_inv (s : SupervisorState) (D : Durable) : Prop := core_inv s D ∧ aux_inv s.

(** ** Sections *)

(** Calls a section may make: never on the lock it holds. *)
Definition held_call {X} (c : SupCall X) : bool :=
  match c with ULock | UTryLock | UUnlock _ => false | _ => true end.

(** Whatever the ports answer, the program makes only such calls and ends in [Q]. *)
Fixpoint hwp {A} (p : sprog A) (Q : A → Durable → Prop) (D : Durable) : Prop :=
  match p with
  | Ret a => Q a D
  | Vis c k => held_call c = true ∧ ∀ x D', port_step c D x D' → hwp (k x) Q D'
  end.

Lemma hwp_mono {A} (p : sprog A) (Q Q' : A → Durable → Prop) D :
  (∀ a D', Q a D' → Q' a D') → hwp p Q D → hwp p Q' D.
Proof.
  intros HQ. revert D. induction p as [a|X c k IH]; intros D; cbn; [apply HQ|].
  intros [Hc Hk]. split; [done|]. intros x D' Hs. by apply IH, Hk.
Qed.

Lemma hwp_bind {A B} (p : sprog A) (k : A → sprog B) Q D :
  hwp p (λ a D', hwp (k a) Q D') D → hwp (prog_bind p k) Q D.
Proof.
  revert D. induction p as [a|X c next IH]; intros D; cbn; [done|].
  intros [Hc Hk]. split; [done|]. intros x D' Hs. by apply IH, Hk.
Qed.

Lemma hwp_conj {A} (p : sprog A) (Q Q' : A → Durable → Prop) D :
  hwp p Q D → hwp p Q' D → hwp p (λ a D', Q a D' ∧ Q' a D') D.
Proof.
  revert D. induction p as [a|X c k IH]; intros D; cbn; [done|].
  intros [Hc H1] [_ H2]. split; [done|]. intros x D' Hs. apply IH; auto.
Qed.

Section sup_rules.
Context {A B : Type}.
Implicit Types (m : sup A) (s : SupervisorState) (D : Durable).

Lemma hwp_sup_bind m (k : A → sup B) s Q D :
  hwp (m s) (λ r D', hwp (k r.1 r.2) Q D') D → hwp (sup_bind m k s) Q D.
Proof. apply hwp_bind. Qed.

Lemma hwp_sup_call (c : SupCall A) s Q D :
  held_call c = true → (∀ x D', port_step c D x D' → Q (x, s) D') → hwp (sup_call c s) Q D.
Proof. intros Hc HQ. cbn. auto. Qed.

(** A call whose answer says nothing about what is committed. *)
Lemma hwp_sup_ask (c : SupCall A) s Q D :
  held_call c = true → (∀ x D', port_step c D x D' → D' = D) → (∀ x, Q (x, s) D) → hwp (sup_call c s) Q D.
Proof. intros Hc Hs HQ. apply hwp_sup_call; [done|]. intros x D' ->%Hs. apply HQ. Qed.

Lemma hwp_sup_ret (x : A) s (Q : A * SupervisorState → Durable → Prop) D : Q (x, s) D → hwp (sup_ret x s) Q D.
Proof. done. Qed.
Lemma hwp_sup_get (f : SupervisorState → A) s (Q : A * SupervisorState → Durable → Prop) D :
  Q (f s, s) D → hwp (sup_get f s) Q D.
Proof. done. Qed.
Lemma hwp_sup_modify f s (Q : unit * SupervisorState → Durable → Prop) D :
  Q (tt, f s) D → hwp (sup_modify f s) Q D.
Proof. done. Qed.
Lemma hwp_sup_run (f : SupervisorState → A * SupervisorState) s (Q : A * SupervisorState → Durable → Prop) D :
  Q (f s) D → hwp (sup_run f s) Q D.
Proof. done. Qed.
End sup_rules.

Lemma hwp_sup_try {A B E} (m : sup (result A E)) (k : A → sup (result B E)) s Q D :
  hwp (m s) (λ r D', match r.1 with Ok x => hwp (k x r.2) Q D' | Err e => Q (Err e, r.2) D' end) D →
  hwp (sup_try m k s) Q D.
Proof. intros Hm. apply hwp_sup_bind. eapply hwp_mono; [|exact Hm]. by intros [[x|e] s'] D'. Qed.

Lemma hwp_sup_map_err {A E F} (f : E → F) (m : sup (result A E)) s Q D :
  hwp (m s) (λ r D', Q (map_err f r.1, r.2) D') D → hwp (sup_map_err f m s) Q D.
Proof. intros Hm. apply hwp_sup_bind. eapply hwp_mono; [|exact Hm]. by intros [r s'] D'. Qed.

(** One step of a section. *)
Ltac sup_step :=
  lazymatch goal with
  | |- hwp (sup_bind _ _ _) _ _ => apply hwp_sup_bind
  | |- hwp (sup_try _ _ _) _ _ => apply hwp_sup_try
  | |- hwp (sup_map_err _ _ _) _ _ => apply hwp_sup_map_err
  | |- hwp (sup_ret _ _) _ _ => apply hwp_sup_ret
  | |- hwp (sup_some _ _) _ _ => apply hwp_sup_ret
  | |- hwp (sup_get _ _) _ _ => apply hwp_sup_get
  | |- hwp (sup_modify _ _) _ _ => apply hwp_sup_modify
  | |- hwp (set_restore _ _ _) _ _ => apply hwp_sup_modify
  | |- hwp (sup_run _ _) _ _ => apply hwp_sup_run
  | |- hwp (sup_call _ _) _ _ => apply hwp_sup_ask; [done|by intros ? ? ?|intros ?]
  | |- hwp ((if ?b then _ else _) _) _ _ => destruct b eqn:?
  end; cbn [fst snd].
Ltac sup_steps := repeat sup_step.

(** *** Sections that only touch the runtime side of the state *)

Definition core_of (s : SupervisorState) :=
  (sv_profiles s, sv_local_rules s, sv_effective_configuration s, sv_runtime_generation s, sv_refreshes s).

Lemma core_inv_of s s' D : core_of s' = core_of s → core_inv s D → core_inv s' D.
Proof.
  unfold core_of. intros [= Hp Hr Hc Hg Hf] [].
  split; unfold snapshot_of in *; rewrite ?Hp, ?Hr, ?Hc, ?Hg, ?Hf; assumption.
Qed.

(** [m] keeps the runtime side in order and nothing else changes. *)
Definition frames {A} (m : sup A) : Prop :=
  ∀ s D, aux_inv s → hwp (m s) (λ r D', D' = D ∧ aux_inv r.2 ∧ core_of r.2 = core_of s) D.

Lemma frames_use {A} (m : sup A) s Q D :
  frames m → aux_inv s → (∀ x s', aux_inv s' → core_of s' = core_of s → Q (x, s') D) → hwp (m s) Q D.
Proof.
  intros Hm Hs HQ. eapply hwp_mono; [|by apply Hm]. intros [x s'] D' (-> & Ha & Hc). by apply HQ.
Qed.

Ltac use_frames s' Ha Hc :=
  eapply frames_use; [solve [auto with frames nocore]| |intros ? s' Ha Hc; cbn [fst snd]].

Lemma frames_bind {A B} (m : sup A) (k : A → sup B) : frames m → (∀ x, frames (k x)) → frames (sup_bind m k).
Proof.
  intros Hm Hk s D Hs. apply hwp_sup_bind. apply (frames_use m); [done|done|]. intros x s' Hs' Hc.
  apply (frames_use (k x)); [done|done|]. intros y s'' Hs'' Hc'. split; [done|]. split; [done|]. cbn [snd]. by rewrite Hc'.
Qed.

Lemma frames_try {A B E} (m : sup (result A E)) (k : A → sup (result B E)) :
  frames m → (∀ x, frames (k x)) → frames (sup_try m k).
Proof. intros Hm Hk. apply frames_bind; [done|]. intros [x|e]; [apply Hk|by intros s D Hs]. Qed.

Lemma frames_map_err {A E F} (f : E → F) (m : sup (result A E)) : frames m → frames (sup_map_err f m).
Proof. intros Hm. apply frames_bind; [done|]. by intros r s D Hs. Qed.

Lemma frames_ret {A} (x : A) : frames (sup_ret x).
Proof. by intros s D Hs. Qed.
Lemma frames_get {A} (f : SupervisorState → A) : frames (sup_get f).
Proof. by intros s D Hs. Qed.
Lemma frames_ask {A} (c : SupCall A) :
  held_call c = true → (∀ D x D', port_step c D x D' → D' = D) → frames (sup_call c).
Proof. intros Hc Hp s D Hs. apply hwp_sup_ask; [done|by intros x D' ->%Hp|done]. Qed.
Lemma frames_modify f :
  (∀ s, aux_inv s → aux_inv (f s)) → (∀ s, core_of (f s) = core_of s) → frames (sup_modify f).
Proof. intros Ha Hc s D Hs. cbn. auto. Qed.

Create HintDb frames.
Lemma frames_some {A} (o : option A) : frames (sup_some o).
Proof. by intros s D Hs. Qed.
#[export] Hint Resolve frames_ret frames_get frames_some : frames.

Ltac frames_auto :=
  repeat first
    [ solve [auto with frames nocore]
    | apply frames_bind; [|intros ?]
    | apply frames_try; [|intros ?]
    | apply frames_map_err
    | apply frames_ask; [done|by intros ? ? ? ?]
    | match goal with |- frames (match ?x with _ => _ end) => destruct x end
    | match goal with |- frames (if ?x then _ else _) => destruct x end
    | progress cbn zeta ].

(** [m] leaves the part [f] of the state alone. *)
Definition keeps {T A} (f : SupervisorState → T) (m : sup A) : Prop :=
  ∀ s D, hwp (m s) (λ r _, f r.2 = f s) D.

Section keeps.
Context {T : Type} (f : SupervisorState → T).

Lemma keeps_bound {A B} (m : sup A) (k : A → sup B) : keeps f m → (∀ x, keeps f (k x)) → keeps f (sup_bind m k).
Proof.
  intros Hm Hk s D. apply hwp_sup_bind. eapply hwp_mono; [|apply Hm]. intros [x s'] D' Hs. cbn in Hs |- *.
  eapply hwp_mono; [|apply Hk]. cbn. intros [y s''] D'' Hs'. cbn in *. congruence.
Qed.
Lemma keeps_ret {A} (x : A) : keeps f (sup_ret x).
Proof. done. Qed.
Lemma keeps_get {A} (g : SupervisorState → A) : keeps f (sup_get g).
Proof. done. Qed.
Lemma keeps_call {A} (c : SupCall A) : held_call c = true → keeps f (sup_call c).
Proof. intros Hc s D. by apply hwp_sup_call. Qed.
Lemma keeps_modify g : (∀ s, f (g s) = f s) → keeps f (sup_modify g).
Proof. intros Hg s D. apply Hg. Qed.
Lemma keeps_run {A} (g : SupervisorState → A * SupervisorState) : (∀ s, f (g s).2 = f s) → keeps f (sup_run g).
Proof. intros Hg s D. apply Hg. Qed.
End keeps.

Create HintDb keeping.
#[export] Hint Resolve keeps_ret keeps_get : keeping.

Ltac keeps_auto :=
  repeat first
    [ solve [auto with keeping nocore]
    | apply keeps_bound; [|intros ?]
    | apply keeps_call; done
    | apply keeps_modify; done
    | apply keeps_run; done
    | match goal with |- keeps _ (match ?x with _ => _ end) => destruct x end
    | match goal with |- keeps _ (if ?x then _ else _) => destruct x end
    | progress cbn zeta ].

(** *** Health reasons *)

Lemma category_from_inj r r' : category_from r = category_from r' → r = r'.
Proof. by destruct r, r'. Qed.

Lemma replay_named reason timestamp sequence state context reasons :
  replay_step reasons (MkWrapperDiagnostic sequence timestamp (category_from reason) state context) =
  match state with Raised => {[reason]} ∪ reasons | Cleared => reasons ∖ {[reason]} end.
Proof.
  unfold replay_step. cbn [wd_category wd_state].
  assert (filter (λ r, category_from r = category_from reason) (list_to_set (enum SupervisorHealthReason)) =
          ({[reason]} : gset SupervisorHealthReason)) as ->.
  { apply set_eq. intros r. rewrite elem_of_filter, elem_of_list_to_set, elem_of_singleton.
    split; [intros [Hc _]; by apply category_from_inj|]. intros ->. split; [done|apply elem_of_enum]. }
  destruct state; set_solver.
Qed.

Lemma aux_inv_health reason (active : bool) s now :
  aux_inv s → (if active then reason ∉ sv_health_reasons s else reason ∈ sv_health_reasons s) →
  let reasons := if active then {[reason]} ∪ sv_health_reasons s else sv_health_reasons s ∖ {[reason]} in
  let s1 := set_health_reasons reasons s in
  aux_inv (set_wrapper_diagnostics
    (ring_record (sv_wrapper_diagnostics s) now (category_from reason) (if active then Raised else Cleared)
       (wrapper_diagnostic_context s1 reason)).2 s1).
Proof.
  intros [] Hchg reasons s1. split; try assumption.
  destruct ai_diagnostics0 as (h & Hr & Hcap & Hh). cbn.
  pose proof (ring_record_refines h _ now (category_from reason) (if active then Raised else Cleared)
    (wrapper_diagnostic_context s1 reason) Hr) as H.
  destruct (ring_record _ _ _ _ _) as [[sequence|e] ring] eqn:Hrec; cbn.
  - eexists. split; [exact H|]. split.
    { unfold ring_record in Hrec. destruct (checked_add _ _); by simplify_eq/=. }
    rewrite zlen_app. intros Hlt. unfold replay. rewrite foldl_snoc, replay_named.
    unfold reasons. rewrite Hh by (unfold zlen in *; cbn in *; lia). by destruct active.
  - destruct H as (_ & -> & Hz). exists h. split; [done|]. split; [done|lia].
Qed.

Lemma aux_inv_same_health s reasons : aux_inv s → reasons = sv_health_reasons s → aux_inv (set_health_reasons reasons s).
Proof. intros [] ->. by split. Qed.

Lemma frames_set_health_reason reason active : frames (set_health_reason reason active).
Proof.
  intros s D Hs. unfold set_health_reason. do 2 sup_step. do 2 sup_step.
  destruct (negb _) eqn:Hn; cbn [fst snd].
  - sup_step. split; [done|]. split; [|done]. apply aux_inv_same_health; [done|].
    apply negb_true_iff in Hn. destruct active; apply bool_decide_eq_false in Hn; [|set_solver].
    apply dec_stable in Hn. set_solver.
  - sup_steps. split; [done|]. split; [|done]. apply (aux_inv_health reason active s x); [done|].
    apply negb_false_iff in Hn. destruct active; by apply bool_decide_eq_true in Hn.
Qed.
#[export] Hint Resolve frames_set_health_reason : frames.

(** *** Runtime reconciliation *)

Lemma aux_inv_restore s (pending : bool) attempts :
  aux_inv s → 0 ≤ attempts ≤ SELECTION_RESTORE_ATTEMPT_LIMIT → (pending = true ↔ 0 < attempts) →
  aux_inv (set_selection_restore_attempts_remaining attempts (set_selection_restore_pending pending s)).
Proof. intros [] ? ?. by split. Qed.

Lemma frames_set_restore (pending : bool) attempts :
  0 ≤ attempts ≤ SELECTION_RESTORE_ATTEMPT_LIMIT → (pending = true ↔ 0 < attempts) →
  frames (set_restore pending attempts).
Proof. intros ? ?. apply frames_modify; [|done]. intros s Hs. by apply aux_inv_restore. Qed.

Section reconcile.
Context `{YamlCrate}.

Lemma frames_group_order : frames effective_group_order_with_health.
Proof. unfold effective_group_order_with_health. frames_auto. Qed.
Hint Resolve frames_group_order : frames.

Lemma frames_begin_restore : frames begin_selection_restore.
Proof.
  unfold begin_selection_restore. apply frames_bind; [auto with frames|]. intros profiles.
  destruct (cat_active_profile_id profiles) as [id|].
  - set (b := match cat_profiles profiles !! id with Some _ => _ | None => _ end).
    apply frames_bind; [|intros _; destruct b; cbn [negb]; auto with frames].
    apply frames_set_restore; [by destruct b|]. destruct b; split; done || lia.
  - apply frames_bind; [|auto with frames]. apply frames_set_restore; [done|]. split; done || lia.
Qed.
Hint Resolve frames_begin_restore : frames.

Lemma frames_consume : frames consume_selection_restore_attempt.
Proof.
  intros s D Hs. unfold consume_selection_restore_attempt. do 2 sup_step.
  destruct (sv_selection_restore_pending s) eqn:Hp; cbn [negb]; [|by sup_step]. do 3 sup_step. sup_step. cbn.
  pose proof (ai_attempts s Hs). pose proof (proj1 (ai_pending s Hs) Hp). unfold saturating_sub.
  destruct (Z.eqb_spec (Z.max (sv_selection_restore_attempts_remaining s - 1) 0) 0) as [Hz|Hz].
  - do 2 sup_step.
    assert (aux_inv (set_selection_restore_pending false (set_selection_restore_attempts_remaining
      (Z.max (sv_selection_restore_attempts_remaining s - 1) 0) s))) as Ha.
    { destruct Hs. split; try assumption; cbn; [lia|]. rewrite Hz. naive_solver lia. }
    eapply hwp_mono; [|by apply frames_set_health_reason]. intros [[] s'] D' (-> & Ha' & Hc). done.
  - sup_step. split; [done|]. split; [|done]. destruct Hs. split; try assumption; cbn; [lia|].
    rewrite Hp. naive_solver lia.
Qed.
Hint Resolve frames_consume : frames.

Lemma restore_loop_same core view selections pending s D :
  hwp (restore_loop core view selections pending s) (λ r D', D' = D ∧ r.2 = s) D.
Proof.
  revert pending. induction selections as [|[group node] rest IH]; intros pending; cbn [restore_loop]; [done|].
  destruct (selection_by_selector view group node) as [selection|e]; [|apply IH].
  do 2 sup_step. apply IH.
Qed.

(** Called only while a restore is pending. *)
Lemma restore_frames core view s D :
  aux_inv s → sv_selection_restore_pending s = true →
  hwp (restore_active_selections core view s) (λ r D', D' = D ∧ aux_inv r.2 ∧ core_of r.2 = core_of s) D.
Proof.
  intros Hs Hp. unfold restore_active_selections. do 2 sup_step.
  destruct (cat_active_profile_id (sv_profiles s)) as [id|].
  - sup_step. eapply hwp_mono; [|apply restore_loop_same]. intros [pending s'] D' [-> Hs']. cbn in Hs'. subst s'.
    cbn [fst snd]. do 2 sup_step. destruct pending.
    + use_frames s2 Ha Hc; [|done]. pose proof (ai_pending s Hs) as Hpend. rewrite Hp in Hpend. destruct Hs. by split.
    + do 2 sup_step. use_frames s2 Ha Hc; [|done]. destruct Hs. split; try assumption; cbn; [done|]. split; done || lia.
  - do 2 sup_step. use_frames s2 Ha Hc; [|done]. apply aux_inv_restore; [done|done|]. split; done || lia.
Qed.

Lemma aux_inv_forget s observed : aux_inv s → aux_inv (set_probes (deactivate (sv_probes s))
  (set_cached_proxy_view None (set_probe_core_generation None (set_observed_core_generation observed s)))).
Proof. intros []. split; try assumption; [apply probe_wf_deactivate|done]. Qed.

Lemma frames_forget_core observed : frames (forget_core observed).
Proof. apply frames_modify; [|done]. intros s. apply aux_inv_forget. Qed.
Hint Resolve frames_forget_core : frames.

Lemma aux_inv_view s view : aux_inv s → aux_inv (set_cached_proxy_view view s).
Proof. intros []. by split. Qed.

Lemma frames_set_view view : frames (sup_modify (set_cached_proxy_view view)).
Proof. apply frames_modify; [|done]. intros s. apply aux_inv_view. Qed.
Hint Resolve frames_set_view : frames.

Lemma keeps_health {T} (f : SupervisorState → T) reason active :
  (∀ s x, f (set_health_reasons x s) = f s) → (∀ s x, f (set_wrapper_diagnostics x s) = f s) →
  keeps f (set_health_reason reason active).
Proof. intros H1 H2. unfold set_health_reason. keeps_auto. Qed.

Lemma keeps_observed_begin : keeps sv_observed_core_generation begin_selection_restore.
Proof. unfold begin_selection_restore, set_restore. keeps_auto; by apply keeps_health. Qed.
Lemma keeps_observed_order : keeps sv_observed_core_generation effective_group_order_with_health.
Proof. unfold effective_group_order_with_health. keeps_auto; by apply keeps_health. Qed.

Lemma seed_frames core_generation view s D :
  aux_inv s → sv_observed_core_generation s = Some core_generation →
  hwp (seed_probes core_generation view s) (λ r D', D' = D ∧ aux_inv r.2 ∧ core_of r.2 = core_of s) D.
Proof.
  intros Hs Ho. unfold seed_probes. do 2 sup_step. do 2 sup_step. do 4 sup_step.
  set (next := Z.max _ 1). set (nodes := _ <$> _). set (s1 := set_next_probe_generation next s).
  assert (in_u64 next ∧ sv_next_probe_generation s ≤ next) as [Hn Hle].
  { pose proof (ai_probe_next s Hs). unfold next, in_u64, saturating_add in *. lia. }
  change (reset (sv_probes s1) (sv_next_probe_generation s1) nodes x) with (reset (sv_probes s) next nodes x).
  destruct (reset (sv_probes s) next nodes x) as [r probes] eqn:Hr. cbn [fst snd].
  pose proof (probe_wf_reset (sv_probes s) next nodes x (ai_probes s Hs)) as Hwf. rewrite Hr in Hwf.
  apply reset_inv in Hr. destruct r as [[]|e]; cbn [is_ok].
  - do 2 sup_step. use_frames s2 Ha Hc; [|done]. destruct Hr as (_ & active & queue & deadlines & _ & _ & _ & ->).
    destruct Hs. split; try assumption; cbn; [naive_solver lia|naive_solver].
  - do 2 sup_step. use_frames s2 Ha Hc; [|done]. subst probes.
    destruct Hs. split; try assumption; cbn; [apply probe_wf_deactivate| |done]. intros g Hg%ai_probe_last0. lia.
Qed.

(** [frames] and [keeps] together. *)
Lemma frames_keeps {T A} (f : SupervisorState → T) (m : sup A) s Q D :
  frames m → keeps f m → aux_inv s →
  (∀ x s', aux_inv s' → core_of s' = core_of s → f s' = f s → Q (x, s') D) → hwp (m s) Q D.
Proof.
  intros Hm Hk Hs HQ. eapply hwp_mono; [|apply hwp_conj; [by apply Hm|by apply Hk]].
  intros [x s'] D' [(-> & Ha & Hc) Hf]. by apply HQ.
Qed.

Lemma reconcile_core_frames core : frames (reconcile_with_core core).
Proof.
  intros s D Hs. unfold reconcile_with_core. do 3 sup_step.
  apply (hwp_mono _ (λ r D', D' = D ∧ aux_inv r.2 ∧ core_of r.2 = core_of s ∧
    sv_observed_core_generation r.2 = Some (instance_generation core))).
  2: { case_bool_decide as Ho; [by sup_step|]. sup_step.
       change (hwp (forget_core (Some (instance_generation core)) s)) with
         (hwp (sup_modify (λ s, set_probes (deactivate (sv_probes s)) (set_cached_proxy_view None
           (set_probe_core_generation None (set_observed_core_generation (Some (instance_generation core)) s)))) s)).
       sup_step. eapply (frames_keeps sv_observed_core_generation);
         [auto with frames|apply keeps_observed_begin|by apply aux_inv_forget|]. done. }
  intros [[] s1] D' (-> & Ha1 & Hc1 & Ho1). cbn [fst snd] in *. do 2 sup_step.
  destruct (_ && _ && _); [by sup_step|]. sup_step.
  eapply (frames_keeps sv_observed_core_generation); [auto with frames|apply keeps_observed_order|done|].
  intros order s2 Ha2 Hc2 Ho2. cbn [fst snd]. destruct order as [order|e]; [|by sup_step; rewrite Hc2].
  do 2 sup_step. destruct x as [view|e].
  2: { use_frames s3 Ha3 Hc3; [done|]. by rewrite Hc3, Hc2. }
  do 2 sup_step. do 2 sup_step. sup_step.
  set (s3 := set_cached_proxy_view (Some view) s2). assert (aux_inv s3) as Ha3 by (by apply aux_inv_view).
  apply (hwp_mono _ (λ r D', D' = D ∧ aux_inv r.2 ∧ core_of r.2 = core_of s)).
  2: { case_bool_decide; [sup_step; by rewrite <-Hc1, <-Hc2|].
       eapply hwp_mono; [|apply seed_frames; [done|by rewrite <-Ho1, <-Ho2]].
       intros [[] s4] D' (-> & Ha4 & Hc4). split; [done|]. split; [done|]. by rewrite Hc4, <-Hc1, <-Hc2. }
  intros [[] s4] D' (-> & Ha4 & Hc4). cbn [fst snd] in *. do 2 sup_step.
  destruct (sv_selection_restore_pending s4) eqn:Hp; [|by sup_step].
  eapply hwp_mono; [|by apply restore_frames]. intros [[] s5] D' (-> & Ha5 & Hc5). cbn [snd] in *. by rewrite Hc5.
Qed.
Hint Resolve reconcile_core_frames : frames.

Lemma reconcile_frames : frames reconcile_runtime_state_locked.
Proof.
  unfold reconcile_runtime_state_locked. apply frames_bind; [auto with frames|]. intros [id|].
  - frames_auto.
  - frames_auto. apply frames_set_restore; [done|split; done || lia].
Qed.
Hint Resolve reconcile_frames : frames.

Lemma reset_frames : frames reset_runtime_state.
Proof.
  unfold reset_runtime_state. frames_auto. apply frames_modify; [|done]. intros s []. by split.
Qed.

End reconcile.
#[export] Hint Resolve frames_group_order frames_begin_restore frames_consume frames_forget_core frames_set_view
  reconcile_core_frames reconcile_frames reset_frames : frames.

(** *** Telemetry and the other pure parts *)

Lemma aux_inv_telemetry s t :
  aux_inv s → aux_inv (set_telemetry_generation (core_generation <$> t) (set_telemetry t s)).
Proof. intros []. by split. Qed.

Lemma frames_ensure_telemetry generation : frames (sup_run (λ s, ensure_telemetry s generation)).
Proof.
  intros s D Hs. sup_step. unfold ensure_telemetry.
  assert (∀ t, core_generation t = generation → aux_inv (set_stream_health disconnected_stream_health
    (set_telemetry_generation (Some generation) (set_telemetry (Some t) s)))) as Hnew.
  { intros t Ht. destruct Hs. split; try assumption. cbn. by rewrite Ht. }
  destruct (sv_telemetry s) as [t|] eqn:Ht, (sv_telemetry_generation s) as [g|] eqn:Hg; cbn.
  - destruct (negb (g =? generation)); cbn; [by split_and!; [|apply Hnew|]|done].
  - by split_and!; [|apply Hnew|].
  - by split_and!; [|apply Hnew|].
  - by split_and!; [|apply Hnew|].
Qed.
#[export] Hint Resolve frames_ensure_telemetry : frames.

Lemma frames_with_telemetry {A} (missing : A) f :
  (∀ t, core_generation (f t).2 = core_generation t) → frames (with_telemetry missing f).
Proof.
  intros Hf s D Hs. unfold with_telemetry. sup_step. destruct (sv_telemetry s) as [t|] eqn:Ht; [|done].
  specialize (Hf t). destruct (f t) as [r t']. cbn in *. split; [done|]. split; [|done].
  pose proof (ai_telemetry s Hs) as Hg. rewrite Ht in Hg. destruct Hs. split; try assumption. cbn. by rewrite Hg, Hf.
Qed.

Lemma frames_settle r : frames (settle_transaction r).
Proof. unfold settle_transaction. destruct r; frames_auto. Qed.
Lemma frames_begin_apply g c : frames (begin_apply g c).
Proof. unfold begin_apply. frames_auto. Qed.
Lemma frames_end_apply : frames end_apply.
Proof. unfold end_apply. frames_auto. Qed.
Lemma frames_compile p rules : frames (compile p rules).
Proof. unfold compile. frames_auto. Qed.
Lemma frames_validate c id : frames (validate_configuration c id).
Proof. unfold validate_configuration. frames_auto. Qed.
Lemma frames_load_view `{YamlCrate} : frames load_proxy_view.
Proof. unfold load_proxy_view. frames_auto. Qed.
#[export] Hint Resolve frames_settle frames_begin_apply frames_end_apply frames_compile frames_validate
  frames_load_view : frames.

(** ** Mutations *)

(** *** The catalog and the refresh scheduler together *)

Lemma insert_facts c p c' :
  catalog_wf c → 1 ≤ p_revision p ≤ u64_max → catalog_insert c p = (Ok tt, c') →
  catalog_wf c' ∧ cat_profiles c !! p_id p = None ∧ cat_profiles c' = <[p_id p := p]> (cat_profiles c) ∧
  cat_active_profile_id c' = cat_active_profile_id c.
Proof.
  intros Hwf Hp Hi. split; [|unfold catalog_insert in Hi; destruct (_ !! _) eqn:Hl; by simplify_eq].
  replace c' with (catalog_apply (λ _, None) c (OpInsert p)) by (cbn; by rewrite Hi). by apply catalog_wf_apply.
Qed.

Lemma activate_facts uuid_parse c sel id c' :
  catalog_wf c → activate uuid_parse c sel = (Ok id, c') →
  catalog_wf c' ∧ cat_profiles c' = cat_profiles c ∧ cat_active_profile_id c' = Some id.
Proof.
  intros Hwf Ha. split.
  - replace c' with (catalog_apply uuid_parse c (OpActivate sel)) by (cbn; by rewrite Ha). by apply catalog_wf_apply.
  - unfold activate in Ha. destruct (resolve uuid_parse c sel); [|done]. case_bool_decide; [by simplify_eq|].
    destruct (checked_add _ _); by simplify_eq.
Qed.

Lemma commit_facts c id context snapshot at1 at2 rev c' :
  catalog_wf c → commit_refresh c id context snapshot at1 at2 = (Ok rev, c') →
  catalog_wf c' ∧ cat_active_profile_id c' = cat_active_profile_id c ∧
  ∃ p, p_revision p = rev ∧ cat_profiles c' = <[id := p]> (cat_profiles c).
Proof.
  intros Hwf Ha. split.
  - replace c' with (catalog_apply (λ _, None) c (OpCommit id context snapshot at1 at2)) by (cbn; by rewrite Ha).
    by apply catalog_wf_apply.
  - unfold commit_refresh in Ha. destruct (cat_profiles c !! id) as [p|] eqn:Hp; [|done].
    destruct (negb _); [done|]. destruct (_ && _); [done|]. destruct (checked_add _ _); [|done].
    simplify_eq/=. split; [done|]. eexists. split; [|reflexivity]. done.
Qed.

Lemma remove_facts uuid_parse c sel p c' :
  catalog_wf c → catalog_remove uuid_parse c sel = (Ok p, c') →
  catalog_wf c' ∧ cat_profiles c' = delete (p_id p) (cat_profiles c) ∧
  cat_active_profile_id c' = cat_active_profile_id c.
Proof.
  intros Hwf Ha. split.
  - replace c' with (catalog_apply uuid_parse c (OpRemove sel)) by (cbn; by rewrite Ha). by apply catalog_wf_apply.
  - unfold catalog_remove in Ha. destruct (resolve uuid_parse c sel) as [id|]; [|done]. case_bool_decide; [done|].
    destruct (cat_profiles c !! id) as [q|] eqn:Hq; [|done]. simplify_eq/=.
    by destruct (catalog_keys c Hwf id p Hq) as [-> _].
Qed.

Lemma update_facts c id f c' :
  catalog_wf c → keeps_identity f → update_profile c id f = Some c' →
  catalog_wf c' ∧ cat_active_profile_id c' = cat_active_profile_id c ∧
  ∃ p, cat_profiles c !! id = Some p ∧ cat_profiles c' = <[id := f p]> (cat_profiles c).
Proof.
  intros Hwf Hf Hu. unfold update_profile in Hu. destruct (cat_profiles c !! id) as [p|] eqn:Hp; [|done].
  simplify_eq/=. split; [|split; [done|eauto]].
  replace (MkProfileCatalog _ _ _) with (catalog_apply (λ _, None) c (OpUpdate id f)).
  - by apply catalog_wf_apply.
  - cbn. f_equal. apply map_eq. intros i. destruct (decide (i = id)) as [->|].
    + by rewrite lookup_alter_eq, lookup_insert_eq, Hp.
    + by rewrite lookup_alter_ne, lookup_insert_ne.
Qed.

Lemma upsert_revisions r id rev at_ id' :
  refresh_revisions (upsert r id rev at_) id' = if decide (id' = id) then Some rev else refresh_revisions r id'.
Proof.
  unfold refresh_revisions, upsert. destruct (rs_entries r !! id); cbn; case_decide; subst;
    by rewrite ?lookup_insert_eq, ?lookup_insert_ne.
Qed.

Lemma remove_revisions r id id' :
  refresh_revisions (refresh_remove r id).2 id' = if decide (id' = id) then None else refresh_revisions r id'.
Proof. unfold refresh_revisions. cbn. case_decide; subst; by rewrite ?lookup_delete_eq, ?lookup_delete_ne. Qed.

Lemma start_refreshes_entries due r : rs_entries (start_refreshes due r).2 = rs_entries r.
Proof.
  revert r. induction due as [|[d [id [rev reg]]] due IH]; intros r; cbn; [done|].
  specialize (IH (MkRefreshScheduler (rs_entries r) (<[id := MkInFlightRefresh (rs_next_attempt_id r) reg]> (rs_in_flight r))
    (next_nonzero (rs_next_attempt_id r)) (rs_next_registration_id r))).
  destruct (start_refreshes due _) as [tasks r']. done.
Qed.

Lemma take_due_revisions r now id : refresh_revisions (refresh_take_due r now).2 id = refresh_revisions r id.
Proof. unfold refresh_revisions, refresh_take_due. by rewrite start_refreshes_entries. Qed.

(** The Supervisor completes a task at the revision it was issued for. *)
Lemma complete_revisions r task now id :
  refresh_revisions (refresh_complete r (MkRefreshCompletion task (rt_profile_revision task) now)).2 id =
  refresh_revisions r id.
Proof.
  unfold refresh_revisions, refresh_complete. cbn. destruct (rs_in_flight r !! _) as [f|]; [|done].
  destruct (_ || _); [done|]. destruct (rs_entries r !! rt_profile_id task) as [e|] eqn:He; [|done].
  destruct (_ || _) eqn:Hrev; [done|]. cbn. apply orb_false_iff in Hrev as [_ Hrev].
  apply negb_false_iff, Z.eqb_eq in Hrev. destruct (decide (id = rt_profile_id task)) as [->|].
  - rewrite lookup_insert_eq, He. cbn. by rewrite Hrev.
  - by rewrite lookup_insert_ne.
Qed.

Lemma insert_revisions (m : gmap Z Profile) id p a r id' :
  profile_revisions (MkProfileCatalog (<[id := p]> m) a r) id' =
  if decide (id' = id) then Some (p_revision p) else p_revision <$> m !! id'.
Proof. unfold profile_revisions. cbn. case_decide; subst; by rewrite ?lookup_insert_eq, ?lookup_insert_ne. Qed.

(** *** Atomicity *)

Lemma kept_inv s s' D D' :
  core_inv s D → aux_inv s' → core_of s' = core_of s → D' = D ∨ D' = Unknown → sup_inv s' D'.
Proof.
  intros Hc Ha Hs HD. split; [|done]. apply (core_inv_of s s'); [done|].
  destruct HD as [->| ->]; [done|]. destruct Hc. split; try assumption. done.
Qed.

Lemma accepted_facts r :
  accepted r →
  cat_profiles (req_profiles r) ≠ ∅ ∧ zsize (cat_profiles (req_profiles r)) ≤ PROFILE_COUNT_MAX ∧
  is_Some (cat_active_profile_id (req_profiles r)).
Proof.
  unfold accepted, State.validate_candidate. cbn.
  destruct (bool_decide (cat_profiles _ = ∅)) eqn:H1; [done|]. destruct (Z.ltb_spec PROFILE_COUNT_MAX (zsize (cat_profiles (req_profiles r)))); [done|].
  destruct (bool_decide (cat_active_profile_id _ = None)) eqn:H2; [done|]. intros _.
  apply bool_decide_eq_false in H1, H2. split; [done|]. split; [lia|]. by destruct (cat_active_profile_id _).
Qed.

(** A state whose transactional part has just been committed. *)
Definition committed_state (s : SupervisorState) (d : Snapshot) : Prop :=
  core_inv s (Known (Some d)) ∧ snapshot_of s = Some d.

Lemma committed_core s r :
  accepted r → snapshot_of s = Some (request_snapshot r) → catalog_wf (sv_profiles s) →
  is_ok (rule_strings (sv_local_rules s)) = true →
  (∀ id, refresh_revisions (sv_refreshes s) id = profile_revisions (sv_profiles s) id) →
  committed_state s (request_snapshot r).
Proof.
  intros Hr Hs Hwf Hrules Href. split; [|done]. apply accepted_facts in Hr as (Hne & Hcount & [id Hact]).
  assert (sv_profiles s = req_profiles r) as Hp.
  { unfold snapshot_of in Hs. destruct (sv_effective_configuration s); [|done].
    destruct (sv_runtime_generation s); [|done]. by injection Hs. }
  split; rewrite ?Hp in *; try done; rewrite ?Hact; try naive_solver.
Qed.

(** What a section does to the transactional part: nothing, or something that is
    committed; a failure is [failed]. *)
Definition atomic_by {A} (failed : A → bool) (m : sup A) : Prop :=
  ∀ s D, sup_inv s D → hwp (m s) (λ r D',
    sup_inv r.2 D' ∧
    if failed r.1 then core_of r.2 = core_of s ∧ (D' = D ∨ D' = Unknown)
    else (core_of r.2 = core_of s ∧ D' = D) ∨ ∃ d, snapshot_of r.2 = Some d ∧ D' = Known (Some d)) D.

Definition is_err {A E} (r : result A E) : bool := negb (is_ok r).
Definition atomic {A E} (m : sup (result A E)) : Prop := atomic_by is_err m.

Lemma frames_atomic {A} failed (m : sup A) : frames m → atomic_by failed m.
Proof.
  intros Hm s D [Hc Ha]. eapply hwp_mono; [|by apply Hm]. intros [x s'] D' (-> & Ha' & Hc').
  split; [by apply (kept_inv s _ D); auto|]. cbn [fst snd] in *. destruct (failed x); [by auto|by left].
Qed.

(** The commit of new profiles next to the configuration that is in force. *)
Lemma persist_spec profiles local_rules s D :
  hwp (persist_metadata profiles local_rules s) (λ r D', r.2 = s ∧
    match r.1 with
    | Ok _ => ∃ configuration generation,
        sv_effective_configuration s = Some configuration ∧ sv_runtime_generation s = Some generation ∧
        accepted (transaction_request profiles local_rules configuration generation) ∧
        D' = Known (Some (MkSnapshot profiles local_rules configuration generation))
    | Err _ => D' = D ∨ D' = Unknown
    end) D.
Proof.
  unfold persist_metadata. do 2 sup_step. do 2 sup_step.
  destruct (sv_effective_configuration s) as [configuration|]; cbn [ok_or]; [|auto].
  do 2 sup_step. destruct (sv_runtime_generation s) as [generation|]; cbn [ok_or]; [|auto].
  sup_step. apply hwp_sup_call; [done|]. intros [[]|e] D' Hs; cbn in Hs |- *; [|done].
  destruct Hs as [Ha ->]. eauto 10.
Qed.

Lemma apply_spec profiles local_rules configuration generation fail_fast s D :
  hwp (apply_candidate profiles local_rules configuration generation fail_fast s) (λ r D', r.2 = s ∧
    transacts (transaction_request profiles local_rules configuration generation) D r.1 D') D.
Proof. apply hwp_sup_call; [done|]. by intros x D' Hs. Qed.

Lemma core_of_inv s s' : core_of s' = core_of s →
  sv_profiles s' = sv_profiles s ∧ sv_local_rules s' = sv_local_rules s ∧
  sv_effective_configuration s' = sv_effective_configuration s ∧
  sv_runtime_generation s' = sv_runtime_generation s ∧ sv_refreshes s' = sv_refreshes s.
Proof. unfold core_of. by intros [=]. Qed.

Lemma committed_done s s2 s' d (D : Durable) :
  committed_state s2 d → aux_inv s' → core_of s' = core_of s2 →
  sup_inv s' (Known (Some d)) ∧
  ((core_of s' = core_of s ∧ Known (Some d) = D) ∨
   ∃ d', snapshot_of s' = Some d' ∧ Known (Some d) = Known (Some d')).
Proof.
  intros [Hc Hs] Ha Hs'. split; [split; [by apply (core_inv_of s2)|done]|]. right. exists d. split; [|done].
  apply core_of_inv in Hs' as (Hp & Hr & Hcf & Hg & _). rewrite <-Hs. unfold snapshot_of. by rewrite Hp, Hr, Hcf, Hg.
Qed.

Lemma metadata_core s s' D profiles refreshes configuration generation :
  core_inv s D → sv_effective_configuration s = Some configuration → sv_runtime_generation s = Some generation →
  accepted (transaction_request profiles (sv_local_rules s) configuration generation) →
  core_of s' = (profiles, sv_local_rules s, sv_effective_configuration s, sv_runtime_generation s, refreshes) →
  catalog_wf profiles → (∀ id, refresh_revisions refreshes id = profile_revisions profiles id) →
  committed_state s' (MkSnapshot profiles (sv_local_rules s) configuration generation).
Proof.
  intros Hc Hcfg Hgen Hacc [= Hp Hr Hs Hg Hf] Hwf Href.
  apply (committed_core s' (transaction_request profiles (sv_local_rules s) configuration generation));
    rewrite ?Hp, ?Hr, ?Hf; try done; [unfold snapshot_of; by rewrite Hs, Hg, Hp, Hr, Hcfg, Hgen|].
  apply (ci_rules _ _ Hc). destruct (cat_active_profile_id (sv_profiles s)) eqn:Hact; [done|].
  destruct (ci_unconfigured _ _ Hc Hact). congruence.
Qed.

(** A metadata commit, up to the state that is stored afterwards. *)
Lemma metadata_step {A} profiles s s1 D (Q : result A ApplicationError * SupervisorState → Durable → Prop)
    (m : sup (result A ApplicationError)) :
  core_inv s D → aux_inv s1 → core_of s1 = core_of s →
  (∀ e D', D' = D ∨ D' = Unknown → sup_inv s1 D' → Q (Err e, s1) D') →
  (∀ configuration generation,
     sv_effective_configuration s = Some configuration → sv_runtime_generation s = Some generation →
     accepted (transaction_request profiles (sv_local_rules s) configuration generation) →
     hwp (m s1) Q (Known (Some (MkSnapshot profiles (sv_local_rules s) configuration generation)))) →
  hwp (sup_try (persist_metadata profiles (sv_local_rules s1)) (λ _, m) s1) Q D.
Proof.
  intros Hc Ha Hs He Hk. apply core_of_inv in Hs as Hs'. destruct Hs' as (Hp & Hr & Hcfg & Hgen & Hf).
  sup_step. eapply hwp_mono; [|apply persist_spec]. intros [[[]|e] s2] D' [-> Hx]; cbn [fst snd] in *.
  - destruct Hx as (cfg & gen & H1 & H2 & Hacc & ->). rewrite Hr in *. apply Hk; congruence.
  - apply He; [done|]. by eapply kept_inv.
Qed.

Lemma settle_spec r s D :
  aux_inv s → hwp (settle_transaction r s) (λ x D',
    D' = D ∧ aux_inv x.2 ∧ core_of x.2 = core_of s ∧ x.1 = map_err map_transaction_error r) D.
Proof.
  intros Ha. unfold settle_transaction. destruct r as [success|failure]; cbn [map_err].
  - sup_step. use_frames s1 Ha1 Hc1; [done|]. sup_steps. done.
  - sup_step. use_frames s1 Ha1 Hc1; [done|]. sup_steps. done.
Qed.

(** A transaction and its settlement. *)
Lemma settled_step {A} (m : sup (result ConfigTransactionSuccess SupervisorTransactionFailure))
    (k : result ConfigTransactionSuccess SupervisorTransactionFailure →
         result ConfigTransactionSuccess ApplicationError → sup A) r s s1 D Q :
  (∀ s D, hwp (m s) (λ x D', x.2 = s ∧ transacts r D x.1 D') D) →
  aux_inv s1 → core_of s1 = core_of s →
  (∀ failure s2 D', aux_inv s2 → core_of s2 = core_of s → D' = D ∨ D' = Unknown →
     hwp (k (Err failure) (Err (map_transaction_error failure)) s2) Q D') →
  (∀ success s2, aux_inv s2 → core_of s2 = core_of s →
     success_committed_generation success = req_generation r → accepted r →
     hwp (k (Ok success) (Ok success) s2) Q (Known (Some (request_snapshot r)))) →
  hwp (sup_bind m (λ result, sup_bind (settle_transaction result) (k result)) s1) Q D.
Proof.
  intros Hm Ha Hc Herr Hok. sup_step. eapply hwp_mono; [|apply Hm]. intros [x s2] D' [-> Ht]. cbn [fst snd] in *.
  sup_step. eapply hwp_mono; [|by apply settle_spec]. intros [y s3] D2 (-> & Ha3 & Hc3 & ->). cbn [fst snd] in *.
  destruct x as [success|failure]; cbn [map_err].
  - destruct Ht as (? & ? & ->). apply Hok; [done|congruence|done|done].
  - apply Herr; [done|congruence|done].
Qed.

(** A failed step of a refresh. *)
Definition refresh_failed (r : result RefreshStep ApplicationError) : bool :=
  match r with Ok (StepDone _) => false | Ok (StepFailed _ _ _) | Err _ => true end.

(** The state is as before. *)
Ltac kept :=
  split; [first [by split|by eapply kept_inv; eauto]|cbn [fst snd is_err is_ok negb refresh_failed]; auto].

Section mutations.
Context `{YamlCrate} (sha256 : bytes → bytes) (uuid_to_string : Z → str) (uuid_parse : str → option Z).

Lemma remove_atomic selector : atomic (remove_locked uuid_to_string uuid_parse selector).
Proof.
  intros s D [Hc Ha]. unfold remove_locked. do 2 sup_step.
  destruct (catalog_remove uuid_parse (sv_profiles s) selector) as [r profiles] eqn:Hrem. do 2 sup_step.
  destruct r as [removed|e]; cbn [map_err]; [|by kept].
  apply remove_facts in Hrem as (Hwf & Hprof & Hact); [|apply Hc]. do 2 sup_step.
  apply (metadata_step profiles s); [done..|by intros; kept|].
  intros cfg gen Hcfg Hgen Hacc. sup_steps.
  eapply committed_done; [|destruct Ha; by split|reflexivity].
  eapply (metadata_core s); [exact Hc|done|done|done|reflexivity|done|].
  intros id. cbn [sv_refreshes set_refreshes]. rewrite remove_revisions, (ci_refreshes _ _ Hc). unfold profile_revisions. rewrite Hprof.
  case_decide; subst; by rewrite ?lookup_delete_eq, ?lookup_delete_ne.
Qed.

Lemma with_failure_identity stage message at_ : keeps_identity (with_failure stage message at_).
Proof. by intros p. Qed.
Lemma with_selection_identity group id : keeps_identity (with_selection group id).
Proof. by intros p. Qed.

(** After a profile is updated in place. *)
Lemma update_revisions c id f c' :
  keeps_identity f → update_profile c id f = Some c' → ∀ i, profile_revisions c' i = profile_revisions c i.
Proof.
  intros Hf Hu i. unfold update_profile in Hu. destruct (cat_profiles c !! id) as [p|] eqn:Hp; [|done].
  simplify_eq/=. unfold profile_revisions. cbn. destruct (decide (i = id)) as [->|].
  - rewrite lookup_insert_eq, Hp. cbn. by destruct (Hf p) as (_ & -> & _).
  - by rewrite lookup_insert_ne.
Qed.

Lemma record_failure_atomic id context stage message : atomic (record_failure_locked id context stage message).
Proof.
  intros s D [Hc Ha]. unfold record_failure_locked. do 2 sup_step.
  destruct (refresh_is_stale _ _ _); [sup_step; by kept|]. do 2 sup_step.
  destruct (cat_profiles (sv_profiles s) !! id) as [p|] eqn:Hp; cbn [ok_or]; [|by kept]. do 2 sup_step. do 2 sup_step.
  set (f := with_failure _ _ _). destruct (update_profile (sv_profiles s) id f) as [updated|] eqn:Hu; cbn [ok_or]; [|by kept].
  assert (keeps_identity f) as Hf by apply with_failure_identity.
  pose proof (update_revisions _ _ _ _ Hf Hu) as Hrev.
  apply update_facts in Hu as (Hwf & Hact & q & Hq & Hprof); [|apply Hc|done]. simplify_eq. do 2 sup_step.
  apply (metadata_step updated s); [done..|by intros; kept|]. intros cfg gen Hcfg Hgen Hacc. do 2 sup_step. do 2 sup_step.
  assert (cat_profiles updated !! id = Some (f p)) as Hl by (rewrite Hprof; apply lookup_insert_eq).
  rewrite Hl. cbn [ok_or]. sup_step. unfold upsert_refresh. sup_steps.
  eapply committed_done; [|destruct Ha; by split|reflexivity].
  eapply (metadata_core s); [exact Hc|done|done|done|reflexivity|done|].
  intros i. cbn [sv_refreshes set_refreshes]. rewrite upsert_revisions, Hrev. cbn [sv_refreshes set_profiles].
    rewrite (ci_refreshes _ _ Hc). case_decide as Hi; [|done]. subst i. unfold profile_revisions. by rewrite Hp.
Qed.

Lemma select_atomic group node : atomic (select_locked group node).
Proof.
  intros s D [Hc Ha]. unfold select_locked. sup_step. use_frames s1 Ha1 Hc1; [done|].
  match goal with |- context [match ?x with Ok _ => _ | Err _ => _ end] => destruct x as [[core view]|e] end; [|by kept].
  cbn [fst snd]. do 2 sup_step. destruct (resolve_proxy_group view group) as [g|e]; [|by kept].
  do 2 sup_step. destruct (selection_by_selector view (pg_name g) node) as [selection|e]; cbn [map_err]; [|by kept].
  do 3 sup_step. destruct x as [[]|[]]; cbn [map_err]; [|by kept]. do 4 sup_step.
  apply core_of_inv in Hc1 as Hc1'. destruct Hc1' as (Hp1 & Hr1 & _). rewrite Hp1.
  destruct (cat_active_profile_id (sv_profiles s)) as [id|]; cbn [ok_or]; [|by kept]. do 2 sup_step.
  set (f := with_selection _ _). destruct (update_profile (sv_profiles s) id f) as [updated|] eqn:Hu; cbn [ok_or]; [|by kept].
  assert (keeps_identity f) as Hf by apply with_selection_identity.
  pose proof (update_revisions _ _ _ _ Hf Hu) as Hrev.
  apply update_facts in Hu as (Hwf & _); [|apply Hc|done]. do 2 sup_step. sup_step.
  eapply hwp_mono; [|apply persist_spec]. intros [[[]|e] s2] D' [-> Hx]; cbn [fst snd] in *.
  - destruct Hx as (cfg & gen & Hcfg & Hgen & Hacc & ->).
    assert (core_inv s1 D) as Hci by (by apply (core_inv_of s)).
    assert (committed_state (set_profiles updated s1) (MkSnapshot updated (sv_local_rules s1) cfg gen)) as Hcom.
    { eapply (metadata_core s1); [exact Hci|done|done|done|reflexivity|done|].
      intros i. cbn [sv_refreshes set_profiles]. rewrite Hrev, <-Hp1. apply (ci_refreshes _ _ Hci). }
    do 4 sup_step. sup_step. use_frames s3 Ha3 Hc3; [|sup_step; use_frames s4 Ha4 Hc4; [done|]; sup_step].
    + apply aux_inv_restore; [destruct Ha1; by split|done|split; done || lia].
    + eapply committed_done; [exact Hcom|done|]. by rewrite Hc4, Hc3.
  - sup_step.
    apply (hwp_mono _ (λ r D1, D1 = D' ∧ r.2 = s1)).
    2: { destruct (_ ≫= _) as [previous|]; [|by sup_step]. sup_step. sup_step. by sup_step. }
    intros [compensated s3] D1 [-> ->]. cbn [fst snd]. sup_step.
    apply (hwp_mono _ (λ r D1, D1 = D' ∧ aux_inv r.2 ∧ core_of r.2 = core_of s)).
    2: { destruct compensated; [by sup_step|]. by use_frames s4 Ha4 Hc4; [|rewrite Hc4]. }
    intros [[] s4] D1 (-> & Ha4 & Hc4). sup_step. cbn [snd] in *. kept.
Qed.

Lemma upsert_insert r (c c' : ProfileCatalog) id p at_ i :
  (∀ i, refresh_revisions r i = profile_revisions c i) → cat_profiles c' = <[id := p]> (cat_profiles c) →
  refresh_revisions (upsert r id (p_revision p) at_) i = profile_revisions c' i.
Proof.
  intros Hr Hc. rewrite upsert_revisions, Hr. unfold profile_revisions. rewrite Hc.
  case_decide; subst; by rewrite ?lookup_insert_eq, ?lookup_insert_ne.
Qed.

(** The outcome of adding a profile: nothing, or a committed state that has it. *)
Definition added {A} (id : Z) (s : SupervisorState) (D : Durable)
    (r : result A ApplicationError * SupervisorState) (D' : Durable) : Prop :=
  if is_err r.1 then sup_inv r.2 D' ∧ core_of r.2 = core_of s ∧ (D' = D ∨ D' = Unknown)
  else ∃ d, committed_state r.2 d ∧ aux_inv r.2 ∧ D' = Known (Some d) ∧
            is_Some (cat_profiles (sv_profiles r.2) !! id).

Lemma added_kept {A} id s s' D D' (e : ApplicationError) :
  core_inv s D → aux_inv s' → core_of s' = core_of s → D' = D ∨ D' = Unknown →
  added (A := A) id s D (Err e, s') D'.
Proof. intros. split; [by eapply kept_inv|done]. Qed.

(** [profiles] is the catalog of the state with the profile inserted. *)
Lemma add_another_spec profile profiles s D :
  sup_inv s D → catalog_insert (sv_profiles s) profile = (Ok tt, profiles) →
  1 ≤ p_revision profile ≤ u64_max →
  hwp (add_another profiles (p_id profile) s) (added (p_id profile) s D) D.
Proof.
  intros [Hc Ha] Hi Hrev. apply insert_facts in Hi as (Hwf & Hnone & Hprof & Hact); [|apply Hc|done].
  unfold add_another. do 2 sup_step.
  assert (cat_profiles profiles !! p_id profile = Some profile) as Hl by (rewrite Hprof; apply lookup_insert_eq).
  rewrite Hl. cbn [ok_or]. sup_step. use_frames s1 Ha1 Hc1; [done|].
  match goal with |- context [match ?x with Ok _ => _ | Err _ => _ end] => destruct x as [cfg|e] end;
    [|apply added_kept; auto].
  sup_step. use_frames s2 Ha2 Hc2; [done|]. rewrite Hc1 in Hc2.
  match goal with |- context [match ?x with Ok _ => _ | Err _ => _ end] => destruct x as [[]|e] end;
    [|apply added_kept; auto].
  do 2 sup_step.
  apply (metadata_step profiles s); [done..|by intros; apply added_kept|]. intros cfg' gen Hcfg Hgen Hacc. do 2 sup_step.
  sup_step. unfold upsert_stored. rewrite Hl. sup_step. sup_step. cbn [ok_or]. sup_step. unfold upsert_refresh. sup_steps.
  apply core_of_inv in Hc2 as (Hp2 & Hr2 & Hcf2 & Hg2 & Hf2). eexists. cbn [snd].
  split; [|split; [destruct Ha2; by split|split; [reflexivity|by cbn; rewrite Hl]]].
  eapply (metadata_core s); [exact Hc|done|done|done|unfold core_of; cbn; by rewrite Hr2, Hcf2, Hg2|done|].
  intros i. rewrite Hf2. apply (upsert_insert _ (sv_profiles s)); [apply Hc|done].
Qed.

Lemma core_of_committed s s' d : core_of s' = core_of s → committed_state s d → committed_state s' d.
Proof.
  intros Hs' [Hc Hs]. split; [by apply (core_inv_of s)|]. apply core_of_inv in Hs' as (Hp & Hr & Hcf & Hg & _).
  rewrite <-Hs. unfold snapshot_of. by rewrite Hp, Hr, Hcf, Hg.
Qed.

(** The state after [adopt] has just been committed. *)
Lemma adopted_committed s' r success profiles local_rules refreshes :
  accepted r → success_committed_generation success = req_generation r →
  req_profiles r = profiles → req_local_rules r = local_rules →
  core_of s' = (profiles, local_rules, Some (req_configuration r),
                Some (success_committed_generation success), refreshes) →
  catalog_wf profiles → is_ok (rule_strings local_rules) = true →
  (∀ i, refresh_revisions refreshes i = profile_revisions profiles i) →
  committed_state s' (request_snapshot r).
Proof.
  intros Hacc Hg Hp Hr [= Hp' Hr' Hc' Hg' Hf'] Hwf Hrules Href.
  apply committed_core; rewrite ?Hp', ?Hr', ?Hf'; try done.
  unfold snapshot_of. rewrite Hp', Hr', Hc', Hg', Hg. cbn. unfold request_snapshot. by rewrite Hp, Hr.
Qed.

Lemma add_first_spec profile profiles s D :
  sup_inv s D → catalog_insert (sv_profiles s) profile = (Ok tt, profiles) →
  1 ≤ p_revision profile ≤ u64_max →
  hwp (add_first uuid_to_string uuid_parse profiles (p_id profile) s) (added (p_id profile) s D) D.
Proof.
  intros [Hc Ha] Hi Hrev. apply insert_facts in Hi as (Hwf & Hnone & Hprof & Hact); [|apply Hc|done].
  unfold add_first. destruct (activate uuid_parse profiles _) as [r activated] eqn:Hactivate. do 2 sup_step.
  destruct r as [id|e]; cbn [map_err]; [|apply added_kept; auto].
  apply activate_facts in Hactivate as (Hwf' & Hprof' & Hid); [|done]. rewrite Hprof in Hprof'.
  assert (cat_profiles activated !! p_id profile = Some profile) as Hl by (rewrite Hprof'; apply lookup_insert_eq).
  do 2 sup_step. rewrite Hl. cbn [ok_or]. do 2 sup_step.
  destruct (collect _ _) as [rules|e]; cbn [map_err]; [|apply added_kept; auto]. do 2 sup_step.
  destruct (rule_strings (initialized rules)) as [strings|e] eqn:Hrules; [|apply added_kept; auto].
  sup_step. use_frames s1 Ha1 Hc1; [done|].
  match goal with |- context [match ?x with Ok _ => _ | Err _ => _ end] => destruct x as [cfg|e] end;
    [|apply added_kept; auto].
  do 2 sup_step. sup_step. use_frames s2 Ha2 Hc2; [done|]. rewrite Hc1 in Hc2.
  apply (settled_step _ _ (transaction_request activated (initialized rules) cfg 1) s);
    [intros; apply apply_spec|done|done| |].
  - intros failure s3 D' Ha3 Hc3 HD. sup_step. use_frames s4 Ha4 Hc4; [done|]. rewrite Hc3 in Hc4. sup_step.
    apply added_kept; auto.
  - intros success s3 Ha3 Hc3 Hg Hacc. do 2 sup_step. unfold adopt. do 2 sup_step. sup_step.
    unfold upsert_stored. rewrite Hl. do 2 sup_step. cbn [ok_or]. unfold upsert_refresh. do 3 sup_step.
    match goal with |- hwp (sup_bind _ _ ?s4) _ _ => set (t := s4) end.
    assert (aux_inv t) as Hat by (destruct Ha3; by split).
    apply core_of_inv in Hc3 as (Hp3 & Hr3 & Hcf3 & Hg3 & Hf3).
    assert (committed_state t (request_snapshot (transaction_request activated (initialized rules) cfg 1))) as Hcom.
    { eapply (adopted_committed t _ success activated (initialized rules)); [exact Hacc|exact Hg|reflexivity|reflexivity|reflexivity|done|by rewrite Hrules|].
      intros i. unfold t. cbn [sv_refreshes set_refreshes set_runtime_generation set_effective_configuration set_local_rules set_profiles].
      rewrite Hf3. apply (upsert_insert _ (sv_profiles s)); [apply Hc|done]. }
    sup_step. use_frames s5 Ha5 Hc5; [done|]. sup_step. use_frames s6 Ha6 Hc6; [done|]. sup_step.
    rewrite Hc5 in Hc6. eexists. cbn [snd]. split; [by eapply core_of_committed|]. split; [done|]. split; [reflexivity|].
    apply core_of_inv in Hc6 as (-> & _). cbn. by rewrite Hl.
Qed.

Lemma add_commit_atomic profile :
  1 ≤ p_revision profile ≤ u64_max → atomic (add_commit uuid_to_string uuid_parse profile).
Proof.
  intros Hrev s D Hs. pose proof Hs as [Hc Ha]. unfold add_commit. do 2 sup_step.
  destruct (catalog_insert (sv_profiles s) profile) as [r profiles] eqn:Hi. do 2 sup_step.
  destruct r as [[]|e]; cbn [map_err]; [|by kept].
  sup_step. apply (hwp_mono _ (added (p_id profile) s D)).
  2: { case_bool_decide; [by apply add_first_spec|by apply add_another_spec]. }
  intros [[outcome|e] s1] D' Hadd; cbn [fst snd] in *.
  - destruct Hadd as (d & Hcom & Ha1 & -> & q & Hq). cbn [snd] in *. do 4 sup_step. rewrite Hq. cbn [ok_or]. sup_step.
    by eapply committed_done.
  - destruct Hadd as (Hinv & Hcore & HD). split; [done|]. done.
Qed.

Ltac on_answer pat := match goal with |- context [match ?x with Ok _ => _ | Err _ => _ end] => destruct x as pat end.

Lemma activate_atomic selector : atomic (activate_locked uuid_to_string uuid_parse selector).
Proof.
  intros s D [Hc Ha]. unfold activate_locked. do 4 sup_step. unfold resolve_profile.
  destruct (resolve uuid_parse (sv_profiles s) selector) as [id|e]; cbn [map_err]; [|by kept].
  case_bool_decide as Hsame.
  { do 2 sup_step. destruct (cat_profiles (sv_profiles s) !! id); cbn [ok_or]; [sup_step|]; by kept. }
  destruct (activate uuid_parse (sv_profiles s) _) as [r activated] eqn:Hactivate. do 2 sup_step.
  destruct r as [id'|e]; cbn [map_err]; [|by kept].
  apply activate_facts in Hactivate as (Hwf & Hprof & Hid); [|apply Hc].
  do 2 sup_step. destruct (cat_profiles activated !! id) as [p|] eqn:Hl; cbn [ok_or]; [|by kept]. do 2 sup_step.
  destruct (rule_strings (sv_local_rules s)) as [rules|e] eqn:Hrules; [|by kept].
  sup_step. use_frames s1 Ha1 Hc1; [done|]. on_answer ipattern:([cfg|e]); [|by kept].
  do 2 sup_step. destruct (next_runtime_generation _) as [gen|e]; [|by kept].
  sup_step. use_frames s2 Ha2 Hc2; [done|]. rewrite Hc1 in Hc2.
  apply (settled_step _ _ (transaction_request activated (sv_local_rules s) cfg gen) s);
    [intros; apply apply_spec|done|done| |].
  - intros failure s3 D' Ha3 Hc3 HD. sup_step. use_frames s4 Ha4 Hc4; [done|]. rewrite Hc3 in Hc4. sup_step. by kept.
  - intros success s3 Ha3 Hc3 Hg Hacc. do 2 sup_step. unfold adopt. do 4 sup_step.
    match goal with |- hwp (sup_bind _ _ ?s4) _ _ => set (t := s4) end.
    assert (aux_inv t) as Hat by (destruct Ha3; by split).
    apply core_of_inv in Hc3 as (Hp3 & Hr3 & Hcf3 & Hg3 & Hf3).
    assert (committed_state t (request_snapshot (transaction_request activated (sv_local_rules s) cfg gen))) as Hcom.
    { eapply (adopted_committed t _ success activated (sv_local_rules s) (sv_refreshes s));
        [exact Hacc|exact Hg|reflexivity|reflexivity| |done|by rewrite Hrules|].
      - unfold t, core_of. cbn. by rewrite Hr3, Hf3.
      - intros i. rewrite (ci_refreshes _ _ Hc). unfold profile_revisions. by rewrite Hprof. }
    sup_step. use_frames s5 Ha5 Hc5; [done|]. do 2 sup_step. sup_step.
    use_frames s6 Ha6 Hc6; [done|]. sup_step. rewrite Hc5 in Hc6. by eapply committed_done.
Qed.

Lemma refresh_active_atomic id context snapshot now next_at :
  atomic_by refresh_failed (refresh_active id context snapshot now next_at).
Proof.
  intros s D [Hc Ha]. unfold refresh_active. do 2 sup_step.
  destruct (commit_refresh (sv_profiles s) id context snapshot now next_at) as [r profiles] eqn:Hcommit. do 2 sup_step.
  destruct r as [rev|e]; cbn [map_err]; [|by kept].
  apply commit_facts in Hcommit as (Hwf & Hact & p & Hrev & Hprof); [|apply Hc].
  assert (cat_profiles profiles !! id = Some p) as Hl by (rewrite Hprof; apply lookup_insert_eq).
  do 2 sup_step. rewrite Hl. cbn [ok_or]. do 2 sup_step.
  destruct (rule_strings (sv_local_rules s)) as [rules|e] eqn:Hrules; [|by kept].
  sup_step. use_frames s1 Ha1 Hc1; [done|]. on_answer ipattern:([cfg|e]); [|sup_step; by kept].
  do 2 sup_step. destruct (next_runtime_generation _) as [gen|e]; [|by kept].
  sup_step. use_frames s2 Ha2 Hc2; [done|]. rewrite Hc1 in Hc2.
  apply (settled_step _ _ (transaction_request profiles (sv_local_rules s) cfg gen) s);
    [intros; apply apply_spec|done|done| |].
  - intros failure s3 D' Ha3 Hc3 HD. sup_step. by kept.
  - intros success s3 Ha3 Hc3 Hg Hacc. do 2 sup_step. unfold adopt. do 4 sup_step. cbn [ok_or].
    unfold upsert_refresh. do 2 sup_step.
    match goal with |- hwp (sup_bind _ _ ?s4) _ _ => set (t := s4) end.
    assert (aux_inv t) as Hat by (destruct Ha3; by split).
    apply core_of_inv in Hc3 as (Hp3 & Hr3 & Hcf3 & Hg3 & Hf3).
    assert (committed_state t (request_snapshot (transaction_request profiles (sv_local_rules s) cfg gen))) as Hcom.
    { eapply (adopted_committed t _ success profiles (sv_local_rules s)
        (upsert (sv_refreshes s) id (p_revision p) next_at));
        [exact Hacc|exact Hg|reflexivity|reflexivity| |done|by rewrite Hrules|].
      - unfold t, core_of. cbn [sv_profiles sv_local_rules sv_effective_configuration sv_runtime_generation
          sv_refreshes set_refreshes set_runtime_generation set_effective_configuration set_profiles].
        by rewrite Hr3, Hf3.
      - intros i. apply (upsert_insert _ (sv_profiles s)); [apply Hc|done]. }
    sup_step. use_frames s5 Ha5 Hc5; [done|]. sup_step.
    use_frames s6 Ha6 Hc6; [done|]. sup_step. rewrite Hc5 in Hc6. by eapply committed_done.
Qed.

Lemma refresh_inactive_atomic id context snapshot now next_at :
  atomic_by refresh_failed (refresh_inactive id context snapshot now next_at).
Proof.
  intros s D [Hc Ha]. unfold refresh_inactive. do 4 sup_step.
  destruct (cat_profiles (sv_profiles s) !! id) as [q|]; cbn [ok_or]; [|by kept].
  sup_step. use_frames s1 Ha1 Hc1; [done|]. on_answer ipattern:([cfg|e]); [|sup_step; by kept].
  sup_step. use_frames s2 Ha2 Hc2; [done|]. rewrite Hc1 in Hc2. on_answer ipattern:([[]|e]); [|sup_step; by kept].
  destruct (commit_refresh (sv_profiles s) id context snapshot now next_at) as [r profiles] eqn:Hcommit. do 2 sup_step.
  destruct r as [rev|e]; cbn [map_err]; [|by kept].
  apply commit_facts in Hcommit as (Hwf & Hact & p & <- & Hprof); [|apply Hc]. do 2 sup_step.
  apply (metadata_step profiles s); [done..|by intros; kept|]. intros cfg' gen Hcfg Hgen Hacc. do 2 sup_step.
  unfold upsert_refresh. sup_steps.
  apply core_of_inv in Hc2 as (Hp2 & Hr2 & Hcf2 & Hg2 & Hf2).
  eapply committed_done; [|destruct Ha2; by split|reflexivity].
  eapply (metadata_core s); [exact Hc|done|done|done|unfold core_of; cbn; by rewrite Hr2, Hcf2, Hg2|done|].
  intros i. rewrite Hf2. apply (upsert_insert _ (sv_profiles s)); [apply Hc|done].
Qed.

Lemma refresh_commit_atomic id context snapshot :
  atomic_by refresh_failed (refresh_commit id context snapshot).
Proof.
  intros s D Hs. unfold refresh_commit. do 2 sup_step. destruct (refresh_is_stale _ _ _).
  { sup_step. destruct Hs. by kept. }
  do 2 sup_step. case_bool_decide; [by apply refresh_active_atomic|by apply refresh_inactive_atomic].
Qed.

Lemma rule_mutation_atomic mutation : atomic (rule_mutation_locked mutation).
Proof.
  intros s D [Hc Ha]. unfold rule_mutation_locked. do 4 sup_step.
  destruct (clone_rule_set (sv_local_rules s)) as [cloned|e]; [|by kept]. do 2 sup_step.
  destruct (edit_rules cloned mutation) as [[edited [[[action changed] previous] position]]|e]; [|by kept]. cbn [fst snd].
  do 2 sup_step. destruct (cat_active_profile_id (sv_profiles s)) as [id|]; cbn [ok_or]; [|by kept].
  do 2 sup_step. destruct (cat_profiles (sv_profiles s) !! id) as [p|]; cbn [ok_or]; [|by kept]. do 2 sup_step.
  destruct (rule_strings edited) as [rules|e] eqn:Hrules; [|by kept].
  sup_step. use_frames s1 Ha1 Hc1; [done|]. on_answer ipattern:([cfg|e]); [|by kept].
  do 2 sup_step. destruct (next_runtime_generation _) as [gen|e]; [|by kept].
  sup_step. use_frames s2 Ha2 Hc2; [done|]. rewrite Hc1 in Hc2.
  apply (settled_step _ _ (transaction_request (sv_profiles s) edited cfg gen) s);
    [intros; apply hwp_sup_call; [done|]; by intros|done|done| |].
  - intros failure s3 D' Ha3 Hc3 HD. sup_step. use_frames s4 Ha4 Hc4; [done|]. rewrite Hc3 in Hc4. sup_step. by kept.
  - intros success s3 Ha3 Hc3 Hg Hacc. do 2 sup_step. unfold adopt. do 2 sup_step.
    match goal with |- hwp (sup_bind _ _ ?s4) _ _ => set (t := s4) end.
    assert (aux_inv t) as Hat by (destruct Ha3; by split).
    apply core_of_inv in Hc3 as (Hp3 & Hr3 & Hcf3 & Hg3 & Hf3).
    assert (committed_state t (request_snapshot (transaction_request (sv_profiles s) edited cfg gen))) as Hcom.
    { eapply (adopted_committed t _ success (sv_profiles s) edited (sv_refreshes s));
        [exact Hacc|exact Hg|reflexivity|reflexivity| |apply Hc|by rewrite Hrules|apply Hc].
      unfold t, core_of. cbn. by rewrite Hp3, Hf3. }
    sup_step. use_frames s5 Ha5 Hc5; [done|]. sup_step. by eapply committed_done.
Qed.
End mutations.
