(* ===== verification/SupervisorThreads.v ===== *)
(** * SupervisorThreads: the Supervisor's commands side by side
    (src/supervisor.rs)

    Every public method of [Supervisor] as a thread over the shared state, its
    mutex and the committed state; a step is one call of one thread.  Poisoned
    locks may be answered at any time, ports answer as [port_step] allows. *)

From stdpp Require Import finite.
From S2P Require Import Prelude Text Ordered Constants Path Yaml Domain Rule Profile Scheduler ProxyView Mihomo Telemetry Diagnostics ConfigData ConfigPolicy State Program Ports Transaction Request Application SupervisorTransactions SupervisorOutcomes Projections Supervisor SupervisorInvariant.
Local Open Scope Z_scope.

(** ** The discipline of a thread *)

(** Outside the lock no transaction is made; inside, the lock is not taken again
    and what is stored at the end satisfies the invariant.  [Some D]: the lock is
    held and [D] is committed. *)
Definition allowed {X} (c : SupCall X) (mode : option Durable) : Prop :=
  match mode, c with
  | None, (UUnlock _ | UApply _ _ | UReservedApply _ | UPersist _ | UApplyStartup _) => False
  | None, _ => True
  | Some _, (ULock | UTryLock) => False
  | Some D, UUnlock s => sup_inv s D
  | Some _, _ => True
  end.

Definition moves {X} (c : SupCall X) (mode : option Durable) : X → option Durable → Prop :=
  match c in SupCall X return X → option Durable → Prop with
  | ULock => λ x mode', match x with
                        | Ok s => ∃ D, sup_inv s D ∧ mode' = Some D
                        | Err _ => mode' = None
                        end
  | UTryLock => λ x mode', match x with
                           | Guarded s => ∃ D, sup_inv s D ∧ mode' = Some D
                           | GuardWouldBlock | GuardPoisoned => mode' = None
                           end
  | UUnlock _ => λ _ mode', mode' = None
  | c0 => λ x mode', match mode with
                     | None => mode' = None
                     | Some D => ∃ D', port_step c0 D x D' ∧ mode' = Some D'
                     end
  end.

Fixpoint behaves {A} (p : sprog A) (mode : option Durable) : Prop :=
  match p with
  | Ret _ => mode = None
  | Vis c k => allowed c mode ∧ ∀ x mode', moves c mode x mode' → behaves (k x) mode'
  end.

Lemma behaves_bind {A B} (p : sprog A) (k : A → sprog B) mode :
  behaves p mode → (∀ a, behaves (k a) None) → behaves (prog_bind p k) mode.
Proof.
  intros Hp Hk. revert mode Hp. induction p as [a|X c next IH]; intros mode; cbn; [by intros ->|].
  intros [Hc Hn]. split; [done|]. intros x mode' Hm. apply IH, Hn, Hm.
Qed.

Lemma moves_held {X} (c : SupCall X) D x mode' :
  held_call c = true → moves c (Some D) x mode' → ∃ D', port_step c D x D' ∧ mode' = Some D'.
Proof. by destruct c. Qed.
Lemma allowed_held {X} (c : SupCall X) D : held_call c = true → allowed c (Some D).
Proof. by destruct c. Qed.

Lemma behaves_held {A B} (p : sprog A) (k : A → sprog B) Q D :
  hwp p Q D → (∀ a D', Q a D' → behaves (k a) (Some D')) → behaves (prog_bind p k) (Some D).
Proof.
  intros Hp Hk. revert D Hp. induction p as [a|X c next IH]; intros D; cbn; [apply Hk|].
  intros [Hc Hn]. split; [by apply allowed_held|]. intros x mode' (D' & Hs & ->)%moves_held; [|done].
  by apply IH, Hn.
Qed.

(** A section that keeps the invariant. *)
Definition section {A} (m : sup A) : Prop :=
  ∀ s D, sup_inv s D → hwp (m s) (λ r D', sup_inv r.2 D') D.

Lemma section_guarded {A} (m : sup A) s D :
  section m → sup_inv s D →
  behaves (prog_bind (m s) (λ r, prog_bind (call (UUnlock r.2)) (λ _, Ret r.1))) (Some D).
Proof.
  intros Hm Hs. eapply behaves_held; [by apply Hm|]. intros r D' Hr. cbn. split; [done|]. by intros _ mode' ->.
Qed.

Lemma behaves_locked {A} (body : sup (result A ApplicationError)) : section body → behaves (locked body) None.
Proof.
  intros Hb. cbn. split; [done|]. intros [s|[]] mode'.
  - intros (D & Hs & ->). by apply section_guarded.
  - by intros ->.
Qed.

Lemma behaves_call {X} (c : SupCall X) :
  allowed c None → held_call c = true → behaves (call c) None.
Proof. intros Hc Hh. cbn. split; [done|]. intros x mode'. destruct c; try done. Qed.

Lemma behaves_try {A B E} (p : sprog (result A E)) (k : A → sprog (result B E)) :
  behaves p None → (∀ a, behaves (k a) None) → behaves (prog_try p k) None.
Proof. intros Hp Hk. apply behaves_bind; [done|]. by intros []. Qed.

Lemma atomic_section {A} failed (m : sup A) : atomic_by failed m → section m.
Proof. intros Hm s D Hs. eapply hwp_mono; [|by apply Hm]. by intros r D' [? _]. Qed.
Lemma frames_section {A} (m : sup A) : frames m → section m.
Proof. intros Hm. by apply (atomic_section (λ _, false)), frames_atomic. Qed.

Lemma section_bind {A B} (m : sup A) (k : A → sup B) : section m → (∀ x, section (k x)) → section (sup_bind m k).
Proof.
  intros Hm Hk s D Hs. apply hwp_sup_bind. eapply hwp_mono; [|by apply Hm]. intros r D' Hr. by apply Hk.
Qed.

(** ** The methods *)

Lemma section_refreshes {A} (f : SupervisorState → A * ProfileRefreshScheduler) :
  (∀ s id, refresh_revisions (f s).2 id = refresh_revisions (sv_refreshes s) id) →
  section (sup_run (λ s, let '(x, r) := f s in (x, set_refreshes r s))).
Proof.
  intros Hf s D [Hc Ha]. apply hwp_sup_run. specialize (Hf s). destruct (f s) as [x r]. cbn in *. split.
  - destruct Hc. split; try done. intros id. rewrite Hf. apply ci_refreshes.
  - destruct Ha. by split.
Qed.

Lemma take_one_last generation now s task s' :
  take_one generation now s = Some (task, s') → ps_last_generation s' = ps_last_generation s.
Proof.
  unfold take_one. destruct (bset_first _) as [[due node]|]; [|done]. destruct (_ <=? _); [|done].
  cbn. by intros [= _ <-].
Qed.

Lemma take_due_last s now : ps_last_generation (probe_take_due s now).2 = ps_last_generation s.
Proof.
  unfold probe_take_due. destruct (ps_generation s) as [g|]; [|done]. generalize (Z.to_nat (probe_available s)).
  intros n. revert s. induction n as [|n IH]; intros s; cbn; [done|].
  destruct (take_one g now s) as [[task s']|] eqn:Ht; [|done]. specialize (IH s'). apply take_one_last in Ht.
  destruct (take_up_to n g now s'). cbn in *. congruence.
Qed.

Lemma complete_last s c : ps_last_generation (probe_complete s c).2 = ps_last_generation s.
Proof.
  unfold probe_complete. destruct (negb _); [done|]. destruct (ps_in_flight s !! _); [|done]. by destruct (_ || _).
Qed.

Lemma frames_probes {A} (f : SupervisorState → A * ProbeScheduler) :
  (∀ s, probe_wf (sv_probes s) → probe_wf (f s).2) →
  (∀ s, ps_last_generation (f s).2 = ps_last_generation (sv_probes s)) →
  frames (sup_run (λ s, let '(x, p) := f s in (x, set_probes p s))).
Proof.
  intros Hwf Hlast s D Hs. apply hwp_sup_run. specialize (Hwf s (ai_probes s Hs)). specialize (Hlast s).
  destruct (f s) as [x p]. cbn in *. split; [done|]. split; [|done]. destruct Hs. split; try done. cbn. by rewrite Hlast.
Qed.

Lemma publish_traffic_generation t g x : core_generation (Telemetry.publish_traffic t g x).2 = core_generation t.
Proof. unfold Telemetry.publish_traffic. by destruct (negb _). Qed.
Lemma publish_connections_generation t g a b c d e :
  core_generation (Telemetry.publish_connections t g a b c d e).2 = core_generation t.
Proof. unfold Telemetry.publish_connections. by destruct (negb _). Qed.
Lemma publish_log_generation t g a b c d : core_generation (publish_log t g a b c d).2 = core_generation t.
Proof. unfold publish_log. destruct (negb _); [done|]. by destruct (push _ _ _ _ _). Qed.
Lemma record_drop_generation t g n : core_generation (record_log_drop t g n).2 = core_generation t.
Proof. unfold record_log_drop. destruct (negb _); [done|]. by destruct (record_external_drop _ _). Qed.

Section threads.
Context `{YamlCrate} (sha256 : bytes → bytes) (uuid_to_string : Z → str) (uuid_parse : str → option Z).
Context (url_as_str : Url → str) (percent_decode : str → str) (hasher : list HashItem → Z).

Ltac frames_body := apply behaves_locked, frames_section; frames_auto.

Lemma behaves_reconcile : behaves reconcile_runtime_state None.
Proof. unfold reconcile_runtime_state. frames_body. Qed.
Lemma behaves_retry : behaves retry_selection_restore None.
Proof. unfold retry_selection_restore. frames_body. Qed.

Lemma section_take_due now :
  section (sup_run (λ s, let '(tasks, refreshes) := refresh_take_due (sv_refreshes s) now in
                         (Ok tasks : result _ ApplicationError, set_refreshes refreshes s))).
Proof.
  intros s D Hs. pose proof (section_refreshes (λ s, refresh_take_due (sv_refreshes s) now)
    (λ s id, take_due_revisions (sv_refreshes s) now id) s D Hs) as Hr. cbn in *.
  by destruct (refresh_take_due (sv_refreshes s) now).
Qed.

Lemma behaves_take_due_refreshes : behaves take_due_refreshes None.
Proof. apply behaves_locked, section_bind; [by apply frames_section; frames_auto|]. apply section_take_due. Qed.

Lemma section_complete task : section (complete_refresh task).
Proof.
  unfold complete_refresh. apply section_bind; [by apply frames_section; frames_auto|]. intros now.
  apply section_bind; [|intros st; by apply frames_section; frames_auto].
  apply (section_refreshes (λ s, refresh_complete (sv_refreshes s)
    (MkRefreshCompletion task (rt_profile_revision task) now))). intros s id. apply complete_revisions.
Qed.

Lemma behaves_record_failure id context stage message : behaves (record_refresh_failure id context stage message) None.
Proof. apply behaves_locked. eapply atomic_section, record_failure_atomic. Qed.

Ltac free_call := apply behaves_call; done.

Lemma behaves_refresh_profile id : behaves (refresh_profile sha256 id) None.
Proof.
  unfold refresh_profile. apply behaves_try.
  { unfold refresh_begin. frames_body. }
  intros [[context url]|]; [|done]. apply behaves_bind; [free_call|]. intros [fetched|error].
  2: { apply behaves_try; [apply behaves_record_failure|done]. }
  destruct (snapshot_parse _ _ _ _) as [snapshot|e].
  2: { apply behaves_try; [apply behaves_record_failure|done]. }
  apply behaves_try; [eapply behaves_locked, atomic_section, refresh_commit_atomic|].
  intros [disposition|stage error applying]; [done|].
  apply behaves_bind; [apply behaves_record_failure|]. intros recorded.
  apply behaves_bind; [destruct applying; [free_call|done]|done].
Qed.

Lemma behaves_refresh_task task : behaves (execute_refresh_task sha256 task) None.
Proof.
  unfold execute_refresh_task. apply behaves_try; [apply behaves_locked, section_complete|].
  intros []; [apply behaves_refresh_profile|done].
Qed.

Lemma behaves_cancel : behaves cancel_pending_mutations None.
Proof. unfold cancel_pending_mutations. repeat (apply behaves_bind; [free_call|intros _]). free_call. Qed.

Lemma behaves_take_due_probes : behaves take_due_probes None.
Proof.
  apply behaves_locked, frames_section. apply frames_bind; [by frames_auto|]. intros now.
  apply frames_bind; [|intros tasks; by frames_auto].
  apply (frames_probes (λ s, probe_take_due (sv_probes s) now)).
  - intros s. apply probe_wf_take_due.
  - intros s. apply take_due_last.
Qed.

Lemma behaves_complete_probe completion : behaves (complete_probe completion) None.
Proof.
  apply behaves_locked, frames_section. intros s D Hs.
  pose proof (frames_probes (λ s, probe_complete (sv_probes s) completion)
    (λ s, probe_wf_complete (sv_probes s) completion) (λ s, complete_last (sv_probes s) completion) s D Hs) as Hr.
  cbn in *. by destruct (probe_complete (sv_probes s) completion).
Qed.

Lemma behaves_managed_core : behaves managed_core_handle None.
Proof. unfold managed_core_handle. frames_body. Qed.

Lemma behaves_stream_state generation stream state : behaves (set_stream_state generation stream state) None.
Proof.
  apply behaves_locked, frames_section. frames_auto. apply frames_modify; [|done]. intros s []. by split.
Qed.

Lemma behaves_publish_traffic generation sample : behaves (publish_traffic generation sample) None.
Proof. unfold publish_traffic. frames_body. apply frames_with_telemetry. intros t. apply publish_traffic_generation. Qed.
Lemma behaves_publish_connections generation summary : behaves (publish_connections generation summary) None.
Proof.
  unfold publish_connections. frames_body. apply frames_with_telemetry. intros t. apply publish_connections_generation.
Qed.
Lemma behaves_publish_log generation at_ level source message :
  behaves (publish_core_log generation at_ level source message) None.
Proof. unfold publish_core_log. frames_body. apply frames_with_telemetry. intros t. apply publish_log_generation. Qed.
Lemma behaves_log_drop generation count : behaves (record_core_log_drop generation count) None.
Proof. unfold record_core_log_drop. frames_body. apply frames_with_telemetry. intros t. apply record_drop_generation. Qed.
Lemma behaves_log_tail after : behaves (core_log_tail after) None.
Proof. unfold core_log_tail. frames_body. Qed.
Lemma behaves_diagnostic_tail after : behaves (wrapper_diagnostic_tail after) None.
Proof. unfold wrapper_diagnostic_tail. frames_body. Qed.

Lemma frames_lift {A} (p : sprog A) :
  (∀ D, hwp p (λ _ D', D' = D) D) → frames (sup_lift p).
Proof.
  intros Hp s D Hs. apply hwp_bind. eapply hwp_mono; [|apply Hp]. by intros a D' ->.
Qed.

Lemma frames_status started_at : frames (status_fresh started_at).
Proof.
  unfold status_fresh. frames_auto. apply frames_lift. intros D. cbn.
  split; [done|]. intros ? D1 ->. split; [done|]. by intros ? D2 ->.
Qed.

Lemma behaves_status started_at : behaves (status started_at) None.
Proof.
  unfold status, call. cbn [prog_bind behaves]. split; [done|]. intros [s| |] mode'.
  - intros (D & Hs & ->). apply section_guarded; [|done]. apply frames_section, frames_status.
  - intros ->. cbn. split; [done|]. intros [last|[]] mode' ->; [|done]. cbn.
    repeat (split; [done|]; intros ? ? ->). done.
  - by intros ->.
Qed.

Lemma behaves_profile_add url : behaves (profile_add sha256 uuid_to_string uuid_parse percent_decode url) None.
Proof.
  unfold profile_add. apply behaves_try; [by frames_body|]. intros _. apply behaves_try.
  { apply behaves_bind; [free_call|done]. }
  intros fetched. destruct (snapshot_parse _ _ _ _) as [snapshot|e]; [|done].
  apply behaves_bind; [free_call|]. intros id. apply behaves_bind; [free_call|]. intros now.
  eapply behaves_locked, atomic_section, add_commit_atomic. done.
Qed.

Lemma behaves_profile_list : behaves profile_list None.
Proof. unfold profile_list. frames_body. Qed.
Lemma behaves_profile_list_page offset : behaves (profile_list_page url_as_str hasher offset) None.
Proof. unfold profile_list_page. frames_body. Qed.
Lemma behaves_activate_once selector : behaves (activate_profile_once uuid_to_string uuid_parse selector) None.
Proof. eapply behaves_locked, atomic_section, activate_atomic. Qed.
Lemma behaves_profile_remove selector : behaves (profile_remove uuid_to_string uuid_parse selector) None.
Proof. eapply behaves_locked, atomic_section, remove_atomic. Qed.

Lemma behaves_proxy_list group : behaves (proxy_list group) None.
Proof. unfold proxy_list. frames_body. Qed.
Lemma behaves_proxy_list_page group i j : behaves (proxy_list_page hasher group i j) None.
Proof. unfold proxy_list_page. frames_body. Qed.
Lemma behaves_proxy_select group node : behaves (proxy_select group node) None.
Proof. eapply behaves_locked, atomic_section, select_atomic. Qed.
Lemma behaves_latency_list : behaves latency_list None.
Proof. unfold latency_list, probe_generation. frames_body. Qed.
Lemma behaves_latency_show selector : behaves (latency_show selector) None.
Proof. unfold latency_show, probe_generation. frames_body. Qed.
Lemma behaves_rule_list : behaves rule_list None.
Proof. unfold rule_list. frames_body. Qed.
Lemma behaves_rule_list_page offset : behaves (rule_list_page offset) None.
Proof. unfold rule_list_page. frames_body. Qed.

Lemma behaves_rule_mutation mutation : behaves (rule_mutation mutation) None.
Proof.
  unfold rule_mutation. apply behaves_try; [by apply behaves_bind; [free_call|]|]. intros _.
  unfold call at 1. cbn [prog_bind behaves]. split; [done|]. intros guard mode' Hg.
  apply (behaves_bind (match guard with Guarded _ => _ | GuardWouldBlock => _ | GuardPoisoned => _ end));
    [|intros outcome; apply behaves_bind; [free_call|done]].
  destruct guard as [s| |]; [|by rewrite Hg..]. destruct Hg as (D & Hs & ->).
  apply section_guarded; [|done]. eapply atomic_section, rule_mutation_atomic.
Qed.
End threads.

(** ** Threads over one state *)

(** What runs on a thread of the daemon: any sequence of public methods, each
    chosen with the outcomes of the ones before it.  [profile_use] is such a
    sequence of [activate_profile_once] (see [Activation]). *)
Section daemon.
Context `{YamlCrate} (sha256 : bytes → bytes) (uuid_to_string : Z → str) (uuid_parse : str → option Z).
Context (url_as_str : Url → str) (percent_decode : str → str) (hasher : list HashItem → Z).

Inductive supervisor_thread : ∀ A : Type, sprog A → Prop :=
| thread_done {A} (a : A) : supervisor_thread A (Ret a)
| thread_then {A B} (p : sprog A) (k : A → sprog B) :
    supervisor_thread A p → (∀ a, supervisor_thread B (k a)) → supervisor_thread B (prog_bind p k)
| thread_execute profile_use started_at operation :
    (∀ selector, supervisor_thread _ (profile_use selector)) →
    supervisor_thread _ (execute sha256 uuid_to_string uuid_parse url_as_str percent_decode hasher
                           profile_use started_at operation)
| thread_activate selector : supervisor_thread _ (activate_profile_once uuid_to_string uuid_parse selector)
| thread_reconcile : supervisor_thread _ reconcile_runtime_state
| thread_retry : supervisor_thread _ retry_selection_restore
| thread_refresh id : supervisor_thread _ (refresh_profile sha256 id)
| thread_due_refreshes : supervisor_thread _ take_due_refreshes
| thread_refresh_task task : supervisor_thread _ (execute_refresh_task sha256 task)
| thread_cancel : supervisor_thread _ cancel_pending_mutations
| thread_cancel_downloads : supervisor_thread _ cancel_pending_profile_downloads
| thread_due_probes : supervisor_thread _ take_due_probes
| thread_probe completion : supervisor_thread _ (complete_probe completion)
| thread_core : supervisor_thread _ managed_core_handle
| thread_stream generation stream state : supervisor_thread _ (set_stream_state generation stream state)
| thread_traffic generation sample : supervisor_thread _ (publish_traffic generation sample)
| thread_connections generation summary : supervisor_thread _ (publish_connections generation summary)
| thread_log generation at_ level source message :
    supervisor_thread _ (publish_core_log generation at_ level source message)
| thread_log_drop generation count : supervisor_thread _ (record_core_log_drop generation count)
| thread_log_tail after : supervisor_thread _ (core_log_tail after)
| thread_diagnostics after : supervisor_thread _ (wrapper_diagnostic_tail after)
| thread_status started_at : supervisor_thread _ (status started_at).

Hint Resolve behaves_reconcile behaves_retry behaves_refresh_profile behaves_take_due_refreshes
  behaves_refresh_task behaves_cancel behaves_take_due_probes behaves_complete_probe behaves_managed_core
  behaves_stream_state behaves_publish_traffic behaves_publish_connections behaves_publish_log
  behaves_log_drop behaves_log_tail behaves_diagnostic_tail behaves_status behaves_profile_add
  behaves_profile_list behaves_profile_list_page behaves_activate_once behaves_profile_remove
  behaves_proxy_list behaves_proxy_list_page behaves_proxy_select behaves_latency_list
  behaves_latency_show behaves_rule_list behaves_rule_list_page behaves_rule_mutation : core.

Lemma behaves_execute profile_use started_at operation :
  (∀ selector, behaves (profile_use selector) None) →
  behaves (execute sha256 uuid_to_string uuid_parse url_as_str percent_decode hasher
             profile_use started_at operation) None.
Proof.
  intros Huse. destruct operation; cbn [execute]; auto; try done.
  - by apply behaves_try.
  - by destruct (map_rule_placement _).
Qed.

Lemma thread_behaves {A} (p : sprog A) : supervisor_thread A p → behaves p None.
Proof.
  induction 1; auto using behaves_bind, behaves_execute; done.
Qed.
End daemon.

(** The state behind its mutex, the index of the thread that holds it, and what
    is committed. *)
Record World := MkWorld {
  w_state : SupervisorState;
  w_holder : option nat;
  w_durable : Durable;
}.

Definition sys_step (i : nat) {X} (c : SupCall X) (w : World) : X → World → Prop :=
  match c in SupCall X return X → World → Prop with
  | ULock => λ x w',
      w_holder w = None ∧
      match x with
      | Ok s => s = w_state w ∧ w' = MkWorld s (Some i) (w_durable w)
      | Err _ => w' = w
      end
  | UTryLock => λ x w',
      match x with
      | Guarded s => w_holder w = None ∧ s = w_state w ∧ w' = MkWorld s (Some i) (w_durable w)
      | GuardWouldBlock => is_Some (w_holder w) ∧ w' = w
      | GuardPoisoned => w_holder w = None ∧ w' = w
      end
  | UUnlock s => λ _ w', w_holder w = Some i ∧ w' = MkWorld s None (w_durable w)
  | c0 => λ x w', ∃ D', port_step c0 (w_durable w) x D' ∧ w' = MkWorld (w_state w) (w_holder w) D'
  end.

Definition pool : Type := World * list (sprog unit).

Inductive pool_step : pool → pool → Prop :=
| pool_call w w' ps i X (c : SupCall X) k x :
    ps !! i = Some (Vis c k) → sys_step i c w x w' → pool_step (w, ps) (w', <[i := k x]> ps).

Definition returned (p : sprog unit) : Prop := match p with Ret _ => True | Vis _ _ => False end.
#[export] Instance returned_dec p : Decision (returned p).
Proof. destruct p; cbn; apply _. Defined.

(** Nobody but the holder is inside a section. *)
Definition mode_of (w : World) (i : nat) : option Durable :=
  if decide (w_holder w = Some i) then Some (w_durable w) else None.

Record pool_inv (c : pool) : Prop := {
  pi_threads : ∀ i p, c.2 !! i = Some p → behaves p (mode_of c.1 i);
  pi_holder : ∀ i, w_holder c.1 = Some i → is_Some (c.2 !! i);
  pi_free : w_holder c.1 = None → sup_inv (w_state c.1) (w_durable c.1);
}.

(** *** Steps *)

Lemma sys_step_port i {X} (c : SupCall X) w x w' :
  held_call c = true → sys_step i c w x w' →
  ∃ D', port_step c (w_durable w) x D' ∧ w' = MkWorld (w_state w) (w_holder w) D'.
Proof. by destruct c. Qed.

Lemma moves_free {X} (c : SupCall X) x : held_call c = true → moves c None x None.
Proof. by destruct c. Qed.
Lemma moves_port {X} (c : SupCall X) D x D' :
  held_call c = true → port_step c D x D' → moves c (Some D) x (Some D').
Proof. intros Hc Hp. destruct c; try done; by eexists. Qed.
Lemma port_outside {X} (c : SupCall X) D x D' :
  allowed c None → held_call c = true → port_step c D x D' → D' = D.
Proof. destruct c; cbn; try done. by intros _ _ []. Qed.

Lemma mode_held w i : w_holder w = Some i → mode_of w i = Some (w_durable w).
Proof. intros Hw. unfold mode_of. by rewrite decide_True. Qed.
Lemma mode_free w i : w_holder w ≠ Some i → mode_of w i = None.
Proof. intros Hw. unfold mode_of. by rewrite decide_False. Qed.

Lemma lock_allowed {X} (c : SupCall X) w i :
  held_call c = false → allowed c (mode_of w i) →
  match c with UUnlock s => w_holder w = Some i ∧ sup_inv s (w_durable w) | _ => w_holder w ≠ Some i end.
Proof.
  intros Hc Ha. unfold mode_of in Ha. destruct (decide _) as [Hh|Hh]; destruct c; done.
Qed.

(** What a step of thread [i] leaves: [i] moves, the others stay in their mode,
    and the state is in order whenever the lock is free. *)
Definition moved {X} (c : SupCall X) (i : nat) (w : World) (x : X) (w' : World) : Prop :=
  moves c (mode_of w i) x (mode_of w' i) ∧
  (∀ j, j ≠ i → mode_of w' j = mode_of w j) ∧
  (w_holder w' = None → sup_inv (w_state w') (w_durable w')) ∧
  (∀ j, w_holder w' = Some j → j = i ∨ w_holder w = Some j).

Lemma port_moved i {X} (c : SupCall X) w x w' :
  held_call c = true → sys_step i c w x w' → allowed c (mode_of w i) →
  (w_holder w = None → sup_inv (w_state w) (w_durable w)) → moved c i w x w'.
Proof.
  intros Hc (D' & Hp & ->)%sys_step_port Ha Hfree; [|done]. unfold moved. cbn.
  destruct (decide (w_holder w = Some i)) as [Hh|Hh].
  - rewrite !mode_held by done. split_and!; auto using moves_port; [|congruence].
    intros j Hj. rewrite !mode_free; [done|congruence|cbn; congruence].
  - rewrite mode_free in Ha by done. rewrite !mode_free by done.
    assert (D' = w_durable w) as -> by by eapply port_outside. split_and!; auto using moves_free.
Qed.

Lemma lock_moved i {X} (c : SupCall X) w x w' :
  held_call c = false → sys_step i c w x w' → allowed c (mode_of w i) →
  (w_holder w = None → sup_inv (w_state w) (w_durable w)) → moved c i w x w'.
Proof.
  intros Hc Hs Ha Hfree. apply lock_allowed in Ha; [|done]. unfold moved.
  assert (∀ s D j, j ≠ i → mode_of (MkWorld s (Some i) D) j = mode_of (MkWorld s None D) j) as Hother.
  { intros s D j Hj. rewrite !mode_free; [done|done|cbn; congruence]. }
  assert (∀ s, w_holder w = None → ∀ j, mode_of (MkWorld s None (w_durable w)) j = mode_of w j) as Hnone.
  { intros s Hn j. rewrite !mode_free; [done|by rewrite Hn|done]. }
  destruct c; try done; cbn in Hs.
  - destruct Hs as [Hn Hx]. rewrite (mode_free w i Ha). destruct x as [s|e].
    + destruct Hx as [-> ->]. rewrite mode_held by done. split_and!; [by exists (w_durable w); auto| |done|by intros j [= ->]; left].
      intros j Hj. rewrite Hother, Hnone; done.
    + subst w'. rewrite (mode_free w i Ha). split_and!; [done|done|by auto|by auto].
  - rewrite (mode_free w i Ha). destruct x as [s| |].
    + destruct Hs as (Hn & -> & ->). rewrite mode_held by done.
      split_and!; [by exists (w_durable w); auto| |done|by intros j [= ->]; left]. intros j Hj. rewrite Hother, Hnone; done.
    + destruct Hs as [_ ->]. rewrite (mode_free w i Ha). split_and!; [done|done|by auto|by auto].
    + destruct Hs as [_ ->]. rewrite (mode_free w i Ha). split_and!; [done|done|by auto|by auto].
  - destruct Hs as [_ ->]. destruct Ha as [Hh Hs]. rewrite mode_held by done.
    split_and!; [by rewrite mode_free| |done|done]. intros j Hj. rewrite !mode_free; [done|congruence|done].
Qed.

Lemma pool_inv_step c c' : pool_inv c → pool_step c c' → pool_inv c'.
Proof.
  intros Hc Hstep. destruct Hstep as [w w' ps i X call k x Hi Hs]. destruct Hc as [Ht Hh Hf]. cbn in *. pose proof (Ht i _ Hi) as [Ha Hk].
  assert (moved call i w x w') as (Hm & Ho & Hf' & Hh').
  { destruct (held_call call) eqn:?; [by apply port_moved|by apply lock_moved]. }
  split; cbn; [| |done].
  - intros j p. destruct (decide (j = i)) as [->|Hj].
    + rewrite list_lookup_insert_eq by (by eapply lookup_lt_Some). intros [= <-]. by apply Hk.
    + rewrite list_lookup_insert_ne by done. rewrite Ho by done. apply Ht.
  - intros j [->|Hj]%Hh'; rewrite lookup_lt_is_Some, length_insert, <-lookup_lt_is_Some; [by rewrite Hi; eexists|by apply Hh].
Qed.

Lemma pool_inv_reachable c c' : rtc pool_step c c' → pool_inv c → pool_inv c'.
Proof. induction 1; eauto using pool_inv_step. Qed.

(** *** Progress *)

(** Ports that refuse everything. *)
Definition refuse {X} (c : SupCall X) : X :=
  match c in SupCall X return X with
  | UNow | UNewProfileId => 0
  | UFetch _ => Err (fetch_error_new [] false)
  | UWorkspace _ | UValidate _ _ | UStagingRoot | ULoadCommitted | URuntimeStatus | UProxyView _ _
  | USelectNode _ _ | USetLastStatus _ | ULastStatus => Err tt
  | UCompile _ _ _ | UValidatePersisted _ _ _ _ => Err PolicyInvalid
  | UApply _ _ | UReserve | UReservedApply _ | UPersist _ | UPrepareStartup _ | UApplyStartup _ =>
      Err (failure_new FailureBusy)
  | URelease | USetRevisions _ | UCancelSource | UCancelValidator | UCancelTransactions | UCancelCore
  | UUnlock _ | USetApplying _ | USetLastApply _ => tt
  | ULock => Err tt
  | UTryLock => GuardPoisoned
  | UApplying => false
  | ULastApply => MkRuntimeApplySnapshot None None PhaseIdle default_recovery_snapshot
  end.

Lemma port_total {X} (c : SupCall X) D : port_step c D (refuse c) D.
Proof. destruct c; cbn; auto. Qed.

Lemma thread_progress w i {X} (c : SupCall X) :
  allowed c (mode_of w i) → (w_holder w = None ∨ w_holder w = Some i) → ∃ x w', sys_step i c w x w'.
Proof.
  intros Ha Hw. destruct (held_call c) eqn:Hc.
  - exists (refuse c). destruct c; try done; cbn; do 2 eexists; (split; [|reflexivity]); cbn; auto.
  - apply lock_allowed in Ha; [|done]. destruct c; try done; destruct Hw as [Hw|Hw]; try done.
    + exists (Err tt). by eexists.
    + exists GuardPoisoned. by eexists.
    + destruct Ha. congruence.
    + exists tt. by eexists.
Qed.

(** A pool that cannot step has returned. *)
Lemma pool_progress c : pool_inv c → Forall returned c.2 ∨ ∃ c', pool_step c c'.
Proof.
  intros [Ht Hh Hf]. destruct c as [w ps]. cbn in *.
  assert (∀ i X (c : SupCall X) k, ps !! i = Some (Vis c k) → w_holder w = None ∨ w_holder w = Some i →
    ∃ c', pool_step (w, ps) c') as Hstep.
  { intros i X c k Hi Hw. pose proof (Ht i _ Hi) as [Ha _].
    destruct (thread_progress w i c Ha Hw) as (x & w' & Hs). eexists. by econstructor. }
  destruct (w_holder w) as [h|] eqn:Hw.
  - right. destruct (Hh h eq_refl) as [p Hp]. pose proof (Ht h _ Hp) as Hb. rewrite mode_held in Hb by done.
    destruct p as [a|X c k]; [done|]. by eapply Hstep; eauto.
  - destruct (decide (Forall returned ps)) as [|Hn]; [by left|right].
    apply not_Forall_Exists in Hn; [|apply _]. apply Exists_exists in Hn as (p & (i & Hi)%list_elem_of_lookup & Hp).
    destruct p as [a|X c k]; [by destruct Hp|]. by eapply Hstep; eauto.
Qed.

Lemma returned_free c : pool_inv c → Forall returned c.2 → w_holder c.1 = None.
Proof.
  intros [Ht Hh _] Hr. destruct (w_holder c.1) as [h|] eqn:Hw; [|done]. destruct (Hh h eq_refl) as [p Hp].
  pose proof (Ht h _ Hp) as Hb. rewrite mode_held in Hb by done. rewrite Forall_lookup in Hr.
  specialize (Hr _ _ Hp). by destruct p.
Qed.

(** *** Termination *)

(** One thread goes on by one call. *)
Definition continues (p q : sprog unit) : Prop :=
  match p with Ret _ => False | Vis c k => ∃ x, q = k x end.
Inductive advances : list (sprog unit) → list (sprog unit) → Prop :=
| advances_at ps i p q : ps !! i = Some p → continues p q → advances (<[i := q]> ps) ps.

Lemma advances_cons_inv p ps qs : advances qs (p :: ps) →
  (∃ q, qs = q :: ps ∧ continues p q) ∨ ∃ ps', qs = p :: ps' ∧ advances ps' ps.
Proof.
  intros Hs. inversion Hs as [rs i p0 q Hi Hc]; subst. destruct i as [|i]; cbn in *.
  - simplify_eq. by eauto.
  - right. eexists. split; [done|]. by econstructor.
Qed.

Lemma advances_cons ps : Acc advances ps → ∀ p, Acc advances (p :: ps).
Proof.
  induction 1 as [ps _ IH]. intros p. induction p as [a|X c k IHp]; constructor;
    intros qs [(q & -> & Hq)|(ps' & -> & Hs)]%advances_cons_inv; [done|by apply IH| |by apply IH].
  destruct Hq as [x ->]. apply IHp.
Qed.

Lemma advances_wf ps : Acc advances ps.
Proof.
  induction ps as [|p ps IH]; [|by apply advances_cons].
  constructor. intros qs Hs. inversion Hs as [rs i p0 q Hi Hc]. done.
Qed.

Lemma pool_step_advances c c' : pool_step c c' → advances c'.2 c.2.
Proof. intros [w w' ps i X cl k x Hi Hs]. cbn. eapply advances_at; [done|]. by eexists. Qed.

Lemma pool_wf c : Acc (flip pool_step) c.
Proof.
  destruct c as [w ps]. revert w. induction (advances_wf ps) as [ps _ IH]. intros w. constructor.
  intros [w' ps'] Hs. apply IH. by apply pool_step_advances in Hs.
Qed.
