(* ===== verification/SupervisorSystem.v ===== *)
(** * SupervisorSystem: a Supervisor from startup through its commands
    (src/supervisor.rs)

    [open] builds a state in order with what is committed, every interleaving of
    the public methods keeps it so and ends, and a command that changes profiles,
    rules or selections does all of it or nothing. *)

From stdpp Require Import finite.
From S2P Require Import Prelude Text Ordered Constants Path Yaml Domain Rule Profile Scheduler ProxyView Mihomo Telemetry Diagnostics ConfigData ConfigPolicy State Program Ports Transaction Request Application SupervisorTransactions SupervisorOutcomes Projections Supervisor SupervisorInvariant SupervisorThreads.
Local Open Scope Z_scope.

(** ** Executions *)

(** [p] run from [D] may end with [a] in [D']. *)
Fixpoint sruns {A} (p : sprog A) (D : Durable) (a : A) (D' : Durable) : Prop :=
  match p with
  | Ret b => b = a ∧ D' = D
  | Vis c k => ∃ x D1, port_step c D x D1 ∧ sruns (k x) D1 a D'
  end.

Lemma hwp_sound {A} (p : sprog A) Q D a D' : hwp p Q D → sruns p D a D' → Q a D'.
Proof.
  revert D. induction p as [b|X c k IH]; intros D; cbn; [by intros HQ [<- ->]|].
  intros [_ Hk] (x & D1 & Hs & Hr). eapply IH; [|done]. by apply Hk.
Qed.

(** ** Startup *)

Lemma initial_refreshes_fold r ps id :
  (∀ i p, (i, p) ∈ ps → p_id p = i) →
  refresh_revisions (foldl (λ r p, upsert r (p_id p) (p_revision p) (p_next_refresh_at p)) r ps.*2) id =
  match list_to_map (M := gmap Z Profile) (reverse ps) !! id with
  | Some p => Some (p_revision p)
  | None => refresh_revisions r id
  end.
Proof.
  revert r. induction ps as [|[i p] ps IH] using rev_ind; intros r Hid; [done|].
  rewrite fmap_app, foldl_app. cbn. rewrite reverse_snoc. cbn. rewrite upsert_revisions.
  rewrite (Hid i p) by set_solver. case_decide as Hd.
  - subst. by rewrite lookup_insert_eq.
  - rewrite lookup_insert_ne by done. apply IH. intros j q Hq. apply Hid. set_solver.
Qed.

Lemma initial_refreshes_revisions c id :
  catalog_wf c → refresh_revisions (initial_refreshes c) id = profile_revisions c id.
Proof.
  intros Hwf. unfold initial_refreshes, btree_values. rewrite initial_refreshes_fold.
  - assert (list_to_map (reverse (btree_iter (cat_profiles c))) = cat_profiles c) as ->.
    { rewrite <-(list_to_map_to_list (cat_profiles c)) at 2. apply list_to_map_proper.
      - rewrite reverse_Permutation. apply NoDup_btree_keys.
      - by rewrite reverse_Permutation, btree_iter_Permutation. }
    unfold profile_revisions. by destruct (cat_profiles c !! id).
  - intros i p Hp. apply elem_of_btree_iter in Hp. by apply (catalog_keys c Hwf) in Hp as [].
Qed.

Section progs.
Context {A B E F : Type}.

Lemma hwp_call (c : SupCall A) Q D :
  held_call c = true → (∀ x D', port_step c D x D' → Q x D') → hwp (call c) Q D.
Proof. intros Hc HQ. cbn. auto. Qed.
Lemma hwp_prog_try (p : sprog (result A E)) (k : A → sprog (result B E)) Q D :
  hwp p (λ r D', match r with Ok x => hwp (k x) Q D' | Err e => Q (Err e) D' end) D → hwp (prog_try p k) Q D.
Proof. intros Hp. apply hwp_bind. eapply hwp_mono; [|exact Hp]. by intros []. Qed.
Lemma hwp_prog_map_err (f : E → F) (p : sprog (result A E)) Q D :
  hwp p (λ r D', Q (map_err f r) D') D → hwp (prog_map_err f p) Q D.
Proof. intros Hp. apply hwp_bind. eapply hwp_mono; [|exact Hp]. done. Qed.
End progs.

Lemma opened_aux profiles local_rules configuration generation refreshes ring :
  ring_new WRAPPER_DIAGNOSTIC_CAPACITY = Ok ring →
  aux_inv (MkSupervisorState profiles local_rules configuration generation refreshes
             probe_new 0 None None disconnected_stream_health None None None false 0 ∅ ring).
Proof.
  intros Hring. split; cbn; try done; [apply probe_wf_new|].
  exists []. split; [by apply (ring_new_refines WRAPPER_DIAGNOSTIC_CAPACITY)|]. split; [by injection Hring as <-|done].
Qed.

Lemma frames_raise_all reasons : frames (raise_all reasons).
Proof. induction reasons as [|r rs IH]; cbn; frames_auto. Qed.

Section startup.
Context `{YamlCrate} (sha256 : bytes → bytes) (uuid_to_string : Z → str) (uuid_parse : str → option Z).

(** What [open] has when it has loaded, and started, a generation. *)
Definition opened_core (profiles : ProfileCatalog) (local_rules : LocalRuleSet)
    (configuration : option EffectiveConfiguration) (generation : option Z) (D : Durable) : Prop :=
  ∀ s, sv_profiles s = profiles → sv_local_rules s = local_rules → sv_effective_configuration s = configuration →
       sv_runtime_generation s = generation → sv_refreshes s = initial_refreshes profiles → core_inv s D.

Lemma hydrate_spec hydrated D :
  (match hydrated with None => D = Known None | Some h => loaded h end) →
  hwp (open_hydrate hydrated) (λ r D', D' = D ∧
    match r with
    | Err _ => True
    | Ok (profiles, local_rules, None, committed) =>
        D = Known None ∧ profiles = catalog_new ∧ committed = None
    | Ok (profiles, local_rules, Some configuration, committed) =>
        catalog_wf profiles ∧ is_ok (rule_strings local_rules) = true
    end) D.
Proof.
  destruct hydrated as [h|]; [|by intros ->]. intros [Hwf Hcount [id Hid]]. cbn [open_hydrate]. rewrite Hid. cbn [ok_or].
  apply hwp_prog_try. cbn [hwp]. apply hwp_prog_try. destruct (cat_profiles (hs_profiles h) !! id); cbn [ok_or hwp]; [|done].
  apply hwp_prog_try. destruct (rule_strings (hs_local_rules h)) as [rules|e] eqn:Hr; cbn [hwp]; [|done].
  apply hwp_prog_try, hwp_prog_map_err, hwp_call; [done|]. intros [w|e] D1 ->; cbn; [|done].
  split; [done|]. intros [[]|e] D2 ->; cbn; [|done].
  split; [done|]. intros [configuration|e] D3 ->; cbn; [|done]. split; [done|]. by rewrite Hr.
Qed.

Lemma core_inv_empty s :
  sv_profiles s = catalog_new → sv_effective_configuration s = None → sv_runtime_generation s = None →
  sv_refreshes s = refresh_new → core_inv s (Known None).
Proof.
  intros Hp Hc Hg Hr. split; unfold snapshot_of; rewrite ?Hp, ?Hc, ?Hg, ?Hr; cbn; try done; by intros [].
Qed.

Lemma startup_spec profiles local_rules configuration committed D :
  match configuration with
  | None => D = Known None ∧ profiles = catalog_new ∧ committed = None
  | Some _ => catalog_wf profiles ∧ is_ok (rule_strings local_rules) = true
  end →
  hwp (open_startup profiles local_rules configuration committed) (λ r D',
    match r with
    | Ok (generation, _, _) => opened_core profiles local_rules configuration generation D'
    | Err _ => True
    end) D.
Proof.
  destruct configuration as [configuration|]; cbn [open_startup].
  - intros [Hwf Hrules]. apply hwp_prog_try, hwp_prog_map_err, hwp_call; [done|]. intros [generation|e] D1 ->; [|done].
    cbn [map_err]. apply hwp_prog_try, hwp_prog_map_err, hwp_call; [done|]. intros [success|e] D2; cbn; [|done].
    intros (Hg & Hacc & ->) s Hp Hr Hc Hgen Href.
    apply (committed_core s (transaction_request profiles local_rules configuration generation)); try done.
    + unfold snapshot_of. by rewrite Hp, Hr, Hc, Hgen, Hg.
    + by rewrite Hp.
    + by rewrite Hr.
    + intros id. rewrite Href, Hp. by apply initial_refreshes_revisions.
  - intros (-> & -> & ->). apply hwp_prog_try, hwp_prog_map_err, hwp_call; [done|]. intros [g|e] D1 ->; [|done].
    intros s Hp Hr Hc Hgen Href. by apply core_inv_empty.
Qed.

Lemma open_spec D :
  hwp open (λ r D', match r with Ok o => sup_inv (op_state o) D' | Err _ => True end) D.
Proof.
  unfold open. apply hwp_prog_try, hwp_prog_map_err, hwp_call; [done|]. intros [[]|e] D1 ->; [|done].
  apply hwp_prog_try, hwp_prog_map_err, hwp_call; [done|]. intros [hydrated|e] D1 [-> Hload]; [|done].
  apply hwp_prog_try. eapply hwp_mono; [|apply hydrate_spec; by destruct hydrated].
  intros [[[[profiles local_rules] configuration] committed]|e] D1 [-> Hh]; [|done].
  apply hwp_bind, hwp_call; [done|]. intros _ D1 ->. apply hwp_prog_try.
  eapply hwp_mono; [|apply startup_spec; destruct configuration; exact Hh].
  intros [[[generation snapshot] reasons]|e] D1 Hcore; [|done].
  apply hwp_bind, hwp_call; [done|]. intros started_at D2 ->. apply hwp_prog_try.
  destruct (ring_new WRAPPER_DIAGNOSTIC_CAPACITY) as [ring|e] eqn:Hring; cbn [map_err]; [|done]. cbn [hwp].
  apply hwp_bind. eapply (frames_use (raise_all _)); [apply frames_raise_all|by apply opened_aux|].
  intros [] s1 Ha1 Hc1. cbn [snd]. apply hwp_bind. eapply (frames_use reconcile_runtime_state_locked); [apply reconcile_frames|done|].
  intros [] s2 Ha2 Hc2. cbn. split; [|done]. rewrite Hc1 in Hc2. apply core_of_inv in Hc2 as (? & ? & ? & ? & ?).
  by apply Hcore.
Qed.
End startup.

(** ** The system *)

(** The world after [open], with threads about to start. *)
Definition started (o : OpenedSupervisor) (D : Durable) (ps : list (sprog unit)) : pool :=
  (MkWorld (op_state o) None D, ps).

Section system.
Context `{YamlCrate} (sha256 : bytes → bytes) (uuid_to_string : Z → str) (uuid_parse : str → option Z).
Context (url_as_str : Url → str) (percent_decode : str → str) (hasher : list HashItem → Z).

Abbreviation thread := (supervisor_thread sha256 uuid_to_string uuid_parse url_as_str percent_decode hasher unit).

Lemma started_inv D o D0 ps :
  sruns open D (Ok o) D0 → Forall thread ps → pool_inv (started o D0 ps).
Proof.
  intros Ho Hps. pose proof (hwp_sound _ _ _ _ _ (open_spec D) Ho) as Hinv. split; cbn; [|done|done].
  intros i p Hp. rewrite mode_free by done. eapply thread_behaves, Forall_lookup_1; done.
Qed.

(** C3: From startup on, whatever threads run the public methods of the Supervisor and however their calls
    interleave, the state behind the lock is in order whenever nobody holds it: the catalog is well formed
    and within its limit, a profile is active exactly when there is one, the refresh scheduler has the
    catalog's revisions, the schedulers and restoration counters are consistent, and what the transaction
    port has committed, when that is known, is the state's profiles, rules, configuration and generation. *)
Theorem daemon_invariant D o D0 ps c :
  sruns open D (Ok o) D0 → Forall thread ps → rtc pool_step (started o D0 ps) c →
  w_holder c.1 = None → sup_inv (w_state c.1) (w_durable c.1).
Proof. intros Ho Hps Hr. eapply pi_free, pool_inv_reachable; [done|]. by eapply started_inv. Qed.


(** The sections that change profiles, rules or selections, with what counts as failure. *)
Inductive mutation : ∀ A, (A → bool) → sup A → Prop :=
| mutation_add profile :
    1 ≤ p_revision profile ≤ u64_max → mutation _ is_err (add_commit uuid_to_string uuid_parse profile)
| mutation_activate selector : mutation _ is_err (activate_locked uuid_to_string uuid_parse selector)
| mutation_remove selector : mutation _ is_err (remove_locked uuid_to_string uuid_parse selector)
| mutation_refresh id context snapshot : mutation _ refresh_failed (refresh_commit id context snapshot)
| mutation_failure id context stage message :
    mutation _ is_err (record_failure_locked id context stage message)
| mutation_select group node : mutation _ is_err (select_locked group node)
| mutation_rules change : mutation _ is_err (rule_mutation_locked change).

Lemma mutation_atomic {A} failed (m : sup A) : mutation A failed m → atomic_by failed m.
Proof.
  destruct 1; [by apply add_commit_atomic|apply activate_atomic|apply remove_atomic|apply refresh_commit_atomic|
    apply record_failure_atomic|apply select_atomic|apply rule_mutation_atomic].
Qed.

(** C4: A command is all or nothing.  One that fails leaves the profiles, the local rules, the configuration,
    the generation and the refresh schedule as they were, and commits nothing unless the outcome of the
    commit is unknown; one that succeeds either changed nothing or has committed exactly the state it leaves
    in memory.  The invariant holds in all cases. *)
Theorem commands_atomic {A} failed (m : sup A) s D r D' :
  mutation A failed m → sup_inv s D → sruns (m s) D r D' →
  sup_inv r.2 D' ∧
  if failed r.1 then core_of r.2 = core_of s ∧ (D' = D ∨ D' = Unknown)
  else (core_of r.2 = core_of s ∧ D' = D) ∨ ∃ d, snapshot_of r.2 = Some d ∧ D' = Known (Some d).
Proof. intros Hm Hs Hr. exact (hwp_sound _ _ _ _ _ (mutation_atomic failed m Hm s D Hs) Hr). Qed.
End system.

(** ** A concrete system *)

Definition sample_configuration : EffectiveConfiguration := MkEffectiveConfiguration (lit "yaml") (lit "v1") (lit "policy") [].

(** Ports that go along with everything the contract allows, and no core. *)
Definition commit_if_accepted (r : SupervisorTransactionRequest) (D : Durable)
  : result ConfigTransactionSuccess SupervisorTransactionFailure * Durable :=
  match State.validate_candidate (request_state r) with
  | Ok _ => (Ok (MkSuccess (req_generation r) (req_generation r) Direct NotRequired),
             Known (Some (request_snapshot r)))
  | Err _ => (Err (failure_new FailureState), D)
  end.
Definition oblige {X} (c : SupCall X) (D : Durable) : X * Durable :=
  match c in SupCall X return X * Durable with
  | UApply r _ | UReservedApply r | UApplyStartup r => commit_if_accepted r D
  | UPersist r => let '(x, D') := commit_if_accepted r D in (let? _u := x in Ok tt, D')
  | UWorkspace _ => (Ok (lit "/staging"), D)
  | UCompile _ _ _ => (Ok sample_configuration, D)
  | UValidate _ _ | UStagingRoot | UValidatePersisted _ _ _ _ => (Ok tt, D)
  | UPrepareStartup _ => (Ok 1, D)
  | ULoadCommitted => (match D with Known None => Ok None | _ => Err tt end, D)
  | c0 => (refuse c0, D)
  end.

Lemma oblige_contract {X} (c : SupCall X) D : port_step c D (oblige c D).1 (oblige c D).2.
Proof.
  assert (∀ r, transacts r D (commit_if_accepted r D).1 (commit_if_accepted r D).2) as Hr.
  { intros r. unfold commit_if_accepted, transacts, accepted.
    destruct (State.validate_candidate (request_state r)) as [[]|] eqn:E; cbn; auto. }
  destruct c; cbn; auto.
  - specialize (Hr r). destruct (commit_if_accepted r D) as [[s|e] D']; cbn in *; [|done]. by destruct Hr as (_ & ? & ?).
  - by destruct D as [[]|].
Qed.

Fixpoint served {A} (p : sprog A) (D : Durable) : A * Durable :=
  match p with
  | Ret a => (a, D)
  | Vis c k => let '(x, D') := oblige c D in served (k x) D'
  end.
Lemma served_runs {A} (p : sprog A) D : sruns p D (served p D).1 (served p D).2.
Proof.
  revert D. induction p as [a|X c k IH]; intros D; cbn; [done|]. pose proof (oblige_contract c D) as Hs.
  destruct (oblige c D) as [x D']. by exists x, D'.
Qed.

Definition sample_state : SupervisorState :=
  MkSupervisorState catalog_new uninitialized None None refresh_new probe_new 0 None None
    disconnected_stream_health None None None false 0 ∅ (MkDiagnosticRing WRAPPER_DIAGNOSTIC_CAPACITY 1 0 []).
Definition sample_apply_snapshot : RuntimeApplySnapshot :=
  MkRuntimeApplySnapshot None None PhaseIdle default_recovery_snapshot.
Definition sample_opened : OpenedSupervisor :=
  MkOpened 0 sample_state sample_apply_snapshot (initial_status_snapshot 0 catalog_new None sample_apply_snapshot []).

Lemma sample_opens : sruns (open (H := sample_yaml)) (Known None) (Ok sample_opened) (Known None).
Proof.
  pose proof (served_runs (open (H := sample_yaml)) (Known None)) as Hr.
  assert (served (open (H := sample_yaml)) (Known None) = (Ok sample_opened, Known None)) as E by reflexivity.
  by rewrite E in Hr.
Qed.

(** One thread that lists the profiles. *)
Definition sample_thread : sprog unit := prog_bind profile_list (λ _, Ret tt).
Definition sample_listed : pool := (MkWorld sample_state None (Known None), [Ret tt]).

Lemma sample_lists : rtc pool_step (started sample_opened (Known None) [sample_thread]) sample_listed.
Proof.
  eapply rtc_l.
  { refine (pool_call _ _ _ 0%nat _ ULock _ (Ok sample_state) _ _); [reflexivity|by split]. }
  eapply rtc_l.
  { refine (pool_call _ _ _ 0%nat _ (UUnlock sample_state) _ tt _ _); [reflexivity|by split]. }
  reflexivity.
Qed.

Definition sample_uuid (_ : Z) : str := lit "u".
Definition sample_uuid_parse (_ : str) : option Z := Some 5.

Lemma sample_threads :
  Forall (supervisor_thread (H := sample_yaml) id sample_uuid sample_uuid_parse (λ _, []) id (λ _, 0) unit) [sample_thread].
Proof.
  constructor; [|done]. unfold sample_thread. apply (thread_then (H := sample_yaml)); [|intros; apply thread_done].
  exact (thread_execute (H := sample_yaml) _ _ _ _ _ _ (λ _, Ret (Err internal_error)) 0 AppProfileList (λ _, thread_done _ _ _ _ _ _ _)).
Qed.

Lemma daemon_invariant_witness : sup_inv sample_state (Known None).
Proof.
  exact (daemon_invariant (H := sample_yaml) _ _ _ _ _ _ _ _ _ _ sample_listed sample_opens sample_threads sample_lists eq_refl).
Defined.


Lemma sample_inv : sup_inv sample_state (Known None).
Proof. exact (hwp_sound _ _ _ _ _ (open_spec (H := sample_yaml) (Known None)) sample_opens). Qed.

(** The first profile is added. *)
Definition sample_add : (result ApplicationOutput ApplicationError * SupervisorState) * Durable :=
  served (add_commit (H := sample_yaml) sample_uuid sample_uuid_parse (sample_profile 5 (lit "a")) sample_state) (Known None).

Lemma commands_atomic_witness :
  is_err sample_add.1.1 = false ∧ cat_active_profile_id (sv_profiles sample_add.1.2) = Some 5 ∧
  sup_inv sample_add.1.2 sample_add.2 ∧
  ((core_of sample_add.1.2 = core_of sample_state ∧ sample_add.2 = Known None) ∨
   ∃ d, snapshot_of sample_add.1.2 = Some d ∧ sample_add.2 = Known (Some d)).
Proof.
  split; [by vm_compute|]. split; [by vm_compute|].
  assert (1 ≤ p_revision (sample_profile 5 (lit "a")) ≤ u64_max) as Hrev by (split; done).
  exact (commands_atomic (H := sample_yaml) sample_uuid sample_uuid_parse is_err _ sample_state (Known None) _ _
    (mutation_add (H := sample_yaml) sample_uuid sample_uuid_parse _ Hrev) sample_inv (served_runs _ (Known None))).
Defined.
