(* ===== verification/Activation.v ===== *)
(** * Activation: one profile activation at a time, the newest request next
    (src/supervisor.rs: [ActivationQueue], [ActivationCompletion],
    [Supervisor::profile_use])

    Callers of [profile_use] as a step relation.  The first one runs activations
    until none is pending, the others leave a request behind and wait on its
    completion; a newer request supersedes a pending one.  A phase is a point of
    [profile_use] between two critical sections; an activation is one step, with
    any outcome that [activate_profile_once] has on a state in order. *)

From S2P Require Import Prelude Text Ordered Constants Path Yaml Domain Rule Profile Scheduler ProxyView Mihomo Telemetry Diagnostics ConfigData ConfigPolicy State Program Ports Transaction Request Application SupervisorTransactions SupervisorOutcomes Projections Supervisor SupervisorInvariant SupervisorThreads SupervisorSystem.
Local Open Scope Z_scope.

(** ** Data *)

Abbreviation outcome := (result ApplicationOutput ApplicationError).

(** The [Arc] of a completion is its number. *)
Record PendingActivation := MkPendingActivation {
  pa_selector : str;
  pa_completion : nat;
}.

Record ActivationQueue := MkActivationQueue {
  aq_running : bool;
  aq_pending : option PendingActivation;
}.

(** The [result] cells of all completions. *)
Record Completions := MkCompletions {
  co_next : nat;
  co_slots : gmap nat (option outcome);
}.

Definition superseded : outcome :=
  Err (app_error EOperationUnavailable (lit "Profile activation was superseded by a newer request") true).

(** [ActivationCompletion::default] *)
Definition completion_new (cs : Completions) : nat * Completions :=
  (co_next cs, MkCompletions (S (co_next cs)) (<[co_next cs := None]> (co_slots cs))).

(** [ActivationCompletion::complete]; its waiter is woken, see [take_result]. *)
Definition complete (cs : Completions) (completion : nat) (r : outcome) : Completions :=
  MkCompletions (co_next cs) (<[completion := Some r]> (co_slots cs)).

(** [ActivationCompletion::wait] goes on once the slot is filled, and takes it. *)
Definition take_result (cs : Completions) (completion : nat) : option (outcome * Completions) :=
  match co_slots cs !! completion with
  | Some (Some r) => Some (r, MkCompletions (co_next cs) (<[completion := None]> (co_slots cs)))
  | _ => None
  end.

Definition enqueue (q : ActivationQueue) (selector : str) (cs : Completions)
  : nat * ActivationQueue * Completions :=
  let '(completion, cs) := completion_new cs in
  let replaced := aq_pending q in
  let q := MkActivationQueue (aq_running q) (Some (MkPendingActivation selector completion)) in
  let cs := match replaced with
            | Some old => complete cs (pa_completion old) superseded
            | None => cs
            end in
  (completion, q, cs).

(** The section at the start of [profile_use]: a completion to wait on, or [None]
    for the caller that runs. *)
Definition begin_use (q : ActivationQueue) (selector : str) (cs : Completions)
  : option nat * ActivationQueue * Completions :=
  if aq_running q then
    let '(completion, q, cs) := enqueue q selector cs in (Some completion, q, cs)
  else (None, MkActivationQueue true (aq_pending q), cs).

(** The section at the head of its loop. *)
Definition take_next (q : ActivationQueue) : option PendingActivation * ActivationQueue :=
  match aq_pending q with
  | Some pending => (Some pending, MkActivationQueue (aq_running q) None)
  | None => (None, MkActivationQueue false None)
  end.

(** ** Callers *)

(** Where a call of [profile_use selector] is. *)
Inductive Phase :=
| Calling (selector : str)
| Waiting (selector : str) (completion : nat)
| RunFirst (selector : str)
| RunLoop (selector : str) (initial_result : outcome)
| RunNext (selector : str) (initial_result : outcome) (next : PendingActivation)
| RunComplete (selector : str) (initial_result : outcome) (completion : nat) (r : outcome)
| Finished (selector : str) (r : outcome).

Definition phase_selector (p : Phase) : str :=
  match p with
  | Calling s | Waiting s _ | RunFirst s | RunLoop s _ | RunNext s _ _ | RunComplete s _ _ _ | Finished s _ => s
  end.

Record Activations := MkActivations {
  act_queue : ActivationQueue;
  act_completions : Completions;
  act_callers : list Phase;
}.

Section activation.
Context `{YamlCrate} (uuid_to_string : Z → str) (uuid_parse : str → option Z).

(** What [activate_profile_once selector] may return. *)
Definition activated (selector : str) (r : outcome) : Prop :=
  r = Err internal_error ∨
  ∃ s D s' D', sup_inv s D ∧ sruns (activate_locked uuid_to_string uuid_parse selector s) D (r, s') D'.

(** The steps of one caller, from phase to phase. *)
Inductive use_step (q : ActivationQueue) (cs : Completions) : Phase → Phase → ActivationQueue → Completions → Prop :=
| use_waits selector completion q' cs' :
    begin_use q selector cs = (Some completion, q', cs') →
    use_step q cs (Calling selector) (Waiting selector completion) q' cs'
| use_runs selector q' cs' :
    begin_use q selector cs = (None, q', cs') →
    use_step q cs (Calling selector) (RunFirst selector) q' cs'
| use_first selector r :
    activated selector r → use_step q cs (RunFirst selector) (RunLoop selector r) q cs
| use_takes selector initial next q' :
    take_next q = (Some next, q') →
    use_step q cs (RunLoop selector initial) (RunNext selector initial next) q' cs
| use_stops selector initial q' :
    take_next q = (None, q') →
    use_step q cs (RunLoop selector initial) (Finished selector initial) q' cs
| use_next selector initial next r :
    activated (pa_selector next) r →
    use_step q cs (RunNext selector initial next) (RunComplete selector initial (pa_completion next) r) q cs
| use_completes selector initial completion r :
    use_step q cs (RunComplete selector initial completion r) (RunLoop selector initial) q
      (complete cs completion r)
| use_wakes selector completion r cs' :
    take_result cs completion = Some (r, cs') →
    use_step q cs (Waiting selector completion) (Finished selector r) q cs'.

Inductive act_step : Activations → Activations → Prop :=
| act_caller q cs ps i p p' q' cs' :
    ps !! i = Some p → use_step q cs p p' q' cs' →
    act_step (MkActivations q cs ps) (MkActivations q' cs' (<[i := p']> ps)).

(** Calls that are all about to start. *)
Definition act_start (selectors : list str) : Activations :=
  MkActivations (MkActivationQueue false None) (MkCompletions 0 ∅) (Calling <$> selectors).

(** ** One runner *)

Definition is_runner (p : Phase) : bool :=
  match p with RunFirst _ | RunLoop _ _ | RunNext _ _ _ | RunComplete _ _ _ _ => true | _ => false end.

(** [runner] is the only caller inside the loop, and the flag says whether there
    is one; nothing is pending without it. *)
Record exclusive_by (runner : option nat) (c : Activations) : Prop := {
  ex_flag : aq_running (act_queue c) = bool_decide (is_Some runner);
  ex_only : ∀ i p, act_callers c !! i = Some p → is_runner p = true ↔ runner = Some i;
  ex_there : ∀ i, runner = Some i → is_Some (act_callers c !! i);
  ex_pending : is_Some (aq_pending (act_queue c)) → aq_running (act_queue c) = true;
}.
Definition exclusive (c : Activations) : Prop := ∃ runner, exclusive_by runner c.

(** A step that leaves the runner alone. *)
Lemma exclusive_same runner q cs ps i p p' q' cs' :
  exclusive_by runner (MkActivations q cs ps) → ps !! i = Some p → is_runner p' = is_runner p →
  aq_running q' = aq_running q → (is_Some (aq_pending q') → aq_running q' = true) →
  exclusive (MkActivations q' cs' (<[i := p']> ps)).
Proof.
  intros [Hf Ho Ht Hp] Hi Hr Hq Hq'. cbn in *. exists runner. split; cbn; [congruence| | |done].
  - intros j p0. destruct (decide (j = i)) as [->|Hj]; [|by rewrite list_lookup_insert_ne by done; apply Ho].
    rewrite list_lookup_insert_eq by (by eapply lookup_lt_Some). intros [= <-]. rewrite Hr. by apply Ho.
  - intros j Hj. rewrite lookup_lt_is_Some, length_insert, <-lookup_lt_is_Some. by apply Ht.
Qed.

Lemma exclusive_step c c' : exclusive c → act_step c c' → exclusive c'.
Proof.
  intros [runner Hc] Hs. destruct Hs as [q cs ps i p p' q' cs' Hi Hu].
  destruct Hu as [sel n q' cs' Hb|sel q' cs' Hb|sel r Hr|sel init next q' Hn|sel init q' Hn|sel init next r Hr|
    sel init n r|sel n r cs' Hw]; try (by eapply exclusive_same; [done|done|done|done|apply Hc]).
  - unfold begin_use in Hb. destruct (aq_running q) eqn:Hrun; [|done]. unfold enqueue in Hb. cbn in Hb.
    injection Hb as <- <- <-. by eapply exclusive_same.
  - unfold begin_use in Hb. destruct (aq_running q) eqn:Hrun; [by destruct (enqueue q sel cs) as [[]]|].
    injection Hb as <- <-. destruct Hc as [Hf Ho Ht Hp]. cbn in *. rewrite Hrun in Hf.
    symmetry in Hf. apply bool_decide_eq_false in Hf. apply eq_None_not_Some in Hf as ->.
    exists (Some i). split; cbn; [done| | |done].
    + intros j p0. destruct (decide (j = i)) as [->|Hj].
      * rewrite list_lookup_insert_eq by (by eapply lookup_lt_Some). intros [= <-]. done.
      * rewrite list_lookup_insert_ne by done. intros H0%Ho. split; [by intros ?%H0|congruence].
    + intros j [= <-]. rewrite list_lookup_insert_eq by (by eapply lookup_lt_Some). done.
  - unfold take_next in Hn. destruct (aq_pending q) as [pa|]; [|done]. injection Hn as <- <-.
    eapply exclusive_same; [done|done|done|done|by intros []].
  - unfold take_next in Hn. destruct (aq_pending q) as [pa|] eqn:Hpend; [done|]. injection Hn as <-.
    destruct Hc as [Hf Ho Ht Hp]. cbn in *. pose proof (proj1 (Ho i _ Hi) eq_refl) as ->.
    exists None. split; cbn; [done| |done|by intros []].
    intros j p0. destruct (decide (j = i)) as [->|Hj].
    + rewrite list_lookup_insert_eq by (by eapply lookup_lt_Some). by intros [= <-].
    + rewrite list_lookup_insert_ne by done. intros H0%Ho. split; [|done]. intros [= ->]%H0. done.
Qed.

Lemma exclusive_start selectors : exclusive (act_start selectors).
Proof.
  exists None. split; cbn; [done| |done|by intros []].
  intros i p (s & -> & _)%list_lookup_fmap_Some. done.
Qed.

(** ** Nobody is left waiting *)

Definition serves (p : Phase) (n : nat) : Prop :=
  match p with
  | RunNext _ _ next => pa_completion next = n
  | RunComplete _ _ m _ => m = n
  | _ => False
  end.

(** What a caller of [selector] may get. *)
Definition answered (selector : str) (r : outcome) : Prop := activated selector r ∨ r = superseded.

(** [n] is the completion, still empty, of one caller of [selector]. *)
Definition awaits (c : Activations) (selector : str) (n : nat) : Prop :=
  (∃ i, act_callers c !! i = Some (Waiting selector n)) ∧ co_slots (act_completions c) !! n = Some None.

Definition phase_ok (c : Activations) (p : Phase) : Prop :=
  match p with
  | Calling _ | RunFirst _ => True
  | Waiting selector n =>
      match co_slots (act_completions c) !! n with
      | Some (Some r) => answered selector r
      | Some None => aq_pending (act_queue c) = Some (MkPendingActivation selector n) ∨
                     ∃ j p', act_callers c !! j = Some p' ∧ serves p' n
      | None => False
      end
  | RunLoop selector initial => activated selector initial
  | RunNext selector initial next => activated selector initial ∧ awaits c (pa_selector next) (pa_completion next)
  | RunComplete selector initial n r => activated selector initial ∧ ∃ s, awaits c s n ∧ activated s r
  | Finished selector r => answered selector r
  end.

Record waiting_inv (c : Activations) : Prop := {
  wi_phases : ∀ i p, act_callers c !! i = Some p → phase_ok c p;
  wi_unique : ∀ i j s s' n, act_callers c !! i = Some (Waiting s n) → act_callers c !! j = Some (Waiting s' n) → i = j;
  wi_fresh : ∀ n, is_Some (co_slots (act_completions c) !! n) → (n < co_next (act_completions c))%nat;
  wi_pending : ∀ s n, aq_pending (act_queue c) = Some (MkPendingActivation s n) →
    awaits c s n ∧ ∀ j p, act_callers c !! j = Some p → ¬ serves p n;
}.

Lemma callers_insert (ps : list Phase) i j p p' p0 :
  ps !! i = Some p → <[i := p']> ps !! j = Some p0 → (j = i ∧ p0 = p') ∨ (j ≠ i ∧ ps !! j = Some p0).
Proof.
  intros Hi. destruct (decide (j = i)) as [->|Hj].
  - rewrite list_lookup_insert_eq by (by eapply lookup_lt_Some). intros [= <-]. by left.
  - rewrite list_lookup_insert_ne by done. by right.
Qed.
Lemma callers_insert_eq (ps : list Phase) i p p' : ps !! i = Some p → <[i := p']> ps !! i = Some p'.
Proof. intros Hi. apply list_lookup_insert_eq. by eapply lookup_lt_Some. Qed.

Lemma awaits_keep q cs ps i p p' q' cs' s n :
  ps !! i = Some p → (∀ s n, p ≠ Waiting s n) →
  (co_slots cs !! n = Some None → co_slots cs' !! n = Some None) →
  awaits (MkActivations q cs ps) s n → awaits (MkActivations q' cs' (<[i := p']> ps)) s n.
Proof.
  intros Hi Hp Hs [[k Hk] Hn]. split; [|by apply Hs]. exists k. cbn in *.
  rewrite list_lookup_insert_ne; [done|]. intros ->. rewrite Hi in Hk. injection Hk as ->. by eapply Hp.
Qed.

(** Some caller still serves [n] when [p] becomes [p']. *)
Lemma serves_keep (ps : list Phase) i p p' n :
  ps !! i = Some p → (serves p n → serves p' n) →
  (∃ j p0, ps !! j = Some p0 ∧ serves p0 n) → ∃ j p0, <[i := p']> ps !! j = Some p0 ∧ serves p0 n.
Proof.
  intros Hi Hp (j & p0 & Hj & Hs). destruct (decide (j = i)) as [->|Hne].
  - exists i, p'. rewrite (callers_insert_eq _ _ _ _ Hi). rewrite Hi in Hj. injection Hj as <-. auto.
  - exists j, p0. by rewrite list_lookup_insert_ne.
Qed.

(** A step of the runner, or into it, that touches no completion. *)
Lemma waiting_runner q cs ps i p p' q' :
  waiting_inv (MkActivations q cs ps) → ps !! i = Some p →
  (∀ s n, p ≠ Waiting s n) → (∀ s n, p' ≠ Waiting s n) → (∀ n, serves p n → serves p' n) →
  (∀ s n, aq_pending q = Some (MkPendingActivation s n) →
     aq_pending q' = Some (MkPendingActivation s n) ∨ serves p' n) →
  (∀ s n, aq_pending q' = Some (MkPendingActivation s n) →
     aq_pending q = Some (MkPendingActivation s n) ∧ (serves p' n → serves p n)) →
  phase_ok (MkActivations q' cs (<[i := p']> ps)) p' →
  waiting_inv (MkActivations q' cs (<[i := p']> ps)).
Proof.
  intros [Hph Hu Hfr Hpe] Hi Hp Hp' Hserve Hq Hq' Hok. cbn in *. split; cbn.
  - intros j p0 [[-> ->]|[Hj Hp0]]%(callers_insert _ _ _ _ _ _ Hi); [done|]. specialize (Hph _ _ Hp0).
    destruct p0 as [|s n| | |? ? next|? ? n r|]; try done; cbn in *.
    + destruct (co_slots cs !! n) as [[r|]|]; [done| |done]. destruct Hph as [Hph|Hph].
      * destruct (Hq _ _ Hph) as [|Hs]; [by left|right]. exists i, p'. by rewrite (callers_insert_eq _ _ _ _ Hi).
      * right. by eapply serves_keep; [done|apply Hserve|].
    + destruct Hph as [? ?]. split; [done|]. by eapply awaits_keep.
    + destruct Hph as (? & s & ? & ?). split; [done|]. exists s. split; [by eapply awaits_keep|done].
  - intros j k s s' n [[-> E]|[_ Hj]]%(callers_insert _ _ _ _ _ _ Hi); [by edestruct Hp'|].
    intros [[-> E]|[_ Hk]]%(callers_insert _ _ _ _ _ _ Hi); [by edestruct Hp'|]. by eapply Hu.
  - done.
  - intros s n [Hs Hn]%Hq'. destruct (Hpe _ _ Hs) as [Ha Hno]. split; [by eapply awaits_keep|].
    intros j p0 [[-> ->]|[Hj Hp0]]%(callers_insert _ _ _ _ _ _ Hi); [|by eapply Hno].
    intros ?%Hn. by eapply (Hno i p).
Qed.

Lemma waiting_wakes q cs ps i s n r :
  waiting_inv (MkActivations q cs ps) → ps !! i = Some (Waiting s n) → co_slots cs !! n = Some (Some r) →
  waiting_inv (MkActivations q (MkCompletions (co_next cs) (<[n := None]> (co_slots cs))) (<[i := Finished s r]> ps)).
Proof.
  intros [Hph Hu Hfr Hpe] Hi Hn. cbn in *.
  assert (∀ s' m, awaits (MkActivations q cs ps) s' m →
    awaits (MkActivations q (MkCompletions (co_next cs) (<[n := None]> (co_slots cs))) (<[i := Finished s r]> ps)) s' m) as Haw.
  { intros s' m [[k Hk] Hm]. cbn in *. assert (m ≠ n) by congruence. split.
    - exists k. cbn. rewrite list_lookup_insert_ne; [done|]. intros ->. congruence.
    - cbn. by rewrite lookup_insert_ne. }
  split; cbn.
  - intros j p0 [[-> ->]|[Hj Hp0]]%(callers_insert _ _ _ _ _ _ Hi).
    { specialize (Hph _ _ Hi). cbn in *. by rewrite Hn in Hph. }
    pose proof (Hph _ _ Hp0) as Hok. destruct p0 as [|s' m| | |? ? next|? ? m r'|]; try done; cbn in *.
    + rewrite lookup_insert_ne by (intros ->; by eapply Hj, Hu). destruct (co_slots cs !! m) as [[r'|]|] eqn:Hm; [done| |done].
      destruct Hok as [Hok|Hok]; [by left|right]. by eapply serves_keep.
    + destruct Hok. by auto.
    + destruct Hok as (? & s' & ? & ?). eauto.
  - intros j k s1 s2 m [[-> E]|[_ Hj]]%(callers_insert _ _ _ _ _ _ Hi); [done|].
    intros [[-> E]|[_ Hk]]%(callers_insert _ _ _ _ _ _ Hi); [done|]. by eapply Hu.
  - intros m. destruct (decide (m = n)) as [->|]; [intros _; apply Hfr; rewrite Hn; by eexists|].
    rewrite lookup_insert_ne by done. apply Hfr.
  - intros s' m Hs. destruct (Hpe _ _ Hs) as [Ha Hno]. split; [by apply Haw|].
    intros j p0 [[-> ->]|[Hj Hp0]]%(callers_insert _ _ _ _ _ _ Hi); [by intros []|by eapply Hno].
Qed.

(** The runner, caller [i], delivers a result: the waiter of [n] has it. *)
Lemma waiting_completes q cs ps i s init n r :
  waiting_inv (MkActivations q cs ps) → ps !! i = Some (RunComplete s init n r) →
  (∀ j p, ps !! j = Some p → is_runner p = true → j = i) →
  waiting_inv (MkActivations q (complete cs n r) (<[i := RunLoop s init]> ps)).
Proof.
  intros [Hph Hu Hfr Hpe] Hi Hrun. cbn in *. pose proof (Hph _ _ Hi) as (Hinit & s0 & [[w Hw] Hempty] & Hr). cbn in *.
  split; cbn.
  - intros j p0 [[-> ->]|[Hj Hp0]]%(callers_insert _ _ _ _ _ _ Hi); [done|].
    pose proof (Hph _ _ Hp0) as Hok. destruct p0 as [|s' m| | |? ? next|? ? m r'|]; try done; cbn in *.
    + destruct (decide (m = n)) as [->|Hm].
      * rewrite lookup_insert_eq. left. assert (j = w) as -> by by eapply Hu. congruence.
      * rewrite lookup_insert_ne by done. destruct (co_slots cs !! m) as [[r'|]|]; [done| |done].
        destruct Hok as [Hok|Hok]; [by left|right]. by eapply serves_keep; [done|cbn; congruence|].
    + by destruct Hj; eapply Hrun.
    + by destruct Hj; eapply Hrun.
  - intros j k s1 s2 m [[-> E]|[_ Hj]]%(callers_insert _ _ _ _ _ _ Hi); [done|].
    intros [[-> E]|[_ Hk]]%(callers_insert _ _ _ _ _ _ Hi); [done|]. by eapply Hu.
  - intros m. destruct (decide (m = n)) as [->|]; [intros _; apply Hfr; by eexists|].
    rewrite lookup_insert_ne by done. apply Hfr.
  - intros s' m Hs. destruct (Hpe _ _ Hs) as [Ha Hno]. assert (m ≠ n) as Hm by (intros ->; exact (Hno _ _ Hi eq_refl)).
    split.
    + eapply awaits_keep; [done|done| |done]. cbn. by rewrite lookup_insert_ne.
    + intros j p0 [[-> ->]|[Hj Hp0]]%(callers_insert _ _ _ _ _ _ Hi); [by intros []|by eapply Hno].
Qed.

(** The slots after [enqueue]. *)
Lemma enqueue_slots q sel cs n q' cs' :
  enqueue q sel cs = (n, q', cs') →
  n = co_next cs ∧ q' = MkActivationQueue (aq_running q) (Some (MkPendingActivation sel n)) ∧ co_next cs' = S n ∧
  ∀ m, co_slots cs' !! m =
    match aq_pending q with
    | Some old => if decide (m = pa_completion old) then Some (Some superseded) else <[n := None]> (co_slots cs) !! m
    | None => <[n := None]> (co_slots cs) !! m
    end.
Proof.
  unfold enqueue. cbn. intros [= <- <- <-]. split_and!; [done..|by destruct (aq_pending q)|].
  intros m. destruct (aq_pending q) as [old|]; [|done]. cbn. case_decide as Hd; [subst; by rewrite lookup_insert_eq|].
  by rewrite lookup_insert_ne.
Qed.

Lemma waiting_enqueues q cs ps i sel n q' cs' :
  waiting_inv (MkActivations q cs ps) → ps !! i = Some (Calling sel) → enqueue q sel cs = (n, q', cs') →
  waiting_inv (MkActivations q' cs' (<[i := Waiting sel n]> ps)).
Proof.
  intros [Hph Hu Hfr Hpe] Hi (-> & -> & Hnext & Hslots)%enqueue_slots. cbn in *. set (n := co_next cs) in *.
  assert (∀ m, is_Some (co_slots cs !! m) → m ≠ n) as Hold by (intros m ?%Hfr; unfold n; lia).
  assert (∀ j s m, ps !! j = Some (Waiting s m) → m ≠ n) as Hwait.
  { intros j s m Hj. apply Hold. pose proof (Hph _ _ Hj) as Hok. cbn in Hok. by destruct (co_slots cs !! m); [eexists|]. }
  (* the slots of everyone but a superseded caller *)
  assert (∀ m, m ≠ n → (∀ old, aq_pending q = Some old → m ≠ pa_completion old) → co_slots cs' !! m = co_slots cs !! m) as Hkeep.
  { intros m Hm Hne. rewrite Hslots. destruct (aq_pending q) as [old|]; [rewrite decide_False by (by apply Hne)|];
      by rewrite lookup_insert_ne. }
  assert (∀ old, aq_pending q = Some old → pa_completion old ≠ n) as Hpn.
  { intros [so no] Ho. destruct (Hpe _ _ Ho) as [[_ Hs] _]. apply Hold. cbn in *. rewrite Hs. by eexists. }
  assert (co_slots cs' !! n = Some None) as Hnew.
  { rewrite Hslots. destruct (aq_pending q) as [old|] eqn:Ho; [rewrite decide_False by (intros ->; by eapply Hpn)|];
      by rewrite lookup_insert_eq. }
  (* what is being served stays empty *)
  assert (∀ j p s m, ps !! j = Some p → serves p m → awaits (MkActivations q cs ps) s m →
    awaits (MkActivations (MkActivationQueue (aq_running q) (Some (MkPendingActivation sel n))) cs' (<[i := Waiting sel n]> ps)) s m) as Haw.
  { intros j p s m Hj Hs Ha. eapply awaits_keep; [done|done| |done]. intros Hm. rewrite Hkeep; [done| |].
    - apply Hold. rewrite Hm. by eexists.
    - intros [so no] Ho. destruct (Hpe _ _ Ho) as [_ Hno]. cbn. intros ->. exact (Hno _ _ Hj Hs). }
  split; cbn.
  - intros j p0 [[-> ->]|[Hj Hp0]]%(callers_insert _ _ _ _ _ _ Hi).
    { cbn. rewrite Hnew. by left. }
    pose proof (Hph _ _ Hp0) as Hok. destruct p0 as [|s m| | |? ? next|? ? m r|]; try done; cbn in Hok |- *.
    + rewrite Hslots. rewrite lookup_insert_ne by (by apply not_eq_sym; eapply Hwait).
      destruct (aq_pending q) as [[so no]|] eqn:Ho; cbn.
      * case_decide as Hd; [by right|]. destruct (co_slots cs !! m) as [[r|]|]; [done| |done].
        destruct Hok as [[= -> ->]|Hok]; [done|right]. by eapply serves_keep.
      * destruct (co_slots cs !! m) as [[r|]|]; [done| |done]. destruct Hok as [|Hok]; [done|right]. by eapply serves_keep.
    + destruct Hok as [? Ha]. split; [done|]. by eapply Haw.
    + destruct Hok as (? & s & Ha & ?). split; [done|]. exists s. split; [by eapply Haw|done].
  - intros j k s s' m [[-> [= -> ->]]|[_ Hj]]%(callers_insert _ _ _ _ _ _ Hi);
      intros [[-> E]|[_ Hk]]%(callers_insert _ _ _ _ _ _ Hi); [done|by apply Hwait in Hk| |by eapply Hu].
    injection E as -> ->. by apply Hwait in Hj.
  - intros m. rewrite Hnext. destruct (decide (m = n)) as [->|Hm]; [lia|]. intros Hs.
    enough (m < n)%nat by lia. apply Hfr. rewrite Hslots in Hs.
    destruct (aq_pending q) as [[so no]|] eqn:Ho; [|by rewrite lookup_insert_ne in Hs].
    cbn in *. case_decide as Hd; [|by rewrite lookup_insert_ne in Hs]. subst. destruct (Hpe _ _ eq_refl) as [[_ He] _].
    cbn in He. rewrite He. by eexists.
  - intros s m [= <- <-]. split.
    + split; [|done]. exists i. cbn. by eapply callers_insert_eq.
    + intros j p0 [[-> ->]|[Hj Hp0]]%(callers_insert _ _ _ _ _ _ Hi); [by intros []|]. intros Hs.
      pose proof (Hph _ _ Hp0) as Hok. destruct p0 as [| | | |? ? next|? ? k r|]; try done; cbn in Hs, Hok.
      * destruct Hok as [_ [_ He]]. cbn in He. rewrite Hs in He. exact (Hold _ (ex_intro _ _ He) eq_refl).
      * destruct Hok as (_ & s' & [_ He] & _). cbn in He. rewrite Hs in He. exact (Hold _ (ex_intro _ _ He) eq_refl).
Qed.

Lemma begin_use_waits q sel cs n q' cs' :
  begin_use q sel cs = (Some n, q', cs') → aq_running q = true ∧ enqueue q sel cs = (n, q', cs').
Proof. unfold begin_use. destruct (aq_running q); [|done]. destruct (enqueue q sel cs) as [[]]. by intros [= -> -> ->]. Qed.
Lemma begin_use_runs q sel cs q' cs' :
  begin_use q sel cs = (None, q', cs') → aq_running q = false ∧ q' = MkActivationQueue true (aq_pending q) ∧ cs' = cs.
Proof. unfold begin_use. destruct (aq_running q); [by destruct (enqueue q sel cs) as [[]]|]. by intros [= <- <-]. Qed.

Lemma waiting_step c c' : exclusive c → waiting_inv c → act_step c c' → waiting_inv c'.
Proof.
  intros [runner Hex] Hw Hs. destruct Hs as [q cs ps i p p' q' cs' Hi Hu]. pose proof (wi_phases _ Hw _ _ Hi) as Hok.
  destruct Hu as [sel n q' cs' Hb|sel q' cs' Hb|sel r Hr|sel init next q' Hn|sel init q' Hn|sel init next r Hr|
    sel init n r|sel n r cs' Hwake].
  - apply begin_use_waits in Hb as [_ Hb]. by eapply waiting_enqueues.
  - apply begin_use_runs in Hb as (_ & -> & ->). by eapply waiting_runner; try done; left.
  - by eapply waiting_runner; try done; left.
  - unfold take_next in Hn. destruct (aq_pending q) as [[s n]|] eqn:Hq; [|done]. injection Hn as <- <-.
    eapply waiting_runner; try done.
    + intros s' n' Hs'. rewrite Hq in Hs'. injection Hs' as -> ->. by right.
    + split; [done|]. eapply awaits_keep; [done|done|done|]. by apply (wi_pending _ Hw).
  - unfold take_next in Hn. destruct (aq_pending q) as [[s n]|] eqn:Hq; [done|]. injection Hn as <-.
    eapply waiting_runner; try done; [by rewrite Hq|by left].
  - eapply waiting_runner; try done; [by left|]. destruct Hok as [? Ha]. split; [done|].
    exists (pa_selector next). split; [|done]. by eapply awaits_keep.
  - eapply waiting_completes; [done|done|]. intros j p Hj Hr. apply (ex_only _ _ Hex j _ Hj) in Hr.
    assert (runner = Some i) by by apply (ex_only _ _ Hex i _ Hi). congruence.
  - unfold take_result in Hwake. destruct (co_slots cs !! n) as [[r0|]|] eqn:Hn; try done.
    injection Hwake as <- <-. by apply waiting_wakes.
Qed.

Lemma waiting_start selectors : waiting_inv (act_start selectors).
Proof.
  split; cbn; try done.
  - by intros i p (s & -> & _)%list_lookup_fmap_Some.
  - by intros i j s s' n (s0 & [=] & _)%list_lookup_fmap_Some.
  - intros n. rewrite lookup_empty. by intros [].
Qed.

Lemma act_reachable selectors c :
  rtc act_step (act_start selectors) c → exclusive c ∧ waiting_inv c.
Proof.
  intros Hr. assert (∀ c0, rtc act_step c0 c → exclusive c0 ∧ waiting_inv c0 → exclusive c ∧ waiting_inv c) as Hgen.
  { clear. intros c0 Hr. induction Hr as [|c0 c1 c2 Hs _ IH]; [done|]. intros [He Hw]. apply IH.
    split; [by eapply exclusive_step|by eapply waiting_step]. }
  apply (Hgen _ Hr). split; [apply exclusive_start|apply waiting_start].
Qed.

(** ** Every call returns *)

Definition phase_weight (p : Phase) : nat :=
  match p with
  | Calling _ => 5
  | Waiting _ _ => 1
  | RunFirst _ => 2
  | RunLoop _ _ => 1
  | RunNext _ _ _ => 3
  | RunComplete _ _ _ _ => 2
  | Finished _ _ => 0
  end.
(** The steps that are left, at most. *)
Definition act_measure (c : Activations) : nat :=
  sum_list_with phase_weight (act_callers c) + (match aq_pending (act_queue c) with Some _ => 3 | None => 0 end).

Lemma sum_insert (ps : list Phase) i p p' :
  ps !! i = Some p →
  (sum_list_with phase_weight (<[i := p']> ps) + phase_weight p = sum_list_with phase_weight ps + phase_weight p')%nat.
Proof.
  revert i. induction ps as [|p0 ps IH]; intros [|i] Hi; simpl in *; [done|done| |].
  - simplify_eq. lia.
  - specialize (IH _ Hi). lia.
Qed.

Lemma act_step_measure c c' : act_step c c' → (act_measure c' < act_measure c)%nat.
Proof.
  intros Hs. destruct Hs as [q cs ps i p p' q' cs' Hi Hu]. unfold act_measure. cbn. pose proof (sum_insert ps i p p' Hi) as Hsum.
  destruct Hu as [sel n q' cs' Hb|sel q' cs' Hb|sel r Hr|sel init next q' Hn|sel init q' Hn|sel init next r Hr|
    sel init n r|sel n r cs' Hwake]; cbn in Hsum; try lia.
  - apply begin_use_waits in Hb as [_ (_ & -> & _)%enqueue_slots]. cbn. destruct (aq_pending q); lia.
  - apply begin_use_runs in Hb as (_ & -> & _). cbn. lia.
  - unfold take_next in Hn. destruct (aq_pending q); [|done]. injection Hn as <- <-. cbn. lia.
  - unfold take_next in Hn. destruct (aq_pending q); [done|]. injection Hn as <-. cbn. lia.
Qed.

Definition finished (p : Phase) : bool := match p with Finished _ _ => true | _ => false end.

Lemma activated_some selector : ∃ r, activated selector r.
Proof. eexists. by left. Qed.

(** A runner always has a step. *)
Lemma runner_steps q cs p : is_runner p = true → ∃ p' q' cs', use_step q cs p p' q' cs'.
Proof.
  destruct p as [| |sel|sel init|sel init next|sel init n r|]; try done; intros _.
  - destruct (activated_some sel) as [r Hr]. do 3 eexists. by apply use_first.
  - destruct (take_next q) as [[next|] q'] eqn:Hn; do 3 eexists; [by apply use_takes|by apply use_stops].
  - destruct (activated_some (pa_selector next)) as [r Hr]. do 3 eexists. by apply use_next.
  - do 3 eexists. apply use_completes.
Qed.

Lemma calling_steps q cs sel : ∃ p' q' cs', use_step q cs (Calling sel) p' q' cs'.
Proof.
  destruct (begin_use q sel cs) as [[[n|] q'] cs'] eqn:Hb; do 3 eexists; [by apply use_waits|by apply use_runs].
Qed.

Lemma act_progress c :
  exclusive c → waiting_inv c → Forall (λ p, finished p = true) (act_callers c) ∨ ∃ c', act_step c c'.
Proof.
  intros [runner Hex] Hw. destruct (decide (Forall (λ p, finished p = true) (act_callers c))) as [|Hn]; [by left|right].
  apply not_Forall_Exists in Hn; [|apply _]. apply Exists_exists in Hn as (p & (i & Hi)%list_elem_of_lookup & Hp).
  destruct c as [q cs ps]. cbn in *.
  assert (∀ j p0, ps !! j = Some p0 → (∃ p' q' cs', use_step q cs p0 p' q' cs') → ∃ c', act_step (MkActivations q cs ps) c') as Hstep.
  { intros j p0 Hj (p' & q' & cs' & Hu). eexists. by econstructor. }
  assert (aq_running q = true → ∃ c', act_step (MkActivations q cs ps) c') as Hrunner.
  { intros Hr. pose proof (ex_flag _ _ Hex) as Hf. cbn in Hf. rewrite Hr in Hf. symmetry in Hf.
    apply bool_decide_eq_true in Hf as [j ->]. destruct (ex_there _ _ Hex j eq_refl) as [p0 Hj].
    eapply Hstep; [exact Hj|]. apply runner_steps. by eapply (ex_only _ _ Hex). }
  destruct p as [sel|sel n|sel|sel init|sel init next|sel init n r|sel r]; try (by eapply Hstep; [exact Hi|apply runner_steps]).
  - eapply Hstep; [exact Hi|apply calling_steps].
  - pose proof (wi_phases _ Hw _ _ Hi) as Hok. cbn in Hok. destruct (co_slots cs !! n) as [[r|]|] eqn:Hn; [| |done].
    + eapply Hstep; [exact Hi|]. do 3 eexists. apply use_wakes. unfold take_result. by rewrite Hn.
    + apply Hrunner. destruct Hok as [Hok|(j & p' & Hj & Hs)].
      * apply (ex_pending _ _ Hex). cbn. rewrite Hok. by eexists.
      * pose proof (ex_flag _ _ Hex) as Hf. cbn in Hf. rewrite Hf. apply bool_decide_eq_true.
        assert (runner = Some j) as ->; [|by eexists]. apply (ex_only _ _ Hex j _ Hj). by destruct p'.
Qed.

(** C11: [profile_use] leaves nobody behind: however the calls interleave, every execution is finite (each
    step lowers a count that starts at five per call), and while some call has not returned some call can
    go on; a waiting caller is woken. *)
Theorem activations_complete selectors c :
  rtc act_step (act_start selectors) c →
  (act_measure c ≤ 5 * length selectors)%nat ∧
  (∀ c', act_step c c' → (act_measure c' < act_measure c)%nat) ∧
  (Forall (λ p, finished p = true) (act_callers c) ∨ ∃ c', act_step c c').
Proof.
  intros Hr. destruct (act_reachable _ _ Hr) as [He Hw]. split; [|split; [apply act_step_measure|by apply act_progress]].
  assert (act_measure (act_start selectors) = 5 * length selectors)%nat as <-.
  { unfold act_measure. cbn. clear. induction selectors as [|s l IH]; csimpl; [done|lia]. }
  clear He Hw. induction Hr as [|c0 c1 c2 Hs%act_step_measure _ IH]; lia.
Qed.

Lemma act_step_selector c c' : act_step c c' → phase_selector <$> act_callers c' = phase_selector <$> act_callers c.
Proof.
  intros Hs. destruct Hs as [q cs ps i p p' q' cs' Hi Hu]. cbn. rewrite list_fmap_insert.
  apply list_insert_id. rewrite list_lookup_fmap, Hi. by destruct Hu.
Qed.
Lemma act_selectors c c' : rtc act_step c c' → phase_selector <$> act_callers c' = phase_selector <$> act_callers c.
Proof. induction 1 as [|c0 c1 c2 Hs _ IH]; [done|]. by rewrite IH, (act_step_selector _ _ Hs). Qed.

(** C30: At most one caller of [profile_use] runs activations at any time, and what a call returns is the outcome
    of activating its own selector, or that a newer request superseded it; never the outcome of another
    caller's request. *)
Theorem activations_exclusive selectors c :
  rtc act_step (act_start selectors) c →
  (∀ i j p p', act_callers c !! i = Some p → act_callers c !! j = Some p' →
     is_runner p = true → is_runner p' = true → i = j) ∧
  (∀ i selector p, selectors !! i = Some selector → act_callers c !! i = Some p →
     ∀ s r, p = Finished s r → s = selector ∧ (activated selector r ∨ r = superseded)).
Proof.
  intros Hr. destruct (act_reachable _ _ Hr) as [[runner He] Hw]. split.
  - intros i j p p' Hi Hj Hp Hp'. apply (ex_only _ _ He i _ Hi) in Hp. apply (ex_only _ _ He j _ Hj) in Hp'. congruence.
  - intros i selector p Hs Hi s r ->. apply act_selectors in Hr. cbn in Hr.
    rewrite <-list_fmap_compose in Hr. assert (Some s = Some selector) as [= ->].
    { rewrite <-Hs. change (Some s) with (phase_selector <$> Some (Finished s r)). rewrite <-Hi, <-list_lookup_fmap, Hr.
      by rewrite list_fmap_id. }
    split; [done|]. exact (wi_phases _ Hw _ _ Hi).
Qed.
End activation.

(** ** A concrete run: two callers, the second waits and is served by the first *)

Definition poisoned : outcome := Err internal_error.
Definition sample_callers : list str := [lit "a"; lit "b"].

Definition sample_end : Activations :=
  MkActivations (MkActivationQueue false None) (MkCompletions 1 {[0%nat := None]})
    [Finished (lit "a") poisoned; Finished (lit "b") poisoned].

Lemma sample_activations :
  rtc (act_step (H := sample_yaml) sample_uuid sample_uuid_parse) (act_start sample_callers) sample_end.
Proof.
  assert (∀ s, activated (H := sample_yaml) sample_uuid sample_uuid_parse s poisoned) as Hact by (intros s; by left).
  eapply rtc_l; [by eapply (act_caller _ _ _ _ _ 0%nat _ (RunFirst (lit "a"))); [reflexivity|apply use_runs]|].
  eapply rtc_l; [by eapply (act_caller _ _ _ _ _ 1%nat _ (Waiting (lit "b") 0%nat)); [reflexivity|apply use_waits]|].
  eapply rtc_l; [by eapply (act_caller _ _ _ _ _ 0%nat _ (RunLoop (lit "a") poisoned)); [reflexivity|apply use_first]|].
  eapply rtc_l; [by eapply (act_caller _ _ _ _ _ 0%nat _ (RunNext (lit "a") poisoned (MkPendingActivation (lit "b") 0%nat)));
    [reflexivity|apply use_takes]|].
  eapply rtc_l; [by eapply (act_caller _ _ _ _ _ 0%nat _ (RunComplete (lit "a") poisoned 0%nat poisoned));
    [reflexivity|eapply (use_next _ _ _ _ _ _ (MkPendingActivation (lit "b") 0%nat))]|].
  eapply rtc_l; [by eapply (act_caller _ _ _ _ _ 0%nat _ (RunLoop (lit "a") poisoned)); [reflexivity|apply use_completes]|].
  eapply rtc_l; [by eapply (act_caller _ _ _ _ _ 1%nat _ (Finished (lit "b") poisoned)); [reflexivity|apply use_wakes]|].
  eapply rtc_l; [by eapply (act_caller _ _ _ _ _ 0%nat _ (Finished (lit "a") poisoned)); [reflexivity|apply use_stops]|].
  reflexivity.
Qed.

Lemma activations_complete_witness :
  (act_measure sample_end ≤ 10)%nat ∧
  (Forall (λ p, finished p = true) (act_callers sample_end) ∨
   ∃ c', act_step (H := sample_yaml) sample_uuid sample_uuid_parse sample_end c').
Proof.
  pose proof (activations_complete (H := sample_yaml) sample_uuid sample_uuid_parse sample_callers sample_end
    sample_activations) as (Hm & _ & Hp).
  split; [exact Hm|exact Hp].
Defined.

Lemma activations_exclusive_witness :
  activated (H := sample_yaml) sample_uuid sample_uuid_parse (lit "b") poisoned ∨ poisoned = superseded.
Proof.
  pose proof (activations_exclusive (H := sample_yaml) sample_uuid sample_uuid_parse sample_callers sample_end
    sample_activations) as [_ Hf].
  exact (proj2 (Hf 1%nat (lit "b") _ eq_refl eq_refl (lit "b") poisoned eq_refl)).
Defined.
