(* ===== verification/Service.v ===== *)
(** * Service: the privileged core runtime service
    (src/service.rs, src/service/platform.rs, src/service/error.rs)

    The state machine behind the core service's socket: owner sessions, the one
    core process it owns, restarts after an unexpected exit, and the log lines it
    forwards.  Its functions are programs over [SvcCall]: the platform ports, the
    files of the generation state and of the control endpoint, and its two
    mutexes.  A function of [&mut ServiceState] is a [svc].

    Durations are in nanoseconds. *)

From S2P Require Import Prelude Text Constants Path Domain Ports Program Mihomo.
Local Open Scope Z_scope.

(** ** Data *)

Inductive CoreRuntimeErrorKind :=
| KindAuthentication | KindProtocolMismatch | KindTunPermissionDenied | KindTunUnsupported | KindInvalidBundle
| KindProcessIdentityMismatch | KindApply | KindReloadTimeout | KindReadiness | KindUnavailable.
#[global] Instance CoreRuntimeErrorKind_eq_dec : EqDecision CoreRuntimeErrorKind.
Proof. solve_decision. Defined.

Record CoreRuntimeError := MkCoreRuntimeError {
  cre_kind : CoreRuntimeErrorKind;
  cre_diagnostic : str;
}.

(** [service_error] *)
Definition service_error (kind : CoreRuntimeErrorKind) (message : str) : CoreRuntimeError :=
  MkCoreRuntimeError kind message.
Definition unavailable (message : str) : CoreRuntimeError := service_error KindUnavailable message.

Inductive ServicePlatformErrorKind :=
| PlatformCredential | PlatformProcessInspection | PlatformSpawn | PlatformReload | PlatformReloadTimeout
| PlatformApplyCancelled | PlatformStop | PlatformReadiness | PlatformReadinessTimeout | PlatformLogs
| PlatformTunUnavailable | PlatformTunUnsupported | PlatformConfigurationPolicy | PlatformRandomness.

Definition map_spawn_error (e : ServicePlatformErrorKind) : CoreRuntimeError :=
  match e with
  | PlatformApplyCancelled =>
      service_error KindReloadTimeout (lit "Core spawn was cancelled during Supervisor shutdown")
  | _ => service_error KindApply (lit "Core spawn failed")
  end.

Definition map_readiness_error (e : ServicePlatformErrorKind) : CoreRuntimeError :=
  match e with
  | PlatformApplyCancelled =>
      service_error KindReloadTimeout (lit "Core readiness was cancelled during Supervisor shutdown")
  | _ => service_error KindReadiness (lit "Core readiness confirmation failed")
  end.

Definition map_stop_error (_ : ServicePlatformErrorKind) : CoreRuntimeError :=
  service_error KindApply (lit "Core stop failed").

Definition map_tun_preflight_error (e : ServicePlatformErrorKind) : CoreRuntimeError :=
  match e with
  | PlatformTunUnavailable =>
      service_error KindTunPermissionDenied (lit "TUN capability permission check failed")
  | PlatformTunUnsupported => service_error KindTunUnsupported (lit "TUN control sockets are unsupported")
  | _ => unavailable (lit "TUN capability inspection failed")
  end.

Record OwnerSessionRequest := MkOwnerSessionRequest {
  osr_owner_uid : Z;
  osr_supervisor_pid : Z;
  osr_supervisor_start_identity : str;
  osr_instance_token : str;
  osr_protocol_version : Z;
}.

Record OwnerSessionProof := MkOwnerSessionProof {
  session_id : str;
  session_token : str;
}.
#[global] Instance OwnerSessionProof_eq_dec : EqDecision OwnerSessionProof.
Proof. solve_decision. Defined.

Record OwnerSession := MkOwnerSession {
  os_proof : OwnerSessionProof;
  os_protocol_version : Z;
  os_owner_generation : Z;
  os_endpoint : CoreControlEndpoint;
}.

Record StopCoreResult := MkStopCoreResult {
  scr_stopped : bool;
  scr_instance_generation : option Z;
}.

Inductive ProcessOutputSource := SourceStdout | SourceStderr.

Record ForwardedCoreLog := MkForwardedCoreLog {
  fcl_sequence : Z;
  fcl_timestamp : Z;
  fcl_source : ProcessOutputSource;
  fcl_message : str;
  fcl_instance_generation : Z;
}.

Record ForwardedCoreLogBatch := MkForwardedCoreLogBatch {
  fcb_records : list ForwardedCoreLog;
  fcb_next_sequence : option Z;
  fcb_dropped_before : Z;
  fcb_dropped_since_after : Z;
}.

Record CoreProcessLog := MkCoreProcessLog {
  cpl_timestamp : Z;
  cpl_source : ProcessOutputSource;
  cpl_message : str;
}.

Record CoreProcessLogBatch := MkCoreProcessLogBatch {
  cpb_records : list CoreProcessLog;
  cpb_dropped : Z;
}.

Record OwnedProcessIdentity := MkOwnedProcessIdentity {
  opi_pid : Z;
  opi_process_start_identity : str;
  opi_instance_generation : Z;
}.
#[global] Instance OwnedProcessIdentity_eq_dec : EqDecision OwnedProcessIdentity.
Proof. solve_decision. Defined.

Record SpawnedCoreProcess := MkSpawnedCoreProcess {
  scp_pid : Z;
  scp_process_start_identity : str;
}.

Record VerifiedRuntimeBundle := MkVerifiedRuntimeBundle {
  vrb_bundle : RuntimeBundle;
  vrb_manifest_path : path;
  vrb_executable_path : path;
  vrb_configuration_path : path;
}.

(** What the code reads of [fs::symlink_metadata]. *)
Record EndpointMetadata := MkEndpointMetadata {
  em_is_socket : bool;
  em_device : Z;
  em_inode : Z;
  em_change_time_seconds : Z;
  em_change_time_nanoseconds : Z;
}.
Inductive MetadataError := MetadataNotFound | MetadataOther.

Record OwnedEndpointIdentity := MkOwnedEndpointIdentity {
  oei_device : Z;
  oei_inode : Z;
  oei_change_time_seconds : Z;
  oei_change_time_nanoseconds : Z;
}.

Record PrivilegedServiceConfig := MkPrivilegedServiceConfig {
  psc_protocol_version : Z;
  psc_service_owned_root : path;
  psc_compiler_policy_sha256 : str;
  psc_mihomo_binary_sha256 : str;
  psc_restart_limit : Z;
  psc_log_capacity : Z;
  psc_max_log_line_bytes : Z;
}.

Definition CORE_RUNTIME_PROTOCOL_VERSION : Z := 1.

Definition product_defaults (service_owned_root : path) (compiler_policy_sha256 mihomo_binary_sha256 : str)
  : PrivilegedServiceConfig :=
  MkPrivilegedServiceConfig CORE_RUNTIME_PROTOCOL_VERSION service_owned_root compiler_policy_sha256
    mihomo_binary_sha256 CORE_RESTART_LIMIT CORE_LOG_FORWARD_CAPACITY CORE_LOG_LINE_MAX_BYTES.

Inductive PrivilegedServiceLifecycle := ServiceIdle | ServiceOwned | ServiceRunning | ServiceDegraded.

Record OwnerSessionMetadata := MkOwnerSessionMetadata {
  osm_owner_generation : Z;
  osm_endpoint : CoreControlEndpoint;
}.

Record PrivilegedServiceSnapshot := MkPrivilegedServiceSnapshot {
  pss_lifecycle : PrivilegedServiceLifecycle;
  pss_owner_generation : Z;
  pss_owner_pid : Z;
  pss_endpoint : CoreControlEndpoint;
  pss_managed_core : option ManagedCoreHandle;
  pss_consecutive_restart_failures : Z;
  pss_diagnostic : option CoreRuntimeDiagnosticCategory;
  pss_dropped_log_sequence : Z;
}.

Record CoreExitIdentity := MkCoreExitIdentity {
  cei_pid : Z;
  cei_process_start_identity : str;
  cei_instance_generation : Z;
}.

Inductive UnexpectedExitOutcome :=
| ExitPending (attempts next_attempt_at : Z)
| ExitRestarted (attempts : Z) (managed_core : ManagedCoreHandle)
| ExitDegraded (attempts : Z) (diagnostic : CoreRuntimeDiagnosticCategory).

Inductive ServiceMaintenanceOutcome :=
| MaintenanceUnchanged (lifecycle : PrivilegedServiceLifecycle)
| MaintenanceOwnerRevoked
| MaintenanceUnexpectedExit (outcome : UnexpectedExitOutcome).

Record ServiceMaintenanceStep := MkServiceMaintenanceStep {
  sms_outcome : ServiceMaintenanceOutcome;
  sms_next_deadline : Z;
}.

Record ServiceOwner := MkServiceOwner {
  so_owner_uid : Z;
  so_supervisor_pid : Z;
  so_supervisor_start_identity : str;
  so_instance_token : str;
  so_generation : Z;
  so_proof : OwnerSessionProof;
  so_endpoint : CoreControlEndpoint;
}.

Record ManagedCoreRecord := MkManagedCoreRecord {
  mcr_handle : ManagedCoreHandle;
  mcr_owned_identity : OwnedProcessIdentity;
  mcr_endpoint_identity : option OwnedEndpointIdentity;
}.
Definition with_endpoint_identity (e : option OwnedEndpointIdentity) (r : ManagedCoreRecord) : ManagedCoreRecord :=
  MkManagedCoreRecord (mcr_handle r) (mcr_owned_identity r) e.

Inductive OwnedCoreState := CoreActive (r : ManagedCoreRecord) | CoreCleanupPending (r : ManagedCoreRecord).

Definition core_active (c : OwnedCoreState) : option ManagedCoreRecord :=
  match c with CoreActive r => Some r | CoreCleanupPending _ => None end.
Definition core_record (c : OwnedCoreState) : ManagedCoreRecord :=
  match c with CoreActive r | CoreCleanupPending r => r end.
(** Assignment through [record_mut]. *)
Definition set_core_record (c : OwnedCoreState) (r : ManagedCoreRecord) : OwnedCoreState :=
  match c with CoreActive _ => CoreActive r | CoreCleanupPending _ => CoreCleanupPending r end.
Definition is_cleanup_pending (c : OwnedCoreState) : bool :=
  match c with CoreActive _ => false | CoreCleanupPending _ => true end.

Record ServiceState := MkServiceState {
  vs_owner_generation : Z;
  vs_owner : option ServiceOwner;
  vs_core_instance_generation : Z;
  vs_managed_core : option OwnedCoreState;
  vs_last_bundle : option RuntimeBundle;
  vs_degraded : bool;
  vs_consecutive_restart_failures : Z;
  vs_diagnostic : option CoreRuntimeDiagnosticCategory;
  vs_restart_due_at : option Z;
  vs_restart_backoff : option Z;
  vs_next_liveness_at : option Z;
  vs_logs : list ForwardedCoreLog;
  vs_log_bytes : Z;
  vs_next_log_sequence : Z;
  vs_dropped_log_sequence : Z;
}.

Definition put_owner_generation (v : Z) (s : ServiceState) : ServiceState :=
  MkServiceState v (vs_owner s) (vs_core_instance_generation s) (vs_managed_core s) (vs_last_bundle s)
    (vs_degraded s) (vs_consecutive_restart_failures s) (vs_diagnostic s) (vs_restart_due_at s)
    (vs_restart_backoff s) (vs_next_liveness_at s) (vs_logs s) (vs_log_bytes s) (vs_next_log_sequence s)
    (vs_dropped_log_sequence s).
Definition put_owner (v : option ServiceOwner) (s : ServiceState) : ServiceState :=
  MkServiceState (vs_owner_generation s) v (vs_core_instance_generation s) (vs_managed_core s)
    (vs_last_bundle s) (vs_degraded s) (vs_consecutive_restart_failures s) (vs_diagnostic s)
    (vs_restart_due_at s) (vs_restart_backoff s) (vs_next_liveness_at s) (vs_logs s) (vs_log_bytes s)
    (vs_next_log_sequence s) (vs_dropped_log_sequence s).
Definition put_core_instance_generation (v : Z) (s : ServiceState) : ServiceState :=
  MkServiceState (vs_owner_generation s) (vs_owner s) v (vs_managed_core s) (vs_last_bundle s) (vs_degraded s)
    (vs_consecutive_restart_failures s) (vs_diagnostic s) (vs_restart_due_at s) (vs_restart_backoff s)
    (vs_next_liveness_at s) (vs_logs s) (vs_log_bytes s) (vs_next_log_sequence s) (vs_dropped_log_sequence s).
Definition put_managed_core (v : option OwnedCoreState) (s : ServiceState) : ServiceState :=
  MkServiceState (vs_owner_generation s) (vs_owner s) (vs_core_instance_generation s) v (vs_last_bundle s)
    (vs_degraded s) (vs_consecutive_restart_failures s) (vs_diagnostic s) (vs_restart_due_at s)
    (vs_restart_backoff s) (vs_next_liveness_at s) (vs_logs s) (vs_log_bytes s) (vs_next_log_sequence s)
    (vs_dropped_log_sequence s).
Definition put_last_bundle (v : option RuntimeBundle) (s : ServiceState) : ServiceState :=
  MkServiceState (vs_owner_generation s) (vs_owner s) (vs_core_instance_generation s) (vs_managed_core s) v
    (vs_degraded s) (vs_consecutive_restart_failures s) (vs_diagnostic s) (vs_restart_due_at s)
    (vs_restart_backoff s) (vs_next_liveness_at s) (vs_logs s) (vs_log_bytes s) (vs_next_log_sequence s)
    (vs_dropped_log_sequence s).
Definition put_degraded (v : bool) (s : ServiceState) : ServiceState :=
  MkServiceState (vs_owner_generation s) (vs_owner s) (vs_core_instance_generation s) (vs_managed_core s)
    (vs_last_bundle s) v (vs_consecutive_restart_failures s) (vs_diagnostic s) (vs_restart_due_at s)
    (vs_restart_backoff s) (vs_next_liveness_at s) (vs_logs s) (vs_log_bytes s) (vs_next_log_sequence s)
    (vs_dropped_log_sequence s).
Definition put_consecutive_restart_failures (v : Z) (s : ServiceState) : ServiceState :=
  MkServiceState (vs_owner_generation s) (vs_owner s) (vs_core_instance_generation s) (vs_managed_core s)
    (vs_last_bundle s) (vs_degraded s) v (vs_diagnostic s) (vs_restart_due_at s) (vs_restart_backoff s)
    (vs_next_liveness_at s) (vs_logs s) (vs_log_bytes s) (vs_next_log_sequence s) (vs_dropped_log_sequence s).
Definition put_diagnostic (v : option CoreRuntimeDiagnosticCategory) (s : ServiceState) : ServiceState :=
  MkServiceState (vs_owner_generation s) (vs_owner s) (vs_core_instance_generation s) (vs_managed_core s)
    (vs_last_bundle s) (vs_degraded s) (vs_consecutive_restart_failures s) v (vs_restart_due_at s)
    (vs_restart_backoff s) (vs_next_liveness_at s) (vs_logs s) (vs_log_bytes s) (vs_next_log_sequence s)
    (vs_dropped_log_sequence s).
Definition put_restart_due_at (v : option Z) (s : ServiceState) : ServiceState :=
  MkServiceState (vs_owner_generation s) (vs_owner s) (vs_core_instance_generation s) (vs_managed_core s)
    (vs_last_bundle s) (vs_degraded s) (vs_consecutive_restart_failures s) (vs_diagnostic s) v
    (vs_restart_backoff s) (vs_next_liveness_at s) (vs_logs s) (vs_log_bytes s) (vs_next_log_sequence s)
    (vs_dropped_log_sequence s).
Definition put_restart_backoff (v : option Z) (s : ServiceState) : ServiceState :=
  MkServiceState (vs_owner_generation s) (vs_owner s) (vs_core_instance_generation s) (vs_managed_core s)
    (vs_last_bundle s) (vs_degraded s) (vs_consecutive_restart_failures s) (vs_diagnostic s)
    (vs_restart_due_at s) v (vs_next_liveness_at s) (vs_logs s) (vs_log_bytes s) (vs_next_log_sequence s)
    (vs_dropped_log_sequence s).
Definition put_next_liveness_at (v : option Z) (s : ServiceState) : ServiceState :=
  MkServiceState (vs_owner_generation s) (vs_owner s) (vs_core_instance_generation s) (vs_managed_core s)
    (vs_last_bundle s) (vs_degraded s) (vs_consecutive_restart_failures s) (vs_diagnostic s)
    (vs_restart_due_at s) (vs_restart_backoff s) v (vs_logs s) (vs_log_bytes s) (vs_next_log_sequence s)
    (vs_dropped_log_sequence s).
Definition put_logs (v : list ForwardedCoreLog) (s : ServiceState) : ServiceState :=
  MkServiceState (vs_owner_generation s) (vs_owner s) (vs_core_instance_generation s) (vs_managed_core s)
    (vs_last_bundle s) (vs_degraded s) (vs_consecutive_restart_failures s) (vs_diagnostic s)
    (vs_restart_due_at s) (vs_restart_backoff s) (vs_next_liveness_at s) v (vs_log_bytes s)
    (vs_next_log_sequence s) (vs_dropped_log_sequence s).
Definition put_log_bytes (v : Z) (s : ServiceState) : ServiceState :=
  MkServiceState (vs_owner_generation s) (vs_owner s) (vs_core_instance_generation s) (vs_managed_core s)
    (vs_last_bundle s) (vs_degraded s) (vs_consecutive_restart_failures s) (vs_diagnostic s)
    (vs_restart_due_at s) (vs_restart_backoff s) (vs_next_liveness_at s) (vs_logs s) v
    (vs_next_log_sequence s) (vs_dropped_log_sequence s).
Definition put_next_log_sequence (v : Z) (s : ServiceState) : ServiceState :=
  MkServiceState (vs_owner_generation s) (vs_owner s) (vs_core_instance_generation s) (vs_managed_core s)
    (vs_last_bundle s) (vs_degraded s) (vs_consecutive_restart_failures s) (vs_diagnostic s)
    (vs_restart_due_at s) (vs_restart_backoff s) (vs_next_liveness_at s) (vs_logs s) (vs_log_bytes s) v
    (vs_dropped_log_sequence s).
Definition put_dropped_log_sequence (v : Z) (s : ServiceState) : ServiceState :=
  MkServiceState (vs_owner_generation s) (vs_owner s) (vs_core_instance_generation s) (vs_managed_core s)
    (vs_last_bundle s) (vs_degraded s) (vs_consecutive_restart_failures s) (vs_diagnostic s)
    (vs_restart_due_at s) (vs_restart_backoff s) (vs_next_liveness_at s) (vs_logs s) (vs_log_bytes s)
    (vs_next_log_sequence s) v.

Record ApplyCancellationState := MkApplyCancellationState {
  acs_owner : option OwnerSessionProof;
  acs_owner_generation : option Z;
  acs_requested : bool;
}.

(** The durable generations, without the schema version. *)
Record ServiceGenerationState := MkServiceGenerationState {
  sgs_owner_generation : Z;
  sgs_core_instance_generation : Z;
}.
Inductive ServiceGenerationStateCommitFault := FaultWrite | FaultFileSync | FaultRename | FaultDirectorySync.

(** ** Calls *)

Inductive SvcCall : Type → Type :=
| VCredentials (request : OwnerSessionRequest) : SvcCall (result unit ServicePlatformErrorKind)
| VStartIdentity (pid : Z) : SvcCall (result (option str) ServicePlatformErrorKind)
| VTun (owner_uid : Z) : SvcCall (result unit ServicePlatformErrorKind)
| VSecret : SvcCall (result str ServicePlatformErrorKind)
| VVerify (bundle : RuntimeBundle) (endpoint : CoreControlEndpoint)
  : SvcCall (result VerifiedRuntimeBundle CoreRuntimeError)
| VSpawn (bundle : VerifiedRuntimeBundle) (endpoint : CoreControlEndpoint) (instance_generation : Z)
  : SvcCall (result SpawnedCoreProcess ServicePlatformErrorKind)
| VStop (process : OwnedProcessIdentity) : SvcCall (result unit ServicePlatformErrorKind)
| VReadiness (process : OwnedProcessIdentity) (endpoint : CoreControlEndpoint)
  : SvcCall (result unit ServicePlatformErrorKind)
| VGrant (endpoint : CoreControlEndpoint) (owner_uid : Z) : SvcCall (result unit ServicePlatformErrorKind)
| VReap (process : OwnedProcessIdentity) : SvcCall (result bool ServicePlatformErrorKind)
| VTakeLogs (process : OwnedProcessIdentity) (limit : Z)
  : SvcCall (result CoreProcessLogBatch ServicePlatformErrorKind)
| VResetApply (owner_generation : Z) : SvcCall unit
| VCancelApply (owner_generation : Z) : SvcCall unit
| VPrepareRoots : SvcCall (result unit CoreRuntimeError)
| VGenerationLock : SvcCall (result unit CoreRuntimeError)
| VGenerationUnlock : SvcCall unit
| VCleanupGenerations : SvcCall (result unit CoreRuntimeError)
| VLoadOrInitialize : SvcCall (result ServiceGenerationState CoreRuntimeError)
| VLoadGeneration : SvcCall (result ServiceGenerationState CoreRuntimeError)
| VTakeFault : SvcCall (result (option ServiceGenerationStateCommitFault) unit)
| VPersistGeneration (state : ServiceGenerationState) (fault : option ServiceGenerationStateCommitFault)
  : SvcCall (result unit CoreRuntimeError)
| VMetadata (p : path) : SvcCall (result EndpointMetadata MetadataError)
| VRemoveFile (p : path) : SvcCall (result unit unit)
| VLock : SvcCall (result ServiceState unit)
| VUnlock (s : ServiceState) : SvcCall unit
| VLockCancellation : SvcCall (result ApplyCancellationState unit)
| VUnlockCancellation (c : ApplyCancellationState) : SvcCall unit.

Abbreviation vprog := (tree SvcCall).
Abbreviation svc := (stp SvcCall ServiceState).

(** [self.lock_state()?] to the end of the scope. *)
Definition svc_locked {A} (body : svc (result A CoreRuntimeError)) : vprog (result A CoreRuntimeError) :=
  let* guard := call VLock in
  match guard with
  | Err _ => Ret (Err (unavailable (lit "service state lock unavailable")))
  | Ok s =>
      let* r := body s in
      let* _u := call (VUnlock r.2) in
      Ret r.1
  end.

Definition cancellation_unavailable : CoreRuntimeError :=
  unavailable (lit "Runtime Apply cancellation state is unavailable").

(** ** Pure parts *)

Definition DURATION_MAX : Z := u64_max * 1000000000 + 999999999.
(** The constants are in milliseconds. *)
Definition millis (ms : Z) : Z := ms * 1000000.

Definition deadline_after (now delay : Z) : Z := Z.min (now + delay) DURATION_MAX.

Definition restart_backoff_after (failed_attempts : Z) : Z :=
  let exponent := Z.min failed_attempts 4294967295 in
  let multiplier := if 32 <=? exponent then 4294967295 else 2 ^ exponent in
  let product := millis CORE_RESTART_INITIAL_BACKOFF * multiplier in
  Z.min (if product <=? DURATION_MAX then product else millis CORE_RESTART_MAX_BACKOFF)
    (millis CORE_RESTART_MAX_BACKOFF).

Definition authenticated_owner (s : ServiceState) (proof : OwnerSessionProof) : result ServiceOwner CoreRuntimeError :=
  match vs_owner s with
  | Some owner =>
      if bool_decide (so_proof owner = proof) then Ok owner
      else Err (service_error KindAuthentication (lit "owner session proof mismatch"))
  | None => Err (service_error KindAuthentication (lit "owner session proof mismatch"))
  end.

Definition cleanup_is_pending (s : ServiceState) : bool :=
  match vs_managed_core s with Some c => is_cleanup_pending c | None => false end.

Definition service_lifecycle (s : ServiceState) : PrivilegedServiceLifecycle :=
  if vs_degraded s || cleanup_is_pending s then ServiceDegraded
  else if bool_decide (is_Some (vs_managed_core s ≫= core_active)) then ServiceRunning
  else if bool_decide (is_Some (vs_owner s)) then ServiceOwned
  else ServiceIdle.

Definition maintenance_result (s : ServiceState) (outcome : ServiceMaintenanceOutcome) : ServiceMaintenanceStep :=
  MkServiceMaintenanceStep outcome
    (match vs_restart_due_at s, vs_next_liveness_at s with
     | Some restart, Some liveness => Z.min restart liveness
     | Some restart, None => restart
     | None, Some liveness => liveness
     | None, None => DURATION_MAX
     end).

Definition reset_restart_state (s : ServiceState) : ServiceState :=
  put_restart_backoff None (put_restart_due_at None (put_diagnostic None
    (put_consecutive_restart_failures 0 (put_degraded false s)))).

Definition schedule_initial_restart (now : Z) : svc (result UnexpectedExitOutcome CoreRuntimeError) :=
  let& bundle := st_get vs_last_bundle in
  match bundle with
  | None => st_ret (Err (unavailable (lit "unexpected exit has no runtime bundle")))
  | Some _ =>
      let next_attempt_at := deadline_after now (millis CORE_RESTART_INITIAL_BACKOFF) in
      then& st_modify (λ s,
        put_restart_backoff (Some (millis CORE_RESTART_INITIAL_BACKOFF))
          (put_restart_due_at (Some next_attempt_at)
             (put_diagnostic None (put_consecutive_restart_failures 0 (put_degraded false s))))) in
      st_ret (Ok (ExitPending 0 next_attempt_at))
  end.

(** [truncate_utf8] *)
Definition truncate_utf8 (value : str) (max_bytes : Z) : str :=
  if str_len value <=? max_bytes then value
  else truncate value (floor_boundary value (Z.to_nat max_bytes)).

(** The number handed out, if there is one left. *)
Definition next_sequence (sequence : Z) : option (Z * Z) :=
  next ← checked_add sequence 1; Some (sequence, next).

(** ** The control endpoint *)

Definition capture_endpoint_identity (p : path) : vprog (option OwnedEndpointIdentity) :=
  let* metadata := call (VMetadata p) in
  Ret (match metadata with
       | Ok m =>
           if em_is_socket m
           then Some (MkOwnedEndpointIdentity (em_device m) (em_inode m) (em_change_time_seconds m)
                        (em_change_time_nanoseconds m))
           else None
       | Err _ => None
       end).

Definition remove_matching_endpoint (p : path) (expected : option OwnedEndpointIdentity)
  : vprog (result unit CoreRuntimeError) :=
  match expected with
  | None => Ret (Ok tt)
  | Some expected =>
      let* metadata := call (VMetadata p) in
      match metadata with
      | Err MetadataNotFound => Ret (Ok tt)
      | Err MetadataOther => Ret (Err (unavailable (lit "owned Core endpoint inspection failed")))
      | Ok m =>
          if negb (em_is_socket m) || negb (em_device m =? oei_device expected)
             || negb (em_inode m =? oei_inode expected)
             || negb (em_change_time_seconds m =? oei_change_time_seconds expected)
             || negb (em_change_time_nanoseconds m =? oei_change_time_nanoseconds expected)
          then Ret (Ok tt)
          else
            prog_map_err (λ _, unavailable (lit "owned Core endpoint cleanup failed"))
              (call (VRemoveFile p))
      end
  end.

Definition endpoint_path (r : ManagedCoreRecord) : path := socket_path (endpoint (mcr_handle r)).

Definition remove_owned_endpoint (r : ManagedCoreRecord) : vprog (result unit CoreRuntimeError) :=
  remove_matching_endpoint (endpoint_path r) (mcr_endpoint_identity r).

Definition owned_process_is_live (identity : OwnedProcessIdentity) : vprog (result bool CoreRuntimeError) :=
  try* exited := prog_map_err (λ _, unavailable (lit "Core process inspection failed")) (call (VReap identity)) in
  if exited : bool then Ret (Ok false)
  else
    let* actual := call (VStartIdentity (opi_pid identity)) in
    Ret (match actual with
         | Ok actual => Ok (bool_decide (actual = Some (opi_process_start_identity identity)))
         | Err _ => Err (unavailable (lit "process identity inspection failed"))
         end).

Definition require_owned_process (r : ManagedCoreRecord) : vprog (result unit CoreRuntimeError) :=
  try* live := owned_process_is_live (mcr_owned_identity r) in
  Ret (if live : bool then Ok tt
       else Err (service_error KindProcessIdentityMismatch (lit "owned Core identity mismatch"))).

(** ** Cancellation of an apply *)

Definition reset_apply_cancellation (owner : OwnerSessionProof) (owner_generation : Z)
  : vprog (result unit CoreRuntimeError) :=
  do* prog_map_err (λ _, cancellation_unavailable) (call VLockCancellation) in
  let* _u := call (VUnlockCancellation (MkApplyCancellationState (Some owner) (Some owner_generation) false)) in
  let* _u := call (VResetApply owner_generation) in
  Ret (Ok tt).

Definition clear_apply_cancellation (owner : ServiceOwner) : vprog (result unit CoreRuntimeError) :=
  try* cancellation := prog_map_err (λ _, cancellation_unavailable) (call VLockCancellation) in
  if negb (bool_decide (acs_owner cancellation = Some (so_proof owner)))
     || negb (bool_decide (acs_owner_generation cancellation = Some (so_generation owner)))
  then
    let* _u := call (VUnlockCancellation cancellation) in
    Ret (Err (service_error KindAuthentication (lit "Runtime Apply cancellation owner mismatch")))
  else
    let* _u := call (VUnlockCancellation (MkApplyCancellationState None None true)) in
    Ret (Ok tt).

(** With [Ok] the guard is held. *)
Definition active_apply_guard (owner : OwnerSessionProof) : vprog (result ApplyCancellationState CoreRuntimeError) :=
  try* cancellation := prog_map_err (λ _, cancellation_unavailable) (call VLockCancellation) in
  if negb (bool_decide (acs_owner cancellation = Some owner)) then
    let* _u := call (VUnlockCancellation cancellation) in
    Ret (Err (service_error KindAuthentication (lit "Runtime Apply cancellation owner mismatch")))
  else if acs_requested cancellation then
    let* _u := call (VUnlockCancellation cancellation) in
    Ret (Err (service_error KindReloadTimeout (lit "Runtime Apply was cancelled during Supervisor shutdown")))
  else Ret (Ok cancellation).

Definition ensure_apply_active (owner : OwnerSessionProof) : vprog (result unit CoreRuntimeError) :=
  try* cancellation := active_apply_guard owner in
  let* _u := call (VUnlockCancellation cancellation) in
  Ret (Ok tt).

Definition cancel_pending_apply (owner : OwnerSessionProof) : vprog (result unit CoreRuntimeError) :=
  try* cancellation := prog_map_err (λ _, cancellation_unavailable) (call VLockCancellation) in
  if negb (bool_decide (acs_owner cancellation = Some owner)) then
    let* _u := call (VUnlockCancellation cancellation) in
    Ret (Err (service_error KindAuthentication (lit "Runtime Apply cancellation owner mismatch")))
  else
    match acs_owner_generation cancellation with
    | None =>
        let* _u := call (VUnlockCancellation cancellation) in
        Ret (Err (service_error KindAuthentication
                    (lit "Runtime Apply cancellation owner generation is unavailable")))
    | Some owner_generation =>
        let* _u := call (VUnlockCancellation
                           (MkApplyCancellationState (acs_owner cancellation) (acs_owner_generation cancellation) true)) in
        let* _u := call (VCancelApply owner_generation) in
        Ret (Ok tt)
    end.

(** ** Generations *)

(** [with_generation_state_lock] around a function of the state. *)
Definition with_generation_state_lock {A} (operation : svc (result A CoreRuntimeError))
  : svc (result A CoreRuntimeError) :=
  do& st_call VGenerationLock in
  let& r := operation in
  then& st_call VGenerationUnlock in
  st_ret r.

Definition persist_generation_state : svc (result unit CoreRuntimeError) :=
  let& fault := st_call VTakeFault in
  match fault with
  | Err _ => st_ret (Err (unavailable (lit "service generation state fault seam is unavailable")))
  | Ok fault =>
      let& generations := st_get (λ s,
        MkServiceGenerationState (vs_owner_generation s) (vs_core_instance_generation s)) in
      st_call (VPersistGeneration generations fault)
  end.

Definition reserve_owner_generation : svc (result Z CoreRuntimeError) :=
  with_generation_state_lock (
    try& persisted := st_call VLoadGeneration in
    let& current := st_get vs_owner_generation in
    match checked_add (Z.max current (sgs_owner_generation persisted)) 1 with
    | None => st_ret (Err (unavailable (lit "owner generation exhausted")))
    | Some owner_generation =>
        then& st_modify (λ s,
          put_core_instance_generation
            (Z.max (vs_core_instance_generation s) (sgs_core_instance_generation persisted))
            (put_owner_generation owner_generation s)) in
        do& persist_generation_state in
        st_get (λ s, Ok (vs_owner_generation s))
    end).

Definition reserve_core_instance_generation : svc (result Z CoreRuntimeError) :=
  with_generation_state_lock (
    try& persisted := st_call VLoadGeneration in
    then& st_modify (λ s, put_owner_generation (Z.max (vs_owner_generation s) (sgs_owner_generation persisted)) s) in
    let& current := st_get vs_core_instance_generation in
    match checked_add (Z.max current (sgs_core_instance_generation persisted)) 1 with
    | None => st_ret (Err (unavailable (lit "Core Instance Generation exhausted")))
    | Some generation =>
        then& st_modify (put_core_instance_generation generation) in
        do& persist_generation_state in
        st_get (λ s, Ok (vs_core_instance_generation s))
    end).

Section service.
Context (config : PrivilegedServiceConfig) (control_root : path).

(** ** Log forwarding *)

(** The [while] loop of [drain_logs]: the queue, its bytes and the last dropped
    number once a message of [len] bytes fits. *)
Fixpoint make_room (len : Z) (logs : list ForwardedCoreLog) (log_bytes dropped : Z)
  : list ForwardedCoreLog * Z * Z :=
  match logs with
  | [] => ([], log_bytes, dropped)
  | first :: rest =>
      if (zlen logs =? psc_log_capacity config)
         || (CORE_LOG_FORWARD_MAX_BYTES <? saturating_add log_bytes len)
      then make_room len rest (saturating_sub log_bytes (str_len (fcl_message first)))
             (Z.max dropped (fcl_sequence first))
      else (logs, log_bytes, dropped)
  end.

(** [None] is the [break]. *)
Definition forward_log (instance_generation : Z) (s : ServiceState) (log : CoreProcessLog) : option ServiceState :=
  '(sequence, next) ← next_sequence (vs_next_log_sequence s);
  let message := truncate_utf8 (cpl_message log)
                   (Z.min (psc_max_log_line_bytes config) CORE_LOG_FORWARD_MAX_BYTES) in
  let '(logs, log_bytes, dropped) :=
    make_room (str_len message) (vs_logs s) (vs_log_bytes s) (vs_dropped_log_sequence s) in
  Some (put_logs (logs ++ [MkForwardedCoreLog sequence (cpl_timestamp log) (cpl_source log) message
                             instance_generation])
          (put_log_bytes (saturating_add log_bytes (str_len message))
             (put_dropped_log_sequence dropped (put_next_log_sequence next s)))).

Fixpoint forward_logs (instance_generation : Z) (records : list CoreProcessLog) (s : ServiceState) : ServiceState :=
  match records with
  | [] => s
  | log :: rest =>
      match forward_log instance_generation s log with
      | Some s' => forward_logs instance_generation rest s'
      | None => s
      end
  end.

Definition note_dropped (dropped : Z) (s : ServiceState) : ServiceState :=
  if 0 <? dropped then
    let last_dropped := saturating_add (vs_next_log_sequence s) (saturating_sub dropped 1) in
    put_next_log_sequence (saturating_add last_dropped 1)
      (put_dropped_log_sequence (Z.max (vs_dropped_log_sequence s) last_dropped) s)
  else s.

Definition drain_logs (r : ManagedCoreRecord) : svc (result unit CoreRuntimeError) :=
  try& incoming := st_map_err (λ _, unavailable (lit "Core log forwarding failed"))
                     (st_call (VTakeLogs (mcr_owned_identity r) (psc_log_capacity config))) in
  then& st_modify (λ s,
    forward_logs (opi_instance_generation (mcr_owned_identity r)) (cpb_records incoming)
      (note_dropped (cpb_dropped incoming) s)) in
  st_ret (Ok tt).

(** The loop of [logs] over the records after [after_sequence]. *)
Fixpoint take_batch (records : list ForwardedCoreLog) (message_bytes : Z) : list ForwardedCoreLog :=
  match records with
  | [] => []
  | record :: rest =>
      let bytes := saturating_add message_bytes (str_len (fcl_message record)) in
      if CORE_LOG_FORWARD_BATCH_MAX_BYTES <? bytes then []
      else record :: take_batch rest bytes
  end.

Definition after_cursor (cursor : option Z) (record : ForwardedCoreLog) : bool :=
  match cursor with Some c => c <? fcl_sequence record | None => true end.

Definition log_batch (s : ServiceState) (after_sequence : option Z) (limit : Z) : ForwardedCoreLogBatch :=
  let limit := Z.min limit (psc_log_capacity config) in
  let records :=
    take_batch (take (Z.to_nat limit) (filter (λ r, after_cursor after_sequence r = true) (vs_logs s))) 0 in
  let page_cursor := match last records with Some r => Some (fcl_sequence r) | None => after_sequence end in
  let has_more_records := existsb (after_cursor page_cursor) (vs_logs s) in
  let sequence_horizon :=
    if 1 <? vs_next_log_sequence s then Some (vs_next_log_sequence s - 1) else None in
  let next_sequence :=
    if has_more_records then page_cursor
    else match page_cursor, sequence_horizon with
         | Some cursor, Some horizon => Some (Z.max cursor horizon)
         | Some cursor, None => Some cursor
         | None, horizon => horizon
         end in
  MkForwardedCoreLogBatch records next_sequence (vs_dropped_log_sequence s)
    (saturating_sub (saturating_sub (default 0 next_sequence) (default 0 after_sequence)) (zlen records)).

(** ** The owned core *)

Definition stop_owned_record (r : ManagedCoreRecord) : svc (result unit CoreRuntimeError) :=
  let& r :=
    (match mcr_endpoint_identity r with
     | Some _ => st_ret r
     | None =>
         let& identity := st_lift (capture_endpoint_identity (endpoint_path r)) in
         then& st_modify (λ s,
           match vs_managed_core s with
           | Some retained =>
               if bool_decide (mcr_owned_identity (core_record retained) = mcr_owned_identity r)
               then put_managed_core
                      (Some (set_core_record retained (with_endpoint_identity identity (core_record retained)))) s
               else s
           | None => s
           end) in
         st_ret (with_endpoint_identity identity r)
     end) in
  try& live := st_lift (owned_process_is_live (mcr_owned_identity r)) in
  do& (if live : bool then st_map_err map_stop_error (st_call (VStop (mcr_owned_identity r)))
       else st_ret (Ok tt)) in
  do& drain_logs r in
  st_lift (remove_owned_endpoint r).

Definition cleanup_pending_core : svc (result unit CoreRuntimeError) :=
  let& core := st_get vs_managed_core in
  match core with
  | Some (CoreCleanupPending r) =>
      do& stop_owned_record r in
      then& st_modify (put_managed_core None) in
      st_ret (Ok tt)
  | _ => st_ret (Ok tt)
  end.

Definition fail_after_uncommitted_spawn (r : ManagedCoreRecord) (primary : CoreRuntimeError)
  : svc CoreRuntimeError :=
  then& st_modify (put_managed_core (Some (CoreCleanupPending r))) in
  let& cleaned := cleanup_pending_core in
  st_ret (match cleaned with
          | Ok _ => primary
          | Err _ => unavailable (lit "uncommitted Core cleanup is pending")
          end).

Definition cleanup_owner : svc (result unit CoreRuntimeError) :=
  let& core := st_get vs_managed_core in
  do& (match core with Some core => stop_owned_record (core_record core) | None => st_ret (Ok tt) end) in
  let& owner := st_get vs_owner in
  do& (match owner with Some owner => st_lift (clear_apply_cancellation owner) | None => st_ret (Ok tt) end) in
  then& st_modify (λ s,
    put_dropped_log_sequence 0 (put_next_log_sequence 1 (put_log_bytes 0 (put_logs []
      (put_next_liveness_at None (reset_restart_state
         (put_last_bundle None (put_owner None (put_managed_core None s)))))))) ) in
  st_ret (Ok tt).

(** [return Err(self.fail_after_uncommitted_spawn(state, record, error))] *)
Definition abandon {A} (r : ManagedCoreRecord) (error : CoreRuntimeError) : svc (result A CoreRuntimeError) :=
  let& error := fail_after_uncommitted_spawn r error in
  st_ret (Err error).

(** [if let Err(error) = .. { return Err(fail_after_uncommitted_spawn ..) }] *)
Definition or_abandon {A} (r : ManagedCoreRecord) (check : vprog (result unit CoreRuntimeError))
    (k : svc (result A CoreRuntimeError)) : svc (result A CoreRuntimeError) :=
  let& checked := st_lift check in
  match checked with
  | Ok _ => k
  | Err error => abandon r error
  end.

(** The record of a process that was just spawned. *)
Definition spawned_record (owner : ServiceOwner) (bundle : VerifiedRuntimeBundle) (generation : Z)
    (spawned : SpawnedCoreProcess) : ManagedCoreRecord :=
  MkManagedCoreRecord
    (MkManagedCoreHandle (scp_pid spawned) (scp_process_start_identity spawned) (so_endpoint owner) generation
       (rb_generation (vrb_bundle bundle)))
    (MkOwnedProcessIdentity (scp_pid spawned) (scp_process_start_identity spawned) generation) None.

(** [match self.owned_process_is_live(..)]: an error as well when it is not live. *)
Definition confirm_spawned (r : ManagedCoreRecord) : vprog (result unit CoreRuntimeError) :=
  let* live := owned_process_is_live (mcr_owned_identity r) in
  Ret (match live with
       | Ok true => Ok tt
       | Ok false => Err (service_error KindProcessIdentityMismatch
                            (lit "spawned Core identity could not be confirmed"))
       | Err error => Err error
       end).

(** [spawn_verified] from the readiness check on. *)
Definition await_ready (owner : ServiceOwner) (r : ManagedCoreRecord) : svc (result ManagedCoreRecord CoreRuntimeError) :=
  let& readiness := st_call (VReadiness (mcr_owned_identity r) (so_endpoint owner)) in
  let& captured := st_lift (capture_endpoint_identity (endpoint_path r)) in
  let r := with_endpoint_identity captured r in
  match readiness with
  | Err error => abandon r (map_readiness_error error)
  | Ok _ =>
      or_abandon r (ensure_apply_active (so_proof owner)) (
        let& access := st_call (VGrant (so_endpoint owner) (so_owner_uid owner)) in
        match access with
        | Err _ => abandon r (service_error KindApply (lit "Core control endpoint access setup failed"))
        | Ok _ =>
            let& captured := st_lift (capture_endpoint_identity (endpoint_path r)) in
            let r := with_endpoint_identity captured r in
            or_abandon r (ensure_apply_active (so_proof owner)) (st_ret (Ok r))
        end)
  end.

Definition spawn_verified (owner : ServiceOwner) (bundle : VerifiedRuntimeBundle)
  : svc (result ManagedCoreRecord CoreRuntimeError) :=
  try& generation := reserve_core_instance_generation in
  try& spawned := st_map_err map_spawn_error (st_call (VSpawn bundle (so_endpoint owner) generation)) in
  if (scp_pid spawned =? 0) || bool_decide (scp_process_start_identity spawned = [])
  then st_ret (Err (service_error KindProcessIdentityMismatch (lit "spawned Core identity is invalid")))
  else
    let r := spawned_record owner bundle generation spawned in
    or_abandon r (ensure_apply_active (so_proof owner)) (
    or_abandon r (confirm_spawned r) (await_ready owner r)).

Definition verify_bundle (bundle : RuntimeBundle) (owner : ServiceOwner)
  : svc (result VerifiedRuntimeBundle CoreRuntimeError) := st_call (VVerify bundle (so_endpoint owner)).

Definition check_tun (owner : ServiceOwner) : svc (result unit CoreRuntimeError) :=
  st_map_err map_tun_preflight_error (st_call (VTun (so_owner_uid owner))).

Definition attempt_owned_core_restart (owner : ServiceOwner) (now : Z)
  : svc (result UnexpectedExitOutcome CoreRuntimeError) :=
  let& bundle := st_get vs_last_bundle in
  match bundle with
  | None => st_ret (Err (unavailable (lit "unexpected exit has no runtime bundle")))
  | Some bundle =>
      let& failures := st_get vs_consecutive_restart_failures in
      let attempt := saturating_add failures 1 in
      then& st_modify (put_consecutive_restart_failures attempt) in
      let& restarted :=
        (try& verified := verify_bundle bundle owner in
         do& check_tun owner in
         spawn_verified owner verified) in
      let& pending := st_get cleanup_is_pending in
      match restarted with
      | Ok r =>
          then& st_modify (λ s,
            put_next_liveness_at (Some (deadline_after now (millis CORE_SERVICE_LIVENESS_INTERVAL)))
              (reset_restart_state (put_managed_core (Some (CoreActive r)) s))) in
          st_ret (Ok (ExitRestarted attempt (mcr_handle r)))
      | Err error =>
          if bool_decide (cre_kind error = KindInvalidBundle) || pending then st_ret (Err error)
          else if psc_restart_limit config <=? attempt then
            then& st_modify (λ s,
              put_restart_backoff None (put_restart_due_at None
                (put_diagnostic (Some CoreRestartLimitReached) (put_degraded true s)))) in
            st_ret (Ok (ExitDegraded attempt CoreRestartLimitReached))
          else
            let backoff := restart_backoff_after attempt in
            let next_attempt_at := deadline_after now backoff in
            then& st_modify (λ s,
              put_restart_backoff (Some backoff) (put_restart_due_at (Some next_attempt_at) s)) in
            st_ret (Ok (ExitPending attempt next_attempt_at))
      end
  end.

(** ** Public methods *)

Definition owner_metadata (proof : OwnerSessionProof) : vprog (result OwnerSessionMetadata CoreRuntimeError) :=
  svc_locked (st_get (λ s,
    let? owner := authenticated_owner s proof in
    Ok (MkOwnerSessionMetadata (so_generation owner) (so_endpoint owner)))).

Definition snapshot (proof : OwnerSessionProof) : vprog (result PrivilegedServiceSnapshot CoreRuntimeError) :=
  svc_locked (st_get (λ s,
    let? owner := authenticated_owner s proof in
    Ok (MkPrivilegedServiceSnapshot (service_lifecycle s) (so_generation owner) (so_supervisor_pid owner)
          (so_endpoint owner) (mcr_handle <$> (vs_managed_core s ≫= core_active))
          (vs_consecutive_restart_failures s) (vs_diagnostic s) (vs_dropped_log_sequence s)))).

Definition authenticate (proof : OwnerSessionProof) : svc (result ServiceOwner CoreRuntimeError) :=
  st_get (λ s, authenticated_owner s proof).

Definition revoke_owner (proof : OwnerSessionProof) : vprog (result unit CoreRuntimeError) :=
  svc_locked (do& authenticate proof in cleanup_owner).

Definition shutdown_service : vprog (result unit CoreRuntimeError) := svc_locked cleanup_owner.

Definition close_owner_session (proof : OwnerSessionProof) : vprog (result unit CoreRuntimeError) :=
  svc_locked (do& authenticate proof in cleanup_owner).

(** An owned process that has exited: its logs, its endpoint, and the first restart. *)
Definition core_exited (r : ManagedCoreRecord) (now : Z) : svc (result UnexpectedExitOutcome CoreRuntimeError) :=
  do& drain_logs r in
  do& st_lift (remove_owned_endpoint r) in
  then& st_modify (put_managed_core None) in
  schedule_initial_restart now.

Definition exit_locked (proof : OwnerSessionProof) (exited : CoreExitIdentity) (now : Z)
  : svc (result UnexpectedExitOutcome CoreRuntimeError) :=
  do& authenticate proof in
  let& core := st_get vs_managed_core in
  match core with
  | Some (CoreCleanupPending _) => st_ret (Err (unavailable (lit "uncommitted Core cleanup is pending")))
  | None => st_ret (Err (service_error KindProcessIdentityMismatch (lit "unexpected exit has no owned Core")))
  | Some (CoreActive r) =>
      let identity := mcr_owned_identity r in
      if negb (opi_pid identity =? cei_pid exited)
         || negb (bool_decide (opi_process_start_identity identity = cei_process_start_identity exited))
         || negb (opi_instance_generation identity =? cei_instance_generation exited)
      then st_ret (Err (service_error KindProcessIdentityMismatch (lit "unexpected exit identity mismatch")))
      else
        try& live := st_lift (owned_process_is_live identity) in
        if live : bool
        then st_ret (Err (service_error KindProcessIdentityMismatch (lit "unexpected exit process remains live")))
        else core_exited r now
  end.

Definition handle_unexpected_exit_at (proof : OwnerSessionProof) (exited : CoreExitIdentity) (now : Z)
  : vprog (result UnexpectedExitOutcome CoreRuntimeError) :=
  svc_locked (exit_locked proof exited now).

Definition handle_unexpected_exit (proof : OwnerSessionProof) (exited : CoreExitIdentity)
  : vprog (result UnexpectedExitOutcome CoreRuntimeError) := handle_unexpected_exit_at proof exited 0.

Definition stepped (outcome : ServiceMaintenanceOutcome) : svc (result ServiceMaintenanceStep CoreRuntimeError) :=
  st_get (λ s, Ok (maintenance_result s outcome)).

Definition next_liveness (now : Z) : svc unit :=
  st_modify (put_next_liveness_at (Some (deadline_after now (millis CORE_SERVICE_LIVENESS_INTERVAL)))).

(** [maintenance_step] once no cleanup is pending that it was to do. *)
Definition maintain_settled (owner : ServiceOwner) (now : Z) (restart_is_due liveness_is_due : bool)
  : svc (result ServiceMaintenanceStep CoreRuntimeError) :=
  let& degraded := st_get vs_degraded in
  if restart_is_due && negb degraded then
    try& outcome := attempt_owned_core_restart owner now in
    stepped (MaintenanceUnexpectedExit outcome)
  else
    let unchanged :=
      let& due := st_get vs_restart_due_at in
      let& degraded := st_get vs_degraded in
      let& failures := st_get vs_consecutive_restart_failures in
      let& lifecycle := st_get service_lifecycle in
      stepped (match due with
               | Some next_attempt_at =>
                   if negb degraded
                   then MaintenanceUnexpectedExit (ExitPending failures next_attempt_at)
                   else MaintenanceUnchanged lifecycle
               | None => MaintenanceUnchanged lifecycle
               end) in
    let& core := st_get vs_managed_core in
    match core with
    | Some (CoreActive r) =>
        if liveness_is_due && negb degraded then
          try& live := st_lift (owned_process_is_live (mcr_owned_identity r)) in
          if live : bool then unchanged
          else
            try& outcome := core_exited r now in
            stepped (MaintenanceUnexpectedExit outcome)
        else unchanged
    | _ => unchanged
    end.

(** [maintenance_step] after the checks on the owner. *)
Definition maintain_core (owner : ServiceOwner) (now : Z) (restart_is_due liveness_is_due : bool)
  : svc (result ServiceMaintenanceStep CoreRuntimeError) :=
  then& (if liveness_is_due then next_liveness now else st_ret tt) in
  let& pending := st_get cleanup_is_pending in
  do& (if (restart_is_due || liveness_is_due) && pending then cleanup_pending_core else st_ret (Ok tt)) in
  maintain_settled owner now restart_is_due liveness_is_due.

Definition is_due (deadline : option Z) (now : Z) : bool :=
  match deadline with Some d => d <=? now | None => false end.

Definition maintenance_locked (now : Z) : svc (result ServiceMaintenanceStep CoreRuntimeError) :=
  then& st_modify (λ s, match vs_next_liveness_at s with
                        | None => put_next_liveness_at (Some now) s
                        | Some _ => s
                        end) in
  let& owner := st_get vs_owner in
  match owner with
  | None => then& next_liveness now in stepped (MaintenanceUnchanged ServiceIdle)
  | Some owner =>
      let& restart_is_due := st_get (λ s, is_due (vs_restart_due_at s) now) in
      let& liveness_is_due := st_get (λ s, is_due (vs_next_liveness_at s) now) in
      if restart_is_due || liveness_is_due then
        try& identity := st_map_err (λ _, unavailable (lit "owner process identity inspection failed"))
                           (st_call (VStartIdentity (so_supervisor_pid owner))) in
        if negb (bool_decide (identity = Some (so_supervisor_start_identity owner))) then
          do& cleanup_owner in
          then& next_liveness now in
          stepped MaintenanceOwnerRevoked
        else maintain_core owner now restart_is_due liveness_is_due
      else maintain_core owner now restart_is_due liveness_is_due
  end.

Definition maintenance_step (now : Z) : vprog (result ServiceMaintenanceStep CoreRuntimeError) :=
  svc_locked (maintenance_locked now).

(** The proof, endpoint and owner of a new session. *)
Definition new_owner (request : OwnerSessionRequest) (owner_generation : Z) (id_secret token endpoint_secret : str)
  : ServiceOwner :=
  let number := decimal (Z.to_N owner_generation) in
  MkServiceOwner (osr_owner_uid request) (osr_supervisor_pid request) (osr_supervisor_start_identity request)
    (osr_instance_token request) owner_generation
    (MkOwnerSessionProof (lit "owner-" ++ number ++ lit "-" ++ id_secret) token)
    (MkCoreControlEndpoint (path_join control_root (lit "owner-" ++ number ++ lit ".sock")) endpoint_secret).

Definition session_of (owner : ServiceOwner) : OwnerSession :=
  MkOwnerSession (so_proof owner) (psc_protocol_version config) (so_generation owner) (so_endpoint owner).

Definition same_owner (owner : ServiceOwner) (request : OwnerSessionRequest) : bool :=
  (so_owner_uid owner =? osr_owner_uid request)
  && (so_supervisor_pid owner =? osr_supervisor_pid request)
  && bool_decide (so_supervisor_start_identity owner = osr_supervisor_start_identity request)
  && bool_decide (so_instance_token owner = osr_instance_token request).

Definition generate_secret (message : str) : svc (result str CoreRuntimeError) :=
  st_map_err (λ _, unavailable message) (st_call VSecret).

(** [open_owner_session] once there is no other owner. *)
Definition admit_owner (request : OwnerSessionRequest) : svc (result OwnerSession CoreRuntimeError) :=
  try& owner_generation := reserve_owner_generation in
  try& session_id_secret := generate_secret (lit "session ID generation failed") in
  try& session_token := generate_secret (lit "session token generation failed") in
  try& endpoint_secret := generate_secret (lit "Core endpoint secret generation failed") in
  if bool_decide (session_id_secret = []) || bool_decide (session_token = []) || bool_decide (endpoint_secret = [])
  then st_ret (Err (unavailable (lit "random secret generation returned an empty value")))
  else
    let owner := new_owner request owner_generation session_id_secret session_token endpoint_secret in
    do& st_lift (reset_apply_cancellation (so_proof owner) owner_generation) in
    then& st_modify (λ s, put_next_liveness_at None (reset_restart_state (put_owner (Some owner) s))) in
    st_ret (Ok (session_of owner)).

Definition open_owner_locked (request : OwnerSessionRequest) : svc (result OwnerSession CoreRuntimeError) :=
  let& current := st_get vs_owner in
  match current with
  | None => admit_owner request
  | Some owner =>
      if same_owner owner request then st_ret (Ok (session_of owner))
      else
        try& identity := st_map_err (λ _, unavailable (lit "owner process identity inspection failed"))
                           (st_call (VStartIdentity (so_supervisor_pid owner))) in
        if bool_decide (identity = Some (so_supervisor_start_identity owner))
        then st_ret (Err (service_error KindAuthentication (lit "a live owner session already exists")))
        else do& cleanup_owner in admit_owner request
  end.

Definition open_owner_session (request : OwnerSessionRequest) : vprog (result OwnerSession CoreRuntimeError) :=
  if negb (osr_protocol_version request =? psc_protocol_version config)
  then Ret (Err (service_error KindProtocolMismatch (lit "Core runtime protocol mismatch")))
  else if (osr_supervisor_pid request =? 0) || bool_decide (osr_supervisor_start_identity request = [])
          || bool_decide (osr_instance_token request = [])
  then Ret (Err (service_error KindAuthentication (lit "owner identity is incomplete")))
  else
    do* prog_map_err (λ _, service_error KindAuthentication (lit "caller credential validation failed"))
          (call (VCredentials request)) in
    svc_locked (open_owner_locked request).

(** The commit of [apply_candidate]; the guard of the cancellation is held until the end. *)
Definition commit_apply (r : ManagedCoreRecord) (bundle : RuntimeBundle) (guard : ApplyCancellationState)
  : svc (result ApplyCandidateResult CoreRuntimeError) :=
  then& st_modify (λ s,
    put_next_liveness_at None (reset_restart_state
      (put_last_bundle (Some bundle) (put_managed_core (Some (CoreActive r)) s)))) in
  then& st_call (VUnlockCancellation guard) in
  st_ret (Ok (MkApplyCandidateResult Spawned (mcr_handle r))).

Definition replace_active_core (proof : OwnerSessionProof) : svc (result unit CoreRuntimeError) :=
  let& core := st_get vs_managed_core in
  match core with
  | Some (CoreActive r) =>
      do& st_lift (require_owned_process r) in
      then& st_modify (put_managed_core (Some (CoreCleanupPending r))) in
      do& cleanup_pending_core in
      st_lift (ensure_apply_active proof)
  | _ => st_ret (Ok tt)
  end.

Definition apply_locked (proof : OwnerSessionProof) (bundle : RuntimeBundle)
  : svc (result ApplyCandidateResult CoreRuntimeError) :=
  try& owner := authenticate proof in
  do& cleanup_pending_core in
  do& st_lift (ensure_apply_active proof) in
  try& verified := verify_bundle bundle owner in
  do& st_lift (ensure_apply_active proof) in
  do& check_tun owner in
  do& st_lift (ensure_apply_active proof) in
  do& replace_active_core proof in
  try& r := spawn_verified owner verified in
  let& guard := st_lift (active_apply_guard proof) in
  match guard with
  | Err error => abandon r error
  | Ok guard => commit_apply r bundle guard
  end.

Definition apply_candidate (proof : OwnerSessionProof) (bundle : RuntimeBundle)
  : vprog (result ApplyCandidateResult CoreRuntimeError) := svc_locked (apply_locked proof bundle).

Definition tun_status (checked : result unit ServicePlatformErrorKind) : result CoreRuntimeTunStatus CoreRuntimeError :=
  match checked with
  | Ok _ => Ok (MkTunStatus true None)
  | Err PlatformTunUnavailable => Ok (MkTunStatus false (Some TunReasonPermissionDenied))
  | Err PlatformTunUnsupported => Ok (MkTunStatus false (Some TunReasonUnsupported))
  | Err _ => Err (unavailable (lit "TUN capability inspection failed"))
  end.

(** The status of a state whose process was seen running or not. *)
Definition status_of (s : ServiceState) (managed : option ManagedCoreHandle) (observed_exit : bool)
    (tun : CoreRuntimeTunStatus) : CoreRuntimeStatus :=
  let restarting := bool_decide (is_Some (vs_restart_due_at s)) || observed_exit in
  MkCoreRuntimeStatus managed
    (if vs_degraded s || cleanup_is_pending s then Degraded
     else if restarting then RestartPending
     else if bool_decide (is_Some managed) then Running
     else Owned)
    (MkRestartStatus (restarting && negb (vs_degraded s) && negb (cleanup_is_pending s))
       (vs_consecutive_restart_failures s)
       (match vs_restart_backoff s with
        | Some backoff => Some backoff
        | None => if observed_exit && negb (vs_degraded s) then Some (millis CORE_RESTART_INITIAL_BACKOFF) else None
        end)
       (vs_diagnostic s))
    tun.

Definition status_locked (proof : OwnerSessionProof) : svc (result CoreRuntimeStatus CoreRuntimeError) :=
  try& owner := authenticate proof in
  let& core := st_get vs_managed_core in
  try& seen :=
    (match core with
     | Some (CoreActive r) =>
         try& live := st_lift (owned_process_is_live (mcr_owned_identity r)) in
         st_ret (Ok (if live : bool then (Some (mcr_handle r), false) else (None, true)))
     | _ => st_ret (Ok (None, false))
     end) in
  let& checked := st_call (VTun (so_owner_uid owner)) in
  match tun_status checked with
  | Err error => st_ret (Err error)
  | Ok tun => st_get (λ s, Ok (status_of s seen.1 seen.2 tun))
  end.

Definition status (proof : OwnerSessionProof) : vprog (result CoreRuntimeStatus CoreRuntimeError) :=
  svc_locked (status_locked proof).

Definition logs_locked (proof : OwnerSessionProof) (after_sequence : option Z) (limit : Z)
  : svc (result ForwardedCoreLogBatch CoreRuntimeError) :=
  do& authenticate proof in
  let& core := st_get vs_managed_core in
  do& (match core with
       | Some (CoreActive r) => do& st_lift (require_owned_process r) in drain_logs r
       | _ => st_ret (Ok tt)
       end) in
  st_get (λ s, Ok (log_batch s after_sequence limit)).

Definition logs (proof : OwnerSessionProof) (after_sequence : option Z) (limit : Z)
  : vprog (result ForwardedCoreLogBatch CoreRuntimeError) := svc_locked (logs_locked proof after_sequence limit).

Definition stop_locked (proof : OwnerSessionProof) : svc (result StopCoreResult CoreRuntimeError) :=
  do& authenticate proof in
  let& core := st_get vs_managed_core in
  match core with
  | None => st_ret (Ok (MkStopCoreResult false None))
  | Some core =>
      let r := core_record core in
      do& (match core with
           | CoreActive _ => st_lift (require_owned_process r)
           | CoreCleanupPending _ => st_ret (Ok tt)
           end) in
      do& stop_owned_record r in
      then& st_modify (λ s,
        put_next_liveness_at None (reset_restart_state (put_last_bundle None (put_managed_core None s)))) in
      st_ret (Ok (MkStopCoreResult true (Some (opi_instance_generation (mcr_owned_identity r)))))
  end.

Definition stop (proof : OwnerSessionProof) : vprog (result StopCoreResult CoreRuntimeError) :=
  svc_locked (stop_locked proof).
End service.

(** [PrivilegedCoreRuntimeService::new]: the initial state. *)
Definition service_new (config : PrivilegedServiceConfig) : vprog (result ServiceState CoreRuntimeError) :=
  if (psc_protocol_version config =? 0) || (psc_restart_limit config =? 0) || (psc_log_capacity config =? 0)
     || (psc_max_log_line_bytes config =? 0) || negb (is_lower_sha256_hex (psc_compiler_policy_sha256 config))
     || negb (is_lower_sha256_hex (psc_mihomo_binary_sha256 config))
  then Ret (Err (service_error KindInvalidBundle (lit "invalid privileged service configuration")))
  else
    do* call VPrepareRoots in
    do* call VGenerationLock in
    let* loaded := (do* call VCleanupGenerations in call VLoadOrInitialize) in
    let* _u := call VGenerationUnlock in
    match loaded with
    | Err error => Ret (Err error)
    | Ok generations =>
        Ret (Ok (MkServiceState (sgs_owner_generation generations) None (sgs_core_instance_generation generations)
                   None None false 0 None None None None [] 0 1 0))
    end.
