(* ===== verification/ServiceLogs.v ===== *)
(** * ServiceLogs: the log lines the service forwards
    (src/service.rs: [drain_logs], [logs])

    The queue keeps its limits and its accounting, and a batch tells exactly what
    it leaves out. *)

From S2P Require Import Prelude Text Constants Path Domain Ports Program Mihomo Service.
Local Open Scope Z_scope.

Fixpoint log_message_bytes (logs : list ForwardedCoreLog) : Z :=
  match logs with
  | [] => 0
  | r :: rest => str_len (fcl_message r) + log_message_bytes rest
  end.

Lemma log_bytes_app l k : log_message_bytes (l ++ k) = log_message_bytes l + log_message_bytes k.
Proof. induction l as [|r l IH]; cbn; [done|]. rewrite IH. lia. Qed.
Lemma log_bytes_nonneg l : 0 ≤ log_message_bytes l.
Proof. induction l as [|r l IH]; cbn; [done|]. pose proof (str_len_nonneg (fcl_message r)). lia. Qed.

Section logs.
Context (config : PrivilegedServiceConfig).
Context (Hcapacity : 1 ≤ psc_log_capacity config) (Hline : 0 ≤ psc_max_log_line_bytes config).

Abbreviation line_max := (Z.min (psc_max_log_line_bytes config) CORE_LOG_FORWARD_MAX_BYTES).

(** The queue, its bytes and the next number. *)
Record queue_ok (logs : list ForwardedCoreLog) (bytes next : Z) : Prop := {
  qo_sorted : StronglySorted Z.lt (fcl_sequence <$> logs);
  qo_range : Forall (λ r, 1 ≤ fcl_sequence r < next) logs;
  qo_bytes : bytes = log_message_bytes logs;
  qo_lines : Forall (λ r, str_len (fcl_message r) ≤ line_max) logs;
  qo_length : zlen logs ≤ psc_log_capacity config;
  qo_total : bytes ≤ CORE_LOG_FORWARD_MAX_BYTES;
  qo_next : 1 ≤ next ≤ u64_max;
}.
Definition logs_ok (s : ServiceState) : Prop := queue_ok (vs_logs s) (vs_log_bytes s) (vs_next_log_sequence s).

Lemma queue_suffix first rest bytes next :
  queue_ok (first :: rest) bytes next →
  queue_ok rest (saturating_sub bytes (str_len (fcl_message first))) next.
Proof.
  intros []. cbn in *. inversion qo_sorted0; inversion qo_range0; inversion qo_lines0; subst.
  pose proof (log_bytes_nonneg rest). pose proof (str_len_nonneg (fcl_message first)).
  split; try done; unfold saturating_sub, zlen in *; cbn in *; lia.
Qed.

Lemma make_room_spec len logs bytes dropped next :
  0 ≤ len ≤ CORE_LOG_FORWARD_MAX_BYTES → queue_ok logs bytes next →
  let '(logs', bytes', dropped') := make_room config len logs bytes dropped in
  queue_ok logs' bytes' next ∧ (∃ out, logs = out ++ logs') ∧
  zlen logs' < psc_log_capacity config ∧ bytes' + len ≤ CORE_LOG_FORWARD_MAX_BYTES.
Proof.
  intros Hlen. revert bytes dropped. induction logs as [|first rest IH]; intros bytes dropped Hq; cbn [make_room].
  - split; [done|]. split; [by exists []|]. destruct Hq. cbn in *. unfold zlen. cbn. lia.
  - destruct (_ || _) eqn:Hc.
    + pose proof (queue_suffix _ _ _ _ Hq) as Hq'. specialize (IH (saturating_sub bytes (str_len (fcl_message first)))
        (Z.max dropped (fcl_sequence first)) Hq').
      destruct (make_room _ _ rest _ _) as [[l b] d]. destruct IH as (? & [out ->] & ? & ?).
      split; [done|]. split; [by exists (first :: out)|done].
    + split; [done|]. split; [by exists []|]. apply orb_false_iff in Hc as [Hc1 Hc2]. destruct Hq.
      apply Z.eqb_neq in Hc1. apply Z.ltb_ge in Hc2. unfold saturating_add in Hc2.
      assert (CORE_LOG_FORWARD_MAX_BYTES < u64_max) by done. lia.
Qed.

Lemma truncate_utf8_bound s n : 0 ≤ n → 0 ≤ str_len (truncate_utf8 s n) ≤ n.
Proof.
  intros Hn. split; [apply str_len_nonneg|]. unfold truncate_utf8. destruct (Z.leb_spec (str_len s) n); [done|].
  destruct (floor_boundary_spec s (Z.to_nat n)) as (Hb & Hf & _).
  destruct (boundary_prefix s (floor_boundary s (Z.to_nat n))) as (Hl & _); [lia|done|]. lia.
Qed.

Lemma sorted_snoc (l : list Z) x : StronglySorted Z.lt l → Forall (λ y, y < x) l → StronglySorted Z.lt (l ++ [x]).
Proof.
  induction 1 as [|y l Hs IH Hy]; cbn; intros Hx; [by repeat constructor|]. inversion Hx; subst.
  constructor; [by apply IH|]. apply Forall_app. split; [done|by repeat constructor].
Qed.

Lemma forward_log_ok generation s log s' :
  logs_ok s → forward_log config generation s log = Some s' → logs_ok s'.
Proof.
  unfold logs_ok, forward_log, next_sequence. intros Hs. destruct (checked_add _ _) as [next|] eqn:Hn; [|done].
  apply checked_add_Some in Hn as [-> Hmax]. cbn.
  destruct (truncate_utf8_bound (cpl_message log) line_max) as [Hm0 Hm1]; [unfold CORE_LOG_FORWARD_MAX_BYTES; lia|].
  set (message := truncate_utf8 _ _) in *.
  pose proof (make_room_spec (str_len message) (vs_logs s) (vs_log_bytes s) (vs_dropped_log_sequence s) _
    ltac:(lia) Hs) as Hroom.
  destruct (make_room _ _ _ _ _) as [[logs bytes] dropped]. destruct Hroom as ([] & _ & Hlen & Hbytes).
  intros [= <-]. cbn. assert (CORE_LOG_FORWARD_MAX_BYTES < u64_max) by done. split; cbn.
  - rewrite fmap_app. apply sorted_snoc; [done|]. apply Forall_fmap. eapply Forall_impl; [exact qo_range0|]. cbn. lia.
  - apply Forall_app. split; [eapply Forall_impl; [exact qo_range0|]; cbn; lia|]. repeat constructor; cbn; lia.
  - unfold saturating_add. rewrite log_bytes_app. cbn. lia.
  - apply Forall_app. split; [done|]. by repeat constructor.
  - rewrite zlen_app. unfold zlen in *. cbn. lia.
  - unfold saturating_add. lia.
  - lia.
Qed.

Lemma forward_logs_ok generation records s : logs_ok s → logs_ok (forward_logs config generation records s).
Proof.
  revert s. induction records as [|log rest IH]; intros s Hs; cbn; [done|].
  destruct (forward_log config generation s log) eqn:Hf; [|done]. by eapply IH, forward_log_ok.
Qed.

Lemma note_dropped_ok n s : logs_ok s → logs_ok (note_dropped n s).
Proof.
  unfold logs_ok, note_dropped. intros []. destruct (Z.ltb_spec 0 n); [|by split]. cbn. split; cbn; try done.
  - eapply Forall_impl; [exact qo_range0|]. cbn. u64_lia.
  - u64_lia.
Qed.

(** ** Batches *)

Definition seq_after (after : option Z) (r : ForwardedCoreLog) : Prop := after_cursor after r = true.

Lemma take_batch_prefix records bytes : ∃ rest, records = take_batch records bytes ++ rest.
Proof.
  revert bytes. induction records as [|r l IH]; intros bytes; cbn; [by exists []|].
  destruct (_ <? _); [by exists (r :: l)|]. destruct (IH (saturating_add bytes (str_len (fcl_message r)))) as [rest Hr].
  exists rest. cbn. by f_equal.
Qed.

Lemma take_batch_bytes records bytes :
  0 ≤ bytes ≤ CORE_LOG_FORWARD_BATCH_MAX_BYTES →
  bytes + log_message_bytes (take_batch records bytes) ≤ CORE_LOG_FORWARD_BATCH_MAX_BYTES.
Proof.
  revert bytes. induction records as [|r l IH]; intros bytes Hb; cbn; [lia|].
  pose proof (str_len_nonneg (fcl_message r)). assert (CORE_LOG_FORWARD_BATCH_MAX_BYTES < u64_max) by done.
  destruct (Z.ltb_spec CORE_LOG_FORWARD_BATCH_MAX_BYTES (saturating_add bytes (str_len (fcl_message r)))) as [|Hle]; [cbn; lia|].
  cbn. unfold saturating_add in *. specialize (IH (Z.min (bytes + str_len (fcl_message r)) u64_max)). lia.
Qed.

Lemma take_batch_nonempty r l :
  str_len (fcl_message r) ≤ CORE_LOG_FORWARD_BATCH_MAX_BYTES → ∃ l', take_batch (r :: l) 0 = r :: l'.
Proof.
  intros Hr. cbn. destruct (Z.ltb_spec CORE_LOG_FORWARD_BATCH_MAX_BYTES (saturating_add 0 (str_len (fcl_message r)))).
  - unfold saturating_add in *. lia.
  - by eexists.
Qed.

(** The records of a batch are the first ones after the cursor. *)
Lemma batch_prefix s after limit :
  ∃ rest, filter (λ r, after_cursor after r = true) (vs_logs s) = fcb_records (log_batch config s after limit) ++ rest.
Proof.
  unfold log_batch. cbn. set (l := filter _ _). set (n := Z.to_nat _).
  destruct (take_batch_prefix (take n l) 0) as [rest Hr]. exists (rest ++ drop n l).
  rewrite app_assoc, <-Hr. symmetry. apply take_drop.
Qed.

Lemma sorted_length (l : list Z) lo hi :
  StronglySorted Z.lt l → Forall (λ x, lo < x ≤ hi) l → lo ≤ hi → zlen l ≤ hi - lo.
Proof.
  intros Hs. revert lo. induction Hs as [|x l Hs IH Hx]; intros lo Hr Hle; [unfold zlen; cbn; lia|].
  inversion Hr as [|? ? Hx' Hr']; subst. assert (zlen l ≤ hi - x) as Hl.
  { apply IH; [|lia]. apply Forall_forall. intros y Hy. rewrite Forall_forall in Hx, Hr'. specialize (Hx y Hy).
    specialize (Hr' y Hy). lia. }
  unfold zlen in *. cbn. lia.
Qed.

Lemma sorted_split (l k : list ForwardedCoreLog) :
  StronglySorted Z.lt (fcl_sequence <$> l ++ k) →
  ∀ x y, x ∈ l → y ∈ k → fcl_sequence x < fcl_sequence y.
Proof.
  rewrite fmap_app. intros Hs x y Hx Hy. eapply StronglySorted_app_1_elem_of; [exact Hs| |]; by apply list_elem_of_fmap_2.
Qed.

Lemma StronglySorted_filter_logs (P : ForwardedCoreLog → Prop) `{!∀ r, Decision (P r)} l :
  StronglySorted Z.lt (fcl_sequence <$> l) → StronglySorted Z.lt (fcl_sequence <$> filter P l).
Proof.
  induction l as [|r l IH]; csimpl; [done|]. inversion_clear 1 as [|? ? Hs Hr]. rewrite filter_cons.
  case_decide; [|by apply IH]. csimpl. constructor; [by apply IH|]. rewrite Forall_forall in *.
  intros x (y & -> & Hy)%list_elem_of_fmap. apply Hr. apply list_elem_of_fmap_2. by apply list_elem_of_filter in Hy as [_ ?].
Qed.

(** Whether [r] is past the cursor, with the beginning as zero. *)
Lemma after_cursor_spec logs bytes next after r :
  queue_ok logs bytes next → r ∈ logs → after_cursor after r = true ↔ default 0 after < fcl_sequence r.
Proof.
  intros [] Hr. rewrite Forall_forall in qo_range0. specialize (qo_range0 r Hr). destruct after as [a|]; cbn.
  - apply Z.ltb_lt.
  - split; [lia|done].
Qed.

Lemma last_max (l : list ForwardedCoreLog) r :
  StronglySorted Z.lt (fcl_sequence <$> l) → last l = Some r → ∀ x, x ∈ l → fcl_sequence x ≤ fcl_sequence r.
Proof.
  intros Hs [k ->]%last_Some x [Hx|Hx%list_elem_of_singleton]%elem_of_app; [|by subst].
  apply Z.lt_le_incl. eapply sorted_split; [exact Hs|done|set_solver].
Qed.

Lemma filter_after s after r :
  logs_ok s →
  r ∈ filter (λ r, after_cursor after r = true) (vs_logs s) ↔ r ∈ vs_logs s ∧ default 0 after < fcl_sequence r.
Proof.
  intros Hq. rewrite list_elem_of_filter. split.
  - intros [Hr Hl]. split; [done|]. by apply (after_cursor_spec _ _ _ _ _ Hq Hl).
  - intros [Hl Hr]. split; [|done]. by apply (after_cursor_spec _ _ _ _ _ Hq Hl).
Qed.

Lemma batch_limit s after limit : 0 ≤ limit → zlen (fcb_records (log_batch config s after limit)) ≤ limit.
Proof.
  intros Hl. unfold log_batch. cbn [fcb_records]. set (l := filter _ _). set (n := Z.to_nat _).
  destruct (take_batch_prefix (take n l) 0) as [rest Hr]. apply (f_equal length) in Hr.
  rewrite length_app, length_take in Hr. unfold zlen. lia.
Qed.

(** The cursor a batch leaves: past its last record, and past everything when
    nothing is left to deliver. *)
Lemma batch_next s after limit records rest :
  logs_ok s → 0 ≤ default 0 after → records = fcb_records (log_batch config s after limit) →
  filter (λ r, after_cursor after r = true) (vs_logs s) = records ++ rest →
  let c := match last records with Some r => fcl_sequence r | None => default 0 after end in
  default 0 after ≤ c ∧
  default 0 (fcb_next_sequence (log_batch config s after limit)) =
    match rest with [] => Z.max c (vs_next_log_sequence s - 1) | _ :: _ => c end.
Proof.
  intros Hq Ha Hrec Hsplit c.
  assert (∀ r, r ∈ records ++ rest ↔ r ∈ vs_logs s ∧ default 0 after < fcl_sequence r) as Hin.
  { intros r. rewrite <-Hsplit. by apply filter_after. }
  assert (StronglySorted Z.lt (fcl_sequence <$> records ++ rest)) as Hsort.
  { rewrite <-Hsplit. apply StronglySorted_filter_logs, Hq. }
  assert (default 0 after ≤ c) as Hac.
  { unfold c. destruct (last records) as [r|] eqn:Hl; [|done]. apply last_Some in Hl as [k ->].
    assert (r ∈ (k ++ [r]) ++ rest) as [_ Hr]%Hin by set_solver. lia. }
  split; [done|].
  assert (∀ r, r ∈ vs_logs s → c < fcl_sequence r → r ∈ rest) as Hmore.
  { intros r Hr Hc. assert (r ∈ records ++ rest) as [Hrr|]%elem_of_app by (apply Hin; split; [done|lia]); [|done].
    unfold c in Hc. destruct (last records) as [r'|] eqn:Hl.
    - rewrite fmap_app in Hsort. apply StronglySorted_app_1_l in Hsort.
      pose proof (last_max _ _ Hsort Hl r Hrr). lia.
    - apply last_None in Hl. rewrite Hl in Hrr. by apply not_elem_of_nil in Hrr. }
  assert (∀ r, r ∈ rest → c < fcl_sequence r) as Hrest.
  { intros r Hr. unfold c. destruct (last records) as [r'|] eqn:Hl.
    - apply last_Some in Hl as [k ->]. eapply sorted_split; [exact Hsort|set_solver|done].
    - assert (r ∈ records ++ rest) as [_ ?]%Hin by set_solver. done. }
  unfold log_batch in Hrec |- *. cbn [fcb_records fcb_next_sequence] in Hrec |- *. rewrite <-Hrec.
  set (cursor := match last records with Some r => Some (fcl_sequence r) | None => after end).
  assert (default 0 cursor = c) as Hcur by (unfold cursor, c; by destruct (last records)).
  destruct rest as [|r0 rest].
  - assert (existsb (after_cursor cursor) (vs_logs s) = false) as ->.
    { apply not_true_iff_false. intros (r & Hr%list_elem_of_In & Hc)%existsb_exists.
      apply (after_cursor_spec _ _ _ _ _ Hq Hr) in Hc. rewrite Hcur in Hc. by apply (Hmore r) in Hc as ?%not_elem_of_nil. }
    destruct Hq. destruct cursor as [z|]; cbn in Hcur; destruct (Z.ltb_spec 1 (vs_next_log_sequence s)); cbn; lia.
  - assert (existsb (after_cursor cursor) (vs_logs s) = true) as ->; [|done].
    apply existsb_exists. exists r0. assert (r0 ∈ vs_logs s) as Hr0 by (apply Hin; set_solver).
    split; [by apply list_elem_of_In|]. apply (after_cursor_spec _ _ _ _ _ Hq Hr0). rewrite Hcur. apply Hrest. set_solver.
Qed.

(** C23: A batch of forwarded log lines accounts for everything: its records are, in order, exactly the
    retained ones between the caller's cursor and the one it returns, what it says was dropped is the
    number of lines in between that are no longer there, and it keeps to the limits.  With a positive limit
    it makes progress until the caller has seen all that there is. *)
Theorem log_batch_exact s after limit :
  logs_ok s → 0 ≤ default 0 after → 0 ≤ limit →
  let b := log_batch config s after limit in
  let a := default 0 after in
  let n := default 0 (fcb_next_sequence b) in
  a ≤ n ∧
  (∀ r, r ∈ fcb_records b ↔ r ∈ vs_logs s ∧ a < fcl_sequence r ≤ n) ∧
  StronglySorted Z.lt (fcl_sequence <$> fcb_records b) ∧
  fcb_dropped_since_after b + zlen (fcb_records b) = n - a ∧
  zlen (fcb_records b) ≤ limit ∧
  log_message_bytes (fcb_records b) ≤ CORE_LOG_FORWARD_BATCH_MAX_BYTES ∧
  (1 ≤ limit → psc_max_log_line_bytes config ≤ CORE_LOG_FORWARD_BATCH_MAX_BYTES →
   fcb_records b ≠ [] ∨ n = Z.max a (vs_next_log_sequence s - 1)).
Proof.
  intros Hq Ha Hlimit b a n. destruct (batch_prefix s after limit) as [rest Hsplit].
  destruct (batch_next s after limit _ rest Hq Ha eq_refl Hsplit) as [Hac Hn].
  fold b a n in Hac, Hn, Hsplit |- *.
  set (c := match last (fcb_records b) with Some r => fcl_sequence r | None => a end) in *.
  assert (StronglySorted Z.lt (fcl_sequence <$> fcb_records b ++ rest)) as Hsort.
  { rewrite <-Hsplit. apply StronglySorted_filter_logs, Hq. }
  pose proof Hsort as Hsorted. rewrite fmap_app in Hsorted. apply StronglySorted_app_1_l in Hsorted.
  assert (∀ r, r ∈ fcb_records b ++ rest ↔ r ∈ vs_logs s ∧ a < fcl_sequence r) as Hin.
  { intros r. rewrite <-Hsplit. by apply filter_after. }
  assert (∀ r, r ∈ fcb_records b → a < fcl_sequence r ≤ c) as Hrec.
  { intros r Hr. split; [apply Hin; set_solver|]. unfold c. destruct (last (fcb_records b)) as [r'|] eqn:Hl.
    - by apply (last_max (fcb_records b)).
    - apply last_None in Hl. rewrite Hl in Hr. by apply not_elem_of_nil in Hr. }
  assert (c ≤ n) as Hcn by (rewrite Hn; destruct rest; lia).
  assert (∀ r, r ∈ fcb_records b ↔ r ∈ vs_logs s ∧ a < fcl_sequence r ≤ n) as Hexact.
  { intros r. split.
    - intros Hr. destruct (Hrec r Hr). split; [apply Hin; set_solver|lia].
    - intros (Hl & Ha' & Hle). assert (r ∈ fcb_records b ++ rest) as [?|Hr]%elem_of_app by (by apply Hin); [done|].
      rewrite Hn in Hle. destruct rest as [|r0 rest0]; [by apply not_elem_of_nil in Hr|].
      exfalso. assert (a < fcl_sequence r) by done. unfold c in Hle.
      destruct (last (fcb_records b)) as [r'|] eqn:Hlast; [|lia]. apply last_Some in Hlast as [k Hk].
      pose proof (sorted_split _ _ Hsort r' r ltac:(rewrite Hk; set_solver) Hr). lia. }
  assert (zlen (fcb_records b) ≤ c - a) as Hlen.
  { pose proof (sorted_length (fcl_sequence <$> fcb_records b) a c Hsorted) as Hlen. unfold zlen in *.
    rewrite length_fmap in Hlen. apply Hlen; [|done]. by apply Forall_fmap, Forall_forall. }
  split; [lia|]. split; [done|]. split; [done|]. repeat apply conj.
  - change (fcb_dropped_since_after b) with (saturating_sub (saturating_sub n a) (zlen (fcb_records b))).
    unfold saturating_sub. lia.
  - apply batch_limit. lia.
  - apply (take_batch_bytes _ 0). done.
  - intros Hone Hbytes. destruct (fcb_records b) as [|r0 l] eqn:Hb; [right|by left].
    rewrite Hn. destruct rest as [|r1 rest]; [done|]. exfalso. cbn in Hsplit.
    unfold b, log_batch in Hb. cbn [fcb_records] in Hb. rewrite Hsplit in Hb.
    destruct (Z.to_nat (Z.min limit (psc_log_capacity config))) as [|k] eqn:Hk; [lia|]. cbn [take] in Hb.
    assert (r1 ∈ vs_logs s) as Hr1 by (apply Hin; set_solver).
    destruct Hq. rewrite Forall_forall in qo_lines0. specialize (qo_lines0 r1 Hr1).
    destruct (take_batch_nonempty r1 (take k rest)) as [l' Hl']; [lia|]. congruence.
Qed.
End logs.

(** Two of five lines are left; the caller has read the first. *)
Definition logs_config : PrivilegedServiceConfig :=
  MkPrivilegedServiceConfig 1 (lit "/root") [] [] 3 4 64.
Definition logs_state : ServiceState :=
  MkServiceState 1 None 1 None None false 0 None None None None
    [MkForwardedCoreLog 3 0 SourceStdout (lit "ready") 1; MkForwardedCoreLog 5 0 SourceStderr (lit "warn") 1] 9 6 2.

Lemma log_batch_exact_witness :
  log_batch logs_config logs_state (Some 1) 1 =
    MkForwardedCoreLogBatch [MkForwardedCoreLog 3 0 SourceStdout (lit "ready") 1] (Some 3) 2 1 ∧
  zlen (fcb_records (log_batch logs_config logs_state (Some 1) 1)) ≤ 1.
Proof.
  split; [reflexivity|].
  assert (logs_ok logs_config logs_state) as Hq.
  { split; [repeat constructor| |reflexivity| |by vm_compute|by vm_compute|by vm_compute];
      repeat constructor; by vm_compute. }
  apply (log_batch_exact logs_config ltac:(by vm_compute) ltac:(by vm_compute) logs_state (Some 1) 1 Hq
           ltac:(done) ltac:(done)).
Defined.
