(* ===== verification/ServiceInvariant.v ===== *)
(** * ServiceInvariant: one core process at a time
    (src/service.rs)

    The service is run against a world it only sees through its calls: the core
    processes that may be running, the generations on disk, and the state behind
    the mutex.  Its methods keep an invariant of that world, and they start a core
    only where no earlier one can be running and with a generation that was
    written to disk and never used before. *)

From S2P Require Import Prelude Text Constants Path Domain Ports Program Mihomo Service ServiceLogs.
Local Open Scope Z_scope.

(** ** The world *)

Record SvcWorld := MkSvcWorld {
  (** the cores that were started and that nobody has seen exit *)
  sw_procs : list OwnedProcessIdentity;
  (** the highest generation that a core was started with *)
  sw_spawned : Z;
  sw_disk : ServiceGenerationState;
  (** the state behind the mutex *)
  sw_state : ServiceState;
  (** other processes, by number and start identity, that keep running *)
  sw_running : list (Z * str);
}.
Definition put_sw_state (s : ServiceState) (w : SvcWorld) : SvcWorld :=
  MkSvcWorld (sw_procs w) (sw_spawned w) (sw_disk w) s (sw_running w).

(** Nothing happens but that cores may exit. *)
Record shrinks (w w' : SvcWorld) : Prop := {
  sh_procs : sw_procs w' ⊆ sw_procs w;
  sh_spawned : sw_spawned w' = sw_spawned w;
  sh_disk : sw_disk w' = sw_disk w;
  sh_state : sw_state w' = sw_state w;
  sh_running : sw_running w' = sw_running w;
}.
#[global] Instance shrinks_preorder : PreOrder shrinks.
Proof.
  split; [by split|]. intros w1 w2 w3 [] []. split; try congruence. by etrans.
Qed.

Definition generations_le (g h : ServiceGenerationState) : Prop :=
  sgs_owner_generation g ≤ sgs_owner_generation h ∧
  sgs_core_instance_generation g ≤ sgs_core_instance_generation h.

(** [w'] but for the disk is [w], with cores that may have exited. *)
Definition shrinks_with_disk (w w' : SvcWorld) : Prop :=
  shrinks (MkSvcWorld (sw_procs w) (sw_spawned w) (sw_disk w') (sw_state w) (sw_running w)) w'.

(** What the platform and the files promise.  A core that [stop] ended, that [reap_if_exited] saw exit or
    whose process number has another start identity is gone; a failed [spawn] leaves no process; the
    generations on disk are only raised by others, and only while they hold the lock. *)
Definition svc_post {X} (c : SvcCall X) (w : SvcWorld) : X → SvcWorld → Prop :=
  match c in SvcCall X return X → SvcWorld → Prop with
  | VSpawn _ _ g => λ x w',
      match x with
      | Ok p =>
          scp_pid p ≠ 0 ∧ scp_process_start_identity p ≠ [] ∧
          shrinks (MkSvcWorld (MkOwnedProcessIdentity (scp_pid p) (scp_process_start_identity p) g :: sw_procs w)
                     g (sw_disk w) (sw_state w) (sw_running w)) w'
      | Err _ => shrinks (MkSvcWorld (sw_procs w) g (sw_disk w) (sw_state w) (sw_running w)) w'
      end
  | VStop p => λ x w', shrinks w w' ∧ (x = Ok tt → p ∉ sw_procs w')
  | VReap p => λ x w', shrinks w w' ∧ (x = Ok true → p ∉ sw_procs w')
  | VStartIdentity pid => λ x w',
      shrinks w w' ∧
      match x with
      | Ok r => (∀ q, q ∈ sw_procs w' → opi_pid q = pid → r = Some (opi_process_start_identity q)) ∧
                (∀ start, (pid, start) ∈ sw_running w → r = Some start)
      | Err _ => True
      end
  | VGenerationLock => λ x w',
      match x with
      | Ok _ => shrinks_with_disk w w' ∧ generations_le (sw_disk w) (sw_disk w')
      | Err _ => shrinks w w'
      end
  | VLoadGeneration | VLoadOrInitialize => λ x w', shrinks w w' ∧ (∀ g, x = Ok g → g = sw_disk w)
  | VPersistGeneration g _ => λ x w',
      shrinks_with_disk w w' ∧ (sw_disk w' = g ∨ sw_disk w' = sw_disk w ∧ x ≠ Ok tt)
  | VLock => λ x w', shrinks w w' ∧ (∀ s, x = Ok s → s = sw_state w)
  | VUnlock s => λ _ w', shrinks (put_sw_state s w) w'
  | _ => λ _ w', shrinks w w'
  end.

(** When a core may be started, and what may be written to disk. *)
Definition svc_pre {X} (c : SvcCall X) (w : SvcWorld) : Prop :=
  match c with
  | VSpawn _ _ g => sw_procs w = [] ∧ sw_spawned w < g ≤ sgs_core_instance_generation (sw_disk w)
  | VPersistGeneration g _ => generations_le (sw_disk w) g
  | _ => True
  end.

Abbreviation swp := (wpc (@svc_pre) (@svc_post)).

(** Replaces the program of the goal by what [H] says of it. *)
Ltac use H := eapply wpc_mono; [|eapply H]; cbv beta.

(** ** Programs that only look *)

Definition silent {A} (p : vprog A) : Prop := ∀ w, swp p (λ _ w', shrinks w w') w.

Lemma silent_ret {A} (a : A) : silent (Ret a).
Proof. intros w. cbn. reflexivity. Qed.
Lemma silent_bind {A B} (p : vprog A) (k : A → vprog B) :
  silent p → (∀ a, silent (k a)) → silent (prog_bind p k).
Proof.
  intros Hp Hk w. apply wpc_bind. use Hp. intros a w1 H1. use Hk. intros b w2 H2. by etrans.
Qed.
Lemma silent_try {A B E} (p : vprog (result A E)) (k : A → vprog (result B E)) :
  silent p → (∀ a, silent (k a)) → silent (prog_try p k).
Proof. intros Hp Hk. apply silent_bind; [done|]. intros [a|e]; [apply Hk|apply silent_ret]. Qed.
Lemma silent_map_err {A E F} (f : E → F) (p : vprog (result A E)) : silent p → silent (prog_map_err f p).
Proof. intros Hp. apply silent_bind; [done|]. intros a. apply silent_ret. Qed.
Lemma silent_call {X} (c : SvcCall X) :
  (∀ w, svc_pre c w) → (∀ w x w', svc_post c w x w' → shrinks w w') → silent (call c).
Proof. intros Hpre Hpost w. apply wpc_call; [apply Hpre|apply Hpost]. Qed.

Create HintDb silent.
#[export] Hint Resolve silent_ret : silent.

Ltac silent :=
  repeat first
    [ progress intros
    | apply silent_ret
    | apply silent_map_err | apply silent_try
    | apply silent_bind
    | apply silent_call; [done|by intros ??? | by intros ??? []]
    | solve [auto with silent]
    | case_match ].

Lemma silent_lookcall {X} (c : SvcCall X) :
  match c with
  | VMetadata _ | VRemoveFile _ | VLockCancellation | VUnlockCancellation _ | VResetApply _ | VCancelApply _
  | VReadiness _ _ | VGrant _ _ | VTakeLogs _ _ | VTun _ | VSecret | VVerify _ _ | VCredentials _
  | VPrepareRoots | VGenerationUnlock | VCleanupGenerations | VTakeFault => True
  | _ => False
  end → silent (call c).
Proof. destruct c; cbn; intros []; by apply silent_call. Qed.
#[export] Hint Extern 1 (silent (call _)) => (apply silent_lookcall; exact I) : silent.

Lemma silent_reap p : silent (call (VReap p)).
Proof. apply silent_call; [done|]. by intros w x w' []. Qed.
Lemma silent_start_identity pid : silent (call (VStartIdentity pid)).
Proof. apply silent_call; [done|]. by intros w x w' []. Qed.
#[export] Hint Resolve silent_reap silent_start_identity : silent.

Lemma silent_capture p : silent (capture_endpoint_identity p).
Proof. unfold capture_endpoint_identity. silent. Qed.
Lemma silent_remove r : silent (remove_owned_endpoint r).
Proof. unfold remove_owned_endpoint, remove_matching_endpoint. silent. Qed.
Lemma silent_guard p : silent (active_apply_guard p).
Proof. unfold active_apply_guard. silent. Qed.
#[export] Hint Resolve silent_capture silent_remove silent_guard : silent.
Lemma silent_ensure p : silent (ensure_apply_active p).
Proof. unfold ensure_apply_active. silent. Qed.
Lemma silent_clear o : silent (clear_apply_cancellation o).
Proof. unfold clear_apply_cancellation. silent. Qed.
Lemma silent_reset p g : silent (reset_apply_cancellation p g).
Proof. unfold reset_apply_cancellation. silent. Qed.
Lemma silent_cancel p : silent (cancel_pending_apply p).
Proof. unfold cancel_pending_apply. silent. Qed.
#[export] Hint Resolve silent_ensure silent_clear silent_reset silent_cancel : silent.

(** What an inspection of the owned process shows. *)
Lemma live_spec p w :
  swp (owned_process_is_live p) (λ r w', shrinks w w' ∧ (r = Ok false → p ∉ sw_procs w')) w.
Proof.
  unfold owned_process_is_live. apply wpc_try, wpc_map_err, wpc_call; [done|].
  intros [[]|e] w1 [H1 H1']; cbn; [split; [done|intros _; by apply H1']| |by split].
  split; [done|]. intros [actual|e] w2 [H2 H2']; (split; [by etrans|]); [|done].
  intros [= Hd] Hin. destruct H2' as [Hid _]. specialize (Hid p Hin eq_refl). subst actual.
  by rewrite bool_decide_eq_false in Hd.
Qed.
Lemma silent_live p : silent (owned_process_is_live p).
Proof. intros w. use live_spec. by intros ?? []. Qed.
#[export] Hint Resolve silent_live : silent.
Lemma silent_require r : silent (require_owned_process r).
Proof. unfold require_owned_process. silent. Qed.
Lemma silent_confirm r : silent (confirm_spawned r).
Proof. unfold confirm_spawned. silent. Qed.
#[export] Hint Resolve silent_require silent_confirm : silent.

#[local] Arguments wpc : simpl never.
#[local] Arguments lit : simpl never.
#[local] Arguments prog_bind : simpl never.
#[local] Arguments prog_try : simpl never.
#[local] Arguments prog_map_err : simpl never.
#[local] Arguments call : simpl never.
#[local] Arguments st_bind : simpl never.
#[local] Arguments st_try : simpl never.
#[local] Arguments st_map_err : simpl never.
#[local] Arguments st_call : simpl never.
#[local] Arguments st_lift : simpl never.
#[local] Arguments st_get : simpl never.
#[local] Arguments st_modify : simpl never.
#[local] Arguments st_ret : simpl never.

(** ** The invariant *)

(** What is kept of the core, but for its endpoint. *)
Definition core_key (s : ServiceState) : option (bool * ManagedCoreHandle * OwnedProcessIdentity) :=
  (λ c, (is_cleanup_pending c, mcr_handle (core_record c), mcr_owned_identity (core_record c))) <$> vs_managed_core s.
Definition owned_ids (s : ServiceState) : list OwnedProcessIdentity :=
  match vs_managed_core s with Some c => [mcr_owned_identity (core_record c)] | None => [] end.
Definition no_active_core (s : ServiceState) : Prop := vs_managed_core s ≫= core_active = None.

Record same_policy (s s' : ServiceState) : Prop := {
  sp_owner : vs_owner s' = vs_owner s;
  sp_last_bundle : vs_last_bundle s' = vs_last_bundle s;
  sp_degraded : vs_degraded s' = vs_degraded s;
  sp_failures : vs_consecutive_restart_failures s' = vs_consecutive_restart_failures s;
  sp_diagnostic : vs_diagnostic s' = vs_diagnostic s;
  sp_due : vs_restart_due_at s' = vs_restart_due_at s;
  sp_backoff : vs_restart_backoff s' = vs_restart_backoff s;
  sp_liveness : vs_next_liveness_at s' = vs_next_liveness_at s;
}.
Record quiet (s s' : ServiceState) : Prop := {
  qt_policy : same_policy s s';
  qt_owner_generation : vs_owner_generation s' = vs_owner_generation s;
  qt_core_generation : vs_core_instance_generation s' = vs_core_instance_generation s;
  qt_core : core_key s' = core_key s;
}.
#[global] Instance same_policy_preorder : PreOrder same_policy.
Proof. split; [by split|]. intros s1 s2 s3 [] []. split; congruence. Qed.
#[global] Instance quiet_preorder : PreOrder quiet.
Proof. split; [by split|]. intros s1 s2 s3 [] []. split; try congruence. by etrans. Qed.

Lemma core_key_owned s s' : core_key s' = core_key s → owned_ids s' = owned_ids s.
Proof.
  unfold core_key, owned_ids. destruct (vs_managed_core s'), (vs_managed_core s); cbn; intros [=]; by f_equal.
Qed.
Lemma core_key_idle s s' : core_key s' = core_key s → no_active_core s' ↔ no_active_core s.
Proof.
  unfold core_key, no_active_core. destruct (vs_managed_core s') as [[]|], (vs_managed_core s) as [[]|]; cbn; intros [=]; done.
Qed.
Lemma core_key_none s s' : core_key s' = core_key s → vs_managed_core s = None → vs_managed_core s' = None.
Proof. unfold core_key. intros Hk Hn. rewrite Hn in Hk. by destruct (vs_managed_core s'). Qed.
Lemma core_key_pending s s' : core_key s' = core_key s → cleanup_is_pending s' = cleanup_is_pending s.
Proof.
  unfold core_key, cleanup_is_pending. destruct (vs_managed_core s') as [[]|], (vs_managed_core s) as [[]|]; cbn;
    by intros [=].
Qed.

(** Restarts are scheduled for a core that is gone and can be started again, by its owner. *)
Record policy (s : ServiceState) : Prop := {
  po_due : is_Some (vs_restart_due_at s) →
    vs_degraded s = false ∧ no_active_core s ∧ is_Some (vs_last_bundle s) ∧ is_Some (vs_owner s);
  po_active : is_Some (vs_managed_core s ≫= core_active) → is_Some (vs_last_bundle s) ∧ vs_degraded s = false;
  po_owner : vs_owner s = None → vs_managed_core s = None;
}.

Lemma policy_idle s s' :
  policy s → same_policy s s' → no_active_core s' → (is_Some (vs_managed_core s') → is_Some (vs_owner s)) → policy s'.
Proof.
  intros [] [] Hidle Hown. split; rewrite ?sp_owner0, ?sp_last_bundle0, ?sp_degraded0, ?sp_due0.
  - intros Hd. destruct (po_due0 Hd) as (? & _ & ? & ?). done.
  - intros Ha. unfold no_active_core in Hidle. rewrite Hidle in Ha. by destruct Ha.
  - intros Hn. rewrite Hn in Hown. destruct (vs_managed_core s'); [|done]. by destruct Hown.
Qed.
Lemma policy_same s s' : policy s → same_policy s s' → core_key s' = core_key s → policy s'.
Proof.
  intros [] [] Hk. split; rewrite ?sp_owner0, ?sp_last_bundle0, ?sp_degraded0, ?sp_due0.
  - intros Hd. destruct (po_due0 Hd) as (? & ? & ? & ?). by rewrite (core_key_idle _ _ Hk).
  - intros Ha. apply po_active0. apply not_eq_None_Some. apply not_eq_None_Some in Ha. intros Hn. apply Ha.
    by apply (core_key_idle _ _ Hk).
  - intros Hn. by apply (core_key_none s), po_owner0.
Qed.

Section service.
Context (config : PrivilegedServiceConfig) (control_root : path).
Context (Hcapacity : 1 ≤ psc_log_capacity config) (Hline : 0 ≤ psc_max_log_line_bytes config).

Record base (s : ServiceState) (w : SvcWorld) : Prop := {
  ba_spawned : sw_spawned w ≤ vs_core_instance_generation s;
  ba_disk : sw_spawned w ≤ sgs_core_instance_generation (sw_disk w);
  ba_logs : logs_ok config s;
  ba_failures : 0 ≤ vs_consecutive_restart_failures s;
}.
Record svc_inv (s : ServiceState) (w : SvcWorld) : Prop := {
  iv_base : base s w;
  iv_policy : policy s;
  iv_procs : sw_procs w ⊆ owned_ids s;
}.

Lemma base_quiet s s' w w' : base s w → quiet s s' → logs_ok config s' → shrinks w w' → base s' w'.
Proof. intros [] [[]] ? []. split; try done; rewrite ?sh_spawned0, ?sh_disk0, ?qt_core_generation0, ?sp_failures0; done. Qed.
Lemma inv_quiet s s' w w' : svc_inv s w → quiet s s' → logs_ok config s' → shrinks w w' → svc_inv s' w'.
Proof.
  intros [] Hq Hl Hs. split; [by eapply base_quiet|by eapply policy_same; [|apply Hq..]|].
  rewrite (core_key_owned s); [|apply Hq]. etrans; [apply Hs|done].
Qed.
Lemma inv_shrinks s w w' : svc_inv s w → shrinks w w' → svc_inv s w'.
Proof. intros Hi Hs. eapply inv_quiet; [done..| |done]. apply Hi. Qed.

(** A program that may only forward logs and note the endpoint. *)
Definition calm {A} (m : svc A) : Prop := ∀ s w, logs_ok config s →
  swp (m s) (λ r w', quiet s r.2 ∧ logs_ok config r.2 ∧ shrinks w w') w.

Lemma calm_drain r : calm (drain_logs config r).
Proof.
  intros s w Hl. unfold drain_logs. apply wpc_st_try, wpc_st_map_err, wpc_st_call; [done|].
  intros [batch|e] w1 H1; cbn in *; [|done].
  assert (∀ l s, quiet s (forward_logs config (opi_instance_generation (mcr_owned_identity r)) l s)) as Hf.
  { intros l. induction l as [|log rest IH]; intros s0; cbn; [done|]. destruct (forward_log _ _ _ _) as [s1|] eqn:Hlog; [|done].
    etrans; [|apply IH]. unfold forward_log in Hlog. destruct (next_sequence _) as [[]|]; cbn in Hlog; [|done].
    destruct (make_room _ _ _ _ _) as [[? ?] ?]. injection Hlog as <-. by split. }
  repeat apply conj; [|by apply forward_logs_ok, note_dropped_ok|done].
  etrans; [|apply Hf]. unfold note_dropped. by case_match.
Qed.

Lemma stop_record_spec r s w :
  logs_ok config s →
  swp (stop_owned_record config r s)
    (λ x w', quiet s x.2 ∧ logs_ok config x.2 ∧ shrinks w w' ∧ (x.1 = Ok tt → mcr_owned_identity r ∉ sw_procs w')) w.
Proof.
  intros Hl. unfold stop_owned_record. apply wpc_st_bind.
  apply (wpc_mono _ _ _ (λ x w', quiet s x.2 ∧ logs_ok config x.2 ∧ shrinks w w' ∧
                                 mcr_owned_identity x.1 = mcr_owned_identity r)).
  2: { destruct (mcr_endpoint_identity r); [by apply wpc_st_ret|]. apply wpc_st_bind, wpc_st_lift.
       use (silent_capture (endpoint_path r)). intros e w1 H1. apply wpc_st_bind, wpc_st_modify, wpc_st_ret. cbn.
       destruct (vs_managed_core s) as [c|] eqn:Hc; [|done]. case_bool_decide; [|done].
       repeat apply conj; try done. split; try done. unfold core_key. cbn. rewrite Hc. cbn. by destruct c. }
  intros [r' s1] w1 (Hq1 & Hl1 & H1 & <-). cbn in *. apply wpc_st_try, wpc_st_lift. use live_spec.
  intros [live|e] w2 [H2 Hdead]; [|cbn; repeat apply conj; [done..|by etrans|done]]. cbn. apply wpc_st_try.
  apply (wpc_mono _ _ _ (λ x w', x.2 = s1 ∧ shrinks w w' ∧ (x.1 = Ok tt → mcr_owned_identity r' ∉ sw_procs w'))).
  2: { destruct live.
       - apply wpc_st_map_err, wpc_st_call; [done|]. intros [[]|e] w3 [H3 H3']; cbn; (split; [done|]; split; [by do 2 etrans|]);
           [intros _; by apply H3'|done].
       - apply wpc_st_ret. cbn. split; [done|]. split; [by etrans|]. intros _. by apply Hdead. }
  intros [[[]|e] s2] w3 (Hs2 & H3 & Hgone); cbn in Hs2, Hgone |- *; subst s2; [|by repeat apply conj].
  specialize (Hgone eq_refl). apply wpc_st_try. eapply wpc_mono; [|by apply calm_drain]; cbv beta.
  intros [[[]|e] s4] w4 (Hq4 & Hl4 & H4); cbn in *; [|repeat apply conj; [by etrans|done|by etrans|done]].
  apply wpc_st_lift. use silent_remove. intros x w5 H5. cbn. repeat apply conj; [by etrans|done|by do 2 etrans|].
  intros _ Hin. apply Hgone. by apply (sh_procs _ _ H4), (sh_procs _ _ H5).
Qed.

(** A core that was not committed is stopped and forgotten, or stays to be. *)
Lemma cleanup_pending_spec s w :
  svc_inv s w →
  swp (cleanup_pending_core config s)
    (λ x w', svc_inv x.2 w' ∧ same_policy s x.2 ∧ sw_running w' = sw_running w ∧
             vs_owner_generation x.2 = vs_owner_generation s ∧
             (no_active_core s → no_active_core x.2) ∧
             (cleanup_is_pending s = false → quiet s x.2) ∧ (x.1 = Ok tt → cleanup_is_pending x.2 = false)) w.
Proof.
  intros Hi. unfold cleanup_pending_core. apply wpc_st_bind, wpc_st_get. cbn. destruct (vs_managed_core s) as [[r|r]|] eqn:Hc;
    try (apply wpc_st_ret; cbn; unfold cleanup_is_pending; rewrite Hc; done).
  apply wpc_st_try. eapply wpc_mono; [|apply stop_record_spec, Hi]; cbv beta.
  intros [[[]|e] s1] w1 (Hq & Hl & H1 & Hgone); cbn in *.
  2: { split; [by eapply inv_quiet|]. split; [apply Hq|]. split; [apply H1|]. split; [apply Hq|].
       split; [by apply (core_key_idle s), Hq|]. done. }
  repeat apply conj; try done; [| |apply H1|apply Hq|unfold cleanup_is_pending; by rewrite Hc].
  2: { etrans; [apply Hq|]. by split. }
  assert (svc_inv s1 w1) as [[] Hp Hprocs] by (by eapply inv_quiet). split.
  - by split.
  - eapply policy_idle; [exact Hp|by split|done|by intros []].
  - cbn. intros q Hin. pose proof (Hprocs q Hin) as Hq'. rewrite (core_key_owned s) in Hq' by apply Hq.
    unfold owned_ids in Hq'. rewrite Hc in Hq'. apply list_elem_of_singleton in Hq' as ->. exfalso. by apply Hgone.
Qed.

(** ** Generations *)

(** Only the generations change, and they are not lowered. *)
Record raised (s s' : ServiceState) : Prop := {
  ra_owner : vs_owner_generation s ≤ vs_owner_generation s';
  ra_core : vs_core_instance_generation s ≤ vs_core_instance_generation s';
  ra_rest : s' = put_owner_generation (vs_owner_generation s')
                   (put_core_instance_generation (vs_core_instance_generation s') s);
}.

Lemma raised_policy s s' : raised s s' → same_policy s s'.
Proof. intros [_ _ ->]. by split. Qed.
Lemma raised_core s s' : raised s s' → vs_managed_core s' = vs_managed_core s.
Proof. by intros [_ _ ->]. Qed.
Lemma raised_logs s s' : raised s s' → logs_ok config s → logs_ok config s'.
Proof. by intros [_ _ ->]. Qed.

(** What a reservation leaves, whatever becomes of it. *)
Record reserved (s s' : ServiceState) (w w' : SvcWorld) : Prop := {
  rs_raised : raised s s';
  rs_procs : sw_procs w' ⊆ sw_procs w;
  rs_spawned : sw_spawned w' = sw_spawned w;
  rs_disk : generations_le (sw_disk w) (sw_disk w');
  rs_running : sw_running w' = sw_running w;
}.

Lemma reserved_nothing s w w' : shrinks w w' → reserved s s w w'.
Proof. intros []. split; [by split; destruct s|done..|by rewrite sh_disk0|done]. Qed.
Lemma reserved_shrinks s s' w w1 w2 : reserved s s' w w1 → shrinks w1 w2 → reserved s s' w w2.
Proof. intros [] []. split; [done|by etrans|congruence|by rewrite sh_disk0|congruence]. Qed.

Lemma reserved_base s s' w w' : base s w → reserved s s' w w' → base s' w'.
Proof.
  intros [] [Hr ? Hs [] ?]. destruct (raised_policy _ _ Hr). destruct Hr as [? ? Hr'].
  split; [lia|lia| |by rewrite sp_failures0]. by apply (raised_logs s).
Qed.
Lemma reserved_inv s s' w w' : svc_inv s w → reserved s s' w w' → svc_inv s' w'.
Proof.
  intros [Hb Hp Hin] Hr. pose proof (rs_raised _ _ _ _ Hr) as Hra. split; [by eapply reserved_base| |].
  - apply (policy_same s); [done|by apply raised_policy|]. unfold core_key. by rewrite (raised_core _ _ Hra).
  - unfold owned_ids. rewrite (raised_core _ _ Hra). etrans; [apply Hr|done].
Qed.

Lemma svc_persist_spec s w0 w s0 :
  reserved s0 s w0 w → generations_le (sw_disk w) (MkServiceGenerationState (vs_owner_generation s) (vs_core_instance_generation s)) →
  swp (persist_generation_state s)
    (λ x w', x.2 = s ∧ reserved s0 s w0 w' ∧
             (x.1 = Ok tt → sw_disk w' = MkServiceGenerationState (vs_owner_generation s) (vs_core_instance_generation s))) w.
Proof.
  intros Hr Hle. unfold persist_generation_state. apply wpc_st_bind, wpc_st_call; [done|].
  intros [fault|e] w1 H1; cbn in *; [|apply wpc_st_ret; split; [done|]; split; [by eapply reserved_shrinks|done]].
  apply wpc_st_bind, wpc_st_get, wpc_st_call; cbn; [by rewrite (sh_disk _ _ H1)|].
  intros x w2 [H2 Hdisk]. split; [done|]. pose proof (reserved_shrinks _ _ _ _ _ Hr H1) as []. destruct H2. cbn in *.
  rewrite (sh_disk _ _ H1) in *. split.
  - split; [done|by etrans|congruence| |congruence]. destruct rs_disk0, Hle, Hdisk as [->|[-> _]]; split; cbn in *; lia.
  - intros ->. by destruct Hdisk as [->|[_ ?]].
Qed.

(** A reservation, with what it returns if it succeeds. *)
Definition reserves (m : svc (result Z CoreRuntimeError)) (value : ServiceState → Z) : Prop := ∀ s w,
  swp (m s)
    (λ x w', reserved s x.2 w w' ∧
       (∀ g, x.1 = Ok g → g = value x.2 ∧ value s < g ∧
             sw_disk w' = MkServiceGenerationState (vs_owner_generation x.2) (vs_core_instance_generation x.2))) w.

Lemma with_lock_spec (m : svc (result Z CoreRuntimeError)) value : reserves m value → reserves (with_generation_state_lock m) value.
Proof.
  intros Hm s w. unfold with_generation_state_lock. apply wpc_st_try, wpc_st_call; [done|].
  intros [[]|e] w1 H1; cbn in H1 |- *.
  2: { split; [by apply reserved_nothing|done]. }
  destruct H1 as [H1 Hle]. apply wpc_st_bind. eapply wpc_mono; [|apply (Hm s)]; cbv beta. intros [x s2] w2 [Hr Hok]. cbn in *.
  assert (reserved s s2 w w2) as Hr'.
  { destruct Hr, H1. cbn in *. destruct rs_disk0, Hle. split; [done|by etrans|congruence|split; lia|congruence]. }
  apply wpc_st_bind, wpc_st_call; [done|]. intros _u w3 H3. apply wpc_st_ret. cbn.
  split; [by eapply reserved_shrinks|]. intros g Hx. destruct (Hok g Hx) as (? & ? & Hd).
  repeat apply conj; [done..|]. by rewrite (sh_disk _ _ H3).
Qed.

Lemma persisted_spec s s' w w' value :
  reserved s s' w w' → value s < value s' →
  generations_le (sw_disk w') (MkServiceGenerationState (vs_owner_generation s') (vs_core_instance_generation s')) →
  swp ((do& persist_generation_state in st_get (λ s, Ok (value s))) s')
    (λ x w', reserved s x.2 w w' ∧
       (∀ g, x.1 = Ok g → g = value x.2 ∧ value s < g ∧
             sw_disk w' = MkServiceGenerationState (vs_owner_generation x.2) (vs_core_instance_generation x.2))) w'.
Proof.
  intros Hr Hlt Hle. apply wpc_st_try. eapply wpc_mono; [|by eapply svc_persist_spec]; cbv beta.
  intros [[[]|e] s2] w2 (Hs & Hr2 & Hok); cbn in *; subst s2; [|done].
  apply wpc_st_get. cbn. split; [done|]. intros g [= <-]. repeat apply conj; [done..|]. by apply Hok.
Qed.

Lemma reserve_core_spec : reserves reserve_core_instance_generation vs_core_instance_generation.
Proof.
  apply with_lock_spec. intros s w. apply wpc_st_try, wpc_st_call; [done|].
  intros [persisted|e] w1 [H1 Hp]; cbn in *.
  2: { split; [by apply reserved_nothing|done]. }
  rewrite (Hp persisted eq_refl). apply wpc_st_bind, wpc_st_modify. cbn. apply wpc_st_bind, wpc_st_get. cbn.
  destruct (checked_add _ _) as [g|] eqn:Hg; [apply checked_add_Some in Hg as [-> _]|].
  - apply wpc_st_bind, wpc_st_modify. cbn. apply persisted_spec; cbn; [|lia|].
    + destruct H1. split; [split; cbn; [lia|lia|by destruct s]|done..|by rewrite sh_disk0|done].
    + rewrite (sh_disk _ _ H1). split; cbn; lia.
  - apply wpc_st_ret. cbn. split; [|done]. destruct H1.
    split; [split; cbn; [lia|lia|by destruct s]|done..|by rewrite sh_disk0|done].
Qed.
Lemma reserve_owner_spec : reserves reserve_owner_generation vs_owner_generation.
Proof.
  apply with_lock_spec. intros s w. apply wpc_st_try, wpc_st_call; [done|].
  intros [persisted|e] w1 [H1 Hp]; cbn in *.
  2: { split; [by apply reserved_nothing|done]. }
  rewrite (Hp persisted eq_refl). apply wpc_st_bind, wpc_st_get. cbn.
  destruct (checked_add _ _) as [g|] eqn:Hg; [apply checked_add_Some in Hg as [-> _]|].
  - apply wpc_st_bind, wpc_st_modify. cbn. apply persisted_spec; cbn; [|lia|].
    + destruct H1. split; [split; cbn; [lia|lia|by destruct s]|done..|by rewrite sh_disk0|done].
    + rewrite (sh_disk _ _ H1). split; cbn; lia.
  - apply wpc_st_ret. cbn. split; [by apply reserved_nothing|done].
Qed.

(** ** Starting a core *)

(** A core was started, and the state does not have it yet. *)
Record uncommitted (r : ManagedCoreRecord) (s : ServiceState) (w : SvcWorld) : Prop := {
  un_base : base s w;
  un_policy : policy s;
  un_core : vs_managed_core s = None;
  un_owner : is_Some (vs_owner s);
  un_procs : sw_procs w ⊆ [mcr_owned_identity r];
}.
Lemma uncommitted_shrinks r s w w' : uncommitted r s w → shrinks w w' → uncommitted r s w'.
Proof.
  intros [[]] []. split; [split; rewrite ?sh_spawned0, ?sh_disk0|..]; try done. by etrans.
Qed.
Lemma uncommitted_endpoint r s w e : uncommitted r s w → uncommitted (with_endpoint_identity e r) s w.
Proof. by intros []. Qed.

(** What an operation leaves that did not get a core. *)
Record failed (s s' : ServiceState) (w w' : SvcWorld) : Prop := {
  fa_inv : svc_inv s' w';
  fa_policy : same_policy s s';
  fa_idle : no_active_core s';
  fa_running : sw_running w' = sw_running w;
  fa_generation : vs_owner_generation s ≤ vs_owner_generation s';
}.
Lemma failed_later s0 s s' w0 w w' :
  failed s s' w w' → same_policy s0 s → sw_running w = sw_running w0 →
  vs_owner_generation s0 ≤ vs_owner_generation s → failed s0 s' w0 w'.
Proof. intros [] ???. split; [done|by etrans|done|congruence|lia]. Qed.

Lemma abandon_spec {A} r e s w :
  uncommitted r s w → swp (abandon config r e s) (λ x w', (∃ e', x.1 = @Err A _ e') ∧ failed s x.2 w w') w.
Proof.
  intros [[] Hpol Hcore Hown Hprocs]. unfold abandon, fail_after_uncommitted_spawn.
  apply wpc_st_bind, wpc_st_bind, wpc_st_modify. cbn. apply wpc_st_bind.
  assert (svc_inv (put_managed_core (Some (CoreCleanupPending r)) s) w) as Hi.
  { split; [by split| |done]. eapply policy_idle; [exact Hpol|by split|done|done]. }
  eapply wpc_mono; [|exact (cleanup_pending_spec _ _ Hi)]; cbv beta.
  intros [x s'] w' (Hi' & Hsame & Hrun & Hgen & Hidle & _). apply wpc_st_ret, wpc_st_ret. cbn in *.
  split; [by eexists|]. split; [done| |by apply Hidle|done|lia]. etrans; [|exact Hsame]. by split.
Qed.

Lemma or_abandon_spec {A} r check (k : svc (result A CoreRuntimeError)) s w Q :
  uncommitted r s w → silent check →
  (∀ w', shrinks w w' → uncommitted r s w' → swp (k s) Q w') →
  (∀ e s' w', failed s s' w w' → Q (Err e, s') w') →
  swp (or_abandon config r check k s) Q w.
Proof.
  intros Hu Hc Hk HQ. unfold or_abandon. apply wpc_st_bind, wpc_st_lift. use Hc. intros [[]|e] w1 H1; cbn.
  - by apply Hk, (uncommitted_shrinks _ _ w).
  - eapply wpc_mono; [|apply abandon_spec; by eapply uncommitted_shrinks]; cbv beta.
    intros [x s'] w' [[e' Hx] Hf]. cbn in *. subst x. apply HQ. eapply failed_later; [done|done|apply H1|lia].
Qed.

(** What starting a core leaves. *)
Definition spawned_post (s : ServiceState) (w : SvcWorld) (x : result ManagedCoreRecord CoreRuntimeError * ServiceState)
    (w' : SvcWorld) : Prop :=
  match x.1 with
  | Ok r =>
      uncommitted r x.2 w' ∧ same_policy s x.2 ∧ sw_running w' = sw_running w ∧
      vs_owner_generation s ≤ vs_owner_generation x.2 ∧
      vs_core_instance_generation s < opi_instance_generation (mcr_owned_identity r)
  | Err _ => failed s x.2 w w'
  end.

Lemma await_ready_spec owner r s w Q :
  uncommitted r s w →
  (∀ r' w', uncommitted r' s w' → sw_running w' = sw_running w → mcr_owned_identity r' = mcr_owned_identity r →
     Q (Ok r', s) w') →
  (∀ e s' w', failed s s' w w' → Q (Err e, s') w') →
  swp (await_ready config owner r s) Q w.
Proof.
  intros Hu HOk HErr. apply wpc_st_bind, wpc_st_call; [done|]. intros ready w1 H1. cbn in H1 |- *.
  apply wpc_st_bind, wpc_st_lift. use silent_capture. intros captured w2 H2. cbn.
  assert (shrinks w w2) as H02 by (by etrans).
  pose proof (uncommitted_endpoint _ _ _ captured (uncommitted_shrinks _ _ _ _ Hu H02)) as Hu2.
  assert (∀ e s' w' w'', shrinks w w' → failed s s' w' w'' → Q (Err e, s') w'') as HF.
  { intros e s' w' w'' Hs Hf. apply HErr. eapply failed_later; [done|done|apply Hs|lia]. }
  assert (∀ r' e w', shrinks w w' → uncommitted r' s w' → swp (abandon config r' e s) Q w') as HA.
  { intros r' e w' Hs Hu'. eapply wpc_mono; [|by apply abandon_spec]; cbv beta.
    intros [x s'] w'' [[e' Hx] Hf]. cbn in *. subst x. by eapply HF. }
  destruct ready as [[]|e]; [|by apply HA].
  apply or_abandon_spec; [done|apply silent_ensure| |intros; by eapply HF].
  intros w3 H3 Hu3. apply wpc_st_bind, wpc_st_call; [done|]. intros access w4 H4. cbn in H4 |- *.
  assert (shrinks w w4) as H04 by (by do 2 etrans).
  pose proof (uncommitted_shrinks _ _ _ _ Hu3 H4) as Hu4. destruct access as [[]|e]; [|by apply HA].
  apply wpc_st_bind, wpc_st_lift. use silent_capture. intros captured' w5 H5. cbn.
  assert (shrinks w w5) as H05 by (by etrans).
  apply or_abandon_spec; [by eapply uncommitted_endpoint, uncommitted_shrinks|apply silent_ensure| |].
  - intros w6 H6 Hu6. apply wpc_st_ret, HOk; [done| |done]. rewrite (sh_running _ _ H6). apply H05.
  - intros. by eapply HF.
Qed.

Lemma spawn_spec owner bundle s w :
  svc_inv s w → vs_managed_core s = None → is_Some (vs_owner s) →
  swp (spawn_verified config owner bundle s) (spawned_post s w) w.
Proof.
  intros Hi Hnone Hown. unfold spawn_verified. apply wpc_st_try. eapply wpc_mono; [|apply reserve_core_spec]; cbv beta.
  intros [x s1] w1 [Hr Hok]. cbn in *.
  pose proof (rs_raised _ _ _ _ Hr) as Hra. pose proof (raised_core _ _ Hra) as Hc1. rewrite Hnone in Hc1.
  pose proof (raised_policy _ _ Hra) as Hp1. pose proof (reserved_inv _ _ _ _ Hi Hr) as Hi1.
  assert (∀ w2, shrinks w1 w2 → failed s s1 w w2) as Hfail.
  { intros w2 H2. split; [by eapply inv_shrinks|done|by unfold no_active_core; rewrite Hc1| |apply Hra].
    rewrite (sh_running _ _ H2). apply Hr. }
  destruct x as [g|e]; [|by apply Hfail]. destruct (Hok g eq_refl) as (-> & Hlt & Hdisk).
  assert (sw_procs w1 = []) as Hempty.
  { apply elem_of_nil_inv. intros q Hq%(iv_procs _ _ Hi1). unfold owned_ids in Hq. rewrite Hc1 in Hq. by apply not_elem_of_nil in Hq. }
  apply wpc_st_try, wpc_st_map_err, wpc_st_call.
  { cbn. split; [done|]. rewrite Hdisk. cbn. pose proof (ba_spawned _ _ (iv_base _ _ Hi)).
    rewrite (rs_spawned _ _ _ _ Hr). lia. }
  intros [spawned|e] w2 H2; cbn in H2; cbn [fst snd map_err].
  2: { apply (failed_later s s1 s1 w w1); [|done|apply Hr|apply Hra]. destruct H2. cbn in *.
       split; [|done|by unfold no_active_core; rewrite Hc1|done|lia].
       destruct Hi1 as [[] ? Hsub]. split; [|done|by etrans]. split; rewrite ?sh_spawned0, ?sh_disk0, ?Hdisk; cbn; done || lia. }
  destruct H2 as (Hpid & Hstart & H2). rewrite (proj2 (Z.eqb_neq _ _) Hpid), bool_decide_false by done. cbn [orb].
  set (r := spawned_record owner bundle _ spawned).
  assert (uncommitted r s1 w2) as Hu.
  { destruct H2. cbn in *. split; [|apply Hi1|done|by rewrite (sp_owner _ _ Hp1)|].
    - split; rewrite ?sh_spawned0, ?sh_disk0, ?Hdisk; [cbn; lia..|apply Hi1|apply Hi1].
    - by rewrite Hempty in sh_procs0. }
  assert (sw_running w2 = sw_running w) as Hrun by (rewrite (sh_running _ _ H2); cbn; apply Hr).
  assert (∀ s' w3 w', shrinks w2 w3 → failed s1 s' w3 w' → failed s s' w w') as HF.
  { intros s' w3 w' H3 Hf. eapply failed_later; [exact Hf|done| |apply Hra]. by rewrite (sh_running _ _ H3). }
  apply or_abandon_spec; [done|apply silent_ensure| |intros e s' w'; by apply HF].
  intros w3 H3 Hu3. apply or_abandon_spec; [done|apply silent_confirm| |intros e s' w'; by apply HF].
  intros w4 H4 Hu4. apply await_ready_spec; [done| |intros e s' w'; apply HF; by etrans].
  intros r' w5 Hu5 Hrun5 Hid. cbn. split; [done|]. split; [done|]. split; [|split; [apply Hra|]].
  - rewrite Hrun5, (sh_running _ _ H4), (sh_running _ _ H3). done.
  - rewrite Hid. cbn. lia.
Qed.

(** The started core becomes the owned one. *)
Lemma commit_inv r s s' w :
  uncommitted r s w → vs_managed_core s' = Some (CoreActive r) → vs_owner s' = vs_owner s →
  is_Some (vs_last_bundle s') → vs_degraded s' = false → vs_restart_due_at s' = None →
  vs_core_instance_generation s' = vs_core_instance_generation s → logs_ok config s' →
  0 ≤ vs_consecutive_restart_failures s' → svc_inv s' w.
Proof.
  intros [[] ? ? Hown ?] Hc Ho Hb Hd Hdue Hg Hl Hf. split; [split|split|].
  - by rewrite Hg.
  - done.
  - done.
  - done.
  - rewrite Hdue. by intros [].
  - done.
  - rewrite Ho. intros Hn. rewrite Hn in Hown. by destruct Hown.
  - unfold owned_ids. by rewrite Hc.
Qed.

(** ** The owner *)

(** What the end of a session leaves: nothing of it if it succeeds. *)
Lemma cleanup_owner_spec s w :
  svc_inv s w →
  swp (cleanup_owner config s)
    (λ x w', svc_inv x.2 w' ∧ sw_running w' = sw_running w ∧ vs_owner_generation x.2 = vs_owner_generation s ∧
       match x.1 with
       | Ok _ => vs_owner x.2 = None ∧ vs_managed_core x.2 = None ∧ vs_last_bundle x.2 = None ∧ sw_procs w' = []
       | Err _ => quiet s x.2
       end) w.
Proof.
  intros Hi. unfold cleanup_owner. apply wpc_st_bind, wpc_st_get. cbn. apply wpc_st_try.
  apply (wpc_mono _ _ _ (λ x w', quiet s x.2 ∧ logs_ok config x.2 ∧ shrinks w w' ∧ (x.1 = Ok tt → sw_procs w' = []))).
  2: { destruct (vs_managed_core s) as [c|] eqn:Hc.
       - eapply wpc_mono; [|apply stop_record_spec, Hi]; cbv beta. intros [x s1] w1 (Hq & Hl & H1 & Hgone). cbn in *.
         repeat apply conj; try done. intros ->. apply elem_of_nil_inv. intros q Hq1. apply (Hgone eq_refl).
         pose proof (iv_procs _ _ Hi q (sh_procs _ _ H1 q Hq1)) as Hin. unfold owned_ids in Hin. rewrite Hc in Hin.
         by apply list_elem_of_singleton in Hin as <-.
       - apply wpc_st_ret. cbn. repeat apply conj; try done; [apply Hi|]. intros _. apply elem_of_nil_inv. intros q Hq.
         apply (iv_procs _ _ Hi) in Hq. unfold owned_ids in Hq. rewrite Hc in Hq. by apply not_elem_of_nil in Hq. }
  intros [[[]|e] s1] w1 (Hq & Hl & H1 & Hempty); cbn in *.
  2: { repeat apply conj; [by eapply inv_quiet|apply H1|apply Hq|done]. }
  specialize (Hempty eq_refl). apply wpc_st_bind, wpc_st_get. cbn. apply wpc_st_try.
  apply (wpc_mono _ _ _ (λ x w', x.2 = s1 ∧ shrinks w1 w')).
  2: { destruct (vs_owner s1) as [o|]; [|by apply wpc_st_ret]. apply wpc_st_lift. use silent_clear. done. }
  intros [[[]|e] s2] w2 [Hs2 H2]; cbn in Hs2 |- *; subst s2.
  2: { repeat apply conj; [eapply inv_quiet; [done..|by etrans]|rewrite (sh_running _ _ H2); apply H1|apply Hq|done]. }
  apply wpc_st_bind, wpc_st_modify, wpc_st_ret. cbn.
  assert (sw_procs w2 = []) as He2 by (apply elem_of_nil_inv; intros q Hin%(sh_procs _ _ H2); rewrite Hempty in Hin; by apply not_elem_of_nil in Hin).
  repeat apply conj; try done; [|rewrite (sh_running _ _ H2); apply H1|apply Hq].
  assert (base s1 w2) as [] by (eapply base_quiet; [apply Hi|done..|by etrans]). split; [split; try done|split; cbn; [by intros []|by intros []|done]|by rewrite He2].
  split; cbn; done || (repeat constructor) || idtac; unfold zlen; cbn; lia.
Qed.

(** ** Restarts *)

(** The invariant, the owner and what the rest of the machine sees are kept. *)
Record kept (s s' : ServiceState) (w w' : SvcWorld) : Prop := {
  ke_inv : svc_inv s' w';
  ke_owner : vs_owner s' = vs_owner s;
  ke_running : sw_running w' = sw_running w;
  ke_generation : vs_owner_generation s ≤ vs_owner_generation s';
}.
Lemma kept_trans s1 s2 s3 w1 w2 w3 : kept s1 s2 w1 w2 → kept s2 s3 w2 w3 → kept s1 s3 w1 w3.
Proof. intros [] []. split; [done|congruence|congruence|lia]. Qed.
Lemma kept_quiet s s' w w' : svc_inv s w → quiet s s' → logs_ok config s' → shrinks w w' → kept s s' w w'.
Proof. intros Hi Hq Hl Hs. split; [by eapply inv_quiet|apply Hq|apply Hs|]. by rewrite (qt_owner_generation _ _ Hq). Qed.
Lemma kept_shrinks s w w' : svc_inv s w → shrinks w w' → kept s s w w'.
Proof. intros Hi Hs. apply kept_quiet; [done..|apply Hi|done]. Qed.
Lemma kept_failed s s' w w' : failed s s' w w' → kept s s' w w'.
Proof. intros []. split; [done|apply fa_policy0|done|done]. Qed.

(** How an attempt to restart ends. *)
Definition restart_outcome (s : ServiceState) (now : Z) (outcome : UnexpectedExitOutcome) (s' : ServiceState) : Prop :=
  let attempt := saturating_add (vs_consecutive_restart_failures s) 1 in
  match outcome with
  | ExitRestarted n handle =>
      n = attempt ∧ vs_restart_due_at s' = None ∧ vs_degraded s' = false ∧ vs_consecutive_restart_failures s' = 0 ∧
      vs_next_liveness_at s' = Some (deadline_after now (millis CORE_SERVICE_LIVENESS_INTERVAL)) ∧
      ∃ r, vs_managed_core s' = Some (CoreActive r) ∧ mcr_handle r = handle ∧
           vs_core_instance_generation s < opi_instance_generation (mcr_owned_identity r)
  | ExitPending n next =>
      n = attempt ∧ n < psc_restart_limit config ∧ next = deadline_after now (restart_backoff_after n) ∧
      vs_restart_due_at s' = Some next ∧ vs_consecutive_restart_failures s' = n ∧ vs_degraded s' = false ∧
      vs_next_liveness_at s' = vs_next_liveness_at s ∧ no_active_core s'
  | ExitDegraded n diagnostic =>
      n = attempt ∧ psc_restart_limit config ≤ n ∧ diagnostic = CoreRestartLimitReached ∧
      vs_restart_due_at s' = None ∧ vs_degraded s' = true ∧ vs_consecutive_restart_failures s' = n ∧
      vs_next_liveness_at s' = vs_next_liveness_at s ∧ no_active_core s'
  end.

Lemma idle_none s : no_active_core s → cleanup_is_pending s = false → vs_managed_core s = None.
Proof. unfold no_active_core, cleanup_is_pending. by destruct (vs_managed_core s) as [[]|]. Qed.

(** Changes of the restart fields of a state without an active core. *)
Lemma inv_restart s s' w :
  svc_inv s w → no_active_core s → vs_owner s' = vs_owner s → vs_managed_core s' = vs_managed_core s →
  vs_last_bundle s' = vs_last_bundle s → vs_core_instance_generation s' = vs_core_instance_generation s →
  logs_ok config s' → 0 ≤ vs_consecutive_restart_failures s' →
  (is_Some (vs_restart_due_at s') → vs_degraded s' = false ∧ is_Some (vs_last_bundle s) ∧ is_Some (vs_owner s)) →
  svc_inv s' w.
Proof.
  intros [[] [] Hp] Hidle Ho Hc Hb Hg Hl Hf Hdue. split; [split; rewrite ?Hg; done| |by unfold owned_ids; rewrite Hc].
  split; unfold no_active_core in *; rewrite ?Ho, ?Hc, ?Hb, ?Hidle.
  - intros Hd. destruct (Hdue Hd) as (? & ? & ?). done.
  - by intros [].
  - done.
Qed.

Lemma restart_spawn_spec owner bundle s w :
  svc_inv s w → vs_managed_core s = None → is_Some (vs_owner s) →
  swp ((try& verified := verify_bundle bundle owner in
        do& check_tun owner in
        spawn_verified config owner verified) s) (spawned_post s w) w.
Proof.
  intros Hi Hc Ho.
  assert (∀ w', shrinks w w' → failed s s w w') as Hf.
  { intros w' H'. split; [by eapply inv_shrinks|done|by unfold no_active_core; rewrite Hc|apply H'|done]. }
  unfold verify_bundle, check_tun. apply wpc_st_try, wpc_st_call; [done|]. intros [verified|e] w1 H1; cbn in *; [|by apply Hf].
  apply wpc_st_try, wpc_st_map_err, wpc_st_call; [done|]. intros [[]|e] w2 H2; cbn in *; [|apply Hf; by etrans].
  assert (shrinks w w2) as H02 by (by etrans).
  eapply wpc_mono; [|apply spawn_spec; [by eapply inv_shrinks|done..]]; cbv beta.
  intros [[r|e] s3] w3; unfold spawned_post; cbn; [by rewrite <-(sh_running _ _ H02)|].
  intros Hf3. eapply failed_later; [done|done|apply H02|lia].
Qed.

Lemma attempt_spec owner now s w :
  svc_inv s w → is_Some (vs_restart_due_at s) → cleanup_is_pending s = false →
  swp (attempt_owned_core_restart config owner now s)
    (λ x w', kept s x.2 w w' ∧
       match x.1 with Ok o => restart_outcome s now o x.2 | Err _ => vs_restart_due_at x.2 = vs_restart_due_at s end) w.
Proof.
  intros Hi Hdue Hpend. destruct (po_due _ (iv_policy _ _ Hi) Hdue) as (Hdeg & Hidle & Hbundle & Hown).
  pose proof (idle_none _ Hidle Hpend) as Hnone.
  unfold attempt_owned_core_restart. apply wpc_st_bind, wpc_st_get. cbn. destruct Hbundle as [bundle Hb]. rewrite Hb.
  apply wpc_st_bind, wpc_st_get. cbn. apply wpc_st_bind, wpc_st_modify. cbn.
  set (attempt := saturating_add _ _). set (s0 := put_consecutive_restart_failures attempt s).
  assert (svc_inv s0 w) as Hi0.
  { apply (inv_restart s); try done; [apply Hi|]. pose proof (ba_failures _ _ (iv_base _ _ Hi)). cbn. unfold attempt. u64_lia. }
  apply wpc_st_bind. eapply wpc_mono; [|by apply restart_spawn_spec]; cbv beta. unfold spawned_post.
  intros [[r|e] s1] w1 Hpost; cbn in Hpost |- *; apply wpc_st_bind, wpc_st_get; cbn.
  - destruct Hpost as (Hu & Hsame & Hrun & Hgen & Hnew). apply wpc_st_bind, wpc_st_modify, wpc_st_ret. cbn. split.
    + split; [|apply Hsame|done|done]. apply (commit_inv r s1); try done; [|apply Hu].
      cbn. rewrite (sp_last_bundle _ _ Hsame). cbn. by rewrite Hb.
    + repeat apply conj; try done. by exists r.
  - pose proof Hpost as [Hi1 Hsame Hidle1 Hrun Hgen]. destruct (_ || _); [|destruct (Z.leb_spec (psc_restart_limit config) attempt)].
    + apply wpc_st_ret. cbn. split; [|apply Hsame]. split; [done|apply Hsame|done|done].
    + apply wpc_st_bind, wpc_st_modify, wpc_st_ret. cbn. split.
      * split; [|apply Hsame|done|done]. apply (inv_restart s1); try done; [apply Hi1|apply Hi1|by intros []].
      * repeat apply conj; try done; apply Hsame.
    + apply wpc_st_bind, wpc_st_modify, wpc_st_ret. cbn.
      assert (vs_degraded s1 = false) as Hdeg1 by (rewrite (sp_degraded _ _ Hsame); done). split.
      * split; [|apply Hsame|done|done]. apply (inv_restart s1); try done; [apply Hi1|apply Hi1|]. cbn. intros _.
        rewrite (sp_last_bundle _ _ Hsame), (sp_owner _ _ Hsame). cbn. by rewrite Hb.
      * repeat apply conj; try done; apply Hsame.
Qed.

(** An exit that was seen: the first restart is scheduled. *)
Lemma core_exited_spec r now s w :
  svc_inv s w → vs_managed_core s = Some (CoreActive r) → mcr_owned_identity r ∉ sw_procs w →
  swp (core_exited config r now s)
    (λ x w', kept s x.2 w w' ∧ vs_next_liveness_at x.2 = vs_next_liveness_at s ∧
       match x.1 with
       | Ok o => ∃ t, o = ExitPending 0 t ∧ t = deadline_after now (millis CORE_RESTART_INITIAL_BACKOFF) ∧
                      vs_restart_due_at x.2 = Some t ∧ vs_consecutive_restart_failures x.2 = 0 ∧
                      vs_degraded x.2 = false ∧ vs_managed_core x.2 = None
       | Err _ => vs_restart_due_at x.2 = vs_restart_due_at s
       end) w.
Proof.
  intros Hi Hc Hgone. unfold core_exited. apply wpc_st_try. eapply wpc_mono; [|apply calm_drain, Hi]; cbv beta.
  intros [[[]|e] s1] w1 (Hq & Hl & H1); cbn in *; [|split; [by apply kept_quiet|split; apply Hq]].
  apply wpc_st_try, wpc_st_lift. use silent_remove. intros [[]|e] w2 H2; cbn.
  2: { split; [apply kept_quiet; [done..|by etrans]|split; apply Hq]. }
  apply wpc_st_bind, wpc_st_modify. cbn.
  assert (kept s s1 w w2) as [Hi2 Ho2 Hr2 Hg2] by (apply kept_quiet; [done..|by etrans]).
  destruct (po_active _ (iv_policy _ _ Hi)) as [[b Hb] Hd]; [by rewrite Hc|].
  unfold schedule_initial_restart. apply wpc_st_bind, wpc_st_get. cbn.
  rewrite (sp_last_bundle _ _ (qt_policy _ _ Hq)), Hb. apply wpc_st_bind, wpc_st_modify, wpc_st_ret. cbn.
  assert (is_Some (vs_owner s)) as Ho.
  { destruct (vs_owner s) eqn:Ho; [done|]. apply (po_owner _ (iv_policy _ _ Hi)) in Ho. by rewrite Hc in Ho. }
  split; [|split; [apply Hq|by eexists]]. split; [|apply Hq|done|done].
  assert (owned_ids s1 = [mcr_owned_identity r]) as Hown.
  { rewrite (core_key_owned s) by apply Hq. unfold owned_ids. by rewrite Hc. }
  destruct Hi2 as [[] Hpol Hprocs]. split; [by split| |].
  - split; cbn; [intros _|by intros []|done]. rewrite (sp_last_bundle _ _ (qt_policy _ _ Hq)), Hb, Ho2. done.
  - intros q Hin. pose proof (Hprocs q Hin) as Hq'. rewrite Hown in Hq'. apply list_elem_of_singleton in Hq' as ->.
    exfalso. apply Hgone. by apply (sh_procs _ _ H1), (sh_procs _ _ H2).
Qed.

(** *** Maintenance *)

Definition ahead (now : Z) (deadline : option Z) : Prop :=
  match deadline with Some t => now < t | None => True end.

(** What a step of maintenance reports is how things are. *)
Definition maintained (now : Z) (outcome : ServiceMaintenanceOutcome) (s : ServiceState) : Prop :=
  ahead now (vs_restart_due_at s) ∧ ahead now (vs_next_liveness_at s) ∧
  match outcome with
  | MaintenanceUnchanged lifecycle =>
      vs_restart_due_at s = None ∧
      (if vs_owner s is Some _ then lifecycle = service_lifecycle s else lifecycle = ServiceIdle ∧ vs_managed_core s = None)
  | MaintenanceOwnerRevoked => vs_owner s = None ∧ vs_managed_core s = None
  | MaintenanceUnexpectedExit (ExitPending n next) =>
      vs_restart_due_at s = Some next ∧ vs_consecutive_restart_failures s = n ∧ vs_degraded s = false
  | MaintenanceUnexpectedExit (ExitRestarted _ handle) =>
      mcr_handle <$> (vs_managed_core s ≫= core_active) = Some handle ∧ vs_restart_due_at s = None
  | MaintenanceUnexpectedExit (ExitDegraded n _) =>
      psc_restart_limit config ≤ n ∧ vs_degraded s = true ∧ vs_restart_due_at s = None
  end.

Lemma deadline_ahead now delay : now < DURATION_MAX → 0 < delay → now < deadline_after now delay.
Proof. unfold deadline_after. lia. Qed.
Lemma restart_backoff_positive n : 0 ≤ n → 0 < restart_backoff_after n.
Proof.
  intros Hn. unfold restart_backoff_after. assert (0 < millis CORE_RESTART_MAX_BACKOFF) by done.
  assert (0 < millis CORE_RESTART_INITIAL_BACKOFF) by done.
  destruct (_ <=? DURATION_MAX); [|lia]. apply Z.min_glb_lt; [|done]. apply Z.mul_pos_pos; [done|].
  destruct (32 <=? _); [done|]. apply Z.pow_pos_nonneg; lia.
Qed.
Lemma restart_outcome_maintained s now o s' :
  now < DURATION_MAX → 0 ≤ vs_consecutive_restart_failures s → ahead now (vs_next_liveness_at s) →
  restart_outcome s now o s' → maintained now (MaintenanceUnexpectedExit o) s'.
Proof.
  intros Hnow Hf Hlive. unfold maintained. destruct o as [n next|n h|n d]; cbn.
  - intros (-> & Hlt & -> & -> & -> & -> & -> & _). cbn. repeat apply conj; try done.
    apply deadline_ahead; [done|]. apply restart_backoff_positive. u64_lia.
  - intros (_ & -> & _ & _ & -> & r & -> & <- & _). cbn. repeat apply conj; try done. by apply deadline_ahead.
  - intros (-> & ? & _ & -> & -> & _ & -> & _). done.
Qed.

Lemma stepped_spec outcome s w Q :
  (Q (Ok (maintenance_result s outcome), s) w : Prop) → swp (stepped outcome s) Q w.
Proof. intros HQ. by apply wpc_st_get. Qed.

Lemma inv_liveness s v w : svc_inv s w → svc_inv (put_next_liveness_at v s) w.
Proof. by intros [[] [] ?]. Qed.

Definition maintenance_post (s : ServiceState) (now : Z) (w : SvcWorld)
    (x : result ServiceMaintenanceStep CoreRuntimeError * ServiceState) (w' : SvcWorld) : Prop :=
  kept s x.2 w w' ∧
  (∀ step, x.1 = Ok step →
     sms_next_deadline step = sms_next_deadline (maintenance_result x.2 (sms_outcome step)) ∧
     maintained now (sms_outcome step) x.2).

Lemma due_ahead now d : is_due d now = false → ahead now d.
Proof. destruct d as [t|]; cbn; [|done]. by intros ?%Z.leb_gt. Qed.
Lemma due_some now d : is_due d now = true → is_Some d.
Proof. by destruct d. Qed.

(** The steps after the cleanup of a pending core. *)
Lemma maintain_settled_spec s w owner now restart_is_due liveness_is_due s1 w1 :
  now < DURATION_MAX → svc_inv s1 w1 → kept s s1 w w1 → is_Some (vs_owner s1) →
  ahead now (vs_next_liveness_at s1) → restart_is_due = is_due (vs_restart_due_at s1) now →
  (restart_is_due || liveness_is_due = true → cleanup_is_pending s1 = false) →
  swp (maintain_settled config owner now restart_is_due liveness_is_due s1) (maintenance_post s now w) w1.
Proof.
  intros Hnow Hi1 Hkept Hown Hlive Hdue Hpend. apply wpc_st_bind, wpc_st_get. cbn.
  pose proof (iv_policy _ _ Hi1) as Hpol. destruct (restart_is_due && _) eqn:Hb.
  - apply andb_true_iff in Hb as [-> Hdeg]. apply wpc_st_try.
    eapply wpc_mono; [|apply attempt_spec; [done|by apply (due_some now)|by apply Hpend]]; cbv beta.
    intros [[o|e] s2] w2 [Hk2 Ho]; cbn in *; [|split; [by eapply kept_trans|done]].
    apply stepped_spec. split; [by eapply kept_trans|]. intros step [= <-]. split; [done|].
    eapply restart_outcome_maintained; [done|apply Hi1|done|done].
  - assert (ahead now (vs_restart_due_at s1)) as Hahead.
    { destruct restart_is_due; [|by apply due_ahead]. cbn in Hb. apply negb_false_iff in Hb.
      destruct (po_due _ Hpol) as [Hd _]; [by apply (due_some now)|]. by rewrite Hb in Hd. }
    set (unchanged := st_bind (st_get vs_restart_due_at) _).
    assert (∀ w2, shrinks w1 w2 → swp (unchanged s1) (maintenance_post s now w) w2) as Hsame.
    { intros w2 H2. do 4 (apply wpc_st_bind, wpc_st_get; cbn). apply stepped_spec.
      split; [eapply kept_trans; [done|by apply kept_shrinks]|]. intros step [= <-]. split; [done|].
      split; [done|]. split; [done|]. cbn. destruct (vs_restart_due_at s1) as [t|] eqn:Hd.
      - destruct (po_due _ Hpol) as [-> _]; [by rewrite Hd|]. done.
      - split; [done|]. by destruct Hown as [o ->]. }
    apply wpc_st_bind, wpc_st_get. cbn. destruct (vs_managed_core s1) as [[r|r]|] eqn:Hc; try by apply Hsame.
    destruct (liveness_is_due && negb (vs_degraded s1)); [|by apply Hsame]. apply wpc_st_try, wpc_st_lift. use live_spec.
    intros [[]|e] w2 [H2 Hdead]; cbn; [by apply Hsame| |split; [eapply kept_trans; [done|by apply kept_shrinks]|done]].
    apply wpc_st_try. eapply wpc_mono; [|apply core_exited_spec; [by eapply inv_shrinks|done|by apply Hdead]]; cbv beta.
    assert (kept s s1 w w2) as Hk2 by (eapply kept_trans; [done|by apply kept_shrinks]).
    intros [[o|e] s3] w3 (Hk3 & Hl3 & Ho); cbn in *; [|split; [by eapply kept_trans|done]].
    destruct Ho as (t & -> & -> & Hd3 & Hf3 & Hg3 & Hc3). apply stepped_spec.
    split; [by eapply kept_trans|]. intros step [= <-]. split; [done|]. cbn. unfold maintained. rewrite Hd3, Hl3, Hf3, Hg3.
    repeat apply conj; try done. by apply deadline_ahead.
Qed.

Lemma maintain_core_spec owner now s w :
  now < DURATION_MAX → svc_inv s w → is_Some (vs_owner s) → is_Some (vs_next_liveness_at s) →
  swp (maintain_core config owner now (is_due (vs_restart_due_at s) now) (is_due (vs_next_liveness_at s) now) s)
    (maintenance_post s now w) w.
Proof.
  intros Hnow Hi Hown Hsome. unfold maintain_core.
  set (restart_is_due := is_due (vs_restart_due_at s) now). set (liveness_is_due := is_due _ now).
  apply wpc_st_bind. apply (wpc_mono _ _ _ (λ x w', w' = w ∧ kept s x.2 w w ∧ vs_restart_due_at x.2 = vs_restart_due_at s ∧
                                                   ahead now (vs_next_liveness_at x.2))).
  2: { destruct liveness_is_due eqn:Hl.
       - apply wpc_st_modify. cbn. repeat apply conj; [done| |done|by apply deadline_ahead]. split; [by apply inv_liveness|done..].
       - apply wpc_st_ret. cbn. repeat apply conj; [done|by split|done|by apply due_ahead]. }
  intros [[] s0] w0 (-> & Hk0 & Hd0 & Hl0). cbn in *. pose proof (ke_inv _ _ _ _ Hk0) as Hi0.
  apply wpc_st_bind, wpc_st_get. cbn. apply wpc_st_try.
  apply (wpc_mono _ _ _ (λ x w', kept s x.2 w w' ∧ same_policy s0 x.2 ∧
                          (x.1 = Ok tt → restart_is_due || liveness_is_due = true → cleanup_is_pending x.2 = false))).
  2: { destruct (_ && _) eqn:Hb.
       - eapply wpc_mono; [|by apply cleanup_pending_spec]; cbv beta. intros [x s1] w1 (Hi1 & Hs1 & Hr1 & Hg1 & _ & _ & Hp1).
         cbn in *. split; [|auto]. eapply kept_trans; [exact Hk0|]. split; [done|apply Hs1|done|lia].
       - apply wpc_st_ret. cbn. split; [done|]. split; [done|]. intros _ Ho. rewrite Ho in Hb. done. }
  intros [[[]|e] s1] w1 (Hk1 & Hs1 & Hp1); cbn [fst snd] in *; [|by split].
  apply maintain_settled_spec; [done|apply Hk1|done| | | |auto].
  - by rewrite (ke_owner _ _ _ _ Hk1).
  - by rewrite (sp_liveness _ _ Hs1).
  - by rewrite (sp_due _ _ Hs1), Hd0.
Qed.

(** ** The methods *)

(** What every method leaves. *)
Record sound (s s' : ServiceState) (w w' : SvcWorld) : Prop := {
  so_inv : svc_inv s' w';
  so_running : sw_running w' = sw_running w;
  so_monotone : vs_owner_generation s ≤ vs_owner_generation s';
}.
(** The process of the owner is one that keeps running. *)
Definition owner_runs (s : ServiceState) (w : SvcWorld) : Prop :=
  ∃ o, vs_owner s = Some o ∧ (so_supervisor_pid o, so_supervisor_start_identity o) ∈ sw_running w.

Lemma kept_sound s s' w w' : kept s s' w w' → sound s s' w w'.
Proof. by intros []. Qed.

Lemma maintenance_spec now s w :
  now < DURATION_MAX → svc_inv s w →
  swp (maintenance_locked config now s)
    (λ x w', sound s x.2 w w' ∧ (owner_runs s w → vs_owner x.2 = vs_owner s) ∧
       (∀ step, x.1 = Ok step →
          sms_next_deadline step = sms_next_deadline (maintenance_result x.2 (sms_outcome step)) ∧
          maintained now (sms_outcome step) x.2)) w.
Proof.
  intros Hnow Hi. apply wpc_st_bind, wpc_st_modify. cbn.
  set (s0 := match vs_next_liveness_at s with Some _ => s | None => _ end).
  assert (kept s s0 w w ∧ is_Some (vs_next_liveness_at s0)) as [Hk0 Hlive0].
  { unfold s0. destruct (vs_next_liveness_at s) eqn:Hl; [rewrite Hl; by split|]. by split; [split; [apply inv_liveness|..]|]. }
  pose proof (ke_inv _ _ _ _ Hk0) as Hi0. apply wpc_st_bind, wpc_st_get. cbn. destruct (vs_owner s0) as [owner|] eqn:Ho.
  2: { apply wpc_st_bind, wpc_st_modify, stepped_spec. cbn. pose proof (kept_sound _ _ _ _ Hk0) as [].
       split; [split; [by apply inv_liveness|done..]|]. split; [intros _; apply Hk0|]. intros step [= <-]. split; [done|]. cbn.
       unfold maintained. cbn. rewrite Ho. assert (vs_restart_due_at s0 = None) as ->.
       { destruct (vs_restart_due_at s0) eqn:Hd; [|done].
         destruct (po_due _ (iv_policy _ _ Hi0)) as (_ & _ & _ & Hs); [by rewrite Hd|]. rewrite Ho in Hs. by destruct Hs. }
       repeat apply conj; try done; [by apply deadline_ahead|]. by apply (po_owner _ (iv_policy _ _ Hi0)). }
  apply wpc_st_bind, wpc_st_get. cbn. apply wpc_st_bind, wpc_st_get. cbn.
  assert (∀ w1, shrinks w w1 →
    swp (maintain_core config owner now (is_due (vs_restart_due_at s0) now) (is_due (vs_next_liveness_at s0) now) s0)
      (λ x w', sound s x.2 w w' ∧ (owner_runs s w → vs_owner x.2 = vs_owner s) ∧
       (∀ step, x.1 = Ok step →
          sms_next_deadline step = sms_next_deadline (maintenance_result x.2 (sms_outcome step)) ∧
          maintained now (sms_outcome step) x.2)) w1) as Hmain.
  { intros w1 H1. assert (svc_inv s0 w1) as Hi1 by (by eapply inv_shrinks).
    eapply wpc_mono; [|by apply maintain_core_spec; [..|rewrite Ho|]]; cbv beta. intros [x s2] w2 [Hk2 Hok]. cbn in *.
    assert (kept s s2 w w2) as Hk by (eapply kept_trans; [exact Hk0|]; eapply kept_trans; [by apply kept_shrinks|done]).
    split; [by apply kept_sound|]. split; [intros _; apply Hk|done]. }
  destruct (_ || _); [|by apply Hmain]. apply wpc_st_try, wpc_st_map_err, wpc_st_call; [done|].
  intros [identity|e] w1 H1; cbn in H1 |- *; destruct H1 as [H1 Hid].
  2: { assert (kept s s0 w w1) as Hk by (eapply kept_trans; [exact Hk0|by apply kept_shrinks]).
       split; [by apply kept_sound|]. split; [intros _; apply Hk|done]. }
  case_bool_decide as Hsame; [by apply Hmain|]. cbn. apply wpc_st_try.
  assert (¬ owner_runs s w) as Hdead.
  { intros (o & Hos & Hin). rewrite <-(ke_owner _ _ _ _ Hk0), Ho in Hos. injection Hos as <-.
    by apply Hsame, Hid. }
  eapply wpc_mono; [|apply cleanup_owner_spec; by eapply inv_shrinks]; cbv beta.
  intros [[[]|e] s2] w2 (Hi2 & Hr2 & Hg2 & Hres); cbn in *.
  2: { split; [|by split]. split; [done|rewrite Hr2; apply H1|]. rewrite Hg2. apply Hk0. }
  destruct Hres as (Ho2 & Hc2 & Hb2 & _). apply wpc_st_bind, wpc_st_modify, stepped_spec. cbn.
  split; [split; [by apply inv_liveness| |cbn; rewrite Hg2; apply Hk0]; rewrite Hr2; apply H1|].
  split; [done|]. intros step [= <-]. split; [done|]. cbn. unfold maintained. cbn. rewrite Ho2, Hc2.
  repeat apply conj; try done; [|by apply deadline_ahead]. destruct (vs_restart_due_at s2) eqn:Hd; [|done].
  destruct (po_due _ (iv_policy _ _ Hi2)) as (_ & _ & Hs & _); [by rewrite Hd|]. rewrite Hb2 in Hs. by destruct Hs.
Qed.

(** A caller with the proof of the session may go on; another learns nothing and changes nothing. *)
Lemma authenticate_spec {A} proof (k : ServiceOwner → svc (result A CoreRuntimeError)) s w Q :
  (∀ owner, vs_owner s = Some owner → so_proof owner = proof → swp (k owner s) Q w) →
  (∀ e, cre_kind e = KindAuthentication → Q (Err e, s) w) →
  swp ((try& owner := authenticate proof in k owner) s) Q w.
Proof.
  intros Hk HQ. apply wpc_st_try, wpc_st_get. cbn. unfold authenticated_owner.
  destruct (vs_owner s) as [owner|] eqn:Ho; [case_bool_decide|]; [by apply Hk|by apply HQ..].
Qed.

(** [m] is sound, and without the proof of the session it only refuses. *)
Definition authentic {A} (proof : OwnerSessionProof) (m : svc (result A CoreRuntimeError)) : Prop := ∀ s w,
  svc_inv s w →
  swp (m s) (λ x w', sound s x.2 w w' ∧
    ((∀ o, vs_owner s = Some o → so_proof o ≠ proof) → x.2 = s ∧ ∃ e, x.1 = Err e ∧ cre_kind e = KindAuthentication)) w.

Lemma authentic_intro {A} proof (k : ServiceOwner → svc (result A CoreRuntimeError)) :
  (∀ owner s w, svc_inv s w → vs_owner s = Some owner → swp (k owner s) (λ x w', sound s x.2 w w') w) →
  authentic proof (try& owner := authenticate proof in k owner).
Proof.
  intros Hk s w Hi. apply authenticate_spec.
  - intros owner Ho Hp. eapply wpc_mono; [|by apply Hk]; cbv beta. intros x w' Hs. split; [done|].
    intros Hne. by destruct (Hne owner).
  - intros e He. cbn. split; [by split|]. intros _. split; [done|by exists e].
Qed.

Lemma close_spec proof : authentic proof (do& authenticate proof in cleanup_owner config).
Proof.
  apply authentic_intro. intros owner s w Hi Ho. eapply wpc_mono; [|by apply cleanup_owner_spec]; cbv beta.
  intros x w' (Hi' & Hr & Hg & _). split; [done|done|lia].
Qed.

Lemma exit_spec proof exited now : authentic proof (exit_locked config proof exited now).
Proof.
  apply authentic_intro. intros _ s w Hi _. apply wpc_st_bind, wpc_st_get. cbn.
  assert (∀ w', shrinks w w' → sound s s w w') as Hnone by (intros; by apply kept_sound, kept_shrinks).
  destruct (vs_managed_core s) as [[r|r]|] eqn:Hc; [|apply wpc_st_ret; by apply Hnone..].
  destruct (_ || _); [apply wpc_st_ret; by apply Hnone|]. apply wpc_st_try, wpc_st_lift. use live_spec.
  intros [[]|e] w1 [H1 Hdead]; cbn; [apply wpc_st_ret; by apply Hnone| |by apply Hnone].
  eapply wpc_mono; [|apply core_exited_spec; [by eapply inv_shrinks|done|by apply Hdead]]; cbv beta.
  intros x w2 [Hk _]. apply kept_sound. eapply kept_trans; [by apply kept_shrinks|done].
Qed.

Lemma stop_spec proof : authentic proof (stop_locked config proof).
Proof.
  apply authentic_intro. intros _ s w Hi _. apply wpc_st_bind, wpc_st_get. cbn.
  destruct (vs_managed_core s) as [core|] eqn:Hc; [|by apply wpc_st_ret]. apply wpc_st_try.
  apply (wpc_mono _ _ _ (λ x w', x.2 = s ∧ shrinks w w')).
  2: { destruct core; [apply wpc_st_lift; use silent_require; done|by apply wpc_st_ret]. }
  intros [[[]|e] s1] w1 [Hs1 H1]; cbn in Hs1 |- *; subst s1; [|by apply kept_sound, kept_shrinks].
  apply wpc_st_try. eapply wpc_mono; [|apply stop_record_spec, Hi]; cbv beta.
  intros [[[]|e] s2] w2 (Hq & Hl & H2 & Hgone); cbn in *.
  2: { apply kept_sound, kept_quiet; [done..|by etrans]. }
  apply wpc_st_bind, wpc_st_modify, wpc_st_ret. cbn.
  assert (kept s s2 w w2) as [[[] Hpol Hprocs] Ho Hr Hg] by (apply kept_quiet; [done..|by etrans]).
  split; [|done|done]. split; [by split|split; cbn; [by intros []|by intros []|done]|].
  intros q Hin. pose proof (Hprocs q Hin) as Hq'. rewrite (core_key_owned s) in Hq' by apply Hq.
  unfold owned_ids in Hq'. rewrite Hc in Hq'. apply list_elem_of_singleton in Hq' as ->. by destruct (Hgone eq_refl).
Qed.

Lemma status_spec proof : authentic proof (status_locked proof).
Proof.
  apply authentic_intro. intros owner s w Hi _. apply wpc_st_bind, wpc_st_get. cbn. apply wpc_st_try.
  apply (wpc_mono _ _ _ (λ x w', x.2 = s ∧ shrinks w w')).
  2: { destruct (vs_managed_core s) as [[r|r]|]; try by apply wpc_st_ret. apply wpc_st_try, wpc_st_lift. use silent_live.
       by intros [[]|e] w1 H1. }
  intros [[seen|e] s1] w1 [Hs1 H1]; cbn in Hs1 |- *; subst s1; [|by apply kept_sound, kept_shrinks].
  apply wpc_st_bind, wpc_st_call; [done|]. intros checked w2 H2. cbn in H2 |- *.
  assert (sound s s w w2) by (apply kept_sound, kept_shrinks; [done|by etrans]).
  destruct (tun_status checked); [by apply wpc_st_get|by apply wpc_st_ret].
Qed.

Lemma logs_spec proof after limit : authentic proof (logs_locked config proof after limit).
Proof.
  apply authentic_intro. intros owner s w Hi _. apply wpc_st_bind, wpc_st_get. cbn. apply wpc_st_try.
  apply (wpc_mono _ _ _ (λ x w', kept s x.2 w w')).
  2: { destruct (vs_managed_core s) as [[r|r]|]; try by apply wpc_st_ret. apply wpc_st_try, wpc_st_lift. use silent_require.
       intros [[]|e] w1 H1; cbn; [|by apply kept_shrinks]. eapply wpc_mono; [|apply calm_drain, Hi]; cbv beta.
       intros x w2 (Hq & Hl & H2). apply kept_quiet; [done..|by etrans]. }
  intros [[[]|e] s1] w1 Hk; cbn in *; [apply wpc_st_get|]; by apply kept_sound.
Qed.

(** A part that does not touch the state. *)
Definition hushed {A} (m : svc A) : Prop := ∀ s w, swp (m s) (λ x w', x.2 = s ∧ shrinks w w') w.
Lemma hushed_lift {A} (p : vprog A) : silent p → hushed (st_lift p).
Proof. intros Hp s w. apply wpc_st_lift. by use Hp. Qed.
Lemma hushed_map_err {A E F} (f : E → F) (m : svc (result A E)) : hushed m → hushed (st_map_err f m).
Proof. intros Hm s w. apply wpc_st_map_err. by use Hm. Qed.
Lemma try_hushed {A B E} (m : svc (result A E)) (k : A → svc (result B E)) s w Q :
  hushed m → (∀ x w', shrinks w w' → swp (k x s) Q w') → (∀ e w', shrinks w w' → Q (Err e, s) w') →
  swp (st_try m k s) Q w.
Proof.
  intros Hm Hk HQ. apply wpc_st_try. use Hm. intros [[x|e] s1] w1 [Hs H1]; cbn in *; subst s1; [by apply Hk|by apply HQ].
Qed.

Lemma replace_spec proof s w :
  svc_inv s w → cleanup_is_pending s = false →
  swp (replace_active_core config proof s)
    (λ x w', kept s x.2 w w' ∧ (x.1 = Ok tt → vs_managed_core x.2 = None)) w.
Proof.
  intros Hi Hp. unfold replace_active_core. apply wpc_st_bind, wpc_st_get. cbn.
  destruct (vs_managed_core s) as [[r|r]|] eqn:Hc; [|unfold cleanup_is_pending in Hp; by rewrite Hc in Hp|by apply wpc_st_ret].
  apply try_hushed; [apply hushed_lift, silent_require| |intros e w1 H1; split; [by apply kept_shrinks|done]].
  intros _ w1 H1. apply wpc_st_bind, wpc_st_modify. cbn.
  assert (svc_inv s w1) as Hi1 by (by eapply inv_shrinks).
  set (s1 := put_managed_core (Some (CoreCleanupPending r)) s).
  assert (is_Some (vs_owner s)) as Hown.
  { destruct (vs_owner s) eqn:Ho; [done|]. apply (po_owner _ (iv_policy _ _ Hi)) in Ho. by rewrite Hc in Ho. }
  assert (svc_inv s1 w1) as His1.
  { destruct Hi1 as [[] Hpol Hprocs]. split; [by split|by eapply policy_idle|]. unfold owned_ids in Hprocs |- *.
    by rewrite Hc in Hprocs. }
  apply wpc_st_try. eapply wpc_mono; [|by apply cleanup_pending_spec]; cbv beta.
  intros [[[]|e] s2] w2 (Hi2 & Hsame & Hr & Hg & Hidle & _ & Hok); cbn in *.
  - assert (kept s s2 w w2) as Hk by (split; [done|apply Hsame|rewrite Hr; apply H1|lia]).
    apply wpc_st_lift. use silent_ensure. intros x w3 H3. cbn.
    split; [eapply kept_trans; [exact Hk|by apply kept_shrinks]|]. intros _. apply idle_none; [by apply Hidle|by apply Hok].
  - split; [|done]. split; [done|apply Hsame|rewrite Hr; apply H1|lia].
Qed.

Lemma svc_apply_spec proof bundle : authentic proof (apply_locked config proof bundle).
Proof.
  apply authentic_intro. intros owner s w Hi Ho. apply wpc_st_try. eapply wpc_mono; [|by apply cleanup_pending_spec]; cbv beta.
  intros [x s1] w1 (Hi1 & Hs1 & Hr1 & Hg1 & _ & _ & Hp1). cbn in *.
  assert (kept s s1 w w1) as Hk1 by (split; [done|apply Hs1|done|lia]). destruct x as [[]|e]; [|by apply kept_sound].
  assert (∀ e w', shrinks w1 w' → (λ x w', sound s x.2 w w') (@Err ApplyCandidateResult CoreRuntimeError e, s1) w') as HF.
  { intros e w' H'. cbn. eapply kept_sound, kept_trans; [exact Hk1|by apply kept_shrinks]. }
  apply try_hushed; [apply hushed_lift, silent_ensure| |exact HF]. intros _ w2 H2.
  apply try_hushed; [apply hushed_lift, silent_lookcall; exact I| |intros e w3 H3; apply HF; by etrans]. intros verified w3 H3.
  apply try_hushed; [apply hushed_lift, silent_ensure| |intros e w4 H4; apply HF; by do 2 etrans]. intros _ w4 H4.
  apply try_hushed; [apply hushed_map_err, hushed_lift, silent_lookcall; exact I| |intros e w5 H5; apply HF; by do 3 etrans].
  intros _ w5 H5.
  apply try_hushed; [apply hushed_lift, silent_ensure| |intros e w6 H6; apply HF; by do 4 etrans]. intros _ w6 H6.
  assert (shrinks w1 w6) as H16 by (by do 4 etrans). clear w2 w3 w4 w5 H2 H3 H4 H5 H6.
  assert (kept s s1 w w6) as Hk6 by (eapply kept_trans; [exact Hk1|by apply kept_shrinks]).
  apply wpc_st_try. eapply wpc_mono; [|apply replace_spec; [apply Hk6|by apply Hp1]]; cbv beta.
  intros [x s2] w2 [Hk2 Hc2]. cbn in *. assert (kept s s2 w w2) as Hk by (by eapply kept_trans).
  destruct x as [[]|e]; [|by apply kept_sound]. specialize (Hc2 eq_refl).
  apply wpc_st_try. eapply wpc_mono; [|apply spawn_spec; [apply Hk2|done|by rewrite (ke_owner _ _ _ _ Hk), Ho]]; cbv beta.
  unfold spawned_post. intros [[r|e] s3] w3 H3; cbn in *.
  2: { eapply kept_sound, kept_trans; [exact Hk|by apply kept_failed]. }
  destruct H3 as (Hu & Hsame & Hr3 & Hg3 & _). apply wpc_st_bind, wpc_st_lift. use silent_guard.
  intros [guard|e] w4 H4; cbn; pose proof (uncommitted_shrinks _ _ _ _ Hu H4) as Hu4.
  - unfold commit_apply. apply wpc_st_bind, wpc_st_modify, wpc_st_bind, wpc_st_call; [done|]. intros _u w5 H5. apply wpc_st_ret. cbn.
    destruct Hk. split; [apply (commit_inv r s3); try done; [by eapply uncommitted_shrinks|apply Hu]| |cbn; lia].
    rewrite (sh_running _ _ H5), (sh_running _ _ H4). congruence.
  - eapply wpc_mono; [|by apply abandon_spec]; cbv beta. intros [y s5] w5 [_ Hf]. cbn in *.
    destruct Hk, Hf. split; [done| |lia]. rewrite fa_running0, (sh_running _ _ H4). congruence.
Qed.

(** A session is the caller's own, or a new one with a number no session had. *)
Definition opened (request : OwnerSessionRequest) (s : ServiceState) (w : SvcWorld)
    (x : result OwnerSession CoreRuntimeError * ServiceState) (w' : SvcWorld) : Prop :=
  sound s x.2 w w' ∧ (owner_runs s w → x.2 = s) ∧
  (∀ session, x.1 = Ok session → ∃ owner,
     vs_owner x.2 = Some owner ∧ session = session_of config owner ∧
     ((vs_owner s = Some owner ∧ same_owner owner request = true ∧ x.2 = s) ∨
      (¬ owner_runs s w ∧ vs_owner_generation s < so_generation owner ∧
       so_generation owner = vs_owner_generation x.2 ∧ vs_managed_core x.2 = None ∧ sw_procs w' = []))).

Lemma no_owned s w : svc_inv s w → vs_managed_core s = None → sw_procs w = [].
Proof.
  intros Hi Hc. apply elem_of_nil_inv. intros q Hq%(iv_procs _ _ Hi). unfold owned_ids in Hq. rewrite Hc in Hq.
  by apply not_elem_of_nil in Hq.
Qed.

Lemma admit_spec request s w s1 w1 :
  sound s s1 w w1 → vs_managed_core s1 = None → ¬ owner_runs s w →
  swp (admit_owner config control_root request s1) (opened request s w) w1.
Proof.
  intros [Hi1 Hr1 Hg1] Hc1 Hdead. unfold admit_owner. apply wpc_st_try.
  eapply wpc_mono; [|apply reserve_owner_spec]; cbv beta. intros [x s2] w2 [Hres Hok]. cbn in *.
  pose proof (rs_raised _ _ _ _ Hres) as Hra. pose proof (reserved_inv _ _ _ _ Hi1 Hres) as Hi2.
  assert (∀ w', shrinks w2 w' → sound s s2 w w') as Hs2.
  { intros w' H'. destruct Hra, Hres. split; [by eapply inv_shrinks|rewrite (sh_running _ _ H'); congruence|lia]. }
  assert (∀ e w', shrinks w2 w' → opened request s w (Err e, s2) w') as HF.
  { intros e w' H'. split; [by apply Hs2|]. by split. }
  destruct x as [g|e]; [|by apply HF]. destruct (Hok g eq_refl) as (-> & Hlt & _). unfold generate_secret.
  apply try_hushed; [apply hushed_map_err, hushed_lift, silent_lookcall; exact I| |exact HF]. intros a w3 H3.
  apply try_hushed; [apply hushed_map_err, hushed_lift, silent_lookcall; exact I| |intros e w4 H4; apply HF; by etrans].
  intros b w4 H4.
  apply try_hushed; [apply hushed_map_err, hushed_lift, silent_lookcall; exact I| |intros e w5 H5; apply HF; by do 2 etrans].
  intros c w5 H5. destruct (_ || _); [apply wpc_st_ret; apply HF; by do 2 etrans|].
  apply try_hushed; [apply hushed_lift, silent_reset| |intros e w6 H6; apply HF; by do 3 etrans]. intros [] w6 H6.
  apply wpc_st_bind, wpc_st_modify, wpc_st_ret. cbn.
  assert (shrinks w2 w6) as H26 by (by do 3 etrans). pose proof (Hs2 _ H26) as [Hi6 Hr6 Hg6].
  assert (vs_managed_core s2 = None) as Hc2 by (by rewrite (raised_core _ _ Hra)).
  pose proof (no_owned _ _ Hi6 Hc2) as Hnone. destruct Hi6 as [[] Hpol Hprocs].
  split; [split; [split; [by split|split; cbn; [by intros []|by rewrite Hc2; intros []|done]|done]|done|done]|].
  split; [done|]. intros session [= <-]. eexists. split; [done|]. split; [done|]. right. split; [done|]. cbn.
  split; [lia|]. done.
Qed.

Lemma open_locked_spec request s w :
  svc_inv s w → swp (open_owner_locked config control_root request s) (opened request s w) w.
Proof.
  intros Hi. unfold open_owner_locked. apply wpc_st_bind, wpc_st_get. cbn. destruct (vs_owner s) as [owner|] eqn:Ho.
  2: { apply admit_spec; [by split|by apply (po_owner _ (iv_policy _ _ Hi))|]. intros (o & Ho' & _). congruence. }
  destruct (same_owner owner request) eqn:Hsame.
  { apply wpc_st_ret. split; [by split|]. split; [done|]. intros session [= <-]. exists owner. split; [done|]. split; [done|]. by left. }
  apply wpc_st_try, wpc_st_map_err, wpc_st_call; [done|]. intros [identity|e] w1 [H1 Hid]; cbn in *.
  2: { split; [by apply kept_sound, kept_shrinks|]. by split. }
  case_bool_decide as Hrun.
  { apply wpc_st_ret. split; [by apply kept_sound, kept_shrinks|]. by split. }
  assert (¬ owner_runs s w) as Hdead.
  { intros (o & Ho' & Hin). rewrite Ho in Ho'. injection Ho' as <-. by apply Hrun, Hid. }
  apply wpc_st_try. eapply wpc_mono; [|apply cleanup_owner_spec; by eapply inv_shrinks]; cbv beta.
  intros [x s2] w2 (Hi2 & Hr2 & Hg2 & Hres). cbn in *.
  assert (sound s s2 w w2) as Hs2 by (split; [done|rewrite Hr2; apply H1|lia]).
  destruct x as [[]|e]; [|split; [done|]; by split]. destruct Hres as (_ & Hc2 & _). by apply admit_spec.
Qed.

(** ** The public methods *)

Definition svc_start (w : SvcWorld) : Prop := svc_inv (sw_state w) w.

Lemma locked_spec {A} (m : svc (result A CoreRuntimeError)) (Q : result A CoreRuntimeError * ServiceState → SvcWorld → Prop) w :
  svc_start w →
  (∀ w1, shrinks w w1 → svc_inv (sw_state w) w1 → swp (m (sw_state w)) Q w1) →
  (∀ x s w1 w2, Q (x, s) w1 → shrinks (put_sw_state s w1) w2 → Q (x, s) w2) →
  swp (svc_locked m)
    (λ x w', (Q (x, sw_state w') w') ∨ (shrinks w w' ∧ ∃ e, x = Err e ∧ cre_kind e = KindUnavailable)) w.
Proof.
  intros Hi Hm HQ. unfold svc_locked. apply wpc_bind, wpc_call; [done|]. intros [s|e] w1 [H1 Hs]; cbn in *.
  2: { right. split; [done|]. by eexists. }
  rewrite (Hs s eq_refl). apply wpc_bind. eapply wpc_mono; [|apply Hm; [done|by eapply inv_shrinks]]; cbv beta.
  intros [x s2] w2 Hx. apply wpc_bind, wpc_call; [done|]. intros _u w3 H3. cbn in H3 |- *. left.
  rewrite (sh_state _ _ H3). cbn. by eapply HQ.
Qed.
End service.
