(* ===== verification/ServiceSystem.v ===== *)
(** * ServiceSystem: the service under any sequence of requests
    (src/service.rs)

    The public methods in any order, from the state [PrivilegedCoreRuntimeService::new]
    leaves: the invariant holds throughout, a live owner keeps its session, and a
    step of maintenance reports how things are. *)

From S2P Require Import Prelude Text Constants Path Domain Ports Program Mihomo Service ServiceLogs ServiceInvariant.
Local Open Scope Z_scope.

#[local] Arguments wpc : simpl never.
#[local] Arguments lit : simpl never.
#[local] Arguments prog_bind : simpl never.
#[local] Arguments prog_try : simpl never.
#[local] Arguments prog_map_err : simpl never.
#[local] Arguments call : simpl never.

(** ** Requests *)

Inductive SvcOp :=
| OpOpen (request : OwnerSessionRequest)
| OpMetadata (proof : OwnerSessionProof)
| OpSnapshot (proof : OwnerSessionProof)
| OpRevoke (proof : OwnerSessionProof)
| OpClose (proof : OwnerSessionProof)
| OpShutdown
| OpCancel (proof : OwnerSessionProof)
| OpApply (proof : OwnerSessionProof) (bundle : RuntimeBundle)
| OpStatus (proof : OwnerSessionProof)
| OpLogs (proof : OwnerSessionProof) (after_sequence : option Z) (limit : Z)
| OpStop (proof : OwnerSessionProof)
| OpExited (proof : OwnerSessionProof) (exited : CoreExitIdentity) (now : Z)
| OpMaintain (now : Z).

(** The session a request is made for. *)
Definition op_proof (op : SvcOp) : option OwnerSessionProof :=
  match op with
  | OpMetadata p | OpSnapshot p | OpRevoke p | OpClose p | OpCancel p | OpApply p _ | OpStatus p | OpLogs p _ _
  | OpStop p | OpExited p _ _ => Some p
  | OpOpen _ | OpShutdown | OpMaintain _ => None
  end.

(** The clock of the service has not run out. *)
Definition op_ok (op : SvcOp) : Prop := match op with OpMaintain now => now < DURATION_MAX | _ => True end.

Definition outcome {A} (r : result A CoreRuntimeError) : option CoreRuntimeErrorKind :=
  match r with Ok _ => None | Err e => Some (cre_kind e) end.

Section requests.
Context (config : PrivilegedServiceConfig) (control_root : path).

Definition svc_exec (op : SvcOp) : vprog (option CoreRuntimeErrorKind) :=
  match op with
  | OpOpen request => prog_bind (open_owner_session config control_root request) (λ r, Ret (outcome r))
  | OpMetadata p => prog_bind (owner_metadata p) (λ r, Ret (outcome r))
  | OpSnapshot p => prog_bind (snapshot p) (λ r, Ret (outcome r))
  | OpRevoke p => prog_bind (revoke_owner config p) (λ r, Ret (outcome r))
  | OpClose p => prog_bind (close_owner_session config p) (λ r, Ret (outcome r))
  | OpShutdown => prog_bind (shutdown_service config) (λ r, Ret (outcome r))
  | OpCancel p => prog_bind (cancel_pending_apply p) (λ r, Ret (outcome r))
  | OpApply p b => prog_bind (apply_candidate config p b) (λ r, Ret (outcome r))
  | OpStatus p => prog_bind (status p) (λ r, Ret (outcome r))
  | OpLogs p a n => prog_bind (logs config p a n) (λ r, Ret (outcome r))
  | OpStop p => prog_bind (stop config p) (λ r, Ret (outcome r))
  | OpExited p e now => prog_bind (handle_unexpected_exit_at config p e now) (λ r, Ret (outcome r))
  | OpMaintain now => prog_bind (maintenance_step config now) (λ r, Ret (outcome r))
  end.

(** One request after another; the mutex makes it so. *)
Inductive serves : list SvcOp → SvcWorld → SvcWorld → Prop :=
| serves_nil w : serves [] w w
| serves_cons op ops w r w1 w' :
    op_ok op → cruns (@svc_post) (svc_exec op) w r w1 → serves ops w1 w' → serves (op :: ops) w w'.

(** A service that was just created, on a machine where no core of an earlier one is left. *)
Definition started (w : SvcWorld) : Prop := ∃ w0 s w1,
  sw_procs w0 = [] ∧ sw_spawned w0 ≤ sgs_core_instance_generation (sw_disk w0) ∧
  cruns (@svc_post) (service_new config) w0 (Ok s) w1 ∧ w = put_sw_state s w1.

Context (Hcapacity : 0 ≤ psc_log_capacity config) (Hline : 0 ≤ psc_max_log_line_bytes config).
Context (Hpositive : psc_log_capacity config ≠ 0).

Lemma svc_started_inv w : started w → svc_start config w.
Proof.
  intros (w0 & s & w1 & Hnone & Hle & Hrun & ->). unfold svc_start. cbn.
  assert (swp (service_new config)
    (λ r w', ∀ s, r = Ok s → sw_procs w' ⊆ sw_procs w0 ∧ sw_spawned w' = sw_spawned w0 ∧
       sgs_core_instance_generation (sw_disk w0) ≤ sgs_core_instance_generation (sw_disk w') ∧
       s = MkServiceState (sgs_owner_generation (sw_disk w')) None (sgs_core_instance_generation (sw_disk w'))
             None None false 0 None None None None [] 0 1 0) w0) as Hnew.
  { unfold service_new. destruct (_ || _); [done|].
    apply wpc_try, wpc_call; [done|]. intros [[]|e] w2 H2; [|done]. cbn in H2.
    apply wpc_try, wpc_call; [done|]. intros [[]|e] w3 H3; [|done]. cbn in H3. destruct H3 as [H3 Hd3].
    apply wpc_bind, wpc_try, wpc_call; [done|]. intros [[]|e] w4 H4; cbn in H4.
    - apply wpc_call; [done|]. intros loaded w5 [H5 Hg]. apply wpc_bind, wpc_call; [done|]. intros _u w6 H6. cbn in H6.
      destruct loaded as [g|e]; [|done]. intros s' [= <-]. rewrite (Hg g eq_refl).
      destruct H2, H3, H4, H5, H6, Hd3. cbn in *. repeat apply conj; [set_solver|congruence| |by rewrite sh_disk3, sh_disk2].
      rewrite sh_disk3, sh_disk2, sh_disk1, <-sh_disk. congruence || lia.
    - apply wpc_bind, wpc_call; [done|]. done. }
  destruct (wpc_sound _ _ _ _ _ _ _ Hnew Hrun s eq_refl) as (Hp & Hs & Hd & ->). rewrite Hnone in Hp.
  split; [split; cbn; [lia|lia| |done]|split; cbn; [by intros []|by intros []|done]|done].
  split; cbn; first [done|constructor|unfold zlen; cbn; lia].
Qed.

Lemma capacity_positive : 1 ≤ psc_log_capacity config.
Proof. lia. Qed.

(** A method under the mutex, when its body is sound. *)
Lemma locked_sound {A} (m : svc (result A CoreRuntimeError)) (R : result A CoreRuntimeError → ServiceState → Prop) w :
  svc_start config w →
  (∀ w1, shrinks w w1 → svc_inv config (sw_state w) w1 →
     swp (m (sw_state w)) (λ x w', sound config (sw_state w) x.2 w1 w' ∧ R x.1 x.2) w1) →
  swp (svc_locked m)
    (λ x w', svc_start config w' ∧ sw_running w' = sw_running w ∧
             (R x (sw_state w') ∨ (sw_state w' = sw_state w ∧ outcome x = Some KindUnavailable))) w.
Proof.
  intros Hi Hm.
  eapply wpc_mono; [|apply (locked_spec _ _ (λ x w', svc_inv config x.2 w' ∧ sw_running w' = sw_running w ∧ R x.1 x.2)
                             w Hi)]; cbv beta.
  - intros x w' [(Hi' & Hr & HR)|(Hs & e & -> & He)]; [by auto|].
    split; [|split; [apply Hs|right; split; [apply Hs|by cbn; rewrite He]]]. unfold svc_start. rewrite (sh_state _ _ Hs).
    by eapply inv_shrinks.
  - intros w1 H1 Hi1. eapply wpc_mono; [|by apply Hm]; cbv beta. intros x w' [[Hi' Hr _] HR].
    split; [done|]. split; [|done]. rewrite Hr. apply H1.
  - cbn. intros x s w1 w2 (Hi1 & Hr1 & HR) H2. split; [|split; [|done]].
    + apply (inv_shrinks config s (put_sw_state s w1)); [|done]. by destruct Hi1 as [[] ? ?].
    + rewrite (sh_running _ _ H2). done.
Qed.

(** What a request leaves: the invariant, and the state as it was if it was not the owner who asked. *)
Definition answered (op : SvcOp) (w : SvcWorld) (r : option CoreRuntimeErrorKind) (w' : SvcWorld) : Prop :=
  svc_start config w' ∧ sw_running w' = sw_running w ∧
  match op with
  | OpOpen request => owner_runs (sw_state w) w → sw_state w' = sw_state w ∧
      (r = None → ∃ o, vs_owner (sw_state w) = Some o ∧ same_owner o request = true)
  | OpMaintain _ => owner_runs (sw_state w) w → vs_owner (sw_state w') = vs_owner (sw_state w)
  | OpCancel _ => sw_state w' = sw_state w
  | _ => ∀ p, op_proof op = Some p → (∀ o, vs_owner (sw_state w) = Some o → so_proof o ≠ p) →
      sw_state w' = sw_state w ∧ (r = Some KindAuthentication ∨ r = Some KindUnavailable)
  end.

Abbreviation answers op := (∀ w, svc_start config w → op_ok op → swp (svc_exec op) (answered op w) w).

Lemma outcome_swp {A} (p : vprog (result A CoreRuntimeError)) (Q : option CoreRuntimeErrorKind → SvcWorld → Prop) w :
  swp p (λ x w', Q (outcome x) w') w → swp (prog_bind p (λ r, Ret (outcome r))) Q w.
Proof. intros Hp. by apply wpc_bind. Qed.

Lemma wrong_proof s p : (∀ o, vs_owner s = Some o → so_proof o ≠ p) →
  ∃ e, authenticated_owner s p = Err e ∧ cre_kind e = KindAuthentication.
Proof.
  intros Hne. unfold authenticated_owner. destruct (vs_owner s) as [o|]; [|by eexists].
  rewrite bool_decide_false by (by apply Hne). by eexists.
Qed.

(** Requests whose body is [authentic]. *)
Lemma authentic_answers {A} (m : svc (result A CoreRuntimeError)) p w (Q : option CoreRuntimeErrorKind → SvcWorld → Prop) :
  svc_start config w → authentic config p m →
  (∀ r w', svc_start config w' → sw_running w' = sw_running w →
     ((∀ o, vs_owner (sw_state w) = Some o → so_proof o ≠ p) →
        sw_state w' = sw_state w ∧ (r = Some KindAuthentication ∨ r = Some KindUnavailable)) → Q r w') →
  swp (prog_bind (svc_locked m) (λ r, Ret (outcome r))) Q w.
Proof.
  intros Hi Hm HQ. apply outcome_swp.
  eapply wpc_mono; [|apply (locked_sound m (λ x s, (∀ o, vs_owner (sw_state w) = Some o → so_proof o ≠ p) →
    s = sw_state w ∧ ∃ e, x = Err e ∧ cre_kind e = KindAuthentication) w Hi)]; cbv beta.
  - intros x w' (Hi' & Hr & HR). apply HQ; [done..|]. intros Hne. destruct HR as [HR|[Hs Hx]]; [|by auto].
    destruct (HR Hne) as (Hs & e & -> & He). split; [done|]. left. cbn. by rewrite He.
  - intros w1 H1 Hi1. by apply Hm.
Qed.

(** Requests that only read. *)
Lemma authentic_read {A} (f : ServiceState → result A CoreRuntimeError) p :
  (∀ s e, authenticated_owner s p = Err e → f s = Err e) → authentic config p (st_get f).
Proof.
  intros Hf s w Hi. apply wpc_st_get. cbn. split; [by split|]. intros Hne. split; [done|].
  destruct (wrong_proof s p Hne) as (e & He & Hk). exists e. split; [by apply Hf|done].
Qed.

Lemma start_shrinks w w' : svc_start config w → shrinks w w' → svc_start config w'.
Proof. intros Hi Hs. unfold svc_start. rewrite (sh_state _ _ Hs). by eapply inv_shrinks. Qed.

Lemma owner_runs_shrinks s w w' : shrinks w w' → owner_runs s w ↔ owner_runs s w'.
Proof. intros Hs. unfold owner_runs. by rewrite (sh_running _ _ Hs). Qed.

Lemma open_answers request : answers (OpOpen request).
Proof.
  intros w Hi _. apply outcome_swp. unfold open_owner_session.
  assert (∀ w' e, shrinks w w' → answered (OpOpen request) w (@outcome OwnerSession (Err e)) w') as Hrefuse.
  { intros w' e H'. split; [by eapply start_shrinks|]. split; [apply H'|]. intros _. split; [apply H'|done]. }
  destruct (negb _); [by apply Hrefuse|]. destruct (_ || _); [by apply Hrefuse|].
  apply wpc_try, wpc_map_err, wpc_call; [done|]. intros [[]|e] w1 H1; cbn in H1; [|by apply Hrefuse]. cbn [map_err].
  eapply wpc_mono; [|apply (locked_sound _ (λ x s, owner_runs (sw_state w1) w1 → s = sw_state w1 ∧
    (∀ session, x = Ok session → ∃ o, vs_owner (sw_state w1) = Some o ∧ same_owner o request = true))
    w1 (start_shrinks _ _ Hi H1))]; cbv beta.
  - intros x w2 (Hi2 & Hr2 & HR). split; [done|]. split; [rewrite Hr2; apply H1|].
    rewrite (owner_runs_shrinks _ _ _ H1), <-(sh_state _ _ H1). intros Ho.
    destruct HR as [HR|[Hs Hx]]; [|split; [done|by rewrite Hx]]. destruct (HR Ho) as [Hs Hok]. split; [done|].
    destruct x as [session|e]; [by eauto|done].
  - intros w2 H2 Hi2. eapply wpc_mono; [|by apply open_locked_spec, Hi2; [apply capacity_positive|]]; cbv beta.
    intros [x s] w3 (Hs & Hsame & Hok). cbn in *. split; [done|].
    rewrite (owner_runs_shrinks _ _ _ H2). intros Ho. split; [by apply Hsame|]. intros session ->.
    destruct (Hok session eq_refl) as (o & Ho' & _ & [(Ho1 & Hsm & _)|(Hdead & _)]); [by exists o|done].
Qed.

Lemma maintain_answers now : answers (OpMaintain now).
Proof.
  intros w Hi Hnow. apply outcome_swp.
  eapply wpc_mono; [|apply (locked_sound _ (λ x s, owner_runs (sw_state w) w → vs_owner s = vs_owner (sw_state w)) w Hi)];
    cbv beta.
  - intros x w' (Hi' & Hr & HR). split; [done|]. split; [done|]. intros Ho. destruct HR as [HR|[-> _]]; [by apply HR|done].
  - intros w1 H1 Hi1. eapply wpc_mono; [|by apply maintenance_spec, Hi1; [apply capacity_positive|..]]; cbv beta.
    intros x w2 (Hs & Ho & _). by rewrite (owner_runs_shrinks _ _ _ H1).
Qed.

Lemma shutdown_answers : answers OpShutdown.
Proof.
  intros w Hi _. apply outcome_swp. eapply wpc_mono; [|apply (locked_sound _ (λ _ _, True) w Hi)]; cbv beta.
  - by intros x w' (Hi' & Hr & _).
  - intros w1 H1 Hi1. eapply wpc_mono; [|by apply cleanup_owner_spec; [apply capacity_positive|..]]; cbv beta.
    intros x w2 (Hi2 & Hr2 & Hg2 & _). split; [|done]. split; [done|done|lia].
Qed.

Lemma exec_answers op : answers op.
Proof.
  pose proof capacity_positive as Hcap.
  destruct op as [request|p|p|p|p| |p|p bundle|p|p after limit|p|p exited now|now]; intros w Hi Hop.
  1: by apply open_answers.
  5: by apply shutdown_answers.
  11: by apply maintain_answers.
  5: { apply outcome_swp. use (silent_cancel p). intros x w' H'. split; [by eapply start_shrinks|]. split; apply H'. }
  all: cbn [svc_exec]; apply (authentic_answers _ p w _ Hi);
    [|intros r w' Hi' Hr Hne; split; [done|]; split; [done|]; intros ? [= <-]; exact Hne].
  - apply authentic_read. intros s e He. by rewrite He.
  - apply authentic_read. intros s e He. by rewrite He.
  - by apply close_spec.
  - by apply close_spec.
  - by apply svc_apply_spec.
  - by apply status_spec.
  - by apply logs_spec.
  - by apply stop_spec.
  - by apply exit_spec.
Qed.

Lemma serves_inv ops w w' : serves ops w w' → svc_start config w → svc_start config w'.
Proof.
  induction 1 as [|op ops w r w1 w' Hop Hr Hs IH]; [done|]. intros Hi.
  destruct (wpc_sound _ _ _ _ _ _ _ (exec_answers op w Hi Hop) Hr) as [Hi1 _]. by apply IH.
Qed.

(** C10: The service never runs two cores at once and never reuses a generation.  Whatever requests it has
    served since it was created, and at whatever call of the next one it is stopped, it starts a core only
    when every core it started before is known to have exited, and with a generation above all those
    used before that is already on disk; the generations on disk never go down; and its state is consistent:
    the processes that may be running are those it owns, restarts are scheduled only for an owner whose core
    is gone and has a bundle to start from, and the log queue keeps its limits. *)
Theorem one_core_at_a_time ops w0 w op :
  started w0 → serves ops w0 w → op_ok op →
  svc_inv config (sw_state w) w ∧ every_call (@svc_post) (@svc_pre) (svc_exec op) w.
Proof.
  intros Hst Hs Hop. assert (svc_start config w) as Hi by (eapply serves_inv; [done|by apply svc_started_inv]).
  split; [done|]. eapply wpc_every_call; [done|]. by apply exec_answers.
Qed.

(** Requests of others than the owner. *)
Definition foreign (o : ServiceOwner) (op : SvcOp) : Prop := op ≠ OpShutdown ∧ op_proof op ≠ Some (so_proof o).

(** What such a request leaves. *)
Definition refused (o : ServiceOwner) (op : SvcOp) (s : ServiceState) (r : option CoreRuntimeErrorKind) (s' : ServiceState) : Prop :=
  match op with
  | OpMaintain _ => vs_owner s' = Some o
  | OpCancel _ => s' = s
  | OpOpen request => s' = s ∧ (r = None → same_owner o request = true)
  | _ => s' = s ∧ (r = Some KindAuthentication ∨ r = Some KindUnavailable)
  end.

Lemma refused_owner o op s r s' : vs_owner s = Some o → refused o op s r s' → vs_owner s' = Some o.
Proof. destruct op; cbn; intros Ho; first [done|by intros ->|by intros [-> _]]. Qed.

Lemma foreign_refused o op w r w' :
  svc_start config w → vs_owner (sw_state w) = Some o → owner_runs (sw_state w) w → foreign o op → op_ok op →
  cruns (@svc_post) (svc_exec op) w r w' →
  svc_start config w' ∧ sw_running w' = sw_running w ∧ refused o op (sw_state w) r (sw_state w').
Proof.
  intros Hi Ho Hrun [Hns Hp] Hop Hr.
  destruct (wpc_sound _ _ _ _ _ _ _ (exec_answers op w Hi Hop) Hr) as (Hi' & Hr' & Hans). split; [done|]. split; [done|].
  assert (∀ p, op_proof op = Some p → ∀ o', vs_owner (sw_state w) = Some o' → so_proof o' ≠ p) as Hne.
  { intros p Hop' o' Ho' Heq. rewrite Ho in Ho'. injection Ho' as <-. by rewrite Hop', Heq in Hp. }
  destruct op as [request|p|p|p|p| |p|p bundle|p|p after limit|p|p exited now|now]; cbn in *; try (by apply (Hans p); [|apply Hne]).
  - destruct (Hans Hrun) as [Hs Hok]. split; [done|]. intros Hnone. destruct (Hok Hnone) as (o' & Ho' & Hsame).
    congruence.
  - done.
  - done.
  - by rewrite Hans.
Qed.

Lemma foreign_serves o ops w w' :
  serves ops w w' → svc_start config w → vs_owner (sw_state w) = Some o →
  (so_supervisor_pid o, so_supervisor_start_identity o) ∈ sw_running w → Forall (foreign o) ops →
  svc_start config w' ∧ vs_owner (sw_state w') = Some o ∧ sw_running w' = sw_running w.
Proof.
  induction 1 as [|op ops w r w1 w' Hop Hr Hs IH]; [done|]. intros Hi Ho Hrun [Hf Hfs]%Forall_cons.
  destruct (foreign_refused o op w r w1) as (Hi1 & Hr1 & Hans); [done|done|by exists o|done|done|done|].
  destruct IH as (? & ? & ?); [done|by eapply refused_owner|by rewrite Hr1|done|]. by rewrite <-Hr1.
Qed.


(** C14: A step of maintenance that succeeds reports how things are and when to come back: the next deadline is in the
    future; a restart that is pending is the one that is scheduled; a restarted core is the one the service owns; it
    gives up only once the limit of attempts is reached; and a revoked owner is gone with its core. *)
Theorem maintenance_reports now w step w' :
  svc_start config w → now < DURATION_MAX → cruns (@svc_post) (maintenance_step config now) w (Ok step) w' →
  now < sms_next_deadline step ∧ maintained config now (sms_outcome step) (sw_state w') ∧ svc_start config w'.
Proof.
  intros Hi Hnow Hr.
  assert (swp (maintenance_step config now)
    (λ x w', svc_start config w' ∧ sw_running w' = sw_running w ∧
       ((∀ step, x = Ok step →
           sms_next_deadline step = sms_next_deadline (maintenance_result (sw_state w') (sms_outcome step)) ∧
           maintained config now (sms_outcome step) (sw_state w')) ∨
        (sw_state w' = sw_state w ∧ outcome x = Some KindUnavailable))) w) as Hwp.
  { apply (locked_sound _ (λ x s, ∀ step, x = Ok step →
      sms_next_deadline step = sms_next_deadline (maintenance_result s (sms_outcome step)) ∧
      maintained config now (sms_outcome step) s) w Hi).
    intros w1 H1 Hi1. eapply wpc_mono; [|by apply maintenance_spec, Hi1; [apply capacity_positive|..]]; cbv beta.
    by intros x w2 (Hs & _ & Hm). }
  destruct (wpc_sound _ _ _ _ _ _ _ Hwp Hr) as (Hi' & _ & [Hok|[_ [=]]]). destruct (Hok step eq_refl) as [Hd Hm].
  split; [|done]. rewrite Hd. destruct Hm as (Ha & Hb & _). unfold maintenance_result. cbn.
  destruct (vs_restart_due_at _), (vs_next_liveness_at _); cbn in *; lia.
Qed.
End requests.

(** ** A machine where everything works *)

Definition find_start (pid : Z) (w : SvcWorld) : option str :=
  match list_find (λ q, opi_pid q = pid) (sw_procs w) with
  | Some (_, q) => Some (opi_process_start_identity q)
  | None => snd <$> (snd <$> list_find (λ p, fst p = pid) (sw_running w))
  end.

(** Whether that is the only answer there is. *)
Definition knows (pid : Z) (r : option str) (w : SvcWorld) : bool :=
  bool_decide (Forall (λ q, opi_pid q ≠ pid ∨ r = Some (opi_process_start_identity q)) (sw_procs w)) &&
  bool_decide (Forall (λ p, fst p ≠ pid ∨ r = Some (snd p)) (sw_running w)).

Definition works {X} (c : SvcCall X) (w : SvcWorld) : X * SvcWorld :=
  match c in SvcCall X return X * SvcWorld with
  | VCredentials _ => (Ok tt, w)
  | VStartIdentity pid => (if knows pid (find_start pid w) w then Ok (find_start pid w) else Err PlatformProcessInspection, w)
  | VTun _ => (Ok tt, w)
  | VSecret => (Ok (lit "secret"), w)
  | VVerify b _ => (Ok (MkVerifiedRuntimeBundle b (lit "/m") (lit "/x") (lit "/c")), w)
  | VSpawn _ _ g =>
      (Ok (MkSpawnedCoreProcess (100 + Z.abs g) (lit "core")),
       MkSvcWorld (MkOwnedProcessIdentity (100 + Z.abs g) (lit "core") g :: sw_procs w) g (sw_disk w) (sw_state w) (sw_running w))
  | VStop p => (Ok tt, MkSvcWorld (filter (λ q, q ≠ p) (sw_procs w)) (sw_spawned w) (sw_disk w) (sw_state w) (sw_running w))
  | VReadiness _ _ => (Ok tt, w)
  | VGrant _ _ => (Ok tt, w)
  | VReap _ => (Ok false, w)
  | VTakeLogs _ _ => (Ok (MkCoreProcessLogBatch [] 0), w)
  | VResetApply _ => (tt, w)
  | VCancelApply _ => (tt, w)
  | VPrepareRoots => (Ok tt, w)
  | VGenerationLock => (Ok tt, w)
  | VGenerationUnlock => (tt, w)
  | VCleanupGenerations => (Ok tt, w)
  | VLoadOrInitialize => (Ok (sw_disk w), w)
  | VLoadGeneration => (Ok (sw_disk w), w)
  | VTakeFault => (Ok None, w)
  | VPersistGeneration g _ => (Ok tt, MkSvcWorld (sw_procs w) (sw_spawned w) g (sw_state w) (sw_running w))
  | VMetadata _ => (Err MetadataNotFound, w)
  | VRemoveFile _ => (Ok tt, w)
  | VLock => (Ok (sw_state w), w)
  | VUnlock s => (tt, put_sw_state s w)
  | VLockCancellation =>
      (Ok (MkApplyCancellationState (so_proof <$> vs_owner (sw_state w)) (so_generation <$> vs_owner (sw_state w)) false), w)
  | VUnlockCancellation _ => (tt, w)
  end.

Lemma works_contract {X} (c : SvcCall X) w : svc_post c w (works c w).1 (works c w).2.
Proof.
  destruct c; cbn; try done.
  - split; [done|]. unfold knows. destruct (bool_decide _) eqn:Hp; [destruct (bool_decide (Forall _ (sw_running w))) eqn:Hr|]; try done.
    apply bool_decide_eq_true in Hp. apply bool_decide_eq_true in Hr. rewrite Forall_forall in Hp. rewrite Forall_forall in Hr. split.
    + intros q Hq Hpid. by destruct (Hp q Hq).
    + intros start Hin. by destruct (Hr _ Hin).
  - split; [lia|done].
  - split; [|intros _ [? _]%list_elem_of_filter; done]. split; cbn; try done. intros q Hq. by apply list_elem_of_filter in Hq as [_ ?].
  - split; [done|]. by intros g [= <-].
  - split; [done|]. by intros g [= <-].
  - split; [by split|by left].
  - split; [done|]. by intros s [= <-].
Qed.

(** The run of a program on that machine. *)
Fixpoint play {A} (p : vprog A) (w : SvcWorld) : A * SvcWorld :=
  match p with
  | Ret a => (a, w)
  | Vis c k => let '(x, w') := works c w in play (k x) w'
  end.
Lemma play_runs {A} (p : vprog A) w : cruns (@svc_post) p w (play p w).1 (play p w).2.
Proof.
  revert w. induction p as [a|X c k IH]; intros w; cbn; [done|]. pose proof (works_contract c w) as Hc.
  destruct (works c w) as [x w']. by exists x, w'.
Qed.

(** One Supervisor, process 7, opens a session and starts a core. *)
Definition a_config : PrivilegedServiceConfig :=
  MkPrivilegedServiceConfig 1 (lit "/srv") (replicate 64 97%N) (replicate 64 97%N) 3 16 256.
Definition a_request (pid : Z) : OwnerSessionRequest := MkOwnerSessionRequest 501 pid (lit "boot") (lit "token") 1.
Definition a_proof : OwnerSessionProof := MkOwnerSessionProof (lit "owner-1-secret") (lit "secret").
Definition a_bundle : RuntimeBundle := MkRuntimeBundle 1 (lit "/srv/1") [] [] [].
Definition no_state : ServiceState := MkServiceState 0 None 0 None None false 0 None None None None [] 0 1 0.
Definition new_machine : SvcWorld := MkSvcWorld [] 0 (MkServiceGenerationState 0 0) no_state [(7, lit "boot")].
Definition machine_started : SvcWorld :=
  let '(r, w) := play (service_new a_config) new_machine in
  match r with Ok s => put_sw_state s w | Err _ => w end.
Definition after_op (op : SvcOp) (w : SvcWorld) : SvcWorld := (play (svc_exec a_config (lit "/run") op) w).2.
Definition machine_owned : SvcWorld := after_op (OpOpen (a_request 7)) machine_started.
Definition machine_running : SvcWorld := after_op (OpApply a_proof a_bundle) machine_owned.

Lemma machine_starts : started a_config machine_started.
Proof.
  exists new_machine, no_state, (play (service_new a_config) new_machine).2. split; [done|]. split; [done|]. split; [|by vm_compute].
  pose proof (play_runs (service_new a_config) new_machine) as Hr.
  assert ((play (service_new a_config) new_machine).1 = Ok no_state) as Heq by (by vm_compute).
  by rewrite Heq in Hr.
Qed.
Lemma after_runs op w :
  cruns (@svc_post) (svc_exec a_config (lit "/run") op) w (play (svc_exec a_config (lit "/run") op) w).1 (after_op op w).
Proof. apply play_runs. Qed.
Lemma after_serves op w : op_ok op → serves a_config (lit "/run") [op] w (after_op op w).
Proof. intros Hop. eapply serves_cons; [done|apply play_runs|constructor]. Qed.

Lemma one_core_at_a_time_witness :
  sw_procs machine_running = [MkOwnedProcessIdentity 101 (lit "core") 1] ∧
  every_call (@svc_post) (@svc_pre) (svc_exec a_config (lit "/run") (OpApply a_proof a_bundle)) machine_owned.
Proof.
  split; [by vm_compute|].
  apply (one_core_at_a_time a_config (lit "/run") ltac:(done) ltac:(done) ltac:(done) [OpOpen (a_request 7)] machine_started
           machine_owned (OpApply a_proof a_bundle) machine_starts (after_serves (OpOpen (a_request 7)) machine_started I) I).
Defined.

Lemma running_start : svc_start a_config machine_running.
Proof.
  apply (serves_inv a_config (lit "/run") ltac:(done) ltac:(done) ltac:(done) [OpOpen (a_request 7); OpApply a_proof a_bundle]
           machine_started).
  - eapply serves_cons; [done|apply play_runs|]. apply after_serves. done.
  - apply svc_started_inv; [done..|]. apply machine_starts.
Qed.

Definition an_owner : ServiceOwner := new_owner (lit "/run") (a_request 7) 1 (lit "secret") (lit "secret") (lit "secret").
Definition a_stranger : OwnerSessionProof := MkOwnerSessionProof (lit "owner-2-secret") (lit "guess").


Definition a_step : ServiceMaintenanceStep :=
  MkServiceMaintenanceStep (MaintenanceUnchanged ServiceRunning) (5 + millis CORE_SERVICE_LIVENESS_INTERVAL).
Lemma maintained_runs :
  cruns (@svc_post) (maintenance_step a_config 5) machine_running (Ok a_step) (play (maintenance_step a_config 5) machine_running).2.
Proof.
  pose proof (play_runs (maintenance_step a_config 5) machine_running) as Hr.
  assert ((play (maintenance_step a_config 5) machine_running).1 = Ok a_step) as Heq by (by vm_compute). by rewrite Heq in Hr.
Qed.

Lemma maintenance_reports_witness : 5 < sms_next_deadline a_step.
Proof.
  refine (proj1 (maintenance_reports a_config ltac:(done) ltac:(done) ltac:(done) 5 machine_running a_step _ running_start
    _ maintained_runs)). by vm_compute.
Defined.
