(* ===== verification/TuiState.v ===== *)
(** * TuiState: the state of the Status Interface
    (src/tui/state.rs, and the intents of src/tui/reducer.rs and the interaction map
    of src/tui/input.rs it holds)

    View state, its bounded projections and the queue of log lines.  [usize] is 64
    bits wide; strings are lists of characters; [to_lowercase] is the function of the
    standard library, over Unicode's tables, of which nothing is needed. *)

From S2P Require Import Prelude Text Constants Domain Diagnostics Frame Telemetry Application.
Local Open Scope Z_scope.

Definition PROFILE_VIEW_CAPACITY : Z := 100.

(** ** Data *)

Inductive Page := PageProxies | PageConnections | PageRules | PageLogs.
Inductive Focus :=
| FocusTabs | FocusProxyGroups | FocusContent | FocusSearch | FocusFooterHelp | FocusFooterQuit | FocusModal.
Inductive ConnectionStatus := ConnConnecting | ConnConnected | ConnDisconnected.
Inductive LogLevelFilter := FilterAll | FilterDebug | FilterInfo | FilterWarn | FilterError.
Inductive CommandPaletteAction := PaletteProfiles | PaletteRestartSupervisor | PaletteStopSupervisor.
Inductive PendingOperationKind :=
| PendActivateProfile | PendSelectNode | PendAddRule | PendReplaceRule | PendRemoveRule
| PendRestartSupervisor | PendStopSupervisor.

#[global] Instance Page_eq_dec : EqDecision Page.
Proof. solve_decision. Defined.
#[global] Instance Focus_eq_dec : EqDecision Focus.
Proof. solve_decision. Defined.
#[global] Instance ConnectionStatus_eq_dec : EqDecision ConnectionStatus.
Proof. solve_decision. Defined.
#[global] Instance LogSource_eq_dec : EqDecision LogSource.
Proof. solve_decision. Defined.
#[global] Instance CommandPaletteAction_eq_dec : EqDecision CommandPaletteAction.
Proof. solve_decision. Defined.
#[global] Instance PendingOperationKind_eq_dec : EqDecision PendingOperationKind.
Proof. solve_decision. Defined.

Record ConnectionState := MkConnectionState {
  cn_status : ConnectionStatus;
  cn_generation : Z;
  cn_snapshot_stale : bool;
}.
Definition cn_set_status (v : ConnectionStatus) (x : ConnectionState) : ConnectionState :=
  MkConnectionState v (cn_generation x) (cn_snapshot_stale x).
Definition cn_set_generation (v : Z) (x : ConnectionState) : ConnectionState :=
  MkConnectionState (cn_status x) v (cn_snapshot_stale x).
Definition cn_set_snapshot_stale (v : bool) (x : ConnectionState) : ConnectionState :=
  MkConnectionState (cn_status x) (cn_generation x) v.
Record ProxyRow := MkProxyRow {
  pr_group_id : str;
  pr_group : str;
  pr_node_id : option str;
  pr_name : str;
  pr_node_type : str;
  pr_available : bool;
  pr_selected : bool;
  pr_delay_ms : option Z;
}.
Record ProxyGroupRow := MkProxyGroupRow {
  pg_id : str;
  pg_name : str;
  pg_proxy_type : str;
  pg_selectable : bool;
  pg_selected_node : option str;
}.
Record ProfileRow := MkProfileRow {
  pf_id : Z;
  pf_name : str;
  pf_active : bool;
  pf_fresh : bool;
  pf_last_success_at_unix_ms : Z;
  pf_next_refresh_at_unix_ms : Z;
  pf_error : option str;
}.
Record ViewLogRecord := MkViewLogRecord {
  vl_sequence : Z;
  vl_timestamp_unix_ms : Z;
  vl_level : LogLevel;
  vl_source : LogSource;
  vl_message : str;
}.
Record PendingProxyGroupLoad := MkPendingProxyGroupLoad {
  gl_request_id : RequestId;
  gl_connection_generation : Z;
  gl_group_id : str;
}.
Record ProxiesState := MkProxiesState {
  px_groups : list ProxyGroupRow;
  px_group_cursor : Z;
  px_rows : list ProxyRow;
  px_selected_group : option str;
  px_group_load_pending : option PendingProxyGroupLoad;
  px_selection_pending : option (str * str);
  px_selected : Z;
  px_scroll : Z;
}.
Definition px_set_groups (v : list ProxyGroupRow) (x : ProxiesState) : ProxiesState :=
  MkProxiesState v (px_group_cursor x) (px_rows x) (px_selected_group x) (px_group_load_pending x)
    (px_selection_pending x) (px_selected x) (px_scroll x).
Definition px_set_group_cursor (v : Z) (x : ProxiesState) : ProxiesState :=
  MkProxiesState (px_groups x) v (px_rows x) (px_selected_group x) (px_group_load_pending x)
    (px_selection_pending x) (px_selected x) (px_scroll x).
Definition px_set_rows (v : list ProxyRow) (x : ProxiesState) : ProxiesState :=
  MkProxiesState (px_groups x) (px_group_cursor x) v (px_selected_group x) (px_group_load_pending x)
    (px_selection_pending x) (px_selected x) (px_scroll x).
Definition px_set_selected_group (v : option str) (x : ProxiesState) : ProxiesState :=
  MkProxiesState (px_groups x) (px_group_cursor x) (px_rows x) v (px_group_load_pending x) (px_selection_pending x)
    (px_selected x) (px_scroll x).
Definition px_set_group_load_pending (v : option PendingProxyGroupLoad) (x : ProxiesState) : ProxiesState :=
  MkProxiesState (px_groups x) (px_group_cursor x) (px_rows x) (px_selected_group x) v (px_selection_pending x)
    (px_selected x) (px_scroll x).
Definition px_set_selection_pending (v : option (str * str)) (x : ProxiesState) : ProxiesState :=
  MkProxiesState (px_groups x) (px_group_cursor x) (px_rows x) (px_selected_group x) (px_group_load_pending x) v
    (px_selected x) (px_scroll x).
Definition px_set_selected (v : Z) (x : ProxiesState) : ProxiesState :=
  MkProxiesState (px_groups x) (px_group_cursor x) (px_rows x) (px_selected_group x) (px_group_load_pending x)
    (px_selection_pending x) v (px_scroll x).
Definition px_set_scroll (v : Z) (x : ProxiesState) : ProxiesState :=
  MkProxiesState (px_groups x) (px_group_cursor x) (px_rows x) (px_selected_group x) (px_group_load_pending x)
    (px_selection_pending x) (px_selected x) v.
Record ConnectionsState := MkConnectionsState {
  cx_selected : Z;
  cx_scroll : Z;
}.
Definition cx_set_selected (v : Z) (x : ConnectionsState) : ConnectionsState :=
  MkConnectionsState v (cx_scroll x).
Definition cx_set_scroll (v : Z) (x : ConnectionsState) : ConnectionsState :=
  MkConnectionsState (cx_selected x) v.
Record ProfilesState := MkProfilesState {
  fs_rows : list ProfileRow;
  fs_selected : Z;
  fs_scroll : Z;
  fs_filter : str;
  fs_activation_pending : option Z;
}.
Definition fs_set_rows (v : list ProfileRow) (x : ProfilesState) : ProfilesState :=
  MkProfilesState v (fs_selected x) (fs_scroll x) (fs_filter x) (fs_activation_pending x).
Definition fs_set_selected (v : Z) (x : ProfilesState) : ProfilesState :=
  MkProfilesState (fs_rows x) v (fs_scroll x) (fs_filter x) (fs_activation_pending x).
Definition fs_set_scroll (v : Z) (x : ProfilesState) : ProfilesState :=
  MkProfilesState (fs_rows x) (fs_selected x) v (fs_filter x) (fs_activation_pending x).
Definition fs_set_filter (v : str) (x : ProfilesState) : ProfilesState :=
  MkProfilesState (fs_rows x) (fs_selected x) (fs_scroll x) v (fs_activation_pending x).
Definition fs_set_activation_pending (v : option Z) (x : ProfilesState) : ProfilesState :=
  MkProfilesState (fs_rows x) (fs_selected x) (fs_scroll x) (fs_filter x) v.
Record CommandPaletteState := MkCommandPaletteState {
  cp_query : str;
  cp_selected : Z;
}.
Definition cp_set_query (v : str) (x : CommandPaletteState) : CommandPaletteState :=
  MkCommandPaletteState v (cp_selected x).
Definition cp_set_selected (v : Z) (x : CommandPaletteState) : CommandPaletteState :=
  MkCommandPaletteState (cp_query x) v.
Record RuleRow := MkRuleRow {
  rr_index : Z;
  rr_rule_string : str;
  rr_rule_type : str;
  rr_payload : option str;
  rr_policy_target : str;
  rr_policy_target_validation : PolicyTargetValidation;
}.
Record PendingRuleLoad := MkPendingRuleLoad {
  rl_request_id : RequestId;
  rl_connection_generation : Z;
  rl_runtime_generation : option Z;
}.
Record RulesState := MkRulesState {
  rs_rows : list RuleRow;
  rs_initialized : bool;
  rs_revision : option str;
  rs_selected : Z;
  rs_scroll : Z;
  rs_filter : str;
  rs_loaded_connection_generation : option Z;
  rs_loaded_runtime_generation : option Z;
  rs_load_pending : option PendingRuleLoad;
  rs_load_error : option str;
}.
Definition rs_set_rows (v : list RuleRow) (x : RulesState) : RulesState :=
  MkRulesState v (rs_initialized x) (rs_revision x) (rs_selected x) (rs_scroll x) (rs_filter x)
    (rs_loaded_connection_generation x) (rs_loaded_runtime_generation x) (rs_load_pending x) (rs_load_error x).
Definition rs_set_initialized (v : bool) (x : RulesState) : RulesState :=
  MkRulesState (rs_rows x) v (rs_revision x) (rs_selected x) (rs_scroll x) (rs_filter x)
    (rs_loaded_connection_generation x) (rs_loaded_runtime_generation x) (rs_load_pending x) (rs_load_error x).
Definition rs_set_revision (v : option str) (x : RulesState) : RulesState :=
  MkRulesState (rs_rows x) (rs_initialized x) v (rs_selected x) (rs_scroll x) (rs_filter x)
    (rs_loaded_connection_generation x) (rs_loaded_runtime_generation x) (rs_load_pending x) (rs_load_error x).
Definition rs_set_selected (v : Z) (x : RulesState) : RulesState :=
  MkRulesState (rs_rows x) (rs_initialized x) (rs_revision x) v (rs_scroll x) (rs_filter x)
    (rs_loaded_connection_generation x) (rs_loaded_runtime_generation x) (rs_load_pending x) (rs_load_error x).
Definition rs_set_scroll (v : Z) (x : RulesState) : RulesState :=
  MkRulesState (rs_rows x) (rs_initialized x) (rs_revision x) (rs_selected x) v (rs_filter x)
    (rs_loaded_connection_generation x) (rs_loaded_runtime_generation x) (rs_load_pending x) (rs_load_error x).
Definition rs_set_filter (v : str) (x : RulesState) : RulesState :=
  MkRulesState (rs_rows x) (rs_initialized x) (rs_revision x) (rs_selected x) (rs_scroll x) v
    (rs_loaded_connection_generation x) (rs_loaded_runtime_generation x) (rs_load_pending x) (rs_load_error x).
Definition rs_set_loaded_connection_generation (v : option Z) (x : RulesState) : RulesState :=
  MkRulesState (rs_rows x) (rs_initialized x) (rs_revision x) (rs_selected x) (rs_scroll x) (rs_filter x) v
    (rs_loaded_runtime_generation x) (rs_load_pending x) (rs_load_error x).
Definition rs_set_loaded_runtime_generation (v : option Z) (x : RulesState) : RulesState :=
  MkRulesState (rs_rows x) (rs_initialized x) (rs_revision x) (rs_selected x) (rs_scroll x) (rs_filter x)
    (rs_loaded_connection_generation x) v (rs_load_pending x) (rs_load_error x).
Definition rs_set_load_pending (v : option PendingRuleLoad) (x : RulesState) : RulesState :=
  MkRulesState (rs_rows x) (rs_initialized x) (rs_revision x) (rs_selected x) (rs_scroll x) (rs_filter x)
    (rs_loaded_connection_generation x) (rs_loaded_runtime_generation x) v (rs_load_error x).
Definition rs_set_load_error (v : option str) (x : RulesState) : RulesState :=
  MkRulesState (rs_rows x) (rs_initialized x) (rs_revision x) (rs_selected x) (rs_scroll x) (rs_filter x)
    (rs_loaded_connection_generation x) (rs_loaded_runtime_generation x) (rs_load_pending x) v.
Record LogsState := MkLogsState {
  lg_records : list ViewLogRecord;
  lg_level_filter : LogLevelFilter;
  lg_search : str;
  lg_since_unix_ms : option Z;
  lg_until_unix_ms : option Z;
  lg_scroll : Z;
  lg_viewport_start : Z;
  lg_follow : bool;
  lg_paused : bool;
  lg_paused_anchor : option Z;
  lg_gap : bool;
  lg_dropped_total : Z;
  lg_evicted_total : Z;
  lg_retained_bytes : Z;
}.
Definition lg_set_records (v : list ViewLogRecord) (x : LogsState) : LogsState :=
  MkLogsState v (lg_level_filter x) (lg_search x) (lg_since_unix_ms x) (lg_until_unix_ms x) (lg_scroll x)
    (lg_viewport_start x) (lg_follow x) (lg_paused x) (lg_paused_anchor x) (lg_gap x) (lg_dropped_total x)
    (lg_evicted_total x) (lg_retained_bytes x).
Definition lg_set_level_filter (v : LogLevelFilter) (x : LogsState) : LogsState :=
  MkLogsState (lg_records x) v (lg_search x) (lg_since_unix_ms x) (lg_until_unix_ms x) (lg_scroll x)
    (lg_viewport_start x) (lg_follow x) (lg_paused x) (lg_paused_anchor x) (lg_gap x) (lg_dropped_total x)
    (lg_evicted_total x) (lg_retained_bytes x).
Definition lg_set_search (v : str) (x : LogsState) : LogsState :=
  MkLogsState (lg_records x) (lg_level_filter x) v (lg_since_unix_ms x) (lg_until_unix_ms x) (lg_scroll x)
    (lg_viewport_start x) (lg_follow x) (lg_paused x) (lg_paused_anchor x) (lg_gap x) (lg_dropped_total x)
    (lg_evicted_total x) (lg_retained_bytes x).
Definition lg_set_since_unix_ms (v : option Z) (x : LogsState) : LogsState :=
  MkLogsState (lg_records x) (lg_level_filter x) (lg_search x) v (lg_until_unix_ms x) (lg_scroll x)
    (lg_viewport_start x) (lg_follow x) (lg_paused x) (lg_paused_anchor x) (lg_gap x) (lg_dropped_total x)
    (lg_evicted_total x) (lg_retained_bytes x).
Definition lg_set_until_unix_ms (v : option Z) (x : LogsState) : LogsState :=
  MkLogsState (lg_records x) (lg_level_filter x) (lg_search x) (lg_since_unix_ms x) v (lg_scroll x)
    (lg_viewport_start x) (lg_follow x) (lg_paused x) (lg_paused_anchor x) (lg_gap x) (lg_dropped_total x)
    (lg_evicted_total x) (lg_retained_bytes x).
Definition lg_set_scroll (v : Z) (x : LogsState) : LogsState :=
  MkLogsState (lg_records x) (lg_level_filter x) (lg_search x) (lg_since_unix_ms x) (lg_until_unix_ms x) v
    (lg_viewport_start x) (lg_follow x) (lg_paused x) (lg_paused_anchor x) (lg_gap x) (lg_dropped_total x)
    (lg_evicted_total x) (lg_retained_bytes x).
Definition lg_set_viewport_start (v : Z) (x : LogsState) : LogsState :=
  MkLogsState (lg_records x) (lg_level_filter x) (lg_search x) (lg_since_unix_ms x) (lg_until_unix_ms x)
    (lg_scroll x) v (lg_follow x) (lg_paused x) (lg_paused_anchor x) (lg_gap x) (lg_dropped_total x)
    (lg_evicted_total x) (lg_retained_bytes x).
Definition lg_set_follow (v : bool) (x : LogsState) : LogsState :=
  MkLogsState (lg_records x) (lg_level_filter x) (lg_search x) (lg_since_unix_ms x) (lg_until_unix_ms x)
    (lg_scroll x) (lg_viewport_start x) v (lg_paused x) (lg_paused_anchor x) (lg_gap x) (lg_dropped_total x)
    (lg_evicted_total x) (lg_retained_bytes x).
Definition lg_set_paused (v : bool) (x : LogsState) : LogsState :=
  MkLogsState (lg_records x) (lg_level_filter x) (lg_search x) (lg_since_unix_ms x) (lg_until_unix_ms x)
    (lg_scroll x) (lg_viewport_start x) (lg_follow x) v (lg_paused_anchor x) (lg_gap x) (lg_dropped_total x)
    (lg_evicted_total x) (lg_retained_bytes x).
Definition lg_set_paused_anchor (v : option Z) (x : LogsState) : LogsState :=
  MkLogsState (lg_records x) (lg_level_filter x) (lg_search x) (lg_since_unix_ms x) (lg_until_unix_ms x)
    (lg_scroll x) (lg_viewport_start x) (lg_follow x) (lg_paused x) v (lg_gap x) (lg_dropped_total x)
    (lg_evicted_total x) (lg_retained_bytes x).
Definition lg_set_gap (v : bool) (x : LogsState) : LogsState :=
  MkLogsState (lg_records x) (lg_level_filter x) (lg_search x) (lg_since_unix_ms x) (lg_until_unix_ms x)
    (lg_scroll x) (lg_viewport_start x) (lg_follow x) (lg_paused x) (lg_paused_anchor x) v (lg_dropped_total x)
    (lg_evicted_total x) (lg_retained_bytes x).
Definition lg_set_dropped_total (v : Z) (x : LogsState) : LogsState :=
  MkLogsState (lg_records x) (lg_level_filter x) (lg_search x) (lg_since_unix_ms x) (lg_until_unix_ms x)
    (lg_scroll x) (lg_viewport_start x) (lg_follow x) (lg_paused x) (lg_paused_anchor x) (lg_gap x) v
    (lg_evicted_total x) (lg_retained_bytes x).
Definition lg_set_evicted_total (v : Z) (x : LogsState) : LogsState :=
  MkLogsState (lg_records x) (lg_level_filter x) (lg_search x) (lg_since_unix_ms x) (lg_until_unix_ms x)
    (lg_scroll x) (lg_viewport_start x) (lg_follow x) (lg_paused x) (lg_paused_anchor x) (lg_gap x)
    (lg_dropped_total x) v (lg_retained_bytes x).
Definition lg_set_retained_bytes (v : Z) (x : LogsState) : LogsState :=
  MkLogsState (lg_records x) (lg_level_filter x) (lg_search x) (lg_since_unix_ms x) (lg_until_unix_ms x)
    (lg_scroll x) (lg_viewport_start x) (lg_follow x) (lg_paused x) (lg_paused_anchor x) (lg_gap x)
    (lg_dropped_total x) (lg_evicted_total x) v.

Inductive Modal :=
| ModalHelp
| ModalCommandPalette
| ModalProfiles
| ModalRuleEditor (original : option str) (value : str)
| ModalRuleRemovalConfirmation (rule : str)
| ModalLifecycleConfirmation (action : CommandPaletteAction)
| ModalMessage (title body : str).
#[global] Instance Modal_eq_dec : EqDecision Modal.
Proof. solve_decision. Defined.

Record PendingOperation := MkPendingOperation {
  po_request_id : RequestId;
  po_connection_generation : Z;
  po_kind : PendingOperationKind;
}.
Record FullViewSnapshot := MkFullViewSnapshot {
  fv_status : StatusSnapshot;
  fv_proxy_groups : list ProxyGroupRow;
  fv_proxies : list ProxyRow;
  fv_profiles : list ProfileRow;
  fv_logs : list ViewLogRecord;
  fv_dropped_logs : Z;
}.
Record ProxyGroupSnapshot := MkProxyGroupSnapshot {
  gs_group : ProxyGroupRow;
  gs_groups : list ProxyGroupRow;
  gs_proxies : list ProxyRow;
}.
Record RuleListSnapshot := MkRuleListSnapshot {
  ru_initialized : bool;
  ru_revision : option str;
  ru_rows : list RuleRow;
}.

(** [ratatui::layout::Rect] *)
Record Rect := MkRect {
  rc_x : Z;
  rc_y : Z;
  rc_width : Z;
  rc_height : Z;
}.

Inductive UiIntent :=
| ISwitchPage (page : Page)
| INextPage
| IPreviousPage
| IFocusNext
| IFocusPrevious
| IFocusLeft
| IFocusRight
| IFocusSearch
| IOpenCommandPalette
| IOpenProfiles
| IRunPaletteAction (action : CommandPaletteAction)
| IConfirmLifecycleAction
| ILoadRules
| IOpenRuleAdd
| IOpenSelectedRuleEditor
| IRequestSelectedRuleRemoval
| ISubmitRuleEditor
| IConfirmRuleRemoval
| ISelectRule (index : Z)
| ISelectConnection (index : Z)
| ISelectLog (tail_offset : Z)
| IPreviousProxyGroup
| INextProxyGroup
| IShowProxyGroup (group_id : str)
| IInputCharacter (character : char)
| IBackspace
| IEscape
| IMoveUp
| IMoveDown
| IActivateSelected
| IActivateProfile (profile_id : Z)
| ISelectNode (group_id node_id : str)
| IScrollUp
| IScrollDown
| ISetLogLevel (level : LogLevelFilter)
| IToggleLogPause
| IFollowLogs
| IToggleZoom
| IToggleHelp
| ICloseModal
| IQuit.

Record Interaction := MkInteraction {
  ia_area : Rect;
  ia_intent : UiIntent;
}.
Record ScrollInteraction := MkScrollInteraction { si_area : Rect }.
Record InteractionMap := MkInteractionMap {
  im_frame_revision : Z;
  im_interactions : list Interaction;
  im_scroll_regions : list ScrollInteraction;
}.
Record AppState := MkAppState {
  st_page : Page;
  st_focus : Focus;
  st_connection : ConnectionState;
  st_status : option StatusSnapshot;
  st_proxies : ProxiesState;
  st_connections : ConnectionsState;
  st_profiles : ProfilesState;
  st_command_palette : CommandPaletteState;
  st_rules : RulesState;
  st_logs : LogsState;
  st_zoomed_focus : bool;
  st_modal : option Modal;
  st_toast : option str;
  st_pending : option PendingOperation;
  st_should_quit : bool;
  st_terminal_width : Z;
  st_terminal_height : Z;
  st_render_dirty : bool;
  st_interaction_map : option InteractionMap;
  st_next_request_id : Z;
  st_next_frame_revision : Z;
  st_view_revision : Z;
  st_status_revision : Z;
}.
Definition st_set_page (v : Page) (x : AppState) : AppState :=
  MkAppState v (st_focus x) (st_connection x) (st_status x) (st_proxies x) (st_connections x) (st_profiles x)
    (st_command_palette x) (st_rules x) (st_logs x) (st_zoomed_focus x) (st_modal x) (st_toast x) (st_pending x)
    (st_should_quit x) (st_terminal_width x) (st_terminal_height x) (st_render_dirty x) (st_interaction_map x)
    (st_next_request_id x) (st_next_frame_revision x) (st_view_revision x) (st_status_revision x).
Definition st_set_focus (v : Focus) (x : AppState) : AppState :=
  MkAppState (st_page x) v (st_connection x) (st_status x) (st_proxies x) (st_connections x) (st_profiles x)
    (st_command_palette x) (st_rules x) (st_logs x) (st_zoomed_focus x) (st_modal x) (st_toast x) (st_pending x)
    (st_should_quit x) (st_terminal_width x) (st_terminal_height x) (st_render_dirty x) (st_interaction_map x)
    (st_next_request_id x) (st_next_frame_revision x) (st_view_revision x) (st_status_revision x).
Definition st_set_connection (v : ConnectionState) (x : AppState) : AppState :=
  MkAppState (st_page x) (st_focus x) v (st_status x) (st_proxies x) (st_connections x) (st_profiles x)
    (st_command_palette x) (st_rules x) (st_logs x) (st_zoomed_focus x) (st_modal x) (st_toast x) (st_pending x)
    (st_should_quit x) (st_terminal_width x) (st_terminal_height x) (st_render_dirty x) (st_interaction_map x)
    (st_next_request_id x) (st_next_frame_revision x) (st_view_revision x) (st_status_revision x).
Definition st_set_status (v : option StatusSnapshot) (x : AppState) : AppState :=
  MkAppState (st_page x) (st_focus x) (st_connection x) v (st_proxies x) (st_connections x) (st_profiles x)
    (st_command_palette x) (st_rules x) (st_logs x) (st_zoomed_focus x) (st_modal x) (st_toast x) (st_pending x)
    (st_should_quit x) (st_terminal_width x) (st_terminal_height x) (st_render_dirty x) (st_interaction_map x)
    (st_next_request_id x) (st_next_frame_revision x) (st_view_revision x) (st_status_revision x).
Definition st_set_proxies (v : ProxiesState) (x : AppState) : AppState :=
  MkAppState (st_page x) (st_focus x) (st_connection x) (st_status x) v (st_connections x) (st_profiles x)
    (st_command_palette x) (st_rules x) (st_logs x) (st_zoomed_focus x) (st_modal x) (st_toast x) (st_pending x)
    (st_should_quit x) (st_terminal_width x) (st_terminal_height x) (st_render_dirty x) (st_interaction_map x)
    (st_next_request_id x) (st_next_frame_revision x) (st_view_revision x) (st_status_revision x).
Definition st_set_connections (v : ConnectionsState) (x : AppState) : AppState :=
  MkAppState (st_page x) (st_focus x) (st_connection x) (st_status x) (st_proxies x) v (st_profiles x)
    (st_command_palette x) (st_rules x) (st_logs x) (st_zoomed_focus x) (st_modal x) (st_toast x) (st_pending x)
    (st_should_quit x) (st_terminal_width x) (st_terminal_height x) (st_render_dirty x) (st_interaction_map x)
    (st_next_request_id x) (st_next_frame_revision x) (st_view_revision x) (st_status_revision x).
Definition st_set_profiles (v : ProfilesState) (x : AppState) : AppState :=
  MkAppState (st_page x) (st_focus x) (st_connection x) (st_status x) (st_proxies x) (st_connections x) v
    (st_command_palette x) (st_rules x) (st_logs x) (st_zoomed_focus x) (st_modal x) (st_toast x) (st_pending x)
    (st_should_quit x) (st_terminal_width x) (st_terminal_height x) (st_render_dirty x) (st_interaction_map x)
    (st_next_request_id x) (st_next_frame_revision x) (st_view_revision x) (st_status_revision x).
Definition st_set_command_palette (v : CommandPaletteState) (x : AppState) : AppState :=
  MkAppState (st_page x) (st_focus x) (st_connection x) (st_status x) (st_proxies x) (st_connections x)
    (st_profiles x) v (st_rules x) (st_logs x) (st_zoomed_focus x) (st_modal x) (st_toast x) (st_pending x)
    (st_should_quit x) (st_terminal_width x) (st_terminal_height x) (st_render_dirty x) (st_interaction_map x)
    (st_next_request_id x) (st_next_frame_revision x) (st_view_revision x) (st_status_revision x).
Definition st_set_rules (v : RulesState) (x : AppState) : AppState :=
  MkAppState (st_page x) (st_focus x) (st_connection x) (st_status x) (st_proxies x) (st_connections x)
    (st_profiles x) (st_command_palette x) v (st_logs x) (st_zoomed_focus x) (st_modal x) (st_toast x)
    (st_pending x) (st_should_quit x) (st_terminal_width x) (st_terminal_height x) (st_render_dirty x)
    (st_interaction_map x) (st_next_request_id x) (st_next_frame_revision x) (st_view_revision x)
    (st_status_revision x).
Definition st_set_logs (v : LogsState) (x : AppState) : AppState :=
  MkAppState (st_page x) (st_focus x) (st_connection x) (st_status x) (st_proxies x) (st_connections x)
    (st_profiles x) (st_command_palette x) (st_rules x) v (st_zoomed_focus x) (st_modal x) (st_toast x)
    (st_pending x) (st_should_quit x) (st_terminal_width x) (st_terminal_height x) (st_render_dirty x)
    (st_interaction_map x) (st_next_request_id x) (st_next_frame_revision x) (st_view_revision x)
    (st_status_revision x).
Definition st_set_zoomed_focus (v : bool) (x : AppState) : AppState :=
  MkAppState (st_page x) (st_focus x) (st_connection x) (st_status x) (st_proxies x) (st_connections x)
    (st_profiles x) (st_command_palette x) (st_rules x) (st_logs x) v (st_modal x) (st_toast x) (st_pending x)
    (st_should_quit x) (st_terminal_width x) (st_terminal_height x) (st_render_dirty x) (st_interaction_map x)
    (st_next_request_id x) (st_next_frame_revision x) (st_view_revision x) (st_status_revision x).
Definition st_set_modal (v : option Modal) (x : AppState) : AppState :=
  MkAppState (st_page x) (st_focus x) (st_connection x) (st_status x) (st_proxies x) (st_connections x)
    (st_profiles x) (st_command_palette x) (st_rules x) (st_logs x) (st_zoomed_focus x) v (st_toast x)
    (st_pending x) (st_should_quit x) (st_terminal_width x) (st_terminal_height x) (st_render_dirty x)
    (st_interaction_map x) (st_next_request_id x) (st_next_frame_revision x) (st_view_revision x)
    (st_status_revision x).
Definition st_set_toast (v : option str) (x : AppState) : AppState :=
  MkAppState (st_page x) (st_focus x) (st_connection x) (st_status x) (st_proxies x) (st_connections x)
    (st_profiles x) (st_command_palette x) (st_rules x) (st_logs x) (st_zoomed_focus x) (st_modal x) v
    (st_pending x) (st_should_quit x) (st_terminal_width x) (st_terminal_height x) (st_render_dirty x)
    (st_interaction_map x) (st_next_request_id x) (st_next_frame_revision x) (st_view_revision x)
    (st_status_revision x).
Definition st_set_pending (v : option PendingOperation) (x : AppState) : AppState :=
  MkAppState (st_page x) (st_focus x) (st_connection x) (st_status x) (st_proxies x) (st_connections x)
    (st_profiles x) (st_command_palette x) (st_rules x) (st_logs x) (st_zoomed_focus x) (st_modal x) (st_toast x) v
    (st_should_quit x) (st_terminal_width x) (st_terminal_height x) (st_render_dirty x) (st_interaction_map x)
    (st_next_request_id x) (st_next_frame_revision x) (st_view_revision x) (st_status_revision x).
Definition st_set_should_quit (v : bool) (x : AppState) : AppState :=
  MkAppState (st_page x) (st_focus x) (st_connection x) (st_status x) (st_proxies x) (st_connections x)
    (st_profiles x) (st_command_palette x) (st_rules x) (st_logs x) (st_zoomed_focus x) (st_modal x) (st_toast x)
    (st_pending x) v (st_terminal_width x) (st_terminal_height x) (st_render_dirty x) (st_interaction_map x)
    (st_next_request_id x) (st_next_frame_revision x) (st_view_revision x) (st_status_revision x).
Definition st_set_terminal_width (v : Z) (x : AppState) : AppState :=
  MkAppState (st_page x) (st_focus x) (st_connection x) (st_status x) (st_proxies x) (st_connections x)
    (st_profiles x) (st_command_palette x) (st_rules x) (st_logs x) (st_zoomed_focus x) (st_modal x) (st_toast x)
    (st_pending x) (st_should_quit x) v (st_terminal_height x) (st_render_dirty x) (st_interaction_map x)
    (st_next_request_id x) (st_next_frame_revision x) (st_view_revision x) (st_status_revision x).
Definition st_set_terminal_height (v : Z) (x : AppState) : AppState :=
  MkAppState (st_page x) (st_focus x) (st_connection x) (st_status x) (st_proxies x) (st_connections x)
    (st_profiles x) (st_command_palette x) (st_rules x) (st_logs x) (st_zoomed_focus x) (st_modal x) (st_toast x)
    (st_pending x) (st_should_quit x) (st_terminal_width x) v (st_render_dirty x) (st_interaction_map x)
    (st_next_request_id x) (st_next_frame_revision x) (st_view_revision x) (st_status_revision x).
Definition st_set_render_dirty (v : bool) (x : AppState) : AppState :=
  MkAppState (st_page x) (st_focus x) (st_connection x) (st_status x) (st_proxies x) (st_connections x)
    (st_profiles x) (st_command_palette x) (st_rules x) (st_logs x) (st_zoomed_focus x) (st_modal x) (st_toast x)
    (st_pending x) (st_should_quit x) (st_terminal_width x) (st_terminal_height x) v (st_interaction_map x)
    (st_next_request_id x) (st_next_frame_revision x) (st_view_revision x) (st_status_revision x).
Definition st_set_interaction_map (v : option InteractionMap) (x : AppState) : AppState :=
  MkAppState (st_page x) (st_focus x) (st_connection x) (st_status x) (st_proxies x) (st_connections x)
    (st_profiles x) (st_command_palette x) (st_rules x) (st_logs x) (st_zoomed_focus x) (st_modal x) (st_toast x)
    (st_pending x) (st_should_quit x) (st_terminal_width x) (st_terminal_height x) (st_render_dirty x) v
    (st_next_request_id x) (st_next_frame_revision x) (st_view_revision x) (st_status_revision x).
Definition st_set_next_request_id (v : Z) (x : AppState) : AppState :=
  MkAppState (st_page x) (st_focus x) (st_connection x) (st_status x) (st_proxies x) (st_connections x)
    (st_profiles x) (st_command_palette x) (st_rules x) (st_logs x) (st_zoomed_focus x) (st_modal x) (st_toast x)
    (st_pending x) (st_should_quit x) (st_terminal_width x) (st_terminal_height x) (st_render_dirty x)
    (st_interaction_map x) v (st_next_frame_revision x) (st_view_revision x) (st_status_revision x).
Definition st_set_next_frame_revision (v : Z) (x : AppState) : AppState :=
  MkAppState (st_page x) (st_focus x) (st_connection x) (st_status x) (st_proxies x) (st_connections x)
    (st_profiles x) (st_command_palette x) (st_rules x) (st_logs x) (st_zoomed_focus x) (st_modal x) (st_toast x)
    (st_pending x) (st_should_quit x) (st_terminal_width x) (st_terminal_height x) (st_render_dirty x)
    (st_interaction_map x) (st_next_request_id x) v (st_view_revision x) (st_status_revision x).
Definition st_set_view_revision (v : Z) (x : AppState) : AppState :=
  MkAppState (st_page x) (st_focus x) (st_connection x) (st_status x) (st_proxies x) (st_connections x)
    (st_profiles x) (st_command_palette x) (st_rules x) (st_logs x) (st_zoomed_focus x) (st_modal x) (st_toast x)
    (st_pending x) (st_should_quit x) (st_terminal_width x) (st_terminal_height x) (st_render_dirty x)
    (st_interaction_map x) (st_next_request_id x) (st_next_frame_revision x) v (st_status_revision x).
Definition st_set_status_revision (v : Z) (x : AppState) : AppState :=
  MkAppState (st_page x) (st_focus x) (st_connection x) (st_status x) (st_proxies x) (st_connections x)
    (st_profiles x) (st_command_palette x) (st_rules x) (st_logs x) (st_zoomed_focus x) (st_modal x) (st_toast x)
    (st_pending x) (st_should_quit x) (st_terminal_width x) (st_terminal_height x) (st_render_dirty x)
    (st_interaction_map x) (st_next_request_id x) (st_next_frame_revision x) (st_view_revision x) v.

(** Comparing what the state compares. *)
#[global] Instance ProxyRow_eq_dec : EqDecision ProxyRow.
Proof. solve_decision. Defined.
#[global] Instance ProxyGroupRow_eq_dec : EqDecision ProxyGroupRow.
Proof. solve_decision. Defined.
#[global] Instance ProfileRow_eq_dec : EqDecision ProfileRow.
Proof. solve_decision. Defined.
#[global] Instance SupervisorLifecycle_eq_dec : EqDecision SupervisorLifecycle.
Proof. solve_decision. Defined.
#[global] Instance SupervisorHealthReason_eq_dec : EqDecision SupervisorHealthReason.
Proof. solve_decision. Defined.
#[global] Instance SupervisorStatus_eq_dec : EqDecision SupervisorStatus.
Proof. solve_decision. Defined.
#[global] Instance CoreDiagnosticCategory_eq_dec : EqDecision CoreDiagnosticCategory.
Proof. solve_decision. Defined.
#[global] Instance CoreRestartStatus_eq_dec : EqDecision CoreRestartStatus.
Proof. solve_decision. Defined.
#[global] Instance CoreStatus_eq_dec : EqDecision CoreStatus.
Proof. solve_decision. Defined.
#[global] Instance TunReason_eq_dec : EqDecision TunReason.
Proof. solve_decision. Defined.
#[global] Instance TunStatus_eq_dec : EqDecision TunStatus.
Proof. solve_decision. Defined.
#[global] Instance ActiveProfileSummary_eq_dec : EqDecision ActiveProfileSummary.
Proof. solve_decision. Defined.
#[global] Instance SelectedNodeSummary_eq_dec : EqDecision SelectedNodeSummary.
Proof. solve_decision. Defined.
#[global] Instance LatencySample_eq_dec : EqDecision LatencySample.
Proof. solve_decision. Defined.
#[global] Instance TrafficSample_eq_dec : EqDecision TrafficSample.
Proof. solve_decision. Defined.
#[global] Instance ConnectionRecord_eq_dec : EqDecision ConnectionRecord.
Proof. solve_decision. Defined.
#[global] Instance ApplyState_eq_dec : EqDecision ApplyState.
Proof. solve_decision. Defined.
#[global] Instance RuntimeRecoverySnapshot_eq_dec : EqDecision RuntimeRecoverySnapshot.
Proof. solve_decision. Defined.
#[global] Instance RuntimeApplySnapshot_eq_dec : EqDecision RuntimeApplySnapshot.
Proof. solve_decision. Defined.
#[global] Instance ProbeQueueStatus_eq_dec : EqDecision ProbeQueueStatus.
Proof. solve_decision. Defined.
#[global] Instance StreamHealthSet_eq_dec : EqDecision StreamHealthSet.
Proof. solve_decision. Defined.
#[global] Instance StatusSnapshot_eq_dec : EqDecision StatusSnapshot.
Proof. solve_decision. Defined.

(** ** Pages and labels *)

Definition all_pages : list Page := [PageProxies; PageConnections; PageRules; PageLogs].
Definition page_index (p : Page) : Z :=
  match p with PageProxies => 0 | PageConnections => 1 | PageRules => 2 | PageLogs => 3 end.
Definition page_at (i : Z) : Page := nth (Z.to_nat i) all_pages PageProxies.
Definition page_next (p : Page) : Page := page_at ((page_index p + 1) mod zlen all_pages).
Definition page_previous (p : Page) : Page := page_at ((page_index p + zlen all_pages - 1) mod zlen all_pages).

Definition level_matches (f : LogLevelFilter) (level : LogLevel) : bool :=
  match f, level with
  | FilterAll, _ | FilterDebug, Debug | FilterInfo, Info | FilterWarn, Warn | FilterError, Error => true
  | _, _ => false
  end.

Definition palette_actions : list CommandPaletteAction :=
  [PaletteProfiles; PaletteRestartSupervisor; PaletteStopSupervisor].
Definition palette_label (a : CommandPaletteAction) : str :=
  match a with
  | PaletteProfiles => lit "profile switch"
  | PaletteRestartSupervisor => lit "restart"
  | PaletteStopSupervisor => lit "stop"
  end.
Definition palette_description (a : CommandPaletteAction) : str :=
  match a with
  | PaletteProfiles => lit "Activate a saved Profile"
  | PaletteRestartSupervisor => lit "Restart the Supervisor and restore committed runtime"
  | PaletteStopSupervisor => lit "Stop the Supervisor and Managed Core"
  end.

Definition view_log_of (r : CoreLogRecord) : ViewLogRecord :=
  MkViewLogRecord (sequence r) (timestamp_unix_ms r) (level r) (source r) (message r).

(** ** Defaults *)

Definition default_proxies : ProxiesState := MkProxiesState [] 0 [] None None None 0 0.
Definition default_connections : ConnectionsState := MkConnectionsState 0 0.
Definition default_profiles : ProfilesState := MkProfilesState [] 0 0 [] None.
Definition default_palette : CommandPaletteState := MkCommandPaletteState [] 0.
Definition default_rules : RulesState := MkRulesState [] false None 0 0 [] None None None None.
Definition default_logs : LogsState :=
  MkLogsState [] FilterInfo [] None None 0 0 true false None false 0 0 0.

Definition app_new : AppState :=
  MkAppState PageProxies FocusContent (MkConnectionState ConnConnecting 0 false) None default_proxies
    default_connections default_profiles default_palette default_rules default_logs false None None None false
    MINIMUM_TERMINAL_WIDTH MINIMUM_TERMINAL_HEIGHT true None 1 1 1 1.

(** ** Small helpers *)

(** [counter.wrapping_add(1).max(1)] *)
Definition bump (n : Z) : Z := Z.max (wrapping_add n 1) 1.

Definition zget {A} (l : list A) (i : Z) : option A := l !! Z.to_nat i.
Definition ztake {A} (n : Z) (l : list A) : list A := take (Z.to_nat n) l.
(** [iter().position(p)] *)
Definition zposition {A} (P : A → bool) (l : list A) : option Z :=
  (λ p, Z.of_nat p.1) <$> list_find (λ x, P x = true) l.
(** [String::push] and [String::pop]. *)
Definition push_char (s : str) (c : char) : str := s ++ [c].
Definition pop_char (s : str) : str := removelast s.

Definition clamp_index (index length : Z) : Z := Z.min index (saturating_sub length 1).

Definition moved_index (index length delta : Z) : Z :=
  if length =? 0 then 0
  else if delta <? 0 then saturating_sub index (Z.abs delta)
  else Z.min (saturating_add index delta) (length - 1).

Definition visible_window_start (current selected visible_count total : Z) : Z :=
  if (total =? 0) || (total <=? visible_count) then 0
  else if visible_count =? 0 then Z.min selected (saturating_sub total 1)
  else
    let current := Z.min current (saturating_sub total visible_count) in
    if selected <? current then selected
    else if saturating_add current visible_count <=? selected
    then Z.min (saturating_sub (saturating_add selected 1) visible_count) (saturating_sub total visible_count)
    else current.

(** ** Log queries *)

(** [str::split_whitespace], with the characters of the token so far. *)
Fixpoint split_whitespace_from (s token : str) : list str :=
  match s with
  | [] => if bool_decide (token = []) then [] else [token]
  | c :: rest =>
      if is_whitespace c
      then (if bool_decide (token = []) then [] else [token]) ++ split_whitespace_from rest []
      else split_whitespace_from rest (token ++ [c])
  end.
Definition split_whitespace (s : str) : list str := split_whitespace_from s [].

Definition parse_log_level_filter (value : str) : option LogLevelFilter :=
  if bool_decide (value = lit "all") then Some FilterAll
  else if bool_decide (value = lit "debug") then Some FilterDebug
  else if bool_decide (value = lit "info") then Some FilterInfo
  else if bool_decide (value = lit "warn") || bool_decide (value = lit "warning") then Some FilterWarn
  else if bool_decide (value = lit "error") then Some FilterError
  else None.

Record LogQuery := MkLogQuery {
  lq_since_unix_ms : option Z;
  lq_until_unix_ms : option Z;
  lq_level : option LogLevelFilter;
  lq_content_terms : list str;
}.

(** The body of the loop of [parse_log_query], on the token in lower case. *)
Definition log_query_token (q : LogQuery) (lower : str) : LogQuery :=
  match strip_prefix (lit "since:") lower ≫= parse_u64 with
  | Some v => MkLogQuery (Some v) (lq_until_unix_ms q) (lq_level q) (lq_content_terms q)
  | None =>
  match strip_prefix (lit "until:") lower ≫= parse_u64 with
  | Some v => MkLogQuery (lq_since_unix_ms q) (Some v) (lq_level q) (lq_content_terms q)
  | None =>
  match strip_prefix (lit "level:") lower ≫= parse_log_level_filter with
  | Some l => MkLogQuery (lq_since_unix_ms q) (lq_until_unix_ms q) (Some l) (lq_content_terms q)
  | None =>
  match strip_prefix (lit "content:") lower with
  | Some v =>
      if bool_decide (v = []) then q
      else MkLogQuery (lq_since_unix_ms q) (lq_until_unix_ms q) (lq_level q) (lq_content_terms q ++ [v])
  | None => MkLogQuery (lq_since_unix_ms q) (lq_until_unix_ms q) (lq_level q) (lq_content_terms q ++ [lower])
  end end end end.

(** [(Some(l), Some(r)) => Some(f(l, r)), (l, r) => l.or(r)] *)
Definition merge_bound (f : Z → Z → Z) (l r : option Z) : option Z :=
  match l, r with Some a, Some b => Some (f a b) | Some a, None => Some a | None, r => r end.

(** ** The queue of log lines *)

(** The [while] loop of [push_view_log]: records, bytes and evictions. *)
Fixpoint evict_logs (len : Z) (records : list ViewLogRecord) (bytes evicted : Z) : list ViewLogRecord * Z * Z :=
  match records with
  | [] => ([], bytes, evicted)
  | first :: rest =>
      if (zlen records =? LOG_CAPACITY) || (LOG_RETENTION_MAX_BYTES <? saturating_add bytes len)
      then evict_logs len rest (saturating_sub bytes (str_len (vl_message first))) (saturating_add evicted 1)
      else (records, bytes, evicted)
  end.

Definition push_view_log (record : ViewLogRecord) (logs : LogsState) : LogsState :=
  let len := str_len (vl_message record) in
  let '(records, bytes, evicted) := evict_logs len (lg_records logs) (lg_retained_bytes logs) (lg_evicted_total logs) in
  let logs := lg_set_records records (lg_set_retained_bytes bytes (lg_set_evicted_total evicted logs)) in
  if LOG_RETENTION_MAX_BYTES <? saturating_add bytes len
  then lg_set_gap true (lg_set_evicted_total (saturating_add evicted 1) logs)
  else lg_set_records (records ++ [record]) (lg_set_retained_bytes (saturating_add bytes len) logs).

Fixpoint push_view_logs (records : list ViewLogRecord) (logs : LogsState) : LogsState :=
  match records with
  | [] => logs
  | r :: rest => push_view_logs rest (push_view_log r logs)
  end.

Definition selected_log_position (logs : LogsState) (filtered_count : Z) : option Z :=
  if lg_follow logs then None
  else
    let back := saturating_add (lg_scroll logs) 1 in
    if back <=? filtered_count then Some (filtered_count - back) else None.

Definition visible_log_start (logs : LogsState) (filtered_count visible_count : Z) : Z :=
  match selected_log_position logs filtered_count with
  | None => saturating_sub filtered_count visible_count
  | Some selected => visible_window_start (lg_viewport_start logs) selected visible_count filtered_count
  end.

Section state.
Context (to_lowercase : str → str).

Definition parse_log_query (input : str) : LogQuery :=
  foldl (λ q token, log_query_token q (to_lowercase token)) (MkLogQuery None None None []) (split_whitespace input).

Definition log_record_matches (logs : LogsState) (q : LogQuery) (r : ViewLogRecord) : bool :=
  bool_decide (vl_source r = CoreApi)
  && (bool_decide (is_Some (lq_level q)) || level_matches (lg_level_filter logs) (vl_level r))
  && (match lq_level q with Some l => level_matches l (vl_level r) | None => true end)
  && (match merge_bound Z.max (lg_since_unix_ms logs) (lq_since_unix_ms q) with
      | Some since => since <=? vl_timestamp_unix_ms r | None => true end)
  && (match merge_bound Z.min (lg_until_unix_ms logs) (lq_until_unix_ms q) with
      | Some until => vl_timestamp_unix_ms r <=? until | None => true end)
  && forallb (λ term, contains_str term (to_lowercase (vl_message r))) (lq_content_terms q).

(** The positions at which [P] holds. *)
Fixpoint indices_from {A} (P : A → bool) (i : Z) (l : list A) : list Z :=
  match l with
  | [] => []
  | x :: rest => if P x then i :: indices_from P (i + 1) rest else indices_from P (i + 1) rest
  end.

Definition filtered_log_indices (logs : LogsState) : list Z :=
  indices_from (log_record_matches logs (parse_log_query (lg_search logs))) 0 (lg_records logs).

Definition filtered_profiles (p : ProfilesState) : list ProfileRow :=
  let needle := to_lowercase (fs_filter p) in
  filter (λ row, (bool_decide (needle = []) || contains_str needle (to_lowercase (pf_name row))) = true) (fs_rows p).

Definition rule_row_matches (needle : str) (row : RuleRow) : bool :=
  bool_decide (needle = []) || contains_str needle (to_lowercase (rr_rule_string row))
  || contains_str needle (to_lowercase (rr_policy_target row)).
Definition filtered_rule_indices (r : RulesState) : list Z :=
  indices_from (rule_row_matches (to_lowercase (rs_filter r))) 0 (rs_rows r).
(** [state.rows[index]]: the indices are those of rows. *)
Definition filtered_rules (r : RulesState) : list RuleRow :=
  omap (zget (rs_rows r)) (filtered_rule_indices r).

Definition filtered_palette_actions (p : CommandPaletteState) : list CommandPaletteAction :=
  let needle := to_lowercase (cp_query p) in
  filter (λ a, (bool_decide (needle = []) || contains_str needle (palette_label a)
                || contains_str needle (to_lowercase (palette_description a))) = true) palette_actions.

(** ** Methods of [AppState] *)

Definition publish_interaction_map (map : InteractionMap) (s : AppState) : AppState :=
  st_set_render_dirty false (st_set_interaction_map (Some map) (st_set_next_frame_revision (bump (im_frame_revision map)) s)).
Definition frame_revision (s : AppState) : Z :=
  match st_interaction_map s with Some map => im_frame_revision map | None => 0 end.
Definition take_request_id (s : AppState) : RequestId * AppState :=
  (MkRequestId (st_next_request_id s), st_set_next_request_id (bump (st_next_request_id s)) s).
Definition bump_view_revision (s : AppState) : AppState := st_set_view_revision (bump (st_view_revision s)) s.
Definition bump_status_revision (s : AppState) : AppState := st_set_status_revision (bump (st_status_revision s)) s.

Definition accepts_snapshot_refresh (s : AppState) (generation base_view_revision : Z) : bool :=
  (generation =? cn_generation (st_connection s))
  && bool_decide (cn_status (st_connection s) = ConnConnected)
  && (match st_pending s with None => true | Some _ => false end)
  && (base_view_revision =? st_view_revision s).

Definition filtered_profile_count (s : AppState) : Z := zlen (filtered_profiles (st_profiles s)).
Definition filtered_rule_count (s : AppState) : Z := zlen (filtered_rules (st_rules s)).
Definition filtered_log_count (s : AppState) : Z := zlen (filtered_log_indices (st_logs s)).
Definition connection_record_count (s : AppState) : Z :=
  match st_status s with Some status => zlen (ss_connections status) | None => 0 end.
Definition runtime_generation_of (s : AppState) : option Z := st_status s ≫= ss_runtime_generation.

Definition clamp_connections (s : AppState) (c : ConnectionsState) : ConnectionsState :=
  let selected := clamp_index (cx_selected c) (connection_record_count s) in
  MkConnectionsState selected (Z.min (cx_scroll c) selected).

Definition clamp_logs (count : Z) (l : LogsState) : LogsState :=
  let l := lg_set_scroll (if lg_follow l then 0 else clamp_index (lg_scroll l) count) l in
  lg_set_viewport_start (Z.min (lg_viewport_start l) (saturating_sub count 1)) l.

Definition clamp_selections (s : AppState) : AppState :=
  let px := st_proxies s in
  let px := px_set_group_cursor (clamp_index (px_group_cursor px) (zlen (px_groups px))) px in
  let px := px_set_selected (clamp_index (px_selected px) (zlen (px_rows px))) px in
  let s := st_set_proxies px s in
  let s := st_set_profiles (fs_set_selected (clamp_index (fs_selected (st_profiles s)) (filtered_profile_count s)) (st_profiles s)) s in
  let s := st_set_rules (rs_set_selected (clamp_index (rs_selected (st_rules s)) (filtered_rule_count s)) (st_rules s)) s in
  let s := st_set_connections (clamp_connections s (st_connections s)) s in
  st_set_logs (clamp_logs (filtered_log_count s) (st_logs s)) s.

Definition group_position (name : option str) (groups : list ProxyGroupRow) : option Z :=
  name ≫= λ n, zposition (λ g, bool_decide (pg_name g = n)) groups.

Definition replace_snapshot (generation : Z) (snapshot : FullViewSnapshot) (s : AppState) : AppState :=
  let groups := ztake MAX_ACTIVE_NODES (fv_proxy_groups snapshot) in
  let rows := ztake MAX_ACTIVE_NODES (fv_proxies snapshot) in
  let selected_group := pr_group <$> head rows in
  let px := st_proxies s in
  let px := MkProxiesState groups (default 0 (group_position selected_group groups)) rows selected_group None None
              (px_selected px) (px_scroll px) in
  let fs := fs_set_rows (ztake PROFILE_VIEW_CAPACITY (fv_profiles snapshot))
              (fs_set_activation_pending None (st_profiles s)) in
  let ru := rs_set_load_pending None (rs_set_loaded_connection_generation None
              (rs_set_loaded_runtime_generation None (rs_set_load_error None (st_rules s)))) in
  let lg := st_logs s in
  let lg := lg_set_gap false (lg_set_dropped_total (Z.max (lg_dropped_total lg) (fv_dropped_logs snapshot))
              (lg_set_retained_bytes 0 (lg_set_records [] lg))) in
  let s := bump_status_revision (bump_view_revision s) in
  let s := st_set_pending None (st_set_profiles fs (st_set_proxies px (st_set_rules ru s))) in
  let s := st_set_connections default_connections s in
  let s := st_set_connection (MkConnectionState ConnConnected generation false) s in
  let s := st_set_logs (push_view_logs (fv_logs snapshot) lg) s in
  let s := clamp_selections (st_set_status (Some (fv_status snapshot)) s) in
  st_set_render_dirty true s.

Definition set_status_preserving_connection_selection (status : StatusSnapshot) (s : AppState) : AppState :=
  let selected :=
    st_status s ≫= λ current,
    zget (ss_connections current) (cx_selected (st_connections s)) ≫= λ c,
    if bool_decide (cr_id c = []) then None else Some (cr_id c) in
  let s := st_set_status (Some status) s in
  let s :=
    match selected ≫= λ id, zposition (λ c, bool_decide (cr_id c = id)) (ss_connections status) with
    | Some index => st_set_connections (cx_set_selected index (st_connections s)) s
    | None => s
    end in
  st_set_connections (clamp_connections s (st_connections s)) s.

(** [refresh_snapshot] when there is something to take over. *)
Definition adopt_snapshot (s : AppState) (replace_proxies replace_status : bool) (proxies : list ProxyRow)
    (groups : list ProxyGroupRow) (profiles : list ProfileRow) (status : StatusSnapshot) : AppState :=
  let selected_proxy := zget (px_rows (st_proxies s)) (px_selected (st_proxies s)) ≫= pr_node_id in
  let selected_profile := pf_id <$> zget (filtered_profiles (st_profiles s)) (fs_selected (st_profiles s)) in
  let focused_group := pg_name <$> zget (px_groups (st_proxies s)) (px_group_cursor (st_proxies s)) in
  let px := st_proxies s in
  let px := if replace_proxies then px_set_rows proxies px else px in
  let px := px_set_groups groups px in
  let px :=
    match (if replace_proxies then selected_proxy else None) ≫= λ selected,
          zposition (λ row, bool_decide (pr_node_id row = Some selected)) (px_rows px) with
    | Some index => px_set_selected index px
    | None => px
    end in
  let fs := fs_set_rows profiles (st_profiles s) in
  let fs :=
    match selected_profile ≫= λ selected, zposition (λ row, pf_id row =? selected) (filtered_profiles fs) with
    | Some index => fs_set_selected index fs
    | None => fs
    end in
  let s := st_set_profiles fs (st_set_proxies px s) in
  let s := if replace_status then bump_status_revision (set_status_preserving_connection_selection status s) else s in
  let s := st_set_connection (cn_set_snapshot_stale false (st_connection s)) s in
  let px := st_proxies s in
  let px := if replace_proxies then px_set_selected_group (pr_group <$> head (px_rows px)) px else px in
  let px := px_set_group_cursor
              (default 0 (match group_position focused_group (px_groups px) with
                          | Some i => Some i
                          | None => group_position (px_selected_group px) (px_groups px)
                          end)) px in
  st_set_render_dirty true (bump_view_revision (clamp_selections (st_set_proxies px s))).

Definition refresh_snapshot (generation base_view_revision base_status_revision : Z) (snapshot : FullViewSnapshot)
    (s : AppState) : AppState :=
  if negb (accepts_snapshot_refresh s generation base_view_revision) then s
  else
    let proxies := ztake MAX_ACTIVE_NODES (fv_proxies snapshot) in
    let groups := ztake MAX_ACTIVE_NODES (fv_proxy_groups snapshot) in
    let replace_proxies :=
      match px_selected_group (st_proxies s) with
      | None => true
      | Some selected => bool_decide (Some selected = pr_group <$> head proxies)
      end in
    let profiles := ztake PROFILE_VIEW_CAPACITY (fv_profiles snapshot) in
    let replace_status := base_status_revision =? st_status_revision s in
    if (negb replace_status || bool_decide (st_status s = Some (fv_status snapshot)))
       && (negb replace_proxies || bool_decide (px_rows (st_proxies s) = proxies))
       && bool_decide (px_groups (st_proxies s) = groups)
       && bool_decide (fs_rows (st_profiles s) = profiles)
       && negb (cn_snapshot_stale (st_connection s))
    then s
    else adopt_snapshot s replace_proxies replace_status proxies groups profiles (fv_status snapshot).

Definition rules_projection_ready (s : AppState) : bool :=
  bool_decide (cn_status (st_connection s) = ConnConnected)
  && rs_initialized (st_rules s)
  && bool_decide (rs_load_error (st_rules s) = None)
  && (match rs_load_pending (st_rules s) with None => true | Some _ => false end)
  && bool_decide (rs_loaded_connection_generation (st_rules s) = Some (cn_generation (st_connection s)))
  && (match st_status s with
      | Some status => bool_decide (rs_loaded_runtime_generation (st_rules s) = ss_runtime_generation status)
      | None => false
      end).

Definition modal_action_pending (s : AppState) : bool :=
  match st_pending s with
  | None => false
  | Some pending =>
      match st_modal s, po_kind pending with
      | Some (ModalRuleEditor None _), PendAddRule
      | Some (ModalRuleEditor (Some _) _), PendReplaceRule
      | Some (ModalRuleRemovalConfirmation _), PendRemoveRule
      | Some (ModalLifecycleConfirmation PaletteRestartSupervisor), PendRestartSupervisor
      | Some (ModalLifecycleConfirmation PaletteStopSupervisor), PendStopSupervisor => true
      | _, _ => false
      end
  end.
End state.
