(* ===== verification/TuiReducer.v ===== *)
(** * TuiReducer: input and transitions of the Status Interface
    (src/tui/reducer.rs, src/tui/input.rs)

    A function of [&mut AppState] that returns commands takes the state and returns
    the new one with the commands. *)

From S2P Require Import Prelude Text Constants Domain Frame Telemetry Application TuiState.
Local Open Scope Z_scope.

(** ** Events and commands *)

Inductive KeyInput :=
| KeyCharacter (c : char) | KeyEnter | KeyEscape | KeyTab | KeyBackTab | KeyUp | KeyDown | KeyLeft | KeyRight
| KeyBackspace.
#[global] Instance KeyInput_eq_dec : EqDecision KeyInput.
Proof. solve_decision. Defined.
Inductive MouseInputKind := MouseLeftClick | MouseScrollUp | MouseScrollDown.
Record MouseInput := MkMouseInput { mi_kind : MouseInputKind; mi_column : Z; mi_row : Z }.
Inductive TerminalInput := TermKey (key : KeyInput) | TermMouse (mouse : MouseInput).

Inductive UiEvent :=
| EvTerminal (input : TerminalInput)
| EvIntent (intent : UiIntent)
| EvConnected (connection_generation : Z) (snapshot : FullViewSnapshot)
| EvDisconnected (connection_generation : Z)
| EvStatusSnapshot (connection_generation : Z) (status : StatusSnapshot)
| EvSnapshotRefreshed (connection_generation base_view_revision base_status_revision : Z) (snapshot : FullViewSnapshot)
| EvSnapshotRefreshFailed (connection_generation base_view_revision : Z)
| EvProxyGroupLoaded (request_id : RequestId) (connection_generation : Z) (outcome : result ProxyGroupSnapshot str)
| EvRulesLoaded (request_id : RequestId) (connection_generation : Z) (outcome : result RuleListSnapshot str)
| EvLogBatch (connection_generation : Z) (records : list ViewLogRecord) (gap : bool) (dropped_total : Z)
| EvCommandResult (request_id : RequestId) (connection_generation : Z) (outcome : result str str)
| EvReconnectDeadline (connection_generation : Z)
| EvResize (width height : Z)
| EvShutdown.

Inductive Command :=
| DoConnect (connection_generation : Z)
| DoScheduleReconnect (connection_generation : Z)
| DoActivateProfile (request_id : RequestId) (connection_generation : Z) (profile_id : Z)
| DoSelectNode (request_id : RequestId) (connection_generation : Z) (group_id node_id : str)
| DoFetchProxyGroup (request_id : RequestId) (connection_generation : Z) (group_id : str)
| DoFetchRules (request_id : RequestId) (connection_generation : Z)
| DoAddRule (request_id : RequestId) (connection_generation : Z) (rule : str)
| DoReplaceRule (request_id : RequestId) (connection_generation : Z) (old_rule new_rule : str)
| DoRemoveRule (request_id : RequestId) (connection_generation : Z) (rule : str)
| DoRestartSupervisor (request_id : RequestId) (connection_generation : Z)
| DoStopSupervisor (request_id : RequestId) (connection_generation : Z)
| DoFetchLogTail (connection_generation : Z) (after_sequence : option Z)
| DoRefreshSnapshot (connection_generation base_view_revision base_status_revision : Z)
| DoCancel (request_id : RequestId).

Abbreviation reduction := (AppState * list Command)%type.

(** [commands.extend(..)] *)
Definition and_then (m : reduction) (f : AppState → reduction) : reduction :=
  let '(s, commands) := f m.1 in (s, m.2 ++ commands).
Definition silently (s : AppState) : reduction := (s, []).

Definition generation (s : AppState) : Z := cn_generation (st_connection s).
Definition is_connected (s : AppState) : bool := bool_decide (cn_status (st_connection s) = ConnConnected).
Definition modal_is (s : AppState) (m : Modal) : bool := bool_decide (st_modal s = Some m).
Definition no_modal (s : AppState) : bool := match st_modal s with None => true | Some _ => false end.
Definition has_group_load (s : AppState) : bool :=
  match px_group_load_pending (st_proxies s) with None => false | Some _ => true end.
Definition show (modal : option Modal) (focus : Focus) (s : AppState) : AppState :=
  st_set_focus focus (st_set_modal modal s).

(** ** Cancellation *)

Definition cancel_mutation (s : AppState) : reduction :=
  match st_pending s with
  | None => silently s
  | Some pending =>
      let s := st_set_pending None s in
      let s := if bool_decide (po_kind pending = PendActivateProfile)
               then st_set_profiles (fs_set_activation_pending None (st_profiles s)) s else s in
      (st_set_proxies (px_set_selection_pending None (st_proxies s)) s, [DoCancel (po_request_id pending)])
  end.
Definition cancel_group_load (s : AppState) : reduction :=
  match px_group_load_pending (st_proxies s) with
  | None => silently s
  | Some pending =>
      (st_set_proxies (px_set_group_load_pending None (st_proxies s)) s, [DoCancel (gl_request_id pending)])
  end.
Definition cancel_rule_load (s : AppState) : reduction :=
  match rs_load_pending (st_rules s) with
  | None => silently s
  | Some pending => (st_set_rules (rs_set_load_pending None (st_rules s)) s, [DoCancel (rl_request_id pending)])
  end.
Definition cancel_pending (s : AppState) : reduction :=
  and_then (and_then (cancel_mutation s) cancel_group_load) cancel_rule_load.

(** Issues the request [command id], as [kind], in place of whatever is pending. *)
Definition issue (kind : PendingOperationKind) (command : RequestId → Z → Command) (mark : AppState → AppState)
    (s : AppState) : reduction :=
  let '(request_id, s) := take_request_id s in
  and_then (cancel_pending s) (λ s,
    let s := mark (st_set_pending (Some (MkPendingOperation request_id (generation s) kind)) s) in
    (bump_view_revision s, [command request_id (generation s)])).

(** ** Rules *)

Definition issue_rule_load (s : AppState) : reduction :=
  if negb (is_connected s) then silently s
  else
    let '(request_id, s) := take_request_id s in
    and_then (cancel_rule_load s) (λ s,
      (st_set_rules
         (rs_set_load_pending (Some (MkPendingRuleLoad request_id (generation s) (runtime_generation_of s)))
            (rs_set_load_error None (st_rules s))) s,
       [DoFetchRules request_id (generation s)])).

Definition ensure_rules_loaded (s : AppState) : reduction :=
  let ru := st_rules s in
  if negb (is_connected s)
     || (bool_decide (rs_loaded_connection_generation ru = Some (generation s))
         && bool_decide (rs_loaded_runtime_generation ru = runtime_generation_of s))
     || (match rs_load_pending ru with
         | Some pending => (rl_connection_generation pending =? generation s)
                           && bool_decide (rl_runtime_generation pending = runtime_generation_of s)
         | None => false
         end)
  then silently s
  else issue_rule_load s.

Definition invalidate_rule_cache (s : AppState) : reduction :=
  and_then (cancel_rule_load s) (λ s,
    silently (st_set_rules (rs_set_loaded_connection_generation None (rs_set_loaded_runtime_generation None
                (rs_set_load_error None (st_rules s)))) s)).

Definition load_rules_on_page (s : AppState) : reduction :=
  if bool_decide (st_page s = PageRules) then ensure_rules_loaded s else silently s.

Section reducer.
Context (to_lowercase : str → str).
Abbreviation ready := (rules_projection_ready).

Definition visible_row_count (s : AppState) : Z :=
  match st_interaction_map s ≫= λ map, last (im_scroll_regions map) with
  | None => u64_max
  | Some region =>
      let height := rc_height (si_area region) in
      if modal_is s ModalProfiles || bool_decide (st_page s = PageLogs) then height else saturating_sub height 1
  end.

Inductive ListSelection := ListProfiles | ListProxies | ListConnections | ListRules.

Definition keep_selection_visible (l : ListSelection) (s : AppState) : AppState :=
  let visible := visible_row_count s in
  match l with
  | ListProfiles =>
      let fs := st_profiles s in
      st_set_profiles (fs_set_scroll (visible_window_start (fs_scroll fs) (fs_selected fs) visible
                                        (filtered_profile_count to_lowercase s)) fs) s
  | ListProxies =>
      let px := st_proxies s in
      st_set_proxies (px_set_scroll (visible_window_start (px_scroll px) (px_selected px) visible (zlen (px_rows px))) px) s
  | ListConnections =>
      let cx := st_connections s in
      st_set_connections (cx_set_scroll (visible_window_start (cx_scroll cx) (cx_selected cx) visible
                                           (connection_record_count s)) cx) s
  | ListRules =>
      let ru := st_rules s in
      st_set_rules (rs_set_scroll (visible_window_start (rs_scroll ru) (rs_selected ru) visible
                                     (filtered_rule_count to_lowercase s)) ru) s
  end.

Definition open_rule_editor (original : option str) (s : AppState) : AppState :=
  show (Some (ModalRuleEditor original (default [] original))) FocusModal s.
Definition selected_rule (s : AppState) : option str :=
  rr_rule_string <$> zget (filtered_rules to_lowercase (st_rules s)) (rs_selected (st_rules s)).
Definition open_selected_rule_editor (s : AppState) : AppState :=
  match selected_rule s with Some rule => open_rule_editor (Some rule) s | None => s end.
Definition request_selected_rule_removal (s : AppState) : AppState :=
  match selected_rule s with
  | Some rule => show (Some (ModalRuleRemovalConfirmation rule)) FocusModal s
  | None => s
  end.

Definition submit_rule_editor (s : AppState) : reduction :=
  if negb (ready s) || modal_action_pending s then silently s
  else
    match st_modal s with
    | Some (ModalRuleEditor original value) =>
        if bool_decide (value = []) then silently (st_set_toast (Some (lit "Error: Rule String is required")) s)
        else if bool_decide (original = Some value) then silently (st_set_toast (Some (lit "Rule String is unchanged")) s)
        else
          match original with
          | Some old_rule => issue PendReplaceRule (λ id g, DoReplaceRule id g old_rule value) id s
          | None => issue PendAddRule (λ id g, DoAddRule id g value) id s
          end
    | _ => silently s
    end.

Definition confirm_rule_removal (s : AppState) : reduction :=
  if negb (ready s) || modal_action_pending s then silently s
  else
    match st_modal s with
    | Some (ModalRuleRemovalConfirmation rule) => issue PendRemoveRule (λ id g, DoRemoveRule id g rule) id s
    | _ => silently s
    end.

(** ** Profiles, nodes and lifecycle *)

(** With [Profiles] the request number is taken and what is pending is cancelled all the same, and the
    commands are dropped. *)
Definition issue_lifecycle_action (action : CommandPaletteAction) (s : AppState) : reduction :=
  match action with
  | PaletteRestartSupervisor => issue PendRestartSupervisor DoRestartSupervisor id s
  | PaletteStopSupervisor => issue PendStopSupervisor DoStopSupervisor id s
  | PaletteProfiles => silently (cancel_pending (take_request_id s).2).1
  end.

Definition open_profiles (s : AppState) : AppState :=
  let s := show (Some ModalProfiles) FocusContent s in
  st_set_profiles (fs_set_selected (clamp_index (fs_selected (st_profiles s)) (filtered_profile_count to_lowercase s))
                     (st_profiles s)) s.

Definition run_palette_action (action : CommandPaletteAction) (s : AppState) : reduction :=
  match action with
  | PaletteProfiles => silently (open_profiles s)
  | PaletteRestartSupervisor => issue_lifecycle_action action s
  | PaletteStopSupervisor => silently (show (Some (ModalLifecycleConfirmation action)) FocusModal s)
  end.

Definition confirm_lifecycle_action (s : AppState) : reduction :=
  match st_modal s with
  | Some (ModalLifecycleConfirmation action) =>
      if modal_action_pending s then silently s else issue_lifecycle_action action s
  | _ => silently s
  end.

Definition issue_profile_activation (profile_id : Z) (s : AppState) : reduction :=
  issue PendActivateProfile (λ id g, DoActivateProfile id g profile_id)
    (λ s, st_set_profiles (fs_set_activation_pending (Some profile_id) (st_profiles s)) s) s.

Definition find_group (group_id : str) (s : AppState) : option (Z * ProxyGroupRow) :=
  (λ p, (Z.of_nat p.1, p.2)) <$> list_find (λ g, pg_id g = group_id) (px_groups (st_proxies s)).

Definition issue_node_selection (group_id node_id : str) (s : AppState) : reduction :=
  match find_group group_id s with
  | Some (_, group) =>
      if pg_selectable group
      then issue PendSelectNode (λ id g, DoSelectNode id g group_id node_id)
             (λ s, st_set_proxies (px_set_selection_pending (Some (group_id, node_id))
                                     (px_set_selected_group (Some (pg_name group)) (st_proxies s))) s) s
      else silently s
  | None => silently s
  end.

Definition narrow (s : AppState) : bool := st_terminal_width s <? 90.
Definition focus_content_if_narrow (s : AppState) : AppState := if narrow s then st_set_focus FocusContent s else s.

Definition issue_proxy_group_load (group_id : str) (s : AppState) : reduction :=
  match find_group group_id s with
  | None => silently s
  | Some (index, group) =>
      let s := st_set_proxies (px_set_group_cursor index (st_proxies s)) s in
      if bool_decide (px_selected_group (st_proxies s) = Some (pg_name group)) && negb (has_group_load s)
      then silently (focus_content_if_narrow s)
      else
        let '(request_id, s) := take_request_id s in
        and_then (cancel_group_load s) (λ s,
          (st_set_proxies (px_set_group_load_pending
                             (Some (MkPendingProxyGroupLoad request_id (generation s) group_id)) (st_proxies s)) s,
           [DoFetchProxyGroup request_id (generation s) group_id]))
  end.

(** ** Focus, pages and text *)

Definition switch_page (page : Page) (s : AppState) : reduction :=
  let s := st_set_focus FocusContent (st_set_zoomed_focus false (st_set_modal None (st_set_page page s))) in
  load_rules_on_page s.

Definition available_focuses (s : AppState) : list Focus :=
  match st_modal s with
  | Some ModalProfiles => [FocusContent; FocusSearch]
  | Some _ => [FocusModal]
  | None =>
      match st_page s with
      | PageProxies => [FocusTabs; FocusProxyGroups; FocusContent; FocusFooterHelp; FocusFooterQuit]
      | PageConnections => [FocusTabs; FocusContent; FocusFooterHelp; FocusFooterQuit]
      | PageRules | PageLogs => [FocusTabs; FocusContent; FocusSearch; FocusFooterHelp; FocusFooterQuit]
      end
  end.

Definition move_focus (delta : Z) (s : AppState) : AppState :=
  let focuses := available_focuses s in
  let index := default 0 (zposition (λ f, bool_decide (f = st_focus s)) focuses) in
  let next := if delta <? 0 then (if 1 <=? index then index - 1 else zlen focuses - 1)
              else (index + 1) mod zlen focuses in
  st_set_focus (nth (Z.to_nat next) focuses FocusTabs) s.

Definition move_horizontal_focus (delta : Z) (s : AppState) : AppState :=
  if no_modal s && bool_decide (st_page s = PageProxies) then
    match st_focus s, delta <? 0 with
    | FocusContent, true => st_set_focus FocusProxyGroups s
    | FocusProxyGroups, false => st_set_focus FocusContent s
    | _, _ => s
    end
  else s.

Definition normalize_focus (s : AppState) : AppState :=
  let focuses := available_focuses s in
  if bool_decide (st_focus s ∈ focuses) then s else st_set_focus (nth 0 focuses FocusTabs) s.

Definition is_searchable (p : Page) : bool := match p with PageRules | PageLogs => true | _ => false end.
Definition search_available (s : AppState) : bool :=
  modal_is s ModalProfiles || (no_modal s && is_searchable (st_page s)).

Definition follow_logs (l : LogsState) : LogsState :=
  lg_set_viewport_start 0 (lg_set_scroll 0 (lg_set_follow true l)).

Definition escape (s : AppState) : AppState :=
  if modal_is s ModalProfiles && bool_decide (st_focus s = FocusSearch) then st_set_focus FocusContent s
  else if negb (no_modal s) then show None FocusContent s
  else if bool_decide (st_focus s = FocusSearch) then st_set_focus FocusContent s
  else if st_zoomed_focus s then st_set_zoomed_focus false s
  else if bool_decide (st_page s = PageLogs) && negb (lg_follow (st_logs s)) then st_set_logs (follow_logs (st_logs s)) s
  else if bool_decide (st_page s = PageProxies) && bool_decide (st_focus s = FocusContent) && narrow s
  then st_set_focus FocusProxyGroups s
  else st_set_focus FocusContent s.

(** [current_search_mut], as a lens. *)
Inductive SearchField := SearchProfiles | SearchRules | SearchLogs.
Definition current_search (s : AppState) : option SearchField :=
  if modal_is s ModalProfiles then Some SearchProfiles
  else match st_page s with
       | PageProxies | PageConnections => None
       | PageRules => Some SearchRules
       | PageLogs => Some SearchLogs
       end.
Definition search_text (f : SearchField) (s : AppState) : str :=
  match f with
  | SearchProfiles => fs_filter (st_profiles s)
  | SearchRules => rs_filter (st_rules s)
  | SearchLogs => lg_search (st_logs s)
  end.
Definition set_search_text (f : SearchField) (v : str) (s : AppState) : AppState :=
  match f with
  | SearchProfiles => st_set_profiles (fs_set_filter v (st_profiles s)) s
  | SearchRules => st_set_rules (rs_set_filter v (st_rules s)) s
  | SearchLogs => st_set_logs (lg_set_search v (st_logs s)) s
  end.

Definition search_fits (text : str) (c : char) : bool :=
  (zlen text <? TUI_SEARCH_MAX_CHARACTERS)
  && (saturating_add (str_len text) (char_len_utf8 c) <=? TUI_SEARCH_MAX_BYTES).

Definition set_palette_query (q : str) (s : AppState) : AppState :=
  let cp := cp_set_query q (st_command_palette s) in
  st_set_command_palette (cp_set_selected (clamp_index (cp_selected cp) (zlen (filtered_palette_actions to_lowercase cp))) cp) s.

Definition append_input (c : char) (s : AppState) : AppState :=
  if is_control c then s
  else
    match st_modal s with
    | Some ModalCommandPalette =>
        let query := cp_query (st_command_palette s) in
        if search_fits query c then set_palette_query (push_char query c) s else s
    | Some (ModalRuleEditor original value) =>
        if saturating_add (str_len value) (char_len_utf8 c) <=? RULE_STRING_MAX_BYTES
        then st_set_modal (Some (ModalRuleEditor original (push_char value c))) s else s
    | _ =>
        match current_search s with
        | Some f =>
            if search_fits (search_text f s) c
            then clamp_selections to_lowercase (set_search_text f (push_char (search_text f s) c) s) else s
        | None => s
        end
    end.

Definition backspace_input (s : AppState) : AppState :=
  match st_modal s with
  | Some ModalCommandPalette => set_palette_query (pop_char (cp_query (st_command_palette s))) s
  | Some (ModalRuleEditor original value) => st_set_modal (Some (ModalRuleEditor original (pop_char value))) s
  | _ =>
      clamp_selections to_lowercase
        (match current_search s with
         | Some f => set_search_text f (pop_char (search_text f s)) s
         | None => s
         end)
  end.

(** ** Selections *)

Definition selected_log_sequence (s : AppState) : option Z :=
  let row_indices := filtered_log_indices to_lowercase (st_logs s) in
  position ← selected_log_position (st_logs s) (zlen row_indices);
  index ← zget row_indices position;
  record ← zget (lg_records (st_logs s)) index;
  Some (vl_sequence record).

Definition restore_log_selection (sequence : Z) (s : AppState) : AppState :=
  let row_indices := filtered_log_indices to_lowercase (st_logs s) in
  let is_it index := match zget (lg_records (st_logs s)) index with Some r => vl_sequence r =? sequence | None => false end in
  st_set_logs
    (lg_set_scroll
       (match zposition is_it row_indices with
        | Some position => saturating_sub (zlen row_indices) (saturating_add position 1)
        | None => clamp_index (lg_scroll (st_logs s)) (zlen row_indices)
        end) (st_logs s)) s.

Definition move_log_selection (delta : Z) (s : AppState) : AppState :=
  let filtered_count := filtered_log_count to_lowercase s in
  if 0 <? filtered_count then
    let visible := visible_row_count s in
    let was_following := lg_follow (st_logs s) in
    let l := lg_set_follow false (st_logs s) in
    let l := lg_set_scroll (if delta <? 0 then Z.min (saturating_add (lg_scroll l) 1) (filtered_count - 1)
                            else saturating_sub (lg_scroll l) 1) l in
    let selected := default (saturating_sub filtered_count 1) (selected_log_position l filtered_count) in
    let start := if was_following then saturating_sub filtered_count visible else lg_viewport_start l in
    st_set_logs (lg_set_viewport_start (visible_window_start start selected visible filtered_count) l) s
  else s.

Definition move_selection (delta : Z) (s : AppState) : AppState :=
  if modal_is s ModalCommandPalette then
    let cp := st_command_palette s in
    st_set_command_palette
      (cp_set_selected (moved_index (cp_selected cp) (zlen (filtered_palette_actions to_lowercase cp)) delta) cp) s
  else if modal_is s ModalProfiles then
    let fs := st_profiles s in
    keep_selection_visible ListProfiles
      (st_set_profiles (fs_set_selected (moved_index (fs_selected fs) (filtered_profile_count to_lowercase s) delta) fs) s)
  else
    match st_page s with
    | PageProxies =>
        let px := st_proxies s in
        keep_selection_visible ListProxies
          (st_set_proxies (px_set_selected (moved_index (px_selected px) (zlen (px_rows px)) delta) px) s)
    | PageConnections =>
        let cx := st_connections s in
        keep_selection_visible ListConnections
          (st_set_connections (cx_set_selected (moved_index (cx_selected cx) (connection_record_count s) delta) cx) s)
    | PageRules =>
        if ready s then
          let ru := st_rules s in
          keep_selection_visible ListRules
            (st_set_rules (rs_set_selected (moved_index (rs_selected ru) (filtered_rule_count to_lowercase s) delta) ru) s)
        else s
    | PageLogs => move_log_selection delta s
    end.

Definition move_proxy_group (delta : Z) (s : AppState) : AppState :=
  let px := st_proxies s in
  st_set_proxies (px_set_group_cursor (moved_index (px_group_cursor px) (zlen (px_groups px)) delta) px) s.

Definition select_rule (index : Z) (s : AppState) : AppState :=
  if ready s then
    let s := st_set_rules (rs_set_selected (clamp_index index (filtered_rule_count to_lowercase s)) (st_rules s)) s in
    st_set_focus FocusContent (keep_selection_visible ListRules s)
  else s.

Definition select_connection (index : Z) (s : AppState) : AppState :=
  let s := st_set_connections (cx_set_selected (clamp_index index (connection_record_count s)) (st_connections s)) s in
  st_set_focus FocusContent (keep_selection_visible ListConnections s).

Definition select_log (tail_offset : Z) (s : AppState) : AppState :=
  let filtered_count := filtered_log_count to_lowercase s in
  if bool_decide (st_page s = PageLogs) && no_modal s && (tail_offset <? filtered_count) then
    let start := visible_log_start (st_logs s) filtered_count (visible_row_count s) in
    st_set_focus FocusContent
      (st_set_logs (lg_set_scroll tail_offset (lg_set_follow false (lg_set_viewport_start start (st_logs s)))) s)
  else s.

Definition toggle_log_pause (s : AppState) : reduction :=
  let l := st_logs s in
  if lg_paused l
  then (st_set_logs (lg_set_paused_anchor None (follow_logs (lg_set_paused false l))) s,
        [DoFetchLogTail (generation s) (lg_paused_anchor l)])
  else silently (st_set_logs (lg_set_paused_anchor (vl_sequence <$> last (lg_records l))
                                (lg_set_follow false (lg_set_paused true l))) s).

Definition open_command_palette (s : AppState) : AppState :=
  let s := show (Some ModalCommandPalette) FocusModal s in
  set_palette_query (cp_query (st_command_palette s)) s.

(** [activate_selected]; its use of [apply_intent] is that of one intent. *)
Definition activate_selected (s : AppState) : reduction :=
  if modal_is s ModalCommandPalette then
    match zget (filtered_palette_actions to_lowercase (st_command_palette s)) (cp_selected (st_command_palette s)) with
    | Some action => run_palette_action action s
    | None => silently s
    end
  else if modal_is s ModalProfiles then
    match zget (filtered_profiles to_lowercase (st_profiles s)) (fs_selected (st_profiles s)) with
    | Some row => issue_profile_activation (pf_id row) s
    | None => silently s
    end
  else
    match st_page s with
    | PageProxies =>
        if has_group_load s then silently s
        else
          match zget (px_rows (st_proxies s)) (px_selected (st_proxies s)) with
          | Some row =>
              match pr_node_id row with
              | Some node_id => issue_node_selection (pr_group_id row) node_id s
              | None => silently s
              end
          | None => silently s
          end
    | PageRules => if ready s then silently (open_selected_rule_editor s) else silently s
    | PageConnections => silently s
    | PageLogs => let '(s, commands) := toggle_log_pause s in (st_set_render_dirty true s, commands)
    end.

(** ** Intents *)

Definition when_ready (f : AppState → AppState) (s : AppState) : AppState := if ready s then f s else s.

Definition dispatch_intent (intent : UiIntent) (s : AppState) : reduction :=
  match intent with
  | ISwitchPage page => switch_page page s
  | INextPage => switch_page (page_next (st_page s)) s
  | IPreviousPage => switch_page (page_previous (st_page s)) s
  | IFocusNext => silently (move_focus 1 s)
  | IFocusPrevious => silently (move_focus (-1) s)
  | IFocusLeft => silently (move_horizontal_focus (-1) s)
  | IFocusRight => silently (move_horizontal_focus 1 s)
  | IFocusSearch => silently (if search_available s then st_set_focus FocusSearch s else s)
  | IOpenCommandPalette => silently (open_command_palette s)
  | IOpenProfiles => silently (open_profiles s)
  | IRunPaletteAction action => run_palette_action action s
  | IConfirmLifecycleAction => confirm_lifecycle_action s
  | ILoadRules => issue_rule_load s
  | IOpenRuleAdd => silently (when_ready (open_rule_editor None) s)
  | IOpenSelectedRuleEditor => silently (when_ready open_selected_rule_editor s)
  | IRequestSelectedRuleRemoval => silently (when_ready request_selected_rule_removal s)
  | ISubmitRuleEditor => submit_rule_editor s
  | IConfirmRuleRemoval => confirm_rule_removal s
  | ISelectRule index => silently (select_rule index s)
  | ISelectConnection index => silently (select_connection index s)
  | ISelectLog tail_offset => silently (select_log tail_offset s)
  | IPreviousProxyGroup => silently (move_proxy_group (-1) s)
  | INextProxyGroup => silently (move_proxy_group 1 s)
  | IShowProxyGroup group_id => issue_proxy_group_load group_id s
  | IInputCharacter c => silently (append_input c s)
  | IBackspace => silently (backspace_input s)
  | IEscape => silently (escape s)
  | IMoveUp | IScrollUp => silently (move_selection (-1) s)
  | IMoveDown | IScrollDown => silently (move_selection 1 s)
  | IActivateSelected => activate_selected s
  | IActivateProfile profile_id => issue_profile_activation profile_id s
  | ISelectNode group_id node_id => issue_node_selection group_id node_id s
  | ISetLogLevel level =>
      silently (st_set_logs (lg_set_viewport_start 0 (lg_set_scroll 0 (lg_set_level_filter level (st_logs s)))) s)
  | IToggleLogPause => toggle_log_pause s
  | IFollowLogs => silently (st_set_logs (follow_logs (st_logs s)) s)
  | IToggleZoom =>
      silently (if no_modal s && bool_decide (st_page s = PageProxies)
                then st_set_zoomed_focus (negb (st_zoomed_focus s)) s else s)
  | IToggleHelp => silently (if modal_is s ModalHelp then show None FocusContent s else show (Some ModalHelp) FocusModal s)
  | ICloseModal => silently (show None FocusContent s)
  | IQuit => silently (st_set_should_quit true s)
  end.

Definition apply_intent (intent : UiIntent) (s : AppState) : reduction :=
  let '(s, commands) := dispatch_intent intent s in (st_set_render_dirty true s, commands).

(** ** Input *)

Definition rect_contains (area : Rect) (column row : Z) : bool :=
  (rc_x area <=? column) && (column <? Z.min (rc_x area + rc_width area) 65535)
  && (rc_y area <=? row) && (row <? Z.min (rc_y area + rc_height area) 65535).

Definition intent_for (map : InteractionMap) (mouse : MouseInput) : option UiIntent :=
  match mi_kind mouse with
  | MouseLeftClick =>
      (λ p, ia_intent p.2) <$>
        list_find (λ i, rect_contains (ia_area i) (mi_column mouse) (mi_row mouse) = true) (reverse (im_interactions map))
  | MouseScrollUp =>
      if existsb (λ r, rect_contains (si_area r) (mi_column mouse) (mi_row mouse)) (im_scroll_regions map)
      then Some IScrollUp else None
  | MouseScrollDown =>
      if existsb (λ r, rect_contains (si_area r) (mi_column mouse) (mi_row mouse)) (im_scroll_regions map)
      then Some IScrollDown else None
  end.

(** [KeyInput::Character('x')] *)
Definition is_key (c : string) (key : KeyInput) : bool :=
  match key with KeyCharacter k => bool_decide ([k] = lit c) | _ => false end.
Definition key_down (key : KeyInput) : bool := is_key "j" key || bool_decide (key = KeyDown).
Definition key_up (key : KeyInput) : bool := is_key "k" key || bool_decide (key = KeyUp).

Definition search_key_intent (key : KeyInput) : option UiIntent :=
  match key with
  | KeyEscape | KeyEnter => Some IEscape
  | KeyBackspace => Some IBackspace
  | KeyTab => Some IFocusNext
  | KeyBackTab => Some IFocusPrevious
  | KeyCharacter c => Some (IInputCharacter c)
  | _ => None
  end.

Definition selected_intent (s : AppState) : option UiIntent :=
  if modal_is s ModalCommandPalette then
    IRunPaletteAction <$> zget (filtered_palette_actions to_lowercase (st_command_palette s)) (cp_selected (st_command_palette s))
  else if modal_is s ModalProfiles then
    if negb (bool_decide (st_focus s = FocusContent)) then None
    else (λ row, IActivateProfile (pf_id row)) <$> zget (filtered_profiles to_lowercase (st_profiles s)) (fs_selected (st_profiles s))
  else
    match st_focus s with
    | FocusTabs => Some (ISwitchPage (st_page s))
    | FocusProxyGroups => (λ g, IShowProxyGroup (pg_id g)) <$> zget (px_groups (st_proxies s)) (px_group_cursor (st_proxies s))
    | FocusFooterHelp => Some IToggleHelp
    | FocusFooterQuit => Some IQuit
    | FocusSearch | FocusModal => None
    | FocusContent =>
        match st_page s with
        | PageProxies =>
            if has_group_load s then None
            else
              row ← zget (px_rows (st_proxies s)) (px_selected (st_proxies s));
              '(_, group) ← find_group (pr_group_id row) s;
              if pg_selectable group
              then node_id ← pr_node_id row; Some (ISelectNode (pr_group_id row) node_id)
              else None
        | PageRules =>
            if ready s
            then (λ _, IOpenSelectedRuleEditor) <$> zget (filtered_rules to_lowercase (st_rules s)) (rs_selected (st_rules s))
            else None
        | PageConnections => None
        | PageLogs => Some IToggleLogPause
        end
    end.

(** The keys while a modal is open. *)
Definition modal_key_intent (s : AppState) (modal : Modal) (key : KeyInput) : option UiIntent :=
  match modal with
  | ModalCommandPalette =>
      if bool_decide (key = KeyEscape) then Some ICloseModal
      else if bool_decide (key = KeyEnter) then selected_intent s
      else if bool_decide (key = KeyBackspace) then Some IBackspace
      else if key_down key then Some IMoveDown
      else if key_up key then Some IMoveUp
      else match key with KeyCharacter c => Some (IInputCharacter c) | _ => None end
  | ModalProfiles =>
      if bool_decide (st_focus s = FocusSearch) then search_key_intent key
      else if bool_decide (key = KeyEscape) || is_key "q" key then Some ICloseModal
      else if bool_decide (key = KeyEnter) then selected_intent s
      else if bool_decide (key = KeyTab) then Some IFocusNext
      else if bool_decide (key = KeyBackTab) then Some IFocusPrevious
      else if key_down key then Some IMoveDown
      else if key_up key then Some IMoveUp
      else if is_key "/" key then Some IFocusSearch
      else None
  | ModalRuleEditor _ _ =>
      if negb (ready s) then (if bool_decide (key = KeyEscape) then Some ICloseModal else None)
      else
        match key with
        | KeyEscape => Some ICloseModal
        | KeyEnter => if negb (modal_action_pending s) then Some ISubmitRuleEditor else None
        | KeyBackspace => Some IBackspace
        | KeyCharacter c => Some (IInputCharacter c)
        | _ => None
        end
  | ModalRuleRemovalConfirmation _ =>
      if negb (ready s) then (if bool_decide (key = KeyEscape) then Some ICloseModal else None)
      else if (bool_decide (key = KeyEnter) || is_key "y" key) && negb (modal_action_pending s) then Some IConfirmRuleRemoval
      else if bool_decide (key = KeyEscape) || is_key "n" key || is_key "q" key then Some ICloseModal
      else None
  | ModalLifecycleConfirmation _ =>
      if (bool_decide (key = KeyEnter) || is_key "y" key) && negb (modal_action_pending s) then Some IConfirmLifecycleAction
      else if bool_decide (key = KeyEscape) || is_key "n" key || is_key "q" key then Some ICloseModal
      else None
  | ModalHelp | ModalMessage _ _ =>
      if bool_decide (key = KeyEscape) || bool_decide (key = KeyEnter) || is_key "q" key then Some ICloseModal else None
  end.

(** The keys of the log page. *)
Definition log_page_key (key : KeyInput) : option UiIntent :=
  if is_key "a" key then Some (ISetLogLevel FilterAll)
  else if is_key "d" key then Some (ISetLogLevel FilterDebug)
  else if is_key "i" key then Some (ISetLogLevel FilterInfo)
  else if is_key "w" key then Some (ISetLogLevel FilterWarn)
  else if is_key "e" key then Some (ISetLogLevel FilterError)
  else if is_key "p" key then Some IToggleLogPause
  else if is_key "f" key then Some IFollowLogs
  else None.

(** The keys of a page, the arms of the last [match] in order. *)
Definition page_key_intent (s : AppState) (key : KeyInput) : option UiIntent :=
  let page := st_page s in
  let on p := bool_decide (page = p) in
  let movable := negb (on PageLogs) && (negb (on PageRules) || ready s) in
  if is_key "1" key then Some (ISwitchPage PageProxies)
  else if is_key "2" key then Some (ISwitchPage PageConnections)
  else if is_key "3" key then Some (ISwitchPage PageRules)
  else if is_key "4" key then Some (ISwitchPage PageLogs)
  else if key_down key && bool_decide (st_focus s = FocusProxyGroups) then Some INextProxyGroup
  else if key_up key && bool_decide (st_focus s = FocusProxyGroups) then Some IPreviousProxyGroup
  else if key_down key && (on PageLogs && bool_decide (st_focus s = FocusContent)) then Some IMoveDown
  else if key_up key && (on PageLogs && bool_decide (st_focus s = FocusContent)) then Some IMoveUp
  else if key_down key && movable then Some IMoveDown
  else if key_up key && movable then Some IMoveUp
  else if bool_decide (key = KeyEnter) then selected_intent s
  else if is_key "h" key || bool_decide (key = KeyLeft) then Some IFocusLeft
  else if is_key "l" key || bool_decide (key = KeyRight) then Some IFocusRight
  else if bool_decide (key = KeyTab) then Some IFocusNext
  else if bool_decide (key = KeyBackTab) then Some IFocusPrevious
  else if is_key "/" key && is_searchable page then Some IFocusSearch
  else if is_key ":" key then Some IOpenCommandPalette
  else if is_key "p" key && negb (on PageLogs) then Some IOpenProfiles
  else if is_key "?" key then Some IToggleHelp
  else if is_key "q" key then Some IQuit
  else if bool_decide (key = KeyEscape) then Some IEscape
  else if is_key "z" key && on PageProxies then Some IToggleZoom
  else if is_key "r" key && on PageRules then Some ILoadRules
  else if is_key "a" key && (on PageRules && ready s) then Some IOpenRuleAdd
  else if is_key "x" key && (on PageRules && ready s) then Some IRequestSelectedRuleRemoval
  else if on PageLogs then log_page_key key
  else None.

Definition input_to_intent (s : AppState) (input : TerminalInput) : option UiIntent :=
  match input with
  | TermMouse mouse => st_interaction_map s ≫= λ map, intent_for map mouse
  | TermKey key =>
      match st_modal s with
      | Some modal => modal_key_intent s modal key
      | None => if bool_decide (st_focus s = FocusSearch) then search_key_intent key else page_key_intent s key
      end
  end.

(** ** Events *)

Definition status_requires_snapshot_refresh (previous next : StatusSnapshot) : bool :=
  negb (bool_decide (ss_active_profile previous = ss_active_profile next))
  || negb (bool_decide (ss_runtime_generation previous = ss_runtime_generation next))
  || negb (bool_decide (cs_instance_generation (ss_core previous) = cs_instance_generation (ss_core next)))
  || negb (bool_decide (ss_primary_proxy_group previous = ss_primary_proxy_group next))
  || negb (bool_decide (ss_selected_node previous = ss_selected_node next))
  || negb (bool_decide (ss_latency previous = ss_latency next)).

Definition on_connected (g : Z) (snapshot : FullViewSnapshot) (s : AppState) : reduction :=
  if generation s <=? g
  then load_rules_on_page (st_set_toast (Some (lit "Connected")) (replace_snapshot to_lowercase g snapshot s))
  else silently s.

Definition on_disconnected (g : Z) (s : AppState) : reduction :=
  if g =? generation s then
    let stop_pending :=
      match st_pending s with Some p => bool_decide (po_kind p = PendStopSupervisor) | None => false end in
    and_then (cancel_pending s) (λ s,
      let stale := match st_status s with Some _ => true | None => false end in
      let s := st_set_connection (cn_set_snapshot_stale stale (cn_set_status ConnDisconnected (st_connection s))) s in
      let s := st_set_render_dirty true s in
      if stop_pending then silently (st_set_should_quit true s) else (s, [DoScheduleReconnect g]))
  else silently s.

Definition on_status_snapshot (g : Z) (status : StatusSnapshot) (s : AppState) : reduction :=
  if (g =? generation s) && is_connected s && negb (bool_decide (st_status s = Some status)) then
    let runtime_changed :=
      match st_status s with
      | Some previous => negb (bool_decide (ss_runtime_generation previous = ss_runtime_generation status))
      | None => false
      end in
    let collection_changed :=
      match st_status s with Some previous => status_requires_snapshot_refresh previous status | None => false end in
    and_then (if runtime_changed then invalidate_rule_cache s else silently s) (λ s,
      let s := clamp_selections to_lowercase (set_status_preserving_connection_selection status s) in
      let s := bump_status_revision s in
      let s := if collection_changed then bump_view_revision s else s in
      let s := st_set_render_dirty true s in
      if runtime_changed then load_rules_on_page s else silently s)
  else silently s.

Definition on_snapshot_refreshed (g base_view_revision base_status_revision : Z) (snapshot : FullViewSnapshot)
    (s : AppState) : reduction :=
  let previous := runtime_generation_of s in
  let s := refresh_snapshot to_lowercase g base_view_revision base_status_revision snapshot s in
  if bool_decide (runtime_generation_of s = previous) then silently s
  else and_then (invalidate_rule_cache s) load_rules_on_page.

Definition on_snapshot_refresh_failed (g base_view_revision : Z) (s : AppState) : AppState :=
  if accepts_snapshot_refresh s g base_view_revision
  then
    let stale := match st_status s with Some _ => true | None => false end in
    st_set_render_dirty true (st_set_connection (cn_set_snapshot_stale stale (st_connection s)) s)
  else s.

Definition on_proxy_group_loaded (request_id : RequestId) (g : Z) (outcome : result ProxyGroupSnapshot str)
    (s : AppState) : AppState :=
  let current :=
    match px_group_load_pending (st_proxies s) with
    | Some pending => bool_decide (gl_request_id pending = request_id) && (gl_connection_generation pending =? g)
                      && (g =? generation s)
    | None => false
    end in
  if current then
    let s := st_set_proxies (px_set_group_load_pending None (st_proxies s)) s in
    let s :=
      match outcome with
      | Ok snapshot =>
          let name := pg_name (gs_group snapshot) in
          let groups := ztake MAX_ACTIVE_NODES (gs_groups snapshot) in
          let px := st_proxies s in
          let px := MkProxiesState groups (default 0 (group_position (Some name) groups))
                      (ztake MAX_ACTIVE_NODES (gs_proxies snapshot)) (Some name) (px_group_load_pending px)
                      (px_selection_pending px) 0 0 in
          let s := bump_view_revision (focus_content_if_narrow (st_set_proxies px s)) in
          st_set_toast (Some (lit "Success: Loaded Proxy Group " ++ name)) s
      | Err message => st_set_toast (Some (lit "Error: " ++ message)) s
      end in
    st_set_render_dirty true (clamp_selections to_lowercase s)
  else s.

Definition on_rules_loaded (request_id : RequestId) (g : Z) (outcome : result RuleListSnapshot str) (s : AppState)
  : AppState :=
  let accepted :=
    match rs_load_pending (st_rules s) with
    | Some pending => bool_decide (rl_request_id pending = request_id) && (rl_connection_generation pending =? g)
                      && (g =? generation s) && bool_decide (rl_runtime_generation pending = runtime_generation_of s)
    | None => false
    end in
  if accepted then
    let runtime_generation := rs_load_pending (st_rules s) ≫= rl_runtime_generation in
    let s := st_set_rules (rs_set_load_pending None (st_rules s)) s in
    let s :=
      match outcome with
      | Ok snapshot =>
          let ru := st_rules s in
          bump_view_revision (st_set_rules
            (MkRulesState (ztake LOCAL_RULE_COUNT_MAX (ru_rows snapshot)) (ru_initialized snapshot) (ru_revision snapshot)
               0 0 (rs_filter ru) (Some g) runtime_generation (rs_load_pending ru) None) s)
      | Err message =>
          st_set_toast (Some (lit "Error: " ++ message))
            (st_set_rules (rs_set_load_error (Some message) (rs_set_loaded_runtime_generation None
                             (rs_set_loaded_connection_generation None (st_rules s)))) s)
      end in
    st_set_render_dirty true (clamp_selections to_lowercase s)
  else s.

Definition on_log_batch (g : Z) (records : list ViewLogRecord) (gap : bool) (dropped_total : Z) (s : AppState) : AppState :=
  if (g =? generation s) && negb (lg_paused (st_logs s)) then
    let pinned := selected_log_sequence s in
    let l := push_view_logs records (st_logs s) in
    let l := lg_set_dropped_total (Z.max (lg_dropped_total l) dropped_total) (lg_set_gap (lg_gap l || gap) l) in
    let s := st_set_logs l s in
    let s :=
      if lg_follow l then st_set_logs (lg_set_scroll 0 l) s
      else
        match pinned with
        | Some sequence => restore_log_selection sequence s
        | None => st_set_logs (lg_set_scroll (clamp_index (lg_scroll l) (filtered_log_count to_lowercase s)) l) s
        end in
    st_set_render_dirty true s
  else s.

Definition is_rule_operation (k : PendingOperationKind) : bool :=
  match k with PendAddRule | PendReplaceRule | PendRemoveRule => true | _ => false end.
Definition is_lifecycle_operation (k : PendingOperationKind) : bool :=
  match k with PendRestartSupervisor | PendStopSupervisor => true | _ => false end.
Definition clear_activation (s : AppState) : AppState :=
  st_set_profiles (fs_set_activation_pending None (st_profiles s)) s.
Definition clear_mutation (s : AppState) : AppState :=
  st_set_proxies (px_set_selection_pending None (st_proxies s)) (st_set_pending None s).

Definition on_command_result (request_id : RequestId) (g : Z) (outcome : result str str) (s : AppState) : reduction :=
  match st_pending s with
  | Some pending =>
      if bool_decide (po_request_id pending = request_id) && (po_connection_generation pending =? g) && (g =? generation s)
      then
        let kind := po_kind pending in
        let profile_operation := bool_decide (kind = PendActivateProfile) in
        let s :=
          match outcome with
          | Ok message =>
              let s := if profile_operation then show None FocusContent (clear_activation s) else s in
              let s := if is_rule_operation kind then show None FocusContent s else s in
              let s := if is_lifecycle_operation kind
                       then let s := show None FocusContent s in
                            st_set_should_quit (st_should_quit s || bool_decide (kind = PendStopSupervisor)) s
                       else s in
              let s := clear_mutation s in
              let stale := match st_status s with Some _ => true | None => false end in
              let s := st_set_connection (cn_set_snapshot_stale stale (st_connection s)) s in
              st_set_render_dirty true (st_set_toast (Some (lit "Success: " ++ message)) (bump_view_revision s))
          | Err message =>
              let s := if profile_operation then clear_activation s else s in
              st_set_render_dirty true (st_set_toast (Some (lit "Error: " ++ message)) (clear_mutation s))
          end in
        and_then (if profile_operation then load_rules_on_page s else silently s) (λ s,
          if is_rule_operation kind then and_then (invalidate_rule_cache s) load_rules_on_page else silently s)
      else silently s
  | None => silently s
  end.

Definition on_reconnect_deadline (g : Z) (s : AppState) : reduction :=
  if bool_decide (cn_status (st_connection s) = ConnDisconnected) && (g =? generation s) then
    let next := wrapping_add g 1 in
    (st_set_render_dirty true
       (st_set_connection (cn_set_generation next (cn_set_status ConnConnecting (st_connection s))) s),
     [DoConnect next])
  else silently s.

Definition update (event : UiEvent) (s : AppState) : reduction :=
  match event with
  | EvTerminal input =>
      match input_to_intent s input with Some intent => apply_intent intent s | None => silently s end
  | EvIntent intent => apply_intent intent s
  | EvConnected g snapshot => on_connected g snapshot s
  | EvDisconnected g => on_disconnected g s
  | EvStatusSnapshot g status => on_status_snapshot g status s
  | EvSnapshotRefreshed g base_view_revision base_status_revision snapshot =>
      on_snapshot_refreshed g base_view_revision base_status_revision snapshot s
  | EvSnapshotRefreshFailed g base_view_revision => silently (on_snapshot_refresh_failed g base_view_revision s)
  | EvProxyGroupLoaded request_id g outcome => silently (on_proxy_group_loaded request_id g outcome s)
  | EvRulesLoaded request_id g outcome => silently (on_rules_loaded request_id g outcome s)
  | EvLogBatch g records gap dropped_total => silently (on_log_batch g records gap dropped_total s)
  | EvCommandResult request_id g outcome => on_command_result request_id g outcome s
  | EvReconnectDeadline g => on_reconnect_deadline g s
  | EvResize width height =>
      silently (st_set_render_dirty true (st_set_interaction_map None
        (normalize_focus (st_set_terminal_height height (st_set_terminal_width width s)))))
  | EvShutdown => silently (st_set_render_dirty true (st_set_should_quit true s))
  end.
End reducer.
