(* ===== verification/TuiInvariant.v ===== *)
(** * TuiInvariant: the Status Interface keeps its state in order
    (src/tui/state.rs, src/tui/reducer.rs, src/tui/input.rs)

    For every sequence of events: selections point into what is shown, the
    collections and texts keep their limits, what is marked as pending is pending,
    and every request has a number of its own, so that an answer to a request that
    was cancelled changes nothing. *)

From S2P Require Import Prelude Text Constants Domain Frame Telemetry Application TuiState TuiReducer.
Local Open Scope Z_scope.

#[local] Arguments lit : simpl never.
#[local] Arguments str_len : simpl never.
#[local] Arguments filtered_log_indices : simpl never.
#[local] Arguments filtered_rules : simpl never.
#[local] Arguments filtered_profiles : simpl never.
#[local] Arguments filtered_palette_actions : simpl never.

(** ** Windows and indices *)

(** An index into a list that is shown, or zero when it is empty; when not [strict], any index. *)
Definition ranged (strict : bool) (index length : Z) : Prop :=
  0 ≤ index ∧ (strict = true → index < length ∨ index = 0).

Lemma clamp_ranged b index length : 0 ≤ index → 0 ≤ length → ranged b (clamp_index index length) length.
Proof. unfold ranged, clamp_index, saturating_sub. lia. Qed.
Lemma ranged_weaken b index length : ranged true index length → ranged b index length.
Proof. unfold ranged. intuition. Qed.
Lemma ranged_zero b length : ranged b 0 length.
Proof. unfold ranged. lia. Qed.

Lemma window_nonneg current selected visible total :
  0 ≤ current → 0 ≤ selected → 0 ≤ visible → 0 ≤ total → 0 ≤ visible_window_start current selected visible total.
Proof.
  intros. unfold visible_window_start, saturating_add, saturating_sub.
  destruct (_ || _); [lia|]. destruct (_ =? 0); [lia|]. destruct (_ <? _); [lia|]. destruct (_ <=? _); lia.
Qed.

(** A list scrolls no further than it must.  With the window that [visible_window_start] chooses the selected row is
    visible, the window does not go past the end of the list, and it is the old window unless
    the selected row was outside of it or the list has become shorter, in which case it moves by the
    least that shows the row. *)
Theorem window_shows_selection current selected visible total :
  0 ≤ current ≤ u64_max → 0 ≤ selected < total → total ≤ u64_max → 0 < visible ≤ u64_max →
  let start := visible_window_start current selected visible total in
  0 ≤ start ≤ selected ∧ selected < start + visible ∧ (start = 0 ∨ start + visible ≤ total) ∧
  (∀ other, 0 ≤ other → other ≤ selected < other + visible → other = 0 ∨ other + visible ≤ total →
     Z.abs (start - Z.min current (Z.max 0 (total - visible))) ≤ Z.abs (other - Z.min current (Z.max 0 (total - visible)))).
Proof.
  intros Hc Hs Ht Hv. unfold visible_window_start, saturating_add, saturating_sub.
  destruct (Z.eqb_spec total 0); [lia|]. destruct (Z.leb_spec total visible); cbn; [split_and!; intros; lia|].
  destruct (Z.eqb_spec visible 0); [lia|].
  destruct (Z.ltb_spec selected (Z.min current (Z.max (total - visible) 0))); [split_and!; intros; lia|].
  destruct (Z.leb_spec (Z.min (Z.min current (Z.max (total - visible) 0) + visible) u64_max) selected);
    split_and!; intros; lia.
Qed.

(** ** The invariant *)

Fixpoint view_log_bytes (l : list ViewLogRecord) : Z :=
  match l with [] => 0 | r :: rest => str_len (vl_message r) + view_log_bytes rest end.

Definition text_ok (s : str) : Prop := zlen s ≤ TUI_SEARCH_MAX_CHARACTERS ∧ str_len s ≤ TUI_SEARCH_MAX_BYTES.

Record px_ok (b : bool) (px : ProxiesState) : Prop := {
  pxo_groups : zlen (px_groups px) ≤ MAX_ACTIVE_NODES;
  pxo_rows : zlen (px_rows px) ≤ MAX_ACTIVE_NODES;
  pxo_cursor : ranged b (px_group_cursor px) (zlen (px_groups px));
  pxo_selected : ranged b (px_selected px) (zlen (px_rows px));
  pxo_scroll : 0 ≤ px_scroll px;
}.

(** Requests that wait for an answer. *)
Definition request_ids (pending : option PendingOperation) (group : option PendingProxyGroupLoad)
    (rules : option PendingRuleLoad) : list Z :=
  (match pending with Some p => [request_id_value (po_request_id p)] | None => [] end) ++
  (match group with Some p => [request_id_value (gl_request_id p)] | None => [] end) ++
  (match rules with Some p => [request_id_value (rl_request_id p)] | None => [] end).
Definition ids (s : AppState) : list Z :=
  request_ids (st_pending s) (px_group_load_pending (st_proxies s)) (rs_load_pending (st_rules s)).

(** What is marked as being done is the pending operation. *)
Record marks_ok (pending : option PendingOperation) (px : ProxiesState) (fs : ProfilesState) : Prop := {
  mo_selection : is_Some (px_selection_pending px) → ∃ p, pending = Some p ∧ po_kind p = PendSelectNode;
  mo_activation : is_Some (fs_activation_pending fs) → ∃ p, pending = Some p ∧ po_kind p = PendActivateProfile;
}.

Record ids_ok (l : list Z) (next : Z) : Prop := {
  io_unique : NoDup l;
  io_range : Forall (λ i, 1 ≤ i < next) l;
  io_next : 1 ≤ next;
}.

(** Indices that come from outside are unsigned. *)
Definition intent_ok (i : UiIntent) : Prop :=
  match i with ISelectRule n | ISelectConnection n | ISelectLog n => 0 ≤ n | _ => True end.
Definition map_ok (m : option InteractionMap) : Prop :=
  match m with
  | Some m => Forall (λ i, intent_ok (ia_intent i)) (im_interactions m) ∧
              Forall (λ r, 0 ≤ rc_height (si_area r) ≤ 65535) (im_scroll_regions m)
  | None => True
  end.

Section invariant.
Context (to_lowercase : str → str).

Record fs_ok (b : bool) (fs : ProfilesState) : Prop := {
  fso_rows : zlen (fs_rows fs) ≤ PROFILE_VIEW_CAPACITY;
  fso_filter : text_ok (fs_filter fs);
  fso_selected : ranged b (fs_selected fs) (zlen (filtered_profiles to_lowercase fs));
  fso_scroll : 0 ≤ fs_scroll fs;
}.
Record ru_ok (b : bool) (ru : RulesState) : Prop := {
  ruo_rows : zlen (rs_rows ru) ≤ LOCAL_RULE_COUNT_MAX;
  ruo_filter : text_ok (rs_filter ru);
  ruo_selected : ranged b (rs_selected ru) (zlen (filtered_rules to_lowercase ru));
  ruo_scroll : 0 ≤ rs_scroll ru;
}.
Record lg_ok (b : bool) (l : LogsState) : Prop := {
  lgo_records : zlen (lg_records l) ≤ LOG_CAPACITY;
  lgo_bytes : lg_retained_bytes l = view_log_bytes (lg_records l);
  lgo_limit : lg_retained_bytes l ≤ LOG_RETENTION_MAX_BYTES;
  lgo_search : text_ok (lg_search l);
  lgo_scroll : ranged b (lg_scroll l) (zlen (filtered_log_indices to_lowercase l));
  lgo_follow : lg_follow l = true → lg_scroll l = 0;
  lgo_viewport : 0 ≤ lg_viewport_start l;
}.
Record cx_ok (b : bool) (count : Z) (cx : ConnectionsState) : Prop := {
  cxo_selected : ranged b (cx_selected cx) count;
  cxo_scroll : 0 ≤ cx_scroll cx;
}.
Record cp_ok (cp : CommandPaletteState) : Prop := {
  cpo_query : text_ok (cp_query cp);
  cpo_selected : ranged true (cp_selected cp) (zlen (filtered_palette_actions to_lowercase cp));
}.

Record ui_ok (b : bool) (s : AppState) : Prop := {
  ui_px : px_ok b (st_proxies s);
  ui_fs : fs_ok b (st_profiles s);
  ui_ru : ru_ok b (st_rules s);
  ui_lg : lg_ok b (st_logs s);
  ui_cx : cx_ok b (connection_record_count s) (st_connections s);
  ui_cp : cp_ok (st_command_palette s);
  ui_marks : marks_ok (st_pending s) (st_proxies s) (st_profiles s);
  ui_ids : ids_ok (ids s) (st_next_request_id s);
  ui_map : map_ok (st_interaction_map s);
}.
Abbreviation ui_inv := (ui_ok true).

Lemma ui_weaken b s : ui_inv s → ui_ok b s.
Proof.
  intros [[] [] [] [] [] [] ? ? ?].
  split; [split|split|split|split|split|done..]; try done; try (by apply ranged_weaken); by split.
Qed.

Lemma clamp_selections_ok s : ui_ok false s → ui_inv (clamp_selections to_lowercase s).
Proof.
  intros [[] [] [] [] [] ? ui_marks0 ? ?]. unfold clamp_selections. split; cbn; try done.
  - destruct pxo_cursor0, pxo_selected0. split; cbn; try done; apply clamp_ranged; try done; apply zlen_nonneg.
  - split; cbn; try done. apply clamp_ranged; [by destruct fso_selected0|apply zlen_nonneg].
  - split; cbn; try done. apply clamp_ranged; [by destruct ruo_selected0|apply zlen_nonneg].
  - destruct lgo_scroll0 as [Hs _]. unfold clamp_logs. split; cbn; try done.
    + destruct (lg_follow (st_logs s)); [apply ranged_zero|]. apply clamp_ranged; [done|apply zlen_nonneg].
    + by intros ->.
    + assert (0 ≤ filtered_log_count to_lowercase s) by apply zlen_nonneg.
      unfold saturating_sub, filtered_log_count in *. cbn in *. lia.
  - assert (0 ≤ connection_record_count s) as Hc.
    { unfold connection_record_count. destruct (st_status s); [apply zlen_nonneg|done]. }
    destruct cxo_selected0 as [Hs _]. unfold clamp_connections. split; cbn; [by apply clamp_ranged|].
    unfold clamp_index, saturating_sub, connection_record_count in *. cbn in *. lia.
  - by destruct ui_marks0.
Qed.

(** Transitions that leave what the invariant is about. *)
Record same_core (s s' : AppState) : Prop := {
  sc_proxies : st_proxies s' = st_proxies s;
  sc_profiles : st_profiles s' = st_profiles s;
  sc_rules : st_rules s' = st_rules s;
  sc_logs : st_logs s' = st_logs s;
  sc_connections : st_connections s' = st_connections s;
  sc_status : st_status s' = st_status s;
  sc_palette : st_command_palette s' = st_command_palette s;
  sc_pending : st_pending s' = st_pending s;
  sc_next : st_next_request_id s' = st_next_request_id s;
  sc_map : st_interaction_map s' = st_interaction_map s;
}.
Lemma ui_same b s s' : ui_ok b s → same_core s s' → ui_ok b s'.
Proof.
  intros [] [Hpx Hfs Hru Hlg Hcx Hst Hcp Hpe Hne Hma].
  split; unfold connection_record_count, ids in *; rewrite ?Hpx, ?Hfs, ?Hru, ?Hlg, ?Hcx, ?Hst, ?Hcp, ?Hpe, ?Hne, ?Hma; done.
Qed.

(** A transition without requests. *)
Record tidy (s s' : AppState) : Prop := {
  td_inv : ui_inv s';
  td_ids : ids s' = ids s;
  td_next : st_next_request_id s' = st_next_request_id s;
}.
Lemma tidy_refl s : ui_inv s → tidy s s.
Proof. done. Qed.
Lemma tidy_same s s' : ui_inv s → same_core s s' → tidy s s'.
Proof.
  intros Hi Hs. split; [by eapply ui_same|..]; destruct Hs; [|done]. unfold ids. congruence.
Qed.
Lemma tidy_trans s1 s2 s3 : tidy s1 s2 → tidy s2 s3 → tidy s1 s3.
Proof. intros [] []. split; [done|congruence|congruence]. Qed.

(** After a change that only clamping completes. *)
Lemma tidy_clamp s s' :
  ui_ok false s' → ids s' = ids s → st_next_request_id s' = st_next_request_id s → tidy s (clamp_selections to_lowercase s').
Proof. intros Hi Hd Hn. split; [by apply clamp_selections_ok|done|done]. Qed.

(** *** Proxies *)

Lemma tidy_proxies s px :
  ui_inv s → px_ok true px → px_group_load_pending px = px_group_load_pending (st_proxies s) →
  px_selection_pending px = px_selection_pending (st_proxies s) → tidy s (st_set_proxies px s).
Proof.
  intros [] Hp Hg Hs. split; cbn; [|by unfold ids; cbn; rewrite Hg|done]. destruct ui_marks0.
  split; cbn; try done; [by split; rewrite ?Hs|]. unfold ids. cbn. by rewrite Hg.
Qed.
Lemma tidy_profiles s fs :
  ui_inv s → fs_ok true fs → fs_activation_pending fs = fs_activation_pending (st_profiles s) → tidy s (st_set_profiles fs s).
Proof. intros [] Hf Ha. destruct ui_marks0. split; cbn; [|done|done]. split; cbn; try done. by split; rewrite ?Ha. Qed.
Lemma tidy_rules s ru :
  ui_inv s → ru_ok true ru → rs_load_pending ru = rs_load_pending (st_rules s) → tidy s (st_set_rules ru s).
Proof.
  intros [] Hr Hp. split; cbn; [|by unfold ids; cbn; rewrite Hp|done]. split; cbn; try done. unfold ids. cbn. by rewrite Hp.
Qed.
Lemma tidy_logs s l : ui_inv s → lg_ok true l → tidy s (st_set_logs l s).
Proof. intros [] Hl. by split; [split|..]. Qed.
Lemma tidy_connections s cx : ui_inv s → cx_ok true (connection_record_count s) cx → tidy s (st_set_connections cx s).
Proof. intros [] Hl. by split; [split|..]. Qed.
Lemma tidy_palette s cp : ui_inv s → cp_ok cp → tidy s (st_set_command_palette cp s).
Proof. intros [] Hl. by split; [split|..]. Qed.

(** ** Log lines *)

Lemma view_log_bytes_app l k : view_log_bytes (l ++ k) = view_log_bytes l + view_log_bytes k.
Proof. induction l as [|r l IH]; cbn; [done|]. rewrite IH. lia. Qed.
Lemma view_log_bytes_nonneg l : 0 ≤ view_log_bytes l.
Proof. induction l as [|r l IH]; cbn; [done|]. pose proof (str_len_nonneg (vl_message r)). lia. Qed.

Lemma evict_logs_spec len records bytes evicted :
  0 ≤ len → bytes = view_log_bytes records → bytes ≤ LOG_RETENTION_MAX_BYTES → zlen records ≤ LOG_CAPACITY →
  let '(records', bytes', _) := evict_logs len records bytes evicted in
  bytes' = view_log_bytes records' ∧ bytes' ≤ LOG_RETENTION_MAX_BYTES ∧ zlen records' < LOG_CAPACITY.
Proof.
  intros Hlen. revert bytes evicted. induction records as [|first rest IH]; intros bytes evicted Hb Hm Hl; cbn [evict_logs].
  - split; [done|]. split; [done|]. done.
  - pose proof (str_len_nonneg (vl_message first)). pose proof (view_log_bytes_nonneg rest). cbn in Hb.
    destruct (_ || _) eqn:Hc.
    + apply IH; unfold saturating_sub, zlen in *; cbn in *; lia.
    + apply orb_false_iff in Hc as [Hc _]. apply Z.eqb_neq in Hc. cbn. split; [done|]. split; [done|lia].
Qed.

Lemma push_view_log_ok r l : lg_ok false l → lg_ok false (push_view_log r l).
Proof.
  intros []. unfold push_view_log. pose proof (str_len_nonneg (vl_message r)) as Hr.
  pose proof (evict_logs_spec (str_len (vl_message r)) (lg_records l) (lg_retained_bytes l) (lg_evicted_total l)
    Hr lgo_bytes0 lgo_limit0 lgo_records0) as He.
  destruct (evict_logs _ _ _ _) as [[records bytes] evicted]. destruct He as (Hb & Hm & Hn).
  destruct lgo_scroll0 as [Hs _]. destruct (Z.ltb_spec LOG_RETENTION_MAX_BYTES (saturating_add bytes (str_len (vl_message r)))) as [|Hfit].
  - split; cbn; try done. lia.
  - unfold saturating_add in *. assert (LOG_RETENTION_MAX_BYTES < u64_max) by done.
    split; cbn; try done; rewrite ?zlen_app, ?view_log_bytes_app; unfold saturating_add, zlen in *; cbn; lia.
Qed.
Lemma push_view_logs_ok records l : lg_ok false l → lg_ok false (push_view_logs records l).
Proof. revert l. induction records as [|r rest IH]; intros l Hl; cbn; [done|]. by apply IH, push_view_log_ok. Qed.
Lemma push_view_logs_follow records l : lg_follow (push_view_logs records l) = lg_follow l.
Proof.
  revert l. induction records as [|r rest IH]; intros l; cbn; [done|]. rewrite IH. unfold push_view_log.
  destruct (evict_logs _ _ _ _) as [[? ?] ?]. by destruct (_ <? _).
Qed.

(** ** Selections *)

Lemma visible_row_count_nonneg s : ui_inv s → 0 ≤ visible_row_count s.
Proof.
  intros [_ _ _ _ _ _ _ _ Hm]. unfold visible_row_count. destruct (st_interaction_map s) as [m|]; [|done]. cbn.
  destruct Hm as [_ Hm]. destruct (last (im_scroll_regions m)) as [r|] eqn:Hl; [|done].
  apply last_Some in Hl as [k Hk]. rewrite Hk in Hm. apply Forall_app in Hm as [_ Hm]. inversion Hm; subst.
  unfold saturating_sub. case_match; lia.
Qed.

Lemma count_nonneg s : 0 ≤ connection_record_count s.
Proof. unfold connection_record_count. destruct (st_status s); [apply zlen_nonneg|done]. Qed.

Lemma keep_visible_tidy l s : ui_inv s → tidy s (keep_selection_visible to_lowercase l s).
Proof.
  intros Hi. pose proof (visible_row_count_nonneg s Hi) as Hv. destruct Hi as [Hpx Hfs Hru Hlg Hcx Hcp Hm Hids Hmap] eqn:Heq.
  destruct l; unfold keep_selection_visible.
  - apply tidy_profiles; [done| |done]. destruct Hfs. split; cbn; try done.
    apply window_nonneg; [done|apply fso_selected0|done|apply zlen_nonneg].
  - apply tidy_proxies; [done| |done..]. destruct Hpx. split; cbn; try done.
    apply window_nonneg; [done|apply pxo_selected0|done|apply zlen_nonneg].
  - apply tidy_connections; [done|]. destruct Hcx. split; cbn; try done.
    apply window_nonneg; [done|apply cxo_selected0|done|apply count_nonneg].
  - apply tidy_rules; [done| |done]. destruct Hru. split; cbn; try done.
    apply window_nonneg; [done|apply ruo_selected0|done|apply zlen_nonneg].
Qed.

Lemma zlen_filter_le {A} (P : A → Prop) `{!∀ x, Decision (P x)} (l : list A) : zlen (filter P l) ≤ zlen l.
Proof. unfold zlen. pose proof (length_filter P l). lia. Qed.
Lemma indices_length {A} (P : A → bool) i (l : list A) : zlen (indices_from P i l) ≤ zlen l.
Proof.
  revert i. induction l as [|x l IH]; intros i; cbn; [done|]. specialize (IH (i + 1)). destruct (P x); unfold zlen in *; cbn; lia.
Qed.
Lemma omap_length {A B} (f : A → option B) (l : list A) : zlen (omap f l) ≤ zlen l.
Proof. induction l as [|x l IH]; csimpl; [done|]. destruct (f x); unfold zlen in *; csimpl; lia. Qed.

Lemma fs_count s : ui_inv s → 0 ≤ filtered_profile_count to_lowercase s ≤ u64_max.
Proof.
  intros Hi. split; [apply zlen_nonneg|]. pose proof (fso_rows _ _ (ui_fs _ _ Hi)).
  etrans; [apply zlen_filter_le|]. unfold PROFILE_VIEW_CAPACITY in *. lia.
Qed.
Lemma ru_count s : ui_inv s → 0 ≤ filtered_rule_count to_lowercase s ≤ u64_max.
Proof.
  intros Hi. split; [apply zlen_nonneg|]. pose proof (ruo_rows _ _ (ui_ru _ _ Hi)).
  etrans; [apply omap_length|]. etrans; [apply indices_length|]. unfold LOCAL_RULE_COUNT_MAX in *. lia.
Qed.
Lemma lg_count s : ui_inv s → 0 ≤ filtered_log_count to_lowercase s ≤ LOG_CAPACITY.
Proof.
  intros Hi. split; [apply zlen_nonneg|]. pose proof (lgo_records _ _ (ui_lg _ _ Hi)).
  etrans; [apply indices_length|]. done.
Qed.

Lemma move_log_tidy delta s : ui_inv s → tidy s (move_log_selection to_lowercase delta s).
Proof.
  intros Hi. unfold move_log_selection. destruct (Z.ltb_spec 0 (filtered_log_count to_lowercase s)) as [Hc|]; [|done].
  pose proof (visible_row_count_nonneg s Hi) as Hv. pose proof (lg_count s Hi) as Hn.
  apply tidy_logs; [done|]. destruct (ui_lg _ _ Hi). destruct lgo_scroll0 as [Hs0 Hs1].
  assert (LOG_CAPACITY < u64_max) by done. split; cbn; try done.
  - unfold filtered_log_count in *. specialize (Hs1 eq_refl).
    match goal with |- ranged _ _ (zlen ?l) => change l with (filtered_log_indices to_lowercase (st_logs s)) end.
    unfold ranged, saturating_add, saturating_sub. destruct (delta <? 0); (split; [|intros _]); lia.
  - apply window_nonneg; [|unfold selected_log_position; cbn|done|lia].
    + unfold saturating_sub. destruct (lg_follow (st_logs s)); [lia|done].
    + destruct (Z.leb_spec (saturating_add (if delta <? 0 then Z.min (saturating_add (lg_scroll (st_logs s)) 1)
        (filtered_log_count to_lowercase s - 1) else saturating_sub (lg_scroll (st_logs s)) 1) 1) (filtered_log_count to_lowercase s));
        cbn; unfold saturating_sub in *; lia.
Qed.

Lemma select_profiles_tidy i s :
  ui_inv s → ranged true i (filtered_profile_count to_lowercase s) →
  tidy s (st_set_profiles (fs_set_selected i (st_profiles s)) s).
Proof. intros Hi Hr. apply tidy_profiles; [done| |done]. by destruct (ui_fs _ _ Hi). Qed.
Lemma select_rules_tidy i s :
  ui_inv s → ranged true i (filtered_rule_count to_lowercase s) → tidy s (st_set_rules (rs_set_selected i (st_rules s)) s).
Proof. intros Hi Hr. apply tidy_rules; [done| |done]. by destruct (ui_ru _ _ Hi). Qed.
Lemma select_proxies_tidy i s :
  ui_inv s → ranged true i (zlen (px_rows (st_proxies s))) → tidy s (st_set_proxies (px_set_selected i (st_proxies s)) s).
Proof. intros Hi Hr. apply tidy_proxies; [done| |done..]. by destruct (ui_px _ _ Hi). Qed.
Lemma select_group_tidy i s :
  ui_inv s → ranged true i (zlen (px_groups (st_proxies s))) → tidy s (st_set_proxies (px_set_group_cursor i (st_proxies s)) s).
Proof. intros Hi Hr. apply tidy_proxies; [done| |done..]. by destruct (ui_px _ _ Hi). Qed.
Lemma select_connections_tidy i s :
  ui_inv s → ranged true i (connection_record_count s) → tidy s (st_set_connections (cx_set_selected i (st_connections s)) s).
Proof. intros Hi Hr. apply tidy_connections; [done|]. by destruct (ui_cx _ _ Hi). Qed.

Lemma then_visible l s s' : tidy s s' → tidy s (keep_selection_visible to_lowercase l s').
Proof. intros Ht. eapply tidy_trans; [done|]. apply keep_visible_tidy, Ht. Qed.

Lemma moved_zero_or index length delta :
  0 ≤ length → ranged true index length → ranged true (moved_index index length delta) length.
Proof.
  unfold ranged, moved_index, saturating_sub, saturating_add. intros Hl [Hi Hr].
  destruct (Z.eqb_spec length 0); [lia|]. destruct (Z.ltb_spec delta 0); lia.
Qed.

Lemma move_tidy delta s : ui_inv s → tidy s (move_selection to_lowercase delta s).
Proof.
  intros Hi. unfold move_selection. destruct (modal_is s ModalCommandPalette).
  { apply tidy_palette; [done|]. destruct (ui_cp _ _ Hi). split; cbn; [done|]. apply moved_zero_or; [apply zlen_nonneg|done]. }
  destruct (modal_is s ModalProfiles).
  { apply then_visible, select_profiles_tidy, moved_zero_or; [done|apply zlen_nonneg|apply (ui_fs _ _ Hi)]. }
  destruct (st_page s).
  - apply then_visible, select_proxies_tidy, moved_zero_or; [done|apply zlen_nonneg|apply (ui_px _ _ Hi)].
  - apply then_visible, select_connections_tidy, moved_zero_or; [done|apply count_nonneg|apply (ui_cx _ _ Hi)].
  - destruct (rules_projection_ready s); [|done].
    apply then_visible, select_rules_tidy, moved_zero_or; [done|apply zlen_nonneg|apply (ui_ru _ _ Hi)].
  - by apply move_log_tidy.
Qed.

Lemma then_same s s' s'' : tidy s s' → same_core s' s'' → tidy s s''.
Proof. intros Ht Hs. eapply tidy_trans; [done|]. apply tidy_same; [apply Ht|done]. Qed.

Lemma then_focus f s s' : tidy s s' → tidy s (st_set_focus f s').
Proof. intros Ht. by apply (then_same s s'). Qed.

Lemma select_rule_tidy i s : ui_inv s → 0 ≤ i → tidy s (select_rule to_lowercase i s).
Proof.
  intros Hi Hr. unfold select_rule. destruct (rules_projection_ready s); [|done].
  apply then_focus, then_visible, select_rules_tidy, clamp_ranged; [done|done|apply zlen_nonneg].
Qed.
Lemma select_connection_tidy i s : ui_inv s → 0 ≤ i → tidy s (select_connection to_lowercase i s).
Proof.
  intros Hi Hr. unfold select_connection. apply then_focus, then_visible, select_connections_tidy, clamp_ranged; [done|done|apply count_nonneg].
Qed.
Lemma select_log_tidy i s : ui_inv s → 0 ≤ i → tidy s (select_log to_lowercase i s).
Proof.
  intros Hi Hr. unfold select_log. destruct (_ && _ && _) eqn:Hc; [|done]. apply andb_true_iff in Hc as [_ Hc%Z.ltb_lt].
  pose proof (visible_row_count_nonneg s Hi) as Hv. pose proof (lg_count s Hi) as Hn. destruct (ui_lg _ _ Hi).
  apply then_focus, tidy_logs; [done|]. split; cbn; try done.
  - split; [done|]. intros _. left. exact Hc.
  - unfold visible_log_start, selected_log_position. destruct (lg_follow (st_logs s)); [unfold saturating_sub; lia|].
    destruct (Z.leb_spec (saturating_add (lg_scroll (st_logs s)) 1) (filtered_log_count to_lowercase s)).
    + apply window_nonneg; [done|lia|done|lia].
    + unfold saturating_sub. lia.
Qed.
Lemma move_group_tidy delta s : ui_inv s → tidy s (move_proxy_group delta s).
Proof. intros Hi. apply select_group_tidy, moved_zero_or; [done|apply zlen_nonneg|apply (ui_px _ _ Hi)]. Qed.

Lemma follow_ok l : lg_ok true l → lg_ok true (follow_logs l).
Proof. intros []. split; cbn; try done. apply ranged_zero. Qed.
Lemma level_ok level l : lg_ok true l → lg_ok true (lg_set_viewport_start 0 (lg_set_scroll 0 (lg_set_level_filter level l))).
Proof. intros []. split; cbn; try done. apply ranged_zero. Qed.

(** ** Text *)

Lemma text_push s c : text_ok s → search_fits s c = true → text_ok (push_char s c).
Proof.
  intros [Hc Hb] [Hf1%Z.ltb_lt Hf2%Z.leb_le]%andb_true_iff. unfold push_char, text_ok, saturating_add in *.
  rewrite zlen_app, str_len_app. change (str_len [c]) with (char_len_utf8 c + 0).
  assert (TUI_SEARCH_MAX_BYTES < u64_max) by done. unfold zlen in *. cbn. lia.
Qed.
Lemma text_pop s : text_ok s → text_ok (pop_char s).
Proof.
  unfold pop_char. destruct (list_eq_nil_dec s) as [->|Hs]; [done|]. intros [Hc Hb].
  destruct (exists_last Hs) as (l & c & ->). rewrite removelast_last. rewrite zlen_app in Hc. rewrite str_len_app in Hb.
  pose proof (str_len_nonneg [c]). pose proof (zlen_nonneg [c]). split; lia.
Qed.

Lemma palette_tidy q s : ui_inv s → text_ok q → tidy s (set_palette_query to_lowercase q s).
Proof.
  intros Hi Hq. unfold set_palette_query. apply tidy_palette; [done|]. destruct (ui_cp _ _ Hi). split; cbn; [done|].
  apply clamp_ranged; [by destruct cpo_selected0|apply zlen_nonneg].
Qed.

Lemma search_text_ok f s : ui_inv s → text_ok (search_text f s).
Proof. intros []. destruct f; cbn; [by destruct ui_fs0|by destruct ui_ru0|by destruct ui_lg0]. Qed.
Lemma set_search_ok f v s : ui_inv s → text_ok v → ui_ok false (set_search_text f v s).
Proof.
  intros Hi Hv. apply (ui_weaken false) in Hi. destruct Hi.
  destruct f; (split; cbn; try done); [destruct ui_fs0|by destruct ui_marks0|destruct ui_ru0|destruct ui_lg0];
    split; cbn; try done; (split; [|done]); by eapply proj1.
Qed.
Lemma search_tidy f v s : ui_inv s → text_ok v → tidy s (clamp_selections to_lowercase (set_search_text f v s)).
Proof. intros Hi Hv. apply tidy_clamp; [by apply set_search_ok|by destruct f|by destruct f]. Qed.

Lemma append_tidy c s : ui_inv s → tidy s (append_input to_lowercase c s).
Proof.
  intros Hi. unfold append_input. destruct (is_control c); [done|].
  assert (tidy s (match current_search s with
                  | Some f => if search_fits (search_text f s) c
                      then clamp_selections to_lowercase (set_search_text f (push_char (search_text f s) c) s) else s
                  | None => s end)) as Hsearch.
  { destruct (current_search s) as [f|]; [|done]. destruct (search_fits _ c) eqn:Hf; [|done].
    apply search_tidy; [done|]. apply text_push; [by apply search_text_ok|done]. }
  destruct (st_modal s) as [[]|]; try done.
  - destruct (search_fits _ c) eqn:Hf; [|done]. apply palette_tidy; [done|]. apply text_push; [|done].
    by destruct (ui_cp _ _ Hi).
  - destruct (_ <=? _); [|done]. apply tidy_same; [done|by split].
Qed.
Lemma backspace_tidy s : ui_inv s → tidy s (backspace_input to_lowercase s).
Proof.
  intros Hi. unfold backspace_input.
  assert (tidy s (clamp_selections to_lowercase
            (match current_search s with Some f => set_search_text f (pop_char (search_text f s)) s | None => s end))) as Hsearch.
  { destruct (current_search s) as [f|]; [|apply tidy_clamp; [by apply ui_weaken|done..]].
    apply search_tidy; [done|]. by apply text_pop, search_text_ok. }
  destruct (st_modal s) as [[]|]; try done.
  - apply palette_tidy; [done|]. apply text_pop. by destruct (ui_cp _ _ Hi).
  - apply tidy_same; [done|by split].
Qed.

(** ** Requests *)

Definition issued_by (c : Command) : list Z :=
  match c with
  | DoActivateProfile r _ _ | DoSelectNode r _ _ _ | DoFetchProxyGroup r _ _ | DoFetchRules r _ | DoAddRule r _ _
  | DoReplaceRule r _ _ _ | DoRemoveRule r _ _ | DoRestartSupervisor r _ | DoStopSupervisor r _ => [request_id_value r]
  | _ => []
  end.
Definition cancelled_by (c : Command) : list Z := match c with DoCancel r => [request_id_value r] | _ => [] end.
Definition issued (commands : list Command) : list Z := commands ≫= issued_by.
Definition cancelled (commands : list Command) : list Z := commands ≫= cancelled_by.

(** A transition that takes at most [n] request numbers. *)
Record good (n : Z) (s : AppState) (m : reduction) : Prop := {
  gd_inv : ui_inv m.1;
  gd_next : st_next_request_id s ≤ st_next_request_id m.1 ≤ st_next_request_id s + n;
  gd_issued : ∀ i, i ∈ issued m.2 → st_next_request_id s ≤ i < st_next_request_id m.1;
  gd_once : NoDup (issued m.2);
  gd_ids : ∀ i, i ∈ ids m.1 → i ∈ ids s ∨ i ∈ issued m.2;
  gd_cancelled : ∀ i, i ∈ cancelled m.2 → (i ∈ ids s ∨ i ∈ issued m.2) ∧ i ∉ ids m.1;
}.

Lemma good_silently n s s' : 0 ≤ n → tidy s s' → good n s (silently s').
Proof.
  intros Hn [Hi Hd Hx]. unfold silently. split; cbn.
  - done.
  - lia.
  - by intros i ?%not_elem_of_nil.
  - constructor.
  - rewrite Hd. by left.
  - by intros i ?%not_elem_of_nil.
Qed.
Lemma good_more a b s m : a ≤ b → good a s m → good b s m.
Proof. intros Hle []. split; try done. lia. Qed.

Lemma ids_below s i : ui_inv s → i ∈ ids s → 1 ≤ i < st_next_request_id s.
Proof. intros Hi Hin. destruct (ui_ids _ _ Hi). rewrite Forall_forall in io_range0. by apply io_range0. Qed.

Lemma good_then a b s m f : ui_inv s → good a s m → good b m.1 (f m.1) → good (a + b) s (and_then m f).
Proof.
  intros Hs Hm Hf. unfold and_then. destruct (f m.1) as [s' commands] eqn:He. cbn in *.
  pose proof (gd_next _ _ _ Hm) as Hn1. pose proof (gd_next _ _ _ Hf) as Hn2. cbn in Hn2.
  unfold issued, cancelled in *. split; cbn; rewrite ?bind_app.
  - apply Hf.
  - lia.
  - intros i [Hi|Hi]%elem_of_app; [apply (gd_issued _ _ _ Hm) in Hi|apply (gd_issued _ _ _ Hf) in Hi; cbn in Hi]; lia.
  - apply NoDup_app. split; [apply (gd_once _ _ _ Hm)|]. split; [|apply (gd_once _ _ _ Hf)].
    intros i H1%(gd_issued _ _ _ Hm) H2%(gd_issued _ _ _ Hf). cbn in H2. lia.
  - intros i Hi. apply (gd_ids _ _ _ Hf) in Hi as [Hi|Hi]; [apply (gd_ids _ _ _ Hm) in Hi|]; rewrite elem_of_app; tauto.
  - intros i [Hi|Hi]%elem_of_app; rewrite elem_of_app.
    + destruct (gd_cancelled _ _ _ Hm i Hi) as [Hwas Hgone]. split; [tauto|]. intros Hin.
      apply (gd_ids _ _ _ Hf) in Hin as [?|Hin]; [done|]. apply (gd_issued _ _ _ Hf) in Hin.
      destruct Hwas as [Hwas|Hwas]; [apply (ids_below s) in Hwas; [lia|done]|]. apply (gd_issued _ _ _ Hm) in Hwas. lia.
    + destruct (gd_cancelled _ _ _ Hf i Hi) as [[Hwas|Hwas] Hgone]; cbn in Hgone; (split; [|done]); [|tauto].
      apply (gd_ids _ _ _ Hm) in Hwas. tauto.
Qed.

(** *** Cancelling *)

Record settled (s : AppState) : Prop := {
  se_pending : st_pending s = None;
  se_group : px_group_load_pending (st_proxies s) = None;
  se_rules : rs_load_pending (st_rules s) = None;
  se_selection : px_selection_pending (st_proxies s) = None;
  se_activation : fs_activation_pending (st_profiles s) = None;
}.

Lemma ids_drop l next i k : ids_ok l next → l ≡ₚ i :: k → ids_ok k next.
Proof.
  intros [] Hp. rewrite Hp in io_unique0, io_range0. inversion io_unique0. inversion io_range0. by split.
Qed.

(** Drops one of the pending requests, with its cancellation. *)
Lemma good_cancel s s' i :
  ui_inv s' → st_next_request_id s' = st_next_request_id s → ids s ≡ₚ i :: ids s' → ui_inv s →
  good 0 s (s', [DoCancel (MkRequestId i)]).
Proof.
  intros Hi Hn Hp Hs. assert (i ∉ ids s') as Hnot.
  { destruct (ui_ids _ _ Hs). rewrite Hp in io_unique0. by inversion io_unique0. }
  split; cbn; unfold issued, cancelled; cbn.
  - done.
  - lia.
  - by intros j ?%not_elem_of_nil.
  - constructor.
  - intros j Hj. left. rewrite Hp. by right.
  - intros j ->%list_elem_of_singleton. split; [left; rewrite Hp; by left|done].
Qed.

Lemma cancel_mutation_good s :
  ui_inv s → good 0 s (cancel_mutation s) ∧ st_pending (cancel_mutation s).1 = None ∧
  px_selection_pending (st_proxies (cancel_mutation s).1) = None ∧
  fs_activation_pending (st_profiles (cancel_mutation s).1) = None.
Proof.
  intros Hi. pose proof (ui_marks _ _ Hi) as [Hsel Hact]. unfold cancel_mutation.
  destruct (st_pending s) as [p|] eqn:Hp.
  2: { split; [apply good_silently; done|]. cbn. split; [done|]. split; apply eq_None_not_Some.
       - intros Hs. by destruct (Hsel Hs) as (? & ? & _).
       - intros Hs. by destruct (Hact Hs) as (? & ? & _). }
  assert (po_kind p ≠ PendActivateProfile → fs_activation_pending (st_profiles s) = None) as Hother.
  { intros Hk. apply eq_None_not_Some. intros Hs. destruct (Hact Hs) as (q & Hq & Hkq). congruence. }
  assert (ids s = request_id_value (po_request_id p) :: request_ids None (px_group_load_pending (st_proxies s))
                    (rs_load_pending (st_rules s))) as Hids by (unfold ids; by rewrite Hp).
  destruct p as [[i] g k]. cbn in *. split.
  - apply good_cancel; [| | |done]; case_bool_decide; try done; try (by rewrite Hids).
    all: pose proof (ids_drop _ _ _ _ (ui_ids _ _ Hi) (reflexive_eq _ _ Hids)); destruct Hi as [[] [] ? ? ? ? ? ? ?];
      split; cbn; try done; split; cbn; try done; try (by intros []).
    rewrite Hother by done. by intros [].
  - split; [by case_bool_decide|]. split; [done|]. case_bool_decide; [done|]. cbn. by apply Hother.
Qed.

Lemma cancel_group_good s :
  ui_inv s → good 0 s (cancel_group_load s) ∧ px_group_load_pending (st_proxies (cancel_group_load s).1) = None ∧
  st_pending (cancel_group_load s).1 = st_pending s ∧ st_rules (cancel_group_load s).1 = st_rules s ∧
  px_selection_pending (st_proxies (cancel_group_load s).1) = px_selection_pending (st_proxies s) ∧
  st_profiles (cancel_group_load s).1 = st_profiles s.
Proof.
  intros Hi. unfold cancel_group_load. destruct (px_group_load_pending (st_proxies s)) as [[[i] g k]|] eqn:Hp.
  2: { split; [by apply good_silently|done]. }
  split; [|done].
  assert (ids s ≡ₚ i :: request_ids (st_pending s) None (rs_load_pending (st_rules s))) as Hids.
  { unfold ids, request_ids. rewrite Hp. cbn. by rewrite <-Permutation_middle. }
  apply good_cancel; [|done|done|done]. pose proof (ids_drop _ _ _ _ (ui_ids _ _ Hi) Hids).
  by destruct Hi as [[] [] ? ? ? ? [] ? ?].
Qed.
Lemma cancel_rule_good s :
  ui_inv s → good 0 s (cancel_rule_load s) ∧ rs_load_pending (st_rules (cancel_rule_load s).1) = None ∧
  st_pending (cancel_rule_load s).1 = st_pending s ∧ st_proxies (cancel_rule_load s).1 = st_proxies s ∧
  st_profiles (cancel_rule_load s).1 = st_profiles s.
Proof.
  intros Hi. unfold cancel_rule_load. destruct (rs_load_pending (st_rules s)) as [[[i] g k]|] eqn:Hp.
  2: { split; [by apply good_silently|done]. }
  split; [|done].
  assert (ids s ≡ₚ i :: request_ids (st_pending s) (px_group_load_pending (st_proxies s)) None) as Hids.
  { unfold ids, request_ids. rewrite Hp. cbn. rewrite app_nil_r, app_assoc. symmetry. apply Permutation_cons_append. }
  apply good_cancel; [|done|done|done]. pose proof (ids_drop _ _ _ _ (ui_ids _ _ Hi) Hids).
  by destruct Hi as [? ? [] ? ? ? [] ? ?].
Qed.
Lemma cancel_pending_good s : ui_inv s → good 0 s (cancel_pending s) ∧ settled (cancel_pending s).1.
Proof.
  intros Hi. destruct (cancel_mutation_good s Hi) as (H1 & Hp1 & Hs1 & Ha1). unfold cancel_pending.
  assert (∀ m f, (and_then m f).1 = (f m.1).1) as Hfst.
  { intros m f. unfold and_then. by destruct (f m.1). }
  destruct (cancel_group_good _ (gd_inv _ _ _ H1)) as (H2 & Hg2 & Hp2 & Hr2 & Hs2 & Hf2).
  pose proof (good_then 0 0 s _ cancel_group_load Hi H1 H2) as H12.
  destruct (cancel_rule_good _ (gd_inv _ _ _ H12)) as (H3 & Hr3 & Hp3 & Hx3 & Hf3).
  split; [by apply (good_then 0 0 s _ cancel_rule_load Hi H12)|]. rewrite !Hfst in Hr3, Hp3, Hx3, Hf3. rewrite !Hfst.
  split; rewrite ?Hr3, ?Hp3, ?Hx3, ?Hf3, ?Hp2, ?Hs2, ?Hf2; done.
Qed.

Lemma bump_next s : ui_inv s → st_next_request_id s < u64_max → bump (st_next_request_id s) = st_next_request_id s + 1.
Proof.
  intros Hi Hn. pose proof (io_next _ _ (ui_ids _ _ Hi)). unfold bump, wrapping_add. rewrite Z.mod_small; lia.
Qed.
Lemma take_tidy s :
  ui_inv s → st_next_request_id s < u64_max →
  ui_inv (take_request_id s).2 ∧ ids (take_request_id s).2 = ids s ∧
  st_next_request_id (take_request_id s).2 = st_next_request_id s + 1.
Proof.
  intros Hi Hn. cbn. rewrite bump_next by done. split; [|done]. destruct Hi as [? ? ? ? ? ? ? [] ?]. split; try done.
  split; cbn; [done| |lia]. eapply Forall_impl; [exact io_range0|]. cbn. lia.
Qed.

(** *** Issuing *)

(** A number is taken, something is cancelled, and the request with that number is added. *)
Lemma good_issue s m s' c :
  ui_inv s → st_next_request_id s < u64_max → good 0 (take_request_id s).2 m →
  ui_inv s' → st_next_request_id s' = st_next_request_id m.1 → ids s' ≡ₚ st_next_request_id s :: ids m.1 →
  issued_by c = [st_next_request_id s] → cancelled_by c = [] → good 1 s (s', m.2 ++ [c]).
Proof.
  intros Hi Hn Hm Hi' Hn' Hids Hc1 Hc2. destruct (take_tidy s Hi Hn) as (Hi1 & Hids1 & Hn1).
  pose proof (gd_next _ _ _ Hm) as Hnm. rewrite Hn1 in Hnm.
  assert (∀ i, i ∈ issued m.2 → False) as Hnone by (intros i Hin%(gd_issued _ _ _ Hm); rewrite Hn1 in Hin; lia).
  assert (∀ i, i ∈ issued (m.2 ++ [c]) ↔ i = st_next_request_id s) as Hiss.
  { intros i. unfold issued in *. rewrite bind_app, elem_of_app. cbn. rewrite app_nil_r, Hc1, list_elem_of_singleton. naive_solver. }
  assert (cancelled (m.2 ++ [c]) = cancelled m.2) as Hcan.
  { unfold cancelled. rewrite bind_app. cbn. by rewrite Hc2, app_nil_r. }
  split; cbn [fst snd]; rewrite ?Hcan.
  - done.
  - lia.
  - intros i ->%Hiss. lia.
  - assert (issued m.2 = []) as Hnil by (apply elem_of_nil_inv; exact Hnone).
    unfold issued in *. rewrite bind_app, Hnil. cbn. rewrite Hc1. apply NoDup_singleton.
  - intros i. rewrite Hids, elem_of_cons, Hiss. intros [->|Hin]; [by right|].
    apply (gd_ids _ _ _ Hm) in Hin as [Hin|Hin]; [left; by rewrite <-Hids1|by destruct (Hnone i)].
  - intros i Hin. destruct (gd_cancelled _ _ _ Hm i Hin) as [[Hwas|Hwas] Hgone]; [|by destruct (Hnone i)].
    rewrite Hids1 in Hwas. split; [by left|]. rewrite Hids, elem_of_cons. intros [->|?]; [|done].
    apply (ids_below s) in Hwas; [lia|done].
Qed.

(** Marks what the operation of [kind] is about. *)
Definition marking (kind : PendingOperationKind) (mark : AppState → AppState) : Prop := ∀ s p,
  ui_inv s → settled s → po_kind p = kind → 1 ≤ request_id_value (po_request_id p) < st_next_request_id s →
  ui_inv (mark (st_set_pending (Some p) s)) ∧ ids (mark (st_set_pending (Some p) s)) = [request_id_value (po_request_id p)] ∧
  st_next_request_id (mark (st_set_pending (Some p) s)) = st_next_request_id s.

Lemma issue_good kind command mark s :
  ui_inv s → st_next_request_id s < u64_max → marking kind mark →
  (∀ r g, issued_by (command r g) = [request_id_value r] ∧ cancelled_by (command r g) = []) →
  good 1 s (issue kind command mark s).
Proof.
  intros Hi Hn Hmark Hcmd. destruct (take_tidy s Hi Hn) as (Hi1 & Hids1 & Hn1). unfold issue.
  destruct (take_request_id s) as [r s1] eqn:Ht. cbn in *. injection Ht as <- <-.
  destruct (cancel_pending_good _ Hi1) as [Hc Hset]. set (m := cancel_pending _) in *.
  set (p := MkPendingOperation (MkRequestId (st_next_request_id s)) (generation m.1) kind).
  assert (1 ≤ st_next_request_id s) as Hone by apply (ui_ids _ _ Hi).
  pose proof (gd_next _ _ _ Hc) as Hnm. cbn in Hnm. rewrite bump_next in Hnm by done.
  destruct (Hmark m.1 p) as (Hi' & Hids' & Hn'); [apply Hc|done|done|cbn; lia|].
  unfold and_then. cbn. apply good_issue; [done|done|done| |done| |apply (Hcmd (MkRequestId _) _)|apply (Hcmd (MkRequestId _) _)].
  - by eapply ui_same.
  - change (ids (mark (st_set_pending (Some p) m.1)) ≡ₚ st_next_request_id s :: ids m.1). rewrite Hids'.
    destruct Hset. unfold ids. by rewrite se_pending0, se_group0, se_rules0.
Qed.

Lemma settled_ids s p : settled s → ids (st_set_pending (Some p) s) = [request_id_value (po_request_id p)].
Proof. intros []. unfold ids. cbn. by rewrite se_group0, se_rules0. Qed.

Lemma ids_one i next : 1 ≤ i < next → ids_ok [i] next.
Proof. intros Hi. split; [apply NoDup_singleton|by apply Forall_singleton|lia]. Qed.

Lemma marking_id kind : marking kind id.
Proof.
  intros s p [] Hset Hk Hr. pose proof (settled_ids s p Hset) as Hids. split; [|done].
  destruct Hset. split; try done; [|unfold id; rewrite Hids; by apply ids_one].
  split; cbn; rewrite ?se_selection0, ?se_activation0; by intros [].
Qed.
Lemma marking_activation profile :
  marking PendActivateProfile (λ s, st_set_profiles (fs_set_activation_pending (Some profile) (st_profiles s)) s).
Proof.
  intros s p [] Hset Hk Hr. pose proof (settled_ids s p Hset) as Hids. split; [|done].
  destruct Hset. split; try done; [by destruct ui_fs0| |].
  - split; cbn; [rewrite se_selection0; by intros []|]. intros _. by exists p.
  - change (ids_ok (ids (st_set_pending (Some p) s)) (st_next_request_id s)). rewrite Hids. by apply ids_one.
Qed.
Lemma marking_selection group node name :
  marking PendSelectNode (λ s, st_set_proxies (px_set_selection_pending (Some (group, node))
                                 (px_set_selected_group (Some name) (st_proxies s))) s).
Proof.
  intros s p [] Hset Hk Hr. pose proof (settled_ids s p Hset) as Hids. split; [|done].
  destruct Hset. split; try done; [by destruct ui_px0| |].
  - split; cbn; [|rewrite se_activation0; by intros []]. intros _. by exists p.
  - change (ids_ok (ids (st_set_pending (Some p) s)) (st_next_request_id s)). rewrite Hids. by apply ids_one.
Qed.

Lemma ids_more l next i : ids_ok l next → 1 ≤ i < next → i ∉ l → ids_ok (i :: l) next.
Proof. intros [] Hi Hl. by split; [constructor|constructor|]. Qed.
#[global] Instance ids_ok_proper : Proper ((≡ₚ) ==> (=) ==> iff) ids_ok.
Proof. intros l k Hp ? next ->. split; intros []; split; by rewrite ?Hp || rewrite <-?Hp. Qed.

(** The number that was taken is not one of those that wait. *)
Lemma taken_fresh s m : ui_inv s → st_next_request_id s < u64_max → good 0 (take_request_id s).2 m → st_next_request_id s ∉ ids m.1.
Proof.
  intros Hi Hn Hm Hin. destruct (take_tidy s Hi Hn) as (Hi1 & Hids1 & Hn1).
  apply (gd_ids _ _ _ Hm) in Hin as [Hin|Hin].
  - rewrite Hids1 in Hin. apply (ids_below s) in Hin; [lia|done].
  - apply (gd_issued _ _ _ Hm) in Hin. rewrite Hn1 in Hin. lia.
Qed.

(** The two ways to load something, without disturbing the other requests. *)
Lemma rule_load_good s : ui_inv s → st_next_request_id s < u64_max → good 1 s (issue_rule_load s).
Proof.
  intros Hi Hn. unfold issue_rule_load. destruct (negb _); [by apply good_silently|].
  destruct (take_tidy s Hi Hn) as (Hi1 & Hids1 & Hn1). assert (1 ≤ st_next_request_id s) as Hone by apply (ui_ids _ _ Hi).
  destruct (take_request_id s) as [r s1] eqn:Ht. cbn in Hi1, Hids1, Hn1. injection Ht as <- <-.
  destruct (cancel_rule_good _ Hi1) as (Hc & Hp & _). set (m := cancel_rule_load _) in *.
  pose proof (gd_next _ _ _ Hc) as Hnm. cbn in Hnm. rewrite bump_next in Hnm by done.
  unfold and_then. cbn [fst snd]. match goal with |- good _ _ (?x, _) => set (s' := x) end.
  assert (ids s' ≡ₚ st_next_request_id s :: ids m.1) as Hids.
  { unfold ids, request_ids. cbn. rewrite Hp, !app_nil_r, app_assoc. symmetry. apply Permutation_cons_append. }
  apply good_issue; try done.
  destruct (gd_inv _ _ _ Hc) as [? ? [] ? ? ? [] Hok ?]. split; try done. rewrite Hids.
  apply ids_more; [done|cbn; lia|by apply (taken_fresh s)].
Qed.

Lemma good_plain n s s' c : 0 ≤ n → tidy s s' → issued_by c = [] → cancelled_by c = [] → good n s (s', [c]).
Proof.
  intros Hn Ht Hc1 Hc2. destruct (good_silently n s s' Hn Ht) as [? ? H1 H2 H3 H4].
  split; try done; unfold issued, cancelled; cbn; rewrite ?Hc1, ?Hc2; done.
Qed.
Lemma tidy_good n s s' m : tidy s s' → good n s' m → good n s m.
Proof. intros [Hi Hd Hx] []. split; rewrite <-?Hd, <-?Hx; done. Qed.
Lemma good_same n s m s' : good n s m → same_core m.1 s' → good n s (s', m.2).
Proof.
  intros Hm Hs. destruct (tidy_same _ _ (gd_inv _ _ _ Hm) Hs) as [Hi Hd Hx]. destruct Hm.
  split; cbn; rewrite ?Hd, ?Hx; done.
Qed.
Lemma dirty_good n s m : good n s m → good n s (let '(s', commands) := m in (st_set_render_dirty true s', commands)).
Proof. destruct m as [s' commands]. intros Hm. apply (good_same _ _ (s', commands)); [done|by split]. Qed.

Lemma group_load_good group s :
  ui_inv s → st_next_request_id s < u64_max → good 1 s (issue_proxy_group_load group s).
Proof.
  intros Hi Hn. unfold issue_proxy_group_load. destruct (find_group group s) as [[index row]|] eqn:Hf; [|by apply good_silently].
  assert (tidy s (st_set_proxies (px_set_group_cursor index (st_proxies s)) s)) as Ht.
  { unfold find_group in Hf. destruct (list_find _ _) as [[k x]|] eqn:Hl; [|done]. injection Hf as <- <-.
    apply list_find_Some in Hl as (Hl & _). apply lookup_lt_Some in Hl. apply select_group_tidy; [done|].
    unfold ranged, zlen in *. cbn. lia. }
  apply (tidy_good _ _ _ _ Ht). destruct Ht as [Hi0 _ Hx0]. rewrite <-Hx0 in Hn. set (s0 := st_set_proxies _ s) in *.
  clearbody s0. clear s Hi Hf Hx0.
  destruct (_ && _). { apply good_silently; [done|]. unfold focus_content_if_narrow. destruct (narrow s0); [|done]. by apply then_focus. }
  destruct (take_tidy s0 Hi0 Hn) as (Hi1 & Hids1 & Hn1). assert (1 ≤ st_next_request_id s0) as Hone by apply (ui_ids _ _ Hi0).
  destruct (take_request_id s0) as [r s1] eqn:Ht. cbn in Hi1, Hids1, Hn1. injection Ht as <- <-.
  destruct (cancel_group_good _ Hi1) as (Hc & Hp & _). set (m := cancel_group_load _) in *.
  pose proof (gd_next _ _ _ Hc) as Hnm. cbn in Hnm. rewrite bump_next in Hnm by done.
  unfold and_then. cbn [fst snd]. match goal with |- good _ _ (?x, _) => set (s' := x) end.
  assert (ids s' ≡ₚ st_next_request_id s0 :: ids m.1) as Hids.
  { unfold ids, request_ids. cbn. rewrite Hp. cbn. by rewrite <-Permutation_middle. }
  apply good_issue; try done.
  destruct (gd_inv _ _ _ Hc) as [[] ? ? ? ? ? [] Hok ?]. split; try done. rewrite Hids.
  apply ids_more; [done|cbn; lia|by apply (taken_fresh s0)].
Qed.

Lemma ensure_rules_good s : ui_inv s → st_next_request_id s < u64_max → good 1 s (ensure_rules_loaded s).
Proof. intros Hi Hn. unfold ensure_rules_loaded. destruct (_ || _ || _); [by apply good_silently|by apply rule_load_good]. Qed.
Lemma load_on_page_good s : ui_inv s → st_next_request_id s < u64_max → good 1 s (load_rules_on_page s).
Proof. intros Hi Hn. unfold load_rules_on_page. case_bool_decide; [by apply ensure_rules_good|by apply good_silently]. Qed.
Lemma invalidate_good s : ui_inv s → good 0 s (invalidate_rule_cache s).
Proof.
  intros Hi. destruct (cancel_rule_good s Hi) as (Hc & _). apply (good_then 0 0); [done|done|].
  apply good_silently; [done|]. apply tidy_rules; [apply Hc| |done]. by destruct (ui_ru _ _ (gd_inv _ _ _ Hc)).
Qed.
Lemma lifecycle_good action s : ui_inv s → st_next_request_id s < u64_max → good 1 s (issue_lifecycle_action action s).
Proof.
  intros Hi Hn. destruct action; cbn [issue_lifecycle_action].
  - destruct (take_tidy s Hi Hn) as (Hi1 & Hids1 & Hn1). destruct (cancel_pending_good _ Hi1) as [Hc _].
    pose proof (gd_next _ _ _ Hc) as Hnm. rewrite Hn1 in Hnm.
    assert (∀ i, i ∈ issued (cancel_pending (take_request_id s).2).2 → False) as Hnone.
    { intros i Hin%(gd_issued _ _ _ Hc). rewrite Hn1 in Hin. lia. }
    split; cbn [silently fst snd].
    + apply Hc.
    + lia.
    + by intros i ?%not_elem_of_nil.
    + constructor.
    + intros i Hin. apply (gd_ids _ _ _ Hc) in Hin as [Hin|Hin]; [rewrite Hids1 in Hin; by left|by destruct (Hnone i)].
    + by intros i ?%not_elem_of_nil.
  - by apply issue_good; [..|apply marking_id|].
  - by apply issue_good; [..|apply marking_id|].
Qed.
Lemma open_profiles_tidy s : ui_inv s → tidy s (open_profiles to_lowercase s).
Proof.
  intros Hi. eapply (tidy_trans _ (show (Some ModalProfiles) FocusContent s)); [apply tidy_same; [done|by split]|].
  apply select_profiles_tidy, clamp_ranged; [by eapply ui_same|apply (ui_fs _ _ Hi)|apply zlen_nonneg].
Qed.
Lemma show_tidy modal focus s : ui_inv s → tidy s (show modal focus s).
Proof. intros Hi. apply tidy_same; [done|by split]. Qed.
Lemma palette_action_good action s : ui_inv s → st_next_request_id s < u64_max → good 1 s (run_palette_action to_lowercase action s).
Proof.
  intros Hi Hn. destruct action; cbn [run_palette_action].
  - by apply good_silently, open_profiles_tidy.
  - by apply lifecycle_good.
  - by apply good_silently, show_tidy.
Qed.
Lemma activation_good profile s : ui_inv s → st_next_request_id s < u64_max → good 1 s (issue_profile_activation profile s).
Proof. intros Hi Hn. by apply issue_good; [..|apply marking_activation|]. Qed.
Lemma node_selection_good group node s : ui_inv s → st_next_request_id s < u64_max → good 1 s (issue_node_selection group node s).
Proof.
  intros Hi Hn. unfold issue_node_selection. destruct (find_group group s) as [[? row]|]; [|by apply good_silently].
  destruct (pg_selectable row); [|by apply good_silently]. by apply issue_good; [..|apply marking_selection|].
Qed.

Lemma editor_good s : ui_inv s → st_next_request_id s < u64_max → good 1 s (submit_rule_editor s).
Proof.
  intros Hi Hn. unfold submit_rule_editor. destruct (_ || _); [by apply good_silently|].
  destruct (st_modal s) as [[]|]; try by apply good_silently.
  case_bool_decide; [apply good_silently, tidy_same; [done|done|by split]|].
  case_bool_decide; [apply good_silently, tidy_same; [done|done|by split]|].
  by destruct original; apply issue_good; [..|apply marking_id| | | |apply marking_id|].
Qed.
Lemma removal_good s : ui_inv s → st_next_request_id s < u64_max → good 1 s (confirm_rule_removal s).
Proof.
  intros Hi Hn. unfold confirm_rule_removal. destruct (_ || _); [by apply good_silently|].
  destruct (st_modal s) as [[]|]; try by apply good_silently. by apply issue_good; [..|apply marking_id|].
Qed.
Lemma confirm_good s : ui_inv s → st_next_request_id s < u64_max → good 1 s (confirm_lifecycle_action s).
Proof.
  intros Hi Hn. unfold confirm_lifecycle_action. destruct (st_modal s) as [[]|]; try by apply good_silently.
  destruct (modal_action_pending s); [by apply good_silently|by apply lifecycle_good].
Qed.
Lemma pause_good s : ui_inv s → good 1 s (toggle_log_pause s).
Proof.
  intros Hi. unfold toggle_log_pause. destruct (ui_lg _ _ Hi). destruct (lg_paused (st_logs s)).
  - apply good_plain; try done. apply tidy_logs; [done|]. split; cbn; try done. apply ranged_zero.
  - apply good_silently, tidy_logs; [done|done|]. by split.
Qed.
Lemma switch_good page s : ui_inv s → st_next_request_id s < u64_max → good 1 s (switch_page page s).
Proof.
  intros Hi Hn. unfold switch_page. set (s' := st_set_focus _ _).
  assert (tidy s s') as Ht by (by apply tidy_same). apply (tidy_good _ _ _ _ Ht). destruct Ht. apply load_on_page_good; [done|lia].
Qed.
Lemma escape_tidy s : ui_inv s → tidy s (escape s).
Proof.
  intros Hi. unfold escape. repeat (case_match; try (apply tidy_same; [done|by split])).
  apply tidy_logs; [done|]. by apply follow_ok, Hi.
Qed.
Lemma palette_open_tidy s : ui_inv s → tidy s (open_command_palette to_lowercase s).
Proof.
  intros Hi. eapply tidy_trans; [apply (show_tidy (Some ModalCommandPalette) FocusModal s Hi)|].
  apply palette_tidy; [by apply show_tidy|apply (ui_cp _ _ Hi)].
Qed.
Lemma focus_tidy delta s : ui_inv s → tidy s (move_focus delta s) ∧ tidy s (move_horizontal_focus delta s).
Proof.
  intros Hi. split; [apply tidy_same; [done|by split]|]. unfold move_horizontal_focus.
  repeat (case_match; try done); apply tidy_same; try done; by split.
Qed.
Lemma normalize_tidy s : ui_inv s → tidy s (normalize_focus s).
Proof. intros Hi. unfold normalize_focus. case_bool_decide; [done|]. apply tidy_same; [done|by split]. Qed.
Lemma rule_modal_tidy s :
  ui_inv s → tidy s (open_selected_rule_editor to_lowercase s) ∧ tidy s (request_selected_rule_removal to_lowercase s).
Proof.
  intros Hi. unfold open_selected_rule_editor, request_selected_rule_removal.
  destruct (selected_rule to_lowercase s); [|done]. split; by apply show_tidy.
Qed.
Lemma activate_selected_good s :
  ui_inv s → st_next_request_id s < u64_max → good 1 s (activate_selected to_lowercase s).
Proof.
  intros Hi Hn. unfold activate_selected. destruct (modal_is s ModalCommandPalette).
  { case_match; [by apply palette_action_good|by apply good_silently]. }
  destruct (modal_is s ModalProfiles). { case_match; [by apply activation_good|by apply good_silently]. }
  destruct (st_page s).
  - repeat (case_match; try by apply good_silently). by apply node_selection_good.
  - by apply good_silently.
  - case_match; apply good_silently; try done. by apply rule_modal_tidy.
  - by apply dirty_good, pause_good.
Qed.

Lemma when_ready_tidy f s : ui_inv s → tidy s (f s) → tidy s (when_ready f s).
Proof. intros Hi Hf. unfold when_ready. by destruct (rules_projection_ready s). Qed.

Lemma dispatch_good intent s :
  ui_inv s → intent_ok intent → st_next_request_id s < u64_max → good 1 s (dispatch_intent to_lowercase intent s).
Proof.
  intros Hi Hok Hn. pose proof (rule_modal_tidy s Hi) as [Hr1 Hr2].
  destruct intent; cbn [dispatch_intent]; cbn in Hok; try (apply good_silently; [done|]).
  all: try (first [by apply switch_good|by apply focus_tidy|by apply palette_open_tidy|by apply open_profiles_tidy
    |by apply palette_action_good|by apply confirm_good|by apply rule_load_good|by apply when_ready_tidy|by apply editor_good
    |by apply removal_good|by apply select_rule_tidy|by apply select_connection_tidy|by apply select_log_tidy
    |by apply move_group_tidy|by apply group_load_good|by apply append_tidy|by apply backspace_tidy|by apply escape_tidy
    |by apply move_tidy|by apply activate_selected_good|by apply activation_good|by apply node_selection_good
    |by apply pause_good|by apply show_tidy]).
  - case_match; [by apply then_focus|done].
  - apply when_ready_tidy; [done|by apply show_tidy].
  - apply tidy_logs; [done|]. apply level_ok, Hi.
  - apply tidy_logs; [done|]. apply follow_ok, Hi.
  - case_match; [apply tidy_same; [done|by split]|done].
  - case_match; by apply show_tidy.
  - apply tidy_same; [done|by split].
Qed.
Lemma intent_good intent s :
  ui_inv s → intent_ok intent → st_next_request_id s < u64_max → good 1 s (apply_intent to_lowercase intent s).
Proof. intros Hi Hok Hn. unfold apply_intent. by apply dirty_good, dispatch_good. Qed.

(** ** Events *)

(** A transition that at most forgets requests. *)
Record calm (s s' : AppState) : Prop := {
  ca_inv : ui_inv s';
  ca_ids : ids s' ⊆ ids s;
  ca_next : st_next_request_id s' = st_next_request_id s;
}.
Lemma tidy_calm s s' : tidy s s' → calm s s'.
Proof. intros [Hi Hd Hn]. split; [done|by rewrite Hd|done]. Qed.
Lemma calm_trans s s' s'' : calm s s' → calm s' s'' → calm s s''.
Proof. intros [Hi Hd Hn] [Hi' Hd' Hn']. split; [done|by etrans|congruence]. Qed.
Lemma calm_unchanged s s' s'' : calm s s' → same_core s' s'' → calm s s''.
Proof. intros Hc Hs. eapply calm_trans; [done|]. apply tidy_calm, tidy_same; [apply Hc|done]. Qed.
Lemma dirty_calm s s' : calm s s' → calm s (st_set_render_dirty true s').
Proof. intros Hc. by apply (calm_unchanged s s'). Qed.
Lemma view_calm s s' : calm s s' → calm s (bump_view_revision s').
Proof. intros Hc. by apply (calm_unchanged s s'). Qed.
Lemma status_calm s s' : calm s s' → calm s (bump_status_revision s').
Proof. intros Hc. by apply (calm_unchanged s s'). Qed.
Lemma toast_calm t s s' : calm s s' → calm s (st_set_toast t s').
Proof. intros Hc. by apply (calm_unchanged s s'). Qed.
Lemma connection_calm c s s' : calm s s' → calm s (st_set_connection c s').
Proof. intros Hc. by apply (calm_unchanged s s'). Qed.
Lemma calm_clamp s s' :
  ui_ok false s' → ids s' ⊆ ids s → st_next_request_id s' = st_next_request_id s → calm s (clamp_selections to_lowercase s').
Proof. intros Hi Hd Hn. split; [by apply clamp_selections_ok|done|done]. Qed.
Lemma calm_good n s s' m : calm s s' → good n s' m → good n s m.
Proof.
  intros [Hi Hd Hn] []. split; rewrite <-?Hn; [done|done|done|done| |].
  - intros i Hin. destruct (gd_ids0 i Hin); [left; by apply Hd|by right].
  - intros i Hin. destruct (gd_cancelled0 i Hin) as [[|] ?]; (split; [|done]); [left; by apply Hd|by right].
Qed.
Lemma calm_silently n s s' : 0 ≤ n → calm s s' → good n s (silently s').
Proof. intros Hn Hc. apply (calm_good _ _ _ _ Hc). apply good_silently; [done|]. apply tidy_refl, Hc. Qed.

Lemma zlen_ztake {A} n (l : list A) : 0 ≤ n → zlen (ztake n l) ≤ n.
Proof. unfold zlen, ztake. rewrite length_take. lia. Qed.
Lemma zposition_bounds {A} (P : A → bool) (l : list A) i : zposition P l = Some i → 0 ≤ i < zlen l.
Proof.
  unfold zposition. destruct (list_find _ l) as [[k x]|] eqn:Hl; [|done]. intros [= <-].
  apply list_find_Some in Hl as (Hl & _). apply lookup_lt_Some in Hl. unfold zlen. cbn. lia.
Qed.
Lemma found_nonneg {A B} (o : option B) (P : B → A → bool) (l : list A) i : o ≫= (λ x, zposition (P x) l) = Some i → 0 ≤ i.
Proof. destruct o; cbn; [|done]. intros Hz%zposition_bounds. lia. Qed.
Lemma group_found name groups i : group_position name groups = Some i → 0 ≤ i.
Proof. exact (found_nonneg name (λ n g, bool_decide (pg_name g = n)) groups i). Qed.
Lemma group_position_nonneg name groups : 0 ≤ default 0 (group_position name groups).
Proof.
  destruct (group_position name groups) as [i|] eqn:He; [by apply group_found in He|done].
Qed.

Lemma ids_nil next : 1 ≤ next → ids_ok [] next.
Proof. intros Hn. by split; [constructor|constructor|]. Qed.
Lemma replace_calm g snapshot s : ui_inv s → calm s (replace_snapshot to_lowercase g snapshot s).
Proof.
  intros Hi. apply (ui_weaken false) in Hi. destruct Hi as [[] [] [] [] [] ? ? Hids ?].
  unfold replace_snapshot. apply dirty_calm, calm_clamp; [|by intros i ?%not_elem_of_nil|done].
  split; cbn; try done.
  - split; cbn; try done; try by apply zlen_ztake.
    + split; [apply group_position_nonneg|done].
    + by destruct pxo_selected0.
  - split; cbn; try done; [by apply zlen_ztake|]. by destruct fso_selected0.
  - apply push_view_logs_ok. split; cbn; try done. by destruct lgo_scroll0.
  - split; cbn; by intros [].
  - apply ids_nil, Hids.
Qed.

Lemma set_status_calm status s :
  ui_ok false s → ui_ok false (set_status_preserving_connection_selection status s) ∧
  ids (set_status_preserving_connection_selection status s) = ids s ∧
  st_next_request_id (set_status_preserving_connection_selection status s) = st_next_request_id s.
Proof.
  intros [? ? ? ? [[Hsel _] Hscroll] ? ? ? ?]. unfold set_status_preserving_connection_selection.
  assert (∀ i, 0 ≤ i → 0 ≤ clamp_index i (zlen (ss_connections status))) as Hclamp.
  { intros i Hi. unfold clamp_index, saturating_sub. pose proof (zlen_nonneg (ss_connections status)). lia. }
  destruct (_ ≫= λ id, zposition _ _) as [i|] eqn:Hpos; (split; [|done]); split; cbn; try done.
  - assert (0 ≤ i) as Hi.
    { destruct (st_status s ≫= _) as [id|]; [|done]. cbn in Hpos. apply zposition_bounds in Hpos. lia. }
    specialize (Hclamp i Hi). split; cbn; [by split|]. unfold connection_record_count; cbn; lia.
  - specialize (Hclamp _ Hsel). split; cbn; [by split|]. unfold connection_record_count; cbn; lia.
Qed.

(** The proxies or the profiles of the state are exchanged. *)
Lemma loose_proxies s px :
  ui_ok false s → px_ok false px → px_group_load_pending px = px_group_load_pending (st_proxies s) →
  px_selection_pending px = px_selection_pending (st_proxies s) →
  ui_ok false (st_set_proxies px s) ∧ ids (st_set_proxies px s) = ids s.
Proof.
  intros [] Hp Hg Hs. unfold ids. cbn. rewrite Hg. split; [|done]. destruct ui_marks0.
  split; cbn; try done; [by split; rewrite ?Hs|]. unfold ids. cbn. by rewrite Hg.
Qed.
Lemma loose_profiles s fs :
  ui_ok false s → fs_ok false fs → fs_activation_pending fs = fs_activation_pending (st_profiles s) →
  ui_ok false (st_set_profiles fs s) ∧ ids (st_set_profiles fs s) = ids s.
Proof. intros [] Hf Ha. destruct ui_marks0. split; [|done]. split; cbn; try done. by split; rewrite ?Ha. Qed.

Lemma adopt_calm s replace_proxies replace_status proxies groups profiles status :
  ui_inv s → zlen proxies ≤ MAX_ACTIVE_NODES → zlen groups ≤ MAX_ACTIVE_NODES → zlen profiles ≤ PROFILE_VIEW_CAPACITY →
  calm s (adopt_snapshot to_lowercase s replace_proxies replace_status proxies groups profiles status).
Proof.
  intros Hi Hp Hg Hf. apply (ui_weaken false) in Hi. unfold adopt_snapshot.
  set (px1 := match _ ≫= _ with Some index => px_set_selected index _ | None => _ end).
  set (fs1 := match _ ≫= _ with Some index => fs_set_selected index _ | None => _ end).
  assert (px_ok false px1 ∧ px_group_load_pending px1 = px_group_load_pending (st_proxies s) ∧
          px_selection_pending px1 = px_selection_pending (st_proxies s)) as (Hpx1 & Hpl1 & Hps1).
  { destruct (ui_px _ _ Hi) as [? ? [? _] [? _] ?]. subst px1.
    match goal with |- context [match ?o with Some _ => px_set_selected _ _ | None => _ end] => destruct o as [i|] eqn:He end.
    - apply found_nonneg in He.
      destruct replace_proxies; (split; [|done]); by split.
    - destruct replace_proxies; (split; [|done]); by split. }
  assert (fs_ok false fs1 ∧ fs_activation_pending fs1 = fs_activation_pending (st_profiles s)) as (Hfs1 & Hfa1).
  { destruct (ui_fs _ _ Hi) as [? ? [? _] ?]. subst fs1.
    match goal with |- context [match ?o with Some _ => fs_set_selected _ _ | None => _ end] => destruct o as [i|] eqn:He end.
    - apply found_nonneg in He. by split.
    - by split. }
  clearbody px1 fs1. destruct (loose_proxies s px1) as [Hi1 Hd1]; try done.
  destruct (loose_profiles (st_set_proxies px1 s) fs1) as [Hi2 Hd2]; try done.
  set (s2 := st_set_profiles fs1 _) in *. set (s3 := if replace_status then _ else s2).
  assert (ui_ok false s3 ∧ ids s3 = ids s2 ∧ st_next_request_id s3 = st_next_request_id s2) as (Hi3 & Hd3 & Hn3).
  { subst s3. destruct replace_status; [|done]. destruct (set_status_calm status s2 Hi2) as (? & ? & ?).
    split; [|done]. by eapply ui_same. }
  clearbody s3. set (s4 := st_set_connection _ s3). set (px4 := px_set_group_cursor _ _).
  assert (ui_ok false s4) as Hi4 by (by eapply ui_same).
  destruct (loose_proxies s4 px4) as [Hi5 Hd5]; [done| |by subst px4; destruct replace_proxies..|].
  - destruct (ui_px _ _ Hi4) as [? ? [? _] [? _] ?]. subst px4.
    destruct replace_proxies; split; cbn; try done; (split; [|done]); destruct (group_position (_ <$> _) _) eqn:He; cbn.
    all: try apply group_position_nonneg.
    all: by apply group_found in He.
  - apply dirty_calm, view_calm, calm_clamp; [done| |].
    + rewrite Hd5. change (ids s4) with (ids s3). by rewrite Hd3, Hd2, Hd1.
    + by change (st_next_request_id s3 = st_next_request_id s).
Qed.
Lemma refresh_calm g base_view base_status snapshot s :
  ui_inv s → calm s (refresh_snapshot to_lowercase g base_view base_status snapshot s).
Proof.
  intros Hi. unfold refresh_snapshot. destruct (negb _); [by apply tidy_calm|]. destruct (_ && _ && _ && _ && _); [by apply tidy_calm|].
  apply adopt_calm; [done|by apply zlen_ztake..].
Qed.

(** *** Answers *)

(** The request that is answered goes the way of one that is cancelled. *)
Lemma good_calm s m : good 0 s m → calm s m.1.
Proof.
  intros Hm. pose proof (gd_next _ _ _ Hm) as Hn. split; [apply Hm| |lia].
  intros i Hin. apply (gd_ids _ _ _ Hm) in Hin as [Hin|Hin]; [done|]. apply (gd_issued _ _ _ Hm) in Hin. lia.
Qed.
Lemma answered_group s p :
  ui_inv s → px_group_load_pending (st_proxies s) = Some p →
  calm s (st_set_proxies (px_set_group_load_pending None (st_proxies s)) s).
Proof.
  intros Hi Hp. destruct (cancel_group_good s Hi) as [Hc _]. apply good_calm in Hc. unfold cancel_group_load in Hc. by rewrite Hp in Hc.
Qed.
Lemma answered_rules s p :
  ui_inv s → rs_load_pending (st_rules s) = Some p → calm s (st_set_rules (rs_set_load_pending None (st_rules s)) s).
Proof.
  intros Hi Hp. destruct (cancel_rule_good s Hi) as [Hc _]. apply good_calm in Hc. unfold cancel_rule_load in Hc. by rewrite Hp in Hc.
Qed.
Lemma narrow_same s : same_core s (focus_content_if_narrow s).
Proof. unfold focus_content_if_narrow. by case_match. Qed.

Lemma group_answer_calm r g outcome s : ui_inv s → calm s (on_proxy_group_loaded to_lowercase r g outcome s).
Proof.
  intros Hi. unfold on_proxy_group_loaded. destruct (px_group_load_pending (st_proxies s)) as [p|] eqn:Hp; [|by apply tidy_calm].
  case_match; [|by apply tidy_calm]. apply dirty_calm, (calm_trans _ _ _ (answered_group s p Hi Hp)).
  pose proof (ca_inv _ _ (answered_group s p Hi Hp)) as Hi1. set (s1 := st_set_proxies _ s) in *. clearbody s1.
  apply (ui_weaken false) in Hi1. destruct outcome as [snapshot|message].
  - set (px := MkProxiesState _ _ _ _ _ _ _ _). destruct (loose_proxies s1 px) as [Hi2 Hd2]; [done| |done|done|].
    + split; cbn; try by apply zlen_ztake.
      * split; [apply (group_position_nonneg (Some _))|done].
      * apply ranged_zero.
      * done.
    + pose proof (narrow_same (st_set_proxies px s1)) as Hs. apply calm_clamp.
      * by apply (ui_same _ _ _ (ui_same _ _ _ Hi2 Hs)).
      * rewrite <-Hd2. unfold ids. cbn. by destruct Hs as [-> _ -> _ _ _ _ -> _ _].
      * cbn. by destruct Hs as [_ _ _ _ _ _ _ _ -> _].
  - by apply calm_clamp; [eapply ui_same|..].
Qed.

Lemma rules_answer_calm r g outcome s : ui_inv s → calm s (on_rules_loaded to_lowercase r g outcome s).
Proof.
  intros Hi. unfold on_rules_loaded. destruct (rs_load_pending (st_rules s)) as [p|] eqn:Hp; [|by apply tidy_calm].
  case_match; [|by apply tidy_calm]. apply dirty_calm, (calm_trans _ _ _ (answered_rules s p Hi Hp)).
  pose proof (ca_inv _ _ (answered_rules s p Hi Hp)) as Hi1. set (s1 := st_set_rules _ s) in *. clearbody s1.
  apply (ui_weaken false) in Hi1. destruct Hi1 as [? ? [] ? ? ? ? ? ?]. destruct outcome as [snapshot|message].
  - apply calm_clamp; [|done|done]. split; cbn; try done. split; cbn; try done. by apply zlen_ztake.
  - apply calm_clamp; [|done|done]. by split.
Qed.

(** [cancel_mutation] without the command. *)
Lemma answered_mutation s p :
  ui_inv s → st_pending s = Some p →
  calm s (clear_mutation (if bool_decide (po_kind p = PendActivateProfile) then clear_activation s else s)).
Proof.
  intros Hi Hp. destruct (cancel_mutation_good s Hi) as [Hc _]. apply good_calm in Hc. unfold cancel_mutation in Hc.
  rewrite Hp in Hc. unfold clear_mutation, clear_activation. by case_bool_decide.
Qed.

Lemma batch_ok l scroll :
  lg_ok false l → ranged true scroll (zlen (filtered_log_indices to_lowercase l)) → (lg_follow l = true → scroll = 0) →
  lg_ok true (lg_set_scroll scroll l).
Proof. intros [] Hr Hf. by split. Qed.

Lemma log_batch_tidy g records gap dropped s : ui_inv s → tidy s (on_log_batch to_lowercase g records gap dropped s).
Proof.
  intros Hi. unfold on_log_batch. destruct (_ && _); [|done].
  assert (lg_ok false (push_view_logs records (st_logs s))) as Hl.
  { apply push_view_logs_ok. apply (ui_weaken false) in Hi. apply Hi. }
  set (l := lg_set_dropped_total _ _). assert (lg_ok false l) as Hl' by (by destruct Hl).
  set (s' := if lg_follow l then _ else _).
  assert (∃ l', s' = st_set_logs l' s ∧ lg_ok true l') as (l' & -> & Hok).
  { subst s'. clearbody l. destruct (lg_follow l) eqn:Hf.
    - eexists. split; [done|]. apply batch_ok; [done|apply ranged_zero|done].
    - assert (0 ≤ lg_scroll l) as Hs by (by destruct Hl' as [? ? ? ? [? _] ? ?]).
      destruct (selected_log_sequence to_lowercase s) as [sequence|].
      + eexists. split; [done|]. apply batch_ok; [done| |cbn; congruence]. cbn.
        set (rows := filtered_log_indices to_lowercase l) in *. destruct (zposition _ rows) as [k|] eqn:Hz.
        * apply zposition_bounds in Hz. unfold ranged, saturating_sub, saturating_add. lia.
        * apply clamp_ranged; [done|apply zlen_nonneg].
      + eexists. split; [done|]. apply batch_ok; [done| |congruence]. apply clamp_ranged; [done|apply zlen_nonneg]. }
  apply (then_same s (st_set_logs l' s)); [by apply tidy_logs|done].
Qed.

Lemma invalidate_load_good s :
  ui_inv s → st_next_request_id s < u64_max → good 1 s (and_then (invalidate_rule_cache s) load_rules_on_page).
Proof.
  intros Hi Hn. pose proof (invalidate_good s Hi) as Hv. apply (good_then 0 1); [done|done|].
  pose proof (gd_next _ _ _ Hv). apply load_on_page_good; [apply Hv|lia].
Qed.
Lemma command_result_good r g outcome s :
  ui_inv s → st_next_request_id s < u64_max → good 1 s (on_command_result r g outcome s).
Proof.
  intros Hi Hn. unfold on_command_result. destruct (st_pending s) as [p|] eqn:Hp; [|by apply good_silently].
  destruct (_ && _ && _); [|by apply good_silently]. set (kind := po_kind p) in *.
  match goal with |- good _ _ (and_then (if _ then load_rules_on_page ?x else _) _) => set (s1 := x) end.
  assert (calm s s1) as Hc.
  { pose proof (answered_mutation s p Hi Hp) as Hc. subst s1. fold kind in Hc.
    destruct outcome; eapply calm_unchanged; [exact Hc| |exact Hc|]; clear Hc; destruct kind; by split. }
  apply (calm_good _ _ _ _ Hc). destruct Hc as [Hi1 _ Hn1]. clearbody s1. rewrite <-Hn1 in Hn.
  destruct (bool_decide (kind = PendActivateProfile)) eqn:Hk.
  - apply (good_then 1 0); [done|by apply load_on_page_good|].
    apply bool_decide_eq_true in Hk. rewrite Hk. apply good_silently; [done|]. apply tidy_refl. by apply load_on_page_good.
  - apply (good_then 0 1); [done|by apply good_silently|]. cbn. destruct (is_rule_operation kind); [|by apply good_silently].
    by apply invalidate_load_good.
Qed.
Lemma refreshed_good g base_view base_status snapshot s :
  ui_inv s → st_next_request_id s < u64_max → good 1 s (on_snapshot_refreshed to_lowercase g base_view base_status snapshot s).
Proof.
  intros Hi Hn. unfold on_snapshot_refreshed. pose proof (refresh_calm g base_view base_status snapshot s Hi) as Hc.
  case_bool_decide; [by apply calm_silently|]. apply (calm_good _ _ _ _ Hc). destruct Hc. apply invalidate_load_good; [done|lia].
Qed.
Lemma connected_good g snapshot s :
  ui_inv s → st_next_request_id s < u64_max → good 1 s (on_connected to_lowercase g snapshot s).
Proof.
  intros Hi Hn. unfold on_connected. destruct (_ <=? _); [|by apply good_silently].
  pose proof (toast_calm (Some (lit "Connected")) _ _ (replace_calm g snapshot s Hi)) as Hc.
  apply (calm_good _ _ _ _ Hc). destruct Hc. apply load_on_page_good; [done|lia].
Qed.
Lemma status_good g status s : ui_inv s → st_next_request_id s < u64_max → good 1 s (on_status_snapshot to_lowercase g status s).
Proof.
  intros Hi Hn. unfold on_status_snapshot. destruct (_ && _ && _); [|by apply good_silently].
  set (runtime_changed := match st_status s with Some _ => negb _ | None => _ end).
  assert (good 0 s (if runtime_changed then invalidate_rule_cache s else silently s)) as Hm.
  { destruct runtime_changed; [by apply invalidate_good|by apply good_silently]. }
  apply (good_then 0 1); [done|done|]. set (s1 := (if runtime_changed then _ else _).1) in *.
  pose proof (gd_inv _ _ _ Hm) as Hi1. pose proof (gd_next _ _ _ Hm) as Hn1. fold s1 in Hi1, Hn1. clearbody s1.
  set (collection_changed := match st_status s with Some _ => _ | None => _ end).
  destruct (set_status_calm status s1 (ui_weaken false _ Hi1)) as (Hi2 & Hd2 & Hn2).
  assert (calm s1 (clamp_selections to_lowercase (set_status_preserving_connection_selection status s1))) as Hc.
  { apply calm_clamp; [done|by rewrite Hd2|done]. }
  apply status_calm in Hc. set (s2 := bump_status_revision _) in *. clearbody s2.
  assert (calm s1 (st_set_render_dirty true (if collection_changed then bump_view_revision s2 else s2))) as Hc'.
  { apply dirty_calm. destruct collection_changed; [by apply view_calm|done]. }
  set (s3 := st_set_render_dirty _ _) in *. clearbody s3. destruct runtime_changed; [|by apply calm_silently].
  apply (calm_good _ _ _ _ Hc'). destruct Hc'. apply load_on_page_good; [done|lia].
Qed.
Lemma disconnected_good g s : ui_inv s → good 0 s (on_disconnected g s).
Proof.
  intros Hi. unfold on_disconnected. destruct (_ =? _); [|by apply good_silently].
  destruct (cancel_pending_good s Hi) as [Hc _]. apply (good_then 0 0); [done|done|].
  assert (ui_inv (cancel_pending s).1) as Hi1 by apply Hc. set (s1 := (cancel_pending s).1) in *. clearbody s1.
  case_match; [apply good_silently; [done|]|apply good_plain; try done]; apply tidy_same; try done; by split.
Qed.

(** ** Input *)

Lemma click_ok map mouse intent : map_ok (Some map) → intent_for map mouse = Some intent → intent_ok intent.
Proof.
  intros [Hm _]. unfold intent_for. destruct (mi_kind mouse).
  - destruct (list_find _ _) as [[k i]|] eqn:Hl; [|done]. intros [= <-]. apply list_find_Some in Hl as (Hl & _).
    apply list_elem_of_lookup_2 in Hl. rewrite elem_of_reverse in Hl. rewrite Forall_forall in Hm. by apply Hm.
  - destruct (existsb _ _); [|done]. by intros [= <-].
  - destruct (existsb _ _); [|done]. by intros [= <-].
Qed.
Lemma selected_intent_ok s intent : selected_intent to_lowercase s = Some intent → intent_ok intent.
Proof.
  unfold selected_intent. intros H. repeat (case_match; simplify_option_eq; try done).
Qed.
Lemma search_key_ok key intent : search_key_intent key = Some intent → intent_ok intent.
Proof. destruct key; cbn; intros; simplify_eq; done. Qed.
Lemma log_key_ok key intent : log_page_key key = Some intent → intent_ok intent.
Proof. unfold log_page_key. intros H. repeat (case_match; simplify_eq; try done). Qed.
Lemma modal_key_ok s modal key intent : modal_key_intent to_lowercase s modal key = Some intent → intent_ok intent.
Proof.
  destruct modal; cbn; intros H.
  all: repeat (case_match; simplify_eq; try done); try (by eapply selected_intent_ok); try by eapply search_key_ok.
Qed.
Lemma page_key_ok s key intent : page_key_intent to_lowercase s key = Some intent → intent_ok intent.
Proof.
  unfold page_key_intent. intros H.
  repeat (case_match; [first [by simplify_eq|by eapply selected_intent_ok|by eapply log_key_ok]|]). done.
Qed.
Lemma input_ok s input intent : ui_inv s → input_to_intent to_lowercase s input = Some intent → intent_ok intent.
Proof.
  intros Hi. destruct input as [key|mouse]; cbn.
  - destruct (st_modal s) as [modal|]; [by apply modal_key_ok|]. case_bool_decide; [by apply search_key_ok|by apply page_key_ok].
  - destruct (st_interaction_map s) as [map|] eqn:Hm; [|done]. apply click_ok. rewrite <-Hm. apply Hi.
Qed.

(** ** The reducer *)

Definition event_ok (e : UiEvent) : Prop := match e with EvIntent intent => intent_ok intent | _ => True end.

Lemma update_good event s : ui_inv s → event_ok event → st_next_request_id s < u64_max → good 1 s (update to_lowercase event s).
Proof.
  intros Hi He Hn. destruct event; cbn [update].
  - destruct (input_to_intent to_lowercase s input) as [intent|] eqn:Hin; [|by apply good_silently].
    apply intent_good; [done|by eapply input_ok|done].
  - by apply intent_good.
  - by apply connected_good.
  - by eapply good_more; [|apply disconnected_good].
  - by apply status_good.
  - by apply refreshed_good.
  - apply calm_silently; [done|]. unfold on_snapshot_refresh_failed. case_match; [|by apply tidy_calm].
    by apply dirty_calm, connection_calm, tidy_calm.
  - by apply calm_silently, group_answer_calm.
  - by apply calm_silently, rules_answer_calm.
  - by apply good_silently, log_batch_tidy.
  - by apply command_result_good.
  - unfold on_reconnect_deadline. case_match; [|by apply good_silently]. apply good_plain; try done. by apply tidy_same.
  - apply good_silently; [done|]. pose proof (normalize_tidy (st_set_terminal_height height (st_set_terminal_width width s))) as Ht.
    set (s1 := normalize_focus _) in *. destruct Ht as [[] Hd Hx]; [by eapply ui_same|]. split; [split; try done|done|done].
  - apply good_silently; [done|]. by apply tidy_same.
Qed.

(** ** Runs *)

(** What the runtime does with the state: it hands over events, and publishes the map of what it has drawn. *)
Inductive ui_step := StepEvent (event : UiEvent) | StepDrawn (map : InteractionMap).
Definition step_ok (st : ui_step) : Prop :=
  match st with StepEvent event => event_ok event | StepDrawn map => map_ok (Some map) end.
Definition ui_do (st : ui_step) (s : AppState) : reduction :=
  match st with
  | StepEvent event => update to_lowercase event s
  | StepDrawn map => silently (publish_interaction_map map s)
  end.
Fixpoint ui_run (steps : list ui_step) (s : AppState) : reduction :=
  match steps with [] => silently s | st :: rest => and_then (ui_do st s) (ui_run rest) end.

Lemma ui_do_good st s : ui_inv s → step_ok st → st_next_request_id s < u64_max → good 1 s (ui_do st s).
Proof.
  intros Hi Hok Hn. destruct st as [event|map]; cbn; [by apply update_good|]. apply good_silently; [done|].
  destruct Hi. by split; [split|..].
Qed.
Lemma ui_run_good steps s :
  ui_inv s → Forall step_ok steps → st_next_request_id s + zlen steps ≤ u64_max → good (zlen steps) s (ui_run steps s).
Proof.
  revert s. induction steps as [|st rest IH]; intros s Hi Hok Hn; [by apply good_silently|].
  inversion Hok; subst. assert (zlen (st :: rest) = 1 + zlen rest) as Hlen by (unfold zlen; cbn; lia). rewrite Hlen in *.
  pose proof (zlen_nonneg rest). pose proof (ui_do_good st s) as Hd. cbn [ui_run].
  apply good_then; [done|apply Hd; [done|done|lia]|]. pose proof (gd_next _ _ _ (Hd Hi ltac:(done) ltac:(lia))).
  apply IH; [by apply Hd; [| |lia]|done|lia].
Qed.
Lemma app_new_ok : ui_inv app_new.
Proof.
  split; cbn; try done; try (split; cbn; try done; try apply ranged_zero; try (by intros [])).
  all: constructor.
Qed.

(** C20: Whatever arrives, and in whatever order, the interface keeps its state in order: selections point at rows
    that are shown, collections and texts keep their limits, the retained log bytes are those
    of the retained records, what is marked as being activated or selected is the pending operation, and the
    requests that wait have distinct numbers; no number is ever used for two requests. *)
Theorem ui_invariant steps :
  Forall step_ok steps → zlen steps < u64_max →
  ui_inv (ui_run steps app_new).1 ∧ NoDup (issued (ui_run steps app_new).2).
Proof.
  intros Hok Hlen. destruct (ui_run_good steps app_new app_new_ok Hok); [cbn; lia|]. done.
Qed.

(** C24: Once a request is cancelled, whatever is answered to it, on whatever connection and however late, changes
    nothing and asks for nothing. *)
Theorem cancelled_results_ignored steps request :
  Forall step_ok steps → zlen steps < u64_max → DoCancel request ∈ (ui_run steps app_new).2 →
  let s := (ui_run steps app_new).1 in
  (∀ g outcome, update to_lowercase (EvCommandResult request g outcome) s = (s, [])) ∧
  (∀ g outcome, update to_lowercase (EvProxyGroupLoaded request g outcome) s = (s, [])) ∧
  (∀ g outcome, update to_lowercase (EvRulesLoaded request g outcome) s = (s, [])).
Proof.
  intros Hok Hlen Hin. pose proof (ui_run_good steps app_new app_new_ok Hok) as Hg.
  assert (request_id_value request ∈ cancelled (ui_run steps app_new).2) as Hc.
  { unfold cancelled. apply list_elem_of_bind. exists (DoCancel request). cbn. set_solver. }
  apply (gd_cancelled _ _ _ (Hg ltac:(cbn; lia))) in Hc as [_ Hnot]. cbn zeta. set (s := (ui_run steps app_new).1) in *.
  clearbody s. unfold ids, request_ids in Hnot. rewrite !elem_of_app in Hnot. split_and!; intros g outcome; cbn.
  - unfold on_command_result. destruct (st_pending s) as [p|]; [|done]. rewrite bool_decide_eq_false_2; [done|].
    intros <-. apply Hnot. left. by left.
  - unfold on_proxy_group_loaded. destruct (px_group_load_pending (st_proxies s)) as [p|]; [|done].
    rewrite bool_decide_eq_false_2; [done|]. intros <-. apply Hnot. right. left. by left.
  - unfold on_rules_loaded. destruct (rs_load_pending (st_rules s)) as [p|]; [|done].
    rewrite bool_decide_eq_false_2; [done|]. intros <-. apply Hnot. right. right. by left.
Qed.

(** ** Confirmation *)

(** What the interface has asked the user before it sends the command. *)
Definition confirmed (s : AppState) (c : Command) : Prop :=
  match c with
  | DoStopSupervisor _ _ => st_modal s = Some (ModalLifecycleConfirmation PaletteStopSupervisor) ∧ modal_action_pending s = false
  | DoAddRule _ _ rule =>
      st_modal s = Some (ModalRuleEditor None rule) ∧ rules_projection_ready s = true ∧ modal_action_pending s = false ∧ rule ≠ []
  | DoReplaceRule _ _ old_rule new_rule =>
      st_modal s = Some (ModalRuleEditor (Some old_rule) new_rule) ∧ rules_projection_ready s = true ∧
      modal_action_pending s = false ∧ new_rule ≠ [] ∧ new_rule ≠ old_rule
  | DoRemoveRule _ _ rule =>
      st_modal s = Some (ModalRuleRemovalConfirmation rule) ∧ rules_projection_ready s = true ∧ modal_action_pending s = false
  | _ => True
  end.
Definition mild (c : Command) : Prop :=
  match c with DoStopSupervisor _ _ | DoAddRule _ _ _ | DoReplaceRule _ _ _ _ | DoRemoveRule _ _ _ => False | _ => True end.

Lemma mild_confirmed s commands : Forall mild commands → Forall (confirmed s) commands.
Proof. intros Hm. eapply Forall_impl; [exact Hm|]. by intros []. Qed.
Lemma mild_then m f : Forall mild m.2 → Forall mild (f m.1).2 → Forall mild (and_then m f).2.
Proof. intros Hm Hf. unfold and_then. destruct (f m.1). cbn in *. by apply Forall_app. Qed.
Lemma mild_cancel_rule s : Forall mild (cancel_rule_load s).2.
Proof. unfold cancel_rule_load. case_match; by repeat constructor. Qed.
Lemma mild_cancel_group s : Forall mild (cancel_group_load s).2.
Proof. unfold cancel_group_load. case_match; by repeat constructor. Qed.
Lemma mild_cancel s : Forall mild (cancel_pending s).2.
Proof.
  apply mild_then; [apply mild_then; [|apply mild_cancel_group]|apply mild_cancel_rule].
  unfold cancel_mutation. case_match; by repeat constructor.
Qed.
Lemma mild_load s : Forall mild (issue_rule_load s).2.
Proof.
  unfold issue_rule_load. case_match; [by constructor|]. cbn [take_request_id]. apply mild_then; [apply mild_cancel_rule|].
  by repeat constructor.
Qed.
Lemma mild_on_page s : Forall mild (load_rules_on_page s).2.
Proof. unfold load_rules_on_page, ensure_rules_loaded. repeat case_match; first [by constructor|apply mild_load]. Qed.
Lemma mild_invalidate s : Forall mild (invalidate_rule_cache s).2.
Proof. apply mild_then; [apply mild_cancel_rule|by constructor]. Qed.

Lemma issue_confirmed s0 kind command mark s :
  (∀ r g, confirmed s0 (command r g)) → Forall (confirmed s0) (issue kind command mark s).2.
Proof.
  intros Hc. unfold issue. cbn [take_request_id]. unfold and_then. cbn [fst snd]. apply Forall_app. split.
  - apply mild_confirmed, mild_cancel.
  - by repeat constructor.
Qed.
Lemma palette_confirmed action s : Forall (confirmed s) (run_palette_action to_lowercase action s).2.
Proof. destruct action; cbn [run_palette_action issue_lifecycle_action]; try by constructor. by apply issue_confirmed. Qed.
Lemma node_confirmed group node s : Forall (confirmed s) (issue_node_selection group node s).2.
Proof. unfold issue_node_selection. repeat case_match; try by constructor. by apply issue_confirmed. Qed.
Lemma editor_confirmed s : Forall (confirmed s) (submit_rule_editor s).2.
Proof.
  unfold submit_rule_editor. destruct (_ || _) eqn:Hg; [by constructor|]. apply orb_false_iff in Hg as [Hr%negb_false_iff Hp].
  destruct (st_modal s) as [[]|] eqn:Hm; try by constructor. repeat case_bool_decide; try by constructor.
  destruct original; apply issue_confirmed; cbn; intros _ _; split_and!; congruence.
Qed.
Lemma removal_confirmed s : Forall (confirmed s) (confirm_rule_removal s).2.
Proof.
  unfold confirm_rule_removal. destruct (_ || _) eqn:Hg; [by constructor|]. apply orb_false_iff in Hg as [Hr%negb_false_iff Hp].
  destruct (st_modal s) as [[]|] eqn:Hm; try by constructor. apply issue_confirmed. by cbn.
Qed.
Lemma lifecycle_confirmed s : Forall (confirmed s) (confirm_lifecycle_action s).2.
Proof.
  unfold confirm_lifecycle_action. destruct (st_modal s) as [[]|] eqn:Hm; try by constructor.
  destruct (modal_action_pending s) eqn:Hp; [by constructor|]. destruct action; [by constructor|by apply issue_confirmed|].
  apply issue_confirmed. by cbn.
Qed.
Lemma mild_pause s : Forall mild (toggle_log_pause s).2.
Proof. unfold toggle_log_pause. case_match; by repeat constructor. Qed.
Lemma activate_confirmed s : Forall (confirmed s) (activate_selected to_lowercase s).2.
Proof.
  pose proof (mild_pause s) as Hp. unfold activate_selected. repeat case_match; simplify_eq; try by repeat constructor.
  - apply palette_confirmed.
  - by apply issue_confirmed.
  - apply node_confirmed.
  - by apply mild_confirmed.
Qed.
Lemma intent_confirmed intent s : Forall (confirmed s) (apply_intent to_lowercase intent s).2.
Proof.
  assert ((apply_intent to_lowercase intent s).2 = (dispatch_intent to_lowercase intent s).2) as ->.
  { unfold apply_intent. by destruct (dispatch_intent to_lowercase intent s). }
  destruct intent; cbn [dispatch_intent]; try by constructor.
  all: try (apply mild_confirmed, mild_on_page).
  - apply palette_confirmed.
  - apply lifecycle_confirmed.
  - apply mild_confirmed, mild_load.
  - apply editor_confirmed.
  - apply removal_confirmed.
  - apply mild_confirmed. unfold issue_proxy_group_load. destruct (find_group _ s) as [[? ?]|]; [|by constructor].
    case_match; [by constructor|]. cbn [take_request_id]. apply mild_then; [apply mild_cancel_group|by repeat constructor].
  - apply activate_confirmed.
  - by apply issue_confirmed.
  - apply node_confirmed.
  - apply mild_confirmed, mild_pause.
Qed.

End invariant.

(** ** Examples *)

(** A list of twenty rows in a window of five, of which the eighth is selected. *)
Lemma window_shows_selection_witness :
  visible_window_start 0 7 5 20 = 3 ∧ 7 < visible_window_start 0 7 5 20 + 5.
Proof. split; [reflexivity|]. apply (window_shows_selection 0 7 5 20); lia. Defined.

(** A profile is chosen, and then another one. *)
Definition two_choices : list ui_step := [StepEvent (EvIntent (IActivateProfile 3)); StepEvent (EvIntent (IActivateProfile 4))].
Example two_choices_commands :
  (ui_run id two_choices app_new).2 =
  [DoActivateProfile (MkRequestId 1) 0 3; DoCancel (MkRequestId 1); DoActivateProfile (MkRequestId 2) 0 4].
Proof. vm_compute. reflexivity. Qed.

Lemma ui_invariant_witness : ui_ok id true (ui_run id two_choices app_new).1 ∧ NoDup (issued (ui_run id two_choices app_new).2).
Proof. apply (ui_invariant id two_choices); [by repeat constructor|reflexivity]. Defined.

Lemma cancelled_results_ignored_witness :
  update id (EvCommandResult (MkRequestId 1) 0 (Ok (lit "late"))) (ui_run id two_choices app_new).1 =
  ((ui_run id two_choices app_new).1, []).
Proof.
  refine (proj1 (cancelled_results_ignored id two_choices (MkRequestId 1) _ _ _) 0 (Ok (lit "late"))).
  - by repeat constructor.
  - reflexivity.
  - rewrite two_choices_commands. right. left.
Defined.

(** The palette asks before it stops the Supervisor. *)
Definition stop_asked : AppState := (update id (EvIntent (IRunPaletteAction PaletteStopSupervisor)) app_new).1.
