(* ===== verification/WireStatus.v ===== *)
(** * WireStatus: status, health and telemetry on the wire (src/ipc_runtime/wire/status.rs)

    Every domain type [T] has a type [WireT] that serde derives the encoding of, with
    conversions to and from [T].  [t_to_json] is the conversion to [WireT] followed by
    its derived [Serialize], [t_of_json] the derived [Deserialize] followed by the
    conversion to [T]; both errors are [WireConversionError], here [None].  A document is
    a [serde_json::Value], whose objects have no key twice and whose order of keys
    nothing reads.  The [uuid] crate is a parameter. *)

From S2P Require Import Prelude Text Constants Json Domain Diagnostics Frame Request Application.
Local Open Scope Z_scope.

(** ** What serde derives *)

(** An enumeration without data: its name, or an object from its name to [null]. *)
Definition json_enum {A} (all : list A) (name : A → str) (j : Json) : option A :=
  tag ← match j with JString s => Some s | JObject [(s, JNull)] => Some s | _ => None end;
  head (filter (λ v, name v = tag) all).

(** A struct whose fields after the first [required] ones have [#[serde(default)]]: an array may stop before them. *)
Definition json_struct_from (required : nat) (names : list str) (j : Json) : option (list (str * Json)) :=
  match j with
  | JObject fields => Some fields
  | JArray values =>
      if bool_decide (required ≤ length values)%nat && bool_decide (length values ≤ length names)%nat
      then Some (zip names values) else None
  | _ => None
  end.

Abbreviation json_u64 := (json_uint u64_max).
Abbreviation json_u32 := (json_uint 4294967295).
Abbreviation json_usize := (json_uint usize_max).
(** [Option<u64>] *)
Abbreviation opt_number := (json_option JNumber).
Abbreviation opt_string := (json_option JString).
(** [T::try_from(wire)], [NodeRecordId::parse(..).map_err(..)]: the error carries nothing. *)
Definition ok_of {A E} (r : result A E) : option A := match r with Ok a => Some a | Err _ => None end.

(** ** Enumerations *)

Definition all_health_reasons : list SupervisorHealthReason :=
  [ReasonRuntimeRecovery; ReasonSelectionCompensation; ReasonConfigurationProjection; ReasonProbeScheduler;
   ReasonSelectionRestoration].
Definition health_reason_name (r : SupervisorHealthReason) : str :=
  match r with
  | ReasonRuntimeRecovery => lit "runtime_recovery"
  | ReasonSelectionCompensation => lit "selection_compensation"
  | ReasonConfigurationProjection => lit "configuration_projection"
  | ReasonProbeScheduler => lit "probe_scheduler"
  | ReasonSelectionRestoration => lit "selection_restoration"
  end.
Definition all_supervisor_lifecycles := [SupStarting; SupReady; SupStopping; SupStopped; SupDegraded].
Definition supervisor_lifecycle_name (l : SupervisorLifecycle) : str :=
  match l with
  | SupStarting => lit "starting" | SupReady => lit "ready" | SupStopping => lit "stopping" | SupStopped => lit "stopped"
  | SupDegraded => lit "degraded"
  end.
Definition all_core_lifecycles :=
  [CoreUnconfigured; CoreStopped; CoreStarting; CoreReady; CoreReloading; CoreStopping; CoreDegraded].
Definition core_lifecycle_name (l : CoreLifecycle) : str :=
  match l with
  | CoreUnconfigured => lit "unconfigured" | CoreStopped => lit "stopped" | CoreStarting => lit "starting"
  | CoreReady => lit "ready" | CoreReloading => lit "reloading" | CoreStopping => lit "stopping"
  | CoreDegraded => lit "degraded"
  end.
Definition all_core_diagnostics := [RestartLimitReached].
Definition core_diagnostic_name (d : CoreDiagnosticCategory) : str := match d with RestartLimitReached => lit "restart_limit_reached" end.
Definition all_tun_reasons := [AppTunNoActiveProfile; AppTunPermissionDenied; AppTunUnsupported; AppTunCoreUnavailable].
Definition tun_reason_name (r : TunReason) : str :=
  match r with
  | AppTunNoActiveProfile => lit "no_active_profile" | AppTunPermissionDenied => lit "permission_denied"
  | AppTunUnsupported => lit "unsupported" | AppTunCoreUnavailable => lit "core_unavailable"
  end.
Definition all_sample_states := [SampleFresh; SampleStale; SampleUnavailable].
Definition sample_state_name (s : SampleState) : str :=
  match s with SampleFresh => lit "fresh" | SampleStale => lit "stale" | SampleUnavailable => lit "unavailable" end.
Definition all_apply_states := [ApplyIdle; ApplyApplying; ApplyRecovering; ApplyFailed].
Definition apply_state_name (s : ApplyState) : str :=
  match s with
  | ApplyIdle => lit "idle" | ApplyApplying => lit "applying" | ApplyRecovering => lit "recovering" | ApplyFailed => lit "failed"
  end.
Definition all_apply_phases := [PhaseIdle; PhaseApplying; PhaseSucceeded; PhaseRecovering; PhaseFailed].
Definition apply_phase_name (p : RuntimeApplyPhase) : str :=
  match p with
  | PhaseIdle => lit "idle" | PhaseApplying => lit "applying" | PhaseSucceeded => lit "succeeded"
  | PhaseRecovering => lit "recovering" | PhaseFailed => lit "failed"
  end.
Definition all_recovery_statuses := [RecoveryNotRequired; RecoverySucceeded; RecoveryPending; RecoveryFailed].
Definition recovery_status_name (s : RuntimeRecoveryStatus) : str :=
  match s with
  | RecoveryNotRequired => lit "not_required" | RecoverySucceeded => lit "succeeded" | RecoveryPending => lit "pending"
  | RecoveryFailed => lit "failed"
  end.
Definition all_stream_states := [StreamDisconnected; StreamConnecting; StreamHealthy; StreamStale; StreamDegraded].
Definition stream_state_name (s : StreamState) : str :=
  match s with
  | StreamDisconnected => lit "disconnected" | StreamConnecting => lit "connecting" | StreamHealthy => lit "healthy"
  | StreamStale => lit "stale" | StreamDegraded => lit "degraded"
  end.

(** ** Log metadata *)

Definition log_gap_fields := [lit "requested_after_sequence"; lit "first_available_sequence"; lit "dropped_count"].
Definition log_gap_to_json (g : LogGap) : Json :=
  JObject [(lit "requested_after_sequence", JNumber (lg_requested_after_sequence g));
           (lit "first_available_sequence", JNumber (lg_first_available_sequence g));
           (lit "dropped_count", JNumber (lg_dropped_count g))].
Definition log_gap_of_json (j : Json) : option LogGap :=
  fields ← json_struct log_gap_fields j;
  requested ← json_required fields (lit "requested_after_sequence") json_u64;
  first ← json_required fields (lit "first_available_sequence") json_u64;
  dropped ← json_required fields (lit "dropped_count") json_u64;
  Some (MkLogGap requested first dropped).

Definition log_metadata_fields :=
  [lit "first_sequence"; lit "last_sequence"; lit "next_sequence"; lit "dropped_total"; lit "gap"].
Definition log_metadata_to_json (m : LogMetadata) : Json :=
  JObject [(lit "first_sequence", opt_number (lm_first_sequence m));
           (lit "last_sequence", opt_number (lm_last_sequence m));
           (lit "next_sequence", opt_number (lm_next_sequence m));
           (lit "dropped_total", JNumber (lm_dropped_total m));
           (lit "gap", json_option log_gap_to_json (lm_gap m))].
Definition log_metadata_of_json (j : Json) : option LogMetadata :=
  fields ← json_struct log_metadata_fields j;
  first ← json_optional fields (lit "first_sequence") json_u64;
  last ← json_optional fields (lit "last_sequence") json_u64;
  next ← json_optional fields (lit "next_sequence") json_u64;
  dropped ← json_required fields (lit "dropped_total") json_u64;
  gap ← json_optional fields (lit "gap") log_gap_of_json;
  Some (MkLogMetadata first last next dropped gap).

(** ** Connections *)

Definition connection_fields :=
  [lit "id"; lit "network"; lit "host"; lit "destination_ip"; lit "destination_port"; lit "chains"; lit "rule";
   lit "rule_payload"; lit "upload_bytes"; lit "download_bytes"].
Definition connection_to_json (c : ConnectionRecord) : Json :=
  JObject [(lit "id", JString (cr_id c));
           (lit "network", JString (cr_network c));
           (lit "host", opt_string (cr_host c));
           (lit "destination_ip", opt_string (cr_destination_ip c));
           (lit "destination_port", opt_string (cr_destination_port c));
           (lit "chains", JArray (JString <$> cr_chains c));
           (lit "rule", JString (cr_rule c));
           (lit "rule_payload", opt_string (cr_rule_payload c));
           (lit "upload_bytes", JNumber (cr_upload_bytes c));
           (lit "download_bytes", JNumber (cr_download_bytes c))].
(** The check of [ConnectionRecord::try_from]. *)
Definition connection_fits (c : ConnectionRecord) : bool :=
  let fields := [cr_id c; cr_network c; default [] (cr_host c); default [] (cr_destination_ip c);
                 default [] (cr_destination_port c); cr_rule c; default [] (cr_rule_payload c)] in
  (zlen (cr_chains c) <=? CONNECTION_CHAIN_CAPACITY)
  && forallb (λ field, str_len field <=? CONNECTION_FIELD_MAX_BYTES) (fields ++ cr_chains c).
Definition connection_of_json (j : Json) : option ConnectionRecord :=
  fields ← json_struct connection_fields j;
  id ← json_required fields (lit "id") json_str;
  network ← json_required fields (lit "network") json_str;
  host ← json_optional fields (lit "host") json_str;
  ip ← json_optional fields (lit "destination_ip") json_str;
  port ← json_optional fields (lit "destination_port") json_str;
  chains ← json_required fields (lit "chains") (json_vec json_str);
  rule ← json_required fields (lit "rule") json_str;
  rule_payload ← json_optional fields (lit "rule_payload") json_str;
  upload ← json_required fields (lit "upload_bytes") json_u64;
  download ← json_required fields (lit "download_bytes") json_u64;
  let c := MkConnectionRecord id network host ip port chains rule rule_payload upload download in
  if connection_fits c then Some c else None.

(** ** The apply in progress *)

Definition recovery_snapshot_fields := [lit "status"; lit "restored_generation"; lit "message"].
Definition recovery_snapshot_to_json (r : RuntimeRecoverySnapshot) : Json :=
  JObject [(lit "status", JString (recovery_status_name (rrs_status r)));
           (lit "restored_generation", opt_number (rrs_restored_generation r));
           (lit "message", opt_string (rrs_message r))].
Definition recovery_snapshot_of_json (j : Json) : option RuntimeRecoverySnapshot :=
  fields ← json_struct recovery_snapshot_fields j;
  status ← json_required fields (lit "status") (json_enum all_recovery_statuses recovery_status_name);
  restored ← json_optional fields (lit "restored_generation") json_u64;
  message ← json_optional fields (lit "message") json_str;
  Some (MkRuntimeRecoverySnapshot status restored message).

Definition apply_snapshot_fields := [lit "candidate_generation"; lit "committed_generation"; lit "phase"; lit "recovery"].
Definition apply_snapshot_to_json (a : RuntimeApplySnapshot) : Json :=
  JObject [(lit "candidate_generation", opt_number (ras_candidate_generation a));
           (lit "committed_generation", opt_number (ras_committed_generation a));
           (lit "phase", JString (apply_phase_name (ras_phase a)));
           (lit "recovery", recovery_snapshot_to_json (ras_recovery a))].
Definition apply_snapshot_of_json (j : Json) : option RuntimeApplySnapshot :=
  fields ← json_struct apply_snapshot_fields j;
  candidate ← json_optional fields (lit "candidate_generation") json_u64;
  committed ← json_optional fields (lit "committed_generation") json_u64;
  phase ← json_required fields (lit "phase") (json_enum all_apply_phases apply_phase_name);
  recovery ← json_required fields (lit "recovery") recovery_snapshot_of_json;
  Some (MkRuntimeApplySnapshot candidate committed phase recovery).

(** ** Probes *)

Definition probe_queue_fields :=
  [lit "active_node_count"; lit "queue_depth"; lit "in_flight_count"; lit "overloaded"; lit "oldest_due_age_ms";
   lit "estimated_full_pass_duration_ms"; lit "stale_node_count"].
Definition probe_queue_to_json (q : ProbeQueueStatus) : Json :=
  JObject [(lit "active_node_count", JNumber (pqs_active_node_count q));
           (lit "queue_depth", JNumber (pqs_queue_depth q));
           (lit "in_flight_count", JNumber (pqs_in_flight_count q));
           (lit "overloaded", JBool (pqs_overloaded q));
           (lit "oldest_due_age_ms", opt_number (pqs_oldest_due_age_ms q));
           (lit "estimated_full_pass_duration_ms", JNumber (pqs_estimated_full_pass_duration_ms q));
           (lit "stale_node_count", JNumber (pqs_stale_node_count q))].
Definition probe_queue_wire_of_json (j : Json) : option ProbeQueueStatus :=
  fields ← json_struct probe_queue_fields j;
  active ← json_required fields (lit "active_node_count") json_u64;
  depth ← json_required fields (lit "queue_depth") json_u64;
  in_flight ← json_required fields (lit "in_flight_count") json_u64;
  overloaded ← json_required fields (lit "overloaded") json_bool;
  oldest ← json_optional fields (lit "oldest_due_age_ms") json_u64;
  estimated ← json_required fields (lit "estimated_full_pass_duration_ms") json_u64;
  stale ← json_required fields (lit "stale_node_count") json_u64;
  Some (MkProbeQueueStatus active depth in_flight overloaded oldest estimated stale).
(** [ProbeQueueStatus::try_from] *)
Definition probe_queue_checked (q : ProbeQueueStatus) : option ProbeQueueStatus :=
  scheduled ← checked_add (pqs_queue_depth q) (pqs_in_flight_count q);
  if (pqs_active_node_count q <? pqs_stale_node_count q) || (pqs_active_node_count q <? scheduled)
     || negb (bool_decide (bool_decide (is_Some (pqs_oldest_due_age_ms q)) = (0 <? pqs_queue_depth q)))
  then None else Some q.

(** ** Supervisor and core *)

Definition health_reason_index (r : SupervisorHealthReason) : Z :=
  match r with
  | ReasonRuntimeRecovery => 0
  | ReasonSelectionCompensation => 1
  | ReasonConfigurationProjection => 2
  | ReasonProbeScheduler => 3
  | ReasonSelectionRestoration => 4
  end.
Definition health_reason_le (a b : SupervisorHealthReason) : Prop := health_reason_index a ≤ health_reason_index b.
#[global] Instance health_reason_le_dec a b : Decision (health_reason_le a b).
Proof. apply Z_le_dec. Defined.
(** [Vec::dedup]: the first of neighbours that are equal stays. *)
Fixpoint dedup {A} `{EqDecision A} (l : list A) : list A :=
  match l with
  | a :: (b :: _) as rest => if bool_decide (a = b) then dedup rest else a :: dedup rest
  | _ => l
  end.
(** [windows(2).all(|w| w[0] < w[1])] *)
Fixpoint ascending (l : list SupervisorHealthReason) : bool :=
  match l with
  | a :: (b :: _) as rest => (health_reason_index a <? health_reason_index b) && ascending rest
  | _ => true
  end.
#[global] Instance health_reason_eq_dec : EqDecision SupervisorHealthReason.
Proof. solve_decision. Defined.
Definition sorted_reasons (reasons : list SupervisorHealthReason) : list SupervisorHealthReason :=
  dedup (merge_sort health_reason_le reasons).

Definition supervisor_status_fields := [lit "lifecycle"; lit "started_at_unix_ms"; lit "uptime_seconds"; lit "health_reasons"].
Definition supervisor_status_to_json (s : SupervisorStatus) : Json :=
  JObject [(lit "lifecycle", JString (supervisor_lifecycle_name (sst_lifecycle s)));
           (lit "started_at_unix_ms", JNumber (sst_started_at_unix_ms s));
           (lit "uptime_seconds", JNumber (sst_uptime_seconds s));
           (lit "health_reasons", JArray ((λ r, JString (health_reason_name r)) <$> sorted_reasons (sst_health_reasons s)))].
Definition supervisor_status_of_json (j : Json) : option SupervisorStatus :=
  fields ← json_struct_from 3 supervisor_status_fields j;
  lifecycle ← json_required fields (lit "lifecycle") (json_enum all_supervisor_lifecycles supervisor_lifecycle_name);
  started ← json_required fields (lit "started_at_unix_ms") json_u64;
  uptime ← json_required fields (lit "uptime_seconds") json_u64;
  reasons ← json_default fields (lit "health_reasons") (json_vec (json_enum all_health_reasons health_reason_name)) [];
  if (5 <? zlen reasons) || negb (ascending reasons) then None
  else Some (MkSupervisorStatus lifecycle started uptime reasons).

Definition restart_status_fields := [lit "pending"; lit "attempts"; lit "backoff_ms"; lit "diagnostic"].
Definition restart_status_to_json (r : CoreRestartStatus) : Json :=
  JObject [(lit "pending", JBool (crs_pending r));
           (lit "attempts", JNumber (crs_attempts r));
           (lit "backoff_ms", opt_number (crs_backoff_ms r));
           (lit "diagnostic", json_option (λ d, JString (core_diagnostic_name d)) (crs_diagnostic r))].
Definition restart_status_of_json (j : Json) : option CoreRestartStatus :=
  fields ← json_struct restart_status_fields j;
  pending ← json_required fields (lit "pending") json_bool;
  attempts ← json_required fields (lit "attempts") json_u64;
  backoff ← json_optional fields (lit "backoff_ms") json_u64;
  diagnostic ← json_optional fields (lit "diagnostic") (json_enum all_core_diagnostics core_diagnostic_name);
  Some (MkCoreRestartStatus pending attempts backoff diagnostic).

Definition core_status_fields := [lit "lifecycle"; lit "pid"; lit "instance_generation"; lit "restart"].
Definition core_status_to_json (c : CoreStatus) : Json :=
  JObject [(lit "lifecycle", JString (core_lifecycle_name (cs_lifecycle c)));
           (lit "pid", opt_number (cs_pid c));
           (lit "instance_generation", opt_number (cs_instance_generation c));
           (lit "restart", restart_status_to_json (cs_restart c))].
Definition core_status_of_json (j : Json) : option CoreStatus :=
  fields ← json_struct_from 3 core_status_fields j;
  lifecycle ← json_required fields (lit "lifecycle") (json_enum all_core_lifecycles core_lifecycle_name);
  pid ← json_optional fields (lit "pid") json_u32;
  generation ← json_optional fields (lit "instance_generation") json_u64;
  restart ← json_default fields (lit "restart") restart_status_of_json default_restart_status;
  Some (MkCoreStatus lifecycle pid generation restart).

Definition tun_status_fields := [lit "requested"; lit "capable"; lit "effective"; lit "reason"].
Definition tun_status_to_json (t : TunStatus) : Json :=
  JObject [(lit "requested", JBool (tns_requested t));
           (lit "capable", JBool (tns_capable t));
           (lit "effective", JBool (tns_effective t));
           (lit "reason", json_option (λ r, JString (tun_reason_name r)) (tns_reason t))].
Definition tun_status_of_json (j : Json) : option TunStatus :=
  fields ← json_struct tun_status_fields j;
  requested ← json_required fields (lit "requested") json_bool;
  capable ← json_required fields (lit "capable") json_bool;
  effective ← json_required fields (lit "effective") json_bool;
  reason ← json_optional fields (lit "reason") (json_enum all_tun_reasons tun_reason_name);
  Some (MkAppTunStatus requested capable effective reason).

(** ** Selections and samples *)

Definition identity_fields := [lit "id"; lit "name"].
Definition selected_node_to_json (n : SelectedNodeSummary) : Json :=
  JObject [(lit "id", JString (sns_id n)); (lit "name", JString (sns_name n))].
Definition selected_node_of_json (j : Json) : option SelectedNodeSummary :=
  fields ← json_struct identity_fields j;
  id ← json_required fields (lit "id") json_str;
  name ← json_required fields (lit "name") json_str;
  id ← ok_of (node_record_id_parse id);
  Some (MkSelectedNodeSummary id name).

Definition latency_sample_fields := [lit "node_id"; lit "delay_ms"; lit "sampled_at_unix_ms"; lit "state"; lit "probe_generation"].
Definition latency_sample_to_json (s : LatencySample) : Json :=
  JObject [(lit "node_id", JString (ls_node_id s));
           (lit "delay_ms", opt_number (ls_delay_ms s));
           (lit "sampled_at_unix_ms", opt_number (ls_sampled_at s));
           (lit "state", JString (sample_state_name (ls_state s)));
           (lit "probe_generation", JNumber (ls_probe_generation s))].
Definition latency_sample_of_json (j : Json) : option LatencySample :=
  fields ← json_struct latency_sample_fields j;
  node_id ← json_required fields (lit "node_id") json_str;
  delay ← json_optional fields (lit "delay_ms") json_u64;
  sampled ← json_optional fields (lit "sampled_at_unix_ms") json_u64;
  state ← json_required fields (lit "state") (json_enum all_sample_states sample_state_name);
  generation ← json_required fields (lit "probe_generation") json_u64;
  node_id ← ok_of (node_record_id_parse node_id);
  Some (MkLatencySample node_id delay sampled state generation).

Definition traffic_sample_fields :=
  [lit "upload_bytes_per_second"; lit "download_bytes_per_second"; lit "sampled_at_unix_ms"; lit "state"].
Definition traffic_sample_to_json (s : TrafficSample) : Json :=
  JObject [(lit "upload_bytes_per_second", JNumber (ts_upload_bytes_per_second s));
           (lit "download_bytes_per_second", JNumber (ts_download_bytes_per_second s));
           (lit "sampled_at_unix_ms", opt_number (ts_sampled_at s));
           (lit "state", JString (sample_state_name (ts_state s)))].
Definition traffic_sample_of_json (j : Json) : option TrafficSample :=
  fields ← json_struct traffic_sample_fields j;
  upload ← json_required fields (lit "upload_bytes_per_second") json_u64;
  download ← json_required fields (lit "download_bytes_per_second") json_u64;
  sampled ← json_optional fields (lit "sampled_at_unix_ms") json_u64;
  state ← json_required fields (lit "state") (json_enum all_sample_states sample_state_name);
  Some (MkTrafficSample upload download sampled state).

Definition stream_health_fields := [lit "traffic"; lit "connections"; lit "logs"].
Definition stream_health_to_json (h : StreamHealthSet) : Json :=
  JObject [(lit "traffic", JString (stream_state_name (shs_traffic h)));
           (lit "connections", JString (stream_state_name (shs_connections h)));
           (lit "logs", JString (stream_state_name (shs_logs h)))].
Definition stream_health_of_json (j : Json) : option StreamHealthSet :=
  fields ← json_struct stream_health_fields j;
  traffic ← json_required fields (lit "traffic") (json_enum all_stream_states stream_state_name);
  connections ← json_required fields (lit "connections") (json_enum all_stream_states stream_state_name);
  logs ← json_required fields (lit "logs") (json_enum all_stream_states stream_state_name);
  Some (MkStreamHealthSet traffic connections logs).

(** ** The snapshot *)

Definition status_fields :=
  [lit "supervisor"; lit "core"; lit "tun"; lit "active_profile"; lit "primary_proxy_group"; lit "selected_node"; lit "latency";
   lit "traffic"; lit "connection_count"; lit "upload_total_bytes"; lit "download_total_bytes"; lit "memory_bytes";
   lit "connections"; lit "runtime_generation"; lit "apply_state"; lit "runtime_apply"; lit "selection_restore_pending";
   lit "probe_queue"; lit "stream_health"].

Section status.
Context (uuid_to_string : Z → str) (uuid_parse : str → option Z).

Definition active_profile_to_json (p : ActiveProfileSummary) : Json :=
  JObject [(lit "id", JString (uuid_to_string (aps_id p))); (lit "name", JString (aps_name p))].
Definition active_profile_of_json (j : Json) : option ActiveProfileSummary :=
  fields ← json_struct identity_fields j;
  id ← json_required fields (lit "id") json_str;
  name ← json_required fields (lit "name") json_str;
  id ← uuid_parse id;
  Some (MkActiveProfileSummary id name).

Definition status_to_json (s : StatusSnapshot) : Json :=
  JObject [(lit "supervisor", supervisor_status_to_json (ss_supervisor s));
           (lit "core", core_status_to_json (ss_core s));
           (lit "tun", tun_status_to_json (ss_tun s));
           (lit "active_profile", json_option active_profile_to_json (ss_active_profile s));
           (lit "primary_proxy_group", opt_string (ss_primary_proxy_group s));
           (lit "selected_node", json_option selected_node_to_json (ss_selected_node s));
           (lit "latency", json_option latency_sample_to_json (ss_latency s));
           (lit "traffic", traffic_sample_to_json (ss_traffic s));
           (lit "connection_count", JNumber (ss_connection_count s));
           (lit "upload_total_bytes", JNumber (ss_upload_total_bytes s));
           (lit "download_total_bytes", JNumber (ss_download_total_bytes s));
           (lit "memory_bytes", opt_number (ss_memory_bytes s));
           (lit "connections", JArray (connection_to_json <$> ss_connections s));
           (lit "runtime_generation", opt_number (ss_runtime_generation s));
           (lit "apply_state", JString (apply_state_name (ss_apply_state s)));
           (lit "runtime_apply", apply_snapshot_to_json (ss_runtime_apply s));
           (lit "selection_restore_pending", JBool (ss_selection_restore_pending s));
           (lit "probe_queue", probe_queue_to_json (ss_probe_queue s));
           (lit "stream_health", stream_health_to_json (ss_stream_health s))].

(** The phase a status without [runtime_apply] stands for. *)
Definition compatible_apply (runtime_generation : option Z) (s : ApplyState) : RuntimeApplySnapshot :=
  MkRuntimeApplySnapshot None runtime_generation
    (match s with
     | ApplyIdle => PhaseIdle | ApplyApplying => PhaseApplying | ApplyRecovering => PhaseRecovering | ApplyFailed => PhaseFailed
     end) default_recovery_snapshot.

Definition status_of_json (j : Json) : option StatusSnapshot :=
  fields ← json_struct status_fields j;
  supervisor ← json_required fields (lit "supervisor") supervisor_status_of_json;
  core ← json_required fields (lit "core") core_status_of_json;
  tun ← json_required fields (lit "tun") tun_status_of_json;
  active_profile ← json_optional fields (lit "active_profile") active_profile_of_json;
  primary_proxy_group ← json_optional fields (lit "primary_proxy_group") json_str;
  selected_node ← json_optional fields (lit "selected_node") selected_node_of_json;
  latency ← json_optional fields (lit "latency") latency_sample_of_json;
  traffic ← json_required fields (lit "traffic") traffic_sample_of_json;
  connection_count ← json_required fields (lit "connection_count") json_u64;
  upload_total ← json_default fields (lit "upload_total_bytes") json_u64 0;
  download_total ← json_default fields (lit "download_total_bytes") json_u64 0;
  memory ← json_optional fields (lit "memory_bytes") json_u64;
  connections ← json_default fields (lit "connections") (json_vec connection_of_json) [];
  runtime_generation ← json_optional fields (lit "runtime_generation") json_u64;
  apply_state ← json_required fields (lit "apply_state") (json_enum all_apply_states apply_state_name);
  runtime_apply ← json_optional fields (lit "runtime_apply") apply_snapshot_of_json;
  restore_pending ← json_default fields (lit "selection_restore_pending") json_bool false;
  probe_queue ← json_default fields (lit "probe_queue") probe_queue_wire_of_json default_probe_queue;
  stream_health ← json_required fields (lit "stream_health") stream_health_of_json;
  if CONNECTION_RECORD_CAPACITY <? zlen connections then None
  else
    probe_queue ← probe_queue_checked probe_queue;
    Some {| ss_supervisor := supervisor; ss_core := core; ss_tun := tun; ss_active_profile := active_profile;
            ss_primary_proxy_group := primary_proxy_group; ss_selected_node := selected_node; ss_latency := latency;
            ss_traffic := traffic; ss_connection_count := connection_count; ss_upload_total_bytes := upload_total;
            ss_download_total_bytes := download_total; ss_memory_bytes := memory; ss_connections := connections;
            ss_runtime_generation := runtime_generation; ss_apply_state := apply_state;
            ss_runtime_apply := default (compatible_apply runtime_generation apply_state) runtime_apply;
            ss_selection_restore_pending := restore_pending; ss_probe_queue := probe_queue;
            ss_stream_health := stream_health |}.
End status.

(** ** Fields of a document *)

#[local] Arguments lit : simpl never.

Lemma bind_ok {A B} (o : option A) (f : A → option B) a r : o = Some a → f a = r → o ≫= f = r.
Proof. by intros -> <-. Qed.
Lemma required_ok {A} fields name (d : Json → option A) j x :
  json_field fields name = Some (Some j) → d j = Some x → json_required fields name d = Some x.
Proof. unfold json_required. by intros ->. Qed.
Lemma default_ok {A} fields name (d : Json → option A) e j x :
  json_field fields name = Some (Some j) → d j = Some x → json_default fields name d e = Some x.
Proof. unfold json_default. by intros ->. Qed.
(** [c] is what becomes of a value on its way. *)
Lemma optional_ok {A} fields name (e : A → Json) (d : Json → option A) (c : A → A) o :
  json_field fields name = Some (Some (json_option e o)) → (∀ x, e x ≠ JNull) → from_option (λ x, d (e x) = Some (c x)) True o →
  json_optional fields name d = Some (c <$> o).
Proof.
  unfold json_optional. intros -> Hn Ho. destruct o as [x|]; cbn in *; [|done]. specialize (Hn x). destruct (e x); try done; by rewrite Ho.
Qed.
Lemma optional_id {A} fields name (e : A → Json) (d : Json → option A) o :
  json_field fields name = Some (Some (json_option e o)) → (∀ x, e x ≠ JNull) → from_option (λ x, d (e x) = Some x) True o →
  json_optional fields name d = Some o.
Proof. intros Hf Hn Ho. rewrite (optional_ok _ _ e d id o) by done. by rewrite option_fmap_id. Qed.
(** A value that is always sent, read as an optional one. *)
Lemma present_ok {A} fields name (d : Json → option A) j x :
  json_field fields name = Some (Some j) → j ≠ JNull → d j = Some x → json_optional fields name d = Some (Some x).
Proof. unfold json_optional. intros -> Hn Hd. cbn. destruct j; try done; by rewrite Hd. Qed.
Lemma vec_ok {A} (e : A → Json) (d : Json → option A) (c : A → A) l :
  Forall (λ x, d (e x) = Some (c x)) l → json_vec d (JArray (e <$> l)) = Some (c <$> l).
Proof. intros Hl. simpl. apply mapM_Some. induction Hl; csimpl; by constructor. Qed.

Lemma json_str_ok s : json_str (JString s) = Some s.
Proof. done. Qed.
Lemma json_bool_ok b : json_bool (JBool b) = Some b.
Proof. done. Qed.
Lemma json_strs_ok l : json_vec json_str (JArray (JString <$> l)) = Some l.
Proof. apply json_vec_ok. by apply Forall_true. Qed.

Create HintDb wire.
Abbreviation given P o := (from_option P True o).
Lemma given_impl {A} (P Q : A → Prop) o : given P o → (∀ x, P x → Q x) → given Q o.
Proof. destruct o; cbn; auto. Qed.
Lemma given_all {A} (P : A → Prop) o : (∀ x, P x) → given P o.
Proof. destruct o; cbn; auto. Qed.

Lemma enum_ok {A} (all : list A) (name : A → str) :
  (∀ v, json_enum all name (JString (name v)) = Some v) → ∀ v, json_enum all name (JString (name v)) = Some v.
Proof. done. Qed.

(** The fields of a struct one after the other, each by what is known of its type. *)
Ltac wire_value :=
  cbn [snd];
  lazymatch goal with
  | |- json_enum ?all ?name (JString (_ ?v)) = Some _ => apply (enum_ok all name); by intros []
  | |- json_uint _ (JNumber _) = Some _ => apply json_uint_ok; assumption
  | |- json_vec json_str _ = _ => apply json_strs_ok
  | |- _ => first [solve [eauto with wire nocore] | reflexivity]
  end.
Ltac wire_field :=
  match goal with
  | |- json_required _ _ _ = _ => eapply required_ok; [reflexivity|wire_value]
  | |- json_default _ _ _ _ = _ => eapply default_ok; [reflexivity|wire_value]
  | |- json_optional _ _ _ = _ =>
      eapply optional_id; [reflexivity|first [done|by intros []]|]; cbn [snd];
      first [apply given_all; intros; wire_value | eapply given_impl; [eassumption|]; intros; wire_value]
  | |- json_optional _ _ _ = _ => eapply present_ok; [reflexivity|done|wire_value]
  end.
Ltac wire := repeat (eapply bind_ok; [first [wire_field|reflexivity]|cbv beta]); try reflexivity.

(** ** What the wire carries faithfully *)

Definition log_gap_ok (g : LogGap) : Prop :=
  in_u64 (lg_requested_after_sequence g) ∧ in_u64 (lg_first_available_sequence g) ∧ in_u64 (lg_dropped_count g).
Definition log_metadata_ok (m : LogMetadata) : Prop :=
  given in_u64 (lm_first_sequence m) ∧ given in_u64 (lm_last_sequence m) ∧ given in_u64 (lm_next_sequence m) ∧
  in_u64 (lm_dropped_total m) ∧ given log_gap_ok (lm_gap m).

Lemma log_gap_wire g : log_gap_ok g → log_gap_of_json (log_gap_to_json g) = Some g.
Proof. destruct g. intros (? & ? & ?). cbn in *. unfold log_gap_of_json, log_gap_to_json. wire. Qed.
#[export] Hint Resolve log_gap_wire : wire.
Lemma log_metadata_wire m : log_metadata_ok m → log_metadata_of_json (log_metadata_to_json m) = Some m.
Proof. destruct m. intros (? & ? & ? & ? & ?). cbn in *. unfold log_metadata_of_json, log_metadata_to_json. wire. Qed.
#[export] Hint Resolve log_metadata_wire : wire.

Definition connection_ok (c : ConnectionRecord) : Prop :=
  connection_fits c = true ∧ in_u64 (cr_upload_bytes c) ∧ in_u64 (cr_download_bytes c).
Lemma connection_wire c : connection_ok c → connection_of_json (connection_to_json c) = Some c.
Proof. destruct c. intros (Hf & ? & ?). unfold connection_of_json, connection_to_json. cbn in *. wire. by rewrite Hf. Qed.

Definition recovery_snapshot_ok (r : RuntimeRecoverySnapshot) : Prop := given in_u64 (rrs_restored_generation r).
Lemma recovery_snapshot_wire r : recovery_snapshot_ok r → recovery_snapshot_of_json (recovery_snapshot_to_json r) = Some r.
Proof. destruct r. intros ?. unfold recovery_snapshot_of_json, recovery_snapshot_to_json. cbn in *. wire. Qed.
#[export] Hint Resolve recovery_snapshot_wire : wire.
Definition apply_snapshot_ok (a : RuntimeApplySnapshot) : Prop :=
  given in_u64 (ras_candidate_generation a) ∧ given in_u64 (ras_committed_generation a) ∧ recovery_snapshot_ok (ras_recovery a).
Lemma apply_snapshot_wire a : apply_snapshot_ok a → apply_snapshot_of_json (apply_snapshot_to_json a) = Some a.
Proof. destruct a. intros (? & ? & ?). unfold apply_snapshot_of_json, apply_snapshot_to_json. cbn in *. wire. Qed.

Record probe_queue_ok (q : ProbeQueueStatus) : Prop := {
  pqo_active : in_u64 (pqs_active_node_count q);
  pqo_depth : in_u64 (pqs_queue_depth q);
  pqo_flight : in_u64 (pqs_in_flight_count q);
  pqo_oldest : given in_u64 (pqs_oldest_due_age_ms q);
  pqo_pass : in_u64 (pqs_estimated_full_pass_duration_ms q);
  pqo_stale : in_u64 (pqs_stale_node_count q);
  pqo_checked : pqs_stale_node_count q ≤ pqs_active_node_count q ∧
                pqs_queue_depth q + pqs_in_flight_count q ≤ pqs_active_node_count q ∧
                (is_Some (pqs_oldest_due_age_ms q) ↔ 0 < pqs_queue_depth q);
}.
Lemma probe_queue_wire q : probe_queue_ok q → probe_queue_wire_of_json (probe_queue_to_json q) = Some q.
Proof. destruct q. intros []. unfold probe_queue_wire_of_json, probe_queue_to_json. cbn in *. wire. Qed.
Lemma probe_queue_check q : probe_queue_checked q = Some q ↔
  pqs_queue_depth q + pqs_in_flight_count q ≤ u64_max ∧
  pqs_stale_node_count q ≤ pqs_active_node_count q ∧ pqs_queue_depth q + pqs_in_flight_count q ≤ pqs_active_node_count q ∧
  (is_Some (pqs_oldest_due_age_ms q) ↔ 0 < pqs_queue_depth q).
Proof.
  unfold probe_queue_checked, checked_add. destruct (Z.leb_spec (pqs_queue_depth q + pqs_in_flight_count q) u64_max); cbn; [|naive_solver lia].
  destruct (Z.ltb_spec (pqs_active_node_count q) (pqs_stale_node_count q)); cbn; [naive_solver lia|].
  destruct (Z.ltb_spec (pqs_active_node_count q) (pqs_queue_depth q + pqs_in_flight_count q)); cbn; [naive_solver lia|].
  destruct (Z.ltb_spec 0 (pqs_queue_depth q)); repeat case_bool_decide; naive_solver lia.
Qed.

Definition restart_status_ok (r : CoreRestartStatus) : Prop := in_u64 (crs_attempts r) ∧ given in_u64 (crs_backoff_ms r).
Lemma restart_status_wire r : restart_status_ok r → restart_status_of_json (restart_status_to_json r) = Some r.
Proof. destruct r. intros (? & ?). unfold restart_status_of_json, restart_status_to_json. cbn in *. wire. Qed.
#[export] Hint Resolve connection_wire apply_snapshot_wire probe_queue_wire restart_status_wire : wire.
Definition core_status_ok (c : CoreStatus) : Prop :=
  given (λ pid, 0 ≤ pid ≤ 4294967295) (cs_pid c) ∧ given in_u64 (cs_instance_generation c) ∧ restart_status_ok (cs_restart c).
Lemma core_status_wire c : core_status_ok c → core_status_of_json (core_status_to_json c) = Some c.
Proof. destruct c. intros (? & ? & ?). unfold core_status_of_json, core_status_to_json. cbn in *. wire. Qed.
Lemma tun_status_wire t : tun_status_of_json (tun_status_to_json t) = Some t.
Proof. destruct t. unfold tun_status_of_json, tun_status_to_json. cbn in *. wire. Qed.

Definition selected_node_ok (n : SelectedNodeSummary) : Prop := node_record_id_parse (sns_id n) = Ok (sns_id n).
Lemma selected_node_wire n : selected_node_ok n → selected_node_of_json (selected_node_to_json n) = Some n.
Proof. destruct n. intros Hi. unfold selected_node_ok in Hi. unfold selected_node_of_json, selected_node_to_json. cbn in *. wire. by rewrite Hi. Qed.
Definition latency_sample_ok (s : LatencySample) : Prop :=
  node_record_id_parse (ls_node_id s) = Ok (ls_node_id s) ∧ given in_u64 (ls_delay_ms s) ∧ given in_u64 (ls_sampled_at s) ∧
  in_u64 (ls_probe_generation s).
Lemma latency_sample_wire s : latency_sample_ok s → latency_sample_of_json (latency_sample_to_json s) = Some s.
Proof. destruct s. intros (Hi & ? & ? & ?). unfold latency_sample_of_json, latency_sample_to_json. cbn in *. wire. by rewrite Hi. Qed.
Definition traffic_sample_ok (s : TrafficSample) : Prop :=
  in_u64 (ts_upload_bytes_per_second s) ∧ in_u64 (ts_download_bytes_per_second s) ∧ given in_u64 (ts_sampled_at s).
Lemma traffic_sample_wire s : traffic_sample_ok s → traffic_sample_of_json (traffic_sample_to_json s) = Some s.
Proof. destruct s. intros (? & ? & ?). unfold traffic_sample_of_json, traffic_sample_to_json. cbn in *. wire. Qed.
Lemma stream_health_wire h : stream_health_of_json (stream_health_to_json h) = Some h.
Proof. destruct h. unfold stream_health_of_json, stream_health_to_json. cbn in *. wire. Qed.
#[export] Hint Resolve core_status_wire tun_status_wire selected_node_wire latency_sample_wire traffic_sample_wire stream_health_wire : wire.

(** ** Health reasons *)

#[global] Instance health_reason_le_total : Total health_reason_le.
Proof. intros a b. unfold health_reason_le. lia. Qed.
#[global] Instance health_reason_le_trans : Transitive health_reason_le.
Proof. intros a b c. unfold health_reason_le. lia. Qed.
#[global] Instance health_reason_le_antisym : AntiSymm (=) health_reason_le.
Proof. intros a b. unfold health_reason_le. destruct a, b; cbn; intros; (done || lia). Qed.

Lemma index_injective a b : health_reason_index a = health_reason_index b → a = b.
Proof. by destruct a, b. Qed.

Lemma dedup_head {A} `{EqDecision A} (a : A) l : ∃ k, dedup (a :: l) = a :: k.
Proof.
  revert a. induction l as [|b l IH]; intros a; [by exists []|]. cbn. case_bool_decide as He; [subst; apply IH|by eexists].
Qed.
Lemma dedup_ascending l : Sorted health_reason_le l → ascending (dedup l) = true.
Proof.
  induction l as [|a l IH]; intros Hs; [done|]. apply Sorted_inv in Hs as [Hs Hh]. destruct l as [|b l]; [done|].
  specialize (IH Hs). cbn [dedup]. case_bool_decide as He; [done|]. destruct (dedup_head b l) as [k Hk].
  cbn [dedup] in IH, Hk. rewrite Hk in *. cbn [ascending]. apply andb_true_iff. split; [|exact IH].
  inversion Hh as [|? ? Hle]; subst. unfold health_reason_le in Hle.
  assert (health_reason_index a ≠ health_reason_index b) by (intros ?%index_injective; done). apply Z.ltb_lt. lia.
Qed.
Lemma ascending_length a l : ascending (a :: l) = true → zlen (a :: l) ≤ 5 - health_reason_index a.
Proof.
  revert a. induction l as [|b l IH]; intros a; [by destruct a|]. cbn [ascending]. intros [Hlt%Z.ltb_lt Ha]%andb_true_iff.
  specialize (IH b Ha). unfold zlen in *. cbn in *. lia.
Qed.
Lemma ascending_bound l : ascending l = true → zlen l ≤ 5.
Proof. destruct l as [|a l]; [done|]. intros Ha%ascending_length. destruct a; cbn in *; lia. Qed.
Lemma sorted_reasons_ascending l : ascending (sorted_reasons l) = true.
Proof. apply dedup_ascending, Sorted_merge_sort, _. Qed.

Lemma ascending_sorted l : ascending l = true → Sorted health_reason_le l ∧ dedup l = l.
Proof.
  induction l as [|a l IH]; [done|]. destruct l as [|b l]; [by repeat constructor|].
  cbn [ascending]. intros [Hlt%Z.ltb_lt Ha]%andb_true_iff. destruct (IH Ha) as [Hs Hd]. split.
  - constructor; [done|]. constructor. unfold health_reason_le. lia.
  - cbn [dedup] in *. rewrite bool_decide_eq_false_2 by (intros ->; lia). by rewrite Hd.
Qed.
(** Reasons that are in order stay as they are. *)
Lemma sorted_reasons_id l : ascending l = true → sorted_reasons l = l.
Proof.
  intros [Hs Hd]%ascending_sorted. unfold sorted_reasons. rewrite <-Hd at 2. f_equal.
  apply (StronglySorted_unique health_reason_le); [apply Sorted_StronglySorted, Sorted_merge_sort; apply _|by apply Sorted_StronglySorted; [apply _|]|].
  apply merge_sort_Permutation.
Qed.

#[global] Arguments sorted_reasons : simpl never.
Definition supervisor_status_shown (s : SupervisorStatus) : SupervisorStatus :=
  MkSupervisorStatus (sst_lifecycle s) (sst_started_at_unix_ms s) (sst_uptime_seconds s) (sorted_reasons (sst_health_reasons s)).
Definition supervisor_status_ok (s : SupervisorStatus) : Prop := in_u64 (sst_started_at_unix_ms s) ∧ in_u64 (sst_uptime_seconds s).
Lemma health_reasons_wire l :
  json_vec (json_enum all_health_reasons health_reason_name) (JArray ((λ r, JString (health_reason_name r)) <$> l)) = Some l.
Proof. apply json_vec_ok. apply Forall_true. by intros []. Qed.
#[export] Hint Resolve health_reasons_wire : wire.
Lemma supervisor_status_wire s :
  supervisor_status_ok s → supervisor_status_of_json (supervisor_status_to_json s) = Some (supervisor_status_shown s).
Proof.
  destruct s as [lifecycle started uptime reasons]. intros (? & ?). unfold supervisor_status_of_json, supervisor_status_to_json. cbn in *.
  wire. pose proof (sorted_reasons_ascending reasons) as Ha. destruct (Z.ltb_spec 5 (zlen (sorted_reasons reasons))) as [Hl|].
  - apply ascending_bound in Ha. lia.
  - by rewrite Ha.
Qed.
#[export] Hint Resolve supervisor_status_wire : wire.

(** ** What is read is in order *)

Lemma required_read {A} (P : A → Prop) fields name d x : json_required fields name d = Some x → (∀ j y, d j = Some y → P y) → P x.
Proof. unfold json_required. intros (v & _ & (j & _ & Hj)%bind_Some)%bind_Some Hd. by eapply Hd. Qed.
Lemma default_read {A} (P : A → Prop) fields name d e x :
  json_default fields name d e = Some x → P e → (∀ j y, d j = Some y → P y) → P x.
Proof. unfold json_default. intros ([j|] & _ & Hj)%bind_Some He Hd; [by eapply Hd|by simplify_eq]. Qed.
Lemma optional_read {A} (P : A → Prop) fields name d o :
  json_optional fields name d = Some o → (∀ j y, d j = Some y → P y) → given P o.
Proof.
  unfold json_optional. intros (v & _ & Hv)%bind_Some Hd. destruct v as [j|]; [|by simplify_eq].
  assert (o = None ∨ ∃ y, o = Some y ∧ d j = Some y) as [->|(y & -> & Hy)]; [|done|by eapply Hd].
  destruct j; first [by (injection Hv as <-; left) | apply fmap_Some in Hv as (y & Hy & ->); right; by eexists].
Qed.
Lemma vec_read {A} (P : A → Prop) d j l : json_vec d j = Some l → (∀ j y, d j = Some y → P y) → Forall P l.
Proof.
  destruct j; try done. cbn. intros Hm%mapM_Some Hd. induction Hm as [|v y vs l Hv _ IH]; constructor; [by eapply Hd|done].
Qed.
Lemma uint_read max j n : json_uint max j = Some n → 0 ≤ n ≤ max.
Proof. destruct j; try done. cbn. destruct (Z.leb_spec 0 value), (Z.leb_spec value max); intros; simplify_eq/=; lia. Qed.
Lemma u64_read j n : json_u64 j = Some n → in_u64 n.
Proof. apply uint_read. Qed.

Lemma zero_u64 : in_u64 0.
Proof. by split. Qed.

Create HintDb unwire.
#[export] Hint Resolve u64_read uint_read zero_u64 : unwire.
Ltac read_bind H := repeat (apply bind_Some in H as (? & ? & H)).
(** One conjunct about one field. *)
Ltac unwire_field :=
  match goal with
  | H : json_required _ _ _ = Some ?x |- _ ?x => solve [apply (required_read _ _ _ _ _ H); eauto with unwire]
  | H : json_optional _ _ _ = Some ?x |- given _ ?x => solve [apply (optional_read _ _ _ _ _ H); eauto with unwire]
  | H : json_default _ _ _ _ = Some ?x |- _ ?x => solve [apply (default_read _ _ _ _ _ _ H); eauto with unwire]
  | |- _ => assumption
  end.
Ltac unwire H := read_bind H; simplify_eq; split_and?; cbn; try unwire_field.

Lemma log_gap_read j g : log_gap_of_json j = Some g → log_gap_ok g.
Proof. unfold log_gap_of_json, log_gap_ok. intros H. unwire H. Qed.
#[export] Hint Resolve log_gap_read : unwire.
Lemma log_metadata_read j m : log_metadata_of_json j = Some m → log_metadata_ok m.
Proof. unfold log_metadata_of_json, log_metadata_ok. intros H. unwire H. Qed.

Lemma connection_read j c : connection_of_json j = Some c → connection_ok c.
Proof.
  unfold connection_of_json, connection_ok. intros H. read_bind H. destruct (connection_fits _) eqn:Hf; simplify_eq. cbn.
  split; [done|]. split; unwire_field.
Qed.
Lemma recovery_snapshot_read j r : recovery_snapshot_of_json j = Some r → recovery_snapshot_ok r.
Proof. unfold recovery_snapshot_of_json, recovery_snapshot_ok. intros H. unwire H. Qed.
#[export] Hint Resolve recovery_snapshot_read : unwire.
Lemma apply_snapshot_read j a : apply_snapshot_of_json j = Some a → apply_snapshot_ok a.
Proof. unfold apply_snapshot_of_json, apply_snapshot_ok. intros H. unwire H. Qed.
Lemma probe_queue_read j q q' : probe_queue_wire_of_json j = Some q → probe_queue_checked q = Some q' → q' = q ∧ probe_queue_ok q.
Proof.
  unfold probe_queue_wire_of_json. intros H Hq.
  assert (q' = q) as -> by (unfold probe_queue_checked in Hq; read_bind Hq; by case_match; simplify_eq).
  split; [done|]. apply probe_queue_check in Hq as (_ & Hq). read_bind H. simplify_eq. cbn in *. split; cbn; try done; unwire_field.
Qed.
Lemma restart_status_read j r : restart_status_of_json j = Some r → restart_status_ok r.
Proof. unfold restart_status_of_json, restart_status_ok. intros H. unwire H. Qed.
Lemma default_restart_ok : restart_status_ok default_restart_status.
Proof. done. Qed.
#[export] Hint Resolve connection_read apply_snapshot_read restart_status_read default_restart_ok : unwire.
Lemma core_status_read j c : core_status_of_json j = Some c → core_status_ok c.
Proof. unfold core_status_of_json, core_status_ok. intros H. unwire H. Qed.
Lemma node_id_read id id' : ok_of (node_record_id_parse id) = Some id' → id' = id ∧ node_record_id_parse id = Ok id.
Proof.
  unfold node_record_id_parse. destruct (ok_or _ _); cbn; [|done]. case_match; cbn; intros; by simplify_eq.
Qed.
Lemma selected_node_read j n : selected_node_of_json j = Some n → selected_node_ok n.
Proof. unfold selected_node_of_json, selected_node_ok. intros H. read_bind H. simplify_eq. cbn. by edestruct node_id_read as [-> ?]. Qed.
Lemma latency_sample_read j s : latency_sample_of_json j = Some s → latency_sample_ok s.
Proof.
  unfold latency_sample_of_json, latency_sample_ok. intros H. unwire H. by edestruct node_id_read as [-> ?].
Qed.
Lemma traffic_sample_read j s : traffic_sample_of_json j = Some s → traffic_sample_ok s.
Proof. unfold traffic_sample_of_json, traffic_sample_ok. intros H. unwire H. Qed.
#[export] Hint Resolve core_status_read selected_node_read latency_sample_read traffic_sample_read : unwire.
Lemma supervisor_status_read j s :
  supervisor_status_of_json j = Some s → supervisor_status_ok s ∧ supervisor_status_shown s = s.
Proof.
  unfold supervisor_status_of_json, supervisor_status_ok. intros H. read_bind H. destruct (_ || _) eqn:Hc; simplify_eq. cbn.
  apply orb_false_iff in Hc as [_ Ha%negb_false_iff]. split; [split; unwire_field|].
  unfold supervisor_status_shown. cbn. by rewrite sorted_reasons_id.
Qed.

Section status_wire.
Context (uuid_to_string : Z → str) (uuid_parse : str → option Z).

Definition active_profile_ok (p : ActiveProfileSummary) : Prop := uuid_parse (uuid_to_string (aps_id p)) = Some (aps_id p).
Record status_ok (s : StatusSnapshot) : Prop := {
  so_supervisor : supervisor_status_ok (ss_supervisor s);
  so_core : core_status_ok (ss_core s);
  so_profile : given active_profile_ok (ss_active_profile s);
  so_node : given selected_node_ok (ss_selected_node s);
  so_latency : given latency_sample_ok (ss_latency s);
  so_traffic : traffic_sample_ok (ss_traffic s);
  so_count : in_u64 (ss_connection_count s);
  so_upload : in_u64 (ss_upload_total_bytes s);
  so_download : in_u64 (ss_download_total_bytes s);
  so_memory : given in_u64 (ss_memory_bytes s);
  so_connections : Forall connection_ok (ss_connections s);
  so_capacity : zlen (ss_connections s) ≤ CONNECTION_RECORD_CAPACITY;
  so_generation : given in_u64 (ss_runtime_generation s);
  so_apply : apply_snapshot_ok (ss_runtime_apply s);
  so_probes : probe_queue_ok (ss_probe_queue s);
}.
(** What a client is shown of a status: the reasons in order, each once. *)
Definition status_shown (s : StatusSnapshot) : StatusSnapshot :=
  {| ss_supervisor := supervisor_status_shown (ss_supervisor s); ss_core := ss_core s; ss_tun := ss_tun s;
     ss_active_profile := ss_active_profile s; ss_primary_proxy_group := ss_primary_proxy_group s;
     ss_selected_node := ss_selected_node s; ss_latency := ss_latency s; ss_traffic := ss_traffic s;
     ss_connection_count := ss_connection_count s; ss_upload_total_bytes := ss_upload_total_bytes s;
     ss_download_total_bytes := ss_download_total_bytes s; ss_memory_bytes := ss_memory_bytes s;
     ss_connections := ss_connections s; ss_runtime_generation := ss_runtime_generation s; ss_apply_state := ss_apply_state s;
     ss_runtime_apply := ss_runtime_apply s; ss_selection_restore_pending := ss_selection_restore_pending s;
     ss_probe_queue := ss_probe_queue s; ss_stream_health := ss_stream_health s |}.

Lemma active_profile_wire p :
  active_profile_ok p → active_profile_of_json uuid_parse (active_profile_to_json uuid_to_string p) = Some p.
Proof.
  destruct p. intros Hi. unfold active_profile_ok in Hi. unfold active_profile_of_json, active_profile_to_json. cbn in *.
  wire. by rewrite Hi.
Qed.
#[local] Hint Resolve active_profile_wire : wire.
Lemma connections_wire l : Forall connection_ok l → json_vec connection_of_json (JArray (connection_to_json <$> l)) = Some l.
Proof. intros Hl. apply json_vec_ok. eapply Forall_impl; [exact Hl|]. exact connection_wire. Qed.
#[local] Hint Resolve connections_wire : wire.

Lemma status_wire s :
  status_ok s → status_of_json uuid_parse (status_to_json uuid_to_string s) = Some (status_shown s).
Proof.
  intros []. unfold status_of_json, status_to_json.
  wire. rewrite (proj2 (Z.ltb_ge _ _)) by done. rewrite (proj2 (probe_queue_check _)); [done|].
  destruct so_probes0 as [[? ?] ? ? ? ? ? (? & ? & ?)]. split; [lia|done].
Qed.

Lemma active_profile_read j p :
  (∀ id z, uuid_parse id = Some z → uuid_parse (uuid_to_string z) = Some z) →
  active_profile_of_json uuid_parse j = Some p → active_profile_ok p.
Proof. unfold active_profile_of_json, active_profile_ok. intros Hu H. read_bind H. simplify_eq. cbn. by eapply Hu. Qed.

(** A status that is read is in order, and nothing of it would be lost or changed on the way to the next reader. *)
Lemma status_read j s :
  (∀ id z, uuid_parse id = Some z → uuid_parse (uuid_to_string z) = Some z) →
  status_of_json uuid_parse j = Some s → status_ok s ∧ status_shown s = s.
Proof.
  unfold status_of_json. intros Hu H. pose proof (λ j p, active_profile_read j p Hu) as Hact. read_bind H.
  lazymatch type of H with (if _ <? zlen ?l then _ else _) = _ => destruct (Z.ltb_spec CONNECTION_RECORD_CAPACITY (zlen l)) as [|Hcap] end; [done|].
  read_bind H. simplify_eq.
  lazymatch goal with Hs : json_required _ _ supervisor_status_of_json = Some ?sup |- _ =>
    assert (supervisor_status_ok sup ∧ supervisor_status_shown sup = sup) as [Hsup Hshown]
      by (apply (required_read (λ s, supervisor_status_ok s ∧ supervisor_status_shown s = s) _ _ _ _ Hs); exact supervisor_status_read) end.
  lazymatch goal with Hq : probe_queue_checked ?q = Some ?q' |- _ =>
    assert (q' = q ∧ probe_queue_ok q) as [-> Hprobes] end.
  { lazymatch goal with Hd : json_default _ _ probe_queue_wire_of_json _ = Some ?q, Hq : probe_queue_checked ?q = Some ?q' |- _ =>
      revert q' Hq; apply (default_read (λ q, ∀ q', probe_queue_checked q = Some q' → q' = q ∧ probe_queue_ok q) _ _ _ _ _ Hd);
      [intros q' [= <-]|intros; by eapply probe_queue_read] end.
    split; [done|]. split; cbn; try done. }
  split; [|unfold status_shown; cbn; by rewrite Hshown].
  split; cbn; try done; try unwire_field.
  - lazymatch goal with Hd : json_default _ _ (json_vec connection_of_json) _ = Some ?l |- _ =>
      apply (default_read (Forall connection_ok) _ _ _ _ _ Hd); [constructor|] end.
    intros. eapply vec_read; [done|]. exact connection_read.
  - lazymatch goal with Ho : json_optional _ _ apply_snapshot_of_json = Some ?o |- _ =>
      assert (given apply_snapshot_ok o) as Hgiven by unwire_field; destruct o; [exact Hgiven|] end.
    split; cbn; [done|]. split; [unwire_field|done].
Qed.
End status_wire.
