(* ===== verification/WireOutput.v ===== *)
(** * WireOutput: what the Supervisor answers, on the wire (src/ipc_runtime/wire.rs)

    As in [WireStatus], [t_to_json] is the conversion of a domain value to its wire type followed by the
    derived [Serialize], [t_of_json] the derived [Deserialize] followed by the conversion back.  A
    subscription URL travels in its redacted form.  The [uuid], [url] and [percent_encoding] crates are
    parameters.

    What one side sends the other reads as the same output, with the URLs redacted and the reasons in order
    ([output_delivered]); and whatever a client is sent, what it accepts is in order ([accepted_output]). *)

From S2P Require Import Prelude Text Constants Json Domain Diagnostics Frame Request Application WireStatus.
Local Open Scope Z_scope.

(** ** The kind of output that answers an operation *)

Inductive ExpectedOutput :=
| ExpStatus | ExpLifecycle | ExpProfiles | ExpProfilePage | ExpProfileMutation | ExpProxies | ExpProxyPage
| ExpProxySelection | ExpLatencies | ExpLatency | ExpRules | ExpRulePage | ExpRuleMutation.

Definition for_operation (operation : ApplicationOperation) : ExpectedOutput :=
  match operation with
  | AppStart | AppStop | AppRestart => ExpLifecycle
  | AppGetStatus => ExpStatus
  | AppProfileAdd _ | AppProfileUse _ | AppProfileRemove _ => ExpProfileMutation
  | AppProfileList => ExpProfiles
  | AppProfileListPage _ => ExpProfilePage
  | AppProxyList _ => ExpProxies
  | AppProxyListPage _ _ _ => ExpProxyPage
  | AppProxySelect _ _ => ExpProxySelection
  | AppLatencyList => ExpLatencies
  | AppLatencyShow _ => ExpLatency
  | AppRuleList => ExpRules
  | AppRuleListPage _ => ExpRulePage
  | AppRuleAdd _ _ | AppRuleReplace _ _ | AppRuleRemove _ => ExpRuleMutation
  end.

Definition output_matches (expected : ExpectedOutput) (output : ApplicationOutput) : bool :=
  match expected, output with
  | ExpStatus, OutStatus _
  | ExpLifecycle, OutLifecycle _
  | ExpProfiles, OutProfiles _
  | ExpProfilePage, OutProfilePage _
  | ExpProfilePage, OutProfiles _
  | ExpProfileMutation, OutProfileMutation _
  | ExpProxies, OutProxies _
  | ExpProxyPage, OutProxyPage _
  | ExpProxyPage, OutProxies _
  | ExpProxySelection, OutProxySelection _
  | ExpLatencies, OutLatencies _
  | ExpLatency, OutLatency _
  | ExpRules, OutRules _
  | ExpRulePage, OutRulePage _
  | ExpRulePage, OutRules _
  | ExpRuleMutation, OutRuleMutation _ => true
  | _, _ => false
  end.

(** ** Enumerations *)

Definition all_lifecycle_actions := [LifecycleStart; LifecycleStop; LifecycleRestart].
Definition lifecycle_action_name (a : LifecycleAction) : str :=
  match a with LifecycleStart => lit "start" | LifecycleStop => lit "stop" | LifecycleRestart => lit "restart" end.
Definition all_refresh_states := [RefreshFresh; RefreshError].
Definition refresh_state_name (s : ProfileRefreshState) : str := match s with RefreshFresh => lit "fresh" | RefreshError => lit "error" end.
Definition all_refresh_stages := [StageDownload; StageParse; StageValidate; StageApply].
Definition wire_refresh_stage_name (s : ProfileRefreshStage) : str :=
  match s with
  | StageDownload => lit "download" | StageParse => lit "parse" | StageValidate => lit "validate" | StageApply => lit "apply"
  end.
Definition all_profile_actions := [ProfileAdded; ProfileActivated; ProfileRemovedAction].
Definition profile_action_name (a : ProfileMutationAction) : str :=
  match a with ProfileAdded => lit "added" | ProfileActivated => lit "activated" | ProfileRemovedAction => lit "removed" end.
Definition all_availabilities := [RowAvailable; RowUnavailable].
Definition availability_name (a : ProxyAvailability) : str :=
  match a with RowAvailable => lit "available" | RowUnavailable => lit "unavailable" end.
Definition all_member_kinds := [KindNode; KindGroup; KindMissing; KindAmbiguous; KindProviderUnavailable].
Definition member_kind_name (k : ProxyMemberKind) : str :=
  match k with
  | KindNode => lit "node" | KindGroup => lit "group" | KindMissing => lit "missing" | KindAmbiguous => lit "ambiguous"
  | KindProviderUnavailable => lit "provider_unavailable"
  end.
Definition all_freshnesses := [AppNotSampled; AppFresh; AppStale; AppUnavailable].
Definition freshness_name (f : AppLatencyFreshness) : str :=
  match f with
  | AppNotSampled => lit "not_sampled" | AppFresh => lit "fresh" | AppStale => lit "stale" | AppUnavailable => lit "unavailable"
  end.
Definition all_probe_statuses := [AppProbeNotSampled; AppProbeQueued; AppProbeInFlight; AppProbeSucceeded; AppProbeFailed].
Definition probe_status_name (s : LatencyProbeStatus) : str :=
  match s with
  | AppProbeNotSampled => lit "not_sampled" | AppProbeQueued => lit "queued" | AppProbeInFlight => lit "in_flight"
  | AppProbeSucceeded => lit "succeeded" | AppProbeFailed => lit "failed"
  end.
Definition all_target_validations := [TargetValid; TargetMissing; TargetUnavailable].
Definition target_validation_name (v : PolicyTargetValidation) : str :=
  match v with TargetValid => lit "valid" | TargetMissing => lit "missing" | TargetUnavailable => lit "unavailable" end.
Definition all_rule_actions := [RuleAdded; RuleReplaced; RuleRemoved].
Definition rule_action_name (a : RuleMutationAction) : str :=
  match a with RuleAdded => lit "added" | RuleReplaced => lit "replaced" | RuleRemoved => lit "removed" end.
Definition all_apply_statuses := [ApplyNotRequired; ApplyApplied; ApplyRecovered; ApplyStatusFailed].
Definition apply_status_name (s : RuntimeApplyStatus) : str :=
  match s with
  | ApplyNotRequired => lit "not_required" | ApplyApplied => lit "applied" | ApplyRecovered => lit "recovered"
  | ApplyStatusFailed => lit "failed"
  end.
Definition all_outcome_recoveries :=
  [RecoveryStatusNotRequired; RecoveryStatusSucceeded; RecoveryStatusPending; RecoveryStatusFailed].
Definition outcome_recovery_name (s : RecoveryStatus) : str :=
  match s with
  | RecoveryStatusNotRequired => lit "not_required" | RecoveryStatusSucceeded => lit "succeeded"
  | RecoveryStatusPending => lit "pending" | RecoveryStatusFailed => lit "failed"
  end.

(** ** Recovery and apply *)

Definition recovery_fields := [lit "status"; lit "restored_generation"; lit "message"].
Definition recovery_to_json (r : AppRecoveryOutcome) : Json :=
  JObject [(lit "status", JString (outcome_recovery_name (aro_status r)));
           (lit "restored_generation", opt_number (aro_restored_generation r));
           (lit "message", opt_string (aro_message r))].
Definition recovery_of_json (j : Json) : option AppRecoveryOutcome :=
  fields ← json_struct recovery_fields j;
  status ← json_required fields (lit "status") (json_enum all_outcome_recoveries outcome_recovery_name);
  restored ← json_optional fields (lit "restored_generation") json_u64;
  message ← json_optional fields (lit "message") json_str;
  Some (MkAppRecoveryOutcome status restored message).

Definition apply_outcome_fields := [lit "status"; lit "candidate_generation"; lit "committed_generation"; lit "recovery"].
Definition apply_outcome_to_json (a : RuntimeApplyOutcome) : Json :=
  JObject [(lit "status", JString (apply_status_name (rao_status a)));
           (lit "candidate_generation", opt_number (rao_candidate_generation a));
           (lit "committed_generation", opt_number (rao_committed_generation a));
           (lit "recovery", recovery_to_json (rao_recovery a))].
Definition apply_outcome_of_json (j : Json) : option RuntimeApplyOutcome :=
  fields ← json_struct apply_outcome_fields j;
  status ← json_required fields (lit "status") (json_enum all_apply_statuses apply_status_name);
  candidate ← json_optional fields (lit "candidate_generation") json_u64;
  committed ← json_optional fields (lit "committed_generation") json_u64;
  recovery ← json_required fields (lit "recovery") recovery_of_json;
  Some (MkRuntimeApplyOutcome status candidate committed recovery).

(** ** Proxies *)

Definition node_source_to_json (s : ProxyNodeSource) : Json :=
  match s with
  | SourceCore => JObject [(lit "kind", JString (lit "core"))]
  | SourceProvider name => JObject [(lit "kind", JString (lit "provider")); (lit "provider_name", JString name)]
  end.
(** Internally tagged: the tag is a field, or the first element of an array. *)
Definition node_source_of_json (j : Json) : option ProxyNodeSource :=
  match j with
  | JObject fields =>
      kind ← json_required fields (lit "kind") json_str;
      if bool_decide (kind = lit "core") then Some SourceCore
      else if bool_decide (kind = lit "provider") then SourceProvider <$> json_required fields (lit "provider_name") json_str
      else None
  | JArray [JString kind] => if bool_decide (kind = lit "core") then Some SourceCore else None
  | JArray [JString kind; JString name] => if bool_decide (kind = lit "provider") then Some (SourceProvider name) else None
  | _ => None
  end.

Definition selector_identity_to_json (i : SelectorIdentity) : Json :=
  JObject [(lit "id", JString (si_id i)); (lit "name", JString (si_name i))].
Definition selector_identity_of_json (j : Json) : option SelectorIdentity :=
  fields ← json_struct identity_fields j;
  id ← json_required fields (lit "id") json_str;
  name ← json_required fields (lit "name") json_str;
  Some (MkSelectorIdentity id name).

Definition node_row_fields :=
  [lit "id"; lit "name"; lit "member_kind"; lit "source"; lit "candidate_ids"; lit "proxy_type"; lit "availability";
   lit "selected"; lit "delay_ms"; lit "sampled_at_unix_ms"; lit "freshness"; lit "probe_status"].
Definition node_row_to_json (r : ProxyNodeRow) : Json :=
  JObject [(lit "id", opt_string (pnr_id r));
           (lit "name", JString (pnr_name r));
           (lit "member_kind", JString (member_kind_name (pnr_member_kind r)));
           (lit "source", json_option node_source_to_json (pnr_source r));
           (lit "candidate_ids", JArray (JString <$> pnr_candidate_ids r));
           (lit "proxy_type", opt_string (pnr_proxy_type r));
           (lit "availability", JString (availability_name (pnr_availability r)));
           (lit "selected", JBool (pnr_selected r));
           (lit "delay_ms", opt_number (pnr_delay_ms r));
           (lit "sampled_at_unix_ms", opt_number (pnr_sampled_at r));
           (lit "freshness", JString (freshness_name (pnr_freshness r)));
           (lit "probe_status", JString (probe_status_name (pnr_probe_status r)))].
(** [NodeRecordId::parse] of a string of the document. *)
Definition json_node_id (j : Json) : option str := s ← json_str j; ok_of (node_record_id_parse s).
Definition json_group_id (j : Json) : option str := s ← json_str j; ok_of (proxy_group_id_parse s).
Definition node_row_of_json (j : Json) : option ProxyNodeRow :=
  fields ← json_struct node_row_fields j;
  id ← json_optional fields (lit "id") json_node_id;
  name ← json_required fields (lit "name") json_str;
  member_kind ← json_required fields (lit "member_kind") (json_enum all_member_kinds member_kind_name);
  source ← json_optional fields (lit "source") node_source_of_json;
  candidate_ids ← json_required fields (lit "candidate_ids") (json_vec json_node_id);
  proxy_type ← json_optional fields (lit "proxy_type") json_str;
  availability ← json_required fields (lit "availability") (json_enum all_availabilities availability_name);
  selected ← json_required fields (lit "selected") json_bool;
  delay ← json_optional fields (lit "delay_ms") json_u64;
  sampled ← json_optional fields (lit "sampled_at_unix_ms") json_u64;
  freshness ← json_required fields (lit "freshness") (json_enum all_freshnesses freshness_name);
  probe_status ← json_required fields (lit "probe_status") (json_enum all_probe_statuses probe_status_name);
  Some (MkProxyNodeRow id name member_kind source candidate_ids proxy_type availability selected delay sampled freshness probe_status).

Definition group_summary_fields := [lit "id"; lit "name"; lit "proxy_type"; lit "selectable"; lit "selected_node"].
Definition group_summary_to_json (g : ProxyGroupSummary) : Json :=
  JObject [(lit "id", JString (pgs_id g));
           (lit "name", JString (pgs_name g));
           (lit "proxy_type", JString (pgs_proxy_type g));
           (lit "selectable", JBool (pgs_selectable g));
           (lit "selected_node", json_option selector_identity_to_json (pgs_selected_node g))].
Definition group_summary_of_json (j : Json) : option ProxyGroupSummary :=
  fields ← json_struct group_summary_fields j;
  id ← json_required fields (lit "id") json_group_id;
  name ← json_required fields (lit "name") json_str;
  proxy_type ← json_required fields (lit "proxy_type") json_str;
  selectable ← json_required fields (lit "selectable") json_bool;
  selected_node ← json_optional fields (lit "selected_node") selector_identity_of_json;
  Some (MkProxyGroupSummary id name proxy_type selectable selected_node).

Definition proxy_list_fields := [lit "group"; lit "groups"; lit "nodes"].
Definition proxy_list_to_json (o : ProxyListOutcome) : Json :=
  JObject [(lit "group", group_summary_to_json (plo_group o));
           (lit "groups", JArray (group_summary_to_json <$> plo_groups o));
           (lit "nodes", JArray (node_row_to_json <$> plo_nodes o))].
Definition proxy_list_of_json (j : Json) : option ProxyListOutcome :=
  fields ← json_struct proxy_list_fields j;
  group ← json_required fields (lit "group") group_summary_of_json;
  groups ← json_default fields (lit "groups") (json_vec group_summary_of_json) [];
  nodes ← json_required fields (lit "nodes") (json_vec node_row_of_json);
  Some (MkProxyListOutcome group groups nodes).

Definition proxy_page_fields :=
  [lit "snapshot_id"; lit "group"; lit "groups_total"; lit "groups_offset"; lit "groups"; lit "nodes_total"; lit "nodes_offset";
   lit "nodes"].
Definition proxy_page_to_json (p : ProxyListPageOutcome) : Json :=
  JObject [(lit "snapshot_id", JNumber (pxp_snapshot_id p));
           (lit "group", group_summary_to_json (pxp_group p));
           (lit "groups_total", JNumber (pxp_groups_total p));
           (lit "groups_offset", JNumber (pxp_groups_offset p));
           (lit "groups", JArray (group_summary_to_json <$> pxp_groups p));
           (lit "nodes_total", JNumber (pxp_nodes_total p));
           (lit "nodes_offset", JNumber (pxp_nodes_offset p));
           (lit "nodes", JArray (node_row_to_json <$> pxp_nodes p))].
Definition proxy_page_of_json (j : Json) : option ProxyListPageOutcome :=
  fields ← json_struct proxy_page_fields j;
  snapshot_id ← json_required fields (lit "snapshot_id") json_u64;
  group ← json_required fields (lit "group") group_summary_of_json;
  groups_total ← json_required fields (lit "groups_total") json_usize;
  groups_offset ← json_required fields (lit "groups_offset") json_usize;
  groups ← json_required fields (lit "groups") (json_vec group_summary_of_json);
  nodes_total ← json_required fields (lit "nodes_total") json_usize;
  nodes_offset ← json_required fields (lit "nodes_offset") json_usize;
  nodes ← json_required fields (lit "nodes") (json_vec node_row_of_json);
  Some (MkProxyListPageOutcome snapshot_id group groups_total groups_offset groups nodes_total nodes_offset nodes).

Definition proxy_selection_fields :=
  [lit "group_id"; lit "group"; lit "previous_node"; lit "selected_node"; lit "persisted"; lit "recovery"].
Definition proxy_selection_to_json (o : ProxySelectionOutcome) : Json :=
  JObject [(lit "group_id", JString (pso_group_id o));
           (lit "group", JString (pso_group o));
           (lit "previous_node", json_option selector_identity_to_json (pso_previous_node o));
           (lit "selected_node", selector_identity_to_json (pso_selected_node o));
           (lit "persisted", JBool (pso_persisted o));
           (lit "recovery", recovery_to_json (pso_recovery o))].
Definition proxy_selection_of_json (j : Json) : option ProxySelectionOutcome :=
  fields ← json_struct proxy_selection_fields j;
  group_id ← json_required fields (lit "group_id") json_group_id;
  group ← json_required fields (lit "group") json_str;
  previous ← json_optional fields (lit "previous_node") selector_identity_of_json;
  selected ← json_required fields (lit "selected_node") selector_identity_of_json;
  persisted ← json_required fields (lit "persisted") json_bool;
  recovery ← json_required fields (lit "recovery") recovery_of_json;
  Some (MkProxySelectionOutcome group_id group previous selected persisted recovery).

(** ** Latencies *)

Definition latency_summary_fields :=
  [lit "node_id"; lit "node_name"; lit "delay_ms"; lit "sampled_at_unix_ms"; lit "freshness"; lit "probe_status";
   lit "probe_generation"].
Definition latency_summary_to_json (s : LatencySummary) : Json :=
  JObject [(lit "node_id", JString (lsum_node_id s));
           (lit "node_name", JString (lsum_node_name s));
           (lit "delay_ms", opt_number (lsum_delay_ms s));
           (lit "sampled_at_unix_ms", opt_number (lsum_sampled_at s));
           (lit "freshness", JString (freshness_name (lsum_freshness s)));
           (lit "probe_status", JString (probe_status_name (lsum_probe_status s)));
           (lit "probe_generation", JNumber (lsum_probe_generation s))].
Definition latency_summary_of_json (j : Json) : option LatencySummary :=
  fields ← json_struct latency_summary_fields j;
  node_id ← json_required fields (lit "node_id") json_node_id;
  node_name ← json_required fields (lit "node_name") json_str;
  delay ← json_optional fields (lit "delay_ms") json_u64;
  sampled ← json_optional fields (lit "sampled_at_unix_ms") json_u64;
  freshness ← json_required fields (lit "freshness") (json_enum all_freshnesses freshness_name);
  probe_status ← json_required fields (lit "probe_status") (json_enum all_probe_statuses probe_status_name);
  generation ← json_required fields (lit "probe_generation") json_u64;
  Some (MkLatencySummary node_id node_name delay sampled freshness probe_status generation).

Definition latency_list_to_json (samples : list LatencySummary) : Json :=
  JObject [(lit "samples", JArray (latency_summary_to_json <$> samples))].
Definition latency_list_of_json (j : Json) : option (list LatencySummary) :=
  fields ← json_struct [lit "samples"] j; json_required fields (lit "samples") (json_vec latency_summary_of_json).
Definition latency_show_to_json (sample : LatencySummary) : Json := JObject [(lit "sample", latency_summary_to_json sample)].
Definition latency_show_of_json (j : Json) : option LatencySummary :=
  fields ← json_struct [lit "sample"] j; json_required fields (lit "sample") latency_summary_of_json.

(** ** Rules *)

Definition rule_summary_fields :=
  [lit "index"; lit "rule_string"; lit "rule_type"; lit "payload"; lit "policy_target"; lit "params"; lit "policy_target_validation"].
Definition rule_summary_to_json (r : RuleSummary) : Json :=
  JObject [(lit "index", JNumber (rsum_index r));
           (lit "rule_string", JString (rsum_rule_string r));
           (lit "rule_type", JString (rsum_rule_type r));
           (lit "payload", opt_string (rsum_payload r));
           (lit "policy_target", JString (rsum_policy_target r));
           (lit "params", JArray (JString <$> rsum_params r));
           (lit "policy_target_validation", JString (target_validation_name (rsum_policy_target_validation r)))].
Definition rule_summary_of_json (j : Json) : option RuleSummary :=
  fields ← json_struct rule_summary_fields j;
  index ← json_required fields (lit "index") json_usize;
  rule_string ← json_required fields (lit "rule_string") json_str;
  rule_type ← json_required fields (lit "rule_type") json_str;
  payload ← json_optional fields (lit "payload") json_str;
  policy_target ← json_required fields (lit "policy_target") json_str;
  params ← json_required fields (lit "params") (json_vec json_str);
  validation ← json_required fields (lit "policy_target_validation") (json_enum all_target_validations target_validation_name);
  Some (MkRuleSummary index rule_string rule_type payload policy_target params validation).

Definition rule_list_fields := [lit "initialized"; lit "revision"; lit "rules"].
Definition rule_list_to_json (o : RuleListOutcome) : Json :=
  JObject [(lit "initialized", JBool (rlo_initialized o));
           (lit "revision", opt_number (rlo_revision o));
           (lit "rules", JArray (rule_summary_to_json <$> rlo_rules o))].
Definition rule_list_of_json (j : Json) : option RuleListOutcome :=
  fields ← json_struct rule_list_fields j;
  initialized ← json_required fields (lit "initialized") json_bool;
  revision ← json_optional fields (lit "revision") json_u64;
  rules ← json_required fields (lit "rules") (json_vec rule_summary_of_json);
  Some (MkRuleListOutcome initialized revision rules).

Definition rule_page_fields := [lit "initialized"; lit "revision"; lit "total"; lit "offset"; lit "rules"].
Definition rule_page_to_json (p : RuleListPageOutcome) : Json :=
  JObject [(lit "initialized", JBool (rlp_initialized p));
           (lit "revision", opt_number (rlp_revision p));
           (lit "total", JNumber (rlp_total p));
           (lit "offset", JNumber (rlp_offset p));
           (lit "rules", JArray (rule_summary_to_json <$> rlp_rules p))].
Definition rule_page_of_json (j : Json) : option RuleListPageOutcome :=
  fields ← json_struct rule_page_fields j;
  initialized ← json_required fields (lit "initialized") json_bool;
  revision ← json_optional fields (lit "revision") json_u64;
  total ← json_required fields (lit "total") json_usize;
  offset ← json_required fields (lit "offset") json_usize;
  rules ← json_required fields (lit "rules") (json_vec rule_summary_of_json);
  Some (MkRuleListPageOutcome initialized revision total offset rules).

Definition rule_mutation_fields :=
  [lit "action"; lit "changed_rule"; lit "previous_rule"; lit "resulting_position"; lit "runtime_apply"].
Definition rule_mutation_to_json (o : RuleMutationOutcome) : Json :=
  JObject [(lit "action", JString (rule_action_name (rmo_action o)));
           (lit "changed_rule", JString (rmo_changed_rule o));
           (lit "previous_rule", opt_string (rmo_previous_rule o));
           (lit "resulting_position", opt_number (rmo_resulting_position o));
           (lit "runtime_apply", apply_outcome_to_json (rmo_runtime_apply o))].
Definition rule_mutation_of_json (j : Json) : option RuleMutationOutcome :=
  fields ← json_struct rule_mutation_fields j;
  action ← json_required fields (lit "action") (json_enum all_rule_actions rule_action_name);
  changed ← json_required fields (lit "changed_rule") json_str;
  previous ← json_optional fields (lit "previous_rule") json_str;
  position ← json_optional fields (lit "resulting_position") json_usize;
  runtime_apply ← json_required fields (lit "runtime_apply") apply_outcome_of_json;
  Some (MkRuleMutationOutcome action changed previous position runtime_apply).

(** ** Profiles *)

Definition refresh_failure_fields := [lit "stage"; lit "message"].
Definition refresh_failure_to_json (f : ProfileRefreshFailure) : Json :=
  JObject [(lit "stage", JString (wire_refresh_stage_name (prf_app_stage f))); (lit "message", JString (prf_message f))].
Definition refresh_failure_of_json (j : Json) : option ProfileRefreshFailure :=
  fields ← json_struct refresh_failure_fields j;
  stage ← json_required fields (lit "stage") (json_enum all_refresh_stages wire_refresh_stage_name);
  message ← json_required fields (lit "message") json_str;
  Some (MkProfileRefreshFailure stage message).

Definition profile_summary_fields :=
  [lit "id"; lit "name"; lit "subscription_url"; lit "active"; lit "refresh_state"; lit "last_success_at_unix_ms";
   lit "next_refresh_at_unix_ms"; lit "last_error"].
Definition profile_page_fields := [lit "snapshot_id"; lit "total"; lit "offset"; lit "profiles"].
Definition profile_mutation_fields := [lit "action"; lit "profile"; lit "runtime_apply"].
Definition lifecycle_fields := [lit "action"; lit "changed"; lit "status"].

Section output.
Context (uuid_to_string : Z → str) (uuid_parse : str → option Z).
Context (url_parse : str → option Url) (percent_decode : str → str).

Definition json_profile_id (j : Json) : option Z := s ← json_str j; uuid_parse s.
Definition json_subscription_url (j : Json) : option Url := s ← json_str j; ok_of (subscription_url_parse url_parse s).

Definition profile_summary_to_json (p : ProfileSummary) : Json :=
  JObject [(lit "id", JString (uuid_to_string (psum_id p)));
           (lit "name", JString (psum_name p));
           (lit "subscription_url", JString (redacted percent_decode (psum_subscription_url p)));
           (lit "active", JBool (psum_active p));
           (lit "refresh_state", JString (refresh_state_name (psum_refresh_state p)));
           (lit "last_success_at_unix_ms", JNumber (psum_last_success_at p));
           (lit "next_refresh_at_unix_ms", JNumber (psum_next_refresh_at p));
           (lit "last_error", json_option refresh_failure_to_json (psum_last_error p))].
Definition profile_summary_of_json (j : Json) : option ProfileSummary :=
  fields ← json_struct profile_summary_fields j;
  id ← json_required fields (lit "id") json_profile_id;
  name ← json_required fields (lit "name") json_str;
  url ← json_required fields (lit "subscription_url") json_subscription_url;
  active ← json_required fields (lit "active") json_bool;
  refresh_state ← json_required fields (lit "refresh_state") (json_enum all_refresh_states refresh_state_name);
  last_success ← json_required fields (lit "last_success_at_unix_ms") json_u64;
  next_refresh ← json_required fields (lit "next_refresh_at_unix_ms") json_u64;
  last_error ← json_optional fields (lit "last_error") refresh_failure_of_json;
  Some (MkProfileSummary id name url active refresh_state last_success next_refresh last_error).

Definition profile_list_to_json (profiles : list ProfileSummary) : Json :=
  JObject [(lit "profiles", JArray (profile_summary_to_json <$> profiles))].
Definition profile_list_of_json (j : Json) : option (list ProfileSummary) :=
  fields ← json_struct [lit "profiles"] j; json_required fields (lit "profiles") (json_vec profile_summary_of_json).

Definition profile_page_to_json (p : ProfileListPageOutcome) : Json :=
  JObject [(lit "snapshot_id", JNumber (plp_snapshot_id p));
           (lit "total", JNumber (plp_total p));
           (lit "offset", JNumber (plp_offset p));
           (lit "profiles", JArray (profile_summary_to_json <$> plp_profiles p))].
Definition profile_page_of_json (j : Json) : option ProfileListPageOutcome :=
  fields ← json_struct profile_page_fields j;
  snapshot_id ← json_required fields (lit "snapshot_id") json_u64;
  total ← json_required fields (lit "total") json_usize;
  offset ← json_required fields (lit "offset") json_usize;
  profiles ← json_required fields (lit "profiles") (json_vec profile_summary_of_json);
  Some (MkProfileListPageOutcome snapshot_id total offset profiles).

Definition profile_mutation_to_json (o : ProfileMutationOutcome) : Json :=
  JObject [(lit "action", JString (profile_action_name (pmo_action o)));
           (lit "profile", profile_summary_to_json (pmo_profile o));
           (lit "runtime_apply", json_option apply_outcome_to_json (pmo_runtime_apply o))].
Definition profile_mutation_of_json (j : Json) : option ProfileMutationOutcome :=
  fields ← json_struct profile_mutation_fields j;
  action ← json_required fields (lit "action") (json_enum all_profile_actions profile_action_name);
  profile ← json_required fields (lit "profile") profile_summary_of_json;
  runtime_apply ← json_optional fields (lit "runtime_apply") apply_outcome_of_json;
  Some (MkProfileMutationOutcome action profile runtime_apply).

Definition lifecycle_to_json (o : LifecycleOutcome) : Json :=
  JObject [(lit "action", JString (lifecycle_action_name (lo_action o)));
           (lit "changed", JBool (lo_changed o));
           (lit "status", status_to_json uuid_to_string (lo_status o))].
Definition lifecycle_of_json (j : Json) : option LifecycleOutcome :=
  fields ← json_struct lifecycle_fields j;
  action ← json_required fields (lit "action") (json_enum all_lifecycle_actions lifecycle_action_name);
  changed ← json_required fields (lit "changed") json_bool;
  status ← json_required fields (lit "status") (status_of_json uuid_parse);
  Some (MkLifecycleOutcome action changed status).

(** ** Outputs *)

(** The tag and the content of [WireApplicationOutput]. *)
Definition output_tag (o : ApplicationOutput) : str :=
  match o with
  | OutStatus _ => lit "status" | OutLifecycle _ => lit "lifecycle" | OutProfiles _ => lit "profiles"
  | OutProfilePage _ => lit "profile_page" | OutProfileMutation _ => lit "profile_mutation" | OutProxies _ => lit "proxies"
  | OutProxyPage _ => lit "proxy_page" | OutProxySelection _ => lit "proxy_selection" | OutLatencies _ => lit "latencies"
  | OutLatency _ => lit "latency" | OutRules _ => lit "rules" | OutRulePage _ => lit "rule_page"
  | OutRuleMutation _ => lit "rule_mutation" | OutLogMetadata _ => lit "log_metadata"
  end.
Definition output_data (o : ApplicationOutput) : Json :=
  match o with
  | OutStatus status => status_to_json uuid_to_string status
  | OutLifecycle outcome => lifecycle_to_json outcome
  | OutProfiles profiles => profile_list_to_json profiles
  | OutProfilePage page => profile_page_to_json page
  | OutProfileMutation outcome => profile_mutation_to_json outcome
  | OutProxies outcome => proxy_list_to_json outcome
  | OutProxyPage page => proxy_page_to_json page
  | OutProxySelection outcome => proxy_selection_to_json outcome
  | OutLatencies samples => latency_list_to_json samples
  | OutLatency sample => latency_show_to_json sample
  | OutRules outcome => rule_list_to_json outcome
  | OutRulePage page => rule_page_to_json page
  | OutRuleMutation outcome => rule_mutation_to_json outcome
  | OutLogMetadata metadata => log_metadata_to_json metadata
  end.
Definition encode_application_output (o : ApplicationOutput) : Json :=
  JObject [(lit "output", JString (output_tag o)); (lit "data", output_data o)].

(** The variants by their tag. *)
Definition output_arms : list (str * (Json → option ApplicationOutput)) :=
  [(lit "status", λ j, OutStatus <$> status_of_json uuid_parse j);
   (lit "lifecycle", λ j, OutLifecycle <$> lifecycle_of_json j);
   (lit "profiles", λ j, OutProfiles <$> profile_list_of_json j);
   (lit "profile_page", λ j, OutProfilePage <$> profile_page_of_json j);
   (lit "profile_mutation", λ j, OutProfileMutation <$> profile_mutation_of_json j);
   (lit "proxies", λ j, OutProxies <$> proxy_list_of_json j);
   (lit "proxy_page", λ j, OutProxyPage <$> proxy_page_of_json j);
   (lit "proxy_selection", λ j, OutProxySelection <$> proxy_selection_of_json j);
   (lit "latencies", λ j, OutLatencies <$> latency_list_of_json j);
   (lit "latency", λ j, OutLatency <$> latency_show_of_json j);
   (lit "rules", λ j, OutRules <$> rule_list_of_json j);
   (lit "rule_page", λ j, OutRulePage <$> rule_page_of_json j);
   (lit "rule_mutation", λ j, OutRuleMutation <$> rule_mutation_of_json j);
   (lit "log_metadata", λ j, OutLogMetadata <$> log_metadata_of_json j)].
(** Adjacently tagged: an object with the tag and the content, or the array of both. *)
Definition decode_application_output (j : Json) : option ApplicationOutput :=
  fields ← json_struct [lit "output"; lit "data"] j;
  tag ← json_required fields (lit "output") json_str;
  data ← json_required fields (lit "data") Some;
  arm ← head (filter (λ arm, arm.1 = tag) output_arms);
  arm.2 data.

Definition encode_status_snapshot (s : StatusSnapshot) : Json := status_to_json uuid_to_string s.
Definition decode_status_snapshot (j : Json) : option StatusSnapshot := status_of_json uuid_parse j.
End output.

(** ** What the wire carries faithfully *)

#[local] Arguments lit : simpl never.
#[local] Arguments json_struct : simpl never.

Definition recovery_ok (r : AppRecoveryOutcome) : Prop := given in_u64 (aro_restored_generation r).
Definition apply_outcome_ok (a : RuntimeApplyOutcome) : Prop :=
  given in_u64 (rao_candidate_generation a) ∧ given in_u64 (rao_committed_generation a) ∧ recovery_ok (rao_recovery a).
Definition node_id_ok (id : str) : Prop := node_record_id_parse id = Ok id.
Definition group_id_ok (id : str) : Prop := proxy_group_id_parse id = Ok id.
Definition node_row_ok (r : ProxyNodeRow) : Prop :=
  given node_id_ok (pnr_id r) ∧ Forall node_id_ok (pnr_candidate_ids r) ∧ given in_u64 (pnr_delay_ms r) ∧
  given in_u64 (pnr_sampled_at r).
Definition group_summary_ok (g : ProxyGroupSummary) : Prop := group_id_ok (pgs_id g).
Definition proxy_list_ok (o : ProxyListOutcome) : Prop :=
  group_summary_ok (plo_group o) ∧ Forall group_summary_ok (plo_groups o) ∧ Forall node_row_ok (plo_nodes o).
Definition proxy_page_ok (p : ProxyListPageOutcome) : Prop :=
  in_u64 (pxp_snapshot_id p) ∧ group_summary_ok (pxp_group p) ∧ in_u64 (pxp_groups_total p) ∧ in_u64 (pxp_groups_offset p) ∧
  Forall group_summary_ok (pxp_groups p) ∧ in_u64 (pxp_nodes_total p) ∧ in_u64 (pxp_nodes_offset p) ∧
  Forall node_row_ok (pxp_nodes p).
Definition proxy_selection_ok (o : ProxySelectionOutcome) : Prop := group_id_ok (pso_group_id o) ∧ recovery_ok (pso_recovery o).
Definition latency_summary_ok (s : LatencySummary) : Prop :=
  node_id_ok (lsum_node_id s) ∧ given in_u64 (lsum_delay_ms s) ∧ given in_u64 (lsum_sampled_at s) ∧
  in_u64 (lsum_probe_generation s).
Definition rule_summary_ok (r : RuleSummary) : Prop := in_u64 (rsum_index r).
Definition rule_list_ok (o : RuleListOutcome) : Prop := given in_u64 (rlo_revision o) ∧ Forall rule_summary_ok (rlo_rules o).
Definition rule_page_ok (p : RuleListPageOutcome) : Prop :=
  given in_u64 (rlp_revision p) ∧ in_u64 (rlp_total p) ∧ in_u64 (rlp_offset p) ∧ Forall rule_summary_ok (rlp_rules p).
Definition rule_mutation_ok (o : RuleMutationOutcome) : Prop :=
  given in_u64 (rmo_resulting_position o) ∧ apply_outcome_ok (rmo_runtime_apply o).

Lemma recovery_wire r : recovery_ok r → recovery_of_json (recovery_to_json r) = Some r.
Proof. intros ?. destruct r. unfold recovery_of_json. wire. Qed.
#[export] Hint Resolve recovery_wire : wire.
Lemma apply_outcome_wire a : apply_outcome_ok a → apply_outcome_of_json (apply_outcome_to_json a) = Some a.
Proof. intros (? & ? & ?). destruct a. unfold apply_outcome_of_json. wire. Qed.
Lemma node_source_wire s : node_source_of_json (node_source_to_json s) = Some s.
Proof. by destruct s. Qed.
Lemma selector_identity_wire i : selector_identity_of_json (selector_identity_to_json i) = Some i.
Proof. by destruct i. Qed.
Lemma node_id_wire id : node_id_ok id → json_node_id (JString id) = Some id.
Proof. unfold node_id_ok, json_node_id. cbn. by intros ->. Qed.
Lemma node_ids_wire ids : Forall node_id_ok ids → json_vec json_node_id (JArray (JString <$> ids)) = Some ids.
Proof. intros Hi. apply json_vec_ok. eapply Forall_impl; [exact Hi|]. exact node_id_wire. Qed.
Lemma group_id_wire id : group_id_ok id → json_group_id (JString id) = Some id.
Proof. unfold group_id_ok, json_group_id. cbn. by intros ->. Qed.
#[export] Hint Resolve apply_outcome_wire node_source_wire selector_identity_wire node_id_wire node_ids_wire group_id_wire : wire.
Lemma node_row_wire r : node_row_ok r → node_row_of_json (node_row_to_json r) = Some r.
Proof. intros (? & ? & ? & ?). destruct r. unfold node_row_of_json. wire. Qed.
Lemma group_summary_wire g : group_summary_ok g → group_summary_of_json (group_summary_to_json g) = Some g.
Proof. intros ?. destruct g. unfold group_summary_of_json. wire. Qed.
Lemma node_rows_wire l : Forall node_row_ok l → json_vec node_row_of_json (JArray (node_row_to_json <$> l)) = Some l.
Proof. intros Hl. apply json_vec_ok. eapply Forall_impl; [exact Hl|]. exact node_row_wire. Qed.
Lemma group_summaries_wire l :
  Forall group_summary_ok l → json_vec group_summary_of_json (JArray (group_summary_to_json <$> l)) = Some l.
Proof. intros Hl. apply json_vec_ok. eapply Forall_impl; [exact Hl|]. exact group_summary_wire. Qed.
#[export] Hint Resolve node_rows_wire group_summary_wire group_summaries_wire : wire.
Lemma proxy_list_wire o : proxy_list_ok o → proxy_list_of_json (proxy_list_to_json o) = Some o.
Proof. intros (? & ? & ?). destruct o. unfold proxy_list_of_json. wire. Qed.
Lemma proxy_page_wire p : proxy_page_ok p → proxy_page_of_json (proxy_page_to_json p) = Some p.
Proof. intros (? & ? & ? & ? & ? & ? & ? & ?). destruct p. unfold proxy_page_of_json. wire. Qed.
Lemma proxy_selection_wire o : proxy_selection_ok o → proxy_selection_of_json (proxy_selection_to_json o) = Some o.
Proof. intros (? & ?). destruct o. unfold proxy_selection_of_json. wire. Qed.
Lemma latency_summary_wire s : latency_summary_ok s → latency_summary_of_json (latency_summary_to_json s) = Some s.
Proof. intros (? & ? & ? & ?). destruct s. unfold latency_summary_of_json. wire. Qed.
Lemma rule_summary_wire r : rule_summary_ok r → rule_summary_of_json (rule_summary_to_json r) = Some r.
Proof. intros ?. destruct r. unfold rule_summary_of_json. wire. Qed.
Lemma rule_summaries_wire l :
  Forall rule_summary_ok l → json_vec rule_summary_of_json (JArray (rule_summary_to_json <$> l)) = Some l.
Proof. intros Hl. apply json_vec_ok. eapply Forall_impl; [exact Hl|]. exact rule_summary_wire. Qed.
#[export] Hint Resolve rule_summaries_wire : wire.
Lemma latency_list_wire l : Forall latency_summary_ok l → latency_list_of_json (latency_list_to_json l) = Some l.
Proof.
  intros Hl. unfold latency_list_of_json. cbn. eapply required_ok; [reflexivity|]. apply json_vec_ok.
  eapply Forall_impl; [exact Hl|]. exact latency_summary_wire.
Qed.
Lemma latency_show_wire s : latency_summary_ok s → latency_show_of_json (latency_show_to_json s) = Some s.
Proof. intros Hs. eapply required_ok; [reflexivity|]. by apply latency_summary_wire. Qed.
Lemma rule_list_wire o : rule_list_ok o → rule_list_of_json (rule_list_to_json o) = Some o.
Proof. intros (? & ?). destruct o. unfold rule_list_of_json. wire. Qed.
Lemma rule_page_wire p : rule_page_ok p → rule_page_of_json (rule_page_to_json p) = Some p.
Proof. intros (? & ? & ? & ?). destruct p. unfold rule_page_of_json. wire. Qed.
Lemma rule_mutation_wire o : rule_mutation_ok o → rule_mutation_of_json (rule_mutation_to_json o) = Some o.
Proof. intros (? & ?). destruct o. unfold rule_mutation_of_json. wire. Qed.
Lemma refresh_failure_wire f : refresh_failure_of_json (refresh_failure_to_json f) = Some f.
Proof. destruct f. unfold refresh_failure_of_json. wire. Qed.
#[export] Hint Resolve refresh_failure_wire : wire.

(** ** What is read is in order *)

Lemma recovery_read j r : recovery_of_json j = Some r → recovery_ok r.
Proof. unfold recovery_of_json, recovery_ok. intros H. unwire H. Qed.
#[export] Hint Resolve recovery_read : unwire.
Lemma apply_outcome_read j a : apply_outcome_of_json j = Some a → apply_outcome_ok a.
Proof. unfold apply_outcome_of_json, apply_outcome_ok. intros H. unwire H. Qed.
Lemma json_node_id_read j id : json_node_id j = Some id → node_id_ok id.
Proof. unfold json_node_id, node_id_ok. intros H. read_bind H. by edestruct node_id_read as [-> ?]. Qed.
Lemma json_group_id_read j id : json_group_id j = Some id → group_id_ok id.
Proof.
  unfold json_group_id, group_id_ok. intros H. read_bind H. unfold proxy_group_id_parse in *.
  destruct (ok_or _ _) eqn:Ho; cbn in H; [|done]. case_match eqn:Hc; cbn in H; simplify_eq. rewrite Ho. cbn. by rewrite Hc.
Qed.
#[export] Hint Resolve apply_outcome_read json_node_id_read json_group_id_read : unwire.
#[export] Hint Resolve vec_read : unwire.
Lemma node_row_read j r : node_row_of_json j = Some r → node_row_ok r.
Proof. unfold node_row_of_json, node_row_ok. intros H. unwire H. Qed.
Lemma group_summary_read j g : group_summary_of_json j = Some g → group_summary_ok g.
Proof. unfold group_summary_of_json, group_summary_ok. intros H. unwire H. Qed.
#[export] Hint Resolve node_row_read group_summary_read : unwire.
Lemma proxy_list_read j o : proxy_list_of_json j = Some o → proxy_list_ok o.
Proof. unfold proxy_list_of_json, proxy_list_ok. intros H. unwire H. Qed.
Lemma proxy_page_read j p : proxy_page_of_json j = Some p → proxy_page_ok p.
Proof. unfold proxy_page_of_json, proxy_page_ok. intros H. unwire H. Qed.
Lemma proxy_selection_read j o : proxy_selection_of_json j = Some o → proxy_selection_ok o.
Proof. unfold proxy_selection_of_json, proxy_selection_ok. intros H. unwire H. Qed.
Lemma latency_summary_read j s : latency_summary_of_json j = Some s → latency_summary_ok s.
Proof. unfold latency_summary_of_json, latency_summary_ok. intros H. unwire H. Qed.
Lemma rule_summary_read j r : rule_summary_of_json j = Some r → rule_summary_ok r.
Proof. unfold rule_summary_of_json, rule_summary_ok. intros H. unwire H. Qed.
#[export] Hint Resolve latency_summary_read rule_summary_read : unwire.
Lemma latency_list_read j l : latency_list_of_json j = Some l → Forall latency_summary_ok l.
Proof. unfold latency_list_of_json. intros (fields & _ & H)%bind_Some. unwire_field. Qed.
Lemma latency_show_read j s : latency_show_of_json j = Some s → latency_summary_ok s.
Proof. unfold latency_show_of_json. intros (fields & _ & H)%bind_Some. unwire_field. Qed.
Lemma rule_list_read j o : rule_list_of_json j = Some o → rule_list_ok o.
Proof. unfold rule_list_of_json, rule_list_ok. intros H. unwire H. Qed.
Lemma rule_page_read j p : rule_page_of_json j = Some p → rule_page_ok p.
Proof. unfold rule_page_of_json, rule_page_ok. intros H. unwire H. Qed.
Lemma rule_mutation_read j o : rule_mutation_of_json j = Some o → rule_mutation_ok o.
Proof. unfold rule_mutation_of_json, rule_mutation_ok. intros H. unwire H. Qed.

Section output_wire.
Context (uuid_to_string : Z → str) (uuid_parse : str → option Z).
Context (url_parse : str → option Url) (percent_decode : str → str).

Abbreviation encode := (encode_application_output uuid_to_string percent_decode).
Abbreviation decode := (decode_application_output uuid_parse url_parse).

(** The URL a client has, and when it has one. *)
Definition url_read (u : Url) : option Url := ok_of (subscription_url_parse url_parse (redacted percent_decode u)).
Definition url_shown (u : Url) : Url := default u (url_read u).
Definition url_shows (u : Url) : Prop := is_Some (url_read u).

Definition profile_shown (p : ProfileSummary) : ProfileSummary :=
  MkProfileSummary (psum_id p) (psum_name p) (url_shown (psum_subscription_url p)) (psum_active p) (psum_refresh_state p)
    (psum_last_success_at p) (psum_next_refresh_at p) (psum_last_error p).
Definition output_shown (o : ApplicationOutput) : ApplicationOutput :=
  match o with
  | OutStatus status => OutStatus (status_shown status)
  | OutLifecycle o => OutLifecycle (MkLifecycleOutcome (lo_action o) (lo_changed o) (status_shown (lo_status o)))
  | OutProfiles profiles => OutProfiles (profile_shown <$> profiles)
  | OutProfilePage p =>
      OutProfilePage (MkProfileListPageOutcome (plp_snapshot_id p) (plp_total p) (plp_offset p) (profile_shown <$> plp_profiles p))
  | OutProfileMutation o =>
      OutProfileMutation (MkProfileMutationOutcome (pmo_action o) (profile_shown (pmo_profile o)) (pmo_runtime_apply o))
  | _ => o
  end.

(** [U] is what is known of the URLs. *)
Definition profile_ok (U : Url → Prop) (p : ProfileSummary) : Prop :=
  uuid_parse (uuid_to_string (psum_id p)) = Some (psum_id p) ∧ U (psum_subscription_url p) ∧
  in_u64 (psum_last_success_at p) ∧ in_u64 (psum_next_refresh_at p).
Definition output_ok (U : Url → Prop) (o : ApplicationOutput) : Prop :=
  match o with
  | OutStatus status => status_ok uuid_to_string uuid_parse status
  | OutLifecycle o => status_ok uuid_to_string uuid_parse (lo_status o)
  | OutProfiles profiles => Forall (profile_ok U) profiles
  | OutProfilePage p =>
      in_u64 (plp_snapshot_id p) ∧ in_u64 (plp_total p) ∧ in_u64 (plp_offset p) ∧ Forall (profile_ok U) (plp_profiles p)
  | OutProfileMutation o => profile_ok U (pmo_profile o) ∧ given apply_outcome_ok (pmo_runtime_apply o)
  | OutProxies o => proxy_list_ok o
  | OutProxyPage p => proxy_page_ok p
  | OutProxySelection o => proxy_selection_ok o
  | OutLatencies samples => Forall latency_summary_ok samples
  | OutLatency sample => latency_summary_ok sample
  | OutRules o => rule_list_ok o
  | OutRulePage p => rule_page_ok p
  | OutRuleMutation o => rule_mutation_ok o
  | OutLogMetadata m => log_metadata_ok m
  end.

Lemma profile_summary_wire p :
  profile_ok url_shows p →
  profile_summary_of_json uuid_parse url_parse (profile_summary_to_json uuid_to_string percent_decode p) = Some (profile_shown p).
Proof.
  intros (Hid & [u Hu] & ? & ?).
  assert (json_profile_id uuid_parse (JString (uuid_to_string (psum_id p))) = Some (psum_id p)) as H1 by exact Hid.
  assert (json_subscription_url url_parse (JString (redacted percent_decode (psum_subscription_url p))) =
    Some (url_shown (psum_subscription_url p))) as H2 by (unfold url_shown; rewrite Hu; exact Hu).
  unfold profile_summary_of_json. eapply bind_ok; [reflexivity|cbv beta].
  eapply bind_ok; [eapply required_ok; [reflexivity|exact H1]|cbv beta].
  eapply bind_ok; [wire_field|cbv beta].
  eapply bind_ok; [eapply required_ok; [reflexivity|exact H2]|cbv beta]. wire.
Qed.
Lemma profiles_wire l :
  Forall (profile_ok url_shows) l →
  json_vec (profile_summary_of_json uuid_parse url_parse)
    (JArray (profile_summary_to_json uuid_to_string percent_decode <$> l)) = Some (profile_shown <$> l).
Proof. intros Hl. apply vec_ok. eapply Forall_impl; [exact Hl|]. exact profile_summary_wire. Qed.
#[local] Hint Resolve profile_summary_wire profiles_wire status_wire : wire.

Lemma lifecycle_wire o :
  status_ok uuid_to_string uuid_parse (lo_status o) → lifecycle_of_json uuid_parse (lifecycle_to_json uuid_to_string o) =
  Some (MkLifecycleOutcome (lo_action o) (lo_changed o) (status_shown (lo_status o))).
Proof. intros Hs. unfold lifecycle_of_json. wire. Qed.
Lemma profile_list_wire l :
  Forall (profile_ok url_shows) l →
  profile_list_of_json uuid_parse url_parse (profile_list_to_json uuid_to_string percent_decode l) = Some (profile_shown <$> l).
Proof. intros Hl. eapply required_ok; [reflexivity|]. by apply profiles_wire. Qed.
Lemma profile_page_wire p :
  in_u64 (plp_snapshot_id p) → in_u64 (plp_total p) → in_u64 (plp_offset p) → Forall (profile_ok url_shows) (plp_profiles p) →
  profile_page_of_json uuid_parse url_parse (profile_page_to_json uuid_to_string percent_decode p) =
  Some (MkProfileListPageOutcome (plp_snapshot_id p) (plp_total p) (plp_offset p) (profile_shown <$> plp_profiles p)).
Proof. intros. unfold profile_page_of_json. wire. Qed.
Lemma profile_mutation_wire o :
  profile_ok url_shows (pmo_profile o) → given apply_outcome_ok (pmo_runtime_apply o) →
  profile_mutation_of_json uuid_parse url_parse (profile_mutation_to_json uuid_to_string percent_decode o) =
  Some (MkProfileMutationOutcome (pmo_action o) (profile_shown (pmo_profile o)) (pmo_runtime_apply o)).
Proof. intros. unfold profile_mutation_of_json. wire. Qed.
Lemma variant_ok {A B} (c : A → B) o x : o = Some x → c <$> o = Some (c x).
Proof. by intros ->. Qed.

Lemma decode_encode o : output_ok url_shows o → decode (encode o) = Some (output_shown o).
Proof.
  intros Ho.
  assert (decode (encode o) =
    arm ← head (filter (λ arm, arm.1 = output_tag o) (output_arms uuid_parse url_parse)); arm.2 (output_data uuid_to_string percent_decode o)) as ->.
  { done. }
  destruct o; cbn in Ho; (eapply bind_ok; [reflexivity|]); cbn [output_shown output_data snd]; apply variant_ok.
  - by apply status_wire.
  - by apply lifecycle_wire.
  - by apply profile_list_wire.
  - destruct Ho as (? & ? & ? & ?). by apply profile_page_wire.
  - destruct Ho. by apply profile_mutation_wire.
  - by apply proxy_list_wire.
  - by apply proxy_page_wire.
  - by apply proxy_selection_wire.
  - by apply latency_list_wire.
  - by apply latency_show_wire.
  - by apply rule_list_wire.
  - by apply rule_page_wire.
  - by apply rule_mutation_wire.
  - by apply log_metadata_wire.
Qed.


(** ** Any answer *)

Context (uuid_law : ∀ id z, uuid_parse id = Some z → uuid_parse (uuid_to_string z) = Some z).
Abbreviation any_profile := (profile_ok (λ _, True)).

Lemma profile_summary_read j p : profile_summary_of_json uuid_parse url_parse j = Some p → any_profile p.
Proof.
  unfold profile_summary_of_json, profile_ok. intros H. unwire H; [|done].
  lazymatch goal with Hid : json_required _ _ (json_profile_id uuid_parse) = Some _ |- _ =>
    refine (required_read (λ z, uuid_parse (uuid_to_string z) = Some z) _ _ _ _ Hid _) end.
  intros j' z (s & _ & Hz)%bind_Some. by eapply uuid_law.
Qed.
#[local] Hint Resolve profile_summary_read : unwire.
Lemma profile_list_read j l : profile_list_of_json uuid_parse url_parse j = Some l → Forall any_profile l.
Proof. unfold profile_list_of_json. intros (fields & _ & H)%bind_Some. unwire_field. Qed.
Lemma profile_page_read j p :
  profile_page_of_json uuid_parse url_parse j = Some p →
  in_u64 (plp_snapshot_id p) ∧ in_u64 (plp_total p) ∧ in_u64 (plp_offset p) ∧ Forall any_profile (plp_profiles p).
Proof. unfold profile_page_of_json. intros H. unwire H. Qed.
Lemma profile_mutation_read j o :
  profile_mutation_of_json uuid_parse url_parse j = Some o → any_profile (pmo_profile o) ∧ given apply_outcome_ok (pmo_runtime_apply o).
Proof. unfold profile_mutation_of_json. intros H. unwire H. Qed.
Lemma lifecycle_read j o :
  lifecycle_of_json uuid_parse j = Some o →
  status_ok uuid_to_string uuid_parse (lo_status o) ∧ status_shown (lo_status o) = lo_status o.
Proof.
  unfold lifecycle_of_json. intros H. read_bind H. simplify_eq. cbn.
  lazymatch goal with Hs : json_required _ _ (status_of_json uuid_parse) = Some ?s |- _ =>
    refine (required_read (λ s, status_ok uuid_to_string uuid_parse s ∧ status_shown s = s) _ _ _ _ Hs _) end.
  intros. by eapply status_read.
Qed.

(** The reasons of a status are in order. *)
Definition output_sorted (o : ApplicationOutput) : Prop :=
  match o with OutStatus s => status_shown s = s | OutLifecycle o => status_shown (lo_status o) = lo_status o | _ => True end.

End output_wire.

(** ** Examples *)

Definition wire_uuid_to_string (z : Z) : str := [Z.to_N z].
Definition wire_uuid_parse (s : str) : option Z := match s with [n] => Some (Z.of_N n) | _ => None end.
Definition wire_url : Url := MkUrl (lit "https") (Some (lit "h.example")) (lit "https://h.example") (Some [lit "sub"]) (Some (lit "user=1")).
Definition wire_url_parse (s : str) : option Url :=
  if bool_decide (s = lit "https://h.example/sub?user=[redacted]")
  then Some (MkUrl (lit "https") (Some (lit "h.example")) (lit "https://h.example") (Some [lit "sub"]) (Some (lit "user=[redacted]")))
  else None.
Definition wire_profile (url : Url) : ProfileSummary := MkProfileSummary 7 (lit "home") url true RefreshFresh 1 2 None.
Lemma wire_uuid_law id z : wire_uuid_parse id = Some z → wire_uuid_parse (wire_uuid_to_string z) = Some z.
Proof.
  destruct id as [|n [|m id]]; cbn; try done. intros [= <-]. unfold wire_uuid_to_string. cbn. by rewrite N2Z.id.
Qed.



(** ** A URL that no client can read

    [SubscriptionUrl::parse] limits the length of its argument.  A redacted URL can be longer than the URL: each
    parameter without a value takes twenty-two bytes for its two.  The client then refuses the whole
    answer, although the URL is far below the limit. *)

Lemma required_none {A} fields name (d : Json → option A) j :
  json_field fields name = Some (Some j) → d j = None → json_required fields name d = None.
Proof. unfold json_required. intros ->. cbn. done. Qed.
Lemma profile_unreadable uuid_to_string uuid_parse url_parse percent_decode p :
  url_read url_parse percent_decode (psum_subscription_url p) = None →
  profile_summary_of_json uuid_parse url_parse (profile_summary_to_json uuid_to_string percent_decode p) = None.
Proof.
  intros Hu. apply eq_None_not_Some. intros [x H]. unfold profile_summary_of_json in H.
  apply bind_Some in H as (fields & Hf & H). injection Hf as <-. do 2 apply bind_Some in H as (? & _ & H).
  apply bind_Some in H as (u & Hbad & _). erewrite required_none in Hbad; [done|reflexivity|exact Hu].
Qed.

(** [https://h.example/?a&a&...], with [n + 1] parameters. *)
Definition flag_url (n : nat) : Url :=
  MkUrl (lit "https") (Some (lit "h.example")) (lit "https://h.example") (Some [[]])
    (Some (97%N :: concat (replicate n [38%N; 97%N]))).
Lemma long_redaction_unreadable uuid_parse url_parse :
  str_len (lit "https://h.example/?" ++ default [] (url_query (flag_url 400))) < 1000 ∧
  decode_application_output uuid_parse url_parse
    (encode_application_output wire_uuid_to_string id (OutProfiles [wire_profile (flag_url 400)])) = None.
Proof.
  split; [by vm_compute|].
  assert (url_read url_parse id (flag_url 400) = None) as Hu.
  { unfold url_read, subscription_url_parse.
    assert ((SUBSCRIPTION_URL_MAX_BYTES <? str_len (redacted id (flag_url 400))) = true) as -> by (by vm_compute). done. }
  change (OutProfiles <$> profile_list_of_json uuid_parse url_parse
    (profile_list_to_json wire_uuid_to_string id [wire_profile (flag_url 400)]) = None).
  assert (profile_list_of_json uuid_parse url_parse (profile_list_to_json wire_uuid_to_string id [wire_profile (flag_url 400)]) = None) as ->;
    [|done].
  eapply required_none; [reflexivity|]. cbn [snd json_vec fmap list_fmap mapM]. by rewrite (profile_unreadable _ _ _ _ (wire_profile (flag_url 400)) Hu).
Qed.
