(* ===== verification/WirePrintable.v ===== *)
(** * WirePrintable: documents that [serde_json] prints and reads back

    The numbers of an output that is in order fit a [serde_json::Number], so the documents of [WireStatus] and
    [WireOutput] are the ones that the law of the printer speaks of ([output_printable]). *)

From S2P Require Import Prelude Text Constants Json Domain Diagnostics Frame Request Application WireStatus WireOutput.
Local Open Scope Z_scope.

#[local] Arguments lit : simpl never.
#[local] Arguments json_printable : simpl never.

Lemma printable_object fields : Forall (λ f, json_printable f.2 = true) fields → json_printable (JObject fields) = true.
Proof. intros Hf. apply forallb_forall. intros f Hin%list_elem_of_In. by eapply Forall_forall in Hin; [|exact Hf]. Qed.
Lemma printable_values {A} (f : A → Json) l : Forall (λ x, json_printable (f x) = true) l → json_printable (JArray (f <$> l)) = true.
Proof.
  intros Hl. apply forallb_forall. intros j Hin%list_elem_of_In. apply list_elem_of_fmap in Hin as (x & -> & Hx).
  by eapply Forall_forall in Hx; [|exact Hl].
Qed.
Lemma printable_option {A} (f : A → Json) o : given (λ x, json_printable (f x) = true) o → json_printable (json_option f o) = true.
Proof. by destruct o. Qed.

Create HintDb printable.
#[export] Hint Resolve printable_number : printable.

Ltac printable :=
  cbn [snd];
  lazymatch goal with
  | |- Forall _ [] => constructor
  | |- Forall _ (_ :: _) => constructor; printable
  | |- json_printable (JObject _) = true => apply printable_object; printable
  | |- json_printable (JArray _) = true =>
      apply printable_values; first [eapply Forall_impl; [eassumption|]; intros; printable | apply Forall_true; intros; printable]
  | |- json_printable (json_option _ _) = true =>
      apply printable_option; first [eapply given_impl; [eassumption|]; intros; printable | apply given_all; intros; printable]
  | |- json_printable (JString _) = true => reflexivity
  | |- json_printable (JBool _) = true => reflexivity
  | |- json_printable (JNumber _) = true => apply printable_number; first [assumption | cbv beta in *; unfold in_u64; lia]
  | |- _ => solve [eauto with printable nocore]
  end.

Lemma log_gap_printable g : log_gap_ok g → json_printable (log_gap_to_json g) = true.
Proof. intros (? & ? & ?). unfold log_gap_to_json. printable. Qed.
#[export] Hint Resolve log_gap_printable : printable.
Lemma log_metadata_printable m : log_metadata_ok m → json_printable (log_metadata_to_json m) = true.
Proof. intros (? & ? & ? & ? & ?). unfold log_metadata_to_json. printable. Qed.
Lemma connection_printable c : connection_ok c → json_printable (connection_to_json c) = true.
Proof. intros (? & ? & ?). unfold connection_to_json. printable. Qed.
Lemma recovery_snapshot_printable r : recovery_snapshot_ok r → json_printable (recovery_snapshot_to_json r) = true.
Proof. intros ?. unfold recovery_snapshot_to_json. printable. Qed.
#[export] Hint Resolve log_metadata_printable connection_printable recovery_snapshot_printable : printable.
Lemma apply_snapshot_printable a : apply_snapshot_ok a → json_printable (apply_snapshot_to_json a) = true.
Proof. intros (? & ? & ?). unfold apply_snapshot_to_json. printable. Qed.
Lemma probe_queue_printable q : probe_queue_ok q → json_printable (probe_queue_to_json q) = true.
Proof. intros []. unfold probe_queue_to_json. printable. Qed.
Lemma restart_status_printable r : restart_status_ok r → json_printable (restart_status_to_json r) = true.
Proof. intros (? & ?). unfold restart_status_to_json. printable. Qed.
#[export] Hint Resolve apply_snapshot_printable probe_queue_printable restart_status_printable : printable.
Lemma core_status_printable c : core_status_ok c → json_printable (core_status_to_json c) = true.
Proof. intros (? & ? & ?). unfold core_status_to_json. printable. Qed.
Lemma tun_status_printable t : json_printable (tun_status_to_json t) = true.
Proof. unfold tun_status_to_json. printable. Qed.
Lemma selected_node_printable n : json_printable (selected_node_to_json n) = true.
Proof. unfold selected_node_to_json. printable. Qed.
Lemma latency_sample_printable s : latency_sample_ok s → json_printable (latency_sample_to_json s) = true.
Proof. intros (? & ? & ? & ?). unfold latency_sample_to_json. printable. Qed.
Lemma traffic_sample_printable s : traffic_sample_ok s → json_printable (traffic_sample_to_json s) = true.
Proof. intros (? & ? & ?). unfold traffic_sample_to_json. printable. Qed.
Lemma stream_health_printable h : json_printable (stream_health_to_json h) = true.
Proof. unfold stream_health_to_json. printable. Qed.
Lemma supervisor_status_printable s : supervisor_status_ok s → json_printable (supervisor_status_to_json s) = true.
Proof. intros (? & ?). unfold supervisor_status_to_json. printable. Qed.
Lemma active_profile_printable uuid_to_string p : json_printable (active_profile_to_json uuid_to_string p) = true.
Proof. unfold active_profile_to_json. printable. Qed.
#[export] Hint Resolve core_status_printable tun_status_printable selected_node_printable latency_sample_printable traffic_sample_printable stream_health_printable supervisor_status_printable active_profile_printable : printable.
Lemma status_printable uuid_to_string uuid_parse s :
  status_ok uuid_to_string uuid_parse s → json_printable (status_to_json uuid_to_string s) = true.
Proof. intros []. unfold status_to_json. printable. Qed.
#[export] Hint Resolve status_printable : printable.

Lemma recovery_printable r : recovery_ok r → json_printable (recovery_to_json r) = true.
Proof. intros ?. unfold recovery_to_json. printable. Qed.
#[export] Hint Resolve recovery_printable : printable.
Lemma apply_outcome_printable a : apply_outcome_ok a → json_printable (apply_outcome_to_json a) = true.
Proof. intros (? & ? & ?). unfold apply_outcome_to_json. printable. Qed.
Lemma node_source_printable s : json_printable (node_source_to_json s) = true.
Proof. by destruct s. Qed.
Lemma selector_identity_printable i : json_printable (selector_identity_to_json i) = true.
Proof. unfold selector_identity_to_json. printable. Qed.
Lemma refresh_failure_printable f : json_printable (refresh_failure_to_json f) = true.
Proof. unfold refresh_failure_to_json. printable. Qed.
#[export] Hint Resolve apply_outcome_printable node_source_printable selector_identity_printable refresh_failure_printable : printable.
Lemma node_row_printable r : node_row_ok r → json_printable (node_row_to_json r) = true.
Proof. intros (? & ? & ? & ?). unfold node_row_to_json. printable. Qed.
Lemma group_summary_printable g : json_printable (group_summary_to_json g) = true.
Proof. unfold group_summary_to_json. printable. Qed.
Lemma latency_summary_printable s : latency_summary_ok s → json_printable (latency_summary_to_json s) = true.
Proof. intros (? & ? & ? & ?). unfold latency_summary_to_json. printable. Qed.
Lemma rule_summary_printable r : rule_summary_ok r → json_printable (rule_summary_to_json r) = true.
Proof. intros ?. unfold rule_summary_to_json. printable. Qed.
Lemma profile_summary_printable uuid_to_string uuid_parse percent_decode U p :
  profile_ok uuid_to_string uuid_parse U p → json_printable (profile_summary_to_json uuid_to_string percent_decode p) = true.
Proof. intros (? & ? & ? & ?). unfold profile_summary_to_json. printable. Qed.
#[export] Hint Resolve node_row_printable group_summary_printable latency_summary_printable rule_summary_printable profile_summary_printable : printable.

(** The document of every output that is in order. *)
Lemma output_printable uuid_to_string uuid_parse percent_decode U o :
  output_ok uuid_to_string uuid_parse U o → json_printable (encode_application_output uuid_to_string percent_decode o) = true.
Proof.
  intros Ho. unfold encode_application_output. apply printable_object. constructor; [reflexivity|]. constructor; [|constructor].
  cbn [snd]. destruct o; cbn in Ho |- *; unfold proxy_list_ok, proxy_page_ok, proxy_selection_ok, rule_list_ok, rule_page_ok, rule_mutation_ok in *;
    destruct_and?; unfold lifecycle_to_json, profile_list_to_json, profile_page_to_json,
    profile_mutation_to_json, proxy_list_to_json, proxy_page_to_json, proxy_selection_to_json, latency_list_to_json,
    latency_show_to_json, rule_list_to_json, rule_page_to_json, rule_mutation_to_json; printable.
Qed.
