(* ===== verification/ClientError.v ===== *)
(** * ClientError: errors on the wire (src/contract.rs, src/ipc.rs, src/ipc_runtime/client_error.rs)

    The Supervisor sends an [ApplicationError] as an [IpcError] with its details in a document; the client
    reads it back with [application_error].  The other functions of client_error.rs say what the client
    reports when the transport fails: after a request that may have committed has been handed to the socket, the
    outcome is unknown and the client must not be told to retry.

    [error_delivered] states what arrives: everything but the details of a lifecycle failure, which no
    Supervisor sends, and candidate identifiers that the candidates themselves repeat. *)

From S2P Require Import Prelude Text Constants Json Domain Frame Request Application WireStatus WireOutput.
Local Open Scope Z_scope.

(** ** Documents *)

(** [serde_json::Map::get]; [Value::get] of another document is [None]. *)
Fixpoint fields_get (name : str) (fields : list (str * Json)) : option Json :=
  match fields with
  | [] => None
  | (k, v) :: fields' => if bool_decide (k = name) then Some v else fields_get name fields'
  end.
Definition json_object (j : Json) : option (list (str * Json)) := match j with JObject fields => Some fields | _ => None end.
Definition json_array (j : Json) : option (list Json) := match j with JArray values => Some values | _ => None end.
Definition json_get (name : str) (j : Json) : option Json := fields ← json_object j; fields_get name fields.

(** [serde_json::Map::insert] *)
Fixpoint fields_insert (name : str) (value : Json) (fields : list (str * Json)) : list (str * Json) :=
  match fields with
  | [] => [(name, value)]
  | (k, v) :: fields' => if bool_decide (k = name) then (k, value) :: fields' else (k, v) :: fields_insert name value fields'
  end.

(** ** [From<ApplicationError> for ApiError] *)

(** [generation.0.to_string()] *)
Definition generation_string (generation : Z) : Json := JString (decimal (Z.to_N generation)).

(** [RecoveryViewV1], with [skip_serializing_if = "Option::is_none"] *)
Definition recovery_status_view_name (s : RecoveryStatus) : str :=
  match s with
  | RecoveryStatusNotRequired => lit "not_required"
  | RecoveryStatusSucceeded => lit "succeeded"
  | RecoveryStatusPending => lit "pending"
  | RecoveryStatusFailed => lit "failed"
  end.
Definition present (name : str) (value : option Json) : list (str * Json) :=
  match value with Some value => [(name, value)] | None => [] end.
Definition recovery_view (r : AppRecoveryOutcome) : Json :=
  JObject ([(lit "status", JString (recovery_status_view_name (aro_status r)))]
           ++ present (lit "restored_generation") (generation_string <$> aro_restored_generation r)
           ++ present (lit "message") (JString <$> aro_message r)).

Definition selector_kind_name (k : SelectorKind) : str :=
  match k with
  | SelectProfile => lit "profile"
  | SelectProxyGroup => lit "proxy_group"
  | SelectNode => lit "node"
  | SelectRule => lit "rule"
  end.

Definition application_details (d : ApplicationErrorDetails) (details : list (str * Json)) : list (str * Json) :=
  match d with
  | DetailCandidateIds candidate_ids =>
      fields_insert (lit "candidate_ids") (JArray (JString <$> candidate_ids)) details
  | DetailRuntimeApplyFailure f =>
      let details := fields_insert (lit "candidate_generation")
                       (json_option generation_string (rafd_candidate_generation f)) details in
      let details := fields_insert (lit "committed_generation")
                       (json_option generation_string (rafd_committed_generation f)) details in
      let details := fields_insert (lit "stage") (JString (stage_as_str (rafd_stage f))) details in
      fields_insert (lit "recovery") (recovery_view (rafd_recovery f)) details
  | DetailLifecycleFailure f =>
      fields_insert (lit "failure_category") (JString (lfd_category f))
        (fields_insert (lit "lifecycle_stage") (JString (lfd_stage f)) details)
  end.

Definition candidate_view (c : SelectorCandidate) : Json :=
  JObject [(lit "id", JString (sc_id c)); (lit "name", JString (sc_name c))].

Definition selector_details (s : SelectorCandidateDetails) (details : list (str * Json)) : list (str * Json) :=
  let candidates := candidate_view <$> scd_candidates s in
  let details := match fields_get (lit "candidate_ids") details with
                 | Some _ => details
                 | None => fields_insert (lit "candidate_ids") (JArray ((λ c, JString (sc_id c)) <$> scd_candidates s)) details
                 end in
  fields_insert (lit "candidates") (JArray candidates)
    (fields_insert (lit "selector") (JString (selector_kind_name (scd_selector s))) details).

Record ApiError := MkApiError {
  api_code : ErrorCode;
  api_message : str;
  api_retryable : bool;
  api_details : option Json;
}.

Definition api_error_from (e : ApplicationError) : ApiError :=
  let details := match ae_details e with Some d => application_details d [] | None => [] end in
  let details := match ae_selector_candidates e with Some s => selector_details s details | None => details end in
  MkApiError (ae_code e) (ae_message e) (ae_retryable e)
    (if bool_decide (details = []) then None else Some (JObject details)).

(** [From<ApplicationError> for IpcError] *)
Definition ipc_error_from (e : ApplicationError) : IpcError :=
  let e := api_error_from e in
  MkIpcError (error_code_name (api_code e)) (api_message e) (api_retryable e) (api_details e).

(** ** [application_error] *)

Definition all_error_codes : list ErrorCode :=
  [EUsage; ESupervisorUnavailable; EProtocolMismatch; EProfileAmbiguous; EProfileActive; EProfileNotFound;
   EProxyGroupNotFound; ENodeNotFound; ENodeAmbiguous; EInvalidSubscriptionUrl; ERulesUninitialized; ERuleBusy;
   ERuleNotFound; ERuleAmbiguous; ERuleAlreadyExists; EPolicyTargetNotFound; EProfileFieldUnsupported;
   ETunPermissionDenied; ETunUnsupported; ECoreUnavailable; EExternalOperationFailed; EInternal; EOperationUnavailable].
(** The text of the code, the first of the names that are the same; the names are those of [error_code_name]. *)
Definition parse_error_code (code : str) : option ErrorCode :=
  head (filter (λ c, error_code_name c = code) all_error_codes).

Definition protocol_error (message : str) : ApplicationError := app_error EProtocolMismatch message false.

Definition decode_candidate_ids (j : Json) : option (list str) := values ← json_array j; mapM json_str values.
(** [details.and_then(|details| details.get(name)).and_then(decode_candidate_ids)] *)
Definition candidate_ids_at (name : str) (details : option Json) : option (list str) :=
  details ← details; value ← json_get name details; decode_candidate_ids value.

(** [Some(None)] without the field or with [null] in it, [None] if it is no number. *)
Definition decode_optional_generation (value : option Json) : option (option Z) :=
  match value with
  | None | Some JNull => Some None
  | Some value => s ← json_str value; Some <$> parse_u64 s
  end.

Definition decode_recovery_status (name : str) : option RecoveryStatus :=
  if bool_decide (name = lit "not_required") then Some RecoveryStatusNotRequired
  else if bool_decide (name = lit "succeeded") then Some RecoveryStatusSucceeded
  else if bool_decide (name = lit "pending") then Some RecoveryStatusPending
  else if bool_decide (name = lit "failed") then Some RecoveryStatusFailed
  else None.

Definition decode_optional_message (value : option Json) : option (option str) :=
  match value with
  | None | Some JNull => Some None
  | Some message => Some <$> json_str message
  end.

Definition decode_runtime_apply_failure (details : option Json) : option ApplicationErrorDetails :=
  details ← details; details ← json_object details;
  stage ← fields_get (lit "stage") details; stage ← json_str stage; stage ← stage_parse stage;
  candidate_generation ← decode_optional_generation (fields_get (lit "candidate_generation") details);
  committed_generation ← decode_optional_generation (fields_get (lit "committed_generation") details);
  recovery ← fields_get (lit "recovery") details; recovery ← json_object recovery;
  status ← fields_get (lit "status") recovery; status ← json_str status; status ← decode_recovery_status status;
  restored_generation ← decode_optional_generation (fields_get (lit "restored_generation") recovery);
  message ← decode_optional_message (fields_get (lit "message") recovery);
  Some (DetailRuntimeApplyFailure (MkRuntimeApplyFailureDetails candidate_generation committed_generation stage
          (MkAppRecoveryOutcome status restored_generation message))).

Definition decode_selector_kind (name : str) : option SelectorKind :=
  if bool_decide (name = lit "profile") then Some SelectProfile
  else if bool_decide (name = lit "proxy_group") then Some SelectProxyGroup
  else if bool_decide (name = lit "node") then Some SelectNode
  else if bool_decide (name = lit "rule") then Some SelectRule
  else None.
Definition decode_candidate (j : Json) : option SelectorCandidate :=
  candidate ← json_object j;
  id ← fields_get (lit "id") candidate; id ← json_str id;
  name ← fields_get (lit "name") candidate; name ← json_str name;
  Some (MkSelectorCandidate id name).
Definition decode_selector_candidates (details : option Json) : option (SelectorKind * list SelectorCandidate) :=
  details ← details; details ← json_object details;
  selector ← fields_get (lit "selector") details; selector ← json_str selector; selector ← decode_selector_kind selector;
  candidates ← fields_get (lit "candidates") details; candidates ← json_array candidates;
  candidates ← mapM decode_candidate candidates;
  Some (selector, candidates).

Definition application_error (error : IpcError) : ApplicationError :=
  match parse_error_code (err_code error) with
  | None => protocol_error (lit "The IPC response error code is unknown")
  | Some code =>
      let result := app_error code (err_message error) (err_retryable error) in
      let result := match decode_runtime_apply_failure (err_details error) with
                    | Some details => app_with_details result details
                    | None => result
                    end in
      let result := match candidate_ids_at (lit "application_candidate_ids") (err_details error) with
                    | Some ids => app_with_details result (DetailCandidateIds ids)
                    | None => result
                    end in
      let selector_candidates := decode_selector_candidates (err_details error) in
      let result :=
        match ae_details result, selector_candidates with
        | None, None =>
            match candidate_ids_at (lit "candidate_ids") (err_details error) with
            | Some ids => app_with_details result (DetailCandidateIds ids)
            | None => result
            end
        | _, _ => result
        end in
      match selector_candidates with
      | Some (selector, candidates) => with_selector_candidates result selector candidates
      | None => result
      end
  end.

(** ** Failures of the transport *)

(** [io::ErrorKind], of which these are looked at. *)
Inductive ErrorKind := TimedOut | WouldBlock | UnexpectedEof | ConnectionReset | BrokenPipe | OtherKind.

(** [FrameError] with the kind of an I/O error *)
Inductive TransportError :=
| TransportIo (kind : ErrorKind)
| TransportJson
| TransportTooLarge.

Definition is_timeout (kind : ErrorKind) : bool := match kind with TimedOut | WouldBlock => true | _ => false end.
Definition is_closed (kind : ErrorKind) : bool := match kind with UnexpectedEof | ConnectionReset | BrokenPipe => true | _ => false end.

Definition connect_error : ApplicationError :=
  app_error ESupervisorUnavailable (lit "The Ratash Supervisor IPC endpoint is unavailable") true.

Definition write_error (e : TransportError) : ApplicationError :=
  match e with
  | TransportIo kind =>
      if is_timeout kind
      then app_error ESupervisorUnavailable (lit "Timed out sending the Supervisor IPC request") true
      else app_error ESupervisorUnavailable (lit "The Supervisor IPC request could not be sent") true
  | TransportJson | TransportTooLarge => app_error EInternal (lit "The application request could not be encoded") false
  end.

Definition read_error (e : TransportError) : ApplicationError :=
  let invalid := protocol_error (lit "The Supervisor IPC response frame is invalid") in
  match e with
  | TransportIo kind =>
      if is_timeout kind
      then app_error ESupervisorUnavailable (lit "Timed out waiting for the Supervisor IPC response") true
      else if is_closed kind
      then app_error ESupervisorUnavailable (lit "The Supervisor IPC connection closed before responding") true
      else invalid
  | TransportJson | TransportTooLarge => invalid
  end.

Definition unknown_mutation_outcome (message : str) : ApplicationError := app_error EExternalOperationFailed message false.

Definition operation_write_error (e : TransportError) (may_commit : bool) : ApplicationError :=
  match e, may_commit with
  | TransportIo _, true =>
      unknown_mutation_outcome (lit "The IPC mutation request was interrupted; query current state before retrying")
  | _, _ => write_error e
  end.

Definition operation_read_setup_error (may_commit : bool) : ApplicationError :=
  if may_commit
  then unknown_mutation_outcome (lit "The IPC mutation response could not be read; query current state before retrying")
  else connect_error.

Definition operation_read_error (e : TransportError) (may_commit : bool) : ApplicationError :=
  if may_commit && match e with TransportIo kind => is_timeout kind || is_closed kind | _ => false end
  then unknown_mutation_outcome (lit "The IPC mutation outcome is unknown; query current state before retrying")
  else read_error e.

Definition cancelled_operation (may_commit : bool) : ApplicationError :=
  if may_commit
  then unknown_mutation_outcome (lit "The IPC mutation wait was cancelled; query current state before retrying")
  else app_error EOperationUnavailable (lit "The IPC operation was cancelled") true.

Definition operation_may_commit (operation : ApplicationOperation) : bool :=
  match operation with
  | AppStart | AppStop | AppRestart | AppProfileAdd _ | AppProfileUse _ | AppProfileRemove _ | AppProxySelect _ _
  | AppRuleAdd _ _ | AppRuleReplace _ _ | AppRuleRemove _ => true
  | _ => false
  end.

(** ** What arrives *)

Lemma error_code_parses code : parse_error_code (error_code_name code) = Some code.
Proof. by destruct code. Qed.

Lemma generation_parses n : in_u64 n → parse_u64 (decimal (Z.to_N n)) = Some n.
Proof. intros Hn. unfold in_u64 in Hn. rewrite parse_decimal; rewrite Z2N.id by lia; [done|lia]. Qed.
Lemma generation_decoded o : given in_u64 o → decode_optional_generation (Some (json_option generation_string o)) = Some o.
Proof. destruct o as [n|]; simpl; [|done]. intros Hn. by rewrite generation_parses. Qed.
Lemma strings_decoded l : decode_candidate_ids (JArray (JString <$> l)) = Some l.
Proof. exact (json_strs_ok l). Qed.
Lemma candidates_decoded l : mapM decode_candidate (candidate_view <$> l) = Some l.
Proof. apply mapM_Some. induction l as [|[id name] l IH]; csimpl; constructor; [done|exact IH]. Qed.

Lemma recovery_decoded r :
  given in_u64 (aro_restored_generation r) →
  ∃ fields, recovery_view r = JObject fields ∧
    fields_get (lit "status") fields = Some (JString (recovery_status_view_name (aro_status r))) ∧
    decode_optional_generation (fields_get (lit "restored_generation") fields) = Some (aro_restored_generation r) ∧
    decode_optional_message (fields_get (lit "message") fields) = Some (aro_message r).
Proof.
  destruct r as [status generation message]; cbn [aro_status aro_restored_generation aro_message]. intros Hg.
  eexists. split; [done|]. cbn [aro_status aro_restored_generation aro_message].
  split_and!; [done| |by destruct generation, message].
  destruct generation as [n|]; [|by destruct message]. pose proof (generation_parses n Hg) as Hn.
  assert (fields_get (lit "restored_generation") _ = Some (generation_string n)) as -> by reflexivity. simpl. by rewrite Hn.
Qed.

(** The numbers fit their type. *)
Definition error_ok (e : ApplicationError) : Prop :=
  match ae_details e with
  | Some (DetailRuntimeApplyFailure f) =>
      given in_u64 (rafd_candidate_generation f) ∧ given in_u64 (rafd_committed_generation f) ∧
      given in_u64 (aro_restored_generation (rafd_recovery f))
  | _ => True
  end.

(** What the client has of an error. *)
Definition error_shown (e : ApplicationError) : ApplicationError :=
  MkApplicationError (ae_code e) (ae_message e) (ae_retryable e)
    match ae_details e, ae_selector_candidates e with
    | Some (DetailRuntimeApplyFailure f), _ => Some (DetailRuntimeApplyFailure f)
    | Some (DetailCandidateIds ids), None => Some (DetailCandidateIds ids)
    | _, _ => None
    end (ae_selector_candidates e).

Lemma get_insert k k' v fields :
  fields_get k (fields_insert k' v fields) = if bool_decide (k' = k) then Some v else fields_get k fields.
Proof.
  induction fields as [|[n w] fields IH]; simpl; [done|].
  destruct (decide (n = k')) as [->|Hn].
  - rewrite bool_decide_true by done. simpl. by case_bool_decide.
  - rewrite bool_decide_false by done. simpl. rewrite IH. repeat case_bool_decide; congruence.
Qed.

Ltac compare :=
  match goal with
  | |- context [bool_decide (lit ?a = lit ?b)] =>
      let v := eval vm_compute in (bool_decide (lit a = lit b)) in change (bool_decide (lit a = lit b)) with v; cbv iota
  end.
Ltac fields := repeat (rewrite get_insert; compare).

(** A name that is none of those of a list. *)
Ltac other_name := apply (bool_decide_unpack _); vm_compute; exact I.

Lemma selector_get k s details :
  k ∉ [lit "candidate_ids"; lit "candidates"; lit "selector"] →
  fields_get k (selector_details s details) = fields_get k details.
Proof.
  rewrite !not_elem_of_cons. intros (H1 & H2 & H3 & _). unfold selector_details. rewrite !get_insert.
  rewrite !bool_decide_false by done. destruct (fields_get (lit "candidate_ids") details); [done|].
  rewrite get_insert. by rewrite bool_decide_false.
Qed.

Lemma selector_decoded s details :
  decode_selector_candidates (Some (JObject (selector_details s details))) = Some (scd_selector s, scd_candidates s).
Proof.
  destruct s as [kind candidates]. unfold decode_selector_candidates, selector_details. cbn [mbind option_bind json_object].
  fields. cbn [mbind option_bind json_str json_array scd_candidates scd_selector].
  assert (decode_selector_kind (selector_kind_name kind) = Some kind) as -> by (by destruct kind).
  cbn [mbind option_bind]. by rewrite candidates_decoded.
Qed.

Lemma apply_failure_decoded f details :
  given in_u64 (rafd_candidate_generation f) → given in_u64 (rafd_committed_generation f) →
  given in_u64 (aro_restored_generation (rafd_recovery f)) →
  (∀ k, k ∈ [lit "stage"; lit "candidate_generation"; lit "committed_generation"; lit "recovery"] →
    fields_get k details = fields_get k (application_details (DetailRuntimeApplyFailure f) [])) →
  decode_runtime_apply_failure (Some (JObject details)) = Some (DetailRuntimeApplyFailure f).
Proof.
  intros Hcand Hcomm Hrest Hget. unfold decode_runtime_apply_failure. cbn [mbind option_bind json_object].
  rewrite !Hget by (rewrite !elem_of_cons; auto). destruct f as [cand comm stage recovery].
  cbn [application_details rafd_candidate_generation rafd_committed_generation rafd_stage rafd_recovery] in *. fields.
  cbn [mbind option_bind json_str]. rewrite (proj2 (stage_names _ stage) eq_refl). cbn [mbind option_bind].
  rewrite !generation_decoded by done. cbn [mbind option_bind].
  destruct (recovery_decoded recovery Hrest) as (fields & -> & Hs & Hg & Hm). cbn [mbind option_bind json_object].
  rewrite Hs. cbn [mbind option_bind json_str].
  assert (decode_recovery_status (recovery_status_view_name (aro_status recovery)) = Some (aro_status recovery)) as ->
    by (by destruct (aro_status recovery)).
  cbn [mbind option_bind]. rewrite Hg. cbn [mbind option_bind]. rewrite Hm. by destruct recovery.
Qed.

Lemma apply_failure_absent details :
  fields_get (lit "stage") details = None → decode_runtime_apply_failure (Some (JObject details)) = None.
Proof. intros H. unfold decode_runtime_apply_failure. cbn [mbind option_bind json_object]. by rewrite H. Qed.

(** The three documents that [application_error] looks for in the details that were sent. *)
Lemma sent_details e :
  error_ok e →
  let details := err_details (ipc_error_from e) in
  decode_runtime_apply_failure details =
    match ae_details e with Some (DetailRuntimeApplyFailure f) => Some (DetailRuntimeApplyFailure f) | _ => None end ∧
  candidate_ids_at (lit "application_candidate_ids") details = None ∧
  decode_selector_candidates details = (λ s, (scd_selector s, scd_candidates s)) <$> ae_selector_candidates e ∧
  (ae_selector_candidates e = None →
    candidate_ids_at (lit "candidate_ids") details =
      match ae_details e with Some (DetailCandidateIds ids) => Some ids | _ => None end).
Proof.
  destruct e as [code message retryable details [s|]]; intros He; cbn [ae_details ae_selector_candidates] in *.
  - assert (err_details (ipc_error_from (MkApplicationError code message retryable details (Some s))) =
      Some (JObject (selector_details s (match details with Some d => application_details d [] | None => [] end)))) as ->.
    { unfold ipc_error_from, api_error_from. cbn. rewrite bool_decide_false; [done|]. unfold selector_details.
      intros Hnil. apply (f_equal (fields_get (lit "candidates"))) in Hnil. by rewrite get_insert, bool_decide_true in Hnil. }
    cbn [mbind option_bind fmap option_fmap option_map].
    split_and!; [|unfold candidate_ids_at, json_get; cbn [mbind option_bind json_object]; rewrite selector_get by other_name;
                  destruct details as [[]|]; cbn [application_details]; by fields|apply selector_decoded|done].
    destruct details as [[ids|f|f]|].
    + apply apply_failure_absent. rewrite selector_get by other_name. cbn [application_details]. by fields.
    + destruct He as (? & ? & ?). apply apply_failure_decoded; [done..|]. intros k Hk. apply selector_get.
      revert Hk. rewrite !elem_of_cons. intros [->|[->|[->|[->|[]%elem_of_nil]]]]; other_name.
    + apply apply_failure_absent. rewrite selector_get by other_name. cbn [application_details]. by fields.
    + apply apply_failure_absent. by rewrite selector_get by other_name.
  - destruct details as [[ids|f|f]|].
    + split_and!; [done..|]. intros _. exact (strings_decoded ids).
    + destruct He as (? & ? & ?). split_and!; [by apply apply_failure_decoded|done..].
    + done.
    + done.
Qed.

(** The client reports the error that the Supervisor raised. *)
Lemma error_delivered e : error_ok e → application_error (ipc_error_from e) = error_shown e.
Proof.
  intros He. destruct (sent_details e He) as (Hr & Ha & Hs & Hc). unfold application_error.
  assert (err_code (ipc_error_from e) = error_code_name (ae_code e)) as -> by done. rewrite error_code_parses, Hr, Ha, Hs.
  revert Hc. generalize (candidate_ids_at (lit "candidate_ids") (err_details (ipc_error_from e))). intros ids Hc.
  destruct e as [code message retryable details selector]. cbn [ae_details ae_selector_candidates] in *.
  destruct selector as [[kind candidates]|]; cbn.
  - by destruct details as [[]|].
  - rewrite (Hc eq_refl). by destruct details as [[]|].
Qed.
