(* ===== verification/IpcClient.v ===== *)
(** * IpcClient: the client of the frontend IPC and the server's answer to a request
    (src/ipc_runtime/client.rs, src/ipc_runtime/server.rs)

    The client is a program over the calls of [ClientCall] on the token and the socket, with the counter of
    request ids as its state.  [execute_once] sends one request and reads one response; the list operations read
    pages until they have the whole list.  A loop has fuel and answers [None] without it.  Of the server,
    [handle_connection] is what it does with the request of a connection.

    - [client_retry]: whatever the socket, the token and the server do, a request that may have committed is
      reported as one to retry only if nothing was sent or the server says so itself.
    - [client_lists]: whatever the server answers, a list operation ends, after a bounded number of requests, and
      the list it returns is complete, in order and of one revision. *)

From S2P Require Import Prelude Text Constants Json Domain Frame Request Application Program WireStatus WireOutput ClientError.
Local Open Scope Z_scope.

#[global] Instance SelectorIdentity_eq_dec : EqDecision SelectorIdentity.
Proof. solve_decision. Defined.
#[global] Instance ProxyGroupSummary_eq_dec : EqDecision ProxyGroupSummary.
Proof. solve_decision. Defined.

(** ** State and calls *)

Inductive IpcTimeoutPolicy :=
| Product
| Fixed (timeout : Z).

Record IpcClient := MkIpcClient {
  ic_connect_timeout : Z;
  ic_timeout_policy : IpcTimeoutPolicy;
  ic_next_request_id : Z;
}.

Definition ipc_client_new : IpcClient := MkIpcClient IPC_REQUEST_TIMEOUT Product 1.
Definition with_timeouts (connect_timeout io_timeout : Z) : IpcClient := MkIpcClient connect_timeout (Fixed io_timeout) 1.

Inductive ClientCall : Type → Type :=
| CancelIsCancelled : ClientCall bool                      (* [CancellationToken::is_cancelled] *)
| SockConnect : ClientCall (result unit ErrorKind)         (* the poll loop of [connect_cancellable] *)
| SockTryClone : ClientCall (result unit ErrorKind)        (* [UnixStream::try_clone] *)
| SockDeadline (timeout : Z) : ClientCall (result unit ErrorKind)  (* [DeadlineUnixStream::new] *)
| SockBeginWrite : ClientCall (result unit ErrorKind)
| SockWrite (request : IpcRequest) : ClientCall (result unit TransportError)  (* [write_frame] *)
| SockBeginRead : ClientCall (result unit ErrorKind)
| SockRead : ClientCall (result IpcResponse TransportError). (* [read_frame] *)

Abbreviation cprog := (tree ClientCall).
Abbreviation client := (stp ClientCall IpcClient).

(** [AtomicU64::fetch_add] wraps around; zero is never used. *)
Definition fetch_add_request_id (c : IpcClient) : Z * IpcClient :=
  (ic_next_request_id c, MkIpcClient (ic_connect_timeout c) (ic_timeout_policy c) (wrapping_add (ic_next_request_id c) 1)).
Definition request_id : client RequestId := λ c,
  let '(id, c) := fetch_add_request_id c in
  if id =? 0 then let '(id, c) := fetch_add_request_id c in Ret (MkRequestId id, c) else Ret (MkRequestId id, c).

Definition stream_timeout (c : IpcClient) : Z :=
  match ic_timeout_policy c with Product => IPC_REQUEST_TIMEOUT | Fixed timeout => timeout end.

Definition response_timeout (operation : ApplicationOperation) (c : IpcClient) : Z :=
  match ic_timeout_policy c with
  | Fixed timeout => timeout
  | Product =>
      match operation with
      | AppProfileAdd _ => IPC_PROFILE_ADD_TIMEOUT
      | AppProfileUse _ | AppProfileRemove _ | AppProxySelect _ _ | AppRuleAdd _ _ | AppRuleReplace _ _
      | AppRuleRemove _ => IPC_RUNTIME_MUTATION_TIMEOUT
      | _ => IPC_REQUEST_TIMEOUT
      end
  end.

Definition connect_cancellable (c : IpcClient) : cprog (result unit ErrorKind) :=
  if (ic_connect_timeout c =? 0) || (stream_timeout c =? 0) then Ret (Err OtherKind)
  else
    let* cancelled := (call CancelIsCancelled : cprog bool) in
    if cancelled then Ret (Err OtherKind) else call SockConnect.

(** [.map_err(|error| if cancellation.is_cancelled() { cancelled } else { f(error) })] *)
Definition unless_cancelled {A E} (p : cprog (result A E)) (cancelled : ApplicationError) (f : E → ApplicationError)
  : cprog (result A ApplicationError) :=
  let* r := p in
  match r with
  | Ok x => Ret (Ok x)
  | Err error =>
      let* is_cancelled := (call CancelIsCancelled : cprog bool) in
      Ret (Err (if is_cancelled then cancelled else f error))
  end.

Section client.
Context (uuid_parse : str → option Z) (url_parse : str → option Url) (url_as_str : Url → str).

Definition request_operation (operation : ApplicationOperation) : RequestOperation :=
  match operation with
  | AppStart => Start
  | AppStop => Stop
  | AppRestart => Restart
  | AppGetStatus => GetStatus
  | AppProfileAdd subscription_url => ProfileAdd (url_as_str subscription_url)
  | AppProfileList => ProfileListPage 0
  | AppProfileListPage offset => ProfileListPage offset
  | AppProfileUse profile => ProfileUse profile
  | AppProfileRemove profile => ProfileRemove profile
  | AppProxyList group => ProxyListPage group 0 0
  | AppProxyListPage group groups_offset nodes_offset => ProxyListPage group groups_offset nodes_offset
  | AppProxySelect group node => ProxySelect group node
  | AppLatencyList => LatencyList
  | AppLatencyShow node => LatencyShow node
  | AppRuleList => RuleListPage 0
  | AppRuleListPage offset => RuleListPage offset
  | AppRuleAdd rule placement => RuleAdd rule placement
  | AppRuleReplace old_rule new_rule => RuleReplace old_rule new_rule
  | AppRuleRemove rule => RuleRemove rule
  end.

(** What [execute_once] makes of the response. *)
Definition read_response (id : RequestId) (expected : ExpectedOutput) (response : IpcResponse)
  : result ApplicationOutput ApplicationError :=
  guard? map_err (λ _, protocol_error (lit "The IPC response did not match the request"))
           (ensure_correlated (resp_protocol_version response) (resp_request_id response) id) in
  match response_error response with
  | Some error => Err (application_error error)
  | None =>
      let? data := ok_or (response_data response) (protocol_error (lit "The IPC response outcome is incomplete")) in
      let? output := ok_or (decode_application_output uuid_parse url_parse data)
                       (protocol_error (lit "The IPC response data is invalid")) in
      if output_matches expected output then Ok output
      else Err (protocol_error (lit "The IPC response output does not match the request"))
  end.

Definition sock {A} (c : ClientCall (result A ErrorKind)) : cprog (result A ApplicationError) :=
  prog_map_err (λ _, connect_error) (call c).

Definition exchange (operation : ApplicationOperation) (id : RequestId) (c : IpcClient)
  : cprog (result ApplicationOutput ApplicationError) :=
  let may_commit := operation_may_commit operation in
  do* unless_cancelled (connect_cancellable c) (cancelled_operation false) (λ _, connect_error) in
  do* sock SockTryClone in
  do* sock (SockDeadline (response_timeout operation c)) in
  do* sock SockBeginWrite in
  do* unless_cancelled (call (SockWrite (ipc_request_new id (request_operation operation))))
        (cancelled_operation may_commit) (λ error, operation_write_error error may_commit) in
  do* unless_cancelled (call SockBeginRead) (cancelled_operation may_commit)
        (λ _, operation_read_setup_error may_commit) in
  try* response := unless_cancelled (call SockRead) (cancelled_operation may_commit)
                     (λ error, operation_read_error error may_commit) in
  Ret (read_response id (for_operation operation) response).

Definition execute_once (operation : ApplicationOperation) : client (result ApplicationOutput ApplicationError) :=
  let& cancelled := st_call CancelIsCancelled in
  if cancelled : bool then st_ret (Err (cancelled_operation false))
  else
    let& id := request_id in
    λ c, st_lift (exchange operation id c) c.

(** ** Lists *)

(** [total.checked_sub(offset).map(|remaining| remaining.min(IPC_LIST_PAGE_SIZE)) == Some(len)] *)
Definition page_len_ok (total offset len : Z) : bool :=
  (offset <=? total) && (Z.min (total - offset) IPC_LIST_PAGE_SIZE =? len).

(** [iter().enumerate().any(|(relative, rule)| rule.index != offset + relative)] is false. *)
Fixpoint indexed_from (offset : Z) (rules : list RuleSummary) : bool :=
  match rules with
  | [] => true
  | rule :: rules' => (rsum_index rule =? offset) && indexed_from (offset + 1) rules'
  end.

Definition validate_complete_rule_list (o : RuleListOutcome) : result unit ApplicationError :=
  if (LOCAL_RULE_COUNT_MAX <? zlen (rlo_rules o))
     || (negb (rlo_initialized o) && (negb (bool_decide (rlo_rules o = [])) || bool_decide (is_Some (rlo_revision o))))
     || (rlo_initialized o && bool_decide (rlo_revision o = None))
     || negb (indexed_from 0 (rlo_rules o))
  then Err (protocol_error (lit "The IPC Rule List response is invalid")) else Ok tt.

Definition validate_rule_page (p : RuleListPageOutcome) (expected_offset : Z) : result unit ApplicationError :=
  if (LOCAL_RULE_COUNT_MAX <? rlp_total p)
     || negb (rlp_offset p =? expected_offset)
     || negb (page_len_ok (rlp_total p) (rlp_offset p) (zlen (rlp_rules p)))
     || (negb (rlp_initialized p) && (negb (rlp_total p =? 0) || bool_decide (is_Some (rlp_revision p))))
     || (rlp_initialized p && bool_decide (rlp_revision p = None))
     || negb (indexed_from (rlp_offset p) (rlp_rules p))
  then Err (protocol_error (lit "The IPC Rule List page response is invalid")) else Ok tt.

Definition validate_profile_page (p : ProfileListPageOutcome) (expected_offset : Z) : result unit ApplicationError :=
  if (PROFILE_COUNT_MAX <? plp_total p)
     || negb (plp_offset p =? expected_offset)
     || negb (page_len_ok (plp_total p) (plp_offset p) (zlen (plp_profiles p)))
  then Err (protocol_error (lit "The IPC Profile List page response is invalid")) else Ok tt.

Definition validate_complete_proxy_list (o : ProxyListOutcome) : result unit ApplicationError :=
  if (MAX_ACTIVE_NODES <? zlen (plo_groups o)) || (MAX_ACTIVE_NODES <? zlen (plo_nodes o))
  then Err (protocol_error (lit "The IPC Proxy List response is invalid")) else Ok tt.

Definition validate_proxy_page (p : ProxyListPageOutcome) (expected_groups_offset expected_nodes_offset : Z)
  : result unit ApplicationError :=
  if (MAX_ACTIVE_NODES <? pxp_groups_total p)
     || (MAX_ACTIVE_NODES <? pxp_nodes_total p)
     || negb (pxp_groups_offset p =? expected_groups_offset)
     || negb (pxp_nodes_offset p =? expected_nodes_offset)
     || negb (page_len_ok (pxp_groups_total p) (pxp_groups_offset p) (zlen (pxp_groups p)))
     || negb (page_len_ok (pxp_nodes_total p) (pxp_nodes_offset p) (zlen (pxp_nodes p)))
  then Err (protocol_error (lit "The IPC Proxy List page response is invalid")) else Ok tt.

(** The first page sets the metadata, the others must repeat it. *)
Definition page_metadata {M} `{EqDecision M} (metadata : option M) (page : M) (changed : str) : result M ApplicationError :=
  match metadata with
  | None => Ok page
  | Some expected => if bool_decide (expected = page) then Ok expected else Err (protocol_error changed)
  end.

Fixpoint rule_list_loop (fuel : nat) (offset : Z) (metadata : option (bool * option Z * Z)) (rules : list RuleSummary)
  : client (option (result ApplicationOutput ApplicationError)) :=
  match fuel with
  | O => st_ret None
  | S fuel =>
      let& output := execute_once (AppRuleListPage offset) in
      match output with
      | Err error => st_ret (Some (Err error))
      | Ok (OutRulePage page) =>
          match
            (guard? validate_rule_page page offset in
             page_metadata metadata (rlp_initialized page, rlp_revision page, rlp_total page)
               (lit "The IPC Rule List changed while pages were being read"))
          with
          | Err error => st_ret (Some (Err error))
          | Ok metadata =>
              let rules := rules ++ rlp_rules page in
              if zlen rules =? rlp_total page
              then st_ret (Some (Ok (OutRules (MkRuleListOutcome (rlp_initialized page) (rlp_revision page) rules))))
              else rule_list_loop fuel (zlen rules) (Some metadata) rules
          end
      | Ok (OutRules outcome) =>
          st_ret (Some (if offset =? 0
                        then guard? validate_complete_rule_list outcome in Ok (OutRules outcome)
                        else Err (protocol_error (lit "The IPC Rule List page response is invalid"))))
      | Ok _ => st_ret (Some (Err (protocol_error (lit "The IPC Rule List page response is invalid"))))
      end
  end.

Fixpoint profile_list_loop (fuel : nat) (offset : Z) (metadata : option (Z * Z)) (profiles : list ProfileSummary)
  : client (option (result ApplicationOutput ApplicationError)) :=
  match fuel with
  | O => st_ret None
  | S fuel =>
      let& output := execute_once (AppProfileListPage offset) in
      match output with
      | Err error => st_ret (Some (Err error))
      | Ok (OutProfilePage page) =>
          match
            (guard? validate_profile_page page offset in
             page_metadata metadata (plp_snapshot_id page, plp_total page)
               (lit "The IPC Profile List changed while pages were being read"))
          with
          | Err error => st_ret (Some (Err error))
          | Ok metadata =>
              let profiles := profiles ++ plp_profiles page in
              if zlen profiles =? plp_total page then st_ret (Some (Ok (OutProfiles profiles)))
              else profile_list_loop fuel (zlen profiles) (Some metadata) profiles
          end
      | Ok (OutProfiles outcome) =>
          st_ret (Some (if offset =? 0
                        then if PROFILE_COUNT_MAX <? zlen outcome
                             then Err (protocol_error (lit "The IPC Profile List response is invalid"))
                             else Ok (OutProfiles outcome)
                        else Err (protocol_error (lit "The IPC Profile List page response is invalid"))))
      | Ok _ => st_ret (Some (Err (protocol_error (lit "The IPC Profile List page response is invalid"))))
      end
  end.

Fixpoint proxy_list_loop (fuel : nat) (group : str) (metadata : option (Z * ProxyGroupSummary * Z * Z))
    (groups : list ProxyGroupSummary) (nodes : list ProxyNodeRow)
  : client (option (result ApplicationOutput ApplicationError)) :=
  match fuel with
  | O => st_ret None
  | S fuel =>
      let& output := execute_once (AppProxyListPage group (zlen groups) (zlen nodes)) in
      match output with
      | Err error => st_ret (Some (Err error))
      | Ok (OutProxyPage page) =>
          match
            (guard? validate_proxy_page page (zlen groups) (zlen nodes) in
             page_metadata metadata (pxp_snapshot_id page, pxp_group page, pxp_groups_total page, pxp_nodes_total page)
               (lit "The IPC Proxy List changed while pages were being read"))
          with
          | Err error => st_ret (Some (Err error))
          | Ok metadata =>
              let groups := groups ++ pxp_groups page in
              let nodes := nodes ++ pxp_nodes page in
              if (zlen groups =? pxp_groups_total page) && (zlen nodes =? pxp_nodes_total page)
              then st_ret (Some (Ok (OutProxies (MkProxyListOutcome (pxp_group page) groups nodes))))
              else proxy_list_loop fuel group (Some metadata) groups nodes
          end
      | Ok (OutProxies outcome) =>
          st_ret (Some (if (zlen groups =? 0) && (zlen nodes =? 0)
                        then guard? validate_complete_proxy_list outcome in Ok (OutProxies outcome)
                        else Err (protocol_error (lit "The IPC Proxy List page response is invalid"))))
      | Ok _ => st_ret (Some (Err (protocol_error (lit "The IPC Proxy List page response is invalid"))))
      end
  end.

(** Every page but the last brings an element, so these are enough requests for each list. *)
Definition rule_requests : nat := S (Z.to_nat LOCAL_RULE_COUNT_MAX).
Definition profile_requests : nat := S (Z.to_nat PROFILE_COUNT_MAX).
Definition proxy_requests : nat := S (Z.to_nat (2 * MAX_ACTIVE_NODES)).

(** [execute] and [execute_cancellable]; a token that is never cancelled is one that answers [false]. *)
Definition execute_with_cancellation (operation : ApplicationOperation)
  : client (option (result ApplicationOutput ApplicationError)) :=
  match operation with
  | AppProfileList => profile_list_loop profile_requests 0 None []
  | AppProxyList group => proxy_list_loop proxy_requests group None [] []
  | AppRuleList => rule_list_loop rule_requests 0 None []
  | operation => let& r := execute_once operation in st_ret (Some r)
  end.

End client.

(** ** Every environment

    The world is what the client has handed to the socket and what it has got from it.  Nothing else is promised:
    any call may fail, the token may be cancelled at any time, and any response may arrive. *)

Record Traffic := MkTraffic {
  t_sent : list IpcRequest;
  t_received : list IpcResponse;
}.

Definition client_post (X : Type) (c : ClientCall X) (w : Traffic) (x : X) (w' : Traffic) : Prop :=
  match c in ClientCall X return X → Prop with
  | SockWrite request => λ _, w' = MkTraffic (t_sent w ++ [request]) (t_received w)
  | SockRead => λ x,
      w' = match x with Ok response => MkTraffic (t_sent w) (t_received w ++ [response]) | Err _ => w end
  | _ => λ _, w' = w
  end x.
Definition client_pre (X : Type) (c : ClientCall X) (w : Traffic) : Prop := True.
Abbreviation cwp := (wpc client_pre client_post).

Lemma cwp_unless_cancelled {A E} (p : cprog (result A E)) cancelled f Q w :
  cwp p (λ r w', match r with Ok x => Q (Ok x) w' | Err e => Q (Err cancelled) w' ∧ Q (Err (f e)) w' end) w →
  cwp (unless_cancelled p cancelled f) Q w.
Proof.
  intros Hp. apply wpc_bind. eapply wpc_mono; [|exact Hp]. intros [x|e] w' HQ; [done|]. destruct HQ as [H1 H2].
  split; [done|]. intros b w'' Hb. cbn in Hb. subst w''. by destruct b.
Qed.
Lemma cwp_sock {A} (c : ClientCall (result A ErrorKind)) (Q : result A ApplicationError → Traffic → Prop) w :
  (∀ x w', client_post _ c w x w' → w' = w) → (∀ x, Q (Ok x) w) → Q (Err connect_error) w → cwp (sock c) Q w.
Proof.
  intros Hw Hok Herr. apply wpc_map_err. split; [done|]. intros x w' Hx. rewrite (Hw _ _ Hx).
  destruct x; [apply Hok|apply Herr].
Qed.
Lemma cwp_connect c Q w : (∀ x, Q x w) → cwp (connect_cancellable c) Q w.
Proof.
  intros HQ. unfold connect_cancellable. destruct (_ || _); [apply HQ|]. split; [done|]. intros b w' Hb. cbn in Hb. subst w'.
  destruct b; [apply HQ|]. split; [done|]. intros x w' Hx. cbn in Hx. subst w'. apply HQ.
Qed.

Lemma application_error_retryable e : ae_retryable (application_error e) = true → err_retryable e = true.
Proof.
  unfold application_error. destruct (parse_error_code _) as [code|]; [|done]. intros H.
  repeat (case_match; simpl in H; try done).
Qed.

Section every_environment.
Context (uuid_parse : str → option Z) (url_parse : str → option Url) (url_as_str : Url → str).
Abbreviation once := (execute_once uuid_parse url_parse url_as_str).
Abbreviation run := (execute_with_cancellation uuid_parse url_parse url_as_str).
Abbreviation response_output := (read_response uuid_parse url_parse).

(** An error that tells the user to try again, from a server that says so. *)
Definition server_says_retry (response : IpcResponse) : Prop :=
  ∃ e, response_error response = Some e ∧ err_retryable e = true.

(** One request: it is sent at most once; an output is what the response to it holds; an error to retry on means
    that the operation changes nothing, or that nothing was sent, or that the server says so. *)
Definition once_spec (operation : ApplicationOperation) (w : Traffic) (r : result ApplicationOutput ApplicationError)
    (w' : Traffic) : Prop :=
  (w' = w ∧ is_ok r = false) ∨
  ∃ id received,
    w' = MkTraffic (t_sent w ++ [ipc_request_new id (request_operation url_as_str operation)]) (t_received w ++ received) ∧
    match r with
    | Ok output => ∃ response, received = [response] ∧ response_output id (for_operation operation) response = Ok output
    | Err e => ae_retryable e = true → operation_may_commit operation = true →
        ∃ response, received = [response] ∧ server_says_retry response
    end.

Lemma read_response_retry id expected response e :
  response_output id expected response = Err e → ae_retryable e = true → server_says_retry response.
Proof.
  unfold read_response. intros H. destruct (ensure_correlated _ _ _); cbn in H; [|by simplify_eq].
  destruct (response_error response) as [error|] eqn:Herr.
  - simplify_eq. intros Hr. exists error. by eauto using application_error_retryable.
  - intros Hr. exfalso. repeat (invert_result; try case_match; simplify_eq/=; try done).
Qed.

Lemma exchange_spec operation id c w :
  cwp (exchange uuid_parse url_parse url_as_str operation id c) (once_spec operation w) w.
Proof.
  unfold exchange.
  assert (∀ e, once_spec operation w (Err e) w) as Hbefore by (intros e; left; done).
  set (sent := MkTraffic (t_sent w ++ [ipc_request_new id (request_operation url_as_str operation)]) (t_received w)).
  assert (∀ e, (operation_may_commit operation = true → ae_retryable e = false) → once_spec operation w (Err e) sent) as Hafter.
  { intros e He. right. exists id, []. rewrite app_nil_r. split; [done|]. intros Hr Hc. by rewrite He in Hr. }
  assert (∀ e, ae_retryable (cancelled_operation e) = negb e) as Hcancel by (by intros []).
  apply wpc_try, cwp_unless_cancelled, cwp_connect. intros [[]|e]; [|by split].
  apply wpc_try, cwp_sock; [by intros|intros []|apply Hbefore].
  apply wpc_try, cwp_sock; [by intros|intros []|apply Hbefore].
  apply wpc_try, cwp_sock; [by intros|intros []|apply Hbefore].
  apply wpc_try, cwp_unless_cancelled, wpc_call; [done|]. intros x w' Hx. cbn in Hx. fold sent in Hx. subst w'.
  destruct x as [[]|e].
  2: { split; apply Hafter; intros Hc; [by rewrite Hcancel, Hc|]. unfold operation_write_error. rewrite Hc. by destruct e. }
  apply wpc_try, cwp_unless_cancelled, wpc_call; [done|]. intros x w' Hx. cbn in Hx. subst w'.
  destruct x as [[]|e].
  2: { split; apply Hafter; intros Hc; [by rewrite Hcancel, Hc|]. unfold operation_read_setup_error. by rewrite Hc. }
  apply wpc_try, cwp_unless_cancelled, wpc_call; [done|]. intros x w' Hx. cbn in Hx. subst w'.
  destruct x as [response|e].
  - right. exists id, [response]. split; [done|].
    destruct (response_output id (for_operation operation) response) as [output|e] eqn:He; [by eauto|].
    intros Hr _. eauto using read_response_retry.
  - split; apply Hafter; intros Hc; [by rewrite Hcancel, Hc|]. unfold operation_read_error. rewrite Hc.
    by destruct e as [[]| |].
Qed.

Lemma once_sound operation c w : cwp (once operation c) (λ r, once_spec operation w r.1) w.
Proof.
  unfold execute_once. apply wpc_st_bind, wpc_st_call; [done|]. intros b w' Hb. cbn in Hb. subst w'. cbn [fst snd].
  destruct b; [by left|]. apply wpc_st_bind. unfold request_id. cbn [fetch_add_request_id].
  assert (∀ id c, cwp (st_lift (exchange uuid_parse url_parse url_as_str operation id c) c) (λ r, once_spec operation w r.1) w)
    as Hex by (intros id c'; apply wpc_st_lift, exchange_spec).
  case_match; apply Hex.
Qed.

(** ** Lists

    What a list operation has read: a complete list in one response, or pages that it put together. *)

(** The response holds the output. *)
Definition holds (response : IpcResponse) (output : ApplicationOutput) : Prop :=
  ∃ data, response_data response = Some data ∧ decode_application_output uuid_parse url_parse data = Some output.

Definition list_spec {P} (page : P → ApplicationOutput) (complete : ApplicationOutput → Prop)
    (assembled : list P → ApplicationOutput → Prop) (requests : nat) (w : Traffic)
    (r : option (result ApplicationOutput ApplicationError)) (w' : Traffic) : Prop :=
  ∃ r', r = Some r' ∧ (length (t_sent w') ≤ length (t_sent w) + requests)%nat ∧
    ∀ output, r' = Ok output → ∃ received, t_received w' = t_received w ++ received ∧
      ((∃ response, received = [response] ∧ holds response output ∧ complete output) ∨
       (∃ pages, Forall2 holds received (page <$> pages) ∧ assembled pages output)).

Lemma once_received operation w output w' :
  once_spec operation w (Ok output) w' →
  ∃ response, holds response output ∧ length (t_sent w') = S (length (t_sent w)) ∧ t_received w' = t_received w ++ [response].
Proof.
  intros [[_ ?]|(id & received & -> & response & -> & Hr)]; [done|]. exists response. cbn [t_sent t_received].
  split_and!; [|by rewrite length_app, Nat.add_comm|done]. unfold read_response in Hr.
  destruct (ensure_correlated _ _ _); cbn in Hr; [|done]. destruct (response_error response); [done|].
  destruct (response_data response) as [data|] eqn:Hd; cbn in Hr; [|done].
  destruct (decode_application_output _ _ data) as [o|] eqn:Ho; cbn in Hr; [|done].
  case_match; simplify_eq. exists data. done.
Qed.

Section list_spec.
Context {P : Type} (page : P → ApplicationOutput) (complete : ApplicationOutput → Prop).

Lemma list_error (assembled : list P → _) n operation w r w' e :
  once_spec operation w r w' → list_spec page complete assembled (S n) w (Some (Err e)) w'.
Proof.
  intros Hr. exists (Err e). split_and!; [done| |done].
  destruct Hr as [[-> _]|(id & received & -> & _)]; cbn [t_sent]; [lia|]. rewrite length_app. simpl. lia.
Qed.
Lemma list_complete (assembled : list P → _) n operation w output w' :
  once_spec operation w (Ok output) w' → complete output → list_spec page complete assembled (S n) w (Some (Ok output)) w'.
Proof.
  intros (response & Hh & Hs & Hr)%once_received Hc. exists (Ok output). split_and!; [done|lia|].
  intros ? [= <-]. exists [response]. split; [done|]. left. by eauto.
Qed.
Lemma list_last (assembled : list P → _) n operation w p output w' :
  once_spec operation w (Ok (page p)) w' → assembled [p] output → list_spec page complete assembled (S n) w (Some (Ok output)) w'.
Proof.
  intros (response & Hh & Hs & Hr)%once_received Hc. exists (Ok output). split_and!; [done|lia|].
  intros ? [= <-]. exists [response]. split; [done|]. right. exists [p]. split; [by repeat constructor|done].
Qed.
(** A page, and then the rest; the rest is not a complete list. *)
Lemma list_more (assembled assembled' : list P → _) n operation w p w1 r w' :
  once_spec operation w (Ok (page p)) w1 → list_spec page (λ _, False) assembled' n w1 r w' →
  (∀ pages output, assembled' pages output → assembled (p :: pages) output) →
  list_spec page complete assembled (S n) w r w'.
Proof.
  intros (response & Hh & Hs & Hr)%once_received (r' & -> & Hn & Hout) Ha. exists r'. split_and!; [done|lia|].
  intros output Ho. destruct (Hout output Ho) as (received & Hw & [(? & _ & _ & [])|(pages & Hp & Hpages)]).
  exists (response :: received). split; [by rewrite Hw, Hr, <-(assoc_L (++))|]. right. exists (p :: pages).
  split; [by constructor|]. by apply Ha.
Qed.
End list_spec.

Lemma page_len_inv total offset len :
  page_len_ok total offset len = true → offset + len ≤ total ∧ (offset + len = total ∨ 1 ≤ len).
Proof.
  unfold page_len_ok, IPC_LIST_PAGE_SIZE. rewrite andb_true_iff, Z.leb_le, Z.eqb_eq. lia.
Qed.

Lemma indexed_app offset l k :
  indexed_from offset (l ++ k) = indexed_from offset l && indexed_from (offset + zlen l) k.
Proof.
  revert offset; induction l as [|x l IH]; intros offset; simpl; [unfold zlen; simpl; by rewrite Z.add_0_r|].
  rewrite IH, andb_assoc. replace (offset + 1 + zlen l) with (offset + zlen (x :: l)) by (unfold zlen; simpl; lia). done.
Qed.

(** Pages of one state of the rules, in order. *)
Definition rule_metadata (p : RuleListPageOutcome) : bool * option Z * Z := (rlp_initialized p, rlp_revision p, rlp_total p).
Definition rules_metadata (o : RuleListOutcome) : bool * option Z * Z := (rlo_initialized o, rlo_revision o, zlen (rlo_rules o)).
Definition rules_assembled (rules : list RuleSummary) (metadata : option (bool * option Z * Z))
    (pages : list RuleListPageOutcome) (output : ApplicationOutput) : Prop :=
  ∃ outcome, output = OutRules outcome ∧ validate_complete_rule_list outcome = Ok tt ∧
    rlo_rules outcome = rules ++ concat (rlp_rules <$> pages) ∧
    Forall (λ p, rule_metadata p = rules_metadata outcome) pages ∧
    from_option (λ m, m = rules_metadata outcome) True metadata.
Definition rules_complete (output : ApplicationOutput) : Prop :=
  ∃ outcome, output = OutRules outcome ∧ validate_complete_rule_list outcome = Ok tt.

Lemma rule_page_inv p offset :
  validate_rule_page p offset = Ok tt →
  rlp_total p ≤ LOCAL_RULE_COUNT_MAX ∧ rlp_offset p = offset ∧ indexed_from offset (rlp_rules p) = true ∧
  offset + zlen (rlp_rules p) ≤ rlp_total p ∧ (offset + zlen (rlp_rules p) = rlp_total p ∨ 1 ≤ zlen (rlp_rules p)) ∧
  (rlp_initialized p = false → rlp_total p = 0 ∧ rlp_revision p = None) ∧
  (rlp_initialized p = true → is_Some (rlp_revision p)).
Proof.
  unfold validate_rule_page. destruct (_ || _) eqn:H; [done|]. intros _.
  rewrite !orb_false_iff in H. destruct H as [[[[[Ht Ho] Hl] Hn] Hi] Hx].
  apply Z.ltb_ge in Ht. apply negb_false_iff, Z.eqb_eq in Ho. apply negb_false_iff, page_len_inv in Hl. apply negb_false_iff in Hx.
  rewrite Ho in *. split_and!; [done..|tauto|tauto| |].
  - intros Hf. rewrite Hf in Hn. cbn in Hn. apply orb_false_iff in Hn as [Hz%negb_false_iff%Z.eqb_eq Hr].
    split; [done|]. apply bool_decide_eq_false in Hr. destruct (rlp_revision p); [exfalso; eauto|done].
  - intros Hf. rewrite Hf in Hi. cbn in Hi. apply bool_decide_eq_false in Hi. by destruct (rlp_revision p); [eauto|].
Qed.

Lemma rules_are_complete o :
  zlen (rlo_rules o) ≤ LOCAL_RULE_COUNT_MAX → indexed_from 0 (rlo_rules o) = true →
  (rlo_initialized o = false → zlen (rlo_rules o) = 0 ∧ rlo_revision o = None) →
  (rlo_initialized o = true → is_Some (rlo_revision o)) → validate_complete_rule_list o = Ok tt.
Proof.
  intros Hl Hx Hn Hi. unfold validate_complete_rule_list. rewrite (proj2 (Z.ltb_ge _ _)), Hx by done.
  destruct (rlo_initialized o).
  - by destruct (Hi eq_refl) as [r ->].
  - destruct (Hn eq_refl) as [Hz ->]. destruct (rlo_rules o); [done|]. unfold zlen in Hz. simpl in Hz. lia.
Qed.

Lemma page_metadata_inv {M} `{EqDecision M} (metadata : option M) m changed m' :
  page_metadata metadata m changed = Ok m' → m' = m ∧ from_option (λ e, e = m) True metadata.
Proof. unfold page_metadata. destruct metadata as [e|]; [|intros; by simplify_eq]. case_bool_decide; intros; simplify_eq. done. Qed.

(** The loop ends with an error. *)
Ltac refuse Ho := exact (list_error _ _ _ _ _ _ _ _ _ Ho).

(** After the first page a complete list is no answer any more. *)
Lemma list_continues {P} (page : P → ApplicationOutput) (complete : ApplicationOutput → Prop) assembled n w r w' :
  (∀ o, ¬ complete o) → list_spec page complete assembled n w r w' → list_spec page (λ _, False) assembled n w r w'.
Proof.
  intros Hno (r' & He & Hs & Hr). exists r'. split_and!; [done..|]. intros o Hok.
  destruct (Hr o Hok) as (received & Hw & [(? & _ & _ & Hc)|Hp]); [by destruct (Hno o)|by eauto].
Qed.

Lemma zlen_nil {A} (l : list A) : zlen l = 0 → l = [].
Proof. destruct l; [done|]. unfold zlen. simpl. lia. Qed.

Lemma rule_loop_sound fuel rules metadata c w :
  indexed_from 0 rules = true → zlen rules ≤ LOCAL_RULE_COUNT_MAX → LOCAL_RULE_COUNT_MAX - zlen rules < Z.of_nat fuel →
  cwp (rule_list_loop uuid_parse url_parse url_as_str fuel (zlen rules) metadata rules c)
    (λ r, list_spec OutRulePage (λ o, rules = [] ∧ rules_complete o) (rules_assembled rules metadata) fuel w r.1) w.
Proof.
  revert rules metadata c w; induction fuel as [|fuel IH]; intros rules metadata c w Hx Hmax Hfuel; [lia|].
  cbn [rule_list_loop]. apply wpc_st_bind. eapply wpc_mono; [|apply once_sound]. intros [[output|e] c1] w1 Ho; cbn [fst snd] in *.
  2: refuse Ho.
  destruct output; try (refuse Ho).
  - destruct (Z.eqb_spec (zlen rules) 0) as [Hz|Hz]; [|refuse Ho].
    destruct (validate_complete_rule_list outcome) as [[]|e] eqn:Hv; [|refuse Ho].
    apply wpc_st_ret, (list_complete _ _ _ _ _ _ _ _ Ho). split; [by apply zlen_nil|by eexists].
  - destruct (validate_rule_page page (zlen rules)) as [[]|e] eqn:Hv; cbn [result_bind];
      [|refuse Ho].
    apply rule_page_inv in Hv as (Htotal & Hoff & Hpx & Hle & Hlen & Hn & Hi).
    destruct (page_metadata _ _ _) as [m|e] eqn:Hm; [|refuse Ho].
    apply page_metadata_inv in Hm as [-> Hm].
    assert (indexed_from 0 (rules ++ rlp_rules page) = true) as Hall by (by rewrite indexed_app, Hx, Z.add_0_l, Hpx).
    rewrite zlen_app. destruct (Z.eqb_spec (zlen rules + zlen (rlp_rules page)) (rlp_total page)) as [Heq|Hneq].
    + apply wpc_st_ret, (list_last _ _ _ _ _ _ _ _ _ Ho). eexists. split; [done|]. cbn [rlo_rules].
      rewrite rules_are_complete; cbn [rlo_rules rlo_initialized rlo_revision]; rewrite ?zlen_app, ?Heq; try done.
      cbn [fmap list_fmap concat]. rewrite app_nil_r. unfold rules_metadata. cbn [rlo_rules rlo_initialized rlo_revision].
      rewrite zlen_app, Heq. split_and!; [done..|by repeat constructor|done].
    + rewrite <-zlen_app. eapply wpc_mono; [|apply IH]; [|done|rewrite zlen_app; lia..].
      intros r w' Hr. refine (list_more _ _ _ (λ pages o, rules_assembled (rules ++ rlp_rules page) (Some (rule_metadata page)) pages o) _ _ _ _ _ _ _ Ho _ _).
      * refine (list_continues _ _ _ _ _ _ _ _ Hr). intros o [Hnil _]. apply (f_equal zlen) in Hnil.
        rewrite zlen_app in Hnil. change (zlen []) with 0 in Hnil. pose proof (zlen_nonneg rules). lia.
      * intros pages o (outcome & -> & Hc & Hrs & Hps & Hmeta). exists outcome. simpl in Hmeta.
        split_and!; [done..|by rewrite Hrs, <-(assoc_L (++))|by constructor|].
        destruct metadata; simpl in *; [|done]. by rewrite Hm.
Qed.

(** Profiles *)
Definition profile_metadata (p : ProfileListPageOutcome) : Z * Z := (plp_snapshot_id p, plp_total p).
Definition profiles_complete (output : ApplicationOutput) : Prop :=
  ∃ outcome, output = OutProfiles outcome ∧ zlen outcome ≤ PROFILE_COUNT_MAX.
Definition profiles_assembled (profiles : list ProfileSummary) (metadata : option (Z * Z))
    (pages : list ProfileListPageOutcome) (output : ApplicationOutput) : Prop :=
  ∃ outcome snapshot, output = OutProfiles outcome ∧ zlen outcome ≤ PROFILE_COUNT_MAX ∧
    outcome = profiles ++ concat (plp_profiles <$> pages) ∧
    Forall (λ p, profile_metadata p = (snapshot, zlen outcome)) pages ∧
    from_option (λ m, m = (snapshot, zlen outcome)) True metadata.

Lemma profile_page_inv p offset :
  validate_profile_page p offset = Ok tt →
  plp_total p ≤ PROFILE_COUNT_MAX ∧
  offset + zlen (plp_profiles p) ≤ plp_total p ∧ (offset + zlen (plp_profiles p) = plp_total p ∨ 1 ≤ zlen (plp_profiles p)).
Proof.
  unfold validate_profile_page. destruct (_ || _) eqn:H; [done|]. intros _.
  rewrite !orb_false_iff in H. destruct H as [[Ht Ho] Hl].
  apply Z.ltb_ge in Ht. apply negb_false_iff, Z.eqb_eq in Ho. apply negb_false_iff, page_len_inv in Hl.
  rewrite Ho in *. split_and!; tauto.
Qed.

Lemma profile_loop_sound fuel profiles metadata c w :
  zlen profiles ≤ PROFILE_COUNT_MAX → PROFILE_COUNT_MAX - zlen profiles < Z.of_nat fuel →
  cwp (profile_list_loop uuid_parse url_parse url_as_str fuel (zlen profiles) metadata profiles c)
    (λ r, list_spec OutProfilePage (λ o, profiles = [] ∧ profiles_complete o) (profiles_assembled profiles metadata) fuel w r.1) w.
Proof.
  revert profiles metadata c w; induction fuel as [|fuel IH]; intros profiles metadata c w Hmax Hfuel; [lia|].
  cbn [profile_list_loop]. apply wpc_st_bind. eapply wpc_mono; [|apply once_sound].
  intros [[output|e] c1] w1 Ho; cbn [fst snd] in *; [|refuse Ho]. destruct output; try (refuse Ho).
  - destruct (Z.eqb_spec (zlen profiles) 0) as [Hz|Hz]; [|refuse Ho].
    destruct (Z.ltb_spec PROFILE_COUNT_MAX (zlen profiles0)); [refuse Ho|].
    apply wpc_st_ret, (list_complete _ _ _ _ _ _ _ _ Ho). split; [by apply zlen_nil|by eexists].
  - destruct (validate_profile_page page (zlen profiles)) as [[]|e] eqn:Hv; cbn [result_bind]; [|refuse Ho].
    apply profile_page_inv in Hv as (Htotal & Hle & Hlen).
    destruct (page_metadata _ _ _) as [m|e] eqn:Hm; [|refuse Ho]. apply page_metadata_inv in Hm as [-> Hm].
    rewrite zlen_app. destruct (Z.eqb_spec (zlen profiles + zlen (plp_profiles page)) (plp_total page)) as [Heq|Hneq].
    + apply wpc_st_ret, (list_last _ _ _ _ _ _ _ _ _ Ho). exists (profiles ++ plp_profiles page), (plp_snapshot_id page).
      cbn [fmap list_fmap concat]. rewrite app_nil_r, zlen_app, Heq. by split_and!; [| | |repeat constructor|].
    + rewrite <-zlen_app. eapply wpc_mono; [|apply IH]; [|rewrite zlen_app; lia..].
      intros r w' Hr. refine (list_more _ _ _ (profiles_assembled (profiles ++ plp_profiles page) (Some (profile_metadata page)))
                                _ _ _ _ _ _ _ Ho _ _).
      * refine (list_continues _ _ _ _ _ _ _ _ Hr). intros o [Hnil _]. apply (f_equal zlen) in Hnil.
        rewrite zlen_app in Hnil. change (zlen []) with 0 in Hnil. pose proof (zlen_nonneg profiles). lia.
      * intros pages o (outcome & snapshot & -> & Hc & Hrs & Hps & Hmeta). exists outcome, snapshot. simpl in Hmeta.
        split_and!; [done..|by rewrite Hrs, <-(assoc_L (++))|by constructor|].
        destruct metadata; simpl in *; [|done]. by rewrite Hm.
Qed.

(** Proxies *)
Definition proxy_metadata (p : ProxyListPageOutcome) : Z * ProxyGroupSummary * Z * Z :=
  (pxp_snapshot_id p, pxp_group p, pxp_groups_total p, pxp_nodes_total p).
Definition proxies_metadata (snapshot : Z) (o : ProxyListOutcome) : Z * ProxyGroupSummary * Z * Z :=
  (snapshot, plo_group o, zlen (plo_groups o), zlen (plo_nodes o)).
Definition proxies_complete (output : ApplicationOutput) : Prop :=
  ∃ outcome, output = OutProxies outcome ∧ validate_complete_proxy_list outcome = Ok tt.
Definition proxies_assembled (groups : list ProxyGroupSummary) (nodes : list ProxyNodeRow)
    (metadata : option (Z * ProxyGroupSummary * Z * Z)) (pages : list ProxyListPageOutcome) (output : ApplicationOutput) : Prop :=
  ∃ outcome snapshot, output = OutProxies outcome ∧ validate_complete_proxy_list outcome = Ok tt ∧
    plo_groups outcome = groups ++ concat (pxp_groups <$> pages) ∧
    plo_nodes outcome = nodes ++ concat (pxp_nodes <$> pages) ∧
    Forall (λ p, proxy_metadata p = proxies_metadata snapshot outcome) pages ∧
    from_option (λ m, m = proxies_metadata snapshot outcome) True metadata.

Lemma proxy_page_inv p groups_offset nodes_offset :
  validate_proxy_page p groups_offset nodes_offset = Ok tt →
  pxp_groups_total p ≤ MAX_ACTIVE_NODES ∧ pxp_nodes_total p ≤ MAX_ACTIVE_NODES ∧
  (groups_offset + zlen (pxp_groups p) ≤ pxp_groups_total p ∧
   (groups_offset + zlen (pxp_groups p) = pxp_groups_total p ∨ 1 ≤ zlen (pxp_groups p))) ∧
  (nodes_offset + zlen (pxp_nodes p) ≤ pxp_nodes_total p ∧
   (nodes_offset + zlen (pxp_nodes p) = pxp_nodes_total p ∨ 1 ≤ zlen (pxp_nodes p))).
Proof.
  unfold validate_proxy_page. destruct (_ || _) eqn:H; [done|]. intros _.
  rewrite !orb_false_iff in H. destruct H as [[[[[Hg Hn] Hgo] Hno] Hgl] Hnl].
  apply Z.ltb_ge in Hg, Hn. apply negb_false_iff, Z.eqb_eq in Hgo, Hno. apply negb_false_iff, page_len_inv in Hgl, Hnl.
  rewrite Hgo, Hno in *. done.
Qed.

Lemma proxies_are_complete o :
  zlen (plo_groups o) ≤ MAX_ACTIVE_NODES → zlen (plo_nodes o) ≤ MAX_ACTIVE_NODES → validate_complete_proxy_list o = Ok tt.
Proof. intros Hg Hn. unfold validate_complete_proxy_list. by rewrite !(proj2 (Z.ltb_ge _ _)). Qed.

Lemma proxy_loop_sound fuel group metadata groups nodes c w :
  zlen groups ≤ MAX_ACTIVE_NODES → zlen nodes ≤ MAX_ACTIVE_NODES →
  2 * MAX_ACTIVE_NODES - (zlen groups + zlen nodes) < Z.of_nat fuel →
  cwp (proxy_list_loop uuid_parse url_parse url_as_str fuel group metadata groups nodes c)
    (λ r, list_spec OutProxyPage (λ o, (groups = [] ∧ nodes = []) ∧ proxies_complete o)
            (proxies_assembled groups nodes metadata) fuel w r.1) w.
Proof.
  revert metadata groups nodes c w; induction fuel as [|fuel IH]; intros metadata groups nodes c w Hg Hn Hfuel; [lia|].
  cbn [proxy_list_loop]. apply wpc_st_bind. eapply wpc_mono; [|apply once_sound].
  intros [[output|e] c1] w1 Ho; cbn [fst snd] in *; [|refuse Ho]. destruct output; try (refuse Ho).
  - destruct (Z.eqb_spec (zlen groups) 0) as [Hgz|_]; [|refuse Ho].
    destruct (Z.eqb_spec (zlen nodes) 0) as [Hnz|_]; [|refuse Ho]. cbn [andb].
    destruct (validate_complete_proxy_list outcome) as [[]|e] eqn:Hv; [|refuse Ho].
    apply wpc_st_ret, (list_complete _ _ _ _ _ _ _ _ Ho). split; [by split; apply zlen_nil|by eexists].
  - destruct (validate_proxy_page page (zlen groups) (zlen nodes)) as [[]|e] eqn:Hv; cbn [result_bind]; [|refuse Ho].
    apply proxy_page_inv in Hv as (Hgt & Hnt & [Hgle Hgl] & [Hnle Hnl]).
    destruct (page_metadata _ _ _) as [m|e] eqn:Hm; [|refuse Ho]. apply page_metadata_inv in Hm as [-> Hm].
    destruct ((zlen (groups ++ pxp_groups page) =? pxp_groups_total page) &&
              (zlen (nodes ++ pxp_nodes page) =? pxp_nodes_total page)) eqn:Hend.
    + apply andb_true_iff in Hend as [Hge%Z.eqb_eq Hne%Z.eqb_eq].
      apply wpc_st_ret, (list_last _ _ _ _ _ _ _ _ _ Ho). eexists _, (pxp_snapshot_id page). split; [done|].
      rewrite proxies_are_complete; cbn [plo_groups plo_nodes]; [|lia..].
      cbn [fmap list_fmap concat]. rewrite !app_nil_r. unfold proxies_metadata. cbn [plo_groups plo_nodes plo_group].
      rewrite Hge, Hne. by split_and!; [| | |repeat constructor|].
    + apply andb_false_iff in Hend as Hend'. rewrite !Z.eqb_neq in Hend'. rewrite !zlen_app in Hend'.
      pose proof (zlen_nonneg (pxp_groups page)). pose proof (zlen_nonneg (pxp_nodes page)).
      eapply wpc_mono; [|apply IH]; [|rewrite !zlen_app; lia..].
      intros r w' Hr. refine (list_more _ _ _ (proxies_assembled (groups ++ pxp_groups page) (nodes ++ pxp_nodes page)
                                (Some (proxy_metadata page))) _ _ _ _ _ _ _ Ho _ _).
      * refine (list_continues _ _ _ _ _ _ _ _ Hr). intros o [[Hgn Hnn] _]. apply (f_equal zlen) in Hgn, Hnn.
        rewrite zlen_app in Hgn. rewrite zlen_app in Hnn. change (zlen []) with 0 in *.
        pose proof (zlen_nonneg groups). pose proof (zlen_nonneg nodes). lia.
      * intros pages o (outcome & snapshot & -> & Hc & Hgs & Hns & Hps & Hmeta). exists outcome, snapshot. simpl in Hmeta.
        split_and!; [done..|by rewrite Hgs, <-(assoc_L (++))|by rewrite Hns, <-(assoc_L (++))|by constructor|].
        destruct metadata; simpl in *; [|done]. by rewrite Hm.
Qed.

(** ** Properties *)

Abbreviation no_traffic := (MkTraffic [] []).

Lemma run_once operation c w :
  operation_may_commit operation = true →
  cwp (run operation c) (λ r w', ∃ r', r.1 = Some r' ∧ once_spec operation w r' w') w.
Proof.
  intros Hc. assert (run operation = let& r := once operation in st_ret (Some r)) as -> by (by destruct operation).
  apply wpc_st_bind. eapply wpc_mono; [|apply once_sound]. intros [r c'] w' Hr. apply wpc_st_ret. eauto.
Qed.

(** C18: Whatever the socket, the cancellation token and the server do, an operation that may commit is sent at most
    once.  If the client reports an output, it sent the operation and that output is what the response with the
    number of the request holds.  If it reports an error on which the user may retry, nothing was handed to the
    socket, or the server answered the one request with an error on which to retry: an operation whose outcome is
    unknown is never reported as one to repeat. *)
Theorem client_retry operation c r c' w' :
  operation_may_commit operation = true →
  cruns client_post (run operation c) no_traffic (r, c') w' →
  (length (t_sent w') ≤ 1)%nat ∧
  ∃ r', r = Some r' ∧
    match r' with
    | Ok output => ∃ id response,
        w' = MkTraffic [ipc_request_new id (request_operation url_as_str operation)] [response] ∧
        response_output id (for_operation operation) response = Ok output
    | Err e => ae_retryable e = true →
        t_sent w' = [] ∨ ∃ response, t_received w' = [response] ∧ server_says_retry response
    end.
Proof.
  intros Hc Hr. destruct (wpc_sound _ _ _ _ _ _ _ (run_once operation c no_traffic Hc) Hr) as (r' & He & Hs). cbn in He.
  destruct Hs as [[-> Hf]|(id & received & -> & Hs)]; cbn [t_sent t_received app] in *.
  - split; [simpl; lia|]. exists r'. split; [done|]. destruct r'; [done|]. by left.
  - split; [simpl; lia|]. exists r'. split; [done|]. destruct r' as [output|e].
    + destruct Hs as (response & -> & Hs). eauto.
    + intros Hretry. right. destruct (Hs Hretry Hc) as (response & -> & Hs'). eauto.
Qed.

(** C19: Whatever the server answers, a list operation of the client ends, after at most one request more than there
    may be elements (for proxies: groups and nodes).  The list it returns was sent whole in the first response and
    is well formed, or it is what the pages of all responses hold, one after the other; then every page names the
    same revision (for profiles and proxies: the same snapshot) and the length of that list, the list is within its
    limit, and the indices of rules count from zero without a gap. *)
Theorem client_lists operation c r c' w' :
  cruns client_post (run operation c) no_traffic (r, c') w' →
  match operation with
  | AppRuleList => list_spec OutRulePage rules_complete (rules_assembled [] None) rule_requests no_traffic r w'
  | AppProfileList =>
      list_spec OutProfilePage profiles_complete (profiles_assembled [] None) profile_requests no_traffic r w'
  | AppProxyList _ =>
      list_spec OutProxyPage proxies_complete (proxies_assembled [] [] None) proxy_requests no_traffic r w'
  | _ => is_Some r ∧ (length (t_sent w') ≤ 1)%nat
  end.
Proof.
  intros Hr.
  assert (∀ A (page : A → _) (K complete : ApplicationOutput → Prop) assembled n, (∀ o, K o → complete o) →
    list_spec page K assembled n no_traffic r w' → list_spec page complete assembled n no_traffic r w') as Hmono.
  { intros A page K complete assembled n HK (r' & He & Hs & Ho). exists r'. split_and!; [done..|]. intros o Hok.
    destruct (Ho o Hok) as (received & Hw & [(response & ? & ? & ?)|Hp]); eauto 10. }
  assert (run operation = (let& r := once operation in st_ret (Some r)) → is_Some r ∧ (length (t_sent w') ≤ 1)%nat) as Hother.
  { intros He. rewrite He in Hr. refine (wpc_sound _ _ _ (λ r w, is_Some r.1 ∧ (length (t_sent w) ≤ 1)%nat) _ _ _ _ Hr).
    apply wpc_st_bind. eapply wpc_mono; [|apply once_sound].
    intros [r1 c1] w1 [[-> _]|(id & received & -> & _)]; apply wpc_st_ret; split; eauto; simpl; lia. }
  destruct operation; try (by apply Hother).
  - refine (Hmono _ _ (λ o, [] = [] ∧ profiles_complete o) _ _ _ ltac:(naive_solver) _).
    refine (wpc_sound _ _ _ (λ r, list_spec _ _ _ _ _ r.1) _ (r, c') _ _ Hr). apply (profile_loop_sound profile_requests []); by vm_compute.
  - refine (Hmono _ _ (λ o, ([] = [] ∧ [] = []) ∧ proxies_complete o) _ _ _ ltac:(naive_solver) _).
    refine (wpc_sound _ _ _ (λ r, list_spec _ _ _ _ _ r.1) _ (r, c') _ _ Hr). apply (proxy_loop_sound proxy_requests group None [] []); by vm_compute.
  - refine (Hmono _ _ (λ o, [] = [] ∧ rules_complete o) _ _ _ ltac:(naive_solver) _).
    refine (wpc_sound _ _ _ (λ r, list_spec _ _ _ _ _ r.1) _ (r, c') _ _ Hr). apply (rule_loop_sound rule_requests []); by vm_compute.
Qed.
End every_environment.

(** ** Environments that run

    [handler]s answer the calls of the client in a world of their own. *)

Definition handler (W : Type) : Type := ∀ X, ClientCall X → W → X * W.
Fixpoint serve {W A} (h : handler W) (p : cprog A) (w : W) : A * W :=
  match p with
  | Ret a => (a, w)
  | Vis c k => let r := h _ c w in serve h (k r.1) r.2
  end.

Lemma serve_runs {A} (h : handler Traffic) (p : cprog A) w :
  (∀ X c w, client_post X c w (h X c w).1 (h X c w).2) → cruns client_post p w (serve h p w).1 (serve h p w).2.
Proof. intros Hh. revert w; induction p as [a|X c k IH]; intros w; cbn; [done|]. eexists _, _. split; [apply Hh|apply IH]. Qed.

(** A connection that works, to a server that answers every request by itself. *)
Definition scripted (respond : IpcRequest → IpcResponse) : handler Traffic := λ X c w,
  match c in ClientCall X return X * Traffic with
  | CancelIsCancelled => (false, w)
  | SockConnect | SockTryClone | SockDeadline _ | SockBeginWrite | SockBeginRead => (Ok tt, w)
  | SockWrite request => (Ok tt, MkTraffic (t_sent w ++ [request]) (t_received w))
  | SockRead =>
      match last (t_sent w) with
      | Some request => (Ok (respond request), MkTraffic (t_sent w) (t_received w ++ [respond request]))
      | None => (Err (TransportIo UnexpectedEof), w)
      end
  end.
Lemma scripted_ok respond X c w : client_post X c w (scripted respond X c w).1 (scripted respond X c w).2.
Proof. destruct c; try done. cbn. by destruct (last (t_sent w)). Qed.

Definition sample_url_as_str (u : Url) : str := lit "https://h.example/sub".
Definition busy_server (request : IpcRequest) : IpcResponse :=
  response_failure (req_request_id request) (ipc_error_new ERuleBusy (lit "busy") true).
Definition sample_rules : list RuleSummary :=
  (λ i, MkRuleSummary (Z.of_nat i) (lit "MATCH,DIRECT") (lit "MATCH") None (lit "DIRECT") [] TargetValid) <$> seq 0 130.
(** 130 rules in pages *)
Definition rule_server (request : IpcRequest) : IpcResponse :=
  match req_operation request with
  | RuleListPage offset =>
      response_success (req_request_id request)
        (encode_application_output wire_uuid_to_string (λ s, s)
           (OutRulePage (MkRuleListPageOutcome true (Some 4) 130 offset
              (take (Z.to_nat IPC_LIST_PAGE_SIZE) (drop (Z.to_nat offset) sample_rules)))))
  | _ => busy_server request
  end.
Abbreviation sample_run := (execute_with_cancellation wire_uuid_parse wire_url_parse sample_url_as_str).
Definition busy_run := serve (scripted busy_server) (sample_run (AppRuleRemove (lit "MATCH,DIRECT")) ipc_client_new) (MkTraffic [] []).
Definition rules_run := serve (scripted rule_server) (sample_run AppRuleList ipc_client_new) (MkTraffic [] []).

(** The server is busy: the client sent one request and may retry. *)
Lemma client_retry_witness :
  operation_may_commit (AppRuleRemove (lit "MATCH,DIRECT")) = true ∧ (length (t_sent busy_run.2) ≤ 1)%nat.
Proof.
  split; [reflexivity|].
  exact (proj1 (client_retry wire_uuid_parse wire_url_parse sample_url_as_str (AppRuleRemove (lit "MATCH,DIRECT")) ipc_client_new
    busy_run.1.1 busy_run.1.2 busy_run.2 eq_refl (serve_runs _ _ _ (scripted_ok busy_server)))).
Defined.

(** Two pages make the list. *)
Lemma client_lists_witness :
  rules_run.1.1 = Some (Ok (OutRules (MkRuleListOutcome true (Some 4) sample_rules))) ∧
  list_spec wire_uuid_parse wire_url_parse OutRulePage rules_complete (rules_assembled [] None) rule_requests
    (MkTraffic [] []) rules_run.1.1 rules_run.2.
Proof.
  split; [vm_compute; reflexivity|].
  exact (client_lists wire_uuid_parse wire_url_parse sample_url_as_str AppRuleList ipc_client_new
    rules_run.1.1 rules_run.1.2 rules_run.2 (serve_runs _ _ _ (scripted_ok rule_server))).
Defined.
