(* ===== verification/IpcSystem.v ===== *)
(** * IpcSystem: a client, a connection and the server (src/ipc_runtime/server.rs, src/ipc.rs)

    [handle_connection] is what a worker of the server does with the request of a connection; [connected] joins it to
    the client of [IpcClient] with the frames of [Frame] between them, read in any pieces.  The application behind the
    server is a parameter [execute] with a state; [PagedApplication] states what the client's list operations need of it:
    that pages are the pages of the list.  [client_refines] shows that the client then is that application, with the
    outputs and errors as the wire shows them.  The rules and profiles of the Supervisor are such an application
    ([supervisor_listings]). *)

From S2P Require Import Prelude Text Ordered Constants Json Domain Rule Scheduler Profile Diagnostics Filesystem Journal Persistence Frame Request Application SupervisorOutcomes Projections Supervisor Program WireStatus WireOutput WirePrintable ClientError IpcClient.
Local Open Scope Z_scope.

(** ** Responses *)

Definition error_fields := [lit "code"; lit "message"; lit "retryable"; lit "details"].
Definition error_decode (j : Json) : option IpcError :=
  fields ← json_strict_struct error_fields j;
  code ← json_required fields (lit "code") json_str;
  message ← json_required fields (lit "message") json_str;
  retryable ← json_required fields (lit "retryable") json_bool;
  details ← json_optional fields (lit "details") Some;
  Some (MkIpcError code message retryable details).

(** [#[serde(flatten)]] hands the other fields to the untagged enum, whose variants deny unknown fields. *)
Definition outcome_decode (fields : list (str * Json)) : option ResponseOutcome :=
  match fields with
  | [(name, j)] =>
      if bool_decide (name = lit "data") then Some (Success j)
      else if bool_decide (name = lit "error") then Failure <$> error_decode j
      else None
  | _ => None
  end.
Definition response_decode (j : Json) : option IpcResponse :=
  match j with
  | JObject fields =>
      version ← json_required fields (lit "protocol_version") (json_uint 65535);
      id ← json_required fields (lit "request_id") wire_decode;
      outcome ← outcome_decode (filter (λ f, f.1 ∉ [lit "protocol_version"; lit "request_id"]) fields);
      Some (MkIpcResponse version id outcome)
  | _ => None
  end.

#[global] Instance response_wire : Wire IpcResponse := {|
  wire_encode := response_encode;
  wire_decode := response_decode;
|}.

Definition outcome_valid (o : ResponseOutcome) : Prop :=
  match o with
  | Success data => json_printable data = true
  | Failure e => from_option (λ d, d ≠ JNull ∧ json_printable d = true) True (err_details e)
  end.
Definition response_valid (r : IpcResponse) : Prop :=
  0 ≤ resp_protocol_version r ≤ 65535 ∧ in_u64 (request_id_value (resp_request_id r)) ∧ outcome_valid (resp_outcome r).

Lemma error_decode_encode e : from_option (λ d, d ≠ JNull) True (err_details e) → error_decode (error_encode e) = Some e.
Proof. destruct e as [code message retryable [d|]]; [|done]. by destruct d. Qed.
Lemma error_encode_printable e :
  from_option (λ d, json_printable d = true) True (err_details e) → json_printable (error_encode e) = true.
Proof.
  intros Hd. apply printable_object. destruct e as [code message retryable [d|]]; repeat constructor; done.
Qed.

#[global] Program Instance response_wire_laws : WireLaws IpcResponse := {| wire_valid := response_valid |}.
Next Obligation.
  intros [version id outcome] (Hv%(json_uint_ok 65535) & Hid & Ho).
  cbn [resp_protocol_version resp_request_id resp_outcome] in *. pose proof (wire_round_trip id Hid) as Hw.
  unfold response_encode; cbn [resp_protocol_version resp_request_id resp_outcome].
  assert (∀ name j, name ∈ [lit "data"; lit "error"] →
    response_decode (JObject [(lit "protocol_version", JNumber version); (lit "request_id", wire_encode id); (name, j)]) =
    (outcome ← outcome_decode [(name, j)]; Some (MkIpcResponse version id outcome))) as Hdec.
  { intros name j Hn. unfold response_decode. eapply bind_ok; [eapply required_ok; [|exact Hv]|].
    { rewrite !elem_of_cons in Hn. destruct Hn as [->|[->|[]%elem_of_nil]]; reflexivity. }
    eapply bind_ok; [eapply required_ok; [|exact Hw]|].
    { rewrite !elem_of_cons in Hn. destruct Hn as [->|[->|[]%elem_of_nil]]; reflexivity. }
    rewrite !elem_of_cons in Hn. by destruct Hn as [->|[->|[]%elem_of_nil]]. }
  destruct outcome as [data|e]; (refine (eq_trans (Hdec _ _ _) _); [set_solver|]); [done|]. cbn in Ho.
  assert (outcome_decode [(lit "error", error_encode e)] = Failure <$> error_decode (error_encode e)) as -> by done.
  rewrite error_decode_encode; [done|]. destruct (err_details e); [apply Ho|done].
Qed.
Next Obligation.
  intros [version id outcome] (Hv & Hid%printable_number & Ho).
  cbn [resp_protocol_version resp_request_id resp_outcome] in *. apply printable_object.
  assert (in_u64 version) as Hv'%printable_number by (unfold in_u64; lia).
  constructor; [done|]. constructor; [done|]. destruct outcome as [data|e]; (constructor; [|constructor]); [done|].
  apply error_encode_printable. cbn in Ho. destruct (err_details e); [apply Ho|done].
Qed.

(** ** The server *)

Definition conversion_error (e : OperationConversionError) : IpcError :=
  match e with
  | ConvInvalidSubscriptionUrl => ipc_error_new EInvalidSubscriptionUrl (lit "The Subscription URL is invalid") false
  | InvalidListPageOffset => ipc_error_new EProtocolMismatch (lit "The list page offset is invalid") false
  | StreamingOperation =>
      ipc_error_new EOperationUnavailable (lit "This IPC endpoint handles one-shot operations only") false
  end.

Definition stream_capacity_response (id : RequestId) : IpcResponse :=
  response_failure id (ipc_error_new EOperationUnavailable (lit "The IPC stream subscriber capacity is reached") true).

(** The streams of a server: [log_tail] of the broker as a document, and the slots. *)
Record ServerStreams := MkServerStreams {
  sst_log_tail : option Z → Json;
  sst_active_streams : Z;
  sst_stream_limit : Z;
}.
(** [StreamSlot::acquire]: the number of active streams afterwards. *)
Definition acquire_slot (s : ServerStreams) : option Z :=
  if sst_stream_limit s <=? sst_active_streams s then None else Some (sst_active_streams s + 1).

(** What happens to a connection: a response is written and it ends, or a stream is served on it. *)
Inductive Served :=
| Answered (response : IpcResponse)
| ServesStatus (id : RequestId)
| ServesLogs (id : RequestId) (after_sequence : option Z).

Section server.
Context (uuid_to_string : Z → str) (url_parse : str → option Url) (percent_decode : str → str).
Context {S : Type} (execute : ApplicationOperation → S → result ApplicationOutput ApplicationError * S).

Definition application_response (id : RequestId) (r : result ApplicationOutput ApplicationError) : IpcResponse :=
  match r with
  | Ok output => response_success id (encode_application_output uuid_to_string percent_decode output)
  | Err error => response_failure id (ipc_error_from error)
  end.

Definition handle_connection (streams : option ServerStreams) (read : result IpcRequest FrameError) (s : S) : Served * S :=
  match read with
  | Err _ =>
      (Answered (response_failure (MkRequestId 0)
                   (ipc_error_new EProtocolMismatch (lit "The IPC request frame is invalid") false)), s)
  | Ok request =>
      match validate_protocol request with
      | Err response => (Answered response, s)
      | Ok _ =>
          let id := req_request_id request in
          let no_streams := Answered (response_failure id (conversion_error StreamingOperation)) in
          match req_operation request with
          | SubscribeStatus _ =>
              match streams with
              | None => (no_streams, s)
              | Some streams =>
                  (match acquire_slot streams with None => Answered (stream_capacity_response id) | Some _ => ServesStatus id end, s)
              end
          | FollowLogs after =>
              match streams with
              | None => (no_streams, s)
              | Some streams =>
                  (match acquire_slot streams with None => Answered (stream_capacity_response id) | Some _ => ServesLogs id after end, s)
              end
          | LogTail after =>
              match streams with
              | None => (no_streams, s)
              | Some streams => (Answered (response_success id (sst_log_tail streams after)), s)
              end
          | operation =>
              match into_application_operation url_parse operation with
              | Err error => (Answered (response_failure id (conversion_error error)), s)
              | Ok operation =>
                  let '(r, s) := execute operation s in
                  (Answered (application_response id r), s)
              end
          end
      end
  end.

(** ** A connection that works

    What one side writes the other reads, in whatever pieces [chunks] says; a stream that is served is not read here. *)

Context (json_to_vec : Json → bytes) (json_from_slice : bytes → option Json).
Context (chunks : bytes → list ReadEvent) (streams : option ServerStreams).

Record Connection := MkConnection {
  cn_server : S;
  cn_inbox : bytes;
}.

(** A read that fails on a closed connection fails at its end. *)
Definition transport_error (e : FrameError) : TransportError :=
  match e with FrameIo => TransportIo UnexpectedEof | FrameJson => TransportJson | FrameTooLarge _ _ => TransportTooLarge end.

Definition connected : handler Connection := λ X c w,
  match c in ClientCall X return X * Connection with
  | CancelIsCancelled => (false, w)
  | SockConnect | SockTryClone | SockDeadline _ | SockBeginWrite | SockBeginRead => (Ok tt, w)
  | SockWrite request =>
      match write_frame json_to_vec (λ _ _, None) [] request with
      | (Err e, _) => (Err (transport_error e), w)
      | (Ok _, written) =>
          let read := (read_frame_with_limit json_from_slice (MkReader written (chunks written)) IPC_REQUEST_FRAME_MAX_BYTES).1 in
          let '(served, s) := handle_connection streams read (cn_server w) in
          (Ok tt, MkConnection s match served with
                                 | Answered response => (write_frame json_to_vec (λ _ _, None) [] response).2
                                 | _ => []
                                 end)
      end
  | SockRead =>
      (map_err transport_error (read_frame json_from_slice (MkReader (cn_inbox w) (chunks (cn_inbox w)))).1, w)
  end.
End server.
Arguments MkConnection {S} cn_server cn_inbox.
Arguments cn_server {S} _.
Arguments cn_inbox {S} _.

(** ** What arrives *)

Lemma serve_bind {W A B} (h : handler W) (p : cprog A) (k : A → cprog B) w :
  serve h (prog_bind p k) w = serve h (k (serve h p w).1) (serve h p w).2.
Proof. revert w; induction p as [a|X c next IH]; intros w; cbn; [done|]. apply IH. Qed.

Lemma serve_call {W X} (h : handler W) (c : ClientCall X) w : serve h (call c) w = h X c w.
Proof. cbn. by destruct (h X c w). Qed.
Lemma serve_try {W A B E} (h : handler W) (p : cprog (result A E)) (k : A → cprog (result B E)) w x w' :
  serve h p w = (Ok x, w') → serve h (prog_try p k) w = serve h (k x) w'.
Proof. intros Hp. unfold prog_try. by rewrite serve_bind, Hp. Qed.
Lemma serve_unless {W A E} (h : handler W) (p : cprog (result A E)) e f w x w' :
  serve h p w = (Ok x, w') → serve h (unless_cancelled p e f) w = (Ok x, w').
Proof. intros Hp. unfold unless_cancelled. by rewrite serve_bind, Hp. Qed.

(** An error carries no numbers. *)
Lemma insert_printable k v fields :
  Forall (λ f : str * Json, json_printable f.2 = true) fields → json_printable v = true →
  Forall (λ f, json_printable f.2 = true) (fields_insert k v fields).
Proof.
  intros Hf Hv. induction Hf as [|[n w] fields Hw Hf IH]; simpl; [by constructor|]. case_bool_decide; by constructor.
Qed.
Lemma details_printable d : Forall (λ f, json_printable f.2 = true) (application_details d []).
Proof.
  assert (∀ o, json_printable (json_option generation_string o) = true) as Hg by (by intros []).
  destruct d as [ids|f|f]; cbn [application_details]; repeat apply insert_printable; try done; try apply Hg.
  - apply printable_values, Forall_true. done.
  - apply printable_object. repeat constructor. apply Forall_app. split; [by destruct (aro_restored_generation (rafd_recovery f)); repeat constructor|].
    by destruct (aro_message (rafd_recovery f)); repeat constructor.
Qed.
Lemma error_printable e :
  from_option (λ d, d ≠ JNull ∧ json_printable d = true) True (err_details (ipc_error_from e)).
Proof.
  unfold ipc_error_from, api_error_from. cbn [err_details api_details]. case_bool_decide; [done|]. split; [done|].
  apply printable_object.
  assert (∀ fields, Forall (λ f : str * Json, json_printable f.2 = true) fields → ∀ s,
    Forall (λ f, json_printable f.2 = true) (selector_details s fields)) as Hs.
  { intros fields Hf s. unfold selector_details. repeat apply insert_printable; [|done|apply printable_values, Forall_true; done].
    destruct (fields_get (lit "candidate_ids") fields); [done|]. apply insert_printable; [done|].
    apply printable_values, Forall_true. done. }
  destruct (ae_selector_candidates e), (ae_details e); auto using details_printable.
Qed.

Section frames.
Context (json_to_vec : Json → bytes) (json_from_slice : bytes → option Json).
Context (json_round_trip : ∀ j, json_printable j = true → json_from_slice (json_to_vec j) = Some j).

Definition fits {A} `{Wire A} (limit : Z) (x : A) : Prop := zlen (json_to_vec (wire_encode x)) ≤ limit.

Lemma written `{Wire A} (x : A) :
  fits IPC_FRAME_MAX_BYTES x → write_frame json_to_vec (λ _ _, None) [] x = (Ok tt, frame_bytes json_to_vec x).
Proof.
  unfold fits, write_frame. intros Hx. rewrite (proj2 (Z.ltb_ge _ _)) by done.
  assert (IPC_FRAME_MAX_BYTES ≤ u32_max) by done. rewrite (proj2 (Z.ltb_ge _ _)) by lia. done.
Qed.
Lemma arrives `{WireLaws A} (x : A) limit events :
  wire_valid x → fits limit x → limit ≤ IPC_FRAME_MAX_BYTES → ReadFailed ∉ events →
  (read_frame_with_limit json_from_slice (MkReader (frame_bytes json_to_vec x) events) limit).1 = Ok x.
Proof.
  intros Hv Hx Hl He.
  destruct (read_frame_front json_to_vec json_from_slice json_round_trip x [] (MkReader (frame_bytes json_to_vec x) events) limit)
    as (r' & -> & _); [done|exact He|by rewrite app_nil_r|split; [exact Hx|exact Hl]|done].
Qed.
End frames.

(** ** The client is the application *)

(** The rules and profiles of an application in pages: those of the list, while its state is the same. *)
Definition rule_page (o : RuleListOutcome) (offset : Z) : RuleListPageOutcome :=
  MkRuleListPageOutcome (rlo_initialized o) (rlo_revision o) (zlen (rlo_rules o)) offset
    (take (Z.to_nat IPC_LIST_PAGE_SIZE) (drop (Z.to_nat offset) (rlo_rules o))).
Definition profile_page (snapshot_id : Z) (profiles : list ProfileSummary) (offset : Z) : ProfileListPageOutcome :=
  MkProfileListPageOutcome snapshot_id (zlen profiles) offset
    (take (Z.to_nat IPC_LIST_PAGE_SIZE) (drop (Z.to_nat offset) profiles)).

(** [inv] is what is known of its state. *)
Class PagedApplication {S} (execute : ApplicationOperation → S → result ApplicationOutput ApplicationError * S) (inv : S → Prop) := {
  paged_rules s o s' :
    inv s → execute AppRuleList s = (Ok (OutRules o), s') →
    s' = s ∧ ∀ offset, 0 ≤ offset ≤ zlen (rlo_rules o) →
      execute (AppRuleListPage offset) s = (Ok (OutRulePage (rule_page o offset)), s);
  paged_profiles s profiles s' :
    inv s → execute AppProfileList s = (Ok (OutProfiles profiles), s') →
    s' = s ∧ ∃ snapshot_id, in_u64 snapshot_id ∧ ∀ offset, 0 ≤ offset ≤ zlen profiles →
      execute (AppProfileListPage offset) s = (Ok (OutProfilePage (profile_page snapshot_id profiles offset)), s);
}.

Section refinement.
Context (uuid_to_string : Z → str) (uuid_parse : str → option Z) (url_parse : str → option Url) (url_as_str : Url → str).
Context (percent_decode : str → str).
Context (json_to_vec : Json → bytes) (json_from_slice : bytes → option Json).
Context (json_round_trip : ∀ j, json_printable j = true → json_from_slice (json_to_vec j) = Some j).
Context (chunks : bytes → list ReadEvent) (chunks_calm : ∀ content, ReadFailed ∉ chunks content).
Context (streams : option ServerStreams).
Context {S : Type} (execute : ApplicationOperation → S → result ApplicationOutput ApplicationError * S).

Abbreviation link := (connected uuid_to_string url_parse percent_decode execute json_to_vec json_from_slice chunks streams).
Abbreviation once := (execute_once uuid_parse url_parse url_as_str).
Abbreviation run := (execute_with_cancellation uuid_parse url_parse url_as_str).
Abbreviation shows := (url_shows url_parse percent_decode).
Abbreviation answer := (application_response uuid_to_string percent_decode).

(** What the client has of an answer. *)
Definition shown (r : result ApplicationOutput ApplicationError) : result ApplicationOutput ApplicationError :=
  match r with Ok o => Ok (output_shown url_parse percent_decode o) | Err e => Err (error_shown e) end.

(** The answer fits the operation, its numbers their types, and its URLs can be shown. *)
Definition deliverable (operation : ApplicationOperation) (r : result ApplicationOutput ApplicationError) : Prop :=
  match r with
  | Ok o => output_ok uuid_to_string uuid_parse shows o ∧ output_matches (for_operation operation) o = true
  | Err e => error_ok e
  end.

(** The server understands the request as the operation, and both frames are within their limits. *)
Definition carried (operation : ApplicationOperation) (id : RequestId) (s : S) : Prop :=
  operation_valid (request_operation url_as_str operation) ∧
  into_application_operation url_parse (request_operation url_as_str operation) = Ok operation ∧
  fits json_to_vec IPC_REQUEST_FRAME_MAX_BYTES (ipc_request_new id (request_operation url_as_str operation)) ∧
  fits json_to_vec IPC_FRAME_MAX_BYTES (answer id (execute operation s).1).

(** The id of the next request, and the client after it. *)
Definition next_request (c : IpcClient) : RequestId * IpcClient :=
  let '(id, c) := fetch_add_request_id c in
  if id =? 0 then let '(id, c) := fetch_add_request_id c in (MkRequestId id, c) else (MkRequestId id, c).
Abbreviation next_id c := (next_request c).1.
Abbreviation after c := (next_request c).2.

Definition client_ok (c : IpcClient) : Prop :=
  ic_connect_timeout c ≠ 0 ∧ stream_timeout c ≠ 0 ∧ in_u64 (ic_next_request_id c).

Lemma handle_operation id operation op s :
  into_application_operation url_parse operation = Ok op →
  handle_connection uuid_to_string url_parse percent_decode execute streams (Ok (ipc_request_new id operation)) s =
  (Answered (answer id (execute op s).1), (execute op s).2).
Proof.
  intros Hop. unfold handle_connection. cbn [ipc_request_new req_operation req_request_id].
  assert (validate_protocol (ipc_request_new id operation) = Ok tt) as -> by done.
  destruct operation; cbn [into_application_operation] in Hop; try (by simplify_eq);
    cbn [into_application_operation]; rewrite ?Hop; simplify_eq; by destruct (execute _ s).
Qed.

Lemma answer_valid id operation r : in_u64 id → deliverable operation r → response_valid (answer (MkRequestId id) r).
Proof.
  intros Hid Hr. unfold response_valid. destruct r as [o|e]; cbn.
  - destruct Hr as [Ho _]. split_and!; [done..|]. by eapply output_printable.
  - split_and!; [done..|]. apply error_printable.
Qed.

Lemma answer_read id operation r :
  deliverable operation r → read_response uuid_parse url_parse id (for_operation operation) (answer id r) = shown r.
Proof.
  intros Hr. unfold read_response.
  assert (ensure_correlated (resp_protocol_version (answer id r)) (resp_request_id (answer id r)) id = Ok tt) as ->.
  { unfold ensure_correlated. destruct r; cbn; by rewrite bool_decide_true. }
  destruct r as [o|e]; cbn [map_err result_bind answer].
  - destruct Hr as [Ho Hm]. change (response_error _) with (@None IpcError). cbv iota.
    change (response_data _) with (Some (encode_application_output uuid_to_string percent_decode o)). cbn [ok_or result_bind].
    rewrite decode_encode by done. cbn [ok_or result_bind].
    assert (output_matches (for_operation operation) (output_shown url_parse percent_decode o) = true) as -> by (by destruct o).
    done.
  - change (response_error _) with (Some (ipc_error_from e)). cbv iota. by rewrite error_delivered.
Qed.

Lemma exchange_connected operation id c s inbox :
  client_ok c → in_u64 id → carried operation (MkRequestId id) s → deliverable operation (execute operation s).1 →
  ∃ inbox', serve link (exchange uuid_parse url_parse url_as_str operation (MkRequestId id) c) (MkConnection s inbox) =
    (shown (execute operation s).1, MkConnection (execute operation s).2 inbox').
Proof.
  intros (Hct & Hst & _) Hid (Hvalid & Hinto & Hreq & Hresp) Hd. unfold exchange.
  erewrite serve_try.
  2: { apply serve_unless. unfold connect_cancellable. rewrite !(proj2 (Z.eqb_neq _ _)) by done. reflexivity. }
  do 3 (erewrite serve_try; [|reflexivity]).
  assert (request_valid (ipc_request_new (MkRequestId id) (request_operation url_as_str operation))) as Hrv by (split_and!; done).
  assert (link _ (SockWrite (ipc_request_new (MkRequestId id) (request_operation url_as_str operation))) (MkConnection s inbox) =
    (Ok tt, MkConnection (execute operation s).2 (frame_bytes json_to_vec (answer (MkRequestId id) (execute operation s).1)))) as Hw.
  { cbn [connected cn_server]. rewrite written by (unfold fits in *; assert (IPC_REQUEST_FRAME_MAX_BYTES ≤ IPC_FRAME_MAX_BYTES) by done; lia).
    rewrite (arrives json_to_vec json_from_slice json_round_trip) by done.
    rewrite (handle_operation _ _ _ _ Hinto). cbn [fst snd]. by rewrite written. }
  erewrite serve_try; [|apply serve_unless; rewrite serve_call; exact Hw].
  erewrite serve_try; [|apply serve_unless; reflexivity].
  erewrite serve_try; [|apply serve_unless; rewrite serve_call].
  2: { cbn [connected cn_inbox fst snd]. unfold read_frame.
       rewrite (arrives json_to_vec json_from_slice json_round_trip); [reflexivity| |done|done|done].
       by eapply answer_valid. }
  cbn [serve]. rewrite answer_read by done. by eexists.
Qed.

Lemma client_ok_after c : client_ok c → client_ok (after c) ∧ in_u64 (request_id_value (next_id c)).
Proof.
  assert (∀ n, in_u64 (wrapping_add n 1)) as Hwrap.
  { intros n. unfold wrapping_add, in_u64. pose proof (Z.mod_pos_bound (n + 1) 18446744073709551616 ltac:(done)). lia. }
  destruct c as [ct policy n]. unfold next_request, fetch_add_request_id. intros (H1 & H2 & Hn). cbn in *.
  destruct (Z.eqb_spec n 0); cbn; split; try done; try (split_and!; [done..|]; apply Hwrap).
Qed.

Lemma once_connected operation c s inbox :
  client_ok c → carried operation (next_id c) s → deliverable operation (execute operation s).1 →
  ∃ inbox', serve link (once operation c) (MkConnection s inbox) =
    ((shown (execute operation s).1, after c), MkConnection (execute operation s).2 inbox').
Proof.
  intros Hc Hcar Hd. destruct (client_ok_after c Hc) as [Hc' Hid].
  destruct (exchange_connected operation (request_id_value (next_id c)) (after c) s inbox Hc' Hid) as [inbox' He];
    [by destruct (next_id c)|done|].
  exists inbox'. revert He. unfold execute_once, next_request, request_id.
  destruct (fetch_add_request_id c) as [id c1] eqn:Hf. cbn [fst snd].
  cbn [st_bind st_call st_lift call prog_bind serve connected fst snd]. rewrite Hf.
  destruct (id =? 0); [destruct (fetch_add_request_id c1) as [id2 c2]|];
    cbn [prog_bind st_bind fst snd request_id_value]; intros He; unfold st_lift; by rewrite serve_bind, He.
Qed.

(** *** Lists *)

Lemma indexed_slice offset rules n :
  indexed_from offset rules = true → indexed_from (offset + Z.of_nat n) (drop n rules) = true.
Proof.
  revert offset n; induction rules as [|rule rules IH]; intros offset [|n] H; cbn in *; rewrite ?Z.add_0_r; [done..|].
  apply andb_true_iff in H as [_ H]. specialize (IH _ n H). by replace (offset + Z.of_nat (Datatypes.S n)) with (offset + 1 + Z.of_nat n) by lia.
Qed.
Lemma indexed_take offset rules n : indexed_from offset rules = true → indexed_from offset (take n rules) = true.
Proof.
  revert offset n; induction rules as [|rule rules IH]; intros offset [|n] H; cbn in *; [done..|].
  apply andb_true_iff in H as [-> H]. cbn. by apply IH.
Qed.
Lemma page_len_slice {A} (l : list A) n :
  (n ≤ length l)%nat →
  page_len_ok (zlen l) (Z.of_nat n) (zlen (take (Z.to_nat IPC_LIST_PAGE_SIZE) (drop n l))) = true.
Proof.
  intros Hn. unfold page_len_ok, zlen. rewrite length_take, length_drop. apply andb_true_iff. split; [apply Z.leb_le; lia|].
  apply Z.eqb_eq. unfold IPC_LIST_PAGE_SIZE. lia.
Qed.

Lemma rule_page_valid o n :
  validate_complete_rule_list o = Ok tt → (n ≤ length (rlo_rules o))%nat →
  validate_rule_page (rule_page o (Z.of_nat n)) (Z.of_nat n) = Ok tt.
Proof.
  unfold validate_complete_rule_list, validate_rule_page. intros H Hn. destruct (_ || _) eqn:E; [done|]. clear H.
  rewrite !orb_false_iff in E. destruct E as [[[Hmax Huninit] Hinit] Hidx]. apply negb_false_iff in Hidx.
  unfold rule_page. cbn [rlp_total rlp_offset rlp_rules rlp_initialized rlp_revision]. rewrite Nat2Z.id, Hmax, Z.eqb_refl.
  rewrite page_len_slice by done. rewrite (indexed_take _ _ _ (indexed_slice 0 (rlo_rules o) n Hidx)).
  destruct (rlo_initialized o); cbn [negb andb orb] in *; [by rewrite Hinit|].
  apply orb_false_iff in Huninit as [Hnil Hrev]. rewrite Hrev. apply negb_false_iff, bool_decide_eq_true in Hnil. by rewrite Hnil.
Qed.

(** The clients of the pages, one after the other. *)
Abbreviation page_size := (Z.to_nat IPC_LIST_PAGE_SIZE).
Abbreviation client_at k c := (Nat.iter k (λ c, after c) c).
Lemma client_at_ok k c : client_ok c → client_ok (client_at k c).
Proof. intros Hc. induction k as [|k IH]; cbn; [done|]. by apply client_ok_after. Qed.

Lemma rules_connected fuel k metadata o c s inbox :
  validate_complete_rule_list o = Ok tt → output_ok uuid_to_string uuid_parse shows (OutRules o) →
  (∀ offset, 0 ≤ offset ≤ zlen (rlo_rules o) →
    execute (AppRuleListPage offset) s = (Ok (OutRulePage (rule_page o offset)), s)) →
  (∀ k, (k * page_size ≤ length (rlo_rules o))%nat →
    carried (AppRuleListPage (Z.of_nat (k * page_size))) (next_id (client_at k c)) s) →
  client_ok c → (k * page_size ≤ length (rlo_rules o))%nat → (length (rlo_rules o) - k * page_size < fuel)%nat →
  from_option (λ m, m = rules_metadata o) True metadata →
  ∃ c' inbox', client_ok c' ∧
    serve link (rule_list_loop uuid_parse url_parse url_as_str fuel (Z.of_nat (k * page_size)) metadata
                  (take (k * page_size) (rlo_rules o)) (client_at k c)) (MkConnection s inbox) =
    ((Some (Ok (OutRules o)), c'), MkConnection s inbox').
Proof.
  intros Hcomplete [Hrev Hrules] Hpages Hcar Hc. assert (0 < page_size)%nat as Hpage by (unfold IPC_LIST_PAGE_SIZE; lia).
  assert (zlen (rlo_rules o) ≤ LOCAL_RULE_COUNT_MAX) as Hmax.
  { unfold validate_complete_rule_list in Hcomplete. destruct (Z.ltb_spec LOCAL_RULE_COUNT_MAX (zlen (rlo_rules o))); done. }
  revert k metadata inbox. induction fuel as [|fuel IH]; intros k metadata inbox Hn Hfuel Hmeta; [lia|].
  specialize (IH (Datatypes.S k)). specialize (Hcar k Hn). set (n := (k * page_size)%nat) in *.
  replace (Datatypes.S k * page_size)%nat with (n + page_size)%nat in IH by (unfold n; lia).
  pose proof (Hpages (Z.of_nat n) ltac:(unfold zlen; lia)) as Hex.
  destruct (once_connected (AppRuleListPage (Z.of_nat n)) (client_at k c) s inbox (client_at_ok k c Hc) Hcar) as (inbox1 & Hserve).
  { rewrite Hex. split; [|done]. cbn. unfold rule_page_ok, rule_page. cbn [rlp_total rlp_offset rlp_rules rlp_revision].
    assert (LOCAL_RULE_COUNT_MAX = 20000) by done. split_and!; [done|unfold in_u64, zlen in *; lia..|].
    by apply Forall_take, Forall_drop. }
  cbn [rule_list_loop]. unfold st_bind. rewrite serve_bind, Hserve, Hex. cbn [fst snd shown output_shown].
  rewrite rule_page_valid by done. cbn [result_bind].
  assert (page_metadata metadata (rlp_initialized (rule_page o (Z.of_nat n)), rlp_revision (rule_page o (Z.of_nat n)),
    rlp_total (rule_page o (Z.of_nat n))) (lit "The IPC Rule List changed while pages were being read") = Ok (rules_metadata o)) as ->.
  { unfold page_metadata. destruct metadata as [m|]; [|done]. cbn in Hmeta. subst m. by rewrite bool_decide_true. }
  unfold rule_page. cbn [rlp_rules rlp_total rlp_initialized rlp_revision]. rewrite !Nat2Z.id, !take_take_drop.
  destruct (Z.eqb_spec (zlen (take (n + page_size) (rlo_rules o))) (zlen (rlo_rules o))) as [Hall|Hmore].
  - assert (length (rlo_rules o) ≤ n + page_size)%nat as Hge by (unfold zlen in Hall; rewrite length_take in Hall; lia).
    rewrite take_ge by exact Hge. exists (client_at (Datatypes.S k) c), inbox1. split; [by apply client_at_ok|]. by destruct o.
  - assert (n + page_size < length (rlo_rules o))%nat as Hlt by (unfold zlen in Hmore; rewrite length_take in Hmore; lia).
    replace (zlen (take (n + page_size) (rlo_rules o))) with (Z.of_nat (n + page_size)) by (unfold zlen; rewrite length_take; lia).
    apply IH; [lia|lia|done].
Qed.

Abbreviation summary_shown := (profile_shown url_parse percent_decode).

Lemma profile_page_valid snapshot profiles n :
  zlen profiles ≤ PROFILE_COUNT_MAX → (n ≤ length profiles)%nat →
  validate_profile_page (profile_page snapshot profiles (Z.of_nat n)) (Z.of_nat n) = Ok tt.
Proof.
  intros Hmax Hn. unfold validate_profile_page, profile_page. cbn [plp_total plp_offset plp_profiles].
  rewrite (proj2 (Z.ltb_ge _ _)), Z.eqb_refl, Nat2Z.id by done. by rewrite page_len_slice.
Qed.

(** A page of the profiles as they are shown. *)
Lemma profile_page_shown snapshot profiles offset :
  output_shown url_parse percent_decode (OutProfilePage (profile_page snapshot profiles offset)) =
  OutProfilePage (profile_page snapshot (summary_shown <$> profiles) offset).
Proof.
  unfold profile_page. cbn [output_shown plp_snapshot_id plp_total plp_offset plp_profiles]. unfold zlen.
  by rewrite length_fmap, fmap_take, fmap_drop.
Qed.

Lemma profiles_connected fuel k metadata snapshot profiles c s inbox :
  zlen profiles ≤ PROFILE_COUNT_MAX → in_u64 snapshot →
  output_ok uuid_to_string uuid_parse shows (OutProfiles profiles) →
  (∀ offset, 0 ≤ offset ≤ zlen profiles →
    execute (AppProfileListPage offset) s = (Ok (OutProfilePage (profile_page snapshot profiles offset)), s)) →
  (∀ k, (k * page_size ≤ length profiles)%nat →
    carried (AppProfileListPage (Z.of_nat (k * page_size))) (next_id (client_at k c)) s) →
  client_ok c → (k * page_size ≤ length profiles)%nat → (length profiles - k * page_size < fuel)%nat →
  from_option (λ m, m = (snapshot, zlen profiles)) True metadata →
  ∃ c' inbox', client_ok c' ∧
    serve link (profile_list_loop uuid_parse url_parse url_as_str fuel (Z.of_nat (k * page_size)) metadata
                  (take (k * page_size) (summary_shown <$> profiles)) (client_at k c)) (MkConnection s inbox) =
    ((Some (Ok (OutProfiles (summary_shown <$> profiles))), c'), MkConnection s inbox').
Proof.
  intros Hmax Hsnap Hok Hpages Hcar Hc. assert (0 < page_size)%nat as Hpage by (unfold IPC_LIST_PAGE_SIZE; lia).
  revert k metadata inbox. induction fuel as [|fuel IH]; intros k metadata inbox Hn Hfuel Hmeta; [lia|].
  specialize (IH (Datatypes.S k)). specialize (Hcar k Hn). set (n := (k * page_size)%nat) in *.
  replace (Datatypes.S k * page_size)%nat with (n + page_size)%nat in IH by (unfold n; lia).
  pose proof (Hpages (Z.of_nat n) ltac:(unfold zlen; lia)) as Hex.
  destruct (once_connected (AppProfileListPage (Z.of_nat n)) (client_at k c) s inbox (client_at_ok k c Hc) Hcar) as (inbox1 & Hserve).
  { rewrite Hex. split; [|done]. cbn. unfold profile_page. cbn [plp_snapshot_id plp_total plp_offset plp_profiles].
    assert (PROFILE_COUNT_MAX = 1000) by done. split_and!; [done|unfold in_u64, zlen in *; lia..|]. by apply Forall_take, Forall_drop. }
  cbn [profile_list_loop]. unfold st_bind. rewrite serve_bind, Hserve, Hex. cbn [fst snd shown]. rewrite profile_page_shown.
  set (l := summary_shown <$> profiles) in *.
  assert (length l = length profiles) as Hlen by apply length_fmap.
  assert (zlen l = zlen profiles) as Hzlen by (unfold zlen; by rewrite Hlen).
  rewrite profile_page_valid by (by rewrite ?Hzlen, ?Hlen). cbn [result_bind].
  assert (page_metadata metadata (plp_snapshot_id (profile_page snapshot l (Z.of_nat n)), plp_total (profile_page snapshot l (Z.of_nat n)))
    (lit "The IPC Profile List changed while pages were being read") = Ok (snapshot, zlen profiles)) as ->.
  { unfold page_metadata, profile_page. cbn [plp_snapshot_id plp_total]. rewrite Hzlen.
    destruct metadata as [m|]; [|done]. cbn in Hmeta. subst m. by rewrite bool_decide_true. }
  unfold profile_page. cbn [plp_profiles plp_total]. rewrite !Nat2Z.id, !take_take_drop.
  destruct (Z.eqb_spec (zlen (take (n + page_size) l)) (zlen l)) as [Hall|Hmore].
  - assert (length l ≤ n + page_size)%nat as Hge by (unfold zlen in Hall; rewrite length_take in Hall; lia).
    rewrite take_ge by exact Hge. exists (client_at (Datatypes.S k) c), inbox1. split; [by apply client_at_ok|done].
  - assert (n + page_size < length l)%nat as Hlt by (unfold zlen in Hmore; rewrite length_take in Hmore; lia).
    replace (zlen (take (n + page_size) l)) with (Z.of_nat (n + page_size)) by (unfold zlen; rewrite length_take; lia).
    apply IH; [lia|lia|done].
Qed.

(** ** Refinement *)

Context (inv : S → Prop) `{!PagedApplication execute inv}.

(** A list is there, and within its limits. *)
Definition well_formed (operation : ApplicationOperation) (r : result ApplicationOutput ApplicationError) : Prop :=
  match operation, r with
  | AppRuleList, Ok (OutRules o) => validate_complete_rule_list o = Ok tt
  | AppProfileList, Ok (OutProfiles profiles) => zlen profiles ≤ PROFILE_COUNT_MAX
  | AppRuleList, _ | AppProfileList, _ => False
  | _, _ => True
  end.

(** Every request of the operation is carried, with the id it has; a list of proxies is not one state of the application. *)
Definition reaches (operation : ApplicationOperation) (c : IpcClient) (s : S) : Prop :=
  match operation, (execute operation s).1 with
  | AppRuleList, Ok (OutRules o) => ∀ k, (k * page_size ≤ length (rlo_rules o))%nat →
      carried (AppRuleListPage (Z.of_nat (k * page_size))) (next_id (client_at k c)) s
  | AppProfileList, Ok (OutProfiles profiles) => ∀ k, (k * page_size ≤ length profiles)%nat →
      carried (AppProfileListPage (Z.of_nat (k * page_size))) (next_id (client_at k c)) s
  | AppProxyList _, _ => False
  | operation, _ => carried operation (next_id c) s
  end.

End refinement.

(** ** The Supervisor's rules and profiles

    The list operations of the Supervisor read its state once, under its lock; this is what they answer of it. *)

Section listings.
Context (url_as_str : Url → str) (hasher : list HashItem → Z).
Context (hasher_u64 : ∀ items, in_u64 (hasher items)).

Definition listing_execute (operation : ApplicationOperation) (s : SupervisorState)
  : result ApplicationOutput ApplicationError * SupervisorState :=
  (match operation with
   | AppRuleList =>
       let? list := map_err (λ _, invalid_rule_error) (list_rules (sv_local_rules s)) in
       Ok (OutRules (MkRuleListOutcome (list_initialized list)
         (if list_initialized list then Some (revision (sv_local_rules s)) else None)
         (rule_summary <$> list_entries list)))
   | AppRuleListPage offset =>
       let? page := map_err (λ _, invalid_rule_error) (list_page (sv_local_rules s) offset IPC_LIST_PAGE_SIZE) in
       Ok (OutRulePage (MkRuleListPageOutcome (page_initialized page)
         (if page_initialized page then Some (revision (sv_local_rules s)) else None)
         (page_total page) (page_offset page) (rule_summary <$> page_entries page)))
   | AppProfileList =>
       Ok (OutProfiles ((λ p, profile_summary p (cat_active_profile_id (sv_profiles s)))
                          <$> btree_values (cat_profiles (sv_profiles s))))
   | AppProfileListPage offset =>
       let profiles := sv_profiles s in
       Ok (OutProfilePage (MkProfileListPageOutcome
         (profile_list_snapshot_id hasher url_as_str profiles) (zsize (cat_profiles profiles)) offset
         ((λ p, profile_summary p (cat_active_profile_id profiles))
            <$> take (Z.to_nat IPC_LIST_PAGE_SIZE)
                  (drop (Z.to_nat offset) (btree_values (cat_profiles profiles))))))
   | _ => Err internal_error
   end, s).

(** It is the Supervisor's. *)
Lemma listing_operations :
  rule_list = locked (sup_get (λ s, (listing_execute AppRuleList s).1)) ∧
  (∀ offset, rule_list_page offset = locked (sup_get (λ s, (listing_execute (AppRuleListPage offset) s).1))) ∧
  profile_list = locked (sup_get (λ s, (listing_execute AppProfileList s).1)) ∧
  (∀ offset, profile_list_page url_as_str hasher offset =
             locked (sup_get (λ s, (listing_execute (AppProfileListPage offset) s).1))).
Proof. done. Qed.

Definition listing_inv (s : SupervisorState) : Prop := zlen (default [] (rules (sv_local_rules s))) ≤ usize_max.

Lemma listed_length s full :
  list_rules s = Ok full → zlen (default [] (rules s)) ≤ usize_max → zlen (list_entries full) = zlen (default [] (rules s)).
Proof.
  intros Hfull Hmax. destruct (list_page_slice s full 0 1 Hfull ltac:(done) ltac:(done) Hmax) as (page & Hp & _ & _ & <- & _).
  unfold list_page in Hp. destruct (rules s) as [rs|]; [|by simplify_eq]. invert_result. done.
Qed.

#[global] Instance supervisor_listings : PagedApplication listing_execute listing_inv.
Proof.
  split.
  - intros s o s' Hinv H. unfold listing_execute in H. injection H as H <-. split; [done|]. intros offset Hoff.
    destruct (list_rules (sv_local_rules s)) as [full|e] eqn:Hfull; [|done]. cbn in H. simplify_eq. unfold listing_execute. f_equal.
    cbn [rlo_rules] in Hoff. unfold zlen in Hoff. rewrite length_fmap in Hoff.
    assert (in_u64 offset) as Hu.
    { split; [lia|]. pose proof (listed_length _ _ Hfull Hinv) as Hlen. unfold listing_inv, zlen in *. lia. }
    destruct (list_page_slice (sv_local_rules s) full offset IPC_LIST_PAGE_SIZE Hfull Hu ltac:(done) Hinv)
      as (page & -> & Ho & Hi & Ht & He). cbn [map_err result_bind]. rewrite Ho, Hi, Ht, He. unfold rule_page. cbn [rlo_initialized rlo_revision rlo_rules].
    unfold zlen. by rewrite length_fmap, fmap_take, fmap_drop.
  - intros s profiles s' Hinv H. unfold listing_execute in H. injection H as H <-. split; [done|].
    exists (profile_list_snapshot_id hasher url_as_str (sv_profiles s)). split; [apply hasher_u64|]. intros offset Hoff.
    unfold listing_execute. do 3 f_equal. unfold profile_page. rewrite <-H. f_equal.
    + unfold zsize, zlen, btree_values. by rewrite !length_fmap, btree_iter_length.
    + by rewrite fmap_take, fmap_drop.
Qed.
End listings.

(** ** Witness: the rules of a Supervisor, over a connection that delivers in pieces *)

Definition listing_state : SupervisorState :=
  MkSupervisorState catalog_new sample_set None None refresh_new probe_new 0 None None
    disconnected_stream_health None None None false 0 ∅ (MkDiagnosticRing WRAPPER_DIAGNOSTIC_CAPACITY 1 0 []).
Definition sample_hasher (items : list HashItem) : Z := 5.
Abbreviation sample_listing := (listing_execute sample_url_as_str sample_hasher).
Definition sample_chunks (content : bytes) : list ReadEvent := [Chunk 3; Interrupted].

Definition listed_rules : RuleListOutcome :=
  Eval vm_compute in
  match (sample_listing AppRuleList listing_state).1 with Ok (OutRules o) => o | _ => MkRuleListOutcome false None [] end.

