(* ===== verification/MergePatch.v ===== *)
(** * MergePatch: JSON merge patches between snapshots (src/ipc_runtime/stream.rs)

    The broker sends a status as the patch from the one before ([json_merge_patch]), the client applies it to what it
    has ([apply_json_merge_patch]).  A patch says [null] for a field that is gone, so a field that is [null] in the new
    document is missing in the client's: the two documents are not equal but [similar], which is to have the same
    fields that are not [null], all the way down.  [patched] shows that the client's document stays similar to
    the broker's. *)

From S2P Require Import Prelude Text Json ClientError.
Local Open Scope Z_scope.

Definition is_null (j : Json) : bool := match j with JNull => true | _ => false end.

(** [serde_json::Map::remove] *)
Fixpoint fields_remove (name : str) (fields : list (str * Json)) : list (str * Json) :=
  match fields with
  | [] => []
  | (k, v) :: fields' => if bool_decide (k = name) then fields' else (k, v) :: fields_remove name fields'
  end.

(** [PartialEq] of [serde_json::Value]; objects are equal as maps. *)
Fixpoint json_eqb (a b : Json) {struct a} : bool :=
  match a, b with
  | JNull, JNull => true
  | JBool x, JBool y => Bool.eqb x y
  | JNumber x, JNumber y => x =? y
  | JFloat x, JFloat y => bool_decide (x = y)
  | JString x, JString y => bool_decide (x = y)
  | JArray xs, JArray ys =>
      (fix go xs ys :=
         match xs, ys with
         | [], [] => true
         | x :: xs', y :: ys' => json_eqb x y && go xs' ys'
         | _, _ => false
         end) xs ys
  | JObject xs, JObject ys =>
      bool_decide (length xs = length ys) &&
      (fix go xs :=
         match xs with
         | [] => true
         | (k, x) :: xs' => match fields_get k ys with Some y => json_eqb x y | None => false end && go xs'
         end) xs
  | _, _ => false
  end.

(** The keys that are gone, and the values that are new or different.  No key occurs twice in an object, so the
    insertions into the patch are in the order of the keys. *)
Definition removed_fields (previous current : list (str * Json)) : list (str * Json) :=
  (λ f, (f.1, JNull)) <$> filter (λ f, fields_get f.1 current = None) previous.

Fixpoint json_merge_patch (previous current : Json) {struct current} : Json :=
  match previous, current with
  | JObject previous, JObject fields =>
      JObject (removed_fields previous fields ++
        (fix changed fields :=
           match fields with
           | [] => []
           | (k, v) :: fields' =>
               match fields_get k previous with
               | Some p => if json_eqb p v then changed fields' else (k, json_merge_patch p v) :: changed fields'
               | None => (k, v) :: changed fields'
               end
           end) fields)
  | _, _ => current
  end.

Fixpoint apply_json_merge_patch (target patch : Json) {struct patch} : Json :=
  match patch with
  | JObject patch =>
      JObject
        ((fix go patch target :=
            match patch with
            | [] => target
            | (k, v) :: patch' =>
                go patch'
                  (if is_null v then fields_remove k target
                   else fields_insert k (apply_json_merge_patch (default JNull (fields_get k target)) v) target)
            end) patch (default [] (json_object target)))
  | _ => patch
  end.

(** ** Documents with each key once *)

Fixpoint json_wf (j : Json) : Prop :=
  match j with
  | JArray values => (fix go values := match values with [] => True | v :: values' => json_wf v ∧ go values' end) values
  | JObject fields =>
      NoDup fields.*1 ∧ (fix go fields := match fields with [] => True | (_, v) :: fields' => json_wf v ∧ go fields' end) fields
  | _ => True
  end.
Definition fields_wf (fields : list (str * Json)) : Prop := NoDup fields.*1 ∧ Forall (λ f, json_wf f.2) fields.
Lemma object_wf fields : json_wf (JObject fields) ↔ fields_wf fields.
Proof.
  unfold fields_wf. cbn [json_wf]. split; intros [Hn Hf]; (split; [done|]); clear Hn.
  - induction fields as [|[k v] fields IH]; constructor; [apply Hf|apply IH, Hf].
  - induction Hf as [|[k v] fields Hv _ IH]; [done|]. split; [exact Hv|exact IH].
Qed.
Lemma array_wf values : json_wf (JArray values) ↔ Forall json_wf values.
Proof.
  cbn [json_wf]. split; intros Hf.
  - induction values as [|v values IH]; constructor; [apply Hf|apply IH, Hf].
  - induction Hf as [|v values Hv _ IH]; [done|]. split; [exact Hv|exact IH].
Qed.

(** Induction on documents. *)
Lemma json_nested_ind (P : Json → Prop) :
  (∀ j, json_object j = None → json_array j = None → P j) → (∀ values, Forall P values → P (JArray values)) →
  (∀ fields, Forall (λ f, P f.2) fields → P (JObject fields)) → ∀ j, P j.
Proof.
  intros Hleaf Harr Hobj. fix IH 1. intros j. destruct j as [| | | | |values|fields]; try (by apply Hleaf).
  - apply Harr. induction values as [|v values IHf]; constructor; [apply IH|exact IHf].
  - apply Hobj. induction fields as [|[k v] fields IHf]; constructor; [apply IH|exact IHf].
Qed.

(** ** Fields *)

(** The value of a field that is there and not [null]. *)
Definition field (name : str) (fields : list (str * Json)) : option Json :=
  match fields_get name fields with Some JNull => None | o => o end.

Lemma fields_get_elem k v fields : fields_get k fields = Some v → (k, v) ∈ fields.
Proof.
  induction fields as [|[n w] fields IH]; simpl; [done|]. case_bool_decide; [intros; simplify_eq; by left|]. intros ?. right. by apply IH.
Qed.
Lemma fields_get_None k fields : fields_get k fields = None ↔ k ∉ fields.*1.
Proof.
  induction fields as [|[n w] fields IH]; csimpl; [split; [intros _; apply not_elem_of_nil|done]|].
  rewrite not_elem_of_cons. case_bool_decide; naive_solver.
Qed.
Lemma get_unique k v fields : NoDup fields.*1 → (k, v) ∈ fields → fields_get k fields = Some v.
Proof.
  induction fields as [|[n w] fields IH]; csimpl; [by intros _ ?%elem_of_nil|]. intros [Hn Hd]%NoDup_cons Hin.
  apply elem_of_cons in Hin as [[= -> ->]|Hin]; [by rewrite bool_decide_true|]. rewrite bool_decide_false; [by apply IH|].
  intros ->. apply Hn. apply list_elem_of_fmap. by exists (k, v).
Qed.
Lemma get_remove k name fields :
  NoDup fields.*1 → fields_get k (fields_remove name fields) = if bool_decide (k = name) then None else fields_get k fields.
Proof.
  induction fields as [|[n w] fields IH]; csimpl; [by case_bool_decide|]. intros [Hn Hd]%NoDup_cons.
  destruct (decide (n = name)) as [->|Hne].
  - rewrite (bool_decide_true (name = name)) by done. rewrite bool_decide_decide. case_decide as Hk; [subst; by apply fields_get_None|].
    by rewrite bool_decide_false by congruence.
  - rewrite (bool_decide_false (n = name)) by done. simpl. rewrite IH by done. repeat case_bool_decide; congruence.
Qed.
Lemma insert_NoDup k v fields : NoDup fields.*1 → NoDup (fields_insert k v fields).*1.
Proof.
  intros Hn. induction fields as [|[n w] fields IH]; csimpl in *; [apply NoDup_singleton|]. apply NoDup_cons in Hn as [Hin Hn].
  case_bool_decide; csimpl; apply NoDup_cons; (split; [|auto]); [done|].
  rewrite <-fields_get_None, get_insert, bool_decide_false by congruence. by apply fields_get_None.
Qed.
Lemma remove_NoDup k fields : NoDup fields.*1 → NoDup (fields_remove k fields).*1.
Proof.
  intros Hn. induction fields as [|[n w] fields IH]; csimpl in *; [done|]. apply NoDup_cons in Hn as [Hin Hn].
  case_bool_decide; csimpl; [done|]. apply NoDup_cons. split; [|auto].
  rewrite <-fields_get_None, get_remove by done. case_bool_decide; [done|]. by apply fields_get_None.
Qed.
Lemma insert_wf k v fields : fields_wf fields → json_wf v → fields_wf (fields_insert k v fields).
Proof.
  intros [Hn Hf] Hv. split; [by apply insert_NoDup|].
  clear Hn. induction Hf as [|[n w] fields Hw Hf IH]; simpl; [by constructor|]. case_bool_decide; by constructor.
Qed.
Lemma remove_wf k fields : fields_wf fields → fields_wf (fields_remove k fields).
Proof.
  intros [Hn Hf]. split; [by apply remove_NoDup|].
  clear Hn. induction Hf as [|[n w] fields Hw Hf IH]; simpl; [by constructor|]. case_bool_decide; [done|by constructor].
Qed.
Lemma get_wf k v fields : fields_wf fields → fields_get k fields = Some v → json_wf v.
Proof. intros [_ Hf] Hk%fields_get_elem. by eapply Forall_forall in Hk; [|exact Hf]. Qed.

(** ** Similar documents *)

Inductive similar : Json → Json → Prop :=
| similar_same j : similar j j
| similar_array xs ys :
    length xs = length ys → (∀ i x y, xs !! i = Some x → ys !! i = Some y → similar x y) → similar (JArray xs) (JArray ys)
| similar_object a b (value : str → Json) :
    (∀ k v, field k a = Some v → field k b = Some (value k)) → (∀ k v, field k a = Some v → similar v (value k)) →
    (∀ k, field k a = None → field k b = None) → similar (JObject a) (JObject b).

Definition option_similar (a b : option Json) : Prop :=
  match a, b with Some a, Some b => similar a b | None, None => True | _, _ => False end.

Lemma similar_fields a b : (∀ k, option_similar (field k a) (field k b)) → similar (JObject a) (JObject b).
Proof.
  intros H. apply (similar_object a b (λ k, default JNull (field k b))).
  - intros k v Hk. specialize (H k). rewrite Hk in H. destruct (field k b); done.
  - intros k v Hk. specialize (H k). rewrite Hk in H. by destruct (field k b).
  - intros k Hk. specialize (H k). rewrite Hk in H. by destruct (field k b).
Qed.
Lemma option_similar_refl o : option_similar o o.
Proof. destruct o; [apply similar_same|done]. Qed.
(** What is similar to an object is an object with similar fields. *)
Lemma similar_to_object j b : similar j (JObject b) → ∃ a, j = JObject a ∧ ∀ k, option_similar (field k a) (field k b).
Proof.
  intros H. remember (JObject b) as o eqn:Ho. destruct H as [j|xs ys _ _|a b' value H1 H2 H3]; [|done|].
  - subst j. eexists. split; [done|]. intros k. apply option_similar_refl.
  - injection Ho as <-. eexists. split; [done|]. intros k. destruct (field k a) as [v|] eqn:Hk.
    + rewrite (H1 _ _ Hk). cbn. by eapply H2.
    + by rewrite (H3 _ Hk).
Qed.
Lemma similar_from_object j a : similar (JObject a) j → ∃ b, j = JObject b.
Proof. intros H. remember (JObject a) as o eqn:Ho. destruct H; simplify_eq; eauto. Qed.
Lemma similar_object_inv a b : similar (JObject a) (JObject b) → ∀ k, option_similar (field k a) (field k b).
Proof. intros (a' & [= <-] & H)%similar_to_object. done. Qed.
(** What is similar to a document without parts is that document. *)
Lemma similar_leaf j b : json_object b = None → json_array b = None → similar j b → j = b.
Proof. intros Ho Ha H. by destruct H. Qed.
Lemma similar_not_object j b : json_object b = None → similar j b → json_object j = None.
Proof. intros Ho H. by destruct H. Qed.

Lemma similar_trans a b c : similar a b → similar b c → similar a c.
Proof.
  intros Hab. revert c. induction Hab as [j|xs ys Hlen Hall IH|a b value H1 H2 IH H3]; intros c Hbc; [done|..].
  - remember (JArray ys) as o eqn:Ho. destruct Hbc as [j|ys' zs Hlen' Hall'|]; simplify_eq.
    + by apply similar_array.
    + apply similar_array; [congruence|]. intros i x z Hx Hz.
      destruct (lookup_lt_is_Some_2 ys i) as [y Hy]; [rewrite Hlen'; by eapply lookup_lt_Some|]. by eapply IH; [..|eapply Hall'].
  - destruct (similar_from_object _ _ Hbc) as [d ->]. pose proof (similar_object_inv _ _ Hbc) as Hk. apply similar_fields.
    intros k. specialize (Hk k). destruct (field k a) as [v|] eqn:Hv.
    + rewrite (H1 _ _ Hv) in Hk. destruct (field k d); [|done]. cbn in *. by eapply IH.
    + by rewrite (H3 _ Hv) in Hk.
Qed.
#[global] Instance similar_preorder : PreOrder similar.
Proof. split; [intros j; apply similar_same|intros a b c; apply similar_trans]. Qed.

(** ** Equal documents are similar *)

Lemma eqb_array xs ys : json_eqb (JArray xs) (JArray ys) = true → Forall2 (λ x y, json_eqb x y = true) xs ys.
Proof.
  cbn [json_eqb]. revert ys; induction xs as [|x xs IH]; intros [|y ys] H; try done.
  apply andb_true_iff in H as [Hx H]. constructor; [exact Hx|by apply IH].
Qed.
Lemma eqb_object xs ys :
  json_eqb (JObject xs) (JObject ys) = true →
  length xs = length ys ∧ Forall (λ f, ∃ y, fields_get f.1 ys = Some y ∧ json_eqb f.2 y = true) xs.
Proof.
  cbn [json_eqb]. intros [Hl%bool_decide_eq_true H]%andb_true_iff. split; [done|]. clear Hl.
  induction xs as [|[k x] xs IH]; [constructor|]. apply andb_true_iff in H as [Hx H]. constructor; [|by apply IH].
  cbn. destruct (fields_get k ys) as [y|]; [|done]. eauto.
Qed.

Lemma eqb_similar a b : json_wf a → json_wf b → json_eqb a b = true → similar a b.
Proof.
  revert b. induction a as [j Ho Ha|xs IH|xs IH] using json_nested_ind; intros b Hwa Hwb Heq.
  - assert (j = b) as ->; [|reflexivity]. destruct j, b; cbn in Heq, Ho, Ha; try done; f_equal.
    + by apply Bool.eqb_prop.
    + by apply Z.eqb_eq.
    + by apply bool_decide_eq_true in Heq.
    + by apply bool_decide_eq_true in Heq.
  - destruct b as [| | | | |ys|]; try done. apply eqb_array in Heq. apply array_wf in Hwa, Hwb.
    apply similar_array; [by eapply Forall2_length|]. intros i x y Hx Hy.
    rewrite Forall_lookup in IH, Hwa, Hwb. apply (IH i x Hx); [by eapply Hwa|by eapply Hwb|].
    by eapply Forall2_lookup_lr in Heq.
  - destruct b as [| | | | | |ys]; try done. apply eqb_object in Heq as [Hlen Hall]. apply object_wf in Hwa as [Hda Hwa], Hwb as [Hdb Hwb].
    rewrite Forall_forall in IH, Hwa, Hwb, Hall. apply similar_fields. intros k. unfold field.
    destruct (fields_get k xs) as [x|] eqn:Hx.
    + destruct (Hall _ (fields_get_elem _ _ _ Hx)) as (y & Hy & Hxy). cbn in Hy, Hxy. rewrite Hy.
      pose proof (IH _ (fields_get_elem _ _ _ Hx) y (Hwa _ (fields_get_elem _ _ _ Hx)) (Hwb _ (fields_get_elem _ _ _ Hy)) Hxy) as Hs. cbn in Hs.
      by destruct x, y.
    + destruct (fields_get k ys) as [y|] eqn:Hy; [|done]. exfalso. apply fields_get_None in Hx. apply Hx.
      assert (xs.*1 ≡ₚ ys.*1) as Hperm.
      { apply submseteq_length_Permutation; [|rewrite !length_fmap; lia]. apply NoDup_submseteq; [done|].
        intros n ([n' v] & -> & Hin)%list_elem_of_fmap. destruct (Hall _ Hin) as (w & Hw & _). cbn in *.
        apply list_elem_of_fmap. exists (n', w). split; [done|by apply fields_get_elem]. }
      rewrite Hperm. apply list_elem_of_fmap. exists (k, y). split; [done|by apply fields_get_elem].
Qed.

(** ** What a patch says and what applying it does *)

Fixpoint changed_fields (previous fields : list (str * Json)) : list (str * Json) :=
  match fields with
  | [] => []
  | (k, v) :: fields' =>
      match fields_get k previous with
      | Some p => if json_eqb p v then changed_fields previous fields' else (k, json_merge_patch p v) :: changed_fields previous fields'
      | None => (k, v) :: changed_fields previous fields'
      end
  end.
Fixpoint patched_fields (patch target : list (str * Json)) : list (str * Json) :=
  match patch with
  | [] => target
  | (k, v) :: patch' =>
      patched_fields patch'
        (if is_null v then fields_remove k target
         else fields_insert k (apply_json_merge_patch (default JNull (fields_get k target)) v) target)
  end.
Lemma merge_patch_object previous current :
  json_merge_patch (JObject previous) (JObject current) = JObject (removed_fields previous current ++ changed_fields previous current).
Proof.
  cbn [json_merge_patch]. do 2 f_equal. induction current as [|[k v] current IH]; [done|].
  cbn. destruct (fields_get k previous) as [p|]; [destruct (json_eqb p v)|]; by rewrite IH.
Qed.
Lemma apply_object target patch :
  apply_json_merge_patch target (JObject patch) = JObject (patched_fields patch (default [] (json_object target))).
Proof. reflexivity. Qed.

Lemma fields_get_app k a b : fields_get k (a ++ b) = match fields_get k a with Some v => Some v | None => fields_get k b end.
Proof. induction a as [|[n w] a IH]; simpl; [done|]. by case_bool_decide. Qed.
Lemma get_removed k previous current :
  fields_get k (removed_fields previous current) =
  match fields_get k previous, fields_get k current with Some _, None => Some JNull | _, _ => None end.
Proof.
  unfold removed_fields. induction previous as [|[n w] previous IH]; [done|].
  rewrite filter_cons. cbn [fst]. destruct (decide (fields_get n current = None)) as [Hn|Hn]; cbn [fmap list_fmap fst fields_get].
  - destruct (decide (n = k)) as [->|Hne]; [by rewrite !bool_decide_true, Hn|]. by rewrite !(bool_decide_false (n = k)).
  - destruct (decide (n = k)) as [->|Hne]; [|by rewrite (bool_decide_false (n = k))].
    rewrite (bool_decide_true (k = k)) by done.
    destruct (fields_get k current); [|done]. rewrite IH. by destruct (fields_get k previous).
Qed.
Lemma get_changed k previous current :
  NoDup current.*1 →
  fields_get k (changed_fields previous current) =
  match fields_get k current with
  | None => None
  | Some v => match fields_get k previous with
              | Some p => if json_eqb p v then None else Some (json_merge_patch p v)
              | None => Some v
              end
  end.
Proof.
  induction current as [|[n v] current IH]; csimpl; [done|]. intros [Hn Hd]%NoDup_cons. specialize (IH Hd).
  apply fields_get_None in Hn. destruct (decide (n = k)) as [->|Hne].
  - rewrite (bool_decide_true (k = k)) by done. rewrite Hn in IH.
    destruct (fields_get k previous) as [p|]; [destruct (json_eqb p v); [done|]|]; simpl; by rewrite bool_decide_true.
  - rewrite (bool_decide_false (n = k)) by done.
    destruct (fields_get n previous) as [p|]; [destruct (json_eqb p v); [done|]|]; simpl; by rewrite bool_decide_false.
Qed.

(** The patch between two objects. *)
Lemma get_patch k previous current :
  NoDup current.*1 →
  fields_get k (removed_fields previous current ++ changed_fields previous current) =
  match fields_get k current, fields_get k previous with
  | None, Some _ => Some JNull
  | None, None => None
  | Some v, Some p => if json_eqb p v then None else Some (json_merge_patch p v)
  | Some v, None => Some v
  end.
Proof.
  intros Hd. rewrite fields_get_app, get_removed, get_changed by done. by destruct (fields_get k current), (fields_get k previous).
Qed.

Lemma get_patched k patch target :
  NoDup patch.*1 → NoDup target.*1 →
  fields_get k (patched_fields patch target) =
  match fields_get k patch with
  | None => fields_get k target
  | Some v => if is_null v then None else Some (apply_json_merge_patch (default JNull (fields_get k target)) v)
  end.
Proof.
  revert target; induction patch as [|[n v] patch IH]; intros target; csimpl; [done|]. intros [Hn Hd]%NoDup_cons Ht.
  apply fields_get_None in Hn. rewrite IH; [|done|].
  2: { destruct (is_null v); [by apply remove_NoDup|by apply insert_NoDup]. }
  destruct (decide (n = k)) as [->|Hne].
  - rewrite Hn, (bool_decide_true (k = k)) by done. destruct (is_null v); [by rewrite get_remove, bool_decide_true|].
    by rewrite get_insert, bool_decide_true.
  - rewrite (bool_decide_false (n = k)) by done. destruct (is_null v).
    + rewrite get_remove by done. by rewrite bool_decide_false.
    + rewrite get_insert. by rewrite bool_decide_false.
Qed.

Lemma changed_keys k previous current : k ∈ (changed_fields previous current).*1 → k ∈ current.*1.
Proof.
  induction current as [|[n v] current IH]; csimpl; [done|]. rewrite elem_of_cons.
  destruct (fields_get n previous) as [p|]; [destruct (json_eqb p v); [auto|]|]; csimpl; rewrite elem_of_cons; naive_solver.
Qed.
Lemma patch_NoDup previous current :
  NoDup previous.*1 → NoDup current.*1 → NoDup (removed_fields previous current ++ changed_fields previous current).*1.
Proof.
  intros Hp Hc. rewrite fmap_app. apply NoDup_app. split_and!.
  - unfold removed_fields. rewrite <-list_fmap_compose. by apply NoDup_fmap_filter.
  - intros k (f & -> & ([n w] & -> & [Hn _]%list_elem_of_filter)%list_elem_of_fmap)%list_elem_of_fmap Hk%changed_keys.
    by apply fields_get_None in Hn.
  - induction current as [|[n v] current IH]; csimpl in *; [apply NoDup_nil_2|]. apply NoDup_cons in Hc as [Hn Hc].
    destruct (fields_get n previous) as [p|]; [destruct (json_eqb p v); [auto|]|]; csimpl; apply NoDup_cons;
      (split; [by intros ?%changed_keys|auto]).
Qed.

Lemma patched_wf patch target :
  NoDup patch.*1 → fields_wf target →
  (∀ k v, fields_get k patch = Some v → is_null v = false → json_wf (apply_json_merge_patch (default JNull (fields_get k target)) v)) →
  fields_wf (patched_fields patch target).
Proof.
  revert target; induction patch as [|[n v] patch IH]; intros target; csimpl; [done|]. intros [Hn Hd]%NoDup_cons Ht Hv.
  apply fields_get_None in Hn. pose proof (Hv n v) as Hnv. rewrite bool_decide_true in Hnv by done.
  assert (∀ k w, fields_get k patch = Some w → n ≠ k) as Hne by (intros k w Hk ->; by rewrite Hn in Hk).
  apply IH; [done| |].
  - destruct (is_null v) eqn:Hnull; [by apply remove_wf|]. apply insert_wf; auto.
  - intros k w Hk Hw. specialize (Hne k w Hk).
    assert (fields_get k (if is_null v then fields_remove n target
      else fields_insert n (apply_json_merge_patch (default JNull (fields_get n target)) v) target) = fields_get k target) as ->.
    { destruct (is_null v); [rewrite get_remove by apply Ht|rewrite get_insert]; by rewrite bool_decide_false. }
    apply Hv; [|done]. by rewrite bool_decide_false.
Qed.

(** ** The client's document *)

Lemma apply_null t p : is_null (apply_json_merge_patch t p) = is_null p.
Proof. by destruct p. Qed.
Lemma merge_null p c : is_null (json_merge_patch p c) = is_null c.
Proof. by destruct p, c. Qed.
Lemma similar_null a b : similar a b → is_null a = is_null b.
Proof. by destruct 1. Qed.
Lemma field_get k fields : field k fields = match fields_get k fields with Some v => if is_null v then None else Some v | None => None end.
Proof. unfold field. by destruct (fields_get k fields) as [[]|]. Qed.
Lemma option_similar_get (a b : Json) :
  similar a b → option_similar (if is_null a then None else Some a) (if is_null b then None else Some b).
Proof. intros H. rewrite (similar_null _ _ H). by destruct (is_null b). Qed.

(** A patch without an object before it is the document. *)
Lemma applied_whole c v :
  json_wf c → json_object v = None → similar (apply_json_merge_patch v c) c ∧ json_wf (apply_json_merge_patch v c).
Proof.
  revert v. induction c as [j Ho Ha|xs IH|fields IH] using json_nested_ind; intros v Hwf Hv.
  - assert (apply_json_merge_patch v j = j) as -> by (by destruct j). by split.
  - by split.
  - rewrite apply_object, Hv. cbn [default]. apply object_wf in Hwf as Hf. pose proof Hf as [Hd _].
    rewrite Forall_forall in IH.
    assert (∀ k w, fields_get k fields = Some w → similar (apply_json_merge_patch JNull w) w ∧ json_wf (apply_json_merge_patch JNull w)) as Hw.
    { intros k w Hk. apply (IH _ (fields_get_elem _ _ _ Hk)); [exact (get_wf _ _ _ Hf Hk)|done]. }
    split.
    + apply similar_fields. intros k. rewrite !field_get, get_patched by (done || apply NoDup_nil_2). cbn [fields_get default].
      destruct (fields_get k fields) as [w|] eqn:Hk; [|done]. destruct (is_null w) eqn:Hnull; [done|].
      rewrite apply_null, Hnull. by apply (Hw k).
    + apply object_wf, patched_wf; [done|split; [apply NoDup_nil_2|constructor]|]. intros k w Hk _. by apply (Hw k).
Qed.

(** The client's document follows the broker's. *)
Lemma patched c p v :
  json_wf c → json_wf p → json_wf v → similar v p →
  similar (apply_json_merge_patch v (json_merge_patch p c)) c ∧ json_wf (apply_json_merge_patch v (json_merge_patch p c)).
Proof.
  revert p v. induction c as [c Ho Ha|xs IH|fields IH] using json_nested_ind; intros p v Hc Hp Hv Hs.
  - assert (json_merge_patch p c = c) as -> by (by destruct p, c).
    assert (apply_json_merge_patch v c = c) as -> by (by destruct c). by split.
  - assert (json_merge_patch p (JArray xs) = JArray xs) as -> by (by destruct p). by split.
  - destruct (json_object p) as [ps|] eqn:Hpo.
    2: { assert (json_merge_patch p (JObject fields) = JObject fields) as -> by (by destruct p).
         apply applied_whole; [done|]. by eapply similar_not_object. }
    destruct p as [| | | | | |ps']; cbn in Hpo; simplify_eq. apply similar_to_object in Hs as (vs & -> & Hs).
    rewrite merge_patch_object, apply_object. change (default [] (json_object (JObject vs))) with vs.
    apply object_wf in Hc as Hcf, Hp as Hpf, Hv as Hvf. pose proof Hcf as [Hcd _]. pose proof Hpf as [Hpd _]. pose proof Hvf as [Hvd _].
    pose proof (patch_NoDup ps fields Hpd Hcd) as Hpatch. rewrite Forall_forall in IH.
    (* the value the client gets for a field that the patch sets *)
    assert (∀ k w d, fields_get k fields = Some w →
      fields_get k (removed_fields ps fields ++ changed_fields ps fields) = Some d → is_null d = false →
      similar (apply_json_merge_patch (default JNull (fields_get k vs)) d) w ∧
      json_wf (apply_json_merge_patch (default JNull (fields_get k vs)) d)) as Hset.
    { intros k w d Hk Hd Hnull. rewrite get_patch, Hk in Hd by done.
      assert (json_wf w) as Hw by exact (get_wf _ _ _ Hcf Hk). specialize (Hs k). rewrite !field_get in Hs.
      assert (json_wf (default JNull (fields_get k vs))) as Hvk.
      { destruct (fields_get k vs) eqn:Hvs; [exact (get_wf _ _ _ Hvf Hvs)|done]. }
      assert (fields_get k ps = None ∨ fields_get k ps = Some JNull → json_object (default JNull (fields_get k vs)) = None) as Hno.
      { intros [He|He]; rewrite He in Hs; destruct (fields_get k vs) as [[]|]; done. }
      destruct (fields_get k ps) as [q|] eqn:Hq; [|simplify_eq; apply applied_whole; auto].
      destruct (json_eqb q w); [done|]. simplify_eq. destruct (is_null q) eqn:Hqn.
      - destruct q; try done. assert (json_merge_patch JNull w = w) as -> by (by destruct w). apply applied_whole; auto.
      - rewrite ?Hqn in Hs. destruct (fields_get k vs) as [u|] eqn:Hu; [|done]. destruct (is_null u) eqn:Hun; [done|]. cbn [default] in *.
        apply (IH _ (fields_get_elem _ _ _ Hk)); [done|exact (get_wf _ _ _ Hpf Hq)|done|exact Hs]. }
    split.
    + apply similar_fields. intros k. rewrite !field_get, get_patched by done.
      destruct (fields_get k (removed_fields ps fields ++ changed_fields ps fields)) as [d|] eqn:Hd.
      * destruct (fields_get k fields) as [w|] eqn:Hk.
        2: { rewrite get_patch, Hk in Hd by done. destruct (fields_get k ps); by simplify_eq. }
        destruct (is_null d) eqn:Hnull.
        { rewrite get_patch, Hk in Hd by done. assert (is_null w = true) as ->; [|done].
          destruct (fields_get k ps) as [q|]; [destruct (json_eqb q w)|]; simplify_eq; [|done]. by rewrite merge_null in Hnull. }
        rewrite apply_null, Hnull. destruct (Hset k w d Hk Hd Hnull) as [Hsim _].
        pose proof (option_similar_get _ _ Hsim) as Ho. by rewrite apply_null, Hnull in Ho.
      * rewrite get_patch in Hd by done. specialize (Hs k). rewrite !field_get in Hs.
        destruct (fields_get k fields) as [w|] eqn:Hk; destruct (fields_get k ps) as [q|] eqn:Hq; try done.
        destruct (json_eqb q w) eqn:Heq; [|done].
        pose proof (eqb_similar q w (get_wf _ _ _ Hpf Hq) (get_wf _ _ _ Hcf Hk) Heq) as Hqw.
        pose proof (option_similar_get _ _ Hqw) as Ho. revert Hs Ho.
        generalize (match fields_get k vs with Some v => if is_null v then None else Some v | None => None end).
        destruct (is_null q), (is_null w); intros [u|] H1 H2; try done. exact (similar_trans _ _ _ H1 H2).
    + apply object_wf, patched_wf; [done|done|]. intros k d Hd Hnull.
      destruct (fields_get k fields) as [w|] eqn:Hk; [by apply (Hset k w d)|].
      rewrite get_patch, Hk in Hd by done. destruct (fields_get k ps); by simplify_eq.
Qed.
