(* ===== verification/StatusDelta.v ===== *)
(** * StatusDelta: a status read from a similar document

    The client decodes documents that are only [similar] to the ones that the broker encoded.  It makes no
    difference: every field of a status whose absence means something else than [null] is always sent
    ([status_similar]). *)

From S2P Require Import Prelude Text Constants Json Domain Diagnostics Frame Request Application ClientError WireStatus WireOutput MergePatch.
Local Open Scope Z_scope.

#[local] Arguments lit : simpl never.

(** ** Reading fields *)

(** The decoder reads the same from every document that is similar to this one. *)
Definition respects {A} (d : Json → option A) (e : Json) : Prop := ∀ v, json_wf v → similar v e → d v = d e.

Lemma field_of_object fields name : NoDup fields.*1 → json_field fields name = Some (fields_get name fields).
Proof.
  unfold json_field. induction fields as [|[n w] fields IH]; [done|]. csimpl. intros [Hn Hd]%NoDup_cons.
  rewrite filter_cons. cbn [fst]. destruct (decide (n = name)) as [->|Hne].
  - rewrite (bool_decide_true (name = name)) by done. rewrite filter_none; [done|].
    intros [k v] Hin Hk. cbn in Hk. subst k. apply Hn. apply list_elem_of_fmap. by exists (name, v).
  - rewrite (bool_decide_false (n = name)) by done. by apply IH.
Qed.

Lemma respects_leaf {A} (d : Json → option A) e : json_object e = None → json_array e = None → respects d e.
Proof. intros Ho Ha v _ Hs. by rewrite (similar_leaf v e Ho Ha Hs). Qed.
Lemma mapM_pointwise {A} (d : Json → option A) xs ys :
  length xs = length ys → (∀ i x y, xs !! i = Some x → ys !! i = Some y → d x = d y) → mapM d xs = mapM d ys.
Proof.
  revert ys; induction xs as [|x xs IH]; intros [|y ys] Hlen H; [done..|]. simpl.
  rewrite (H 0%nat x y eq_refl eq_refl), (IH ys); [done|simpl in Hlen; lia|]. intros i. apply (H (S i)).
Qed.
Lemma respects_array {A B} (d : Json → option A) (f : B → Json) l :
  (∀ x, respects d (f x)) → respects (json_vec d) (JArray (f <$> l)).
Proof.
  intros Hf v Hwf Hs. remember (JArray (f <$> l)) as e eqn:He. destruct Hs as [j|xs ys Hlen Hall|]; [done| |done].
  injection He as ->. cbn [json_vec]. apply array_wf in Hwf. rewrite Forall_lookup in Hwf. apply mapM_pointwise; [done|].
  intros i x y Hx Hy. apply list_lookup_fmap_Some in Hy as Hy'. destruct Hy' as (b & -> & Hb). apply Hf; [by eapply Hwf|by eapply Hall].
Qed.
Lemma respects_option {A B} (d : Json → option A) (f : B → Json) o :
  (∀ x, respects d (f x)) → respects d (json_option f o).
Proof. intros Hf. destruct o; [apply Hf|by apply respects_leaf]. Qed.

Lemma bind_ext {A B} (o o' : option A) (f g : A → option B) : o = o' → (∀ x, f x = g x) → o ≫= f = o' ≫= g.
Proof. intros -> Hf. destruct o'; [apply Hf|done]. Qed.

(** The fields of a document and those that were encoded. *)
Record similar_fields_of (fs es : list (str * Json)) : Prop := {
  sf_wf : fields_wf fs;
  sf_encoded : NoDup es.*1;
  sf_similar : ∀ k, option_similar (field k fs) (field k es);
}.

Section fields.
Context {A : Type} (fs es : list (str * Json)) (Hsf : similar_fields_of fs es) (d : Json → option A).

Lemma present_field name e :
  fields_get name es = Some e → is_null e = false → respects d e → ∃ v, fields_get name fs = Some v ∧ is_null v = false ∧ d v = d e.
Proof.
  destruct Hsf as [Hwf _ Hs]. intros He Hn Hd. specialize (Hs name). rewrite !field_get, He, Hn in Hs.
  destruct (fields_get name fs) as [v|] eqn:Hv; [|done]. destruct (is_null v) eqn:Hnv; [done|].
  exists v. split_and!; [done..|]. apply Hd; [by eapply get_wf|done].
Qed.
Lemma required_same name e :
  fields_get name es = Some e → is_null e = false → respects d e → json_required fs name d = json_required es name d.
Proof.
  intros He Hn Hd. destruct (present_field name e He Hn Hd) as (v & Hv & _ & Hdv). destruct Hsf as [[Hfd _] Hed _].
  unfold json_required. rewrite !field_of_object by done. rewrite Hv, He. exact Hdv.
Qed.
Lemma default_same name e x :
  fields_get name es = Some e → is_null e = false → respects d e → json_default fs name d x = json_default es name d x.
Proof.
  intros He Hn Hd. destruct (present_field name e He Hn Hd) as (v & Hv & _ & Hdv). destruct Hsf as [[Hfd _] Hed _].
  unfold json_default. rewrite !field_of_object by done. rewrite Hv, He. exact Hdv.
Qed.
Lemma optional_same name e :
  fields_get name es = Some e → respects d e → json_optional fs name d = json_optional es name d.
Proof.
  intros He Hd. unfold json_optional. pose proof Hsf as [[Hfd _] Hed Hs]. rewrite !field_of_object, He by done. cbn [mbind option_bind].
  destruct (is_null e) eqn:Hn.
  - specialize (Hs name). rewrite !field_get, He, Hn in Hs. destruct e; try done. by destruct (fields_get name fs) as [[]|].
  - destruct (present_field name e He Hn Hd) as (v & -> & Hnv & Hdv). rewrite <-Hdv. by destruct v, e.
Qed.
End fields.

Create HintDb respects.
Ltac keys_differ := apply (bool_decide_unpack _); vm_compute; exact I.
Ltac value_respects :=
  lazymatch goal with
  | |- respects (json_vec _) (JArray _) => apply respects_array; intros; value_respects
  | |- respects _ (json_option _ _) => apply respects_option; intros; value_respects
  | |- _ => first [apply respects_leaf; reflexivity | solve [eauto with respects nocore]]
  end.
(** A struct, field by field. *)
Ltac struct_respects :=
  let v := fresh "v" in let Hwf := fresh "Hwf" in let Hs := fresh "Hs" in let fs := fresh "fs" in let Hsf := fresh "Hsf" in
  intros v Hwf Hs; apply similar_to_object in Hs as (fs & -> & Hs);
  lazymatch type of Hs with
  | ∀ k, option_similar _ (field _ ?es) =>
      assert (similar_fields_of fs es) as Hsf by (split; [by apply object_wf|keys_differ|exact Hs]);
      lazymatch goal with |- (_ ≫= ?read) = _ => change (read fs = read es) end; cbv beta
  end;
  repeat lazymatch goal with
  | |- (_ ≫= _) = (_ ≫= _) =>
      apply bind_ext;
      [lazymatch goal with
       | |- json_required _ _ _ = _ => eapply (required_same _ _ Hsf); [reflexivity|reflexivity|value_respects]
       | |- json_default _ _ _ _ = _ => eapply (default_same _ _ Hsf); [reflexivity|reflexivity|value_respects]
       | |- json_optional _ _ _ = _ => eapply (optional_same _ _ Hsf); [reflexivity|value_respects]
       | |- _ => reflexivity
       end|intros]
  end; try reflexivity.

Lemma connection_similar c : respects connection_of_json (connection_to_json c).
Proof. unfold connection_of_json, connection_to_json. struct_respects. Qed.
Lemma recovery_snapshot_similar r : respects recovery_snapshot_of_json (recovery_snapshot_to_json r).
Proof. unfold recovery_snapshot_of_json, recovery_snapshot_to_json. struct_respects. Qed.
#[export] Hint Resolve connection_similar recovery_snapshot_similar : respects.
Lemma apply_snapshot_similar a : respects apply_snapshot_of_json (apply_snapshot_to_json a).
Proof. unfold apply_snapshot_of_json, apply_snapshot_to_json. struct_respects. Qed.
Lemma probe_queue_similar q : respects probe_queue_wire_of_json (probe_queue_to_json q).
Proof. unfold probe_queue_wire_of_json, probe_queue_to_json. struct_respects. Qed.
Lemma supervisor_status_similar s : respects supervisor_status_of_json (supervisor_status_to_json s).
Proof. unfold supervisor_status_of_json, supervisor_status_to_json. struct_respects. Qed.
Lemma restart_status_similar r : respects restart_status_of_json (restart_status_to_json r).
Proof. unfold restart_status_of_json, restart_status_to_json. struct_respects. Qed.
#[export] Hint Resolve apply_snapshot_similar probe_queue_similar supervisor_status_similar restart_status_similar : respects.
Lemma core_status_similar c : respects core_status_of_json (core_status_to_json c).
Proof. unfold core_status_of_json, core_status_to_json. struct_respects. Qed.
Lemma tun_status_similar s : respects tun_status_of_json (tun_status_to_json s).
Proof. unfold tun_status_of_json, tun_status_to_json. struct_respects. Qed.
Lemma selected_node_similar n : respects selected_node_of_json (selected_node_to_json n).
Proof. unfold selected_node_of_json, selected_node_to_json. struct_respects. Qed.
Lemma latency_sample_similar s : respects latency_sample_of_json (latency_sample_to_json s).
Proof. unfold latency_sample_of_json, latency_sample_to_json. struct_respects. Qed.
Lemma traffic_sample_similar s : respects traffic_sample_of_json (traffic_sample_to_json s).
Proof. unfold traffic_sample_of_json, traffic_sample_to_json. struct_respects. Qed.
Lemma stream_health_similar h : respects stream_health_of_json (stream_health_to_json h).
Proof. unfold stream_health_of_json, stream_health_to_json. struct_respects. Qed.
Lemma active_profile_similar uuid_to_string uuid_parse p :
  respects (active_profile_of_json uuid_parse) (active_profile_to_json uuid_to_string p).
Proof. unfold active_profile_of_json, active_profile_to_json. struct_respects. Qed.
#[export] Hint Resolve core_status_similar tun_status_similar selected_node_similar latency_sample_similar traffic_sample_similar stream_health_similar active_profile_similar : respects.

(** A status is read alike from every document that is similar to its encoding. *)
Lemma status_similar uuid_to_string uuid_parse s : respects (status_of_json uuid_parse) (status_to_json uuid_to_string s).
Proof. unfold status_of_json, status_to_json. struct_respects. Qed.

(** ** Encodings have each key once *)

Create HintDb json_wf.
Ltac value_wf :=
  cbn [snd];
  lazymatch goal with
  | |- json_wf (JArray (_ <$> _)) => apply array_wf, Forall_fmap, Forall_true; intros ?; value_wf
  | |- json_wf (json_option _ ?o) => destruct o; cbn [json_option]; value_wf
  | |- json_wf (JObject _) => apply object_wf; split; [keys_differ|repeat (apply Forall_cons; split; [value_wf|]); apply Forall_nil; exact I]
  | |- (_ ∘ _) _ => unfold compose; value_wf
  | |- _ => first [exact I | solve [eauto with json_wf nocore]]
  end.

Lemma status_wf uuid_to_string s : json_wf (status_to_json uuid_to_string s).
Proof.
  unfold status_to_json, supervisor_status_to_json, core_status_to_json, restart_status_to_json, tun_status_to_json, active_profile_to_json,
    selected_node_to_json, latency_sample_to_json, traffic_sample_to_json, connection_to_json, apply_snapshot_to_json,
    recovery_snapshot_to_json, probe_queue_to_json, stream_health_to_json. value_wf.
Qed.
