(* ===== verification/StatusStream.v ===== *)
(** * StatusStream: the broker of status streams and the client that follows one (src/ipc_runtime/stream.rs)

    The broker keeps the last status as a document and the subscriptions as weak references; [hub_subscriptions] are
    the ones that a server thread still holds.  Publishing sends every subscriber the patch from the last status, within
    the bounds of its queue ([Subscriber]).  The client ([StatusStream]) applies patches to its own document and decodes it.

    [status_followed]: whatever is published, subscribed, dropped and sent in whatever order, a client never sees
    anything but the statuses that were published, one after the other and each with its number, until its queue
    overflows and it is told to resynchronise. *)

From S2P Require Import Prelude Text Constants Json Domain Frame Request Application Subscriber ClientError WireStatus WireOutput MergePatch StatusDelta.
Local Open Scope Z_scope.

(** ** Subscribers

    [subscribers.retain(..)]: a reference that cannot be upgraded is dropped, the others are served. *)

Fixpoint retain_live {Q} (serve : Q → Q) (subscribers : list nat) (held : gmap nat Q) : list nat * gmap nat Q :=
  match subscribers with
  | [] => ([], held)
  | id :: subscribers' =>
      match held !! id with
      | None => retain_live serve subscribers' held
      | Some q =>
          let '(kept, held) := retain_live serve subscribers' (<[id := serve q]> held) in
          (id :: kept, held)
      end
  end.

Lemma retain_live_spec {Q} (serve : Q → Q) subscribers held :
  NoDup subscribers →
  (retain_live serve subscribers held).1 = filter (λ i, is_Some (held !! i)) subscribers ∧
  ∀ i, (retain_live serve subscribers held).2 !! i =
    (λ q, if bool_decide (i ∈ subscribers) then serve q else q) <$> held !! i.
Proof.
  revert held; induction subscribers as [|id subscribers IH]; intros held; cbn [retain_live].
  { intros _. split; [done|]. intros i. cbn [snd]. destruct (held !! i) eqn:E; cbn; rewrite ?E; [|done]. by rewrite bool_decide_false by (by apply not_elem_of_nil). }
  intros [Hid Hd]%NoDup_cons. rewrite filter_cons. destruct (held !! id) as [q|] eqn:Hq.
  - rewrite decide_True by eauto. destruct (IH (<[id := serve q]> held) Hd) as [Hkept Hheld].
    destruct (retain_live _ _ _) as [kept held'] eqn:E. cbn [fst snd] in *. split.
    + f_equal. rewrite Hkept. apply list_filter_iff. intros x. destruct (decide (x = id)) as [->|];
        [rewrite lookup_insert_eq, Hq; split; eauto|by rewrite lookup_insert_ne].
    + intros i. rewrite Hheld. destruct (decide (i = id)) as [->|Hne].
      * rewrite lookup_insert_eq, Hq. cbn. rewrite bool_decide_false, bool_decide_true by (done || by left). done.
      * rewrite lookup_insert_ne by done. destruct (held !! i); cbn; [|done]. f_equal. repeat case_bool_decide; set_solver.
  - rewrite decide_False by (by intros []). destruct (IH held Hd) as [Hkept Hheld]. split; [done|].
    intros i. rewrite Hheld. destruct (held !! i) eqn:Hi; cbn; [|done]. f_equal. repeat case_bool_decide; set_solver.
Qed.

(** ** The broker *)

Inductive StreamBrokerError :=
| BrokerEncoding
| BrokerInvalidCapacity
| BrokerItemTooLarge
| BrokerStatusSequence (expected actual : Z)
| BrokerLogSequence (expected actual : Z)
| BrokerSequenceExhausted.

Record StatusBrokerState := MkStatusBrokerState {
  sb_sequence : Z;
  sb_timestamp : Z;
  sb_snapshot : Json;
  sb_subscribers : list nat;
}.

(** The broker with the subscriptions that are still held, by their references. *)
Record StatusHub := MkStatusHub {
  hub_broker : StatusBrokerState;
  hub_subscriptions : gmap nat StatusSubscriber;
}.

Section broker.
Context (uuid_to_string : Z → str) (uuid_parse : str → option Z) (json_to_vec : Json → bytes).
Abbreviation encode := (encode_status_snapshot uuid_to_string).

Definition ensure_stream_item_size (j : Json) : result unit StreamBrokerError :=
  if saturating_sub IPC_FRAME_MAX_BYTES 4096 <? zlen (json_to_vec j) then Err BrokerItemTooLarge else Ok tt.

(** The status side of [with_log_capacity]. *)
Definition status_broker_new (sequence timestamp : Z) (snapshot : StatusSnapshot) (log_capacity : Z)
  : result StatusBrokerState StreamBrokerError :=
  if log_capacity =? 0 then Err BrokerInvalidCapacity
  else
    let snapshot := encode snapshot in
    guard? ensure_stream_item_size snapshot in
    Ok (MkStatusBrokerState sequence timestamp snapshot []).

(** [StatusSubscription::publish] for every subscriber that can still be upgraded. *)
Definition publish_to (subscribers : list nat) (sequence timestamp : Z) (patch : Json) (held : gmap nat StatusSubscriber)
  : list nat * gmap nat StatusSubscriber :=
  retain_live (λ q, (status_publish q sequence timestamp patch).2) subscribers held.

Definition publish_status (sequence timestamp : Z) (snapshot : StatusSnapshot) (hub : StatusHub)
  : result unit StreamBrokerError * StatusHub :=
  let state := hub_broker hub in
  let snapshot := encode snapshot in
  match
    (guard? ensure_stream_item_size snapshot in
     let? expected := ok_or (checked_add (sb_sequence state) 1) BrokerSequenceExhausted in
     guard? (if sequence =? expected then Ok tt else Err (BrokerStatusSequence expected sequence)) in
     let patch := json_merge_patch (sb_snapshot state) snapshot in
     guard? ensure_stream_item_size patch in
     Ok patch)
  with
  | Err e => (Err e, hub)
  | Ok patch =>
      let '(kept, held) := publish_to (sb_subscribers state) sequence timestamp patch (hub_subscriptions hub) in
      (Ok tt, MkStatusHub (MkStatusBrokerState sequence timestamp snapshot kept) held)
  end.

(** A new subscription gets the reference [id], which nothing else has. *)
Definition subscribe_status (id : nat) (hub : StatusHub) : result StatusStreamItem StreamBrokerError * StatusHub :=
  let state := hub_broker hub in
  let subscribers := filter (λ i, is_Some (hub_subscriptions hub !! i)) (sb_subscribers state) in
  let state := MkStatusBrokerState (sb_sequence state) (sb_timestamp state) (sb_snapshot state) subscribers in
  match status_new STATUS_SUBSCRIBER_CAPACITY (sb_sequence state) (sb_timestamp state) (sb_snapshot state) with
  | Err _ => (Err BrokerInvalidCapacity, MkStatusHub state (hub_subscriptions hub))
  | Ok queue =>
      match status_pop_front queue with
      | (None, _) => (Err BrokerEncoding, MkStatusHub state (hub_subscriptions hub))
      | (Some initial, queue) =>
          (Ok initial,
           MkStatusHub (MkStatusBrokerState (sb_sequence state) (sb_timestamp state) (sb_snapshot state) (subscribers ++ [id]))
             (<[id := queue]> (hub_subscriptions hub)))
      end
  end.

(** [StatusSubscription::wait_next], as far as the queue goes; the end of a server thread drops its subscription. *)
Definition wait_next (id : nat) (hub : StatusHub) : option StatusStreamItem * StatusHub :=
  match hub_subscriptions hub !! id with
  | None => (None, hub)
  | Some q =>
      let '(item, q) := status_pop_front q in
      (item, MkStatusHub (hub_broker hub) (<[id := q]> (hub_subscriptions hub)))
  end.
Definition drop_subscription (id : nat) (hub : StatusHub) : StatusHub :=
  MkStatusHub (hub_broker hub) (delete id (hub_subscriptions hub)).

(** ** The client *)

Inductive StatusStreamUpdate :=
| UpdateSnapshot (sequence timestamp : Z) (snapshot : StatusSnapshot)
| UpdateDelta (sequence timestamp : Z) (patch : Json) (snapshot : StatusSnapshot)
| UpdateResyncRequired (expected_sequence observed_sequence : Z).

Record StatusStream := MkStatusStream {
  st_current_snapshot : option Json;
  st_last_sequence : option Z;
  st_finished : bool;
}.
Definition status_stream_new : StatusStream := MkStatusStream None None false.
Definition finish (s : StatusStream) : StatusStream := MkStatusStream (st_current_snapshot s) (st_last_sequence s) true.

Definition decode_snapshot (value : Json) : result StatusSnapshot ApplicationError :=
  ok_or (decode_status_snapshot uuid_parse value) (protocol_error (lit "The IPC status snapshot is invalid")).

Definition decode_item (item : StatusStreamItem) (s : StatusStream) : result StatusStreamUpdate ApplicationError * StatusStream :=
  match item with
  | Snapshot sequence timestamp snapshot =>
      match st_current_snapshot s with
      | Some _ => (Err (protocol_error (lit "The status subscription received an unexpected snapshot")), finish s)
      | None =>
          match decode_snapshot snapshot with
          | Err e => (Err e, s)
          | Ok decoded =>
              (Ok (UpdateSnapshot sequence timestamp decoded), MkStatusStream (Some snapshot) (Some sequence) (st_finished s))
          end
      end
  | Event sequence timestamp event =>
      match st_last_sequence s ≫= λ value, checked_add value 1 with
      | None => (Err (protocol_error (lit "The status subscription requires a full snapshot")), finish s)
      | Some expected =>
          if negb (sequence =? expected)
          then (Err (protocol_error (lit "The status subscription sequence is invalid")), finish s)
          else
            match st_current_snapshot s with
            | None => (Err (protocol_error (lit "The status subscription started without a snapshot")), finish s)
            | Some current =>
                let current := apply_json_merge_patch current event in
                match decode_snapshot current with
                | Err e => (Err e, MkStatusStream (Some current) (st_last_sequence s) (st_finished s))
                | Ok decoded =>
                    (Ok (UpdateDelta sequence timestamp event decoded), MkStatusStream (Some current) (Some sequence) (st_finished s))
                end
            end
      end
  | ResyncRequired expected observed =>
      let valid := match st_last_sequence s with
                   | Some last => match checked_add last 1 with Some next => next <=? expected | None => false end
                   | None => false
                   end && (expected <=? observed) in
      if valid then (Ok (UpdateResyncRequired expected observed), finish s)
      else (Err (protocol_error (lit "The status resynchronization marker is invalid")), finish s)
  end.

(** The payload of a frame, and [next_item] over the frames that arrive; [None] when they end. *)
Inductive IpcStreamPayload :=
| PayloadStatus (item : StatusStreamItem)
| PayloadLogs (item : LogStreamItem)
| PayloadHeartbeat.
Fixpoint next_item_loop (frames : list IpcStreamPayload) (s : StatusStream)
  : result (option StatusStreamUpdate) ApplicationError * list IpcStreamPayload * StatusStream :=
  match frames with
  | [] => (Ok None, [], finish s)
  | PayloadHeartbeat :: frames' => next_item_loop frames' s
  | PayloadLogs _ :: frames' =>
      (Err (protocol_error (lit "The status subscription received a log stream frame")), frames', finish s)
  | PayloadStatus item :: frames' =>
      let '(update, s) := decode_item item s in
      (match update with Ok update => Ok (Some update) | Err e => Err e end, frames', s)
  end.
Definition next_item (frames : list IpcStreamPayload) (s : StatusStream)
  : result (option StatusStreamUpdate) ApplicationError * list IpcStreamPayload * StatusStream :=
  if st_finished s then (Ok None, frames, s) else next_item_loop frames s.

End broker.

(** ** Following a stream

    One subscription, [me], with the thread that serves it and its client; other subscriptions come and go. *)

Section following.
Context (uuid_to_string : Z → str) (uuid_parse : str → option Z) (json_to_vec : Json → bytes) (me : nat).
Abbreviation encode := (encode_status_snapshot uuid_to_string).
Abbreviation follow := (next_item uuid_parse).
#[local] Opaque status_to_json status_of_json status_shown.

Inductive FollowOp :=
| FollowPublish (sequence timestamp : Z) (snapshot : StatusSnapshot)
| FollowSubscribe (id : nat)
| FollowWait (id : nat)
| FollowDrop (id : nat)
| FollowSend.

Record FollowRun := MkFollowRun {
  fr_hub : StatusHub;
  fr_stream : StatusStream;
  fr_updates : list (result (option StatusStreamUpdate) ApplicationError);
  fr_published : gmap Z StatusSnapshot;
  fr_closed : bool;
}.

(** The thread sends the item and ends after a marker; the client reads what is sent. *)
Definition deliver (item : StatusStreamItem) (hub : StatusHub) (r : FollowRun) : FollowRun :=
  let '(update, _, stream) := follow [PayloadStatus item] (fr_stream r) in
  MkFollowRun hub stream (fr_updates r ++ [update]) (fr_published r)
    match item with ResyncRequired _ _ => true | _ => false end.

Definition follow_step (r : FollowRun) (op : FollowOp) : FollowRun :=
  let with_hub hub := MkFollowRun hub (fr_stream r) (fr_updates r) (fr_published r) (fr_closed r) in
  match op with
  | FollowPublish sequence timestamp snapshot =>
      match publish_status uuid_to_string json_to_vec sequence timestamp snapshot (fr_hub r) with
      | (Ok _, hub) =>
          MkFollowRun hub (fr_stream r) (fr_updates r) (<[sequence := snapshot]> (fr_published r)) (fr_closed r)
      | (Err _, hub) => with_hub hub
      end
  | FollowSubscribe id => with_hub (subscribe_status id (fr_hub r)).2
  | FollowWait id => with_hub (wait_next id (fr_hub r)).2
  | FollowDrop id => with_hub (drop_subscription id (fr_hub r))
  | FollowSend =>
      if fr_closed r then r
      else
        match wait_next me (fr_hub r) with
        | (None, hub) => with_hub hub
        | (Some item, hub) => deliver item hub r
        end
  end.

(** References are not reused, and published statuses have numbers that fit. *)
Definition follow_op_ok (r : FollowRun) (op : FollowOp) : Prop :=
  match op with
  | FollowPublish _ _ snapshot => status_ok uuid_to_string uuid_parse snapshot
  | FollowSubscribe id => id ≠ me ∧ id ∉ sb_subscribers (hub_broker (fr_hub r))
  | FollowWait id | FollowDrop id => id ≠ me
  | FollowSend => True
  end.
Fixpoint follow_run (r : FollowRun) (ops : list FollowOp) : FollowRun :=
  match ops with [] => r | op :: ops' => follow_run (follow_step r op) ops' end.
Fixpoint follow_ops_ok (r : FollowRun) (ops : list FollowOp) : Prop :=
  match ops with [] => True | op :: ops' => follow_op_ok r op ∧ follow_ops_ok (follow_step r op) ops' end.

(** The subscription is made and the client reads the first item. *)
Definition follow_start (hub : StatusHub) (snapshot : StatusSnapshot) : option FollowRun :=
  match subscribe_status me hub with
  | (Ok item, hub) =>
      Some (deliver item hub (MkFollowRun hub status_stream_new [] {[sb_sequence (hub_broker hub) := snapshot]} false))
  | (Err _, _) => None
  end.

(** *** What the client sees *)

(** The update shows the status that was published as number [n]. *)
Definition shows_status (published : gmap Z StatusSnapshot) (n : Z) (u : result (option StatusStreamUpdate) ApplicationError) : Prop :=
  ∃ s ts, published !! n = Some s ∧
    (u = Ok (Some (UpdateSnapshot n ts (status_shown s))) ∨ ∃ patch, u = Ok (Some (UpdateDelta n ts patch (status_shown s)))).
Definition shows_from (published : gmap Z StatusSnapshot) (first : Z) (us : list (result (option StatusStreamUpdate) ApplicationError)) : Prop :=
  ∀ i u, us !! i = Some u → shows_status published (first + Z.of_nat i) u.

(** The events of a queue lead from the status [n] to the status [last]. *)
Fixpoint queue_leads (published : gmap Z StatusSnapshot) (n : Z) (queue : list StatusStreamItem) (last : Z) : Prop :=
  match queue with
  | [] => n = last
  | Event sequence _ patch :: queue' =>
      sequence = n + 1 ∧ n + 1 ≤ u64_max ∧
      (∃ s s', published !! n = Some s ∧ published !! (n + 1) = Some s' ∧ patch = json_merge_patch (encode s) (encode s')) ∧
      queue_leads published (n + 1) queue' last
  | _ => False
  end.

(** The client is at status [n] with a document similar to it. *)
Definition client_at (published : gmap Z StatusSnapshot) (n : Z) (c : StatusStream) : Prop :=
  st_last_sequence c = Some n ∧ st_finished c = false ∧
  ∃ v s, st_current_snapshot c = Some v ∧ published !! n = Some s ∧ json_wf v ∧ similar v (encode s).

Definition subscription_at (published : gmap Z StatusSnapshot) (n last : Z) (q : StatusSubscriber) : Prop :=
  1 ≤ ss_capacity q ∧
  if ss_requires_resync q
  then ∃ e o, ss_queue q = [ResyncRequired e o] ∧ n + 1 ≤ e ≤ u64_max ∧ e ≤ o
  else ss_last_sequence q = last ∧ queue_leads published n (ss_queue q) last.

Record follow_inv (first : Z) (r : FollowRun) : Prop := {
  fi_references : NoDup (sb_subscribers (hub_broker (fr_hub r)));
  fi_broker : ∃ s, fr_published r !! sb_sequence (hub_broker (fr_hub r)) = Some s ∧ sb_snapshot (hub_broker (fr_hub r)) = encode s;
  fi_published : ∀ n s, fr_published r !! n = Some s →
    n ≤ sb_sequence (hub_broker (fr_hub r)) ∧ status_ok uuid_to_string uuid_parse s;
  fi_follows : ∃ us marker, fr_updates r = us ++ marker ∧ us ≠ [] ∧ shows_from (fr_published r) first us ∧
    if fr_closed r
    then ∃ e o, marker = [Ok (Some (UpdateResyncRequired e o))] ∧ first + zlen us ≤ e ≤ o
    else marker = [] ∧ me ∈ sb_subscribers (hub_broker (fr_hub r)) ∧
      client_at (fr_published r) (first + zlen us - 1) (fr_stream r) ∧
      ∃ q, hub_subscriptions (fr_hub r) !! me = Some q ∧
        subscription_at (fr_published r) (first + zlen us - 1) (sb_sequence (hub_broker (fr_hub r))) q;
}.

(** *** More statuses *)

Section more.
Context (published published' : gmap Z StatusSnapshot) (Hsub : published ⊆ published').

Lemma shows_from_more first us : shows_from published first us → shows_from published' first us.
Proof. intros H i u Hu. destruct (H i u Hu) as (s & ts & Hs & Hsh). exists s, ts. split; [exact (lookup_weaken _ _ _ _ Hs Hsub)|exact Hsh]. Qed.
Lemma queue_leads_more n queue last : queue_leads published n queue last → queue_leads published' n queue last.
Proof.
  revert n; induction queue as [|item queue IH]; intros n; cbn; [done|]. destruct item; try done.
  intros (-> & Hm & (s & s' & Hs & Hs' & ->) & Hq). split; [reflexivity|]. split; [exact Hm|]. split; [|exact (IH _ Hq)].
  exists s, s'. exact (conj (lookup_weaken _ _ _ _ Hs Hsub) (conj (lookup_weaken _ _ _ _ Hs' Hsub) eq_refl)).
Qed.
Lemma client_at_more n c : client_at published n c → client_at published' n c.
Proof. intros (H1 & H2 & v & s & H3 & H4 & H5). split; [exact H1|]. split; [exact H2|]. exists v, s. exact (conj H3 (conj (lookup_weaken _ _ _ _ H4 Hsub) H5)). Qed.
Lemma subscription_at_more n last q : subscription_at published n last q → subscription_at published' n last q.
Proof.
  intros [Hc H]. split; [exact Hc|]. destruct (ss_requires_resync q); [exact H|]. destruct H as [Hl Hq].
  exact (conj Hl (queue_leads_more _ _ _ Hq)).
Qed.
End more.

Lemma queue_leads_le published n queue last : queue_leads published n queue last → n ≤ last.
Proof.
  revert n; induction queue as [|[] queue IH]; intros n; cbn; try done; [lia|]. intros (_ & _ & _ & H%IH). lia.
Qed.
Lemma queue_leads_snoc published n queue last s s' ts :
  queue_leads published n queue last → last + 1 ≤ u64_max → published !! last = Some s → published !! (last + 1) = Some s' →
  queue_leads published n (queue ++ [Event (last + 1) ts (json_merge_patch (encode s) (encode s'))]) (last + 1).
Proof.
  intros Hq Hm Hs Hs'. revert n Hq; induction queue as [|item queue IH]; intros n; cbn.
  - intros ->. split_and!; [done..| |done]. by exists s, s'.
  - destruct item; try done. intros (-> & Hmax & Hp & Hq). split_and!; [done..|]. by apply IH.
Qed.

(** A subscriber gets the next status. *)
Lemma publish_at published n last q s s' ts :
  subscription_at published n last q → last + 1 ≤ u64_max → published !! last = Some s → published !! (last + 1) = Some s' →
  subscription_at published n (last + 1)
    (status_publish q (last + 1) ts (json_merge_patch (encode s) (encode s'))).2.
Proof.
  intros [Hcap H] Hm Hs Hs'. unfold status_publish. destruct (ss_requires_resync q) eqn:Hr.
  - destruct H as (e & o & Hq & He & Ho). split; [done|]. unfold update_resync_marker. cbn [snd ss_requires_resync ss_queue]. rewrite Hr, Hq. exists e, (Z.max o (last + 1)). split; [reflexivity|lia].
  - destruct H as [Hl Hq]. rewrite Hl. unfold checked_add. rewrite (proj2 (Z.leb_le _ _)) by done. rewrite Z.eqb_refl. cbn [negb orb].
    destruct (_ =? _); cbn [snd].
    + split; [done|]. cbn. exists (last + 1), (last + 1). pose proof (queue_leads_le _ _ _ _ Hq). split; [reflexivity|lia].
    + split; [done|]. cbn [ss_requires_resync ss_last_sequence ss_queue]. split; [reflexivity|]. by apply queue_leads_snoc.
Qed.

(** *** Reading *)

Lemma decode_similar v s :
  status_ok uuid_to_string uuid_parse s → json_wf v → similar v (encode s) → decode_snapshot uuid_parse v = Ok (status_shown s).
Proof.
  intros Hs Hwf Hv. unfold decode_snapshot, decode_status_snapshot. rewrite (status_similar uuid_to_string uuid_parse s v Hwf Hv).
  by rewrite status_wire.
Qed.

(** An event takes the client to the next status. *)
Lemma read_event published n c s s' ts :
  client_at published n c → n + 1 ≤ u64_max → published !! n = Some s → published !! (n + 1) = Some s' →
  status_ok uuid_to_string uuid_parse s' →
  ∃ c' patch, follow [PayloadStatus (Event (n + 1) ts (json_merge_patch (encode s) (encode s')))] c =
    (Ok (Some (UpdateDelta (n + 1) ts patch (status_shown s'))), [], c') ∧ client_at published (n + 1) c'.
Proof.
  intros (Hl & Hf & v & s0 & Hc & Hs0 & Hwf & Hv) Hm Hs Hs' Hok. rewrite Hs in Hs0. injection Hs0 as <-.
  destruct (patched (encode s') (encode s) v) as [Hsim Hwf']; [apply status_wf..|done|done|].
  pose proof (decode_similar _ s' Hok Hwf' Hsim) as Hd. eexists _, _. unfold next_item. rewrite Hf. cbn [next_item_loop decode_item].
  rewrite Hl. cbn [mbind option_bind]. unfold checked_add. rewrite (proj2 (Z.leb_le _ _)) by done. rewrite Z.eqb_refl, Hc, Hd. cbn [negb].
  split; [reflexivity|]. split; [reflexivity|]. split; [exact Hf|]. eexists _, s'.
  exact (conj eq_refl (conj Hs' (conj Hwf' Hsim))).
Qed.
Lemma read_marker published n c e o :
  client_at published n c → n + 1 ≤ e ≤ u64_max → e ≤ o →
  ∃ c', follow [PayloadStatus (ResyncRequired e o)] c = (Ok (Some (UpdateResyncRequired e o)), [], c').
Proof.
  intros (Hl & Hf & _) He Ho. eexists. unfold next_item. rewrite Hf. cbn [next_item_loop decode_item]. rewrite Hl.
  unfold checked_add. rewrite !(proj2 (Z.leb_le _ _)) by lia. reflexivity.
Qed.

(** *** Every step *)

Abbreviation broker r := (hub_broker (fr_hub r)).

Lemma publish_status_spec sequence timestamp s hub res hub' :
  publish_status uuid_to_string json_to_vec sequence timestamp s hub = (res, hub') →
  match res with
  | Err _ => hub' = hub
  | Ok _ =>
      let out := publish_to (sb_subscribers (hub_broker hub)) sequence timestamp
                   (json_merge_patch (sb_snapshot (hub_broker hub)) (encode s)) (hub_subscriptions hub) in
      sequence = sb_sequence (hub_broker hub) + 1 ∧ sequence ≤ u64_max ∧
      hub' = MkStatusHub (MkStatusBrokerState sequence timestamp (encode s) out.1) out.2
  end.
Proof.
  unfold publish_status. destruct (ensure_stream_item_size _ (encode s)); cbn [result_bind]; [|by intros [= <- <-]]. unfold checked_add.
  destruct (Z.leb_spec (sb_sequence (hub_broker hub) + 1) u64_max); cbn [ok_or result_bind]; [|by intros [= <- <-]].
  destruct (Z.eqb_spec sequence (sb_sequence (hub_broker hub) + 1)) as [->|]; cbn [result_bind]; [|by intros [= <- <-]].
  destruct (ensure_stream_item_size _ _); cbn [result_bind]; [|by intros [= <- <-]].
  destruct (publish_to _ _ _ _ _) as [kept held]. intros [= <- <-]. split; [reflexivity|]. split; [assumption|reflexivity].
Qed.

(** Anything that leaves the broker's status and the subscription [me] alone. *)
Lemma follow_inv_hub first r hub' :
  follow_inv first r → sb_sequence (hub_broker hub') = sb_sequence (broker r) → sb_snapshot (hub_broker hub') = sb_snapshot (broker r) →
  NoDup (sb_subscribers (hub_broker hub')) →
  (is_Some (hub_subscriptions (fr_hub r) !! me) → me ∈ sb_subscribers (broker r) → me ∈ sb_subscribers (hub_broker hub')) →
  hub_subscriptions hub' !! me = hub_subscriptions (fr_hub r) !! me →
  follow_inv first (MkFollowRun hub' (fr_stream r) (fr_updates r) (fr_published r) (fr_closed r)).
Proof.
  intros [_ Hb Hp (us & marker & Hu & Hne & Hshow & Hm)] Hseq Hsnap Hd Hme Hheld.
  split; cbn [fr_hub fr_stream fr_updates fr_published fr_closed]; rewrite ?Hseq, ?Hsnap; [exact Hd|exact Hb|exact Hp|].
  exists us, marker. split; [exact Hu|]. split; [exact Hne|]. split; [exact Hshow|]. destruct (fr_closed r); [exact Hm|].
  destruct Hm as (Hmk & Hin & Hc & q & Hq & Hat). split; [exact Hmk|]. split; [apply Hme; [by eexists|exact Hin]|].
  split; [exact Hc|]. exists q. rewrite Hheld. exact (conj Hq Hat).
Qed.

Lemma publish_inv first r sequence timestamp s :
  follow_inv first r → status_ok uuid_to_string uuid_parse s →
  follow_inv first (follow_step r (FollowPublish sequence timestamp s)).
Proof.
  intros Hinv Hok. cbn [follow_step]. destruct (publish_status _ _ _ _ _ _) as [res hub'] eqn:E.
  apply publish_status_spec in E. destruct res as [|e]; [|subst hub'; by destruct r].
  destruct E as (Hseq & Hmax & ->). destruct Hinv as [Hd (s0 & Hs0 & Hsnap) Hp (us & marker & Hu & Hne & Hshow & Hm)].
  rewrite Hsnap. unfold publish_to.
  destruct (retain_live_spec (λ q, (status_publish q sequence timestamp (json_merge_patch (encode s0) (encode s))).2)
    (sb_subscribers (broker r)) (hub_subscriptions (fr_hub r)) Hd) as [Hkept Hheld].
  assert (fr_published r ⊆ <[sequence := s]> (fr_published r)) as Hsub.
  { apply insert_subseteq. destruct (_ !! sequence) as [x|] eqn:Hx; [|reflexivity]. apply Hp in Hx as [Hx _]. lia. }
  split; cbn [fr_hub fr_stream fr_updates fr_published fr_closed hub_broker sb_subscribers sb_sequence sb_snapshot hub_subscriptions].
  - rewrite Hkept. by apply NoDup_filter.
  - exists s. rewrite lookup_insert_eq. split; reflexivity.
  - intros n x. rewrite lookup_insert. case_decide as Hn.
    + subst n. intros [= <-]. split; [lia|exact Hok].
    + intros [Hx Hxok]%Hp. split; [lia|exact Hxok].
  - exists us, marker. split; [exact Hu|]. split; [exact Hne|]. split; [exact (shows_from_more _ _ Hsub _ _ Hshow)|].
    destruct (fr_closed r); [exact Hm|]. destruct Hm as (Hmk & Hin & Hc & q & Hq & Hat). split; [exact Hmk|].
    split; [rewrite Hkept; apply list_elem_of_filter; split; [by eexists|exact Hin]|].
    split; [exact (client_at_more _ _ Hsub _ _ Hc)|]. rewrite Hheld, Hq. cbn [fmap option_fmap option_map]. rewrite bool_decide_true by exact Hin.
    eexists. split; [reflexivity|]. subst sequence. apply publish_at.
    + exact (subscription_at_more _ _ Hsub _ _ _ Hat).
    + exact Hmax.
    + exact (lookup_weaken _ _ _ _ Hs0 Hsub).
    + apply lookup_insert_eq.
Qed.

Lemma zlen_snoc {A} (l : list A) x : zlen (l ++ [x]) = zlen l + 1.
Proof. unfold zlen. rewrite length_app. cbn. lia. Qed.
Lemma shows_from_snoc published first us u :
  shows_from published first us → shows_status published (first + zlen us) u → shows_from published first (us ++ [u]).
Proof.
  intros H Hu i x. rewrite lookup_app_Some. intros [Hx|[Hi Hx]]; [by apply H|].
  apply list_lookup_singleton_Some in Hx as [Hi' <-]. replace (Z.of_nat i) with (zlen us); [exact Hu|]. unfold zlen. lia.
Qed.

(** The other subscriptions. *)
Lemma others_inv first r op :
  follow_inv first r → follow_op_ok r op → match op with FollowPublish _ _ _ | FollowSend => False | _ => True end →
  follow_inv first (follow_step r op).
Proof.
  intros Hinv Hok Hop. destruct op as [|id|id|id|]; [done| | | |done]; cbn [follow_step follow_op_ok] in *.
  - destruct Hok as [Hid Hnew]. apply follow_inv_hub; [exact Hinv|reflexivity..| | |].
    + cbn. apply NoDup_app. split; [apply NoDup_filter, (fi_references _ _ Hinv)|]. split; [|apply NoDup_singleton].
      intros x [_ Hx]%list_elem_of_filter Hx'. apply list_elem_of_singleton in Hx' as ->. by apply Hnew.
    + intros Hme Hin. cbn. apply elem_of_app; left. by apply list_elem_of_filter.
    + cbn. by apply lookup_insert_ne.
  - unfold wait_next. destruct (hub_subscriptions (fr_hub r) !! id) as [q|]; [|by destruct r].
    destruct (status_pop_front q) as [item q']. cbn [snd].
    apply follow_inv_hub; [exact Hinv|reflexivity..|apply (fi_references _ _ Hinv)|auto|]. by apply lookup_insert_ne.
  - apply follow_inv_hub; [exact Hinv|reflexivity..|apply (fi_references _ _ Hinv)|auto|]. by apply lookup_delete_ne.
Qed.

(** The queue of [me] and its next item. *)
Lemma send_inv first r : follow_inv first r → follow_inv first (follow_step r FollowSend).
Proof.
  intros Hinv. cbn [follow_step]. destruct (fr_closed r) eqn:Hcl; [exact Hinv|].
  pose proof Hinv as [Hd Hb Hp (us & marker & Hu & Hne & Hshow & Hm)]. rewrite Hcl in Hm.
  destruct Hm as (-> & Hin & Hc & q & Hq & Hcap & Hat). unfold wait_next, status_pop_front. rewrite Hq.
  destruct (ss_queue q) as [|item queue] eqn:Hqueue.
  { rewrite <-Hcl. apply follow_inv_hub; [exact Hinv|reflexivity..|exact Hd|auto|]. cbn. rewrite Hq. apply lookup_insert_eq. }
  rewrite app_nil_r in Hu. unfold deliver. destruct (ss_requires_resync q) eqn:Hr.
  - destruct Hat as (e & o & [= -> ->] & He & Ho). destruct (read_marker _ _ _ e o Hc) as [c' ->]; [done..|].
    split; cbn [fr_hub fr_stream fr_updates fr_published fr_closed hub_broker]; [exact Hd|exact Hb|exact Hp|].
    eexists us, _. rewrite Hu. split; [reflexivity|]. split; [exact Hne|]. split; [exact Hshow|]. exists e, o. split; [reflexivity|lia].
  - destruct Hat as [Hl Hat]. destruct item as [|n ts patch|]; [done| |done].
    destruct Hat as (-> & Hmax & (s & s' & Hs & Hs' & ->) & Hrest). destruct (Hp _ _ Hs') as [_ Hok'].
    destruct (read_event _ _ _ s s' ts Hc Hmax Hs Hs' Hok') as (c' & patch & -> & Hc').
    split; cbn [fr_hub fr_stream fr_updates fr_published fr_closed hub_broker hub_subscriptions]; [exact Hd|exact Hb|exact Hp|].
    eexists (us ++ [_]), []. rewrite app_nil_r, Hu. split; [reflexivity|]. split; [by destruct us|].
    rewrite zlen_snoc. replace (first + (zlen us + 1) - 1) with (first + zlen us - 1 + 1) by lia.
    split; [|split; [reflexivity|]]; [|split; [exact Hin|]; split; [exact Hc'|]].
    + apply shows_from_snoc; [exact Hshow|]. assert (first + zlen us = first + zlen us - 1 + 1) as Hn by lia. rewrite Hn at 1.
      exists s', ts. split; [exact Hs'|]. right. exists patch. reflexivity.
    + eexists. split; [apply lookup_insert_eq|]. split; [exact Hcap|]. cbn [ss_requires_resync ss_last_sequence ss_queue]. exact (conj Hl Hrest).
Qed.

Lemma follow_step_inv first r op : follow_inv first r → follow_op_ok r op → follow_inv first (follow_step r op).
Proof.
  intros Hinv Hok. destruct op; [by apply publish_inv|by apply others_inv..|by apply send_inv].
Qed.
Lemma follow_run_inv first r ops : follow_inv first r → follow_ops_ok r ops → follow_inv first (follow_run r ops).
Proof.
  revert r; induction ops as [|op ops IH]; intros r Hinv; [done|]. intros [Hop Hops]. apply IH; [by apply follow_step_inv|done].
Qed.

Lemma subscribe_status_eq id hub :
  let state := hub_broker hub in
  subscribe_status id hub =
  (Ok (Snapshot (sb_sequence state) (sb_timestamp state) (sb_snapshot state)),
   MkStatusHub
     (MkStatusBrokerState (sb_sequence state) (sb_timestamp state) (sb_snapshot state)
        (filter (λ i, is_Some (hub_subscriptions hub !! i)) (sb_subscribers state) ++ [id]))
     (<[id := MkStatusSubscriber STATUS_SUBSCRIBER_CAPACITY (sb_sequence state) false []]> (hub_subscriptions hub))).
Proof. reflexivity. Qed.
Lemma read_snapshot n ts s :
  status_ok uuid_to_string uuid_parse s →
  follow [PayloadStatus (Snapshot n ts (encode s))] status_stream_new =
  (Ok (Some (UpdateSnapshot n ts (status_shown s))), [], MkStatusStream (Some (encode s)) (Some n) false).
Proof.
  intros Hok. unfold next_item, status_stream_new. cbn [st_finished next_item_loop decode_item st_current_snapshot].
  by rewrite (decode_similar (encode s) s Hok (status_wf _ _) (similar_same _)).
Qed.

Lemma follow_start_inv hub s :
  NoDup (sb_subscribers (hub_broker hub)) → me ∉ sb_subscribers (hub_broker hub) →
  sb_snapshot (hub_broker hub) = encode s → status_ok uuid_to_string uuid_parse s →
  ∃ r, follow_start hub s = Some r ∧ follow_inv (sb_sequence (hub_broker hub)) r.
Proof.
  intros Hd Hme Hsnap Hok. unfold follow_start. rewrite subscribe_status_eq, Hsnap. unfold deliver. cbn [fr_stream]. rewrite read_snapshot by exact Hok.
  eexists. split; [reflexivity|].
  split; cbn [fr_hub fr_stream fr_updates fr_published fr_closed hub_broker hub_subscriptions sb_subscribers sb_sequence sb_snapshot].
  - apply NoDup_app. split; [by apply NoDup_filter|]. split; [|apply NoDup_singleton].
    intros x [_ Hx]%list_elem_of_filter Hx'. apply list_elem_of_singleton in Hx' as ->. by apply Hme.
  - exists s. split; [apply lookup_singleton_eq|reflexivity].
  - intros n x [<- <-]%lookup_singleton_Some. split; [lia|exact Hok].
  - eexists [_], []. split; [reflexivity|]. split; [discriminate|].
    assert ({[sb_sequence (hub_broker hub) := s]} !! sb_sequence (hub_broker hub) = Some s) as Hs by apply lookup_singleton_eq.
    replace (_ + zlen [_] - 1) with (sb_sequence (hub_broker hub)) by (unfold zlen; cbn; lia).
    split; [|split; [reflexivity|]; split; [|split]].
    + intros [|i] u; [|done]. intros [= <-]. rewrite Z.add_0_r. eexists s, _. split; [exact Hs|left; reflexivity].
    + apply elem_of_app; right. by apply list_elem_of_singleton.
    + split; [reflexivity|]. split; [reflexivity|]. exists (encode s), s. exact (conj eq_refl (conj Hs (conj (status_wf _ _) (similar_same _)))).
    + eexists. split; [apply lookup_insert_eq|]. split; [done|]. by split.
Qed.

(** What a client of a stream has seen: the statuses from [first] on, and perhaps the demand to start again.  When
    nothing waits for it, it has seen the last one. *)
Definition followed (first : Z) (r : FollowRun) : Prop :=
  ∃ us marker, fr_updates r = us ++ marker ∧ us ≠ [] ∧ shows_from (fr_published r) first us ∧
    if fr_closed r
    then ∃ expected observed, marker = [Ok (Some (UpdateResyncRequired expected observed))] ∧ first + zlen us ≤ expected ≤ observed
    else marker = [] ∧
      ∀ q, hub_subscriptions (fr_hub r) !! me = Some q → ss_queue q = [] → first + zlen us - 1 = sb_sequence (hub_broker (fr_hub r)).

(** C16: A client that follows the status sees every status that is published from its subscription on, in order and with
    its number, rebuilt from patches alone; nothing is skipped, repeated or mixed with another, whatever the other
    subscriptions do and however the publications and the sending interleave.  Only when its queue overflows does it see
    something else, once and at the end: the demand to resynchronise, with a number after the last status that it saw.
    While that has not happened and nothing is left in its queue, it has seen the last status. *)
Theorem status_followed hub s ops :
  NoDup (sb_subscribers (hub_broker hub)) → me ∉ sb_subscribers (hub_broker hub) →
  sb_snapshot (hub_broker hub) = encode s → status_ok uuid_to_string uuid_parse s →
  ∃ r, follow_start hub s = Some r ∧
    (follow_ops_ok r ops → followed (sb_sequence (hub_broker hub)) (follow_run r ops)).
Proof.
  intros Hd Hme Hsnap Hok. destruct (follow_start_inv hub s Hd Hme Hsnap Hok) as (r & Hr & Hinv).
  exists r. split; [exact Hr|]. intros Hops. destruct (follow_run_inv _ _ _ Hinv Hops) as [_ _ _ (us & marker & Hu & Hne & Hshow & Hm)].
  exists us, marker. split; [exact Hu|]. split; [exact Hne|]. split; [exact Hshow|].
  destruct (fr_closed (follow_run r ops)); [exact Hm|]. destruct Hm as (-> & _ & _ & q & Hq & _ & Hat). split; [reflexivity|].
  intros q' Hq' Hnil. rewrite Hq in Hq'. injection Hq' as <-. rewrite Hnil in Hat.
  destruct (ss_requires_resync q); [by destruct Hat as (? & ? & ? & _)|]. exact (proj2 Hat).
Qed.
End following.

(** ** An example

    Two statuses are published while another subscription comes and goes; the second is a second later than the first. *)

Definition stream_first : StatusSnapshot := service_status 0 0.
Definition stream_second : StatusSnapshot := service_status 0 1000.
Definition stream_third : StatusSnapshot := service_status 0 2000.
Definition stream_hub : StatusHub :=
  MkStatusHub (MkStatusBrokerState 4 10 (encode_status_snapshot wire_uuid_to_string stream_first) [3%nat]) {[3%nat := MkStatusSubscriber 64 4 false []]}.
Definition stream_ops : list FollowOp :=
  [FollowPublish 5 11 stream_second; FollowSubscribe 8; FollowSend; FollowDrop 3; FollowPublish 6 12 stream_third; FollowSend].

Lemma stream_status_ok now : now ∈ [0; 1000; 2000] → status_ok wire_uuid_to_string wire_uuid_parse (service_status 0 now).
Proof.
  intros Hn. repeat (apply elem_of_cons in Hn as [->|Hn]); [..|by apply elem_of_nil in Hn].
  all: lazymatch goal with |- status_ok _ _ ?s =>
    refine (proj1 (status_read wire_uuid_to_string wire_uuid_parse (status_to_json wire_uuid_to_string s) s wire_uuid_law _)) end; vm_compute; reflexivity.
Qed.

Lemma status_followed_witness :
  ∃ r, follow_start wire_uuid_parse 7 stream_hub stream_first = Some r ∧
    followed 7 4 (follow_run wire_uuid_to_string wire_uuid_parse (λ _, []) 7 r stream_ops) ∧
    fr_updates (follow_run wire_uuid_to_string wire_uuid_parse (λ _, []) 7 r stream_ops) =
    [Ok (Some (UpdateSnapshot 4 10 stream_first));
     Ok (Some (UpdateDelta 5 11 (json_merge_patch (encode_status_snapshot wire_uuid_to_string stream_first) (encode_status_snapshot wire_uuid_to_string stream_second)) stream_second));
     Ok (Some (UpdateDelta 6 12 (json_merge_patch (encode_status_snapshot wire_uuid_to_string stream_second) (encode_status_snapshot wire_uuid_to_string stream_third)) stream_third))].
Proof.
  destruct (status_followed wire_uuid_to_string wire_uuid_parse (λ _, []) 7 stream_hub stream_first stream_ops) as (r & Hr & Hf).
  - apply NoDup_singleton.
  - apply (bool_decide_unpack _). vm_compute. exact I.
  - reflexivity.
  - apply stream_status_ok. by left.
  - exists r. split; [exact Hr|]. vm_compute in Hr. injection Hr as <-. split; [|vm_compute; reflexivity].
    apply Hf. cbn [follow_ops_ok stream_ops follow_op_ok]. split; [apply stream_status_ok; right; by left|].
    split; [split; [done|apply (bool_decide_unpack _); vm_compute; exact I]|]. split; [exact I|]. split; [done|].
    split; [apply stream_status_ok; right; right; by left|]. by split.
Defined.
