(* ===== verification/LogBroker.v ===== *)
(** * LogBroker: the log side of the stream broker and the stream that a client reads
    (src/ipc_runtime/stream.rs, src/production.rs)

    The broker keeps the newest records of the Core Log and hands new ones to the subscriptions.  It is fed by the
    observer of the daemon, which asks the Supervisor for the tail after what it has forwarded ([forward_logs]): without
    a gap it publishes record by record, otherwise it synchronises the whole tail.  A client follows a subscription
    ([LogStream]) or asks for a tail ([log_tail]). *)

From S2P Require Import Prelude Text Constants Json Domain Telemetry Application Subscriber ClientError StatusStream.
Local Open Scope Z_scope.

Definition BROKER_TAIL_ENVELOPE_MAX_BYTES : Z := 4096.

Record LogBrokerState := MkLogBrokerState {
  lb_capacity : Z;
  lb_dropped_total : Z;
  lb_retained_bytes : Z;
  lb_gap_before_earliest : bool;
  lb_sequence_horizon : option Z;
  lb_records : list CoreLogRecord;
  lb_subscribers : list nat;
}.

(** The broker with the subscriptions that are still held, by their references. *)
Record LogHub := MkLogHub {
  lh_broker : LogBrokerState;
  lh_subscriptions : gmap nat LogSubscriber;
}.

(** The log side of [with_log_capacity]. *)
Definition log_broker_new (log_capacity : Z) : result LogBrokerState StreamBrokerError :=
  if log_capacity =? 0 then Err BrokerInvalidCapacity
  else Ok (MkLogBrokerState log_capacity 0 0 false None [] []).

(** ** Gaps *)

Definition max_sequence (left right : option Z) : option Z :=
  match left, right with
  | Some l, Some r => Some (Z.max l r)
  | Some l, None => Some l
  | None, r => r
  end.
(** [Option::or] and the derived order of options, [None] first. *)
Definition option_or {A} (a b : option A) : option A := match a with Some _ => a | None => b end.
Definition option_gtb (a b : option Z) : bool :=
  match a, b with Some a, Some b => b <? a | Some _, None => true | None, _ => false end.

Fixpoint gap_after (expected : Z) (sequences : list Z) (sequence_horizon : option Z) : bool :=
  match sequences with
  | [] => match sequence_horizon with Some horizon => expected <=? horizon | None => false end
  | sequence :: sequences' =>
      if expected <? sequence then true else gap_after (saturating_add sequence 1) sequences' sequence_horizon
  end.
Definition broker_sequence_has_gap (after : Z) (sequences : list Z) (sequence_horizon : option Z) : bool :=
  match checked_add after 1 with None => false | Some expected => gap_after expected sequences sequence_horizon end.
Definition wire_sequence_has_gap (after : Z) (records : list LogRecordV1) (sequence_horizon : option Z) : bool :=
  broker_sequence_has_gap after (lr_sequence <$> records) sequence_horizon.

Fixpoint wire_records_have_gap (records : list LogRecordV1) : bool :=
  match records with
  | a :: ((b :: _) as rest) =>
      match checked_add (lr_sequence a) 1 with
      | None => true
      | Some expected => negb (lr_sequence b =? expected)
      end || wire_records_have_gap rest
  | _ => false
  end.

Section logs.
Context (json_to_vec : Json → bytes).
Abbreviation ensure_stream_item_size := (ensure_stream_item_size json_to_vec).

Definition log_record_to_json (r : LogRecordV1) : Json :=
  JObject [(lit "sequence", JNumber (lr_sequence r)); (lit "timestamp_unix_ms", JNumber (lr_timestamp r));
           (lit "level", JString (lr_level r)); (lit "source", JString (lr_source r)); (lit "message", JString (lr_message r))].

(** ** Publishing *)

Definition record_fits (record : CoreLogRecord) : result unit StreamBrokerError :=
  if CORE_LOG_LINE_MAX_BYTES <? str_len (message record) then Err BrokerItemTooLarge
  else ensure_stream_item_size (log_record_to_json (log_record_from record)).

(** The loop that makes room; [None] of [pop_front] ends it. *)
Fixpoint broker_evict (cap incoming : Z) (records : list CoreLogRecord) (retained dropped : Z) (gap : bool)
  : list CoreLogRecord * Z * Z * bool :=
  if (zlen records =? cap) || (LOG_BROKER_RECOVERY_MAX_BYTES <? saturating_add retained incoming)
  then match records with
       | [] => (records, retained, dropped, gap)
       | r :: records' =>
           broker_evict cap incoming records' (saturating_sub retained (str_len (message r))) (saturating_add dropped 1) true
       end
  else (records, retained, dropped, gap).

Definition publish_log (record : CoreLogRecord) (hub : LogHub) : result unit StreamBrokerError * LogHub :=
  let state := lh_broker hub in
  match
    (guard? record_fits record in
     match lb_sequence_horizon state with
     | None => Ok tt
     | Some horizon =>
         let? expected := ok_or (checked_add horizon 1) BrokerSequenceExhausted in
         if sequence record =? expected then Ok tt else Err (BrokerLogSequence expected (sequence record))
     end)
  with
  | Err e => (Err e, hub)
  | Ok _ =>
      let '(records, retained, dropped, gap) :=
        broker_evict (lb_capacity state) (str_len (message record)) (lb_records state) (lb_retained_bytes state)
          (lb_dropped_total state) (lb_gap_before_earliest state) in
      let '(subscribers, held) := retain_live (λ q, (log_publish q record).2) (lb_subscribers state) (lh_subscriptions hub) in
      (Ok tt,
       MkLogHub (MkLogBrokerState (lb_capacity state) dropped (saturating_add retained (str_len (message record))) gap
                   (Some (sequence record)) (records ++ [record]) subscribers) held)
  end.

(** ** Synchronising a tail *)

Fixpoint validate_tail_records (gap : bool) (records : list CoreLogRecord) (previous : option Z)
  : result (option Z) StreamBrokerError :=
  match records with
  | [] => Ok previous
  | record :: records' =>
      guard? record_fits record in
      guard?
        (match previous with
         | None => Ok tt
         | Some previous =>
             let? expected := ok_or (checked_add previous 1) BrokerSequenceExhausted in
             if (sequence record <? expected) || (negb (sequence record =? expected) && negb gap)
             then Err (BrokerLogSequence expected (sequence record)) else Ok tt
         end) in
      validate_tail_records gap records' (Some (sequence record))
  end.

Definition validate_log_tail (tail : LogTail) : result unit StreamBrokerError :=
  let? previous := validate_tail_records (lt_gap tail) (lt_records tail) None in
  if match previous with Some _ => negb (bool_decide (lt_latest_sequence tail = previous)) | None => false end
     || option_gtb (lt_latest_sequence tail) (lt_sequence_horizon tail)
     || (option_gtb (lt_sequence_horizon tail) (lt_latest_sequence tail) && negb (lt_gap tail))
  then Err BrokerEncoding else Ok tt.

(** The inner and the outer loop over the records of a tail. *)
Fixpoint shed (cap : Z) (records : list CoreLogRecord) (retained truncated : Z) : list CoreLogRecord * Z * Z :=
  if (cap <? zlen records) || (LOG_BROKER_RECOVERY_MAX_BYTES <? retained)
  then match records with
       | [] => (records, retained, truncated)
       | r :: records' => shed cap records' (saturating_sub retained (str_len (message r))) (saturating_add truncated 1)
       end
  else (records, retained, truncated).
Fixpoint retain_tail (cap : Z) (tail records : list CoreLogRecord) (retained truncated : Z)
  : list CoreLogRecord * Z * Z :=
  match tail with
  | [] => (records, retained, truncated)
  | record :: tail' =>
      let '(records, retained, truncated) :=
        shed cap (records ++ [record]) (saturating_add retained (str_len (message record))) truncated in
      retain_tail cap tail' records retained truncated
  end.

Definition publish_records (records : list CoreLogRecord) (q : LogSubscriber) : LogSubscriber :=
  foldl (λ q record, (log_publish q record).2) q records.

Definition synchronize_log_tail (tail : LogTail) (hub : LogHub) : result unit StreamBrokerError * LogHub :=
  match validate_log_tail tail with
  | Err e => (Err e, hub)
  | Ok _ =>
      let state := lh_broker hub in
      if bool_decide (lt_records tail = []) && bool_decide (lt_latest_sequence tail = sequence <$> last (lb_records state))
      then
        let previous := lb_sequence_horizon state in
        let horizon := max_sequence previous (lt_sequence_horizon tail) in
        let '(subscribers, held) :=
          match horizon with
          | Some sequence_horizon =>
              if lt_gap tail && option_gtb horizon previous
              then retain_live (λ q, mark_gap q sequence_horizon) (lb_subscribers state) (lh_subscriptions hub)
              else (lb_subscribers state, lh_subscriptions hub)
          | None => (lb_subscribers state, lh_subscriptions hub)
          end in
        (Ok tt,
         MkLogHub (MkLogBrokerState (lb_capacity state) (Z.max (lb_dropped_total state) (lt_dropped_total tail)) (lb_retained_bytes state)
                     (lb_gap_before_earliest state || lt_gap tail) horizon (lb_records state) subscribers) held)
      else
        let '(subscribers, held) := retain_live (publish_records (lt_records tail)) (lb_subscribers state) (lh_subscriptions hub) in
        let '(records, retained, truncated) := retain_tail (lb_capacity state) (lt_records tail) [] 0 0 in
        (Ok tt,
         MkLogHub (MkLogBrokerState (lb_capacity state) (Z.max (lb_dropped_total state) (saturating_add (lt_dropped_total tail) truncated))
                     retained (lt_gap tail || (0 <? truncated)) (lt_sequence_horizon tail) records subscribers) held)
  end.

(** ** Subscriptions and tails *)

Definition newer_records (after : option Z) (records : list CoreLogRecord) : list CoreLogRecord := filter (newer after) records.

(** What a new subscription finds in its queue. *)
Definition initial_log_queue (after_sequence : option Z) (state : LogBrokerState) (queue : LogSubscriber)
  : result LogSubscriber StreamBrokerError :=
  let requires_resync :=
    match after_sequence with
    | None => false
    | Some after =>
        broker_sequence_has_gap after (sequence <$> newer_records after_sequence (lb_records state)) (lb_sequence_horizon state)
    end in
  if requires_resync
  then match lb_sequence_horizon state with None => Err BrokerEncoding | Some horizon => Ok (mark_gap queue horizon) end
  else match after_sequence with
       | None => Ok queue
       | Some _ => Ok (publish_records (newer_records after_sequence (lb_records state)) queue)
       end.

Definition subscribe_logs (id : nat) (after_sequence : option Z) (hub : LogHub) : result unit StreamBrokerError * LogHub :=
  let state := lh_broker hub in
  let subscribers := filter (λ i, is_Some (lh_subscriptions hub !! i)) (lb_subscribers state) in
  let with_subscribers subscribers :=
    MkLogBrokerState (lb_capacity state) (lb_dropped_total state) (lb_retained_bytes state) (lb_gap_before_earliest state)
      (lb_sequence_horizon state) (lb_records state) subscribers in
  match
    (let? queue := map_err (λ _, BrokerInvalidCapacity) (log_subscriber_new LOG_SUBSCRIBER_CAPACITY after_sequence) in
     initial_log_queue after_sequence state queue)
  with
  | Err e => (Err e, MkLogHub (with_subscribers subscribers) (lh_subscriptions hub))
  | Ok queue => (Ok tt, MkLogHub (with_subscribers (subscribers ++ [id])) (<[id := queue]> (lh_subscriptions hub)))
  end.

Definition log_wait_next (id : nat) (hub : LogHub) : option LogStreamItem * LogHub :=
  match lh_subscriptions hub !! id with
  | None => (None, hub)
  | Some q =>
      let '(item, q) := log_pop_front q in
      (item, MkLogHub (lh_broker hub) (<[id := q]> (lh_subscriptions hub)))
  end.
Definition drop_log_subscription (id : nat) (hub : LogHub) : LogHub :=
  MkLogHub (lh_broker hub) (delete id (lh_subscriptions hub)).

(** The loop of [log_tail] over the newest records first. *)
Fixpoint broker_tail_loop (newest_first : list CoreLogRecord) (acc : list LogRecordV1) (encoded_bytes : Z)
  : list LogRecordV1 * bool :=
  match newest_first with
  | [] => (acc, false)
  | r :: rest =>
      let projected := log_record_from r in
      let record_bytes := saturating_add (zlen (json_to_vec (log_record_to_json projected))) 1 in
      if (zlen acc =? LOG_TAIL_MAX_RECORDS) || (LOG_TAIL_MAX_BYTES <? saturating_add encoded_bytes record_bytes)
      then (acc, true)
      else broker_tail_loop rest (projected :: acc) (saturating_add encoded_bytes record_bytes)
  end.

Definition log_tail (after_sequence : option Z) (state : LogBrokerState) : LogTailV1 :=
  let earliest := sequence <$> head (lb_records state) in
  let latest := sequence <$> last (lb_records state) in
  let horizon := lb_sequence_horizon state in
  let '(records, truncated) :=
    broker_tail_loop (filter (newer after_sequence) (reverse (lb_records state))) [] BROKER_TAIL_ENVELOPE_MAX_BYTES in
  let source_gap :=
    match after_sequence with
    | None => lb_gap_before_earliest state || wire_records_have_gap records || option_gtb horizon latest
    | Some after => wire_sequence_has_gap after records horizon
    end in
  MkLogTailV1 records (lb_dropped_total state) (source_gap || truncated)
    (if truncated then lr_sequence <$> head records else earliest) latest horizon.

(** ** The observer *)

Record LogObserver := MkLogObserver {
  ob_supervisor_log_sequence : option Z;
  ob_broker_logs_seeded : bool;
}.

(** The loop that publishes the records of a tail, and whether it came to the end. *)
Fixpoint forward_records (records : list CoreLogRecord) (o : LogObserver) (hub : LogHub) : bool * LogObserver * LogHub :=
  match records with
  | [] => (true, o, hub)
  | record :: records' =>
      match publish_log record hub with
      | (Ok _, hub) => forward_records records' (MkLogObserver (Some (sequence record)) (ob_broker_logs_seeded o)) hub
      | (Err _, hub) => (false, MkLogObserver (ob_supervisor_log_sequence o) false, hub)
      end
  end.

Definition forward_logs (tail : LogTail) (o : LogObserver) (hub : LogHub) : LogObserver * LogHub :=
  let reached o := MkLogObserver (option_or (lt_sequence_horizon tail) (ob_supervisor_log_sequence o)) (ob_broker_logs_seeded o) in
  if negb (ob_broker_logs_seeded o) || lt_gap tail
  then
    match synchronize_log_tail tail hub with
    | (Ok _, hub) => (reached (MkLogObserver (ob_supervisor_log_sequence o) true), hub)
    | (Err _, hub) => (o, hub)
    end
  else
    let '(synchronized, o, hub) := forward_records (lt_records tail) o hub in
    (if synchronized then reached o else o, hub).
End logs.

(** ** The client's stream *)

Record LogStream := MkLogStream {
  lst_last_sequence : option Z;
  lst_finished : bool;
}.
Definition log_stream_new (after_sequence : option Z) : LogStream := MkLogStream after_sequence false.
Definition log_finish (s : LogStream) : LogStream := MkLogStream (lst_last_sequence s) true.

Definition validate_log_item (item : LogStreamItem) (s : LogStream) : result unit ApplicationError * LogStream :=
  match item with
  | LogRecord record =>
      if sequence_gap (lst_last_sequence s) (lr_sequence record)
      then (Err (protocol_error (lit "The log subscription sequence is invalid")), log_finish s)
      else (Ok tt, MkLogStream (Some (lr_sequence record)) (lst_finished s))
  | LogGap after_sequence latest_sequence =>
      if negb (bool_decide (after_sequence = lst_last_sequence s))
         || match after_sequence with Some after => latest_sequence <=? after | None => false end
      then (Err (protocol_error (lit "The log gap marker is invalid")), log_finish s)
      else (Ok tt, s)
  end.

Fixpoint log_next_item_loop (frames : list IpcStreamPayload) (s : LogStream)
  : result (option LogStreamItem) ApplicationError * list IpcStreamPayload * LogStream :=
  match frames with
  | [] => (Ok None, [], log_finish s)
  | PayloadHeartbeat :: frames' => log_next_item_loop frames' s
  | PayloadStatus _ :: frames' =>
      (Err (protocol_error (lit "The log subscription received a status stream frame")), frames', log_finish s)
  | PayloadLogs item :: frames' =>
      match validate_log_item item s with
      | (Err e, s) => (Err e, frames', s)
      | (Ok _, s) =>
          (Ok (Some item), frames', match item with LogGap _ _ => log_finish s | LogRecord _ => s end)
      end
  end.
Definition log_next_item (frames : list IpcStreamPayload) (s : LogStream)
  : result (option LogStreamItem) ApplicationError * list IpcStreamPayload * LogStream :=
  if lst_finished s then (Ok None, frames, s) else log_next_item_loop frames s.
