(* ===== verification/LogFollow.v ===== *)
(** * LogFollow: what reaches a subscription

    The records of the Core Log that the observer forwards reach every subscription one after the other, or the
    subscription is told of a gap.  [broker_inv] is the broker with its observer, [sub_inv] a subscription whose client
    has the records up to [after]; [forward_inv] shows that forwarding keeps both. *)

From S2P Require Import Prelude Text Constants Json Domain Telemetry Application Subscriber ClientError StatusStream LogBroker.
Local Open Scope Z_scope.

(** ** Sequences of numbers *)

(** Each number is the next one; from [None] the first may be any. *)
Fixpoint consecutive (from : option Z) (l : list Z) : Prop :=
  match l with
  | [] => True
  | x :: l' => match from with Some n => x = n + 1 | None => True end ∧ consecutive (Some x) l'
  end.
(** Each number is greater than the one before. *)
Fixpoint rising (from : option Z) (l : list Z) : Prop :=
  match l with
  | [] => True
  | x :: l' => match from with Some n => n < x | None => True end ∧ rising (Some x) l'
  end.
Definition reached (from : option Z) (l : list Z) : option Z := foldl (λ _ x, Some x) from l.
(** [None] is below everything. *)
Definition below (a b : option Z) : Prop := match a, b with Some a, Some b => a ≤ b | Some _, None => False | None, _ => True end.

Lemma below_refl a : below a a.
Proof. destruct a; simpl; [lia|done]. Qed.
Lemma below_trans a b c : below a b → below b c → below a c.
Proof. destruct a, b, c; simpl; try done; lia. Qed.

Lemma reached_app from l k : reached from (l ++ k) = reached (reached from l) k.
Proof. apply foldl_app. Qed.
Lemma reached_last from l : reached from l = match last l with Some x => Some x | None => from end.
Proof.
  induction l as [|x l IH] using rev_ind; [done|]. by rewrite reached_app, last_snoc.
Qed.
Lemma consecutive_app from l k : consecutive from (l ++ k) ↔ consecutive from l ∧ consecutive (reached from l) k.
Proof. revert from; induction l as [|x l IH]; intros from; simpl; [tauto|]. rewrite IH. cbn. tauto. Qed.
Lemma rising_app from l k : rising from (l ++ k) ↔ rising from l ∧ rising (reached from l) k.
Proof. revert from; induction l as [|x l IH]; intros from; simpl; [tauto|]. rewrite IH. cbn. tauto. Qed.
Lemma consecutive_rising from l : consecutive from l → rising from l.
Proof. revert from; induction l as [|x l IH]; intros from; simpl; [done|]. destruct from; intros [? ?]; split; auto; lia. Qed.
Lemma consecutive_weaken from l : consecutive from l → consecutive None l.
Proof. destruct l; simpl; [done|]. tauto. Qed.
Lemma rising_from from from' l : below from' from → rising from l → rising from' l.
Proof. destruct l; simpl; [done|]. destruct from, from'; simpl; intros; split; try tauto; lia. Qed.
Lemma rising_reached from l : rising from l → below from (reached from l).
Proof.
  revert from; induction l as [|x l IH]; intros from; [intros; apply below_refl|]. intros [Hx Hl]. cbn.
  eapply below_trans; [|by apply IH]. destruct from; simpl; [lia|done].
Qed.
Lemma rising_bound from l x : rising from l → x ∈ l → below (Some x) (reached from l) ∧ match from with Some n => n < x | None => True end.
Proof.
  revert from; induction l as [|y l IH]; intros from; [by intros _ ?%elem_of_nil|]. intros [Hy Hl] [->|Hx]%elem_of_cons.
  - split; [|done]. apply (rising_reached (Some y) l Hl).
  - destruct (IH (Some y) Hl Hx) as [Hr Hlt]. split; [exact Hr|]. destruct from; [lia|done].
Qed.
Lemma rising_newer_from from after rs :
  rising from (sequences rs) → (∀ a, after = Some a → below (Some a) from) → rising from (sequences (filter (newer after) rs)).
Proof.
  revert from; induction rs as [|r rs IH]; intros from; [done|]. intros [Hx Hl] Ha. rewrite filter_cons.
  assert (∀ a, after = Some a → below (Some a) (Some (sequence r))) as Ha'.
  { intros a ->. specialize (Ha a eq_refl). destruct from; simpl in *; [lia|done]. }
  case_decide; [split; [done|by apply IH]|]. eapply rising_from; [|by apply IH]. destruct from; simpl; [lia|done].
Qed.
Lemma rising_newer after rs : rising None (sequences rs) → rising after (sequences (filter (newer after) rs)).
Proof.
  assert (∀ from, rising from (sequences rs) → rising after (sequences (filter (newer after) rs))) as H; [|apply H].
  induction rs as [|r rs IH]; intros from; [done|]. intros [Hx Hl]. rewrite filter_cons. case_decide as Hn; [|by eapply IH].
  split; [by destruct after|]. apply rising_newer_from; [done|]. intros a ->. simpl in *. lia.
Qed.
Lemma StronglySorted_rising l : StronglySorted Z.lt l → rising None l.
Proof.
  induction l as [|x l IH]; [done|]. intros [Hs Hx]%StronglySorted_inv. split; [done|]. specialize (IH Hs).
  destruct l as [|y l]; [done|]. destruct IH as [_ IH]. split; [by apply Forall_cons in Hx as [? _]|done].
Qed.

Lemma seqZ_consecutive n len : 0 ≤ len → consecutive (Some n) (seqZ (n + 1) len) ∧ reached (Some n) (seqZ (n + 1) len) = Some (n + len).
Proof.
  intros Hlen. revert n. pattern len. apply natlike_ind; [| |done].
  - intros n. rewrite seqZ_nil by lia. cbn. by rewrite Z.add_0_r.
  - intros m Hm IH n. rewrite seqZ_cons by lia. rewrite Z.pred_succ. destruct (IH (n + 1)) as [Hc Hr]. change (Z.succ (n + 1)) with (n + 1 + 1).
    split; [by split|]. refine (eq_trans Hr _). f_equal. lia.
Qed.

(** No gap was found: the numbers are consecutive and none is missing at the end. *)
Lemma gap_after_false e l h :
  rising (Some (e - 1)) l → Forall (λ x, x < u64_max) l → gap_after e l h = false →
  consecutive (Some (e - 1)) l ∧ below h (reached (Some (e - 1)) l).
Proof.
  revert e; induction l as [|x l IH]; intros e; cbn [gap_after].
  - intros _ _ Hh. split; [done|]. destruct h as [h|]; simpl; [|done]. apply Z.leb_gt in Hh. lia.
  - intros [Hx Hl] [Hm Hml]%Forall_cons. destruct (Z.ltb_spec e x); [done|]. assert (saturating_add x 1 = x + 1) as -> by (unfold saturating_add; lia).
    intros Hg. destruct (IH (x + 1)) as [Hc Hr]; [by rewrite Z.add_simpl_r|done|done|]. rewrite Z.add_simpl_r in *.
    split; [split; [lia|done]|exact Hr].
Qed.
Lemma gap_after_true e l h :
  rising (Some (e - 1)) l → (∀ x, x ∈ l → below (Some x) h) → gap_after e l h = true → ∃ hz, h = Some hz ∧ e ≤ hz.
Proof.
  revert e; induction l as [|x l IH]; intros e; cbn [gap_after].
  - intros _ _. destruct h as [h|]; [|done]. intros ?%Z.leb_le. eauto.
  - intros [Hx Hl] Hb Hg. pose proof (Hb x ltac:(by left)) as Hxh. destruct h as [hz|]; [|done]. exists hz. split; [done|]. simpl in Hxh. lia.
Qed.

(** ** The source *)

(** The records that were logged, by their numbers: those of [b] and those it no longer has. *)
Record logged_inv (logged : gmap Z CoreLogRecord) (b : LogBuffer) : Prop := {
  li_wf : log_wf b;
  li_line : max_line_bytes b = CORE_LOG_LINE_MAX_BYTES;
  li_kept : Forall (λ r, logged !! sequence r = Some r) (records b);
  li_logged : ∀ n r, logged !! n = Some r →
    sequence r = n ∧ 1 ≤ n < next_sequence b ∧ str_len (message r) ≤ CORE_LOG_LINE_MAX_BYTES;
}.

Definition source_horizon (b : LogBuffer) : option Z := if 1 <? next_sequence b then Some (next_sequence b - 1) else None.

Lemma tail_horizon b after : lt_sequence_horizon (tail_after b after) = source_horizon b.
Proof. unfold tail_after. by destruct (tail_loop _ _ _). Qed.
Lemma tail_latest b after : lt_latest_sequence (tail_after b after) = sequence <$> last (records b).
Proof. unfold tail_after. by destruct (tail_loop _ _ _). Qed.

(** What the observer gets: newer records in order, all of them when there is no gap. *)
Lemma source_tail logged b after :
  logged_inv logged b → below after (source_horizon b) → (∀ a, after = Some a → 0 ≤ a) →
  let t := tail_after b after in
  Forall (λ r, logged !! sequence r = Some r) (lt_records t) ∧
  rising after (sequences (lt_records t)) ∧
  lt_sequence_horizon t = source_horizon b ∧ below (reached after (sequences (lt_records t))) (source_horizon b) ∧
  (lt_gap t = false → consecutive after (sequences (lt_records t)) ∧ reached after (sequences (lt_records t)) = source_horizon b).
Proof.
  intros [Hwf _ Hkept _] Ha Ha0 t. pose proof (log_next _ Hwf) as Hnext. unfold source_horizon in *.
  assert (in_u64 (default 0 after)) as Hu.
  { destruct after as [a|]; [|split; simpl; lia]. specialize (Ha0 a eq_refl). cbn in Ha. destruct (1 <? _); [|done]. split; simpl; lia. }
  destruct (tail_after_spec b after) as (skipped & truncated & Hw & _). pose proof (tail_after_gap_exact b after Hwf Hu) as Hgap. fold t in Hw, Hgap.
  destruct (wanted_range b after Hwf) as [Hs Hr].
  assert (rising after (sequences (filter (newer after) (records b)))) as Hrise
    by (apply rising_newer, StronglySorted_rising, (log_sorted _ Hwf)).
  assert (rising after (sequences (lt_records t))) as Hrt.
  { rewrite Hw in Hrise. unfold sequences in Hrise. rewrite fmap_app in Hrise. apply rising_app in Hrise as [H1 H2].
    eapply rising_from; [by apply rising_reached|exact H2]. }
  split; [|split; [exact Hrt|split; [apply tail_horizon|split]]].
  - rewrite Forall_forall in *. intros r Hin. apply Hkept.
    assert (r ∈ filter (newer after) (records b)) as [_ ?]%list_elem_of_filter by (rewrite Hw; apply elem_of_app; by right). done.
  - rewrite reached_last. destruct (last (sequences (lt_records t))) as [x|] eqn:Hx; [|exact Ha].
    rewrite Hw in Hr. unfold sequences in Hr. rewrite fmap_app in Hr. apply Forall_app in Hr as [_ Hr]. rewrite Forall_forall in Hr.
    apply last_Some_elem_of in Hx. specialize (Hr _ Hx). rewrite (proj2 (Z.ltb_lt _ _)); [simpl; lia|].
    destruct after as [a|]; simpl in *; [specialize (Ha0 a eq_refl)|]; lia.
  - intros Hg. apply Hgap in Hg. rewrite Hg. clear -Hnext Ha Ha0. destruct after as [a|]; simpl in *.
    + destruct (Z.ltb_spec 1 (next_sequence b)); [|done]. destruct (seqZ_consecutive a (next_sequence b - 1 - a)) as [Hc Hr]; [lia|].
      split; [exact Hc|]. rewrite Hr. f_equal. lia.
    + destruct (seqZ_consecutive 0 (next_sequence b - 1 - 0)) as [Hc Hr]; [lia|]. split; [by eapply consecutive_weaken|].
      destruct (Z.ltb_spec 1 (next_sequence b)); [|by rewrite seqZ_nil by lia].
      rewrite seqZ_cons in * by lia. refine (eq_trans Hr _). f_equal. lia.
Qed.

(** ** A subscription *)

(** The queue holds the records after [from], in order, up to [to]. *)
Definition queued (logged : gmap Z CoreLogRecord) (from : option Z) (queue : list LogStreamItem) (to : option Z) : Prop :=
  ∃ rs, queue = (λ r, LogRecord (log_record_from r)) <$> rs ∧ Forall (λ r, logged !! sequence r = Some r) rs ∧
    consecutive from (sequences rs) ∧ to = reached from (sequences rs).

(** The client has what came up to [after]; the broker is at [horizon]. *)
Definition sub_inv (logged : gmap Z CoreLogRecord) (horizon after : option Z) (q : LogSubscriber) : Prop :=
  ls_last_delivered q = after ∧ below after horizon ∧
  if ls_awaiting_tail q
  then ∃ latest, ls_queue q = [LogGap after latest] ∧ match after with Some a => a < latest | None => True end
  else queued logged after (ls_queue q) (ls_last_observed q) ∧ below (ls_last_observed q) horizon.

Definition past (horizon : option Z) (n : Z) : Prop := match horizon with Some h => h < n | None => True end.
Lemma past_below after horizon n : below after horizon → past horizon n → match after with Some a => a < n | None => True end.
Proof. destruct after, horizon; simpl; try done. lia. Qed.

Section subscription.
Context (logged : gmap Z CoreLogRecord).

Lemma sub_require_tail horizon after q n :
  sub_inv logged horizon after q → past horizon n → sub_inv logged (Some n) after (require_tail q n).
Proof.
  intros (Hd & Hb & _) Hn. pose proof (past_below _ _ _ Hb Hn) as Ha. split; [exact Hd|]. split; [destruct after; simpl; [lia|done]|].
  cbn. exists n. rewrite Hd. by split.
Qed.
Lemma sub_gap_marker horizon after q n observed :
  sub_inv logged horizon after q → ls_awaiting_tail q = true → past horizon n →
  sub_inv logged (Some n) after (update_gap_marker (MkLogSubscriber (ls_capacity q) observed (ls_last_delivered q) (ls_awaiting_tail q)
    (ls_gap_count q) (ls_queued_bytes q) (ls_queue q)) n).
Proof.
  intros (Hd & Hb & Hq) Haw Hn. rewrite Haw in *. destruct Hq as (latest & Hq & Hl). pose proof (past_below _ _ _ Hb Hn) as Ha.
  split; [exact Hd|]. split; [destruct after; simpl; [lia|done]|]. cbn. rewrite Hq. exists (Z.max latest n). split; [done|].
  destruct after; [lia|done].
Qed.
Lemma sub_mark_gap horizon after q n :
  sub_inv logged horizon after q → past horizon n → sub_inv logged (Some n) after (mark_gap q n).
Proof.
  intros Hq Hn. unfold mark_gap. destruct (ls_awaiting_tail q) eqn:Haw; [|by eapply sub_require_tail].
  pose proof (sub_gap_marker _ _ _ _ (ls_last_observed q) Hq Haw Hn) as H. by destruct q.
Qed.
Lemma sub_publish horizon after q r :
  sub_inv logged horizon after q → logged !! sequence r = Some r → past horizon (sequence r) →
  sub_inv logged (Some (sequence r)) after (log_publish q r).2.
Proof.
  intros Hq Hr Hn. unfold log_publish. destruct (ls_awaiting_tail q) eqn:Haw.
  { cbn [snd]. rewrite <-Haw. by eapply sub_gap_marker. }
  destruct (sequence_gap (ls_last_observed q) (sequence r)) eqn:Hgap; [by eapply sub_require_tail|]. cbn [orb].
  destruct (_ || _); [by eapply sub_require_tail|]. destruct Hq as (Hd & Hb & Hq). rewrite Haw in Hq.
  destruct Hq as ((rs & Hqueue & Hrs & Hc & Ho) & Hob). pose proof (past_below _ _ _ Hb Hn) as Ha.
  split; [exact Hd|]. split; [destruct after; simpl; [lia|done]|]. cbn. split; [|lia].
  exists (rs ++ [r]). rewrite Hqueue, fmap_app. unfold sequences in *. rewrite fmap_app, consecutive_app, reached_app. split; [done|].
  split; [by apply Forall_app; split; [|constructor]|]. split; [|done]. split; [done|]. rewrite <-Ho. split; [|done].
  unfold sequence_gap in Hgap. destruct (ls_last_observed q) as [o|]; [|done]. destruct (checked_add o 1) as [e|] eqn:He; [|done].
  apply checked_add_Some in He as [-> _]. by apply negb_false_iff, Z.eqb_eq in Hgap.
Qed.
Lemma sub_later horizon horizon' after q : sub_inv logged horizon after q → below horizon horizon' → sub_inv logged horizon' after q.
Proof.
  intros (Hd & Hb & Hq) Hh. split; [done|]. split; [by eapply below_trans|]. destruct (ls_awaiting_tail q); [done|].
  destruct Hq as [Hq Ho]. split; [done|by eapply below_trans].
Qed.
Lemma sub_publish_records horizon after q rs :
  sub_inv logged horizon after q → Forall (λ r, logged !! sequence r = Some r) rs → rising horizon (sequences rs) →
  sub_inv logged (reached horizon (sequences rs)) after (publish_records rs q).
Proof.
  revert horizon q; induction rs as [|r rs IH]; intros horizon q Hq; [done|]. intros [Hr Hrs]%Forall_cons [Hn Hrise].
  apply (IH (Some (sequence r))); [|done|done]. by eapply sub_publish.
Qed.
End subscription.

(** ** The broker *)

Record broker_inv (logged : gmap Z CoreLogRecord) (top : option Z) (o : LogObserver) (st : LogBrokerState) : Prop := {
  bi_observer : ob_supervisor_log_sequence o = lb_sequence_horizon st;
  bi_top : below (lb_sequence_horizon st) top;
  bi_nonneg : ∀ h, lb_sequence_horizon st = Some h → 0 ≤ h;
  bi_logged : Forall (λ r, logged !! sequence r = Some r) (lb_records st);
  bi_rising : rising None (sequences (lb_records st));
  bi_below : below (reached None (sequences (lb_records st))) (lb_sequence_horizon st);
  bi_references : NoDup (lb_subscribers st);
}.

(** The subscription [id] is served. *)
Definition serves (logged : gmap Z CoreLogRecord) (after : option Z) (id : nat) (hub : LogHub) : Prop :=
  id ∈ lb_subscribers (lh_broker hub) ∧
  ∃ q, lh_subscriptions hub !! id = Some q ∧ sub_inv logged (lb_sequence_horizon (lh_broker hub)) after q.

Lemma serve_live logged after id hub serve horizon' st' :
  serves logged after id hub → NoDup (lb_subscribers (lh_broker hub)) →
  (∀ q, sub_inv logged (lb_sequence_horizon (lh_broker hub)) after q → sub_inv logged horizon' after (serve q)) →
  lb_sequence_horizon st' = horizon' →
  lb_subscribers st' = (retain_live serve (lb_subscribers (lh_broker hub)) (lh_subscriptions hub)).1 →
  serves logged after id (MkLogHub st' (retain_live serve (lb_subscribers (lh_broker hub)) (lh_subscriptions hub)).2).
Proof.
  intros [Hin (q & Hq & Hinv)] Hd Hserve Hh Hs. destruct (retain_live_spec serve (lb_subscribers (lh_broker hub)) (lh_subscriptions hub) Hd) as [Hkept Hheld].
  split; cbn [lh_broker lh_subscriptions].
  - rewrite Hs, Hkept. apply list_elem_of_filter. by split; [eexists|].
  - rewrite Hheld, Hq. cbn. rewrite bool_decide_true by done. eexists. split; [reflexivity|]. rewrite Hh. by apply Hserve.
Qed.
Definition keeps_serving (logged : gmap Z CoreLogRecord) (hub hub' : LogHub) : Prop :=
  below (lb_sequence_horizon (lh_broker hub)) (lb_sequence_horizon (lh_broker hub')) ∧
  ∀ id after, serves logged after id hub → serves logged after id hub'.

Lemma broker_evict_suffix cap incoming records retained dropped gap :
  ∃ gone, records = gone ++ (broker_evict cap incoming records retained dropped gap).1.1.1.
Proof.
  revert retained dropped gap; induction records as [|r records IH]; intros retained dropped gap; cbn [broker_evict].
  - exists []. by destruct (_ || _).
  - destruct (_ || _); [|by exists []]. destruct (IH (saturating_sub retained (str_len (message r))) (saturating_add dropped 1) true) as [gone Hg].
    exists (r :: gone). cbn. by f_equal.
Qed.
Lemma shed_suffix cap records retained truncated : ∃ gone, records = gone ++ (shed cap records retained truncated).1.1.
Proof.
  revert retained truncated; induction records as [|r records IH]; intros retained truncated; cbn [shed].
  - exists []. by destruct (_ || _).
  - destruct (_ || _); [|by exists []]. destruct (IH (saturating_sub retained (str_len (message r))) (saturating_add truncated 1)) as [gone Hg].
    exists (r :: gone). cbn. by f_equal.
Qed.
Lemma retain_tail_suffix cap tail records retained truncated :
  ∃ gone, records ++ tail = gone ++ (retain_tail cap tail records retained truncated).1.1.
Proof.
  revert records retained truncated; induction tail as [|r tail IH]; intros records retained truncated; cbn [retain_tail].
  { exists []. by rewrite app_nil_r. }
  pose proof (shed_suffix cap (records ++ [r]) (saturating_add retained (str_len (message r))) truncated) as [gone Hg].
  destruct (shed _ _ _ _) as [[kept retained'] truncated']. cbn in Hg. destruct (IH kept retained' truncated') as [gone' Hg'].
  exists (gone ++ gone'). rewrite <-(assoc_L (++)), <-Hg', (assoc_L (++)), <-Hg. by rewrite <-(assoc_L (++)).
Qed.

Lemma suffix_rising from gone kept :
  rising from (sequences (gone ++ kept)) → rising from (sequences kept) ∧ below (reached None (sequences kept)) (reached None (sequences (gone ++ kept))).
Proof.
  unfold sequences. rewrite fmap_app. intros [Hg Hk]%rising_app. split; [eapply rising_from; [by apply rising_reached|exact Hk]|].
  rewrite reached_app, !reached_last. destruct (last (sequence <$> kept)); [apply below_refl|done].
Qed.

Section broker.
Context (json_to_vec : Json → bytes) (logged : gmap Z CoreLogRecord) (top : option Z).
Abbreviation broker_inv := (broker_inv logged top).
Abbreviation keeps_serving := (keeps_serving logged).

Lemma publish_log_inv o r hub res hub' :
  broker_inv o (lh_broker hub) → logged !! sequence r = Some r → 0 ≤ sequence r → past (lb_sequence_horizon (lh_broker hub)) (sequence r) →
  below (Some (sequence r)) top →
  publish_log json_to_vec r hub = (res, hub') →
  match res with
  | Err _ => hub' = hub
  | Ok _ => broker_inv (MkLogObserver (Some (sequence r)) (ob_broker_logs_seeded o)) (lh_broker hub') ∧ keeps_serving hub hub' ∧
            lb_sequence_horizon (lh_broker hub') = Some (sequence r)
  end.
Proof.
  intros [_ _ _ Hl Hr Hb Hd] Hlog H0 Hpast Htop. unfold publish_log. destruct (result_bind _ _) as [[]|e]; [|by intros [= <- <-]].
  pose proof (broker_evict_suffix (lb_capacity (lh_broker hub)) (str_len (message r)) (lb_records (lh_broker hub))
    (lb_retained_bytes (lh_broker hub)) (lb_dropped_total (lh_broker hub)) (lb_gap_before_earliest (lh_broker hub))) as [gone Hgone].
  destruct (broker_evict _ _ _ _ _ _) as [[[kept retained] dropped] gap]. cbn [fst] in Hgone. rewrite Hgone in Hl, Hr, Hb.
  apply Forall_app in Hl as [_ Hl]. apply suffix_rising in Hr as [Hr Hk].
  pose proof (retain_live_spec (λ q, (log_publish q r).2) _ (lh_subscriptions hub) Hd) as [Hkept _].
  destruct (retain_live _ _ _) as [subscribers held] eqn:Hrl. intros [= <- <-]. cbn [lh_broker lb_sequence_horizon].
  split; [|split; [|done]].
  - split; cbn; try done.
    + by intros h [= <-].
    + apply Forall_app. by split; [|constructor].
    + unfold sequences in *. rewrite fmap_app, rising_app. split; [done|]. split; [|done].
      eapply past_below; [|exact Hpast]. by eapply below_trans.
    + unfold sequences. rewrite fmap_app, reached_app. cbn. lia.
    + cbn [fst] in Hkept. rewrite Hkept. by apply NoDup_filter.
  - split; [destruct (lb_sequence_horizon (lh_broker hub)); simpl in *; [lia|done]|].
    intros id after Hs. pose proof (serve_live logged after id hub (λ q, (log_publish q r).2) (Some (sequence r))) as H. rewrite Hrl in H.
    apply H; [done|done| |done|done]. intros q Hq. by eapply sub_publish.
Qed.

Lemma validate_tail_fits gap rs previous : validate_tail_records json_to_vec gap rs previous = Ok (reached previous (sequences rs)) ∨
  ∃ e, validate_tail_records json_to_vec gap rs previous = Err e.
Proof.
  revert previous; induction rs as [|r rs IH]; intros previous; cbn [validate_tail_records]; [by left|].
  destruct (record_fits _ _); cbn [result_bind]; [|eauto]. destruct (match previous with Some _ => _ | None => _ end); cbn [result_bind]; [|eauto].
  destruct (IH (Some (sequence r))) as [->|[e ->]]; [by left|eauto].
Qed.
Lemma validate_latest tail :
  validate_log_tail json_to_vec tail = Ok tt →
  (∀ n, reached None (sequences (lt_records tail)) = Some n → lt_latest_sequence tail = Some n) ∧
  below (lt_latest_sequence tail) (lt_sequence_horizon tail).
Proof.
  unfold validate_log_tail. destruct (validate_tail_fits (lt_gap tail) (lt_records tail) None) as [->|[e ->]]; [|done]. cbn [result_bind].
  destruct (_ || _) eqn:H; [done|]. intros _. apply orb_false_iff in H as [[H1 H2]%orb_false_iff _]. split.
  - intros n Hn. rewrite Hn in H1. by apply negb_false_iff, bool_decide_eq_true in H1.
  - destruct (lt_latest_sequence tail), (lt_sequence_horizon tail); simpl in *; try done. lia.
Qed.

Lemma keeps_refl hub : keeps_serving hub hub.
Proof. split; [apply below_refl|done]. Qed.
Lemma keeps_trans hub1 hub2 hub3 : keeps_serving hub1 hub2 → keeps_serving hub2 hub3 → keeps_serving hub1 hub3.
Proof. intros [Hb1 H1] [Hb2 H2]. split; [by eapply below_trans|]. intros id after H. by apply H2, H1. Qed.

(** The tail that the observer synchronises continues what it has forwarded. *)
Record continues (horizon : option Z) (tail : LogTail) : Prop := {
  co_logged : Forall (λ r, logged !! sequence r = Some r) (lt_records tail);
  co_rising : rising horizon (sequences (lt_records tail));
  co_horizon : lt_sequence_horizon tail = top;
  co_below : below (reached horizon (sequences (lt_records tail))) top;
  co_nonneg : ∀ t, top = Some t → 0 ≤ t;
}.

Lemma max_sequence_below a b : below a b → max_sequence a b = b.
Proof. destruct a, b; simpl; try done. intros. f_equal. lia. Qed.

Lemma synchronize_inv o tail hub res hub' :
  broker_inv o (lh_broker hub) → continues (lb_sequence_horizon (lh_broker hub)) tail →
  synchronize_log_tail json_to_vec tail hub = (res, hub') →
  match res with
  | Err _ => hub' = hub
  | Ok _ => broker_inv (MkLogObserver (option_or top (ob_supervisor_log_sequence o)) true) (lh_broker hub') ∧ keeps_serving hub hub'
  end.
Proof.
  intros [Ho Htop Hnn Hl Hr Hb Hd] [Hcl Hcr Hch Hcb Hcn]. unfold synchronize_log_tail.
  destruct (validate_log_tail _ _) as [[]|e]; [|by intros [= <- <-]].
  assert (option_or top (ob_supervisor_log_sequence o) = top) as Hor.
  { destruct top; [done|]. cbn. rewrite Ho. by destruct (lb_sequence_horizon _). }
  destruct (_ && _).
  - rewrite Hch, (max_sequence_below _ _ Htop).
    assert (∃ serve, match top with Some h => if lt_gap tail && option_gtb top (lb_sequence_horizon (lh_broker hub))
        then retain_live (λ q, mark_gap q h) (lb_subscribers (lh_broker hub)) (lh_subscriptions hub)
        else (lb_subscribers (lh_broker hub), lh_subscriptions hub) | None => (lb_subscribers (lh_broker hub), lh_subscriptions hub) end =
      match serve with Some h => retain_live (λ q, mark_gap q h) (lb_subscribers (lh_broker hub)) (lh_subscriptions hub)
        | None => (lb_subscribers (lh_broker hub), lh_subscriptions hub) end ∧
      ∀ h, serve = Some h → top = Some h ∧ past (lb_sequence_horizon (lh_broker hub)) h) as (serve & -> & Hserve).
    { destruct top as [h|]; [|by exists None]. destruct (lt_gap tail && _) eqn:Hg; [|by exists None]. exists (Some h). split; [done|].
      intros ? [= <-]. split; [done|]. apply andb_true_iff in Hg as [_ Hg]. destruct (lb_sequence_horizon _); simpl in *; [lia|done]. }
    destruct serve as [h|].
    + destruct (Hserve h eq_refl) as [-> Hpast].
      pose proof (retain_live_spec (λ q, mark_gap q h) _ (lh_subscriptions hub) Hd) as [Hkept _].
      destruct (retain_live _ _ _) as [subscribers held] eqn:Hrl. intros [= <- <-]. split.
      * split; cbn; try done; [by eapply below_trans|]. cbn in Hkept. rewrite Hkept. by apply NoDup_filter.
      * split; [exact Htop|]. intros id after Hs. pose proof (serve_live logged after id hub (λ q, mark_gap q h) (Some h)) as H. rewrite Hrl in H.
        apply H; [done|done| |done|done]. intros q Hq. by eapply sub_mark_gap.
    + intros [= <- <-]. split; [split; cbn; try done; [apply below_refl|by eapply below_trans]|].
      split; [exact Htop|]. intros id after [Hin (q & Hq & Hinv)]. split; [done|]. exists q. split; [done|]. by eapply sub_later.
  - pose proof (retain_live_spec (publish_records (lt_records tail)) _ (lh_subscriptions hub) Hd) as [Hkept _].
    destruct (retain_tail_suffix (lb_capacity (lh_broker hub)) (lt_records tail) [] 0 0) as [gone Hgone]. cbn [app] in Hgone.
    destruct (retain_live _ _ _) as [subscribers held] eqn:Hrl. destruct (retain_tail _ _ _ _ _) as [[kept retained] truncated].
    cbn [fst] in Hgone, Hkept. intros [= <- <-]. split.
    + assert (rising None (sequences (gone ++ kept))) as Hrise by (rewrite <-Hgone; by apply (rising_from (lb_sequence_horizon (lh_broker hub)))).
      destruct (suffix_rising _ _ _ Hrise) as [Hrk Hk].
      split; cbn; rewrite ?Hch; try done; [apply below_refl| | |rewrite Hkept; by apply NoDup_filter].
      * rewrite Hgone in Hcl. by apply Forall_app in Hcl as [_ ?].
      * rewrite <-Hgone in Hk. eapply below_trans; [exact Hk|]. rewrite reached_last in Hcb |- *. by destruct (last (sequences (lt_records tail))).
    + split; [cbn; by rewrite Hch|]. intros id after Hs. pose proof (serve_live logged after id hub (publish_records (lt_records tail)) top) as H. rewrite Hrl in H.
      apply H; [done|done| |by cbn|done]. intros q Hq. eapply sub_later; [by apply sub_publish_records|done].
Qed.

Lemma forward_records_inv rs o hub done' o' hub' :
  broker_inv o (lh_broker hub) → Forall (λ r, logged !! sequence r = Some r ∧ 0 ≤ sequence r) rs →
  rising (lb_sequence_horizon (lh_broker hub)) (sequences rs) → below (reached (lb_sequence_horizon (lh_broker hub)) (sequences rs)) top →
  forward_records json_to_vec rs o hub = (done', o', hub') →
  broker_inv o' (lh_broker hub') ∧ keeps_serving hub hub' ∧
  (done' = true → lb_sequence_horizon (lh_broker hub') = reached (lb_sequence_horizon (lh_broker hub)) (sequences rs)).
Proof.
  revert o hub; induction rs as [|r rs IH]; intros o hub Hinv Hl Hr Ht; cbn [forward_records].
  { intros [= <- <- <-]. split; [done|]. split; [apply keeps_refl|done]. }
  apply Forall_cons in Hl as [[Hlr H0] Hl]. destruct Hr as [Hpast Hr]. cbn in Ht.
  destruct (publish_log json_to_vec r hub) as [res hub1] eqn:Hp.
  assert (below (Some (sequence r)) top) as Hrt by (eapply below_trans; [by apply rising_reached|exact Ht]).
  pose proof (publish_log_inv o r hub res hub1 Hinv Hlr H0 Hpast Hrt Hp) as H. destruct res as [[]|e].
  - destruct H as (Hinv1 & Hk1 & Hh1). intros Hf. destruct (IH _ _ Hinv1 Hl) as (? & ? & Hdone); [by rewrite Hh1..|exact Hf|].
    split; [done|]. split; [by eapply keeps_trans|]. intros Hd. rewrite (Hdone Hd), Hh1. done.
  - subst hub1. intros [= <- <- <-]. split; [|by split; [apply keeps_refl|]]. destruct Hinv. by split.
Qed.
End broker.

(** The observer forwards what the Supervisor has. *)
Lemma forward_inv json_to_vec logged b o hub o' hub' :
  logged_inv logged b → broker_inv logged (source_horizon b) o (lh_broker hub) →
  forward_logs json_to_vec (tail_after b (ob_supervisor_log_sequence o)) o hub = (o', hub') →
  broker_inv logged (source_horizon b) o' (lh_broker hub') ∧ keeps_serving logged hub hub'.
Proof.
  intros Hlog Hinv. pose proof Hinv as [Ho Htop Hnn _ _ _ _]. unfold forward_logs. rewrite <-Ho in Htop, Hnn.
  destruct (source_tail logged b (ob_supervisor_log_sequence o) Hlog Htop Hnn) as (Hl & Hr & Hh & Hb & Hgap).
  set (t := tail_after b (ob_supervisor_log_sequence o)) in *.
  assert (continues logged (source_horizon b) (lb_sequence_horizon (lh_broker hub)) t) as Hco.
  { rewrite <-Ho. split; try done. unfold source_horizon. intros n. destruct (Z.ltb_spec 1 (next_sequence b)); [|done]. intros [= <-]. lia. }
  destruct (negb _ || lt_gap t) eqn:Hs.
  - destruct (synchronize_log_tail _ _ _) as [res hub1] eqn:Hsync. pose proof (synchronize_inv _ _ _ _ _ _ _ _ Hinv Hco Hsync) as H.
    destruct res as [[]|e]; intros [= <- <-]; [|subst hub1; split; [done|apply keeps_refl]].
    cbn. rewrite Hh. exact H.
  - apply orb_false_iff in Hs as [_ Hg]. destruct (Hgap Hg) as [_ Hreach]. destruct (forward_records _ _ _ _) as [[done' o1] hub1] eqn:Hf.
    assert (Forall (λ r, logged !! sequence r = Some r ∧ 0 ≤ sequence r) (lt_records t)) as Hl0.
    { eapply Forall_impl; [exact Hl|]. intros r Hlr. split; [done|]. apply (li_logged _ _ Hlog) in Hlr as (_ & ? & _). lia. }
    rewrite Ho in Hr, Hb, Hreach. destruct (forward_records_inv _ _ _ _ _ _ _ _ _ Hinv Hl0 Hr Hb Hf) as (Hinv1 & Hk & Hdone).
    intros [= <- <-]. split; [|exact Hk]. destruct done'; [|done]. specialize (Hdone eq_refl). rewrite Hreach in Hdone. rewrite Hh.
    destruct Hinv1 as [Ho1 ? ? ? ? ? ?]. split; try done. cbn. rewrite Ho1, Hdone. by destruct (source_horizon b).
Qed.
