(* ===== verification/FrontendLogs.v ===== *)
(** * FrontendLogs: the logs of the Status Interface (src/frontend_ipc.rs)

    A reader thread follows the log stream of the Supervisor, fetches a tail after a gap or an error and then follows
    again; what it gets goes to a buffer of bounded size, from which the interface takes its events.  [LogReader] is the
    state of the thread between two requests, [ConnectionBuffer] the buffer of a connection.  [shown] says what events
    show of a log: records in order, and nothing missing without a gap being reported. *)

From S2P Require Import Prelude Text Constants Json Domain Telemetry Application Subscriber ClientError StatusStream LogBroker LogFollow TuiState.
Local Open Scope Z_scope.

(** ** Records *)

Inductive StatusInterfaceErrorKind :=
| IfaceInvalidConfiguration | IfaceSnapshot | IfaceStream | IfaceCommand | IfaceCommandQueue | IfaceTerminalInput
| IfaceTerminalSetup | IfaceRender | IfaceSignal.
Record StatusInterfaceError := MkStatusInterfaceError {
  ife_kind : StatusInterfaceErrorKind;
  ife_message : str;
}.
Definition invalid_log_record_error : StatusInterfaceError :=
  MkStatusInterfaceError IfaceStream (lit "The Supervisor IPC log record is invalid").

Definition parse_log_level (name : str) : option LogLevel :=
  if bool_decide (name = lit "debug") then Some Debug
  else if bool_decide (name = lit "info") then Some Info
  else if bool_decide (name = lit "warn") then Some Warn
  else if bool_decide (name = lit "error") then Some Error
  else None.
Definition parse_log_source (name : str) : option LogSource :=
  if bool_decide (name = lit "core_api") then Some CoreApi
  else if bool_decide (name = lit "stdout") then Some Stdout
  else if bool_decide (name = lit "stderr") then Some Stderr
  else None.

Definition validate_log_record (r : LogRecordV1) : result unit unit :=
  if bool_decide (parse_log_level (lr_level r) = None) || bool_decide (parse_log_source (lr_source r) = None)
     || (CORE_LOG_LINE_MAX_BYTES <? str_len (lr_message r))
  then Err tt else Ok tt.
(** [None] is the [unreachable!] of the two matches. *)
Definition convert_log_record (r : LogRecordV1) : option (result ViewLogRecord StatusInterfaceError) :=
  match validate_log_record r with
  | Err _ => Some (Err invalid_log_record_error)
  | Ok _ =>
      level ← parse_log_level (lr_level r);
      source ← parse_log_source (lr_source r);
      Some (Ok (MkViewLogRecord (lr_sequence r) (lr_timestamp r) level source (lr_message r)))
  end.
Fixpoint convert_log_records (records : list LogRecordV1) : option (result (list ViewLogRecord) StatusInterfaceError) :=
  match records with
  | [] => Some (Ok [])
  | r :: records' =>
      converted ← convert_log_record r;
      match converted with
      | Err e => Some (Err e)
      | Ok record =>
          rest ← convert_log_records records';
          Some (match rest with Err e => Err e | Ok rest => Ok (record :: rest) end)
      end
  end.

(** ** The buffer of a connection *)

Record ConnectionBuffer := MkConnectionBuffer {
  cb_status : option StatusSnapshot;
  cb_logs : list ViewLogRecord;
  cb_covered_through : option Z;
  cb_remote_dropped_total : Z;
  cb_local_dropped_total : Z;
  cb_queued_bytes : Z;
  cb_gap : bool;
  cb_disconnected : bool;
}.
Definition connection_buffer_new : ConnectionBuffer := MkConnectionBuffer None [] None 0 0 0 false false.

Inductive StatusLogEvent :=
| EventStatus (connection_generation : Z) (status : StatusSnapshot)
| EventLogs (connection_generation : Z) (records : list ViewLogRecord) (gap : bool) (dropped_total : Z)
| EventDisconnected (connection_generation : Z).

(** The methods answer whether they wake the interface. *)
Definition buffer_publish_status (status : StatusSnapshot) (b : ConnectionBuffer) : bool * ConnectionBuffer :=
  (negb (cb_disconnected b) && bool_decide (cb_status b = None),
   if cb_disconnected b then b
   else MkConnectionBuffer (Some status) (cb_logs b) (cb_covered_through b) (cb_remote_dropped_total b) (cb_local_dropped_total b)
          (cb_queued_bytes b) (cb_gap b) (cb_disconnected b)).

(** The loop that makes room, and the record behind it. *)
Fixpoint buffer_evict (incoming : Z) (logs : list ViewLogRecord) (queued dropped : Z) (gap : bool)
  : list ViewLogRecord * Z * Z * bool :=
  if (zlen logs =? LOG_SUBSCRIBER_CAPACITY) || (LOG_SUBSCRIBER_MAX_BYTES <? saturating_add queued incoming)
  then match logs with
       | [] => (logs, queued, dropped, gap)
       | r :: logs' => buffer_evict incoming logs' (saturating_sub queued (str_len (vl_message r))) (saturating_add dropped 1) true
       end
  else (logs, queued, dropped, gap).
Definition buffer_push (record : ViewLogRecord) (b : ConnectionBuffer) : ConnectionBuffer :=
  let '(logs, queued, dropped, gap) :=
    buffer_evict (str_len (vl_message record)) (cb_logs b) (cb_queued_bytes b) (cb_local_dropped_total b) (cb_gap b) in
  MkConnectionBuffer (cb_status b) (logs ++ [record]) (cb_covered_through b) (cb_remote_dropped_total b) dropped
    (saturating_add queued (str_len (vl_message record))) gap (cb_disconnected b).
Definition is_covered (b : ConnectionBuffer) (record : ViewLogRecord) : bool :=
  match cb_covered_through b with Some covered => vl_sequence record <=? covered | None => false end.
Definition idle (b : ConnectionBuffer) : bool := bool_decide (cb_logs b = []) && negb (cb_gap b).

Definition buffer_publish_log (record : ViewLogRecord) (b : ConnectionBuffer) : bool * ConnectionBuffer :=
  if cb_disconnected b || is_covered b record then (false, b) else (idle b, buffer_push record b).

Definition buffer_push_new (b : ConnectionBuffer) (record : ViewLogRecord) : ConnectionBuffer :=
  if is_covered b record then b else buffer_push record b.
Definition buffer_publish_tail (tail : LogTailV1) (b : ConnectionBuffer)
  : option (result bool StatusInterfaceError * ConnectionBuffer) :=
  records ← convert_log_records (tail_records tail);
  Some
    match records with
    | Err e => (Err e, b)
    | Ok records =>
        if cb_disconnected b then (Ok false, b)
        else
          (Ok (idle b),
           foldl buffer_push_new
             (MkConnectionBuffer (cb_status b) (cb_logs b) (cb_covered_through b)
                (Z.max (cb_remote_dropped_total b) (tail_dropped_total tail)) (cb_local_dropped_total b) (cb_queued_bytes b)
                (cb_gap b || tail_gap tail) (cb_disconnected b)) records)
    end.

Definition view_bytes (l : list ViewLogRecord) : Z := foldr (λ r n, str_len (vl_message r) + n) 0 l.
Definition apply_tail_coverage (sequence_horizon : option Z) (dropped_total : Z) (b : ConnectionBuffer) : ConnectionBuffer :=
  let covered := max_sequence (cb_covered_through b) sequence_horizon in
  let logs := match covered with Some covered => filter (λ r, covered < vl_sequence r) (cb_logs b) | None => cb_logs b end in
  MkConnectionBuffer (cb_status b) logs covered (Z.max (cb_remote_dropped_total b) dropped_total) (cb_local_dropped_total b)
    (view_bytes logs) false (cb_disconnected b).

Definition mark_disconnected (b : ConnectionBuffer) : bool * ConnectionBuffer :=
  (negb (cb_disconnected b),
   MkConnectionBuffer (cb_status b) (cb_logs b) (cb_covered_through b) (cb_remote_dropped_total b) (cb_local_dropped_total b)
     (cb_queued_bytes b) (cb_gap b) true).

Definition take_event (generation : Z) (b : ConnectionBuffer) : option StatusLogEvent * ConnectionBuffer :=
  if cb_disconnected b
  then (Some (EventDisconnected generation),
        MkConnectionBuffer (cb_status b) (cb_logs b) (cb_covered_through b) (cb_remote_dropped_total b) (cb_local_dropped_total b)
          (cb_queued_bytes b) (cb_gap b) false)
  else
    match cb_status b with
    | Some status =>
        (Some (EventStatus generation status),
         MkConnectionBuffer None (cb_logs b) (cb_covered_through b) (cb_remote_dropped_total b) (cb_local_dropped_total b)
           (cb_queued_bytes b) (cb_gap b) (cb_disconnected b))
    | None =>
        if idle b then (None, b)
        else
          let count := Z.to_nat (Z.min (zlen (cb_logs b)) LOG_SUBSCRIBER_CAPACITY) in
          let records := take count (cb_logs b) in
          (Some (EventLogs generation records (cb_gap b) (saturating_add (cb_remote_dropped_total b) (cb_local_dropped_total b))),
           MkConnectionBuffer (cb_status b) (drop count (cb_logs b)) (cb_covered_through b) (cb_remote_dropped_total b)
             (cb_local_dropped_total b) (saturating_sub (cb_queued_bytes b) (view_bytes records)) false (cb_disconnected b))
    end.

(** [try_next] also moves the number from which a new connection resumes. *)
Definition try_next (generation : Z) (resume : option Z) (b : ConnectionBuffer)
  : option StatusLogEvent * option Z * ConnectionBuffer :=
  let '(event, b) := take_event generation b in
  (event,
   match event with
   | Some (EventLogs _ records _ _) =>
       match last records with Some r => max_sequence resume (Some (vl_sequence r)) | None => resume end
   | _ => resume
   end, b).

(** ** The reader *)

Inductive LogReader :=
| ReaderFollows (id : nat) (stream : LogStream) (after : option Z)
| ReaderFetches (recovering : bool) (after : option Z)
| ReaderOpens (after : option Z)
| ReaderFailed.

(** One turn of [run_log_reader] with the next frame of its stream, or an error of the transport ([None]). *)
Definition reader_item (item : option LogStreamItem) (r : LogReader) (b : ConnectionBuffer)
  : option (bool * LogReader * ConnectionBuffer) :=
  match r with
  | ReaderFollows id stream after =>
      match item with
      | None => Some (false, ReaderFetches true after, b)
      | Some item =>
          match log_next_item [PayloadLogs item] stream with
          | (Ok (Some (LogRecord record)), _, stream) =>
              converted ← convert_log_record record;
              Some
                match converted with
                | Ok view =>
                    let '(wake, b) := buffer_publish_log view b in
                    (wake, ReaderFollows id stream (Some (vl_sequence view)), b)
                | Err _ => let '(wake, b) := mark_disconnected b in (wake, ReaderFailed, b)
                end
          | (Ok (Some (LogGap _ _)), _, _) => Some (false, ReaderFetches false after, b)
          | (Ok None, _, _) => let '(wake, b) := mark_disconnected b in Some (wake, ReaderFailed, b)
          | (Err _, _, _) => Some (false, ReaderFetches true after, b)
          end
      end
  | r => Some (false, r, b)
  end.

Definition sequence_reset (after : option Z) (tail : LogTailV1) : bool :=
  match after, tail_sequence_horizon tail with
  | Some after, Some latest => latest <? after
  | Some _, None => true
  | None, _ => false
  end.
(** The tail that a gap or [recover_log_stream] asks for; between two requests the broker may go on. *)
Definition reader_tail (tail_of : option Z → LogTailV1) (r : LogReader) (b : ConnectionBuffer)
  : option (bool * LogReader * ConnectionBuffer) :=
  match r with
  | ReaderFetches recovering after =>
      let tail := tail_of after in
      let tail :=
        if recovering && sequence_reset after tail
        then let tail := tail_of None in
             MkLogTailV1 (tail_records tail) (tail_dropped_total tail) true (tail_earliest_sequence tail) (tail_latest_sequence tail)
               (tail_sequence_horizon tail)
        else tail in
      published ← buffer_publish_tail tail b;
      Some
        match published with
        | (Ok wake, b) => (wake, ReaderOpens (tail_sequence_horizon tail), b)
        | (Err _, b) => let '(wake, b) := mark_disconnected b in (wake, ReaderFailed, b)
        end
  | r => Some (false, r, b)
  end.
(** [follow_logs_cancellable]; a refusal ends the connection. *)
Definition reader_open (id : nat) (subscribe : option Z → bool * LogHub) (hub : LogHub) (r : LogReader) (b : ConnectionBuffer)
  : bool * LogReader * ConnectionBuffer * LogHub :=
  match r with
  | ReaderOpens after =>
      match subscribe after with
      | (true, hub) => (false, ReaderFollows id (log_stream_new after) after, b, hub)
      | (false, hub) => let '(wake, b) := mark_disconnected b in (wake, ReaderFailed, b, hub)
      end
  | r => (false, r, b, hub)
  end.

(** ** What events show of a log *)

Definition view_sequences (l : list ViewLogRecord) : list Z := vl_sequence <$> l.
Definition follows (gapped : bool) (from : option Z) (l : list Z) : Prop := if gapped then rising from l else consecutive from l.

(** What one event leaves: the last number, and whether a gap was reported since. *)
Definition after_event (at_gap : option Z * bool) (event : list ViewLogRecord * bool) : option Z * bool :=
  (reached at_gap.1 (view_sequences event.1), match event.1 with [] => at_gap.2 || event.2 | _ => event.2 end).
(** Numbers only grow, and where one is missing the event, or one before it since the last record, reports a gap. *)
Fixpoint shown (at_gap : option Z * bool) (events : list (list ViewLogRecord * bool)) : Prop :=
  match events with
  | [] => True
  | event :: events' => follows (at_gap.2 || event.2) at_gap.1 (view_sequences event.1) ∧ shown (after_event at_gap event) events'
  end.

Lemma shown_snoc s events event :
  shown s (events ++ [event]) ↔
  shown s events ∧ follows ((foldl after_event s events).2 || event.2) (foldl after_event s events).1 (view_sequences event.1).
Proof. revert s; induction events as [|e events IH]; intros s; simpl; [tauto|]. rewrite IH. tauto. Qed.

Lemma follows_rising gapped from l : follows gapped from l → rising from l.
Proof. destruct gapped; [done|]. apply consecutive_rising. Qed.
Lemma follows_nil gapped from : follows gapped from [].
Proof. by destruct gapped. Qed.
Lemma follows_app gapped from l k : follows gapped from (l ++ k) ↔ follows gapped from l ∧ follows gapped (reached from l) k.
Proof. destruct gapped; [apply rising_app|apply consecutive_app]. Qed.

(** ** The buffer behind the reader

    The reader has everything up to [after]; the events before left [s]. *)

Record buffer_at (good : ViewLogRecord → Prop) (s : option Z * bool) (b : ConnectionBuffer) (after : option Z) : Prop := {
  ba_follows : follows (s.2 || cb_gap b) s.1 (view_sequences (cb_logs b));
  ba_after : ∀ n, reached s.1 (view_sequences (cb_logs b)) = Some n → ∃ a, after = Some a ∧ n ≤ a ∧
    ((match cb_logs b with [] => s.2 || cb_gap b | _ => cb_gap b end) = false → n = a);
  ba_good : Forall good (cb_logs b);
  ba_count : zlen (cb_logs b) ≤ LOG_SUBSCRIBER_CAPACITY;
  ba_uncovered : cb_covered_through b = None;
  ba_connected : cb_disconnected b = false;
}.

Lemma buffer_evict_spec incoming logs queued dropped gap :
  zlen logs ≤ LOG_SUBSCRIBER_CAPACITY →
  let out := buffer_evict incoming logs queued dropped gap in
  ∃ gone, logs = gone ++ out.1.1.1 ∧ zlen out.1.1.1 < LOG_SUBSCRIBER_CAPACITY ∧
    out.2 = match gone with [] => gap | _ => true end.
Proof.
  revert queued dropped gap; induction logs as [|r logs IH]; intros queued dropped gap Hlen; cbn [buffer_evict].
  { exists []. by destruct (_ || _). }
  destruct (_ || _) eqn:Hc.
  - destruct (IH (saturating_sub queued (str_len (vl_message r))) (saturating_add dropped 1) true) as (gone & Hg & Hlt & Hgap);
      [unfold zlen in *; simpl in *; lia|]. exists (r :: gone). split; [cbn; by f_equal|]. split; [done|]. rewrite Hgap. by destruct gone.
  - exists []. split; [done|]. split; [|done]. cbn [fst]. apply orb_false_iff in Hc as [Hc%Z.eqb_neq _]. lia.
Qed.

Lemma push_at good s b after r :
  buffer_at good s b after → good r →
  match after with Some a => a < vl_sequence r ∧ (cb_gap b = true ∨ vl_sequence r = a + 1) | None => True end →
  buffer_at good s (buffer_push r b) (Some (vl_sequence r)) ∧ (cb_gap b = true → cb_gap (buffer_push r b) = true).
Proof.
  intros [Hf Ha Hg Hc Hu Hd] Hr Hlink. unfold buffer_push.
  destruct (buffer_evict_spec (str_len (vl_message r)) (cb_logs b) (cb_queued_bytes b) (cb_local_dropped_total b) (cb_gap b) Hc) as (gone & Hgone & Hlt & Hgap).
  destruct (buffer_evict _ _ _ _ _) as [[[logs queued] dropped] gap]. cbn [fst snd] in Hgone, Hlt, Hgap.
  assert (rising s.1 (view_sequences (logs ++ [r]))) as Hrise.
  { unfold view_sequences. rewrite fmap_app, rising_app. apply follows_rising in Hf. rewrite Hgone in Hf, Ha.
    unfold view_sequences in Hf, Ha. rewrite fmap_app in Hf, Ha. apply rising_app in Hf as [Hf1 Hf2]. rewrite reached_app in Ha.
    assert (rising s.1 (vl_sequence <$> logs)) as Hl by (eapply rising_from; [by apply rising_reached|exact Hf2]).
    split; [exact Hl|]. split; [|done]. destruct (reached s.1 (vl_sequence <$> logs)) as [n|] eqn:Hn; [|done].
    assert (∃ m, reached (reached s.1 (vl_sequence <$> gone)) (vl_sequence <$> logs) = Some m ∧ n ≤ m) as (m & Hm & Hnm).
    { rewrite reached_last in Hn |- *. destruct (last (vl_sequence <$> logs)); [simplify_eq; exists n; split; [done|lia]|].
      pose proof (rising_reached _ _ Hf1) as Hb. destruct (reached s.1 (vl_sequence <$> gone)) as [m|]; rewrite Hn in Hb; [by exists m|done]. }
    destruct (Ha m Hm) as (a & -> & Hma & _). cbn in Hlink. lia. }
  split; [split; cbn; try done|].
  - destruct (s.2 || gap) eqn:Hsg; [exact Hrise|]. apply orb_false_iff in Hsg as [Hs2 ->]. rewrite Hs2 in *. cbn [orb] in *.
    destruct gone as [|x gone]; [|done]. cbn in Hgone. subst logs. rewrite <-Hgap in *. cbn [follows] in *.
    unfold view_sequences in *. rewrite fmap_app, consecutive_app. split; [done|]. split; [|done].
    destruct (reached s.1 (vl_sequence <$> cb_logs b)) as [n|] eqn:Hn; [|done]. destruct (Ha n eq_refl) as (a & -> & _ & Heq).
    destruct Hlink as [_ [?| ->]]; [done|]. f_equal. symmetry. apply Heq. by destruct (cb_logs b).
  - intros n. unfold view_sequences. rewrite fmap_app, reached_app. cbn. intros [= <-]. exists (vl_sequence r). split; [done|]. split; [lia|done].
  - apply Forall_app. split; [|by constructor]. rewrite Hgone in Hg. by apply Forall_app in Hg as [_ ?].
  - rewrite zlen_snoc. lia.
  - intros Hb. cbn. rewrite Hgap, Hb. by destruct gone.
Qed.

(** A tail whose records continue [after]. *)
Lemma push_list_at good s b after rs :
  buffer_at good s b after → Forall good rs → follows (cb_gap b) after (view_sequences rs) →
  buffer_at good s (foldl buffer_push_new b rs) (reached after (view_sequences rs)) ∧
  (cb_gap b = true → cb_gap (foldl buffer_push_new b rs) = true).
Proof.
  revert b after; induction rs as [|r rs IH]; intros b after Hb; [done|]. intros [Hr Hrs]%Forall_cons Hf.
  cbn [foldl]. assert (buffer_push_new b r = buffer_push r b) as -> by (unfold buffer_push_new, is_covered; by rewrite (ba_uncovered _ _ _ _ Hb)).
  assert (match after with Some a => a < vl_sequence r ∧ (cb_gap b = true ∨ vl_sequence r = a + 1) | None => True end) as Hlink.
  { unfold follows in Hf. destruct after as [a|]; [|done]. destruct (cb_gap b); destruct Hf as [Hf _]; [split; [done|by left]|split; [lia|by right]]. }
  destruct (push_at good s b after r Hb Hr Hlink) as [Hb' Hg].
  destruct (IH (buffer_push r b) (Some (vl_sequence r)) Hb' Hrs) as [H1 H2].
  { destruct (cb_gap b) eqn:Hgb; [rewrite (Hg eq_refl); apply Hf|]. destruct (cb_gap (buffer_push r b)); [apply consecutive_rising|]; apply Hf. }
  split; [exact H1|]. intros Hgb. by apply H2, Hg.
Qed.
Lemma buffer_at_skip good s b after after' : buffer_at good s b after → cb_gap b = true → below after after' → buffer_at good s b after'.
Proof.
  intros [Hf Ha Hg Hc Hu Hd] Hgap Hb. split; try done. intros n Hn. destruct (Ha n Hn) as (a & -> & Hna & _). destruct after' as [a'|]; [|done].
  exists a'. split; [done|]. split; [simpl in Hb; lia|]. rewrite Hgap, orb_true_r. by destruct (cb_logs b).
Qed.
Lemma buffer_at_flag good s b after remote gap :
  buffer_at good s b after →
  buffer_at good s (MkConnectionBuffer (cb_status b) (cb_logs b) (cb_covered_through b) remote
    (cb_local_dropped_total b) (cb_queued_bytes b) (cb_gap b || gap) false) after.
Proof.
  intros [Hf Ha Hg Hc Hu Hd]. split; cbn; try done.
  - rewrite orb_assoc. destruct (s.2 || cb_gap b), gap; try exact Hf. by apply consecutive_rising.
  - intros n Hn. destruct (Ha n Hn) as (a & -> & Hna & Heq). exists a. split; [done|]. split; [done|]. intros H. apply Heq.
    destruct (cb_logs b), s.2, (cb_gap b), gap; simpl in *; congruence.
Qed.

Lemma convert_logged r :
  str_len (message r) ≤ CORE_LOG_LINE_MAX_BYTES → convert_log_record (log_record_from r) = Some (Ok (view_log_of r)).
Proof.
  intros Hl. unfold convert_log_record, validate_log_record. cbn [log_record_from lr_level lr_source lr_message].
  rewrite (proj2 (Z.ltb_ge _ _) Hl). destruct r as [n ts [] [] m]; reflexivity.
Qed.
Lemma convert_logged_list rs :
  Forall (λ r, str_len (message r) ≤ CORE_LOG_LINE_MAX_BYTES) rs → convert_log_records (log_record_from <$> rs) = Some (Ok (view_log_of <$> rs)).
Proof.
  induction rs as [|r rs IH]; [done|]. intros [Hr Hrs]%Forall_cons. cbn [fmap list_fmap convert_log_records].
  rewrite convert_logged by done. cbn [mbind option_bind]. by rewrite IH.
Qed.
Lemma view_sequences_of rs : view_sequences (view_log_of <$> rs) = sequences rs.
Proof. unfold view_sequences, sequences. by rewrite <-list_fmap_compose. Qed.

Lemma publish_tail_at good s b after rs tail :
  buffer_at good s b after → tail_records tail = log_record_from <$> rs →
  Forall (λ r, str_len (message r) ≤ CORE_LOG_LINE_MAX_BYTES) rs → Forall good (view_log_of <$> rs) →
  follows (tail_gap tail) after (sequences rs) →
  ∃ wake b', buffer_publish_tail tail b = Some (Ok wake, b') ∧ buffer_at good s b' (reached after (sequences rs)) ∧
    (tail_gap tail = true → cb_gap b' = true).
Proof.
  intros Hb Hrs Hlen Hgood Hf. unfold buffer_publish_tail. rewrite Hrs, convert_logged_list by done. cbn [mbind option_bind].
  rewrite (ba_connected _ _ _ _ Hb). eexists _, _. split; [reflexivity|]. rewrite <-(view_sequences_of rs) in *.
  edestruct (push_list_at good s _ after (view_log_of <$> rs) (buffer_at_flag _ _ _ _ (cb_remote_dropped_total b `max` tail_dropped_total tail) (tail_gap tail) Hb) Hgood) as [H1 H2].
  { cbn. destruct (cb_gap b), (tail_gap tail); try exact Hf. by apply consecutive_rising. }
  split; [exact H1|]. intros Hg. apply H2. cbn. rewrite Hg. apply orb_true_r.
Qed.

(** The interface takes an event. *)
Lemma take_event_at good s b after g :
  buffer_at good s b after →
  match take_event g b with
  | (Some (EventLogs _ records gap _), b') =>
      follows (s.2 || gap) s.1 (view_sequences records) ∧ Forall good records ∧ buffer_at good (after_event s (records, gap)) b' after
  | (Some (EventDisconnected _), _) => False
  | (_, b') => buffer_at good s b' after
  end.
Proof.
  intros Hb. pose proof Hb as [Hf Ha Hg Hc Hu Hd]. unfold take_event. rewrite Hd. destruct (cb_status b) as [status|]; [by split|].
  destruct (idle b); [done|]. rewrite Z.min_l by done. assert (Z.to_nat (zlen (cb_logs b)) = length (cb_logs b)) as -> by (unfold zlen; lia).
  rewrite firstn_all, skipn_all. split; [done|]. split; [done|].
  split; cbn; try done.
  - apply follows_nil.
  - intros n Hn. destruct (Ha n Hn) as (a & -> & Hna & Heq). exists a. split; [done|]. split; [done|]. rewrite orb_false_r. done.
Qed.
