(* ===== verification/LogSystem.v ===== *)
(** * LogSystem: from the Core Log to the Status Interface

    The log buffer of the Supervisor ([Telemetry]), the observer that forwards it, the broker with its subscriptions
    ([LogBroker]) and the reader and buffer of the interface ([FrontendLogs]), in any interleaving of their steps.
    [logs_shown]: no line is lost without a gap being reported, whatever is evicted, truncated, disconnected or
    reconnected on the way.

    [coverage_hides_loss] is the one operation that this does not hold for: [apply_tail_coverage] takes back the report of
    a gap that it does not cover. *)

From S2P Require Import Prelude Text Constants Json Domain Telemetry Application Subscriber ClientError StatusStream LogBroker LogFollow TuiState FrontendLogs.
Local Open Scope Z_scope.

(** ** Reading from the broker *)

Section reading.
Context (json_to_vec : Json → bytes) (logged : gmap Z CoreLogRecord).

Lemma broker_tail_loop_spec newest acc bytes out truncated :
  broker_tail_loop json_to_vec newest acc bytes = (out, truncated) →
  ∃ taken rest, newest = taken ++ rest ∧ out = (log_record_from <$> reverse taken) ++ acc ∧ (truncated = false → rest = []).
Proof.
  revert acc bytes; induction newest as [|r newest IH]; intros acc bytes; cbn [broker_tail_loop].
  { intros [= <- <-]. by exists [], []. }
  destruct (_ || _); [intros [= <- <-]; by exists [], (r :: newest)|]. intros (taken & rest & -> & -> & Hr)%IH.
  exists (r :: taken), rest. split; [done|]. split; [|done]. by rewrite reverse_cons, fmap_app, <-(assoc_L (++)).
Qed.

Lemma records_gap_false rs : Forall (λ r, logged !! sequence r = Some r) rs →
  wire_records_have_gap (log_record_from <$> rs) = false → consecutive None (sequences rs).
Proof.
  induction rs as [|a rs IH]; [done|]. intros [_ Hrs]%Forall_cons. specialize (IH Hrs). destruct rs as [|c rs]; [done|].
  cbn [fmap list_fmap wire_records_have_gap log_record_from lr_sequence]. intros [Hg Hrest]%orb_false_iff.
  destruct (IH Hrest) as [_ Hc]. split; [done|]. split; [|exact Hc]. destruct (checked_add (sequence a) 1) as [e|] eqn:He; [|done].
  apply checked_add_Some in He as [-> _]. by apply negb_false_iff, Z.eqb_eq in Hg.
Qed.

(** The answer to a client that has the records up to [after]. *)
Lemma log_tail_spec top o st after :
  broker_inv logged top o st → below after (lb_sequence_horizon st) → (∀ t, top = Some t → t < u64_max) →
  let t := log_tail json_to_vec after st in
  ∃ rs, tail_records t = log_record_from <$> rs ∧ Forall (λ r, logged !! sequence r = Some r) rs ∧ tail_sequence_horizon t = lb_sequence_horizon st ∧
    follows (tail_gap t) after (sequences rs) ∧ below (reached after (sequences rs)) (lb_sequence_horizon st) ∧
    (tail_gap t = false → reached after (sequences rs) = lb_sequence_horizon st).
Proof.
  intros [_ Htop _ Hl Hr Hb _] Ha Hmax. unfold log_tail. destruct (broker_tail_loop _ _ _ _) as [out truncated] eqn:Hloop.
  apply broker_tail_loop_spec in Hloop as (taken & rest & Hsplit & -> & Htr). rewrite app_nil_r.
  assert (filter (newer after) (lb_records st) = reverse rest ++ reverse taken) as Hwant
    by (by rewrite <-reverse_app, <-Hsplit, filter_reverse, reverse_involutive).
  pose proof (rising_newer after _ Hr) as Hrise. rewrite Hwant in Hrise.
  set (rs := reverse taken) in *. exists rs. cbn [tail_records tail_sequence_horizon tail_gap].
  assert (Forall (λ r, logged !! sequence r = Some r ∧ below (Some (sequence r)) (lb_sequence_horizon st)) rs) as Hrs.
  { rewrite Forall_forall in *. intros r Hin. assert (r ∈ filter (newer after) (lb_records st)) as [_ Hin']%list_elem_of_filter
      by (rewrite Hwant; apply elem_of_app; by right). split; [by apply Hl|]. eapply below_trans; [|exact Hb].
    apply (rising_bound None); [done|]. by apply list_elem_of_fmap_2. }
  apply Forall_and in Hrs as [Hrl Hrb].
  assert (rising after (sequences rs)) as Hrr.
  { unfold sequences in Hrise. rewrite fmap_app in Hrise. apply rising_app in Hrise as [? ?]. eapply rising_from; [by apply rising_reached|done]. }
  assert (below (reached after (sequences rs)) (lb_sequence_horizon st)) as Hreach.
  { rewrite reached_last. destruct (last (sequences rs)) as [x|] eqn:Hx; [|exact Ha]. apply last_Some_elem_of, list_elem_of_fmap in Hx as (r & -> & Hin).
    rewrite Forall_forall in Hrb. by apply Hrb. }
  split; [done|]. split; [done|]. split; [done|].
  destruct (_ || truncated) eqn:Hgap; [by split|]. apply orb_false_iff in Hgap as [Hgap ->]. rewrite (Htr eq_refl) in *. clear Htr rest.
  cut (consecutive after (sequences rs) ∧ below (lb_sequence_horizon st) (reached after (sequences rs))).
  { intros [Hc Hback]. split; [done|]. split; [done|]. intros _. clear -Hback Hreach. destruct (reached _ _), (lb_sequence_horizon st); simpl in *; try done. f_equal. lia. }
  destruct after as [a|].
  - unfold wire_sequence_has_gap, broker_sequence_has_gap in Hgap.
    assert (checked_add a 1 = Some (a + 1)) as Hadd.
    { unfold checked_add. rewrite (proj2 (Z.leb_le _ _)); [done|]. destruct (lb_sequence_horizon st) as [h|]; [|done].
      destruct top as [t|]; [|done]. specialize (Hmax t eq_refl). simpl in *. lia. }
    rewrite Hadd in Hgap. rewrite <-list_fmap_compose in Hgap. change (_ <$> rs) with (sequences rs) in Hgap.
    destruct (gap_after_false (a + 1) (sequences rs) (lb_sequence_horizon st)) as [Hc Hback]; rewrite ?Z.add_simpl_r in *; [done| |done|done].
    rewrite Forall_forall. intros x (r & -> & Hin)%list_elem_of_fmap. rewrite Forall_forall in Hrb. specialize (Hrb r Hin).
    destruct (lb_sequence_horizon st) as [h|]; [|done]. destruct top as [t|]; [|done]. specialize (Hmax t eq_refl). simpl in *. lia.
  - apply orb_false_iff in Hgap as [[_ Hgap]%orb_false_iff Hhz]. split; [by apply records_gap_false|].
    change (reverse [] ++ rs) with rs in Hwant. rewrite newer_none in Hwant. rewrite reached_last. rewrite Hwant in Hhz.
    unfold sequences. rewrite fmap_last. destruct (lb_sequence_horizon st), (sequence <$> last rs); simpl in *; try done. lia.
Qed.

Lemma initial_queue_inv top o after st :
  broker_inv logged top o st → below after (lb_sequence_horizon st) →
  ∃ q, initial_log_queue after st (MkLogSubscriber LOG_SUBSCRIBER_CAPACITY after after false 0 0 []) = Ok q ∧
    sub_inv logged (lb_sequence_horizon st) after q.
Proof.
  intros [_ _ _ Hl Hr Hb _] Ha. set (q0 := MkLogSubscriber _ _ _ _ _ _ _).
  assert (sub_inv logged after after q0) as Hq0.
  { split; [done|]. split; [apply below_refl|]. split; [by exists []|apply below_refl]. }
  unfold initial_log_queue, newer_records. destruct after as [a|]; [|eexists; split; [done|]; by eapply sub_later].
  assert (rising (Some a) (sequences (filter (newer (Some a)) (lb_records st)))) as Hrise by (by apply rising_newer).
  assert (∀ x, x ∈ sequences (filter (newer (Some a)) (lb_records st)) → below (Some x) (lb_sequence_horizon st)) as Hbelow.
  { intros x (r & -> & Hin)%list_elem_of_fmap. apply list_elem_of_filter in Hin as [_ Hin]. eapply below_trans; [|exact Hb].
    apply (rising_bound None); [done|]. by apply list_elem_of_fmap_2. }
  destruct (broker_sequence_has_gap _ _ _) eqn:Hgap.
  - unfold broker_sequence_has_gap in Hgap. destruct (checked_add a 1) as [e|] eqn:He; [|done]. apply checked_add_Some in He as [-> _].
    destruct (gap_after_true (a + 1) _ _ ltac:(by rewrite Z.add_simpl_r) Hbelow Hgap) as (h & -> & Hh).
    eexists. split; [done|]. eapply sub_mark_gap; [exact Hq0|]. simpl. lia.
  - eexists. split; [done|]. eapply sub_later; [apply sub_publish_records; [exact Hq0| |exact Hrise]|].
    + apply Forall_forall. intros r [_ Hin]%list_elem_of_filter. rewrite Forall_forall in Hl. by apply Hl.
    + rewrite reached_last. destruct (last _) as [x|] eqn:Hx; [|exact Ha]. apply Hbelow. by apply last_Some_elem_of.
Qed.

Lemma subscribe_inv top o id after hub res hub' :
  broker_inv logged top o (lh_broker hub) → id ∉ lb_subscribers (lh_broker hub) →
  subscribe_logs id after hub = (res, hub') →
  broker_inv logged top o (lh_broker hub') ∧ keeps_serving logged hub hub' ∧
  (below after (lb_sequence_horizon (lh_broker hub)) → res = Ok tt ∧ serves logged after id hub').
Proof.
  intros Hinv Hid. pose proof (initial_queue_inv top o after _ Hinv) as Hinit. destruct Hinv as [Ho Htop Hnn Hl Hr Hb Hd].
  unfold subscribe_logs. change (map_err _ _) with (Ok (E := StreamBrokerError) (MkLogSubscriber LOG_SUBSCRIBER_CAPACITY after after false 0 0 [])).
  cbn [result_bind]. set (subs := filter _ _).
  assert (NoDup (subs ++ [id])) as Hnd.
  { apply NoDup_app. split; [by apply NoDup_filter|]. split; [|apply NoDup_singleton]. intros x [_ Hx]%list_elem_of_filter Hx'.
    apply list_elem_of_singleton in Hx' as ->. by apply Hid. }
  assert (∀ i, i ∈ lb_subscribers (lh_broker hub) → is_Some (lh_subscriptions hub !! i) → i ∈ subs) as Hsub
    by (intros; by apply list_elem_of_filter).
  destruct (initial_log_queue _ _ _) as [q|e]; intros [= <- <-]; cbn [lh_broker lb_sequence_horizon].
  - split; [by split|]. split.
    + split; [apply below_refl|]. intros i a [Hin (q' & Hq' & Hs)]. split; cbn; [apply elem_of_app; left; apply Hsub; [done|by eexists]|].
      rewrite lookup_insert_ne by (intros ->; by apply Hid). by exists q'.
    + intros Ha. destruct (Hinit Ha) as (q' & [= <-] & Hs). split; [done|]. split; cbn; [apply elem_of_app; right; by apply list_elem_of_singleton|].
      exists q. by rewrite lookup_insert_eq.
  - split; [split; try done; cbn; by apply NoDup_filter|]. split; [|by intros (? & ? & _)%Hinit].
    split; [apply below_refl|]. intros i a [Hin (q' & Hq' & Hs)]. split; cbn; [apply Hsub; [done|by eexists]|by exists q'].
Qed.

(** The reader takes the next item of its queue. *)
Lemma sub_pop horizon after q :
  sub_inv logged horizon after q →
  match log_pop_front q with
  | (None, q') => q' = q
  | (Some (LogRecord record), q') => ∃ r, record = log_record_from r ∧ logged !! sequence r = Some r ∧
      match after with Some a => sequence r = a + 1 | None => True end ∧ sub_inv logged horizon (Some (sequence r)) q'
  | (Some (LogGap a latest), _) => a = after ∧ match after with Some a => a < latest | None => True end
  end.
Proof.
  intros (Hd & Hb & Hq). unfold log_pop_front. destruct (ls_awaiting_tail q) eqn:Haw.
  - destruct Hq as (latest & -> & Hl). done.
  - destruct Hq as ((rs & Hqueue & Hrs & Hc & Ho) & Hob). destruct rs as [|r rs]; rewrite Hqueue; [done|].
    apply Forall_cons in Hrs as [Hr Hrs]. destruct Hc as [Hr1 Hc]. cbn. exists r. split; [done|]. split; [done|]. split; [done|].
    split; [done|]. split; [|cbn; split; [by exists rs|done]].
    eapply below_trans; [|exact Hob]. rewrite Ho. apply (rising_reached (Some (sequence r))). by apply consecutive_rising.
Qed.

Lemma read_record after r :
  match after with Some a => sequence r = a + 1 | None => True end → sequence r ≤ u64_max →
  log_next_item [PayloadLogs (LogRecord (log_record_from r))] (MkLogStream after false) =
  (Ok (Some (LogRecord (log_record_from r))), [], MkLogStream (Some (sequence r)) false).
Proof.
  intros Hr Hm. unfold log_next_item. cbn [lst_finished log_next_item_loop validate_log_item lst_last_sequence log_record_from lr_sequence].
  assert (sequence_gap after (sequence r) = false) as ->; [|done]. unfold sequence_gap. destruct after as [a|]; [|done].
  unfold checked_add. rewrite (proj2 (Z.leb_le _ _)) by lia. by rewrite Hr, Z.eqb_refl.
Qed.
Lemma read_gap after latest :
  match after with Some a => a < latest | None => True end →
  log_next_item [PayloadLogs (LogGap after latest)] (MkLogStream after false) = (Ok (Some (LogGap after latest)), [], MkLogStream after true).
Proof.
  intros Hl. unfold log_next_item. cbn [lst_finished log_next_item_loop validate_log_item lst_last_sequence]. rewrite bool_decide_true by done.
  cbn [negb orb]. destruct after as [a|]; [by rewrite (proj2 (Z.leb_gt _ _))|done].
Qed.
End reading.

(** ** The whole way *)

Record LogWorld := MkLogWorld {
  lw_source : LogBuffer;
  lw_logged : gmap Z CoreLogRecord;
  lw_observer : LogObserver;
  lw_hub : LogHub;
  lw_reader : LogReader;
  lw_buffer : ConnectionBuffer;
  lw_resume : option Z;
  lw_events : list (list ViewLogRecord * bool);
}.

Inductive LogStep :=
| StepLog (timestamp : Z) (lvl : LogLevel) (src : LogSource) (msg : str)
| StepDrop (count : Z)
| StepObserve
| StepSubscribe (id : nat) (after : option Z)
| StepWait (id : nat)
| StepEnd (id : nat)
| StepStatus (status : StatusSnapshot)
| StepRead
| StepBreak
| StepTail
| StepOpen (id : nat)
| StepTake (generation : Z)
| StepReconnect.

Section system.
Context (json_to_vec : Json → bytes).

Definition set_hub (hub : LogHub) (w : LogWorld) : LogWorld :=
  MkLogWorld (lw_source w) (lw_logged w) (lw_observer w) hub (lw_reader w) (lw_buffer w) (lw_resume w) (lw_events w).
Definition set_reader (reader : LogReader) (buffer : ConnectionBuffer) (w : LogWorld) : LogWorld :=
  MkLogWorld (lw_source w) (lw_logged w) (lw_observer w) (lw_hub w) reader buffer (lw_resume w) (lw_events w).

(** [None] is a panic. *)
Definition log_step (w : LogWorld) (op : LogStep) : option LogWorld :=
  match op with
  | StepLog ts lvl src msg =>
      Some
        match push (lw_source w) ts lvl src msg with
        | (Ok seq, source) =>
            MkLogWorld source (<[seq := MkCoreLogRecord seq ts lvl src msg]> (lw_logged w)) (lw_observer w) (lw_hub w) (lw_reader w)
              (lw_buffer w) (lw_resume w) (lw_events w)
        | (Err _, source) =>
            MkLogWorld source (lw_logged w) (lw_observer w) (lw_hub w) (lw_reader w) (lw_buffer w) (lw_resume w) (lw_events w)
        end
  | StepDrop count =>
      Some (MkLogWorld (record_external_drop (lw_source w) count).2 (lw_logged w) (lw_observer w) (lw_hub w) (lw_reader w) (lw_buffer w)
              (lw_resume w) (lw_events w))
  | StepObserve =>
      let '(observer, hub) :=
        forward_logs json_to_vec (tail_after (lw_source w) (ob_supervisor_log_sequence (lw_observer w))) (lw_observer w) (lw_hub w) in
      Some (MkLogWorld (lw_source w) (lw_logged w) observer hub (lw_reader w) (lw_buffer w) (lw_resume w) (lw_events w))
  | StepSubscribe id after => Some (set_hub (subscribe_logs id after (lw_hub w)).2 w)
  | StepWait id => Some (set_hub (log_wait_next id (lw_hub w)).2 w)
  | StepEnd id => Some (set_hub (drop_log_subscription id (lw_hub w)) w)
  | StepStatus status => Some (set_reader (lw_reader w) (buffer_publish_status status (lw_buffer w)).2 w)
  | StepRead =>
      match lw_reader w with
      | ReaderFollows id _ _ =>
          match log_wait_next id (lw_hub w) with
          | (None, hub) => Some (set_hub hub w)
          | (Some item, hub) =>
              '(_, reader, buffer) ← reader_item (Some item) (lw_reader w) (lw_buffer w);
              Some (set_reader reader buffer (set_hub hub w))
          end
      | _ => Some w
      end
  | StepBreak =>
      '(_, reader, buffer) ← reader_item None (lw_reader w) (lw_buffer w);
      Some (set_reader reader buffer w)
  | StepTail =>
      '(_, reader, buffer) ← reader_tail (λ after, log_tail json_to_vec after (lh_broker (lw_hub w))) (lw_reader w) (lw_buffer w);
      Some (set_reader reader buffer w)
  | StepOpen id =>
      let '(_, reader, buffer, hub) :=
        reader_open id (λ after, let '(r, hub) := subscribe_logs id after (lw_hub w) in (match r with Ok _ => true | Err _ => false end, hub))
          (lw_hub w) (lw_reader w) (lw_buffer w) in
      Some (set_reader reader buffer (set_hub hub w))
  | StepTake generation =>
      let '(event, resume, buffer) := try_next generation (lw_resume w) (lw_buffer w) in
      Some (MkLogWorld (lw_source w) (lw_logged w) (lw_observer w) (lw_hub w) (lw_reader w) buffer resume
              (lw_events w ++ match event with Some (EventLogs _ records gap _) => [(records, gap)] | _ => [] end))
  | StepReconnect => Some (set_reader (ReaderOpens (lw_resume w)) connection_buffer_new w)
  end.

(** References are not reused, and the reader's subscription is served by its own thread only. *)
Definition step_ok (w : LogWorld) (op : LogStep) : Prop :=
  let mine id := match lw_reader w with ReaderFollows id' _ _ => id = id' | _ => False end in
  match op with
  | StepDrop count => 0 ≤ count
  | StepSubscribe id _ | StepOpen id => id ∉ lb_subscribers (lh_broker (lw_hub w))
  | StepWait id | StepEnd id => ¬ mine id
  | _ => True
  end.
Fixpoint log_run (w : LogWorld) (ops : list LogStep) : option LogWorld :=
  match ops with [] => Some w | op :: ops' => w' ← log_step w op; log_run w' ops' end.
Fixpoint steps_ok (w : LogWorld) (ops : list LogStep) : Prop :=
  match ops with
  | [] => True
  | op :: ops' => step_ok w op ∧ match log_step w op with Some w' => steps_ok w' ops' | None => True end
  end.

(** *** The invariant *)

Definition logged_view (logged : gmap Z CoreLogRecord) (v : ViewLogRecord) : Prop :=
  ∃ r, logged !! vl_sequence v = Some r ∧ v = view_log_of r.
Definition reader_after (r : LogReader) : option Z :=
  match r with ReaderFollows _ _ after | ReaderFetches _ after | ReaderOpens after => after | ReaderFailed => None end.
Definition reader_inv (logged : gmap Z CoreLogRecord) (hub : LogHub) (r : LogReader) : Prop :=
  match r with
  | ReaderFollows id stream after => stream = MkLogStream after false ∧ serves logged after id hub
  | ReaderFetches _ after | ReaderOpens after => below after (lb_sequence_horizon (lh_broker hub))
  | ReaderFailed => False
  end.
Definition events_state (w : LogWorld) : option Z * bool := foldl after_event (None, false) (lw_events w).

Record log_inv (w : LogWorld) : Prop := {
  lv_source : logged_inv (lw_logged w) (lw_source w);
  lv_broker : broker_inv (lw_logged w) (source_horizon (lw_source w)) (lw_observer w) (lh_broker (lw_hub w));
  lv_reader : reader_inv (lw_logged w) (lw_hub w) (lw_reader w);
  lv_buffer : buffer_at (logged_view (lw_logged w)) (events_state w) (lw_buffer w) (reader_after (lw_reader w));
  lv_shown : shown (None, false) (lw_events w);
  lv_good : Forall (λ e, Forall (logged_view (lw_logged w)) e.1) (lw_events w);
  lv_resume : lw_resume w = (events_state w).1;
}.

Lemma serves_below logged after id hub : serves logged after id hub → below after (lb_sequence_horizon (lh_broker hub)).
Proof. by intros [_ (q & _ & _ & Hb & _)]. Qed.
Lemma reader_below logged hub r : reader_inv logged hub r → below (reader_after r) (lb_sequence_horizon (lh_broker hub)).
Proof. destruct r; [intros [_ ?]; by eapply serves_below|done..]. Qed.
Lemma reader_keeps logged hub hub' r : keeps_serving logged hub hub' → reader_inv logged hub r → reader_inv logged hub' r.
Proof.
  intros [Hb Hk]. destruct r; cbn; [intros [? ?]; split; [done|by apply Hk]|by intros; eapply below_trans..|done].
Qed.

(** A new hub. *)
Lemma hub_inv w o' hub' :
  log_inv w → broker_inv (lw_logged w) (source_horizon (lw_source w)) o' (lh_broker hub') → reader_inv (lw_logged w) hub' (lw_reader w) →
  log_inv (MkLogWorld (lw_source w) (lw_logged w) o' hub' (lw_reader w) (lw_buffer w) (lw_resume w) (lw_events w)).
Proof. intros []. by split. Qed.

(** *** Logging *)

Section more_logged.
Context (logged logged' : gmap Z CoreLogRecord) (Hsub : logged ⊆ logged').

Lemma records_more rs : Forall (λ r, logged !! sequence r = Some r) rs → Forall (λ r, logged' !! sequence r = Some r) rs.
Proof. intros H. eapply Forall_impl; [exact H|]. intros r Hr. exact (lookup_weaken _ _ _ _ Hr Hsub). Qed.
Lemma serves_more after id hub : serves logged after id hub → serves logged' after id hub.
Proof.
  intros [Hin (q & Hq & Hd & Hb & Hs)]. split; [done|]. exists q. split; [done|]. split; [done|]. split; [done|].
  destruct (ls_awaiting_tail q); [done|]. destruct Hs as [(rs & ? & Hrs & ?) ?]. split; [|done]. exists rs. split; [done|]. by split; [apply records_more|].
Qed.
Lemma reader_more hub r : reader_inv logged hub r → reader_inv logged' hub r.
Proof. destruct r; [intros [? ?]; split; [done|by apply serves_more]|done..]. Qed.
Lemma view_more v : logged_view logged v → logged_view logged' v.
Proof. intros (r & Hr & ->). exists r. split; [exact (lookup_weaken _ _ _ _ Hr Hsub)|done]. Qed.
End more_logged.

Lemma source_inv w source' logged' :
  log_inv w → lw_logged w ⊆ logged' → logged_inv logged' source' → below (source_horizon (lw_source w)) (source_horizon source') →
  log_inv (MkLogWorld source' logged' (lw_observer w) (lw_hub w) (lw_reader w) (lw_buffer w) (lw_resume w) (lw_events w)).
Proof.
  intros [_ [Ho Ht Hn Hl Hr Hb Hd] Hrd [Hf Ha Hg Hc Hu Hdc] Hsh Hgood Hres] Hsub Hlog Htop. split; cbn; try done.
  - split; try done; [by eapply below_trans|by eapply records_more].
  - by eapply reader_more.
  - split; try done. eapply Forall_impl; [exact Hg|]. intros v. by apply view_more.
  - eapply Forall_impl; [exact Hgood|]. intros e He. eapply Forall_impl; [exact He|]. intros v. by apply view_more.
Qed.

Lemma log_op_inv w ts lvl src msg w' : log_inv w → log_step w (StepLog ts lvl src msg) = Some w' → log_inv w'.
Proof.
  intros Hinv. pose proof (lv_source _ Hinv) as [Hwf Hline Hkept Hlog]. cbn [log_step].
  pose proof (log_wf_push (lw_source w) ts lvl src msg Hwf) as Hwf'.
  destruct (push (lw_source w) ts lvl src msg) as [res source'] eqn:Hp. pose proof (push_inv _ _ _ _ _ _ _ Hwf Hp) as Hpush.
  destruct res as [seq|e]; intros [= <-].
  - destruct Hpush as (-> & Hlen & Hnext & gone & kept & Hrec & _ & _ & Hs'). set (r := MkCoreLogRecord _ _ _ _ _) in *.
    assert (lw_logged w ⊆ <[next_sequence (lw_source w) := r]> (lw_logged w)) as Hsub.
    { apply insert_subseteq. destruct (lw_logged w !! _) as [x|] eqn:Hx; [|done]. apply Hlog in Hx as (_ & Hx & _). lia. }
    apply source_inv; [done|done| |].
    + split; [exact Hwf'|by rewrite Hs'|..].
      * rewrite Hs'. cbn. apply Forall_app. split; [|constructor; [apply lookup_insert_eq|done]].
        rewrite Hrec in Hkept. apply Forall_app in Hkept as [_ Hkept]. by eapply records_more.
      * intros n x. rewrite lookup_insert. rewrite Hs'. cbn [next_sequence]. pose proof (log_next _ Hwf). case_decide as Hn.
        -- intros [= <-]. subst n. cbn. split; [done|]. split; [lia|]. by rewrite <-Hline.
        -- intros (? & ? & ?)%Hlog. split; [done|]. split; [lia|done].
    + rewrite Hs'. unfold source_horizon. cbn. pose proof (log_next _ Hwf). destruct (Z.ltb_spec 1 (next_sequence (lw_source w))); [|done].
      rewrite (proj2 (Z.ltb_lt _ _)) by lia. simpl. lia.
  - subst source'. by destruct w.
Qed.
Lemma drop_op_inv w count w' : log_inv w → 0 ≤ count → log_step w (StepDrop count) = Some w' → log_inv w'.
Proof.
  intros Hinv Hcount. pose proof (lv_source _ Hinv) as [Hwf Hline Hkept Hlog]. intros [= <-].
  pose proof (log_wf_drop (lw_source w) count Hcount Hwf) as Hwf'. revert Hwf'. unfold record_external_drop.
  destruct (count =? 0); [by destruct w|]. destruct (checked_add _ _) as [next|] eqn:Hn; [|by destruct w].
  apply checked_add_Some in Hn as [-> Hn]. intros Hwf'. cbn [snd] in *. apply source_inv; [done|done| |].
  - split; [done|done|done|]. intros n x (? & ? & ?)%Hlog. cbn. split; [done|]. split; [lia|done].
  - unfold source_horizon. cbn. destruct (Z.ltb_spec 1 (next_sequence (lw_source w))); [|done].
    rewrite (proj2 (Z.ltb_lt _ _)) by lia. simpl. lia.
Qed.

(** *** The broker and other subscriptions *)

Lemma observe_op_inv w w' : log_inv w → log_step w StepObserve = Some w' → log_inv w'.
Proof.
  intros Hinv. cbn [log_step]. destruct (forward_logs _ _ _ _) as [o' hub'] eqn:Hf. intros [= <-].
  destruct (forward_inv _ _ _ _ _ _ _ (lv_source _ Hinv) (lv_broker _ Hinv) Hf) as [Hb Hk].
  apply hub_inv; [done|done|]. eapply reader_keeps; [done|apply (lv_reader _ Hinv)].
Qed.
Lemma subscribe_op_inv w id after w' :
  log_inv w → step_ok w (StepSubscribe id after) → log_step w (StepSubscribe id after) = Some w' → log_inv w'.
Proof.
  intros Hinv Hid. cbn [log_step]. destruct (subscribe_logs _ _ _) as [res hub'] eqn:Hs. intros [= <-].
  destruct (subscribe_inv _ _ _ _ _ _ _ _ (lv_broker _ Hinv) Hid Hs) as (Hb & Hk & _).
  apply hub_inv; [done|done|]. eapply reader_keeps; [done|apply (lv_reader _ Hinv)].
Qed.
(** The subscription of someone else. *)
Lemma other_inv w held' :
  log_inv w →
  (∀ id stream after, lw_reader w = ReaderFollows id stream after → held' !! id = lh_subscriptions (lw_hub w) !! id) →
  log_inv (set_hub (MkLogHub (lh_broker (lw_hub w)) held') w).
Proof.
  intros Hinv Hsame. apply hub_inv; [done|apply (lv_broker _ Hinv)|]. pose proof (lv_reader _ Hinv) as Hr.
  destruct (lw_reader w) as [id stream after| | |]; [|done..]. destruct Hr as [? [Hin (q & Hq & Hs)]]. split; [done|]. split; [done|].
  exists q. split; [|done]. cbn. by rewrite (Hsame _ _ _ eq_refl).
Qed.
Lemma wait_op_inv w id w' : log_inv w → step_ok w (StepWait id) → log_step w (StepWait id) = Some w' → log_inv w'.
Proof.
  intros Hinv Hid. cbn [log_step step_ok] in *. unfold log_wait_next. destruct (lh_subscriptions (lw_hub w) !! id) as [q|]; [|intros [= <-]; by destruct w].
  destruct (log_pop_front q) as [item q']. intros [= <-]. apply other_inv; [done|]. intros id' stream after Hr. rewrite Hr in Hid.
  by rewrite lookup_insert_ne.
Qed.
Lemma end_op_inv w id w' : log_inv w → step_ok w (StepEnd id) → log_step w (StepEnd id) = Some w' → log_inv w'.
Proof.
  intros Hinv Hid [= <-]. cbn [step_ok] in Hid. apply other_inv; [done|]. intros id' stream after Hr. rewrite Hr in Hid. by rewrite lookup_delete_ne.
Qed.

(** *** The reader and the interface *)

Lemma reader_op_inv w reader' buffer' :
  log_inv w → reader_inv (lw_logged w) (lw_hub w) reader' →
  buffer_at (logged_view (lw_logged w)) (events_state w) buffer' (reader_after reader') →
  log_inv (set_reader reader' buffer' w).
Proof. intros []. by split. Qed.
Lemma reader_hub_inv w hub' reader' buffer' :
  log_inv w → broker_inv (lw_logged w) (source_horizon (lw_source w)) (lw_observer w) (lh_broker hub') →
  reader_inv (lw_logged w) hub' reader' → buffer_at (logged_view (lw_logged w)) (events_state w) buffer' (reader_after reader') →
  log_inv (set_reader reader' buffer' (set_hub hub' w)).
Proof. intros []. by split. Qed.
Lemma status_op_inv w status w' : log_inv w → log_step w (StepStatus status) = Some w' → log_inv w'.
Proof.
  intros Hinv [= <-]. apply reader_op_inv; [done|apply (lv_reader _ Hinv)|]. pose proof (lv_buffer _ Hinv) as [? ? ? ? ? Hd].
  unfold buffer_publish_status. rewrite Hd. cbn [snd]. by split.
Qed.
Lemma break_op_inv w w' : log_inv w → log_step w StepBreak = Some w' → log_inv w'.
Proof.
  intros Hinv. pose proof (reader_below _ _ _ (lv_reader _ Hinv)) as Hb. pose proof (lv_buffer _ Hinv) as Hbuf. pose proof (lv_reader _ Hinv) as Hr.
  cbn [log_step]. destruct (lw_reader w) as [id stream after| | |] eqn:Hw; cbn; intros [= <-]; by apply reader_op_inv.
Qed.
Lemma take_op_inv w g w' : log_inv w → log_step w (StepTake g) = Some w' → log_inv w'.
Proof.
  intros Hinv. pose proof (take_event_at _ _ _ _ g (lv_buffer _ Hinv)) as Ht. cbn [log_step]. unfold try_next.
  destruct Hinv as [Hs Hb Hr Hbuf Hsh Hg Hres]. destruct (take_event g (lw_buffer w)) as [[[g' status|g' records gap dropped|g']|] buffer']; [| |done|].
  - intros [= <-]. rewrite app_nil_r. by split.
  - destruct Ht as (Hf & Hgood & Hat). intros [= <-]. split; cbn; try done; unfold events_state; cbn; rewrite ?foldl_app; cbn [foldl]; try done.
    + rewrite shown_snoc. by split.
    + apply Forall_app. by split; [|constructor].
    + rewrite Hres. cbn. rewrite reached_last. unfold view_sequences. rewrite fmap_last. destruct (last records) as [r|] eqn:Hl; cbn; [|done].
      apply follows_rising in Hf. assert (vl_sequence r ∈ view_sequences records) as Hin by (by apply list_elem_of_fmap_2, last_Some_elem_of).
      destruct (rising_bound _ _ _ Hf Hin) as [_ Hlt]. unfold events_state in *. destruct (foldl after_event (None, false) (lw_events w)).1; [|done].
      simpl. f_equal. lia.
  - intros [= <-]. rewrite app_nil_r. by split.
Qed.

Lemma read_op_inv w : log_inv w → ∃ w', log_step w StepRead = Some w' ∧ log_inv w'.
Proof.
  intros Hinv. pose proof (lv_reader _ Hinv) as Hr. pose proof (lv_buffer _ Hinv) as Hbuf. pose proof (lv_source _ Hinv) as Hsrc. cbn [log_step].
  destruct (lw_reader w) as [id stream after| | |] eqn:Hw; [|by exists w..]. destruct Hr as [-> [Hin (q & Hq & Hs)]].
  unfold log_wait_next. rewrite Hq. pose proof (sub_pop _ _ _ _ Hs) as Hpop. destruct (log_pop_front q) as [[[record|a latest]|] q'].
  - destruct Hpop as (r & -> & Hlog & Hnext & Hs'). destruct (li_logged _ _ Hsrc _ _ Hlog) as (_ & Hn & Hlen).
    pose proof (log_next _ (li_wf _ _ Hsrc)) as Hmax. cbn [reader_item].
    rewrite read_record by (done || lia). rewrite convert_logged by done. cbn [mbind option_bind]. unfold buffer_publish_log, is_covered.
    rewrite (ba_connected _ _ _ _ Hbuf), (ba_uncovered _ _ _ _ Hbuf). cbn [orb]. eexists. split; [reflexivity|].
    assert (buffer_at (logged_view (lw_logged w)) (events_state w) (buffer_push (view_log_of r) (lw_buffer w)) (Some (sequence r))) as Hpush.
    { apply (push_at _ _ _ after); [done|by exists r|]. destruct after as [a|]; [|done]. cbn. split; [lia|by right]. }
    apply reader_hub_inv; [done|apply (lv_broker _ Hinv)| |exact Hpush].
    split; [done|]. split; [done|]. exists q'. cbn. by rewrite lookup_insert_eq.
  - destruct Hpop as [-> Hl]. cbn [reader_item]. rewrite read_gap by done. eexists. split; [reflexivity|].
    apply reader_hub_inv; [done|apply (lv_broker _ Hinv)|apply Hs|exact Hbuf].
  - subst q'. eexists. split; [reflexivity|]. apply other_inv; [done|]. intros id' stream' after' Hr. rewrite Hw in Hr. injection Hr as <- _ _.
    by rewrite lookup_insert_eq.
Qed.
Lemma tail_op_inv w :
  log_inv w → ∃ w', log_step w StepTail = Some w' ∧ log_inv w'.
Proof.
  intros Hinv. pose proof (reader_below _ _ _ (lv_reader _ Hinv)) as Hb. pose proof (lv_buffer _ Hinv) as Hbuf. pose proof (lv_source _ Hinv) as Hsrc.
  cbn [log_step]. unfold reader_tail. destruct (lw_reader w) as [|recovering after| |] eqn:Hw; [by exists w; split; [cbn; rewrite <-Hw; destruct w|]| |by exists w; split; [cbn; rewrite <-Hw; destruct w|]..].
  destruct (log_tail_spec json_to_vec (lw_logged w) _ _ _ after (lv_broker _ Hinv) Hb) as (rs & Hrs & Hlog & Hh & Hf & Hbelow & Hreach).
  { unfold source_horizon. intros t. pose proof (log_next _ (li_wf _ _ Hsrc)). destruct (1 <? _); intros [= <-]. lia. }
  set (tail := log_tail json_to_vec after (lh_broker (lw_hub w))) in *. cbn [reader_after] in *.
  assert (sequence_reset after tail = false) as Hreset.
  { unfold sequence_reset. rewrite Hh. destruct after as [a|], (lb_sequence_horizon _); simpl in *; try done. apply Z.ltb_ge. lia. }
  rewrite Hreset, andb_false_r.
  destruct (publish_tail_at (logged_view (lw_logged w)) (events_state w) (lw_buffer w) after rs tail) as (wake & b' & -> & Hat & Hgap); try done.
  { eapply Forall_impl; [exact Hlog|]. intros r Hr. by apply (li_logged _ _ Hsrc) in Hr as (_ & _ & ?). }
  { apply Forall_fmap. eapply Forall_impl; [exact Hlog|]. intros r Hr. by exists r. }
  cbn [mbind option_bind]. eexists. split; [reflexivity|]. rewrite Hh. apply reader_op_inv; [done|apply below_refl|].
  destruct (tail_gap tail) eqn:Hg; [|by rewrite <-(Hreach eq_refl)]. by eapply buffer_at_skip; [|apply Hgap|].
Qed.
Lemma open_op_inv w id : log_inv w → step_ok w (StepOpen id) → ∃ w', log_step w (StepOpen id) = Some w' ∧ log_inv w'.
Proof.
  intros Hinv Hid. pose proof (lv_reader _ Hinv) as Hr. pose proof (lv_buffer _ Hinv) as Hbuf. cbn [log_step step_ok] in *. unfold reader_open.
  destruct (lw_reader w) as [| |after|] eqn:Hw; [by exists w; split; [cbn; rewrite <-Hw; destruct w|]..| |by exists w; split; [cbn; rewrite <-Hw; destruct w|]].
  destruct (subscribe_logs id after (lw_hub w)) as [res hub'] eqn:Hs.
  destruct (subscribe_inv _ _ _ _ _ _ _ _ (lv_broker _ Hinv) Hid Hs) as (Hb & _ & Hserve). destruct (Hserve Hr) as [-> Hserves].
  eexists. split; [reflexivity|]. by apply reader_hub_inv.
Qed.
Lemma reconnect_op_inv w w' : log_inv w → log_step w StepReconnect = Some w' → log_inv w'.
Proof.
  intros Hinv [= <-]. pose proof (reader_below _ _ _ (lv_reader _ Hinv)) as Hb. pose proof (lv_buffer _ Hinv) as [Hf Ha _ _ _ _].
  apply follows_rising, rising_reached in Hf. apply reader_op_inv; [done| |]; cbn; rewrite (lv_resume _ Hinv).
  - eapply below_trans; [|exact Hb]. eapply below_trans; [exact Hf|]. destruct (reached _ _) as [n|]; [|done].
    destruct (Ha n eq_refl) as (a & -> & ? & _). simpl. lia.
  - split; cbn; try done; [apply follows_nil|]. intros n ->. exists n. split; [done|]. split; [lia|done].
Qed.

Lemma step_inv w op : log_inv w → step_ok w op → ∃ w', log_step w op = Some w' ∧ log_inv w'.
Proof.
  intros Hinv Hok. destruct op.
  - eexists. split; [reflexivity|]. by eapply log_op_inv.
  - eexists. split; [reflexivity|]. by eapply drop_op_inv.
  - destruct (log_step w StepObserve) as [w'|] eqn:H; [|cbn in H; by destruct (forward_logs _ _ _ _)]. exists w'. split; [done|]. by eapply observe_op_inv.
  - eexists. split; [reflexivity|]. by eapply subscribe_op_inv.
  - eexists. split; [reflexivity|]. by eapply wait_op_inv.
  - eexists. split; [reflexivity|]. by eapply end_op_inv.
  - eexists. split; [reflexivity|]. by eapply status_op_inv.
  - by apply read_op_inv.
  - destruct (log_step w StepBreak) as [w'|] eqn:H; [|cbn in H; by destruct (lw_reader w)]. exists w'. split; [done|]. by eapply break_op_inv.
  - by apply tail_op_inv.
  - by apply open_op_inv.
  - destruct (log_step w (StepTake generation)) as [w'|] eqn:H; [|cbn in H; by destruct (try_next _ _ _) as [[? ?] ?]].
    exists w'. split; [done|]. by eapply take_op_inv.
  - eexists. split; [reflexivity|]. by eapply reconnect_op_inv.
Qed.
Lemma run_inv w ops : log_inv w → steps_ok w ops → ∃ w', log_run w ops = Some w' ∧ log_inv w'.
Proof.
  revert w; induction ops as [|op ops IH]; intros w Hinv; [by exists w|]. intros [Hok Hops]. destruct (step_inv w op Hinv Hok) as (w1 & Hs & Hinv1).
  cbn [log_run]. rewrite Hs in *. by apply IH.
Qed.

(** A daemon that starts, and an interface that connects some time later. *)
Definition log_start (source : LogBuffer) (broker : LogBrokerState) : LogWorld :=
  MkLogWorld source ∅ (MkLogObserver None false) (MkLogHub broker ∅) (ReaderOpens None) connection_buffer_new None [].

Lemma start_inv cap source log_capacity broker :
  log_buffer_new cap CORE_LOG_LINE_MAX_BYTES = Ok source → 0 ≤ cap → log_broker_new log_capacity = Ok broker → log_inv (log_start source broker).
Proof.
  intros Hs Hcap Hb. pose proof (log_wf_new cap CORE_LOG_LINE_MAX_BYTES source) as Hwf.
  unfold log_buffer_new in Hs. destruct (_ || _) eqn:Hc; [done|]. injection Hs as <-.
  unfold log_broker_new in Hb. destruct (log_capacity =? 0); [done|]. injection Hb as <-.
  split; cbn; try done.
  - split; cbn; [apply Hwf; [exact Hcap|unfold CORE_LOG_LINE_MAX_BYTES; lia|unfold log_buffer_new; by rewrite Hc]|done|constructor|]. intros n r. by rewrite lookup_empty.
  - split; cbn; try done; constructor.
Qed.

End system.

(** ** Examples *)

Definition log_line (n : N) : LogStep := StepLog 0 Info Stdout [n].
Definition sample_steps : list LogStep :=
  [log_line 65; StepObserve; StepOpen 1; log_line 66; log_line 67; StepObserve; StepRead; StepRead; StepTake 1;
   StepDrop 5; StepObserve; StepRead; StepTail; log_line 68; StepOpen 2; StepObserve; StepRead; StepTake 1;
   StepReconnect; log_line 69; StepObserve; StepOpen 3; StepRead; StepTake 2].
Definition sample_source : LogBuffer := MkLogBuffer 10 CORE_LOG_LINE_MAX_BYTES 1 0 0 [].
Definition sample_broker : LogBrokerState := MkLogBrokerState 4 0 0 false None [] [].


(** [fetch_log_tail] asks for a tail and then calls [apply_tail_coverage].  What the reader does in between may be undone: here
    the tail reaches line 10, the lines 11 to 310 arrive while it is on its way and the buffer drops the first
    forty-four of them.  The next event holds the lines from 55 on and says that there is no gap. *)
Definition view_line (n : Z) : ViewLogRecord := MkViewLogRecord n 0 Info Stdout (lit "m").
Lemma coverage_hides_loss :
  let b := foldl (λ b n, (buffer_publish_log (view_line n) b).2) connection_buffer_new (seqZ 11 300) in
  cb_gap b = true ∧
  (take_event 0 (apply_tail_coverage (Some 10) 0 b)).1 = Some (EventLogs 0 (view_line <$> seqZ 55 256) false 44).
Proof. cbv zeta. split; vm_compute; reflexivity. Qed.
